(* ===== verification/_CoqProject ===== *)
-Q . S2P
Prelude.v
Canonical.v
ZeroRef.v
Zbf.v
DurableStore.v
DurableJournal.v
DurableProtocol.v
DurableTheorems.v
FixedCodec.v
DurableWitness.v
AttemptJournal.v
AttemptProtocol.v
AttemptTheorems.v
Ordering.v
RobustSnap.v
Identity.v
Reasoning.v
Evidence.v
Effect.v
Quality.v
SemanticCut.v
EffectWitness.v
GateTransaction.v
GateTheorems.v
GateWitness.v
Recovery.v
RecoveryMasks.v
RecoveryPlan.v
RecoverySolve.v
RecoveryTheorems.v
RecoveryWitness.v
KernelCore.v
Deoptimization.v
DeoptTheorems.v
TwoPhase.v
KernelExecution.v
KernelTheorems.v
KernelWitness.v
DurablePublication.v
DurablePublicationTheorems.v
DurablePublicationWitness.v
KernelTransaction.v
KernelTransactionTheorems.v
Sums.v
Ledger.v
CausalWork.v
BMap.v
ChargingMaps.v
Campaign.v
Usage.v
LedgerWitness.v
BTree.v
Invalidation.v
Recompute.v
Dirty.v
ProjectGraph.v
Grades.v
Reserve.v
Coverage.v
GcTime.v
GcRefs.v
StoreTree.v
Cas.v
Gc.v
GcMarkTheorems.v
CasTheorems.v
GcSweep.v
GcTheorems.v
GcPublication.v
GcWitness.v
Gauge.v
Decision.v
ExecDag.v
Representation.v
LivePareto.v
Residency.v
Mmr.v
Csr.v
