(* ===== verification/Prelude.v ===== *)
(** * A verification of the ZeroStack core

    ZeroStack couples a durable transaction store, a portable reference and
    object format, the ZeroGate kernel that admits, executes and certifies
    one effect at a time, and the GraphZero knowledge graph.  This library models
    the parts whose correctness the rest of the system relies on and proves
    what they promise.  Every model is a translation of Rust source under
    [src/crates]; a definition carries the name of the item it translates
    where that name is free.

    ** Parts and files

    - [Prelude] (this file): [result] and its binds, case-analysis tactics,
      machine widths, bytes, big-endian integers, slices.
    - [Canonical]: canonical JSON ([zero-abi/src/schema.rs]) and the
      hexadecimal form of digests ([zero-abi/src/assembly.rs]).
    - [ZeroRef]: portable references ([zero-ref/src/lib.rs]): parsing and
      printing, line-offset tables, fragment selection, span references.
    - [Zbf]: the ZBF object codec ([zero-abi/src/zbf.rs]): headers, bounded
      recursive containers, the strict decoder, profile contracts.
    - [DurableStore]: what both journals of zero-store share: the file store,
      crash points and failing system calls, atomic replacement, write-once
      records, canonical reads, and the predicate transformer [wp] with which
      the journals are executed symbolically.
    - [DurableJournal]: [zero-store/src/durable_journal.rs], every operation of
      both binding formats (class [JournalBindingLike] is the source's trait).
      [DurableProtocol]: the abstract transaction protocol (a phase, a root
      flag and the receipts) and the refinement of each operation to it.
      [DurableTheorems]: histories of operations and the guarantees.
      [DurableWitness]: a concrete transaction.
    - [FixedCodec]: fixed-width record codecs, which instantiate the class
      [Codec] in the concrete runs.
    - [AttemptJournal], [AttemptProtocol], [AttemptTheorems]: the same
      for [zero-store/src/attempt_journal.rs], the
      append-only chain of one external effect's attempt.
    - [Ordering]: [Ord], sorting, binary search and ordered sets of the Rust
      standard library, as zero-abi and zero-gate use them.  [Identity]:
      digests, framing and JSON values the certificates share.
    - [Reasoning], [RobustSnap], [Effect]: [zero-abi/src/reasoning.rs],
      [robust_snap.rs] and [effect.rs]: reasoning contracts and strict
      no-downshift admission, robust-snap certificates, effect programs with
      their rollback and admission.
    - [Evidence], [EffectWitness]: [zero-cert/src/lib.rs] and
      [effect_witness.rs]: verification of evidence certificates against the
      objects they quote, and the outcome of verifying an effect.
    - [Quality], [SemanticCut]: [zero-gate/src/quality.rs] and
      [semantic_cut.rs]: outcome certificates with strict selection, and exact
      terminal equivalence of a compiled plan.
    - [GateTransaction], [GateTheorems], [GateWitness]:
      [zero-gate/src/transaction.rs]: effect closures, and transactions over
      the durable journal whose histories are those of [DurableTheorems].
    - [KernelCore], [TwoPhase], [KernelExecution], [KernelTheorems],
      [KernelWitness]: [zero-gate/src/two_phase.rs].  [TwoPhase] is phase one:
      guards G0 to G7 over the evidence of the files above, and the permit;
      [KernelExecution] is phase two: the brokered execution of the permitted
      plan, its closure by a transaction receipt or a baseline execution, and
      the final receipts.
    - [Deoptimization], [DeoptTheorems]: [zero-gate/src/deoptimization.rs], the
      route from a failed candidate back to the frozen baseline: safepoint,
      plan, restoration, invocation, execution receipt.
    - [Recovery], [RecoveryMasks], [RecoveryPlan], [RecoverySolve],
      [RecoveryTheorems], [RecoveryWitness]: [zero-gate/src/recovery.rs],
      dominance-complete recovery: problems of worlds and protected effects,
      conflict hyperedges over bit masks, the memoized search for the cheapest
      adaptive queries, and conditioning on an answer.
    - [DurablePublication], [DurablePublicationTheorems],
      [DurablePublicationWitness]: [zero-gate/src/durable_publication.rs], where
      kernel receipts, the durable journal and native evidence meet.
    - [KernelTransaction], [KernelTransactionTheorems]:
      [zero-kernel/src/transaction.rs], the journaled file effects of one cell
      over the interface [FileEngine], their settlement and their reconciliation
      after a crash.
    - [StoreTree]: the directory tree of a store, its system calls and
      [zero-store/src/fs_replace.rs]; [Cas], [CasTheorems]:
      [cas.rs] and [gc_lock.rs], the content-addressed objects and the
      coordination lock; [GcTime], [GcRefs], [Gc], [GcSweep]: [gc.rs], its
      timestamps, the references inside containers, records and marking, and
      reports, sweeping, publication and repair; [GcMarkTheorems],
      [GcTheorems], [GcPublication], [GcWitness]: what they guarantee.
    - [Sums] and [BMap]: checked sums, fractions in lowest terms, and ordered
      maps as association lists, for zero-ledger.
    - [Ledger] ([zero-ledger/src/lib.rs] and [fresh_work.rs]), [CausalWork]
      ([causal_work.rs]), [ChargingMaps] ([charging_maps.rs] and
      [resource_classes.rs]), [Campaign] ([campaign.rs] and [frontier.rs]) and
      [Usage] ([usage.rs]); [LedgerWitness] has their concrete inputs.
    - [Coverage]: graphzero-coverage, bitmaps, freshness,
      certificates and three-answer query results.
    - [Gauge]: zero-gauge, exact rationals over 256-bit products and the hit-rate solver ([solver.rs]), zero-failure
      certification in fixed point ([bounds.rs]), multipliers
      ([hundredfold.rs]).
    - [Decision]: [zero-abi/src/verdict.rs] and [decision.rs], trivalent
      verdicts over premises and contingent policies; [ExecDag]:
      [exec_dag.rs], the dependency graph of a plan.
    - [Residency]: [zero-gate/src/residency.rs], demand windows, plans, the eviction guard and the layer-validity ledger.
    - [Representation]: [tokenzero-core/src/representation_economics.rs], resource vectors,
      the Pareto frontier and least-cost segmentation; [LivePareto]:
      [live_pareto.rs], decisions over candidates bound to their evidence.
    - [Mmr]: [graphzero-store/src/store/mmr.rs], the transparency log, a Merkle
      mountain range with its file format and inclusion proofs; [Csr]:
      [csr.rs], compressed adjacency rows with evidence and reverse indexes
      placed by counting.
    - [BTree]: ascending iteration over maps and sets, for the ordered
      collections of GraphZero.
    - [Invalidation] and [Recompute]: [graphzero-core/src/invalidation.rs], the
      influence graph, its closure and topological order, and the engine that
      rebuilds in full and incrementally.
    - [Dirty]: [graphzero-core/src/dirty.rs] with the schema stamps of
      [graphzero-types/src/schema_version.rs].
    - [ProjectGraph]: [graphzero-core/src/graph.rs] and [truth.rs].
    - [Grades]: [graphzero-core/src/grades.rs], the evidence-grade ledger.
    - [Reserve]: the reservation service of graphzero-reserve.

    ** State and effects

    The journals run in a state-error monad over a [World]: a map from paths
    to file entries and a fault plan.  An oracle decides for every system
    call whether it fails, and the fault plan crashes at one named boundary,
    as the source's own fault injection does; a crash is an operation that
    ends in an error and leaves the files written so far.  A history
    ([evolves]) is any finite sequence of operations with any oracles, plans,
    clocks and arguments.  The GraphZero ledgers and graphs are records that
    operations take and return; the reservation service runs in the same
    monad over its log.  The kernel's execution is a record that each broker
    call takes and returns; a reachable execution ([runs]) is a permit started
    at some time and any finite sequence of accepted calls.  A computation that can panic in Rust (an index, an
    [unwrap], an overflowing addition, an underflowing decrement) returns
    [Panicked], and the theorems say when that cannot happen.

    ** What the theorems show

    - Durable journal: the publication law over every history, total and
      idempotent recovery, finality of outcomes, success without failures,
      refusals; atomicity of a replacement with an honest publication flag.
    - Attempt journal: the chain law, append-only growth, no dispatch of an
      attempt declared safe to retry, exact and idempotent classification by
      recovery.
    - ZBF and references: encoding and strict decoding are inverse on objects
      whose nested headers name the expected assembly, decoding is bounded; printing and parsing references are inverse; selection over
      the offset table equals its reference denotation; span references
      return exactly the recorded bytes.
    - Kernel: [prepare] is fail-closed and its trace exact; every reachable
      execution stays inside its lease, plan and envelope with nothing visible
      or staged before verification; a commit is earned by one shielded
      action committed from the bound snapshot; a fallback publishes nothing
      and is fully accounted; genuine permits and receipts validate.
    - Deoptimization: an execution receipt proves an exact fallback inside its
      reserve, and the route never dead-ends.
    - Transactions: a receipt after any history of journal operations and
      crashes tells the truth about the published root; closures list exactly
      the requested resources.
    - Recovery: hyperedges are exactly the minimal conflicts, the plan is the
      least expected cost over all strategies, decisions hold of their problem
      with true reasons, overflow included, and every observation narrows it.
    - Durable publication: a commit is released as journal-verified exactly
      when its root is the published one, which it stays.
    - Cell transactions: a rollback or compensation that succeeds, a drop that
      ends rolled back and a successful recovery from a crash at one of four
      points give back the plain places as they were, but for those the code
      can leak (which are named); a drop or a recovery can end
      recovery-required instead; commits are journaled; a retried commit need
      not be.
    - Object store and collection: a put publishes its bytes and disturbs no
      other object; a run removes only old objects that nothing named keeps; a
      leased object survives every run; references are the embedded objects at
      any depth; timestamps round-trip to the year 9999.
    - Ledger: accepted charges are counted once, receipts are truthful at their
      exact fractions, charging conserves the measured total, break-even
      horizons are least, attribution is a rearrangement.
    - Coverage: a bitmap is a set of marks, and a query is answered absent
      exactly at full fresh coverage.
    - Gauge: the solver decides feasibility of hit rates and agrees with direct
      evaluation for denominators up to [2^64], certification and the least
      number of trials are exact for success targets with denominators up to
      [2^127], required coverage is least; beyond these widths two arithmetic
      faults are exhibited.
    - Plans: a verdict over premises is fail-closed and a policy selects by its
      first matching rule; the topological order is the greedy least one and
      exists exactly for orderable plans, layers are what is ready together,
      the critical path is a heaviest chain (its sums checked, as in a debug
      build, where a release build wraps), crossing is fail-closed and the
      digest does not depend on the listing.
    - Residency: window availability, plan authorization and the eviction guard
      are exact while scaled masses fit 64 bits; the layer ledger is followed
      over every history, where the code lets a tombstone take L2 validity away
      against its documentation.
    - Representations: the dynamic program returns a tiling of least cost, for
      one tokenizer and for several; frontiers are exactly what nothing
      dominates, and dominate the rest; a live decision passes its own check.
    - Effect programs: the constructors return exactly the valid programs and
      admissions with the given members.
    - Certificates: search and diff evidence is complete and exact; robust
      snaps, semantic cuts, effect admission, rollback, reasoning admission
      and quality selection are characterised exactly; accepted effects are
      bound to one verification step.
    - Influence graph: the closure is reachability, Kahn's loop decides
      acyclicity, a full rebuild computes the unique settled state, the
      incremental pass with its cutoff computes the same state, and the
      cutoff report is honest.
    - Grades: every grade is earned; revocation is exact with the dependence
      the code tests, which is wider than the one it documents; history is
      append-only.  Project graph: facts stay anchored, absence
      certificates are sound.  Dirty sets are exact.
    - Graph store: every leaf of the transparency log has a proof that verifies,
      and what verifies is a leaf, an inner node of its tree, or rests on a
      hashed pair that collides with one of the tree or is a leaf; its file reads
      back; compressed rows hold the inserted edges in order with their
      evidence, and the reverse index lists exactly the edges into a target.
    - Reservations: exclusion over every interleaving with clock readings in
      any order, but for declarations that revive an acquisition; exact
      verdicts, releases and queries.

    ** Parameters and bounds

    SHA-256 and serde are parameters ([Platform], [Codec]) with the laws used
    stated as classes ([PlatformOk], [CodecOk]) and met by concrete
    instances in the witnesses; producer closures, footprints of one intent,
    hash-set iteration order, the crate version and the digest of the
    kernel's contract manifest are arguments, and decoding JSON text into a
    record is the class [FromSlice].  Recursion
    the source bounds itself takes that bound as fuel and the fuel is shown
    to suffice: seventeen levels for ZBF decoding (the source refuses
    nesting deeper than sixteen), eight entries for an attempt chain, one round per seed
    and target for the closure, one per node for Kahn's loop, and one per
    pair of records, plus one, for a revocation's cascade, 65,537 rounds of the
    hyperedge loop (one per mask of sixteen worlds, plus one), one level per
    world, plus one, for the recovery search, and 257 rounds of Euclid's
    algorithm on 128-bit operands (129 on 64-bit ones), 64 rounds each of
    the binary power, the doubling and the binary search of trial counts, one
    round per node for the loops over a plan, one per position for the
    segmentation, and 32 mountains for a log of fewer than [2^32] leaves.  The number of
    symbols of a graph is cut to 32 bits where the source casts it, and the
    reverse index is exact below [2^32].  The full rebuild counts the source's own guard.  Collecting references takes eighteen levels
    (the source refuses more than sixteen), and the search for an unused name
    one round per entry of the directory, plus one.  A file engine enters cell transactions
    through the laws of [FileEngineOk], which are asked only of plain places:
    where no symbolic link is at, leads to or leads through a path, since
    zero-fs reads through a link but replaces the link itself.  64-bit floats are the executable IEEE
    754 operations of the standard library.

    A store tree has files, directories and links; a link is recognised where
    the source stats without following and is not followed as an intermediate
    component.  An oracle decides which system calls fail, what the clock
    reads and whether the wait for the lock ends in it; the lock holder is the
    only one who changes the tree.  The records' serde codecs and the texts of
    paths and errors in evidence are classes ([GcCodecs], [SweepCodecs],
    [GcDisplay]), the unlink hook is absent, and [validate_dry_run_report] is
    stated on the fields of the report it is applied to.

    ** What is not modelled

    In the journals symbolic links, temporary file names and concurrent writers,
    error detail texts and [Display] output.  Of
    graphzero-reserve the snapshot walk behind one footprint and the log file
    format; of the certificates the constant contract manifests, and the
    byte decoders that only wrap [FromSlice] where a file says so.  Not yet:
    the aggregate and planning gates of zero-gate, the kernel host and runtime,
    the event log, migrations and scrub of zero-store, the adaptive evaluation and
    reports of zero-gauge, and the tokenizers, views and model artifacts of
    tokenzero-core, and of graphzero-store the indexer, the shard files and
    the queries; process control, transports,
    adapters, parsers and the script engine are input/output or third-party
    code. *)

From stdpp Require Export base list strings gmap option numbers.
From Stdlib Require Export Ascii.

(** * Results

    [Result<T, E>] of the source; [?] is the monadic bind. *)

Inductive result (E A : Type) : Type :=
| Ok (a : A)
| Err (e : E).
Global Arguments Ok {E A} a.
Global Arguments Err {E A} e.

#[global] Instance result_ret E : MRet (result E) := fun A a => Ok a.
#[global] Instance result_bind E : MBind (result E) :=
  fun A B f m => match m with Ok a => f a | Err e => Err e end.

Declare Scope zs_scope.
Delimit Scope zs_scope with zs.
Open Scope zs_scope.

(** [let? x := m in k]: the source's [let x = m?; k]. *)
Notation "'let?' x ':=' m 'in' k" := (mbind (M := result _) (fun x => k) m)
  (at level 10, x pattern, m at level 100, k at level 200) : zs_scope.

(** [guard? c 'else' e 'in' k]: [if !c { return Err(e) }; k]. *)
Notation "'guard?' c 'else' e 'in' k" := (if c then k else Err e)
  (at level 10, c at level 100, e at level 100, k at level 200) : zs_scope.

(** [reject? c 'with' e 'in' k]: [if c { return Err(e) }; k]. *)
Notation "'reject?' c 'with' e 'in' k" := (if c then Err e else k)
  (at level 10, c at level 100, e at level 100, k at level 200) : zs_scope.

Definition is_ok {E A} (r : result E A) : bool :=
  match r with Ok _ => true | Err _ => false end.

Definition ok_or {E A} (o : option A) (e : E) : result E A :=
  match o with Some a => Ok a | None => Err e end.

#[global] Instance result_eq_dec E A `{EqDecision E, EqDecision A} : EqDecision (result E A).
Proof. solve_decision. Defined.

Lemma bind_Ok_inv {E A B} (f : A -> result E B) (m : result E A) (b : B) :
  mbind (M := result E) f m = Ok b -> exists a, m = Ok a /\ f a = Ok b.
Proof. destruct m; simpl; [eauto | done]. Qed.

Lemma ok_or_Ok_inv {E A} (o : option A) (e : E) (a : A) : ok_or o e = Ok a -> o = Some a.
Proof. destruct o; [by intros [= ->] | done]. Qed.

(** [for x in xs { f(x)?; }]. *)
Fixpoint for_each {E A} (f : A -> result E ()) (l : list A) : result E () :=
  match l with
  | [] => Ok ()
  | x :: l' => let? _ := f x in for_each f l'
  end.

Lemma bind_unit_Ok {E B} (m : result E ()) (k : result E B) (b : B) :
  mbind (M := result E) (fun _ => k) m = Ok b <-> m = Ok () /\ k = Ok b.
Proof. destruct m as [[]|e]; cbn; naive_solver. Qed.

Lemma guard_Ok {E B} (c : bool) (e : E) (k : result E B) (b : B) :
  (guard? c else e in k) = Ok b <-> c = true /\ k = Ok b.
Proof. destruct c; naive_solver. Qed.

Lemma reject_Ok {E B} (c : bool) (e : E) (k : result E B) (b : B) :
  (reject? c with e in k) = Ok b <-> c = false /\ k = Ok b.
Proof. destruct c; naive_solver. Qed.

(** [m.map_err(|_| e)]. *)
Definition map_err {E F A} (e : F) (m : result E A) : result F A :=
  match m with Ok a => Ok a | Err _ => Err e end.

Lemma map_err_Ok {E F A} (e : F) (m : result E A) (a : A) : map_err e m = Ok a <-> m = Ok a.
Proof. destruct m; naive_solver. Qed.

Lemma for_each_Ok {E A} (f : A -> result E ()) (l : list A) :
  for_each f l = Ok () <-> forall x, x ∈ l -> f x = Ok ().
Proof.
  induction l as [|y l IH]; cbn; [split; [intros _ x Hx; by apply elem_of_nil in Hx|done]|].
  rewrite bind_unit_Ok, IH. setoid_rewrite elem_of_cons. naive_solver.
Qed.

(** * Case analysis

    [inv_ok] decomposes a hypothesis [m = Ok b] built from binds, guards and
    matches; [go] adds first-order closing. *)

Ltac inv_ok1 :=
  match goal with
  | H : mbind _ _ = Ok _ |- _ =>
      let a := fresh "a" in let Ha := fresh "Ha" in
      apply bind_Ok_inv in H; destruct H as (a & Ha & H)
  | H : ok_or _ _ = Ok _ |- _ => apply ok_or_Ok_inv in H
  | H : map_err _ _ = Ok _ |- _ => apply map_err_Ok in H
  | H : Err _ = Ok _ |- _ => discriminate H
  | H : Ok _ = Ok _ |- _ => injection H as H; try subst
  | H : (if ?c then _ else _) = Ok _ |- _ => destruct c eqn:?; try discriminate H
  | H : (match ?c with _ => _ end) = Ok _ |- _ => destruct c eqn:?; try discriminate H
  end.

Ltac inv_ok := repeat (inv_ok1; simpl in *).

(** Turn boolean comparisons of the context and goal into propositions. *)
Ltac breflect :=
  repeat match goal with
  | H : bool_decide _ = true |- _ => apply bool_decide_eq_true_1 in H
  | H : bool_decide _ = false |- _ => apply bool_decide_eq_false_1 in H
  | H : (_ && _)%bool = true |- _ => apply andb_true_iff in H; destruct H
  | H : (_ || _)%bool = false |- _ => apply orb_false_iff in H; destruct H
  | H : negb _ = true |- _ => apply negb_true_iff in H
  | H : negb _ = false |- _ => apply negb_false_iff in H
  | H : (_ =? _)%N = true |- _ => apply N.eqb_eq in H
  | H : (_ =? _)%N = false |- _ => apply N.eqb_neq in H
  | H : (_ <? _)%N = true |- _ => apply N.ltb_lt in H
  | H : (_ <? _)%N = false |- _ => apply N.ltb_ge in H
  | H : (_ <=? _)%N = true |- _ => apply N.leb_le in H
  | H : (_ <=? _)%N = false |- _ => apply N.leb_gt in H
  | H : (_ =? _)%nat = true |- _ => apply Nat.eqb_eq in H
  | H : (_ =? _)%nat = false |- _ => apply Nat.eqb_neq in H
  | H : (_ <? _)%nat = true |- _ => apply Nat.ltb_lt in H
  | H : (_ <? _)%nat = false |- _ => apply Nat.ltb_ge in H
  | H : (_ <=? _)%nat = true |- _ => apply Nat.leb_le in H
  | H : (_ <=? _)%nat = false |- _ => apply Nat.leb_gt in H
  end.

(** Decide an arithmetic or equality guard of the goal from the context. *)
Ltac guard_by tac :=
  match goal with
  | |- context [(?a <? ?b)%N] =>
      first [ rewrite (proj2 (N.ltb_lt a b)) by tac | rewrite (proj2 (N.ltb_ge a b)) by tac ]
  | |- context [(?a <=? ?b)%N] =>
      first [ rewrite (proj2 (N.leb_le a b)) by tac | rewrite (proj2 (N.leb_gt a b)) by tac ]
  | |- context [(?a =? ?b)%N] =>
      first [ rewrite (proj2 (N.eqb_eq a b)) by tac | rewrite (proj2 (N.eqb_neq a b)) by tac ]
  | |- context [bool_decide ?P] =>
      first [ rewrite (bool_decide_eq_true_2 P) by tac
            | rewrite (bool_decide_eq_false_2 P) by tac ]
  end.

Ltac guard_true := guard_by ltac:(first [lia | congruence | done]); simpl.

(** * Machine widths *)

Definition U8_MAX : N := 2 ^ 8 - 1.
Definition U16_MAX : N := 2 ^ 16 - 1.
Definition U32_MAX : N := 2 ^ 32 - 1.
Definition U64_MAX : N := 2 ^ 64 - 1.

(** [u64::checked_add]. *)
Definition checked_add_u64 (a b : N) : option N :=
  if (a + b <=? U64_MAX)%N then Some (a + b)%N else None.

(** [u16::checked_add]. *)
Definition checked_add_u16 (a b : N) : option N :=
  if (a + b <=? U16_MAX)%N then Some (a + b)%N else None.

(** * Bytes *)

(** A byte is eight bits; text is its UTF-8 byte sequence, so a [string] of
    the source is a [string] here and [as_bytes] is the identity on the
    underlying sequence. *)
Notation byte := ascii.
Notation bytes := (list ascii).

Definition len (b : bytes) : N := N.of_nat (length b).

Definition string_bytes : string -> bytes := String.list_ascii_of_string.
Definition bytes_string : bytes -> string := String.string_of_list_ascii.

(** A SHA-256 digest, [[u8; 32]] in the source. *)
Notation Digest := (list ascii).

Definition byte0 : byte := ascii_of_N 0.
Definition ZERO : Digest := replicate 32 byte0.

(** Big-endian encoding on [w] bytes: [to_be_bytes] and [from_be_bytes]. *)
Fixpoint to_be (w : nat) (n : N) : bytes :=
  match w with
  | O => []
  | S w' => to_be w' (n / 256) ++ [ascii_of_N (n mod 256)]
  end.

Fixpoint of_be_acc (acc : N) (b : bytes) : N :=
  match b with
  | [] => acc
  | x :: b' => of_be_acc (acc * 256 + N_of_ascii x) b'
  end.

Definition of_be (b : bytes) : N := of_be_acc 0 b.

Lemma N_of_ascii_lt (a : ascii) : (N_of_ascii a < 256)%N.
Proof. apply N_ascii_bounded. Qed.

Lemma length_to_be (w : nat) (n : N) : length (to_be w n) = w.
Proof. revert n; induction w; intros n; simpl; [done|]. rewrite length_app, IHw; simpl; lia. Qed.

Lemma of_be_acc_app (acc : N) (a b : bytes) :
  of_be_acc acc (a ++ b) = of_be_acc (of_be_acc acc a) b.
Proof. revert acc; induction a; intros acc; simpl; auto. Qed.

Lemma of_be_snoc (a : bytes) (x : byte) :
  of_be (a ++ [x]) = (of_be a * 256 + N_of_ascii x)%N.
Proof. unfold of_be. by rewrite of_be_acc_app. Qed.

Lemma of_be_to_be (w : nat) (n : N) :
  (n < 256 ^ N.of_nat w)%N -> of_be (to_be w n) = n.
Proof.
  revert n; induction w as [|w IH]; intros n Hn; simpl.
  - change (256 ^ N.of_nat 0)%N with 1%N in Hn. unfold of_be; simpl; lia.
  - rewrite of_be_snoc, IH, N_ascii_embedding.
    + pose proof (N.div_mod n 256); lia.
    + apply N.mod_lt; lia.
    + apply N.Div0.div_lt_upper_bound. by rewrite Nat2N.inj_succ, N.pow_succ_r' in Hn.
Qed.

Lemma to_be_of_be (b : bytes) : to_be (length b) (of_be b) = b.
Proof.
  induction b as [|x b IH] using rev_ind; [done|].
  rewrite length_app, Nat.add_1_r; simpl. rewrite of_be_snoc.
  pose proof (N_of_ascii_lt x) as Hx.
  rewrite N.div_add_l, N.div_small, N.add_0_r by lia.
  rewrite (N.add_comm (_ * _)), N.Div0.mod_add, N.mod_small by lia.
  by rewrite IH, ascii_N_embedding.
Qed.

Lemma of_be_lt (b : bytes) : (of_be b < 256 ^ N.of_nat (length b))%N.
Proof.
  induction b as [|x b IH] using rev_ind; [unfold of_be; simpl; lia|].
  rewrite of_be_snoc, length_app, Nat.add_1_r, Nat2N.inj_succ, N.pow_succ_r'.
  pose proof (N_of_ascii_lt x); lia.
Qed.

(** Little-endian encoding on [w] bytes: [to_le_bytes] and [from_le_bytes]. *)
Definition to_le (w : nat) (n : N) : bytes := reverse (to_be w n).
Definition of_le (b : bytes) : N := of_be (reverse b).

Lemma length_to_le (w : nat) (n : N) : length (to_le w n) = w.
Proof. unfold to_le. by rewrite length_reverse, length_to_be. Qed.

Lemma of_le_to_le (w : nat) (n : N) : (n < 256 ^ N.of_nat w)%N -> of_le (to_le w n) = n.
Proof. intros Hn. unfold of_le, to_le. rewrite reverse_involutive. by apply of_be_to_be. Qed.

Lemma to_le_of_le (b : bytes) : to_le (length b) (of_le b) = b.
Proof. unfold of_le, to_le. by rewrite <- length_reverse, to_be_of_be, reverse_involutive. Qed.

Lemma of_le_lt (b : bytes) : (of_le b < 256 ^ N.of_nat (length b))%N.
Proof. unfold of_le. rewrite <- (length_reverse b). apply of_be_lt. Qed.

(** * Slices *)

(** [bytes.get(start..end)] for [start <= end]. *)
Definition slice (b : bytes) (start stop : N) : option bytes :=
  if (start <=? stop)%N && (stop <=? len b)%N
  then Some (take (N.to_nat (stop - start)) (drop (N.to_nat start) b))
  else None.

Lemma slice_app_mid (a b c : bytes) :
  slice (a ++ b ++ c) (len a) (len a + len b) = Some b.
Proof.
  unfold slice, len. rewrite !length_app.
  rewrite (proj2 (N.leb_le _ _)), (proj2 (N.leb_le _ _)) by lia; simpl.
  f_equal. rewrite Nat2N.id, drop_app_length.
  replace (N.to_nat _) with (length b) by lia. by rewrite take_app_length.
Qed.

(** * Lists *)

Lemma list_filter_fmap {A B} (f : A -> B) (P : B -> Prop) `{!forall x, Decision (P x)} (l : list A) :
  filter P (f <$> l) = f <$> filter (fun x => P (f x)) l.
Proof.
  induction l as [|x l IH]; [done|]. rewrite fmap_cons, !filter_cons, IH. by case_decide.
Qed.

Lemma filter_none {A} (P : A -> Prop) `{!forall x, Decision (P x)} (l : list A) :
  (forall x, x ∈ l -> ~ P x) -> filter P l = [].
Proof.
  induction l as [|x l IH]; intros Hn; [done|]. rewrite filter_cons_False; [|apply Hn; by left].
  apply IH. intros y Hy. apply Hn. by right.
Qed.

Create HintDb zs discriminated.
#[export] Hint Resolve N_of_ascii_lt of_be_lt : zs.


#[global] Arguments to_be _ _ : simpl never.
#[global] Arguments of_be _ : simpl never.
#[global] Arguments to_le _ _ : simpl never.
#[global] Arguments of_le _ : simpl never.
#[global] Arguments len _ : simpl never.
