(* ===== verification/Canonical.v ===== *)
(** Wire identity shared by every crate: canonical JSON
    ([zero-abi/src/schema.rs], [canonical_json]), the fixed SHA-256 identity
    and its hexadecimal wire form ([zero-abi/src/assembly.rs],
    [Sha256Digest]).

    Escaping of a JSON string is [serde_json::to_string], a third-party
    function, and is the parameter [json_string].  A JSON number is kept as
    the text [serde_json] prints for it. *)

From S2P Require Import Prelude.
From stdpp Require Import sorting.

(** * Canonical JSON *)

Inductive Value :=
| Null
| Bool (b : bool)
| Number (text : string)
| VString (s : string)
| Array (arr : list Value)
| Object (map : list (string * Value)).

(** [parts.join(",")]. *)
Fixpoint join (sep : string) (parts : list string) : string :=
  match parts with
  | [] => ""
  | [p] => p
  | p :: ps => p +:+ sep +:+ join sep ps
  end.

Definition key_le (a b : string * string) : Prop := String.le (fst a) (fst b).
#[global] Instance key_le_dec (a b : string * string) : Decision (key_le a b) := _.

Section CanonicalJson.
Context (json_string : string -> string).

(** The encoded members of an object in key order. *)
Definition sorted_members (members : list (string * string)) : list string :=
  (fun '(k, v) => json_string k +:+ ":" +:+ v) <$> merge_sort key_le members.

Fixpoint canonical_json (value : Value) : string :=
  match value with
  | Null => "null"
  | Bool b => if b then "true" else "false"
  | Number n => n
  | VString s => json_string s
  | Array arr => "[" +:+ join "," (map canonical_json arr) +:+ "]"
  | Object m =>
      "{" +:+ join "," (sorted_members (map (fun kv => (fst kv, canonical_json (snd kv))) m))
      +:+ "}"
  end.
End CanonicalJson.

(** * Digest identities *)

Inductive DigestParseError :=
| WrongLength (n : nat)
| InvalidHex (index : nat) (byte : ascii).

Definition lower_hex_nibble (b : byte) : option N :=
  let n := N_of_ascii b in
  if (48 <=? n)%N && (n <=? 57)%N then Some (n - 48)%N
  else if (97 <=? n)%N && (n <=? 102)%N then Some (n - 97 + 10)%N
  else None.

(** The [chunks_exact(2)] loop; [index] counts pairs. *)
Fixpoint hex_pairs (index : nat) (s : bytes) : result DigestParseError bytes :=
  match s with
  | h :: l :: s' =>
      let? high := ok_or (lower_hex_nibble h) (InvalidHex (index * 2) h) in
      let? low := ok_or (lower_hex_nibble l) (InvalidHex (index * 2 + 1) l) in
      let? rest := hex_pairs (S index) s' in
      Ok (ascii_of_N (N.lor (N.shiftl high 4) low) :: rest)
  | _ => Ok []
  end.

Definition Sha256Digest_from_hex (value : string) : result DigestParseError Digest :=
  reject? negb (String.length value =? 64)%nat with WrongLength (String.length value) in
  hex_pairs 0 (string_bytes value).

Definition HEX : bytes := string_bytes "0123456789abcdef".

Definition hex_char (n : N) : byte := default byte0 (HEX !! N.to_nat n).

Fixpoint to_hex_bytes (d : Digest) : bytes :=
  match d with
  | [] => []
  | b :: d' =>
      hex_char (N.shiftr (N_of_ascii b) 4) :: hex_char (N.land (N_of_ascii b) 15)
      :: to_hex_bytes d'
  end.

Definition Sha256Digest_to_hex (d : Digest) : string := bytes_string (to_hex_bytes d).

(** * Lemmas *)

#[global] Instance key_le_total : Total key_le.
Proof. intros a b. unfold key_le. apply String.le_total. Qed.
#[global] Instance key_le_trans : Transitive key_le.
Proof. intros a b c. unfold key_le. intros; by etrans. Qed.

(** Two key-sorted lists with distinct keys and the same members are equal. *)
Lemma sorted_members_unique (l1 l2 : list (string * string)) :
  NoDup (fst <$> l1) -> l1 ≡ₚ l2 -> merge_sort key_le l1 = merge_sort key_le l2.
Proof.
  intros Hnd Hp.
  assert (Hp' : merge_sort key_le l1 ≡ₚ merge_sort key_le l2)
    by (by rewrite !merge_sort_Permutation).
  assert (Hnd' : NoDup (fst <$> merge_sort key_le l1))
    by (by rewrite merge_sort_Permutation).
  pose proof (Sorted_merge_sort key_le l1) as H1. pose proof (Sorted_merge_sort key_le l2) as H2.
  revert Hp' Hnd' H1 H2. generalize (merge_sort key_le l1) (merge_sort key_le l2).
  clear. intros s1. induction s1 as [|a s1 IH]; intros s2 Hp Hnd H1 H2.
  - by apply Permutation_nil_l in Hp.
  - destruct s2 as [|b s2]; [by apply Permutation_nil_r in Hp|].
    apply Sorted_StronglySorted in H1; [|apply _]. apply Sorted_StronglySorted in H2; [|apply _].
    inversion_clear H1 as [|? ? S1 F1]. inversion_clear H2 as [|? ? S2 F2].
    assert (a = b) as ->.
    { assert (Ha : a ∈ b :: s2) by (rewrite <- Hp; left).
      assert (Hb : b ∈ a :: s1) by (rewrite Hp; left).
      apply elem_of_cons in Ha as [->|Ha]; [done|]. apply elem_of_cons in Hb as [->|Hb]; [done|].
      rewrite Forall_forall in F1, F2. specialize (F1 _ Hb). specialize (F2 _ Ha).
      assert (fst a = fst b) by (by apply (anti_symm String.le)).
      cbn in Hnd. apply NoDup_cons in Hnd as [Hn _]. exfalso. apply Hn.
      apply list_elem_of_fmap. eauto. }
    f_equal. apply IH; [by apply Permutation_cons_inv in Hp| |by apply StronglySorted_Sorted..].
    cbn in Hnd. by apply NoDup_cons in Hnd as [_ ?].
Qed.

(** Structural equality up to the order in which an object's members are
    listed, with distinct keys in every object. *)
Inductive same_value : Value -> Value -> Prop :=
| same_null : same_value Null Null
| same_bool b : same_value (Bool b) (Bool b)
| same_number n : same_value (Number n) (Number n)
| same_string s : same_value (VString s) (VString s)
| same_array a1 a2 : Forall2 same_value a1 a2 -> same_value (Array a1) (Array a2)
| same_object m1 m1' m2 :
    NoDup (fst <$> m1) -> m1 ≡ₚ m1' ->
    Forall2 (fun p q => fst p = fst q /\ same_value (snd p) (snd q)) m1' m2 ->
    same_value (Object m1) (Object m2).

Section CanonicalTheorems.
Context (json_string : string -> string).
Notation cj := (canonical_json json_string).

(** Canonical JSON is a function of the value alone: two objects that list
    the same members in different orders, at any nesting depth, have the
    same encoding, hence the same digest. *)
Theorem canonical_json_order_independent :
  forall v1 v2, same_value v1 v2 -> cj v1 = cj v2.
Proof.
  fix IH 3. intros v1 v2 H. destruct H as [| | | |a1 a2 H|m1 m1' m2 Hnd Hp H];
    [reflexivity..| |]; cbn [canonical_json].
  - do 3 f_equal. induction H as [|x y a1 a2 Hxy H IHl]; cbn; [reflexivity|].
    f_equal; [by apply IH|exact IHl].
  - do 3 f_equal. unfold sorted_members. f_equal.
    assert (Heq : map (fun kv => (fst kv, cj (snd kv))) m1'
                  = map (fun kv => (fst kv, cj (snd kv))) m2).
    { clear Hp Hnd. induction H as [|x y l1 l2 [Hk Hv] H IHl]; cbn; [reflexivity|].
      f_equal; [|exact IHl]. f_equal; [exact Hk|by apply IH]. }
    rewrite <- Heq. apply sorted_members_unique.
    + replace (fst <$> map _ m1) with (fst <$> m1); [done|].
      clear. induction m1; cbn; by f_equal.
    + by apply Permutation_map.
Qed.
End CanonicalTheorems.

Lemma canonical_json_order_independent_witness :
  canonical_json (fun s => s) (Object [("b", Null); ("a", Array [Bool true])]) =
  canonical_json (fun s => s) (Object [("a", Array [Bool true]); ("b", Null)]).
Proof.
  apply (canonical_json_order_independent (fun s => s)).
  apply (same_object _ [("a", Array [Bool true]); ("b", Null)]).
  - cbn. repeat constructor; set_solver.
  - apply Permutation_swap.
  - repeat constructor.
Defined.

Lemma lower_hex_nibble_hex_char (n : N) : (n < 16)%N -> lower_hex_nibble (hex_char n) = Some n.
Proof.
  intros Hn. assert (Hc : N.to_nat n ∈ seq 0 16) by (apply elem_of_seq; lia).
  rewrite <- (N2Nat.id n). revert Hc. generalize (N.to_nat n). clear. intros k Hk.
  repeat (apply elem_of_cons in Hk as [->|Hk]; [vm_compute; reflexivity|]).
  by apply not_elem_of_nil in Hk.
Qed.

Lemma nibbles_of_byte (b : byte) :
  N.lor (N.shiftl (N.shiftr (N_of_ascii b) 4) 4) (N.land (N_of_ascii b) 15) = N_of_ascii b.
Proof. destruct b as [[] [] [] [] [] [] [] []]; reflexivity. Qed.

Lemma nibbles_lt (b : byte) :
  (N.shiftr (N_of_ascii b) 4 < 16)%N /\ (N.land (N_of_ascii b) 15 < 16)%N.
Proof. destruct b as [[] [] [] [] [] [] [] []]; vm_compute; split; reflexivity. Qed.

Lemma hex_pairs_to_hex (d : Digest) (i : nat) : hex_pairs i (to_hex_bytes d) = Ok d.
Proof.
  revert i; induction d as [|b d IH]; intros i; [done|]. cbn [to_hex_bytes hex_pairs].
  destruct (nibbles_lt b). rewrite !lower_hex_nibble_hex_char by done. cbn.
  rewrite IH. cbn. by rewrite nibbles_of_byte, ascii_N_embedding.
Qed.

Lemma length_to_hex_bytes (d : Digest) : length (to_hex_bytes d) = 2 * length d.
Proof. induction d; cbn; lia. Qed.

Lemma string_length_bytes (l : bytes) : String.length (bytes_string l) = length l.
Proof. induction l; cbn; auto. Qed.

Lemma digest_hex_parse (d : Digest) :
  length d = 32 -> Sha256Digest_from_hex (Sha256Digest_to_hex d) = Ok d.
Proof.
  intros Hd. unfold Sha256Digest_from_hex, Sha256Digest_to_hex.
  rewrite string_length_bytes, length_to_hex_bytes, Hd. cbn [Nat.eqb negb].
  unfold string_bytes, bytes_string. rewrite String.list_ascii_of_string_of_list_ascii.
  apply hex_pairs_to_hex.
Qed.
