(* ===== verification/ZeroRef.v ===== *)
(** Portable blob references ([crates/zerostack/zero-ref/src/lib.rs]): the
    text grammar [z://blob/<sha256>#B..|#L..], its parser and printer, strict
    byte and line fragment selection, and digest-bound spans.

    Diagnostic prose of the errors is not modelled; an error is its stable
    class.  A borrowed sub-slice is its offset in the object together with
    its bytes, which is what [SpanRef::from_fragment] recovers from the
    pointers.  [usize] is 64 bits wide. *)

From S2P Require Import Prelude.
From Stdlib Require Import DecimalString DecimalN.
From Stdlib Require Decimal.

(** * Errors and data *)

Inductive ZeroRefErrorClass :=
| Malformed | Unsupported | RangeOutOfBounds | NotUtf8
| Missing | Io | DigestMismatch | PolicyDenied.

#[global] Instance ZeroRefErrorClass_eq_dec : EqDecision ZeroRefErrorClass.
Proof. solve_decision. Defined.

(** What a call can do besides returning: raise a classified error, or panic
    on an out-of-range index. *)
Inductive fault := Raised (class : ZeroRefErrorClass) | Panic.

Inductive ZeroScheme := Z_scheme.

Definition ZeroScheme_ALL : list ZeroScheme := [Z_scheme].

Definition ZeroScheme_as_str (s : ZeroScheme) : string :=
  match s with Z_scheme => "z" end.

Definition ZeroScheme_parse (s : string) : option ZeroScheme :=
  find (fun scheme => bool_decide (ZeroScheme_as_str scheme = s)) ZeroScheme_ALL.

Inductive ZeroFragment :=
| NoFragment
| Bytes (start stop : N)
| Lines (start stop : N).

#[global] Instance ZeroFragment_eq_dec : EqDecision ZeroFragment.
Proof. solve_decision. Defined.

Record ZeroRef := mkZeroRef { scheme : ZeroScheme; hash : string; fragment : ZeroFragment }.

Definition PORTABLE_KINDS : list string := ["blob"].
Definition HASH_HEX_LEN : nat := 64.

(** * Text helpers of the standard library *)

Fixpoint strip_prefix (p s : string) : option string :=
  match p, s with
  | "", _ => Some s
  | String a p', String b s' => if bool_decide (a = b) then strip_prefix p' s' else None
  | _, _ => None
  end.

(** [str::split_once]: split at the first occurrence of the pattern. *)
Fixpoint split_once (pat s : string) : option (string * string) :=
  match strip_prefix pat s with
  | Some rest => Some ("", rest)
  | None =>
      match s with
      | "" => None
      | String c s' =>
          match split_once pat s' with
          | Some (a, b) => Some (String c a, b)
          | None => None
          end
      end
  end.

Fixpoint string_all (p : ascii -> bool) (s : string) : bool :=
  match s with "" => true | String c s' => p c && string_all p s' end.

Definition contains_char (c : ascii) (s : string) : bool :=
  negb (string_all (fun x => negb (bool_decide (x = c))) s).

Definition in_range (lo hi : N) (c : ascii) : bool :=
  (lo <=? N_of_ascii c)%N && (N_of_ascii c <=? hi)%N.

Definition is_ascii_digit : ascii -> bool := in_range 48 57.

Definition starts_with (p s : string) : bool :=
  match strip_prefix p s with Some _ => true | None => false end.

(** [s.parse::<u64>()] on a nonempty run of digits. *)
Definition parse_digits (s : string) : option N :=
  match NilZero.uint_of_string s with
  | Some d => let n := N.of_uint d in if (n <=? U64_MAX)%N then Some n else None
  | None => None
  end.

(** [Display] of a [u64]. *)
Definition show_u64 (n : N) : string := NilZero.string_of_uint (N.to_uint n).

Definition hex_digit (n : N) : ascii :=
  if (n <? 10)%N then ascii_of_N (48 + n) else ascii_of_N (87 + n).

(** [write!(out, "{b:02x}")] over the digest bytes. *)
Fixpoint hex_lower (b : bytes) : string :=
  match b with
  | [] => ""
  | x :: b' =>
      String (hex_digit (N_of_ascii x / 16)) (String (hex_digit (N_of_ascii x mod 16)) (hex_lower b'))
  end.

(** [std::str::from_utf8]: well-formed UTF-8 (no surrogates, no overlong
    forms, nothing above U+10FFFF). *)
Definition is_cont (c : ascii) : bool := in_range 128 191 c.

Fixpoint valid_utf8 (b : bytes) : bool :=
  match b with
  | [] => true
  | c :: b1 =>
      let n := N_of_ascii c in
      if (n <? 128)%N then valid_utf8 b1
      else if in_range 194 223 c then
        match b1 with c1 :: b2 => is_cont c1 && valid_utf8 b2 | [] => false end
      else if in_range 224 239 c then
        match b1 with
        | c1 :: c2 :: b3 =>
            (if (n =? 224)%N then in_range 160 191 c1
             else if (n =? 237)%N then in_range 128 159 c1 else is_cont c1)
            && is_cont c2 && valid_utf8 b3
        | _ => false
        end
      else if in_range 240 244 c then
        match b1 with
        | c1 :: c2 :: c3 :: b4 =>
            (if (n =? 240)%N then in_range 144 191 c1
             else if (n =? 244)%N then in_range 128 143 c1 else is_cont c1)
            && is_cont c2 && is_cont c3 && valid_utf8 b4
        | _ => false
        end
      else false
  end.

(** * Parsing and printing *)

Definition is_full_lower_hex (s : string) : bool :=
  (String.length s =? HASH_HEX_LEN)%nat
  && string_all (fun b => is_ascii_digit b || in_range 97 102 b) s.

Definition parse_u64_strict (s : string) : result ZeroRefErrorClass N :=
  reject? bool_decide (s = "") || negb (string_all is_ascii_digit s) with Malformed in
  ok_or (parse_digits s) Malformed.

Definition parse_fragment (f : string) : result ZeroRefErrorClass ZeroFragment :=
  match strip_prefix "B" f with
  | Some span =>
      match split_once "-" span with
      | Some (s, e) =>
          let? start := parse_u64_strict s in
          let? stop := parse_u64_strict e in
          reject? (stop <? start)%N with Malformed in
          Ok (Bytes start stop)
      | None => Err Malformed
      end
  | None =>
      match strip_prefix "L" f with
      | Some span =>
          match split_once "-" span with
          | None => Err Malformed
          | Some (a, b) =>
              let? start := parse_u64_strict a in
              let? stop := parse_u64_strict b in
              reject? (start =? 0)%N with Malformed in
              reject? (stop <? start)%N with Malformed in
              Ok (Lines start stop)
          end
      | None => Err Malformed
      end
  end.

Definition ZeroRef_parse (input : string) : result ZeroRefErrorClass ZeroRef :=
  match split_once "://" input with
  | None =>
      reject? starts_with "g:" input || starts_with "q:" input with Unsupported in
      Err Malformed
  | Some (scheme_str, rest) =>
      match ZeroScheme_parse scheme_str with
      | None => Err Unsupported
      | Some scheme =>
          match split_once "/" rest with
          | None => Err Malformed
          | Some (kind, tail) =>
              reject? negb (bool_decide (kind ∈ PORTABLE_KINDS)) with Unsupported in
              let '(hash, frag) :=
                match split_once "#" tail with
                | Some (h, f) => (h, Some f)
                | None => (tail, None)
                end in
              reject? contains_char "/" hash with Malformed in
              reject? negb (is_full_lower_hex hash) with Malformed in
              let? fragment :=
                match frag with None => Ok NoFragment | Some f => parse_fragment f end in
              Ok (mkZeroRef scheme hash fragment)
          end
      end
  end.

Definition ZeroRef_to_string (r : ZeroRef) : string :=
  ZeroScheme_as_str (scheme r) +:+ "://blob/" +:+ hash r +:+
  match fragment r with
  | NoFragment => ""
  | Bytes start stop => "#B" +:+ show_u64 start +:+ "-" +:+ show_u64 stop
  | Lines start stop => "#L" +:+ show_u64 start +:+ "-" +:+ show_u64 stop
  end.

(** * Fragment selection *)

Inductive LineEndPolicy := Strict | ClampEnd.

Definition CANONICAL_LINE_END_POLICY : LineEndPolicy := ClampEnd.

Definition newline : byte := ascii_of_N 10.

Fixpoint line_start_loop (n i : N) (b : bytes) : list N :=
  match b with
  | [] => []
  | x :: b' =>
      if bool_decide (x = newline) && (i + 1 <? n)%N
      then (i + 1)%N :: line_start_loop n (i + 1) b'
      else line_start_loop n (i + 1) b'
  end.

Definition line_start_offsets (b : bytes) : list N :=
  match b with
  | [] => []
  | _ => 0%N :: line_start_loop (len b) 0 b
  end.

Definition resolve_policy_end (policy : LineEndPolicy) (start stop line_count : N)
  : result fault N :=
  match policy with
  | Strict =>
      reject? (line_count <? stop)%N with Raised RangeOutOfBounds in Ok stop
  | ClampEnd =>
      reject? (line_count =? 0)%N with Raised RangeOutOfBounds in
      reject? (line_count <? start)%N with Raised RangeOutOfBounds in
      Ok (N.min stop line_count)
  end.

(** [None] is the index or slice panic of the source. *)
Definition line_span_bytes (b : bytes) (line_starts : list N) (start stop : N)
  : option (N * bytes) :=
  start_byte ← line_starts !! N.to_nat (start - 1);
  let end_byte := match line_starts !! N.to_nat stop with Some e => e | None => len b end in
  dat ← slice b start_byte end_byte;
  Some (start_byte, dat).

Definition select_lines (b : bytes) (start stop : N) (policy : LineEndPolicy)
  : result fault (N * bytes) :=
  reject? negb (valid_utf8 b) with Raised NotUtf8 in
  let line_starts := line_start_offsets b in
  let line_count := N.of_nat (length line_starts) in
  let? stop := resolve_policy_end policy start stop line_count in
  ok_or (line_span_bytes b line_starts start stop) Panic.

Definition select_fragment_with_policy (b : bytes) (f : ZeroFragment) (policy : LineEndPolicy)
  : result fault (N * bytes) :=
  match f with
  | NoFragment => Ok (0%N, b)
  | Bytes start stop =>
      reject? (stop <? start)%N with Raised Malformed in
      reject? (len b <? stop)%N with Raised RangeOutOfBounds in
      ok_or ((fun d => (start, d)) <$> slice b start stop) Panic
  | Lines start stop =>
      reject? (start =? 0)%N || (stop <? start)%N with Raised Malformed in
      select_lines b start stop policy
  end.

Definition select_fragment (b : bytes) (f : ZeroFragment) : result fault (N * bytes) :=
  select_fragment_with_policy b f CANONICAL_LINE_END_POLICY.

(** * Digest-verified selection

    [sha256] is the third-party hash; nothing is assumed of it here. *)

Record SpanRef := mkSpanRef {
  byte_len : N; byte_start : N;
  object_digest : Digest; object_id : Digest; span_digest : Digest }.

Inductive SpanRefError :=
| Selection (error : fault)
| RangeOverflow
| SpanRangeOutOfBounds
| ObjectIdentityMismatch
| ObjectDigestMismatch
| SpanDigestMismatch
| PayloadLengthMismatch.

Section Digests.
Context (sha256 : bytes -> Digest).

Definition content_hash_hex (b : bytes) : string := hex_lower (sha256 b).

Definition unchecked_select (r : ZeroRef) (b : bytes) : result fault (N * bytes) :=
  select_fragment b (fragment r).

Definition select_with_policy (r : ZeroRef) (b : bytes) (policy : LineEndPolicy)
  : result fault (N * bytes) :=
  select_fragment_with_policy b (fragment r) policy.

Definition ZeroRef_verify_and_select (r : ZeroRef) (b : bytes) : result fault (N * bytes) :=
  reject? negb (bool_decide (content_hash_hex b = hash r)) with Raised DigestMismatch in
  unchecked_select r b.

Definition verify_and_select_with_policy (r : ZeroRef) (b : bytes) (policy : LineEndPolicy)
  : result fault (N * bytes) :=
  reject? negb (bool_decide (content_hash_hex b = hash r)) with Raised DigestMismatch in
  select_with_policy r b policy.

Definition try_u64 (n : N) : result SpanRefError N :=
  guard? (n <=? U64_MAX)%N else RangeOverflow in Ok n.

Definition SpanRef_from_fragment (object : bytes) (f : ZeroFragment)
  : result SpanRefError (SpanRef * bytes) :=
  let? (off, selected) :=
    match select_fragment object f with Ok s => Ok s | Err e => Err (Selection e) end in
  let? byte_start := try_u64 off in
  let? byte_len := try_u64 (len selected) in
  let? _ := ok_or (checked_add_u64 byte_start byte_len) RangeOverflow in
  let object_digest := sha256 object in
  Ok (mkSpanRef byte_len byte_start object_digest object_digest (sha256 selected), selected).

Definition SpanRef_verify_span (s : SpanRef) (payload : bytes) : result SpanRefError () :=
  reject? negb (bool_decide (len payload = byte_len s)) with PayloadLengthMismatch in
  reject? negb (bool_decide (sha256 payload = span_digest s)) with SpanDigestMismatch in
  Ok ().

Definition SpanRef_verify_and_select (s : SpanRef) (object : bytes)
  : result SpanRefError bytes :=
  let actual := sha256 object in
  reject? negb (bool_decide (actual = object_id s)) with ObjectIdentityMismatch in
  reject? negb (bool_decide (actual = object_digest s)) with ObjectDigestMismatch in
  let? stop := ok_or (checked_add_u64 (byte_start s) (byte_len s)) RangeOverflow in
  let? selected := ok_or (slice object (byte_start s) stop) SpanRangeOutOfBounds in
  let? _ := SpanRef_verify_span s selected in
  Ok selected.
End Digests.

(** * Lemmas: text *)

#[local] Arguments String.append _ _ : simpl nomatch.

Lemma string_app_assoc (a b c : string) : (a +:+ b) +:+ c = a +:+ b +:+ c.
Proof. induction a; simpl; congruence. Qed.

Lemma string_app_nil_r (a : string) : a +:+ "" = a.
Proof. induction a; simpl; congruence. Qed.

Lemma string_all_app (p : ascii -> bool) (a b : string) :
  string_all p (a +:+ b) = string_all p a && string_all p b.
Proof. induction a; simpl; [done|]. by rewrite IHa, andb_assoc. Qed.

Lemma string_all_impl (p q : ascii -> bool) (s : string) :
  (forall c, p c = true -> q c = true) -> string_all p s = true -> string_all q s = true.
Proof. intros H. induction s; simpl; [done|]. rewrite !andb_true_iff. intros []; auto. Qed.

Lemma contains_char_false (c : ascii) (s : string) :
  contains_char c s = false <-> string_all (fun x => negb (bool_decide (x = c))) s = true.
Proof. unfold contains_char. by rewrite negb_false_iff. Qed.

Lemma split_once_char (c : ascii) (a b : string) :
  contains_char c a = false -> split_once (String c "") (a +:+ String c b) = Some (a, b).
Proof.
  rewrite contains_char_false. induction a as [|x a IH]; simpl; intros H.
  - by rewrite bool_decide_eq_true_2.
  - breflect. rewrite bool_decide_eq_false_2 by congruence. by rewrite IH.
Qed.

Lemma split_once_char_none (c : ascii) (a : string) :
  contains_char c a = false -> split_once (String c "") a = None.
Proof.
  rewrite contains_char_false. induction a as [|x a IH]; simpl; intros H; [done|].
  breflect. rewrite bool_decide_eq_false_2 by congruence. by rewrite IH.
Qed.

Lemma class_excludes (p : ascii -> bool) (c : ascii) (s : string) :
  p c = false -> string_all p s = true -> contains_char c s = false.
Proof.
  intros Hc Hs. apply contains_char_false. revert Hs. apply string_all_impl.
  intros x Hx. rewrite bool_decide_eq_false_2 by congruence. done.
Qed.

Lemma string_of_uint_digits (d : Decimal.uint) :
  string_all is_ascii_digit (NilEmpty.string_of_uint d) = true.
Proof. induction d; simpl; done. Qed.

Lemma show_u64_digits (n : N) : string_all is_ascii_digit (show_u64 n) = true.
Proof.
  unfold show_u64, NilZero.string_of_uint.
  destruct (N.to_uint n); try apply string_of_uint_digits. done.
Qed.

Lemma show_u64_nonempty (n : N) : show_u64 n <> "".
Proof. unfold show_u64, NilZero.string_of_uint. by destruct (N.to_uint n). Qed.

Lemma to_uint_nonnil (n : N) : N.to_uint n <> Decimal.Nil.
Proof.
  destruct n as [|p]; [done|]. simpl. apply DecimalPos.Unsigned.to_uint_nonnil.
Qed.

Lemma parse_show_u64 (n : N) : (n <= U64_MAX)%N -> parse_u64_strict (show_u64 n) = Ok n.
Proof.
  intros Hn. unfold parse_u64_strict.
  rewrite show_u64_digits, bool_decide_eq_false_2 by apply show_u64_nonempty; simpl.
  unfold parse_digits, show_u64. rewrite NilZero.usu by apply to_uint_nonnil.
  rewrite DecimalN.Unsigned.of_to. by rewrite (proj2 (N.leb_le _ _)).
Qed.

Lemma parse_u64_bound (s : string) (n : N) : parse_u64_strict s = Ok n -> (n <= U64_MAX)%N.
Proof.
  unfold parse_u64_strict, parse_digits. intros H. inv_ok.
  destruct (NilZero.uint_of_string s); [|done].
  destruct (N.of_uint u <=? U64_MAX)%N eqn:E; [|done]. breflect. naive_solver.
Qed.

(** * Parser and printer *)

(** Fragments the grammar can express. *)
Definition fragment_wf (f : ZeroFragment) : Prop :=
  match f with
  | NoFragment => True
  | Bytes start stop => (start <= stop /\ stop <= U64_MAX)%N
  | Lines start stop => (1 <= start /\ start <= stop /\ stop <= U64_MAX)%N
  end.

Definition ref_wf (r : ZeroRef) : Prop :=
  is_full_lower_hex (hash r) = true /\ fragment_wf (fragment r).

Lemma show_u64_no_dash (n : N) : contains_char "-" (show_u64 n) = false.
Proof. eapply class_excludes, show_u64_digits. done. Qed.

Lemma hex_excludes (c : ascii) (s : string) :
  (is_ascii_digit c || in_range 97 102 c) = false ->
  is_full_lower_hex s = true -> contains_char c s = false.
Proof.
  intros Hc Hs. apply andb_true_iff in Hs as [_ Hs].
  by apply (class_excludes (fun b => is_ascii_digit b || in_range 97 102 b)).
Qed.

Lemma parse_fragment_show_bytes (start stop : N) :
  fragment_wf (Bytes start stop) ->
  parse_fragment (String "B" (show_u64 start +:+ String "-" (show_u64 stop))) = Ok (Bytes start stop).
Proof.
  intros [? ?]. unfold parse_fragment. simpl.
  rewrite split_once_char by apply show_u64_no_dash.
  rewrite !parse_show_u64 by lia. simpl. by guard_true.
Qed.

Lemma parse_fragment_show_lines (start stop : N) :
  fragment_wf (Lines start stop) ->
  parse_fragment (String "L" (show_u64 start +:+ String "-" (show_u64 stop))) = Ok (Lines start stop).
Proof.
  intros (? & ? & ?). unfold parse_fragment. simpl.
  rewrite split_once_char by apply show_u64_no_dash.
  rewrite !parse_show_u64 by lia. simpl. by do 2 guard_true.
Qed.

Lemma parse_fragment_wf (f : string) (fr : ZeroFragment) :
  parse_fragment f = Ok fr -> fragment_wf fr.
Proof.
  unfold parse_fragment. intros H.
  inv_ok; breflect; simpl;
    repeat match goal with H : parse_u64_strict _ = Ok _ |- _ => apply parse_u64_bound in H end;
    lia.
Qed.

Lemma ref_parse_wf (s : string) (r : ZeroRef) : ZeroRef_parse s = Ok r -> ref_wf r.
Proof.
  unfold ZeroRef_parse. intros H. inv_ok; breflect;
  split; simpl; try done; by eapply parse_fragment_wf.
Qed.

Lemma ref_print_parse (r : ZeroRef) : ref_wf r -> ZeroRef_parse (ZeroRef_to_string r) = Ok r.
Proof.
  destruct r as [[] h f]. intros [Hh Hf]; simpl in Hh, Hf.
  assert (Hs : contains_char "/" h = false) by (by apply hex_excludes).
  assert (Hp : contains_char "#" h = false) by (by apply hex_excludes).
  unfold ZeroRef_parse, ZeroRef_to_string; simpl.
  destruct f as [|start stop|start stop]; simpl.
  - rewrite string_app_nil_r, split_once_char_none, Hs, Hh by done. done.
  - rewrite split_once_char, Hs, Hh by done. simpl.
    by rewrite (parse_fragment_show_bytes start stop Hf).
  - rewrite split_once_char, Hs, Hh by done. simpl.
    by rewrite (parse_fragment_show_lines start stop Hf).
Qed.

(** Printing and parsing a portable reference are inverse on every
    well-formed reference, and the parser only ever returns well-formed
    references, so re-printing an accepted input and parsing it again yields
    the same reference: the printed form is a canonical name. *)
Theorem zeroref_round_trip :
  (forall r, ref_wf r -> ZeroRef_parse (ZeroRef_to_string r) = Ok r) /\
  (forall s r, ZeroRef_parse s = Ok r ->
     ref_wf r /\ ZeroRef_parse (ZeroRef_to_string r) = Ok r).
Proof. split; [exact ref_print_parse|]. intros s r H%ref_parse_wf. auto using ref_print_parse. Qed.

Lemma zeroref_round_trip_witness :
  ref_wf (mkZeroRef Z_scheme (hex_lower ZERO) (Lines 3 7)) /\
  ZeroRef_parse (ZeroRef_to_string (mkZeroRef Z_scheme (hex_lower ZERO) (Lines 3 7)))
  = Ok (mkZeroRef Z_scheme (hex_lower ZERO) (Lines 3 7)).
Proof.
  assert (H : ref_wf (mkZeroRef Z_scheme (hex_lower ZERO) (Lines 3 7))).
  { split; [vm_compute; done | simpl; unfold U64_MAX; lia]. }
  split; [exact H|]. exact (proj1 zeroref_round_trip _ H).
Defined.

(** * Line selection against a reference definition *)

(** The lines of a blob, each with its terminating LF when present. *)
Fixpoint lines_of (b : bytes) : list bytes :=
  match b with
  | [] => []
  | x :: b' =>
      if bool_decide (x = newline) then [x] :: lines_of b'
      else match lines_of b' with
           | [] => [[x]]
           | l :: ls => (x :: l) :: ls
           end
  end.

Fixpoint starts_from (i : N) (ls : list bytes) : list N :=
  match ls with
  | [] => []
  | l :: ls' => i :: starts_from (i + len l) ls'
  end.

Lemma lines_of_concat (b : bytes) : concat (lines_of b) = b.
Proof.
  induction b as [|x b IH]; [done|]. cbn [lines_of]. case_bool_decide; cbn; [by rewrite IH|].
  destruct (lines_of b); cbn in *; by rewrite <- IH.
Qed.

Lemma lines_of_nil (b : bytes) : lines_of b = [] <-> b = [].
Proof.
  split; [|by intros ->]. intros H. by rewrite <- (lines_of_concat b), H.
Qed.

Lemma line_start_loop_spec (b : bytes) (i : N) :
  line_start_loop (i + len b) i b = tail (starts_from i (lines_of b)).
Proof.
  revert i; induction b as [|x b IH]; intros i; [done|].
  cbn [line_start_loop lines_of].
  replace (i + len (x :: b))%N with (i + 1 + len b)%N by (unfold len; simpl; lia).
  rewrite (IH (i + 1)%N). case_bool_decide; cbn [andb].
  - destruct (lines_of b) as [|l ls] eqn:E.
    + apply lines_of_nil in E as ->. rewrite (proj2 (N.ltb_ge _ _)) by (unfold len; simpl; lia). done.
    + assert (b <> []) by (by intros ->). destruct b; [done|].
      rewrite (proj2 (N.ltb_lt _ _)) by (unfold len; simpl; lia). done.
  - destruct (lines_of b) as [|l ls]; [done|]. cbn. f_equal. unfold len; simpl; lia.
Qed.

Lemma line_start_offsets_spec (b : bytes) : line_start_offsets b = starts_from 0 (lines_of b).
Proof.
  destruct b as [|x b]; [done|]. unfold line_start_offsets.
  change (len (x :: b)) with (0 + len (x :: b))%N. rewrite line_start_loop_spec.
  destruct (lines_of (x :: b)) eqn:E; [by apply lines_of_nil in E|done].
Qed.

Lemma length_starts_from (i : N) (ls : list bytes) : length (starts_from i ls) = length ls.
Proof. revert i; induction ls; intros i; simpl; auto. Qed.

Lemma starts_from_lookup (ls : list bytes) (i : N) (k : nat) :
  (k < length ls)%nat ->
  starts_from i ls !! k = Some (i + len (concat (take k ls)))%N.
Proof.
  revert i k; induction ls as [|l ls IH]; intros i k Hk; simpl in *; [lia|].
  destruct k as [|k]; simpl; [by rewrite N.add_0_r|].
  rewrite IH by lia. f_equal. unfold len. rewrite length_app. lia.
Qed.

(** The bytes of lines [start..=stop], one based. *)
Definition line_range (b : bytes) (start stop : N) : bytes :=
  concat (take (N.to_nat (stop - start + 1)) (drop (N.to_nat (start - 1)) (lines_of b))).

Definition line_offset (b : bytes) (start : N) : N :=
  len (concat (take (N.to_nat (start - 1)) (lines_of b))).

Lemma line_span_bytes_spec (b : bytes) (start stop : N) :
  (1 <= start)%N -> (start <= stop)%N -> (stop <= N.of_nat (length (lines_of b)))%N ->
  line_span_bytes b (line_start_offsets b) start stop
  = Some (line_offset b start, line_range b start stop).
Proof.
  intros H1 H2 H3. unfold line_span_bytes. rewrite line_start_offsets_spec.
  rewrite (starts_from_lookup _ _ (N.to_nat (start - 1))) by lia. simpl.
  set (ls := lines_of b) in *. fold (line_offset b start).
  set (pre := take (N.to_nat (start - 1)) ls).
  set (mid := take (N.to_nat (stop - start + 1)) (drop (N.to_nat (start - 1)) ls)).
  set (post := drop (N.to_nat stop) ls).
  assert (Hls : ls = pre ++ mid ++ post).
  { unfold pre, mid, post. rewrite <- (take_drop (N.to_nat (start - 1)) ls) at 1. f_equal.
    rewrite <- (take_drop (N.to_nat (stop - start + 1)) (drop _ ls)) at 1. f_equal.
    rewrite drop_drop. f_equal. lia. }
  assert (Hb : b = concat pre ++ concat mid ++ concat post).
  { rewrite <- (lines_of_concat b). fold ls. rewrite Hls at 1. by rewrite !concat_app. }
  assert (Hend : match starts_from 0 ls !! N.to_nat stop with Some e => e | None => len b end
                 = (len (concat pre) + len (concat mid))%N).
  { destruct (decide (N.to_nat stop < length ls)) as [Hlt|Hge].
    - rewrite starts_from_lookup by done. rewrite N.add_0_l.
      replace (take (N.to_nat stop) ls) with (pre ++ mid);
        [unfold len; rewrite concat_app, length_app; lia|].
      unfold pre, mid. rewrite Hls at 3. rewrite app_assoc, take_app_length'; [done|].
      rewrite length_app. unfold pre, mid. rewrite !length_take, length_drop. lia.
    - rewrite (proj2 (lookup_ge_None _ _)) by (rewrite length_starts_from; lia).
      rewrite Hb at 1. replace post with (@nil bytes) by (unfold post; rewrite drop_ge; [done|lia]).
      unfold len. simpl. rewrite !length_app. simpl. lia. }
  rewrite Hend. unfold line_offset. fold ls pre.
  rewrite Hb at 1. rewrite slice_app_mid. done.
Qed.

(** What each fragment denotes, on every branch. *)
Definition select_spec (b : bytes) (f : ZeroFragment) (policy : LineEndPolicy)
  : result fault (N * bytes) :=
  match f with
  | NoFragment => Ok (0%N, b)
  | Bytes start stop =>
      if (stop <? start)%N then Err (Raised Malformed)
      else if (len b <? stop)%N then Err (Raised RangeOutOfBounds)
      else Ok (start, take (N.to_nat (stop - start)) (drop (N.to_nat start) b))
  | Lines start stop =>
      let n := N.of_nat (length (lines_of b)) in
      if (start =? 0)%N || (stop <? start)%N then Err (Raised Malformed)
      else if negb (valid_utf8 b) then Err (Raised NotUtf8)
      else match policy with
           | Strict =>
               if (n <? stop)%N then Err (Raised RangeOutOfBounds)
               else Ok (line_offset b start, line_range b start stop)
           | ClampEnd =>
               if (n <? start)%N then Err (Raised RangeOutOfBounds)
               else Ok (line_offset b start, line_range b start (N.min stop n))
           end
  end.

Lemma select_lines_spec (b : bytes) (start stop : N) (policy : LineEndPolicy) :
  (1 <= start)%N -> (start <= stop)%N -> valid_utf8 b = true ->
  select_lines b start stop policy = select_spec b (Lines start stop) policy.
Proof.
  intros H1 H2 Hu. unfold select_lines, select_spec. rewrite Hu; simpl.
  rewrite (proj2 (N.eqb_neq start 0)), (proj2 (N.ltb_ge stop start)) by lia; simpl.
  rewrite line_start_offsets_spec, length_starts_from, <- line_start_offsets_spec.
  set (n := N.of_nat (length (lines_of b))).
  destruct policy; unfold resolve_policy_end.
  - destruct (n <? stop)%N eqn:E; simpl; [done|]. breflect.
    by rewrite line_span_bytes_spec by (subst n; lia).
  - destruct (N.eqb_spec n 0) as [E0|E0]; simpl.
    { by rewrite (proj2 (N.ltb_lt _ _)) by lia. }
    destruct (n <? start)%N eqn:E; simpl; [done|]. breflect.
    by rewrite line_span_bytes_spec by (subst n; lia).
Qed.

(** C38: Fragment selection over precomputed line offsets computes exactly the
    reference denotation on every input and every branch: byte spans are the
    half-open slice, line spans are the one-based inclusive lines with their
    terminators, strict and clamping ends differ only past the last line, and
    no input makes the index arithmetic panic. *)
Theorem select_fragment_refines_spec (b : bytes) (f : ZeroFragment) (policy : LineEndPolicy) :
  select_fragment_with_policy b f policy = select_spec b f policy /\
  select_fragment_with_policy b f policy <> Err Panic.
Proof.
  assert (H : select_fragment_with_policy b f policy = select_spec b f policy).
  { destruct f as [|start stop|start stop]; simpl; [done| |].
    - destruct (stop <? start)%N eqn:E1; [done|]. destruct (len b <? stop)%N eqn:E2; [done|].
      breflect. unfold slice. by rewrite !(proj2 (N.leb_le _ _)) by lia.
    - destruct ((start =? 0)%N || (stop <? start)%N) eqn:E; [done|]. breflect.
      destruct (valid_utf8 b) eqn:Hu; simpl; [|unfold select_lines; by rewrite Hu].
      rewrite select_lines_spec by (done || lia). simpl.
      rewrite (proj2 (N.eqb_neq start 0)), (proj2 (N.ltb_ge stop start)), Hu by lia. done. }
  split; [exact H|]. rewrite H. destruct f; simpl; [done| |];
    repeat match goal with |- context [if ?c then _ else _] => destruct c end; try done;
    destruct policy; by repeat match goal with |- context [if ?c then _ else _] => destruct c end.
Qed.

(** A selection is a genuine sub-slice of the object at the offset it reports. *)
Lemma select_is_slice (b : bytes) (f : ZeroFragment) (policy : LineEndPolicy) off d :
  select_fragment_with_policy b f policy = Ok (off, d) -> slice b off (off + len d) = Some d.
Proof.
  destruct f as [|start stop|start stop]; simpl.
  - intros [= <- <-]. rewrite <- (app_nil_r b) at 1. apply (slice_app_mid [] b []).
  - intros H. inv_ok. breflect. unfold slice in H.
    rewrite !(proj2 (N.leb_le _ _)) in H by lia. simpl in H. simplify_eq.
    unfold slice. set (d := take _ _).
    assert (len d = (stop - off)%N)
      by (unfold d, len; rewrite length_take, length_drop; unfold len in *; lia).
    rewrite !(proj2 (N.leb_le _ _)) by lia. simpl.
    by replace (off + len d - off)%N with (stop - off)%N by lia.
  - unfold select_lines. intros H. inv_ok.
    match goal with H : line_span_bytes _ _ _ _ = Some _ |- _ => rename H into E end.
    unfold line_span_bytes in E.
    destruct (line_start_offsets b !! N.to_nat (start - 1)) as [s|] eqn:Es; simpl in E; [|done].
    set (stop' := match _ with Some e => e | None => len b end) in E.
    destruct (slice b s stop') as [d'|] eqn:Ed; simpl in E; [|done]. simplify_eq.
    rewrite <- Ed. f_equal. unfold slice in Ed.
    destruct (_ && _) eqn:Eb in Ed; [|done]. breflect. simplify_eq.
    unfold len in *. rewrite length_take, length_drop. lia.
Qed.

Section SpanTheorems.
Context (sha256 : bytes -> Digest).

Lemma span_fields (object : bytes) (f : ZeroFragment) (s : SpanRef) (sel : bytes) :
  SpanRef_from_fragment sha256 object f = Ok (s, sel) ->
  select_fragment object f = Ok (byte_start s, sel) /\
  byte_len s = len sel /\ (byte_start s + byte_len s <= U64_MAX)%N /\
  object_digest s = sha256 object /\ object_id s = sha256 object /\
  span_digest s = sha256 sel.
Proof.
  unfold SpanRef_from_fragment. intros H.
  destruct (select_fragment object f) as [[off d]|] eqn:E; simpl in H; [|done].
  unfold try_u64 in H. inv_ok. unfold checked_add_u64 in *.
  destruct (_ + _ <=? _)%N eqn:Es in *; simpl in *; simplify_eq; breflect. by split_and!.
Qed.

(** A span reference built from an object always verifies against that
    object and yields the very bytes that were selected; and whatever object
    a span reference accepts has the recorded object digest, and the
    returned bytes are the slice at the recorded offset and length with the
    recorded span digest. *)
Theorem span_ref_exact (object : bytes) :
  (forall f s sel, SpanRef_from_fragment sha256 object f = Ok (s, sel) ->
     SpanRef_verify_and_select sha256 s object = Ok sel /\
     SpanRef_verify_span sha256 s sel = Ok ()) /\
  (forall s sel, SpanRef_verify_and_select sha256 s object = Ok sel ->
     sha256 object = object_id s /\ sha256 object = object_digest s /\
     slice object (byte_start s) (byte_start s + byte_len s) = Some sel /\
     len sel = byte_len s /\ sha256 sel = span_digest s).
Proof.
  split.
  - intros f s sel H.
    destruct (span_fields _ _ _ _ H) as (Hsel & Hlen & Hmax & Hod & Hid & Hsp).
    apply select_is_slice in Hsel. rewrite <- Hlen in Hsel.
    assert (Hv : SpanRef_verify_span sha256 s sel = Ok ()).
    { unfold SpanRef_verify_span. by rewrite !bool_decide_eq_true_2 by congruence. }
    split; [|exact Hv]. unfold SpanRef_verify_and_select.
    rewrite !bool_decide_eq_true_2 by congruence; simpl.
    unfold checked_add_u64. rewrite (proj2 (N.leb_le _ _)) by done. simpl.
    rewrite Hsel. simpl. by rewrite Hv.
  - intros s sel H. unfold SpanRef_verify_and_select in H.
    destruct (bool_decide (sha256 object = object_id s)) eqn:E1; simpl in H; [|done].
    destruct (bool_decide (sha256 object = object_digest s)) eqn:E2; simpl in H; [|done].
    unfold checked_add_u64 in H. destruct (_ <=? U64_MAX)%N; simpl in H; [|done].
    destruct (slice object _ _) as [d|] eqn:Es; simpl in H; [|done].
    unfold SpanRef_verify_span in H.
    destruct (bool_decide (len d = byte_len s)) eqn:E3; simpl in H; [|done].
    destruct (bool_decide (sha256 d = span_digest s)) eqn:E4; simpl in H; [|done].
    inv_ok. breflect. done.
Qed.
End SpanTheorems.

Lemma span_ref_exact_witness :
  let object := string_bytes ("ab" +:+ String newline ("cd" +:+ String newline "e")) in
  exists s, SpanRef_from_fragment (fun b => b) object (Lines 2 9)
            = Ok (s, string_bytes ("cd" +:+ String newline "e")) /\
  SpanRef_verify_and_select (fun b => b) s object = Ok (string_bytes ("cd" +:+ String newline "e")).
Proof.
  intros object. eexists. split; [vm_compute; reflexivity|].
  apply (span_ref_exact (fun b => b) object) with (f := Lines 2 9). vm_compute. reflexivity.
Defined.
