(* ===== verification/Zbf.v ===== *)
(** Zero Binary Format, ZBF-1 ([crates/zerostack/zero-abi/src/zbf.rs]): the
    fixed 192-byte big-endian header, leaf and container objects, the bounded
    encoder and the strict decoder.

    [sha256] and the JSON string escaper are third-party functions and are
    parameters of the section; [usize] is 64 bits wide. *)

From S2P Require Import Prelude Canonical.

(** * Constants and profiles *)

Definition ZBF_MAGIC : bytes := string_bytes "ZEROZBF1".
Definition ZBF_SCHEMA_MAJOR : N := 1.
Definition ZBF_SCHEMA_MINOR : N := 0.
Definition ZBF_HEADER_LEN : N := 192.
Definition ZBF_CONTAINER_FLAG : N := 1.
Definition ZBF_MAX_OBJECT_BYTES : N := 16 * 1024 * 1024.
Definition ZBF_MAX_CHILDREN : N := 1024.
Definition ZBF_MAX_DEPTH : N := 16.
Definition ZBF_PROFILE_DOMAIN : bytes := string_bytes "zerostack.zbf_profile" ++ [byte0].

Inductive DurableProfileId := PortableStrict | ApfsStrict | Ext4XfsStrict | NtfsStrict.

#[global] Instance DurableProfileId_eq_dec : EqDecision DurableProfileId.
Proof. solve_decision. Defined.

Definition DurableProfileId_as_str (id : DurableProfileId) : string :=
  match id with
  | PortableStrict => "portable_strict"
  | ApfsStrict => "apfs_strict"
  | Ext4XfsStrict => "ext4_xfs_strict"
  | NtfsStrict => "ntfs_strict"
  end.

Definition DurableProfileId_filesystem (id : DurableProfileId) : string :=
  match id with
  | PortableStrict => "portable"
  | ApfsStrict => "apfs"
  | Ext4XfsStrict => "ext4_or_xfs"
  | NtfsStrict => "ntfs"
  end.

(** The bounds of a profile do not depend on its identity. *)
Definition max_object_bytes (p : DurableProfileId) : N := ZBF_MAX_OBJECT_BYTES.
Definition max_payload_bytes (p : DurableProfileId) : N := ZBF_MAX_OBJECT_BYTES - ZBF_HEADER_LEN.
Definition max_children (p : DurableProfileId) : N := ZBF_MAX_CHILDREN.
Definition max_depth (p : DurableProfileId) : N := ZBF_MAX_DEPTH.

(** * Objects *)

Inductive ZbfArtifactKind :=
| AssemblyManifest | FsPack | GraphPack | TokenPack | Plan | Receipt | Witness | Effect | Snapshot.

Definition kind_to_u16 (k : ZbfArtifactKind) : N :=
  match k with
  | AssemblyManifest => 1 | FsPack => 2 | GraphPack => 3 | TokenPack => 4 | Plan => 5
  | Receipt => 6 | Witness => 7 | Effect => 8 | Snapshot => 9
  end.

Definition kind_from_u16 (value : N) : option ZbfArtifactKind :=
  match value with
  | 1 => Some AssemblyManifest | 2 => Some FsPack | 3 => Some GraphPack | 4 => Some TokenPack
  | 5 => Some Plan | 6 => Some Receipt | 7 => Some Witness | 8 => Some Effect
  | 9 => Some Snapshot | _ => None
  end%N.

Inductive ArtifactOwner := ZeroStack | FsZero | GraphZero | TokenZero | PiZeroStack.

Definition owner_to_u8 (o : ArtifactOwner) : N :=
  match o with ZeroStack => 0 | FsZero => 1 | GraphZero => 2 | TokenZero => 3 | PiZeroStack => 4 end.

Definition owner_from_u8 (value : N) : option ArtifactOwner :=
  match value with
  | 0 => Some ZeroStack | 1 => Some FsZero | 2 => Some GraphZero | 3 => Some TokenZero
  | 4 => Some PiZeroStack | _ => None
  end%N.

Record ZbfHeader := mkHeader {
  schema_major : N; schema_minor : N; kind : ZbfArtifactKind; owner : ArtifactOwner;
  flags : N; payload_len : N;
  assembly_manifest_digest : Digest; durable_profile_digest : Digest;
  source_root_digest : Digest; producer_contract_digest : Digest; payload_digest : Digest }.

Inductive ZbfObject := mkObject (header : ZbfHeader) (payload : ZbfPayload)
with ZbfPayload := PBytes (b : bytes) | PChildren (children : list ZbfObject).

Definition header (o : ZbfObject) : ZbfHeader := match o with mkObject h _ => h end.
Definition payload (o : ZbfObject) : ZbfPayload := match o with mkObject _ p => p end.

Inductive ZbfError :=
| UnexpectedEof
| BadMagic
| UnsupportedVersion (major minor : N)
| InvalidKind (raw : N)
| InvalidOwner (raw : N)
| UnknownFlags (raw : N)
| ReservedNonZero
| LengthOverflow
| ObjectTooLarge (actual maximum : N)
| PayloadTooLarge (actual maximum : N)
| TooManyChildren (actual maximum : N)
| DepthExceeded (actual maximum : N)
| TrailingBytes
| ZDigestMismatch (expected actual : Digest)
| AssemblyMismatch (expected actual : Digest)
| ProfileMismatch (expected actual : Digest)
| HeaderPayloadMismatch
| ContainerMalformed.

(** * Cursor *)

Record Cursor := mkCursor { cbytes : bytes; offset : N }.

Definition cursor_new (b : bytes) : Cursor := mkCursor b 0.

Definition remaining (c : Cursor) : N := len (cbytes c) - offset c.

Definition cursor_take (n : N) (c : Cursor) : result ZbfError (bytes * Cursor) :=
  let? stop := ok_or (checked_add_u64 (offset c) n) LengthOverflow in
  let? value := ok_or (slice (cbytes c) (offset c) stop) UnexpectedEof in
  Ok (value, mkCursor (cbytes c) stop).

(** [u8], [u16], [u32] and [u64] reads: [w] big-endian bytes. *)
Definition cursor_uint (w : nat) (c : Cursor) : result ZbfError (N * Cursor) :=
  let? (b, c) := cursor_take (N.of_nat w) c in Ok (of_be b, c).

Definition cursor_digest (c : Cursor) : result ZbfError (Digest * Cursor) := cursor_take 32 c.

(** * Encoding and decoding *)

Definition require_depth (depth : N) (p : DurableProfileId) : result ZbfError () :=
  reject? (max_depth p <? depth)%N with DepthExceeded depth (max_depth p) in Ok ().

Definition bounded_payload_len (actual : N) (p : DurableProfileId) : result ZbfError N :=
  reject? (max_payload_bytes p <? actual)%N with PayloadTooLarge actual (max_payload_bytes p) in
  Ok actual.

Definition encode_header (h : ZbfHeader) : bytes :=
  ZBF_MAGIC
  ++ to_be 2 (schema_major h) ++ to_be 2 (schema_minor h)
  ++ to_be 2 (kind_to_u16 (kind h))
  ++ to_be 1 (owner_to_u8 (owner h)) ++ to_be 1 (flags h)
  ++ to_be 8 (payload_len h)
  ++ assembly_manifest_digest h ++ durable_profile_digest h
  ++ source_root_digest h ++ producer_contract_digest h ++ payload_digest h
  ++ replicate 8 byte0.

Definition decode_header (b : bytes) : result ZbfError ZbfHeader :=
  let c := cursor_new b in
  let? (magic, c) := cursor_take 8 c in
  reject? negb (bool_decide (magic = ZBF_MAGIC)) with BadMagic in
  let? (schema_major, c) := cursor_uint 2 c in
  let? (schema_minor, c) := cursor_uint 2 c in
  let? (raw_kind, c) := cursor_uint 2 c in
  let? kind := ok_or (kind_from_u16 raw_kind) (InvalidKind raw_kind) in
  let? (raw_owner, c) := cursor_uint 1 c in
  let? owner := ok_or (owner_from_u8 raw_owner) (InvalidOwner raw_owner) in
  let? (flags, c) := cursor_uint 1 c in
  let? (payload_len, c) := cursor_uint 8 c in
  let? (assembly_manifest_digest, c) := cursor_digest c in
  let? (durable_profile_digest, c) := cursor_digest c in
  let? (source_root_digest, c) := cursor_digest c in
  let? (producer_contract_digest, c) := cursor_digest c in
  let? (payload_digest, c) := cursor_digest c in
  let? (reserved, c) := cursor_take 8 c in
  reject? negb (bool_decide (Forall (fun x => x = byte0) reserved)) with ReservedNonZero in
  reject? negb (remaining c =? 0)%N with TrailingBytes in
  Ok (mkHeader schema_major schema_minor kind owner flags payload_len assembly_manifest_digest
        durable_profile_digest source_root_digest producer_contract_digest payload_digest).

(** The body of the encoder's loop over children. *)
Section EncodeLoop.
Context (enc : ZbfObject -> result ZbfError bytes) (p : DurableProfileId).

Fixpoint encode_loop (children : list ZbfObject) (acc : bytes) : result ZbfError bytes :=
  match children with
  | [] => Ok acc
  | child :: rest =>
      let? b := enc child in
      let? next_len := ok_or (s ← checked_add_u64 (len acc) 8; checked_add_u64 s (len b))
                         LengthOverflow in
      let? _ := bounded_payload_len next_len p in
      encode_loop rest (acc ++ to_be 8 (len b) ++ b)
  end.
End EncodeLoop.

(** The body of the decoder's loop over children. *)
Section DecodeLoop.
Context (dec : bytes -> result ZbfError ZbfObject).

Fixpoint decode_loop (count : nat) (c : Cursor) : result ZbfError (list ZbfObject * Cursor) :=
  match count with
  | O => Ok ([], c)
  | S count' =>
      let? (child_len, c) := cursor_uint 8 c in
      reject? (child_len <? ZBF_HEADER_LEN)%N with ContainerMalformed in
      let? (child_bytes, c) := cursor_take child_len c in
      let? child := dec child_bytes in
      let? (rest, c) := decode_loop count' c in
      Ok (child :: rest, c)
  end.
End DecodeLoop.

Section Codec.
Context (sha256 : bytes -> Digest) (json_string : string -> string).

Definition profile_canonical_bytes (id : DurableProfileId) : bytes :=
  string_bytes (canonical_json json_string (Object [
    ("profile_id", VString (DurableProfileId_as_str id));
    ("profile_version", Number "1");
    ("filesystem", VString (DurableProfileId_filesystem id));
    ("zbf_schema_major", Number "1");
    ("zbf_schema_minor", Number "0");
    ("max_object_bytes", Number "16777216");
    ("max_payload_bytes", Number "16777024");
    ("max_children", Number "1024");
    ("max_depth", Number "16");
    ("hash", VString "sha256");
    ("atomic_publish", Bool true);
    ("sync_file_before_publish", Bool true);
    ("sync_parent_directory_after_publish", Bool true);
    ("unknown_required_versions", VString "reject")])).

Definition profile_digest (id : DurableProfileId) : Digest :=
  sha256 (ZBF_PROFILE_DOMAIN ++ profile_canonical_bytes id).

Definition validate_header_contract (h : ZbfHeader) (p : DurableProfileId)
  : result ZbfError () :=
  reject? negb ((schema_major h =? ZBF_SCHEMA_MAJOR)%N && (schema_minor h =? ZBF_SCHEMA_MINOR)%N)
    with UnsupportedVersion (schema_major h) (schema_minor h) in
  reject? negb (N.land (flags h) (N.lxor U8_MAX ZBF_CONTAINER_FLAG) =? 0)%N
    with UnknownFlags (flags h) in
  let expected := profile_digest p in
  reject? negb (bool_decide (durable_profile_digest h = expected))
    with ProfileMismatch expected (durable_profile_digest h) in
  Ok ().

(** [encode_children] up to its loop, which the callers supply with the
    encoder of one child at the child depth. *)
Definition encode_children_with (enc : N -> ZbfObject -> result ZbfError bytes)
    (children : list ZbfObject) (p : DurableProfileId) (parent_depth : N)
  : result ZbfError bytes :=
  let count := N.of_nat (length children) in
  reject? (U32_MAX <? count)%N with TooManyChildren U32_MAX (max_children p) in
  reject? (max_children p <? count)%N with TooManyChildren count (max_children p) in
  let? child_depth := ok_or (checked_add_u16 parent_depth 1) (DepthExceeded U16_MAX (max_depth p)) in
  let? _ := require_depth child_depth p in
  encode_loop (enc child_depth) p children (to_be 4 count).

Fixpoint to_bytes_at (p : DurableProfileId) (o : ZbfObject) (depth : N) {struct o}
  : result ZbfError bytes :=
  let 'mkObject h pl := o in
  let? _ := require_depth depth p in
  let? _ := validate_header_contract h p in
  let? pay :=
    match pl with
    | PBytes b =>
        reject? negb (flags h =? 0)%N with HeaderPayloadMismatch in
        let? _ := bounded_payload_len (len b) p in
        Ok b
    | PChildren children =>
        reject? negb (flags h =? ZBF_CONTAINER_FLAG)%N with HeaderPayloadMismatch in
        encode_children_with (fun d c => to_bytes_at p c d) children p depth
    end in
  let? plen := bounded_payload_len (len pay) p in
  reject? negb ((payload_len h =? plen)%N && bool_decide (payload_digest h = sha256 pay))
    with HeaderPayloadMismatch in
  let? total_len := ok_or (checked_add_u64 ZBF_HEADER_LEN (len pay)) LengthOverflow in
  reject? (max_object_bytes p <? total_len)%N
    with ObjectTooLarge total_len (max_object_bytes p) in
  Ok (encode_header h ++ pay).

Definition encode_children (children : list ZbfObject) (p : DurableProfileId) (parent_depth : N)
  : result ZbfError bytes :=
  encode_children_with (fun d c => to_bytes_at p c d) children p parent_depth.

Definition to_bytes (o : ZbfObject) (p : DurableProfileId) : result ZbfError bytes :=
  to_bytes_at p o 0.

Definition decode_children_with (dec : N -> bytes -> result ZbfError ZbfObject)
    (pay : bytes) (p : DurableProfileId) (parent_depth : N)
  : result ZbfError (list ZbfObject) :=
  let? (count, c) := cursor_uint 4 (cursor_new pay) in
  reject? (max_children p <? count)%N with TooManyChildren count (max_children p) in
  let? child_depth := ok_or (checked_add_u16 parent_depth 1) (DepthExceeded U16_MAX (max_depth p)) in
  let? _ := require_depth child_depth p in
  let? (children, c) := decode_loop (dec child_depth) (N.to_nat count) c in
  reject? negb (remaining c =? 0)%N with TrailingBytes in
  Ok children.

(** [decode_object] with the decoding of a container's payload as an argument. *)
Definition decode_object_with (dec_children : bytes -> result ZbfError (list ZbfObject))
    (b : bytes) (expected : Digest) (p : DurableProfileId) (depth : N)
  : result ZbfError ZbfObject :=
  let? _ := require_depth depth p in
  reject? (max_object_bytes p <? len b)%N with ObjectTooLarge (len b) (max_object_bytes p) in
  reject? (len b <? ZBF_HEADER_LEN)%N with UnexpectedEof in
  let? h := decode_header (take (N.to_nat ZBF_HEADER_LEN) b) in
  let? _ := validate_header_contract h p in
  reject? negb (bool_decide (assembly_manifest_digest h = expected))
    with AssemblyMismatch expected (assembly_manifest_digest h) in
  reject? (max_payload_bytes p <? payload_len h)%N
    with PayloadTooLarge (payload_len h) (max_payload_bytes p) in
  let? expected_len := ok_or (checked_add_u64 ZBF_HEADER_LEN (payload_len h)) LengthOverflow in
  reject? (len b <? expected_len)%N with UnexpectedEof in
  reject? (expected_len <? len b)%N with TrailingBytes in
  let pay := drop (N.to_nat ZBF_HEADER_LEN) b in
  reject? negb (bool_decide (sha256 pay = payload_digest h))
    with ZDigestMismatch (payload_digest h) (sha256 pay) in
  let? pl :=
    if (flags h =? ZBF_CONTAINER_FLAG)%N
    then let? cs := dec_children pay in Ok (PChildren cs)
    else Ok (PBytes pay) in
  Ok (mkObject h pl).

(** [fuel] bounds the nesting; [require_depth] stops the source at
    [ZBF_MAX_DEPTH], so the seventeen levels [from_bytes] supplies are never
    exhausted (lemma [decode_object_fuel]). *)
Fixpoint decode_object (fuel : nat) (b : bytes) (expected : Digest) (p : DurableProfileId)
    (depth : N) : result ZbfError ZbfObject :=
  match fuel with
  | O => Err LengthOverflow
  | S fuel' =>
      decode_object_with
        (fun pay => decode_children_with (fun d x => decode_object fuel' x expected p d) pay p depth)
        b expected p depth
  end.

Definition decode_fuel : nat := 17.

Definition from_bytes (b : bytes) (expected : Digest) (p : DurableProfileId)
  : result ZbfError ZbfObject :=
  decode_object decode_fuel b expected p 0.

Definition new_leaf (k : ZbfArtifactKind) (o : ArtifactOwner) (assembly : Digest)
    (p : DurableProfileId) (source_root producer : Digest) (pay : bytes)
  : result ZbfError ZbfObject :=
  let? plen := bounded_payload_len (len pay) p in
  Ok (mkObject (mkHeader ZBF_SCHEMA_MAJOR ZBF_SCHEMA_MINOR k o 0 plen assembly
                  (profile_digest p) source_root producer (sha256 pay))
        (PBytes pay)).

Definition new_container (k : ZbfArtifactKind) (o : ArtifactOwner) (assembly : Digest)
    (p : DurableProfileId) (source_root producer : Digest) (children : list ZbfObject)
  : result ZbfError ZbfObject :=
  let? pay := encode_children children p 0 in
  let? plen := bounded_payload_len (len pay) p in
  Ok (mkObject (mkHeader ZBF_SCHEMA_MAJOR ZBF_SCHEMA_MINOR k o ZBF_CONTAINER_FLAG plen assembly
                  (profile_digest p) source_root producer (sha256 pay))
        (PChildren children)).

Definition identity (o : ZbfObject) (p : DurableProfileId) : result ZbfError Digest :=
  let? b := to_bytes o p in Ok (sha256 b).
End Codec.

(** * Cursor lemmas *)

(** The bytes the cursor has not consumed, and the cursor invariant. *)
Definition rest (c : Cursor) : bytes := drop (N.to_nat (offset c)) (cbytes c).
Definition cursor_wf (c : Cursor) : Prop :=
  (offset c <= len (cbytes c))%N /\ (len (cbytes c) <= U64_MAX)%N.

Lemma cursor_new_wf (b : bytes) : (len b <= U64_MAX)%N -> cursor_wf (cursor_new b).
Proof. unfold cursor_wf, len; simpl; lia. Qed.

Lemma rest_new (b : bytes) : rest (cursor_new b) = b.
Proof. done. Qed.

Lemma remaining_rest (c : Cursor) : cursor_wf c -> remaining c = len (rest c).
Proof. intros [??]. unfold remaining, rest, len in *. rewrite length_drop. lia. Qed.

Lemma cursor_take_inv (n : N) (c : Cursor) (x : bytes) (c' : Cursor) :
  cursor_wf c -> cursor_take n c = Ok (x, c') ->
  len x = n /\ rest c = x ++ rest c' /\ cursor_wf c'.
Proof.
  intros [H1 H2] H. unfold cursor_take, checked_add_u64, slice in H. inv_ok.
  destruct (_ <=? U64_MAX)%N eqn:E; [|done]. simplify_eq.
  destruct (_ && _) eqn:E2 in *; [|done]. breflect. simplify_eq. unfold rest, cursor_wf, len in *.
  simpl. rewrite length_take, length_drop. split_and!; [lia| |lia|lia].
  rewrite <- (take_drop (N.to_nat (offset c + n - offset c)) (drop _ _)) at 1.
  f_equal. rewrite drop_drop. f_equal. lia.
Qed.

Lemma cursor_take_app (c : Cursor) (n : N) (x r : bytes) :
  cursor_wf c -> rest c = x ++ r -> len x = n ->
  exists c', cursor_take n c = Ok (x, c') /\ rest c' = r /\ cursor_wf c'.
Proof.
  intros [H1 H2] Hr <-. unfold cursor_take, rest in *.
  set (k := N.to_nat (offset c)) in *.
  assert (Hlen : (offset c + len x <= len (cbytes c))%N).
  { apply (f_equal length) in Hr. rewrite length_drop, length_app in Hr. unfold len in *. lia. }
  unfold checked_add_u64. rewrite (proj2 (N.leb_le _ _)) by lia. simpl.
  unfold slice. rewrite !(proj2 (N.leb_le _ _)) by lia. simpl.
  replace (take _ _) with x.
  2:{ fold k. rewrite Hr. replace (N.to_nat _) with (length x) by (unfold len; lia).
      by rewrite take_app_length. }
  eexists; split; [done|]. unfold cursor_wf; simpl. split; [|lia].
  replace (N.to_nat (offset c + len x)) with (k + length x)%nat by (unfold len; lia).
  rewrite <- drop_drop, Hr. by rewrite drop_app_length.
Qed.

Lemma len_to_be (w : nat) (n : N) : len (to_be w n) = N.of_nat w.
Proof. unfold len. by rewrite length_to_be. Qed.

Lemma cursor_uint_inv (w : nat) (c : Cursor) (n : N) (c' : Cursor) :
  cursor_wf c -> cursor_uint w c = Ok (n, c') ->
  rest c = to_be w n ++ rest c' /\ (n < 256 ^ N.of_nat w)%N /\ cursor_wf c'.
Proof.
  intros Hc H. unfold cursor_uint in H. inv_ok.
  apply cursor_take_inv in Ha as (Hl & Hr & Hw); [|done].
  assert (Hlen : length l = w) by (unfold len in Hl; lia).
  split_and!; [|rewrite <- Hlen; apply of_be_lt|done].
  rewrite Hr, <- Hlen, to_be_of_be. done.
Qed.

Lemma cursor_uint_app (c : Cursor) (w : nat) (n : N) (r : bytes) :
  cursor_wf c -> rest c = to_be w n ++ r -> (n < 256 ^ N.of_nat w)%N ->
  exists c', cursor_uint w c = Ok (n, c') /\ rest c' = r /\ cursor_wf c'.
Proof.
  intros Hc Hr Hn.
  destruct (cursor_take_app c (N.of_nat w) _ _ Hc Hr) as (c' & Ht & ? & ?); [apply len_to_be|].
  exists c'. unfold cursor_uint. rewrite Ht. simpl. by rewrite of_be_to_be.
Qed.

(** * Header round trip *)

Lemma kind_round_trip (k : ZbfArtifactKind) : kind_from_u16 (kind_to_u16 k) = Some k.
Proof. by destruct k. Qed.

Lemma kind_from_inv (n : N) (k : ZbfArtifactKind) : kind_from_u16 n = Some k -> kind_to_u16 k = n.
Proof. unfold kind_from_u16. intros H. repeat case_match; simplify_eq; done. Qed.

Lemma owner_round_trip (o : ArtifactOwner) : owner_from_u8 (owner_to_u8 o) = Some o.
Proof. by destruct o. Qed.

Lemma owner_from_inv (n : N) (o : ArtifactOwner) : owner_from_u8 n = Some o -> owner_to_u8 o = n.
Proof. unfold owner_from_u8. intros H. repeat case_match; simplify_eq; done. Qed.

(** What the field types of the source guarantee. *)
Definition header_wf (h : ZbfHeader) : Prop :=
  (schema_major h <= U16_MAX /\ schema_minor h <= U16_MAX /\ flags h <= U8_MAX
   /\ payload_len h <= U64_MAX)%N /\
  length (assembly_manifest_digest h) = 32 /\ length (durable_profile_digest h) = 32 /\
  length (source_root_digest h) = 32 /\ length (producer_contract_digest h) = 32 /\
  length (payload_digest h) = 32.

Lemma kind_lt (k : ZbfArtifactKind) : (kind_to_u16 k < 256 ^ N.of_nat 2)%N.
Proof. by destruct k. Qed.

Lemma owner_lt (o : ArtifactOwner) : (owner_to_u8 o < 256 ^ N.of_nat 1)%N.
Proof. by destruct o. Qed.

Lemma len_encode_header (h : ZbfHeader) : header_wf h -> len (encode_header h) = ZBF_HEADER_LEN.
Proof.
  intros (_ & ? & ? & ? & ? & ?). unfold encode_header, len.
  rewrite !length_app, !length_to_be, length_replicate.
  repeat match goal with H : length _ = 32 |- _ => rewrite H; clear H end. done.
Qed.

Ltac take_step :=
  match goal with
  | Hw : cursor_wf ?c, Hr : rest ?c = to_be ?w ?n ++ _ |- context [cursor_uint ?w ?c] =>
      let c' := fresh "c" in let E := fresh in let Hr' := fresh "Hr" in let Hw' := fresh "Hw" in
      destruct (cursor_uint_app c w n _ Hw Hr) as (c' & E & Hr' & Hw');
      [first [apply kind_lt | apply owner_lt | unfold U16_MAX, U8_MAX, U64_MAX in *; lia] |];
      rewrite E; clear E Hr Hw; cbn [mbind result_bind]
  | Hw : cursor_wf ?c, Hr : rest ?c = ?x ++ _ |- context [cursor_take ?n ?c] =>
      let c' := fresh "c" in let E := fresh in let Hr' := fresh "Hr" in let Hw' := fresh "Hw" in
      destruct (cursor_take_app c n x _ Hw Hr) as (c' & E & Hr' & Hw');
      [unfold len; first [done | lia] |];
      rewrite E; clear E Hr Hw; cbn [mbind result_bind]
  end.

Lemma decode_encode_header (h : ZbfHeader) :
  header_wf h -> decode_header (encode_header h) = Ok h.
Proof.
  intros Hwf. pose proof (len_encode_header h Hwf) as Hl.
  destruct Hwf as ((? & ? & ? & ?) & ? & ? & ? & ? & ?).
  assert (Hw : cursor_wf (cursor_new (encode_header h))).
  { apply cursor_new_wf. rewrite Hl. done. }
  pose proof (rest_new (encode_header h)) as Hr. unfold encode_header in Hr at 2.
  unfold decode_header, cursor_digest. take_step.
  rewrite bool_decide_eq_true_2 by done. cbn [negb].
  do 3 take_step. rewrite kind_round_trip; cbn [ok_or mbind result_bind].
  take_step. rewrite owner_round_trip; cbn [ok_or mbind result_bind].
  do 7 take_step.
  match goal with H : rest _ = replicate 8 byte0 |- _ =>
    rewrite <- (app_nil_r (replicate 8 byte0)) in H end.
  take_step. rewrite bool_decide_eq_true_2 by (apply Forall_replicate; done). cbn [negb].
  rewrite remaining_rest by done.
  match goal with H : rest _ = [] |- _ => rewrite H end. cbn. by destruct h.
Qed.

Lemma all_zero_replicate (l : bytes) : Forall (fun x => x = byte0) l -> l = replicate (length l) byte0.
Proof. induction 1; simpl; congruence. Qed.

Ltac cursor_invert :=
  repeat match goal with
  | Hw : cursor_wf ?c, H : cursor_uint _ ?c = Ok _ |- _ =>
      apply cursor_uint_inv in H as (? & ? & ?); [|exact Hw]
  | Hw : cursor_wf ?c, H : cursor_take _ ?c = Ok _ |- _ =>
      apply cursor_take_inv in H as (? & ? & ?); [|exact Hw]
  end.

Lemma remaining_zero (c : Cursor) : cursor_wf c -> remaining c = 0%N -> rest c = [].
Proof. intros Hc. rewrite remaining_rest by done. unfold len. destruct (rest c); simpl; [done|lia]. Qed.

Lemma encode_decode_header (b : bytes) (h : ZbfHeader) :
  (len b <= U64_MAX)%N -> decode_header b = Ok h -> encode_header h = b /\ header_wf h.
Proof.
  intros Hb H. apply cursor_new_wf in Hb. unfold decode_header, cursor_digest in H.
  inv_ok. cursor_invert. breflect.
  match goal with H : remaining _ = 0%N |- _ => apply remaining_zero in H; [|done] end.
  match goal with H : Forall _ ?l, Hl : len ?l = 8%N |- _ =>
    apply all_zero_replicate in H;
    replace (length l) with 8 in H by (unfold len in Hl; lia); subst l end.
  repeat match goal with
  | H : kind_from_u16 _ = Some _ |- _ => apply kind_from_inv in H; subst
  | H : owner_from_u8 _ = Some _ |- _ => apply owner_from_inv in H; subst
  end.
  split.
  - rewrite <- (rest_new b). unfold encode_header; cbn.
    repeat match goal with H : rest ?c = _ |- context [rest ?c] => rewrite H end.
    by rewrite app_nil_r.
  - unfold header_wf; cbn. unfold len, U16_MAX, U8_MAX, U64_MAX in *.
    repeat match goal with H : (_ < 256 ^ _)%N |- _ => cbn in H end.
    split_and!; lia.
Qed.

(** * Container frames *)

Definition frame (x : bytes) : bytes := to_be 8 (len x) ++ x.
Definition frames (xs : list bytes) : bytes := concat (frame <$> xs).

Lemma encode_loop_frames enc p cs xs acc :
  Forall2 (fun o x => enc o = Ok x) cs xs ->
  (len acc + len (frames xs) <= max_payload_bytes p)%N ->
  encode_loop enc p cs acc = Ok (acc ++ frames xs).
Proof.
  intros H. revert acc. induction H as [|o x cs xs Ho H IH]; intros acc Hb; cbn.
  { by rewrite app_nil_r. }
  assert (Hl : len (frames (x :: xs)) = (8 + len x + len (frames xs))%N).
  { unfold frames, frame, len. cbn. rewrite !length_app, length_to_be. lia. }
  rewrite Hl in Hb. unfold max_payload_bytes, ZBF_MAX_OBJECT_BYTES, ZBF_HEADER_LEN in Hb.
  rewrite Ho. cbn. unfold checked_add_u64, U64_MAX.
  rewrite (proj2 (N.leb_le _ _)) by lia. cbn. rewrite (proj2 (N.leb_le _ _)) by lia. cbn.
  unfold bounded_payload_len, max_payload_bytes, ZBF_MAX_OBJECT_BYTES, ZBF_HEADER_LEN.
  rewrite (proj2 (N.ltb_ge _ _)) by lia. cbn. rewrite IH.
  - unfold frames. cbn. unfold frame. by rewrite <- !app_assoc.
  - unfold len in *. rewrite !length_app, length_to_be in *.
    unfold max_payload_bytes, ZBF_MAX_OBJECT_BYTES, ZBF_HEADER_LEN. lia.
Qed.

Lemma encode_loop_inv enc p cs acc out :
  encode_loop enc p cs acc = Ok out ->
  exists xs, Forall2 (fun o x => enc o = Ok x) cs xs /\ out = acc ++ frames xs.
Proof.
  revert acc. induction cs as [|o cs IH]; intros acc H; cbn in H.
  - inv_ok. exists []. by rewrite app_nil_r.
  - apply bind_Ok_inv in H as (x & Hx & H). apply bind_Ok_inv in H as (n & _ & H).
    apply bind_Ok_inv in H as (? & _ & H). apply IH in H as (xs & HF & ->).
    exists (x :: xs). split; [by constructor|]. unfold frames. cbn. unfold frame.
    by rewrite <- !app_assoc.
Qed.

Lemma decode_loop_inv dec n c cs c' :
  cursor_wf c -> decode_loop dec n c = Ok (cs, c') ->
  exists xs, Forall2 (fun o x => dec x = Ok o) cs xs /\ length cs = n /\
             rest c = frames xs ++ rest c' /\ cursor_wf c'.
Proof.
  revert c cs. induction n as [|n IH]; intros c cs Hw H; cbn in H.
  - inv_ok. exists []. done.
  - apply bind_Ok_inv in H as ([clen c1] & H1 & H). cbn in H.
    destruct (clen <? ZBF_HEADER_LEN)%N; [done|].
    apply bind_Ok_inv in H as ([x c2] & H2 & H). apply bind_Ok_inv in H as (o & H3 & H).
    apply bind_Ok_inv in H as ([cs' c3] & H4 & H). inv_ok. cursor_invert.
    apply IH in H4 as (xs & HF & <- & Hr & Hw'); [|done].
    exists (x :: xs). split_and!; [by constructor|done| |done].
    repeat match goal with H : rest ?c = _ |- context [rest ?c] => rewrite H end.
    unfold frames; cbn. unfold frame. subst clen. by rewrite <- !app_assoc.
Qed.

Lemma decode_loop_frames dec cs xs c r :
  Forall2 (fun o x => dec x = Ok o /\ (ZBF_HEADER_LEN <= len x <= U64_MAX)%N) cs xs ->
  cursor_wf c -> rest c = frames xs ++ r ->
  exists c', decode_loop dec (length cs) c = Ok (cs, c') /\ rest c' = r /\ cursor_wf c'.
Proof.
  intros H. revert c. induction H as [|o x cs xs [Ho Hl] H IH]; intros c Hw Hr.
  { exists c. done. }
  unfold frames in Hr; cbn in Hr. unfold frame at 1 in Hr. rewrite <- !app_assoc in Hr.
  cbn [length decode_loop].
  destruct (cursor_uint_app c 8 (len x) _ Hw Hr) as (c1 & E1 & Hr1 & Hw1).
  { unfold U64_MAX in Hl. cbn. lia. }
  rewrite E1; cbn [mbind result_bind]. rewrite (proj2 (N.ltb_ge _ _)) by lia.
  destruct (cursor_take_app c1 (len x) x _ Hw1 Hr1 eq_refl) as (c2 & E2 & Hr2 & Hw2).
  rewrite E2; cbn [mbind result_bind]. rewrite Ho; cbn [mbind result_bind].
  destruct (IH c2 Hw2 Hr2) as (c3 & E3 & Hr3 & Hw3). exists c3.
  by rewrite E3.
Qed.

(** * Objects *)

(** Every header of the object is well typed and names the assembly [asm]. *)
Fixpoint obj_wf (asm : Digest) (o : ZbfObject) : Prop :=
  let 'mkObject h pl := o in
  header_wf h /\ assembly_manifest_digest h = asm /\
  match pl with
  | PBytes _ => True
  | PChildren cs => (fix all cs := match cs with [] => True | c :: cs => obj_wf asm c /\ all cs end) cs
  end.

Lemma obj_wf_children asm h cs :
  obj_wf asm (mkObject h (PChildren cs)) <->
  header_wf h /\ assembly_manifest_digest h = asm /\ Forall (obj_wf asm) cs.
Proof.
  cbn. assert (HF : (fix all cs := match cs with [] => True | c :: cs => obj_wf asm c /\ all cs end) cs
               <-> Forall (obj_wf asm) cs); [|tauto].
  induction cs as [|c cs IH]; [split; [constructor|done]|]. rewrite Forall_cons_iff. tauto.
Qed.

(** * Layout

    The conditions the encoder and the decoder both impose on one object,
    apart from the treatment of its payload. *)

Lemma decode_loop_Forall (P : ZbfObject -> Prop) dec n c cs c' :
  (forall x o, dec x = Ok o -> P o) -> decode_loop dec n c = Ok (cs, c') -> Forall P cs.
Proof.
  intros HP. revert c cs. induction n as [|n IH]; intros c cs H; cbn in H; [inv_ok; constructor|].
  apply bind_Ok_inv in H as ([l c1] & _ & H). cbn in H. destruct (l <? _)%N; [done|].
  apply bind_Ok_inv in H as ([x c2] & _ & H). apply bind_Ok_inv in H as (o & Ho & H).
  apply bind_Ok_inv in H as ([cs' c3] & Hl & H). injection H as <- <-.
  constructor; [by eapply HP|by eapply IH].
Qed.

Lemma decode_children_inv dec pay p depth cs :
  (len pay <= U64_MAX)%N -> decode_children_with dec pay p depth = Ok cs ->
  exists cd xs, checked_add_u16 depth 1 = Some cd /\ require_depth cd p = Ok () /\
    (N.of_nat (length cs) <= max_children p)%N /\
    Forall2 (fun o x => dec cd x = Ok o) cs xs /\
    pay = to_be 4 (N.of_nat (length cs)) ++ frames xs.
Proof.
  intros Hw H. apply cursor_new_wf in Hw. unfold decode_children_with in H.
  apply bind_Ok_inv in H as ([count c] & Hc & H). cbn in H.
  destruct (max_children p <? count)%N eqn:E; [done|].
  apply bind_Ok_inv in H as (cd & Hcd & H). apply bind_Ok_inv in H as ([] & Hrd & H).
  apply bind_Ok_inv in H as ([cs' c'] & Hl & H). inv_ok. cursor_invert. breflect.
  apply decode_loop_inv in Hl as (xs & HF & Hn & Hr & Hw'); [|done].
  match goal with H : remaining _ = 0%N |- _ => apply remaining_zero in H; [|done];
    rewrite H, app_nil_r in Hr end.
  assert (N.of_nat (length cs) = count) as -> by lia.
  exists cd, xs. split_and!; try done. by rewrite <- Hr.
Qed.

Lemma children_decode_encode enc dec pay p depth cs :
  (forall d x o, dec d x = Ok o -> enc d o = Ok x) ->
  (len pay <= max_payload_bytes p)%N ->
  decode_children_with dec pay p depth = Ok cs ->
  encode_children_with enc cs p depth = Ok pay.
Proof.
  intros Hdec Hlen H.
  destruct (decode_children_inv dec pay p depth cs) as (cd & xs & Hcd & Hrd & Hn & HF & Hpay);
    [unfold U64_MAX, max_payload_bytes, ZBF_MAX_OBJECT_BYTES, ZBF_HEADER_LEN in *; lia|done|].
  unfold encode_children_with. unfold max_children, ZBF_MAX_CHILDREN, U32_MAX in *.
  rewrite !(proj2 (N.ltb_ge _ _)) by lia.
  rewrite Hcd; cbn [ok_or mbind result_bind]. rewrite Hrd; cbn [mbind result_bind].
  rewrite (encode_loop_frames _ _ _ xs), <- Hpay; [done| |].
  - eapply Forall2_impl; [|exact HF]. cbn; eauto.
  - unfold len in *. rewrite Hpay, length_app, length_to_be in Hlen. rewrite length_to_be. lia.
Qed.

Lemma frame_le_frames (xs : list bytes) : Forall (fun x => (len x <= len (frames xs))%N) xs.
Proof.
  induction xs as [|x xs IH]; constructor.
  - unfold frames, frame, len; cbn. rewrite !length_app. lia.
  - eapply Forall_impl; [|exact IH]. intros y; cbn. unfold frames, frame, len; cbn.
    rewrite !length_app. lia.
Qed.

Lemma children_encode_decode enc dec pay p depth cs :
  Forall (fun c => forall x, enc (depth + 1)%N c = Ok x ->
            dec (depth + 1)%N x = Ok c /\ (ZBF_HEADER_LEN <= len x)%N) cs ->
  (len pay <= U64_MAX)%N ->
  encode_children_with enc cs p depth = Ok pay ->
  decode_children_with dec pay p depth = Ok cs.
Proof.
  intros Hcs Hlen H. unfold encode_children_with in H. set (n := N.of_nat (length cs)) in *.
  destruct (U32_MAX <? n)%N eqn:En; [done|]. destruct (max_children p <? n)%N eqn:En2; [done|].
  apply bind_Ok_inv in H as (cd & Hcd & H). apply bind_Ok_inv in H as ([] & Hrd & H).
  apply encode_loop_inv in H as (xs & HF & ->). breflect.
  pose proof (cursor_new_wf _ Hlen) as Hw.
  destruct (cursor_uint_app (cursor_new (to_be 4 n ++ frames xs)) 4 n (frames xs))
    as (c1 & E1 & Hr1 & Hw1); [done..| |].
  { unfold U32_MAX in *. change (256 ^ N.of_nat 4)%N with (2 ^ 32)%N. lia. }
  unfold decode_children_with. rewrite E1; cbn. rewrite (proj2 (N.ltb_ge _ _)) by done.
  rewrite Hcd; cbn. rewrite Hrd; cbn. rewrite <- (app_nil_r (frames xs)) in Hr1.
  assert (cd = depth + 1)%N as ->.
  { apply ok_or_Ok_inv in Hcd. unfold checked_add_u16 in Hcd. by case_match; simplify_eq. }
  destruct (decode_loop_frames (dec (depth + 1)%N) cs xs c1 []) as (c2 & E2 & Hr2 & Hw2);
    [|done..|].
  { assert (Hb : Forall (fun x => (len x <= U64_MAX)%N) xs).
    { eapply Forall_impl; [|apply frame_le_frames]. intros x; cbn.
      unfold len in *. rewrite length_app in Hlen. lia. }
    clear -HF Hcs Hb. induction HF as [|o x cs xs Ho HF IHF]; constructor;
      inversion_clear Hcs as [|? ? Hc]; inversion_clear Hb; [|by apply IHF].
    by destruct (Hc x Ho). }
  replace (N.to_nat n) with (length cs) by (unfold n; lia).
  rewrite E2; cbn. by rewrite remaining_rest, Hr2 by done.
Qed.

#[local] Opaque encode_header decode_header.

Section Layout.
Context (sha256 : bytes -> Digest) (json_string : string -> string).
Notation to_bytes_at := (to_bytes_at sha256 json_string).
Notation decode_object := (decode_object sha256 json_string).
Notation validate := (validate_header_contract sha256 json_string).

Definition layout (p : DurableProfileId) (depth : N) (h : ZbfHeader) (pay : bytes) : Prop :=
  require_depth depth p = Ok () /\ validate h p = Ok () /\ header_wf h /\
  payload_len h = len pay /\ payload_digest h = sha256 pay /\
  (ZBF_HEADER_LEN + len pay <= max_object_bytes p)%N.

Definition payload_enc (p : DurableProfileId) (depth : N) (h : ZbfHeader) (pl : ZbfPayload)
  : result ZbfError bytes :=
  match pl with
  | PBytes b =>
      reject? negb (flags h =? 0)%N with HeaderPayloadMismatch in
      let? _ := bounded_payload_len (len b) p in Ok b
  | PChildren children =>
      reject? negb (flags h =? ZBF_CONTAINER_FLAG)%N with HeaderPayloadMismatch in
      encode_children_with (fun d c => to_bytes_at p c d) children p depth
  end.

Definition payload_dec (fuel : nat) (asm : Digest) (p : DurableProfileId) (depth : N)
    (h : ZbfHeader) (pay : bytes) : result ZbfError ZbfPayload :=
  if (flags h =? ZBF_CONTAINER_FLAG)%N
  then let? cs := decode_children_with (fun d x => decode_object fuel x asm p d) pay p depth in
       Ok (PChildren cs)
  else Ok (PBytes pay).

Lemma layout_payload p depth h pay : layout p depth h pay -> (len pay <= max_payload_bytes p)%N.
Proof.
  intros (_ & _ & _ & _ & _ & H). unfold max_payload_bytes, max_object_bytes in *. lia.
Qed.

Lemma to_bytes_layout p depth h pl b :
  header_wf h ->
  to_bytes_at p (mkObject h pl) depth = Ok b <->
  exists pay, b = encode_header h ++ pay /\ layout p depth h pay /\
              payload_enc p depth h pl = Ok pay.
Proof.
  intros Hwf. cbn. fold (payload_enc p depth h pl). split.
  - intros H. apply bind_Ok_inv in H as ([] & Hrd & H). apply bind_Ok_inv in H as ([] & Hv & H).
    apply bind_Ok_inv in H as (pay & Hpay & H). apply bind_Ok_inv in H as (plen & Hplen & H).
    destruct (negb _) eqn:E in H; [done|]. apply bind_Ok_inv in H as (tl & Htl & H).
    destruct (max_object_bytes p <? tl)%N eqn:E2; [done|]. injection H as <-. breflect.
    unfold bounded_payload_len in Hplen. destruct (_ <? len pay)%N; [done|].
    injection Hplen as <-. apply ok_or_Ok_inv in Htl. unfold checked_add_u64 in Htl.
    destruct (_ <=? U64_MAX)%N; [|done]. injection Htl as <-.
    exists pay. by split_and!.
  - intros (pay & -> & Hl & Hpay). pose proof (layout_payload _ _ _ _ Hl).
    destruct Hl as (Hrd & Hv & _ & Hlen & Hdig & Hmax).
    rewrite Hrd; cbn. rewrite Hv; cbn. rewrite Hpay; cbn. unfold bounded_payload_len.
    rewrite (proj2 (N.ltb_ge _ _)) by done; cbn.
    rewrite Hlen, N.eqb_refl, bool_decide_eq_true_2 by done; cbn.
    unfold checked_add_u64, U64_MAX, max_object_bytes, ZBF_MAX_OBJECT_BYTES in *.
    rewrite (proj2 (N.leb_le _ _)) by lia; cbn. by rewrite (proj2 (N.ltb_ge _ _)) by lia.
Qed.

Lemma decode_object_layout fuel p depth asm h pl b :
  decode_object (S fuel) b asm p depth = Ok (mkObject h pl) <->
  exists pay, b = encode_header h ++ pay /\ layout p depth h pay /\
              assembly_manifest_digest h = asm /\ payload_dec fuel asm p depth h pay = Ok pl.
Proof.
  cbn [Zbf.decode_object]. unfold decode_object_with. split.
  - intros H. apply bind_Ok_inv in H as ([] & Hrd & H).
    destruct (max_object_bytes p <? len b)%N eqn:E1; [done|].
    destruct (len b <? ZBF_HEADER_LEN)%N eqn:E2; [done|].
    apply bind_Ok_inv in H as (h' & Hh & H). apply bind_Ok_inv in H as ([] & Hv & H).
    destruct (negb _) eqn:E3 in H; [done|]. destruct (max_payload_bytes p <? _)%N; [done|].
    apply bind_Ok_inv in H as (el & Hel & H).
    destruct (len b <? el)%N eqn:E4; [done|]. destruct (el <? len b)%N eqn:E5; [done|].
    destruct (negb _) eqn:E6 in H; [done|]. apply bind_Ok_inv in H as (pl' & Hpl & H).
    injection H as -> ->. breflect. apply ok_or_Ok_inv in Hel. unfold checked_add_u64 in Hel.
    destruct (_ <=? U64_MAX)%N; [|done]. injection Hel as <-.
    unfold max_object_bytes, ZBF_MAX_OBJECT_BYTES in *.
    apply encode_decode_header in Hh as [Hh Hwf];
      [|unfold len, U64_MAX in *; rewrite length_take; lia].
    set (k := N.to_nat ZBF_HEADER_LEN) in *.
    assert (Hlen : len (drop k b) = payload_len h)
      by (unfold len, k, ZBF_HEADER_LEN in *; rewrite length_drop; lia).
    exists (drop k b). rewrite Hh, take_drop. unfold layout. split_and!; try done.
    rewrite Hlen. unfold max_object_bytes, ZBF_MAX_OBJECT_BYTES. lia.
  - intros (pay & -> & Hl & Hasm & Hpl). pose proof (layout_payload _ _ _ _ Hl).
    destruct Hl as (Hrd & Hv & Hwf & Hlen & Hdig & Hmax).
    pose proof (len_encode_header h Hwf) as Hhl.
    assert (Ht : len (encode_header h ++ pay) = (ZBF_HEADER_LEN + len pay)%N)
      by (unfold len in *; rewrite length_app; lia).
    assert (Hk : N.to_nat ZBF_HEADER_LEN = length (encode_header h)) by (unfold len in Hhl; lia).
    rewrite Hrd; cbn. rewrite Ht, !(proj2 (N.ltb_ge _ _)) by lia.
    rewrite Hk, take_app_length, drop_app_length, decode_encode_header by done; cbn.
    rewrite Hv; cbn. rewrite bool_decide_eq_true_2 by done; cbn.
    rewrite Hlen, (proj2 (N.ltb_ge _ _)) by done.
    unfold checked_add_u64, max_object_bytes, ZBF_MAX_OBJECT_BYTES in *.
    rewrite (proj2 (N.leb_le _ _)) by (unfold U64_MAX; lia); cbn.
    rewrite !(proj2 (N.ltb_ge _ _)) by lia. rewrite bool_decide_eq_true_2 by done; cbn.
    unfold payload_dec in Hpl. by rewrite Hpl.
Qed.
End Layout.

Section RoundTrip.
Context (sha256 : bytes -> Digest) (json_string : string -> string).
Notation to_bytes_at := (to_bytes_at sha256 json_string).
Notation decode_object := (decode_object sha256 json_string).
Notation from_bytes := (from_bytes sha256 json_string).
Notation to_bytes := (to_bytes sha256 json_string).
Notation validate := (validate_header_contract sha256 json_string).

Lemma flags_cases (h : ZbfHeader) p :
  header_wf h -> validate h p = Ok () -> flags h = 0%N \/ flags h = ZBF_CONTAINER_FLAG.
Proof.
  intros [(_ & _ & Hf & _) _] H. unfold validate_header_contract in H. inv_ok. breflect.
  match goal with H : N.land _ _ = 0%N |- _ => rename H into E end.
  unfold U8_MAX in *. change (N.lxor (2 ^ 8 - 1) ZBF_CONTAINER_FLAG) with 254%N in E.
  revert E Hf. generalize (flags h). clear. intros n E Hf.
  assert (Hn : N.to_nat n ∈ seq 0 256) by (apply elem_of_seq; lia).
  rewrite <- (N2Nat.id n) in E |- *. revert E Hn. generalize (N.to_nat n). clear.
  intros k E Hk. assert (Hall : Forall (fun k => N.land (N.of_nat k) 254 = 0%N ->
    N.of_nat k = 0%N \/ N.of_nat k = ZBF_CONTAINER_FLAG) (seq 0 256)).
  { apply (bool_decide_unpack _). vm_compute. done. }
  rewrite Forall_forall in Hall. apply list_elem_of_In in Hk. by apply Hall.
Qed.

Lemma decode_encode_at (fuel : nat) : forall b asm p depth o,
  decode_object fuel b asm p depth = Ok o -> to_bytes_at p o depth = Ok b /\ obj_wf asm o.
Proof.
  induction fuel as [|fuel IH]; intros b asm p depth [h pl] H; [done|].
  apply decode_object_layout in H as (pay & -> & Hl & Hasm & Hpl).
  pose proof (layout_payload _ _ _ _ _ _ Hl) as Hpay.
  pose proof Hl as (_ & Hv & Hwf & _). rewrite to_bytes_layout by done.
  unfold payload_dec in Hpl. destruct (flags h =? ZBF_CONTAINER_FLAG)%N eqn:Ef.
  - apply bind_Ok_inv in Hpl as (cs & Hcs & Hpl). injection Hpl as <-. split.
    + exists pay. split_and!; [done..|]. unfold payload_enc. rewrite Ef; cbn.
      eapply children_decode_encode; [|done|exact Hcs].
      intros d x o Ho. by apply IH in Ho as [? _].
    + apply obj_wf_children. split_and!; [done..|].
      unfold decode_children_with in Hcs. apply bind_Ok_inv in Hcs as ([n c] & _ & Hcs). cbn in Hcs.
      destruct (_ <? n)%N; [done|]. do 2 (apply bind_Ok_inv in Hcs as (? & _ & Hcs)).
      apply bind_Ok_inv in Hcs as ([cs' c'] & Hloop & Hcs). destruct (negb _) in Hcs; [done|].
      injection Hcs as <-. eapply decode_loop_Forall; [|exact Hloop].
      intros y o Ho. by apply IH in Ho as [_ ?].
  - injection Hpl as <-. split; [|done]. exists pay. split_and!; [done..|]. unfold payload_enc.
    destruct (flags_cases h p Hwf Hv) as [->|E]; [|by rewrite E in Ef]. cbn.
    unfold bounded_payload_len. by rewrite (proj2 (N.ltb_ge _ _)) by done.
Qed.

Lemma to_bytes_len asm p depth o b :
  obj_wf asm o -> to_bytes_at p o depth = Ok b -> (ZBF_HEADER_LEN <= len b)%N.
Proof.
  destruct o as [h pl]. intros Hwf H. assert (Hh : header_wf h) by (destruct pl; cbn in Hwf; tauto).
  apply to_bytes_layout in H as (pay & -> & _); [|done].
  pose proof (len_encode_header h Hh). unfold len in *. rewrite length_app. lia.
Qed.

Lemma encode_decode_at (fuel : nat) : forall b asm p depth o,
  (depth + N.of_nat fuel = 17)%N -> obj_wf asm o -> to_bytes_at p o depth = Ok b ->
  decode_object fuel b asm p depth = Ok o.
Proof.
  induction fuel as [|fuel IH]; intros b asm p depth [h pl] Hf Hwf H.
  { cbn in H. apply bind_Ok_inv in H as ([] & Hrd & _).
    unfold require_depth, max_depth, ZBF_MAX_DEPTH in Hrd.
    by rewrite (proj2 (N.ltb_lt _ _)) in Hrd by lia. }
  assert (Hh : header_wf h) by (destruct pl; cbn in Hwf; tauto).
  assert (Hasm : assembly_manifest_digest h = asm) by (destruct pl; cbn in Hwf; tauto).
  apply to_bytes_layout in H as (pay & -> & Hl & Hpay); [|done].
  apply decode_object_layout. exists pay. split_and!; [done..|].
  unfold payload_dec, payload_enc in *. destruct pl as [bs|cs].
  - destruct (flags h =? 0)%N eqn:Ef; [|done]. breflect. rewrite Ef; cbn in *.
    apply bind_Ok_inv in Hpay as (? & _ & Hpay). by injection Hpay as ->.
  - destruct (flags h =? ZBF_CONTAINER_FLAG)%N eqn:Ef; [|done]. cbn in Hpay.
    pose proof (layout_payload _ _ _ _ _ _ Hl) as Hlen.
    apply obj_wf_children in Hwf as (_ & _ & Hcs).
    rewrite (children_encode_decode (fun d c => to_bytes_at p c d)
               (fun d x => decode_object fuel x asm p d) pay p depth cs); [done| | |done].
    + eapply Forall_impl; [|exact Hcs]. intros c Hc x Hx; cbn beta in *.
      split; [apply IH; [lia|done..]|by eapply to_bytes_len].
    + unfold U64_MAX, max_payload_bytes, ZBF_MAX_OBJECT_BYTES, ZBF_HEADER_LEN in *. lia.
Qed.

(** C32: ZBF encoding and strict decoding are mutually inverse on the objects
    whose nested headers are well typed and name the expected assembly. Whatever
    object encodes is decoded back from its bytes, provided every nested
    header is well typed and names the expected assembly; and whatever byte
    string the decoder accepts is the one and only encoding of the object it
    returns, all of whose nested headers name the expected assembly. *)
Theorem zbf_codec_inverse (asm : Digest) (p : DurableProfileId) :
  (forall o b, obj_wf asm o -> to_bytes o p = Ok b -> from_bytes b asm p = Ok o) /\
  (forall o b, from_bytes b asm p = Ok o -> to_bytes o p = Ok b /\ obj_wf asm o).
Proof.
  split.
  - intros o b Hwf H. by apply encode_decode_at.
  - intros o b H. by eapply decode_encode_at.
Qed.

Lemma decode_object_with_ext f g b asm p depth :
  (forall pay, f pay = g pay) ->
  decode_object_with sha256 json_string f b asm p depth
  = decode_object_with sha256 json_string g b asm p depth.
Proof.
  intros H. unfold decode_object_with.
  destruct (require_depth depth p); cbn; [|done].
  repeat match goal with |- context [reject? ?c with _ in _] => destruct c; [done|] end.
  destruct (decode_header _) as [h|]; cbn; [|done].
  destruct (validate h p); cbn; [|done].
  repeat match goal with |- context [reject? ?c with _ in _] => destruct c; [done|] end.
  destruct (ok_or _ _); cbn; [|done].
  repeat match goal with |- context [if ?c then Err _ else _] => destruct c; [done|] end.
  by rewrite H.
Qed.

Lemma decode_children_ext f g pay p depth :
  (forall d x, d = (depth + 1)%N -> (d <= max_depth p)%N -> f d x = g d x) ->
  decode_children_with f pay p depth = decode_children_with g pay p depth.
Proof.
  intros H. unfold decode_children_with.
  destruct (cursor_uint 4 (cursor_new pay)) as [[n c]|]; cbn; [|done].
  destruct (_ <? n)%N; [done|]. unfold checked_add_u16.
  destruct (depth + 1 <=? U16_MAX)%N; cbn; [|done].
  unfold require_depth. destruct (max_depth p <? depth + 1)%N eqn:E; cbn; [done|]. breflect.
  f_equal. generalize (N.to_nat n) c. clear -H E. intros k.
  induction k as [|k IHk]; intros c; [done|]. cbn.
  destruct (cursor_uint 8 c) as [[l c1]|]; cbn; [|done]. destruct (l <? _)%N; [done|].
  destruct (cursor_take l c1) as [[x c2]|]; cbn; [|done].
  rewrite H by done. destruct (g _ x); cbn; [|done]. by rewrite IHk.
Qed.

(** One level of fuel more than the remaining depth never changes the result. *)
Lemma decode_object_fuel (fuel : nat) : forall b asm p depth,
  (17 <= depth + N.of_nat fuel)%N -> (depth <= 16)%N ->
  decode_object fuel b asm p depth = decode_object (S fuel) b asm p depth.
Proof.
  induction fuel as [|fuel IH]; intros b asm p depth Hf Hd; [lia|].
  change (decode_object_with sha256 json_string
    (fun pay => decode_children_with (fun d x => decode_object fuel x asm p d) pay p depth)
    b asm p depth = decode_object_with sha256 json_string
    (fun pay => decode_children_with (fun d x => decode_object (S fuel) x asm p d) pay p depth)
    b asm p depth).
  apply decode_object_with_ext. intros pay. apply decode_children_ext.
  intros cd x -> Hcd. unfold max_depth, ZBF_MAX_DEPTH in Hcd. apply IH; lia.
Qed.

(** Nesting can never exhaust the decoder: any amount of fuel beyond the
    seventeen levels the depth guard allows gives the same answer, and every
    input is either accepted or rejected with an error (the function is
    total), so recursion over attacker-supplied nesting is bounded. *)
Theorem zbf_decode_depth_bounded (b : bytes) (asm : Digest) (p : DurableProfileId) (extra : nat) :
  decode_object (decode_fuel + extra) b asm p 0 = from_bytes b asm p /\
  (forall o, from_bytes b asm p = Ok o -> (len b <= ZBF_MAX_OBJECT_BYTES)%N).
Proof.
  split.
  - induction extra as [|n IH]; [by rewrite Nat.add_0_r|].
    rewrite <- IH, Nat.add_succ_r. symmetry. apply decode_object_fuel; unfold decode_fuel; lia.
  - intros [h pl] H. apply decode_object_layout in H as (pay & -> & Hl & _).
    destruct Hl as (_ & _ & Hwf & _ & _ & Hm). pose proof (len_encode_header h Hwf).
    unfold max_object_bytes, len in *. rewrite length_app. lia.
Qed.
End RoundTrip.

(** * Concrete instances *)

(** A toy digest of the right width, enough to run the codec. *)
Definition toy_sha256 (b : bytes) : Digest := take 32 (b ++ replicate 32 byte0).
Definition toy_json_string (s : string) : string := String (ascii_of_N 34) (s +:+ String (ascii_of_N 34) "").
Definition toy_digest (n : N) : Digest := replicate 31 byte0 ++ [ascii_of_N n].

Definition sample_leaf (asm : Digest) : result ZbfError ZbfObject :=
  new_leaf toy_sha256 toy_json_string FsPack FsZero asm PortableStrict (toy_digest 5) (toy_digest 6)
    (string_bytes "payload").

Definition sample_object (asm child_asm : Digest) : result ZbfError ZbfObject :=
  let? leaf := sample_leaf child_asm in
  new_container toy_sha256 toy_json_string Plan ZeroStack asm PortableStrict
    (toy_digest 7) (toy_digest 8) [leaf].

Definition result_or {E A} (d : A) (r : result E A) : A := match r with Ok a => a | Err _ => d end.

Definition dummy_object : ZbfObject :=
  mkObject (mkHeader 0 0 Plan ZeroStack 0 0 [] [] [] [] []) (PBytes []).

Definition sample_ok : ZbfObject := result_or dummy_object (sample_object (toy_digest 9) (toy_digest 9)).
Definition sample_bytes : bytes :=
  result_or [] (to_bytes toy_sha256 toy_json_string sample_ok PortableStrict).

Lemma zbf_codec_inverse_witness :
  to_bytes toy_sha256 toy_json_string sample_ok PortableStrict = Ok sample_bytes /\
  from_bytes toy_sha256 toy_json_string sample_bytes (toy_digest 9) PortableStrict = Ok sample_ok.
Proof.
  assert (H : to_bytes toy_sha256 toy_json_string sample_ok PortableStrict = Ok sample_bytes)
    by (vm_compute; reflexivity).
  split; [exact H|].
  apply (proj1 (zbf_codec_inverse toy_sha256 toy_json_string (toy_digest 9) PortableStrict));
    [|exact H].
  vm_compute. repeat split; try (intros HH; discriminate HH).
Defined.

Lemma zbf_decode_depth_bounded_witness :
  (len sample_bytes <= ZBF_MAX_OBJECT_BYTES)%N.
Proof.
  apply (proj2 (zbf_decode_depth_bounded toy_sha256 toy_json_string sample_bytes (toy_digest 9)
                  PortableStrict 0)) with (o := sample_ok).
  vm_compute. reflexivity.
Defined.

(** A container accepts, and encodes, a child that is bound to another
    assembly, although the decoder refuses the resulting bytes: neither
    [new_container] nor [to_bytes] compares the assembly of a child with that
    of its parent. *)
Example foreign_child_encodes_but_is_refused :
  exists o b,
    sample_object (toy_digest 9) (toy_digest 4) = Ok o /\
    to_bytes toy_sha256 toy_json_string o PortableStrict = Ok b /\
    from_bytes toy_sha256 toy_json_string b (toy_digest 9) PortableStrict
    = Err (AssemblyMismatch (toy_digest 9) (toy_digest 4)).
Proof.
  exists (result_or dummy_object (sample_object (toy_digest 9) (toy_digest 4))),
    (result_or [] (to_bytes toy_sha256 toy_json_string
       (result_or dummy_object (sample_object (toy_digest 9) (toy_digest 4))) PortableStrict)).
  split_and!; vm_compute; reflexivity.
Qed.
