(* ===== verification/DurableStore.v ===== *)
(** The write path shared by the two durable journals of zero-store
    ([durable_journal.rs] and [attempt_journal.rs] carry one copy each):
    canonical records, crash-injected atomic replacement, write-once records
    and strict canonical reads, over an explicit file store.

    The file system maps a path (its component list, which is what [Path]
    compares) to an entry.  Serde's encoding of a record composed with
    canonical JSON is the class [Codec]; SHA-256 is a field of [Platform].
    Every operating-system call may fail: [os call boundary] says whether the
    call made on behalf of [boundary] does.  Symbolic links and concurrent
    writers are not modelled. *)

From S2P Require Import Prelude.

(** * Platform and codecs *)

Class Platform := { sha256 : bytes -> Digest; json_string : string -> string }.

Class Codec (T : Type) := { encode : T -> bytes; decode : bytes -> option T }.

(** The frozen record bound of both journals, [64 * 1024]. *)
Definition MAX_RECORD_BYTES : N := 64 * 1024.

(** Values the source's types admit: a digest has 32 bytes, a [u64] is below
    [2^64].  The model's types are wider, so the codec laws are stated for
    well-formed values. *)
Class Wf (T : Type) := wf : T -> Prop.

Definition digest_wf (d : Digest) : Prop := length d = 32.
Definition u16_wf (n : N) : Prop := (n <= U16_MAX)%N.
Definition u64_wf (n : N) : Prop := (n <= U64_MAX)%N.
Definition option_wf {A} (P : A -> Prop) (o : option A) : Prop :=
  match o with Some x => P x | None => True end.

(** Serialization round-trips and stays within the frozen record bound. *)
Class CodecOk (T : Type) `{Codec T, Wf T} := {
  decode_encode : forall x : T, wf x -> decode (encode x) = Some x;
  encode_bounded : forall x : T, wf x -> (len (encode x) <= MAX_RECORD_BYTES)%N }.

Lemma encode_inj {T} `{Codec T, Wf T, !CodecOk T} (x y : T) :
  wf x -> wf y -> encode x = encode y -> x = y.
Proof.
  intros Hx Hy Heq. apply decode_encode in Hx, Hy. rewrite Heq, Hy in Hx. congruence.
Qed.

(** SHA-256 digests have 32 bytes. *)
Class PlatformOk `{Platform} := sha256_length : forall m, digest_wf (sha256 m).

(** [domain ++ u64_be(len) ++ bytes], hashed. *)
Definition domain_digest `{Platform} (domain b : bytes) : Digest :=
  sha256 (domain ++ to_be 8 (len b) ++ b).

Lemma domain_digest_wf `{Platform, !PlatformOk} (domain b : bytes) : digest_wf (domain_digest domain b).
Proof. apply sha256_length. Qed.

(** * Paths and entries *)

Inductive Component := RootDir | CurDir | ParentDir | Normal (name : string).

#[global] Instance Component_eq_dec : EqDecision Component.
Proof. solve_decision. Defined.

#[global] Instance Component_countable : Countable Component.
Proof.
  apply (inj_countable'
    (fun c => match c with RootDir => inl 0 | CurDir => inl 1 | ParentDir => inl 2 | Normal s => inr s end)
    (fun x => match x with inl 0 => RootDir | inl 1 => CurDir | inl _ => ParentDir | inr s => Normal s end)).
  by intros [].
Defined.

Notation Path := (list Component).

Definition file_name (p : Path) : option string :=
  match list.last p with Some (Normal s) => Some s | _ => None end.

(** What a path resolves to: a regular file, another kind of entry, or an
    entry whose metadata or content cannot be read. *)
Inductive Entry :=
| Regular (content : bytes)
| NotAFile
| StatFails
| ReadFails (size : N).

Notation FS := (@gmap (list Component) (@list.list_eq_dec Component Component_eq_dec)
  (@list_countable Component Component_eq_dec Component_countable) Entry).

(** * Errors, faults and the state-error monad *)

Record Error (Code BD : Type) := mkError {
  code : Code; boundary : option BD; changed : bool }.
Global Arguments mkError {Code BD} _ _ _.
Global Arguments code {Code BD} _.
Global Arguments boundary {Code BD} _.
Global Arguments changed {Code BD} _.

Definition error_new {Code BD} (c : Code) : Error Code BD := mkError c None false.
Definition error_at {Code BD} (c : Code) (b : BD) (published : bool) : Error Code BD :=
  mkError c (Some b) published.

(** The failure codes the shared write path raises. *)
Class FailureCodes (Code : Type) := {
  c_invalid_binding : Code;
  c_torn : Code;
  c_too_large : Code;
  c_conflict : Code;
  c_io : Code;
  c_dir_sync : Code;
  c_crash : Code }.

Record FaultPlan (BD : Type) := mkFaultPlan { crash_at : option BD; fired : bool }.
Global Arguments mkFaultPlan {BD} _ _.
Global Arguments crash_at {BD} _.
Global Arguments fired {BD} _.

Definition FaultPlan_none {BD} : FaultPlan BD := mkFaultPlan None false.
Definition FaultPlan_crash_at {BD} (b : BD) : FaultPlan BD := mkFaultPlan (Some b) false.

Inductive OsCall := CreateDirAll | OpenTemp | WriteAll | SyncAll | Rename | SyncDir.

Record World (BD : Type) := mkWorld { fs : FS; fault : FaultPlan BD }.
Global Arguments mkWorld {BD} _ _.
Global Arguments fs {BD} _.
Global Arguments fault {BD} _.

Definition M (E W A : Type) : Type := W -> result E A * W.

Definition sret {E W A} (a : A) : M E W A := fun w => (Ok a, w).
Definition throw {E W A} (e : E) : M E W A := fun w => (Err e, w).
Definition lift {E W A} (r : result E A) : M E W A := fun w => (r, w).
Definition sbind {E W A B} (m : M E W A) (k : A -> M E W B) : M E W B :=
  fun w => match m w with (Ok a, w') => k a w' | (Err e, w') => (Err e, w') end.
Definition gets {E BD A : Type} (f : FS -> result E A) : M E (World BD) A := fun w => (f (fs w), w).

Notation "'let!' x ':=' m 'in' k" := (sbind m (fun x => k))
  (at level 10, x pattern, m at level 100, k at level 200) : zs_scope.
Notation "'reject!' c 'with' e 'in' k" := (if c then throw e else k)
  (at level 10, c at level 100, e at level 100, k at level 200) : zs_scope.

(** * Canonical records *)

Record CanonicalRead (T : Type) := mkRead { value : T; digest : Digest }.
Global Arguments mkRead {T} _ _.
Global Arguments value {T} _.
Global Arguments digest {T} _.

Record WriteBoundaries (BD : Type) := mkBoundaries {
  before : BD; file_sync : BD; rename : BD; dir_sync : BD }.
Global Arguments mkBoundaries {BD} _ _ _ _.
Global Arguments before {BD} _.
Global Arguments file_sync {BD} _.
Global Arguments rename {BD} _.
Global Arguments dir_sync {BD} _.

Section Store.
Context `{Platform} {Code BD : Type} `{FailureCodes Code} `{EqDecision Code, EqDecision BD}.
Notation E := (Error Code BD).

Definition canonical_bytes {T} `{Codec T} (v : T) : result E bytes :=
  let b := encode v in
  reject? (MAX_RECORD_BYTES <? len b)%N with error_new c_too_large in Ok b.

Definition read_canonical {T} `{Codec T} (f : FS) (path : Path) (missing : Code) (domain : bytes)
  : result E (CanonicalRead T) :=
  match f !! path with
  | None => Err (error_new missing)
  | Some StatFails => Err (error_new c_io)
  | Some NotAFile => Err (error_new c_torn)
  | Some (ReadFails size) =>
      reject? (MAX_RECORD_BYTES <? size)%N with error_new c_too_large in
      Err (error_new c_io)
  | Some (Regular b) =>
      reject? (MAX_RECORD_BYTES <? len b)%N with error_new c_too_large in
      let? v := ok_or (decode b) (error_new c_torn) in
      let? canonical := canonical_bytes v in
      reject? negb (bool_decide (canonical = b)) with error_new c_torn in
      Ok (mkRead v (domain_digest domain canonical))
  end.

Definition read_optional {T} `{Codec T} (f : FS) (path : Path) (missing : Code) (domain : bytes)
  : result E (option (CanonicalRead T)) :=
  match read_canonical f path missing domain with
  | Ok v => Ok (Some v)
  | Err e => if bool_decide (code e = missing) then Ok None else Err e
  end.

(** [FaultPlan::hit]. *)
Definition hit (b : BD) (published : bool) : M E (World BD) () := fun w =>
  if negb (fired (fault w)) && bool_decide (crash_at (fault w) = Some b)
  then (Err (error_at c_crash b published),
        mkWorld (fs w) (mkFaultPlan (crash_at (fault w)) true))
  else (Ok (), w).

Definition io_before (b : BD) : E := error_at c_io b false.

Definition put (path : Path) (b : bytes) : M E (World BD) () := fun w =>
  (Ok (), mkWorld (<[path := Regular b]> (fs w)) (fault w)).

(** The temporary file lives beside the record under a fresh name and is
    removed unless it was published, so only the rename is visible here. *)
Definition durable_replace_core (os : OsCall -> BD -> bool) (path : Path) (b : bytes)
    (bd : WriteBoundaries BD) : M E (World BD) () :=
  reject! (MAX_RECORD_BYTES <? len b)%N with error_new c_too_large in
  reject! os CreateDirAll (before bd) with io_before (before bd) in
  reject! bool_decide (file_name path = None) with error_new c_invalid_binding in
  reject! os OpenTemp (before bd) with io_before (before bd) in
  let! _ := hit (before bd) false in
  reject! os WriteAll (before bd) with io_before (before bd) in
  reject! os SyncAll (file_sync bd) with io_before (file_sync bd) in
  let! _ := hit (file_sync bd) false in
  reject! os Rename (rename bd) with io_before (rename bd) in
  let! _ := put path b in
  let! _ := hit (rename bd) true in
  reject! os SyncDir (dir_sync bd) with error_at c_dir_sync (dir_sync bd) true in
  hit (dir_sync bd) true.

(** Write-once: identical bytes are accepted, different bytes refused. *)
Definition write_once_core (os : OsCall -> BD -> bool) (path : Path) (b : bytes)
    (bd : WriteBoundaries BD) : M E (World BD) () := fun w =>
  match fs w !! path with
  | Some (Regular existing) =>
      if bool_decide (existing = b) then (Ok (), w) else (Err (error_new c_conflict), w)
  | None => durable_replace_core os path b bd w
  | Some _ => (Err (error_new c_io), w)
  end.
End Store.

(** * Symbolic execution

    [quiet os plan]: no operating-system call fails and no crash is pending.
    [wp os calm m Q f]: started in any world whose file store is [f], whatever
    the fault plan (a quiet one when [calm] holds), [m] ends with a result and
    a store satisfying [Q], and quietness survives. *)

Definition quiet {BD} (os : OsCall -> BD -> bool) (plan : FaultPlan BD) : Prop :=
  (forall c b, os c b = false) /\ (fired plan = true \/ crash_at plan = None).

Section Wp.
Context {E BD : Type} (os : OsCall -> BD -> bool) (calm : Prop).

Definition wp {A} (m : M E (World BD) A) (Q : result E A -> FS -> Prop) (f : FS) : Prop :=
  forall w, fs w = f -> (calm -> quiet os (fault w)) ->
    Q (fst (m w)) (fs (snd (m w))) /\ (calm -> quiet os (fault (snd (m w)))).

Lemma wp_bind {A B} (m : M E (World BD) A) (k : A -> M E (World BD) B) Q f :
  wp m (fun r f' => match r with Ok a => wp (k a) Q f' | Err e => Q (Err e) f' end) f ->
  wp (sbind m k) Q f.
Proof.
  intros Hm w Hw Hq. specialize (Hm w Hw Hq). unfold sbind.
  destruct (m w) as [[a|e] w']; cbn in *; destruct Hm as [Hm Hq']; auto.
Qed.

Lemma wp_assoc {A B C} (m : M E (World BD) A) (k : A -> M E (World BD) B)
    (k' : B -> M E (World BD) C) Q f :
  wp (sbind m (fun x => sbind (k x) k')) Q f -> wp (sbind (sbind m k) k') Q f.
Proof.
  intros Hm w Hw Hq. specialize (Hm w Hw Hq). unfold sbind in *. by destruct (m w) as [[]].
Qed.

Lemma wp_gets {A} (g : FS -> result E A) (Q : result E A -> FS -> Prop) f :
  Q (g f) f -> wp (gets g) Q f.
Proof. intros HQ w <-. split; auto. Qed.

Lemma wp_lift {A} (r : result E A) (Q : result E A -> FS -> Prop) f : Q r f -> wp (lift r) Q f.
Proof. intros HQ w <-. split; auto. Qed.

Lemma wp_throw {A} (e : E) (Q : result E A -> FS -> Prop) f : Q (Err e) f -> wp (throw e) Q f.
Proof. intros HQ w <-. split; auto. Qed.

Lemma wp_sret {A} (a : A) (Q : result E A -> FS -> Prop) f : Q (Ok a) f -> wp (sret a) Q f.
Proof. intros HQ w <-. split; auto. Qed.

Lemma wp_mono {A} (m : M E (World BD) A) (Q Q' : result E A -> FS -> Prop) f :
  (forall r f', Q r f' -> Q' r f') -> wp m Q f -> wp m Q' f.
Proof. intros HQ Hm w Hw Hq. destruct (Hm w Hw Hq). auto. Qed.

Lemma wp_lift_ok {A B} (r : result E A) (x : A) (k : A -> M E (World BD) B) Q f :
  r = Ok x -> wp (k x) Q f -> wp (sbind (lift r) k) Q f.
Proof. intros -> Hk. apply wp_bind, wp_lift. exact Hk. Qed.

Lemma wp_gets_ok {A B} (g : FS -> result E A) (x : A) (k : A -> M E (World BD) B) Q f :
  g f = Ok x -> wp (k x) Q f -> wp (sbind (gets g) k) Q f.
Proof. intros Hg Hk. apply wp_bind, wp_gets. by rewrite Hg. Qed.

Lemma wp_gets_err {A B} (g : FS -> result E A) (e : E) (k : A -> M E (World BD) B) Q f :
  g f = Err e -> Q (Err e) f -> wp (sbind (gets g) k) Q f.
Proof. intros Hg Hk. apply wp_bind, wp_gets. by rewrite Hg. Qed.

Lemma wp_lift_any {A B} (r : result E A) (k : A -> M E (World BD) B) Q f :
  (forall e, r = Err e -> Q (Err e) f) -> (forall x, r = Ok x -> wp (k x) Q f) ->
  wp (sbind (lift r) k) Q f.
Proof. intros He Hk. apply wp_bind, wp_lift. destruct r; auto. Qed.

Lemma wp_if {A} (c : bool) (m1 m2 : M E (World BD) A) Q f :
  (c = true -> wp m1 Q f) -> (c = false -> wp m2 Q f) -> wp (if c then m1 else m2) Q f.
Proof. destruct c; auto. Qed.
End Wp.

Section WriteRules.
Context `{Platform} {Code BD : Type} `{FailureCodes Code} `{EqDecision Code, EqDecision BD}.
Context (os : OsCall -> BD -> bool) (calm : Prop).
Notation E := (Error Code BD).
Implicit Types (f : FS) (p : Path) (b : bytes) (bd : WriteBoundaries BD).

(** An error of a write that reached the operating system: it names its
    boundary, has one of three codes and cannot occur in a calm run. *)
Definition write_error (e : E) (published : bool) : Prop :=
  ~ calm /\ boundary e <> None /\ changed e = published /\
  (code e = c_io \/ code e = c_dir_sync \/ code e = c_crash).

Lemma wp_hit (x : BD) (published : bool) (Q : result E () -> FS -> Prop) f :
  (forall e, write_error e published -> Q (Err e) f) -> Q (Ok ()) f ->
  wp os calm (hit x published) Q f.
Proof.
  intros He Hok w Hw Hq. unfold hit.
  destruct (negb (fired (fault w)) && _) eqn:Hc; cbn; rewrite Hw; [|by auto].
  breflect. split; [apply He; split_and!; [|done|done|by auto]|].
  - intros c. destruct (Hq c) as [_ [|]]; congruence.
  - intros c. destruct (Hq c) as [Hos _]. split; [done | by left].
Qed.

Lemma wp_os {A} (c : OsCall) (x : BD) (e : E) (m : M E (World BD) A) Q f :
  boundary e <> None -> code e = c_io \/ code e = c_dir_sync ->
  (write_error e (changed e) -> Q (Err e) f) -> wp os calm m Q f ->
  wp os calm (reject! os c x with e in m) Q f.
Proof.
  intros Hb Hcode He Hm w Hw Hq. destruct (os c x) eqn:Hc; [|by apply Hm].
  cbn. rewrite Hw. split; [|done]. apply He. split_and!; [|done|done|tauto].
  intros cm. destruct (Hq cm) as [Hos _]. by rewrite Hos in Hc.
Qed.

(** Atomic replacement: every outcome leaves either the old store with an
    error that says so, or the new content at [p] and nothing else changed. *)
Lemma wp_durable_replace p b bd (Q : result E () -> FS -> Prop) f :
  (len b <= MAX_RECORD_BYTES)%N -> file_name p <> None ->
  (forall e, write_error e false -> Q (Err e) f) ->
  (forall e, write_error e true -> Q (Err e) (<[p := Regular b]> f)) ->
  Q (Ok ()) (<[p := Regular b]> f) ->
  wp os calm (durable_replace_core os p b bd) Q f.
Proof.
  intros Hlen Hp Hold Hnew Hok. unfold durable_replace_core.
  guard_by lia. apply wp_os; [done | by auto | by auto|].
  guard_by done. apply wp_os; [done | by auto | by auto|].
  apply wp_bind, wp_hit; [by auto|].
  apply wp_os; [done | by auto | by auto|]. apply wp_os; [done | by auto | by auto|].
  apply wp_bind, wp_hit; [by auto|]. apply wp_os; [done | by auto | by auto|].
  apply wp_bind. intros w Hw Hq. cbn. rewrite Hw. split; [|done]. clear w Hw Hq.
  apply wp_bind, wp_hit; [by auto|].
  apply wp_os; [done | by auto | by auto|]. by apply wp_hit.
Qed.

(** Write-once on an absent record is a replacement; on the same bytes it is
    a no-op. *)
Lemma wp_write_once_absent {A} p b bd (k : () -> M E (World BD) A) Q f : f !! p = None ->
  wp os calm (sbind (durable_replace_core os p b bd) k) Q f ->
  wp os calm (sbind (write_once_core os p b bd) k) Q f.
Proof.
  intros Hf Hwp w Hw Hq. specialize (Hwp w Hw Hq). unfold sbind, write_once_core in *.
  by rewrite Hw, Hf.
Qed.

Lemma wp_write_once_same {A} p b bd (k : () -> M E (World BD) A) Q f :
  f !! p = Some (Regular b) -> wp os calm (k ()) Q f ->
  wp os calm (sbind (write_once_core os p b bd) k) Q f.
Proof.
  intros Hf Hwp w Hw Hq. specialize (Hwp w Hw Hq). unfold sbind, write_once_core.
  by rewrite Hw, Hf, bool_decide_true.
Qed.

(** Write-once over different bytes refuses and changes nothing. *)
Lemma wp_write_once_other {A} p b b' bd (k : () -> M E (World BD) A) (Q : result E A -> FS -> Prop) f :
  f !! p = Some (Regular b') -> b' <> b -> Q (Err (error_new c_conflict)) f ->
  wp os calm (sbind (write_once_core os p b bd) k) Q f.
Proof.
  intros Hf Hb HQ w Hw Hq. unfold sbind, write_once_core.
  rewrite Hw, Hf, bool_decide_false by done. cbn. by rewrite Hw.
Qed.
End WriteRules.

(** * Atomic replacement *)

Section Atomic.
Context `{Platform} {Code BD : Type} `{FailureCodes Code} `{EqDecision Code, EqDecision BD}.

(** A write refused before it reaches the operating system changes nothing. *)
Lemma durable_replace_refused (os : OsCall -> BD -> bool) (p : Path) (b : bytes)
    (bd : WriteBoundaries BD) (w : World BD) :
  (MAX_RECORD_BYTES < len b)%N \/ file_name p = None ->
  exists e : Error Code BD,
    durable_replace_core os p b bd w = (Err e, w) /\ changed e = false.
Proof.
  intros [Hlen|Hp]; unfold durable_replace_core; [guard_by lia; by eexists|].
  destruct (MAX_RECORD_BYTES <? len b)%N; [by eexists|].
  destruct (os CreateDirAll _); [by eexists|]. rewrite Hp, bool_decide_true by done. by eexists.
Qed.

(** [durable_replace] is atomic and its error flag is honest.  Whatever
    crash is injected and whichever operating-system calls fail, the store
    afterwards is the old one or the old one with exactly the new bytes at
    the path; success means the latter, and an error says which of the two
    holds through [publication_may_have_changed].  With no failure and no
    pending crash, an admissible write succeeds. *)
Theorem durable_replace_atomic (os : OsCall -> BD -> bool) (p : Path) (b : bytes)
    (bd : WriteBoundaries BD) (w : World BD) :
  let '(r, w') := durable_replace_core (Code := Code) os p b bd w in
  let new := <[p := Regular b]> (fs w) in
  (fs w' = match r with
           | Ok _ => new
           | Err e => if changed e then new else fs w
           end) /\
  (quiet os (fault w) -> (len b <= MAX_RECORD_BYTES)%N -> file_name p <> None ->
   r = Ok () /\ quiet os (fault w')).
Proof.
  destruct (decide (MAX_RECORD_BYTES < len b)%N) as [Hlen|Hlen].
  { destruct (durable_replace_refused os p b bd w) as (e & -> & ->); [by left|]. split; [done|]. lia. }
  destruct (decide (file_name p = None)) as [Hp|Hp].
  { destruct (durable_replace_refused os p b bd w) as (e & -> & ->); by auto. }
  enough (wp os (quiet os (fault w)) (durable_replace_core os p b bd) (fun r f' =>
    f' = match r with
         | Ok _ => <[p := Regular b]> (fs w)
         | Err e => if changed (Code := Code) e then <[p := Regular b]> (fs w) else fs w
         end /\ (quiet os (fault w) -> r = Ok ())) (fs w)) as Hwp.
  { destruct (Hwp w eq_refl id) as [[Hf Hr] Hq].
    destruct (durable_replace_core os p b bd w) as [r w']; cbn in *. split; auto. }
  apply wp_durable_replace; [lia | done | | | done];
    intros e (Hc & _ & -> & _); (split; [done|]); intros Hq; by destruct Hc.
Qed.
End Atomic.

(** * Strict canonical reads *)

Section ReadRules.
Context `{Platform} {Code BD : Type} `{FailureCodes Code} `{EqDecision Code, EqDecision BD}.
Context {T : Type} `{Codec T, Wf T, !CodecOk T}.
Notation E := (Error Code BD).

(** What a record slot holds: absent, or exactly the canonical bytes. *)
Definition slot (x : option T) : option Entry := (fun v => Regular (encode v)) <$> x.

Lemma canonical_bytes_ok (v : T) : wf v -> canonical_bytes v = Ok (E := E) (encode v).
Proof. intros Hv. unfold canonical_bytes. pose proof (encode_bounded v Hv). by guard_true. Qed.

Lemma read_canonical_slot (f : FS) (p : Path) (missing : Code) (domain : bytes) (x : option T) :
  f !! p = slot x -> option_wf wf x ->
  read_canonical f p missing domain =
    match x with
    | Some v => Ok (E := E) (mkRead v (domain_digest domain (encode v)))
    | None => Err (error_new missing)
    end.
Proof.
  intros Hf Hx. unfold read_canonical. rewrite Hf. destruct x as [v|]; [|done]. cbn in *.
  pose proof (encode_bounded v Hx). guard_true. rewrite decode_encode by done. cbn.
  rewrite canonical_bytes_ok by done. cbn. by guard_true.
Qed.

Lemma read_optional_slot (f : FS) (p : Path) (missing : Code) (domain : bytes) (x : option T) :
  f !! p = slot x -> option_wf wf x ->
  read_optional f p missing domain =
    Ok (E := E) ((fun v => mkRead v (domain_digest domain (encode v))) <$> x).
Proof.
  intros Hf Hx. unfold read_optional. rewrite (read_canonical_slot _ _ _ _ x Hf Hx).
  destruct x; cbn; [done | by guard_true].
Qed.
End ReadRules.
