(* ===== verification/DurableJournal.v ===== *)
(** The durable single-root journal of zero-store ([durable_journal.rs]): a
    transaction persists a continuation cartridge and a prepared record, then
    either publishes the new root and a committed record or an aborted record,
    and finally a recovery receipt.  Records live at five caller-supplied
    paths; every write goes through [DurableStore.durable_replace_core].

    The two binding formats share one state machine through the trait
    [JournalBindingLike], a class here.  Error details (message text) are not
    part of the model; codes, boundaries and the publication flag are. *)

From S2P Require Import Prelude.
From S2P Require Zbf.
From S2P Require Import DurableStore.

Notation DurableProfileId := Zbf.DurableProfileId.

(** [DurableProfile::new(id).digest()]. *)
Definition profile_digest `{Platform} (id : DurableProfileId) : Digest :=
  Zbf.profile_digest sha256 json_string id.

Definition DURABLE_JOURNAL_SCHEMA_VERSION : N := 2.
Definition DURABLE_LEASE_JOURNAL_SCHEMA_VERSION : N := 3.
Definition DURABLE_BINDING_SCHEMA_VERSION : N := 1.
Definition DURABLE_LEASE_BINDING_SCHEMA_VERSION : N := 2.
Definition DURABLE_LEASE_SCHEMA_VERSION : N := 1.
Definition DURABLE_RECEIPT_SCHEMA_VERSION : N := 1.

Definition domain_of (s : string) : bytes := string_bytes s ++ [byte0].
Definition BINDING_DOMAIN := domain_of "zerostack.durable_journal.binding".
Definition LEASE_BINDING_DOMAIN := domain_of "zerostack.durable_journal.lease_binding".
Definition JOURNAL_DOMAIN := domain_of "zerostack.durable_journal.record".
Definition LEASE_JOURNAL_DOMAIN := domain_of "zerostack.durable_journal.lease_record".
Definition ROOT_DOMAIN := domain_of "zerostack.durable_journal.root".
Definition CARTRIDGE_DOMAIN := domain_of "zerostack.durable_journal.cartridge".
Definition OWNER_DEATH_DOMAIN := domain_of "zerostack.durable_journal.owner_death".
Definition RECOVERY_DOMAIN := domain_of "zerostack.durable_journal.recovery".

(** * States, outcomes, failure codes and boundaries *)

Inductive JournalState := Prepared | Committed | Aborted.

Definition can_transition_to (s next : JournalState) : bool :=
  match s, next with
  | Prepared, Committed | Prepared, Aborted => true
  | _, _ => false
  end.

Definition is_terminal (s : JournalState) : bool :=
  match s with Committed | Aborted => true | Prepared => false end.

Inductive AbortReason := ExplicitAbort | RecoveryObservedOldRoot | OwnerDeathObservedOldRoot.

Inductive RecoveryOutcome :=
| NotStartedOldRoot | OldRootAborted | NewRootCommitted | AlreadyCommitted | AlreadyAborted.

Inductive JournalFailureCode :=
| SchemaVersionMismatch | InvalidBinding | ProfileSubstitution | JournalMissing | RootMissing
| TornOrNoncanonicalRecord | RecordTooLarge | CartridgeMismatch | OwnerIdentityMismatch
| SequenceMismatch | RootMismatch | JournalRootDisagreement | AlreadyTerminal | LeaseExpired
| ImmutableReceiptConflict | IoBeforePublish | DirectorySyncFailedAfterPublish | InjectedCrash
| OwnerDeath | Indeterminate.

Inductive JournalBoundary :=
| RootInitializeBeforeWrite | RootInitializeAfterFileSync
| RootInitializeAfterRename | RootInitializeAfterDirectorySync
| CartridgeBeforeWrite | CartridgeAfterFileSync
| CartridgeAfterRename | CartridgeAfterDirectorySync
| PrepareBeforeWrite | PrepareAfterFileSync | PrepareAfterRename | PrepareAfterDirectorySync
| RootPublishBeforeWrite | RootPublishAfterFileSync
| RootPublishAfterRename | RootPublishAfterDirectorySync
| CommitBeforeWrite | CommitAfterFileSync | CommitAfterRename | CommitAfterDirectorySync
| AbortBeforeWrite | AbortAfterFileSync | AbortAfterRename | AbortAfterDirectorySync
| OwnerDeathBeforeWrite | OwnerDeathAfterFileSync
| OwnerDeathAfterRename | OwnerDeathAfterDirectorySync
| RecoveryBeforeWrite | RecoveryAfterFileSync | RecoveryAfterRename | RecoveryAfterDirectorySync.

#[global] Instance JournalState_eq_dec : EqDecision JournalState.
Proof. solve_decision. Defined.
#[global] Instance AbortReason_eq_dec : EqDecision AbortReason.
Proof. solve_decision. Defined.
#[global] Instance RecoveryOutcome_eq_dec : EqDecision RecoveryOutcome.
Proof. solve_decision. Defined.
#[global] Instance JournalFailureCode_eq_dec : EqDecision JournalFailureCode.
Proof. solve_decision. Defined.
#[global] Instance JournalBoundary_eq_dec : EqDecision JournalBoundary.
Proof. solve_decision. Defined.

#[global] Instance journal_codes : FailureCodes JournalFailureCode := {|
  c_invalid_binding := InvalidBinding;
  c_torn := TornOrNoncanonicalRecord;
  c_too_large := RecordTooLarge;
  c_conflict := ImmutableReceiptConflict;
  c_io := IoBeforePublish;
  c_dir_sync := DirectorySyncFailedAfterPublish;
  c_crash := InjectedCrash |}.

Notation JournalError := (Error JournalFailureCode JournalBoundary).
Notation JournalWorld := (World JournalBoundary).
Notation JournalM := (M JournalError JournalWorld).

(** [JournalError::new]. *)
Definition jerr (c : JournalFailureCode) : JournalError := error_new c.

Definition disagreement : JournalError := jerr JournalRootDisagreement.

Definition ROOT_INIT := mkBoundaries RootInitializeBeforeWrite RootInitializeAfterFileSync
  RootInitializeAfterRename RootInitializeAfterDirectorySync.
Definition CARTRIDGE := mkBoundaries CartridgeBeforeWrite CartridgeAfterFileSync
  CartridgeAfterRename CartridgeAfterDirectorySync.
Definition PREPARE := mkBoundaries PrepareBeforeWrite PrepareAfterFileSync
  PrepareAfterRename PrepareAfterDirectorySync.
Definition ROOT_PUBLISH := mkBoundaries RootPublishBeforeWrite RootPublishAfterFileSync
  RootPublishAfterRename RootPublishAfterDirectorySync.
Definition COMMIT := mkBoundaries CommitBeforeWrite CommitAfterFileSync
  CommitAfterRename CommitAfterDirectorySync.
Definition ABORT := mkBoundaries AbortBeforeWrite AbortAfterFileSync
  AbortAfterRename AbortAfterDirectorySync.
Definition OWNER_DEATH := mkBoundaries OwnerDeathBeforeWrite OwnerDeathAfterFileSync
  OwnerDeathAfterRename OwnerDeathAfterDirectorySync.
Definition RECOVERY := mkBoundaries RecoveryBeforeWrite RecoveryAfterFileSync
  RecoveryAfterRename RecoveryAfterDirectorySync.

(** * Paths *)

Record JournalPaths := mkPaths {
  root_record : Path;
  journal_record : Path;
  cartridge_path : Path;
  owner_death_receipt : Path;
  recovery_receipt : Path }.

Definition all_paths (p : JournalPaths) : list Path :=
  [root_record p; journal_record p; cartridge_path p; owner_death_receipt p; recovery_receipt p].

(** The pairwise comparison loop of [JournalPaths::new]. *)
Fixpoint has_duplicate (all : list Path) : bool :=
  match all with
  | [] => false
  | lhs :: rest => existsb (fun rhs => bool_decide (lhs = rhs)) rest || has_duplicate rest
  end.

Definition JournalPaths_new (root journal cart death recov : Path)
  : result JournalError JournalPaths :=
  let paths := mkPaths root journal cart death recov in
  let all := all_paths paths in
  reject? existsb (fun path => bool_decide (file_name path = None)) all with jerr InvalidBinding in
  reject? has_duplicate all with jerr InvalidBinding in
  Ok paths.

(** * Bindings *)

Definition contains_zero (ds : list Digest) : bool :=
  existsb (fun d => bool_decide (d = ZERO)) ds.

Record JournalBinding := mkBinding {
  jb_schema_version : N;
  jb_transaction_id : Digest;
  jb_assembly_manifest_digest : Digest;
  jb_durable_profile_id : DurableProfileId;
  jb_durable_profile_digest : Digest;
  jb_old_root : Digest;
  jb_new_root : Digest;
  jb_owner_identity_digest : Digest }.

Record BindingLease := mkLease {
  bl_schema_version : N;
  bl_lease_id : Digest;
  bl_epoch : N;
  bl_expires_at_unix_ns : N }.

Record JournalLeaseBinding := mkLeaseBinding {
  lb_schema_version : N;
  lb_transaction_id : Digest;
  lb_assembly_manifest_digest : Digest;
  lb_durable_profile_id : DurableProfileId;
  lb_durable_profile_digest : Digest;
  lb_old_root : Digest;
  lb_new_root : Digest;
  lb_owner_identity_digest : Digest;
  lb_nonce : Digest;
  lb_protected_scope : Digest;
  lb_lease : BindingLease }.

#[global] Instance JournalBinding_eq_dec : EqDecision JournalBinding.
Proof. solve_decision. Defined.
#[global] Instance BindingLease_eq_dec : EqDecision BindingLease.
Proof. solve_decision. Defined.
#[global] Instance JournalLeaseBinding_eq_dec : EqDecision JournalLeaseBinding.
Proof. solve_decision. Defined.

Definition BindingLease_new (lease_id : Digest) (epoch expires : N) : BindingLease :=
  mkLease DURABLE_LEASE_SCHEMA_VERSION lease_id epoch expires.

Definition BindingLease_validate (l : BindingLease) : result JournalError () :=
  reject? negb (bl_schema_version l =? DURABLE_LEASE_SCHEMA_VERSION)%N
    with jerr SchemaVersionMismatch in
  reject? bool_decide (bl_lease_id l = ZERO) with jerr InvalidBinding in
  reject? (bl_epoch l =? 0)%N with jerr InvalidBinding in
  reject? (bl_expires_at_unix_ns l =? 0)%N with jerr InvalidBinding in
  Ok ().

Section Bindings.
Context `{Platform}.

Definition JournalBinding_new (tx assembly : Digest) (profile : DurableProfileId)
    (old new owner : Digest) : JournalBinding :=
  mkBinding DURABLE_BINDING_SCHEMA_VERSION tx assembly profile (profile_digest profile)
    old new owner.

Definition JournalBinding_validate (b : JournalBinding) : result JournalError () :=
  reject? negb (jb_schema_version b =? DURABLE_BINDING_SCHEMA_VERSION)%N
    with jerr SchemaVersionMismatch in
  reject? contains_zero [jb_transaction_id b; jb_assembly_manifest_digest b; jb_old_root b;
                         jb_new_root b; jb_owner_identity_digest b]
    with jerr InvalidBinding in
  reject? bool_decide (jb_old_root b = jb_new_root b) with jerr InvalidBinding in
  reject? negb (bool_decide (jb_durable_profile_digest b = profile_digest (jb_durable_profile_id b)))
    with jerr ProfileSubstitution in
  Ok ().

Definition JournalLeaseBinding_new (tx assembly : Digest) (profile : DurableProfileId)
    (old new owner nonce scope : Digest) (lease : BindingLease) : JournalLeaseBinding :=
  mkLeaseBinding DURABLE_LEASE_BINDING_SCHEMA_VERSION tx assembly profile (profile_digest profile)
    old new owner nonce scope lease.

Definition JournalLeaseBinding_validate (b : JournalLeaseBinding) : result JournalError () :=
  reject? negb (lb_schema_version b =? DURABLE_LEASE_BINDING_SCHEMA_VERSION)%N
    with jerr SchemaVersionMismatch in
  reject? contains_zero [lb_transaction_id b; lb_assembly_manifest_digest b; lb_old_root b;
                         lb_new_root b; lb_owner_identity_digest b; lb_nonce b;
                         lb_protected_scope b]
    with jerr InvalidBinding in
  reject? bool_decide (lb_old_root b = lb_new_root b) with jerr InvalidBinding in
  reject? negb (bool_decide (lb_durable_profile_digest b = profile_digest (lb_durable_profile_id b)))
    with jerr ProfileSubstitution in
  let? _ := BindingLease_validate (lb_lease b) in
  Ok ().

Definition JournalBinding_canonical_bytes `{Codec JournalBinding} (b : JournalBinding)
  : result JournalError bytes :=
  let? _ := JournalBinding_validate b in canonical_bytes b.

Definition JournalBinding_digest `{Codec JournalBinding} (b : JournalBinding)
  : result JournalError Digest :=
  let? c := JournalBinding_canonical_bytes b in Ok (domain_digest BINDING_DOMAIN c).

Definition JournalLeaseBinding_canonical_bytes `{Codec JournalLeaseBinding}
    (b : JournalLeaseBinding) : result JournalError bytes :=
  let? _ := JournalLeaseBinding_validate b in canonical_bytes b.

Definition JournalLeaseBinding_digest `{Codec JournalLeaseBinding} (b : JournalLeaseBinding)
  : result JournalError Digest :=
  let? c := JournalLeaseBinding_canonical_bytes b in Ok (domain_digest LEASE_BINDING_DOMAIN c).
End Bindings.

(** The contract the state machine requires of a commit binding. *)
Class JournalBindingLike (B : Type) := {
  binding_eq_dec :: EqDecision B;
  binding_validate : B -> result JournalError ();
  binding_digest : B -> result JournalError Digest;
  old_root : B -> Digest;
  new_root : B -> Digest;
  transaction_id : B -> Digest;
  durable_profile_digest : B -> Digest;
  owner_identity_digest : B -> Digest;
  lease_expires_at_unix_ns : B -> option N;
  record_schema_version : N;
  record_domain : bytes }.
Global Arguments record_schema_version B {_}.
Global Arguments record_domain B {_}.

#[global] Instance JournalBinding_like `{Platform, Codec JournalBinding}
  : JournalBindingLike JournalBinding := {|
  binding_validate := JournalBinding_validate;
  binding_digest := JournalBinding_digest;
  old_root := jb_old_root;
  new_root := jb_new_root;
  transaction_id := jb_transaction_id;
  durable_profile_digest := jb_durable_profile_digest;
  owner_identity_digest := jb_owner_identity_digest;
  lease_expires_at_unix_ns := fun _ => None;
  record_schema_version := DURABLE_JOURNAL_SCHEMA_VERSION;
  record_domain := JOURNAL_DOMAIN |}.

#[global] Instance JournalLeaseBinding_like `{Platform, Codec JournalLeaseBinding}
  : JournalBindingLike JournalLeaseBinding := {|
  binding_validate := JournalLeaseBinding_validate;
  binding_digest := JournalLeaseBinding_digest;
  old_root := lb_old_root;
  new_root := lb_new_root;
  transaction_id := lb_transaction_id;
  durable_profile_digest := lb_durable_profile_digest;
  owner_identity_digest := lb_owner_identity_digest;
  lease_expires_at_unix_ns := fun b => Some (bl_expires_at_unix_ns (lb_lease b));
  record_schema_version := DURABLE_LEASE_JOURNAL_SCHEMA_VERSION;
  record_domain := LEASE_JOURNAL_DOMAIN |}.

(** Well-formed bindings: every field within its source type. *)
#[global] Instance JournalBinding_wf : Wf JournalBinding := fun b =>
  u16_wf (jb_schema_version b) /\
  Forall digest_wf [jb_transaction_id b; jb_assembly_manifest_digest b; jb_durable_profile_digest b;
                    jb_old_root b; jb_new_root b; jb_owner_identity_digest b].

Definition lease_wf (l : BindingLease) : Prop :=
  u16_wf (bl_schema_version l) /\ digest_wf (bl_lease_id l) /\
  u64_wf (bl_epoch l) /\ u64_wf (bl_expires_at_unix_ns l).

#[global] Instance JournalLeaseBinding_wf : Wf JournalLeaseBinding := fun b =>
  u16_wf (lb_schema_version b) /\
  Forall digest_wf [lb_transaction_id b; lb_assembly_manifest_digest b; lb_durable_profile_digest b;
                    lb_old_root b; lb_new_root b; lb_owner_identity_digest b;
                    lb_nonce b; lb_protected_scope b] /\
  lease_wf (lb_lease b).

(** What the state machine's theorems use of a binding format. *)
Class JournalBindingLaws (B : Type) `{JournalBindingLike B, Wf B} := {
  binding_digest_total : forall b : B, wf b ->
    binding_validate b = Ok () -> exists d, binding_digest b = Ok d;
  binding_digest_wf : forall (b : B) d, binding_digest b = Ok d -> digest_wf d;
  binding_fields_wf : forall b : B, wf b ->
    Forall digest_wf [old_root b; new_root b; transaction_id b; durable_profile_digest b;
                      owner_identity_digest b];
  record_schema_wf : u16_wf (record_schema_version B);
  binding_digests_nonzero : forall b : B, binding_validate b = Ok () ->
    old_root b <> ZERO /\ new_root b <> ZERO /\ transaction_id b <> ZERO /\
    owner_identity_digest b <> ZERO;
  binding_roots_differ : forall b : B, binding_validate b = Ok () -> old_root b <> new_root b }.

#[global] Instance JournalBinding_laws
  `{Platform, !PlatformOk, Codec JournalBinding, !CodecOk JournalBinding}
  : JournalBindingLaws JournalBinding.
Proof.
  constructor.
  - intros b Hw Hv. cbn in *. unfold JournalBinding_digest, JournalBinding_canonical_bytes.
    rewrite Hv. cbn. rewrite canonical_bytes_ok by done. by eexists.
  - intros b d Hd. cbn in Hd. unfold JournalBinding_digest in Hd.
    apply bind_Ok_inv in Hd as (c & _ & [= <-]). apply domain_digest_wf.
  - intros b [_ Hw]. cbn. rewrite !Forall_cons_iff in *. tauto.
  - done.
  - intros b Hv. cbn in Hv. unfold JournalBinding_validate, contains_zero in Hv.
    cbn in Hv. inv_ok. by breflect.
  - intros b Hv. cbn in Hv. unfold JournalBinding_validate in Hv. inv_ok. by breflect.
Qed.

#[global] Instance JournalLeaseBinding_laws
  `{Platform, !PlatformOk, Codec JournalLeaseBinding, !CodecOk JournalLeaseBinding}
  : JournalBindingLaws JournalLeaseBinding.
Proof.
  constructor.
  - intros b Hw Hv. cbn in *. unfold JournalLeaseBinding_digest, JournalLeaseBinding_canonical_bytes.
    rewrite Hv. cbn. rewrite canonical_bytes_ok by done. by eexists.
  - intros b d Hd. cbn in Hd. unfold JournalLeaseBinding_digest in Hd.
    apply bind_Ok_inv in Hd as (c & _ & [= <-]). apply domain_digest_wf.
  - intros b (_ & Hw & _). cbn. rewrite !Forall_cons_iff in *. tauto.
  - done.
  - intros b Hv. cbn in Hv. unfold JournalLeaseBinding_validate, contains_zero in Hv.
    cbn in Hv. inv_ok. by breflect.
  - intros b Hv. cbn in Hv. unfold JournalLeaseBinding_validate in Hv. inv_ok. by breflect.
Qed.

(** * Records *)

Record DurableJournalRecord (B : Type) := mkRecord {
  jr_schema_version : N;
  jr_binding : B;
  jr_state : JournalState;
  jr_sequence : N;
  jr_predecessor_record_digest : option Digest;
  jr_abort_reason : option AbortReason }.
Global Arguments mkRecord {B} _ _ _ _ _ _.
Global Arguments jr_schema_version {B} _.
Global Arguments jr_binding {B} _.
Global Arguments jr_state {B} _.
Global Arguments jr_sequence {B} _.
Global Arguments jr_predecessor_record_digest {B} _.
Global Arguments jr_abort_reason {B} _.

Record RootPublicationReceipt := mkRoot {
  rp_schema_version : N;
  rp_transaction_id : Digest;
  rp_root_digest : Digest;
  rp_generation : N;
  rp_prepared_record_digest : Digest }.

(** [B] is the phantom that keeps the two cartridge formats apart. *)
Record ContinuationCartridgeRecord (B : Type) := mkCartridge {
  cc_schema_version : N;
  cc_binding_digest : Digest;
  cc_prepared_record_digest : Digest;
  cc_transaction_id : Digest;
  cc_old_root : Digest;
  cc_new_root : Digest;
  cc_durable_profile_digest : Digest;
  cc_owner_identity_digest : Digest }.
Global Arguments mkCartridge {B} _ _ _ _ _ _ _ _.
Global Arguments cc_schema_version {B} _.
Global Arguments cc_binding_digest {B} _.
Global Arguments cc_prepared_record_digest {B} _.
Global Arguments cc_transaction_id {B} _.
Global Arguments cc_old_root {B} _.
Global Arguments cc_new_root {B} _.
Global Arguments cc_durable_profile_digest {B} _.
Global Arguments cc_owner_identity_digest {B} _.

Record OwnerDeathReceipt := mkDeath {
  od_schema_version : N;
  od_binding_digest : Digest;
  od_prepared_record_digest : Digest;
  od_owner_identity_digest : Digest;
  od_observed_journal_state : JournalState;
  od_observed_root : Digest;
  od_observed_at_unix_ns : N;
  od_failure_code : JournalFailureCode;
  od_recovery_required : bool }.

Record RecoveryReceipt := mkReceipt {
  rr_schema_version : N;
  rr_binding_digest : Digest;
  rr_prepared_record_digest : Digest;
  rr_terminal_record_digest : option Digest;
  rr_owner_death_receipt_digest : option Digest;
  rr_observed_root : Digest;
  rr_outcome : RecoveryOutcome;
  rr_journal_root_correspondence : bool;
  rr_promotable : bool;
  rr_failure_code : option JournalFailureCode }.

#[global] Instance RootPublicationReceipt_eq_dec : EqDecision RootPublicationReceipt.
Proof. solve_decision. Defined.

(** The serializers of the four record types that do not depend on the binding
    format, and of the two that do. *)
Class JournalCodecs (B : Type) := {
  root_codec :: Codec RootPublicationReceipt;
  journal_codec :: Codec (DurableJournalRecord B);
  cartridge_codec :: Codec (ContinuationCartridgeRecord B);
  death_codec :: Codec OwnerDeathReceipt;
  recovery_codec :: Codec RecoveryReceipt }.

#[global] Instance root_wf : Wf RootPublicationReceipt := fun r =>
  u16_wf (rp_schema_version r) /\ u64_wf (rp_generation r) /\
  Forall digest_wf [rp_transaction_id r; rp_root_digest r; rp_prepared_record_digest r].

#[global] Instance record_wf {B} `{Wf B} : Wf (DurableJournalRecord B) := fun r =>
  u16_wf (jr_schema_version r) /\ wf (jr_binding r) /\ u64_wf (jr_sequence r) /\
  option_wf digest_wf (jr_predecessor_record_digest r).

#[global] Instance cartridge_wf {B} : Wf (ContinuationCartridgeRecord B) := fun c =>
  u16_wf (cc_schema_version c) /\
  Forall digest_wf [cc_binding_digest c; cc_prepared_record_digest c; cc_transaction_id c;
                    cc_old_root c; cc_new_root c; cc_durable_profile_digest c;
                    cc_owner_identity_digest c].

#[global] Instance death_wf : Wf OwnerDeathReceipt := fun d =>
  u16_wf (od_schema_version d) /\ u64_wf (od_observed_at_unix_ns d) /\
  Forall digest_wf [od_binding_digest d; od_prepared_record_digest d; od_owner_identity_digest d;
                    od_observed_root d].

#[global] Instance receipt_wf : Wf RecoveryReceipt := fun r =>
  u16_wf (rr_schema_version r) /\
  Forall digest_wf [rr_binding_digest r; rr_prepared_record_digest r; rr_observed_root r] /\
  option_wf digest_wf (rr_terminal_record_digest r) /\
  option_wf digest_wf (rr_owner_death_receipt_digest r).

Class JournalCodecsOk (B : Type) `{JournalCodecs B, Wf B} := {
  root_codec_ok :: CodecOk RootPublicationReceipt;
  journal_codec_ok :: CodecOk (DurableJournalRecord B);
  cartridge_codec_ok :: CodecOk (ContinuationCartridgeRecord B);
  death_codec_ok :: CodecOk OwnerDeathReceipt;
  recovery_codec_ok :: CodecOk RecoveryReceipt }.

(** [RootPublicationReceipt::initial]. *)
Definition root_initial (root : Digest) : result JournalError RootPublicationReceipt :=
  reject? bool_decide (root = ZERO) with jerr InvalidBinding in
  Ok (mkRoot DURABLE_RECEIPT_SCHEMA_VERSION ZERO root 0 ZERO).

Definition root_validate (r : RootPublicationReceipt) : result JournalError () :=
  reject? negb (rp_schema_version r =? DURABLE_RECEIPT_SCHEMA_VERSION)%N
    with jerr SchemaVersionMismatch in
  let initial := (rp_generation r =? 0)%N && bool_decide (rp_transaction_id r = ZERO)
    && bool_decide (rp_prepared_record_digest r = ZERO) in
  let transactional := (rp_generation r =? 1)%N && negb (bool_decide (rp_transaction_id r = ZERO))
    && negb (bool_decide (rp_prepared_record_digest r = ZERO)) in
  reject? bool_decide (rp_root_digest r = ZERO) || negb (initial || transactional)
    with jerr RootMismatch in
  Ok ().

Definition OwnerDeathReceipt_canonical_bytes `{Platform, Codec OwnerDeathReceipt} (d : OwnerDeathReceipt)
  : result JournalError bytes :=
  reject? negb (od_schema_version d =? DURABLE_RECEIPT_SCHEMA_VERSION)%N
       || negb (bool_decide (od_failure_code d = OwnerDeath))
       || negb (od_recovery_required d)
       || bool_decide (od_binding_digest d = ZERO)
       || bool_decide (od_prepared_record_digest d = ZERO)
       || bool_decide (od_owner_identity_digest d = ZERO)
       || bool_decide (od_observed_root d = ZERO)
    with jerr InvalidBinding in
  canonical_bytes d.

Definition RecoveryReceipt_canonical_bytes `{Platform, Codec RecoveryReceipt} (r : RecoveryReceipt)
  : result JournalError bytes :=
  reject? negb (rr_schema_version r =? DURABLE_RECEIPT_SCHEMA_VERSION)%N
       || bool_decide (rr_binding_digest r = ZERO)
       || bool_decide (rr_observed_root r = ZERO)
       || negb (rr_journal_root_correspondence r)
       || negb (rr_promotable r)
       || bool_decide (is_Some (rr_failure_code r))
    with jerr InvalidBinding in
  canonical_bytes r.

Section Records.
Context `{Platform} {B : Type} `{JournalBindingLike B, JournalCodecs B}.

(** [DurableJournalRecord::{prepared, committed, aborted}]. *)
Definition record_prepared (b : B) : DurableJournalRecord B :=
  mkRecord (record_schema_version B) b Prepared 1 None None.

Definition record_committed (p : DurableJournalRecord B) (d : Digest) : DurableJournalRecord B :=
  mkRecord (jr_schema_version p) (jr_binding p) Committed 2 (Some d) None.

Definition record_aborted (p : DurableJournalRecord B) (d : Digest) (reason : AbortReason)
  : DurableJournalRecord B :=
  mkRecord (jr_schema_version p) (jr_binding p) Aborted 2 (Some d) (Some reason).

Definition record_validate (r : DurableJournalRecord B) : result JournalError () :=
  reject? negb (jr_schema_version r =? record_schema_version B)%N
    with jerr SchemaVersionMismatch in
  let? _ := binding_validate (jr_binding r) in
  let has_pred := bool_decide (is_Some (jr_predecessor_record_digest r)) in
  let has_reason := bool_decide (is_Some (jr_abort_reason r)) in
  let valid := match jr_state r with
    | Prepared => (jr_sequence r =? 1)%N && negb has_pred && negb has_reason
    | Committed => (jr_sequence r =? 2)%N && has_pred && negb has_reason
    | Aborted => (jr_sequence r =? 2)%N && has_pred && has_reason
    end in
  reject? negb valid with jerr SequenceMismatch in
  Ok ().

Definition record_canonical_bytes (r : DurableJournalRecord B) : result JournalError bytes :=
  let? _ := record_validate r in canonical_bytes r.

Definition record_digest (r : DurableJournalRecord B) : result JournalError Digest :=
  let? c := record_canonical_bytes r in Ok (domain_digest (record_domain B) c).

(** [RootPublicationReceipt::published]. *)
Definition root_published (b : B) (prepared : Digest) : RootPublicationReceipt :=
  mkRoot DURABLE_RECEIPT_SCHEMA_VERSION (transaction_id b) (new_root b) 1 prepared.

Definition root_canonical_bytes (r : RootPublicationReceipt) : result JournalError bytes :=
  let? _ := root_validate r in canonical_bytes r.

(** [ContinuationCartridgeRecord::new]. *)
Definition cartridge_new (b : B) (prepared : Digest)
  : result JournalError (ContinuationCartridgeRecord B) :=
  let? d := binding_digest b in
  Ok (mkCartridge DURABLE_RECEIPT_SCHEMA_VERSION d prepared (transaction_id b)
        (old_root b) (new_root b) (durable_profile_digest b) (owner_identity_digest b)).

(** The disjunction short-circuits: the binding digest is computed (and its
    error returned) only when the schema version matches. *)
Definition validate_against (c : ContinuationCartridgeRecord B) (b : B)
  : result JournalError () :=
  reject? negb (cc_schema_version c =? DURABLE_RECEIPT_SCHEMA_VERSION)%N
    with jerr CartridgeMismatch in
  let? d := binding_digest b in
  reject? negb (bool_decide (cc_binding_digest c = d))
       || negb (bool_decide (cc_transaction_id c = transaction_id b))
       || negb (bool_decide (cc_old_root c = old_root b))
       || negb (bool_decide (cc_new_root c = new_root b))
       || negb (bool_decide (cc_durable_profile_digest c = durable_profile_digest b))
       || negb (bool_decide (cc_owner_identity_digest c = owner_identity_digest b))
       || bool_decide (cc_prepared_record_digest c = ZERO)
    with jerr CartridgeMismatch in
  Ok ().

Definition make_recovery (b : B) (prepared : Digest) (terminal : option Digest) (root : Digest)
    (outcome : RecoveryOutcome) (owner : option Digest) : result JournalError RecoveryReceipt :=
  let? d := binding_digest b in
  Ok (mkReceipt DURABLE_RECEIPT_SCHEMA_VERSION d prepared terminal owner root outcome
        true true None).

Definition verify_old (root : RootPublicationReceipt) (b : B) : result JournalError () :=
  let? _ := root_validate root in
  guard? bool_decide (rp_root_digest root = old_root b) else disagreement in Ok ().

Definition verify_new (root : RootPublicationReceipt) (b : B) (prepared : Digest)
  : result JournalError () :=
  let? _ := root_validate root in
  guard? bool_decide (rp_root_digest root = new_root b)
      && bool_decide (rp_transaction_id root = transaction_id b)
      && bool_decide (rp_prepared_record_digest root = prepared)
    else disagreement in Ok ().

Definition prepared_digest (r : DurableJournalRecord B) (d : Digest)
  : result JournalError Digest :=
  match jr_state r with
  | Prepared => Ok d
  | _ => ok_or (jr_predecessor_record_digest r) (jerr SequenceMismatch)
  end.
End Records.

(** * Operations *)

Section Ops.
Context `{Platform} {B : Type} `{JournalBindingLike B, JournalCodecs B}.
Context (os : OsCall -> JournalBoundary -> bool) (paths : JournalPaths).

Definition durable_replace : Path -> bytes -> WriteBoundaries JournalBoundary -> JournalM () :=
  durable_replace_core os.
Definition write_once : Path -> bytes -> WriteBoundaries JournalBoundary -> JournalM () :=
  write_once_core os.

Definition read_root (f : FS) : result JournalError RootPublicationReceipt :=
  let? read := read_canonical f (root_record paths) RootMissing ROOT_DOMAIN in
  let? _ := root_validate (value read) in
  Ok (value read).

Definition read_journal (f : FS) : result JournalError (CanonicalRead (DurableJournalRecord B)) :=
  read_canonical f (journal_record paths) JournalMissing (record_domain B).

Definition read_cartridge (f : FS) : result JournalError (ContinuationCartridgeRecord B) :=
  let? read := read_canonical f (cartridge_path paths) CartridgeMismatch CARTRIDGE_DOMAIN in
  Ok (value read).

Definition existing_recovery (expected : option B) (f : FS)
  : result JournalError (option RecoveryReceipt) :=
  let? read := read_optional f (recovery_receipt paths) JournalMissing RECOVERY_DOMAIN in
  match read with
  | None => Ok None
  | Some r =>
      let? _ := RecoveryReceipt_canonical_bytes (value r) in
      match expected with
      | None => Ok (Some (value r))
      | Some b =>
          let? d := binding_digest b in
          reject? negb (bool_decide (rr_binding_digest (value r) = d))
            with jerr ImmutableReceiptConflict in
          Ok (Some (value r))
      end
  end.

Definition owner_death_digest (b : B) (f : FS) : result JournalError (option Digest) :=
  let? read := read_optional f (owner_death_receipt paths) JournalMissing OWNER_DEATH_DOMAIN in
  match read with
  | None => Ok None
  | Some r =>
      let? _ := OwnerDeathReceipt_canonical_bytes (value r) in
      let? d := binding_digest b in
      reject? negb (bool_decide (od_binding_digest (value r) = d))
           || negb (bool_decide (od_owner_identity_digest (value r) = owner_identity_digest b))
        with jerr OwnerIdentityMismatch in
      Ok (Some (digest r))
  end.

Definition persist_recovery (receipt : RecoveryReceipt) : JournalM RecoveryReceipt :=
  let! existing := gets (fun f =>
    read_optional f (recovery_receipt paths) JournalMissing RECOVERY_DOMAIN) in
  match existing with
  | Some r =>
      let! _ := lift (RecoveryReceipt_canonical_bytes (value r)) in
      if bool_decide (rr_binding_digest (value r) = rr_binding_digest receipt)
      then sret (value r)
      else throw (jerr ImmutableReceiptConflict)
  | None =>
      let! c := lift (RecoveryReceipt_canonical_bytes receipt) in
      let! _ := write_once (recovery_receipt paths) c RECOVERY in
      sret receipt
  end.

Definition initialize_published_root (root : Digest) : JournalM RootPublicationReceipt :=
  let! expected := lift (root_initial root) in
  let! existing := gets (fun f => read_optional f (root_record paths) RootMissing ROOT_DOMAIN) in
  match existing with
  | Some r =>
      let! _ := lift (root_validate (value r)) in
      if bool_decide (value r = expected) then sret (value r) else throw (jerr RootMismatch)
  | None =>
      let! c := lift (root_canonical_bytes expected) in
      let! _ := durable_replace (root_record paths) c ROOT_INIT in
      sret expected
  end.

Definition lease_expired (b : B) (now : N) : bool :=
  match lease_expires_at_unix_ns b with Some expires => (expires <=? now)%N | None => false end.

Definition prepare_bound_journal (b : B) (now : N) : JournalM (ContinuationCartridgeRecord B) :=
  let! _ := lift (binding_validate b) in
  reject! lease_expired b now with jerr LeaseExpired in
  let! root := gets read_root in
  reject! negb (bool_decide (rp_root_digest root = old_root b)) with jerr RootMismatch in
  let! recovered := gets (fun f =>
    read_optional (T := RecoveryReceipt) f (recovery_receipt paths) JournalMissing RECOVERY_DOMAIN) in
  reject! bool_decide (is_Some recovered) with jerr AlreadyTerminal in
  let! existing := gets (fun f =>
    read_optional f (journal_record paths) JournalMissing (record_domain B)) in
  match existing with
  | Some j =>
      let! _ := lift (record_validate (value j)) in
      if bool_decide (jr_state (value j) = Prepared) && bool_decide (jr_binding (value j) = b)
      then
        let! cartridge := gets read_cartridge in
        let! _ := lift (validate_against cartridge b) in
        reject! negb (bool_decide (cc_prepared_record_digest cartridge = digest j))
          with jerr CartridgeMismatch in
        sret cartridge
      else throw (jerr AlreadyTerminal)
  | None =>
      let prepared := record_prepared b in
      let! pd := lift (record_digest prepared) in
      let! cartridge := lift (cartridge_new b pd) in
      let! cb := lift (canonical_bytes cartridge) in
      let! _ := write_once (cartridge_path paths) cb CARTRIDGE in
      let! jb := lift (record_canonical_bytes prepared) in
      let! _ := durable_replace (journal_record paths) jb PREPARE in
      sret cartridge
  end.

Definition commit_bound_journal (cartridge : ContinuationCartridgeRecord B)
  : JournalM RecoveryReceipt :=
  let! existing := gets (existing_recovery None) in
  match existing with
  | Some r =>
      if bool_decide (rr_binding_digest r = cc_binding_digest cartridge) then sret r
      else throw (jerr ImmutableReceiptConflict)
  | None =>
      let! journal := gets read_journal in
      let! _ := lift (record_validate (value journal)) in
      let! _ := lift (validate_against cartridge (jr_binding (value journal))) in
      let b := jr_binding (value journal) in
      match jr_state (value journal) with
      | Aborted => throw (jerr AlreadyTerminal)
      | Committed =>
          let! root := gets read_root in
          let! prepared := lift (prepared_digest (value journal) (digest journal)) in
          let! _ := lift (verify_new root b prepared) in
          let! owner := gets (owner_death_digest b) in
          let! receipt := lift (make_recovery b prepared (Some (digest journal))
                                  (rp_root_digest root) AlreadyCommitted owner) in
          persist_recovery receipt
      | Prepared =>
          reject! negb (bool_decide (digest journal = cc_prepared_record_digest cartridge))
            with jerr CartridgeMismatch in
          let! root := gets read_root in
          let! _ :=
            if bool_decide (rp_root_digest root = old_root b) then
              let! rb := lift (root_canonical_bytes (root_published b (digest journal))) in
              durable_replace (root_record paths) rb ROOT_PUBLISH
            else lift (verify_new root b (digest journal)) in
          let committed := record_committed (value journal) (digest journal) in
          let! jb := lift (record_canonical_bytes committed) in
          let! _ := durable_replace (journal_record paths) jb COMMIT in
          let! cd := lift (record_digest committed) in
          let! owner := gets (owner_death_digest b) in
          let! receipt := lift (make_recovery b (digest journal) (Some cd)
                                  (new_root b) NewRootCommitted owner) in
          persist_recovery receipt
      end
  end.

Definition abort_bound_journal (cartridge : ContinuationCartridgeRecord B)
  : JournalM RecoveryReceipt :=
  let! existing := gets (existing_recovery None) in
  match existing with
  | Some r =>
      if bool_decide (rr_binding_digest r = cc_binding_digest cartridge) then sret r
      else throw (jerr ImmutableReceiptConflict)
  | None =>
      let! journal := gets read_journal in
      let! _ := lift (record_validate (value journal)) in
      let! _ := lift (validate_against cartridge (jr_binding (value journal))) in
      let b := jr_binding (value journal) in
      match jr_state (value journal) with
      | Committed => throw (jerr AlreadyTerminal)
      | Aborted =>
          let! root := gets read_root in
          let! _ := lift (verify_old root b) in
          let! prepared := lift (prepared_digest (value journal) (digest journal)) in
          let! owner := gets (owner_death_digest b) in
          let! receipt := lift (make_recovery b prepared (Some (digest journal))
                                  (rp_root_digest root) AlreadyAborted owner) in
          persist_recovery receipt
      | Prepared =>
          reject! negb (bool_decide (digest journal = cc_prepared_record_digest cartridge))
            with jerr CartridgeMismatch in
          let! root := gets read_root in
          let! _ := lift (verify_old root b) in
          let aborted := record_aborted (value journal) (digest journal) ExplicitAbort in
          let! jb := lift (record_canonical_bytes aborted) in
          let! _ := durable_replace (journal_record paths) jb ABORT in
          let! ad := lift (record_digest aborted) in
          let! owner := gets (owner_death_digest b) in
          let! receipt := lift (make_recovery b (digest journal) (Some ad)
                                  (old_root b) OldRootAborted owner) in
          persist_recovery receipt
      end
  end.

Definition record_bound_owner_death (owner : Digest) (observed_at : N)
  : JournalM OwnerDeathReceipt :=
  let! journal := gets read_journal in
  let! _ := lift (record_validate (value journal)) in
  let b := jr_binding (value journal) in
  reject! negb (bool_decide (owner_identity_digest b = owner)) with jerr OwnerIdentityMismatch in
  reject! negb (bool_decide (jr_state (value journal) = Prepared)) with jerr AlreadyTerminal in
  let! root := gets read_root in
  let! d := lift (binding_digest b) in
  let receipt := mkDeath DURABLE_RECEIPT_SCHEMA_VERSION d (digest journal) owner
    (jr_state (value journal)) (rp_root_digest root) observed_at OwnerDeath true in
  let! c := lift (OwnerDeathReceipt_canonical_bytes receipt) in
  let! _ := write_once (owner_death_receipt paths) c OWNER_DEATH in
  sret receipt.

Definition recover_bound_journal (expected : B) : JournalM RecoveryReceipt :=
  let! _ := lift (binding_validate expected) in
  let! existing := gets (existing_recovery (Some expected)) in
  match existing with
  | Some r => sret r
  | None =>
  let! root := gets read_root in
  let! journal := gets (fun f =>
    read_optional f (journal_record paths) JournalMissing (record_domain B)) in
  match journal with
  | None =>
      reject! negb (bool_decide (rp_root_digest root = old_root expected)) with disagreement in
      let! cartridge := gets (fun f =>
        read_optional f (cartridge_path paths) CartridgeMismatch CARTRIDGE_DOMAIN) in
      match cartridge with
      | None =>
          let! receipt := lift (make_recovery expected ZERO None (old_root expected)
                                  NotStartedOldRoot None) in
          persist_recovery receipt
      | Some c =>
          let! _ := lift (validate_against (value c) expected) in
          let prepared := record_prepared expected in
          let! pd := lift (record_digest prepared) in
          reject! negb (bool_decide (cc_prepared_record_digest (value c) = pd))
            with jerr CartridgeMismatch in
          let aborted := record_aborted prepared pd RecoveryObservedOldRoot in
          let! jb := lift (record_canonical_bytes aborted) in
          let! _ := durable_replace (journal_record paths) jb ABORT in
          let! ad := lift (record_digest aborted) in
          let! receipt := lift (make_recovery expected pd (Some ad) (old_root expected)
                                  OldRootAborted None) in
          persist_recovery receipt
      end
  | Some j =>
      let! _ := lift (record_validate (value j)) in
      let! jd := lift (binding_digest (jr_binding (value j))) in
      let! ed := lift (binding_digest expected) in
      reject! negb (bool_decide (jd = ed)) with jerr InvalidBinding in
      let! prepared := lift (prepared_digest (value j) (digest j)) in
      let! owner := gets (owner_death_digest expected) in
      match jr_state (value j) with
      | Prepared =>
          if bool_decide (rp_root_digest root = old_root expected) then
            let reason := match owner with
                          | Some _ => OwnerDeathObservedOldRoot
                          | None => RecoveryObservedOldRoot
                          end in
            let aborted := record_aborted (value j) (digest j) reason in
            let! jb := lift (record_canonical_bytes aborted) in
            let! _ := durable_replace (journal_record paths) jb ABORT in
            let! ad := lift (record_digest aborted) in
            let! receipt := lift (make_recovery expected prepared (Some ad)
                                    (old_root expected) OldRootAborted owner) in
            persist_recovery receipt
          else if bool_decide (rp_root_digest root = new_root expected) then
            let! _ := lift (verify_new root expected prepared) in
            let committed := record_committed (value j) (digest j) in
            let! jb := lift (record_canonical_bytes committed) in
            let! _ := durable_replace (journal_record paths) jb COMMIT in
            let! cd := lift (record_digest committed) in
            let! receipt := lift (make_recovery expected prepared (Some cd)
                                    (new_root expected) NewRootCommitted owner) in
            persist_recovery receipt
          else throw disagreement
      | Committed =>
          let! _ := lift (verify_new root expected prepared) in
          let! receipt := lift (make_recovery expected prepared (Some (digest j))
                                  (new_root expected) AlreadyCommitted owner) in
          persist_recovery receipt
      | Aborted =>
          let! _ := lift (verify_old root expected) in
          let! receipt := lift (make_recovery expected prepared (Some (digest j))
                                  (old_root expected) AlreadyAborted owner) in
          persist_recovery receipt
      end
  end
  end.

(** [verify_committed_lease_binding], stated for any binding format. *)
Definition verify_committed_binding (expected : B) (f : FS)
  : result JournalError RecoveryReceipt :=
  let? _ := binding_validate expected in
  let? journal := read_journal f in
  let? _ := record_validate (value journal) in
  let? jd := binding_digest (jr_binding (value journal)) in
  let? ed := binding_digest expected in
  reject? negb (bool_decide (jd = ed)) with jerr InvalidBinding in
  reject? negb (bool_decide (jr_state (value journal) = Committed)) with jerr AlreadyTerminal in
  let? existing := existing_recovery (Some expected) f in
  ok_or existing (jerr JournalMissing).
End Ops.
