(* ===== verification/DurableProtocol.v ===== *)
(** The journal protocol of [durable_journal.rs] as an abstract state machine,
    and the proof that every operation refines it whatever crashes.

    An abstract state records whether the new root is published, the phase of
    the journal record, whether the continuation cartridge is on disk, and the
    two write-once receipts.  [step] is one durable write.  A concrete
    operation, run on a store that represents a reachable abstract state, ends
    in a store that represents a state reached by zero or more steps: this
    holds for every fault plan, every pattern of operating-system failures and
    every argument.  Recovery also succeeds whenever nothing fails. *)

From S2P Require Import Prelude.
From S2P Require Import DurableStore.
From S2P Require Import DurableJournal.

(** * Abstract protocol *)

Inductive Phase := NoJournal | IsPrepared | IsCommitted | IsAborted (reason : AbortReason).

Record Abs := mkAbs {
  a_new : bool;
  a_phase : Phase;
  a_cart : bool;
  a_death : option OwnerDeathReceipt;
  a_recov : option RecoveryReceipt }.

Definition init : Abs := mkAbs false NoJournal false None None.

(** Which outcome a receipt may carry in which phase. *)
Definition outcome_ok (ph : Phase) (cart : bool) (o : RecoveryOutcome) : bool :=
  match ph, o with
  | NoJournal, NotStartedOldRoot => negb cart
  | IsCommitted, (NewRootCommitted | AlreadyCommitted) => true
  | IsAborted _, (OldRootAborted | AlreadyAborted) => true
  | _, _ => false
  end.

Definition paths_ok (ps : JournalPaths) : Prop :=
  JournalPaths_new (root_record ps) (journal_record ps) (cartridge_path ps)
    (owner_death_receipt ps) (recovery_receipt ps) = Ok ps.

Lemma has_duplicate_NoDup (l : list Path) : has_duplicate l = false -> NoDup l.
Proof.
  induction l as [|p l IH]; cbn; intros Hd; constructor; breflect; [|by auto].
  intros Hin. apply list_elem_of_In in Hin.
  assert (existsb (fun rhs => bool_decide (p = rhs)) l = true) as Hx; [|congruence].
  apply existsb_exists. exists p. split; [done | by apply bool_decide_true].
Qed.

Lemma paths_ok_inv (ps : JournalPaths) :
  paths_ok ps -> NoDup (all_paths ps) /\ Forall (fun p => file_name p <> None) (all_paths ps).
Proof.
  unfold paths_ok, JournalPaths_new. destruct ps as [p1 p2 p3 p4 p5]; cbn [root_record journal_record
    cartridge_path owner_death_receipt recovery_receipt]. intros Hn. 
  destruct (existsb _ _) eqn:Hx; [done|]. destruct (has_duplicate _) eqn:Hd; [done|]. clear Hn.
  split; [by apply has_duplicate_NoDup|].
  apply Forall_forall. intros p Hp Hnone.
  apply not_true_iff_false in Hx. apply Hx, existsb_exists. exists p.
  split; [done | by apply bool_decide_true].
Qed.

Section Protocol.
Context `{Platform} {B : Type} `{JournalBindingLike B, JournalCodecs B}.
Context (b : B) (bdg : Digest) (r0 : RootPublicationReceipt).

(** Digest of the prepared record, which cartridge, root and receipts bind. *)
Definition pd : Digest := domain_digest (record_domain B) (encode (record_prepared b)).

Definition root_of (new : bool) : RootPublicationReceipt := if new then root_published b pd else r0.

Definition journal_of (ph : Phase) : option (DurableJournalRecord B) :=
  match ph with
  | NoJournal => None
  | IsPrepared => Some (record_prepared b)
  | IsCommitted => Some (record_committed (record_prepared b) pd)
  | IsAborted r => Some (record_aborted (record_prepared b) pd r)
  end.

Definition jdigest (r : DurableJournalRecord B) : Digest :=
  domain_digest (record_domain B) (encode r).

Definition cart0 : ContinuationCartridgeRecord B :=
  mkCartridge DURABLE_RECEIPT_SCHEMA_VERSION bdg pd (transaction_id b) (old_root b) (new_root b)
    (durable_profile_digest b) (owner_identity_digest b).

Definition cart_of (c : bool) : option (ContinuationCartridgeRecord B) :=
  if c then Some cart0 else None.

Definition root_digest_of (new : bool) : Digest := if new then new_root b else old_root b.

Definition death_of (new : bool) (at_ns : N) : OwnerDeathReceipt :=
  mkDeath DURABLE_RECEIPT_SCHEMA_VERSION bdg pd (owner_identity_digest b) Prepared
    (root_digest_of new) at_ns OwnerDeath true.

Definition death_digest (d : OwnerDeathReceipt) : Digest :=
  domain_digest OWNER_DEATH_DOMAIN (encode d).

(** The one receipt a state admits, up to its outcome. *)
Definition receipt_of (new : bool) (ph : Phase) (d : option OwnerDeathReceipt)
    (o : RecoveryOutcome) : RecoveryReceipt :=
  mkReceipt DURABLE_RECEIPT_SCHEMA_VERSION bdg
    match ph with NoJournal => ZERO | _ => pd end
    (jdigest <$> journal_of ph) (death_digest <$> d) (root_digest_of new) o true true None.

Inductive step : Abs -> Abs -> Prop :=
| step_cartridge :
    step (mkAbs false NoJournal false None None) (mkAbs false NoJournal true None None)
| step_prepare :
    step (mkAbs false NoJournal true None None) (mkAbs false IsPrepared true None None)
| step_publish d :
    step (mkAbs false IsPrepared true d None) (mkAbs true IsPrepared true d None)
| step_commit d :
    step (mkAbs true IsPrepared true d None) (mkAbs true IsCommitted true d None)
| step_abort d r :
    step (mkAbs false IsPrepared true d None) (mkAbs false (IsAborted r) true d None)
| step_abort_unprepared :
    step (mkAbs false NoJournal true None None)
         (mkAbs false (IsAborted RecoveryObservedOldRoot) true None None)
| step_owner_death n t : u64_wf t ->
    step (mkAbs n IsPrepared true None None)
         (mkAbs n IsPrepared true (Some (death_of n t)) None)
| step_receipt n ph c d o :
    outcome_ok ph c o = true ->
    step (mkAbs n ph c d None) (mkAbs n ph c d (Some (receipt_of n ph d o))).

Definition death_ok (d : option OwnerDeathReceipt) : Prop :=
  match d with None => True | Some x => exists n t, u64_wf t /\ x = death_of n t end.

Definition receipt_ok (n : bool) (ph : Phase) (c : bool) (d : option OwnerDeathReceipt)
    (r : option RecoveryReceipt) : Prop :=
  match r with
  | None => True
  | Some x => exists o, outcome_ok ph c o = true /\ x = receipt_of n ph d o
  end.

(** The shapes a reachable state has. *)
Inductive legal : Abs -> Prop :=
| legal_idle r : receipt_ok false NoJournal false None r ->
    legal (mkAbs false NoJournal false None r)
| legal_cart : legal (mkAbs false NoJournal true None None)
| legal_prepared n d : death_ok d -> legal (mkAbs n IsPrepared true d None)
| legal_committed d r : death_ok d -> receipt_ok true IsCommitted true d r ->
    legal (mkAbs true IsCommitted true d r)
| legal_aborted d r why : death_ok d -> receipt_ok false (IsAborted why) true d r ->
    legal (mkAbs false (IsAborted why) true d r).

Lemma legal_step a a' : legal a -> step a a' -> legal a'.
Proof.
  intros Hl Hs. destruct Hs; inv Hl; try (constructor; cbn; by eauto).
  by destruct o.
Qed.

Lemma legal_reachable a a' : legal a -> rtc step a a' -> legal a'.
Proof. intros Hl Hs. induction Hs; [done | eauto using legal_step]. Qed.

(** Publication, once it happened, stays; a terminal phase and the write-once
    receipts are final. *)
Definition extends (a a' : Abs) : Prop :=
  (a_new a = true -> a_new a' = true) /\
  (a_phase a = IsCommitted -> a_phase a' = IsCommitted) /\
  (forall why, a_phase a = IsAborted why -> a_phase a' = IsAborted why /\ a_new a' = a_new a) /\
  (forall d, a_death a = Some d -> a_death a' = Some d) /\
  (forall r, a_recov a = Some r -> a' = a).

Lemma step_extends a a' : step a a' -> extends a a'.
Proof. intros []; repeat split; cbn; intros; simplify_eq; done. Qed.

Lemma reachable_extends a a' : rtc step a a' -> extends a a'.
Proof.
  induction 1 as [a|a a1 a2 Hs _ IH]; [repeat split; congruence|].
  destruct (step_extends _ _ Hs) as (S1 & S2 & S3 & S4 & S5), IH as (I1 & I2 & I3 & I4 & I5).
  split; [by auto|]. split; [by auto|]. split; [|split; [by auto|]].
  - intros why Hw. destruct (S3 _ Hw) as [Hw' <-]. by apply I3.
  - intros r Hr. pose proof (S5 _ Hr) as ->. by eapply I5.
Qed.
End Protocol.

(** * Representation *)

Section Refinement.
Context `{Platform, !PlatformOk} {B : Type} `{JournalBindingLike B, Wf B, !JournalBindingLaws B}.
Context `{JournalCodecs B, !JournalCodecsOk B}.
Context (ps : JournalPaths) (b : B) (bdg : Digest) (r0 : RootPublicationReceipt).

(** What a transaction starts from: valid paths and binding, a published
    root that is the binding's old root, digests that are not the reserved
    all-zero value. *)
Record setup : Prop := {
  setup_paths : paths_ok ps;
  setup_wf : wf b;
  setup_valid : binding_validate b = Ok ();
  setup_digest : binding_digest b = Ok bdg;
  setup_bdg : bdg <> ZERO;
  setup_pd : pd b <> ZERO;
  setup_r0_wf : wf r0;
  setup_r0 : root_validate r0 = Ok ();
  setup_old : rp_root_digest r0 = old_root b }.

Definition repr (a : Abs) (f : FS) : Prop :=
  f !! root_record ps = slot (Some (root_of b r0 (a_new a))) /\
  f !! journal_record ps = slot (journal_of b (a_phase a)) /\
  f !! cartridge_path ps = slot (cart_of b bdg (a_cart a)) /\
  f !! owner_death_receipt ps = slot (a_death a) /\
  f !! recovery_receipt ps = slot (a_recov a) /\
  option_wf wf (a_death a) /\ option_wf wf (a_recov a).

Hypothesis Hs : setup.

Lemma path_names :
  file_name (root_record ps) <> None /\ file_name (journal_record ps) <> None /\
  file_name (cartridge_path ps) <> None /\ file_name (owner_death_receipt ps) <> None /\
  file_name (recovery_receipt ps) <> None.
Proof.
  destruct (paths_ok_inv ps (setup_paths Hs)) as [_ Hf].
  unfold all_paths in Hf. rewrite !Forall_cons_iff in Hf. tauto.
Qed.

Lemma path_distinct :
  root_record ps <> journal_record ps /\ root_record ps <> cartridge_path ps /\
  root_record ps <> owner_death_receipt ps /\ root_record ps <> recovery_receipt ps /\
  journal_record ps <> cartridge_path ps /\ journal_record ps <> owner_death_receipt ps /\
  journal_record ps <> recovery_receipt ps /\ cartridge_path ps <> owner_death_receipt ps /\
  cartridge_path ps <> recovery_receipt ps /\ owner_death_receipt ps <> recovery_receipt ps.
Proof.
  destruct (paths_ok_inv ps (setup_paths Hs)) as [Hn _].
  unfold all_paths in Hn. rewrite !list.NoDup_cons, !not_elem_of_cons in Hn. tauto.
Qed.

Ltac distinct_paths := pose proof path_distinct; destruct_and?.

Ltac solve_repr :=
  let Hr := fresh "Hr" in
  distinct_paths; intros Hr; unfold repr in *; cbn [a_new a_phase a_cart a_death a_recov] in *;
  destruct_and! Hr; rewrite ?lookup_insert_eq, ?lookup_insert_ne by congruence; done.

Lemma repr_root ph c d r f : repr (mkAbs false ph c d r) f ->
  repr (mkAbs true ph c d r) (<[root_record ps := Regular (encode (root_published b (pd b)))]> f).
Proof. solve_repr. Qed.

Lemma repr_journal n ph ph' c d r f j : journal_of b ph' = Some j -> repr (mkAbs n ph c d r) f ->
  repr (mkAbs n ph' c d r) (<[journal_record ps := Regular (encode j)]> f).
Proof.
  intros Hj. distinct_paths. intros Hr. unfold repr in *. cbn in *. destruct_and! Hr.
  rewrite Hj, ?lookup_insert_eq, ?lookup_insert_ne by congruence. done.
Qed.

Lemma repr_cart n ph d r f : repr (mkAbs n ph false d r) f ->
  repr (mkAbs n ph true d r) (<[cartridge_path ps := Regular (encode (cart0 b bdg))]> f).
Proof. solve_repr. Qed.

Lemma repr_death n ph c x r f : wf x -> repr (mkAbs n ph c None r) f ->
  repr (mkAbs n ph c (Some x) r) (<[owner_death_receipt ps := Regular (encode x)]> f).
Proof. intros Hx. solve_repr. Qed.

Lemma repr_recov n ph c d x f : wf x -> repr (mkAbs n ph c d None) f ->
  repr (mkAbs n ph c d (Some x)) (<[recovery_receipt ps := Regular (encode x)]> f).
Proof. intros Hx. solve_repr. Qed.

(** ** Well-formedness of what the protocol writes *)

Lemma bdg_wf : digest_wf bdg.
Proof. apply (binding_digest_wf b), (setup_digest Hs). Qed.

Lemma pd_wf : digest_wf (pd b).
Proof. apply domain_digest_wf. Qed.

Lemma fields_wf : digest_wf (old_root b) /\ digest_wf (new_root b) /\ digest_wf (transaction_id b) /\
  digest_wf (durable_profile_digest b) /\ digest_wf (owner_identity_digest b).
Proof. pose proof (binding_fields_wf b (setup_wf Hs)) as Hf. rewrite !Forall_cons_iff in Hf. tauto. Qed.

Lemma root_digest_of_wf n : digest_wf (root_digest_of b n).
Proof. by destruct n, fields_wf as (? & ? & _). Qed.

Ltac wf_fields :=
  pose proof bdg_wf; pose proof pd_wf; destruct fields_wf as (? & ? & ? & ? & ?);
  rewrite ?Forall_cons_iff; split_and!; auto using root_digest_of_wf, domain_digest_wf; try done.

Lemma root_of_wf n : wf (root_of b r0 n).
Proof. destruct n; [|apply (setup_r0_wf Hs)]. unfold wf, root_wf. cbn. wf_fields. Qed.

Lemma journal_of_wf ph j : journal_of b ph = Some j -> wf j.
Proof.
  intros Hj. pose proof (setup_wf Hs). pose proof record_schema_wf.
  unfold wf, record_wf. destruct ph; cbn in Hj; simplify_eq; cbn; wf_fields.
Qed.

Lemma cart0_wf : wf (cart0 b bdg).
Proof. unfold wf, cartridge_wf. cbn. wf_fields. Qed.

Lemma death_of_wf n t : u64_wf t -> wf (death_of b bdg n t).
Proof. intros Ht. unfold wf, death_wf. cbn. wf_fields. Qed.

Lemma receipt_of_wf n ph d o : wf (receipt_of b bdg n ph d o).
Proof.
  unfold wf, receipt_wf. cbn. wf_fields; [by destruct ph; try apply pd_wf|..].
  - destruct ph; cbn; try done; apply domain_digest_wf.
  - destruct d; cbn; [apply domain_digest_wf | done].
Qed.

(** ** Guards and reads on a represented store *)

Lemma record_validate_ok ph j : journal_of b ph = Some j -> record_validate j = Ok ().
Proof.
  intros Hj. unfold record_validate. destruct ph; cbn in Hj; simplify_eq; cbn;
    rewrite N.eqb_refl, (setup_valid Hs); done.
Qed.

Lemma record_bytes_ok ph j : journal_of b ph = Some j -> record_canonical_bytes j = Ok (encode j).
Proof.
  intros Hj. unfold record_canonical_bytes. rewrite (record_validate_ok ph j Hj). cbn.
  by eapply canonical_bytes_ok, journal_of_wf.
Qed.

Lemma record_digest_ok ph j : journal_of b ph = Some j -> record_digest j = Ok (jdigest j).
Proof. intros Hj. unfold record_digest. by rewrite (record_bytes_ok ph j Hj). Qed.

Lemma root_digest_root_of n : rp_root_digest (root_of b r0 n) = root_digest_of b n.
Proof. destruct n; [done|]. apply (setup_old Hs). Qed.

Lemma root_validate_ok n : root_validate (root_of b r0 n) = Ok ().
Proof.
  destruct n; cbn; [|apply (setup_r0 Hs)].
  destruct (binding_digests_nonzero b (setup_valid Hs)) as (_ & Hn & Ht & _).
  pose proof (setup_pd Hs). unfold root_validate, root_published; cbn.
  by rewrite !bool_decide_false by done.
Qed.

Lemma root_bytes_ok : root_canonical_bytes (root_published b (pd b)) =
  Ok (encode (root_published b (pd b))).
Proof.
  unfold root_canonical_bytes. rewrite (root_validate_ok true : root_validate (root_published _ _) = _).
  cbn. apply canonical_bytes_ok, (root_of_wf true).
Qed.

Lemma cart_bytes_ok : canonical_bytes (cart0 b bdg) = Ok (E := JournalError) (encode (cart0 b bdg)).
Proof. apply canonical_bytes_ok, cart0_wf. Qed.

Lemma cartridge_new_ok : cartridge_new b (pd b) = Ok (cart0 b bdg).
Proof. unfold cartridge_new. by rewrite (setup_digest Hs). Qed.

Lemma validate_against_ok : validate_against (cart0 b bdg) b = Ok ().
Proof.
  unfold validate_against. cbn. rewrite (setup_digest Hs). cbn.
  rewrite !bool_decide_true by done. by rewrite bool_decide_false by apply (setup_pd Hs).
Qed.

Lemma make_recovery_ok p t r o ow : make_recovery b p t r o ow =
  Ok (mkReceipt DURABLE_RECEIPT_SCHEMA_VERSION bdg p t ow r o true true None).
Proof. unfold make_recovery. by rewrite (setup_digest Hs). Qed.

Lemma root_digest_nonzero n : root_digest_of b n <> ZERO.
Proof. by destruct n, (binding_digests_nonzero b (setup_valid Hs)) as (? & ? & ? & ?). Qed.

Lemma receipt_bytes_ok n ph d o :
  RecoveryReceipt_canonical_bytes (receipt_of b bdg n ph d o) = Ok (encode (receipt_of b bdg n ph d o)).
Proof.
  unfold RecoveryReceipt_canonical_bytes. cbn -[receipt_of].
  rewrite canonical_bytes_ok by apply receipt_of_wf. cbn.
  pose proof (root_digest_nonzero n). pose proof (setup_bdg Hs).
  by rewrite !bool_decide_false by (done || by intros []).
Qed.

Lemma death_bytes_ok n t : u64_wf t ->
  OwnerDeathReceipt_canonical_bytes (death_of b bdg n t) = Ok (encode (death_of b bdg n t)).
Proof.
  intros Ht. unfold OwnerDeathReceipt_canonical_bytes.
  rewrite canonical_bytes_ok by by apply death_of_wf. cbn.
  pose proof (root_digest_nonzero n). pose proof (setup_bdg Hs). pose proof (setup_pd Hs).
  destruct (binding_digests_nonzero b (setup_valid Hs)) as (_ & _ & _ & Ho).
  rewrite (bool_decide_true (OwnerDeath = OwnerDeath)) by done.
  by rewrite !bool_decide_false by done.
Qed.

Lemma journal_option_wf ph : option_wf wf (journal_of b ph).
Proof. destruct (journal_of b ph) eqn:Hj; cbn; [by eapply journal_of_wf | done]. Qed.

Lemma cart_option_wf c : option_wf wf (cart_of b bdg c).
Proof. destruct c; [apply cart0_wf | done]. Qed.

Section Reads.
Context (a : Abs) (f : FS) (Hr : repr a f).

Lemma read_root_repr : read_root ps f = Ok (root_of b r0 (a_new a)).
Proof.
  unfold read_root. destruct Hr as (Hroot & _). rewrite (read_canonical_slot _ _ _ _ _ Hroot) by apply root_of_wf. cbn.
  by rewrite root_validate_ok.
Qed.

Lemma read_journal_repr : read_journal ps f =
  match journal_of b (a_phase a) with
  | Some j => Ok (mkRead j (jdigest j))
  | None => Err (jerr JournalMissing)
  end.
Proof.
  unfold read_journal. destruct Hr as (_ & Hj & _).
  by rewrite (read_canonical_slot _ _ _ _ _ Hj) by apply journal_option_wf.
Qed.

Lemma read_opt_journal_repr :
  read_optional f (journal_record ps) JournalMissing (record_domain B) =
  Ok (E := JournalError) ((fun j => mkRead j (jdigest j)) <$> journal_of b (a_phase a)).
Proof. destruct Hr as (_ & Hj & _). by rewrite (read_optional_slot _ _ _ _ _ Hj) by apply journal_option_wf. Qed.

Lemma read_cartridge_repr : a_cart a = true -> read_cartridge ps f = Ok (cart0 b bdg).
Proof.
  intros Hc. unfold read_cartridge. destruct Hr as (_ & _ & Hcart & _).
  rewrite (read_canonical_slot _ _ _ _ _ Hcart), Hc by apply cart_option_wf. done.
Qed.

Lemma read_opt_cartridge_repr :
  read_optional f (cartridge_path ps) CartridgeMismatch CARTRIDGE_DOMAIN =
  Ok (E := JournalError) ((fun c => mkRead c (domain_digest CARTRIDGE_DOMAIN (encode c)))
                            <$> cart_of b bdg (a_cart a)).
Proof. destruct Hr as (_ & _ & Hc & _). by rewrite (read_optional_slot _ _ _ _ _ Hc) by apply cart_option_wf. Qed.

Lemma read_opt_recovery_repr :
  read_optional f (recovery_receipt ps) JournalMissing RECOVERY_DOMAIN =
  Ok (E := JournalError) ((fun c => mkRead c (domain_digest RECOVERY_DOMAIN (encode c)))
                            <$> a_recov a).
Proof. destruct Hr as (_ & _ & _ & _ & Hc & _ & Hw). by rewrite (read_optional_slot _ _ _ _ _ Hc Hw). Qed.

Lemma owner_death_repr : death_ok b bdg (a_death a) ->
  owner_death_digest ps b f = Ok (death_digest <$> a_death a).
Proof.
  intros Hd. unfold owner_death_digest. destruct Hr as (_ & _ & _ & Hslot & _ & Hw & _).
  rewrite (read_optional_slot _ _ _ _ _ Hslot Hw). destruct (a_death a) as [d|]; [|done].
  destruct Hd as (n & t & Ht & ->). cbn -[death_of]. rewrite death_bytes_ok by done. cbn.
  rewrite (setup_digest Hs). cbn. by rewrite !bool_decide_true by done.
Qed.

Lemma existing_recovery_repr (e : option B) : (e = None \/ e = Some b) -> legal b bdg a ->
  existing_recovery ps e f = Ok (a_recov a).
Proof.
  intros He Hl. unfold existing_recovery. rewrite read_opt_recovery_repr.
  destruct (a_recov a) as [r|] eqn:Hrec; [|done].
  assert (exists n ph d o, r = receipt_of b bdg n ph d o) as (n & ph & d & o & ->).
  { destruct Hl as [? Hok| |? ? _|? ? _ Hok|? ? ? _ Hok]; cbn in Hrec; simplify_eq;
      destruct Hok as (o & _ & ->); by eauto. }
  cbn -[receipt_of]. rewrite receipt_bytes_ok. destruct He as [->| ->]; cbn; [done|].
  rewrite (setup_digest Hs). cbn. by rewrite bool_decide_true.
Qed.
End Reads.

(** ** Operations *)

Context (os : OsCall -> JournalBoundary -> bool) (calm : Prop).

Definition refines {A} (a : Abs) (ok : A -> Abs -> Prop) (err : JournalError -> Abs -> Prop)
  : result JournalError A -> FS -> Prop := fun r f' =>
  exists a', rtc (step b bdg) a a' /\ repr a' f' /\
    match r with Ok x => ok x a' | Err e => err e a' end.

Lemma wp_after {A} (m : JournalM A) a a1 ok err f : rtc (step b bdg) a a1 ->
  wp os calm m (refines a1 ok err) f -> wp os calm m (refines a ok err) f.
Proof.
  intros H01. apply wp_mono. intros r f' (a' & H1a & Hrep & Hpost).
  exists a'. split; [by etrans | done].
Qed.

Lemma refines_here {A} (r : result JournalError A) a ok err f : repr a f ->
  match r with Ok x => ok x a | Err e => err e a end -> refines a ok err r f.
Proof. intros Hr Hp. by exists a. Qed.

(** A durable write that takes one abstract step, followed by [k]. *)
Lemma wp_write_step {A} p v bd a a' f (k : () -> JournalM A) ok err :
  (len v <= MAX_RECORD_BYTES)%N -> file_name p <> None ->
  repr a f -> step b bdg a a' -> repr a' (<[p := Regular v]> f) ->
  (forall e, ~ calm -> err e a /\ err e a') ->
  (forall f', repr a' f' -> wp os calm (k ()) (refines a' ok err) f') ->
  wp os calm (sbind (durable_replace os p v bd) k) (refines a ok err) f.
Proof.
  intros Hlen Hp Hr Hstep Hr' He Hk. apply wp_bind, wp_durable_replace; [done..| | |].
  - intros e (Hc & _). apply refines_here; [done | by apply He].
  - intros e (Hc & _). exists a'. split; [by apply rtc_once | split; [done | by apply He]].
  - eapply wp_after; [by apply rtc_once | by apply Hk].
Qed.

Lemma wp_write_journal {A} ph' j bd n ph c d r f (k : () -> JournalM A) ok err :
  journal_of b ph' = Some j -> repr (mkAbs n ph c d r) f ->
  step b bdg (mkAbs n ph c d r) (mkAbs n ph' c d r) -> 
  (forall e, ~ calm -> err e (mkAbs n ph c d r) /\ err e (mkAbs n ph' c d r)) ->
  (forall f', repr (mkAbs n ph' c d r) f' ->
    wp os calm (k ()) (refines (mkAbs n ph' c d r) ok err) f') ->
  wp os calm (sbind (durable_replace os (journal_record ps) (encode j) bd) k)
    (refines (mkAbs n ph c d r) ok err) f.
Proof.
  intros Hj Hr Hstep He Hk. destruct path_names as (_ & Hp & _).
  apply (wp_write_step _ _ _ _ (mkAbs n ph' c d r)); [by eapply encode_bounded, journal_of_wf | done | done | done | | done | done].
  by apply (repr_journal _ ph).
Qed.

Lemma wp_persist n ph c d o f (ok : RecoveryReceipt -> Abs -> Prop)
    (err : JournalError -> Abs -> Prop) :
  repr (mkAbs n ph c d None) f -> outcome_ok ph c o = true ->
  (forall e r, ~ calm -> err e (mkAbs n ph c d r)) ->
  ok (receipt_of b bdg n ph d o) (mkAbs n ph c d (Some (receipt_of b bdg n ph d o))) ->
  wp os calm (persist_recovery os ps (receipt_of b bdg n ph d o))
    (refines (mkAbs n ph c d None) ok err) f.
Proof.
  intros Hr Ho He Hok. unfold persist_recovery.
  eapply wp_gets_ok; [exact (read_opt_recovery_repr _ _ Hr)|]. cbn [a_recov fmap option_fmap option_map].
  eapply wp_lift_ok; [apply receipt_bytes_ok|].
  destruct path_names as (_ & _ & _ & _ & Hp).
  apply wp_write_once_absent; [by destruct Hr as (_ & _ & _ & _ & -> & _)|].
  eapply (wp_write_step _ _ _ _ (mkAbs n ph c d (Some _)));
    [apply encode_bounded, receipt_of_wf | done | done | by apply step_receipt, Ho
    | apply repr_recov; [apply receipt_of_wf | done] | by auto |].
  intros f' Hr'. by apply wp_sret, refines_here.
Qed.

#[local] Opaque persist_recovery wp.

(** Resolve the next effect-free action of an operation. *)
Ltac dj_fact Hr :=
  first
    [ exact (setup_valid Hs) | exact (setup_digest Hs)
    | exact cartridge_new_ok | exact validate_against_ok | exact root_bytes_ok
    | eapply (record_validate_ok IsPrepared); reflexivity
    | eapply (record_validate_ok IsCommitted); reflexivity
    | eapply (record_validate_ok (IsAborted _)); reflexivity
    | eapply (record_bytes_ok IsPrepared); reflexivity
    | eapply (record_bytes_ok IsCommitted); reflexivity
    | eapply (record_bytes_ok (IsAborted _)); reflexivity
    | eapply (record_digest_ok IsPrepared); reflexivity
    | eapply (record_digest_ok IsCommitted); reflexivity
    | eapply (record_digest_ok (IsAborted _)); reflexivity
    | apply make_recovery_ok
    | exact (read_root_repr _ _ Hr)
    | exact (read_journal_repr _ _ Hr)
    | exact (read_opt_journal_repr _ _ Hr)
    | exact (read_opt_cartridge_repr _ _ Hr)
    | exact (read_opt_recovery_repr _ _ Hr)
    | refine (owner_death_repr _ _ Hr _); first [eassumption | exact I]
    | exact (read_cartridge_repr _ _ Hr eq_refl)
    | exact cart_bytes_ok
    | exact eq_refl ].

Ltac dj_simpl :=
  cbn [value digest jr_state jr_binding fmap option_fmap option_map journal_of cart_of
       a_new a_phase a_cart a_death a_recov record_prepared record_committed record_aborted
       prepared_digest negb].

Ltac go1 Hr :=
  first [ eapply wp_lift_ok; [dj_fact Hr|] | eapply wp_gets_ok; [cbv beta; dj_fact Hr|] ]; dj_simpl.

Ltac go Hr := repeat go1 Hr.

Lemma wp_existing {A} (e : option B) a f (k : option RecoveryReceipt -> JournalM A) Q :
  (e = None \/ e = Some b) -> legal b bdg a -> repr a f ->
  wp os calm (k (a_recov a)) Q f -> wp os calm (sbind (gets (existing_recovery ps e)) k) Q f.
Proof. intros He Hl Hr. by apply wp_gets_ok, existing_recovery_repr. Qed.

Lemma roots_differ : old_root b <> new_root b.
Proof. apply binding_roots_differ, (setup_valid Hs). Qed.

Lemma verify_new_ok : verify_new (root_of b r0 true) b (pd b) = Ok ().
Proof.
  unfold verify_new. rewrite root_validate_ok. cbn. by rewrite !bool_decide_true by done.
Qed.

Lemma verify_old_ok : verify_old (root_of b r0 false) b = Ok ().
Proof.
  unfold verify_old. rewrite root_validate_ok. cbn.
  by rewrite bool_decide_true by apply (setup_old Hs).
Qed.

Lemma recover_refines a f : legal b bdg a -> repr a f ->
  wp os calm (recover_bound_journal os ps b)
    (refines a (fun x a' => a_recov a' = Some x /\ a_new a' = a_new a)
       (fun _ a' => ~ calm /\ a_new a' = a_new a)) f.
Proof.
  intros Hl Hr. unfold recover_bound_journal. go1 Hr.
  eapply wp_existing; [by right | done | done |].
  destruct (a_recov a) as [x|] eqn:Hx; [by apply wp_sret, refines_here|].
  go Hr.
  destruct Hl as [r _| |n d Hd|d r Hd _|d r why Hd _]; cbn in Hx; subst.
  - go Hr. rewrite bool_decide_true by apply root_digest_root_of. go Hr.
    by apply (wp_persist false NoJournal false None NotStartedOldRoot).
  - go Hr. rewrite bool_decide_true by apply root_digest_root_of. go Hr.
    rewrite bool_decide_true by done. go Hr.
    eapply (wp_write_journal (IsAborted RecoveryObservedOldRoot)); [done | exact Hr | constructor | by auto |].
    clear Hr f. intros f Hr. go Hr.
    by apply (wp_persist false (IsAborted RecoveryObservedOldRoot) true None OldRootAborted).
  - go Hr. rewrite bool_decide_true by done. go Hr. destruct n.
    + rewrite bool_decide_false, bool_decide_true
        by (rewrite ?root_digest_root_of; auto using roots_differ, not_eq_sym).
      eapply wp_lift_ok; [apply verify_new_ok|]. go Hr.
      eapply (wp_write_journal IsCommitted); [done | exact Hr | constructor | by auto |].
      clear Hr f. intros f Hr. go Hr.
      by apply (wp_persist true IsCommitted true d NewRootCommitted).
    + rewrite bool_decide_true by apply root_digest_root_of. go Hr.
      eapply (wp_write_journal (IsAborted _)); [done | exact Hr | constructor | by auto |].
      clear Hr f. intros f Hr. go Hr.
      by apply (wp_persist false (IsAborted _) true d OldRootAborted).
  - go Hr. rewrite bool_decide_true by done. go Hr.
    eapply wp_lift_ok; [apply verify_new_ok|]. go Hr.
    by apply (wp_persist true IsCommitted true d AlreadyCommitted).
  - go Hr. rewrite bool_decide_true by done. go Hr.
    eapply wp_lift_ok; [apply verify_old_ok|]. go Hr.
    by apply (wp_persist false (IsAborted why) true d AlreadyAborted).
Qed.

Lemma initialize_refines root a f : repr a f ->
  wp os calm (initialize_published_root os ps root) (refines a (fun _ a' => a' = a) (fun _ a' => a' = a)) f.
Proof.
  intros Hr. unfold initialize_published_root. apply wp_lift_any; intros; [by apply refines_here|].
  destruct Hr as (Hroot & Hrest).
  eapply wp_gets_ok; [exact (read_optional_slot _ _ _ _ _ Hroot (root_of_wf _))|]. cbn [fmap option_fmap option_map value].
  eapply wp_lift_ok; [apply root_validate_ok|].
  apply wp_if; intros _; [apply wp_sret | apply wp_throw]; apply refines_here; by try split.
Qed.

(** The two writes of a fresh prepare: the write-once cartridge, then the
    prepared record. *)
Lemma wp_prepare_writes {A} c f (x : A) ok (err : JournalError -> Abs -> Prop) :
  repr (mkAbs false NoJournal c None None) f -> (forall e a, ~ calm -> err e a) ->
  (forall f', repr (mkAbs false IsPrepared true None None) f' ->
    refines (mkAbs false IsPrepared true None None) ok err (Ok x) f') ->
  wp os calm
    (let! _ := write_once os (cartridge_path ps) (encode (cart0 b bdg)) CARTRIDGE in
     let! jb := lift (record_canonical_bytes (record_prepared b)) in
     let! _ := durable_replace os (journal_record ps) jb PREPARE in
     sret x)
    (refines (mkAbs false NoJournal c None None) ok err) f.
Proof.
  intros Hr He Hk. destruct path_names as (_ & _ & Hp & _).
  assert (forall f', repr (mkAbs false NoJournal true None None) f' -> wp os calm
    (let! jb := lift (record_canonical_bytes (record_prepared b)) in
     let! _ := durable_replace os (journal_record ps) jb PREPARE in sret x)
    (refines (mkAbs false NoJournal true None None) ok err) f') as Hrest.
  { intros f' Hr'. go Hr'.
    apply (wp_write_journal IsPrepared); [done | done | constructor | by auto |].
    intros f2 Hr2. by apply wp_sret, Hk. }
  destruct c.
  - apply wp_write_once_same; [by destruct Hr as (_ & _ & -> & _) | by apply Hrest].
  - apply wp_write_once_absent; [by destruct Hr as (_ & _ & -> & _)|].
    by apply (wp_write_step _ _ _ _ (mkAbs false NoJournal true None None));
      [apply encode_bounded, cart0_wf | done | done | constructor | apply repr_cart | auto | ..].
Qed.

(** Prepare succeeds only as the first action on the old root, and then the
    prepared record and its cartridge are on disk. *)
Lemma prepare_refines now a f : legal b bdg a -> repr a f ->
  wp os calm (prepare_bound_journal os ps b now)
    (refines a (fun x a' => x = cart0 b bdg /\ a_new a' = false /\ a_phase a' = IsPrepared)
       (fun _ _ => (a = init \/ a = mkAbs false NoJournal true None None) ->
                   lease_expired b now = false -> ~ calm)) f.
Proof.
  intros Hl Hr. unfold prepare_bound_journal. go1 Hr.
  apply wp_if; intros Hlease; [apply wp_throw, refines_here; [done|]; congruence|].
  go1 Hr. rewrite root_digest_root_of.
  apply wp_if; intros Hroot; breflect.
  { apply wp_throw, refines_here; [done|]. intros [->| ->]; by destruct Hroot. }
  go1 Hr. apply wp_if; intros Hrec; breflect.
  { apply wp_throw, refines_here; [done|]. intros [->| ->]; by destruct Hrec. }
  go1 Hr.
  destruct Hl as [r _| |n d Hd|d r Hd _|d r why Hd _]; cbn in Hroot, Hrec |- *.
  - destruct r; [by destruct Hrec|]. go Hr. apply (wp_prepare_writes false); [done | done|].
    intros f' Hr'. by apply refines_here.
  - go Hr. apply (wp_prepare_writes true); [done | done|]. intros f' Hr'. by apply refines_here.
  - destruct n; [by destruct roots_differ|]. go1 Hr. rewrite !bool_decide_true by done. go Hr.
    rewrite bool_decide_true by done. by apply wp_sret, refines_here.
  - by destruct roots_differ.
  - go Hr. apply wp_throw, refines_here; [done|]. by intros [|].
Qed.

(** An argument cartridge is checked against the persisted binding. *)
Lemma wp_validate_cartridge {A} cart f (k : () -> JournalM A) (Q : result JournalError A -> FS -> Prop) :
  (forall e, cart <> cart0 b bdg -> Q (Err e) f) -> wp os calm (k ()) Q f ->
  wp os calm (sbind (lift (validate_against cart b)) k) Q f.
Proof.
  intros He Hk. apply wp_lift_any; [|by intros []].
  intros e Hv. apply He. intros ->. by rewrite validate_against_ok in Hv.
Qed.

Lemma wp_prepared_cartridge {A} (cart : ContinuationCartridgeRecord B) f (m : JournalM A)
    (Q : result JournalError A -> FS -> Prop) :
  (forall e, cart <> cart0 b bdg -> Q (Err e) f) -> wp os calm m Q f ->
  wp os calm (reject! negb (bool_decide (jdigest (record_prepared b) = cc_prepared_record_digest cart))
              with jerr CartridgeMismatch in m) Q f.
Proof.
  intros He Hk. apply wp_if; intros Hc; breflect; [|done].
  apply wp_throw, He. by intros ->.
Qed.

Definition settles (a : Abs) (ph : Phase) (x : RecoveryReceipt) (a' : Abs) : Prop :=
  a_recov a' = Some x /\ (a_recov a = None -> a_phase a' = ph).

Lemma wp_settled (r : RecoveryReceipt) cart a f ok (err : JournalError -> Abs -> Prop) :
  repr a f -> ok r a -> (forall e, err e a) ->
  wp os calm (if bool_decide (rr_binding_digest r = cc_binding_digest (B := B) cart) then sret r
              else throw (jerr ImmutableReceiptConflict)) (refines a ok err) f.
Proof.
  intros Hr Hok He. apply wp_if; intros _; [apply wp_sret | apply wp_throw]; by apply refines_here.
Qed.

(** The part of a commit after the root is known to be the new one. *)
Lemma commit_tail d f ok (err : JournalError -> Abs -> Prop) :
  death_ok b bdg d -> repr (mkAbs true IsPrepared true d None) f ->
  (forall e a, ~ calm -> err e a) ->
  ok (receipt_of b bdg true IsCommitted d NewRootCommitted)
     (mkAbs true IsCommitted true d (Some (receipt_of b bdg true IsCommitted d NewRootCommitted))) ->
  let committed := record_committed (record_prepared b) (jdigest (record_prepared b)) in
  wp os calm
    (let! jb := lift (record_canonical_bytes committed) in
     let! _ := durable_replace os (journal_record ps) jb COMMIT in
     let! cd := lift (record_digest committed) in
     let! owner := gets (owner_death_digest ps b) in
     let! receipt := lift (make_recovery b (jdigest (record_prepared b)) (Some cd)
                             (new_root b) NewRootCommitted owner) in
     persist_recovery os ps receipt)
    (refines (mkAbs true IsPrepared true d None) ok err) f.
Proof.
  intros Hd Hr He Hok committed. go Hr.
  apply (wp_write_journal IsCommitted); [done | done | constructor | by auto |].
  clear Hr f. intros f Hr. go Hr.
  apply (wp_persist true IsCommitted true d NewRootCommitted); by auto.
Qed.

Lemma commit_refines cart a f : legal b bdg a -> repr a f ->
  wp os calm (commit_bound_journal os ps cart)
    (refines a (settles a IsCommitted)
       (fun _ _ => cart = cart0 b bdg -> a_recov a = None ->
          a_phase a = IsPrepared \/ a_phase a = IsCommitted -> ~ calm)) f.
Proof.
  intros Hl Hr. unfold commit_bound_journal. eapply wp_existing; [by left | done | done |].
  destruct (a_recov a) as [x|] eqn:Hx; [by apply wp_settled; [|split|]; congruence|].
  destruct Hl as [r _| |n d Hd|d r Hd _|d r why Hd _]; cbn in Hx; subst; cbn [a_phase].
  - eapply wp_gets_err; [exact (read_journal_repr _ _ Hr)|]. apply refines_here; [done|]. by intros _ _ [].
  - eapply wp_gets_err; [exact (read_journal_repr _ _ Hr)|]. apply refines_here; [done|]. by intros _ _ [].
  - go Hr. apply wp_validate_cartridge; [intros; by apply refines_here|]. cbv beta.
    apply wp_prepared_cartridge; [intros; by apply refines_here|]. go1 Hr. rewrite root_digest_root_of.
    destruct n; cbn [root_digest_of].
    + rewrite bool_decide_false by auto using roots_differ, not_eq_sym.
      eapply wp_lift_ok; [apply verify_new_ok|]. by apply commit_tail.
    + rewrite bool_decide_true by done. apply wp_assoc. go1 Hr.
      destruct path_names as (Hp & _).
      apply (wp_write_step _ _ _ _ (mkAbs true IsPrepared true d None));
        [apply encode_bounded, (root_of_wf true) | done | done | constructor | by apply repr_root | by auto |].
      intros f' Hr'. by apply commit_tail.
  - go Hr. apply wp_validate_cartridge; [intros; by apply refines_here|]. cbv beta. go Hr.
    eapply wp_lift_ok; [apply verify_new_ok|]. go Hr.
    by apply (wp_persist true IsCommitted true d AlreadyCommitted).
  - go Hr. apply wp_validate_cartridge; [intros; by apply refines_here|].
    apply wp_throw, refines_here; [done|]. by intros _ _ [].
Qed.

Lemma verify_old_new n : verify_old (root_of b r0 n) b = Ok () -> n = false.
Proof.
  unfold verify_old. rewrite root_validate_ok. cbn. rewrite root_digest_root_of.
  case_bool_decide; [|done]. destruct n; [|done]. by destruct roots_differ.
Qed.

Lemma abort_refines cart a f : legal b bdg a -> repr a f ->
  wp os calm (abort_bound_journal os ps cart)
    (refines a (fun x a' => a_recov a' = Some x /\ (a_recov a = None -> exists why, a_phase a' = IsAborted why))
       (fun _ _ => cart = cart0 b bdg -> a_recov a = None -> a_new a = false ->
          a_phase a <> NoJournal -> ~ calm)) f.
Proof.
  intros Hl Hr. unfold abort_bound_journal. eapply wp_existing; [by left | done | done |].
  destruct (a_recov a) as [x|] eqn:Hx; [by apply wp_settled; [|split|]; congruence|].
  destruct Hl as [r _| |n d Hd|d r Hd _|d r why Hd _]; cbn in Hx; subst; cbn [a_phase a_new].
  - eapply wp_gets_err; [exact (read_journal_repr _ _ Hr)|]. by apply refines_here.
  - eapply wp_gets_err; [exact (read_journal_repr _ _ Hr)|]. by apply refines_here.
  - go Hr. apply wp_validate_cartridge; [intros; by apply refines_here|]. cbv beta.
    apply wp_prepared_cartridge; [intros; by apply refines_here|]. go1 Hr.
    apply wp_lift_any.
    { intros e Hv. apply refines_here; [done|]. intros _ _ -> _. by rewrite verify_old_ok in Hv. }
    intros [] ->%verify_old_new. go Hr.
    apply (wp_write_journal (IsAborted ExplicitAbort)); [done | done | constructor | by auto |].
    clear Hr f. intros f Hr. go Hr.
    apply (wp_persist false (IsAborted _) true d OldRootAborted); by eauto.
  - go Hr. apply wp_validate_cartridge; [intros; by apply refines_here|].
    by apply wp_throw, refines_here.
  - go Hr. apply wp_validate_cartridge; [intros; by apply refines_here|]. cbv beta. go Hr.
    eapply wp_lift_ok; [apply verify_old_ok|]. go Hr. rewrite root_digest_root_of.
    apply (wp_persist false (IsAborted why) true d AlreadyAborted); by eauto.
Qed.

Lemma owner_death_refines owner t a f : u64_wf t -> legal b bdg a -> repr a f ->
  wp os calm (record_bound_owner_death os ps owner t)
    (refines a (fun x a' => a_death a' = Some x) (fun _ _ => True)) f.
Proof.
  intros Ht Hl Hr. unfold record_bound_owner_death.
  destruct (journal_of b (a_phase a)) as [j|] eqn:Hj;
    [|eapply wp_gets_err; [rewrite (read_journal_repr _ _ Hr), Hj; done | by apply refines_here]].
  eapply wp_gets_ok; [rewrite (read_journal_repr _ _ Hr), Hj; done|]. cbn [value digest].
  eapply wp_lift_ok; [by eapply record_validate_ok|].
  assert (jr_binding j = b) as -> by (by destruct (a_phase a); simplify_eq/=).
  apply wp_if; intros Howner; [by apply wp_throw, refines_here|].
  apply wp_if; intros Hst; [by apply wp_throw, refines_here|]. breflect. subst owner.
  destruct Hl as [r _| |n d Hd|d r Hd _|d r why Hd _]; simplify_eq/=.
  go Hr. rewrite root_digest_root_of. eapply wp_lift_ok; [exact (death_bytes_ok n t Ht)|].
  destruct path_names as (_ & _ & _ & Hp & _).
  pose proof Hr as (_ & _ & _ & Hslot & _). cbn in Hslot.
  destruct d as [d|]; cbn in Hslot.
  - destruct (decide (encode d = encode (death_of b bdg n t))) as [Heq|Hne].
    + rewrite Heq in Hslot. apply wp_write_once_same; [done|]. apply wp_sret, refines_here; [done|].
      cbn. f_equal. apply encode_inj; [by destruct Hr as (_ & _ & _ & _ & _ & ? & _) | by apply death_of_wf | done].
    + eapply wp_write_once_other; [done | done | by apply refines_here].
  - apply wp_write_once_absent; [done|].
    apply (wp_write_step _ _ _ _ (mkAbs n IsPrepared true (Some (death_of b bdg n t)) None));
      [by apply encode_bounded, death_of_wf | done | done | by constructor
      | apply repr_death; [by apply death_of_wf | done] | done |].
    intros f' Hr'. by apply wp_sret, refines_here.
Qed.
End Refinement.
