(* ===== verification/DurableTheorems.v ===== *)
(** Histories of journal operations, and what the durable journal guarantees
    over them: the publication law over every
    history, total and idempotent recovery, finality of outcomes, the success
    of an undisturbed commit, and the refusals of [prepare]. *)

From S2P Require Import Prelude.
From S2P Require Import DurableStore.
From S2P Require Import DurableJournal.
From S2P Require Import DurableProtocol.

(** * Histories

    [evolves f f']: some sequence of journal operations on the transaction,
    each with its own fault plan, operating-system failures, clock and
    arguments, takes the store [f] to [f'].  A crash is an operation that ends
    in an error. *)

Inductive Op (B : Type) :=
| OpInitialize (root : Digest)
| OpPrepare (now : N)
| OpCommit (cart : ContinuationCartridgeRecord B)
| OpAbort (cart : ContinuationCartridgeRecord B)
| OpOwnerDeath (owner : Digest) (at_ns : N)
| OpRecover.
Global Arguments OpInitialize {B} _.
Global Arguments OpPrepare {B} _.
Global Arguments OpCommit {B} _.
Global Arguments OpAbort {B} _.
Global Arguments OpOwnerDeath {B} _ _.
Global Arguments OpRecover {B}.

Section Histories.
Context `{Platform, !PlatformOk} {B : Type} `{JournalBindingLike B, Wf B, !JournalBindingLaws B}.
Context `{JournalCodecs B, !JournalCodecsOk B}.
Context (ps : JournalPaths) (b : B) (bdg : Digest) (r0 : RootPublicationReceipt).

Definition run (os : OsCall -> JournalBoundary -> bool) (op : Op B) (w : JournalWorld) : JournalWorld :=
  match op with
  | OpInitialize root => snd (initialize_published_root os ps root w)
  | OpPrepare now => snd (prepare_bound_journal os ps b now w)
  | OpCommit cart => snd (commit_bound_journal os ps cart w)
  | OpAbort cart => snd (abort_bound_journal os ps cart w)
  | OpOwnerDeath owner t => snd (record_bound_owner_death (B := B) os ps owner t w)
  | OpRecover => snd (recover_bound_journal os ps b w)
  end.

(** The observation time is a [u64]; every other argument is arbitrary. *)
Definition op_wf (op : Op B) : Prop :=
  match op with OpOwnerDeath _ t => u64_wf t | _ => True end.

Inductive evolves (f : FS) : FS -> Prop :=
| evolves_refl : evolves f f
| evolves_op f' os op plan : op_wf op -> evolves f f' -> evolves f (fs (run os op (mkWorld f' plan))).

(** A fresh transaction: the old root is published and nothing else exists. *)
Definition fresh (f : FS) : Prop :=
  f !! root_record ps = Some (Regular (encode r0)) /\ f !! journal_record ps = None /\
  f !! cartridge_path ps = None /\ f !! owner_death_receipt ps = None /\
  f !! recovery_receipt ps = None.

Hypothesis Hs : setup ps b bdg r0.

Lemma refines_step {A} (m : JournalM A) os a f plan ok err :
  wp os False m (refines ps b bdg r0 a ok err) f ->
  exists a', rtc (step b bdg) a a' /\ repr ps b bdg r0 a' (fs (snd (m (mkWorld f plan)))).
Proof.
  intros Hwp. destruct (Hwp (mkWorld f plan) eq_refl) as [(a' & ? & ? & _) _]; [done|]. by exists a'.
Qed.

Lemma run_refines os op a f plan : op_wf op -> legal b bdg a -> repr ps b bdg r0 a f ->
  exists a', rtc (step b bdg) a a' /\ repr ps b bdg r0 a' (fs (run os op (mkWorld f plan))).
Proof.
  intros Ho Hl Hr. destruct op; cbn [run]; eapply refines_step;
    [ by eapply initialize_refines | by eapply prepare_refines | by eapply commit_refines
    | by eapply abort_refines | by eapply owner_death_refines | by eapply recover_refines ].
Qed.

Lemma evolves_refines a f f' : legal b bdg a -> repr ps b bdg r0 a f -> evolves f f' ->
  exists a', rtc (step b bdg) a a' /\ repr ps b bdg r0 a' f'.
Proof.
  intros Hl Hr. induction 1 as [|f' os op plan Ho _ (a1 & H01 & Hr1)]; [by exists a|].
  destruct (run_refines os op a1 f' plan) as (a2 & H12 & Hr2);
    [done | by eapply legal_reachable | done |].
  exists a2. split; [by etrans | done].
Qed.

Lemma legal_init : legal b bdg init.
Proof. by constructor. Qed.

Lemma fresh_repr f : fresh f -> repr ps b bdg r0 init f.
Proof. intros (? & ? & ? & ? & ?). by split_and!. Qed.

Lemma fresh_refines f0 f : fresh f0 -> evolves f0 f ->
  exists a, rtc (step b bdg) init a /\ legal b bdg a /\ repr ps b bdg r0 a f.
Proof.
  intros Hf Hev. destruct (evolves_refines init f0 f legal_init (fresh_repr _ Hf) Hev) as (a & Ha & Hr).
  exists a. split_and!; [done | by eapply legal_reachable; [apply legal_init|] | done].
Qed.
End Histories.

Section Guarantees.
Context `{Platform, !PlatformOk} {B : Type} `{JournalBindingLike B, Wf B, !JournalBindingLaws B}.
Context `{JournalCodecs B, !JournalCodecsOk B}.
Context (ps : JournalPaths) (b : B) (bdg : Digest) (r0 : RootPublicationReceipt).

(** What a reader of the store sees in an abstract state. *)
Lemma observe a f : setup ps b bdg r0 -> repr ps b bdg r0 a f ->
  read_root ps f = Ok (root_of b r0 (a_new a)) /\
  read_journal ps f =
    match journal_of b (a_phase a) with
    | Some j => Ok (mkRead j (jdigest j))
    | None => Err (jerr JournalMissing)
    end.
Proof. intros Hs Hr. by split; [eapply read_root_repr | eapply read_journal_repr]. Qed.

(** C12: The publication law.  After any history of journal operations from a
    fresh transaction, with any crashes, operating-system failures, clocks
    and arguments, the published root reads back as exactly the old root or
    exactly the transaction's new root, and the journal corresponds: a
    committed record accompanies the new root, an aborted or missing record
    the old one, and the record always carries the transaction's binding. *)
Theorem publication_law (f0 f : FS) :
  setup ps b bdg r0 -> fresh ps r0 f0 -> evolves ps b f0 f ->
  exists root, read_root ps f = Ok root /\
    (root = r0 \/ root = root_published b (pd b)) /\
    match read_journal ps f with
    | Ok j => jr_binding (value j) = b /\
              match jr_state (value j) with
              | Prepared => True
              | Committed => root = root_published b (pd b)
              | Aborted => root = r0
              end
    | Err e => code e = JournalMissing /\ root = r0
    end.
Proof.
  intros Hs Hf Hev. destruct (fresh_refines ps b bdg r0 Hs f0 f Hf Hev) as (a & _ & Hl & Hr).
  destruct (observe a f Hs Hr) as [-> ->]. eexists. split; [done|].
  split; [destruct (a_new a); auto|]. by destruct Hl.
Qed.

Lemma quiet_run {A} (m : JournalM A) os f plan a ok err :
  quiet os plan ->
  wp os (quiet os plan) m (refines ps b bdg r0 a ok err) f ->
  (forall e a', err e a' -> quiet os plan -> False) ->
  exists x w' a', m (mkWorld f plan) = (Ok x, w') /\ rtc (step b bdg) a a' /\
    repr ps b bdg r0 a' (fs w') /\ ok x a' /\ quiet os (fault w').
Proof.
  intros Hq Hwp Herr.
  destruct (Hwp (mkWorld f plan) eq_refl) as [(a' & Ha & Hr & Hpost) Hq']; [done|].
  destruct (m (mkWorld f plan)) as [[x|e] w']; cbn in *.
  - exists x, w', a'. split_and!; auto.
  - by destruct (Herr e a').
Qed.

(** C13: Recovery is total and decides by the published root.  After any
    history, if nothing fails while it runs, [recover] returns a receipt; it
    does not move the root, the receipt names that root and is the one now
    persisted, and the journal record is settled: committed exactly when the
    new root was published, aborted or absent exactly when it was not. *)
Theorem recovery_total (f0 f : FS) (os : OsCall -> JournalBoundary -> bool)
    (plan : FaultPlan JournalBoundary) :
  setup ps b bdg r0 -> fresh ps r0 f0 -> evolves ps b f0 f -> quiet os plan ->
  exists receipt w' root,
    recover_bound_journal os ps b (mkWorld f plan) = (Ok receipt, w') /\
    read_root ps f = Ok root /\ read_root ps (fs w') = Ok root /\
    rr_observed_root receipt = rp_root_digest root /\
    existing_recovery ps (Some b) (fs w') = Ok (Some receipt) /\
    match read_journal ps (fs w') with
    | Ok j => jr_state (value j) = (if bool_decide (root = r0) then Aborted else Committed) /\
              rr_terminal_record_digest receipt = Some (digest j)
    | Err _ => root = r0 /\ rr_outcome receipt = NotStartedOldRoot
    end.
Proof.
  intros Hs Hf Hev Hq. destruct (fresh_refines ps b bdg r0 Hs f0 f Hf Hev) as (a & _ & Hl & Hr).
  destruct (quiet_run _ os f plan a _ _ Hq (recover_refines ps b bdg r0 Hs os (quiet os plan) a f Hl Hr))
    as (x & w' & a' & Hrun & Ha & Hr' & (Hrec & Hnew) & _); [by intros ? ? [? _]|].
  pose proof (legal_reachable _ _ _ _ Hl Ha) as Hl'.
  exists x, w', (root_of b r0 (a_new a)). split; [done|].
  destruct (observe a f Hs Hr) as [-> _], (observe a' (fs w') Hs Hr') as [-> ->].
  rewrite Hnew, (root_digest_root_of ps b bdg r0 Hs).
  erewrite existing_recovery_repr by eauto. rewrite Hrec. rewrite <- Hnew.
  clear Hrun Hr Hr' Ha Hnew Hl Hev Hq Hf. split; [done|]. split; [done|].
  assert (root_published b (pd b) <> r0) as Hne.
  { intros Heq. apply (roots_differ ps b bdg r0 Hs). rewrite <- (setup_old _ _ _ _ Hs), <- Heq. done. }
  destruct Hl' as [r Hok| |n d|d r Hd Hok|d r why Hd Hok]; cbn in Hrec; simplify_eq;
    destruct Hok as (o & Ho & ->); cbn; (split; [done|]); (split; [done|]).
  - by destruct o.
  - by rewrite bool_decide_false.
  - by rewrite bool_decide_true.
Qed.

Lemma recover_existing os a f plan r : setup ps b bdg r0 -> legal b bdg a ->
  repr ps b bdg r0 a f -> a_recov a = Some r ->
  recover_bound_journal os ps b (mkWorld f plan) = (Ok r, mkWorld f plan).
Proof.
  intros Hs Hl Hr Hrec. unfold recover_bound_journal, sbind, lift, gets.
  rewrite (setup_valid _ _ _ _ Hs). cbn [fs].
  erewrite existing_recovery_repr by eauto. by rewrite Hrec.
Qed.

Lemma repr_paths a f f' : repr ps b bdg r0 a f -> repr ps b bdg r0 a f' ->
  Forall (fun p => f' !! p = f !! p) (all_paths ps).
Proof.
  intros (H1a & H2a & H3a & H4a & H5a & _) (H1b & H2b & H3b & H4b & H5b & _).
  unfold all_paths. rewrite !Forall_cons_iff. split_and!; congruence || constructor.
Qed.

(** A recovery receipt is the end of a transaction, and recovery is
    idempotent.  Once a receipt is persisted, no further history changes any
    of the five records, and every later [recover], even one with pending
    crashes or a failing disk, returns that same receipt and writes nothing. *)
Theorem recovery_idempotent (f0 f f' : FS) (r : RecoveryReceipt)
    (os : OsCall -> JournalBoundary -> bool) (plan : FaultPlan JournalBoundary) :
  setup ps b bdg r0 -> fresh ps r0 f0 -> evolves ps b f0 f ->
  existing_recovery ps (Some b) f = Ok (Some r) -> evolves ps b f f' ->
  Forall (fun p => f' !! p = f !! p) (all_paths ps) /\
  recover_bound_journal os ps b (mkWorld f' plan) = (Ok r, mkWorld f' plan).
Proof.
  intros Hs Hf Hev Hrec Hev'.
  destruct (fresh_refines ps b bdg r0 Hs f0 f Hf Hev) as (a & _ & Hl & Hr).
  erewrite existing_recovery_repr in Hrec by eauto. injection Hrec as Hrec.
  destruct (evolves_refines ps b bdg r0 Hs a f f' Hl Hr Hev') as (a' & Ha & Hr').
  destruct (reachable_extends _ _ _ _ Ha) as (_ & _ & _ & _ & Hfin).
  rewrite (Hfin r Hrec) in Hr'.
  split; [by eapply repr_paths | by eapply recover_existing].
Qed.

(** Outcomes are final.  Once the new root is published it stays
    published; once the journal is committed or aborted, the record and the
    root never change again, so an aborted transaction can never publish. *)
Theorem outcome_final (f0 f f' : FS) (root : RootPublicationReceipt) :
  setup ps b bdg r0 -> fresh ps r0 f0 -> evolves ps b f0 f -> evolves ps b f f' ->
  read_root ps f = Ok root ->
  (root = root_published b (pd b) -> read_root ps f' = Ok root) /\
  (forall j, read_journal ps f = Ok j -> is_terminal (jr_state (value j)) = true ->
     read_journal ps f' = Ok j /\ read_root ps f' = Ok root).
Proof.
  intros Hs Hf Hev Hev' Hroot.
  destruct (fresh_refines ps b bdg r0 Hs f0 f Hf Hev) as (a & _ & Hl & Hr).
  destruct (evolves_refines ps b bdg r0 Hs a f f' Hl Hr Hev') as (a' & Ha & Hr').
  destruct (observe a f Hs Hr) as [Ho1 Ho2], (observe a' f' Hs Hr') as [-> ->].
  rewrite Ho1 in Hroot. injection Hroot as <-. rewrite Ho2. clear Ho1 Ho2 Hr Hr' Hev Hev' Hf.
  destruct (reachable_extends _ _ _ _ Ha) as (Hnew & Hcom & Hab & _). split.
  - intros Heq. f_equal. destruct (a_new a) eqn:Hn; [by rewrite Hnew|].
    destruct (roots_differ ps b bdg r0 Hs). rewrite <- (setup_old _ _ _ _ Hs). cbn in Heq. by rewrite Heq.
  - intros j Hj Hterm. destruct Hl; cbn in *; simplify_eq.
    + by rewrite Hcom, Hnew by done.
    + by destruct (Hab why eq_refl) as [-> ->].
Qed.

(** An undisturbed transaction commits.  From a fresh transaction whose
    lease has not expired, with no failure, [prepare] returns the cartridge,
    [commit] with that cartridge returns a receipt for the new root, the new
    root is published and read-side verification accepts the commit with the
    same receipt. *)
Theorem prepare_commit_succeeds (f0 : FS) (now : N) (os : OsCall -> JournalBoundary -> bool)
    (plan : FaultPlan JournalBoundary) :
  setup ps b bdg r0 -> fresh ps r0 f0 -> quiet os plan -> lease_expired b now = false ->
  exists cart w1 receipt w2,
    prepare_bound_journal os ps b now (mkWorld f0 plan) = (Ok cart, w1) /\
    commit_bound_journal os ps cart w1 = (Ok receipt, w2) /\
    read_root ps (fs w2) = Ok (root_published b (pd b)) /\
    verify_committed_binding ps b (fs w2) = Ok receipt /\
    rr_observed_root receipt = new_root b.
Proof.
  intros Hs Hf Hq Hlease.
  destruct (quiet_run _ os f0 plan init _ _ Hq
    (prepare_refines ps b bdg r0 Hs os (quiet os plan) now init f0 (legal_init b bdg) (fresh_repr ps b bdg r0 f0 Hf)))
    as (cart & [f1 plan1] & a1 & Hrun1 & Ha1 & Hr1 & (-> & _ & Hp1) & Hq1).
  { intros e a' Herr. by apply Herr; [left|]. }
  pose proof (legal_reachable _ _ _ _ (legal_init b bdg) Ha1) as Hl1.
  assert (a_recov a1 = None) as Hrec1 by (by destruct Hl1).
  destruct (quiet_run _ os f1 plan1 a1 _ _ Hq1
    (commit_refines ps b bdg r0 Hs os (quiet os plan1) (cart0 b bdg) a1 f1 Hl1 Hr1))
    as (r & w2 & a2 & Hrun2 & Ha2 & Hr2 & (Hrec2 & Hp2) & _).
  { intros e a' Herr. apply Herr; by auto. }
  specialize (Hp2 Hrec1). pose proof (legal_reachable _ _ _ _ Hl1 Ha2) as Hl2.
  exists (cart0 b bdg), (mkWorld f1 plan1), r, w2.
  destruct (observe a2 (fs w2) Hs Hr2) as [Hroot Hj]. rewrite Hp2 in Hj.
  split; [done|]. split; [done|].
  unfold verify_committed_binding. rewrite (setup_valid _ _ _ _ Hs), Hj, Hroot. cbn.
  rewrite (record_validate_ok ps b bdg r0 Hs IsCommitted), (setup_digest _ _ _ _ Hs) by done. cbn.
  rewrite (bool_decide_true (bdg = bdg)) by done. cbn.
  erewrite existing_recovery_repr by eauto. rewrite Hrec2.
  destruct Hl2 as [| | |d x Hd Hok|]; try done. cbn in Hrec2. subst x.
  by destruct Hok as (o & _ & ->).
Qed.

(** [prepare] is a compare-and-swap on the parent root behind a lease
    gate.  With an expired lease, or when the published root is not the
    binding's old root, it refuses with the corresponding code and neither
    writes nor consumes a fault, whatever else is on disk. *)
Theorem prepare_refuses (now : N) (os : OsCall -> JournalBoundary -> bool) (w : JournalWorld)
    (root : RootPublicationReceipt) :
  binding_validate b = Ok () -> read_root ps (fs w) = Ok root ->
  lease_expired b now = true \/ rp_root_digest root <> old_root b ->
  prepare_bound_journal os ps b now w =
    (Err (jerr (if lease_expired b now then LeaseExpired else RootMismatch)), w).
Proof.
  intros Hv Hroot Hor. unfold prepare_bound_journal, sbind, lift, gets, throw. rewrite Hv.
  destruct (lease_expired b now); [done|]. destruct Hor as [|Hne]; [done|].
  rewrite Hroot. by rewrite bool_decide_false.
Qed.
End Guarantees.
