(* ===== verification/FixedCodec.v ===== *)
(** Fixed-width codecs.  A record whose fields have known widths is encoded by
    concatenation and decoded by cutting at those widths.  The journals'
    theorems assume only the laws of [DurableStore.CodecOk]; these codecs show
    the laws are met by executable functions and drive the concrete examples. *)

From S2P Require Import Prelude.
From S2P Require Import DurableStore.

Fixpoint cut (ws : list nat) (b : bytes) : list bytes :=
  match ws with
  | [] => []
  | w :: ws' => take w b :: cut ws' (drop w b)
  end.

Lemma cut_concat (fields : list bytes) : cut (length <$> fields) (concat fields) = fields.
Proof.
  induction fields as [|x fields IH]; cbn; [done|].
  by rewrite take_app_length, drop_app_length, IH.
Qed.

Class Fields (T : Type) := {
  widths : list nat;
  to_fields : T -> list bytes;
  of_fields : list bytes -> option T }.
Global Arguments widths T {_}.

Class FieldsOk (T : Type) `{Fields T, Wf T} := {
  widths_small : (N.of_nat (sum_list (widths T)) <= MAX_RECORD_BYTES)%N;
  to_fields_widths : forall x : T, wf x -> length <$> to_fields x = widths T;
  of_to_fields : forall x : T, wf x -> of_fields (to_fields x) = Some x }.

Definition fixed_codec {T} `{Fields T} : Codec T := {|
  encode := fun x => concat (to_fields x);
  decode := fun b => of_fields (cut (widths T) b) |}.

Lemma length_concat_fields (fields : list bytes) :
  length (concat fields) = sum_list (length <$> fields).
Proof. induction fields as [|x fields IH]; cbn; [done|]. by rewrite length_app, IH. Qed.

Lemma fixed_codec_ok {T} `{Fields T, Wf T, !FieldsOk T} : @CodecOk T fixed_codec _.
Proof.
  split; intros x Hx; cbn.
  - by rewrite <- (to_fields_widths x Hx), cut_concat, of_to_fields.
  - unfold len. rewrite length_concat_fields, to_fields_widths by done. apply widths_small.
Qed.

(** * Field encodings *)

Definition u16_field (n : N) : bytes := to_be 2 n.
Definition u64_field (n : N) : bytes := to_be 8 n.

(** An enumeration as the index of its value among all values, one byte. *)
Definition enum_field {A} `{EqDecision A} (all : list A) (x : A) : bytes :=
  [ascii_of_nat (match list_find (fun y => x = y) all with Some (i, _) => i | None => 0 end)].
Definition enum_of {A} (all : list A) (b : bytes) : option A :=
  match b with [c] => all !! nat_of_ascii c | _ => None end.

Definition bool_field (x : bool) : bytes := enum_field [false; true] x.
Definition bool_of : bytes -> option bool := enum_of [false; true].

Definition is_some {A} (o : option A) : bool := match o with Some _ => true | None => false end.

(** An optional digest: a presence byte and 32 bytes. *)
Definition digest_opt_field (o : option Digest) : bytes := default ZERO o.
Definition digest_opt_of (tag d : bytes) : option (option Digest) :=
  (fun present : bool => if present then Some d else None) <$> bool_of tag.

(** An optional [u64]: a presence byte and eight bytes. *)
Definition u64_opt_field (o : option N) : bytes := u64_field (default 0%N o).
Definition u64_opt_of (tag t : bytes) : option (option N) :=
  (fun present : bool => if present then Some (of_be t) else None) <$> bool_of tag.

Lemma u16_of_field (n : N) : u16_wf n -> of_be (u16_field n) = n.
Proof. intros Hn. apply of_be_to_be. unfold u16_wf, U16_MAX in Hn. cbn. lia. Qed.

Lemma u64_of_field (n : N) : u64_wf n -> of_be (u64_field n) = n.
Proof. intros Hn. apply of_be_to_be. unfold u64_wf, U64_MAX in Hn. cbn. lia. Qed.

Lemma length_u16_field (n : N) : length (u16_field n) = 2.
Proof. apply length_to_be. Qed.

Lemma length_u64_field (n : N) : length (u64_field n) = 8.
Proof. apply length_to_be. Qed.

Lemma length_enum_field {A} `{EqDecision A} (all : list A) x : length (enum_field all x) = 1.
Proof. done. Qed.

Lemma length_bool_field (x : bool) : length (bool_field x) = 1.
Proof. by destruct x. Qed.

Lemma bool_of_field (x : bool) : bool_of (bool_field x) = Some x.
Proof. by destruct x. Qed.

Lemma digest_opt_of_field (o : option Digest) :
  digest_opt_of (bool_field (is_some o)) (digest_opt_field o) = Some o.
Proof. unfold digest_opt_of. rewrite bool_of_field. by destruct o. Qed.

Lemma length_digest_opt (o : option Digest) : option_wf digest_wf o -> length (digest_opt_field o) = 32.
Proof. by destruct o. Qed.

Lemma u64_opt_of_field (o : option N) : option_wf u64_wf o ->
  u64_opt_of (bool_field (is_some o)) (u64_opt_field o) = Some o.
Proof.
  intros Ho. unfold u64_opt_of. rewrite bool_of_field. destruct o as [t|]; [|done].
  change (u64_opt_field (Some t)) with (u64_field t). by rewrite u64_of_field.
Qed.

#[global] Opaque u16_field u64_field enum_field enum_of bool_field bool_of.
