(* ===== verification/DurableWitness.v ===== *)
(** The durable journal on a concrete platform: fixed-width codecs for its
    records, a five-term binding and a fresh store, on which each guarantee of
    [DurableTheorems] is exercised. *)

From S2P Require Import Prelude.
From S2P Require Zbf.
From S2P Require Import DurableStore.
From S2P Require Import DurableJournal.
From S2P Require Import DurableProtocol.
From S2P Require Import DurableTheorems.
From S2P Require Import FixedCodec.

Definition all_profiles : list DurableProfileId :=
  [Zbf.PortableStrict; Zbf.ApfsStrict; Zbf.Ext4XfsStrict; Zbf.NtfsStrict].
Definition all_states : list JournalState := [Prepared; Committed; Aborted].
Definition all_reasons : list (option AbortReason) :=
  [None; Some ExplicitAbort; Some RecoveryObservedOldRoot; Some OwnerDeathObservedOldRoot].
Definition all_outcomes : list RecoveryOutcome :=
  [NotStartedOldRoot; OldRootAborted; NewRootCommitted; AlreadyCommitted; AlreadyAborted].
Definition all_codes : list JournalFailureCode :=
  [SchemaVersionMismatch; InvalidBinding; ProfileSubstitution; JournalMissing; RootMissing;
   TornOrNoncanonicalRecord; RecordTooLarge; CartridgeMismatch; OwnerIdentityMismatch;
   SequenceMismatch; RootMismatch; JournalRootDisagreement; AlreadyTerminal; LeaseExpired;
   ImmutableReceiptConflict; IoBeforePublish; DirectorySyncFailedAfterPublish; InjectedCrash;
   OwnerDeath; Indeterminate].
Definition all_opt_codes : list (option JournalFailureCode) := None :: (Some <$> all_codes).

(** * Fields of the records *)

#[global] Instance lease_binding_fields : Fields JournalLeaseBinding := {|
  widths := [2; 32; 32; 1; 32; 32; 32; 32; 32; 32; 2; 32; 8; 8];
  to_fields := fun b =>
    [u16_field (lb_schema_version b); lb_transaction_id b; lb_assembly_manifest_digest b;
     enum_field all_profiles (lb_durable_profile_id b); lb_durable_profile_digest b;
     lb_old_root b; lb_new_root b; lb_owner_identity_digest b; lb_nonce b; lb_protected_scope b;
     u16_field (bl_schema_version (lb_lease b)); bl_lease_id (lb_lease b);
     u64_field (bl_epoch (lb_lease b)); u64_field (bl_expires_at_unix_ns (lb_lease b))];
  of_fields := fun fields =>
    match fields with
    | [v; tx; asm; prof; pdg; old; new; owner; nonce; scope; lv; lid; ep; ex] =>
        (fun p => mkLeaseBinding (of_be v) tx asm p pdg old new owner nonce scope
                    (mkLease (of_be lv) lid (of_be ep) (of_be ex))) <$> enum_of all_profiles prof
    | _ => None
    end |}.

#[global] Instance root_fields : Fields RootPublicationReceipt := {|
  widths := [2; 32; 32; 8; 32];
  to_fields := fun r =>
    [u16_field (rp_schema_version r); rp_transaction_id r; rp_root_digest r;
     u64_field (rp_generation r); rp_prepared_record_digest r];
  of_fields := fun fields =>
    match fields with
    | [v; tx; root; g; p] => Some (mkRoot (of_be v) tx root (of_be g) p)
    | _ => None
    end |}.

#[global] Instance cartridge_fields {B} : Fields (ContinuationCartridgeRecord B) := {|
  widths := [2; 32; 32; 32; 32; 32; 32; 32];
  to_fields := fun c =>
    [u16_field (cc_schema_version c); cc_binding_digest c; cc_prepared_record_digest c;
     cc_transaction_id c; cc_old_root c; cc_new_root c; cc_durable_profile_digest c;
     cc_owner_identity_digest c];
  of_fields := fun fields =>
    match fields with
    | [v; d1; d2; d3; d4; d5; d6; d7] => Some (mkCartridge (of_be v) d1 d2 d3 d4 d5 d6 d7)
    | _ => None
    end |}.

#[global] Instance death_fields : Fields OwnerDeathReceipt := {|
  widths := [2; 32; 32; 32; 1; 32; 8; 1; 1];
  to_fields := fun d =>
    [u16_field (od_schema_version d); od_binding_digest d; od_prepared_record_digest d;
     od_owner_identity_digest d; enum_field all_states (od_observed_journal_state d);
     od_observed_root d; u64_field (od_observed_at_unix_ns d);
     enum_field all_codes (od_failure_code d); bool_field (od_recovery_required d)];
  of_fields := fun fields =>
    match fields with
    | [v; d1; d2; d3; st; d4; t; c; req] =>
        st ← enum_of all_states st; c ← enum_of all_codes c; req ← bool_of req;
        Some (mkDeath (of_be v) d1 d2 d3 st d4 (of_be t) c req)
    | _ => None
    end |}.

#[global] Instance receipt_fields : Fields RecoveryReceipt := {|
  widths := [2; 32; 32; 1; 32; 1; 32; 32; 1; 1; 1; 1];
  to_fields := fun r =>
    [u16_field (rr_schema_version r); rr_binding_digest r; rr_prepared_record_digest r;
     bool_field (is_some (rr_terminal_record_digest r));
     digest_opt_field (rr_terminal_record_digest r);
     bool_field (is_some (rr_owner_death_receipt_digest r));
     digest_opt_field (rr_owner_death_receipt_digest r);
     rr_observed_root r; enum_field all_outcomes (rr_outcome r);
     bool_field (rr_journal_root_correspondence r); bool_field (rr_promotable r);
     enum_field all_opt_codes (rr_failure_code r)];
  of_fields := fun fields =>
    match fields with
    | [v; d1; d2; t1; x1; t2; x2; root; o; c; p; e] =>
        term ← digest_opt_of t1 x1; owner ← digest_opt_of t2 x2; o ← enum_of all_outcomes o;
        c ← bool_of c; p ← bool_of p; e ← enum_of all_opt_codes e;
        Some (mkReceipt (of_be v) d1 d2 term owner root o c p e)
    | _ => None
    end |}.

#[global] Instance record_fields : Fields (DurableJournalRecord JournalLeaseBinding) := {|
  widths := [2; 1; 8; 1; 32; 1] ++ widths JournalLeaseBinding;
  to_fields := fun r =>
    [u16_field (jr_schema_version r); enum_field all_states (jr_state r); u64_field (jr_sequence r);
     bool_field (is_some (jr_predecessor_record_digest r));
     digest_opt_field (jr_predecessor_record_digest r);
     enum_field all_reasons (jr_abort_reason r)] ++ to_fields (jr_binding r);
  of_fields := fun fields =>
    match fields with
    | v :: st :: n :: t :: x :: why :: rest =>
        st ← enum_of all_states st; pred ← digest_opt_of t x; why ← enum_of all_reasons why;
        b ← of_fields rest; Some (mkRecord (of_be v) b st (of_be n) pred why)
    | _ => None
    end |}.

Lemma profile_of_field x : enum_of all_profiles (enum_field all_profiles x) = Some x.
Proof. Transparent enum_of enum_field. by destruct x. Qed.
Lemma state_of_field x : enum_of all_states (enum_field all_states x) = Some x.
Proof. by destruct x. Qed.
Lemma reason_of_field x : enum_of all_reasons (enum_field all_reasons x) = Some x.
Proof. by destruct x as [[]|]. Qed.
Lemma outcome_of_field x : enum_of all_outcomes (enum_field all_outcomes x) = Some x.
Proof. by destruct x. Qed.
Lemma code_of_field x : enum_of all_codes (enum_field all_codes x) = Some x.
Proof. by destruct x. Qed.
Lemma opt_code_of_field x : enum_of all_opt_codes (enum_field all_opt_codes x) = Some x.
Proof. by destruct x as [[]|]. Qed.
#[global] Opaque enum_of enum_field.

(** Solve the two field laws of a record whose well-formedness is in [Hx]. *)
Ltac field_rewrites :=
  unfold digest_wf in *;
  repeat (rewrite ?length_u16_field, ?length_u64_field, ?length_enum_field, ?length_bool_field,
    ?bool_of_field, ?profile_of_field, ?state_of_field, ?reason_of_field, ?outcome_of_field,
    ?code_of_field, ?opt_code_of_field, ?digest_opt_of_field;
    rewrite ?u16_of_field, ?u64_of_field, ?length_digest_opt by done; cbn).

Ltac fields_ok :=
  split; [by vm_compute | intros x Hx; destruct x; hnf in Hx; cbn in Hx |- *;
                          rewrite ?Forall_cons_iff in Hx; destruct_and? Hx; field_rewrites ..];
  try congruence.

#[global] Instance root_fields_ok : FieldsOk RootPublicationReceipt.
Proof. fields_ok. Qed.

#[global] Instance cartridge_fields_ok {B} : FieldsOk (ContinuationCartridgeRecord B).
Proof. fields_ok. Qed.

#[global] Instance death_fields_ok : FieldsOk OwnerDeathReceipt.
Proof. fields_ok. Qed.

#[global] Instance receipt_fields_ok : FieldsOk RecoveryReceipt.
Proof. fields_ok. Qed.

#[global] Instance lease_binding_fields_ok : FieldsOk JournalLeaseBinding.
Proof.
  split; [by vm_compute | intros [? ? ? prof ? ? ? ? ? ? []] Hx; hnf in Hx; unfold lease_wf in Hx;
    cbn in Hx |- *; rewrite ?Forall_cons_iff in Hx; destruct_and? Hx; field_rewrites ..]; congruence.
Qed.

#[global] Instance record_fields_ok : FieldsOk (DurableJournalRecord JournalLeaseBinding).
Proof.
  split; [by vm_compute | intros [v b st n pred why] (Hv & Hb & Hn & Hp); cbn in Hv, Hb, Hn, Hp ..].
  - cbn [to_fields widths record_fields jr_schema_version jr_state jr_sequence
      jr_predecessor_record_digest jr_abort_reason jr_binding].
    rewrite fmap_app, to_fields_widths by done. f_equal. cbn. by field_rewrites.
  - cbn [to_fields of_fields record_fields jr_schema_version jr_state jr_sequence
      jr_predecessor_record_digest jr_abort_reason jr_binding app].
    rewrite state_of_field, digest_opt_of_field, reason_of_field, of_to_fields by done. cbn.
    by rewrite u16_of_field, u64_of_field.
Qed.

(** * A concrete transaction

    The hash is constant: the guarantees hold for any function onto 32-byte
    digests that avoids the reserved zero digest on the transaction's own
    records. *)

Module Toy.
Definition letter (c : ascii) : Digest := replicate 32 c.

#[global] Instance platform : Platform := {|
  sha256 := fun _ => letter "h"; json_string := fun s => s |}.
#[global] Instance platform_ok : PlatformOk.
Proof. by intros m. Qed.

#[global] Instance binding_codec : Codec JournalLeaseBinding := fixed_codec.
#[global] Instance binding_codec_ok : CodecOk JournalLeaseBinding := fixed_codec_ok.
#[global] Instance codecs : JournalCodecs JournalLeaseBinding := {|
  root_codec := fixed_codec; journal_codec := fixed_codec; cartridge_codec := fixed_codec;
  death_codec := fixed_codec; recovery_codec := fixed_codec |}.
#[global] Instance codecs_ok : JournalCodecsOk JournalLeaseBinding.
Proof. split; apply fixed_codec_ok. Qed.

Definition dir (s : string) : Path := [RootDir; Normal "journal"; Normal s].
Definition ps : JournalPaths :=
  mkPaths (dir "root") (dir "record") (dir "cartridge") (dir "death") (dir "recovery").

Definition b : JournalLeaseBinding :=
  JournalLeaseBinding_new (letter "t") (letter "a") Zbf.PortableStrict (letter "o") (letter "n")
    (letter "w") (letter "c") (letter "s") (BindingLease_new (letter "l") 7 1000).
Definition r0 : RootPublicationReceipt :=
  mkRoot DURABLE_RECEIPT_SCHEMA_VERSION ZERO (letter "o") 0 ZERO.
Definition f0 : FS := {[ root_record ps := Regular (encode r0) ]}.
Definition never : OsCall -> JournalBoundary -> bool := fun _ _ => false.

Lemma setup_ok : setup ps b (letter "h") r0.
Proof.
  split; try reflexivity; try discriminate.
  - split_and!; [by vm_compute | repeat constructor | repeat constructor; by vm_compute].
  - split_and!; [by vm_compute | by vm_compute | repeat constructor].
Qed.

Lemma fresh_ok : fresh ps r0 f0.
Proof. split_and!; [apply lookup_singleton_eq | ..]; apply lookup_singleton_ne; discriminate. Qed.

Lemma quiet_ok : quiet never FaultPlan_none.
Proof. split; [done | by right]. Qed.

(** A prepare that crashes after its cartridge is on disk. *)
Definition crashed : FS :=
  fs (run ps b never (OpPrepare 5) (mkWorld f0 (FaultPlan_crash_at PrepareBeforeWrite))).

Lemma crashed_evolves : evolves ps b f0 crashed.
Proof. apply evolves_op; [done | constructor]. Qed.

Lemma publication_law_witness :
  evolves ps b f0 crashed /\
  exists root, read_root ps crashed = Ok root /\ (root = r0 \/ root = root_published b (pd b)).
Proof.
  split; [apply crashed_evolves|].
  destruct (publication_law ps b (letter "h") r0 f0 crashed setup_ok fresh_ok crashed_evolves)
    as (root & Hr & Hor & _).
  exists root. split; assumption.
Defined.

Lemma recovery_total_witness :
  exists receipt w', recover_bound_journal never ps b (mkWorld crashed FaultPlan_none) = (Ok receipt, w').
Proof.
  destruct (recovery_total ps b (letter "h") r0 f0 crashed never FaultPlan_none
              setup_ok fresh_ok crashed_evolves quiet_ok) as (x & w' & root & Hrun & _).
  exists x, w'. exact Hrun.
Defined.

(** The store after the calm recovery of [crashed]. *)
Definition settled : FS := fs (snd (recover_bound_journal never ps b (mkWorld crashed FaultPlan_none))).

Lemma settled_evolves : evolves ps b crashed settled.
Proof. apply (evolves_op ps b crashed crashed never OpRecover FaultPlan_none); [done | constructor]. Qed.

Lemma settled_from_start : evolves ps b f0 settled.
Proof. apply (evolves_op ps b f0 crashed never OpRecover FaultPlan_none); [done | apply crashed_evolves]. Qed.

(** A calm recovery of [crashed] persists its receipt. *)
Lemma settled_receipt : exists receipt, existing_recovery ps (Some b) settled = Ok (Some receipt).
Proof.
  destruct (fresh_refines ps b (letter "h") r0 setup_ok f0 crashed fresh_ok crashed_evolves)
    as (a & _ & Hl & Hr).
  destruct (quiet_run ps b (letter "h") r0 _ never crashed FaultPlan_none a _ _ quiet_ok
    (recover_refines ps b (letter "h") r0 setup_ok never _ a crashed Hl Hr))
    as (x & w' & a' & Hrun & Ha & Hr' & (Hrec & _) & _); [intros ? ? [? _]; contradiction|].
  exists x. unfold settled. rewrite Hrun, <- Hrec.
  eapply existing_recovery_repr; eauto using setup_ok, legal_reachable.
Qed.

Lemma recovery_idempotent_witness : exists receipt,
  recover_bound_journal (fun _ _ => true) ps b (mkWorld settled (FaultPlan_crash_at AbortBeforeWrite)) =
    (Ok receipt, mkWorld settled (FaultPlan_crash_at AbortBeforeWrite)).
Proof.
  destruct settled_receipt as [x Hx]. exists x.
  exact (proj2 (recovery_idempotent ps b (letter "h") r0 f0 settled settled x (fun _ _ => true)
    (FaultPlan_crash_at AbortBeforeWrite) setup_ok fresh_ok settled_from_start Hx
    (evolves_refl ps b settled))).
Defined.

Lemma root_readable f : evolves ps b f0 f -> exists root, read_root ps f = Ok root.
Proof.
  intros Hev.
  destruct (fresh_refines ps b (letter "h") r0 setup_ok f0 f fresh_ok Hev) as (a & _ & _ & Hr).
  eexists. exact (proj1 (observe ps b (letter "h") r0 a f setup_ok Hr)).
Qed.

Lemma outcome_final_witness : exists root, read_root ps crashed = Ok root /\
  (root = root_published b (pd b) -> read_root ps settled = Ok root).
Proof.
  destruct (root_readable crashed crashed_evolves) as [root Hroot]. exists root. split; [exact Hroot|].
  exact (proj1 (outcome_final ps b (letter "h") r0 f0 crashed settled root setup_ok fresh_ok
    crashed_evolves settled_evolves Hroot)).
Defined.

Lemma prepare_commit_succeeds_witness : exists cart w1 receipt w2,
  prepare_bound_journal never ps b 5 (mkWorld f0 FaultPlan_none) = (Ok cart, w1) /\
  commit_bound_journal never ps cart w1 = (Ok receipt, w2) /\
  read_root ps (fs w2) = Ok (root_published b (pd b)) /\
  verify_committed_binding ps b (fs w2) = Ok receipt /\
  rr_observed_root receipt = new_root b.
Proof.
  exact (prepare_commit_succeeds ps b (letter "h") r0 f0 5 never FaultPlan_none
    setup_ok fresh_ok quiet_ok eq_refl).
Defined.

Lemma prepare_refuses_witness :
  prepare_bound_journal never ps b 1000 (mkWorld f0 FaultPlan_none) =
    (Err (jerr LeaseExpired), mkWorld f0 FaultPlan_none).
Proof.
  destruct (root_readable f0 (evolves_refl ps b f0)) as [root Hroot].
  exact (prepare_refuses ps b 1000 never (mkWorld f0 FaultPlan_none) root
    (setup_valid _ _ _ _ setup_ok) Hroot (or_introl eq_refl)).
Defined.
End Toy.
