(* ===== verification/AttemptJournal.v ===== *)
(** The per-effect attempt journal of zero-store ([attempt_journal.rs]): one
    directory holds the write-once entries [attempt-<n>.json] of a single
    effect attempt, from admission through the dispatch boundary to one
    terminal outcome.  Every write goes through
    [DurableStore.durable_replace_core].

    [Panic] stands for the places where the source would panic (an index out
    of range, [expect] on a missing value, [unreachable!]). *)

From stdpp Require Import pretty.
From S2P Require Import Prelude.
From S2P Require Zbf.
From S2P Require Import DurableStore.

Notation DurableProfileId := Zbf.DurableProfileId.

Definition ATTEMPT_JOURNAL_SCHEMA_VERSION : N := 1.
Definition ATTEMPT_BINDING_SCHEMA_VERSION : N := 1.
Definition ATTEMPT_RECEIPT_SCHEMA_VERSION : N := 1.
Definition ATTEMPT_JOURNAL_MAX_ENTRIES : N := 8.

Definition ATTEMPT_BINDING_DOMAIN : bytes := string_bytes "zerostack.attempt_journal.binding" ++ [byte0].
Definition ATTEMPT_ENTRY_DOMAIN : bytes := string_bytes "zerostack.attempt_journal.entry" ++ [byte0].

(** * States and codes *)

Inductive AttemptState :=
| Prepared | DispatchCrossed | Succeeded | Failed | Indeterminate | SafeToRetry | Aborted.

Definition is_terminal (s : AttemptState) : bool :=
  match s with
  | Succeeded | Failed | Indeterminate | SafeToRetry | Aborted => true
  | Prepared | DispatchCrossed => false
  end.

Definition is_valid_transition (from to : AttemptState) : bool :=
  match from, to with
  | Prepared, DispatchCrossed | Prepared, Aborted | Prepared, SafeToRetry
  | DispatchCrossed, Succeeded | DispatchCrossed, Failed | DispatchCrossed, Indeterminate => true
  | _, _ => false
  end.

Inductive AttemptAbortReason := ExplicitAbort.

Inductive AttemptRecoveryOutcome :=
| AlreadySucceeded | AlreadyFailed | AlreadyIndeterminate | AlreadySafeToRetry | AlreadyAborted
| ClassifiedSucceeded | ClassifiedFailed | ClassifiedIndeterminate | ClassifiedSafeToRetry.

Inductive AttemptFailureCode :=
| SchemaVersionMismatch | InvalidBinding | ProfileSubstitution | JournalMissing | EntryMissing
| TornOrNoncanonicalRecord | RecordTooLarge | TooManyEntries | SequenceMismatch
| InvalidTransition | InvalidEvidence | ReceiptMismatch | ImmutableEntryConflict
| AlreadyTerminal | IoBeforePublish | DirectorySyncFailedAfterPublish | InjectedCrash.

(** A typed failure of the source, or a panic. *)
Inductive Failure := Typed (c : AttemptFailureCode) | Panic.

Inductive AttemptBoundary :=
| PrepareBeforeWrite | PrepareAfterFileSync
| PrepareAfterRename | PrepareAfterDirectorySync
| DispatchCrossBeforeWrite | DispatchCrossAfterFileSync
| DispatchCrossAfterRename | DispatchCrossAfterDirectorySync
| SucceedBeforeWrite | SucceedAfterFileSync
| SucceedAfterRename | SucceedAfterDirectorySync
| FailBeforeWrite | FailAfterFileSync
| FailAfterRename | FailAfterDirectorySync
| IndeterminateBeforeWrite | IndeterminateAfterFileSync
| IndeterminateAfterRename | IndeterminateAfterDirectorySync
| AbortBeforeWrite | AbortAfterFileSync
| AbortAfterRename | AbortAfterDirectorySync
| RecoverBeforeWrite | RecoverAfterFileSync
| RecoverAfterRename | RecoverAfterDirectorySync.

Inductive EffectClass := ReadOnly | ReversibleMutation | ApprovalRequiredMutation | Irreversible.

#[global] Instance AttemptState_eq_dec : EqDecision AttemptState.
Proof. solve_decision. Defined.
#[global] Instance AttemptAbortReason_eq_dec : EqDecision AttemptAbortReason.
Proof. solve_decision. Defined.
#[global] Instance AttemptRecoveryOutcome_eq_dec : EqDecision AttemptRecoveryOutcome.
Proof. solve_decision. Defined.
#[global] Instance AttemptFailureCode_eq_dec : EqDecision AttemptFailureCode.
Proof. solve_decision. Defined.
#[global] Instance Failure_eq_dec : EqDecision Failure.
Proof. solve_decision. Defined.
#[global] Instance AttemptBoundary_eq_dec : EqDecision AttemptBoundary.
Proof. solve_decision. Defined.
#[global] Instance EffectClass_eq_dec : EqDecision EffectClass.
Proof. solve_decision. Defined.

#[global] Instance attempt_codes : FailureCodes Failure := {|
  c_invalid_binding := Typed InvalidBinding;
  c_torn := Typed TornOrNoncanonicalRecord;
  c_too_large := Typed RecordTooLarge;
  c_conflict := Typed ImmutableEntryConflict;
  c_io := Typed IoBeforePublish;
  c_dir_sync := Typed DirectorySyncFailedAfterPublish;
  c_crash := Typed InjectedCrash |}.

Notation AttemptJournalError := (Error Failure AttemptBoundary).
Notation AttemptWorld := (World AttemptBoundary).
Notation AttemptM := (M AttemptJournalError AttemptWorld).

(** [AttemptJournalError::new]. *)
Definition aerr (c : AttemptFailureCode) : AttemptJournalError := error_new (Typed c).
Definition panic : AttemptJournalError := error_new Panic.

Definition PREPARE_BOUNDARIES := mkBoundaries PrepareBeforeWrite PrepareAfterFileSync
  PrepareAfterRename PrepareAfterDirectorySync.
Definition DISPATCH_CROSS_BOUNDARIES := mkBoundaries DispatchCrossBeforeWrite DispatchCrossAfterFileSync
  DispatchCrossAfterRename DispatchCrossAfterDirectorySync.
Definition SUCCEED_BOUNDARIES := mkBoundaries SucceedBeforeWrite SucceedAfterFileSync
  SucceedAfterRename SucceedAfterDirectorySync.
Definition FAIL_BOUNDARIES := mkBoundaries FailBeforeWrite FailAfterFileSync
  FailAfterRename FailAfterDirectorySync.
Definition INDETERMINATE_BOUNDARIES := mkBoundaries IndeterminateBeforeWrite IndeterminateAfterFileSync
  IndeterminateAfterRename IndeterminateAfterDirectorySync.
Definition ABORT_BOUNDARIES := mkBoundaries AbortBeforeWrite AbortAfterFileSync
  AbortAfterRename AbortAfterDirectorySync.
Definition RECOVER_BOUNDARIES := mkBoundaries RecoverBeforeWrite RecoverAfterFileSync
  RecoverAfterRename RecoverAfterDirectorySync.

(** * Paths *)

Record AttemptJournalPaths := mkAttemptPaths { directory : Path }.

Definition AttemptJournalPaths_new (dir : Path) : result AttemptJournalError AttemptJournalPaths :=
  reject? bool_decide (dir = []) || bool_decide (file_name dir = None) with aerr InvalidBinding in
  Ok (mkAttemptPaths dir).

Definition entry_path (p : AttemptJournalPaths) (sequence : N) : Path :=
  directory p ++ [Normal ("attempt-" +:+ pretty sequence +:+ ".json")].

(** * Bindings, evidence, entries, receipts *)

Record AttemptBinding := mkAttemptBinding {
  ab_schema_version : N;
  ab_attempt_id : Digest;
  ab_effect_digest : Digest;
  ab_effect_class : EffectClass;
  ab_admission_anchor_digest : Digest;
  ab_durable_profile_id : DurableProfileId;
  ab_durable_profile_digest : Digest;
  ab_owner_identity_digest : Digest }.

Inductive AttemptEvidence :=
| Completion (receipt_digest : Digest) (observed_at_unix_ns : N)
| Failure_evidence (failure_receipt_digest : Digest) (observed_at_unix_ns : N).

Record AttemptEntry := mkEntry {
  ae_schema_version : N;
  ae_binding : AttemptBinding;
  ae_state : AttemptState;
  ae_sequence : N;
  ae_predecessor_entry_digest : option Digest;
  ae_crossed_at_unix_ns : option N;
  ae_abort_reason : option AttemptAbortReason;
  ae_evidence : option AttemptEvidence }.

Record AttemptRecoveryReceipt := mkAttemptReceipt {
  ar_schema_version : N;
  ar_binding_digest : Digest;
  ar_outcome : AttemptRecoveryOutcome;
  ar_terminal_entry_digest : Digest;
  ar_terminal_state : AttemptState }.

#[global] Instance AttemptBinding_eq_dec : EqDecision AttemptBinding.
Proof. solve_decision. Defined.
#[global] Instance AttemptEvidence_eq_dec : EqDecision AttemptEvidence.
Proof. solve_decision. Defined.
#[global] Instance AttemptEntry_eq_dec : EqDecision AttemptEntry.
Proof. solve_decision. Defined.

Definition evidence_validate (ev : AttemptEvidence) : result AttemptJournalError () :=
  match ev with
  | Completion d _ => reject? bool_decide (d = ZERO) with aerr InvalidEvidence in Ok ()
  | Failure_evidence d _ => reject? bool_decide (d = ZERO) with aerr InvalidEvidence in Ok ()
  end.

Definition entry_prepared (b : AttemptBinding) (sequence : N) : AttemptEntry :=
  mkEntry ATTEMPT_JOURNAL_SCHEMA_VERSION b Prepared sequence None None None None.

Definition entry_dispatch_crossed (p : AttemptEntry) (d : Digest) (sequence crossed_at : N) : AttemptEntry :=
  mkEntry ATTEMPT_JOURNAL_SCHEMA_VERSION (ae_binding p) DispatchCrossed sequence (Some d)
    (Some crossed_at) None None.

Definition entry_succeeded (p : AttemptEntry) (d : Digest) (sequence : N) (ev : AttemptEvidence) : AttemptEntry :=
  mkEntry ATTEMPT_JOURNAL_SCHEMA_VERSION (ae_binding p) Succeeded sequence (Some d) None None (Some ev).

Definition entry_failed (p : AttemptEntry) (d : Digest) (sequence : N) (ev : AttemptEvidence) : AttemptEntry :=
  mkEntry ATTEMPT_JOURNAL_SCHEMA_VERSION (ae_binding p) Failed sequence (Some d) None None (Some ev).

Definition entry_indeterminate (p : AttemptEntry) (d : Digest) (sequence : N) : AttemptEntry :=
  mkEntry ATTEMPT_JOURNAL_SCHEMA_VERSION (ae_binding p) Indeterminate sequence (Some d) None None None.

Definition entry_safe_to_retry (p : AttemptEntry) (d : Digest) (sequence : N) : AttemptEntry :=
  mkEntry ATTEMPT_JOURNAL_SCHEMA_VERSION (ae_binding p) SafeToRetry sequence (Some d) None None None.

Definition entry_aborted (p : AttemptEntry) (d : Digest) (sequence : N) (reason : AttemptAbortReason) : AttemptEntry :=
  mkEntry ATTEMPT_JOURNAL_SCHEMA_VERSION (ae_binding p) Aborted sequence (Some d) None (Some reason) None.

(** [terminal_entry]; [None] where the source panics. *)
Definition terminal_entry (dispatch : AttemptEntry) (d : Digest) (sequence : N) (state : AttemptState)
    (ev : option AttemptEvidence) : option AttemptEntry :=
  match state with
  | Succeeded => entry_succeeded dispatch d sequence <$> ev
  | Failed => entry_failed dispatch d sequence <$> ev
  | Indeterminate => Some (entry_indeterminate dispatch d sequence)
  | _ => None
  end.

Definition receipt_paired (o : AttemptRecoveryOutcome) (s : AttemptState) : bool :=
  match o, s with
  | AlreadySucceeded, Succeeded | AlreadyFailed, Failed | AlreadyIndeterminate, Indeterminate
  | AlreadyAborted, Aborted | AlreadySafeToRetry, SafeToRetry
  | ClassifiedSucceeded, Succeeded | ClassifiedFailed, Failed
  | ClassifiedIndeterminate, Indeterminate | ClassifiedSafeToRetry, SafeToRetry => true
  | _, _ => false
  end.

Definition receipt_validate (r : AttemptRecoveryReceipt) : result AttemptJournalError () :=
  reject? negb (ar_schema_version r =? ATTEMPT_RECEIPT_SCHEMA_VERSION)%N
    with aerr SchemaVersionMismatch in
  reject? bool_decide (ar_binding_digest r = ZERO) || bool_decide (ar_terminal_entry_digest r = ZERO)
       || negb (is_terminal (ar_terminal_state r))
    with aerr InvalidBinding in
  reject? negb (receipt_paired (ar_outcome r) (ar_terminal_state r)) with aerr InvalidBinding in
  Ok ().

Section Attempt.
Context `{Platform} `{Codec AttemptBinding, Codec AttemptEntry}.

Definition profile_digest (id : DurableProfileId) : Digest := Zbf.profile_digest sha256 json_string id.

Definition AttemptBinding_new (attempt effect : Digest) (class : EffectClass) (anchor : Digest)
    (profile : DurableProfileId) (owner : Digest) : AttemptBinding :=
  mkAttemptBinding ATTEMPT_BINDING_SCHEMA_VERSION attempt effect class anchor profile
    (profile_digest profile) owner.

Definition binding_validate (b : AttemptBinding) : result AttemptJournalError () :=
  reject? negb (ab_schema_version b =? ATTEMPT_BINDING_SCHEMA_VERSION)%N
    with aerr SchemaVersionMismatch in
  reject? existsb (fun d => bool_decide (d = ZERO))
            [ab_attempt_id b; ab_effect_digest b; ab_admission_anchor_digest b;
             ab_owner_identity_digest b]
    with aerr InvalidBinding in
  reject? negb (bool_decide (ab_durable_profile_digest b = profile_digest (ab_durable_profile_id b)))
    with aerr ProfileSubstitution in
  Ok ().

Definition binding_canonical_bytes (b : AttemptBinding) : result AttemptJournalError bytes :=
  let? _ := binding_validate b in canonical_bytes b.

Definition binding_digest (b : AttemptBinding) : result AttemptJournalError Digest :=
  let? c := binding_canonical_bytes b in Ok (domain_digest ATTEMPT_BINDING_DOMAIN c).

Definition entry_validate (e : AttemptEntry) : result AttemptJournalError () :=
  reject? negb (ae_schema_version e =? ATTEMPT_JOURNAL_SCHEMA_VERSION)%N
    with aerr SchemaVersionMismatch in
  let? _ := binding_validate (ae_binding e) in
  let some_pred := bool_decide (is_Some (ae_predecessor_entry_digest e)) in
  let some_crossed := bool_decide (is_Some (ae_crossed_at_unix_ns e)) in
  let some_reason := bool_decide (is_Some (ae_abort_reason e)) in
  let structural := match ae_state e with
    | Prepared => (ae_sequence e =? 1)%N && negb some_pred && negb some_crossed && negb some_reason
    | DispatchCrossed => (2 <=? ae_sequence e)%N && some_pred && some_crossed && negb some_reason
    | Succeeded | Failed | Indeterminate | SafeToRetry =>
        (2 <=? ae_sequence e)%N && some_pred && negb some_crossed && negb some_reason
    | Aborted => (2 <=? ae_sequence e)%N && some_pred && negb some_crossed && some_reason
    end in
  reject? negb structural with aerr SequenceMismatch in
  let paired := match ae_state e, ae_evidence e with
    | Succeeded, Some (Completion _ _) => true
    | Failed, Some (Failure_evidence _ _) => true
    | (Prepared | DispatchCrossed | Indeterminate | SafeToRetry | Aborted), None => true
    | _, _ => false
    end in
  reject? negb paired with aerr InvalidEvidence in
  match ae_evidence e with Some ev => evidence_validate ev | None => Ok () end.

Definition entry_canonical_bytes (e : AttemptEntry) : result AttemptJournalError bytes :=
  let? _ := entry_validate e in canonical_bytes e.

Definition entry_digest (e : AttemptEntry) : result AttemptJournalError Digest :=
  let? c := entry_canonical_bytes e in Ok (domain_digest ATTEMPT_ENTRY_DOMAIN c).

Definition make_recovery_receipt (bd : Digest) (o : AttemptRecoveryOutcome) (terminal : AttemptEntry)
  : result AttemptJournalError AttemptRecoveryReceipt :=
  let? d := entry_digest terminal in
  let receipt := mkAttemptReceipt ATTEMPT_RECEIPT_SCHEMA_VERSION bd o d (ae_state terminal) in
  let? _ := receipt_validate receipt in
  Ok receipt.

(** ** Reading the chain *)

Context (os : OsCall -> AttemptBoundary -> bool) (paths : AttemptJournalPaths).

Definition read_canonical_entry (f : FS) (sequence : N)
  : result AttemptJournalError (CanonicalRead AttemptEntry) :=
  let? read := read_canonical f (entry_path paths sequence) (Typed EntryMissing) ATTEMPT_ENTRY_DOMAIN in
  let? _ := entry_validate (value read) in
  let? d := entry_digest (value read) in
  Ok (mkRead (value read) d).

(** The [while] loop: at most [n] entries from [sequence] on, and the
    sequence number at which it stopped. *)
Fixpoint read_entries (f : FS) (n : nat) (sequence : N)
  : result AttemptJournalError (list (CanonicalRead AttemptEntry) * N) :=
  match n with
  | O => Ok ([], sequence)
  | S n' =>
      match read_canonical_entry f sequence with
      | Ok entry =>
          let? (entries, stop) := read_entries f n' (sequence + 1) in
          Ok (entry :: entries, stop)
      | Err e => if bool_decide (code e = Typed EntryMissing) then Ok ([], sequence) else Err e
      end
  end.

(** [sequence..=MAX_ENTRIES]. *)
Definition probes (sequence : N) : list N :=
  (fun i => sequence + N.of_nat i)%N <$>
    seq 0 (N.to_nat (ATTEMPT_JOURNAL_MAX_ENTRIES + 1 - sequence)).

(** The validation loop, [previous] being entry [index - 1]. *)
Fixpoint check_links (index : N) (previous : option (CanonicalRead AttemptEntry))
    (entries : list (CanonicalRead AttemptEntry)) : result AttemptJournalError () :=
  match entries with
  | [] => Ok ()
  | entry :: rest =>
      reject? negb (ae_sequence (value entry) =? index + 1)%N with aerr SequenceMismatch in
      let? _ :=
        match previous with
        | None => Ok ()
        | Some prev =>
            reject? negb (bool_decide (ae_predecessor_entry_digest (value entry) = Some (digest prev)))
              with aerr SequenceMismatch in
            reject? negb (is_valid_transition (ae_state (value prev)) (ae_state (value entry)))
              with aerr InvalidTransition in
            Ok ()
        end in
      check_links (index + 1) (Some entry) rest
  end.

Definition read_chain (f : FS) : result AttemptJournalError (list (CanonicalRead AttemptEntry)) :=
  let? (entries, sequence) := read_entries f (N.to_nat ATTEMPT_JOURNAL_MAX_ENTRIES) 1 in
  match entries with
  | [] => Ok []
  | _ =>
      reject? existsb (fun probe => is_ok (read_canonical_entry f probe)) (probes sequence)
        with aerr SequenceMismatch in
      let? _ := check_links 0 None entries in
      Ok entries
  end.

Definition read_current_attempt (f : FS) : result AttemptJournalError (option AttemptEntry) :=
  let? chain := read_chain f in Ok (value <$> list.last chain).

(** ** Operations *)

Definition write_once_entry (sequence : N) (entry : AttemptEntry) (bd : WriteBoundaries AttemptBoundary)
  : AttemptM () :=
  reject! (ATTEMPT_JOURNAL_MAX_ENTRIES <? sequence)%N with aerr TooManyEntries in
  let! b := lift (entry_canonical_bytes entry) in
  write_once_core os (entry_path paths sequence) b bd.

Definition chain_len (chain : list (CanonicalRead AttemptEntry)) : N := N.of_nat (length chain).

(** [chain[chain.len() - 2]]. *)
Definition before_last (chain : list (CanonicalRead AttemptEntry))
  : result AttemptJournalError (CanonicalRead AttemptEntry) :=
  reject? (chain_len chain <? 2)%N with panic in
  ok_or (chain !! (length chain - 2)%nat) panic.

Definition prepare_attempt (b : AttemptBinding) : AttemptM AttemptEntry :=
  let! _ := lift (binding_validate b) in
  let! chain := gets read_chain in
  match list.last chain with
  | Some current =>
      if bool_decide (ae_state (value current) = Prepared) then
        if bool_decide (ae_binding (value current) = b) then sret (value current)
        else throw (aerr ImmutableEntryConflict)
      else throw (aerr AlreadyTerminal)
  | None =>
      let prepared := entry_prepared b 1 in
      let! _ := write_once_entry 1 prepared PREPARE_BOUNDARIES in
      sret prepared
  end.

Definition mark_dispatch_crossed (prepared_digest : Digest) (crossed_at : N) : AttemptM AttemptEntry :=
  let! chain := gets read_chain in
  match list.last chain with
  | None => throw (aerr JournalMissing)
  | Some current =>
      match ae_state (value current) with
      | Prepared =>
          reject! negb (bool_decide (digest current = prepared_digest)) with aerr ReceiptMismatch in
          let sequence := (chain_len chain + 1)%N in
          let crossed := entry_dispatch_crossed (value current) (digest current) sequence crossed_at in
          let! _ := write_once_entry sequence crossed DISPATCH_CROSS_BOUNDARIES in
          sret crossed
      | DispatchCrossed =>
          if bool_decide (ae_predecessor_entry_digest (value current) = Some prepared_digest)
          then sret (value current) else throw (aerr ReceiptMismatch)
      | _ => throw (aerr AlreadyTerminal)
      end
  end.

Definition mark_terminal (dispatch_digest : Digest) (terminal_state : AttemptState)
    (ev : option AttemptEvidence) (bd : WriteBoundaries AttemptBoundary) : AttemptM AttemptEntry :=
  let! chain := gets read_chain in
  match list.last chain with
  | None => throw (aerr JournalMissing)
  | Some current =>
      if bool_decide (ae_state (value current) = terminal_state) then
        let! dispatch := lift (before_last chain) in
        reject! negb (bool_decide (digest dispatch = dispatch_digest)) with aerr ReceiptMismatch in
        let! candidate := lift (ok_or (terminal_entry (value dispatch) (digest dispatch)
                                         (chain_len chain) terminal_state ev) panic) in
        if bool_decide (candidate = value current) then sret (value current)
        else throw (aerr ImmutableEntryConflict)
      else
        reject! negb (bool_decide (ae_state (value current) = DispatchCrossed))
          with aerr InvalidTransition in
        reject! negb (bool_decide (digest current = dispatch_digest)) with aerr ReceiptMismatch in
        let sequence := (chain_len chain + 1)%N in
        let! terminal := lift (ok_or (terminal_entry (value current) (digest current) sequence
                                        terminal_state ev) panic) in
        let! _ := write_once_entry sequence terminal bd in
        sret terminal
  end.

Definition mark_succeeded (dispatch_digest receipt : Digest) (observed_at : N) : AttemptM AttemptEntry :=
  reject! bool_decide (receipt = ZERO) with aerr InvalidEvidence in
  mark_terminal dispatch_digest Succeeded (Some (Completion receipt observed_at)) SUCCEED_BOUNDARIES.

Definition mark_failed (dispatch_digest receipt : Digest) (observed_at : N) : AttemptM AttemptEntry :=
  reject! bool_decide (receipt = ZERO) with aerr InvalidEvidence in
  mark_terminal dispatch_digest Failed (Some (Failure_evidence receipt observed_at)) FAIL_BOUNDARIES.

Definition mark_indeterminate (dispatch_digest : Digest) : AttemptM AttemptEntry :=
  mark_terminal dispatch_digest Indeterminate None INDETERMINATE_BOUNDARIES.

Definition abort_attempt (prepared_digest : Digest) : AttemptM AttemptEntry :=
  let! chain := gets read_chain in
  match list.last chain with
  | None => throw (aerr JournalMissing)
  | Some current =>
      match ae_state (value current) with
      | Prepared =>
          reject! negb (bool_decide (digest current = prepared_digest)) with aerr ReceiptMismatch in
          let sequence := (chain_len chain + 1)%N in
          let aborted := entry_aborted (value current) (digest current) sequence ExplicitAbort in
          let! _ := write_once_entry sequence aborted ABORT_BOUNDARIES in
          sret aborted
      | Aborted =>
          let! prepared := lift (before_last chain) in
          reject! negb (bool_decide (digest prepared = prepared_digest)) with aerr ReceiptMismatch in
          sret (value current)
      | _ => throw (aerr InvalidTransition)
      end
  end.

(** The entry recovery appends to a crossed attempt, by the evidence. *)
Definition classify (current : CanonicalRead AttemptEntry) (sequence : N)
    (ev : option AttemptEvidence) : AttemptRecoveryOutcome * AttemptEntry :=
  match ev with
  | Some (Completion _ _ as e) =>
      (ClassifiedSucceeded, entry_succeeded (value current) (digest current) sequence e)
  | Some (Failure_evidence _ _ as e) =>
      (ClassifiedFailed, entry_failed (value current) (digest current) sequence e)
  | None => (ClassifiedIndeterminate, entry_indeterminate (value current) (digest current) sequence)
  end.

Definition recover_attempt (expected : AttemptBinding) (ev : option AttemptEvidence)
  : AttemptM AttemptRecoveryReceipt :=
  let! _ := lift (binding_validate expected) in
  let! chain := gets read_chain in
  match chain, list.last chain with
  | first :: _, Some current =>
      reject! negb (bool_decide (ae_binding (value first) = expected)) with aerr InvalidBinding in
      let! bd := lift (binding_digest expected) in
      let sequence := (chain_len chain + 1)%N in
      match ae_state (value current) with
      | Succeeded => lift (make_recovery_receipt bd AlreadySucceeded (value current))
      | Failed => lift (make_recovery_receipt bd AlreadyFailed (value current))
      | Indeterminate => lift (make_recovery_receipt bd AlreadyIndeterminate (value current))
      | SafeToRetry => lift (make_recovery_receipt bd AlreadySafeToRetry (value current))
      | Aborted => lift (make_recovery_receipt bd AlreadyAborted (value current))
      | Prepared =>
          let safe := entry_safe_to_retry (value current) (digest current) sequence in
          let! _ := write_once_entry sequence safe RECOVER_BOUNDARIES in
          lift (make_recovery_receipt bd ClassifiedSafeToRetry safe)
      | DispatchCrossed =>
          let '(outcome, terminal) := classify current sequence ev in
          let! _ := write_once_entry sequence terminal RECOVER_BOUNDARIES in
          lift (make_recovery_receipt bd outcome terminal)
      end
  | _, _ => throw (aerr JournalMissing)
  end.
End Attempt.
