(* ===== verification/AttemptProtocol.v ===== *)
(** The attempt journal as an append-only chain, and the proof that every
    operation of [attempt_journal.rs] refines it whatever crashes.

    [next l e] lists the entries the protocol may append to the chain [l].
    Each operation, run on a directory that holds a legal chain, ends in a
    directory that holds an extension of it; none of them can panic, and
    recovery succeeds whenever nothing fails. *)

From stdpp Require Import pretty.
From S2P Require Import Prelude.
From S2P Require Import DurableStore.
From S2P Require Import AttemptJournal.

#[global] Instance binding_wf : Wf AttemptBinding := fun b =>
  u16_wf (ab_schema_version b) /\
  Forall digest_wf [ab_attempt_id b; ab_effect_digest b; ab_admission_anchor_digest b;
                    ab_durable_profile_digest b; ab_owner_identity_digest b].

Definition evidence_wf (ev : AttemptEvidence) : Prop :=
  match ev with Completion d t | Failure_evidence d t => digest_wf d /\ u64_wf t end.

#[global] Instance entry_wf : Wf AttemptEntry := fun e =>
  u16_wf (ae_schema_version e) /\ wf (ae_binding e) /\ u64_wf (ae_sequence e) /\
  option_wf digest_wf (ae_predecessor_entry_digest e) /\
  option_wf u64_wf (ae_crossed_at_unix_ns e) /\ option_wf evidence_wf (ae_evidence e).

Lemma string_app_cancel_r (s t u : string) : s +:+ u = t +:+ u -> s = t.
Proof.
  assert (forall a, String.list_ascii_of_string (a +:+ u) =
    String.list_ascii_of_string a ++ String.list_ascii_of_string u) as Happ.
  { induction a as [|c a IH]; [done|].
    change (String c a +:+ u) with (String c (a +:+ u)). cbn. by rewrite IH. }
  intros Heq. apply (f_equal String.list_ascii_of_string) in Heq. rewrite !Happ in Heq.
  apply app_inv_tail in Heq. apply (f_equal String.string_of_list_ascii) in Heq.
  by rewrite !String.string_of_list_ascii_of_string in Heq.
Qed.

Section Protocol.
Context `{Platform, !PlatformOk} `{Codec AttemptBinding, Codec AttemptEntry}.
Context `{!CodecOk AttemptBinding, !CodecOk AttemptEntry}.

Definition edg (e : AttemptEntry) : Digest := domain_digest ATTEMPT_ENTRY_DOMAIN (encode e).
Definition rd (e : AttemptEntry) : CanonicalRead AttemptEntry := mkRead e (edg e).

Definition prep (b : AttemptBinding) : AttemptEntry := entry_prepared b 1.
Definition cross (b : AttemptBinding) (t : N) : AttemptEntry :=
  entry_dispatch_crossed (prep b) (edg (prep b)) 2 t.

(** The outcome evidence records, if any. *)
Definition outcome_entry (b : AttemptBinding) (t : N) (ev : option AttemptEvidence) : AttemptEntry :=
  let c := cross b t in
  match ev with
  | Some (Completion _ _ as e) => entry_succeeded c (edg c) 3 e
  | Some (Failure_evidence _ _ as e) => entry_failed c (edg c) 3 e
  | None => entry_indeterminate c (edg c) 3
  end.

Definition evidence_ok (ev : option AttemptEvidence) : Prop :=
  match ev with Some e => evidence_validate e = Ok () /\ evidence_wf e | None => True end.

Definition binding_ok (b : AttemptBinding) : Prop := binding_validate b = Ok () /\ wf b.

Inductive next : list AttemptEntry -> AttemptEntry -> Prop :=
| next_prepared b : binding_ok b -> next [] (prep b)
| next_crossed b t : u64_wf t -> next [prep b] (cross b t)
| next_aborted b : next [prep b] (entry_aborted (prep b) (edg (prep b)) 2 ExplicitAbort)
| next_safe b : next [prep b] (entry_safe_to_retry (prep b) (edg (prep b)) 2)
| next_outcome b t ev : evidence_ok ev -> next [prep b; cross b t] (outcome_entry b t ev).

Inductive step : list AttemptEntry -> list AttemptEntry -> Prop :=
| step_append l e : next l e -> step l (l ++ [e]).

Inductive shape : list AttemptEntry -> Prop :=
| shape_empty : shape []
| shape_prepared b : binding_ok b -> shape [prep b]
| shape_crossed b t : binding_ok b -> u64_wf t -> shape [prep b; cross b t]
| shape_aborted b : binding_ok b ->
    shape [prep b; entry_aborted (prep b) (edg (prep b)) 2 ExplicitAbort]
| shape_safe b : binding_ok b -> shape [prep b; entry_safe_to_retry (prep b) (edg (prep b)) 2]
| shape_outcome b t ev : binding_ok b -> u64_wf t -> evidence_ok ev ->
    shape [prep b; cross b t; outcome_entry b t ev].

#[local] Instance prep_inj : Inj (=) (=) prep.
Proof. by intros b1 b2 [= ->]. Qed.

Lemma cross_inj b t1 t2 : cross b t1 = cross b t2 -> t1 = t2.
Proof. by intros [= ->]. Qed.

Lemma shape_step l l' : shape l -> step l l' -> shape l'.
Proof.
  intros Hl Hst. revert Hl. destruct Hst as [l0 e Hn].
  destruct Hn as [b Hb|b t Ht|b|b|b t ev Hev]; intros Hl; cbn; [by constructor|..];
    inv Hl; simplify_eq; by constructor.
Qed.

Lemma shape_reachable l l' : shape l -> rtc step l l' -> shape l'.
Proof. intros Hl Hs. induction Hs; [done | eauto using shape_step]. Qed.

Lemma reachable_prefix l l' : rtc step l l' -> l `prefix_of` l'.
Proof.
  induction 1 as [|l l1 l2 Hst _ IH]; [done|]. destruct Hst. etrans; [|done]. by apply prefix_app_r.
Qed.

(** Nothing follows a terminal entry. *)
Lemma terminal_final l l' e : rtc step l l' -> list.last l = Some e ->
  is_terminal (ae_state e) = true -> l' = l.
Proof.
  destruct 1 as [|l l1 l2 Hst _]; [done|]. destruct Hst as [l x Hn]. intros Hlast Hterm.
  by destruct Hn; cbn in Hlast; simplify_eq.
Qed.

Lemma shape_length l : shape l -> length l <= 3.
Proof. destruct 1; cbn; lia. Qed.

(** ** Entries of a legal chain *)

Lemma outcome_validate b t ev : binding_ok b -> evidence_ok ev ->
  entry_validate (outcome_entry b t ev) = Ok ().
Proof.
  intros [Hv _] Hev. unfold entry_validate. destruct ev as [[]|]; cbn; rewrite Hv; cbn; try done.
  - by destruct Hev.
  - by destruct Hev.
Qed.

Lemma shape_valid l : shape l -> Forall (fun e => entry_validate e = Ok ()) l.
Proof.
  destruct 1 as [|b [Hv _]|b t [Hv _]|b [Hv _]|b [Hv _]|b t ev Hb]; repeat constructor;
    try (by unfold entry_validate; cbn; rewrite Hv).
  1-2: by destruct Hb as [Hv _]; unfold entry_validate; cbn; rewrite Hv.
  by apply outcome_validate.
Qed.

Lemma outcome_wf b t ev : wf b -> evidence_ok ev -> wf (outcome_entry b t ev).
Proof.
  intros Hb Hev. unfold wf, entry_wf. destruct ev as [[]|]; cbn;
    split_and!; try done; try apply domain_digest_wf; by destruct Hev as [_ [? ?]].
Qed.

Lemma shape_wf l : shape l -> Forall wf l.
Proof.
  destruct 1 as [|b [_ Hw]|b t [_ Hw] Ht|b [_ Hw]|b [_ Hw]|b t ev [_ Hw] Ht Hev];
    rewrite ?Forall_cons_iff; split_and?; try by apply outcome_wf.
  all: try apply Forall_nil.
  all: unfold wf, entry_wf; cbn; split_and!; try done; apply domain_digest_wf.
Qed.

(** ** Representation *)

Context (paths : AttemptJournalPaths).

Definition repr (l : list AttemptEntry) (f : FS) : Prop :=
  forall n, n < 8 -> f !! entry_path paths (N.of_nat n + 1) = slot (l !! n).

Lemma entry_path_inj m n : entry_path paths m = entry_path paths n -> m = n.
Proof.
  unfold entry_path. intros Heq. apply app_inv_head in Heq. injection Heq as Heq.
  apply (inj (String.append "")), string_app_cancel_r in Heq. by apply (inj pretty) in Heq.
Qed.

Lemma entry_path_named n : file_name (entry_path paths n) <> None.
Proof. unfold file_name, entry_path. by rewrite last_snoc. Qed.

Lemma repr_append l e f : length l < 8 -> repr l f ->
  repr (l ++ [e]) (<[entry_path paths (N.of_nat (length l) + 1) := Regular (encode e)]> f).
Proof.
  intros Hlen Hr n Hn. destruct (decide (n = length l)) as [->|Hne].
  - by rewrite lookup_insert_eq, list_lookup_middle.
  - rewrite lookup_insert_ne by (intros Heq%entry_path_inj; lia). rewrite Hr by done.
    f_equal. destruct (decide (n < length l)); [by rewrite lookup_app_l|].
    rewrite !lookup_ge_None_2; [done | rewrite length_app; cbn; lia | lia].
Qed.

(** ** Reading a represented chain *)

Lemma entry_bytes_ok e : entry_validate e = Ok () -> wf e -> entry_canonical_bytes e = Ok (encode e).
Proof. intros Hv Hw. unfold entry_canonical_bytes. rewrite Hv. by apply canonical_bytes_ok. Qed.

Lemma entry_digest_ok e : entry_validate e = Ok () -> wf e -> entry_digest e = Ok (edg e).
Proof. intros Hv Hw. unfold entry_digest. by rewrite entry_bytes_ok. Qed.

Lemma read_entry_repr l f n : shape l -> repr l f -> n < 8 ->
  read_canonical_entry paths f (N.of_nat n + 1) =
    match l !! n with Some e => Ok (rd e) | None => Err (aerr EntryMissing) end.
Proof.
  intros Hl Hr Hn. unfold read_canonical_entry.
  assert (option_wf wf (l !! n)) as Hw.
  { destruct (l !! n) eqn:He; cbn; [|done]. by eapply Forall_lookup_1; [apply shape_wf|]. }
  rewrite (read_canonical_slot _ _ _ _ _ (Hr n Hn) Hw).
  destruct (l !! n) as [e|] eqn:He; [|done]. cbn.
  assert (entry_validate e = Ok ()) as Hv by (by eapply (Forall_lookup_1 _ _ _ _ (shape_valid _ Hl))).
  rewrite Hv. cbn. by rewrite entry_digest_ok.
Qed.

Lemma read_entries_repr f n l k :
  (forall i, i < n -> read_canonical_entry paths f (k + N.of_nat i) =
     match l !! i with Some e => Ok (rd e) | None => Err (aerr EntryMissing) end) ->
  length l <= n -> read_entries paths f n k = Ok (rd <$> l, k + N.of_nat (length l))%N.
Proof.
  revert l k. induction n as [|n IH]; intros l k Hread Hlen; destruct l as [|e l]; cbn in Hlen; try lia.
  - cbn. by rewrite N.add_0_r.
  - pose proof (Hread 0 ltac:(lia)) as H0'. rewrite N.add_0_r in H0'. cbn. rewrite H0'. cbn.
    by rewrite bool_decide_true, N.add_0_r.
  - pose proof (Hread 0 ltac:(lia)) as H0'. rewrite N.add_0_r in H0'. cbn. rewrite H0'. cbn.
    rewrite (IH l); [|intros i Hi|lia].
    + cbn. do 2 f_equal. lia.
    + replace (k + 1 + N.of_nat i)%N with (k + N.of_nat (S i))%N by lia. apply (Hread (S i)). lia.
Qed.

Lemma links_ok l : shape l -> check_links 0 None (rd <$> l) = Ok ().
Proof.
  destruct 1 as [| | | | |b t ev]; [..|destruct ev as [[]|]]; cbn;
    repeat (rewrite bool_decide_true by reflexivity; cbn); reflexivity.
Qed.

Lemma probes_absent l f : shape l -> repr l f ->
  existsb (fun probe => is_ok (read_canonical_entry paths f probe))
    (probes (1 + N.of_nat (length l))) = false.
Proof.
  intros Hl Hr. apply not_true_is_false. rewrite existsb_exists. intros (q & Hin & Hok).
  unfold probes in Hin. apply list_elem_of_In, list_elem_of_fmap in Hin as (i & -> & Hi).
  apply elem_of_seq in Hi. unfold ATTEMPT_JOURNAL_MAX_ENTRIES in Hi. pose proof (shape_length _ Hl).
  replace (1 + N.of_nat (length l) + N.of_nat i)%N with (N.of_nat (length l + i) + 1)%N in Hok by lia.
  rewrite (read_entry_repr l f) in Hok by (done || lia).
  by rewrite lookup_ge_None_2 in Hok by lia.
Qed.

Lemma read_chain_repr l f : shape l -> repr l f -> read_chain paths f = Ok (rd <$> l).
Proof.
  intros Hl Hr. pose proof (probes_absent l f Hl Hr) as Hp. pose proof (links_ok l Hl) as Hk.
  pose proof (shape_length _ Hl) as Hlen. unfold read_chain. rewrite (read_entries_repr f _ l 1).
  - unfold mbind, result_bind. destruct l as [|e l]; [done|].
    rewrite fmap_cons in *. by rewrite Hp, Hk.
  - intros i Hi. rewrite N.add_comm. by apply read_entry_repr.
  - unfold ATTEMPT_JOURNAL_MAX_ENTRIES. lia.
Qed.

(** ** Operations *)

Context (os : OsCall -> AttemptBoundary -> bool) (calm : Prop).

Definition refines {A} (l : list AttemptEntry) (ok : A -> list AttemptEntry -> Prop)
    (err : AttemptJournalError -> Prop) : result AttemptJournalError A -> FS -> Prop :=
  fun r f' => exists l', rtc step l l' /\ repr l' f' /\
    match r with Ok x => ok x l' | Err e => code e <> Panic /\ err e end.

Lemma attempt_refines_here {A} (r : result AttemptJournalError A) l ok err f : repr l f ->
  match r with Ok x => ok x l | Err e => code e <> Panic /\ err e end -> refines l ok err r f.
Proof. intros Hr Hp. by exists l. Qed.

Lemma wp_refuse {A} c l ok err f : repr l f -> err (aerr c) ->
  wp os calm (throw (A := A) (aerr c)) (refines l ok err) f.
Proof. intros Hr He. by apply wp_throw, attempt_refines_here. Qed.

Lemma wp_return {A} (x : A) l ok err f : repr l f -> ok x l ->
  wp os calm (sret x) (refines l ok err) f.
Proof. intros Hr He. by apply wp_sret, attempt_refines_here. Qed.

Lemma write_error_typed e published : write_error (Code := Failure) (BD := AttemptBoundary) calm e published ->
  code e <> Panic /\ ~ calm.
Proof. intros (Hc & _ & _ & Hcode). split; [|done]. by destruct Hcode as [->|[->| ->]]. Qed.

(** Appending a protocol entry, followed by [k]. *)
Lemma wp_append {A} l e bd f (k : () -> AttemptM A) ok (err : AttemptJournalError -> Prop) :
  shape l -> repr l f -> next l e -> (forall e', ~ calm -> err e') ->
  (forall f', repr (l ++ [e]) f' -> wp os calm (k ()) (refines (l ++ [e]) ok err) f') ->
  wp os calm (sbind (write_once_entry os paths (N.of_nat (length l) + 1) e bd) k) (refines l ok err) f.
Proof.
  intros Hl Hr Hn He Hk. pose proof (shape_length _ Hl) as Hlen.
  assert (shape (l ++ [e])) as Hl' by (by eapply shape_step; [|apply step_append]).
  assert (entry_validate e = Ok () /\ wf e) as [Hv Hw].
  { pose proof (shape_valid _ Hl') as Hv. pose proof (shape_wf _ Hl') as Hw.
    rewrite Forall_app, Forall_cons_iff in Hv, Hw. tauto. }
  unfold write_once_entry, ATTEMPT_JOURNAL_MAX_ENTRIES. guard_by lia.
  apply wp_assoc. eapply wp_lift_ok; [by apply entry_bytes_ok|].
  apply wp_write_once_absent; [by rewrite Hr, lookup_ge_None_2 by lia|].
  apply wp_bind, wp_durable_replace; [by apply encode_bounded | apply entry_path_named | | |].
  - intros e' [? ?]%write_error_typed. apply attempt_refines_here; auto.
  - intros e' [? ?]%write_error_typed. exists (l ++ [e]).
    split; [by apply rtc_once, step_append | split; [apply repr_append; [lia | done] | auto]].
  - eapply wp_mono; [|apply Hk, repr_append; [lia | done]].
    intros r f' (l' & Hst & Hrest). exists l'. split; [|done].
    eapply rtc_l; [by apply step_append | done].
Qed.

Lemma wp_chain {A} l f (k : list (CanonicalRead AttemptEntry) -> AttemptM A) Q : shape l -> repr l f ->
  wp os calm (k (rd <$> l)) Q f -> wp os calm (sbind (gets (read_chain paths)) k) Q f.
Proof. intros Hl Hr. by apply wp_gets_ok, read_chain_repr. Qed.

#[local] Opaque wp write_once_entry.

Ltac refuse := apply wp_refuse; [assumption | try done].

Lemma attempt_prepare_refines b l f : wf b -> shape l -> repr l f ->
  wp os calm (prepare_attempt os paths b)
    (refines l (fun x l' => x = prep b /\ l' = [prep b])
       (fun _ => l = [] -> binding_validate b = Ok () -> ~ calm)) f.
Proof.
  intros Hb Hl Hr. unfold prepare_attempt. apply wp_lift_any.
  { intros e He. apply attempt_refines_here; [done|]. split; [|congruence].
    unfold binding_validate in He. repeat case_match; by simplify_eq. }
  intros [] Hv. apply (wp_chain l); [done..|].
  destruct Hl as [|b' Hb'|b' t Hb' Ht|b' Hb'|b' Hb'|b' t ev Hb' Ht Hev];
    [|..|destruct ev as [[]|]]; cbn; rewrite ?bool_decide_true, ?bool_decide_false by done;
    try refuse; [|apply wp_if; intros Heq; breflect; subst; [by apply wp_return | refuse]].
  apply (wp_append []); [constructor | done | by constructor | done |].
  intros f' Hr'. by apply wp_return.
Qed.

(** Crossing happens only from the prepared entry named by its digest. *)
Lemma cross_refines d t l f : u64_wf t -> shape l -> repr l f ->
  wp os calm (mark_dispatch_crossed os paths d t)
    (refines l (fun x l' => exists b t', x = cross b t' /\ l' = [prep b; cross b t'] /\ d = edg (prep b))
       (fun e => (forall b, l = [prep b] -> d = edg (prep b) -> ~ calm) /\
                 (forall x, list.last l = Some x -> is_terminal (ae_state x) = true ->
                    code e = Typed AlreadyTerminal))) f.
Proof.
  intros Ht Hl Hr. unfold mark_dispatch_crossed. apply (wp_chain l); [done..|].
  destruct Hl as [|b' Hb'|b' t' Hb' Ht'|b' Hb'|b' Hb'|b' t' ev Hb' Ht' Hev];
    [|..|destruct ev as [[]|]]; cbn;
    try (by refuse).
  - apply wp_if; intros Hd; breflect.
    + refuse. split; [|intros x Hx; by simplify_eq]. intros b [= <-] ->. by destruct Hd.
    + apply (wp_append [prep b']); [by constructor | done | by constructor | |].
      * intros e' Hc. split; [done|]. intros x Hx. by simplify_eq.
      * intros f' Hr'. apply wp_return; [done|]. by exists b', t.
  - apply wp_if; intros Hd; breflect.
    + injection Hd as <-. apply wp_return; [done|]. by exists b', t'.
    + refuse. split; [done|]. intros x Hx. by simplify_eq.
Qed.

Definition outcome_state (ev : option AttemptEvidence) : AttemptState :=
  match ev with
  | Some (Completion _ _) => Succeeded
  | Some (Failure_evidence _ _) => Failed
  | None => Indeterminate
  end.

Lemma outcome_entry_state b t ev : ae_state (outcome_entry b t ev) = outcome_state ev.
Proof. by destruct ev as [[]|]. Qed.

Lemma terminal_entry_outcome b t ev :
  terminal_entry (cross b t) (edg (cross b t)) 3 (outcome_state ev) ev = Some (outcome_entry b t ev).
Proof. by destruct ev as [[]|]. Qed.

Lemma mark_terminal_refines d ev bd l f : evidence_ok ev -> shape l -> repr l f ->
  wp os calm (mark_terminal os paths d (outcome_state ev) ev bd)
    (refines l (fun x l' => exists b t, x = outcome_entry b t ev /\
                  l' = [prep b; cross b t; outcome_entry b t ev] /\ d = edg (cross b t))
       (fun _ => forall b t, l = [prep b; cross b t] -> d = edg (cross b t) -> ~ calm)) f.
Proof.
  intros Hev Hl Hr. unfold mark_terminal. apply (wp_chain l); [done..|].
  destruct Hl as [|b Hb|b t Hb Ht|b Hb|b Hb|b t ev' Hb Ht Hev'];
    cbn -[outcome_entry terminal_entry]; [by refuse|..].
  - rewrite (bool_decide_false (_ = outcome_state ev)) by (by destruct ev as [[]|]).
    rewrite bool_decide_false by done. by refuse.
  - rewrite (bool_decide_false (_ = outcome_state ev)) by (by destruct ev as [[]|]).
    rewrite bool_decide_true by done. cbn [negb]. apply wp_if; intros Hd; breflect.
    { refuse. intros b' t' Heq ->. destruct Hd. congruence. }
    cbn -[outcome_entry terminal_entry].
    eapply wp_lift_ok; [change (chain_len _ + 1)%N with 3%N; by rewrite terminal_entry_outcome|].
    apply (wp_append [prep b; cross b t]); [by constructor | done | by constructor | done |].
    intros f' Hr'. apply wp_return; [done|]. by exists b, t.
  - rewrite (bool_decide_false (_ = outcome_state ev)) by (by destruct ev as [[]|]).
    rewrite bool_decide_false by done. by refuse.
  - rewrite (bool_decide_false (_ = outcome_state ev)) by (by destruct ev as [[]|]).
    rewrite bool_decide_false by done. by refuse.
  - rewrite outcome_entry_state. apply wp_if; intros Hst; breflect.
    + eapply wp_lift_ok; [reflexivity|]. cbn -[outcome_entry terminal_entry].
      apply wp_if; intros Hd; breflect; [by refuse|]. subst d.
      eapply wp_lift_ok; [change (chain_len _)%N with 3%N; by rewrite terminal_entry_outcome|].
      apply wp_if; intros Heq; breflect; [|by refuse].
      apply wp_return; [done|]. exists b, t. by rewrite Heq.
    + rewrite bool_decide_false by (by destruct ev' as [[]|]). by refuse.
Qed.

Lemma attempt_abort_refines d l f : shape l -> repr l f ->
  wp os calm (abort_attempt os paths d)
    (refines l (fun x l' => exists b, x = entry_aborted (prep b) (edg (prep b)) 2 ExplicitAbort /\
                  l' = [prep b; x] /\ d = edg (prep b))
       (fun _ => forall b, l = [prep b] -> d = edg (prep b) -> ~ calm)) f.
Proof.
  intros Hl Hr. unfold abort_attempt. apply (wp_chain l); [done..|].
  destruct Hl as [|b Hb|b t Hb Ht|b Hb|b Hb|b t ev Hb Ht Hev];
    [|..|destruct ev as [[]|]]; cbn; try (by refuse).
  - apply wp_if; intros Hd; breflect.
    + refuse. intros b' [= <-] ->. by destruct Hd.
    + apply (wp_append [prep b]); [by constructor | done | by constructor | done |].
      intros f' Hr'. apply wp_return; [done|]. by exists b.
  - eapply wp_lift_ok; [reflexivity|]. cbn. apply wp_if; intros Hd; breflect; [by refuse|].
    apply wp_return; [done|]. by exists b.
Qed.

(** ** Recovery *)

Definition bdig (b : AttemptBinding) : Digest := domain_digest ATTEMPT_BINDING_DOMAIN (encode b).

(** How recovery classifies the last entry. *)
Definition recovery_outcome (s : AttemptState) (ev : option AttemptEvidence) : AttemptRecoveryOutcome :=
  match s with
  | Succeeded => AlreadySucceeded
  | Failed => AlreadyFailed
  | Indeterminate => AlreadyIndeterminate
  | SafeToRetry => AlreadySafeToRetry
  | Aborted => AlreadyAborted
  | Prepared => ClassifiedSafeToRetry
  | DispatchCrossed =>
      match ev with
      | Some (Completion _ _) => ClassifiedSucceeded
      | Some (Failure_evidence _ _) => ClassifiedFailed
      | None => ClassifiedIndeterminate
      end
  end.

(** SHA-256 never hits the reserved zero digest. *)
Definition nonzero_sha : Prop := forall m, sha256 m <> ZERO.

Definition receipt_for (b : AttemptBinding) (o : AttemptRecoveryOutcome) (x : AttemptEntry)
  : AttemptRecoveryReceipt :=
  mkAttemptReceipt ATTEMPT_RECEIPT_SCHEMA_VERSION (bdig b) o (edg x) (ae_state x).

Lemma wp_receipt b o x l ok (err : AttemptJournalError -> Prop) f : repr l f -> shape l ->
  list.last l = Some x -> receipt_paired o (ae_state x) = true -> is_terminal (ae_state x) = true ->
  ok (receipt_for b o x) l -> (forall e, ~ nonzero_sha -> err e) ->
  wp os calm (lift (make_recovery_receipt (bdig b) o x)) (refines l ok err) f.
Proof.
  intros Hr Hl Hlast Hpair Hterm Hok He. apply wp_lift.
  assert (x ∈ l) as Hin by (by apply last_Some_elem_of).
  pose proof (shape_valid _ Hl) as Hv. pose proof (shape_wf _ Hl) as Hw.
  rewrite list.Forall_forall in Hv, Hw.
  unfold make_recovery_receipt. rewrite entry_digest_ok by auto. cbn.
  unfold receipt_validate. cbn. rewrite Hpair, Hterm.
  case_bool_decide as Hz1; [|case_bool_decide as Hz2]; cbn [orb negb]; apply attempt_refines_here; try done;
    (split; [done|]); apply He; intros Hn; [by apply Hn in Hz1 | by apply Hn in Hz2].
Qed.

(** The chain a recovery leaves. *)
Definition recovered (l : list AttemptEntry) (ev : option AttemptEvidence) : list AttemptEntry :=
  match list.last l with
  | None => l
  | Some x =>
      let sequence := (N.of_nat (length l) + 1)%N in
      match ae_state x with
      | Prepared => l ++ [entry_safe_to_retry x (edg x) sequence]
      | DispatchCrossed => l ++ [snd (classify (rd x) sequence ev)]
      | _ => l
      end
  end.

Definition recovery_ok (b : AttemptBinding) (ev : option AttemptEvidence) (l : list AttemptEntry)
    (r : AttemptRecoveryReceipt) (l' : list AttemptEntry) : Prop :=
  l' = recovered l ev /\ exists x y, list.last l = Some x /\ list.last l' = Some y /\
    is_terminal (ae_state y) = true /\ r = receipt_for b (recovery_outcome (ae_state x) ev) y.

Lemma binding_digest_ok b : binding_ok b -> binding_digest b = Ok (bdig b).
Proof.
  intros [Hv Hw]. unfold binding_digest, binding_canonical_bytes. rewrite Hv. cbn.
  by rewrite canonical_bytes_ok.
Qed.

Lemma classify_outcome b t ev : classify (rd (cross b t)) 3 ev =
  (recovery_outcome DispatchCrossed ev, outcome_entry b t ev).
Proof. by destruct ev as [[]|]. Qed.

Lemma outcome_receipt b t ev : receipt_paired (recovery_outcome DispatchCrossed ev)
  (ae_state (outcome_entry b t ev)) = true /\ is_terminal (ae_state (outcome_entry b t ev)) = true.
Proof. by destruct ev as [[]|]. Qed.

(** Invalid evidence is refused before anything is written. *)
Lemma wp_bad_evidence {A} b t e bd l f (k : () -> AttemptM A) ok (err : AttemptJournalError -> Prop) n :
  binding_ok b -> repr l f -> (n <= 8)%N -> evidence_validate e <> Ok () -> (forall e', err e') ->
  wp os calm (sbind (write_once_entry os paths n (outcome_entry b t (Some e)) bd) k) (refines l ok err) f.
Proof.
  Transparent write_once_entry.
  intros [Hv _] Hr Hn Hbad He. unfold write_once_entry, ATTEMPT_JOURNAL_MAX_ENTRIES. guard_by lia.
  apply wp_assoc. apply wp_bind, wp_lift. unfold entry_canonical_bytes, entry_validate.
  destruct e as [d t'|d t']; cbn -[ZERO] in *; rewrite Hv; cbn -[ZERO];
    (case_bool_decide; [by apply attempt_refines_here | done]).
  Opaque write_once_entry.
Qed.

Lemma attempt_recover_refines b ev l f : option_wf evidence_wf ev -> wf b -> shape l -> repr l f ->
  wp os calm (recover_attempt os paths b ev)
    (refines l (recovery_ok b ev l)
       (fun _ => nonzero_sha -> evidence_ok ev ->
          (exists x, list.head l = Some x /\ ae_binding x = b) -> ~ calm)) f.
Proof.
  intros Hevw Hbw Hl Hr. unfold recover_attempt. apply wp_lift_any.
  { intros e He. apply attempt_refines_here; [done|]. split.
    - unfold binding_validate in He. repeat case_match; by simplify_eq.
    - intros _ _ (x & Hhd & <-). destruct Hl as [|? [Hv _]|? ? [Hv _]|? [Hv _]|? [Hv _]|? ? ? [Hv _]];
        cbn in Hhd; simplify_eq; cbn in He; congruence. }
  intros [] Hv. apply (wp_chain l); [done..|].
  destruct Hl as [|b' Hb'|b' t Hb' Ht|b' Hb'|b' Hb'|b' t ev' Hb' Ht Hev'].
  1: { cbn. refuse. by intros _ _ (x & ? & _). }
  all: cbn -[classify outcome_entry make_recovery_receipt]; apply wp_if; intros Hbind; breflect;
    [refuse; intros _ _ (x & [= <-] & <-); by destruct Hbind | subst b];
    (eapply wp_lift_ok; [by apply binding_digest_ok|]).
  - apply (wp_append [prep b']); [by constructor | done | by constructor | done |].
    intros f' Hr'. eapply wp_receipt; [done | by constructor | done | done | done | | by auto].
    split; [done|]. eexists _, _. done.
  - change (chain_len _ + 1)%N with 3%N. rewrite classify_outcome.
    assert (evidence_ok ev \/ exists e, ev = Some e /\ evidence_validate e <> Ok ()) as [Hok|(e & -> & Hbad)].
    { destruct ev as [e|]; [|by left]. cbn. destruct (evidence_validate e) as [[]|] eqn:Hval; [by left|].
      right. exists e. by rewrite Hval. }
    + apply (wp_append [prep b'; cross b' t]); [by constructor | done | by constructor | done |].
      intros f' Hr'. destruct (outcome_receipt b' t ev).
      eapply wp_receipt; [done | by constructor | done | done | done | | by auto].
      split; [|by eexists _, _]. unfold recovered. cbn -[classify outcome_entry].
      by rewrite classify_outcome.
    + apply wp_bad_evidence; [done | done | lia | done|].
      intros e' _ [? _]. by destruct Hbad.
  - eapply wp_receipt; [done | by constructor | done | done | done | | by auto].
    split; [done|]. by eexists _, _.
  - eapply wp_receipt; [done | by constructor | done | done | done | | by auto].
    split; [done|]. by eexists _, _.
  - assert (shape [prep b'; cross b' t; outcome_entry b' t ev']) as Hsh by (by constructor).
    destruct ev' as [[]|]; cbn -[make_recovery_receipt];
      (eapply wp_receipt; [done | exact Hsh | done | done | done | | by auto]);
      (split; [done|]; by eexists _, _).
Qed.
End Protocol.
