(* ===== verification/AttemptTheorems.v ===== *)
(** What the attempt journal guarantees over every history of operations:
    the directory always holds a legal chain, chains only grow, no operation
    panics, a retryable attempt was never dispatched and never will be, and
    recovery settles every attempt. *)

From S2P Require Import Prelude.
From S2P Require Import DurableStore.
From S2P Require Import AttemptJournal.
From S2P Require Import AttemptProtocol.
From S2P Require Zbf.
From S2P Require Import FixedCodec.

Inductive AttemptOp :=
| OpPrepare (b : AttemptBinding)
| OpCross (d : Digest) (at_ns : N)
| OpSucceed (d receipt : Digest) (at_ns : N)
| OpFail (d receipt : Digest) (at_ns : N)
| OpIndeterminate (d : Digest)
| OpAbort (d : Digest)
| OpRecover (b : AttemptBinding) (ev : option AttemptEvidence).

(** Arguments are values of the source's types. *)
Definition op_wf (op : AttemptOp) : Prop :=
  match op with
  | OpPrepare b => wf b
  | OpCross _ t => u64_wf t
  | OpSucceed _ r t | OpFail _ r t => digest_wf r /\ u64_wf t
  | OpIndeterminate _ | OpAbort _ => True
  | OpRecover b ev => wf b /\ option_wf evidence_wf ev
  end.

Definition failure {A} (r : result AttemptJournalError A) : option Failure :=
  match r with Ok _ => None | Err e => Some (code e) end.

Section Histories.
Context `{Platform, !PlatformOk} `{Codec AttemptBinding, Codec AttemptEntry}.
Context `{!CodecOk AttemptBinding, !CodecOk AttemptEntry}.
Context (paths : AttemptJournalPaths).
Implicit Types (f : FS) (os : OsCall -> AttemptBoundary -> bool).

(** One operation: how it failed, if it did, and the world it leaves. *)
Definition run os (op : AttemptOp) (w : AttemptWorld) : option Failure * AttemptWorld :=
  let keep {A} (m : AttemptM A) := (failure (fst (m w)), snd (m w)) in
  match op with
  | OpPrepare b => keep (prepare_attempt os paths b)
  | OpCross d t => keep (mark_dispatch_crossed os paths d t)
  | OpSucceed d r t => keep (mark_succeeded os paths d r t)
  | OpFail d r t => keep (mark_failed os paths d r t)
  | OpIndeterminate d => keep (mark_indeterminate os paths d)
  | OpAbort d => keep (abort_attempt os paths d)
  | OpRecover b ev => keep (recover_attempt os paths b ev)
  end.

Inductive evolves (f : FS) : FS -> Prop :=
| evolves_refl : evolves f f
| evolves_op f' os op plan : op_wf op -> evolves f f' ->
    evolves f (fs (snd (run os op (mkWorld f' plan)))).

(** A directory with no attempt entries. *)
Definition no_entries f : Prop :=
  forall n, n < 8 -> f !! entry_path paths (N.of_nat n + 1) = None.

Lemma settle {A} (m : AttemptM A) os l f plan ok err :
  wp os False m (refines paths l ok err) f ->
  exists l', rtc step l l' /\ repr paths l' (fs (snd (m (mkWorld f plan)))) /\
    failure (fst (m (mkWorld f plan))) <> Some Panic.
Proof.
  intros Hwp. destruct (Hwp (mkWorld f plan) eq_refl) as [(l' & Hst & Hr & Hpost) _]; [done|].
  exists l'. split_and!; [done | done |]. destruct (fst (m (mkWorld f plan))) as [x|e]; [done|].
  destruct Hpost as [Hp _]. cbn. congruence.
Qed.

Lemma wp_guarded {A} os c (e : AttemptFailureCode) (m : AttemptM A) l ok f :
  repr paths l f -> (c = false -> exists ok err, wp os False m (refines paths l ok err) f) ->
  ok = (fun (_ : A) (_ : list AttemptEntry) => True) ->
  wp os False (reject! c with aerr e in m) (refines paths l ok (fun _ => True)) f.
Proof.
  intros Hr Hm ->. destruct c; [by apply wp_throw, attempt_refines_here|].
  destruct (Hm eq_refl) as (ok & err & Hwp). eapply wp_mono; [|done].
  intros r f' (l' & Hst & Hr' & Hp). exists l'. split_and!; [done | done |]. by destruct r; [|destruct Hp].
Qed.

Lemma attempt_run_refines os op l f plan : op_wf op -> shape l -> repr paths l f ->
  exists l', rtc step l l' /\ repr paths l' (fs (snd (run os op (mkWorld f plan)))) /\
    fst (run os op (mkWorld f plan)) <> Some Panic.
Proof.
  intros Ho Hl Hr. destruct op as [b|d t|d r t|d r t|d|d|b ev]; cbn [run fst snd]; eapply settle.
  - by apply attempt_prepare_refines.
  - by apply cross_refines.
  - apply wp_guarded; [done | intros Hz | done]; breflect. eexists _, _.
    apply (mark_terminal_refines paths os False d (Some (Completion r t))); [|done..].
    split; [|done]. cbn -[ZERO]. by rewrite bool_decide_false.
  - apply wp_guarded; [done | intros Hz | done]; breflect. eexists _, _.
    apply (mark_terminal_refines paths os False d (Some (Failure_evidence r t))); [|done..].
    split; [|done]. cbn -[ZERO]. by rewrite bool_decide_false.
  - by apply (mark_terminal_refines paths os False d None).
  - by apply attempt_abort_refines.
  - destruct Ho. by apply attempt_recover_refines.
Qed.

Lemma attempt_evolves_refines l f f' : shape l -> repr paths l f -> evolves f f' ->
  exists l', rtc step l l' /\ repr paths l' f'.
Proof.
  intros Hl Hr. induction 1 as [|f' os op plan Ho _ (l1 & H01 & Hr1)]; [by exists l|].
  destruct (attempt_run_refines os op l1 f' plan Ho) as (l2 & H12 & Hr2 & _);
    [by eapply shape_reachable | done |].
  exists l2. split; [by etrans | done].
Qed.

Lemma start_refines f0 f : no_entries f0 -> evolves f0 f ->
  exists l, shape l /\ repr paths l f /\ read_chain paths f = Ok (rd <$> l).
Proof.
  intros Hf Hev. destruct (attempt_evolves_refines [] f0 f) as (l & Hst & Hr); [constructor | done | done |].
  assert (shape l) by (by eapply shape_reachable; [constructor|]).
  exists l. split_and!; [done | done | by apply read_chain_repr].
Qed.
End Histories.

Section Guarantees.
Context `{Platform, !PlatformOk} `{Codec AttemptBinding, Codec AttemptEntry}.
Context `{!CodecOk AttemptBinding, !CodecOk AttemptEntry}.
Context (paths : AttemptJournalPaths).

(** The chain law, and panic freedom.  After any history of attempt
    operations on an empty directory, with any crashes, failing system calls
    and arguments, the whole chain reads back and is one of the protocol's:
    one binding throughout, contiguous, linked by digests, at most one
    dispatch crossing and one terminal entry, last.  And whatever operation
    comes next, it cannot panic (the source indexes the chain and unwraps
    evidence). *)
Theorem attempt_chain_law (f0 f : FS) (os : OsCall -> AttemptBoundary -> bool) (op : AttemptOp)
    (plan : FaultPlan AttemptBoundary) :
  no_entries paths f0 -> evolves paths f0 f -> op_wf op ->
  (exists l, read_chain paths f = Ok (rd <$> l) /\ shape l) /\
  fst (run paths os op (mkWorld f plan)) <> Some Panic.
Proof.
  intros Hf Hev Ho. destruct (start_refines paths f0 f Hf Hev) as (l & Hl & Hr & Hchain).
  split; [by exists l|]. destruct (attempt_run_refines paths os op l f plan Ho Hl Hr) as (_ & _ & _ & Hp). done.
Qed.

(** The journal is append-only and terminal entries are final.  What a
    later reader sees extends what an earlier one saw; once the last entry
    is terminal the chain never changes again. *)
Theorem attempt_append_only (f0 f f' : FS) :
  no_entries paths f0 -> evolves paths f0 f -> evolves paths f f' ->
  exists l l', read_chain paths f = Ok (rd <$> l) /\ read_chain paths f' = Ok (rd <$> l') /\
    l `prefix_of` l' /\
    forall x, list.last l = Some x -> is_terminal (ae_state x) = true -> l' = l.
Proof.
  intros Hf Hev Hev'. destruct (start_refines paths f0 f Hf Hev) as (l & Hl & Hr & Hchain).
  destruct (attempt_evolves_refines paths l f f' Hl Hr Hev') as (l' & Hst & Hr').
  exists l, l'. split_and!; [done | | by apply reachable_prefix | by intros; eapply terminal_final].
  apply read_chain_repr; [by eapply shape_reachable | done].
Qed.

Lemma retryable_shape l x : shape l -> x ∈ l ->
  ae_state x = SafeToRetry \/ ae_state x = Aborted ->
  list.last l = Some x /\ is_terminal (ae_state x) = true /\
  Forall (fun y => ae_state y <> DispatchCrossed) l.
Proof.
  intros Hl Hx Hst. apply list_elem_of_In in Hx.
  destruct Hl as [| | | | |b t ev]; cbn in Hx; destruct_or? Hx; subst; try (by destruct Hst);
    [by repeat constructor.. | by destruct ev as [[]|], Hst].
Qed.

(** C31: No replay.  If a chain anywhere records that the attempt is safe to
    retry or was aborted, then it contains no dispatch crossing, and in every
    later state every attempt to cross dispatch is refused as terminal,
    whatever digest, clock and faults it comes with. *)
Theorem never_dispatched_when_retryable (f0 f f' : FS) (chain : list (CanonicalRead AttemptEntry))
    (x : CanonicalRead AttemptEntry) (os : OsCall -> AttemptBoundary -> bool)
    (plan : FaultPlan AttemptBoundary) (d : Digest) (t : N) :
  no_entries paths f0 -> evolves paths f0 f -> read_chain paths f = Ok chain -> x ∈ chain ->
  ae_state (value x) = SafeToRetry \/ ae_state (value x) = Aborted ->
  evolves paths f f' -> u64_wf t ->
  Forall (fun y => ae_state (value y) <> DispatchCrossed) chain /\
  fst (run paths os (OpCross d t) (mkWorld f' plan)) = Some (Typed AlreadyTerminal).
Proof.
  intros Hf Hev Hchain Hx Hst Hev' Ht. destruct (start_refines paths f0 f Hf Hev) as (l & Hl & Hr & Hc).
  rewrite Hc in Hchain. injection Hchain as <-. apply list_elem_of_fmap in Hx as (e & -> & He).
  destruct (retryable_shape l e Hl He Hst) as (Hlast & Hterm & Hall).
  split; [by rewrite Forall_fmap|].
  destruct (attempt_evolves_refines paths l f f' Hl Hr Hev') as (l' & Hsteps & Hr').
  pose proof (terminal_final _ _ _ Hsteps Hlast Hterm) as ->.
  destruct (cross_refines paths os False d t l f' Ht Hl Hr' (mkWorld f' plan) eq_refl)
    as [(l2 & Hst2 & _ & Hpost) _]; [done|].
  pose proof (terminal_final _ _ _ Hst2 Hlast Hterm) as ->. cbn [run fst].
  destruct (fst (mark_dispatch_crossed os paths d t _)) as [y|err]; cbn [failure].
  - destruct Hpost as (b & t' & _ & -> & _). cbn in Hlast. by simplify_eq.
  - destruct Hpost as (_ & _ & Hcode). f_equal. by apply (Hcode e).
Qed.

Lemma calm_recovery l f os plan b ev : shape l -> repr paths l f -> quiet os plan ->
  nonzero_sha -> wf b -> evidence_ok ev -> (exists x, list.head l = Some x /\ ae_binding x = b) ->
  exists r w', recover_attempt os paths b ev (mkWorld f plan) = (Ok r, w') /\
    repr paths (recovered l ev) (fs w') /\ shape (recovered l ev) /\ quiet os (fault w') /\
    recovery_ok b ev l r (recovered l ev).
Proof.
  intros Hl Hr Hq Hz Hb Hev Hhd.
  assert (option_wf evidence_wf ev) as Hevw by (by destruct ev; [destruct Hev|]).
  destruct (attempt_recover_refines paths os (quiet os plan) b ev l f Hevw Hb Hl Hr (mkWorld f plan) eq_refl)
    as [(l' & Hst & Hr' & Hpost) Hq']; [done|].
  destruct (recover_attempt os paths b ev (mkWorld f plan)) as [[r|e] w']; cbn in *.
  - pose proof Hpost as [Heq _]. exists r, w'. rewrite <- Heq.
    split_and!; [done | done | by eapply shape_reachable | by apply Hq' | done].
  - destruct Hpost as [_ Hno]. by destruct Hno.
Qed.

(** Recovery settles every attempt.  For any history that left at least
    the prepared entry, a recovery that names the attempt's binding, brings
    valid evidence or none and meets no failure, returns a receipt: a
    terminal attempt is reported unchanged, a prepared one is classified
    safe to retry, a dispatched one by the evidence, and indeterminate
    without.  The receipt names the digest and state of the entry that ends
    the chain now on disk. *)
Theorem recovery_settles (f0 f : FS) (os : OsCall -> AttemptBoundary -> bool)
    (plan : FaultPlan AttemptBoundary) (b : AttemptBinding) (ev : option AttemptEvidence)
    (first : CanonicalRead AttemptEntry) (rest : list (CanonicalRead AttemptEntry)) :
  no_entries paths f0 -> evolves paths f0 f -> read_chain paths f = Ok (first :: rest) ->
  ae_binding (value first) = b -> wf b -> evidence_ok ev -> quiet os plan -> nonzero_sha ->
  exists r w' x y l', recover_attempt os paths b ev (mkWorld f plan) = (Ok r, w') /\
    list.last (first :: rest) = Some x /\ list.last l' = Some y /\
    read_chain paths (fs w') = Ok (rd <$> l') /\
    is_terminal (ae_state y) = true /\
    r = receipt_for b (recovery_outcome (ae_state (value x)) ev) y /\
    (is_terminal (ae_state (value x)) = true -> rd <$> l' = first :: rest).
Proof.
  intros Hf Hev Hchain Hb Hw Hok Hq Hz.
  destruct (start_refines paths f0 f Hf Hev) as (l & Hl & Hr & Hc).
  rewrite Hc in Hchain. injection Hchain as Hmap.
  destruct (calm_recovery l f os plan b ev Hl Hr Hq Hz Hw Hok) as (r & w' & Hrun & Hr' & Hl' & _ & Hrec).
  { destruct l as [|p l]; [done|]. cbn in Hmap. simplify_eq. by exists p. }
  destruct Hrec as (_ & x & y & Hx & Hy & Hterm & ->).
  exists (receipt_for b (recovery_outcome (ae_state x) ev) y), w', (rd x), y, (recovered l ev).
  rewrite <- Hmap. split_and!; try done.
  - by rewrite fmap_last, Hx.
  - by apply read_chain_repr.
  - cbn. intros Ht. f_equal. unfold recovered. rewrite Hx. by destruct (ae_state x).
Qed.

(** Recovering twice changes nothing.  After one undisturbed recovery, a
    second one, with any other evidence, reports the same terminal entry and
    leaves the chain as it was. *)
Theorem attempt_recovery_idempotent (f0 f : FS) (os : OsCall -> AttemptBoundary -> bool)
    (plan : FaultPlan AttemptBoundary) (b : AttemptBinding) (ev ev2 : option AttemptEvidence)
    (first : CanonicalRead AttemptEntry) (rest : list (CanonicalRead AttemptEntry)) :
  no_entries paths f0 -> evolves paths f0 f -> read_chain paths f = Ok (first :: rest) ->
  ae_binding (value first) = b -> wf b -> evidence_ok ev -> evidence_ok ev2 -> quiet os plan ->
  nonzero_sha ->
  exists r1 w1 r2 w2, recover_attempt os paths b ev (mkWorld f plan) = (Ok r1, w1) /\
    recover_attempt os paths b ev2 w1 = (Ok r2, w2) /\
    ar_terminal_entry_digest r2 = ar_terminal_entry_digest r1 /\
    ar_terminal_state r2 = ar_terminal_state r1 /\
    read_chain paths (fs w2) = read_chain paths (fs w1).
Proof.
  intros Hf Hev Hchain Hb Hw Hok Hok2 Hq Hz.
  destruct (start_refines paths f0 f Hf Hev) as (l & Hl & Hr & Hc).
  rewrite Hc in Hchain. injection Hchain as Hmap.
  assert (exists x, list.head l = Some x /\ ae_binding x = b) as Hhd.
  { destruct l as [|p l]; [done|]. cbn in Hmap. simplify_eq. by exists p. }
  destruct (calm_recovery l f os plan b ev Hl Hr Hq Hz Hw Hok Hhd)
    as (r1 & [f1 plan1] & Hrun1 & Hr1 & Hl1 & Hq1 & _ & x & y & Hx & Hy & Hterm & ->).
  assert (recovered (recovered l ev) ev2 = recovered l ev) as Hsame.
  { unfold recovered at 1. rewrite Hy. by destruct (ae_state y). }
  destruct (calm_recovery _ f1 os plan1 b ev2 Hl1 Hr1 Hq1 Hz Hw Hok2)
    as (r2 & w2 & Hrun2 & Hr2 & Hl2 & _ & _ & x2 & y2 & Hx2 & Hy2 & _ & ->).
  { clear -Hhd. unfold recovered. destruct l as [|p l]; [by destruct Hhd as (? & ? & _)|].
    destruct (list.last (p :: l)) as [z|]; [|done]. by destruct (ae_state z). }
  rewrite Hsame in *. simplify_eq.
  eexists _, _, _, _. split_and!; [done | done | done | done |].
  by rewrite (read_chain_repr paths _ _ Hl1 Hr1), (read_chain_repr paths _ _ Hl1 Hr2).
Qed.

Lemma attempt_quiet_run {A} (m : AttemptM A) os f plan l ok err : quiet os plan ->
  wp os (quiet os plan) m (refines paths l ok err) f -> (forall e, err e -> quiet os plan -> False) ->
  exists x w' l', m (mkWorld f plan) = (Ok x, w') /\ rtc step l l' /\ repr paths l' (fs w') /\
    ok x l' /\ quiet os (fault w').
Proof.
  intros Hq Hwp Herr.
  destruct (Hwp (mkWorld f plan) eq_refl) as [(l' & Hst & Hr & Hpost) Hq']; [done|].
  destruct (m (mkWorld f plan)) as [[x|e] w']; cbn in *.
  - exists x, w', l'. split_and!; auto.
  - destruct Hpost as [_ Hpost]. by destruct (Herr e).
Qed.

(** An undisturbed attempt succeeds.  From an empty directory, with no
    failure, [prepare_attempt], [mark_dispatch_crossed] with the prepared
    entry's digest and [mark_succeeded] with the crossing's digest and a
    nonzero receipt all return, and the three entries they return are the
    chain on disk. *)
Theorem attempt_succeeds (f0 : FS) (os : OsCall -> AttemptBoundary -> bool)
    (plan : FaultPlan AttemptBoundary) (b : AttemptBinding) (t t2 : N) (receipt : Digest) :
  no_entries paths f0 -> binding_validate b = Ok () -> wf b -> quiet os plan ->
  u64_wf t -> u64_wf t2 -> digest_wf receipt -> receipt <> ZERO ->
  exists p c s w1 w2 w3,
    prepare_attempt os paths b (mkWorld f0 plan) = (Ok p, w1) /\
    mark_dispatch_crossed os paths (edg p) t w1 = (Ok c, w2) /\
    mark_succeeded os paths (edg c) receipt t2 w2 = (Ok s, w3) /\
    ae_state s = Succeeded /\ read_chain paths (fs w3) = Ok [rd p; rd c; rd s].
Proof.
  intros Hf Hv Hw Hq Ht Ht2 Hrw Hrz.
  destruct (attempt_quiet_run _ os f0 plan [] _ _ Hq
    (attempt_prepare_refines paths os (quiet os plan) b [] f0 Hw shape_empty Hf))
    as (p & [f1 plan1] & l1 & Hrun1 & _ & Hr1 & [-> ->] & Hq1); [by intros e He; apply He|].
  destruct (attempt_quiet_run _ os f1 plan1 [prep b] _ _ Hq1
    (cross_refines paths os (quiet os plan1) (edg (prep b)) t [prep b] f1 Ht
       (shape_prepared b (conj Hv Hw)) Hr1))
    as (c & [f2 plan2] & l2 & Hrun2 & Hst2 & Hr2 & (b2 & t' & -> & -> & _) & Hq2);
    [by intros e [He _]; eapply He|].
  pose proof (shape_reachable _ _ (shape_prepared b (conj Hv Hw)) Hst2) as Hl2.
  assert (evidence_ok (Some (Completion receipt t2))) as Hev.
  { split; [|done]. cbn -[ZERO]. by rewrite bool_decide_false. }
  destruct (attempt_quiet_run _ os f2 plan2 _ _ _ Hq2
    (mark_terminal_refines paths os (quiet os plan2) (edg (cross b2 t')) (Some (Completion receipt t2))
       SUCCEED_BOUNDARIES _ f2 Hev Hl2 Hr2))
    as (s & w3 & l3 & Hrun3 & Hst3 & Hr3 & (b3 & t3 & -> & -> & _) & _); [by intros e He; eapply He|].
  pose proof (reachable_prefix _ _ Hst2) as Hpre2. apply prefix_cons_inv_1 in Hpre2 as <-%prep_inj.
  pose proof (reachable_prefix _ _ Hst3) as [k Hk]. injection Hk as Hp Hc _.
  eexists _, _, _, _, _, _. split_and!; [exact Hrun1 | exact Hrun2 | | |].
  - unfold mark_succeeded. rewrite bool_decide_false by done. exact Hrun3.
  - done.
  - rewrite (read_chain_repr paths _ _ (shape_reachable _ _ Hl2 Hst3) Hr3). cbn. congruence.
Qed.
End Guarantees.

(** * Concrete runs

    The attempt journal on a concrete platform: fixed-width codecs for its
    records and an empty directory on which each guarantee is exercised. *)

Definition all_profiles : list DurableProfileId :=
  [Zbf.PortableStrict; Zbf.ApfsStrict; Zbf.Ext4XfsStrict; Zbf.NtfsStrict].
Definition all_classes : list EffectClass :=
  [ReadOnly; ReversibleMutation; ApprovalRequiredMutation; Irreversible].
Definition all_states : list AttemptState :=
  [Prepared; DispatchCrossed; Succeeded; Failed; Indeterminate; SafeToRetry; Aborted].
Definition all_reasons : list (option AttemptAbortReason) := [None; Some ExplicitAbort].

Definition all_kinds : list (option bool) := [None; Some true; Some false].

(** Evidence: a kind byte, the receipt digest, the time. *)
Definition evidence_kind (o : option AttemptEvidence) : option bool :=
  match o with None => None | Some (Completion _ _) => Some true | Some (Failure_evidence _ _) => Some false end.
Definition evidence_digest (o : option AttemptEvidence) : Digest :=
  match o with None => ZERO | Some (Completion d _ | Failure_evidence d _) => d end.
Definition evidence_time (o : option AttemptEvidence) : N :=
  match o with None => 0%N | Some (Completion _ t | Failure_evidence _ t) => t end.

Definition evidence_of (kind d t : bytes) : option (option AttemptEvidence) :=
  (fun k : option bool => match k with
     | None => None
     | Some true => Some (Completion d (of_be t))
     | Some false => Some (Failure_evidence d (of_be t))
     end) <$> enum_of all_kinds kind.

Lemma attempt_profile_of_field x : enum_of all_profiles (enum_field all_profiles x) = Some x.
Proof. Transparent enum_of enum_field. by destruct x. Qed.
Lemma class_of_field x : enum_of all_classes (enum_field all_classes x) = Some x.
Proof. by destruct x. Qed.
Lemma attempt_state_of_field x : enum_of all_states (enum_field all_states x) = Some x.
Proof. by destruct x. Qed.
Lemma attempt_reason_of_field x : enum_of all_reasons (enum_field all_reasons x) = Some x.
Proof. by destruct x as [[]|]. Qed.
Lemma kind_of_field x : enum_of all_kinds (enum_field all_kinds x) = Some x.
Proof. by destruct x as [[]|]. Qed.
#[global] Opaque enum_of enum_field.

Lemma evidence_of_field o : option_wf evidence_wf o ->
  evidence_of (enum_field all_kinds (evidence_kind o)) (evidence_digest o) (u64_field (evidence_time o)) = Some o.
Proof.
  intros Ho. unfold evidence_of. rewrite kind_of_field.
  destruct o as [[d t|d t]|]; cbn in Ho |- *; [destruct Ho; by rewrite u64_of_field..|done].
Qed.

Lemma length_evidence_digest o : option_wf evidence_wf o -> length (evidence_digest o) = 32.
Proof. destruct o as [[]|]; cbn; [by intros [? _]..|done]. Qed.

#[global] Instance binding_fields : Fields AttemptBinding := {|
  widths := [2; 32; 32; 1; 32; 1; 32; 32];
  to_fields := fun b =>
    [u16_field (ab_schema_version b); ab_attempt_id b; ab_effect_digest b;
     enum_field all_classes (ab_effect_class b); ab_admission_anchor_digest b;
     enum_field all_profiles (ab_durable_profile_id b); ab_durable_profile_digest b;
     ab_owner_identity_digest b];
  of_fields := fun fields =>
    match fields with
    | [v; i; e; c; a; p; pdg; o] =>
        c ← enum_of all_classes c; p ← enum_of all_profiles p;
        Some (mkAttemptBinding (of_be v) i e c a p pdg o)
    | _ => None
    end |}.

#[global] Instance entry_fields : Fields AttemptEntry := {|
  widths := [2; 1; 8; 1; 32; 1; 8; 1; 1; 32; 8] ++ widths AttemptBinding;
  to_fields := fun e =>
    [u16_field (ae_schema_version e); enum_field all_states (ae_state e); u64_field (ae_sequence e);
     bool_field (is_some (ae_predecessor_entry_digest e));
     digest_opt_field (ae_predecessor_entry_digest e);
     bool_field (is_some (ae_crossed_at_unix_ns e)); u64_opt_field (ae_crossed_at_unix_ns e);
     enum_field all_reasons (ae_abort_reason e); enum_field all_kinds (evidence_kind (ae_evidence e));
     evidence_digest (ae_evidence e); u64_field (evidence_time (ae_evidence e))]
    ++ to_fields (ae_binding e);
  of_fields := fun fields =>
    match fields with
    | v :: st :: n :: t1 :: d :: t2 :: c :: why :: k :: evd :: evt :: rest =>
        st ← enum_of all_states st; pred ← digest_opt_of t1 d; crossed ← u64_opt_of t2 c;
        why ← enum_of all_reasons why; ev ← evidence_of k evd evt; b ← of_fields rest;
        Some (mkEntry (of_be v) b st (of_be n) pred crossed why ev)
    | _ => None
    end |}.

#[global] Instance binding_fields_ok : FieldsOk AttemptBinding.
Proof.
  split; [by vm_compute | intros [v i e c a p pdg o] Hx; hnf in Hx; cbn in Hx |- *;
                          rewrite ?Forall_cons_iff in Hx; destruct_and? Hx ..]; unfold digest_wf in *.
  - rewrite length_u16_field, !length_enum_field. congruence.
  - rewrite class_of_field, u16_of_field by done. cbn. by rewrite attempt_profile_of_field.
Qed.

#[global] Instance entry_fields_ok : FieldsOk AttemptEntry.
Proof.
  split; [by vm_compute | intros [v b st n pred crossed why ev] (Hv & Hb & Hn & Hp & Hc & He);
    cbn [to_fields of_fields widths entry_fields ae_schema_version ae_state ae_sequence app
    ae_predecessor_entry_digest ae_crossed_at_unix_ns ae_abort_reason ae_evidence ae_binding] in * ..].
  - rewrite !fmap_cons, to_fields_widths, length_u16_field, !length_u64_field, !length_enum_field,
      !length_bool_field, length_digest_opt, length_evidence_digest by done. done.
  - rewrite attempt_state_of_field, digest_opt_of_field, u64_opt_of_field, attempt_reason_of_field, evidence_of_field,
      of_to_fields by done. cbn. by rewrite u16_of_field, u64_of_field.
Qed.

Module Toy.
Definition letter (c : ascii) : Digest := replicate 32 c.

#[global] Instance platform : Platform := {|
  sha256 := fun _ => letter "h"; json_string := fun s => s |}.
#[global] Instance platform_ok : PlatformOk.
Proof. by intros m. Qed.
#[global] Instance binding_codec : Codec AttemptBinding := fixed_codec.
#[global] Instance binding_codec_ok : CodecOk AttemptBinding := fixed_codec_ok.
#[global] Instance entry_codec : Codec AttemptEntry := fixed_codec.
#[global] Instance entry_codec_ok : CodecOk AttemptEntry := fixed_codec_ok.

Definition paths : AttemptJournalPaths := mkAttemptPaths [RootDir; Normal "attempt"].
Definition b : AttemptBinding :=
  AttemptBinding_new (letter "i") (letter "e") Irreversible (letter "a") Zbf.PortableStrict (letter "w").
Definition f0 : FS := ∅.
Definition never : OsCall -> AttemptBoundary -> bool := fun _ _ => false.

Lemma b_valid : binding_validate b = Ok ().
Proof. reflexivity. Qed.
Lemma b_wf : wf b.
Proof. split; [by vm_compute | repeat constructor]. Qed.
Lemma f0_empty : no_entries paths f0.
Proof. intros n _. apply lookup_empty. Qed.
Lemma attempt_quiet_ok : quiet never FaultPlan_none.
Proof. split; [done | by right]. Qed.
Lemma sha_ok : nonzero_sha.
Proof. by intros m. Qed.

(** A prepare that crashes once the entry is renamed into place. *)
Definition crashed : FS :=
  fs (snd (run paths never (OpPrepare b) (mkWorld f0 (FaultPlan_crash_at PrepareAfterRename)))).

Lemma attempt_crashed_evolves : evolves paths f0 crashed.
Proof. apply (evolves_op paths f0 f0 never (OpPrepare b)); [exact b_wf | constructor]. Qed.

Lemma attempt_chain_law_witness :
  evolves paths f0 crashed /\
  fst (run paths never (OpAbort (letter "h")) (mkWorld crashed FaultPlan_none)) <> Some Panic.
Proof.
  split; [exact attempt_crashed_evolves|].
  exact (proj2 (attempt_chain_law paths f0 crashed never (OpAbort (letter "h")) FaultPlan_none
                  f0_empty attempt_crashed_evolves I)).
Defined.

Lemma attempt_succeeds_witness : exists p c s w1 w2 w3,
  prepare_attempt never paths b (mkWorld f0 FaultPlan_none) = (Ok p, w1) /\
  mark_dispatch_crossed never paths (edg p) 5 w1 = (Ok c, w2) /\
  mark_succeeded never paths (edg c) (letter "r") 6 w2 = (Ok s, w3) /\
  ae_state s = Succeeded /\ read_chain paths (fs w3) = Ok [rd p; rd c; rd s].
Proof.
  apply (attempt_succeeds paths f0 never FaultPlan_none b 5 6 (letter "r") f0_empty b_valid b_wf attempt_quiet_ok);
    [by vm_compute | by vm_compute | reflexivity | discriminate].
Defined.

(** A prepared attempt, and the same attempt after a calm recovery. *)
Definition prepared : FS := fs (snd (run paths never (OpPrepare b) (mkWorld f0 FaultPlan_none))).
Definition settled : FS :=
  fs (snd (run paths never (OpRecover b None) (mkWorld prepared FaultPlan_none))).

Lemma prepared_evolves : evolves paths f0 prepared.
Proof. apply (evolves_op paths f0 f0 never (OpPrepare b)); [exact b_wf | constructor]. Qed.

Lemma attempt_settled_evolves : evolves paths f0 settled.
Proof.
  apply (evolves_op paths f0 prepared never (OpRecover b None));
    [split; [exact b_wf | exact I] | exact prepared_evolves].
Qed.

Lemma prepared_repr : repr paths [prep b] prepared.
Proof.
  destruct (attempt_quiet_run paths _ never f0 FaultPlan_none [] _ _ attempt_quiet_ok
    (attempt_prepare_refines paths never _ b [] f0 b_wf shape_empty f0_empty))
    as (x & w' & l' & Hrun & _ & Hr & [_ ->] & _).
  - intros e He. apply He; [done | exact b_valid].
  - unfold prepared. cbn [run snd]. by rewrite Hrun.
Qed.

Lemma prepared_shape : shape [prep b].
Proof. apply shape_prepared. split; [exact b_valid | exact b_wf]. Qed.

Lemma prepared_chain : read_chain paths prepared = Ok [rd (prep b)].
Proof. exact (read_chain_repr paths [prep b] prepared prepared_shape prepared_repr). Qed.

Lemma settled_chain : exists x, read_chain paths settled = Ok [rd (prep b); x] /\
  ae_state (value x) = SafeToRetry.
Proof.
  destruct (calm_recovery paths [prep b] prepared never FaultPlan_none b None prepared_shape
    prepared_repr attempt_quiet_ok sha_ok b_wf I (ex_intro _ (prep b) (conj eq_refl eq_refl)))
    as (r & w' & Hrun & Hr & Hl & _).
  exists (rd (entry_safe_to_retry (prep b) (edg (prep b)) 2)). split; [|done].
  unfold settled. cbn [run snd]. rewrite Hrun. exact (read_chain_repr paths _ _ Hl Hr).
Qed.

Lemma failure_ok : evidence_ok (Some (Failure_evidence (letter "r") 3)).
Proof. split; [reflexivity | split; [reflexivity | by vm_compute]]. Qed.

Lemma attempt_append_only_witness : exists l l', read_chain paths f0 = Ok (rd <$> l) /\
  read_chain paths prepared = Ok (rd <$> l') /\ l `prefix_of` l'.
Proof.
  destruct (attempt_append_only paths f0 f0 prepared f0_empty (evolves_refl paths f0) prepared_evolves)
    as (l & l' & H1 & H2 & H3 & _).
  exists l, l'. exact (conj H1 (conj H2 H3)).
Defined.

Lemma never_dispatched_when_retryable_witness :
  fst (run paths (fun _ _ => true) (OpCross (letter "h") 9) (mkWorld settled FaultPlan_none)) =
    Some (Typed AlreadyTerminal).
Proof.
  destruct settled_chain as (x & Hchain & Hst).
  refine (proj2 (never_dispatched_when_retryable paths f0 settled settled [rd (prep b); x] x
    (fun _ _ => true) FaultPlan_none (letter "h") 9 f0_empty attempt_settled_evolves Hchain _ (or_introl Hst)
    (evolves_refl paths settled) _)); [right; left | by vm_compute].
Defined.

Lemma recovery_settles_witness : exists r w' y l',
  recover_attempt never paths b (Some (Failure_evidence (letter "r") 3)) (mkWorld prepared FaultPlan_none)
    = (Ok r, w') /\
  list.last l' = Some y /\ read_chain paths (fs w') = Ok (rd <$> l') /\
  is_terminal (ae_state y) = true /\ r = receipt_for b ClassifiedSafeToRetry y.
Proof.
  destruct (recovery_settles paths f0 prepared never FaultPlan_none b
    (Some (Failure_evidence (letter "r") 3)) (rd (prep b)) [] f0_empty prepared_evolves prepared_chain
    eq_refl b_wf failure_ok attempt_quiet_ok sha_ok) as (r & w' & x & y & l' & H1 & H2 & H3 & H4 & H5 & H6 & _).
  injection H2 as <-. exists r, w', y, l'. exact (conj H1 (conj H3 (conj H4 (conj H5 H6)))).
Defined.

Lemma attempt_recovery_idempotent_witness : exists r1 w1 r2 w2,
  recover_attempt never paths b None (mkWorld prepared FaultPlan_none) = (Ok r1, w1) /\
  recover_attempt never paths b None w1 = (Ok r2, w2) /\
  ar_terminal_entry_digest r2 = ar_terminal_entry_digest r1 /\
  ar_terminal_state r2 = ar_terminal_state r1 /\
  read_chain paths (fs w2) = read_chain paths (fs w1).
Proof.
  exact (attempt_recovery_idempotent paths f0 prepared never FaultPlan_none b None None (rd (prep b)) []
    f0_empty prepared_evolves prepared_chain eq_refl b_wf I I attempt_quiet_ok sha_ok).
Defined.
End Toy.
