(* ===== verification/Ordering.v ===== *)
(** Derived orders.  A type that derives [Ord] in the source has a comparison
    function here: byte strings and vectors compare lexicographically, records
    field by field.  The file holds the comparison class and its laws, strictly
    ascending vectors ([windows(2)] checks), the standard library's binary
    search, and [BTreeSet] as the ascending list of its members. *)

From S2P Require Import Prelude.
From stdpp Require Export sorting.

(** * Comparison *)

Class Ord (A : Type) := cmp : A -> A -> comparison.

Class OrdOk (A : Type) `{Ord A} := {
  cmp_eq : forall x y : A, cmp x y = Eq <-> x = y;
  cmp_antisym : forall x y : A, cmp y x = CompOpp (cmp x y);
  cmp_trans : forall x y z : A, cmp x y = Lt -> cmp y z = Lt -> cmp x z = Lt }.

(** [a < b] and [a >= b] of the source. *)
Definition ltb {A} `{Ord A} (x y : A) : bool := match cmp x y with Lt => true | _ => false end.
Definition geb {A} `{Ord A} (x y : A) : bool := negb (ltb x y).

Definition then_cmp (c d : comparison) : comparison := match c with Eq => d | _ => c end.

(** [Vec<T>] and [[T; n]]: lexicographic. *)
Fixpoint lex {A} `{Ord A} (l1 l2 : list A) : comparison :=
  match l1, l2 with
  | [], [] => Eq
  | [], _ :: _ => Lt
  | _ :: _, [] => Gt
  | x :: l1', y :: l2' => then_cmp (cmp x y) (lex l1' l2')
  end.

#[global] Instance N_ord : Ord N := N.compare.
#[global] Instance nat_ord : Ord nat := Nat.compare.
#[global] Instance list_ord {A} `{Ord A} : Ord (list A) := lex.
#[global] Instance prod_ord {A B} `{Ord A, Ord B} : Ord (A * B) :=
  fun p q => then_cmp (cmp (fst p) (fst q)) (cmp (snd p) (snd q)).

(** The order a type inherits along an injective view of its fields. *)
Definition cmp_via {A B} `{Ord B} (f : A -> B) : Ord A := fun x y => cmp (f x) (f y).

#[global] Instance ascii_ord : Ord ascii := cmp_via N_of_ascii.
#[global] Instance string_ord : Ord string := cmp_via string_bytes.

(** * Ascending vectors *)

(** [!values.windows(2).any(|pair| pair[0] >= pair[1])]. *)
Fixpoint strictly_ascending {A} `{Ord A} (l : list A) : bool :=
  match l with
  | x :: (y :: _) as l' => ltb x y && strictly_ascending l'
  | _ => true
  end.

(** * Sorting: [slice::sort] and [sort_by_key], which are stable. *)
Fixpoint insert_by_key {A K} `{Ord K} (key : A -> K) (x : A) (l : list A) : list A :=
  match l with
  | [] => [x]
  | y :: l' => if geb (key y) (key x) then x :: l else y :: insert_by_key key x l'
  end.

Definition sort_by_key {A K} `{Ord K} (key : A -> K) (l : list A) : list A :=
  foldr (insert_by_key key) [] l.
Definition sort {A} `{Ord A} (l : list A) : list A := sort_by_key id l.

(** [for left in 0..len { if values[left + 1..].contains(&values[left]) .. }]. *)
Fixpoint has_duplicate {A} `{EqDecision A} (l : list A) : bool :=
  match l with
  | [] => false
  | x :: l' => bool_decide (x ∈ l') || has_duplicate l'
  end.

(** * Binary search

    [slice::binary_search_by]: the loop halves [size] until one element is
    left, then compares it. *)
Fixpoint bs_loop {A} (f : A -> comparison) (l : list A) (fuel base size : nat) : nat :=
  match fuel with
  | O => base
  | S fuel' =>
      if (size <=? 1)%nat then base
      else
        let half := (size / 2)%nat in
        let mid := (base + half)%nat in
        match f <$> l !! mid with
        | Some Gt => bs_loop f l fuel' base (size - half)
        | _ => bs_loop f l fuel' mid (size - half)
        end
  end.

(** [binary_search_by(f).ok()]. *)
Definition binary_search_by {A} (f : A -> comparison) (l : list A) : option nat :=
  let base := bs_loop f l (length l) 0 (length l) in
  match f <$> l !! base with Some Eq => Some base | _ => None end.

Definition binary_search {A} `{Ord A} (x : A) (l : list A) : option nat :=
  binary_search_by (fun y => cmp y x) l.
Definition binary_search_by_key {A K} `{Ord K} (key : A -> K) (k : K) (l : list A) : option nat :=
  binary_search_by (fun y => cmp (key y) k) l.

(** * [BTreeSet] *)

(** [insert]: whether the value was absent, and the set. *)
Fixpoint bset_insert {A} `{Ord A} (x : A) (s : list A) : bool * list A :=
  match s with
  | [] => (true, [x])
  | y :: s' =>
      match cmp x y with
      | Lt => (true, x :: s)
      | Eq => (false, s)
      | Gt => let '(fresh, s'') := bset_insert x s' in (fresh, y :: s'')
      end
  end.

(** [contains]. *)
Definition bset_mem {A} `{Ord A} (x : A) (s : list A) : bool :=
  existsb (fun y => match cmp x y with Eq => true | _ => false end) s.

(** [iter().collect::<BTreeSet<_>>()]. *)
Definition bset_of_list {A} `{Ord A} (l : list A) : list A :=
  foldl (fun s x => snd (bset_insert x s)) [] l.

(** [intersection], [is_subset]. *)
Definition bset_inter {A} `{Ord A} (s t : list A) : list A := List.filter (fun x => bset_mem x t) s.
Definition bset_subset {A} `{Ord A} (s t : list A) : bool := forallb (fun x => bset_mem x t) s.

(** * Laws of comparison *)

#[global] Instance N_ord_ok : OrdOk N.
Proof.
  split; unfold cmp, N_ord.
  - apply N.compare_eq_iff.
  - intros. apply N.compare_antisym.
  - intros x y z. rewrite !N.compare_lt_iff. lia.
Qed.

#[global] Instance nat_ord_ok : OrdOk nat.
Proof.
  split; unfold cmp, nat_ord.
  - apply Nat.compare_eq_iff.
  - intros. apply Nat.compare_antisym.
  - intros x y z. rewrite !Nat.compare_lt_iff. lia.
Qed.

Lemma cmp_via_ok {A B} `{Ord B, !OrdOk B} (f : A -> B) :
  Inj (=) (=) f -> @OrdOk A (cmp_via f).
Proof.
  intros Hf. split; unfold cmp, cmp_via.
  - intros x y. rewrite cmp_eq. split; [apply Hf|congruence].
  - intros. apply cmp_antisym.
  - intros x y z. apply cmp_trans.
Qed.

#[global] Instance ascii_ord_ok : OrdOk ascii.
Proof.
  apply (cmp_via_ok N_of_ascii). intros x y Hxy.
  by rewrite <- (ascii_N_embedding x), Hxy, ascii_N_embedding.
Qed.

Section Derived.
Context {A : Type} `{Ord A, !OrdOk A}.
Implicit Types (x y z : A) (l : list A).

Lemma cmp_refl x : cmp x x = Eq.
Proof. by apply cmp_eq. Qed.

Lemma ltb_lt x y : ltb x y = true <-> cmp x y = Lt.
Proof. unfold ltb. by destruct (cmp x y). Qed.

Lemma lex_antisym l1 l2 : lex l2 l1 = CompOpp (lex l1 l2).
Proof.
  revert l2; induction l1 as [|x l1 IH]; intros [|y l2]; cbn; [done..|].
  rewrite (cmp_antisym x y). destruct (cmp x y); cbn; [apply IH|done..].
Qed.

Lemma lex_eq l1 l2 : lex l1 l2 = Eq <-> l1 = l2.
Proof.
  revert l2; induction l1 as [|x l1 IH]; intros [|y l2]; cbn; [done..|].
  destruct (cmp x y) eqn:Hxy; cbn.
  - apply cmp_eq in Hxy as ->. rewrite IH. split; congruence.
  - split; [done|]. intros [= -> _]. by rewrite cmp_refl in Hxy.
  - split; [done|]. intros [= -> _]. by rewrite cmp_refl in Hxy.
Qed.

Lemma lex_trans l1 l2 l3 : lex l1 l2 = Lt -> lex l2 l3 = Lt -> lex l1 l3 = Lt.
Proof.
  revert l2 l3; induction l1 as [|x l1 IH]; intros [|y l2] [|z l3]; cbn; [done..|].
  destruct (cmp x y) eqn:Hxy; cbn; [|intros _|done].
  - apply cmp_eq in Hxy as ->. destruct (cmp y z); cbn; [apply IH|done..].
  - destruct (cmp y z) eqn:Hyz; cbn; [| |done].
    + apply cmp_eq in Hyz as ->. by rewrite Hxy.
    + intros _. by rewrite (cmp_trans _ _ _ Hxy Hyz).
Qed.

#[global] Instance list_ord_ok : OrdOk (list A).
Proof. split; [apply lex_eq|apply lex_antisym|apply lex_trans]. Qed.

Lemma cmp_lt_irrefl x : cmp x x <> Lt.
Proof. by rewrite cmp_refl. Qed.

Lemma cmp_gt_lt x y : cmp x y = Gt <-> cmp y x = Lt.
Proof. rewrite (cmp_antisym x y). destruct (cmp x y); cbn; split; congruence. Qed.

End Derived.

#[global] Instance prod_ord_ok {A B} `{Ord A, !OrdOk A, Ord B, !OrdOk B} : OrdOk (A * B).
Proof.
  split; unfold cmp, prod_ord.
  - intros [a b] [a' b']; cbn. destruct (cmp a a') eqn:Ha; cbn.
    + apply cmp_eq in Ha as ->. rewrite cmp_eq. split; congruence.
    + split; [done|]. intros [= -> _]. by rewrite cmp_refl in Ha.
    + split; [done|]. intros [= -> _]. by rewrite cmp_refl in Ha.
  - intros [a b] [a' b']; cbn. rewrite (cmp_antisym a a').
    destruct (cmp a a'); cbn; [apply cmp_antisym|done..].
  - intros [a b] [a' b'] [a'' b'']; cbn. destruct (cmp a a') eqn:Ha; cbn; [|intros _|done].
    + apply cmp_eq in Ha as ->. destruct (cmp a' a''); cbn; [apply cmp_trans|done..].
    + destruct (cmp a' a'') eqn:Ha'; cbn; [| |done].
      * apply cmp_eq in Ha' as ->. by rewrite Ha.
      * intros _. by rewrite (cmp_trans _ _ _ Ha Ha').
Qed.

#[global] Instance string_ord_ok : OrdOk string.
Proof.
  apply (cmp_via_ok string_bytes). intros x y Hxy.
  rewrite <- (String.string_of_list_ascii_of_string x), <- (String.string_of_list_ascii_of_string y).
  by f_equal.
Qed.

(** * Ascending vectors and binary search *)

Section Ascending.
Context {A : Type} `{Ord A, !OrdOk A}.
Implicit Types (x y : A) (l s : list A).

Definition below x y : Prop := cmp x y = Lt.

Lemma strictly_ascending_spec l : strictly_ascending l = true <-> StronglySorted below l.
Proof.
  split.
  - intros Hl. apply Sorted_StronglySorted; [intros x y z; apply cmp_trans|].
    induction l as [|x [|y l] IH]; [repeat constructor..|].
    change (ltb x y && strictly_ascending (y :: l) = true) in Hl.
    apply andb_true_iff in Hl as [Hxy Hl]. constructor; [by apply IH|].
    constructor. by apply ltb_lt.
  - induction 1 as [|x l Hl IH Hx]; [done|]. destruct l as [|y l]; [done|].
    change (ltb x y && strictly_ascending (y :: l) = true). rewrite IH, andb_true_r.
    apply ltb_lt. by apply Forall_cons in Hx as [? _].
Qed.

Lemma sorted_lookup l i j x y :
  StronglySorted below l -> l !! i = Some x -> l !! j = Some y -> i < j -> below x y.
Proof.
  intros Hl. revert i j. induction Hl as [|z l Hl IH Hz]; intros [|i] [|j] Hi Hj Hij;
    cbn in Hi, Hj; simplify_eq; try lia.
  - rewrite Forall_lookup in Hz. by eapply Hz.
  - eapply (IH i j); [done..|lia].
Qed.

Lemma sorted_NoDup l : StronglySorted below l -> NoDup l.
Proof.
  induction 1 as [|x l Hl IH Hx]; [constructor|]. constructor; [|done]. intros Hin.
  rewrite Forall_forall in Hx. by apply (cmp_lt_irrefl x), Hx.
Qed.

Section ByKey.
Context {B : Type} (key : B -> A) (k : A) (l : list B).
Hypothesis Hl : StronglySorted below (key <$> l).

(** The window of the loop always contains the position of the key. *)
Lemma bs_loop_window t fuel base size b :
  l !! t = Some b -> key b = k -> (size <= fuel)%nat -> (0 < size)%nat ->
  (base <= t < base + size)%nat -> (base + size <= length l)%nat ->
  bs_loop (fun e => cmp (key e) k) l fuel base size = t.
Proof.
  intros Ht Hk. revert base size.
  induction fuel as [|fuel IH]; intros base size Hf Hs Hw Hn; [lia|]. cbn [bs_loop].
  destruct (Nat.leb_spec size 1) as [H1|H1]; [lia|].
  assert (0 < size / 2 <= size - size / 2)%nat as Hhalf.
  { pose proof (Nat.div_mod_eq size 2). pose proof (Nat.mod_upper_bound size 2). lia. }
  destruct (lookup_lt_is_Some_2 l (base + size / 2)) as [m Hm]; [lia|].
  rewrite Hm. cbn [fmap option_fmap option_map].
  assert (Hpos : forall i j c d, l !! i = Some c -> l !! j = Some d -> i < j -> below (key c) (key d)).
  { intros i j c d Hi Hj. eapply sorted_lookup; [exact Hl|..]; by rewrite list_lookup_fmap, ?Hi, ?Hj. }
  destruct (cmp (key m) k) eqn:Hc.
  - apply IH; [lia..| |lia]. apply cmp_eq in Hc.
    destruct (lt_eq_lt_dec t (base + size / 2)) as [[Hlt|Heq]|Hgt]; [|lia|lia].
    exfalso. specialize (Hpos _ _ _ _ Ht Hm Hlt). rewrite Hk, Hc in Hpos. by apply cmp_lt_irrefl in Hpos.
  - apply IH; [lia..| |lia].
    destruct (lt_eq_lt_dec t (base + size / 2)) as [[Hlt|Heq]|Hgt]; [|lia|lia].
    exfalso. specialize (Hpos _ _ _ _ Ht Hm Hlt). rewrite Hk in Hpos.
    apply (cmp_lt_irrefl k). by eapply cmp_trans.
  - apply IH; [lia..| |lia].
    destruct (lt_eq_lt_dec t (base + size / 2)) as [[Hlt|Heq]|Hgt]; [lia| |].
    + exfalso. subst t. rewrite Hm in Ht. injection Ht as ->. rewrite Hk, cmp_refl in Hc. done.
    + exfalso. specialize (Hpos _ _ _ _ Hm Ht Hgt). rewrite Hk in Hpos. unfold below in Hpos. congruence.
Qed.

(** Over an ascending vector, binary search finds a key exactly when some
    element carries it. *)
Lemma binary_search_by_key_spec i :
  binary_search_by_key key k l = Some i <-> exists b, l !! i = Some b /\ key b = k.
Proof.
  unfold binary_search_by_key, binary_search_by. split.
  - intros Hr. destruct (l !! _) as [b|] eqn:Hb; cbn in Hr; [|done].
    destruct (cmp (key b) k) eqn:Hc; [|done..]. injection Hr as <-. exists b.
    split; [done|]. by apply cmp_eq.
  - intros (b & Hb & Hk). pose proof (lookup_lt_Some _ _ _ Hb) as Hi.
    rewrite (bs_loop_window i (length l) 0 (length l) b) by (done || lia).
    rewrite Hb. cbn. by rewrite Hk, cmp_refl.
Qed.

Lemma binary_search_by_key_None :
  binary_search_by_key key k l = None <-> k ∉ key <$> l.
Proof.
  split.
  - intros Hn Hin. apply list_elem_of_fmap in Hin as (b & Hk & Hb).
    apply list_elem_of_lookup in Hb as [i Hi].
    assert (binary_search_by_key key k l = Some i) by (apply binary_search_by_key_spec; eauto).
    congruence.
  - intros Hn. destruct (binary_search_by_key key k l) as [i|] eqn:Hs; [|done].
    apply binary_search_by_key_spec in Hs as (b & Hb & Hk). exfalso. apply Hn.
    apply list_elem_of_fmap. exists b. split; [done|]. by eapply list_elem_of_lookup_2.
Qed.
End ByKey.

Lemma binary_search_elem_of x l :
  StronglySorted below l -> (is_Some (binary_search x l) <-> x ∈ l).
Proof.
  intros Hl. change (binary_search x l) with (binary_search_by_key id x l).
  assert (StronglySorted below (id <$> l)) by (by rewrite list_fmap_id).
  split.
  - intros [i Hi]. apply binary_search_by_key_spec in Hi as (b & Hb & <-); [|done].
    by eapply list_elem_of_lookup_2.
  - intros Hin. apply not_eq_None_Some. intros Hn.
    apply binary_search_by_key_None in Hn; [|done]. apply Hn. by rewrite list_fmap_id.
Qed.

(** * Sets *)

Lemma bset_mem_spec x s : bset_mem x s = true <-> x ∈ s.
Proof.
  unfold bset_mem. rewrite existsb_exists. split.
  - intros (y & Hy & Hc). destruct (cmp x y) eqn:Hxy; [|done..]. apply cmp_eq in Hxy as ->.
    by apply list_elem_of_In.
  - intros Hx. exists x. rewrite cmp_refl. by apply list_elem_of_In in Hx.
Qed.

Lemma bset_insert_spec x s :
  StronglySorted below s ->
  StronglySorted below (snd (bset_insert x s)) /\
  (forall y, y ∈ snd (bset_insert x s) <-> y = x \/ y ∈ s) /\
  (fst (bset_insert x s) = true <-> x ∉ s).
Proof.
  induction 1 as [|y s Hs IH Hy]; cbn.
  - split; [repeat constructor|]. split; [intros; by rewrite list_elem_of_singleton, elem_of_nil; intuition|].
    split; [intros _; apply not_elem_of_nil|done].
  - destruct (cmp x y) eqn:Hxy; cbn.
    + apply cmp_eq in Hxy as ->. split; [by constructor|].
      split; [|split; [done|intros Hn; exfalso; apply Hn; by left]].
      intros z. rewrite elem_of_cons. intuition.
    + assert (Hall : Forall (below x) (y :: s)).
      { constructor; [done|]. eapply Forall_impl; [exact Hy|]. intros z. by apply cmp_trans. }
      split; [by constructor; [constructor|]|]. split; [intros; by rewrite elem_of_cons|].
      split; [intros _ Hin|done]. rewrite Forall_forall in Hall. by apply (cmp_lt_irrefl x), Hall.
    + destruct (bset_insert x s) as [fresh s'] eqn:Hi; cbn in *. destruct IH as (IH1 & IH2 & IH3).
      apply cmp_gt_lt in Hxy. split; [|split].
      * constructor; [done|]. apply Forall_forall. intros z Hz. apply IH2 in Hz as [->|Hz]; [done|].
        rewrite Forall_forall in Hy. by apply Hy.
      * intros z. rewrite !elem_of_cons, IH2. tauto.
      * rewrite IH3, not_elem_of_cons. split; [|by intros [? ?]]. intros Hn. split; [|done].
        intros ->. by apply cmp_lt_irrefl in Hxy.
Qed.

Lemma bset_of_list_spec l :
  StronglySorted below (bset_of_list l) /\ forall y, y ∈ bset_of_list l <-> y ∈ l.
Proof.
  unfold bset_of_list.
  assert (Hgen : forall s, StronglySorted below s ->
    StronglySorted below (foldl (fun s x => snd (bset_insert x s)) s l) /\
    forall y, y ∈ foldl (fun s x => snd (bset_insert x s)) s l <-> y ∈ s \/ y ∈ l).
  { induction l as [|x l IH]; intros s Hs; cbn.
    - split; [done|]. intros y. rewrite elem_of_nil. tauto.
    - destruct (bset_insert_spec x s Hs) as (H1 & H2 & _). destruct (IH _ H1) as [H3 H4].
      split; [done|]. intros y. rewrite H4, H2, elem_of_cons. tauto. }
  destruct (Hgen [] ltac:(constructor)) as [H1 H2]. split; [done|].
  intros y. rewrite H2, elem_of_nil. tauto.
Qed.

Lemma elem_of_bset_of_list x l : x ∈ bset_of_list l <-> x ∈ l.
Proof. apply bset_of_list_spec. Qed.

Lemma elem_of_bset_inter x s t : x ∈ bset_inter s t <-> x ∈ s /\ x ∈ t.
Proof.
  unfold bset_inter. rewrite !list_elem_of_In, filter_In, <- !list_elem_of_In, bset_mem_spec. done.
Qed.

Lemma sorted_filter (p : A -> bool) s : StronglySorted below s -> StronglySorted below (List.filter p s).
Proof.
  induction 1 as [|x s Hs IH Hx]; cbn; [constructor|]. destruct (p x); [|done].
  constructor; [done|]. apply Forall_forall. intros y Hy.
  rewrite list_elem_of_In, filter_In, <- list_elem_of_In in Hy. rewrite Forall_forall in Hx. destruct Hy. by apply Hx.
Qed.

Lemma bset_subset_spec s t : bset_subset s t = true <-> forall x, x ∈ s -> x ∈ t.
Proof.
  unfold bset_subset. rewrite forallb_forall. split; intros Hs x Hx.
  - apply bset_mem_spec, Hs. by apply list_elem_of_In.
  - apply bset_mem_spec, Hs. by apply list_elem_of_In.
Qed.

Lemma has_duplicate_spec `{EqDecision A} l : has_duplicate l = false <-> NoDup l.
Proof.
  induction l as [|x l IH]; cbn; [split; [constructor|done]|].
  rewrite orb_false_iff, bool_decide_eq_false, NoDup_cons, IH. done.
Qed.

Lemma insert_by_key_perm {B} (key : B -> A) (z : B) (l : list B) : insert_by_key key z l ≡ₚ z :: l.
Proof.
  induction l as [|y l IH]; cbn; [done|]. destruct (geb (key y) (key z)); [done|]. rewrite IH. apply perm_swap.
Qed.

Lemma sort_by_key_perm {B} (key : B -> A) (l : list B) : sort_by_key key l ≡ₚ l.
Proof. induction l as [|y l IH]; cbn; [done|]. by rewrite insert_by_key_perm, IH. Qed.

Lemma sort_by_key_sorted {B} (key : B -> A) (l : list B) :
  Sorted (fun a b : B => geb (key b) (key a)) (sort_by_key key l).
Proof.
  induction l as [|z l IH]; [constructor|]. change (sort_by_key key (z :: l)) with (insert_by_key key z (sort_by_key key l)).
  revert IH. generalize (sort_by_key key l). clear l. induction 1 as [|y s Hs IH Hy]; cbn; [by repeat constructor|].
  destruct (geb (key y) (key z)) eqn:E; [constructor; [by constructor|constructor; by rewrite E]|].
  constructor; [done|].
  assert (Hyz : geb (key z) (key y)).
  { unfold geb, ltb in *. rewrite (cmp_antisym (key y) (key z)). destruct (cmp (key y) (key z)); cbn in *; done. }
  destruct s as [|w s]; cbn; [by constructor|]. destruct (geb (key w) (key z)); constructor; [done|].
  by inversion Hy.
Qed.

(** Elements with equal keys keep their order. *)
Lemma sort_by_key_stable {B} (key : B -> A) (p : B -> bool) (l : list B) :
  (forall a b, p a = true -> p b = true -> key a = key b) ->
  List.filter p (sort_by_key key l) = List.filter p l.
Proof.
  intros Hp. induction l as [|z l IH]; [done|]. change (sort_by_key key (z :: l)) with (insert_by_key key z (sort_by_key key l)).
  assert (Hi : forall s : list B, List.filter p (insert_by_key key z s) = if p z then z :: List.filter p s else List.filter p s).
  { induction s as [|y s IHs]; [done|]. cbn [insert_by_key]. destruct (geb (key y) (key z)) eqn:E; [done|].
    cbn [List.filter]. rewrite IHs. destruct (p y) eqn:Hy, (p z) eqn:Hz; try done.
    rewrite (Hp y z Hy Hz) in E. unfold geb, ltb in E. by rewrite cmp_refl in E. }
  rewrite Hi, IH. done.
Qed.

Lemma elem_of_sort x l : x ∈ sort l <-> x ∈ l.
Proof. unfold sort. by rewrite sort_by_key_perm. Qed.

(** Sorting distinct keys gives an ascending vector. *)
Lemma sort_by_key_ascending {B} (key : B -> A) (l : list B) :
  NoDup (key <$> l) -> StronglySorted below (key <$> sort_by_key key l).
Proof.
  intros Hnd.
  assert (Hnd' : NoDup (key <$> sort_by_key key l)) by (by rewrite sort_by_key_perm).
  assert (Hs : Sorted (fun a b : B => geb (key b) (key a)) (sort_by_key key l)).
  { apply sort_by_key_sorted. }
  apply Sorted_StronglySorted; [intros x y z; apply cmp_trans|].
  revert Hnd'. induction Hs as [|x s Hs IH Hx]; cbn; intros Hn; [constructor|].
  apply NoDup_cons in Hn as [Hn1 Hn2]. constructor; [by apply IH|].
  destruct Hx as [|y s Hxy]; cbn; constructor. unfold below.
  unfold geb, ltb in Hxy. rewrite (cmp_antisym (key x) (key y)) in Hxy.
  destruct (cmp (key x) (key y)) eqn:Hc; [|done|cbn in Hxy; contradiction].
  exfalso. apply cmp_eq in Hc. apply Hn1. rewrite Hc. by left.
Qed.

Lemma sort_ascending l : NoDup l -> StronglySorted below (sort l).
Proof.
  intros Hn. rewrite <- (list_fmap_id (sort l)). apply sort_by_key_ascending. by rewrite list_fmap_id.
Qed.

(** Ascending lists with the same members are equal. *)
Lemma sorted_ext s t :
  StronglySorted below s -> StronglySorted below t -> (forall x, x ∈ s <-> x ∈ t) -> s = t.
Proof.
  intros Hs. revert t. induction Hs as [|x s Hs IH Hx]; intros t Ht Hext.
  - destruct t as [|y t]; [done|]. exfalso. apply (not_elem_of_nil y). apply (proj2 (Hext y)). by left.
  - destruct Ht as [|y t Ht Hy]; [exfalso; apply (not_elem_of_nil x); apply (proj1 (Hext x)); by left|].
    rewrite Forall_forall in Hx, Hy.
    assert (x = y) as ->.
    { assert (x ∈ y :: t) as H1 by (apply Hext; by left).
      assert (y ∈ x :: s) as H2 by (apply Hext; by left).
      apply elem_of_cons in H1 as [->|H1]; [done|]. apply elem_of_cons in H2 as [->|H2]; [done|].
      exfalso. apply (cmp_lt_irrefl x). eapply cmp_trans; [by apply Hx|by apply Hy]. }
    f_equal. apply IH; [done|]. intros z. specialize (Hext z). rewrite !elem_of_cons in Hext.
    split; intros Hz.
    + destruct (proj1 Hext (or_intror Hz)) as [->|]; [|done]. exfalso. by apply (cmp_lt_irrefl y), Hx.
    + destruct (proj2 Hext (or_intror Hz)) as [->|]; [|done]. exfalso. by apply (cmp_lt_irrefl y), Hy.
Qed.

(** Sorting by distinct keys does not depend on the order of the list. *)
Lemma sort_by_key_unique {B} (key : B -> A) (l l' : list B) :
  NoDup (key <$> l) -> l ≡ₚ l' -> sort_by_key key l = sort_by_key key l'.
Proof.
  intros Hnd Hp. assert (Hnd' : NoDup (key <$> l')) by (by rewrite <- Hp).
  assert (He : key <$> sort_by_key key l = key <$> sort_by_key key l').
  { apply sorted_ext; [by apply sort_by_key_ascending..|]. intros x. by rewrite !sort_by_key_perm, Hp. }
  apply list_eq. intros i. assert (Hi := f_equal (fun s => s !! i) He). cbn in Hi. rewrite !list_lookup_fmap in Hi.
  destruct (sort_by_key key l !! i) as [n|] eqn:Hn, (sort_by_key key l' !! i) as [m|] eqn:Hm; try done. cbn in Hi. injection Hi as Hi.
  apply list_elem_of_lookup_2 in Hn, Hm. rewrite sort_by_key_perm in Hn, Hm. rewrite <- Hp in Hm. f_equal.
  apply list_elem_of_lookup in Hn as (a & Ha), Hm as (b & Hb). assert (a = b) as ->; [|congruence].
  apply (NoDup_lookup (key <$> l) a b (key n)); [done|by rewrite list_lookup_fmap, Ha|by rewrite list_lookup_fmap, Hb, Hi].
Qed.

(** An ascending list is its own sorting, and that of all its permutations. *)
Lemma sort_by_key_id {B} (key : B -> A) (l : list B) :
  StronglySorted below (key <$> l) -> sort_by_key key l = l.
Proof.
  induction l as [|z l IH]; [done|]. rewrite fmap_cons. intros Hs. inversion Hs as [|? ? Hl Hz]; subst.
  change (sort_by_key key (z :: l)) with (insert_by_key key z (sort_by_key key l)). rewrite (IH Hl).
  destruct l as [|y l]; [done|]. cbn. inversion Hz as [|? ? Hzy _]; subst. unfold geb, ltb.
  by rewrite (cmp_antisym (key z) (key y)), Hzy.
Qed.

Lemma sort_by_key_canonical {B} (key : B -> A) (l l' : list B) :
  StronglySorted below (key <$> l) -> l' ≡ₚ l -> sort_by_key key l' = l.
Proof.
  intros Hs Hp. transitivity (sort_by_key key l); [|by apply sort_by_key_id].
  apply sort_by_key_unique; [|done]. rewrite Hp. by apply sorted_NoDup.
Qed.

Lemma sort_canonical l l' : StronglySorted below l -> l' ≡ₚ l -> sort l' = l.
Proof. intros Hs. apply sort_by_key_canonical. by rewrite list_fmap_id. Qed.
End Ascending.

#[global] Arguments below {A _} x y.
#[export] Hint Resolve cmp_refl cmp_lt_irrefl : zs.

(** The loop over [windows(2)] that tells duplicates from disorder. *)
Fixpoint check_windows {E A} `{Ord A} (duplicate unsorted : E) (l : list A) : result E () :=
  match l with
  | x :: (y :: _) as l' =>
      match cmp x y with
      | Eq => Err duplicate
      | Gt => Err unsorted
      | Lt => check_windows duplicate unsorted l'
      end
  | _ => Ok ()
  end.

Lemma check_windows_spec {E A} `{Ord A, !OrdOk A} (duplicate unsorted : E) (l : list A) :
  check_windows duplicate unsorted l = Ok () <-> StronglySorted below l.
Proof.
  rewrite <- strictly_ascending_spec.
  induction l as [|x [|y l] IH]; [done..|].
  change (check_windows duplicate unsorted (x :: y :: l)) with
    (match cmp x y with Eq => Err duplicate | Gt => Err unsorted
     | Lt => check_windows duplicate unsorted (y :: l) end).
  change (strictly_ascending (x :: y :: l)) with (ltb x y && strictly_ascending (y :: l)).
  unfold ltb. destruct (cmp x y); [done|by rewrite IH|done].
Qed.
