(* ===== verification/RobustSnap.v ===== *)
(** Finite robust-snap certificates ([zero-abi/src/robust_snap.rs]).  A
    certificate lists the worlds the evidence does not tell apart and, for
    each, the effects protected in it; at level S0 it selects one effect, at
    level S1 one effect per leaf of an evidence tree.  The checker accepts
    exactly the certificates whose selections are protected in every world
    they may be used in. *)

From S2P Require Import Prelude.
From S2P Require Import Ordering.
From S2P Require Import DurableStore.

Definition ROBUST_SNAP_MODEL_VERSION : string := "zerostack.robust_snap.finite".
Definition ROBUST_SNAP_MAX_WORLDS : nat := 32.
Definition ROBUST_SNAP_MAX_EFFECTS : nat := 64.
Definition ROBUST_SNAP_MAX_LEAVES : nat := 64.
Definition ROBUST_SNAP_MAX_EVIDENCE_DEPTH : nat := 16.
Definition ROBUST_SNAP_MAX_ASSUMPTIONS : nat := 32.
Definition ROBUST_SNAP_MAX_ASSUMPTION_BYTES : nat := 512.
Definition CERTIFICATE_DOMAIN : bytes := string_bytes "zerostack.robust_snap.certificate" ++ [byte0].

(** * Data *)

Inductive ProtectedEffectClass :=
| ReadOnly | ReversibleMutation | ApprovalRequiredMutation | Irreversible.

#[global] Instance ProtectedEffectClass_eq_dec : EqDecision ProtectedEffectClass.
Proof. solve_decision. Defined.

Definition class_rank (c : ProtectedEffectClass) : nat :=
  match c with
  | ReadOnly => 0 | ReversibleMutation => 1 | ApprovalRequiredMutation => 2 | Irreversible => 3
  end.

Record ProtectedEffect := mkEffect {
  effect_digest : Digest; effect_class : ProtectedEffectClass }.

#[global] Instance ProtectedEffect_eq_dec : EqDecision ProtectedEffect.
Proof. solve_decision. Defined.

#[global] Instance effect_ord : Ord ProtectedEffect :=
  cmp_via (fun e => (effect_digest e, class_rank (effect_class e))).

#[global] Instance effect_ord_ok : OrdOk ProtectedEffect.
Proof.
  apply cmp_via_ok. intros [d1 c1] [d2 c2] [= -> Hc]. by destruct c1, c2.
Qed.

Record WorldFiberDescriptor := mkFiber {
  wf_model_version : string;
  assembly_manifest_digest : Digest;
  source_image_digest : Digest;
  task_fingerprint : Digest;
  assumptions : list string;
  worlds : list Digest }.

Record ProtectedEffectSet := mkEffectSet { world_id : Digest; effects : list ProtectedEffect }.

Inductive SnapLevel := Unknown | S0 | S1.

#[global] Instance SnapLevel_eq_dec : EqDecision SnapLevel.
Proof. solve_decision. Defined.

Record EvidenceObservation := mkObservation { evidence_id : Digest; outcome_digest : Digest }.

#[global] Instance observation_ord : Ord EvidenceObservation :=
  cmp_via (fun o => (evidence_id o, outcome_digest o)).

Record EvidenceLeaf := mkLeaf {
  path : list EvidenceObservation;
  admitted_worlds : list Digest;
  leaf_selected_effect : ProtectedEffect }.

#[global] Instance leaf_ord : Ord EvidenceLeaf :=
  cmp_via (fun l => (path l, (admitted_worlds l, leaf_selected_effect l))).

Record EvidenceDecisionTree := mkTree {
  evidence_schema_digest : Digest; leaves : list EvidenceLeaf }.

(** The fields of a certificate other than its digest: what the digest binds. *)
Record SnapBody := mkSnapBody {
  model_version : string;
  fiber : WorldFiberDescriptor;
  protected_effects : list ProtectedEffectSet;
  first_turn_selectable : list ProtectedEffect;
  expressible_and_verifiable : list ProtectedEffect;
  snap_level : SnapLevel;
  selected_effect : option ProtectedEffect;
  evidence_tree : option EvidenceDecisionTree }.

Record RobustSnapCertificate := mkCertificate {
  body : SnapBody; certificate_digest : Digest }.

Inductive RobustSnapError :=
| UnsupportedModelVersion
| UnknownCannotPass
| EmptyWorldFiber
| BoundExceeded (field : string)
| NonCanonicalOrder (field : string)
| InvalidAssumption
| ProtectedWorldSetMismatch
| MissingProtectedEffectSet
| EmptyCommonProtectedEffectSet
| SelectedEffectRequiredAtS0
| SelectedEffectNotCommon
| EvidenceTreeForbiddenAtS0
| EvidenceTreeRequiredAtS1
| GlobalSelectionForbiddenAtS1
| EmptyDecisionTree
| EmptyEvidencePath
| EmptyEvidenceLeaf
| LeafWorldOutsideFiber
| WorldAppearsInMultipleLeaves
| EvidenceTreeDropsWorld
| LeafEffectNotProtected
| HeuristicDroppedWorld
| CertificateDigestMismatch (expected actual : Digest).

Notation R := (result RobustSnapError).

(** * Checks on vectors *)

Definition require_strict_order {A} `{Ord A} (field : string) (values : list A) : R () :=
  guard? strictly_ascending values else NonCanonicalOrder field in Ok ().

Fixpoint validate_assumptions (l : list string) : R () :=
  match l with
  | [] => Ok ()
  | a :: l' =>
      reject? (String.length a =? 0)%nat || (ROBUST_SNAP_MAX_ASSUMPTION_BYTES <? String.length a)%nat
        with InvalidAssumption in
      validate_assumptions l'
  end.

Definition validate_fiber (f : WorldFiberDescriptor) : R () :=
  reject? (length (worlds f) =? 0)%nat with EmptyWorldFiber in
  reject? (ROBUST_SNAP_MAX_WORLDS <? length (worlds f))%nat with BoundExceeded "fiber.worlds" in
  let? _ := require_strict_order "fiber.worlds" (worlds f) in
  reject? (length (assumptions f) =? 0)%nat || (ROBUST_SNAP_MAX_ASSUMPTIONS <? length (assumptions f))%nat
    with BoundExceeded "fiber.assumptions" in
  let? _ := require_strict_order "fiber.assumptions" (assumptions f) in
  validate_assumptions (assumptions f).

Definition validate_effect_vector (field : string) (es : list ProtectedEffect) : R () :=
  reject? (ROBUST_SNAP_MAX_EFFECTS <? length es)%nat with BoundExceeded field in
  require_strict_order field es.

Fixpoint validate_effect_sets (sets : list ProtectedEffectSet) : R () :=
  match sets with
  | [] => Ok ()
  | s :: sets' =>
      let? _ := validate_effect_vector "protected_effects.effects" (effects s) in
      validate_effect_sets sets'
  end.

Definition validate_protected_sets (f : WorldFiberDescriptor) (sets : list ProtectedEffectSet) : R () :=
  guard? (length sets =? length (worlds f))%nat else ProtectedWorldSetMismatch in
  let set_worlds := world_id <$> sets in
  let? _ := require_strict_order "protected_effects" set_worlds in
  guard? bool_decide (set_worlds = worlds f) else ProtectedWorldSetMismatch in
  validate_effect_sets sets.

(** * Common protected effects *)

Definition effects_for (b : SnapBody) (world : Digest) : R (list ProtectedEffect) :=
  match binary_search_by_key world_id world (protected_effects b) with
  | Some index => ok_or (effects <$> protected_effects b !! index) MissingProtectedEffectSet
  | None => Err MissingProtectedEffectSet
  end.

Fixpoint intersect_worlds (b : SnapBody) (common : list ProtectedEffect) (ws : list Digest)
  : R (list ProtectedEffect) :=
  match ws with
  | [] => Ok common
  | w :: ws' =>
      let? es := effects_for b w in
      intersect_worlds b (bset_inter common (bset_of_list es)) ws'
  end.

Definition common_for_worlds (b : SnapBody) (ws : list Digest) : R (list ProtectedEffect) :=
  match ws with
  | [] => Err EmptyWorldFiber
  | first :: rest =>
      let? es := effects_for b first in
      intersect_worlds b (bset_of_list es) rest
  end.

(** [retain(|effect| v.binary_search(effect).is_ok())]. *)
Definition retain_found (v common : list ProtectedEffect) : list ProtectedEffect :=
  List.filter (fun e => bool_decide (is_Some (binary_search e v))) common.

Definition common_s0_effects (b : SnapBody) : R (list ProtectedEffect) :=
  let? common := common_for_worlds b (bset_of_list (worlds (fiber b))) in
  Ok (retain_found (expressible_and_verifiable b) (retain_found (first_turn_selectable b) common)).

(** * The two levels *)

Definition validate_s0 (b : SnapBody) : R () :=
  reject? bool_decide (is_Some (evidence_tree b)) with EvidenceTreeForbiddenAtS0 in
  let? selected := ok_or (selected_effect b) SelectedEffectRequiredAtS0 in
  let? common := common_s0_effects b in
  reject? (length common =? 0)%nat with EmptyCommonProtectedEffectSet in
  guard? bool_decide (is_Some (binary_search selected common)) else SelectedEffectNotCommon in
  Ok ().

(** The inner loop over a leaf's worlds: each may be covered once. *)
Fixpoint cover (covered ws : list Digest) : R (list Digest) :=
  match ws with
  | [] => Ok covered
  | w :: ws' =>
      let '(fresh, covered') := bset_insert w covered in
      guard? fresh else WorldAppearsInMultipleLeaves in
      cover covered' ws'
  end.

Definition validate_leaf (b : SnapBody) (fiber_worlds covered : list Digest) (leaf : EvidenceLeaf)
  : R (list Digest) :=
  reject? (length (path leaf) =? 0)%nat with EmptyEvidencePath in
  reject? (ROBUST_SNAP_MAX_EVIDENCE_DEPTH <? length (path leaf))%nat
    with BoundExceeded "evidence_leaf.path" in
  reject? (length (admitted_worlds leaf) =? 0)%nat with EmptyEvidenceLeaf in
  let? _ := require_strict_order "evidence_leaf.admitted_worlds" (admitted_worlds leaf) in
  let leaf_worlds := bset_of_list (admitted_worlds leaf) in
  guard? bset_subset leaf_worlds fiber_worlds else LeafWorldOutsideFiber in
  let? covered' := cover covered leaf_worlds in
  let? common := common_for_worlds b leaf_worlds in
  guard? bset_mem (leaf_selected_effect leaf) (retain_found (expressible_and_verifiable b) common)
    else LeafEffectNotProtected in
  Ok covered'.

Fixpoint validate_leaves (b : SnapBody) (fiber_worlds covered : list Digest) (ls : list EvidenceLeaf)
  : R (list Digest) :=
  match ls with
  | [] => Ok covered
  | leaf :: ls' =>
      let? covered' := validate_leaf b fiber_worlds covered leaf in
      validate_leaves b fiber_worlds covered' ls'
  end.

Definition validate_s1 (b : SnapBody) : R () :=
  reject? bool_decide (is_Some (selected_effect b)) with GlobalSelectionForbiddenAtS1 in
  let? tree := ok_or (evidence_tree b) EvidenceTreeRequiredAtS1 in
  reject? (length (leaves tree) =? 0)%nat with EmptyDecisionTree in
  reject? (ROBUST_SNAP_MAX_LEAVES <? length (leaves tree))%nat
    with BoundExceeded "evidence_tree.leaves" in
  let? _ := require_strict_order "evidence_tree.leaves" (leaves tree) in
  let fiber_worlds := bset_of_list (worlds (fiber b)) in
  let? covered := validate_leaves b fiber_worlds [] (leaves tree) in
  guard? bool_decide (covered = fiber_worlds) else EvidenceTreeDropsWorld in
  Ok ().

Definition validate_semantics (b : SnapBody) : R () :=
  guard? bool_decide (model_version b = ROBUST_SNAP_MODEL_VERSION) &&
         bool_decide (wf_model_version (fiber b) = ROBUST_SNAP_MODEL_VERSION)
    else UnsupportedModelVersion in
  let? _ := validate_fiber (fiber b) in
  let? _ := validate_effect_vector "first_turn_selectable" (first_turn_selectable b) in
  let? _ := validate_effect_vector "expressible_and_verifiable" (expressible_and_verifiable b) in
  let? _ := validate_protected_sets (fiber b) (protected_effects b) in
  match snap_level b with
  | Unknown => Err UnknownCannotPass
  | S0 => validate_s0 b
  | S1 => validate_s1 b
  end.

(** Heuristics may reorder the fiber but not narrow it. *)
Definition validate_heuristic_world_order (f : WorldFiberDescriptor) (ranked : list Digest) : R () :=
  guard? (length ranked =? length (worlds f))%nat else HeuristicDroppedWorld in
  let expected := bset_of_list (worlds f) in
  let actual := bset_of_list ranked in
  guard? (length actual =? length ranked)%nat && bool_decide (actual = expected)
    else HeuristicDroppedWorld in
  Ok ().

Section Certificates.
Context `{Platform, Codec SnapBody}.

Definition compute_digest (b : SnapBody) : Digest := sha256 (CERTIFICATE_DOMAIN ++ encode b).

Definition validate (c : RobustSnapCertificate) : R () :=
  let? _ := validate_semantics (body c) in
  let actual := compute_digest (body c) in
  guard? bool_decide (actual = certificate_digest c)
    else CertificateDigestMismatch (certificate_digest c) actual in
  Ok ().

Definition create (f : WorldFiberDescriptor) (sets : list ProtectedEffectSet)
  (first_turn expressible : list ProtectedEffect) (level : SnapLevel)
  (selected : option ProtectedEffect) (tree : option EvidenceDecisionTree) : R RobustSnapCertificate :=
  let b := mkSnapBody ROBUST_SNAP_MODEL_VERSION f sets first_turn expressible level selected tree in
  let? _ := validate_semantics b in
  Ok (mkCertificate b (compute_digest b)).

Definition create_s0 (f : WorldFiberDescriptor) (sets : list ProtectedEffectSet)
  (first_turn expressible : list ProtectedEffect) (selected : ProtectedEffect) : R RobustSnapCertificate :=
  create f sets first_turn expressible S0 (Some selected) None.

Definition create_s1 (f : WorldFiberDescriptor) (sets : list ProtectedEffectSet)
  (expressible : list ProtectedEffect) (tree : EvidenceDecisionTree) : R RobustSnapCertificate :=
  create f sets [] expressible S1 None (Some tree).
End Certificates.

(** * What the checks decide *)

(** [e] is protected in world [w]. *)
Definition protected_in (b : SnapBody) (w : Digest) (e : ProtectedEffect) : Prop :=
  exists s, s ∈ protected_effects b /\ world_id s = w /\ e ∈ effects s.

Definition vector_ok (es : list ProtectedEffect) : Prop :=
  (length es <= ROBUST_SNAP_MAX_EFFECTS)%nat /\ StronglySorted below es.

(** Bounds, canonical order and one effect set per world. *)
Record shape (b : SnapBody) : Prop := {
  sh_version : model_version b = ROBUST_SNAP_MODEL_VERSION /\
               wf_model_version (fiber b) = ROBUST_SNAP_MODEL_VERSION;
  sh_worlds : (0 < length (worlds (fiber b)) <= ROBUST_SNAP_MAX_WORLDS)%nat /\
              StronglySorted below (worlds (fiber b));
  sh_assumptions : (0 < length (assumptions (fiber b)) <= ROBUST_SNAP_MAX_ASSUMPTIONS)%nat /\
    StronglySorted below (assumptions (fiber b)) /\
    Forall (fun a => 0 < String.length a <= ROBUST_SNAP_MAX_ASSUMPTION_BYTES)%nat (assumptions (fiber b));
  sh_first : vector_ok (first_turn_selectable b);
  sh_expr : vector_ok (expressible_and_verifiable b);
  sh_sets : world_id <$> protected_effects b = worlds (fiber b) /\
            Forall (fun s => vector_ok (effects s)) (protected_effects b) }.

(** S0: one effect, selectable in the first turn, verifiable, and protected in
    every world. *)
Definition s0_law (b : SnapBody) : Prop :=
  evidence_tree b = None /\
  exists e, selected_effect b = Some e /\ e ∈ first_turn_selectable b /\
    e ∈ expressible_and_verifiable b /\
    forall w, w ∈ worlds (fiber b) -> protected_in b w e.

Definition leaf_law (b : SnapBody) (leaf : EvidenceLeaf) : Prop :=
  (0 < length (path leaf) <= ROBUST_SNAP_MAX_EVIDENCE_DEPTH)%nat /\
  admitted_worlds leaf <> [] /\ StronglySorted below (admitted_worlds leaf) /\
  leaf_selected_effect leaf ∈ expressible_and_verifiable b /\
  forall w, w ∈ admitted_worlds leaf -> protected_in b w (leaf_selected_effect leaf).

(** S1: the leaves partition the worlds, and each selects an effect protected
    in every world it admits. *)
Definition s1_law (b : SnapBody) : Prop :=
  selected_effect b = None /\
  exists tree, evidence_tree b = Some tree /\
    (0 < length (leaves tree) <= ROBUST_SNAP_MAX_LEAVES)%nat /\
    strictly_ascending (leaves tree) = true /\
    Forall (leaf_law b) (leaves tree) /\
    concat (admitted_worlds <$> leaves tree) ≡ₚ worlds (fiber b).

Definition snap_law (b : SnapBody) : Prop :=
  match snap_level b with Unknown => False | S0 => s0_law b | S1 => s1_law b end.

(** * Specifications of the checks *)

#[local] Arguments Nat.ltb _ _ : simpl never.

Lemma require_strict_order_spec {A} `{Ord A, !OrdOk A} field (l : list A) u :
  require_strict_order field l = Ok u <-> StronglySorted below l.
Proof.
  unfold require_strict_order. rewrite <- strictly_ascending_spec.
  destruct u, (strictly_ascending l); split; congruence.
Qed.

Ltac strict_orders :=
  repeat match goal with
  | H : require_strict_order _ _ = Ok _ |- _ => apply require_strict_order_spec in H
  end.

Lemma validate_assumptions_spec l u :
  validate_assumptions l = Ok u <->
  Forall (fun a => 0 < String.length a <= ROBUST_SNAP_MAX_ASSUMPTION_BYTES)%nat l.
Proof.
  destruct u. induction l as [|a l IH]; cbn [validate_assumptions]; [by split|].
  rewrite Forall_cons, <- IH. destruct (_ || _) eqn:Hc.
  - apply orb_true_iff in Hc as [Hc|Hc]; breflect; split; [done| |done|]; intros [? _]; lia.
  - breflect. split; [|tauto]. intros. split; [lia|done].
Qed.

Lemma validate_effect_vector_spec field es u :
  validate_effect_vector field es = Ok u <-> vector_ok es.
Proof.
  unfold validate_effect_vector, vector_ok. destruct (Nat.ltb_spec ROBUST_SNAP_MAX_EFFECTS (length es)).
  - split; [done|]. intros [? _]. lia.
  - rewrite require_strict_order_spec. intuition lia.
Qed.

Lemma validate_effect_sets_spec sets u :
  validate_effect_sets sets = Ok u <-> Forall (fun s => vector_ok (effects s)) sets.
Proof.
  destruct u. induction sets as [|s sets IH]; cbn [validate_effect_sets]; [by split|].
  rewrite Forall_cons, <- IH, <- (validate_effect_vector_spec "protected_effects.effects" _ ()).
  destruct (validate_effect_vector _ _) as [[]|]; cbn; split; [tauto|tauto|done|intros [? _]; done].
Qed.

Lemma validate_fiber_spec f u :
  validate_fiber f = Ok u <->
  (0 < length (worlds f) <= ROBUST_SNAP_MAX_WORLDS)%nat /\ StronglySorted below (worlds f) /\
   (0 < length (assumptions f) <= ROBUST_SNAP_MAX_ASSUMPTIONS)%nat /\
   StronglySorted below (assumptions f) /\
   Forall (fun a => 0 < String.length a <= ROBUST_SNAP_MAX_ASSUMPTION_BYTES)%nat (assumptions f).
Proof.
  unfold validate_fiber. split.
  - intros Hv. inv_ok. strict_orders. rewrite validate_assumptions_spec in Hv.
    breflect. repeat split; (done || lia).
  - intros (Hw & Hs & Ha & Hsa & Hf).
    rewrite (proj2 (Nat.eqb_neq _ _)), (proj2 (Nat.ltb_ge _ _)) by lia.
    rewrite (proj2 (require_strict_order_spec _ _ ()) Hs). cbn.
    rewrite (proj2 (Nat.eqb_neq _ _)), (proj2 (Nat.ltb_ge _ _)) by lia. cbn.
    rewrite (proj2 (require_strict_order_spec _ _ ()) Hsa). by apply validate_assumptions_spec.
Qed.

Lemma validate_protected_sets_spec f sets u :
  StronglySorted below (worlds f) ->
  validate_protected_sets f sets = Ok u <->
  world_id <$> sets = worlds f /\ Forall (fun s => vector_ok (effects s)) sets.
Proof.
  intros Hsorted. unfold validate_protected_sets. split.
  - intros Hv. inv_ok. breflect. by rewrite validate_effect_sets_spec in Hv.
  - intros [Hw Hf]. rewrite <- Hw, length_fmap, Nat.eqb_refl.
    rewrite (proj2 (require_strict_order_spec _ _ ())) by (by rewrite Hw). cbn.
    rewrite bool_decide_true by done. by apply validate_effect_sets_spec.
Qed.

Section Common.
Context (b : SnapBody) (Hshape : shape b).

Lemma set_worlds_sorted : StronglySorted below (world_id <$> protected_effects b).
Proof. destruct Hshape as [_ [_ H] _ _ _ [-> _]]. exact H. Qed.

Lemma effects_for_spec w es :
  effects_for b w = Ok es <-> exists s, s ∈ protected_effects b /\ world_id s = w /\ es = effects s.
Proof.
  unfold effects_for. split.
  - intros He. destruct (binary_search_by_key _ _ _) as [i|] eqn:Hi; [|done].
    apply binary_search_by_key_spec in Hi as (s & Hs & Hw); [|apply set_worlds_sorted].
    rewrite Hs in He. injection He as <-. exists s. split; [by eapply list_elem_of_lookup_2|done].
  - intros (s & Hs & Hw & ->). apply list_elem_of_lookup in Hs as [i Hi].
    rewrite (proj2 (binary_search_by_key_spec _ _ _ set_worlds_sorted i)) by eauto. by rewrite Hi.
Qed.

Lemma effects_for_total w : w ∈ worlds (fiber b) -> exists s,
  s ∈ protected_effects b /\ world_id s = w /\ effects_for b w = Ok (effects s).
Proof.
  intros Hw. destruct Hshape as [_ _ _ _ _ [Hs _]]. rewrite <- Hs in Hw.
  apply list_elem_of_fmap in Hw as (s & -> & Hin). exists s. split; [done|]. split; [done|].
  apply effects_for_spec. eauto.
Qed.

Lemma protected_in_iff w e es : effects_for b w = Ok es -> (protected_in b w e <-> e ∈ es).
Proof.
  intros He. split.
  - intros (s & Hs & Hw & Hin). assert (effects_for b w = Ok (effects s)) by (apply effects_for_spec; eauto).
    congruence.
  - intros Hin. apply effects_for_spec in He as (s & Hs & Hw & ->). by exists s.
Qed.

Lemma intersect_worlds_spec ws common :
  (forall w, w ∈ ws -> w ∈ worlds (fiber b)) -> StronglySorted below common ->
  exists c, intersect_worlds b common ws = Ok c /\ StronglySorted below c /\
    forall e, e ∈ c <-> e ∈ common /\ forall w, w ∈ ws -> protected_in b w e.
Proof.
  revert common. induction ws as [|w ws IH]; intros common Hin Hs; cbn.
  - exists common. split; [done|]. split; [done|]. intros e. split; [|tauto].
    intros He. split; [done|]. by intros w Hw%not_elem_of_nil.
  - destruct (effects_for_total w) as (s & _ & _ & Hes); [apply Hin; by left|]. rewrite Hes. cbn.
    destruct (IH (bset_inter common (bset_of_list (effects s)))) as (c & Hc & Hsc & Hmem).
    { intros v Hv. apply Hin. by right. } { by apply sorted_filter. }
    exists c. split; [done|]. split; [done|]. intros e.
    rewrite Hmem, elem_of_bset_inter, elem_of_bset_of_list, <- (protected_in_iff w e _ Hes).
    setoid_rewrite elem_of_cons. split.
    + intros [[H1 H2] H3]. split; [done|]. intros v [->|Hv]; auto.
    + intros [H1 H2]. auto.
Qed.

(** The effects common to a nonempty set of worlds of the fiber. *)
Lemma common_for_worlds_spec ws :
  ws <> [] -> (forall w, w ∈ ws -> w ∈ worlds (fiber b)) ->
  exists c, common_for_worlds b ws = Ok c /\ StronglySorted below c /\
    forall e, e ∈ c <-> forall w, w ∈ ws -> protected_in b w e.
Proof.
  destruct ws as [|w ws]; [done|]. intros _ Hin. cbn.
  destruct (effects_for_total w) as (s & _ & _ & Hes); [apply Hin; by left|]. rewrite Hes. cbn.
  destruct (intersect_worlds_spec ws (bset_of_list (effects s))) as (c & Hc & Hsc & Hmem).
  { intros v Hv. apply Hin. by right. } { apply bset_of_list_spec. }
  exists c. split; [done|]. split; [done|]. intros e.
  rewrite Hmem, elem_of_bset_of_list, <- (protected_in_iff w e _ Hes). setoid_rewrite elem_of_cons.
  split; [intros [? ?] v [->|?]; auto|auto].
Qed.

Lemma elem_of_retain_found v c e :
  StronglySorted below v -> (e ∈ retain_found v c <-> e ∈ c /\ e ∈ v).
Proof.
  intros Hv. unfold retain_found. rewrite list_elem_of_In, filter_In, <- list_elem_of_In.
  rewrite bool_decide_eq_true, binary_search_elem_of by done. done.
Qed.

Lemma validate_s0_spec u : validate_s0 b = Ok u <-> s0_law b.
Proof.
  destruct u. destruct (Hshape) as [_ [Hw Hsw] _ [_ Hsf] [_ Hse] _].
  destruct (common_for_worlds_spec (bset_of_list (worlds (fiber b)))) as (c & Hc & Hsc & Hmem).
  { intros Hn. destruct (worlds (fiber b)) as [|w ws] eqn:E; [cbn in Hw; lia|].
    apply (not_elem_of_nil w). rewrite <- Hn. apply elem_of_bset_of_list. by left. }
  { intros w. by rewrite elem_of_bset_of_list. }
  assert (Hall : forall e, e ∈ retain_found (expressible_and_verifiable b)
     (retain_found (first_turn_selectable b) c) <->
     e ∈ first_turn_selectable b /\ e ∈ expressible_and_verifiable b /\
     forall w, w ∈ worlds (fiber b) -> protected_in b w e).
  { intros e. rewrite !elem_of_retain_found by done. rewrite Hmem.
    setoid_rewrite elem_of_bset_of_list. tauto. }
  assert (Hsr : StronglySorted below (retain_found (expressible_and_verifiable b)
     (retain_found (first_turn_selectable b) c))) by (by do 2 apply sorted_filter).
  unfold validate_s0, s0_law, common_s0_effects. rewrite Hc. split.
  - intros Hv. inv_ok. breflect.
    split; [by destruct (evidence_tree b); [exfalso; eauto|]|].
    eexists. split; [done|]. apply Hall. by apply binary_search_elem_of.
  - intros (-> & e & -> & He). cbn. apply Hall in He.
    rewrite (proj2 (Nat.eqb_neq _ _)) by (intros Hz%nil_length_inv; rewrite Hz in He; by apply not_elem_of_nil in He).
    rewrite bool_decide_true; [done|]. by apply binary_search_elem_of.
Qed.
End Common.

(** * Coverage of the worlds by the leaves *)

Lemma sorted_perm_eq (s t : list Digest) :
  StronglySorted below s -> StronglySorted below t -> s ≡ₚ t -> s = t.
Proof. intros Hs Ht Hp. apply sorted_ext; [done..|]. intros x. by rewrite Hp. Qed.

Lemma bset_of_list_sorted (l : list Digest) : StronglySorted below l -> bset_of_list l = l.
Proof. intros Hl. destruct (bset_of_list_spec l) as [H1 H2]. by apply sorted_ext. Qed.

Lemma bset_insert_fresh (w : Digest) s :
  StronglySorted below s -> fst (bset_insert w s) = true -> snd (bset_insert w s) ≡ₚ w :: s.
Proof.
  intros Hs Hf. destruct (bset_insert_spec w s Hs) as (H1 & H2 & H3). apply H3 in Hf.
  apply NoDup_Permutation; [by apply sorted_NoDup|constructor; [done|by apply sorted_NoDup]|].
  intros x. by rewrite H2, elem_of_cons.
Qed.

Lemma cover_spec ws covered c :
  StronglySorted below covered ->
  cover covered ws = Ok c <-> StronglySorted below c /\ c ≡ₚ covered ++ ws.
Proof.
  revert covered. induction ws as [|w ws IH]; intros covered Hs; cbn [cover].
  - rewrite app_nil_r. split; [by intros [= <-]|]. intros [Hc Hp]. f_equal. by apply sorted_perm_eq.
  - pose proof (bset_insert_spec w covered Hs) as (H1 & _ & H3).
    pose proof (bset_insert_fresh w covered Hs) as Hf.
    destruct (bset_insert w covered) as [[] cov']; cbn [fst snd] in *.
    + rewrite IH by done. rewrite Hf by done. cbn. by rewrite Permutation_middle.
    + split; [done|]. intros [Hc Hp]. exfalso. apply sorted_NoDup in Hc. rewrite Hp in Hc.
      apply NoDup_app in Hc as (_ & Hd & _).
      assert (false = true); [|done]. apply H3. intros Hw. apply (Hd w Hw). by left.
Qed.

Section Leaves.
Context (b : SnapBody) (Hshape : shape b).
Notation fw := (bset_of_list (worlds (fiber b))).

Lemma validate_leaf_spec covered leaf c :
  StronglySorted below covered ->
  validate_leaf b fw covered leaf = Ok c <->
  leaf_law b leaf /\ (forall w, w ∈ admitted_worlds leaf -> w ∈ worlds (fiber b)) /\
  StronglySorted below c /\ c ≡ₚ covered ++ admitted_worlds leaf.
Proof.
  intros Hcov. unfold validate_leaf, leaf_law.
  assert (Hse : StronglySorted below (expressible_and_verifiable b)) by apply Hshape.
  split.
  - intros Hv. inv_ok. breflect. strict_orders.
    rewrite bset_of_list_sorted in * by done.
    rewrite bset_subset_spec in *. rewrite bset_mem_spec in *. setoid_rewrite elem_of_bset_of_list in Heqb3.
    match goal with Hc : cover _ _ = Ok _ |- _ => apply cover_spec in Hc as [Hs Hp]; [|done] end.
    destruct (common_for_worlds_spec b Hshape (admitted_worlds leaf)) as (common & Hc & Hsc & Hmem);
      [intros Hn; by rewrite Hn in *|done|].
    assert (a1 = common) as -> by congruence.
    rewrite elem_of_retain_found in * by done. destruct_and!. rewrite Hmem in *.
    repeat split; try done; try lia. intros Hn. by rewrite Hn in *.
  - intros ((Hp & Hne & Hs & He & Hprot) & Hin & Hsc & Hperm).
    rewrite (proj2 (Nat.eqb_neq (length (path leaf)) 0)), (proj2 (Nat.ltb_ge _ _)) by lia.
    rewrite (proj2 (Nat.eqb_neq _ _)) by (by intros Hz%nil_length_inv).
    rewrite (proj2 (require_strict_order_spec _ _ ()) Hs). cbn.
    rewrite bset_of_list_sorted by done.
    rewrite (proj2 (bset_subset_spec _ _)) by (intros w Hw; apply elem_of_bset_of_list; auto).
    rewrite (proj2 (cover_spec _ _ c Hcov)) by done. cbn.
    destruct (common_for_worlds_spec b Hshape (admitted_worlds leaf)) as (common & -> & Hcs & Hmem);
      [done..|]. cbn.
    rewrite (proj2 (bset_mem_spec _ _)); [done|]. apply elem_of_retain_found; [done|].
    by rewrite Hmem.
Qed.

Lemma validate_leaves_spec ls covered c :
  StronglySorted below covered ->
  validate_leaves b fw covered ls = Ok c <->
  Forall (leaf_law b) ls /\
  Forall (fun leaf => forall w, w ∈ admitted_worlds leaf -> w ∈ worlds (fiber b)) ls /\
  StronglySorted below c /\ c ≡ₚ covered ++ concat (admitted_worlds <$> ls).
Proof.
  revert covered. induction ls as [|leaf ls IH]; intros covered Hcov; cbn [validate_leaves].
  - cbn. rewrite app_nil_r. split; [by intros [= <-]|]. intros (_ & _ & Hc & Hp). f_equal.
    by apply sorted_perm_eq.
  - split.
    + intros Hv. inv_ok.
      match goal with H : validate_leaf _ _ _ _ = Ok _ |- _ =>
        apply validate_leaf_spec in H as (? & ? & ? & Hp); [|done] end.
      apply IH in Hv as (? & ? & ? & Hp'); [|done].
      repeat split; [by constructor..|done|]. cbn. by rewrite Hp', Hp, (assoc_L (++)).
    + intros (Hl & Hi & Hc & Hp). apply Forall_cons in Hl as [Hl Hls], Hi as [Hi His].
      cbn in Hp. rewrite (assoc_L (++)) in Hp.
      destruct (bset_of_list_spec (covered ++ admitted_worlds leaf)) as [Hs1 Hm1].
      assert (Hp1 : bset_of_list (covered ++ admitted_worlds leaf) ≡ₚ covered ++ admitted_worlds leaf).
      { apply NoDup_Permutation; [by apply sorted_NoDup| |done].
        apply sorted_NoDup in Hc. rewrite Hp in Hc. by apply NoDup_app in Hc as [? _]. }
      rewrite (proj2 (validate_leaf_spec covered leaf _ Hcov)
        (conj Hl (conj Hi (conj Hs1 Hp1)))). cbn. apply IH; [done|]. repeat split; [done..|]. by rewrite Hp1.
Qed.

Lemma validate_s1_spec u : validate_s1 b = Ok u <-> s1_law b.
Proof.
  destruct u. assert (Hsw : StronglySorted below (worlds (fiber b))) by apply Hshape.
  unfold validate_s1, s1_law. split.
  - intros Hv. inv_ok. breflect.
    match goal with H : require_strict_order _ _ = Ok _ |- _ =>
      unfold require_strict_order in H; inv_ok end.
    match goal with H : validate_leaves _ _ _ _ = Ok _ |- _ =>
      apply validate_leaves_spec in H as (? & ? & ? & Hp); [|constructor] end.
    split; [by destruct (selected_effect b); [exfalso; eauto|]|].
    eexists. split; [done|]. split; [lia|]. split; [done|]. split; [done|].
    cbn in Hp. rewrite <- Hp. by rewrite bset_of_list_sorted.
  - intros (-> & tree & -> & Hn & Ha & Hl & Hp). cbn.
    rewrite (proj2 (Nat.eqb_neq _ _)), (proj2 (Nat.ltb_ge _ _)) by lia.
    unfold require_strict_order at 1. rewrite Ha. cbn.
    rewrite (proj2 (validate_leaves_spec _ [] (worlds (fiber b)) ltac:(constructor))).
    + cbn. by rewrite bool_decide_true by (by rewrite bset_of_list_sorted).
    + split; [done|]. split; [|split; [done|by symmetry]].
      apply Forall_forall. intros leaf Hleaf w Hw. rewrite <- Hp. apply list_elem_of_In, in_concat.
      exists (admitted_worlds leaf). split; [|by apply list_elem_of_In].
      apply list_elem_of_In, list_elem_of_fmap. eauto.
Qed.
End Leaves.

Lemma validate_semantics_spec b u : validate_semantics b = Ok u <-> shape b /\ snap_law b.
Proof.
  unfold validate_semantics, snap_law. split.
  - intros Hv. inv_ok; breflect;
      repeat match goal with
      | H : validate_fiber _ = Ok _ |- _ => apply validate_fiber_spec in H; destruct_and! H
      | H : validate_effect_vector _ _ = Ok _ |- _ => apply validate_effect_vector_spec in H
      | H : validate_protected_sets _ _ = Ok _ |- _ =>
          apply validate_protected_sets_spec in H; [|done]
      end;
      assert (shape b) as Hsh by (by constructor); (split; [done|]).
    + by apply validate_s0_spec in Hv.
    + by apply validate_s1_spec in Hv.
  - intros [Hsh Hlaw]. pose proof Hsh as [[Hv1 Hv2] [Hw Hsw] (Ha1 & Ha2 & Ha3) Hf He Hs].
    rewrite !bool_decide_true by done. cbn.
    rewrite (proj2 (validate_fiber_spec _ ())) by done. cbn.
    rewrite !(proj2 (validate_effect_vector_spec _ _ ())) by done. cbn.
    rewrite (proj2 (validate_protected_sets_spec _ _ () Hsw)) by done. cbn.
    destruct (snap_level b); [done|by apply validate_s0_spec|by apply validate_s1_spec].
Qed.

Section Theorems.
Context `{Platform, Codec SnapBody}.

(** The checker accepts a robust-snap certificate exactly when its vectors
    are bounded and canonically ordered, its digest binds its body, and its
    selections are robust: at S0 one effect that is selectable in the first
    turn, verifiable and protected in every world of the fiber; at S1 leaves
    that partition the worlds, each selecting a verifiable effect protected in
    every world it admits; an unknown level is never accepted. *)
Theorem snap_certificate_exact c :
  validate c = Ok () <->
  shape (body c) /\ snap_law (body c) /\ certificate_digest c = compute_digest (body c).
Proof.
  unfold validate. split.
  - intros Hv. inv_ok. breflect.
    match goal with Hs : validate_semantics _ = Ok _ |- _ => apply validate_semantics_spec in Hs as [? ?] end.
    by rewrite <- Heqb.
  - intros (Hs & Hl & ->). rewrite (proj2 (validate_semantics_spec _ ())) by done. cbn.
    by rewrite bool_decide_true.
Qed.
End Theorems.
