(* ===== verification/Identity.v ===== *)
(** What the contract modules of zero-abi and zero-gate share: JSON values
    built from digests, numbers and strings, the two ways a payload is hashed
    under a domain, and the Unicode predicates applied to identifiers. *)

From S2P Require Import Prelude.
From S2P Require Import Canonical.
From S2P Require Import DurableStore.
From S2P Require ZeroRef.

(** * JSON building blocks *)

(** A [u16], [u32], [u64] or [usize]. *)
Definition jnum (n : N) : Value := Number (ZeroRef.show_u64 n).
(** An [i64]. *)
Definition jint (z : Z) : Value :=
  Number (if (z <? 0)%Z then ("-" +:+ ZeroRef.show_u64 (Z.to_N (- z)))%string
          else ZeroRef.show_u64 (Z.to_N z)).
(** An [Sha256Digest] of zero-abi serializes as lowercase hexadecimal. *)
Definition jhex (d : Digest) : Value := VString (Sha256Digest_to_hex d).
(** A [[u8; 32]] serializes as an array of numbers. *)
Definition jbytes (d : bytes) : Value := Array ((fun b => jnum (N_of_ascii b)) <$> d).
Definition jopt {A} (f : A -> Value) (o : option A) : Value :=
  match o with Some x => f x | None => Null end.
Definition jstrs (l : list string) : Value := Array (VString <$> l).

(** [serde_json::from_slice] at a type that derives [Deserialize]. *)
Class FromSlice (T : Type) := from_slice : bytes -> option T.

Section Hashing.
Context `{Platform}.

Definition canonical_bytes_of (v : Value) : bytes := string_bytes (canonical_json json_string v).

(** [sha256(domain || payload)]. *)
Definition concat_digest (domain payload : bytes) : Digest := sha256 (domain ++ payload).

(** [sha256] of the domain and of each part behind its [u64] length. *)
Definition digest_parts (domain : bytes) (parts : list bytes) : Digest :=
  sha256 (domain ++ concat ((fun p => to_be 8 (len p) ++ p) <$> parts)).
End Hashing.

Definition domain (s : string) : bytes := string_bytes s ++ [byte0].

(** [digest == Sha256Digest::ZERO] and the all-bytes test of the gate. *)
Definition is_zero (d : Digest) : bool := forallb (fun b => Ascii.eqb b byte0) d.
Definition zero_digest (d : Digest) : bool := bool_decide (d = ZERO).

(** * Characters

    A [String] is its UTF-8 bytes; a character outside ASCII is recognised by
    its lead and continuation bytes. *)

Definition byte_is (n : N) (b : byte) : bool := (N_of_ascii b =? n)%N.
Definition byte_in (lo hi : N) (b : byte) : bool :=
  (lo <=? N_of_ascii b)%N && (N_of_ascii b <=? hi)%N.

(** [chars().any(char::is_control)]: U+0000-1F, U+7F and U+80-9F. *)
Fixpoint has_control (s : bytes) : bool :=
  match s with
  | [] => false
  | b :: s' =>
      byte_in 0 31 b || byte_is 127 b ||
      (byte_is 194 b && match s' with c :: _ => byte_in 128 159 c | [] => false end) ||
      has_control s'
  end.

(** [trim().is_empty()]: every character has the [White_Space] property. *)
Fixpoint all_whitespace (s : bytes) : bool :=
  match s with
  | [] => true
  | b :: s' =>
      if byte_in 9 13 b || byte_is 32 b then all_whitespace s'
      else
        match s' with
        | c :: s'' =>
            if byte_is 194 b && (byte_is 133 c || byte_is 160 c) then all_whitespace s''
            else
              match s'' with
              | d :: s''' =>
                  if (byte_is 225 b && byte_is 154 c && byte_is 128 d) ||
                     (byte_is 226 b && byte_is 128 c &&
                        (byte_in 128 138 d || byte_is 168 d || byte_is 169 d || byte_is 175 d)) ||
                     (byte_is 226 b && byte_is 129 c && byte_is 159 d) ||
                     (byte_is 227 b && byte_is 128 c && byte_is 128 d)
                  then all_whitespace s'''
                  else false
              | [] => false
              end
        | [] => false
        end
  end.

(** * Lemmas *)

Lemma is_zero_spec (d : Digest) : is_zero d = true <-> d = replicate (length d) byte0.
Proof.
  unfold is_zero. induction d as [|b d IH]; cbn; [done|].
  rewrite andb_true_iff, Ascii.eqb_eq, IH. split.
  - intros [-> H]. by f_equal.
  - intros H. injection H as -> H. by split.
Qed.

(** On 32-byte digests the two zero tests agree. *)
Lemma is_zero_digest (d : Digest) : length d = 32 -> is_zero d = zero_digest d.
Proof.
  intros Hd. unfold zero_digest. destruct (is_zero d) eqn:Hz.
  - symmetry. apply bool_decide_eq_true. apply is_zero_spec in Hz. by rewrite Hd in Hz.
  - symmetry. apply bool_decide_eq_false. intros ->. by vm_compute in Hz.
Qed.

(** JSON values have decidable equality. *)
Lemma Value_eq_decide : forall x y : Value, {x = y} + {x <> y}.
Proof.
  fix IH 1. intros x y. destruct x as [|b|t|s|arr|m], y as [|b'|t'|s'|arr'|m'];
    try (right; discriminate); [by left|..].
  - destruct (decide (b = b')) as [->|]; [by left|right; congruence].
  - destruct (decide (t = t')) as [->|]; [by left|right; congruence].
  - destruct (decide (s = s')) as [->|]; [by left|right; congruence].
  - assert ({arr = arr'} + {arr <> arr'}) as [->|]; [|by left|right; congruence].
    revert arr'. induction arr as [|v arr IHl]; intros [|v' arr']; [by left|by right..|].
    destruct (IH v v') as [->|]; [|right; congruence].
    destruct (IHl arr') as [->|]; [by left|right; congruence].
  - assert ({m = m'} + {m <> m'}) as [->|]; [|by left|right; congruence].
    revert m'. induction m as [|[k v] m IHl]; intros [|[k' v'] m']; [by left|by right..|].
    destruct (decide (k = k')) as [->|]; [|right; congruence].
    destruct (IH v v') as [->|]; [|right; congruence].
    destruct (IHl m') as [->|]; [by left|right; congruence].
Defined.

#[global] Instance Value_eq_dec : EqDecision Value := Value_eq_decide.

#[global] Arguments is_zero _ : simpl never.
#[global] Arguments zero_digest _ : simpl never.
