(* ===== verification/Reasoning.v ===== *)
(** Reasoning contracts ([zero-abi/src/reasoning.rs]): the frozen identity of
    a model invocation, its validation, the token headroom it protects, and
    the strict comparison that admits a candidate contract only when nothing
    of the baseline is lowered.

    [BTreeMap<String, T>] is the list of its entries in key order.  Serde's
    canonical encoding of a contract is the class [Codec]; an error is its
    failure code. *)

From S2P Require Import Prelude.
From S2P Require Import Canonical.
From S2P Require Import DurableStore.
From S2P Require Import Identity.
From S2P Require Zbf.

Definition REASONING_CONTRACT_SCHEMA_VERSION : string := "racc-r-reasoning-contract".
Definition REASONING_CONTRACT_VERSION : N := 1.
Definition REASONING_CONTRACT_MAX_CANONICAL_BYTES : N := 32 * 1024.
Definition REASONING_CONTRACT_MAX_EXTENSION_BYTES : N := 8 * 1024.
Definition REASONING_CONTRACT_MAX_EXTENSION_NODES : N := 256.
Definition REASONING_CONTRACT_MAX_EXTENSION_DEPTH : N := 16.
Definition REASONING_CONTRACT_MAX_ID_BYTES : nat := 128.
Definition REASONING_CONTRACT_MAX_TOOL_PERMISSIONS : nat := 256.
Definition REASONING_CONTRACT_MAX_STOP_SEQUENCES : nat := 64.
Definition REASONING_CONTRACT_MAX_STOP_SEQUENCE_BYTES : nat := 256.
Definition REASONING_CONTRACT_TEMPERATURE_PPM_MAX : N := 2000000.
Definition REASONING_CONTRACT_TOP_P_PPM_MAX : N := 1000000.

Definition INSTANCE_DOMAIN : bytes := domain "zerostack.reasoning_contract.instance".
Definition ADMISSION_DOMAIN : bytes := domain "zerostack.reasoning_contract.admission".

Inductive NativeStatePolicy :=
| ExactRequired | ExactIfAvailable | CleanRestart | ScopedCertificate | Unavailable.

Inductive ReasoningContractFailureCode :=
| SchemaVersionMismatch | MissingIdentity | InvalidIdentifier | InvalidTokenReservation
| CanonicalPayloadTooLarge | NonCanonicalEncoding | ProviderExtensionTooLarge
| EffortDownshiftAllowed | ComparisonIdentityMismatch | ReasoningModeMismatch
| ReasoningEffortMismatch | NativeStatePolicyMismatch | ProviderExtensionMismatch
| InvocationBindingMismatch | InvalidSamplingParams | InvalidStoppingPolicy
| InvalidSystemPromptRoot | InvalidToolPermissions | OutputCeilingDownshift
| ReasoningReserveDownshift | VisibleOutputReserveDownshift | RecoveryReserveDownshift
| ContextCapacityExceeded | InputExceedsHeadroom | AdmissionDigestMismatch | InvalidAdmission
| SerializationFailure.

Notation R := (result ReasoningContractFailureCode).

Record SamplingParams := mkSampling {
  temperature_ppm : N; top_p_ppm : N; seed : option N }.

Record StoppingPolicy := mkStopping { stop_sequences : list string; max_steps : option N }.

Record ToolPermission := mkPermission {
  read_only : bool; approval_required : bool; max_calls : option N }.

Record ReasoningContract := mkContract {
  schema_version : string;
  model_identity : Digest;
  backend_identity : Digest;
  tokenizer_identity : Digest;
  decoder_identity : Digest;
  tool_schema_digest : Digest;
  reasoning_mode : string;
  reasoning_effort : string;
  max_output_tokens : N;
  reserved_reasoning_tokens : N;
  reserved_visible_output_tokens : N;
  reserved_recovery_tokens : N;
  native_state_policy : NativeStatePolicy;
  allow_effort_downshift : bool;
  provider_extension : list (string * Value);
  sampling_params : option SamplingParams;
  stopping_policy : option StoppingPolicy;
  system_prompt_root : option Digest;
  tool_permissions : list (string * ToolPermission) }.

#[global] Instance NativeStatePolicy_eq_dec : EqDecision NativeStatePolicy.
Proof. solve_decision. Defined.
#[global] Instance SamplingParams_eq_dec : EqDecision SamplingParams.
Proof. solve_decision. Defined.
#[global] Instance StoppingPolicy_eq_dec : EqDecision StoppingPolicy.
Proof. solve_decision. Defined.
#[global] Instance ToolPermission_eq_dec : EqDecision ToolPermission.
Proof. solve_decision. Defined.
#[global] Instance ReasoningContract_eq_dec : EqDecision ReasoningContract.
Proof. solve_decision. Defined.

(** * Validation *)

(** [option.is_some_and(|n| n == 0)]. *)
Definition some_zero (o : option N) : bool :=
  match o with Some n => (n =? 0)%N | None => false end.

Definition SamplingParams_validate (p : SamplingParams) : R () :=
  reject? (REASONING_CONTRACT_TEMPERATURE_PPM_MAX <? temperature_ppm p)%N
    with InvalidSamplingParams in
  reject? (top_p_ppm p =? 0)%N || (REASONING_CONTRACT_TOP_P_PPM_MAX <? top_p_ppm p)%N
    with InvalidSamplingParams in
  Ok ().

Fixpoint validate_stop_sequences (l : list string) : R () :=
  match l with
  | [] => Ok ()
  | s :: l' =>
      reject? (String.length s =? 0)%nat ||
              (REASONING_CONTRACT_MAX_STOP_SEQUENCE_BYTES <? String.length s)%nat ||
              has_control (string_bytes s)
        with InvalidStoppingPolicy in
      validate_stop_sequences l'
  end.

Definition StoppingPolicy_validate (p : StoppingPolicy) : R () :=
  reject? (REASONING_CONTRACT_MAX_STOP_SEQUENCES <? length (stop_sequences p))%nat
    with InvalidStoppingPolicy in
  let? _ := validate_stop_sequences (stop_sequences p) in
  reject? some_zero (max_steps p) with InvalidStoppingPolicy in
  Ok ().

Definition ToolPermission_validate (p : ToolPermission) : R () :=
  reject? some_zero (max_calls p) with InvalidToolPermissions in
  Ok ().

Definition validate_id (value : string) : R () :=
  reject? all_whitespace (string_bytes value) ||
          (REASONING_CONTRACT_MAX_ID_BYTES <? String.length value)%nat ||
          has_control (string_bytes value)
    with InvalidIdentifier in
  Ok ().

Fixpoint validate_permission_entries (l : list (string * ToolPermission)) : R () :=
  match l with
  | [] => Ok ()
  | (tool, permission) :: l' =>
      let? _ := validate_id tool in
      let? _ := ToolPermission_validate permission in
      validate_permission_entries l'
  end.

Definition validate_tool_permissions (permissions : list (string * ToolPermission)) : R () :=
  reject? (REASONING_CONTRACT_MAX_TOOL_PERMISSIONS <? length permissions)%nat
    with InvalidToolPermissions in
  validate_permission_entries permissions.

(** [count_value_nodes]: the counter [nodes] is threaded through. *)
Fixpoint count_value_nodes (value : Value) (depth nodes : N) {struct value} : R N :=
  reject? (REASONING_CONTRACT_MAX_EXTENSION_DEPTH <? depth)%N with ProviderExtensionTooLarge in
  let? nodes := ok_or (checked_add_u64 nodes 1) ProviderExtensionTooLarge in
  reject? (REASONING_CONTRACT_MAX_EXTENSION_NODES <? nodes)%N with ProviderExtensionTooLarge in
  match value with
  | Array values =>
      (fix each (vs : list Value) (nodes : N) : R N :=
         match vs with
         | [] => Ok nodes
         | v :: vs' => let? nodes := count_value_nodes v (depth + 1) nodes in each vs' nodes
         end) values nodes
  | Object values =>
      (fix each (vs : list (string * Value)) (nodes : N) : R N :=
         match vs with
         | [] => Ok nodes
         | (key, v) :: vs' =>
             let? _ := validate_id key in
             let? nodes := count_value_nodes v (depth + 1) nodes in
             each vs' nodes
         end) values nodes
  | _ => Ok nodes
  end.

Fixpoint count_extension (entries : list (string * Value)) (nodes : N) : R () :=
  match entries with
  | [] => Ok ()
  | (key, value) :: entries' =>
      let? _ := validate_id key in
      let? nodes := count_value_nodes value 1 nodes in
      count_extension entries' nodes
  end.

Section Contracts.
Context `{Platform, Codec ReasoningContract}.

Definition validate_provider_extension (extension : list (string * Value)) : R () :=
  reject? (REASONING_CONTRACT_MAX_EXTENSION_BYTES <? len (canonical_bytes_of (Object extension)))%N
    with ProviderExtensionTooLarge in
  count_extension extension 1.

Definition optional {A} (f : A -> R ()) (o : option A) : R () :=
  match o with Some x => f x | None => Ok () end.

(** [canonical_bytes_unchecked]. *)
Definition canonical_bytes_unchecked (c : ReasoningContract) : bytes := encode c.

Definition validate (c : ReasoningContract) : R () :=
  guard? bool_decide (schema_version c = REASONING_CONTRACT_SCHEMA_VERSION)
    else SchemaVersionMismatch in
  reject? existsb zero_digest
      [model_identity c; backend_identity c; tokenizer_identity c; decoder_identity c;
       tool_schema_digest c]
    with MissingIdentity in
  let? _ := validate_id (reasoning_mode c) in
  let? _ := validate_id (reasoning_effort c) in
  reject? (max_output_tokens c =? 0)%N ||
          (max_output_tokens c <? reserved_visible_output_tokens c)%N
    with InvalidTokenReservation in
  let? _ := validate_provider_extension (provider_extension c) in
  let? _ := validate_tool_permissions (tool_permissions c) in
  let? _ := optional SamplingParams_validate (sampling_params c) in
  let? _ := optional StoppingPolicy_validate (stopping_policy c) in
  reject? match system_prompt_root c with Some root => zero_digest root | None => false end
    with InvalidSystemPromptRoot in
  reject? (REASONING_CONTRACT_MAX_CANONICAL_BYTES <? len (canonical_bytes_unchecked c))%N
    with CanonicalPayloadTooLarge in
  Ok ().

Definition ReasoningContract_new (model backend tokenizer decoder tools : Digest)
  (mode effort : string) (max_output reasoning visible recovery : N) (policy : NativeStatePolicy)
  (downshift : bool) (extension : list (string * Value)) : R ReasoningContract :=
  let contract := mkContract REASONING_CONTRACT_SCHEMA_VERSION model backend tokenizer decoder
    tools mode effort max_output reasoning visible recovery policy downshift extension
    None None None [] in
  let? _ := validate contract in
  Ok contract.

Definition with_invocation_bindings (c : ReasoningContract) (sampling : SamplingParams)
  (stopping : StoppingPolicy) (root : option Digest) (permissions : list (string * ToolPermission))
  : R ReasoningContract :=
  let? _ := SamplingParams_validate sampling in
  let? _ := StoppingPolicy_validate stopping in
  reject? match root with Some root => zero_digest root | None => false end
    with InvalidSystemPromptRoot in
  let? _ := validate_tool_permissions permissions in
  let c' := mkContract (schema_version c) (model_identity c) (backend_identity c)
    (tokenizer_identity c) (decoder_identity c) (tool_schema_digest c) (reasoning_mode c)
    (reasoning_effort c) (max_output_tokens c) (reserved_reasoning_tokens c)
    (reserved_visible_output_tokens c) (reserved_recovery_tokens c) (native_state_policy c)
    (allow_effort_downshift c) (provider_extension c) (Some sampling) (Some stopping) root
    permissions in
  let? _ := validate c' in
  Ok c'.

Definition canonical_bytes (c : ReasoningContract) : R bytes :=
  let? _ := validate c in Ok (canonical_bytes_unchecked c).

Definition from_canonical_bytes (b : bytes) : R ReasoningContract :=
  reject? (REASONING_CONTRACT_MAX_CANONICAL_BYTES <? len b)%N with CanonicalPayloadTooLarge in
  let? contract := ok_or (decode b) SerializationFailure in
  let? _ := validate contract in
  guard? bool_decide (canonical_bytes_unchecked contract = b) else NonCanonicalEncoding in
  Ok contract.

Definition identity_digest (c : ReasoningContract) : R Digest :=
  let? b := canonical_bytes c in Ok (concat_digest INSTANCE_DOMAIN b).

(** [u32::checked_sub]. *)
Definition checked_sub (a b : N) : option N := if (b <=? a)%N then Some (a - b)%N else None.

Definition admitted_input_ceiling (c : ReasoningContract) (context_capacity reserved_tool_tokens : N)
  : R N :=
  let? _ := validate c in
  ok_or (v1 ← checked_sub context_capacity (reserved_reasoning_tokens c);
         v2 ← checked_sub v1 (reserved_visible_output_tokens c);
         v3 ← checked_sub v2 (reserved_recovery_tokens c);
         checked_sub v3 reserved_tool_tokens)
    ContextCapacityExceeded.

Definition admit_input (c : ReasoningContract)
  (context_capacity reserved_tool_tokens logical_input_tokens : N) : R N :=
  let? ceiling := admitted_input_ceiling c context_capacity reserved_tool_tokens in
  reject? (ceiling <? logical_input_tokens)%N with InputExceedsHeadroom in
  Ok (ceiling - logical_input_tokens)%N.

(** * Strict admission *)

Record AdmissionTokenAdditions := mkAdditions {
  max_output : N; reasoning : N; visible_output : N; recovery : N }.

(** [StrictReasoningAdmission]; its public record has the same fields. *)
Record StrictReasoningAdmission := mkAdmission {
  contract_version : N;
  baseline_contract_digest : Digest;
  candidate_contract_digest : Digest;
  same_comparison_class : bool;
  added : AdmissionTokenAdditions;
  ra_admission_digest : Digest }.

Definition admission_digest (version : N) (baseline candidate : Digest) (same : bool)
  (added : AdmissionTokenAdditions) : Digest :=
  concat_digest ADMISSION_DOMAIN (canonical_bytes_of (Object
    [("baseline_contract_digest", jhex baseline);
     ("candidate_contract_digest", jhex candidate);
     ("contract_version", jnum version);
     ("max_output_tokens_added", jnum (max_output added));
     ("reasoning_tokens_added", jnum (reasoning added));
     ("recovery_tokens_added", jnum (recovery added));
     ("same_comparison_class", Bool same);
     ("visible_output_tokens_added", jnum (visible_output added))])).

Definition expected_digest (a : StrictReasoningAdmission) : Digest :=
  admission_digest (contract_version a) (baseline_contract_digest a)
    (candidate_contract_digest a) (same_comparison_class a) (added a).

Definition StrictReasoningAdmission_new (baseline candidate : ReasoningContract)
  : R StrictReasoningAdmission :=
  let? b := identity_digest baseline in
  let? c := identity_digest candidate in
  let same := bool_decide (baseline = candidate) in
  let added := mkAdditions
    (max_output_tokens candidate - max_output_tokens baseline)
    (reserved_reasoning_tokens candidate - reserved_reasoning_tokens baseline)
    (reserved_visible_output_tokens candidate - reserved_visible_output_tokens baseline)
    (reserved_recovery_tokens candidate - reserved_recovery_tokens baseline) in
  Ok (mkAdmission REASONING_CONTRACT_VERSION b c same added
        (admission_digest REASONING_CONTRACT_VERSION b c same added)).

Definition all_zero (a : AdmissionTokenAdditions) : bool :=
  (max_output a =? 0)%N && (reasoning a =? 0)%N && (visible_output a =? 0)%N && (recovery a =? 0)%N.

Definition validate_admission_shape (baseline candidate : Digest) (same : bool)
  (added : AdmissionTokenAdditions) : R () :=
  reject? negb (Bool.eqb same (bool_decide (baseline = candidate))) ||
          negb (Bool.eqb same (all_zero added))
    with InvalidAdmission in
  Ok ().

Definition validate_admission_fields (version : N) (baseline candidate admission expected : Digest)
  : R () :=
  guard? (version =? REASONING_CONTRACT_VERSION)%N else SchemaVersionMismatch in
  reject? zero_digest baseline || zero_digest candidate || zero_digest admission
    with MissingIdentity in
  guard? bool_decide (admission = expected) else AdmissionDigestMismatch in
  Ok ().

Definition StrictReasoningAdmission_validate (a : StrictReasoningAdmission) : R () :=
  let? _ := validate_admission_shape (baseline_contract_digest a) (candidate_contract_digest a)
    (same_comparison_class a) (added a) in
  validate_admission_fields (contract_version a) (baseline_contract_digest a)
    (candidate_contract_digest a) (ra_admission_digest a) (expected_digest a).

Definition verify_strict_no_downshift (baseline candidate : ReasoningContract)
  : R StrictReasoningAdmission :=
  let? _ := validate baseline in
  let? _ := validate candidate in
  reject? allow_effort_downshift baseline || allow_effort_downshift candidate
    with EffortDownshiftAllowed in
  guard? bool_decide (model_identity baseline = model_identity candidate) &&
         bool_decide (backend_identity baseline = backend_identity candidate) &&
         bool_decide (tokenizer_identity baseline = tokenizer_identity candidate) &&
         bool_decide (decoder_identity baseline = decoder_identity candidate) &&
         bool_decide (tool_schema_digest baseline = tool_schema_digest candidate)
    else ComparisonIdentityMismatch in
  guard? bool_decide (reasoning_mode baseline = reasoning_mode candidate)
    else ReasoningModeMismatch in
  guard? bool_decide (reasoning_effort baseline = reasoning_effort candidate)
    else ReasoningEffortMismatch in
  guard? bool_decide (native_state_policy baseline = native_state_policy candidate)
    else NativeStatePolicyMismatch in
  guard? bool_decide (provider_extension baseline = provider_extension candidate)
    else ProviderExtensionMismatch in
  guard? bool_decide (sampling_params baseline = sampling_params candidate)
    else InvocationBindingMismatch in
  guard? bool_decide (stopping_policy baseline = stopping_policy candidate)
    else InvocationBindingMismatch in
  guard? bool_decide (system_prompt_root baseline = system_prompt_root candidate)
    else InvocationBindingMismatch in
  guard? bool_decide (tool_permissions baseline = tool_permissions candidate)
    else InvocationBindingMismatch in
  reject? (max_output_tokens candidate <? max_output_tokens baseline)%N
    with OutputCeilingDownshift in
  reject? (reserved_reasoning_tokens candidate <? reserved_reasoning_tokens baseline)%N
    with ReasoningReserveDownshift in
  reject? (reserved_visible_output_tokens candidate <? reserved_visible_output_tokens baseline)%N
    with VisibleOutputReserveDownshift in
  reject? (reserved_recovery_tokens candidate <? reserved_recovery_tokens baseline)%N
    with RecoveryReserveDownshift in
  StrictReasoningAdmission_new baseline candidate.
End Contracts.

#[global] Instance AdmissionTokenAdditions_eq_dec : EqDecision AdmissionTokenAdditions.
Proof. solve_decision. Defined.
#[global] Instance StrictReasoningAdmission_eq_dec : EqDecision StrictReasoningAdmission.
Proof. solve_decision. Defined.

(** * Theorems *)

Section Theorems.
Context `{Platform, Codec ReasoningContract}.
Implicit Types (b c : ReasoningContract) (a : StrictReasoningAdmission).

(** Everything but the four token reserves, and those do not shrink. *)
Record no_downshift b c : Prop := {
  nd_valid : validate b = Ok () /\ validate c = Ok ();
  nd_strict : allow_effort_downshift b = false /\ allow_effort_downshift c = false;
  nd_identity : model_identity b = model_identity c /\ backend_identity b = backend_identity c /\
    tokenizer_identity b = tokenizer_identity c /\ decoder_identity b = decoder_identity c /\
    tool_schema_digest b = tool_schema_digest c;
  nd_mode : reasoning_mode b = reasoning_mode c /\ reasoning_effort b = reasoning_effort c /\
    native_state_policy b = native_state_policy c;
  nd_invocation : provider_extension b = provider_extension c /\
    sampling_params b = sampling_params c /\ stopping_policy b = stopping_policy c /\
    system_prompt_root b = system_prompt_root c /\ tool_permissions b = tool_permissions c;
  nd_reserves : (max_output_tokens b <= max_output_tokens c)%N /\
    (reserved_reasoning_tokens b <= reserved_reasoning_tokens c)%N /\
    (reserved_visible_output_tokens b <= reserved_visible_output_tokens c)%N /\
    (reserved_recovery_tokens b <= reserved_recovery_tokens c)%N }.

Lemma validate_version c : validate c = Ok () -> schema_version c = REASONING_CONTRACT_SCHEMA_VERSION.
Proof. unfold validate. intros Hv. case_bool_decide; [done|discriminate]. Qed.

Lemma identity_digest_valid c : validate c = Ok () ->
  identity_digest c = Ok (concat_digest INSTANCE_DOMAIN (encode c)).
Proof. intros Hv. unfold identity_digest, canonical_bytes. by rewrite Hv. Qed.

(** The checks in front of the admission decide [no_downshift]. *)
Lemma verify_strict_checks b c a :
  verify_strict_no_downshift b c = Ok a <->
  no_downshift b c /\ StrictReasoningAdmission_new b c = Ok a.
Proof.
  unfold verify_strict_no_downshift. split.
  - destruct (validate b) as [[]|] eqn:Hb; [|done]. destruct (validate c) as [[]|] eqn:Hc; [|done].
    cbn [mbind result_bind].
    repeat match goal with
    | |- context [if ?x then _ else _] =>
        first [destruct x eqn:?; [discriminate|] | destruct x eqn:?; [|discriminate]]
    end.
    intros Ha. breflect. split; [by constructor|done].
  - intros [[[-> ->] [-> ->] Hi Hm Hv Hr] Ha]. destruct_and?. cbn [mbind result_bind orb].
    rewrite !bool_decide_true by done. cbn [andb].
    rewrite !(proj2 (N.ltb_ge _ _)) by lia. exact Ha.
Qed.

Lemma same_class_iff b c : no_downshift b c ->
  (b = c <-> (max_output_tokens c = max_output_tokens b)%N /\
    (reserved_reasoning_tokens c = reserved_reasoning_tokens b)%N /\
    (reserved_visible_output_tokens c = reserved_visible_output_tokens b)%N /\
    (reserved_recovery_tokens c = reserved_recovery_tokens b)%N).
Proof.
  intros [[Hb Hc] [? ?] Hi Hm Hv Hr]. split; [by intros ->|]. intros Heq.
  apply validate_version in Hb, Hc. destruct b, c; cbn in *. destruct_and?. subst. done.
Qed.

(** Strict admission is exact.  A candidate contract is admitted against a
    baseline exactly when both are valid, neither allows an effort downshift,
    every identity, mode, policy and invocation binding is equal and no token
    reserve is lowered; the admission then names both contracts by digest,
    records exactly how many tokens each reserve gained, flags the pair as
    the same comparison class exactly when the contracts are equal, and binds
    all of it in its digest. *)
Theorem strict_admission_exact b c a :
  verify_strict_no_downshift b c = Ok a <->
  no_downshift b c /\
  identity_digest b = Ok (baseline_contract_digest a) /\
  identity_digest c = Ok (candidate_contract_digest a) /\
  contract_version a = REASONING_CONTRACT_VERSION /\
  (same_comparison_class a = true <-> b = c) /\
  (max_output_tokens c = max_output_tokens b + max_output (added a))%N /\
  (reserved_reasoning_tokens c = reserved_reasoning_tokens b + reasoning (added a))%N /\
  (reserved_visible_output_tokens c = reserved_visible_output_tokens b + visible_output (added a))%N /\
  (reserved_recovery_tokens c = reserved_recovery_tokens b + recovery (added a))%N /\
  ra_admission_digest a = expected_digest a.
Proof.
  rewrite verify_strict_checks. unfold StrictReasoningAdmission_new. split.
  - intros [Hnd Ha]. pose proof Hnd as [[Hb Hc] _ _ _ _ Hr].
    rewrite !identity_digest_valid in * by done. cbn in Ha. injection Ha as <-. cbn.
    rewrite bool_decide_eq_true. destruct_and?. split_and!; (done || lia).
  - intros (Hnd & Hb & Hc & Hv & Hs & H1 & H2 & H3 & H4 & Hd). split; [done|].
    rewrite Hb, Hc. cbn. destruct a as [v db dc same [m r vo rc] dg]; cbn in *. subst v. unfold expected_digest in Hd. cbn in Hd.
    assert (bool_decide (b = c) = same) as ->.
    { destruct same; [apply bool_decide_eq_true|apply bool_decide_eq_false; intros ->]; [tauto|].
      by assert (false = true) by tauto. }
    replace (max_output_tokens c - max_output_tokens b)%N with m by lia.
    replace (reserved_reasoning_tokens c - reserved_reasoning_tokens b)%N with r by lia.
    replace (reserved_visible_output_tokens c - reserved_visible_output_tokens b)%N with vo by lia.
    replace (reserved_recovery_tokens c - reserved_recovery_tokens b)%N with rc by lia.
    by rewrite <- Hd.
Qed.

(** Distinct contracts with distinct nonzero digests give a valid admission. *)
Lemma strict_admission_validates b c a :
  verify_strict_no_downshift b c = Ok a ->
  (b <> c -> baseline_contract_digest a <> candidate_contract_digest a) ->
  zero_digest (baseline_contract_digest a) = false ->
  zero_digest (candidate_contract_digest a) = false ->
  zero_digest (ra_admission_digest a) = false ->
  StrictReasoningAdmission_validate a = Ok ().
Proof.
  intros Hver Hinj Hz1 Hz2 Hz3. apply verify_strict_checks in Hver as [Hnd Ha].
  pose proof Hnd as [[Hb Hc] _ _ _ _ Hr]. pose proof (same_class_iff b c Hnd) as Hsame.
  unfold StrictReasoningAdmission_new in Ha. rewrite !identity_digest_valid in Ha by done.
  cbn in Ha. injection Ha as <-. cbn in *.
  unfold StrictReasoningAdmission_validate, validate_admission_shape, validate_admission_fields; cbn.
  rewrite Hz1, Hz2, Hz3. rewrite (bool_decide_true (admission_digest _ _ _ _ _ = _)) by done.
  assert (Hadd : all_zero (mkAdditions (max_output_tokens c - max_output_tokens b)
    (reserved_reasoning_tokens c - reserved_reasoning_tokens b)
    (reserved_visible_output_tokens c - reserved_visible_output_tokens b)
    (reserved_recovery_tokens c - reserved_recovery_tokens b)) = bool_decide (b = c)).
  { unfold all_zero; cbn. destruct (bool_decide (b = c)) eqn:Hbc; breflect.
    - subst. by rewrite !N.sub_diag.
    - apply not_true_iff_false. intros Hz. breflect. apply Hbc, Hsame. repeat split; lia. }
  rewrite Hadd, eqb_reflx. destruct (bool_decide (b = c)) eqn:Hbc; breflect.
  - subst. by rewrite bool_decide_true by done.
  - by rewrite bool_decide_false by auto.
Qed.

(** Headroom is protected exactly.  For a valid contract, [admit_input]
    admits a logical input and returns the remaining tokens exactly when the
    input, the remainder, the tool reserve and the contract's three reserves
    add up to the context capacity; nothing is admitted out of a reserve. *)
Theorem admit_input_exact c capacity tools input rest :
  validate c = Ok () ->
  admit_input c capacity tools input = Ok rest <->
  (input + rest + tools + reserved_reasoning_tokens c + reserved_visible_output_tokens c +
   reserved_recovery_tokens c = capacity)%N.
Proof.
  intros Hv. unfold admit_input, admitted_input_ceiling, checked_sub. rewrite Hv. cbn.
  destruct (N.leb_spec (reserved_reasoning_tokens c) capacity); cbn; [|split; [done|lia]].
  destruct (N.leb_spec (reserved_visible_output_tokens c) (capacity - reserved_reasoning_tokens c));
    cbn; [|split; [done|lia]].
  destruct (N.leb_spec (reserved_recovery_tokens c)
    (capacity - reserved_reasoning_tokens c - reserved_visible_output_tokens c)); cbn; [|split; [done|lia]].
  destruct (N.leb_spec tools (capacity - reserved_reasoning_tokens c -
    reserved_visible_output_tokens c - reserved_recovery_tokens c)); cbn; [|split; [done|lia]].
  destruct (N.ltb_spec (capacity - reserved_reasoning_tokens c - reserved_visible_output_tokens c -
    reserved_recovery_tokens c - tools) input); cbn; [split; [done|lia]|].
  split; [intros [= <-]; lia|]. intros <-. f_equal. lia.
Qed.
End Theorems.

Module Toy.
#[local] Instance toy_platform : Platform :=
  {| sha256 := Zbf.toy_sha256; json_string := Zbf.toy_json_string |}.
#[local] Instance toy_contracts : Codec ReasoningContract :=
  {| encode := fun c => string_bytes (reasoning_mode c); decode := fun _ => None |}.

Definition id (n : N) : Digest := repeat (ascii_of_N n) 32.

Definition contract : ReasoningContract :=
  mkContract REASONING_CONTRACT_SCHEMA_VERSION (id 1) (id 2) (id 3) (id 4) (id 5) "extended" "high"
    4096 2000 1000 500 ExactRequired false [] None None None [].

(** Capacity 10,000 less 3,500 of reserves and 300 for tools leaves 6,200
    for the input. *)
Lemma admit_input_exact_witness :
  validate contract = Ok () /\ admit_input contract 10000 300 6000 = Ok 200%N /\
  admit_input contract 10000 300 6201 <> Ok 0%N.
Proof.
  assert (Hv : validate contract = Ok ()) by (vm_compute; reflexivity).
  split_and!; [exact Hv|apply (admit_input_exact contract 10000 300 6000 200 Hv); reflexivity|].
  intros Hc. apply (admit_input_exact contract 10000 300 6201 0 Hv) in Hc. discriminate Hc.
Defined.
End Toy.
