(* ===== verification/Evidence.v ===== *)
(** Proof-carrying evidence ([zero-cert/src/lib.rs]): a certificate states a
    query, the spans that answer it, their bytes, and a completeness witness;
    [verify] re-derives the answer from resident objects and trusted locks.

    A [Resolver] is the caller's object table and lock lookup, a record of
    functions here.  Serde's encodings of certificates and receipts are
    [Codec] parameters; [usize] has 64 bits. *)

From S2P Require Import Prelude.
From S2P Require Import Canonical.
From S2P Require Import DurableStore.
From S2P Require Import Identity.
From S2P Require ZeroRef.
From S2P Require Zbf.

Notation ObjectId := Digest.
Notation SpanRef := ZeroRef.SpanRef.

(** * Data *)

Inductive Query :=
| QReadSpan (span : SpanRef)
| QExactSearch (scope : ObjectId) (pattern : bytes)
| QExactSearchDomain (pattern : bytes) (objects : list ObjectId) (snapshot_id : Digest)
    (index_id index_version : string)
| QDefinition (symbol : N)
| QReferences (symbol : N)
| QAstClosure (seeds : list N) (relations radius : N)
| QCallPath (source target : N)
| QDataflowSlice (sink : N)
| QDiff (old new : ObjectId)
| QByteExactDiff (old new : ObjectId) (start before_end after_end : N)
| QMutationOutcome (journal_id : Digest) (sequence : N) (old new : ObjectId) (applied : bool)
| QAggregate (snapshot_id : Digest) (objects : list ObjectId) (requested emitted : N)
| QBuildReceipt (command : N)
| QTestTrace (test : N).

Record Provenance := mkProvenance {
  parser_id : string; parser_version : string;
  index_id : string; index_version : string;
  operator_id : string; operator_version : string }.

Record OperatorLock := mkLock { lock_id : string; lock_version : string }.

Record MutationReceipt := mkMutationReceipt {
  mr_journal_id : Digest; mr_sequence : N; mr_old : ObjectId; mr_new : ObjectId; mr_applied : bool }.

Record AggregateReceipt := mkAggregateReceipt {
  ar_snapshot_id : Digest; ar_objects : list ObjectId; ar_requested : N; ar_emitted : N;
  ar_result_digest : Digest }.

Inductive CompletenessWitness :=
| WReadSpan (operator : OperatorLock)
| WExactSearch (operator : OperatorLock) (scope : ObjectId) (pattern : bytes) (scope_len match_count : N)
| WExactSearchDomain (operator : OperatorLock) (pattern : bytes) (objects : list ObjectId)
    (snapshot_id : Digest) (index_id index_version : string) (match_count : N)
| WDefinition (operator : OperatorLock) (symbol : N) (index_id index_version : string)
| WReferences (operator : OperatorLock) (symbol : N) (index_id index_version : string) (match_count : N)
| WAstClosure (operator : OperatorLock) (seeds : list N) (relations radius : N)
    (parser_id parser_version : string) (visited_nodes : N)
| WCallPath (operator : OperatorLock) (source target edge_count : N)
| WDataflowSlice (operator : OperatorLock) (sink visited_nodes : N)
| WDiff (operator : OperatorLock) (old new : ObjectId)
| WByteExactDiff (operator : OperatorLock) (old new : ObjectId) (start before_end after_end : N)
    (replacement_digest : Digest)
| WMutationOutcome (operator : OperatorLock) (journal_id : Digest) (sequence : N) (old new : ObjectId)
    (applied : bool) (receipt_digest : Digest)
| WAggregate (operator : OperatorLock) (snapshot_id : Digest) (objects : list ObjectId)
    (requested emitted : N) (result_digest : Digest)
| WBuildReceipt (operator : OperatorLock) (command : N) (exit_code : Z)
    (stdout_digest stderr_digest : Digest)
| WTestTrace (operator : OperatorLock) (test : N) (exit_code : Z) (trace_digest : Digest).

Record EvidenceCertificate := mkEvidence {
  query : Query;
  spans : list SpanRef;
  payload : bytes;
  provenance : Provenance;
  completeness : CompletenessWitness;
  input_token_cost : N;
  backend_work_units : N }.

(** The [Resolver] trait. *)
Record Resolver := mkResolver {
  resolve : ObjectId -> option bytes;
  trusted_operator_version : string -> option string;
  trusted_parser_version : string -> option string;
  trusted_index_version : string -> option string;
  resolve_mutation_receipt : Digest -> N -> option bytes;
  resolve_aggregate_receipt : Digest -> option bytes }.

Inductive VerificationError :=
| MissingObject (object_id : ObjectId)
| RangeOverflow (span_index : nat)
| RangeOutsideObject (span_index : nat)
| ObjectIdentityMismatch (span_index : nat)
| ObjectDigestMismatch (span_index : nat)
| SpanDigestMismatch (span_index : nat)
| PayloadLengthMismatch
| PayloadMismatch (span_index : nat)
| WitnessQueryMismatch
| MissingTrustedOperator
| MissingTrustedParser
| MissingTrustedIndex
| MissingTrustedReceipt
| MalformedTrustedReceipt
| StaleOperator
| StaleParser
| StaleIndex
| InvalidCompleteness.

Notation R := (result VerificationError).

#[global] Instance SpanRef_eq_dec : EqDecision SpanRef.
Proof. solve_decision. Defined.

Definition invalid_if (valid : bool) : R () := guard? valid else InvalidCompleteness in Ok ().

(** * Locks *)

Definition check_trusted_operator (p : Provenance) (r : Resolver) : R () :=
  let? version := ok_or (trusted_operator_version r (operator_id p)) MissingTrustedOperator in
  guard? bool_decide (version = operator_version p) else StaleOperator in Ok ().

Definition check_trusted_parser (p : Provenance) (r : Resolver) : R () :=
  let? version := ok_or (trusted_parser_version r (parser_id p)) MissingTrustedParser in
  guard? bool_decide (version = parser_version p) else StaleParser in Ok ().

Definition check_trusted_index (p : Provenance) (r : Resolver) : R () :=
  let? version := ok_or (trusted_index_version r (index_id p)) MissingTrustedIndex in
  guard? bool_decide (version = index_version p) else StaleIndex in Ok ().

Definition check_trusted_provenance (p : Provenance) (r : Resolver) : R () :=
  let? _ := check_trusted_operator p r in
  let? _ := check_trusted_parser p r in
  check_trusted_index p r.

Definition check_operator (lock : OperatorLock) (p : Provenance) : R () :=
  guard? bool_decide (lock_id lock = operator_id p) && bool_decide (lock_version lock = operator_version p)
    else StaleOperator in Ok ().

Definition check_parser (id version : string) (p : Provenance) : R () :=
  guard? bool_decide (id = parser_id p) && bool_decide (version = parser_version p)
    else StaleParser in Ok ().

Definition check_index (id version : string) (p : Provenance) : R () :=
  guard? bool_decide (id = index_id p) && bool_decide (version = index_version p)
    else StaleIndex in Ok ().

Section Verify.
Context `{Platform, Codec EvidenceCertificate, Codec MutationReceipt, Codec AggregateReceipt}.

Definition canonical_digest (c : EvidenceCertificate) : Digest := sha256 (encode c).

Definition domain_snapshot_digest (objects : list ObjectId) (index_id index_version : string) : Digest :=
  sha256 (canonical_bytes_of (Object
    [("index_id", VString index_id); ("index_version", VString index_version);
     ("objects", Array (jbytes <$> objects))])).

(** * Spans *)

Definition verify_payload_span (index : nat) (payload : bytes) (payload_offset : N) (b : bytes)
  (n : N) : R N :=
  let? payload_end := ok_or (checked_add_u64 payload_offset n) PayloadLengthMismatch in
  let? window := ok_or (slice payload payload_offset payload_end) PayloadLengthMismatch in
  guard? bool_decide (window = b) else PayloadMismatch index in
  Ok payload_end.

Definition verify_span (index : nat) (span : SpanRef) (payload : bytes) (payload_offset : N)
  (r : Resolver) : R N :=
  let? object := ok_or (resolve r (ZeroRef.object_id span)) (MissingObject (ZeroRef.object_id span)) in
  let digest := sha256 object in
  guard? bool_decide (digest = ZeroRef.object_id span) else ObjectIdentityMismatch index in
  guard? bool_decide (digest = ZeroRef.object_digest span) else ObjectDigestMismatch index in
  let start := ZeroRef.byte_start span in
  let n := ZeroRef.byte_len span in
  let? stop := ok_or (checked_add_u64 start n) (RangeOverflow index) in
  let? b := ok_or (slice object start stop) (RangeOutsideObject index) in
  guard? bool_decide (sha256 b = ZeroRef.span_digest span) else SpanDigestMismatch index in
  verify_payload_span index payload payload_offset b n.

Fixpoint verify_span_loop (index : nat) (l : list SpanRef) (payload : bytes) (payload_offset : N)
  (r : Resolver) : R N :=
  match l with
  | [] => Ok payload_offset
  | span :: l' =>
      let? payload_offset := verify_span index span payload payload_offset r in
      verify_span_loop (S index) l' payload payload_offset r
  end.

Definition verify_spans (c : EvidenceCertificate) (r : Resolver) : R () :=
  match query c with
  | QMutationOutcome _ _ _ _ _ | QAggregate _ _ _ _ => invalid_if (bool_decide (spans c = []))
  | _ =>
      let? payload_offset := verify_span_loop 0 (spans c) (payload c) 0 r in
      guard? (payload_offset =? len (payload c))%N else PayloadLengthMismatch in
      Ok ()
  end.

(** * Completeness, one check per query *)

Definition verify_read_span (c : EvidenceCertificate) : R () :=
  match query c, completeness c with
  | QReadSpan wanted, WReadSpan operator =>
      let? _ := check_operator operator (provenance c) in
      invalid_if (bool_decide (spans c = [wanted]))
  | _, _ => Err WitnessQueryMismatch
  end.

Definition validate_search_domain (pattern : bytes) (scope_len match_count : N) (object : bytes)
  (c : EvidenceCertificate) : R () :=
  reject? (length pattern =? 0)%nat || negb (scope_len =? len object)%N ||
          negb (match_count =? N.of_nat (length (spans c)))%N
    with InvalidCompleteness in
  Ok ().

Definition validate_search_match (scope : ObjectId) (pattern_len offset found : nat)
  (l : list SpanRef) : R nat :=
  let? span := ok_or (l !! found) InvalidCompleteness in
  guard? bool_decide (ZeroRef.object_id span = scope) &&
         (ZeroRef.byte_start span =? N.of_nat offset)%N &&
         (ZeroRef.byte_len span =? N.of_nat pattern_len)%N
    else InvalidCompleteness in
  Ok (S found).

(** [object.windows(pattern.len()).enumerate()]: [rest] is the object from [offset] on. *)
Fixpoint search_windows (scope : ObjectId) (pattern rest : bytes) (offset found : nat)
  (l : list SpanRef) : R nat :=
  match rest with
  | [] => Ok found
  | _ :: rest' =>
      if (length pattern <=? length rest)%nat then
        let? found :=
          if bool_decide (take (length pattern) rest = pattern)
          then validate_search_match scope (length pattern) offset found l
          else Ok found in
        search_windows scope pattern rest' (S offset) found l
      else Ok found
  end.

Definition validate_search_witness (scope : ObjectId) (pattern object : bytes) (l : list SpanRef) : R () :=
  let? found := search_windows scope pattern object 0 0 l in
  invalid_if (found =? length l)%nat.

Definition verify_search (scope : ObjectId) (pattern : bytes) (scope_len match_count : N)
  (c : EvidenceCertificate) (r : Resolver) : R () :=
  let? object := ok_or (resolve r scope) (MissingObject scope) in
  guard? bool_decide (sha256 object = scope) else ObjectIdentityMismatch 0 in
  let? _ := validate_search_domain pattern scope_len match_count object c in
  validate_search_witness scope pattern object (spans c).

Definition verify_search_binding (c : EvidenceCertificate) (r : Resolver) : R () :=
  match query c, completeness c with
  | QExactSearch scope pattern, WExactSearch operator bound_scope bound_pattern scope_len match_count =>
      let? _ := check_operator operator (provenance c) in
      guard? bool_decide (scope = bound_scope) && bool_decide (pattern = bound_pattern)
        else WitnessQueryMismatch in
      verify_search scope pattern scope_len match_count c r
  | _, _ => Err WitnessQueryMismatch
  end.

Definition resolve_hashed (object_id : ObjectId) (r : Resolver) : R bytes :=
  let? b := ok_or (resolve r object_id) (MissingObject object_id) in
  guard? bool_decide (sha256 b = object_id) else InvalidCompleteness in
  Ok b.

Definition domain_span_matches (span : SpanRef) (object_id : ObjectId) (start : nat) (pattern : bytes) : bool :=
  bool_decide (ZeroRef.object_id span = object_id) &&
  bool_decide (ZeroRef.object_digest span = object_id) &&
  (ZeroRef.byte_start span =? N.of_nat start)%N &&
  (ZeroRef.byte_len span =? len pattern)%N &&
  bool_decide (ZeroRef.span_digest span = sha256 pattern).

(** The loop [for start in 0..=len-saturating-minus-pattern-len]; the two
    counters are threaded through. *)
Fixpoint domain_starts (starts : list nat) (c : EvidenceCertificate) (object_id : ObjectId)
  (b pattern : bytes) (span_index : nat) (matches : N) : R (nat * N) :=
  match starts with
  | [] => Ok (span_index, matches)
  | start :: starts' =>
      if bool_decide (slice b (N.of_nat start) (N.of_nat start + len pattern) = Some pattern) then
        let? span := ok_or (spans c !! span_index) InvalidCompleteness in
        guard? domain_span_matches span object_id start pattern else InvalidCompleteness in
        let? matches := ok_or (checked_add_u64 matches 1) InvalidCompleteness in
        domain_starts starts' c object_id b pattern (S span_index) matches
      else domain_starts starts' c object_id b pattern span_index matches
  end.

Definition verify_domain_matches (c : EvidenceCertificate) (object_id : ObjectId) (b pattern : bytes)
  (span_index : nat) (matches : N) : R (nat * N) :=
  domain_starts (seq 0 (S (length b - length pattern))) c object_id b pattern span_index matches.

Fixpoint domain_objects (objects : list ObjectId) (c : EvidenceCertificate) (pattern : bytes)
  (r : Resolver) (span_index : nat) (matches : N) : R (nat * N) :=
  match objects with
  | [] => Ok (span_index, matches)
  | object_id :: objects' =>
      let? b := resolve_hashed object_id r in
      let? (span_index, matches) := verify_domain_matches c object_id b pattern span_index matches in
      domain_objects objects' c pattern r span_index matches
  end.

Definition verify_search_domain (c : EvidenceCertificate) (r : Resolver) : R () :=
  match query c, completeness c with
  | QExactSearchDomain pattern objects snapshot_id index version,
    WExactSearchDomain operator bound_pattern bound_objects bound_snapshot bound_index bound_version
      match_count =>
      guard? bool_decide (pattern = bound_pattern) && bool_decide (objects = bound_objects) &&
             bool_decide (snapshot_id = bound_snapshot) && bool_decide (index = bound_index) &&
             bool_decide (version = bound_version)
        else WitnessQueryMismatch in
      let? _ := check_operator operator (provenance c) in
      let? _ := check_index index version (provenance c) in
      reject? (length pattern =? 0)%nat || (length objects =? 0)%nat ||
              negb (bool_decide (snapshot_id = domain_snapshot_digest objects index version))
        with InvalidCompleteness in
      let? (span_index, matches) := domain_objects objects c pattern r 0 0 in
      invalid_if ((span_index =? length (spans c))%nat && (matches =? match_count)%N)
  | _, _ => Err WitnessQueryMismatch
  end.

Definition verify_definition (c : EvidenceCertificate) : R () :=
  match query c, completeness c with
  | QDefinition symbol, WDefinition operator bound index version =>
      let? _ := check_index index version (provenance c) in
      guard? (symbol =? bound)%N else WitnessQueryMismatch in
      let? _ := check_operator operator (provenance c) in
      invalid_if (length (spans c) =? 1)%nat
  | _, _ => Err WitnessQueryMismatch
  end.

Definition verify_references (c : EvidenceCertificate) : R () :=
  match query c, completeness c with
  | QReferences symbol, WReferences operator bound index version match_count =>
      let? _ := check_index index version (provenance c) in
      guard? (symbol =? bound)%N else WitnessQueryMismatch in
      let? _ := check_operator operator (provenance c) in
      invalid_if (match_count =? N.of_nat (length (spans c)))%N
  | _, _ => Err WitnessQueryMismatch
  end.

Definition verify_ast_closure (c : EvidenceCertificate) : R () :=
  match query c, completeness c with
  | QAstClosure seeds relations radius,
    WAstClosure operator bound_seeds bound_relations bound_radius parser version visited_nodes =>
      let? _ := check_parser parser version (provenance c) in
      guard? bool_decide (seeds = bound_seeds) && (relations =? bound_relations)%N &&
             (radius =? bound_radius)%N
        else WitnessQueryMismatch in
      let? _ := check_operator operator (provenance c) in
      invalid_if ((0 <? visited_nodes)%N && negb (bool_decide (spans c = [])))
  | _, _ => Err WitnessQueryMismatch
  end.

Definition verify_call_path (c : EvidenceCertificate) : R () :=
  match query c, completeness c with
  | QCallPath source target, WCallPath operator bound_source bound_target edge_count =>
      guard? (source =? bound_source)%N && (target =? bound_target)%N else WitnessQueryMismatch in
      let? _ := check_operator operator (provenance c) in
      invalid_if (bool_decide (checked_add_u64 edge_count 1 = Some (N.of_nat (length (spans c)))))
  | _, _ => Err WitnessQueryMismatch
  end.

Definition verify_dataflow_slice (c : EvidenceCertificate) : R () :=
  match query c, completeness c with
  | QDataflowSlice sink, WDataflowSlice operator bound visited_nodes =>
      guard? (sink =? bound)%N else WitnessQueryMismatch in
      let? _ := check_operator operator (provenance c) in
      invalid_if ((0 <? visited_nodes)%N && negb (bool_decide (spans c = [])))
  | _, _ => Err WitnessQueryMismatch
  end.

(** [bytes.get(start..)]. *)
Definition get_from (b : bytes) (start : N) : option bytes := slice b start (len b).

Definition verify_diff_ranges (c : EvidenceCertificate) (old new : bytes)
  (start before_end after_end : N) (replacement_digest : Digest) (new_id : ObjectId) : R () :=
  let? selected := ok_or (slice old start before_end) InvalidCompleteness in
  let? replacement := ok_or (slice new start after_end) InvalidCompleteness in
  reject? bool_decide (selected = replacement) ||
          negb (bool_decide (slice old 0 start = slice new 0 start)) ||
          negb (bool_decide (get_from old before_end = get_from new after_end)) ||
          negb (bool_decide (sha256 replacement = replacement_digest))
    with InvalidCompleteness in
  guard? bool_decide (payload c = replacement) else InvalidCompleteness in
  let? span := ok_or (head (spans c)) InvalidCompleteness in
  invalid_if ((length (spans c) =? 1)%nat &&
              domain_span_matches span new_id (N.to_nat start) replacement).

Definition verify_byte_exact_diff (c : EvidenceCertificate) (r : Resolver) : R () :=
  match query c, completeness c with
  | QByteExactDiff old new start before_end after_end,
    WByteExactDiff operator bound_old bound_new bound_start bound_before bound_after replacement_digest =>
      guard? bool_decide (old = bound_old) && bool_decide (new = bound_new) &&
             (start =? bound_start)%N && (before_end =? bound_before)%N &&
             (after_end =? bound_after)%N
        else WitnessQueryMismatch in
      let? _ := check_operator operator (provenance c) in
      reject? bool_decide (old = new) with InvalidCompleteness in
      let? old_bytes := resolve_hashed old r in
      let? new_bytes := resolve_hashed new r in
      verify_diff_ranges c old_bytes new_bytes start before_end after_end replacement_digest new
  | _, _ => Err WitnessQueryMismatch
  end.

Definition mutation_receipt_matches (receipt : MutationReceipt) (journal_id : Digest) (sequence : N)
  (old new : ObjectId) (applied : bool) : bool :=
  bool_decide (mr_journal_id receipt = journal_id) && (mr_sequence receipt =? sequence)%N &&
  bool_decide (mr_old receipt = old) && bool_decide (mr_new receipt = new) &&
  Bool.eqb (mr_applied receipt) applied.

Definition verify_mutation_outcome (c : EvidenceCertificate) (r : Resolver) : R () :=
  match query c, completeness c with
  | QMutationOutcome journal_id sequence old new applied,
    WMutationOutcome operator bound_journal bound_sequence bound_old bound_new bound_applied receipt_digest =>
      guard? bool_decide (journal_id = bound_journal) && (sequence =? bound_sequence)%N &&
             bool_decide (old = bound_old) && bool_decide (new = bound_new) &&
             Bool.eqb applied bound_applied
        else WitnessQueryMismatch in
      let? _ := check_operator operator (provenance c) in
      let? _ := resolve_hashed old r in
      let? _ := resolve_hashed new r in
      let? trusted := ok_or (resolve_mutation_receipt r journal_id sequence) MissingTrustedReceipt in
      guard? bool_decide (sha256 trusted = receipt_digest) && bool_decide (payload c = trusted)
        else InvalidCompleteness in
      let? receipt := ok_or (decode trusted : option MutationReceipt) MalformedTrustedReceipt in
      guard? mutation_receipt_matches receipt journal_id sequence old new applied
        else WitnessQueryMismatch in
      invalid_if (negb (sequence =? 0)%N && negb (applied && bool_decide (old = new)))
  | _, _ => Err WitnessQueryMismatch
  end.

Fixpoint resolve_all (objects : list ObjectId) (r : Resolver) : R () :=
  match objects with
  | [] => Ok ()
  | object_id :: objects' => let? _ := resolve_hashed object_id r in resolve_all objects' r
  end.

Definition verify_aggregate_domain (snapshot_id : Digest) (objects : list ObjectId) (p : Provenance)
  (r : Resolver) : R N :=
  reject? (length objects =? 0)%nat ||
          negb (bool_decide (snapshot_id = domain_snapshot_digest objects (index_id p) (index_version p)))
    with InvalidCompleteness in
  let? _ := resolve_all objects r in
  Ok (N.of_nat (length objects)).

Definition aggregate_receipt_matches (receipt : AggregateReceipt) (snapshot_id : Digest)
  (objects : list ObjectId) (requested emitted : N) (result_digest : Digest) : bool :=
  bool_decide (ar_snapshot_id receipt = snapshot_id) && bool_decide (ar_objects receipt = objects) &&
  (ar_requested receipt =? requested)%N && (ar_emitted receipt =? emitted)%N &&
  bool_decide (ar_result_digest receipt = result_digest).

Definition verify_aggregate (c : EvidenceCertificate) (r : Resolver) : R () :=
  match query c, completeness c with
  | QAggregate snapshot_id objects requested emitted,
    WAggregate operator bound_snapshot bound_objects bound_requested bound_emitted result_digest =>
      guard? bool_decide (snapshot_id = bound_snapshot) && bool_decide (objects = bound_objects) &&
             (requested =? bound_requested)%N && (emitted =? bound_emitted)%N
        else WitnessQueryMismatch in
      let? _ := check_operator operator (provenance c) in
      let? object_count := verify_aggregate_domain snapshot_id objects (provenance c) r in
      let? _ := invalid_if ((requested =? object_count)%N && (emitted <=? requested)%N) in
      let? trusted := ok_or (resolve_aggregate_receipt r snapshot_id) MissingTrustedReceipt in
      let? receipt := ok_or (decode trusted : option AggregateReceipt) MalformedTrustedReceipt in
      guard? aggregate_receipt_matches receipt snapshot_id objects requested emitted result_digest
        else WitnessQueryMismatch in
      invalid_if (bool_decide (sha256 (payload c) = result_digest))
  | _, _ => Err WitnessQueryMismatch
  end.

Definition verify_diff (c : EvidenceCertificate) : R () :=
  match query c, completeness c with
  | QDiff old new, WDiff operator bound_old bound_new =>
      guard? bool_decide (old = bound_old) && bool_decide (new = bound_new) else WitnessQueryMismatch in
      let? _ := check_operator operator (provenance c) in
      invalid_if (existsb (fun s => bool_decide (ZeroRef.object_id s = old)) (spans c) &&
                  existsb (fun s => bool_decide (ZeroRef.object_id s = new)) (spans c))
  | _, _ => Err WitnessQueryMismatch
  end.

Definition verify_build_receipt (c : EvidenceCertificate) : R () :=
  match query c, completeness c with
  | QBuildReceipt command, WBuildReceipt operator bound _ stdout_digest stderr_digest =>
      guard? (command =? bound)%N else WitnessQueryMismatch in
      let? _ := check_operator operator (provenance c) in
      invalid_if
        (match spans c with
         | [s0; s1] => bool_decide (ZeroRef.span_digest s0 = stdout_digest) &&
                       bool_decide (ZeroRef.span_digest s1 = stderr_digest)
         | _ => false
         end)
  | _, _ => Err WitnessQueryMismatch
  end.

Definition verify_test_trace (c : EvidenceCertificate) : R () :=
  match query c, completeness c with
  | QTestTrace test, WTestTrace operator bound _ trace_digest =>
      guard? (test =? bound)%N else WitnessQueryMismatch in
      let? _ := check_operator operator (provenance c) in
      invalid_if
        (match spans c with
         | [s0] => bool_decide (ZeroRef.span_digest s0 = trace_digest)
         | _ => false
         end)
  | _, _ => Err WitnessQueryMismatch
  end.

Definition verify_graph_or_execution (c : EvidenceCertificate) (r : Resolver) : R () :=
  match query c with
  | QCallPath _ _ => verify_call_path c
  | QDataflowSlice _ => verify_dataflow_slice c
  | QDiff _ _ => verify_diff c
  | QByteExactDiff _ _ _ _ _ => verify_byte_exact_diff c r
  | QMutationOutcome _ _ _ _ _ => verify_mutation_outcome c r
  | QAggregate _ _ _ _ => verify_aggregate c r
  | QBuildReceipt _ => verify_build_receipt c
  | QTestTrace _ => verify_test_trace c
  | _ => Err WitnessQueryMismatch
  end.

Definition verify_completeness (c : EvidenceCertificate) (r : Resolver) : R () :=
  match query c with
  | QReadSpan _ => verify_read_span c
  | QExactSearch _ _ => verify_search_binding c r
  | QExactSearchDomain _ _ _ _ _ => verify_search_domain c r
  | QDefinition _ => verify_definition c
  | QReferences _ => verify_references c
  | QAstClosure _ _ _ => verify_ast_closure c
  | _ => verify_graph_or_execution c r
  end.

(** [verify] returns its argument as a [VerifiedEvidence]. *)
Definition verify (c : EvidenceCertificate) (r : Resolver) : R EvidenceCertificate :=
  let? _ := check_trusted_provenance (provenance c) r in
  let? _ := verify_spans c r in
  let? _ := verify_completeness c r in
  Ok c.
End Verify.

(** * What the checks establish *)

(** Positions at which [pattern] occurs in [object], ascending; occurrences may
    overlap. *)
Definition occurs (pattern object : bytes) (i : nat) : Prop :=
  take (length pattern) (drop i object) = pattern.
#[global] Instance occurs_dec pattern object i : Decision (occurs pattern object i).
Proof. unfold occurs. apply _. Defined.

Definition occurrences (pattern object : bytes) : list nat :=
  filter (occurs pattern object) (seq 0 (length object)).

(** [s] is the span of [n] bytes at position [i] of [scope]. *)
Definition span_at (scope : ObjectId) (n : nat) (i : nat) (s : SpanRef) : Prop :=
  ZeroRef.object_id s = scope /\ ZeroRef.byte_start s = N.of_nat i /\ ZeroRef.byte_len s = N.of_nat n.

(** The answers of a scan that starts at span [found]: one span per start. *)
Definition answered {A} (P : A -> SpanRef -> Prop) (starts : list A) (l : list SpanRef) (found : nat) : Prop :=
  Forall2 P starts (take (length starts) (drop found l)).

Lemma answered_nil {A} (P : A -> SpanRef -> Prop) l found : answered P [] l found.
Proof. by constructor. Qed.

Lemma answered_cons {A} (P : A -> SpanRef -> Prop) i starts l found :
  answered P (i :: starts) l found <->
  exists s, l !! found = Some s /\ P i s /\ answered P starts l (S found).
Proof.
  unfold answered. cbn. split.
  - intros Ha. destruct (drop found l) as [|s rest] eqn:Hd; cbn in Ha; [by inversion Ha|].
    inversion_clear Ha as [|? ? ? ? Hs Ha']. exists s.
    assert (l !! found = Some s) as Hl. { rewrite <- (Nat.add_0_r found), <- lookup_drop, Hd. done. }
    split; [done|]. split; [done|]. rewrite (drop_S _ _ _ Hl) in Hd. by injection Hd as ->.
  - intros (s & Hl & Hs & Ha). rewrite (drop_S _ _ _ Hl). by constructor.
Qed.

Lemma answered_all {A} (P : A -> SpanRef -> Prop) starts l : answered P starts l 0 -> length starts = length l -> Forall2 P starts l.
Proof. unfold answered. intros Ha Hl. by rewrite drop_0, Hl, firstn_all in Ha. Qed.

Lemma answered_app {A} (P : A -> SpanRef -> Prop) starts1 starts2 l found :
  answered P (starts1 ++ starts2) l found <->
  answered P starts1 l found /\ answered P starts2 l (found + length starts1)%nat.
Proof.
  revert found. induction starts1 as [|i starts1 IH]; intros found; cbn [app length].
  - rewrite Nat.add_0_r. split; [|by intros [_ ?]]. intros. split; [apply answered_nil|done].
  - rewrite !answered_cons. setoid_rewrite IH.
    replace (found + S (length starts1))%nat with (S found + length starts1)%nat by lia.
    split; [intros (s & ? & ? & ? & ?)|intros [(s & ? & ? & ?) ?]]; eauto 10.
Qed.

Lemma occurs_length pattern object i :
  occurs pattern object i -> (i + length pattern <= length object)%nat \/ pattern = [].
Proof.
  unfold occurs. intros Ho. apply (f_equal length) in Ho. rewrite length_take, length_drop in Ho.
  destruct pattern; [by right|]. left. cbn [length] in *. lia.
Qed.

Lemma slice_occurs pattern object i : pattern <> [] ->
  (slice object (N.of_nat i) (N.of_nat i + len pattern) = Some pattern <-> occurs pattern object i).
Proof.
  intros Hp. unfold slice, len. rewrite Nat2N.id.
  replace (N.to_nat (N.of_nat i + N.of_nat (length pattern) - N.of_nat i)) with (length pattern) by lia.
  rewrite (proj2 (N.leb_le (N.of_nat i) _)) by lia. cbn [andb]. unfold occurs. split.
  - destruct (_ <=? _)%N; [congruence|done].
  - intros Ho. destruct (occurs_length _ _ _ Ho) as [Hl|]; [|done].
    rewrite (proj2 (N.leb_le _ _)) by lia. by rewrite Ho.
Qed.

Section Search.
Context `{Platform}.

Lemma occurrences_cons pattern x rest :
  occurrences pattern (x :: rest) =
  (if bool_decide (take (length pattern) (x :: rest) = pattern) then [0] else []) ++
  (S <$> occurrences pattern rest).
Proof.
  unfold occurrences. cbn [length]. rewrite <- cons_seq, <- fmap_S_seq, filter_cons.
  rewrite list_filter_fmap. change (fun i => occurs pattern (x :: rest) (S i)) with (fun i => occurs pattern rest i).
  change (occurs pattern (x :: rest) 0) with (take (length pattern) (x :: rest) = pattern).
  by case_decide; rewrite ?bool_decide_true, ?bool_decide_false by done.
Qed.

Lemma occurrences_short pattern object :
  (length object < length pattern)%nat -> occurrences pattern object = [].
Proof.
  intros Hl. unfold occurrences. apply filter_none. intros i Hi Ho. apply elem_of_seq in Hi.
  destruct (occurs_length _ _ _ Ho) as [Hlen| ->]; [lia|cbn in Hl; lia].
Qed.

(** No occurrence starts past the last full window. *)
Lemma occurrences_windows pattern object : pattern <> [] ->
  filter (occurs pattern object) (seq 0 (S (length object - length pattern))) = occurrences pattern object.
Proof.
  intros Hp. destruct (decide (length pattern <= length object)%nat) as [Hl|Hl].
  - unfold occurrences. assert (0 < length pattern)%nat by (destruct pattern; [done|cbn; lia]).
    assert (seq 0 (length object) = seq 0 (S (length object - length pattern)) ++
      seq (S (length object - length pattern)) (length pattern - 1)) as ->.
    { etrans; [|apply (seq_app (S (length object - length pattern)) (length pattern - 1) 0)].
      f_equal. lia. }
    rewrite list.filter_app. rewrite (filter_none _ (seq (S _) _)); [by rewrite app_nil_r|].
     intros i Hi Ho. apply elem_of_seq in Hi.
    destruct (occurs_length _ _ _ Ho); [lia|done].
  - rewrite occurrences_short by lia. apply filter_none. intros i _ Ho.
    destruct (occurs_length _ _ _ Ho); [lia|done].
Qed.

(** The windows scan accepts exactly when the spans from [found] on name the
    remaining occurrences in order. *)
Lemma search_windows_spec scope pattern rest offset found l n :
  search_windows scope pattern rest offset found l = Ok n <->
  let starts := (fun i => offset + i)%nat <$> occurrences pattern rest in
  n = (found + length starts)%nat /\ answered (span_at scope (length pattern)) starts l found.
Proof.
  revert offset found. induction rest as [|x rest IH]; intros offset found; cbn [search_windows].
  - cbn. rewrite Nat.add_0_r.
    split; [intros [= <-]; split; [done|apply answered_nil]|by intros [-> _]].
  - destruct (Nat.leb_spec (length pattern) (length (x :: rest))) as [Hle|Hgt]; cbv zeta.
    + rewrite occurrences_cons.
      assert (Hshift : ((fun i => offset + i)%nat <$> (S <$> occurrences pattern rest)) =
        ((fun i => S offset + i)%nat <$> occurrences pattern rest)).
      { rewrite <- list_fmap_compose. apply list_fmap_ext. intros ? ? _. cbn. lia. }
      case_bool_decide as Hw; cbn [app]; [|rewrite Hshift; apply IH].
      rewrite fmap_cons, Hshift, Nat.add_0_r, answered_cons. unfold validate_search_match.
      destruct (l !! found) as [s|]; cbn; [|split; [done|intros [_ (? & ? & _)]; congruence]].
      destruct (_ && _) eqn:Hc; cbn.
      * breflect. rewrite IH. cbn. rewrite <- !plus_n_Sm. split; [intros [-> Ha]|].
        -- split; [done|]. exists s. by split_and!.
        -- by intros [-> (s' & [= <-] & _ & Ha)].
      * split; [done|]. intros [_ (s' & [= <-] & (H1 & H2 & H3) & _)]. exfalso.
        rewrite bool_decide_true, H2, H3, !N.eqb_refl in Hc by done. done.
    + rewrite occurrences_short by done. cbn. rewrite Nat.add_0_r.
      split; [intros [= <-]; split; [done|apply answered_nil]|by intros [-> _]].
Qed.

Lemma Forall2_answered {A} (P : A -> SpanRef -> Prop) starts l :
  Forall2 P starts l <-> answered P starts l 0 /\ length starts = length l.
Proof.
  split.
  - intros Hf. pose proof (Forall2_length Hf) as Hl. split; [|done].
    unfold answered. by rewrite drop_0, Hl, firstn_all.
  - intros [Ha Hl]. by apply answered_all.
Qed.

Lemma validate_search_witness_spec scope pattern object l u :
  validate_search_witness scope pattern object l = Ok u <->
  Forall2 (span_at scope (length pattern)) (occurrences pattern object) l.
Proof.
  destruct u. unfold validate_search_witness. rewrite Forall2_answered. split.
  - intros Hv. apply bind_Ok_inv in Hv as (n & Hn & Hv).
    apply search_windows_spec in Hn as [-> Ha]. cbn in *. rewrite list_fmap_id in *.
    unfold invalid_if in Hv. destruct (Nat.eqb_spec (length (occurrences pattern object)) (length l)); done.
  - intros [Ha Hl]. rewrite (proj2 (search_windows_spec scope pattern object 0 0 l (length l))).
    + cbn. unfold invalid_if. by rewrite Nat.eqb_refl.
    + cbn. by rewrite list_fmap_id.
Qed.

(** A span of the domain search: the occurrence it names, bound by digests. *)
Definition domain_span (pattern : bytes) (p : ObjectId * nat) (s : SpanRef) : Prop :=
  span_at (fst p) (length pattern) (snd p) s /\ ZeroRef.object_digest s = fst p /\
  ZeroRef.span_digest s = sha256 pattern.

Lemma domain_span_matches_spec s o i pattern :
  domain_span_matches s o i pattern = true <-> domain_span pattern (o, i) s.
Proof.
  unfold domain_span_matches, domain_span, span_at, len. cbn.
  rewrite !andb_true_iff, !bool_decide_eq_true, !N.eqb_eq. tauto.
Qed.

Context `{Codec EvidenceCertificate, Codec MutationReceipt, Codec AggregateReceipt}.

Lemma domain_starts_sound c o b pattern starts si m n k : pattern <> [] ->
  domain_starts starts c o b pattern si m = Ok (n, k) ->
  let found := (fun i => (o, i)) <$> filter (occurs pattern b) starts in
  n = (si + length found)%nat /\ k = (m + N.of_nat (length found))%N /\
  answered (domain_span pattern) found (spans c) si.
Proof.
  intros Hp. revert si m. induction starts as [|i starts IH]; intros si m; cbn [domain_starts].
  - intros [= <- <-]. cbn. split; [lia|]. split; [lia|apply answered_nil].
  - case_bool_decide as Ho; rewrite slice_occurs in Ho by done; intros Hv.
    + rewrite filter_cons_True by done. repeat inv_ok1. cbv zeta. rewrite fmap_cons. cbn [length].
      apply IH in Hv as (-> & -> & Hans). rewrite length_fmap in *.
      unfold checked_add_u64 in *. destruct (_ <=? _)%N; simplify_eq.
      split; [lia|]. split; [lia|]. apply answered_cons. eexists. split; [done|]. split; [|done].
      by apply domain_span_matches_spec.
    + rewrite filter_cons_False by done. by apply IH.
Qed.

(** The occurrences in a list of objects, object by object. *)
Definition domain_occurrences (r : Resolver) (pattern : bytes) (objects : list ObjectId)
  : list (ObjectId * nat) :=
  concat ((fun o => (fun i => (o, i)) <$> occurrences pattern (default [] (resolve r o))) <$> objects).

Lemma domain_objects_sound c r pattern objects si m n k : pattern <> [] ->
  domain_objects objects c pattern r si m = Ok (n, k) ->
  let found := domain_occurrences r pattern objects in
  Forall (fun o => exists b, resolve r o = Some b /\ sha256 b = o) objects /\
  n = (si + length found)%nat /\ k = (m + N.of_nat (length found))%N /\
  answered (domain_span pattern) found (spans c) si.
Proof.
  intros Hp. revert si m. induction objects as [|o objects IH]; intros si m Hv; cbn [domain_objects] in Hv.
  - injection Hv as <- <-. cbn. split; [done|]. split; [lia|]. split; [lia|apply answered_nil].
  - unfold resolve_hashed in Hv. inv_ok. breflect.
    match goal with H : verify_domain_matches _ _ _ _ _ _ = Ok _ |- _ =>
      unfold verify_domain_matches in H; apply domain_starts_sound in H as (-> & -> & Hans); [|done] end.
    rewrite occurrences_windows in * by done.
    apply IH in Hv as (Hf & -> & -> & Hans'). cbv zeta.
    change (domain_occurrences r pattern (o :: objects)) with
      (((fun i => (o, i)) <$> occurrences pattern (default [] (resolve r o))) ++
       domain_occurrences r pattern objects).
    match goal with H : resolve r _ = Some _ |- _ => rewrite H; rename H into Hr end. cbn [from_option id].
    split; [constructor; eauto|]. rewrite length_app.
    split; [lia|]. split; [lia|]. by apply answered_app.
Qed.

(** The bytes [s] selects from the object it names, bound by both digests. *)
Definition selects (r : Resolver) (s : SpanRef) (b : bytes) : Prop :=
  exists object, resolve r (ZeroRef.object_id s) = Some object /\
    sha256 object = ZeroRef.object_id s /\ ZeroRef.object_digest s = ZeroRef.object_id s /\
    slice object (ZeroRef.byte_start s) (ZeroRef.byte_start s + ZeroRef.byte_len s) = Some b /\
    sha256 b = ZeroRef.span_digest s.

Lemma slice_length b i j x : slice b i j = Some x -> (len x = j - i /\ i <= j <= len b)%N.
Proof.
  unfold slice, len. destruct (_ && _) eqn:Hc; [|done]. breflect. intros [= <-].
  rewrite length_take, length_drop. lia.
Qed.

Lemma slice_app_at (a x y : bytes) i j :
  slice a i j = Some x -> take (N.to_nat i) a = y -> take (N.to_nat j) a = y ++ x.
Proof.
  unfold slice, len. destruct (_ && _) eqn:Hc; [|done]. breflect. intros [= <-] <-.
  replace (N.to_nat j) with (N.to_nat i + N.to_nat (j - i))%nat by lia.
  by rewrite <- (take_take_drop a).
Qed.

(** The span loop accepts exactly the concatenation of the selected bytes. *)
Lemma verify_span_loop_sound index l pay off r stop :
  verify_span_loop index l pay off r = Ok stop ->
  exists bs, Forall2 (selects r) l bs /\ (off <= stop)%N /\
    take (N.to_nat stop) pay = take (N.to_nat off) pay ++ concat bs.
Proof.
  revert index off. induction l as [|s l IH]; intros index off Hv; cbn [verify_span_loop] in Hv.
  - injection Hv as <-. exists []. split; [constructor|]. split; [lia|]. by rewrite app_nil_r.
  - apply bind_Ok_inv in Hv as (off' & Hs & Hv). apply IH in Hv as (bs & Hbs & Hle & Hpay).
    unfold verify_span, verify_payload_span, checked_add_u64 in Hs. repeat inv_ok1. simplify_eq.
    breflect. simplify_eq.
    repeat match goal with H : (if ?c then Some _ else None) = Some _ |- _ =>
      destruct c; [injection H as <-|discriminate H] end.
    match goal with H : slice pay _ _ = Some _ |- _ => pose proof (slice_length _ _ _ _ H) as [_ Hr];
      eapply slice_app_at in H; [rename H into Hp|reflexivity] end.
    eexists (_ :: bs). split; [constructor; [|exact Hbs]|].
    + unfold selects. eexists. split_and!; [done..|congruence|done|done].
    + split; [lia|]. by rewrite Hpay, Hp, <- (assoc_L (++)).
Qed.
End Search.

Section Theorems.
Context `{Platform, Codec EvidenceCertificate, Codec MutationReceipt, Codec AggregateReceipt}.
Implicit Types (c e : EvidenceCertificate) (r : Resolver).

(** Queries answered by a trusted receipt instead of spans. *)
Definition receipt_query (q : Query) : bool :=
  match q with QMutationOutcome _ _ _ _ _ | QAggregate _ _ _ _ => true | _ => false end.

Lemma verify_inv c r e : verify c r = Ok e ->
  e = c /\ verify_spans c r = Ok () /\ verify_completeness c r = Ok () /\
  trusted_operator_version r (operator_id (provenance c)) = Some (operator_version (provenance c)) /\
  trusted_parser_version r (parser_id (provenance c)) = Some (parser_version (provenance c)) /\
  trusted_index_version r (index_id (provenance c)) = Some (index_version (provenance c)).
Proof.
  unfold verify, check_trusted_provenance, check_trusted_operator, check_trusted_parser,
    check_trusted_index.
  intros Hv. repeat inv_ok1. breflect.
  repeat match goal with u : () |- _ => destruct u end. simplify_eq. by split_and!.
Qed.

(** The payload of verified evidence is exact: unless the query is
    answered by a trusted receipt, the payload is the concatenation, in order,
    of the bytes its spans select, each from a resident object whose SHA-256
    is the object's identity and with the span's own digest; and the
    provenance is the verifier's own operator, parser and index lock. *)
Theorem evidence_payload_exact c r e :
  verify c r = Ok e ->
  e = c /\
  (receipt_query (query c) = false ->
   exists bs, Forall2 (selects r) (spans c) bs /\ payload c = concat bs) /\
  trusted_operator_version r (operator_id (provenance c)) = Some (operator_version (provenance c)) /\
  trusted_parser_version r (parser_id (provenance c)) = Some (parser_version (provenance c)) /\
  trusted_index_version r (index_id (provenance c)) = Some (index_version (provenance c)).
Proof.
  intros (-> & Hs & _ & Hlocks)%verify_inv. split; [done|]. split; [|done]. intros Hq.
  assert (exists off, verify_span_loop 0 (spans c) (payload c) 0 r = Ok off /\ off = len (payload c))
    as (off & Hl & ->).
  { unfold verify_spans in Hs. destruct (query c); cbn in Hq; try discriminate Hq;
      (apply bind_Ok_inv in Hs as (off & Hl & Hs); destruct (N.eqb_spec off (len (payload c)));
       [by exists off|done]). }
  apply verify_span_loop_sound in Hl as (bs & Hbs & _ & Hp). exists bs. split; [done|].
  rewrite take_0 in Hp. unfold len in Hp. by rewrite Nat2N.id, firstn_all in Hp.
Qed.

(** Search evidence is complete.  Verified evidence for an exact search
    lists every occurrence of the pattern in the scope, overlapping ones
    included, in ascending order and nothing else; for a search over a domain
    it does so for every object of the domain in turn, and the domain is the
    one its snapshot digest names. *)
Theorem search_evidence_complete c r e :
  verify c r = Ok e ->
  match query c with
  | QExactSearch scope pattern =>
      exists object, resolve r scope = Some object /\ sha256 object = scope /\ pattern <> [] /\
        Forall2 (span_at scope (length pattern)) (occurrences pattern object) (spans c)
  | QExactSearchDomain pattern objects snapshot_id index version =>
      snapshot_id = domain_snapshot_digest objects index version /\
      Forall (fun o => exists b, resolve r o = Some b /\ sha256 b = o) objects /\
      Forall2 (domain_span pattern) (domain_occurrences r pattern objects) (spans c)
  | _ => True
  end.
Proof.
  intros (_ & _ & Hc & _)%verify_inv. unfold verify_completeness in Hc.
  destruct (query c) as [|scope pattern|pattern objects sid index version| | | | | | | | | | |] eqn:Hq;
    try done.
  - unfold verify_search_binding in Hc. rewrite Hq in Hc.
    destruct (completeness c); try discriminate Hc.
    unfold verify_search, validate_search_domain in Hc. repeat inv_ok1. breflect. subst.
    apply validate_search_witness_spec in Hc. eexists. split_and!; [done..| |done].
    intros ->. done.
  - unfold verify_search_domain in Hc. rewrite Hq in Hc.
    destruct (completeness c); try discriminate Hc.
    repeat inv_ok1. breflect. subst. unfold invalid_if in Hc. repeat inv_ok1. breflect.
    match goal with H : domain_objects _ _ _ _ _ _ = Ok _ |- _ =>
      apply domain_objects_sound in H as (Hf & Hn & Hm & Hans) end; [|by intros ->].
    split; [done|]. split; [done|]. apply Forall2_answered. split; [done|]. cbn in Hn. congruence.
Qed.

Lemma get_from_drop b i x : get_from b i = Some x -> drop (N.to_nat i) b = x.
Proof.
  unfold get_from, slice, len. destruct (_ && _) eqn:Hc; [|done]. breflect. intros [= <-].
  symmetry. apply take_ge. rewrite length_drop. lia.
Qed.

Lemma slice_prefix b i x : slice b 0 i = Some x -> x = take (N.to_nat i) b.
Proof. unfold slice. destruct (_ && _); [|done]. intros [= <-]. by rewrite drop_0, N.sub_0_r. Qed.

(** Equal prefixes and suffixes around two ranges make one text the other
    with its range replaced. *)
Lemma splice_exact o n sel x start before_end after_end :
  slice o start before_end = Some sel -> slice n start after_end = Some x ->
  slice o 0 start = slice n 0 start -> get_from o before_end = get_from n after_end ->
  n = take (N.to_nat start) o ++ x ++ drop (N.to_nat before_end) o /\
  (after_end = start + len x)%N.
Proof.
  intros Hold Hnew Hpre Hsuf.
  pose proof (slice_length _ _ _ _ Hnew) as [Hln Hrn]. pose proof (slice_length _ _ _ _ Hold) as [_ Hro].
  split; [|lia].
  assert (take (N.to_nat start) o = take (N.to_nat start) n) as ->.
  { destruct (slice o 0 start) as [y|] eqn:E1.
    - rewrite <- (slice_prefix _ _ _ E1). by apply slice_prefix.
    - unfold slice in E1. rewrite !(proj2 (N.leb_le _ _)) in E1 by lia. done. }
  assert (drop (N.to_nat before_end) o = drop (N.to_nat after_end) n) as ->.
  { destruct (get_from o before_end) as [y|] eqn:E1.
    - rewrite (get_from_drop _ _ _ E1). symmetry. by apply get_from_drop.
    - unfold get_from, slice in E1. rewrite !(proj2 (N.leb_le _ _)) in E1 by lia. done. }
  rewrite (assoc_L (++)), <- (slice_app_at _ _ _ _ _ Hnew) by done. by rewrite take_drop.
Qed.

(** Diff evidence is exact.  Verified evidence for a byte-exact diff proves
    that the new object is the old one with bytes [start..before_end] replaced
    by the payload, that the replacement changes something, and that both
    objects are the ones their identities name. *)
Theorem diff_evidence_exact c r e old new start before_end after_end :
  verify c r = Ok e -> query c = QByteExactDiff old new start before_end after_end ->
  exists ob nb selected,
    resolve r old = Some ob /\ sha256 ob = old /\ resolve r new = Some nb /\ sha256 nb = new /\
    slice ob start before_end = Some selected /\ selected <> payload c /\
    nb = take (N.to_nat start) ob ++ payload c ++ drop (N.to_nat before_end) ob /\
    (after_end = start + len (payload c))%N.
Proof.
  intros (_ & _ & Hc & _)%verify_inv Hq. unfold verify_completeness in Hc. rewrite Hq in Hc.
  unfold verify_graph_or_execution in Hc. rewrite Hq in Hc. unfold verify_byte_exact_diff in Hc.
  rewrite Hq in Hc. destruct (completeness c); try discriminate Hc.
  unfold resolve_hashed, verify_diff_ranges in Hc. repeat inv_ok1. breflect. simplify_eq.
  match goal with Ho : slice ?o ?i ?b = Some ?sel, Hn : slice ?n ?i ?a = Some (payload c),
      Hp : slice ?o 0 ?i = _, Hs : get_from ?o ?b = _ |- _ =>
    destruct (splice_exact _ _ _ _ _ _ _ Ho Hn Hp Hs) as [Hnb Hae]; exists o, n, sel end.
  by split_and!.
Qed.
End Theorems.

(** * A concrete store *)

Module Toy.
#[local] Instance toy_platform : Platform :=
  {| sha256 := Zbf.toy_sha256; json_string := Zbf.toy_json_string |}.
#[local] Instance toy_certificates : Codec EvidenceCertificate :=
  {| encode := fun c => payload c; decode := fun _ => None |}.
#[local] Instance toy_mutations : Codec MutationReceipt :=
  {| encode := fun _ => []; decode := fun _ => None |}.
#[local] Instance toy_aggregates : Codec AggregateReceipt :=
  {| encode := fun _ => []; decode := fun _ => None |}.

Definition old_text : bytes := string_bytes "abaaba".
Definition new_text : bytes := string_bytes "abXYba".
Definition old_id : ObjectId := Zbf.toy_sha256 old_text.
Definition new_id : ObjectId := Zbf.toy_sha256 new_text.

Definition resolver : Resolver := {|
  resolve := fun o => if bool_decide (o = old_id) then Some old_text
                      else if bool_decide (o = new_id) then Some new_text else None;
  trusted_operator_version := fun _ => Some "1";
  trusted_parser_version := fun _ => Some "1";
  trusted_index_version := fun _ => Some "1";
  resolve_mutation_receipt := fun _ _ => None;
  resolve_aggregate_receipt := fun _ => None |}.

Definition lock : OperatorLock := mkLock "scan" "1".
Definition prov : Provenance := mkProvenance "p" "1" "i" "1" "scan" "1".
Definition span (o : ObjectId) (start : N) (b : bytes) : SpanRef :=
  ZeroRef.mkSpanRef (len b) start o o (Zbf.toy_sha256 b).

Definition needle : bytes := string_bytes "aba".
Definition search : EvidenceCertificate :=
  mkEvidence (QExactSearch old_id needle) [span old_id 0 needle; span old_id 3 needle]
    (needle ++ needle) prov (WExactSearch lock old_id needle 6 2) 0 0.

Definition patch : bytes := string_bytes "XY".
Definition diff : EvidenceCertificate :=
  mkEvidence (QByteExactDiff old_id new_id 2 4 4) [span new_id 2 patch] patch prov
    (WByteExactDiff lock old_id new_id 2 4 4 (Zbf.toy_sha256 patch)) 0 0.

Lemma evidence_payload_witness : exists bs,
  Forall2 (selects resolver) (spans search) bs /\ payload search = concat bs.
Proof.
  destruct (evidence_payload_exact search resolver search) as (_ & Hp & _); [by vm_compute|].
  apply Hp. reflexivity.
Defined.

Lemma search_evidence_complete_witness : exists object,
  resolve resolver old_id = Some object /\ sha256 object = old_id /\ needle <> [] /\
  Forall2 (span_at old_id (length needle)) (occurrences needle object) (spans search).
Proof. apply (search_evidence_complete search resolver search). by vm_compute. Defined.

Lemma diff_evidence_exact_witness : exists ob nb selected,
  resolve resolver old_id = Some ob /\ sha256 ob = old_id /\
  resolve resolver new_id = Some nb /\ sha256 nb = new_id /\
  slice ob 2 4 = Some selected /\ selected <> payload diff /\
  nb = take (N.to_nat 2) ob ++ payload diff ++ drop (N.to_nat 4) ob /\
  (4 = 2 + len (payload diff))%N.
Proof.
  apply (diff_evidence_exact diff resolver diff old_id new_id 2 4 4); [by vm_compute|reflexivity].
Defined.
End Toy.
