(* ===== verification/Effect.v ===== *)
(** The effect IR ([zero-abi/src/effect.rs]): typed effect programs, their
    structural validation, the rollback class they must carry, and their
    admission against a list of intents and capability bindings.  A program
    describes an action; it grants no permission to execute it.

    Serde's canonical encoding of a program body is the class [Codec]; an
    error is its failure code. *)

From S2P Require Import Prelude.
From S2P Require Import Ordering.
From S2P Require Import DurableStore.
From S2P Require Import Identity.
From S2P Require Zbf.

Notation ArtifactOwner := Zbf.ArtifactOwner.

Definition EFFECT_IR_CONTRACT_VERSION : N := 1.
Definition EFFECT_IR_ACTION_DOMAIN : bytes := domain "zerostack.effect_ir.action".
Definition EFFECT_IR_MAX_CANONICAL_BYTES : N := 1048576.
Definition EFFECT_IR_MAX_OPERATIONS : N := 256.
Definition EFFECT_IR_MAX_TARGETS : N := 512.
Definition EFFECT_IR_MAX_PRECONDITIONS : N := 512.
Definition EFFECT_IR_MAX_EXCEPTIONS : N := 512.
Definition EFFECT_IR_MAX_VERIFICATION_STEPS : N := 128.
Definition EFFECT_IR_MAX_CAPABILITIES : N := 512.
Definition EFFECT_IR_MAX_INTENTS : N := 256.
Definition EFFECT_IR_MAX_STRING_BYTES : N := 256.
Definition EFFECT_IR_MAX_LITERAL_BYTES : N := 65536.
Definition EFFECT_IR_MAX_REFS_PER_OPERATION : N := 512.

(** * Data *)

Inductive EffectClass := ReadOnly | ReversibleMutation | ApprovalRequiredMutation | Irreversible.

Inductive EffectIrFailureCode :=
| UnsupportedVersion | CanonicalPayloadTooLarge | NonCanonicalEncoding | SerializationFailure
| InvalidIdentity | ZeroDigest | ZeroGeneration | DuplicateMember | NonCanonicalOrder
| TooManyOperations | TooManyTargets | TooManyPreconditions | TooManyExceptions
| TooManyVerificationSteps | TooManyCapabilities | TooManyIntents | LiteralTooLarge
| LiteralDigestMismatch | ActionDigestMismatch | StaleBaseState | UnlistedIntent
| UnlistedCapability | CapabilityGenerationMismatch | CapabilityContractMismatch
| CapabilityEffectClassExceeded | MissingTarget | MissingException | InvalidOperation
| RawFallbackMixed | RollbackTooWeak | VerificationRequired.

Notation R := (result EffectIrFailureCode).

Inductive EffectRollback :=
| RollbackReadOnly | SingleAtomic | Journaled | WorkspaceClone | ExternalTransaction
| RollbackRawFallback.

Inductive CwirVerifierClass := ExactChecker | SoundRestricted | EmpiricalIncomplete.

Record EffectTarget := mkTarget {
  t_owner : ArtifactOwner; target_digest : Digest; t_required_snapshot : Digest }.

Record EffectPredicate := mkPredicate {
  predicate_digest : Digest; scope_digest : Digest; p_required_snapshot : Digest }.

Record EffectException := mkException { e_target_digest : Digest; exception_digest : Digest }.

Record EffectVerificationStep := mkStep {
  verifier_digest : Digest; s_predicate_digest : Digest; environment_digest : Digest;
  s_required_snapshot : Digest; verifier_class : CwirVerifierClass }.

Inductive TypedEffectOperation :=
| RecoverExact (owner : ArtifactOwner) (capability : string) (generation : N)
    (capability_contract_digest arguments_digest expected_output_digest : Digest)
| ReplaceExactFile (target expected_before replacement : Digest)
| CopyExact (source target expected_source_digest : Digest)
| DeterministicTransform (owner : ArtifactOwner) (capability : string) (generation : N)
    (capability_contract_digest : Digest) (targets : list Digest) (arguments_digest : Digest)
    (exceptions : list Digest) (effect_class : EffectClass)
| InvokeCapability (owner : ArtifactOwner) (capability : string) (generation : N)
    (capability_contract_digest arguments_digest : Digest) (effect_class : EffectClass)
| ReturnLiteral (b : bytes) (payload_digest : Digest)
| RawFallback.

#[global] Instance ArtifactOwner_eq_dec : EqDecision ArtifactOwner.
Proof. solve_decision. Defined.
#[global] Instance EffectClass_eq_dec : EqDecision EffectClass.
Proof. solve_decision. Defined.
#[global] Instance EffectRollback_eq_dec : EqDecision EffectRollback.
Proof. solve_decision. Defined.
#[global] Instance CwirVerifierClass_eq_dec : EqDecision CwirVerifierClass.
Proof. solve_decision. Defined.
#[global] Instance EffectTarget_eq_dec : EqDecision EffectTarget.
Proof. solve_decision. Defined.
#[global] Instance EffectPredicate_eq_dec : EqDecision EffectPredicate.
Proof. solve_decision. Defined.
#[global] Instance EffectException_eq_dec : EqDecision EffectException.
Proof. solve_decision. Defined.
#[global] Instance EffectVerificationStep_eq_dec : EqDecision EffectVerificationStep.
Proof. solve_decision. Defined.

(** Derived orders: declaration order of the variants, fields in order. *)
Definition owner_rank (o : ArtifactOwner) : nat :=
  match o with
  | Zbf.ZeroStack => 0 | Zbf.FsZero => 1 | Zbf.GraphZero => 2 | Zbf.TokenZero => 3
  | Zbf.PiZeroStack => 4
  end.

#[global] Instance owner_rank_inj : Inj (=) (=) owner_rank.
Proof. by intros [] []. Qed.

#[global] Instance owner_ord : Ord ArtifactOwner := cmp_via owner_rank.
#[global] Instance owner_ord_ok : OrdOk ArtifactOwner.
Proof. apply cmp_via_ok, _. Qed.
#[global] Instance target_ord : Ord EffectTarget :=
  cmp_via (fun t => (t_owner t, (target_digest t, t_required_snapshot t))).
#[global] Instance target_ord_ok : OrdOk EffectTarget.
Proof. apply cmp_via_ok. intros [] [] [=]. by subst. Qed.
#[global] Instance predicate_ord : Ord EffectPredicate :=
  cmp_via (fun p => (predicate_digest p, (scope_digest p, p_required_snapshot p))).
#[global] Instance predicate_ord_ok : OrdOk EffectPredicate.
Proof. apply cmp_via_ok. intros [] [] [=]. by subst. Qed.
#[global] Instance exception_ord : Ord EffectException :=
  cmp_via (fun e => (e_target_digest e, exception_digest e)).
#[global] Instance exception_ord_ok : OrdOk EffectException.
Proof. apply cmp_via_ok. intros [] [] [=]. by subst. Qed.

Record EffectProgramBody := mkProgramBody {
  contract_version : N;
  base_state : Digest;
  intent : string;
  targets : list EffectTarget;
  preconditions : list EffectPredicate;
  operations : list TypedEffectOperation;
  exceptions : list EffectException;
  verification : list EffectVerificationStep;
  rollback : EffectRollback }.

Record EffectProgram := mkProgram { body : EffectProgramBody; action_digest : Digest }.

Record EffectCapabilityBinding := mkBinding {
  cb_owner : ArtifactOwner; cb_capability : string; cb_generation : N;
  contract_digest : Digest; max_effect_class : EffectClass }.

Record EffectAdmission := mkAdmission {
  expected_snapshot : Digest;
  allowed_intents : list string;
  capabilities : list EffectCapabilityBinding }.

(** * Checks on fields and vectors *)

(** [byte.is_ascii_alphanumeric() || matches!(byte, b'.' | b'/' | b':' | b'_' | b'-')]. *)
Definition identity_byte (b : byte) : bool :=
  byte_in 48 57 b || byte_in 65 90 b || byte_in 97 122 b ||
  byte_is 46 b || byte_is 47 b || byte_is 58 b || byte_is 95 b || byte_is 45 b.

Definition validate_identity (value : string) : R () :=
  let b := string_bytes value in
  reject? (len b =? 0)%N || (EFFECT_IR_MAX_STRING_BYTES <? len b)%N || negb (forallb identity_byte b)
    with InvalidIdentity in
  Ok ().

Definition require_digest (d : Digest) : R () := reject? zero_digest d with ZeroDigest in Ok ().
Definition require_generation (g : N) : R () := reject? (g =? 0)%N with ZeroGeneration in Ok ().
Definition require_snapshot (actual expected : Digest) : R () :=
  guard? bool_decide (actual = expected) else StaleBaseState in Ok ().

Definition reject_duplicates {A} `{EqDecision A} (l : list A) : R () :=
  reject? has_duplicate l with DuplicateMember in Ok ().

Definition validate_set {A} `{Ord A} (l : list A) (max : N) (too_many : EffectIrFailureCode) : R () :=
  reject? (max <? N.of_nat (length l))%N with too_many in
  check_windows DuplicateMember NonCanonicalOrder l.

Definition validate_sorted_digest_set (l : list Digest) (max : N) : R () :=
  let? _ := validate_set l max InvalidOperation in
  for_each require_digest l.

Definition validate_sorted_strings (l : list string) (max : N) : R () :=
  let? _ := validate_set l max TooManyIntents in
  for_each validate_identity l.

(** [sorted.binary_search(&value).is_ok()]. *)
Definition found (sorted : list Digest) (value : Digest) : bool :=
  bool_decide (is_Some (binary_search value sorted)).

Definition require_member (sorted : list Digest) (value : Digest) : R () :=
  guard? found sorted value else MissingTarget in Ok ().

Definition effect_class_rank (c : EffectClass) : nat :=
  match c with
  | ReadOnly => 0 | ReversibleMutation => 1 | ApprovalRequiredMutation => 2 | Irreversible => 4
  end.

Definition rollback_rank (r : EffectRollback) : nat :=
  match r with
  | RollbackReadOnly => 0 | SingleAtomic => 1 | Journaled => 2 | WorkspaceClone => 3
  | ExternalTransaction => 4 | RollbackRawFallback => 0
  end.

(** * Operations *)

Definition op_effect_class (op : TypedEffectOperation) : EffectClass :=
  match op with
  | RecoverExact _ _ _ _ _ _ | ReturnLiteral _ _ | RawFallback => ReadOnly
  | ReplaceExactFile _ _ _ | CopyExact _ _ _ => ReversibleMutation
  | DeterministicTransform _ _ _ _ _ _ _ c | InvokeCapability _ _ _ _ _ c => c
  end.

Definition is_raw_fallback (op : TypedEffectOperation) : bool :=
  match op with RawFallback => true | _ => false end.

Definition op_capability (op : TypedEffectOperation)
  : option (ArtifactOwner * string * N * Digest * EffectClass) :=
  match op with
  | RecoverExact o c g d _ _ => Some (o, c, g, d, ReadOnly)
  | DeterministicTransform o c g d _ _ _ k | InvokeCapability o c g d _ k => Some (o, c, g, d, k)
  | _ => None
  end.

Definition EffectTarget_validate (base : Digest) (t : EffectTarget) : R () :=
  let? _ := require_digest (target_digest t) in
  let? _ := require_digest (t_required_snapshot t) in
  require_snapshot (t_required_snapshot t) base.

Definition EffectPredicate_validate (base : Digest) (p : EffectPredicate) : R () :=
  let? _ := require_digest (predicate_digest p) in
  let? _ := require_digest (scope_digest p) in
  let? _ := require_digest (p_required_snapshot p) in
  require_snapshot (p_required_snapshot p) base.

Definition EffectException_validate (e : EffectException) : R () :=
  let? _ := require_digest (e_target_digest e) in
  require_digest (exception_digest e).

Definition EffectVerificationStep_validate (base : Digest) (s : EffectVerificationStep) : R () :=
  let? _ := require_digest (verifier_digest s) in
  let? _ := require_digest (s_predicate_digest s) in
  let? _ := require_digest (environment_digest s) in
  let? _ := require_digest (s_required_snapshot s) in
  require_snapshot (s_required_snapshot s) base.

Definition EffectVerificationPlan_new (steps : list EffectVerificationStep)
  : R (list EffectVerificationStep) :=
  reject? (EFFECT_IR_MAX_VERIFICATION_STEPS <? N.of_nat (length steps))%N
    with TooManyVerificationSteps in
  let? _ := reject_duplicates steps in
  Ok steps.

Definition EffectVerificationPlan_validate (base : Digest) (steps : list EffectVerificationStep) : R () :=
  let? _ := EffectVerificationPlan_new steps in
  for_each (EffectVerificationStep_validate base) steps.

Section Programs.
Context `{Platform, Codec EffectProgramBody}.

Definition TypedEffectOperation_validate (op : TypedEffectOperation) : R () :=
  match op with
  | RecoverExact _ capability generation contract arguments output =>
      let? _ := validate_identity capability in
      let? _ := require_generation generation in
      let? _ := require_digest contract in
      let? _ := require_digest arguments in
      require_digest output
  | ReplaceExactFile target before replacement =>
      let? _ := require_digest target in
      let? _ := require_digest before in
      require_digest replacement
  | CopyExact source target expected =>
      let? _ := require_digest source in
      let? _ := require_digest target in
      require_digest expected
  | DeterministicTransform _ capability generation contract ts arguments es _ =>
      let? _ := validate_identity capability in
      let? _ := require_generation generation in
      let? _ := require_digest contract in
      let? _ := require_digest arguments in
      let? _ := validate_sorted_digest_set ts EFFECT_IR_MAX_REFS_PER_OPERATION in
      reject? (length ts =? 0)%nat with InvalidOperation in
      validate_sorted_digest_set es EFFECT_IR_MAX_REFS_PER_OPERATION
  | InvokeCapability _ capability generation contract arguments _ =>
      let? _ := validate_identity capability in
      let? _ := require_generation generation in
      let? _ := require_digest contract in
      require_digest arguments
  | ReturnLiteral b payload =>
      reject? (EFFECT_IR_MAX_LITERAL_BYTES <? len b)%N with LiteralTooLarge in
      guard? bool_decide (payload = sha256 b) else LiteralDigestMismatch in
      Ok ()
  | RawFallback => Ok ()
  end.

Definition relate_operation (target_ids exception_ids : list Digest) (op : TypedEffectOperation) : R () :=
  match op with
  | ReplaceExactFile target _ _ => require_member target_ids target
  | CopyExact source target _ =>
      let? _ := require_member target_ids source in
      require_member target_ids target
  | DeterministicTransform _ _ _ _ ts _ es _ =>
      let? _ := for_each (require_member target_ids) ts in
      for_each (fun e => guard? found exception_ids e else MissingException in Ok ()) es
  | _ => Ok ()
  end.

Definition validate_relationships (p : EffectProgramBody) : R () :=
  let target_ids := sort (target_digest <$> targets p) in
  let? _ := reject_duplicates target_ids in
  let exception_ids := sort (exception_digest <$> exceptions p) in
  let? _ := reject_duplicates exception_ids in
  let? _ := for_each (fun e => guard? found target_ids (e_target_digest e) else MissingTarget in Ok ())
              (exceptions p) in
  for_each (relate_operation target_ids exception_ids) (operations p).

(** [iter().map(..).max().unwrap_or(0)]. *)
Definition max_effect (ops : list TypedEffectOperation) : nat :=
  max_list (effect_class_rank ∘ op_effect_class <$> ops).

Definition validate_rollback (p : EffectProgramBody) : R () :=
  if (0 <? length (List.filter is_raw_fallback (operations p)))%nat then
    reject? negb (length (operations p) =? 1)%nat ||
            negb (bool_decide (rollback p = RollbackRawFallback)) ||
            negb (length (targets p) =? 0)%nat || negb (length (preconditions p) =? 0)%nat ||
            negb (length (exceptions p) =? 0)%nat || negb (length (verification p) =? 0)%nat
      with RawFallbackMixed in
    Ok ()
  else
    reject? bool_decide (rollback p = RollbackRawFallback) with RawFallbackMixed in
    reject? (length (verification p) =? 0)%nat with VerificationRequired in
    reject? (rollback_rank (rollback p) <? max_effect (operations p))%nat with RollbackTooWeak in
    let mutating := List.filter (fun op => (0 <? effect_class_rank (op_effect_class op))%nat)
                      (operations p) in
    reject? bool_decide (rollback p = SingleAtomic) && negb (length mutating =? 1)%nat
      with RollbackTooWeak in
    Ok ().

Definition validate_body (p : EffectProgramBody) : R () :=
  guard? (contract_version p =? EFFECT_IR_CONTRACT_VERSION)%N else UnsupportedVersion in
  let? _ := require_digest (base_state p) in
  let? _ := validate_identity (intent p) in
  let? _ := validate_set (targets p) EFFECT_IR_MAX_TARGETS TooManyTargets in
  let? _ := validate_set (preconditions p) EFFECT_IR_MAX_PRECONDITIONS TooManyPreconditions in
  let? _ := validate_set (exceptions p) EFFECT_IR_MAX_EXCEPTIONS TooManyExceptions in
  let? _ := for_each (EffectTarget_validate (base_state p)) (targets p) in
  let? _ := for_each (EffectPredicate_validate (base_state p)) (preconditions p) in
  let? _ := for_each EffectException_validate (exceptions p) in
  reject? (length (operations p) =? 0)%nat with InvalidOperation in
  reject? (EFFECT_IR_MAX_OPERATIONS <? N.of_nat (length (operations p)))%N with TooManyOperations in
  let? _ := for_each TypedEffectOperation_validate (operations p) in
  let? _ := EffectVerificationPlan_validate (base_state p) (verification p) in
  let? _ := validate_relationships p in
  validate_rollback p.

Definition expected_action_digest (p : EffectProgramBody) : Digest :=
  concat_digest EFFECT_IR_ACTION_DOMAIN (encode p).

Definition EffectProgram_new (base : Digest) (intent : string) (ts : list EffectTarget)
  (ps : list EffectPredicate) (ops : list TypedEffectOperation) (es : list EffectException)
  (plan : list EffectVerificationStep) (r : EffectRollback) : R EffectProgram :=
  let ts := sort ts in
  let? _ := reject_duplicates ts in
  let ps := sort ps in
  let? _ := reject_duplicates ps in
  let es := sort es in
  let? _ := reject_duplicates es in
  let b := mkProgramBody EFFECT_IR_CONTRACT_VERSION base intent ts ps ops es plan r in
  let? _ := validate_body b in
  Ok (mkProgram b (expected_action_digest b)).

Definition EffectProgram_validate (p : EffectProgram) : R () :=
  let? _ := validate_body (body p) in
  guard? bool_decide (action_digest p = expected_action_digest (body p)) else ActionDigestMismatch in
  Ok ().

(** * Admission *)

Definition EffectCapabilityBinding_validate (c : EffectCapabilityBinding) : R () :=
  let? _ := validate_identity (cb_capability c) in
  let? _ := require_generation (cb_generation c) in
  require_digest (contract_digest c).

Definition binding_key (c : EffectCapabilityBinding) : ArtifactOwner * string :=
  (cb_owner c, cb_capability c).

(** [windows(2).any(|pair| pair[0].key() == pair[1].key())]. *)
Fixpoint equal_neighbours {A} `{Ord A} (l : list A) : bool :=
  match l with
  | x :: (y :: _) as l' =>
      match cmp x y with Eq => true | _ => equal_neighbours l' end
  | _ => false
  end.

Definition EffectAdmission_new (snapshot : Digest) (intents : list string)
  (caps : list EffectCapabilityBinding) : R EffectAdmission :=
  let? _ := require_digest snapshot in
  reject? (EFFECT_IR_MAX_INTENTS <? N.of_nat (length intents))%N with TooManyIntents in
  let? _ := for_each validate_identity intents in
  let intents := sort intents in
  let? _ := reject_duplicates intents in
  reject? (EFFECT_IR_MAX_CAPABILITIES <? N.of_nat (length caps))%N with TooManyCapabilities in
  let? _ := for_each EffectCapabilityBinding_validate caps in
  let caps := sort_by_key binding_key caps in
  reject? equal_neighbours (binding_key <$> caps) with DuplicateMember in
  Ok (mkAdmission snapshot intents caps).

Definition EffectAdmission_validate (a : EffectAdmission) : R () :=
  let? _ := require_digest (expected_snapshot a) in
  let? _ := validate_sorted_strings (allowed_intents a) EFFECT_IR_MAX_INTENTS in
  reject? (EFFECT_IR_MAX_CAPABILITIES <? N.of_nat (length (capabilities a)))%N
    with TooManyCapabilities in
  let? _ := for_each EffectCapabilityBinding_validate (capabilities a) in
  check_windows DuplicateMember NonCanonicalOrder (binding_key <$> capabilities a).

Definition admit_operation (a : EffectAdmission) (op : TypedEffectOperation) : R () :=
  match op_capability op with
  | None => Ok ()
  | Some (owner, capability, generation, contract, class) =>
      let? b := ok_or (binary_search_by_key binding_key (owner, capability) (capabilities a) ≫=
                       fun i => capabilities a !! i) UnlistedCapability in
      guard? (generation =? cb_generation b)%N else CapabilityGenerationMismatch in
      guard? bool_decide (contract = contract_digest b) else CapabilityContractMismatch in
      reject? (effect_class_rank (max_effect_class b) <? effect_class_rank class)%nat
        with CapabilityEffectClassExceeded in
      Ok ()
  end.

Definition validate_against (p : EffectProgram) (a : EffectAdmission) : R () :=
  let? _ := EffectProgram_validate p in
  let? _ := EffectAdmission_validate a in
  let? _ := require_snapshot (base_state (body p)) (expected_snapshot a) in
  guard? bool_decide (is_Some (binary_search (intent (body p)) (allowed_intents a)))
    else UnlistedIntent in
  for_each (admit_operation a) (operations (body p)).
End Programs.

(** * What a valid program guarantees *)

Lemma require_Ok (b : bool) (e : EffectIrFailureCode) : (guard? b else e in Ok ()) = Ok () <-> b = true.
Proof. by destruct b. Qed.

(** A sorted vector without equal neighbours has no duplicates at all. *)
Lemma sort_neighbours {A B} `{Ord A, !OrdOk A} (key : B -> A) (l : list B) :
  equal_neighbours (key <$> sort_by_key key l) = false ->
  StronglySorted below (key <$> sort_by_key key l).
Proof.
  intros Hn. apply Sorted_StronglySorted; [intros x y z; apply cmp_trans|].
  assert (Hs : Sorted (fun a b : B => geb (key b) (key a)) (sort_by_key key l)).
  { apply sort_by_key_sorted. }
  induction Hs as [|x s Hs IH Hx]; cbn; [constructor|].
  destruct Hx as [|y s Hxy]; [repeat constructor|].
  change (match cmp (key x) (key y) with Eq => true | _ => equal_neighbours (key <$> y :: s) end = false) in Hn.
  unfold geb, ltb in Hxy. rewrite (cmp_antisym (key x) (key y)) in Hxy.
  destruct (cmp (key x) (key y)) eqn:Hc; [done| |cbn in Hxy; contradiction].
  constructor; [by apply IH|]. by constructor.
Qed.

Lemma equal_neighbours_sorted {A} `{Ord A, !OrdOk A} (l : list A) :
  StronglySorted below l -> equal_neighbours l = false.
Proof.
  intros Hs. induction Hs as [|x l Hs IH Hx]; [done|]. destruct l as [|y l]; [done|].
  change (match cmp x y with Eq => true | _ => equal_neighbours (y :: l) end = false).
  inversion Hx as [|? ? Hxy _]; subst. unfold below in Hxy. by rewrite Hxy.
Qed.

Lemma found_sort (l : list Digest) (x : Digest) :
  NoDup l -> (found (sort l) x = true <-> x ∈ l).
Proof.
  intros Hl. unfold found. rewrite bool_decide_eq_true.
  rewrite binary_search_elem_of by (by apply sort_ascending). by rewrite elem_of_sort.
Qed.

(** The digests of the targets an operation reads or writes, and of the
    exceptions it relies on. *)
Definition op_targets (op : TypedEffectOperation) : list Digest :=
  match op with
  | ReplaceExactFile target _ _ => [target]
  | CopyExact source target _ => [source; target]
  | DeterministicTransform _ _ _ _ ts _ _ _ => ts
  | _ => []
  end.

Definition op_exceptions (op : TypedEffectOperation) : list Digest :=
  match op with DeterministicTransform _ _ _ _ _ _ es _ => es | _ => [] end.

Lemma relate_operation_Ok (ts es : list Digest) (op : TypedEffectOperation) :
  NoDup ts -> NoDup es ->
  (relate_operation (sort ts) (sort es) op = Ok () <->
   (forall x, x ∈ op_targets op -> x ∈ ts) /\ (forall x, x ∈ op_exceptions op -> x ∈ es)).
Proof.
  intros Ht He. destruct op; cbn [relate_operation op_targets op_exceptions];
    unfold require_member; rewrite ?bind_unit_Ok, ?for_each_Ok; repeat setoid_rewrite require_Ok;
    repeat setoid_rewrite found_sort; try done; set_solver.
Qed.

(** [validate_relationships]: targets and exceptions have distinct digests,
    every exception names a target, every operation stays within both. *)
Lemma validate_relationships_exact (p : EffectProgramBody) :
  validate_relationships p = Ok () <->
  NoDup (target_digest <$> targets p) /\ NoDup (exception_digest <$> exceptions p) /\
  (forall e, e ∈ exceptions p -> e_target_digest e ∈ target_digest <$> targets p) /\
  (forall op, op ∈ operations p ->
     (forall x, x ∈ op_targets op -> x ∈ target_digest <$> targets p) /\
     (forall x, x ∈ op_exceptions op -> x ∈ exception_digest <$> exceptions p)).
Proof.
  unfold validate_relationships, reject_duplicates. rewrite !bind_unit_Ok, !for_each_Ok.
  assert (Hdup : forall l : list Digest,
    (reject? has_duplicate (sort l) with DuplicateMember in Ok ()) = Ok () <-> NoDup l).
  { intros l. assert (NoDup l <-> NoDup (sort l)) as -> by (unfold sort; by rewrite sort_by_key_perm).
    rewrite <- has_duplicate_spec.
    by destruct (has_duplicate (sort l)). }
  rewrite !Hdup. split.
  - intros (Ht & He & Hx & Ho). split_and!; [done..| |].
    + intros e Hin. apply found_sort; [done|]. by apply require_Ok with MissingTarget, Hx.
    + intros op Hin. by apply relate_operation_Ok, Ho.
  - intros (Ht & He & Hx & Ho). split_and!; [done..| |].
    + intros e Hin. apply require_Ok, found_sort; [done|]. by apply Hx.
    + intros op Hin. apply relate_operation_Ok; [done..|]. by apply Ho.
Qed.

(** The recovery an operation needs: reversible work one level of rollback,
    work under approval a journal, irreversible work an external
    transaction. *)
Definition recoverable_under (r : EffectRollback) (c : EffectClass) : Prop :=
  match c with
  | ReadOnly => True
  | ReversibleMutation => r ∈ [SingleAtomic; Journaled; WorkspaceClone; ExternalTransaction]
  | ApprovalRequiredMutation => r ∈ [Journaled; WorkspaceClone; ExternalTransaction]
  | Irreversible => r = ExternalTransaction
  end.

Definition mutates (op : TypedEffectOperation) : Prop := op_effect_class op <> ReadOnly.

#[global] Instance mutates_dec op : Decision (mutates op).
Proof. unfold mutates. apply _. Defined.

Lemma recoverable_rank (r : EffectRollback) (c : EffectClass) :
  (effect_class_rank c <= rollback_rank r)%nat <-> recoverable_under r c.
Proof. destruct r, c; cbn; split; intros; try lia; try done; set_solver. Qed.

Lemma mutating_filter (ops : list TypedEffectOperation) :
  List.filter (fun op => (0 <? effect_class_rank (op_effect_class op))%nat) ops = filter mutates ops.
Proof.
  induction ops as [|op ops IH]; [done|]. cbn [List.filter]. rewrite filter_cons, IH.
  destruct (decide (mutates op)) as [Hm|Hm]; unfold mutates in Hm; destruct (op_effect_class op); cbn; try done;
    by exfalso; apply Hm.
Qed.

Lemma max_effect_le (ops : list TypedEffectOperation) (n : nat) :
  (max_effect ops <= n)%nat <-> forall op, op ∈ ops -> (effect_class_rank (op_effect_class op) <= n)%nat.
Proof.
  unfold max_effect. induction ops as [|op ops IH]; cbn.
  - split; [intros _ x Hx; by apply elem_of_nil in Hx|lia].
  - setoid_rewrite elem_of_cons. split.
    + intros Hle x [->|Hx]; [lia|]. apply IH; [lia|done].
    + intros Hall. apply Nat.max_lub; [apply Hall; auto|apply IH; auto].
Qed.

Lemma no_raw_fallback (ops : list TypedEffectOperation) :
  length (List.filter is_raw_fallback ops) = 0 <-> RawFallback ∉ ops.
Proof.
  induction ops as [|op ops IH]; cbn; [split; [intros _; apply not_elem_of_nil|done]|].
  rewrite elem_of_cons. destruct op; cbn; rewrite ?IH; naive_solver.
Qed.

(** [validate_rollback] is exact.  A program is either one bare raw
    fallback, which declares no target, precondition, exception or
    verification, or it has a verification step, every operation is
    recoverable under the declared rollback, and [SingleAtomic] is claimed
    for exactly one mutating operation. *)
Theorem rollback_adequacy_exact (p : EffectProgramBody) :
  validate_rollback p = Ok () <->
  (operations p = [RawFallback] /\ rollback p = RollbackRawFallback /\ targets p = [] /\
   preconditions p = [] /\ exceptions p = [] /\ verification p = []) \/
  ((RawFallback ∉ operations p) /\ rollback p <> RollbackRawFallback /\ verification p <> [] /\
   (forall op, op ∈ operations p -> recoverable_under (rollback p) (op_effect_class op)) /\
   (rollback p = SingleAtomic -> length (filter mutates (operations p)) = 1)).
Proof.
  unfold validate_rollback. destruct (Nat.ltb_spec 0 (length (List.filter is_raw_fallback (operations p))))
    as [Hraw|Hraw].
  - assert (Hin : ~ (RawFallback ∉ operations p)) by (intros Hn; apply no_raw_fallback in Hn; lia).
    split.
    + intros Hok. left. inv_ok1. breflect.
      repeat match goal with H : length _ = 0 |- _ => apply length_zero_iff_nil in H end.
      destruct (operations p) as [|op [|? ?]] eqn:Hops; try done. cbn in Hraw.
      destruct op; cbn in Hraw; try lia. done.
    + intros [(-> & -> & -> & -> & -> & ->)|(Hn & _)]; [done|contradiction].
  - assert (Hn : RawFallback ∉ operations p) by (apply no_raw_fallback; lia).
    rewrite mutating_filter. split.
    + intros Hok. right. repeat inv_ok1. breflect. split_and!; try done.
      * intros Hv. by rewrite Hv in *.
      * intros op Hop. apply recoverable_rank. by eapply (proj1 (max_effect_le _ _)).
      * intros Hs. match goal with H : bool_decide _ && _ = false |- _ =>
          rewrite bool_decide_eq_true_2 in H by done; cbn in H; by breflect end.
    + intros [(Hops & _)|(_ & Hr & Hv & Hc & Hs)]; [rewrite Hops in Hn; set_solver|].
      rewrite bool_decide_eq_false_2 by done. destruct (verification p); [done|]. cbn [length Nat.eqb].
      destruct (Nat.ltb_spec (rollback_rank (rollback p)) (max_effect (operations p))) as [Hlt|_].
      { exfalso. assert (max_effect (operations p) <= rollback_rank (rollback p))%nat; [|lia].
        apply max_effect_le. intros op Hop. by apply recoverable_rank, Hc. }
      destruct (decide (rollback p = SingleAtomic)) as [Hq|Hq].
      * by rewrite (Hs Hq), andb_false_r.
      * by rewrite bool_decide_eq_false_2.
Qed.

(** ** Admission *)

(** A binding authorizes a capability use: same owner and name, the exact
    generation and contract, and no stronger effect than it grants. *)
Definition authorizes (b : EffectCapabilityBinding)
  (use : ArtifactOwner * string * N * Digest * EffectClass) : Prop :=
  let '(owner, capability, generation, contract, class) := use in
  cb_owner b = owner /\ cb_capability b = capability /\ cb_generation b = generation /\
  contract_digest b = contract /\ (effect_class_rank class <= effect_class_rank (max_effect_class b))%nat.

Lemma EffectAdmission_validate_sorted (a : EffectAdmission) :
  EffectAdmission_validate a = Ok () ->
  StronglySorted below (allowed_intents a) /\ StronglySorted below (binding_key <$> capabilities a).
Proof.
  unfold EffectAdmission_validate, validate_sorted_strings, validate_set. intros Hok.
  repeat inv_ok1. by split; apply (check_windows_spec DuplicateMember NonCanonicalOrder); repeat match goal with u : () |- _ => destruct u end.
Qed.

Lemma admit_operation_exact (a : EffectAdmission) (op : TypedEffectOperation) :
  StronglySorted below (binding_key <$> capabilities a) ->
  (admit_operation a op = Ok () <->
   forall use, op_capability op = Some use -> exists b, b ∈ capabilities a /\ authorizes b use).
Proof.
  intros Hs. unfold admit_operation. destruct (op_capability op) as [[[[[o c] g] d] k]|]; [|done].
  destruct (binary_search_by_key binding_key (o, c) (capabilities a)) as [i|] eqn:Hi.
  - apply binary_search_by_key_spec in Hi as (b & Hb & Hk); [|done]. cbn [mbind option_bind]. rewrite Hb. cbn [ok_or mbind result_bind].
    injection Hk as Ho Hc. split.
    + intros Hok use [= <-]. repeat inv_ok1. breflect. exists b.
      split; [by eapply list_elem_of_lookup_2|]. by cbn.
    + intros Huse. destruct (Huse _ eq_refl) as (b' & Hb' & Ho' & Hc' & Hg & Hd & Hle).
      apply list_elem_of_lookup in Hb' as [j Hj].
      assert (Hij : i = j).
      { apply (NoDup_lookup (binding_key <$> capabilities a) i j (o, c)).
        - by apply sorted_NoDup.
        - rewrite list_lookup_fmap, Hb. cbn. unfold binding_key. by rewrite Ho, Hc.
        - rewrite list_lookup_fmap, Hj. cbn. unfold binding_key. by rewrite Ho', Hc'. }
      subst j. rewrite Hb in Hj. injection Hj as <-.
      rewrite Hg, N.eqb_refl, bool_decide_eq_true_2 by done.
      by rewrite (proj2 (Nat.ltb_ge _ _)).
  - apply binary_search_by_key_None in Hi; [|done]. cbn. split; [done|].
    intros Huse. destruct (Huse _ eq_refl) as (b & Hb & Ho & Hc & _). exfalso. apply Hi.
    apply list_elem_of_fmap. exists b. unfold binding_key. by rewrite Ho, Hc.
Qed.

Section Guarantees.
Context `{Platform, Codec EffectProgramBody}.

Lemma valid_program_relationships (p : EffectProgram) :
  EffectProgram_validate p = Ok () ->
  validate_relationships (body p) = Ok () /\ validate_rollback (body p) = Ok () /\
  for_each (EffectTarget_validate (base_state (body p))) (targets (body p)) = Ok ().
Proof.
  unfold EffectProgram_validate, validate_body. intros Hok. repeat inv_ok1.
  repeat match goal with u : () |- _ => destruct u end. done.
Qed.

(** Admission of an effect program is exact.  A structurally valid
    program is admitted by a valid admission exactly when it was planned
    against the admitted snapshot, its intent is listed, and each operation
    that uses a capability is authorized by a listed binding. *)
Theorem effect_admission_exact (p : EffectProgram) (a : EffectAdmission) :
  validate_against p a = Ok () <->
  EffectProgram_validate p = Ok () /\ EffectAdmission_validate a = Ok () /\
  base_state (body p) = expected_snapshot a /\ intent (body p) ∈ allowed_intents a /\
  (forall op use, op ∈ operations (body p) -> op_capability op = Some use ->
     exists b, b ∈ capabilities a /\ authorizes b use).
Proof.
  unfold validate_against, require_snapshot. rewrite !bind_unit_Ok, require_Ok.
  split.
  - intros (Hp & Ha & Hb & Hi). pose proof (EffectAdmission_validate_sorted a Ha) as [Hsi Hsc].
    repeat inv_ok1. breflect. rewrite for_each_Ok in Hi. split_and!; try done.
    + by apply binary_search_elem_of.
    + intros op use Hop. by apply admit_operation_exact, Hi.
  - intros (Hp & Ha & Hb & Hi & Hops). pose proof (EffectAdmission_validate_sorted a Ha) as [Hsi Hsc].
    split_and!; [done..|by rewrite bool_decide_eq_true|].
    rewrite bool_decide_eq_true_2 by (by apply binary_search_elem_of).
    apply for_each_Ok. intros op Hop. apply admit_operation_exact; eauto.
Qed.

(** A valid program touches only what it declares.  Every target an
    operation reads or writes is a declared target pinned to the program's
    base state, and every exception it relies on is declared for a declared
    target; target digests are unambiguous. *)
Theorem valid_program_confined (p : EffectProgram) (op : TypedEffectOperation) :
  EffectProgram_validate p = Ok () -> op ∈ operations (body p) ->
  NoDup (target_digest <$> targets (body p)) /\
  (forall x, x ∈ op_targets op -> exists t, t ∈ targets (body p) /\ target_digest t = x /\
     t_required_snapshot t = base_state (body p)) /\
  (forall x, x ∈ op_exceptions op -> exists e t, e ∈ exceptions (body p) /\ exception_digest e = x /\
     t ∈ targets (body p) /\ target_digest t = e_target_digest e).
Proof.
  intros Hv Hop. apply valid_program_relationships in Hv as (Hr & _ & Ht).
  apply validate_relationships_exact in Hr as (Hn & _ & He & Hops).
  destruct (Hops op Hop) as [Hot Hoe]. rewrite for_each_Ok in Ht. split_and!; [done| |].
  - intros x Hx. apply Hot, list_elem_of_fmap in Hx as (t & -> & Hin). exists t. split_and!; [done..|].
    pose proof (Ht t Hin) as Hb. unfold EffectTarget_validate, require_snapshot in Hb.
    repeat inv_ok1. by breflect.
  - intros x Hx. apply Hoe, list_elem_of_fmap in Hx as (e & -> & Hin).
    pose proof (He e Hin) as Htin. apply list_elem_of_fmap in Htin as (t & Hte & Htin).
    exists e, t. done.
Qed.

(** A validated set in canonical order is what its members sort to. *)
Lemma validate_set_sorted {A} `{Ord A, !OrdOk A} (l : list A) max e :
  validate_set l max e = Ok () -> StronglySorted below l.
Proof. unfold validate_set. rewrite reject_Ok. intros [_ Hc]. by apply check_windows_spec in Hc. Qed.

Lemma reject_duplicates_sorted {A} `{Ord A, !OrdOk A, EqDecision A} (l : list A) :
  StronglySorted below l -> reject_duplicates l = Ok ().
Proof. intros Hs%sorted_NoDup. unfold reject_duplicates. by rewrite (proj2 (has_duplicate_spec l) Hs). Qed.

Lemma validate_body_sorted (b : EffectProgramBody) : validate_body b = Ok () ->
  contract_version b = EFFECT_IR_CONTRACT_VERSION /\ StronglySorted below (targets b) /\
  StronglySorted below (preconditions b) /\ StronglySorted below (exceptions b).
Proof.
  unfold validate_body. intros Hok. repeat inv_ok1. repeat match goal with u : () |- _ => destruct u end. breflect.
  split_and!; [done|by eapply validate_set_sorted..].
Qed.

Lemma program_new_exact base int ts ps ops es plan r p :
  EffectProgram_new base int ts ps ops es plan r = Ok p <->
  EffectProgram_validate p = Ok () /\ base_state (body p) = base /\ intent (body p) = int /\
  targets (body p) ≡ₚ ts /\ preconditions (body p) ≡ₚ ps /\ operations (body p) = ops /\
  exceptions (body p) ≡ₚ es /\ verification (body p) = plan /\ rollback (body p) = r.
Proof.
  split.
  - intros Hok. unfold EffectProgram_new in Hok. repeat inv_ok1.
    repeat match goal with u : () |- _ => destruct u end.
    unfold EffectProgram_validate. cbn [body action_digest base_state intent targets preconditions operations exceptions verification rollback].
    split_and!; try done; try apply sort_by_key_perm.
    match goal with H : validate_body _ = Ok () |- _ => rewrite H end. cbn. by rewrite bool_decide_eq_true_2.
  - destruct p as [[v b0 i0 ts0 ps0 ops0 es0 plan0 r0] dig]. cbn [body base_state intent targets preconditions operations exceptions verification rollback].
    intros (Hv & -> & -> & Ht & Hp & -> & He & -> & ->). unfold EffectProgram_validate in Hv.
    cbn [body action_digest] in Hv. rewrite bind_unit_Ok, require_Ok in Hv. destruct Hv as [Hb Hd]. breflect. subst dig.
    destruct (validate_body_sorted _ Hb) as (Hver & Hst & Hsp & Hse). cbn in Hver, Hst, Hsp, Hse. subst v.
    unfold EffectProgram_new. rewrite (sort_canonical ts0 ts), (sort_canonical ps0 ps), (sort_canonical es0 es) by (done || by symmetry).
    cbv zeta. by rewrite !reject_duplicates_sorted, Hb by done.
Qed.

Lemma admission_new_exact snapshot intents caps a :
  EffectAdmission_new snapshot intents caps = Ok a <->
  EffectAdmission_validate a = Ok () /\ expected_snapshot a = snapshot /\
  allowed_intents a ≡ₚ intents /\ capabilities a ≡ₚ caps.
Proof.
  split.
  - intros Hok. unfold EffectAdmission_new in Hok. repeat inv_ok1.
    unfold reject_duplicates in *. repeat inv_ok1. repeat match goal with u : () |- _ => destruct u end.
    pose proof (sort_neighbours binding_key caps ltac:(done)) as Hs.
    unfold EffectAdmission_validate, validate_sorted_strings, validate_set.
    cbn [expected_snapshot allowed_intents capabilities].
    split_and!; [|done|apply sort_by_key_perm..].
    rewrite !bind_unit_Ok, !for_each_Ok in *.
    assert (length (sort intents) = length intents) as -> by (unfold sort; by rewrite sort_by_key_perm).
    assert (length (sort_by_key binding_key caps) = length caps) as -> by (by rewrite sort_by_key_perm).
    rewrite Heqb, Heqb0, bind_unit_Ok, for_each_Ok, !check_windows_spec.
    split_and!; [done| | | |done].
    + apply sort_ascending. apply has_duplicate_spec in Heqb2. unfold sort in Heqb2.
      by rewrite sort_by_key_perm in Heqb2.
    + intros x Hx. apply Ha0. by apply elem_of_sort.
    + intros x Hx. apply Ha2. by rewrite sort_by_key_perm in Hx.
  - destruct a as [s0 i0 c0]. cbn [expected_snapshot allowed_intents capabilities]. intros (Hv & -> & Hi & Hc).
    destruct (EffectAdmission_validate_sorted _ Hv) as [Hsi Hsc]. cbn [allowed_intents capabilities] in Hsi, Hsc.
    unfold EffectAdmission_validate, validate_sorted_strings, validate_set in Hv. cbn [expected_snapshot allowed_intents capabilities] in Hv.
    rewrite !bind_unit_Ok, reject_Ok in Hv. destruct Hv as (Hd & ((Hli & _) & Hvi) & Hv). rewrite reject_Ok, bind_unit_Ok in Hv.
    destruct Hv as (Hlc & Hvc & _).
    rewrite for_each_Ok in Hvi. rewrite for_each_Ok in Hvc.
    rewrite (Permutation_length Hi) in Hli. rewrite (Permutation_length Hc) in Hlc.
    unfold EffectAdmission_new. cbv zeta.
    rewrite (sort_canonical i0 intents), (sort_by_key_canonical binding_key c0 caps) by (done || by symmetry).
    rewrite Hd, Hli, Hlc, reject_duplicates_sorted, equal_neighbours_sorted by done.
    rewrite (proj2 (for_each_Ok validate_identity intents)), (proj2 (for_each_Ok EffectCapabilityBinding_validate caps)).
    + done.
    + intros x Hx. apply Hvc. by rewrite Hc.
    + intros x Hx. apply Hvi. by rewrite Hi.
Qed.

(** C37: The constructors build exactly the valid values.  [EffectProgram::new]
    returns a program exactly when that program validates and has the given
    base state, intent, operations, verification plan and rollback in their
    order, and the given targets, preconditions and exceptions up to order; so
    the result does not depend on how these are listed, and every valid
    program can be built.  [EffectAdmission::new] likewise returns an admission
    exactly when it validates and has the given snapshot, and the given
    intents and capability bindings up to order. *)
Theorem constructors_exact :
  (forall base int ts ps ops es plan r p,
     EffectProgram_new base int ts ps ops es plan r = Ok p <->
     EffectProgram_validate p = Ok () /\ base_state (body p) = base /\ intent (body p) = int /\
     targets (body p) ≡ₚ ts /\ preconditions (body p) ≡ₚ ps /\ operations (body p) = ops /\
     exceptions (body p) ≡ₚ es /\ verification (body p) = plan /\ rollback (body p) = r) /\
  (forall snapshot intents caps a,
     EffectAdmission_new snapshot intents caps = Ok a <->
     EffectAdmission_validate a = Ok () /\ expected_snapshot a = snapshot /\
     allowed_intents a ≡ₚ intents /\ capabilities a ≡ₚ caps).
Proof. split; [exact program_new_exact|exact admission_new_exact]. Qed.
End Guarantees.

(** * A concrete program and admission *)

Module Toy.
#[local] Instance toy_platform : Platform :=
  {| sha256 := Zbf.toy_sha256; json_string := Zbf.toy_json_string |}.
#[local] Instance toy_codec : Codec EffectProgramBody :=
  {| encode := fun p => string_bytes (intent p) ++ base_state p; decode := fun _ => None |}.

Definition d (n : N) : Digest := repeat (ascii_of_N n) 32.

Definition edit : TypedEffectOperation := ReplaceExactFile (d 11) (d 21) (d 22).
Definition rewrite_all : TypedEffectOperation :=
  DeterministicTransform Zbf.FsZero "fs.transform" 3 (d 9) [d 11; d 12] (d 10) [d 31] ReversibleMutation.

Definition built : R EffectProgram :=
  EffectProgram_new (d 1) "edit/rename" [mkTarget Zbf.FsZero (d 12) (d 1); mkTarget Zbf.FsZero (d 11) (d 1)]
    [] [edit; rewrite_all] [mkException (d 12) (d 31)]
    [mkStep (d 41) (d 42) (d 43) (d 1) ExactChecker] Journaled.

Definition toy_admission : R EffectAdmission :=
  EffectAdmission_new (d 1) ["edit/rename"; "edit/move"]
    [mkBinding Zbf.FsZero "fs.transform" 3 (d 9) ReversibleMutation;
     mkBinding Zbf.FsZero "fs.read" 1 (d 8) ReadOnly].

Definition toy_program : EffectProgram :=
  match built with Ok p => p | Err _ => mkProgram (mkProgramBody 0 [] "" [] [] [] [] [] Journaled) [] end.

(** The toy program is admitted; it is refused when the capability's
    generation moved on, or when only a read was granted. *)
Example toy_admitted :
  (let? a := toy_admission in validate_against toy_program a) = Ok () /\
  (let? a := EffectAdmission_new (d 1) ["edit/rename"]
     [mkBinding Zbf.FsZero "fs.transform" 4 (d 9) ReversibleMutation] in
   validate_against toy_program a) = Err CapabilityGenerationMismatch /\
  (let? a := EffectAdmission_new (d 1) ["edit/rename"]
     [mkBinding Zbf.FsZero "fs.transform" 3 (d 9) ReadOnly] in
   validate_against toy_program a) = Err CapabilityEffectClassExceeded.
Proof. vm_compute. done. Qed.

Lemma valid_program_confined_witness :
  exists e t, e ∈ exceptions (body toy_program) /\ exception_digest e = d 31 /\
    t ∈ targets (body toy_program) /\ target_digest t = e_target_digest e.
Proof.
  assert (Hv : EffectProgram_validate toy_program = Ok ()) by (vm_compute; reflexivity).
  assert (Hin : rewrite_all ∈ operations (body toy_program)) by (vm_compute; right; left).
  apply (proj2 (proj2 (valid_program_confined toy_program rewrite_all Hv Hin))). vm_compute. left.
Defined.

Definition toy_admitted_list : EffectAdmission :=
  match toy_admission with Ok a => a | Err _ => mkAdmission [] [] [] end.

Lemma constructors_exact_witness :
  EffectProgram_validate toy_program = Ok () /\ EffectAdmission_validate toy_admitted_list = Ok ().
Proof.
  assert (Hp : built = Ok toy_program) by (vm_compute; reflexivity).
  assert (Ha : toy_admission = Ok toy_admitted_list) by (vm_compute; reflexivity).
  split.
  - exact (proj1 (proj1 (proj1 constructors_exact _ _ _ _ _ _ _ _ _) Hp)).
  - unfold toy_admission in Ha. exact (proj1 (proj1 (proj2 constructors_exact _ _ _ _) Ha)).
Defined.
End Toy.
