(* ===== verification/Quality.v ===== *)
(** The protected-quality envelope ([zero-gate/src/quality.rs]): paired
    outcomes and the Pareto order on protected metrics, exact, pointwise,
    scoped-class and distributional certificates, and the strict admission
    that selects the candidate or the frozen baseline.

    A [VerifiedEvidence] is a certificate [Evidence.verify] accepted; an
    error is its failure code.  [i64] and [i128] values are [Z] kept within
    their width by the checks. *)

From S2P Require Import Prelude.
From S2P Require Import Ordering.
From S2P Require Import Canonical.
From S2P Require Import DurableStore.
From S2P Require Import Identity.
From S2P Require Evidence.
From S2P Require Zbf.

Notation VerifiedEvidence := Evidence.EvidenceCertificate.

Definition QUALITY_ENVELOPE_CONTRACT_VERSION : N := 1.
Definition QUALITY_ENVELOPE_MAX_CANONICAL_BYTES : N := 1048576.
Definition QUALITY_ENVELOPE_MAX_DIMENSIONS : nat := 128.
Definition QUALITY_ENVELOPE_MAX_METRIC_ID_BYTES : nat := 128.
Definition QUALITY_PPM_SCALE : Z := 1000000.

Definition PAIR_DOMAIN : bytes := domain "zerostack.quality.pair".
Definition EXACT_DOMAIN : bytes := domain "zerostack.quality.exact_neutral".
Definition POINTWISE_DOMAIN : bytes := domain "zerostack.quality.pointwise".
Definition CLASS_RULE_DOMAIN : bytes := domain "zerostack.quality.class_rule".
Definition MEMBERSHIP_DOMAIN : bytes := domain "zerostack.quality.membership".
Definition SCOPED_DOMAIN : bytes := domain "zerostack.quality.scoped".
Definition DISTRIBUTIONAL_CLAIM_DOMAIN : bytes := domain "zerostack.quality.distributional_claim".
Definition DISTRIBUTIONAL_DOMAIN : bytes := domain "zerostack.quality.distributional".
Definition VERIFIER_DOMAIN : bytes := domain "zerostack.quality.verifier".
Definition ADMISSION_DOMAIN : bytes := domain "zerostack.quality.admission".

(** * Data *)

Inductive QualityEnvelopeFailureCode :=
| SchemaVersionMismatch | MissingBinding | InvalidProtectedVector | CandidateRegression
| NonCanonicalOrder | NonCanonicalEncoding | CanonicalPayloadTooLarge | ExactNeutralMismatch
| EvidencePayloadMismatch | EvidenceInvalid | CertificateDigestMismatch | ClassMembershipMismatch
| InvalidDistributionalCounts | InvalidDistributionalBound | NonPositiveDistributionalBound
| BaselineBindingMismatch | InvalidAdmission | SerializationFailure | StaleEvidence
| IncomparableIdentity | UnrootedEvidence.

Notation R := (result QualityEnvelopeFailureCode).

Inductive MetricOrder := AtLeast | AtMost | Exact.

Record ProtectedMetric := mkMetric {
  metric_id : string; order : MetricOrder; baseline_value : Z; candidate_value : Z }.

Record QualityPair := mkPair {
  qp_contract_version : N;
  qp_task_digest : Digest;
  qp_comparison_identity_digest : Digest;
  qp_raw_baseline_identity_digest : Digest;
  qp_candidate_identity_digest : Digest;
  qp_baseline_outcome_digest : Digest;
  qp_candidate_outcome_digest : Digest;
  qp_protected_schema_digest : Digest;
  qp_pairing_method_digest : Digest;
  qp_dimensions : list ProtectedMetric }.

Record ExactNeutralCertificate := mkExact {
  en_contract_version : N;
  en_task_digest : Digest;
  en_comparison_identity_digest : Digest;
  en_raw_baseline_identity_digest : Digest;
  en_candidate_identity_digest : Digest;
  en_continuation_identity_digest : Digest;
  en_model_visible_input_digest : Digest;
  en_protected_outcome_digest : Digest;
  en_certificate_digest : Digest }.

Record PointwiseDominanceCertificate := mkPointwise {
  pd_contract_version : N;
  pd_task_digest : Digest;
  pd_comparison_identity_digest : Digest;
  pd_raw_baseline_identity_digest : Digest;
  pd_candidate_identity_digest : Digest;
  pd_baseline_outcome_digest : Digest;
  pd_candidate_outcome_digest : Digest;
  pd_pair_digest : Digest;
  pd_pairing_method_digest : Digest;
  pd_protected_predicate_digest : Digest;
  pd_evidence_digest : Digest;
  pd_verifier_identity_digest : Digest;
  pd_strictly_better : bool;
  pd_certificate_digest : Digest }.

Inductive DominanceClaim := NoWorse | StrictlyBetter.

Record ClassDominanceRule := mkRule {
  cr_contract_version : N;
  cr_class_digest : Digest;
  cr_comparison_identity_digest : Digest;
  cr_protected_schema_digest : Digest;
  cr_candidate_protocol_digest : Digest;
  cr_raw_baseline_identity_digest : Digest;
  cr_dominance_rule_digest : Digest;
  cr_claim : DominanceClaim }.

Record TaskClassMembership := mkMembership {
  tm_contract_version : N;
  tm_class_digest : Digest;
  tm_task_digest : Digest;
  tm_candidate_protocol_digest : Digest;
  tm_membership_predicate_digest : Digest }.

Record ScopedClassDominanceCertificate := mkScoped {
  sc_contract_version : N;
  sc_class_digest : Digest;
  sc_task_digest : Digest;
  sc_comparison_identity_digest : Digest;
  sc_raw_baseline_identity_digest : Digest;
  sc_candidate_protocol_digest : Digest;
  sc_class_rule_digest : Digest;
  sc_membership_digest : Digest;
  sc_class_evidence_digest : Digest;
  sc_membership_evidence_digest : Digest;
  sc_class_verifier_identity_digest : Digest;
  sc_membership_verifier_identity_digest : Digest;
  sc_claim : DominanceClaim;
  sc_certificate_digest : Digest }.

Record DistributionalClaim := mkClaim {
  dc_contract_version : N;
  dc_benchmark_digest : Digest;
  dc_comparison_identity_digest : Digest;
  dc_candidate_protocol_digest : Digest;
  dc_raw_baseline_identity_digest : Digest;
  dc_baseline_outcome_digest : Digest;
  dc_protected_schema_digest : Digest;
  dc_pairing_method_digest : Digest;
  dc_protected_predicate_digest : Digest;
  dc_paired_tasks : N;
  dc_candidate_wins : N;
  dc_protected_losses : N;
  dc_ties : N;
  dc_mean_gain_ppm : Z;
  dc_lower_confidence_gain_ppm : Z;
  dc_confidence_ppm : N }.

Record DistributionalCertificate := mkDistributional {
  di_contract_version : N;
  di_benchmark_digest : Digest;
  di_comparison_identity_digest : Digest;
  di_candidate_protocol_digest : Digest;
  di_raw_baseline_identity_digest : Digest;
  di_baseline_outcome_digest : Digest;
  di_pairing_method_digest : Digest;
  di_protected_predicate_digest : Digest;
  di_claim_digest : Digest;
  di_paired_tasks : N;
  di_protected_losses : N;
  di_lower_confidence_gain_ppm : Z;
  di_confidence_ppm : N;
  di_evidence_digest : Digest;
  di_verifier_identity_digest : Digest;
  di_certificate_digest : Digest }.

Inductive UnidentifiedReason :=
| RMissingEvidence | RBindingMismatch | RVerifierUnsupported | RCandidateRegression
| RDistributionalOnly | RStaleEvidence | RIncomparableIdentity | RUnrootedEvidence.

Inductive QualityEvidence :=
| EExactNeutral (certificate : ExactNeutralCertificate)
| EPointwiseDominance (certificate : PointwiseDominanceCertificate)
| EScopedClassDominance (certificate : ScopedClassDominanceCertificate)
| EDistributional (certificate : DistributionalCertificate)
| EUnidentified (scope comparison_identity candidate_identity : Digest) (reason : UnidentifiedReason).

Inductive QualityEvidenceClass :=
| ExactNeutral | PointwiseDominance | ScopedClassDominance | Distributional | Unidentified.
Inductive QualitySelection := Candidate | FrozenBaselineSelected.
Inductive QualityGuarantee :=
| ExactSubstitution | PointwiseNoWorse | ScopedClassNoWorse | DistributionalOnly | GUnidentified.

#[global] Instance QualityEvidenceClass_eq_dec : EqDecision QualityEvidenceClass.
Proof. solve_decision. Defined.
#[global] Instance QualitySelection_eq_dec : EqDecision QualitySelection.
Proof. solve_decision. Defined.
#[global] Instance QualityGuarantee_eq_dec : EqDecision QualityGuarantee.
Proof. solve_decision. Defined.
#[global] Instance DominanceClaim_eq_dec : EqDecision DominanceClaim.
Proof. solve_decision. Defined.

Record FrozenBaseline := mkBaseline {
  fb_identity_digest : Digest; fb_protected_outcome_digest : Digest; fb_receipt_digest : Digest }.

(** [QualityAdmission] and its public [QualityAdmissionRecord] have the same
    fields; the record is the admission without its authority. *)
Record QualityAdmission := mkAdmission {
  contract_version : N;
  scope_digest : Digest;
  comparison_identity_digest : Digest;
  raw_baseline_identity_digest : Digest;
  baseline_outcome_digest : Digest;
  baseline_receipt_digest : Digest;
  candidate_identity_digest : option Digest;
  candidate_outcome_digest : option Digest;
  pairing_method_digest : Digest;
  protected_predicate_digest : Digest;
  verifier_identity_digest : Digest;
  class_certificate_digest : option Digest;
  confidence_scope_digest : option Digest;
  evidence_class : QualityEvidenceClass;
  selection : QualitySelection;
  guarantee : QualityGuarantee;
  strict_improvement : bool;
  evidence_digest : Digest;
  admission_digest : Digest }.

Notation QualityAdmissionRecord := QualityAdmission.

(** * Wire names *)

Definition jorder (o : MetricOrder) : Value :=
  VString match o with AtLeast => "at_least" | AtMost => "at_most" | Exact => "exact" end.
Definition jclaim (c : DominanceClaim) : Value :=
  VString match c with NoWorse => "no_worse" | StrictlyBetter => "strictly_better" end.
Definition jreason (r : UnidentifiedReason) : Value :=
  VString match r with
  | RMissingEvidence => "missing_evidence" | RBindingMismatch => "binding_mismatch"
  | RVerifierUnsupported => "verifier_unsupported" | RCandidateRegression => "candidate_regression"
  | RDistributionalOnly => "distributional_only" | RStaleEvidence => "stale_evidence"
  | RIncomparableIdentity => "incomparable_identity" | RUnrootedEvidence => "unrooted_evidence"
  end.
Definition jclass (c : QualityEvidenceClass) : Value :=
  VString match c with
  | ExactNeutral => "exact_neutral" | PointwiseDominance => "pointwise_dominance"
  | ScopedClassDominance => "scoped_class_dominance" | Distributional => "distributional"
  | Unidentified => "unidentified"
  end.
Definition jselection (s : QualitySelection) : Value :=
  VString match s with Candidate => "candidate" | FrozenBaselineSelected => "frozen_baseline" end.
Definition jguarantee (g : QualityGuarantee) : Value :=
  VString match g with
  | ExactSubstitution => "exact_substitution" | PointwiseNoWorse => "pointwise_no_worse"
  | ScopedClassNoWorse => "scoped_class_no_worse" | DistributionalOnly => "distributional_only"
  | GUnidentified => "unidentified"
  end.

Definition jmetric (m : ProtectedMetric) : Value :=
  Object [("metric_id", VString (metric_id m)); ("order", jorder (order m));
          ("baseline_value", jint (baseline_value m)); ("candidate_value", jint (candidate_value m))].

Definition jpair (p : QualityPair) : Value :=
  Object [("contract_version", jnum (qp_contract_version p)); ("task_digest", jhex (qp_task_digest p));
          ("comparison_identity_digest", jhex (qp_comparison_identity_digest p));
          ("raw_baseline_identity_digest", jhex (qp_raw_baseline_identity_digest p));
          ("candidate_identity_digest", jhex (qp_candidate_identity_digest p));
          ("baseline_outcome_digest", jhex (qp_baseline_outcome_digest p));
          ("candidate_outcome_digest", jhex (qp_candidate_outcome_digest p));
          ("protected_schema_digest", jhex (qp_protected_schema_digest p));
          ("pairing_method_digest", jhex (qp_pairing_method_digest p));
          ("dimensions", Array (jmetric <$> qp_dimensions p))].

Definition jrule (r : ClassDominanceRule) : Value :=
  Object [("contract_version", jnum (cr_contract_version r)); ("class_digest", jhex (cr_class_digest r));
          ("comparison_identity_digest", jhex (cr_comparison_identity_digest r));
          ("protected_schema_digest", jhex (cr_protected_schema_digest r));
          ("candidate_protocol_digest", jhex (cr_candidate_protocol_digest r));
          ("raw_baseline_identity_digest", jhex (cr_raw_baseline_identity_digest r));
          ("dominance_rule_digest", jhex (cr_dominance_rule_digest r)); ("claim", jclaim (cr_claim r))].

Definition jmembership (m : TaskClassMembership) : Value :=
  Object [("contract_version", jnum (tm_contract_version m)); ("class_digest", jhex (tm_class_digest m));
          ("task_digest", jhex (tm_task_digest m));
          ("candidate_protocol_digest", jhex (tm_candidate_protocol_digest m));
          ("membership_predicate_digest", jhex (tm_membership_predicate_digest m))].

Definition jdistributional (c : DistributionalClaim) : Value :=
  Object [("contract_version", jnum (dc_contract_version c));
          ("benchmark_digest", jhex (dc_benchmark_digest c));
          ("comparison_identity_digest", jhex (dc_comparison_identity_digest c));
          ("candidate_protocol_digest", jhex (dc_candidate_protocol_digest c));
          ("raw_baseline_identity_digest", jhex (dc_raw_baseline_identity_digest c));
          ("baseline_outcome_digest", jhex (dc_baseline_outcome_digest c));
          ("protected_schema_digest", jhex (dc_protected_schema_digest c));
          ("pairing_method_digest", jhex (dc_pairing_method_digest c));
          ("protected_predicate_digest", jhex (dc_protected_predicate_digest c));
          ("paired_tasks", jnum (dc_paired_tasks c)); ("candidate_wins", jnum (dc_candidate_wins c));
          ("protected_losses", jnum (dc_protected_losses c)); ("ties", jnum (dc_ties c));
          ("mean_gain_ppm", jint (dc_mean_gain_ppm c));
          ("lower_confidence_gain_ppm", jint (dc_lower_confidence_gain_ppm c));
          ("confidence_ppm", jnum (dc_confidence_ppm c))].

(** * Checks *)

Definition validate_id (value : string) : R () :=
  reject? (String.length value =? 0)%nat ||
          (QUALITY_ENVELOPE_MAX_METRIC_ID_BYTES <? String.length value)%nat ||
          has_control (string_bytes value)
    with InvalidProtectedVector in
  Ok ().

Definition require_live (digest : Digest) : R () :=
  reject? zero_digest digest with UnrootedEvidence in Ok ().
Definition require_comparable (left right : Digest) : R () :=
  reject? zero_digest left || zero_digest right with MissingBinding in Ok ().
Definition require_distinct (left right : Digest) : R () :=
  reject? bool_decide (left = right) with IncomparableIdentity in Ok ().
Definition require_nonzero (digests : list Digest) : R () :=
  reject? existsb zero_digest digests with MissingBinding in Ok ().

Definition require_version_and_digest (version : N) (actual expected : Digest) : R () :=
  guard? (version =? QUALITY_ENVELOPE_CONTRACT_VERSION)%N else SchemaVersionMismatch in
  reject? zero_digest actual || negb (bool_decide (actual = expected)) with CertificateDigestMismatch in
  Ok ().

Definition require_locked_verifier (evidence : VerifiedEvidence) : R () :=
  let p := Evidence.provenance evidence in
  let blank s := all_whitespace (string_bytes s) in
  reject? blank (Evidence.operator_id p) || blank (Evidence.operator_version p) ||
          blank (Evidence.parser_id p) || blank (Evidence.parser_version p) ||
          blank (Evidence.index_id p) || blank (Evidence.index_version p)
    with StaleEvidence in
  reject? (length (Evidence.payload evidence) =? 0)%nat with UnrootedEvidence in
  Ok ().

Definition require_exact_payload (expected : bytes) (evidence : VerifiedEvidence) : R () :=
  reject? (length (Evidence.payload evidence) =? 0)%nat with UnrootedEvidence in
  guard? bool_decide (Evidence.payload evidence = expected) else EvidencePayloadMismatch in
  Ok ().

(** ** Protected metrics *)

Definition no_worse (m : ProtectedMetric) : bool :=
  match order m with
  | AtLeast => (baseline_value m <=? candidate_value m)%Z
  | AtMost => (candidate_value m <=? baseline_value m)%Z
  | Exact => (candidate_value m =? baseline_value m)%Z
  end.

Definition metric_strictly_better (m : ProtectedMetric) : bool :=
  match order m with
  | AtLeast => (baseline_value m <? candidate_value m)%Z
  | AtMost => (candidate_value m <? baseline_value m)%Z
  | Exact => false
  end.

Definition ProtectedMetric_validate (m : ProtectedMetric) : R () :=
  let? _ := validate_id (metric_id m) in
  guard? no_worse m else CandidateRegression in
  Ok ().

(** The loop of [require_declared_pareto_vector]; [previous] is the last id. *)
Fixpoint pareto_loop (previous : option string) (l : list ProtectedMetric) : R () :=
  match l with
  | [] => Ok ()
  | metric :: l' =>
      let? _ := ProtectedMetric_validate metric in
      reject? match previous with Some value => geb value (metric_id metric) | None => false end
        with NonCanonicalOrder in
      pareto_loop (Some (metric_id metric)) l'
  end.

Definition require_declared_pareto_vector (dimensions : list ProtectedMetric) : R () :=
  reject? (length dimensions =? 0)%nat || (QUALITY_ENVELOPE_MAX_DIMENSIONS <? length dimensions)%nat
    with InvalidProtectedVector in
  pareto_loop None dimensions.

Definition from_failure_code (code : QualityEnvelopeFailureCode) : option UnidentifiedReason :=
  match code with
  | MissingBinding => Some RMissingEvidence
  | StaleEvidence => Some RStaleEvidence
  | IncomparableIdentity => Some RIncomparableIdentity
  | UnrootedEvidence => Some RUnrootedEvidence
  | EvidencePayloadMismatch | EvidenceInvalid => None
  | ClassMembershipMismatch => Some RBindingMismatch
  | CandidateRegression => Some RCandidateRegression
  | InvalidDistributionalBound | NonPositiveDistributionalBound | InvalidDistributionalCounts =>
      Some RDistributionalOnly
  | _ => None
  end.

Definition unidentified (scope comparison candidate : Digest) (reason : UnidentifiedReason)
  : R QualityEvidence :=
  let? _ := require_nonzero [scope; comparison; candidate] in
  Ok (EUnidentified scope comparison candidate reason).

Definition unidentified_from_error (scope comparison candidate : Digest)
  (error : QualityEnvelopeFailureCode) : option (R QualityEvidence) :=
  unidentified scope comparison candidate <$> from_failure_code error.

Section Certificates.
Context `{Platform, Codec VerifiedEvidence}.

Definition canonical_bytes (v : Value) : R bytes :=
  let b := canonical_bytes_of v in
  reject? (QUALITY_ENVELOPE_MAX_CANONICAL_BYTES <? len b)%N with CanonicalPayloadTooLarge in
  Ok b.

Definition digest_body (dom : bytes) (v : Value) : Digest := concat_digest dom (canonical_bytes_of v).

Definition evidence_digest_of (evidence : VerifiedEvidence) : Digest := Evidence.canonical_digest evidence.

Definition verifier_identity_digest_of (evidence : VerifiedEvidence) : Digest :=
  let p := Evidence.provenance evidence in
  digest_body VERIFIER_DOMAIN (Object
    [("index_id", VString (Evidence.index_id p)); ("index_version", VString (Evidence.index_version p));
     ("operator_id", VString (Evidence.operator_id p));
     ("operator_version", VString (Evidence.operator_version p));
     ("parser_id", VString (Evidence.parser_id p)); ("parser_version", VString (Evidence.parser_version p))]).

(** ** Pairs *)

Definition QualityPair_validate (p : QualityPair) : R () :=
  guard? (qp_contract_version p =? QUALITY_ENVELOPE_CONTRACT_VERSION)%N else SchemaVersionMismatch in
  let? _ := require_nonzero
    [qp_task_digest p; qp_comparison_identity_digest p; qp_raw_baseline_identity_digest p;
     qp_candidate_identity_digest p; qp_baseline_outcome_digest p; qp_candidate_outcome_digest p;
     qp_protected_schema_digest p; qp_pairing_method_digest p] in
  let? _ := require_distinct (qp_raw_baseline_identity_digest p) (qp_candidate_identity_digest p) in
  let? _ := require_live (qp_baseline_outcome_digest p) in
  let? _ := require_live (qp_candidate_outcome_digest p) in
  require_declared_pareto_vector (qp_dimensions p).

Definition QualityPair_new (task comparison baseline candidate baseline_outcome candidate_outcome
  schema pairing : Digest) (dimensions : list ProtectedMetric) : R QualityPair :=
  let pair := mkPair QUALITY_ENVELOPE_CONTRACT_VERSION task comparison baseline candidate
    baseline_outcome candidate_outcome schema pairing dimensions in
  let? _ := QualityPair_validate pair in
  Ok pair.

Definition QualityPair_canonical_bytes (p : QualityPair) : R bytes :=
  let? _ := QualityPair_validate p in
  canonical_bytes (jpair p).

Definition QualityPair_from_canonical_bytes `{FromSlice QualityPair} (b : bytes) : R QualityPair :=
  reject? (QUALITY_ENVELOPE_MAX_CANONICAL_BYTES <? len b)%N with CanonicalPayloadTooLarge in
  let? p := ok_or (from_slice b) SerializationFailure in
  let? _ := QualityPair_validate p in
  let? canonical := QualityPair_canonical_bytes p in
  guard? bool_decide (canonical = b) else NonCanonicalEncoding in
  Ok p.

Definition QualityPair_digest (p : QualityPair) : R Digest :=
  let? b := QualityPair_canonical_bytes p in
  Ok (concat_digest PAIR_DOMAIN b).

Definition QualityPair_strictly_better (p : QualityPair) : bool :=
  existsb metric_strictly_better (qp_dimensions p).

(** ** Exact substitution *)

Definition ExactNeutralCertificate_expected_digest (c : ExactNeutralCertificate) : Digest :=
  digest_body EXACT_DOMAIN (Object
    [("candidate_identity_digest", jhex (en_candidate_identity_digest c));
     ("comparison_identity_digest", jhex (en_comparison_identity_digest c));
     ("continuation_identity_digest", jhex (en_continuation_identity_digest c));
     ("contract_version", jnum (en_contract_version c));
     ("model_visible_input_digest", jhex (en_model_visible_input_digest c));
     ("protected_outcome_digest", jhex (en_protected_outcome_digest c));
     ("raw_baseline_identity_digest", jhex (en_raw_baseline_identity_digest c));
     ("task_digest", jhex (en_task_digest c))]).

Definition ExactNeutralCertificate_verify (task comparison baseline candidate
  baseline_continuation candidate_continuation baseline_input candidate_input
  baseline_outcome candidate_outcome : Digest) : R ExactNeutralCertificate :=
  let? _ := require_nonzero
    [task; comparison; baseline; candidate; baseline_continuation; candidate_continuation;
     baseline_input; candidate_input; baseline_outcome; candidate_outcome] in
  let? _ := require_comparable task comparison in
  let? _ := require_distinct baseline candidate in
  let? _ := require_live baseline_outcome in
  guard? bool_decide (baseline_continuation = candidate_continuation) &&
         bool_decide (baseline_input = candidate_input) &&
         bool_decide (baseline_outcome = candidate_outcome)
    else ExactNeutralMismatch in
  let certificate d := mkExact QUALITY_ENVELOPE_CONTRACT_VERSION task comparison baseline candidate
    baseline_continuation baseline_input baseline_outcome d in
  Ok (certificate (ExactNeutralCertificate_expected_digest (certificate ZERO))).

Definition ExactNeutralCertificate_validate (c : ExactNeutralCertificate) : R () :=
  require_version_and_digest (en_contract_version c) (en_certificate_digest c)
    (ExactNeutralCertificate_expected_digest c).

(** ** Pointwise dominance *)

Definition PointwiseDominanceCertificate_expected_digest (c : PointwiseDominanceCertificate) : Digest :=
  digest_body POINTWISE_DOMAIN (Object
    [("baseline_outcome_digest", jhex (pd_baseline_outcome_digest c));
     ("candidate_identity_digest", jhex (pd_candidate_identity_digest c));
     ("candidate_outcome_digest", jhex (pd_candidate_outcome_digest c));
     ("comparison_identity_digest", jhex (pd_comparison_identity_digest c));
     ("contract_version", jnum (pd_contract_version c));
     ("evidence_digest", jhex (pd_evidence_digest c));
     ("pair_digest", jhex (pd_pair_digest c));
     ("pairing_method_digest", jhex (pd_pairing_method_digest c));
     ("protected_predicate_digest", jhex (pd_protected_predicate_digest c));
     ("raw_baseline_identity_digest", jhex (pd_raw_baseline_identity_digest c));
     ("strictly_better", Bool (pd_strictly_better c));
     ("task_digest", jhex (pd_task_digest c));
     ("verifier_identity_digest", jhex (pd_verifier_identity_digest c))]).

Definition PointwiseDominanceCertificate_verify (pair : QualityPair) (predicate : Digest)
  (evidence : VerifiedEvidence) : R PointwiseDominanceCertificate :=
  let? _ := QualityPair_validate pair in
  let? _ := require_live predicate in
  let? _ := require_live (qp_protected_schema_digest pair) in
  let? _ := require_live (qp_pairing_method_digest pair) in
  let? _ := require_live (qp_baseline_outcome_digest pair) in
  let? _ := require_live (qp_candidate_outcome_digest pair) in
  let? _ := require_locked_verifier evidence in
  let? pair_bytes := QualityPair_canonical_bytes pair in
  let? _ := require_exact_payload pair_bytes evidence in
  let? pair_digest := QualityPair_digest pair in
  let certificate d := mkPointwise QUALITY_ENVELOPE_CONTRACT_VERSION (qp_task_digest pair)
    (qp_comparison_identity_digest pair) (qp_raw_baseline_identity_digest pair)
    (qp_candidate_identity_digest pair) (qp_baseline_outcome_digest pair)
    (qp_candidate_outcome_digest pair) pair_digest (qp_pairing_method_digest pair) predicate
    (evidence_digest_of evidence) (verifier_identity_digest_of evidence)
    (QualityPair_strictly_better pair) d in
  Ok (certificate (PointwiseDominanceCertificate_expected_digest (certificate ZERO))).

Definition PointwiseDominanceCertificate_validate (c : PointwiseDominanceCertificate) : R () :=
  let? _ := require_nonzero
    [pd_task_digest c; pd_comparison_identity_digest c; pd_raw_baseline_identity_digest c;
     pd_candidate_identity_digest c; pd_baseline_outcome_digest c; pd_candidate_outcome_digest c;
     pd_pair_digest c; pd_pairing_method_digest c; pd_protected_predicate_digest c;
     pd_evidence_digest c; pd_verifier_identity_digest c] in
  require_version_and_digest (pd_contract_version c) (pd_certificate_digest c)
    (PointwiseDominanceCertificate_expected_digest c).

(** ** Scoped class dominance *)

Definition ClassDominanceRule_validate (r : ClassDominanceRule) : R () :=
  guard? (cr_contract_version r =? QUALITY_ENVELOPE_CONTRACT_VERSION)%N else SchemaVersionMismatch in
  require_nonzero
    [cr_class_digest r; cr_comparison_identity_digest r; cr_protected_schema_digest r;
     cr_candidate_protocol_digest r; cr_raw_baseline_identity_digest r; cr_dominance_rule_digest r].

Definition ClassDominanceRule_new (class comparison schema protocol baseline rule : Digest)
  (claim : DominanceClaim) : R ClassDominanceRule :=
  let r := mkRule QUALITY_ENVELOPE_CONTRACT_VERSION class comparison schema protocol baseline rule claim in
  let? _ := ClassDominanceRule_validate r in
  Ok r.

Definition ClassDominanceRule_canonical_bytes (r : ClassDominanceRule) : R bytes :=
  let? _ := ClassDominanceRule_validate r in
  canonical_bytes (jrule r).

Definition ClassDominanceRule_digest (r : ClassDominanceRule) : R Digest :=
  let? b := ClassDominanceRule_canonical_bytes r in
  Ok (concat_digest CLASS_RULE_DOMAIN b).

Definition TaskClassMembership_validate (m : TaskClassMembership) : R () :=
  guard? (tm_contract_version m =? QUALITY_ENVELOPE_CONTRACT_VERSION)%N else SchemaVersionMismatch in
  require_nonzero
    [tm_class_digest m; tm_task_digest m; tm_candidate_protocol_digest m;
     tm_membership_predicate_digest m].

Definition TaskClassMembership_new (class task protocol predicate : Digest) : R TaskClassMembership :=
  let m := mkMembership QUALITY_ENVELOPE_CONTRACT_VERSION class task protocol predicate in
  let? _ := TaskClassMembership_validate m in
  Ok m.

Definition TaskClassMembership_canonical_bytes (m : TaskClassMembership) : R bytes :=
  let? _ := TaskClassMembership_validate m in
  canonical_bytes (jmembership m).

Definition TaskClassMembership_digest (m : TaskClassMembership) : R Digest :=
  let? b := TaskClassMembership_canonical_bytes m in
  Ok (concat_digest MEMBERSHIP_DOMAIN b).

Definition ScopedClassDominanceCertificate_expected_digest (c : ScopedClassDominanceCertificate) : Digest :=
  digest_body SCOPED_DOMAIN (Object
    [("candidate_protocol_digest", jhex (sc_candidate_protocol_digest c));
     ("certificate_version", jnum (sc_contract_version c));
     ("class_digest", jhex (sc_class_digest c));
     ("class_evidence_digest", jhex (sc_class_evidence_digest c));
     ("class_rule_digest", jhex (sc_class_rule_digest c));
     ("class_verifier_identity_digest", jhex (sc_class_verifier_identity_digest c));
     ("claim", jclaim (sc_claim c));
     ("comparison_identity_digest", jhex (sc_comparison_identity_digest c));
     ("membership_digest", jhex (sc_membership_digest c));
     ("membership_evidence_digest", jhex (sc_membership_evidence_digest c));
     ("membership_verifier_identity_digest", jhex (sc_membership_verifier_identity_digest c));
     ("raw_baseline_identity_digest", jhex (sc_raw_baseline_identity_digest c));
     ("task_digest", jhex (sc_task_digest c))]).

Definition ScopedClassDominanceCertificate_verify (rule : ClassDominanceRule)
  (membership : TaskClassMembership) (class_evidence membership_evidence : VerifiedEvidence)
  : R ScopedClassDominanceCertificate :=
  let? _ := ClassDominanceRule_validate rule in
  let? _ := TaskClassMembership_validate membership in
  guard? bool_decide (cr_class_digest rule = tm_class_digest membership) &&
         bool_decide (cr_candidate_protocol_digest rule = tm_candidate_protocol_digest membership)
    else ClassMembershipMismatch in
  let? _ := require_live (cr_comparison_identity_digest rule) in
  let? _ := require_live (cr_protected_schema_digest rule) in
  let? _ := require_locked_verifier class_evidence in
  let? _ := require_locked_verifier membership_evidence in
  let? rule_bytes := ClassDominanceRule_canonical_bytes rule in
  let? _ := require_exact_payload rule_bytes class_evidence in
  let? membership_bytes := TaskClassMembership_canonical_bytes membership in
  let? _ := require_exact_payload membership_bytes membership_evidence in
  let? rule_digest := ClassDominanceRule_digest rule in
  let? membership_digest := TaskClassMembership_digest membership in
  let certificate d := mkScoped QUALITY_ENVELOPE_CONTRACT_VERSION (cr_class_digest rule)
    (tm_task_digest membership) (cr_comparison_identity_digest rule)
    (cr_raw_baseline_identity_digest rule) (cr_candidate_protocol_digest rule) rule_digest
    membership_digest (evidence_digest_of class_evidence) (evidence_digest_of membership_evidence)
    (verifier_identity_digest_of class_evidence) (verifier_identity_digest_of membership_evidence)
    (cr_claim rule) d in
  Ok (certificate (ScopedClassDominanceCertificate_expected_digest (certificate ZERO))).

Definition ScopedClassDominanceCertificate_validate (c : ScopedClassDominanceCertificate) : R () :=
  let? _ := require_nonzero
    [sc_class_digest c; sc_task_digest c; sc_comparison_identity_digest c;
     sc_raw_baseline_identity_digest c; sc_candidate_protocol_digest c; sc_class_rule_digest c;
     sc_membership_digest c; sc_class_evidence_digest c; sc_membership_evidence_digest c;
     sc_class_verifier_identity_digest c; sc_membership_verifier_identity_digest c] in
  require_version_and_digest (sc_contract_version c) (sc_certificate_digest c)
    (ScopedClassDominanceCertificate_expected_digest c).

(** ** Paired populations *)

Definition in_ppm (z : Z) : bool := (- QUALITY_PPM_SCALE <=? z)%Z && (z <=? QUALITY_PPM_SCALE)%Z.

Definition DistributionalClaim_validate (c : DistributionalClaim) : R () :=
  guard? (dc_contract_version c =? QUALITY_ENVELOPE_CONTRACT_VERSION)%N else SchemaVersionMismatch in
  let? _ := require_nonzero
    [dc_benchmark_digest c; dc_comparison_identity_digest c; dc_candidate_protocol_digest c;
     dc_raw_baseline_identity_digest c; dc_baseline_outcome_digest c; dc_protected_schema_digest c;
     dc_pairing_method_digest c; dc_protected_predicate_digest c] in
  let total := checked_add_u64 (dc_candidate_wins c) (dc_protected_losses c) ≫=
               fun value => checked_add_u64 value (dc_ties c) in
  reject? (dc_paired_tasks c =? 0)%N || negb (bool_decide (total = Some (dc_paired_tasks c)))
    with InvalidDistributionalCounts in
  reject? (dc_confidence_ppm c =? 0)%N || (QUALITY_PPM_SCALE <=? Z.of_N (dc_confidence_ppm c))%Z ||
          negb (in_ppm (dc_mean_gain_ppm c)) || negb (in_ppm (dc_lower_confidence_gain_ppm c)) ||
          (dc_mean_gain_ppm c <? dc_lower_confidence_gain_ppm c)%Z
    with InvalidDistributionalBound in
  let paired_delta := (Z.of_N (dc_candidate_wins c) - Z.of_N (dc_protected_losses c))%Z in
  let expected_mean_ppm := (paired_delta * QUALITY_PPM_SCALE ÷ Z.of_N (dc_paired_tasks c))%Z in
  guard? (dc_mean_gain_ppm c =? expected_mean_ppm)%Z else InvalidDistributionalBound in
  reject? (dc_lower_confidence_gain_ppm c <=? 0)%Z with NonPositiveDistributionalBound in
  Ok ().

Definition DistributionalClaim_new (benchmark comparison protocol baseline outcome schema pairing
  predicate : Digest) (tasks wins losses ties : N) (mean lower : Z) (confidence : N)
  : R DistributionalClaim :=
  let claim := mkClaim QUALITY_ENVELOPE_CONTRACT_VERSION benchmark comparison protocol baseline
    outcome schema pairing predicate tasks wins losses ties mean lower confidence in
  let? _ := DistributionalClaim_validate claim in
  Ok claim.

Definition DistributionalClaim_canonical_bytes (c : DistributionalClaim) : R bytes :=
  let? _ := DistributionalClaim_validate c in
  canonical_bytes (jdistributional c).

Definition DistributionalClaim_digest (c : DistributionalClaim) : R Digest :=
  let? b := DistributionalClaim_canonical_bytes c in
  Ok (concat_digest DISTRIBUTIONAL_CLAIM_DOMAIN b).

Definition DistributionalCertificate_expected_digest (c : DistributionalCertificate) : Digest :=
  digest_body DISTRIBUTIONAL_DOMAIN (Object
    [("baseline_outcome_digest", jhex (di_baseline_outcome_digest c));
     ("benchmark_digest", jhex (di_benchmark_digest c));
     ("candidate_protocol_digest", jhex (di_candidate_protocol_digest c));
     ("certificate_version", jnum (di_contract_version c));
     ("claim_digest", jhex (di_claim_digest c));
     ("comparison_identity_digest", jhex (di_comparison_identity_digest c));
     ("confidence_ppm", jnum (di_confidence_ppm c));
     ("evidence_digest", jhex (di_evidence_digest c));
     ("lower_confidence_gain_ppm", jint (di_lower_confidence_gain_ppm c));
     ("paired_tasks", jnum (di_paired_tasks c));
     ("pairing_method_digest", jhex (di_pairing_method_digest c));
     ("protected_losses", jnum (di_protected_losses c));
     ("protected_predicate_digest", jhex (di_protected_predicate_digest c));
     ("raw_baseline_identity_digest", jhex (di_raw_baseline_identity_digest c));
     ("verifier_identity_digest", jhex (di_verifier_identity_digest c))]).

Definition DistributionalCertificate_verify (claim : DistributionalClaim) (evidence : VerifiedEvidence)
  : R DistributionalCertificate :=
  let? _ := DistributionalClaim_validate claim in
  let? _ := require_live (dc_benchmark_digest claim) in
  let? _ := require_live (dc_protected_predicate_digest claim) in
  let? _ := require_locked_verifier evidence in
  let? claim_bytes := DistributionalClaim_canonical_bytes claim in
  let? _ := require_exact_payload claim_bytes evidence in
  let? claim_digest := DistributionalClaim_digest claim in
  let certificate d := mkDistributional QUALITY_ENVELOPE_CONTRACT_VERSION (dc_benchmark_digest claim)
    (dc_comparison_identity_digest claim) (dc_candidate_protocol_digest claim)
    (dc_raw_baseline_identity_digest claim) (dc_baseline_outcome_digest claim)
    (dc_pairing_method_digest claim) (dc_protected_predicate_digest claim) claim_digest
    (dc_paired_tasks claim) (dc_protected_losses claim) (dc_lower_confidence_gain_ppm claim)
    (dc_confidence_ppm claim) (evidence_digest_of evidence) (verifier_identity_digest_of evidence) d in
  Ok (certificate (DistributionalCertificate_expected_digest (certificate ZERO))).

Definition DistributionalCertificate_validate (c : DistributionalCertificate) : R () :=
  let? _ := require_nonzero
    [di_benchmark_digest c; di_comparison_identity_digest c; di_candidate_protocol_digest c;
     di_raw_baseline_identity_digest c; di_baseline_outcome_digest c; di_pairing_method_digest c;
     di_protected_predicate_digest c; di_claim_digest c; di_evidence_digest c;
     di_verifier_identity_digest c] in
  reject? (di_paired_tasks c =? 0)%N || (di_confidence_ppm c =? 0)%N ||
          (QUALITY_PPM_SCALE <=? Z.of_N (di_confidence_ppm c))%Z ||
          (di_lower_confidence_gain_ppm c <=? 0)%Z
    with InvalidDistributionalBound in
  require_version_and_digest (di_contract_version c) (di_certificate_digest c)
    (DistributionalCertificate_expected_digest c).
End Certificates.

(** * Strict admission *)

Section Admission.
Context `{Platform, Codec VerifiedEvidence}.

Definition QualityAdmission_expected_digest (a : QualityAdmission) : Digest :=
  digest_body ADMISSION_DOMAIN (Object
    [("baseline_outcome_digest", jhex (baseline_outcome_digest a));
     ("baseline_receipt_digest", jhex (baseline_receipt_digest a));
     ("candidate_identity_digest", jopt jhex (candidate_identity_digest a));
     ("candidate_outcome_digest", jopt jhex (candidate_outcome_digest a));
     ("class_certificate_digest", jopt jhex (class_certificate_digest a));
     ("comparison_identity_digest", jhex (comparison_identity_digest a));
     ("confidence_scope_digest", jopt jhex (confidence_scope_digest a));
     ("contract_version", jnum (contract_version a));
     ("evidence_class", jclass (evidence_class a));
     ("evidence_digest", jhex (evidence_digest a));
     ("guarantee", jguarantee (guarantee a));
     ("pairing_method_digest", jhex (pairing_method_digest a));
     ("protected_predicate_digest", jhex (protected_predicate_digest a));
     ("raw_baseline_identity_digest", jhex (raw_baseline_identity_digest a));
     ("scope_digest", jhex (scope_digest a));
     ("selection", jselection (selection a));
     ("strict_improvement", Bool (strict_improvement a));
     ("verifier_identity_digest", jhex (verifier_identity_digest a))]).

(** The [matches!] on class, selection and guarantee. *)
Definition coherent (c : QualityEvidenceClass) (s : QualitySelection) (g : QualityGuarantee) : bool :=
  match c, s, g with
  | ExactNeutral, Candidate, ExactSubstitution
  | PointwiseDominance, Candidate, PointwiseNoWorse
  | ScopedClassDominance, Candidate, ScopedClassNoWorse
  | Distributional, FrozenBaselineSelected, DistributionalOnly
  | Unidentified, FrozenBaselineSelected, GUnidentified => true
  | _, _, _ => false
  end.

Definition improvement_valid (a : QualityAdmission) : bool :=
  negb (strict_improvement a) ||
  match evidence_class a with PointwiseDominance | ScopedClassDominance => true | _ => false end.

Definition is_none {A} (o : option A) : bool := match o with None => true | Some _ => false end.
Definition some_zero_digest (o : option Digest) : bool :=
  match o with Some d => zero_digest d | None => false end.

Definition detail_valid (a : QualityAdmission) : bool :=
  match evidence_class a with
  | ExactNeutral =>
      bool_decide (candidate_outcome_digest a = Some (baseline_outcome_digest a)) &&
      is_none (class_certificate_digest a) && is_none (confidence_scope_digest a)
  | PointwiseDominance =>
      negb (is_none (candidate_outcome_digest a)) &&
      is_none (class_certificate_digest a) && is_none (confidence_scope_digest a)
  | ScopedClassDominance =>
      is_none (candidate_outcome_digest a) &&
      bool_decide (class_certificate_digest a = Some (evidence_digest a)) &&
      is_none (confidence_scope_digest a)
  | Distributional =>
      is_none (candidate_outcome_digest a) && is_none (class_certificate_digest a) &&
      bool_decide (confidence_scope_digest a = Some (scope_digest a))
  | Unidentified =>
      is_none (candidate_outcome_digest a) && is_none (class_certificate_digest a) &&
      is_none (confidence_scope_digest a)
  end.

Definition QualityAdmission_validate (a : QualityAdmission) : R () :=
  let? _ := require_nonzero
    [scope_digest a; comparison_identity_digest a; raw_baseline_identity_digest a;
     baseline_outcome_digest a; baseline_receipt_digest a; pairing_method_digest a;
     protected_predicate_digest a; verifier_identity_digest a; evidence_digest a] in
  reject? is_none (candidate_identity_digest a) || some_zero_digest (candidate_identity_digest a)
    with MissingBinding in
  reject? some_zero_digest (candidate_outcome_digest a) || some_zero_digest (class_certificate_digest a) ||
          some_zero_digest (confidence_scope_digest a)
    with MissingBinding in
  reject? negb (coherent (evidence_class a) (selection a) (guarantee a)) ||
          negb (improvement_valid a) || negb (detail_valid a)
    with InvalidAdmission in
  require_version_and_digest (contract_version a) (admission_digest a) (QualityAdmission_expected_digest a).

Definition FrozenBaseline_new (identity outcome receipt : Digest) : R FrozenBaseline :=
  let? _ := require_nonzero [identity; outcome; receipt] in
  Ok (mkBaseline identity outcome receipt).

(** The tuple the [match] of [admit_strict] computes. *)
Record Facts := mkFacts {
  f_scope : Digest; f_comparison : Digest; f_baseline_identity : Digest;
  f_baseline_outcome : option Digest; f_candidate_identity : option Digest;
  f_candidate_outcome : option Digest; f_pairing : Digest; f_predicate : Digest; f_verifier : Digest;
  f_class_certificate : option Digest; f_confidence_scope : option Digest;
  f_class : QualityEvidenceClass; f_selection : QualitySelection; f_guarantee : QualityGuarantee;
  f_strict : bool; f_evidence : Digest }.

Definition builtin (label : string) : Digest := concat_digest ADMISSION_DOMAIN (string_bytes label).

Definition evidence_facts (evidence : QualityEvidence) (baseline : FrozenBaseline) : R Facts :=
  match evidence with
  | EExactNeutral c =>
      let? _ := ExactNeutralCertificate_validate c in
      Ok (mkFacts (en_task_digest c) (en_comparison_identity_digest c)
            (en_raw_baseline_identity_digest c) (Some (en_protected_outcome_digest c))
            (Some (en_candidate_identity_digest c)) (Some (en_protected_outcome_digest c))
            (builtin "exact-continuation-pairing") (builtin "exact-protected-identity")
            (builtin "builtin-exact-verifier") None None ExactNeutral Candidate ExactSubstitution false
            (en_certificate_digest c))
  | EPointwiseDominance c =>
      let? _ := PointwiseDominanceCertificate_validate c in
      Ok (mkFacts (pd_task_digest c) (pd_comparison_identity_digest c)
            (pd_raw_baseline_identity_digest c) (Some (pd_baseline_outcome_digest c))
            (Some (pd_candidate_identity_digest c)) (Some (pd_candidate_outcome_digest c))
            (pd_pairing_method_digest c) (pd_protected_predicate_digest c)
            (pd_verifier_identity_digest c) None None PointwiseDominance Candidate PointwiseNoWorse
            (pd_strictly_better c) (pd_certificate_digest c))
  | EScopedClassDominance c =>
      let? _ := ScopedClassDominanceCertificate_validate c in
      Ok (mkFacts (sc_task_digest c) (sc_comparison_identity_digest c)
            (sc_raw_baseline_identity_digest c) None (Some (sc_candidate_protocol_digest c)) None
            (sc_membership_digest c) (sc_class_rule_digest c)
            (digest_body SCOPED_DOMAIN (Object
               [("class_verifier_identity_digest", jhex (sc_class_verifier_identity_digest c));
                ("membership_verifier_identity_digest", jhex (sc_membership_verifier_identity_digest c))]))
            (Some (sc_certificate_digest c)) None ScopedClassDominance Candidate ScopedClassNoWorse
            (bool_decide (sc_claim c = StrictlyBetter)) (sc_certificate_digest c))
  | EDistributional c =>
      let? _ := DistributionalCertificate_validate c in
      Ok (mkFacts (di_benchmark_digest c) (di_comparison_identity_digest c)
            (di_raw_baseline_identity_digest c) (Some (di_baseline_outcome_digest c))
            (Some (di_candidate_protocol_digest c)) None (di_pairing_method_digest c)
            (di_protected_predicate_digest c) (di_verifier_identity_digest c) None
            (Some (di_benchmark_digest c)) Distributional FrozenBaselineSelected DistributionalOnly false
            (di_certificate_digest c))
  | EUnidentified scope comparison candidate reason =>
      Ok (mkFacts scope comparison (fb_identity_digest baseline)
            (Some (fb_protected_outcome_digest baseline)) (Some candidate) None
            (builtin "unidentified-pairing") (builtin "unidentified-protected-predicate")
            (builtin "builtin-fallback-verifier") None None Unidentified FrozenBaselineSelected
            GUnidentified false
            (digest_body ADMISSION_DOMAIN (Object
               [("candidate_identity_digest", jhex candidate);
                ("comparison_identity_digest", jhex comparison); ("reason", jreason reason);
                ("scope_digest", jhex scope)])))
  end.

Definition admit_strict (evidence : QualityEvidence) (baseline : FrozenBaseline) : R QualityAdmission :=
  let? f := evidence_facts evidence baseline in
  reject? negb (bool_decide (f_baseline_identity f = fb_identity_digest baseline)) ||
          match f_baseline_outcome f with
          | Some d => negb (bool_decide (d = fb_protected_outcome_digest baseline))
          | None => false
          end
    with BaselineBindingMismatch in
  let admission d := mkAdmission QUALITY_ENVELOPE_CONTRACT_VERSION (f_scope f) (f_comparison f)
    (fb_identity_digest baseline) (fb_protected_outcome_digest baseline) (fb_receipt_digest baseline)
    (f_candidate_identity f) (f_candidate_outcome f) (f_pairing f) (f_predicate f) (f_verifier f)
    (f_class_certificate f) (f_confidence_scope f) (f_class f) (f_selection f) (f_guarantee f)
    (f_strict f) (f_evidence f) d in
  let a := admission (QualityAdmission_expected_digest (admission ZERO)) in
  let? _ := QualityAdmission_validate a in
  Ok a.

Definition QualityAdmission_record (a : QualityAdmission) : QualityAdmissionRecord := a.
Definition QualityAdmissionRecord_validate (r : QualityAdmissionRecord) : R () := QualityAdmission_validate r.
End Admission.

(** * What a certificate shows *)

(** The Pareto order on one protected metric. *)
Definition at_least_as_good (m : ProtectedMetric) : Prop :=
  match order m with
  | AtLeast => (baseline_value m <= candidate_value m)%Z
  | AtMost => (candidate_value m <= baseline_value m)%Z
  | Exact => candidate_value m = baseline_value m
  end.

Definition better (m : ProtectedMetric) : Prop :=
  match order m with
  | AtLeast => (baseline_value m < candidate_value m)%Z
  | AtMost => (candidate_value m < baseline_value m)%Z
  | Exact => False
  end.

Lemma no_worse_spec (m : ProtectedMetric) : no_worse m = true <-> at_least_as_good m.
Proof. unfold no_worse, at_least_as_good. destruct (order m); lia. Qed.

Lemma metric_strictly_better_spec (m : ProtectedMetric) : metric_strictly_better m = true <-> better m.
Proof. unfold metric_strictly_better, better. destruct (order m); lia. Qed.

Lemma ProtectedMetric_validate_spec (m : ProtectedMetric) :
  ProtectedMetric_validate m = Ok () <-> validate_id (metric_id m) = Ok () /\ at_least_as_good m.
Proof.
  unfold ProtectedMetric_validate. rewrite bind_unit_Ok, <- no_worse_spec. destruct (no_worse m); naive_solver.
Qed.

(** The loop accepts exactly the ascending vectors of valid metrics. *)
Lemma pareto_loop_spec (previous : option string) (l : list ProtectedMetric) :
  pareto_loop previous l = Ok () <->
  (forall m, m ∈ l -> ProtectedMetric_validate m = Ok ()) /\
  strictly_ascending (match previous with Some p => p :: (metric_id <$> l) | None => metric_id <$> l end)
    = true.
Proof.
  revert previous. induction l as [|m l IH]; intros previous; cbn [pareto_loop].
  { split; [intros _|done]. split; [|by destruct previous]. intros m Hm. by apply elem_of_nil in Hm. }
  rewrite bind_unit_Ok. setoid_rewrite elem_of_cons. destruct previous as [p|].
  - cbn [fmap list_fmap].
    change (strictly_ascending (p :: metric_id m :: (metric_id <$> l))) with
      (ltb p (metric_id m) && strictly_ascending (metric_id m :: (metric_id <$> l))).
    unfold geb. destruct (ltb p (metric_id m)); cbn [negb andb]; [rewrite IH|].
    all: naive_solver.
  - rewrite IH. cbn [fmap list_fmap]. naive_solver.
Qed.

Lemma QualityPair_validate_pareto (p : QualityPair) :
  QualityPair_validate p = Ok () ->
  qp_dimensions p <> [] /\ NoDup (metric_id <$> qp_dimensions p) /\
  (forall m, m ∈ qp_dimensions p -> at_least_as_good m).
Proof.
  unfold QualityPair_validate, require_declared_pareto_vector. intros Hok. repeat inv_ok1. breflect.
  apply pareto_loop_spec in Hok as [Hm Hs]. split_and!.
  - intros Hn. by rewrite Hn in *.
  - by apply sorted_NoDup, strictly_ascending_spec.
  - intros m Hin. by apply ProtectedMetric_validate_spec, Hm.
Qed.

Section Guarantees.
Context `{Platform, Codec VerifiedEvidence}.

(** A pointwise certificate is a Pareto statement about the paired
    outcome its evidence carries.  The verified payload is byte for byte the
    canonical pair, the candidate regresses on no protected metric, metric
    ids are distinct, and the strict flag is set exactly when some metric
    improves. *)
Theorem pointwise_certificate_sound (pair : QualityPair) (predicate : Digest)
  (evidence : VerifiedEvidence) (c : PointwiseDominanceCertificate) :
  PointwiseDominanceCertificate_verify pair predicate evidence = Ok c ->
  canonical_bytes (jpair pair) = Ok (Evidence.payload evidence) /\
  (forall m, m ∈ qp_dimensions pair -> at_least_as_good m) /\
  NoDup (metric_id <$> qp_dimensions pair) /\
  (pd_strictly_better c = true <-> exists m, m ∈ qp_dimensions pair /\ better m) /\
  qp_raw_baseline_identity_digest pair <> qp_candidate_identity_digest pair /\
  pd_pair_digest c = concat_digest PAIR_DOMAIN (Evidence.payload evidence) /\
  pd_candidate_outcome_digest c = qp_candidate_outcome_digest pair /\
  pd_baseline_outcome_digest c = qp_baseline_outcome_digest pair.
Proof.
  unfold PointwiseDominanceCertificate_verify. intros Hok. repeat inv_ok1.
  repeat match goal with u : () |- _ => destruct u end.
  match goal with H : QualityPair_validate _ = Ok () |- _ =>
    rename H into Hv; destruct (QualityPair_validate_pareto _ Hv) as (_ & Hnd & Hall) end.
  assert (Hdist : qp_raw_baseline_identity_digest pair <> qp_candidate_identity_digest pair).
  { unfold QualityPair_validate, require_distinct in Hv. repeat inv_ok1. by breflect. }
  unfold QualityPair_digest, QualityPair_canonical_bytes, require_exact_payload in *. repeat inv_ok1.
  repeat match goal with u : () |- _ => destruct u end. breflect. subst.
  repeat match goal with H : canonical_bytes (jpair pair) = Ok _, K : canonical_bytes (jpair pair) = Ok _ |- _ =>
    rewrite H in K; injection K as <- end.
  split_and!; try done. cbn [pd_strictly_better]. unfold QualityPair_strictly_better.
  rewrite existsb_exists. setoid_rewrite list_elem_of_In. setoid_rewrite metric_strictly_better_spec. done.
Qed.

(** A distributional claim is accepted only for a population in which
    the candidate wins more often than it loses.  The counts partition the
    paired tasks, the mean is the truncated paired gain in parts per million
    (computed without overflow in 128 bits), and the confidence bound is
    positive and below it. *)
Theorem distributional_claim_bounds (c : DistributionalClaim) :
  DistributionalClaim_validate c = Ok () ->
  let n := Z.of_N (dc_paired_tasks c) in
  let delta := (Z.of_N (dc_candidate_wins c) - Z.of_N (dc_protected_losses c))%Z in
  (dc_candidate_wins c + dc_protected_losses c + dc_ties c = dc_paired_tasks c)%N /\
  (dc_protected_losses c < dc_candidate_wins c)%N /\
  (0 < dc_lower_confidence_gain_ppm c <= dc_mean_gain_ppm c)%Z /\
  (dc_mean_gain_ppm c <= QUALITY_PPM_SCALE)%Z /\
  (dc_mean_gain_ppm c * n <= delta * QUALITY_PPM_SCALE < (dc_mean_gain_ppm c + 1) * n)%Z /\
  (Z.abs (delta * QUALITY_PPM_SCALE) < 2 ^ 127)%Z.
Proof.
  unfold DistributionalClaim_validate, in_ppm. intros Hok. repeat inv_ok1. breflect.
  unfold checked_add_u64 in *. unfold QUALITY_PPM_SCALE in *.
  destruct (N.leb_spec (dc_candidate_wins c + dc_protected_losses c) U64_MAX); [|done].
  cbn [mbind option_bind] in *.
  destruct (N.leb_spec (dc_candidate_wins c + dc_protected_losses c + dc_ties c) U64_MAX) as [Hu|]; [|done].
  simplify_eq. cbn zeta.
  set (n := Z.of_N (dc_paired_tasks c)) in *.
  set (delta := (Z.of_N (dc_candidate_wins c) - Z.of_N (dc_protected_losses c))%Z) in *.
  assert (Hn : (0 < n)%Z) by lia.
  assert (Hpos : (0 < dc_mean_gain_ppm c)%Z) by lia.
  assert (Hm : dc_mean_gain_ppm c = (delta * 1000000 ÷ n)%Z) by lia.
  assert (Hd : (0 < delta)%Z).
  { destruct (Z.le_gt_cases delta 0) as [Hle|]; [|done].
    assert (delta * 1000000 ÷ n <= 0)%Z; [|lia].
    replace (delta * 1000000)%Z with (- (- delta * 1000000))%Z by lia.
    rewrite Z.quot_opp_l by lia. assert (0 <= - delta * 1000000 ÷ n)%Z by (apply Z.quot_pos; lia). lia. }
  rewrite Z.quot_div_nonneg in Hm by lia.
  pose proof (Z.mul_div_le (delta * 1000000) n Hn) as Hlo.
  pose proof (Z.mul_succ_div_gt (delta * 1000000) n Hn) as Hhi.
  assert (Hb : (delta < 2 ^ 64)%Z) by (unfold U64_MAX in *; lia).
  split_and!; try lia.
Qed.

(** Strict admission selects the candidate exactly for individual
    evidence.  Population-only and unidentified evidence keep the frozen
    baseline; an exact substitution has the baseline's own protected
    outcome; strict improvement is claimed only under dominance evidence;
    and the admission is bound to the frozen baseline it was given. *)
Theorem quality_selection_exact (evidence : QualityEvidence) (baseline : FrozenBaseline)
  (a : QualityAdmission) :
  admit_strict evidence baseline = Ok a ->
  QualityAdmission_validate a = Ok () /\
  (selection a = Candidate <->
   match evidence with
   | EExactNeutral _ | EPointwiseDominance _ | EScopedClassDominance _ => True
   | EDistributional _ | EUnidentified _ _ _ _ => False
   end) /\
  (forall c, evidence = EExactNeutral c -> candidate_outcome_digest a = Some (baseline_outcome_digest a)) /\
  (strict_improvement a = true ->
   (exists c, evidence = EPointwiseDominance c /\ pd_strictly_better c = true) \/
   (exists c, evidence = EScopedClassDominance c /\ sc_claim c = StrictlyBetter)) /\
  raw_baseline_identity_digest a = fb_identity_digest baseline /\
  baseline_outcome_digest a = fb_protected_outcome_digest baseline /\
  baseline_receipt_digest a = fb_receipt_digest baseline.
Proof.
  unfold admit_strict. intros Hok. repeat inv_ok1. repeat match goal with u : () |- _ => destruct u end.
  split; [done|]. clear Ha0.
  cbn [selection candidate_outcome_digest baseline_outcome_digest strict_improvement
       raw_baseline_identity_digest baseline_receipt_digest].
  unfold evidence_facts in Ha. destruct evidence; repeat inv_ok1; breflect;
    cbn [f_selection f_candidate_outcome f_strict f_baseline_outcome] in *; breflect;
    split_and!; try done; try naive_solver.
  - intros c _. by f_equal.
  - intros Hs. breflect. eauto.
Qed.

(** An accepted pair encoding is the canonical one: decoding any bytes to
    a pair means the pair is valid and re-encodes to exactly those bytes, so
    no two accepted byte strings decode to the same pair. *)
Theorem pair_encoding_canonical `{FromSlice QualityPair} (b : bytes) (p : QualityPair) :
  QualityPair_from_canonical_bytes b = Ok p ->
  QualityPair_validate p = Ok () /\ QualityPair_canonical_bytes p = Ok b /\
  (forall b', QualityPair_from_canonical_bytes b' = Ok p -> b' = b).
Proof.
  assert (Hinv : forall b', QualityPair_from_canonical_bytes b' = Ok p ->
    QualityPair_validate p = Ok () /\ QualityPair_canonical_bytes p = Ok b').
  { intros b' Hb. unfold QualityPair_from_canonical_bytes in Hb. repeat inv_ok1. breflect. subst.
    repeat match goal with u : () |- _ => destruct u end. done. }
  intros Hb. destruct (Hinv b Hb) as [Hv Hc]. split_and!; [done..|].
  intros b' Hb'. destruct (Hinv b' Hb') as [_ Hc']. congruence.
Qed.
End Guarantees.

(** * A concrete pair, population and admission *)

Module Toy.
#[local] Instance toy_platform : Platform :=
  {| sha256 := Zbf.toy_sha256; json_string := Zbf.toy_json_string |}.
#[local] Instance toy_codec : Codec VerifiedEvidence :=
  {| encode := fun c => Evidence.payload c; decode := fun _ => None |}.

Definition d (n : N) : Digest := repeat (ascii_of_N n) 32.

Definition toy_pair : QualityPair :=
  mkPair 1 (d 1) (d 2) (d 3) (d 4) (d 5) (d 6) (d 7) (d 8)
    [mkMetric "latency_ms" AtMost 120 95; mkMetric "tests_passed" AtLeast 40 40].
Definition pair_bytes : bytes := canonical_bytes_of (jpair toy_pair).

(** [serde_json::from_slice], known to parse one document. *)
#[local] Instance toy_from_slice : FromSlice QualityPair :=
  fun b => if bool_decide (b = pair_bytes) then Some toy_pair else None.

Definition evidence : VerifiedEvidence :=
  Evidence.mkEvidence (Evidence.QTestTrace 1) [] pair_bytes
    (Evidence.mkProvenance "parser" "1" "index" "1" "runner" "1")
    (Evidence.WTestTrace (Evidence.mkLock "runner" "1") 1 0 (d 9)) 0 0.

Definition toy_certificate : PointwiseDominanceCertificate :=
  match PointwiseDominanceCertificate_verify toy_pair (d 10) evidence with
  | Ok c => c
  | Err _ => mkPointwise 0 [] [] [] [] [] [] [] [] [] [] [] false []
  end.

Lemma pointwise_certificate_sound_witness :
  PointwiseDominanceCertificate_verify toy_pair (d 10) evidence = Ok toy_certificate /\
  (pd_strictly_better toy_certificate = true <-> exists m, m ∈ qp_dimensions toy_pair /\ better m).
Proof.
  assert (Hc : PointwiseDominanceCertificate_verify toy_pair (d 10) evidence = Ok toy_certificate)
    by (vm_compute; reflexivity).
  split; [exact Hc|]. exact (proj1 (proj2 (proj2 (proj2 (pointwise_certificate_sound _ _ _ _ Hc))))).
Defined.

(** 30 wins, 10 losses and 24 ties of 64 tasks: a mean gain of 312,500 ppm. *)
Definition toy_claim : DistributionalClaim :=
  mkClaim 1 (d 1) (d 2) (d 3) (d 4) (d 5) (d 6) (d 7) (d 8) 64 30 10 24 312500 90000 950000.

Lemma distributional_claim_bounds_witness :
  DistributionalClaim_validate toy_claim = Ok () /\
  (dc_protected_losses toy_claim < dc_candidate_wins toy_claim)%N.
Proof.
  assert (Hv : DistributionalClaim_validate toy_claim = Ok ()) by (vm_compute; reflexivity).
  split; [exact Hv|]. exact (proj1 (proj2 (distributional_claim_bounds toy_claim Hv))).
Defined.

Definition toy_baseline : FrozenBaseline := mkBaseline (d 3) (d 5) (d 11).
Definition toy_admission : QualityAdmission :=
  match admit_strict (EPointwiseDominance toy_certificate) toy_baseline with
  | Ok a => a
  | Err _ => mkAdmission 0 [] [] [] [] [] None None [] [] [] None None Unidentified
               FrozenBaselineSelected GUnidentified false [] []
  end.

Lemma quality_selection_exact_witness :
  admit_strict (EPointwiseDominance toy_certificate) toy_baseline = Ok toy_admission /\
  selection toy_admission = Candidate.
Proof.
  assert (Ha : admit_strict (EPointwiseDominance toy_certificate) toy_baseline = Ok toy_admission)
    by (vm_compute; reflexivity).
  split; [exact Ha|]. apply (proj1 (proj2 (quality_selection_exact _ _ _ Ha))). exact I.
Defined.

Lemma pair_encoding_canonical_witness :
  QualityPair_from_canonical_bytes pair_bytes = Ok toy_pair /\
  QualityPair_canonical_bytes toy_pair = Ok pair_bytes.
Proof.
  assert (Hb : QualityPair_from_canonical_bytes pair_bytes = Ok toy_pair) by (vm_compute; reflexivity).
  split; [exact Hb|]. exact (proj1 (proj2 (pair_encoding_canonical _ _ Hb))).
Defined.
End Toy.
