(* ===== verification/SemanticCut.v ===== *)
(** Exact reasoning-epoch contraction ([zero-gate/src/semantic_cut.rs]):
    safepoints, the semantic-cut claim that a compiled plan ends in the
    baseline's own terminal state, and the evidence that binds a claim to a
    verified payload.

    Digests of this module are byte arrays and serialize as arrays of
    numbers; an error is its failure code. *)

From S2P Require Import Prelude.
From S2P Require Import Canonical.
From S2P Require Import DurableStore.
From S2P Require Import Identity.
From S2P Require Evidence.
From S2P Require Zbf.

Notation SemanticCutDigest := Digest.
Notation VerifiedEvidence := Evidence.EvidenceCertificate.

Definition SEMANTIC_CUT_CONTRACT_VERSION : N := 1.
Definition SEMANTIC_CUT_SCHEMA_VERSION : string := "racc-r-semantic-cut".
Definition SEMANTIC_CUT_MAX_CANONICAL_BYTES : N := 64 * 1024.

Definition CLAIM_DOMAIN : bytes := domain "zerostack.semantic_cut.claim".
Definition CERTIFICATE_DOMAIN : bytes := domain "zerostack.semantic_cut.certificate".
Definition RCQ_DOMAIN : bytes := domain "zerostack.semantic_cut.rcq_identity".
Definition PROJECT_RELATION_DOMAIN : bytes := domain "zerostack.semantic_cut.project_relation".
Definition EFFECT_RELATION_DOMAIN : bytes := domain "zerostack.semantic_cut.effect_relation".
Definition VERIFIER_DOMAIN : bytes := domain "zerostack.semantic_cut.verifier_identity".

(** * Data *)

Inductive ReasoningStateStatus :=
| ExactPreserved | ExactCleanRestart | ScopedEquivalent | Approximate | Unavailable | Expired
| IdentityMismatch.

Inductive SemanticAuthority := DeterministicOnly | TaskSemanticSelection.

#[global] Instance ReasoningStateStatus_eq_dec : EqDecision ReasoningStateStatus.
Proof. solve_decision. Defined.
#[global] Instance SemanticAuthority_eq_dec : EqDecision SemanticAuthority.
Proof. solve_decision. Defined.

Inductive SemanticCutFailureCode :=
| SchemaVersionMismatch | MissingBinding | SemanticAuthorityCrossing | ContinuationNotExact
| TerminalStateMismatch | ExternalEffectMismatch | AttributionMismatch | CanonicalPayloadTooLarge
| NonCanonicalEncoding | EvidencePayloadMismatch | UnsupportedEvidenceClass
| CertificateDigestMismatch | SerializationFailure.

Notation R := (result SemanticCutFailureCode).

Record ReasoningSafepoint := mkSafepoint {
  sp_schema_version : string;
  project_control_root : SemanticCutDigest;
  world_fiber_digest : SemanticCutDigest;
  evidence_state_digest : SemanticCutDigest;
  sp_reasoning_contract_digest : SemanticCutDigest;
  sp_fixed_model_digest : SemanticCutDigest;
  opaque_reasoning_state_digest : SemanticCutDigest;
  reasoning_state_status : ReasoningStateStatus;
  open_obligations_digest : SemanticCutDigest;
  resource_risk_reserve_digest : SemanticCutDigest;
  baseline_replay_cursor_digest : SemanticCutDigest;
  transaction_root_digest : SemanticCutDigest;
  receipt_head_digest : SemanticCutDigest }.

Record SemanticCutClaim := mkCutClaim {
  schema_version : string;
  input_project_control_root : SemanticCutDigest;
  baseline_epoch_class_digest : SemanticCutDigest;
  compiled_plan_digest : SemanticCutDigest;
  semantic_authority : SemanticAuthority;
  baseline_terminal : ReasoningSafepoint;
  compiled_terminal : ReasoningSafepoint;
  baseline_external_effects_digest : SemanticCutDigest;
  compiled_external_effects_digest : SemanticCutDigest;
  baseline_attribution_identity_digest : SemanticCutDigest;
  compiled_attribution_identity_digest : SemanticCutDigest;
  baseline_resource_receipt_digest : SemanticCutDigest;
  compiled_resource_receipt_digest : SemanticCutDigest;
  comparison_identity_digest : SemanticCutDigest;
  certificate_scope_digest : SemanticCutDigest;
  deoptimization_map_digest : SemanticCutDigest }.

(** [SemanticCutEvidence] and its public [SemanticCutCertificateRecord] have
    the same fields. *)
Record SemanticCutEvidence := mkCut {
  contract_version : N;
  claim : SemanticCutClaim;
  claim_digest : SemanticCutDigest;
  evidence_digest : SemanticCutDigest;
  verifier_identity_digest : SemanticCutDigest;
  certificate_digest : SemanticCutDigest }.

Notation SemanticCutCertificateRecord := SemanticCutEvidence.

#[global] Instance ReasoningSafepoint_eq_dec : EqDecision ReasoningSafepoint.
Proof. solve_decision. Defined.

(** * Wire form *)

Definition jstatus (s : ReasoningStateStatus) : Value :=
  VString match s with
  | ExactPreserved => "exact_preserved" | ExactCleanRestart => "exact_clean_restart"
  | ScopedEquivalent => "scoped_equivalent" | Approximate => "approximate"
  | Unavailable => "unavailable" | Expired => "expired" | IdentityMismatch => "identity_mismatch"
  end.

Definition jauthority (a : SemanticAuthority) : Value :=
  VString match a with
  | DeterministicOnly => "deterministic_only" | TaskSemanticSelection => "task_semantic_selection"
  end.

Definition jsafepoint (s : ReasoningSafepoint) : Value :=
  Object [("schema_version", VString (sp_schema_version s));
          ("project_control_root", jbytes (project_control_root s));
          ("world_fiber_digest", jbytes (world_fiber_digest s));
          ("evidence_state_digest", jbytes (evidence_state_digest s));
          ("reasoning_contract_digest", jbytes (sp_reasoning_contract_digest s));
          ("fixed_model_digest", jbytes (sp_fixed_model_digest s));
          ("opaque_reasoning_state_digest", jbytes (opaque_reasoning_state_digest s));
          ("reasoning_state_status", jstatus (reasoning_state_status s));
          ("open_obligations_digest", jbytes (open_obligations_digest s));
          ("resource_risk_reserve_digest", jbytes (resource_risk_reserve_digest s));
          ("baseline_replay_cursor_digest", jbytes (baseline_replay_cursor_digest s));
          ("transaction_root_digest", jbytes (transaction_root_digest s));
          ("receipt_head_digest", jbytes (receipt_head_digest s))].

Definition jcut_claim (c : SemanticCutClaim) : Value :=
  Object [("schema_version", VString (schema_version c));
          ("input_project_control_root", jbytes (input_project_control_root c));
          ("baseline_epoch_class_digest", jbytes (baseline_epoch_class_digest c));
          ("compiled_plan_digest", jbytes (compiled_plan_digest c));
          ("semantic_authority", jauthority (semantic_authority c));
          ("baseline_terminal", jsafepoint (baseline_terminal c));
          ("compiled_terminal", jsafepoint (compiled_terminal c));
          ("baseline_external_effects_digest", jbytes (baseline_external_effects_digest c));
          ("compiled_external_effects_digest", jbytes (compiled_external_effects_digest c));
          ("baseline_attribution_identity_digest", jbytes (baseline_attribution_identity_digest c));
          ("compiled_attribution_identity_digest", jbytes (compiled_attribution_identity_digest c));
          ("baseline_resource_receipt_digest", jbytes (baseline_resource_receipt_digest c));
          ("compiled_resource_receipt_digest", jbytes (compiled_resource_receipt_digest c));
          ("comparison_identity_digest", jbytes (comparison_identity_digest c));
          ("certificate_scope_digest", jbytes (certificate_scope_digest c));
          ("deoptimization_map_digest", jbytes (deoptimization_map_digest c))].

(** * Validation *)

Definition require_nonzero (d : SemanticCutDigest) : R () := reject? zero_digest d with MissingBinding in Ok ().

Definition safepoint_digests (s : ReasoningSafepoint) : list SemanticCutDigest :=
  [project_control_root s; world_fiber_digest s; evidence_state_digest s;
   sp_reasoning_contract_digest s; sp_fixed_model_digest s; opaque_reasoning_state_digest s;
   open_obligations_digest s; resource_risk_reserve_digest s; baseline_replay_cursor_digest s;
   transaction_root_digest s; receipt_head_digest s].

Definition ReasoningSafepoint_validate (s : ReasoningSafepoint) : R () :=
  guard? bool_decide (sp_schema_version s = SEMANTIC_CUT_SCHEMA_VERSION) else SchemaVersionMismatch in
  for_each require_nonzero (safepoint_digests s).

Definition ReasoningSafepoint_new (project world evidence reasoning model opaque : SemanticCutDigest)
  (status : ReasoningStateStatus) (obligations reserve cursor transaction receipt : SemanticCutDigest)
  : R ReasoningSafepoint :=
  let value := mkSafepoint SEMANTIC_CUT_SCHEMA_VERSION project world evidence reasoning model opaque
    status obligations reserve cursor transaction receipt in
  let? _ := ReasoningSafepoint_validate value in
  Ok value.

(** Everything but the status and the receipt head. *)
Definition exact_continuation_equal (a b : ReasoningSafepoint) : bool :=
  bool_decide (project_control_root a = project_control_root b) &&
  bool_decide (world_fiber_digest a = world_fiber_digest b) &&
  bool_decide (evidence_state_digest a = evidence_state_digest b) &&
  bool_decide (sp_reasoning_contract_digest a = sp_reasoning_contract_digest b) &&
  bool_decide (sp_fixed_model_digest a = sp_fixed_model_digest b) &&
  bool_decide (opaque_reasoning_state_digest a = opaque_reasoning_state_digest b) &&
  bool_decide (open_obligations_digest a = open_obligations_digest b) &&
  bool_decide (resource_risk_reserve_digest a = resource_risk_reserve_digest b) &&
  bool_decide (baseline_replay_cursor_digest a = baseline_replay_cursor_digest b) &&
  bool_decide (transaction_root_digest a = transaction_root_digest b).

Definition claim_digests (c : SemanticCutClaim) : list SemanticCutDigest :=
  [input_project_control_root c; baseline_epoch_class_digest c; compiled_plan_digest c;
   baseline_external_effects_digest c; compiled_external_effects_digest c;
   baseline_attribution_identity_digest c; compiled_attribution_identity_digest c;
   baseline_resource_receipt_digest c; compiled_resource_receipt_digest c;
   comparison_identity_digest c; certificate_scope_digest c; deoptimization_map_digest c].

Definition validate_exact (c : SemanticCutClaim) : R () :=
  guard? bool_decide (schema_version c = SEMANTIC_CUT_SCHEMA_VERSION) else SchemaVersionMismatch in
  let? _ := ReasoningSafepoint_validate (baseline_terminal c) in
  let? _ := ReasoningSafepoint_validate (compiled_terminal c) in
  let? _ := for_each require_nonzero (claim_digests c) in
  guard? bool_decide (semantic_authority c = DeterministicOnly) else SemanticAuthorityCrossing in
  guard? bool_decide (reasoning_state_status (baseline_terminal c) = ExactPreserved) &&
         bool_decide (reasoning_state_status (compiled_terminal c) = ExactPreserved)
    else ContinuationNotExact in
  guard? exact_continuation_equal (baseline_terminal c) (compiled_terminal c)
    else TerminalStateMismatch in
  guard? bool_decide (baseline_external_effects_digest c = compiled_external_effects_digest c)
    else ExternalEffectMismatch in
  guard? bool_decide (baseline_attribution_identity_digest c = compiled_attribution_identity_digest c)
    else AttributionMismatch in
  Ok ().

Definition new_exact (input epoch plan : SemanticCutDigest) (baseline compiled : ReasoningSafepoint)
  (baseline_effects compiled_effects baseline_attribution compiled_attribution baseline_resource
   compiled_resource comparison scope deopt : SemanticCutDigest) : R SemanticCutClaim :=
  let c := mkCutClaim SEMANTIC_CUT_SCHEMA_VERSION input epoch plan DeterministicOnly baseline compiled
    baseline_effects compiled_effects baseline_attribution compiled_attribution baseline_resource
    compiled_resource comparison scope deopt in
  let? _ := validate_exact c in
  Ok c.

Section Cuts.
Context `{Platform, Codec VerifiedEvidence}.

Definition canonical_bytes (v : Value) : R bytes :=
  let b := canonical_bytes_of v in
  reject? (SEMANTIC_CUT_MAX_CANONICAL_BYTES <? len b)%N with CanonicalPayloadTooLarge in
  Ok b.

Definition decode_canonical {T} `{FromSlice T} (to_value : T -> Value) (b : bytes) : R T :=
  reject? (SEMANTIC_CUT_MAX_CANONICAL_BYTES <? len b)%N with CanonicalPayloadTooLarge in
  let? value := ok_or (from_slice b) SerializationFailure in
  let? canonical := canonical_bytes (to_value value) in
  guard? bool_decide (canonical = b) else NonCanonicalEncoding in
  Ok value.

Definition digest_serialized (dom : bytes) (v : Value) : R SemanticCutDigest :=
  let? b := canonical_bytes v in
  Ok (digest_parts dom [b]).

Definition digest_value (dom : bytes) (v : Value) : SemanticCutDigest :=
  digest_parts dom [canonical_bytes_of v].

Definition ReasoningSafepoint_from_canonical_bytes `{FromSlice ReasoningSafepoint} (b : bytes)
  : R ReasoningSafepoint :=
  let? safepoint := decode_canonical jsafepoint b in
  let? _ := ReasoningSafepoint_validate safepoint in
  Ok safepoint.

Definition ReasoningSafepoint_digest (s : ReasoningSafepoint) : R SemanticCutDigest :=
  digest_serialized (domain "zerostack.semantic_cut.safepoint") (jsafepoint s).

Definition SemanticCutClaim_from_canonical_bytes `{FromSlice SemanticCutClaim} (b : bytes)
  : R SemanticCutClaim :=
  let? c := decode_canonical jcut_claim b in
  let? _ := validate_exact c in
  Ok c.

Definition SemanticCutClaim_digest (c : SemanticCutClaim) : R SemanticCutDigest :=
  digest_serialized CLAIM_DOMAIN (jcut_claim c).

Definition terminal_rcq_identity_digest (c : SemanticCutClaim) : SemanticCutDigest :=
  let t := compiled_terminal c in
  digest_parts RCQ_DOMAIN
    [sp_fixed_model_digest t; sp_reasoning_contract_digest t; opaque_reasoning_state_digest t].

Definition terminal_project_relation_digest (c : SemanticCutClaim) : SemanticCutDigest :=
  digest_parts PROJECT_RELATION_DOMAIN
    [project_control_root (baseline_terminal c); project_control_root (compiled_terminal c)].

Definition external_effect_relation_digest (c : SemanticCutClaim) : SemanticCutDigest :=
  digest_parts EFFECT_RELATION_DOMAIN
    [baseline_external_effects_digest c; compiled_external_effects_digest c].

Definition semantic_cut_verifier_identity (evidence : VerifiedEvidence) : SemanticCutDigest :=
  let p := Evidence.provenance evidence in
  digest_value VERIFIER_DOMAIN (Object
    [("index_id", VString (Evidence.index_id p)); ("index_version", VString (Evidence.index_version p));
     ("operator_id", VString (Evidence.operator_id p));
     ("operator_version", VString (Evidence.operator_version p));
     ("parser_id", VString (Evidence.parser_id p)); ("parser_version", VString (Evidence.parser_version p))]).

Definition certificate_digest_of (version : N) (claim evidence verifier rcq : SemanticCutDigest)
  : SemanticCutDigest :=
  digest_parts CERTIFICATE_DOMAIN [to_be 2 version; claim; evidence; verifier; rcq].

(** The query and witness pair that can carry a cut. *)
Definition successful_receipt (evidence : VerifiedEvidence) : bool :=
  match Evidence.query evidence, Evidence.completeness evidence with
  | Evidence.QBuildReceipt _, Evidence.WBuildReceipt _ _ exit_code _ _
  | Evidence.QTestTrace _, Evidence.WTestTrace _ _ exit_code _ => (exit_code =? 0)%Z
  | _, _ => false
  end.

Definition verify_owner_scoped (c : SemanticCutClaim) (evidence : VerifiedEvidence)
  : R SemanticCutEvidence :=
  let? _ := validate_exact c in
  guard? successful_receipt evidence else UnsupportedEvidenceClass in
  let? canonical_claim := canonical_bytes (jcut_claim c) in
  guard? bool_decide (Evidence.payload evidence = canonical_claim) else EvidencePayloadMismatch in
  let? digest := SemanticCutClaim_digest c in
  let evidence_digest := Evidence.canonical_digest evidence in
  let verifier := semantic_cut_verifier_identity evidence in
  Ok (mkCut SEMANTIC_CUT_CONTRACT_VERSION c digest evidence_digest verifier
        (certificate_digest_of SEMANTIC_CUT_CONTRACT_VERSION digest evidence_digest verifier
           (terminal_rcq_identity_digest c))).

Definition SemanticCutEvidence_validate (e : SemanticCutEvidence) : R () :=
  guard? (contract_version e =? SEMANTIC_CUT_CONTRACT_VERSION)%N else SchemaVersionMismatch in
  let? _ := validate_exact (claim e) in
  let? _ := require_nonzero (evidence_digest e) in
  let? _ := require_nonzero (verifier_identity_digest e) in
  let? digest := SemanticCutClaim_digest (claim e) in
  guard? bool_decide (digest = claim_digest e) &&
         bool_decide (certificate_digest_of (contract_version e) (claim_digest e) (evidence_digest e)
                        (verifier_identity_digest e) (terminal_rcq_identity_digest (claim e))
                      = certificate_digest e)
    else CertificateDigestMismatch in
  Ok ().

Definition SemanticCutEvidence_record (e : SemanticCutEvidence) : SemanticCutCertificateRecord := e.
Definition SemanticCutCertificateRecord_validate (r : SemanticCutCertificateRecord) : R () :=
  SemanticCutEvidence_validate r.
End Cuts.

(** * What an exact claim states *)

(** The same safepoint with another receipt head. *)
Definition with_receipt_head (s : ReasoningSafepoint) (head : SemanticCutDigest) : ReasoningSafepoint :=
  mkSafepoint (sp_schema_version s) (project_control_root s) (world_fiber_digest s)
    (evidence_state_digest s) (sp_reasoning_contract_digest s) (sp_fixed_model_digest s)
    (opaque_reasoning_state_digest s) (reasoning_state_status s) (open_obligations_digest s)
    (resource_risk_reserve_digest s) (baseline_replay_cursor_digest s) (transaction_root_digest s) head.

Definition all_bound (l : list SemanticCutDigest) : Prop := forall d, d ∈ l -> d <> ZERO.

Lemma require_nonzero_Ok d : require_nonzero d = Ok () <-> d <> ZERO.
Proof.
  unfold require_nonzero, zero_digest. destruct (decide (d = ZERO)) as [->|Hd].
  - rewrite bool_decide_eq_true_2 by done. naive_solver.
  - by rewrite bool_decide_eq_false_2.
Qed.

Lemma require_all_nonzero (l : list SemanticCutDigest) : for_each require_nonzero l = Ok () <-> all_bound l.
Proof. rewrite for_each_Ok. unfold all_bound. by setoid_rewrite require_nonzero_Ok. Qed.

Lemma ReasoningSafepoint_validate_Ok (s : ReasoningSafepoint) :
  ReasoningSafepoint_validate s = Ok () <->
  sp_schema_version s = SEMANTIC_CUT_SCHEMA_VERSION /\ all_bound (safepoint_digests s).
Proof.
  unfold ReasoningSafepoint_validate. rewrite <- require_all_nonzero.
  destruct (decide (sp_schema_version s = SEMANTIC_CUT_SCHEMA_VERSION)).
  - rewrite bool_decide_eq_true_2 by done. naive_solver.
  - rewrite bool_decide_eq_false_2 by done. naive_solver.
Qed.

(** [validate_exact] accepts a claim exactly when the compiled plan ends
    in the baseline's terminal state: every safepoint field agrees but the
    receipt head, both reasoning states are preserved exactly, the plan
    exercised no semantic authority, external effects and attribution are
    those of the baseline, and no binding is zero. *)
Theorem semantic_cut_claim_exact (c : SemanticCutClaim) :
  validate_exact c = Ok () <->
  schema_version c = SEMANTIC_CUT_SCHEMA_VERSION /\
  sp_schema_version (baseline_terminal c) = SEMANTIC_CUT_SCHEMA_VERSION /\
  baseline_terminal c = with_receipt_head (compiled_terminal c) (receipt_head_digest (baseline_terminal c)) /\
  reasoning_state_status (compiled_terminal c) = ExactPreserved /\
  semantic_authority c = DeterministicOnly /\
  baseline_external_effects_digest c = compiled_external_effects_digest c /\
  baseline_attribution_identity_digest c = compiled_attribution_identity_digest c /\
  all_bound (claim_digests c) /\ all_bound (safepoint_digests (compiled_terminal c)) /\
  receipt_head_digest (baseline_terminal c) <> ZERO.
Proof.
  unfold validate_exact, exact_continuation_equal.
  rewrite !guard_Ok, !bind_unit_Ok, !guard_Ok, !ReasoningSafepoint_validate_Ok, require_all_nonzero.
  rewrite !andb_true_iff, !bool_decide_eq_true.
  destruct (baseline_terminal c) as [bv b1 b2 b3 b4 b5 b6 bs b7 b8 b9 b10 b11],
    (compiled_terminal c) as [cv c1 c2 c3 c4 c5 c6 cs c7 c8 c9 c10 c11].
  unfold with_receipt_head, safepoint_digests. cbn. split.
  - intros (? & (? & Hb) & (? & Hc) & ? & ? & (? & ?) & Hr & ? & ? & _).
    destruct_and! Hr. subst. split_and!; try done. apply Hb. set_solver.
  - intros (? & ? & Heq & ? & ? & ? & ? & ? & Hc & Hh). injection Heq as <- <- <- <- <- <- <- <- <- <- <- <-.
    split_and!; try done. intros d Hd.
    repeat (apply elem_of_cons in Hd as [->|Hd]; [first [done | apply Hc; set_solver]|]).
    by apply elem_of_nil in Hd.
Qed.
