(* ===== verification/EffectWitness.v ===== *)
(** Effect verification outcomes ([zero-cert/src/effect_witness.rs]): the
    opaque acceptance of an effect program, and the structured witnesses of a
    rejected or incomplete verification.

    The bodies are hashed as canonical JSON; a span of a certificate is
    encoded by serde ([Codec SpanRef]).  An error is its failure code. *)

From S2P Require Import Prelude.
From S2P Require Import Ordering.
From S2P Require Import Canonical.
From S2P Require Import DurableStore.
From S2P Require Import Identity.
From S2P Require Evidence.
From S2P Require Effect.
From S2P Require ZeroRef.
From S2P Require Zbf.

Notation VerifiedEvidence := Evidence.EvidenceCertificate.
Notation EffectProgram := Effect.EffectProgram.
Notation CwirVerifierClass := Effect.CwirVerifierClass.

Definition EFFECT_WITNESS_CONTRACT_VERSION : N := 1.
Definition EFFECT_WITNESS_DOMAIN : bytes := domain "zerostack.effect_witness".
Definition EFFECT_ACCEPTED_DOMAIN : bytes := domain "zerostack.effect_verification.accepted".
Definition EFFECT_EVIDENCE_REF_DOMAIN : bytes := domain "zerostack.effect_witness.evidence_ref".
Definition EFFECT_WITNESS_MAX_CANONICAL_BYTES : N := 262144.
Definition EFFECT_WITNESS_MAX_EVIDENCE_REFS : nat := 512.
Definition EFFECT_WITNESS_MAX_EXPANSIONS : nat := 512.

(** * Data *)

Inductive EffectWitnessFailureCode :=
| UnsupportedVersion | SerializationFailure | NonCanonicalEncoding | CanonicalPayloadTooLarge
| ZeroDigest | DuplicateMember | NonCanonicalOrder | TooManyEvidenceRefs | TooManyExpansions
| InvalidLocalization | RangeOverflow | StaleEvidence | EffectStateMismatch | InvalidEffectProgram
| PredicateNotInPlan | VerificationBindingMismatch | WitnessDigestMismatch
| AcceptanceDigestMismatch.

Notation R := (result EffectWitnessFailureCode).

Inductive EffectWitnessKind :=
| PredicateMismatch | ArtifactMismatch | StaleState | CapabilityMismatch | VerificationFailure
| IncompleteCoverage | ExternalEffectUnsupported.

Inductive EffectLocalizationClass := Global | Predicate | Operation | Target | ByteRange.

Record EffectLocalization := mkLocalization {
  class : EffectLocalizationClass;
  operation_index : option N;
  target_digest : option Digest;
  byte_start : option N;
  byte_len : option N }.

Record EffectWitness := mkWitness {
  w_contract_version : N;
  w_cwir_semantic_digest : Digest;
  w_action_digest : Digest;
  w_obligation_id : Digest;
  w_kind : EffectWitnessKind;
  w_expected_predicate_digest : Digest;
  w_observed_evidence_digest : Digest;
  w_state_snapshot : Digest;
  w_localization : EffectLocalization;
  w_exact_evidence_refs : list Digest;
  w_expansion_handles : list Digest;
  w_verifier_digest : Digest;
  w_witness_digest : Digest }.

Record EffectAccepted := mkAccepted {
  contract_version : N;
  cwir_semantic_digest : Digest;
  action_digest : Digest;
  obligation_id : Digest;
  predicate_digest : Digest;
  state_snapshot : Digest;
  evidence_digest : Digest;
  verifier_digest : Digest;
  verifier_class : CwirVerifierClass;
  acceptance_digest : Digest }.

Inductive EffectVerificationOutcome :=
| Accepted (a : EffectAccepted) | Rejected (w : EffectWitness) | Incomplete (w : EffectWitness).

(** * Wire form *)

Definition jkind (k : EffectWitnessKind) : Value :=
  VString match k with
  | PredicateMismatch => "predicate_mismatch" | ArtifactMismatch => "artifact_mismatch"
  | StaleState => "stale_state" | CapabilityMismatch => "capability_mismatch"
  | VerificationFailure => "verification_failure" | IncompleteCoverage => "incomplete_coverage"
  | ExternalEffectUnsupported => "external_effect_unsupported"
  end.

Definition jlocalization_class (c : EffectLocalizationClass) : Value :=
  VString match c with
  | Global => "global" | Predicate => "predicate" | Operation => "operation" | Target => "target"
  | ByteRange => "byte_range"
  end.

Definition jverifier_class (c : CwirVerifierClass) : Value :=
  VString match c with
  | Effect.ExactChecker => "exact_checker" | Effect.SoundRestricted => "sound_restricted"
  | Effect.EmpiricalIncomplete => "empirical_incomplete"
  end.

Definition jlocalization (l : EffectLocalization) : Value :=
  Object [("class", jlocalization_class (class l)); ("operation_index", jopt jnum (operation_index l));
          ("target_digest", jopt jhex (target_digest l)); ("byte_start", jopt jnum (byte_start l));
          ("byte_len", jopt jnum (byte_len l))].

Definition EffectWitnessBody (w : EffectWitness) : Value :=
  Object [("contract_version", jnum (w_contract_version w));
          ("cwir_semantic_digest", jhex (w_cwir_semantic_digest w));
          ("action_digest", jhex (w_action_digest w)); ("obligation_id", jhex (w_obligation_id w));
          ("kind", jkind (w_kind w));
          ("expected_predicate_digest", jhex (w_expected_predicate_digest w));
          ("observed_evidence_digest", jhex (w_observed_evidence_digest w));
          ("state_snapshot", jhex (w_state_snapshot w));
          ("localization", jlocalization (w_localization w));
          ("exact_evidence_refs", Array (jhex <$> w_exact_evidence_refs w));
          ("expansion_handles", Array (jhex <$> w_expansion_handles w));
          ("verifier_digest", jhex (w_verifier_digest w))].

Definition EffectAcceptedBody (a : EffectAccepted) : Value :=
  Object [("contract_version", jnum (contract_version a));
          ("cwir_semantic_digest", jhex (cwir_semantic_digest a));
          ("action_digest", jhex (action_digest a)); ("obligation_id", jhex (obligation_id a));
          ("predicate_digest", jhex (predicate_digest a)); ("state_snapshot", jhex (state_snapshot a));
          ("evidence_digest", jhex (evidence_digest a)); ("verifier_digest", jhex (verifier_digest a));
          ("verifier_class", jverifier_class (verifier_class a))].

(** * Checks *)

Definition require_digest (d : Digest) : R () := reject? zero_digest d with ZeroDigest in Ok ().
Definition require_snapshot (actual expected : Digest) : R () :=
  guard? bool_decide (actual = expected) else StaleEvidence in Ok ().
Definition reject_duplicates (l : list Digest) : R () :=
  reject? has_duplicate l with DuplicateMember in Ok ().

Definition validate_sorted_set (values : list Digest) (max : nat) (too_many : EffectWitnessFailureCode)
  : R () :=
  reject? (max <? length values)%nat with too_many in
  let? _ := for_each require_digest values in
  check_windows DuplicateMember NonCanonicalOrder values.

(** ** Localization *)

Definition global : EffectLocalization := mkLocalization Global None None None None.
Definition predicate : EffectLocalization := mkLocalization Predicate None None None None.
Definition operation (index : N) : EffectLocalization := mkLocalization Operation (Some index) None None None.

Definition target (t : Digest) : R EffectLocalization :=
  let? _ := require_digest t in
  Ok (mkLocalization Target None (Some t) None None).

Definition bad_range (start n : N) : bool :=
  (n =? 0)%N || match checked_add_u64 start n with None => true | Some _ => false end.

Definition byte_range (t : Digest) (start n : N) : R EffectLocalization :=
  let? _ := require_digest t in
  reject? bad_range start n with RangeOverflow in
  Ok (mkLocalization ByteRange None (Some t) (Some start) (Some n)).

Definition localization_shape (l : EffectLocalization) : bool :=
  match class l, operation_index l, target_digest l, byte_start l, byte_len l with
  | (Global | Predicate), None, None, None, None => true
  | Operation, Some _, None, None, None => true
  | Target, None, Some _, None, None => true
  | ByteRange, None, Some _, Some _, Some _ => true
  | _, _, _, _, _ => false
  end.

Definition EffectLocalization_validate (l : EffectLocalization) : R () :=
  guard? localization_shape l else InvalidLocalization in
  let? _ := match target_digest l with Some t => require_digest t | None => Ok () end in
  match byte_start l, byte_len l with
  | Some start, Some n => reject? bad_range start n with RangeOverflow in Ok ()
  | _, _ => Ok ()
  end.

Definition validate_localization_against (p : EffectProgram) (l : EffectLocalization) : R () :=
  match class l with
  | Global | Predicate => Ok ()
  | Operation =>
      let? index := ok_or (operation_index l) InvalidLocalization in
      guard? (index <? N.of_nat (length (Effect.operations (Effect.body p))))%N else InvalidLocalization in
      Ok ()
  | Target | ByteRange =>
      let? t := ok_or (target_digest l) InvalidLocalization in
      guard? existsb (fun c => bool_decide (Effect.target_digest c = t)) (Effect.targets (Effect.body p))
        else InvalidLocalization in
      Ok ()
  end.

Section Verification.
Context `{Platform, Codec VerifiedEvidence, Codec Effect.EffectProgramBody, Codec ZeroRef.SpanRef}.

Definition digest_body (dom : bytes) (v : Value) : Digest := concat_digest dom (canonical_bytes_of v).

Definition verified_evidence_digest (evidence : VerifiedEvidence) : Digest :=
  Evidence.canonical_digest evidence.

Definition exact_evidence_refs (evidence : VerifiedEvidence) : R (list Digest) :=
  reject? (EFFECT_WITNESS_MAX_EVIDENCE_REFS <? length (Evidence.spans evidence))%nat
    with TooManyEvidenceRefs in
  let refs := sort ((fun span => concat_digest EFFECT_EVIDENCE_REF_DOMAIN (encode span)) <$>
                    Evidence.spans evidence) in
  let? _ := reject_duplicates refs in
  Ok refs.

Definition evidence_snapshot (evidence : VerifiedEvidence) : option Digest :=
  match Evidence.query evidence with
  | Evidence.QExactSearchDomain _ _ snapshot_id _ _ | Evidence.QAggregate snapshot_id _ _ _ =>
      Some snapshot_id
  | _ =>
      match Evidence.completeness evidence with
      | Evidence.WExactSearchDomain _ _ _ snapshot_id _ _ _
      | Evidence.WAggregate _ snapshot_id _ _ _ _ => Some snapshot_id
      | _ => None
      end
  end.

Definition validate_evidence_snapshot (expected : Digest) (evidence : VerifiedEvidence) : R () :=
  match evidence_snapshot evidence with
  | Some observed => require_snapshot observed expected
  | None => Ok ()
  end.

Definition accepted_digests (a : EffectAccepted) : list Digest :=
  [cwir_semantic_digest a; action_digest a; obligation_id a; predicate_digest a; state_snapshot a;
   evidence_digest a; verifier_digest a].

Definition EffectAccepted_validate_body_digests (a : EffectAccepted) : R () :=
  for_each require_digest (accepted_digests a).

Definition EffectAccepted_validate (a : EffectAccepted) : R () :=
  guard? (contract_version a =? EFFECT_WITNESS_CONTRACT_VERSION)%N else UnsupportedVersion in
  let? _ := for_each require_digest (accepted_digests a) in
  guard? bool_decide (acceptance_digest a = digest_body EFFECT_ACCEPTED_DOMAIN (EffectAcceptedBody a))
    else AcceptanceDigestMismatch in
  Ok ().

Definition witness_digests (w : EffectWitness) : list Digest :=
  [w_cwir_semantic_digest w; w_action_digest w; w_obligation_id w; w_expected_predicate_digest w;
   w_observed_evidence_digest w; w_state_snapshot w; w_verifier_digest w].

Definition EffectWitness_validate_body_digests (w : EffectWitness) : R () :=
  for_each require_digest (witness_digests w).

Definition EffectWitness_validate (w : EffectWitness) : R () :=
  guard? (w_contract_version w =? EFFECT_WITNESS_CONTRACT_VERSION)%N else UnsupportedVersion in
  let? _ := for_each require_digest (witness_digests w) in
  let? _ := EffectLocalization_validate (w_localization w) in
  let? _ := validate_sorted_set (w_exact_evidence_refs w) EFFECT_WITNESS_MAX_EVIDENCE_REFS
    TooManyEvidenceRefs in
  let? _ := validate_sorted_set (w_expansion_handles w) EFFECT_WITNESS_MAX_EXPANSIONS
    TooManyExpansions in
  guard? bool_decide (w_witness_digest w = digest_body EFFECT_WITNESS_DOMAIN (EffectWitnessBody w))
    else WitnessDigestMismatch in
  Ok ().

Definition step_binds (predicate verifier : Digest) (s : Effect.EffectVerificationStep) : bool :=
  bool_decide (Effect.s_predicate_digest s = predicate) &&
  bool_decide (Effect.verifier_digest s = verifier).

Definition validate_program_binding (p : EffectProgram) (snapshot predicate verifier : Digest)
  : R CwirVerifierClass :=
  let? _ := map_err InvalidEffectProgram (Effect.EffectProgram_validate p) in
  guard? bool_decide (Effect.base_state (Effect.body p) = snapshot) else EffectStateMismatch in
  let? _ := require_digest predicate in
  let? _ := require_digest verifier in
  let steps := Effect.verification (Effect.body p) in
  guard? existsb (fun s => bool_decide (Effect.s_predicate_digest s = predicate)) steps
    else PredicateNotInPlan in
  let? step := ok_or (List.find (step_binds predicate verifier) steps) VerificationBindingMismatch in
  Ok (Effect.verifier_class step).

Definition accept_effect_verification (cwir : Digest) (p : EffectProgram)
  (obligation predicate snapshot verifier : Digest) (evidence : VerifiedEvidence)
  : R EffectVerificationOutcome :=
  let? class := validate_program_binding p snapshot predicate verifier in
  let? _ := validate_evidence_snapshot snapshot evidence in
  let accepted d := mkAccepted EFFECT_WITNESS_CONTRACT_VERSION cwir (Effect.action_digest p) obligation
    predicate snapshot (verified_evidence_digest evidence) verifier class d in
  let? _ := EffectAccepted_validate_body_digests (accepted ZERO) in
  Ok (Accepted (accepted (digest_body EFFECT_ACCEPTED_DOMAIN (EffectAcceptedBody (accepted ZERO))))).

Definition build_witness (cwir : Digest) (p : EffectProgram) (obligation : Digest)
  (kind : EffectWitnessKind) (predicate snapshot : Digest) (localization : EffectLocalization)
  (expansion_handles : list Digest) (verifier : Digest) (evidence : VerifiedEvidence) : R EffectWitness :=
  let? _ := validate_program_binding p snapshot predicate verifier in
  let? _ := validate_evidence_snapshot snapshot evidence in
  let? _ := EffectLocalization_validate localization in
  let? _ := validate_localization_against p localization in
  let handles := sort expansion_handles in
  let? _ := reject_duplicates handles in
  reject? (EFFECT_WITNESS_MAX_EXPANSIONS <? length handles)%nat with TooManyExpansions in
  let? refs := exact_evidence_refs evidence in
  let witness d := mkWitness EFFECT_WITNESS_CONTRACT_VERSION cwir (Effect.action_digest p) obligation kind
    predicate (verified_evidence_digest evidence) snapshot localization refs handles verifier d in
  let? _ := EffectWitness_validate_body_digests (witness ZERO) in
  let w := witness (digest_body EFFECT_WITNESS_DOMAIN (EffectWitnessBody (witness ZERO))) in
  let? _ := EffectWitness_validate w in
  Ok w.

Definition reject_effect_verification (cwir : Digest) (p : EffectProgram) (obligation : Digest)
  (kind : EffectWitnessKind) (predicate snapshot : Digest) (localization : EffectLocalization)
  (expansion_handles : list Digest) (verifier : Digest) (evidence : VerifiedEvidence)
  : R EffectVerificationOutcome :=
  let? w := build_witness cwir p obligation kind predicate snapshot localization expansion_handles
    verifier evidence in
  Ok (Rejected w).

Definition incomplete_effect_verification (cwir : Digest) (p : EffectProgram) (obligation : Digest)
  (kind : EffectWitnessKind) (predicate snapshot : Digest) (localization : EffectLocalization)
  (expansion_handles : list Digest) (verifier : Digest) (evidence : VerifiedEvidence)
  : R EffectVerificationOutcome :=
  let? w := build_witness cwir p obligation kind predicate snapshot localization expansion_handles
    verifier evidence in
  Ok (Incomplete w).

(** * What an outcome binds *)

Lemma validate_program_binding_inv (p : EffectProgram) (snapshot predicate verifier : Digest)
  (c : CwirVerifierClass) :
  validate_program_binding p snapshot predicate verifier = Ok c ->
  Effect.EffectProgram_validate p = Ok () /\ Effect.base_state (Effect.body p) = snapshot /\
  exists s, s ∈ Effect.verification (Effect.body p) /\ Effect.s_predicate_digest s = predicate /\
    Effect.verifier_digest s = verifier /\ Effect.verifier_class s = c.
Proof.
  unfold validate_program_binding. intros Hok. repeat inv_ok1. breflect.
  repeat match goal with u : () |- _ => destruct u end.
  match goal with Hf : List.find _ _ = Some ?s |- _ => apply find_some in Hf as [Hin Hb]; rename s into st end.
  unfold step_binds in Hb. breflect. split_and!; try done. exists st.
  split_and!; try done. by apply list_elem_of_In.
Qed.

(** An accepted effect is bound to one verification step of a valid
    program.  The program validates, was planned against the verified state,
    and plans the very verifier and predicate that were run; the acceptance
    names the program's action, the evidence, and that step's verifier
    class; the evidence's own snapshot, if it has one, is that state; and the
    acceptance validates. *)
Theorem accepted_effect_bound (cwir : Digest) (p : EffectProgram)
  (obligation predicate snapshot verifier : Digest) (evidence : VerifiedEvidence)
  (o : EffectVerificationOutcome) :
  accept_effect_verification cwir p obligation predicate snapshot verifier evidence = Ok o ->
  exists a s, o = Accepted a /\ EffectAccepted_validate a = Ok () /\
    Effect.EffectProgram_validate p = Ok () /\ Effect.base_state (Effect.body p) = snapshot /\
    s ∈ Effect.verification (Effect.body p) /\
    Effect.s_predicate_digest s = predicate /\ Effect.verifier_digest s = verifier /\
    verifier_class a = Effect.verifier_class s /\ action_digest a = Effect.action_digest p /\
    predicate_digest a = predicate /\ verifier_digest a = verifier /\ state_snapshot a = snapshot /\
    evidence_digest a = Evidence.canonical_digest evidence /\
    (forall observed, evidence_snapshot evidence = Some observed -> observed = snapshot).
Proof.
  unfold accept_effect_verification. intros Hok. repeat inv_ok1.
  repeat match goal with u : () |- _ => destruct u end.
  match goal with Hb : validate_program_binding _ _ _ _ = Ok _ |- _ =>
    apply validate_program_binding_inv in Hb as (Hp & Hs & s & Hin & Hsp & Hsv & Hc) end.
  eexists _, s. split; [reflexivity|]. split_and!; try done.
  - unfold EffectAccepted_validate, EffectAccepted_validate_body_digests in *.
    cbn [contract_version acceptance_digest].
    match goal with H : for_each _ _ = Ok () |- _ => unfold accepted_digests in *; cbn [cwir_semantic_digest
      action_digest obligation_id predicate_digest state_snapshot evidence_digest verifier_digest] in *;
      rewrite H end.
    cbn [mbind result_bind N.eqb]. by rewrite bool_decide_eq_true_2.
  - intros observed Ho. unfold validate_evidence_snapshot, require_snapshot in *. rewrite Ho in *.
    repeat inv_ok1. by breflect.
Qed.

(** Where a localization points inside a program. *)
Definition localizes (p : EffectProgram) (l : EffectLocalization) : Prop :=
  match class l with
  | Global | Predicate => True
  | Operation => exists i op, operation_index l = Some i /\
      Effect.operations (Effect.body p) !! N.to_nat i = Some op
  | Target => exists t, t ∈ Effect.targets (Effect.body p) /\ target_digest l = Some (Effect.target_digest t)
  | ByteRange => exists t start n, t ∈ Effect.targets (Effect.body p) /\
      target_digest l = Some (Effect.target_digest t) /\
      byte_start l = Some start /\ byte_len l = Some n /\ (0 < n /\ start + n <= U64_MAX)%N
  end.

Lemma localization_sound (p : EffectProgram) (l : EffectLocalization) :
  EffectLocalization_validate l = Ok () -> validate_localization_against p l = Ok () -> localizes p l.
Proof.
  intros Hv Ha. unfold EffectLocalization_validate, localization_shape in Hv.
  unfold validate_localization_against in Ha. unfold localizes.
  assert (Htarget : forall t, existsb (fun c => bool_decide (Effect.target_digest c = t))
      (Effect.targets (Effect.body p)) = true ->
      exists c, c ∈ Effect.targets (Effect.body p) /\ t = Effect.target_digest c).
  { intros t Ht. apply existsb_exists in Ht as (c & Hc & Hd). breflect. exists c.
    split; [by apply list_elem_of_In|done]. }
  destruct l as [[] [oi|] [td|] [bs|] [bl|]]; cbn in *; try discriminate Hv; repeat inv_ok1; breflect; try done; simplify_eq.
  - destruct (lookup_lt_is_Some_2 (Effect.operations (Effect.body p)) (N.to_nat oi)) as [op Hop]; [lia|].
    eauto.
  - match goal with H : existsb _ _ = true |- _ => apply Htarget in H as (c & Hc & ->) end. eauto.
  - match goal with H : existsb _ _ = true |- _ => apply Htarget in H as (c & Hc & ->) end.
    match goal with H : bad_range _ _ = false |- _ => unfold bad_range, checked_add_u64 in H; breflect;
      destruct (N.leb_spec (bs + bl) U64_MAX); [|done] end.
    eexists c, _, _. split_and!; try done. lia.
Qed.

(** A rejected or incomplete verification is a valid witness that points
    inside the program it concerns, and is never an acceptance: the witness
    validates, names the program's action and the verified evidence, and its
    localization designates an existing operation, a declared target, or a
    nonempty byte range of one that does not overflow. *)
Theorem effect_witness_localized (cwir : Digest) (p : EffectProgram) (obligation : Digest)
  (kind : EffectWitnessKind) (predicate snapshot : Digest) (l : EffectLocalization)
  (handles : list Digest) (verifier : Digest) (evidence : VerifiedEvidence)
  (o : EffectVerificationOutcome) :
  reject_effect_verification cwir p obligation kind predicate snapshot l handles verifier evidence = Ok o \/
  incomplete_effect_verification cwir p obligation kind predicate snapshot l handles verifier evidence = Ok o ->
  exists w, (o = Rejected w \/ o = Incomplete w) /\ EffectWitness_validate w = Ok () /\
    localizes p (w_localization w) /\ w_action_digest w = Effect.action_digest p /\
    w_observed_evidence_digest w = Evidence.canonical_digest evidence /\
    w_expansion_handles w ≡ₚ handles /\ w_state_snapshot w = Effect.base_state (Effect.body p).
Proof.
  intros Hor. assert (exists w, (o = Rejected w \/ o = Incomplete w) /\
    build_witness cwir p obligation kind predicate snapshot l handles verifier evidence = Ok w)
    as (w & Ho & Hb).
  { destruct Hor as [Hok|Hok]; unfold reject_effect_verification, incomplete_effect_verification in Hok;
      repeat inv_ok1; eauto. }
  exists w. split; [done|]. unfold build_witness in Hb. repeat inv_ok1.
  repeat match goal with u : () |- _ => destruct u end.
  match goal with Hb : validate_program_binding _ _ _ _ = Ok _ |- _ =>
    apply validate_program_binding_inv in Hb as (_ & Hs & _) end.
  split_and!; try done; [by apply localization_sound|apply sort_by_key_perm].
Qed.
End Verification.

(** * A concrete verification of the program of [Effect.Toy] *)

Module Toy.
Import Effect.Toy.
#[local] Existing Instance Effect.Toy.toy_platform.
#[local] Existing Instance Effect.Toy.toy_codec.
#[local] Instance toy_evidence_codec : Codec VerifiedEvidence :=
  {| encode := fun c => Evidence.payload c; decode := fun _ => None |}.
#[local] Instance toy_span_codec : Codec ZeroRef.SpanRef :=
  {| encode := fun s => ZeroRef.span_digest s; decode := fun _ => None |}.

Definition evidence : VerifiedEvidence :=
  Evidence.mkEvidence (Evidence.QAggregate (d 1) [] 0 0) [] (string_bytes "result")
    (Evidence.mkProvenance "parser" "1" "index" "1" "runner" "1")
    (Evidence.WAggregate (Evidence.mkLock "runner" "1") (d 1) [] 0 0 (d 9)) 0 0.

Definition outcome : EffectVerificationOutcome :=
  match accept_effect_verification (d 50) toy_program (d 51) (d 42) (d 1) (d 41) evidence with
  | Ok o => o
  | Err _ => Incomplete (mkWitness 0 [] [] [] StaleState [] [] [] global [] [] [] [])
  end.

Lemma accepted_effect_bound_witness :
  exists a, outcome = Accepted a /\ EffectAccepted_validate a = Ok ().
Proof.
  assert (Ho : accept_effect_verification (d 50) toy_program (d 51) (d 42) (d 1) (d 41) evidence = Ok outcome)
    by (vm_compute; reflexivity).
  destruct (accepted_effect_bound _ _ _ _ _ _ _ _ Ho) as (a & s & Ha & Hv & _).
  exists a. split; assumption.
Defined.

(** A rejection localized at bytes 4..10 of the second target. *)
Definition rejection : EffectVerificationOutcome :=
  match reject_effect_verification (d 50) toy_program (d 51) ArtifactMismatch (d 42) (d 1)
          (mkLocalization ByteRange None (Some (d 12)) (Some 4%N) (Some 6%N)) [d 62; d 61] (d 41) evidence with
  | Ok o => o
  | Err _ => outcome
  end.

Lemma effect_witness_localized_witness :
  exists w, (rejection = Rejected w \/ rejection = Incomplete w) /\ localizes toy_program (w_localization w).
Proof.
  assert (Ho : reject_effect_verification (d 50) toy_program (d 51) ArtifactMismatch (d 42) (d 1)
    (mkLocalization ByteRange None (Some (d 12)) (Some 4%N) (Some 6%N)) [d 62; d 61] (d 41) evidence
    = Ok rejection) by (vm_compute; reflexivity).
  destruct (effect_witness_localized _ _ _ _ _ _ _ _ _ _ _ (or_introl Ho)) as (w & Hw & _ & Hl & _).
  exists w. split; assumption.
Defined.
End Toy.
