(* ===== verification/GateTransaction.v ===== *)
(** Effect-closed transactions ([zero-gate/src/transaction.rs]): the resource
    inventory an effect requires, the isolation and restoration declared for
    each resource, the boundary that closes over both, and the transaction
    that runs a closed effect on the durable journal.

    The journal operations are those of [DurableJournal], run in the same
    world; an error keeps its code, its resource and the journal's code. *)

From S2P Require Import Prelude.
From S2P Require Import Ordering.
From S2P Require Import Canonical.
From S2P Require Import DurableStore.
From S2P Require Import DurableJournal.
From S2P Require Import Identity.
From S2P Require Effect.
From S2P Require EffectWitness.
From S2P Require Zbf.

Notation ArtifactOwner := Zbf.ArtifactOwner.
Notation EffectProgram := Effect.EffectProgram.
Notation EffectRollback := Effect.EffectRollback.
Notation EffectAccepted := EffectWitness.EffectAccepted.

Definition TRANSACTION_CONTRACT_VERSION : N := 1.
Definition TRANSACTION_MAX_RESOURCES : nat := 256.
Definition TRANSACTION_MAX_CANONICAL_BYTES : N := 1048576.

Definition REQUEST_DOMAIN : bytes := domain "zerostack.effect_closure.request".
Definition TRANSACTION_ID_DOMAIN : bytes := domain "zerostack.effect_transaction.id".
Definition MANIFEST_DOMAIN : bytes := domain "zerostack.effect_closure.manifest".
Definition EXTERNAL_INVENTORY_DOMAIN : bytes := domain "zerostack.effect_closure.external_inventory".
Definition EXTERNAL_DEBT_DOMAIN : bytes := domain "zerostack.effect_closure.external_debt".
Definition JOURNAL_RECEIPT_DOMAIN : bytes := domain "zerostack.effect_transaction.receipt".

(** * Resources *)

Inductive TransactionResourceKind :=
| ProjectFilesystem | GraphIndex | Toolchain | RuntimeManifest | CapabilitySurface
| ExternalDatabase | ExternalService | ObservationLog | Time | Randomness | Queue | RateLimit
| Network | Approval | ProviderModelState | DecoderState | OtherExternal.

Definition is_external (k : TransactionResourceKind) : bool :=
  match k with
  | ProjectFilesystem | GraphIndex | Toolchain | RuntimeManifest | CapabilitySurface => false
  | _ => true
  end.

Inductive TransactionAccess := Read | Write | ReadWrite.
Definition writes (a : TransactionAccess) : bool :=
  match a with Write | ReadWrite => true | Read => false end.

Inductive ResourceIsolationMode :=
| ImmutableSnapshot | IsoRecordedReplay | Buffered | IsoJournaled | Transactional
| DelayedUntilCommit | IsoUnsupported.

Inductive ResourceRestorationMode :=
| NotNeeded | RecordedReplay | JournalRollback | TransactionRollback | ResUnsupported.

Record TransactionResourceRequirement := mkRequirement {
  owner : ArtifactOwner;
  kind : TransactionResourceKind;
  scope_digest : Digest;
  baseline_state_digest : Digest;
  access : TransactionAccess;
  authority_digest : Digest }.

Record EffectResourceClosure := mkClosure {
  requirement : TransactionResourceRequirement;
  isolation : ResourceIsolationMode;
  restoration : ResourceRestorationMode }.

Record EffectClosureRequest := mkRequest {
  rq_contract_version : N;
  rq_action_digest : Digest;
  rq_baseline_state : Digest;
  rq_rollback : EffectRollback;
  rq_resources : list TransactionResourceRequirement }.

Record EffectClosureManifest := mkManifest {
  mf_contract_version : N;
  mf_request_digest : Digest;
  mf_resources : list EffectResourceClosure }.

(** The private capability [ClosedEffectBoundary]; [ClosureBinding] is it
    without the rollback class. *)
Record ClosedEffectBoundary := mkClosed {
  cb_request_digest : Digest;
  cb_manifest_digest : Digest;
  cb_action_digest : Digest;
  cb_baseline_state : Digest;
  cb_rollback : EffectRollback;
  cb_external_inventory_digest : Digest;
  cb_external_restoration_debt_digest : Digest;
  cb_resource_count : N;
  cb_external_resource_count : N;
  cb_external_restoration_debt_count : N }.

Inductive TransactionDisposition := CandidateCommitted | BaselineRootRecovered.
Inductive RestorationScope :=
| NotApplicableCandidateCommit | DeclaredEffectClosure | ProjectJournalRootOnly.

Record TransactionReceipt := mkTxReceipt {
  contract_version : N;
  disposition : TransactionDisposition;
  restoration_scope : RestorationScope;
  request_digest : Digest;
  closure_manifest_digest : Digest;
  action_digest : Digest;
  acceptance_digest : option Digest;
  baseline_state : Digest;
  candidate_state : Digest;
  external_inventory_digest : Digest;
  external_restoration_debt_digest : Digest;
  resource_count : N;
  external_resource_count : N;
  external_restoration_debt_count : N;
  journal_binding_digest : Digest;
  journal_recovery_digest : Digest;
  recovery_outcome : RecoveryOutcome;
  observed_root : Digest;
  receipt_digest : Digest }.

Inductive TransactionFailureCode :=
| SchemaVersionMismatch | InvalidEffectProgram | InvalidResource | MissingOperationResource
| EmptyResourceInventory | TooManyResources | NonCanonicalResourceInventory | RequestMismatch
| MissingResource | UnexpectedResource | UnsupportedIsolation | IsolationAccessMismatch
| RestorationMismatch | RollbackMismatch | RawFallbackIsNotSpeculation | InvalidEffectAcceptance
| EffectAcceptanceMismatch | MissingEffectAcceptance | BaselineMismatch | JournalBindingMismatch
| JournalRootMismatch | ReceiptDigestMismatch | CanonicalPayloadTooLarge | NonCanonicalEncoding
| SerializationFailure | JournalFailure.

Record TransactionError := mkTxError {
  code : TransactionFailureCode;
  resource : option TransactionResourceRequirement;
  journal_code : option JournalFailureCode }.

Notation R := (result TransactionError).

Definition err (c : TransactionFailureCode) : TransactionError := mkTxError c None None.
Definition err_at (c : TransactionFailureCode) (r : TransactionResourceRequirement) : TransactionError :=
  mkTxError c (Some r) None.
Definition journal_error (e : JournalError) : TransactionError :=
  mkTxError JournalFailure None (Some (DurableStore.code e)).

#[global] Instance TransactionResourceKind_eq_dec : EqDecision TransactionResourceKind.
Proof. solve_decision. Defined.
#[global] Instance TransactionAccess_eq_dec : EqDecision TransactionAccess.
Proof. solve_decision. Defined.
#[global] Instance ResourceIsolationMode_eq_dec : EqDecision ResourceIsolationMode.
Proof. solve_decision. Defined.
#[global] Instance ResourceRestorationMode_eq_dec : EqDecision ResourceRestorationMode.
Proof. solve_decision. Defined.
#[global] Instance TransactionResourceRequirement_eq_dec : EqDecision TransactionResourceRequirement.
Proof. solve_decision. Defined.
#[global] Instance TransactionDisposition_eq_dec : EqDecision TransactionDisposition.
Proof. solve_decision. Defined.
#[global] Instance RestorationScope_eq_dec : EqDecision RestorationScope.
Proof. solve_decision. Defined.

(** Resource kinds in declaration order, as [derive(Ord)] compares them. *)
Definition kind_rank (k : TransactionResourceKind) : nat :=
  match k with
  | ProjectFilesystem => 0 | GraphIndex => 1 | Toolchain => 2 | RuntimeManifest => 3
  | CapabilitySurface => 4 | ExternalDatabase => 5 | ExternalService => 6 | ObservationLog => 7
  | Time => 8 | Randomness => 9 | Queue => 10 | RateLimit => 11 | Network => 12 | Approval => 13
  | ProviderModelState => 14 | DecoderState => 15 | OtherExternal => 16
  end.

#[global] Instance kind_rank_inj : Inj (=) (=) kind_rank.
Proof. by intros [] []. Qed.
#[global] Instance kind_ord : Ord TransactionResourceKind := cmp_via kind_rank.
#[global] Instance kind_ord_ok : OrdOk TransactionResourceKind.
Proof. apply cmp_via_ok, _. Qed.

Definition key (r : TransactionResourceRequirement) : TransactionResourceKind * Digest :=
  (kind r, scope_digest r).

(** * Wire form *)

Definition jowner (o : ArtifactOwner) : Value :=
  VString match o with
  | Zbf.ZeroStack => "zero_stack" | Zbf.FsZero => "fs_zero" | Zbf.GraphZero => "graph_zero"
  | Zbf.TokenZero => "token_zero" | Zbf.PiZeroStack => "pi_zero_stack"
  end.
Definition jresource_kind (k : TransactionResourceKind) : Value :=
  VString match k with
  | ProjectFilesystem => "project_filesystem" | GraphIndex => "graph_index" | Toolchain => "toolchain"
  | RuntimeManifest => "runtime_manifest" | CapabilitySurface => "capability_surface"
  | ExternalDatabase => "external_database" | ExternalService => "external_service"
  | ObservationLog => "observation_log" | Time => "time" | Randomness => "randomness"
  | Queue => "queue" | RateLimit => "rate_limit" | Network => "network" | Approval => "approval"
  | ProviderModelState => "provider_model_state" | DecoderState => "decoder_state"
  | OtherExternal => "other_external"
  end.
Definition jaccess (a : TransactionAccess) : Value :=
  VString match a with Read => "read" | Write => "write" | ReadWrite => "read_write" end.
Definition jisolation (i : ResourceIsolationMode) : Value :=
  VString match i with
  | ImmutableSnapshot => "immutable_snapshot" | IsoRecordedReplay => "recorded_replay"
  | Buffered => "buffered" | IsoJournaled => "journaled" | Transactional => "transactional"
  | DelayedUntilCommit => "delayed_until_commit" | IsoUnsupported => "unsupported"
  end.
Definition jrestoration (r : ResourceRestorationMode) : Value :=
  VString match r with
  | NotNeeded => "not_needed" | RecordedReplay => "recorded_replay"
  | JournalRollback => "journal_rollback" | TransactionRollback => "transaction_rollback"
  | ResUnsupported => "unsupported"
  end.
Definition jrollback (r : EffectRollback) : Value :=
  VString match r with
  | Effect.RollbackReadOnly => "read_only" | Effect.SingleAtomic => "single_atomic"
  | Effect.Journaled => "journaled" | Effect.WorkspaceClone => "workspace_clone"
  | Effect.ExternalTransaction => "external_transaction" | Effect.RollbackRawFallback => "raw_fallback"
  end.
Definition joutcome (o : RecoveryOutcome) : Value :=
  VString match o with
  | NotStartedOldRoot => "not_started_old_root" | OldRootAborted => "old_root_aborted"
  | NewRootCommitted => "new_root_committed" | AlreadyCommitted => "already_committed"
  | AlreadyAborted => "already_aborted"
  end.
Definition jdisposition (d : TransactionDisposition) : Value :=
  VString match d with
  | CandidateCommitted => "candidate_committed" | BaselineRootRecovered => "baseline_root_recovered"
  end.
Definition jscope (s : RestorationScope) : Value :=
  VString match s with
  | NotApplicableCandidateCommit => "not_applicable_candidate_commit"
  | DeclaredEffectClosure => "declared_effect_closure"
  | ProjectJournalRootOnly => "project_journal_root_only"
  end.

Definition jrequirement (r : TransactionResourceRequirement) : Value :=
  Object [("owner", jowner (owner r)); ("kind", jresource_kind (kind r));
          ("scope_digest", jhex (scope_digest r));
          ("baseline_state_digest", jhex (baseline_state_digest r));
          ("access", jaccess (access r)); ("authority_digest", jhex (authority_digest r))].
Definition jclosure (c : EffectResourceClosure) : Value :=
  Object [("requirement", jrequirement (requirement c)); ("isolation", jisolation (isolation c));
          ("restoration", jrestoration (restoration c))].
Definition jrequest (r : EffectClosureRequest) : Value :=
  Object [("contract_version", jnum (rq_contract_version r));
          ("action_digest", jhex (rq_action_digest r)); ("baseline_state", jhex (rq_baseline_state r));
          ("rollback", jrollback (rq_rollback r));
          ("resources", Array (jrequirement <$> rq_resources r))].
Definition jmanifest (m : EffectClosureManifest) : Value :=
  Object [("contract_version", jnum (mf_contract_version m));
          ("request_digest", jhex (mf_request_digest m));
          ("resources", Array (jclosure <$> mf_resources m))].

(** * Inventory validation *)

Definition requirement_validate (r : TransactionResourceRequirement) : R () :=
  reject? zero_digest (scope_digest r) || zero_digest (baseline_state_digest r) ||
          zero_digest (authority_digest r)
    with err_at InvalidResource r in
  Ok ().

(** The loop over an inventory; [previous] is the last key. *)
Fixpoint inventory_loop (previous : option (TransactionResourceKind * Digest))
  (l : list TransactionResourceRequirement) : R () :=
  match l with
  | [] => Ok ()
  | r :: l' =>
      let? _ := requirement_validate r in
      reject? match previous with Some prior => geb prior (key r) | None => false end
        with err_at NonCanonicalResourceInventory r in
      inventory_loop (Some (key r)) l'
  end.

Definition validate_sorted_requirements (l : list TransactionResourceRequirement) : R () :=
  reject? (length l =? 0)%nat with err EmptyResourceInventory in
  reject? (TRANSACTION_MAX_RESOURCES <? length l)%nat with err TooManyResources in
  inventory_loop None l.

Definition sort_and_validate_requirements (l : list TransactionResourceRequirement)
  : R (list TransactionResourceRequirement) :=
  let l := sort_by_key key l in
  let? _ := validate_sorted_requirements l in
  Ok l.

Definition covers (resources : list TransactionResourceRequirement) (o : ArtifactOwner)
  (needs_write project_filesystem : bool) : bool :=
  existsb (fun r =>
    bool_decide (owner r = o) &&
    (negb project_filesystem || bool_decide (kind r = ProjectFilesystem)) &&
    (negb needs_write || writes (access r))) resources.

Definition validate_program_resource_mapping (p : EffectProgram)
  (resources : list TransactionResourceRequirement) : R () :=
  let? _ :=
    match List.find (fun r => bool_decide (kind r = ProjectFilesystem) &&
        negb (bool_decide (baseline_state_digest r = Effect.base_state (Effect.body p)))) resources with
    | Some r => Err (err_at BaselineMismatch r)
    | None => Ok ()
    end in
  let? _ := for_each (fun t => guard? covers resources (Effect.t_owner t) true true
              else err MissingOperationResource in Ok ()) (Effect.targets (Effect.body p)) in
  for_each (fun op =>
    match op with
    | Effect.RecoverExact o _ _ _ _ _ =>
        guard? covers resources o false false else err MissingOperationResource in Ok ()
    | Effect.DeterministicTransform o _ _ _ _ _ _ c | Effect.InvokeCapability o _ _ _ _ c =>
        guard? covers resources o (negb (bool_decide (c = Effect.ReadOnly))) false
          else err MissingOperationResource in Ok ()
    | _ => Ok ()
    end) (Effect.operations (Effect.body p)).

Definition request_validate (r : EffectClosureRequest) : R () :=
  guard? (rq_contract_version r =? TRANSACTION_CONTRACT_VERSION)%N else err SchemaVersionMismatch in
  reject? zero_digest (rq_action_digest r) || zero_digest (rq_baseline_state r)
    with err InvalidEffectProgram in
  validate_sorted_requirements (rq_resources r).

Definition closure_validate (c : EffectResourceClosure) : R () :=
  let at_c code := err_at code (requirement c) in
  reject? bool_decide (isolation c = IsoUnsupported) || bool_decide (restoration c = ResUnsupported)
    with at_c UnsupportedIsolation in
  let access_ok :=
    match access (requirement c) with
    | Read => negb (bool_decide (isolation c = DelayedUntilCommit))
    | Write | ReadWrite =>
        match isolation c with ImmutableSnapshot | IsoRecordedReplay => false | _ => true end
    end in
  guard? access_ok else at_c IsolationAccessMismatch in
  let? expected :=
    match isolation c with
    | ImmutableSnapshot | Buffered | DelayedUntilCommit => Ok NotNeeded
    | IsoRecordedReplay => Ok RecordedReplay
    | IsoJournaled => Ok JournalRollback
    | Transactional => Ok TransactionRollback
    | IsoUnsupported => Err (at_c UnsupportedIsolation)
    end in
  guard? bool_decide (restoration c = expected) else at_c RestorationMismatch in
  Ok ().

Definition manifest_validate_body (m : EffectClosureManifest) : R () :=
  guard? (mf_contract_version m =? TRANSACTION_CONTRACT_VERSION)%N else err SchemaVersionMismatch in
  reject? zero_digest (mf_request_digest m) with err RequestMismatch in
  reject? (length (mf_resources m) =? 0)%nat with err EmptyResourceInventory in
  reject? (TRANSACTION_MAX_RESOURCES <? length (mf_resources m))%nat with err TooManyResources in
  inventory_loop None (requirement <$> mf_resources m).

(** The loop that walks the requested and declared inventories together. *)
Fixpoint match_inventories (requested : list TransactionResourceRequirement)
  (declared : list EffectResourceClosure) : R () :=
  match requested, declared with
  | required :: requested', entry :: declared' =>
      if bool_decide (required = requirement entry) then
        let? _ := closure_validate entry in
        match_inventories requested' declared'
      else if ltb (key required) (key (requirement entry))
      then Err (err_at MissingResource required)
      else Err (err_at UnexpectedResource (requirement entry))
  | required :: _, [] => Err (err_at MissingResource required)
  | [], entry :: _ => Err (err_at UnexpectedResource (requirement entry))
  | [], [] => Ok ()
  end.

Definition rollback_covers (r : EffectRollback) (mode : ResourceIsolationMode) : bool :=
  match r with
  | Effect.RollbackReadOnly | Effect.RollbackRawFallback => false
  | Effect.SingleAtomic | Effect.Journaled =>
      match mode with Buffered | IsoJournaled | Transactional | DelayedUntilCommit => true | _ => false end
  | Effect.WorkspaceClone => match mode with Buffered | DelayedUntilCommit => true | _ => false end
  | Effect.ExternalTransaction =>
      match mode with Buffered | Transactional | DelayedUntilCommit => true | _ => false end
  end.

Definition writing (l : list EffectResourceClosure) : list EffectResourceClosure :=
  List.filter (fun e => writes (access (requirement e))) l.

Definition validate_rollback_coverage (r : EffectRollback) (l : list EffectResourceClosure) : R () :=
  let ws := writing l in
  reject? bool_decide (r = Effect.RollbackRawFallback) with err RawFallbackIsNotSpeculation in
  let? _ :=
    match ws with
    | w :: _ => reject? bool_decide (r = Effect.RollbackReadOnly)
                  with err_at RollbackMismatch (requirement w) in Ok ()
    | [] => reject? negb (bool_decide (r = Effect.RollbackReadOnly)) with err RollbackMismatch in Ok ()
    end in
  reject? bool_decide (r = Effect.SingleAtomic) && negb (length ws =? 1)%nat with err RollbackMismatch in
  for_each (fun e => guard? rollback_covers r (isolation e)
              else err_at RollbackMismatch (requirement e) in Ok ()) ws.

Definition as_u16 (n : nat) : N := N.of_nat n mod 65536.

Definition external (l : list EffectResourceClosure) : list EffectResourceClosure :=
  List.filter (fun e => is_external (kind (requirement e))) l.

(** External writes that leave the boundary before commit. *)
Definition external_debt (l : list EffectResourceClosure) : list EffectResourceClosure :=
  List.filter (fun e => writes (access (requirement e)) &&
                 match isolation e with IsoJournaled | Transactional => true | _ => false end) (external l).

Section Closures.
Context `{Platform, Codec Effect.EffectProgramBody}.

Definition canonical_serialize (v : Value) : R bytes :=
  let b := canonical_bytes_of v in
  reject? (TRANSACTION_MAX_CANONICAL_BYTES <? len b)%N with err CanonicalPayloadTooLarge in
  Ok b.

Definition request_digest_of (r : EffectClosureRequest) : R Digest :=
  let? _ := request_validate r in
  let? b := canonical_serialize (jrequest r) in
  Ok (domain_digest REQUEST_DOMAIN b).

Definition EffectClosureRequest_new (p : EffectProgram) (resources : list TransactionResourceRequirement)
  : R EffectClosureRequest :=
  let? _ := map_err (err InvalidEffectProgram) (Effect.EffectProgram_validate p) in
  let? resources := sort_and_validate_requirements resources in
  let? _ := validate_program_resource_mapping p resources in
  let r := mkRequest TRANSACTION_CONTRACT_VERSION (Effect.action_digest p)
    (Effect.base_state (Effect.body p)) (Effect.rollback (Effect.body p)) resources in
  let? _ := request_validate r in
  Ok r.

Definition EffectClosureManifest_new (r : EffectClosureRequest) (resources : list EffectResourceClosure)
  : R EffectClosureManifest :=
  let resources := sort_by_key (fun e => key (requirement e)) resources in
  let? d := request_digest_of r in
  let m := mkManifest TRANSACTION_CONTRACT_VERSION d resources in
  let? _ := manifest_validate_body m in
  Ok m.

Definition manifest_digest_of (m : EffectClosureManifest) : R Digest :=
  let? _ := manifest_validate_body m in
  let? b := canonical_serialize (jmanifest m) in
  Ok (domain_digest MANIFEST_DOMAIN b).

Definition validate_effect_closure (r : EffectClosureRequest) (m : EffectClosureManifest)
  : R ClosedEffectBoundary :=
  let? _ := request_validate r in
  let? _ := manifest_validate_body m in
  let? d := request_digest_of r in
  guard? bool_decide (mf_request_digest m = d) else err RequestMismatch in
  let? _ := match_inventories (rq_resources r) (mf_resources m) in
  let? _ := validate_rollback_coverage (rq_rollback r) (mf_resources m) in
  let ext := external (mf_resources m) in
  let debt := external_debt (mf_resources m) in
  let? external_bytes := canonical_serialize (Array (jclosure <$> ext)) in
  let? debt_bytes := canonical_serialize (Array (jclosure <$> debt)) in
  let? rd := request_digest_of r in
  let? md := manifest_digest_of m in
  Ok (mkClosed rd md (rq_action_digest r) (rq_baseline_state r) (rq_rollback r)
        (domain_digest EXTERNAL_INVENTORY_DOMAIN external_bytes)
        (domain_digest EXTERNAL_DEBT_DOMAIN debt_bytes)
        (as_u16 (length (rq_resources r))) (as_u16 (length ext)) (as_u16 (length debt))).
End Closures.

(** * Transactions on the durable journal *)

Section Transactions.
Context `{Platform, Codec JournalBinding, JournalCodecs JournalBinding}.
Context (os : OsCall -> JournalBoundary -> bool).

Definition on_journal {A} (m : JournalM A) : M TransactionError JournalWorld A := fun w =>
  match m w with (Ok a, w') => (Ok a, w') | (Err e, w') => (Err (journal_error e), w') end.

Definition via_journal {A} (r : result JournalError A) : R A :=
  match r with Ok a => Ok a | Err e => Err (journal_error e) end.

Record EffectTransaction := mkTransaction {
  tx_paths : JournalPaths;
  tx_binding : JournalBinding;
  tx_cartridge : ContinuationCartridgeRecord JournalBinding;
  tx_closure : ClosedEffectBoundary }.

Definition expected_transaction_id (c : ClosedEffectBoundary) (assembly : Digest)
  (profile : DurableProfileId) (candidate_root owner_identity : Digest) : Digest :=
  let name := string_bytes (Zbf.DurableProfileId_as_str profile) in
  domain_digest TRANSACTION_ID_DOMAIN
    (cb_request_digest c ++ cb_manifest_digest c ++ cb_action_digest c ++ assembly ++
     to_be 2 (len name) ++ name ++ candidate_root ++ owner_identity).

Definition effect_journal_binding (c : ClosedEffectBoundary) (assembly : Digest)
  (profile : DurableProfileId) (candidate_root owner_identity : Digest) : R JournalBinding :=
  let? _ := for_each (fun d => reject? zero_digest d with err JournalBindingMismatch in Ok ())
              [assembly; candidate_root; owner_identity] in
  let b := JournalBinding_new
    (expected_transaction_id c assembly profile candidate_root owner_identity)
    assembly profile (cb_baseline_state c) candidate_root owner_identity in
  let? _ := via_journal (JournalBinding_validate b) in
  Ok b.

Definition validate_journal_binding (b : JournalBinding) (c : ClosedEffectBoundary) : R () :=
  let? _ := via_journal (JournalBinding_validate b) in
  guard? bool_decide (jb_old_root b = cb_baseline_state c) else err BaselineMismatch in
  guard? bool_decide (jb_transaction_id b =
           expected_transaction_id c (jb_assembly_manifest_digest b) (jb_durable_profile_id b)
             (jb_new_root b) (jb_owner_identity_digest b))
    else err JournalBindingMismatch in
  Ok ().

Definition validate_acceptance (a : EffectAccepted) (c : ClosedEffectBoundary) : R Digest :=
  let? _ := map_err (err InvalidEffectAcceptance) (EffectWitness.EffectAccepted_validate a) in
  guard? bool_decide (EffectWitness.action_digest a = cb_action_digest c) &&
         bool_decide (EffectWitness.state_snapshot a = cb_baseline_state c)
    else err EffectAcceptanceMismatch in
  Ok (EffectWitness.acceptance_digest a).

Definition TransactionReceipt_expected_digest (r : TransactionReceipt) : Digest :=
  domain_digest JOURNAL_RECEIPT_DOMAIN (canonical_bytes_of (Object
    [("acceptance_digest", jopt jhex (acceptance_digest r)); ("action_digest", jhex (action_digest r));
     ("baseline_state", jhex (baseline_state r)); ("candidate_state", jhex (candidate_state r));
     ("closure_manifest_digest", jhex (closure_manifest_digest r));
     ("contract_version", jnum (contract_version r)); ("disposition", jdisposition (disposition r));
     ("external_inventory_digest", jhex (external_inventory_digest r));
     ("external_resource_count", jnum (external_resource_count r));
     ("external_restoration_debt_count", jnum (external_restoration_debt_count r));
     ("external_restoration_debt_digest", jhex (external_restoration_debt_digest r));
     ("journal_binding_digest", jhex (journal_binding_digest r));
     ("journal_recovery_digest", jhex (journal_recovery_digest r));
     ("observed_root", jhex (observed_root r)); ("recovery_outcome", joutcome (recovery_outcome r));
     ("request_digest", jhex (request_digest r)); ("resource_count", jnum (resource_count r));
     ("restoration_scope", jscope (restoration_scope r))])).

Definition RecoveryReceipt_digest (r : RecoveryReceipt) : result JournalError Digest :=
  let? b := RecoveryReceipt_canonical_bytes r in
  Ok (domain_digest RECOVERY_DOMAIN b).

Definition from_recovery (b : JournalBinding) (c : ClosedEffectBoundary) (recovery : RecoveryReceipt)
  (acceptance : option Digest) : R TransactionReceipt :=
  let? _ := via_journal (RecoveryReceipt_canonical_bytes recovery) in
  let? bd := via_journal (JournalBinding_digest b) in
  guard? bool_decide (rr_binding_digest recovery = bd) else err JournalBindingMismatch in
  let '(d, scope, expected_root) :=
    match rr_outcome recovery with
    | NewRootCommitted | AlreadyCommitted =>
        (CandidateCommitted, NotApplicableCandidateCommit, jb_new_root b)
    | NotStartedOldRoot | OldRootAborted | AlreadyAborted =>
        (BaselineRootRecovered,
         if (cb_external_restoration_debt_count c =? 0)%N then DeclaredEffectClosure
         else ProjectJournalRootOnly,
         jb_old_root b)
    end in
  reject? bool_decide (d = CandidateCommitted) && bool_decide (acceptance = None)
    with err MissingEffectAcceptance in
  let acceptance := if bool_decide (d = CandidateCommitted) then acceptance else None in
  guard? bool_decide (rr_observed_root recovery = expected_root) &&
         bool_decide (cb_baseline_state c = jb_old_root b)
    else err JournalRootMismatch in
  let? rd := via_journal (RecoveryReceipt_digest recovery) in
  let receipt x := mkTxReceipt TRANSACTION_CONTRACT_VERSION d scope (cb_request_digest c)
    (cb_manifest_digest c) (cb_action_digest c) acceptance (jb_old_root b) (jb_new_root b)
    (cb_external_inventory_digest c) (cb_external_restoration_debt_digest c) (cb_resource_count c)
    (cb_external_resource_count c) (cb_external_restoration_debt_count c) bd rd (rr_outcome recovery)
    (rr_observed_root recovery) x in
  Ok (receipt (TransactionReceipt_expected_digest (receipt ZERO))).

Definition begin_effect_transaction (paths : JournalPaths) (b : JournalBinding) (c : ClosedEffectBoundary)
  (now : N) : M TransactionError JournalWorld EffectTransaction :=
  let! _ := lift (validate_journal_binding b c) in
  let! cartridge := on_journal (prepare_bound_journal os paths b now) in
  sret (mkTransaction paths b cartridge c).

Definition commit (t : EffectTransaction) (a : EffectAccepted) : M TransactionError JournalWorld TransactionReceipt :=
  let! acceptance := lift (validate_acceptance a (tx_closure t)) in
  let! recovery := on_journal (commit_bound_journal os (tx_paths t) (tx_cartridge t)) in
  lift (from_recovery (tx_binding t) (tx_closure t) recovery (Some acceptance)).

Definition abort (t : EffectTransaction) : M TransactionError JournalWorld TransactionReceipt :=
  let! recovery := on_journal (abort_bound_journal os (tx_paths t) (tx_cartridge t)) in
  lift (from_recovery (tx_binding t) (tx_closure t) recovery None).

Definition recover_effect_transaction (paths : JournalPaths) (b : JournalBinding)
  (c : ClosedEffectBoundary) (a : option EffectAccepted) : M TransactionError JournalWorld TransactionReceipt :=
  let! _ := lift (validate_journal_binding b c) in
  let! acceptance := lift
    match a with
    | Some accepted => let? d := validate_acceptance accepted c in Ok (Some d)
    | None => Ok None
    end in
  let! recovery := on_journal (recover_bound_journal os paths b) in
  lift (from_recovery b c recovery acceptance).

Definition jtx_receipt (r : TransactionReceipt) : Value :=
  Object [("contract_version", jnum (contract_version r)); ("disposition", jdisposition (disposition r));
          ("restoration_scope", jscope (restoration_scope r)); ("request_digest", jhex (request_digest r));
          ("closure_manifest_digest", jhex (closure_manifest_digest r));
          ("action_digest", jhex (action_digest r));
          ("acceptance_digest", jopt jhex (acceptance_digest r));
          ("baseline_state", jhex (baseline_state r)); ("candidate_state", jhex (candidate_state r));
          ("external_inventory_digest", jhex (external_inventory_digest r));
          ("external_restoration_debt_digest", jhex (external_restoration_debt_digest r));
          ("resource_count", jnum (resource_count r));
          ("external_resource_count", jnum (external_resource_count r));
          ("external_restoration_debt_count", jnum (external_restoration_debt_count r));
          ("journal_binding_digest", jhex (journal_binding_digest r));
          ("journal_recovery_digest", jhex (journal_recovery_digest r));
          ("recovery_outcome", joutcome (recovery_outcome r)); ("observed_root", jhex (observed_root r));
          ("receipt_digest", jhex (receipt_digest r))].

Definition TransactionReceipt_canonical_bytes (r : TransactionReceipt) : R bytes :=
  guard? bool_decide (receipt_digest r = TransactionReceipt_expected_digest r) else err ReceiptDigestMismatch in
  canonical_serialize (jtx_receipt r).
End Transactions.
