(* ===== verification/GateTheorems.v ===== *)
(** Guarantees of effect-closed transactions: what a closed boundary covers,
    and what a transaction receipt says about the published root, whatever
    history the journal went through before. *)

From S2P Require Import Prelude.
From S2P Require Import Ordering.
From S2P Require Import DurableStore.
From S2P Require Import DurableJournal.
From S2P Require Import DurableProtocol.
From S2P Require Import DurableTheorems.
From S2P Require Import Identity.
From S2P Require Import GateTransaction.
From S2P Require Effect.
From S2P Require EffectWitness.

(** * The boundary *)

Lemma inventory_loop_spec (previous : option (TransactionResourceKind * Digest))
  (l : list TransactionResourceRequirement) :
  inventory_loop previous l = Ok () <->
  (forall r, r ∈ l -> requirement_validate r = Ok ()) /\
  strictly_ascending (match previous with Some p => p :: (key <$> l) | None => key <$> l end) = true.
Proof.
  revert previous. induction l as [|r l IH]; intros previous; cbn [inventory_loop].
  { split; [intros _|done]. split; [|by destruct previous]. intros m Hm. by apply elem_of_nil in Hm. }
  rewrite bind_unit_Ok. setoid_rewrite elem_of_cons. destruct previous as [p|].
  - cbn [fmap list_fmap].
    change (strictly_ascending (p :: key r :: (key <$> l))) with
      (ltb p (key r) && strictly_ascending (key r :: (key <$> l))).
    unfold geb. destruct (ltb p (key r)); cbn [negb andb]; [rewrite IH|]; naive_solver.
  - rewrite IH. cbn [fmap list_fmap]. naive_solver.
Qed.

(** How each isolation mode is undone. *)
Definition undone_by (i : ResourceIsolationMode) : option ResourceRestorationMode :=
  match i with
  | ImmutableSnapshot | Buffered | DelayedUntilCommit => Some NotNeeded
  | IsoRecordedReplay => Some RecordedReplay
  | IsoJournaled => Some JournalRollback
  | Transactional => Some TransactionRollback
  | IsoUnsupported => None
  end.

(** A resource is isolated for the access it grants and can be undone. *)
Definition isolated (e : EffectResourceClosure) : Prop :=
  undone_by (isolation e) = Some (restoration e) /\
  (writes (access (requirement e)) = true -> isolation e <> ImmutableSnapshot /\ isolation e <> IsoRecordedReplay) /\
  (access (requirement e) = Read -> isolation e <> DelayedUntilCommit).

Lemma closure_validate_spec (e : EffectResourceClosure) : closure_validate e = Ok () <-> isolated e.
Proof.
  unfold closure_validate, isolated.
  destruct e as [[o k s b a au] i r]; cbn. destruct a, i, r; cbn; naive_solver.
Qed.

Lemma match_inventories_spec (requested : list TransactionResourceRequirement)
  (declared : list EffectResourceClosure) :
  match_inventories requested declared = Ok () <->
  requirement <$> declared = requested /\ (forall e, e ∈ declared -> isolated e).
Proof.
  revert requested. induction declared as [|e declared IH]; intros [|r requested]; cbn.
  - split; [intros _; split; [done|]; intros e He; by apply elem_of_nil in He|done].
  - split; [done|]. by intros [? _].
  - split; [done|]. by intros [? _].
  - setoid_rewrite elem_of_cons. case_bool_decide as Heq.
    + rewrite bind_unit_Ok, closure_validate_spec, IH. subst. naive_solver.
    + destruct (ltb (key r) (key (requirement e))); (split; [done|]); intros [Hc _]; congruence.
Qed.

(** The rollback class covers every write, and claims neither more nor less
    than the writes there are. *)
Definition rollback_matches (r : Effect.EffectRollback) (l : list EffectResourceClosure) : Prop :=
  r <> Effect.RollbackRawFallback /\
  (r = Effect.RollbackReadOnly <-> writing l = []) /\
  (r = Effect.SingleAtomic -> length (writing l) = 1) /\
  (forall e, e ∈ writing l -> rollback_covers r (isolation e) = true).

Lemma validate_rollback_coverage_spec (r : Effect.EffectRollback) (l : list EffectResourceClosure) :
  validate_rollback_coverage r l = Ok () <-> rollback_matches r l.
Proof.
  unfold validate_rollback_coverage, rollback_matches. rewrite !reject_Ok, !bind_unit_Ok, !reject_Ok, for_each_Ok.
  setoid_rewrite guard_Ok. rewrite bool_decide_eq_false, andb_false_iff, bool_decide_eq_false, negb_false_iff,
    Nat.eqb_eq.
  destruct (writing l) as [|w ws]; cbn [length]; rewrite !reject_Ok;
    rewrite ?negb_false_iff, ?bool_decide_eq_true, ?bool_decide_eq_false;
    destruct (decide (r = Effect.SingleAtomic)); naive_solver.
Qed.

Lemma as_u16_small (n : nat) : (n <= 256)%nat -> as_u16 n = N.of_nat n.
Proof. intros Hn. unfold as_u16. apply N.mod_small. lia. Qed.

Section Boundary.
Context `{Platform, Codec Effect.EffectProgramBody}.

(** A closed effect boundary covers exactly the requested inventory.  The
    declaration lists the requested resources, no more and no fewer, under
    distinct keys; each is isolated for its access and has the restoration
    its isolation needs; the rollback class covers every write; and the
    external restoration debt counts the external writes that leave the
    boundary before commit. *)
Theorem effect_closure_exact (r : EffectClosureRequest) (m : EffectClosureManifest)
  (c : ClosedEffectBoundary) :
  validate_effect_closure r m = Ok c ->
  requirement <$> mf_resources m = rq_resources r /\ NoDup (key <$> rq_resources r) /\
  (forall e, e ∈ mf_resources m -> isolated e) /\ rollback_matches (rq_rollback r) (mf_resources m) /\
  cb_resource_count c = N.of_nat (length (rq_resources r)) /\
  (cb_external_restoration_debt_count c = 0%N <->
   forall e, e ∈ mf_resources m -> is_external (kind (requirement e)) = true ->
     writes (access (requirement e)) = true -> isolation e = Buffered \/ isolation e = DelayedUntilCommit) /\
  cb_action_digest c = rq_action_digest r /\ cb_baseline_state c = rq_baseline_state r.
Proof.
  unfold validate_effect_closure. intros Hok. repeat inv_ok1.
  repeat match goal with u : () |- _ => destruct u end.
  match goal with H : match_inventories _ _ = Ok () |- _ => apply match_inventories_spec in H as [Hreq Hiso] end.
  match goal with H : validate_rollback_coverage _ _ = Ok () |- _ => apply validate_rollback_coverage_spec in H end.
  match goal with H : request_validate _ = Ok () |- _ => rename H into Hrq end.
  unfold request_validate, validate_sorted_requirements in Hrq. repeat inv_ok1. breflect.
  apply inventory_loop_spec in Hrq as [_ Hsort].
  assert (Hlen : (length (rq_resources r) <= 256)%nat) by (unfold TRANSACTION_MAX_RESOURCES in *; lia).
  cbn [cb_resource_count cb_external_restoration_debt_count cb_action_digest cb_baseline_state].
  split_and!; try done.
  - by apply sorted_NoDup, strictly_ascending_spec.
  - by apply as_u16_small.
  - rewrite as_u16_small.
    2: { rewrite <- Hreq, length_fmap in Hlen. unfold external_debt, external.
         etrans; [apply filter_length_le|]. etrans; [apply filter_length_le|]. done. }
    transitivity (external_debt (mf_resources m) = []).
    { rewrite <- length_zero_iff_nil. lia. }
    assert (Hnil : forall (p : EffectResourceClosure -> bool) l, List.filter p l = [] <-> forall e, e ∈ l -> p e = false).
    { clear. intros p l. induction l as [|x l IH]; cbn; [split; [intros _ e He; by apply elem_of_nil in He|done]|].
      setoid_rewrite elem_of_cons. destruct (p x) eqn:Hp; [|rewrite IH].
      - split; [done|]. intros Hall. specialize (Hall x (or_introl eq_refl)). congruence.
      - split; [intros Hall e [->|He]; auto|auto]. }
    unfold external_debt, external. rewrite Hnil. setoid_rewrite list_elem_of_In. setoid_rewrite filter_In.
    setoid_rewrite <- list_elem_of_In. split.
    + intros Hall e He Hx Hw. specialize (Hall e (conj He Hx)). rewrite Hw in Hall.
      destruct (Hiso e He) as (Hu & Hwr & _). specialize (Hwr Hw).
      destruct (isolation e); cbn in *; first [discriminate | by left | by right | by destruct Hwr].
    + intros Hall e [He Hx]. destruct (writes (access (requirement e))) eqn:Hw; [|done].
      by destruct (Hall e He Hx Hw) as [-> | ->].
Qed.
End Boundary.

(** An owner's resource that an operation of class [c] may use. *)
Definition granted (l : list TransactionResourceRequirement) (o : Zbf.ArtifactOwner) (c : Effect.EffectClass) : Prop :=
  exists r, r ∈ l /\ owner r = o /\ (c <> Effect.ReadOnly -> writes (access r) = true).

Lemma covers_spec l o w fsys :
  covers l o w fsys = true <->
  exists r, r ∈ l /\ owner r = o /\ (fsys = true -> kind r = ProjectFilesystem) /\
    (w = true -> writes (access r) = true).
Proof.
  unfold covers. rewrite existsb_exists. setoid_rewrite <- list_elem_of_In.
  setoid_rewrite andb_true_iff. setoid_rewrite andb_true_iff. setoid_rewrite orb_true_iff.
  setoid_rewrite negb_true_iff. setoid_rewrite bool_decide_eq_true.
  split; intros (r & Hr & Hp); exists r; destruct w, fsys; naive_solver.
Qed.

Section Requests.
Context `{Platform, Codec Effect.EffectProgramBody}.

(** A closure request accounts for everything its program touches.  The
    listed resources are those given, up to order; every target has a
    writable project-filesystem resource of its owner, pinned to the
    program's base state; and every capability use has a resource of its
    owner, writable unless the use only reads. *)
Theorem closure_request_covers (p : Effect.EffectProgram) (l : list TransactionResourceRequirement)
  (r : EffectClosureRequest) :
  EffectClosureRequest_new p l = Ok r ->
  rq_resources r ≡ₚ l /\ rq_action_digest r = Effect.action_digest p /\
  (forall t, t ∈ Effect.targets (Effect.body p) -> exists q, q ∈ l /\ owner q = Effect.t_owner t /\
     kind q = ProjectFilesystem /\ writes (access q) = true /\
     baseline_state_digest q = Effect.base_state (Effect.body p)) /\
  (forall op o name g d c, op ∈ Effect.operations (Effect.body p) ->
     Effect.op_capability op = Some (o, name, g, d, c) -> granted l o c).
Proof.
  unfold EffectClosureRequest_new, sort_and_validate_requirements. intros Hok. repeat inv_ok1.
  repeat match goal with u : () |- _ => destruct u end. cbn [rq_resources rq_action_digest].
  match goal with H : validate_program_resource_mapping _ _ = Ok () |- _ => rename H into Hm end.
  unfold validate_program_resource_mapping in Hm. rewrite !bind_unit_Ok, !for_each_Ok in Hm.
  destruct Hm as (Hb & Ht & Ho). split_and!; [apply sort_by_key_perm|done| |].
  - intros t Hin. specialize (Ht t Hin). apply guard_Ok in Ht as [Hc _].
    apply covers_spec in Hc as (q & Hq & Hqo & Hk & Hw). exists q.
    rewrite sort_by_key_perm in Hq. split_and!; auto.
    destruct (List.find _ _) eqn:Hf; [done|]. pose proof (find_none _ _ Hf q) as Hn.
    rewrite <- list_elem_of_In, sort_by_key_perm in Hn. specialize (Hn Hq). cbn in Hn.
    rewrite Hk in Hn by done. rewrite bool_decide_eq_true_2 in Hn by done. cbn in Hn. by breflect.
  - intros op o name g d c Hop Hcap. specialize (Ho op Hop). unfold granted.
    destruct op; cbn in Hcap; simplify_eq; apply guard_Ok in Ho as [Hc _];
      apply covers_spec in Hc as (q & Hq & Hqo & _ & Hw); rewrite sort_by_key_perm in Hq;
      exists q; split_and!; auto; intros Hne; try done; apply Hw; by rewrite bool_decide_eq_false_2.
Qed.
End Requests.

(** * Transactions *)

(** The three ways a transaction is settled. *)
Inductive Attempt :=
| ByCommit (a : EffectAccepted) | ByAbort | ByRecovery (a : option EffectAccepted).

Section Settlement.
Context `{Platform, !PlatformOk, Codec JournalBinding, !CodecOk JournalBinding}.
Context `{JournalCodecs JournalBinding, !JournalCodecsOk JournalBinding}.
Context (ps : JournalPaths) (b : JournalBinding) (bdg : Digest) (r0 : RootPublicationReceipt).
Context (os : OsCall -> JournalBoundary -> bool).

Definition settle (t : EffectTransaction) (how : Attempt) : M TransactionError JournalWorld TransactionReceipt :=
  match how with
  | ByCommit a => commit os t a
  | ByAbort => abort os t
  | ByRecovery a => recover_effect_transaction os (tx_paths t) (tx_binding t) (tx_closure t) a
  end.

(** The acceptance an attempt presents. *)
Definition presented (how : Attempt) : option EffectAccepted :=
  match how with ByCommit a => Some a | ByAbort => None | ByRecovery a => a end.

(** The acceptance was validated for this transaction's action and state. *)
Definition accepts (c : ClosedEffectBoundary) (a : EffectAccepted) : Prop :=
  EffectWitness.EffectAccepted_validate a = Ok () /\
  EffectWitness.action_digest a = cb_action_digest c /\
  EffectWitness.state_snapshot a = cb_baseline_state c.

Lemma validate_acceptance_spec (a : EffectAccepted) (c : ClosedEffectBoundary) (d : Digest) :
  validate_acceptance a c = Ok d -> accepts c a /\ d = EffectWitness.acceptance_digest a.
Proof.
  unfold validate_acceptance. intros Hok. repeat inv_ok1. breflect.
  repeat match goal with u : () |- _ => destruct u end. done.
Qed.

(** A transaction settles by one journal operation, whose receipt it turns
    into its own with the acceptance it validated. *)
Lemma settle_inv (t : EffectTransaction) (how : Attempt) (w w' : JournalWorld) (r : TransactionReceipt) :
  settle t how w = (Ok r, w') ->
  exists (m : JournalM RecoveryReceipt) x acc,
    (m = commit_bound_journal os (tx_paths t) (tx_cartridge t) \/
     m = abort_bound_journal os (tx_paths t) (tx_cartridge t) \/
     m = recover_bound_journal os (tx_paths t) (tx_binding t)) /\
    m w = (Ok x, w') /\ from_recovery (tx_binding t) (tx_closure t) x acc = Ok r /\
    (forall d, acc = Some d -> exists a, presented how = Some a /\ accepts (tx_closure t) a /\
       d = EffectWitness.acceptance_digest a).
Proof.
  destruct how as [a| |a]; cbn [settle]; unfold commit, abort, recover_effect_transaction, sbind, lift, on_journal.
  - destruct (validate_acceptance a (tx_closure t)) as [d|e] eqn:Ha; [|done].
    apply validate_acceptance_spec in Ha as [Ha ->].
    destruct (commit_bound_journal _ _ _ w) as [[x|e] w1] eqn:Hc; [|done]. intros [= Hf ->].
    eexists _, x, _. split_and!; [by left|done|exact Hf|]. intros d [= <-]. eauto.
  - destruct (abort_bound_journal _ _ _ w) as [[x|e] w1] eqn:Hc; [|done]. intros [= Hf ->].
    eexists _, x, _. split_and!; [by right; left|done|exact Hf|done].
  - destruct (validate_journal_binding _ _) as [[]|e]; [|done].
    destruct a as [a|]; cbn [mbind result_bind].
    + destruct (validate_acceptance a (tx_closure t)) as [d|e] eqn:Ha; [|done].
      apply validate_acceptance_spec in Ha as [Ha ->].
      destruct (recover_bound_journal os (tx_paths t) (tx_binding t) w) as [[x|e] w1] eqn:Hc; [|done]. intros [= Hf ->].
      eexists _, x, _. split_and!; [by right; right|done|exact Hf|]. intros d [= <-]. eauto.
    + destruct (recover_bound_journal _ _ _ w) as [[x|e] w1] eqn:Hc; [|done]. intros [= Hf ->].
      eexists _, x, _. split_and!; [by right; right|done|exact Hf|done].
Qed.

(** What the receipt built from a journal receipt says. *)
Lemma from_recovery_inv (c : ClosedEffectBoundary) (x : RecoveryReceipt) (acc : option Digest) (r : TransactionReceipt) :
  from_recovery b c x acc = Ok r ->
  baseline_state r = jb_old_root b /\ candidate_state r = jb_new_root b /\
  action_digest r = cb_action_digest c /\
  receipt_digest r = TransactionReceipt_expected_digest r /\
  match rr_outcome x with
  | NewRootCommitted | AlreadyCommitted =>
      disposition r = CandidateCommitted /\ restoration_scope r = NotApplicableCandidateCommit /\
      observed_root r = jb_new_root b /\ acceptance_digest r = acc /\ acc <> None
  | _ =>
      disposition r = BaselineRootRecovered /\ acceptance_digest r = None /\ observed_root r = jb_old_root b /\
      (restoration_scope r = DeclaredEffectClosure <-> cb_external_restoration_debt_count c = 0%N)
  end.
Proof.
  unfold from_recovery. intros Hok. destruct (rr_outcome x); cbn in Hok; repeat inv_ok1; breflect;
    cbn [baseline_state candidate_state action_digest receipt_digest disposition restoration_scope
         observed_root acceptance_digest] in *; subst; split_and!; try done;
    destruct (N.eqb_spec (cb_external_restoration_debt_count c) 0); naive_solver.
Qed.
Lemma refines_settled (m : JournalM RecoveryReceipt) a f plan x w' ok er :
  legal b bdg a -> wp os False m (refines ps b bdg r0 a ok er) f ->
  (forall y a', ok y a' -> a_recov a' = Some y) -> m (mkWorld f plan) = (Ok x, w') ->
  exists a', legal b bdg a' /\ repr ps b bdg r0 a' (fs w') /\ a_recov a' = Some x.
Proof.
  intros Hl Hwp Hok Hrun.
  destruct (Hwp (mkWorld f plan) eq_refl) as [(a' & Ha & Hr' & Hp) _]; [done|].
  rewrite Hrun in Hr', Hp. exists a'. split_and!; [by eapply legal_reachable|exact Hr'|by apply Hok].
Qed.

(** In any state of the abstract protocol, the journal operation of a
    settlement returns the receipt now persisted. *)
Lemma settle_refines (cart : ContinuationCartridgeRecord JournalBinding) (m : JournalM RecoveryReceipt)
  a f plan x w' :
  setup ps b bdg r0 -> legal b bdg a -> repr ps b bdg r0 a f ->
  (m = commit_bound_journal os ps cart \/ m = abort_bound_journal os ps cart \/ m = recover_bound_journal os ps b) ->
  m (mkWorld f plan) = (Ok x, w') ->
  exists a', legal b bdg a' /\ repr ps b bdg r0 a' (fs w') /\ a_recov a' = Some x.
Proof.
  intros Hs Hl Hr [->|[->| ->]] Hrun.
  - eapply (refines_settled _ a f plan x w' _ _ Hl (commit_refines ps b bdg r0 Hs os False cart a f Hl Hr));
      [by intros y a' [? _]|exact Hrun].
  - eapply (refines_settled _ a f plan x w' _ _ Hl (abort_refines ps b bdg r0 Hs os False cart a f Hl Hr));
      [by intros y a' [? _]|exact Hrun].
  - eapply (refines_settled _ a f plan x w' _ _ Hl (recover_refines ps b bdg r0 Hs os False a f Hl Hr));
      [by intros y a' [? _]|exact Hrun].
Qed.

(** C14: A transaction receipt tells the truth about the published root.  After
    any history of journal operations from a fresh transaction, with any
    crashes and failures, a receipt obtained by commit, abort or recovery
    says [candidate committed] only if the candidate root is the published
    root and an acceptance of exactly this action on exactly this baseline
    was presented and validated; otherwise the baseline root is still the
    published one, no acceptance is claimed, and restoration of the declared
    closure is claimed only when no external write escaped. *)
Theorem transaction_receipt_truth (t : EffectTransaction) (how : Attempt) (f0 f : FS)
  (plan : FaultPlan JournalBoundary) (w' : JournalWorld) (r : TransactionReceipt) :
  setup ps b bdg r0 -> fresh ps r0 f0 -> evolves ps b f0 f ->
  tx_paths t = ps -> tx_binding t = b ->
  settle t how (mkWorld f plan) = (Ok r, w') ->
  baseline_state r = jb_old_root b /\ candidate_state r = jb_new_root b /\
  action_digest r = cb_action_digest (tx_closure t) /\
  match disposition r with
  | CandidateCommitted =>
      read_root ps (fs w') = Ok (root_published b (pd b)) /\ observed_root r = jb_new_root b /\
      exists a, presented how = Some a /\ accepts (tx_closure t) a /\
        acceptance_digest r = Some (EffectWitness.acceptance_digest a)
  | BaselineRootRecovered =>
      read_root ps (fs w') = Ok r0 /\ observed_root r = jb_old_root b /\ acceptance_digest r = None /\
      (restoration_scope r = DeclaredEffectClosure <->
       cb_external_restoration_debt_count (tx_closure t) = 0%N)
  end.
Proof.
  intros Hs Hf Hev Hps Hbb Hrun.
  destruct (fresh_refines _ _ _ _ Hs _ _ Hf Hev) as (a & _ & Hl & Hr).
  apply settle_inv in Hrun as (m & x & acc & Hm & Hrun & Hrec & Hacc).
  rewrite Hps, Hbb in *.
  destruct (settle_refines _ _ _ _ _ _ _ Hs Hl Hr Hm Hrun) as (a' & Hl' & Hr' & Hx).
  destruct (observe _ _ _ _ _ _ Hs Hr') as [Hroot _].
  apply from_recovery_inv in Hrec as (Hb & Hc & Ha & _ & Hd). split_and!; [done..|].
  rewrite Hroot. clear Hroot Hrun Hr Hr'.
  destruct Hl' as [y Hy| |n d|d y _ Hy|d y why _ Hy]; cbn in Hx; simplify_eq; cbn in Hy;
    destruct Hy as (o & Ho & ->); cbn in Ho, Hd; destruct o; try done;
    destruct Hd as (-> & Hd); cbn; try tauto.
  all: destruct Hd as (_ & Hobs & Hacq & Hn); split_and!; [done..|];
    destruct acc as [dg|]; [|done]; destruct (Hacc dg eq_refl) as (ac & Hp & Hac & ->); eauto.
Qed.
End Settlement.
