(* ===== verification/GateWitness.v ===== *)
(** A concrete effect-closed transaction: an effect program, its resource
    inventory and boundary, and a commit on a fresh journal, on the platform
    of [DurableWitness]. *)

From S2P Require Import Prelude.
From S2P Require Import DurableStore.
From S2P Require Import DurableJournal.
From S2P Require Import DurableProtocol.
From S2P Require Import DurableTheorems.
From S2P Require Import FixedCodec.
From S2P Require Import DurableWitness.
From S2P Require Import Identity.
From S2P Require Import GateTransaction.
From S2P Require Import GateTheorems.
From S2P Require Effect.
From S2P Require EffectWitness.
From S2P Require Zbf.

#[global] Instance journal_binding_fields : Fields JournalBinding := {|
  widths := [2; 32; 32; 1; 32; 32; 32; 32];
  to_fields := fun b =>
    [u16_field (jb_schema_version b); jb_transaction_id b; jb_assembly_manifest_digest b;
     enum_field all_profiles (jb_durable_profile_id b); jb_durable_profile_digest b;
     jb_old_root b; jb_new_root b; jb_owner_identity_digest b];
  of_fields := fun fields =>
    match fields with
    | [v; tx; asm; prof; pdg; old; new; own] =>
        (fun p => mkBinding (of_be v) tx asm p pdg old new own) <$> enum_of all_profiles prof
    | _ => None
    end |}.

#[global] Instance journal_binding_fields_ok : FieldsOk JournalBinding.
Proof. fields_ok. Qed.

#[global] Instance journal_record_fields : Fields (DurableJournalRecord JournalBinding) := {|
  widths := [2; 1; 8; 1; 32; 1] ++ widths JournalBinding;
  to_fields := fun r =>
    [u16_field (jr_schema_version r); enum_field all_states (jr_state r); u64_field (jr_sequence r);
     bool_field (is_some (jr_predecessor_record_digest r));
     digest_opt_field (jr_predecessor_record_digest r);
     enum_field all_reasons (jr_abort_reason r)] ++ to_fields (jr_binding r);
  of_fields := fun fields =>
    match fields with
    | v :: st :: n :: t :: x :: why :: rest =>
        st ← enum_of all_states st; pred ← digest_opt_of t x; why ← enum_of all_reasons why;
        b ← of_fields rest; Some (mkRecord (of_be v) b st (of_be n) pred why)
    | _ => None
    end |}.

#[global] Instance journal_record_fields_ok : FieldsOk (DurableJournalRecord JournalBinding).
Proof.
  split; [by vm_compute | intros [v b st n pred why] (Hv & Hb & Hn & Hp); cbn in Hv, Hb, Hn, Hp ..].
  - cbn [to_fields widths journal_record_fields jr_schema_version jr_state jr_sequence
      jr_predecessor_record_digest jr_abort_reason jr_binding].
    rewrite fmap_app, to_fields_widths by done. f_equal. cbn. by field_rewrites.
  - cbn [to_fields of_fields journal_record_fields jr_schema_version jr_state jr_sequence
      jr_predecessor_record_digest jr_abort_reason jr_binding app].
    rewrite state_of_field, digest_opt_of_field, reason_of_field, of_to_fields by done. cbn.
    by rewrite u16_of_field, u64_of_field.
Qed.

Module GateToy.
Import DurableWitness.Toy.

#[local] Instance journal_codec' : Codec JournalBinding := fixed_codec.
#[local] Instance journal_codec_ok' : CodecOk JournalBinding := fixed_codec_ok.
#[local] Instance plain_codecs : JournalCodecs JournalBinding := {|
  root_codec := fixed_codec; journal_codec := fixed_codec; cartridge_codec := fixed_codec;
  death_codec := fixed_codec; recovery_codec := fixed_codec |}.
#[local] Instance plain_codecs_ok : JournalCodecsOk JournalBinding.
Proof. split; apply fixed_codec_ok. Qed.
#[local] Instance program_codec : Codec Effect.EffectProgramBody :=
  {| encode := fun p => Effect.base_state p; decode := fun _ => None |}.

(** One file replaced, under a journaled rollback; a service is notified at
    commit. *)
Definition program : Effect.EffectProgram :=
  match Effect.EffectProgram_new (letter "o") "edit/replace"
          [Effect.mkTarget Zbf.FsZero (letter "f") (letter "o")] []
          [Effect.ReplaceExactFile (letter "f") (letter "x") (letter "y")] []
          [Effect.mkStep (letter "v") (letter "p") (letter "e") (letter "o") Effect.ExactChecker]
          Effect.Journaled with
  | Ok p => p
  | Err _ => Effect.mkProgram (Effect.mkProgramBody 0 [] "" [] [] [] [] [] Effect.Journaled) []
  end.

Definition file_resource : TransactionResourceRequirement :=
  mkRequirement Zbf.FsZero ProjectFilesystem (letter "1") (letter "o") ReadWrite (letter "2").
Definition service_resource : TransactionResourceRequirement :=
  mkRequirement Zbf.ZeroStack ExternalService (letter "3") (letter "4") Write (letter "5").

Definition request : EffectClosureRequest :=
  match EffectClosureRequest_new program [service_resource; file_resource] with
  | Ok r => r | Err _ => mkRequest 0 [] [] Effect.Journaled [] end.
Definition manifest : EffectClosureManifest :=
  match EffectClosureManifest_new request
          [mkClosure service_resource DelayedUntilCommit NotNeeded;
           mkClosure file_resource IsoJournaled JournalRollback] with
  | Ok m => m | Err _ => mkManifest 0 [] [] end.
Definition closed : ClosedEffectBoundary :=
  match validate_effect_closure request manifest with
  | Ok c => c | Err _ => mkClosed [] [] [] [] Effect.Journaled [] [] 0 0 0 end.

Lemma closure_request_covers_witness :
  EffectClosureRequest_new program [service_resource; file_resource] = Ok request /\
  exists q, q ∈ [service_resource; file_resource] /\ kind q = ProjectFilesystem /\ writes (access q) = true.
Proof.
  assert (Hr : EffectClosureRequest_new program [service_resource; file_resource] = Ok request)
    by (vm_compute; reflexivity).
  split; [exact Hr|].
  destruct (closure_request_covers program _ request Hr) as (_ & _ & Ht & _).
  destruct (Ht (Effect.mkTarget Zbf.FsZero (letter "f") (letter "o"))) as (q & Hq & _ & Hk & Hw & _).
  { vm_compute. left. }
  exists q. split_and!; assumption.
Defined.

Lemma effect_closure_exact_witness :
  validate_effect_closure request manifest = Ok closed /\
  requirement <$> mf_resources manifest = rq_resources request.
Proof.
  assert (Hc : validate_effect_closure request manifest = Ok closed) by (vm_compute; reflexivity).
  split; [exact Hc|]. exact (proj1 (effect_closure_exact request manifest closed Hc)).
Defined.

Definition tx_b : JournalBinding :=
  match effect_journal_binding closed (letter "a") Zbf.PortableStrict (letter "n") (letter "w") with
  | Ok b => b | Err _ => mkBinding 0 [] [] Zbf.PortableStrict [] [] [] [] end.

Lemma tx_setup : setup ps tx_b (letter "h") r0.
Proof.
  split; try reflexivity; try discriminate.
  - split_and!; [by vm_compute | repeat constructor; by vm_compute].
  - split_and!; [by vm_compute | by vm_compute | repeat constructor].
Qed.

Definition accepted : EffectAccepted :=
  EffectWitness.mkAccepted 1 (letter "c") (Effect.action_digest program) (letter "q") (letter "p")
    (letter "o") (letter "e") (letter "v") Effect.ExactChecker (letter "h").

Definition started : FS := fs (run ps tx_b never (OpPrepare 5) (mkWorld f0 FaultPlan_none)).
Definition transaction : EffectTransaction :=
  match fst (begin_effect_transaction never ps tx_b closed 5 (mkWorld f0 FaultPlan_none)) with
  | Ok t => t
  | Err _ => mkTransaction ps tx_b (cart0 tx_b (letter "h")) closed
  end.

Lemma started_evolves : evolves ps tx_b f0 started.
Proof. apply evolves_op; [done | constructor]. Qed.

(** Begun and committed, the transaction reports the candidate root, which is
    the published one. *)
Lemma transaction_receipt_truth_witness :
  exists r w', settle never transaction (ByCommit accepted) (mkWorld started FaultPlan_none) = (Ok r, w') /\
    disposition r = CandidateCommitted /\ read_root ps (fs w') = Ok (root_published tx_b (pd tx_b)).
Proof.
  assert (Hrun : exists r w', settle never transaction (ByCommit accepted)
      (mkWorld started FaultPlan_none) = (Ok r, w') /\ disposition r = CandidateCommitted).
  { eexists _, _. split; vm_compute; reflexivity. }
  destruct Hrun as (r & w' & Hrun & Hd). exists r, w'. split; [exact Hrun|]. split; [exact Hd|].
  pose proof (transaction_receipt_truth ps tx_b (letter "h") r0 never transaction (ByCommit accepted) f0
    started FaultPlan_none w' r tx_setup fresh_ok started_evolves) as Ht.
  assert (Hp : tx_paths transaction = ps) by (vm_compute; reflexivity).
  assert (Hb : tx_binding transaction = tx_b) by (vm_compute; reflexivity).
  destruct (Ht Hp Hb Hrun) as (_ & _ & _ & Hm). rewrite Hd in Hm. exact (proj1 Hm).
Defined.
End GateToy.
