(* ===== verification/Recovery.v ===== *)
(** Dominance-complete recovery ([zero-gate/src/recovery.rs]).  A problem lists
    the worlds the evidence leaves possible, the effects protected in each,
    and the queries that could tell them apart.  The controller completes when
    one accessible effect is protected in every world; otherwise it names the
    minimal conflicts and the query of a cost-optimal strategy, or falls back
    to the frozen baseline.  Sets of worlds and effects are bit masks, as in
    the source. *)

From S2P Require Import Prelude.
From S2P Require Import Canonical.
From S2P Require Import Ordering.
From S2P Require Import DurableStore.
From S2P Require Import Identity.
From S2P Require ZeroRef.
From S2P Require Evidence.
From S2P Require SemanticCut.
From S2P Require Import RobustSnap.

Notation VerifiedEvidence := Evidence.EvidenceCertificate.

Definition DCR_CONTRACT_VERSION : N := 1.
Definition DCR_SCHEMA_VERSION : string := "racc-r-dcr-certificate".
Definition DCR_PROBLEM_SCHEMA_VERSION : string := "zerostack.dcr.problem".
Definition DCR_MAX_WORLDS : nat := ROBUST_SNAP_MAX_WORLDS.
Definition DCR_MAX_HYPERGRAPH_STATES : N := 65536.
Definition DCR_MAX_QUERIES : nat := 32.
Definition DCR_MAX_OUTCOMES_PER_QUERY : nat := 16.
Definition DCR_MAX_QUERY_TRACE : nat := 32.
Definition DCR_MAX_CANONICAL_BYTES : N := 1048576.
Definition DCR_MAX_DP_STATES : N := 65536.

Definition PROBLEM_DOMAIN : bytes := domain "zerostack.dcr.problem".
Definition FIBER_DOMAIN : bytes := domain "zerostack.dcr.world_fiber".
Definition SURFACE_DOMAIN : bytes := domain "zerostack.dcr.accessible_surface".
Definition EFFECT_CLASS_DOMAIN : bytes := domain "zerostack.dcr.common_effect_class".
Definition HYPEREDGE_DOMAIN : bytes := domain "zerostack.dcr.conflict_hyperedge".
Definition CLAIM_DOMAIN : bytes := domain "zerostack.dcr.claim".
Definition COMPLETE_DOMAIN : bytes := domain "zerostack.dcr.complete_certificate".
Definition CONFLICT_DOMAIN : bytes := domain "zerostack.dcr.conflict_decision".
Definition UNKNOWN_DOMAIN : bytes := domain "zerostack.dcr.unknown_decision".
Definition VERIFIER_DOMAIN : bytes := domain "zerostack.dcr.verifier_identity".
Definition OBSERVATION_DOMAIN : bytes := domain "zerostack.dcr.query_observation".

Inductive DcrFailureCode :=
| SchemaVersionMismatch | UnsupportedFiber | IdentityMismatch | BoundExceeded | AnalysisBoundExceeded
| IncompleteCoverage | InvalidCostModel | InvalidQuery | InvalidQueryTrace | NonCanonicalOrder
| ZeroDigest | CanonicalPayloadTooLarge | NonCanonicalEncoding | UnsupportedEvidenceClass
| EvidencePayloadMismatch | VerifierIdentityMismatch | UnknownFiberCannotComplete
| NotDominanceComplete | CertificateDigestMismatch | Json.

(** [DcrError] without its detail text. *)
Notation R := (result DcrFailureCode).

(** * Data *)

Inductive SourceFiberStatus := FiberExact | FiberOverapproximation | FiberUnknownStatus.
Inductive DcrFiberStatus := DcrExact | DcrOverapproximation | DcrUnknown | DcrConflict.

Record WorldRecoveryBudget := mkBudget {
  wb_world_id : Digest; wb_probability_weight : N; wb_raw_baseline_cost_units : N }.
Record RecoveryQueryOutcome := mkOutcome { ro_outcome_digest : Digest; ro_worlds : list Digest }.
Record RecoveryQuery := mkQuery {
  rq_query_digest : Digest;
  rq_native_cost_units : N;
  rq_evidence_route_digest : Digest;
  rq_outcomes : list RecoveryQueryOutcome }.

Record DominanceRecoveryProblem := mkProblem {
  pb_schema_version : string;
  pb_project_root : Digest;
  pb_task_identity : Digest;
  pb_fiber : WorldFiberDescriptor;
  pb_fiber_status : SourceFiberStatus;
  pb_baseline_identity : Digest;
  pb_reasoning_contract_digest : Digest;
  pb_decision_view_digest : Digest;
  pb_protected_effects : list ProtectedEffectSet;
  pb_accessible_effect_surface : list ProtectedEffect;
  pb_world_budgets : list WorldRecoveryBudget;
  pb_queries : list RecoveryQuery;
  pb_coverage_certificate : Digest;
  pb_recovery_query_trace : list Digest;
  pb_verifier_route : Digest;
  pb_fallback_safepoint : Digest }.

Record ExactRecoveryCost := mkCost { cost_numerator : N; cost_denominator : N }.

Record ConflictHyperedge := mkHyperedge { he_worlds : list Digest; he_digest : Digest }.

Record DominanceCompleteRecoveryClaim := mkDcrClaim {
  cc_schema_version : string;
  cc_project_root : Digest;
  cc_task_identity : Digest;
  cc_world_fiber_digest : Digest;
  cc_fiber_status : DcrFiberStatus;
  cc_baseline_identity : Digest;
  cc_reasoning_contract_digest : Digest;
  cc_decision_view_digest : Digest;
  cc_accessible_effect_surface_digest : Digest;
  cc_common_baseline_dominant_effect_class : Digest;
  cc_coverage_certificate : Digest;
  cc_conflict_hyperedges : list Digest;
  cc_recovery_query_trace : list Digest;
  cc_verifier_route : Digest;
  cc_fallback_safepoint : Digest }.

(** The certificate and its public record have the same fields. *)
Record DominanceCompleteRecoveryCertificate := mkDcrCertificate {
  dc_contract_version : N;
  dc_problem : DominanceRecoveryProblem;
  dc_claim : DominanceCompleteRecoveryClaim;
  dc_common_effects : list ProtectedEffect;
  dc_problem_digest : Digest;
  dc_evidence_digest : Digest;
  dc_verifier_identity_digest : Digest;
  dc_certificate_digest : Digest }.
Notation DominanceCompleteRecoveryCertificateRecord := DominanceCompleteRecoveryCertificate.

Record RecoveryConflictDecision := mkConflict {
  cd_problem_digest : Digest;
  cd_selected_query : RecoveryQuery;
  cd_admissible_queries : list Digest;
  cd_conflict_hyperedges : list ConflictHyperedge;
  cd_optimal_expected_cost : ExactRecoveryCost;
  cd_raw_baseline_expected_cost : ExactRecoveryCost;
  cd_fallback_safepoint : Digest;
  cd_decision_digest : Digest }.

Inductive RecoveryUnknownReason :=
| FiberUnknown | NoSoundQuery | RawBaselineCheaperOrEqual | AnalysisBoundExceededReason
| CostArithmeticOverflow.

Record RecoveryUnknownDecision := mkUnknown {
  ud_problem_digest : Digest;
  ud_reason : RecoveryUnknownReason;
  ud_raw_baseline_required : bool;
  ud_conflict_hyperedges : list ConflictHyperedge;
  ud_raw_baseline_expected_cost : option ExactRecoveryCost;
  ud_fallback_safepoint : Digest;
  ud_decision_digest : Digest }.

Inductive RecoveryDecision :=
| Complete (certificate : DominanceCompleteRecoveryCertificate)
| Conflict (decision : RecoveryConflictDecision)
| DecisionUnknown (decision : RecoveryUnknownDecision).

#[global] Instance SourceFiberStatus_eq_dec : EqDecision SourceFiberStatus.
Proof. solve_decision. Defined.
#[global] Instance DcrFiberStatus_eq_dec : EqDecision DcrFiberStatus.
Proof. solve_decision. Defined.
#[global] Instance DominanceCompleteRecoveryClaim_eq_dec : EqDecision DominanceCompleteRecoveryClaim.
Proof. solve_decision. Defined.
#[global] Instance RecoveryUnknownReason_eq_dec : EqDecision RecoveryUnknownReason.
Proof. solve_decision. Defined.

(** * Wire form *)

Definition jhexes (l : list Digest) : Value := Array (jhex <$> l).

Definition jfiber_status (s : SourceFiberStatus) : Value :=
  VString match s with
  | FiberExact => "exact" | FiberOverapproximation => "sound_overapproximation"
  | FiberUnknownStatus => "unknown" end.
Definition jdcr_status (s : DcrFiberStatus) : Value :=
  VString match s with
  | DcrExact => "exact" | DcrOverapproximation => "sound-overapproximation"
  | DcrUnknown => "unknown" | DcrConflict => "conflict" end.
Definition jreason (r : RecoveryUnknownReason) : Value :=
  VString match r with
  | FiberUnknown => "fiber_unknown" | NoSoundQuery => "no_sound_query"
  | RawBaselineCheaperOrEqual => "raw_baseline_cheaper_or_equal"
  | AnalysisBoundExceededReason => "analysis_bound_exceeded"
  | CostArithmeticOverflow => "cost_arithmetic_overflow" end.

Definition jeffect_class (c : ProtectedEffectClass) : Value :=
  VString match c with
  | ReadOnly => "read_only" | ReversibleMutation => "reversible_mutation"
  | ApprovalRequiredMutation => "approval_required_mutation" | Irreversible => "irreversible" end.
Definition jeffect (e : ProtectedEffect) : Value :=
  Object [("effect_digest", jhex (effect_digest e)); ("effect_class", jeffect_class (effect_class e))].
Definition jeffects (l : list ProtectedEffect) : Value := Array (jeffect <$> l).
Definition jeffect_set (s : ProtectedEffectSet) : Value :=
  Object [("world_id", jhex (world_id s)); ("effects", jeffects (effects s))].
Definition jfiber (f : WorldFiberDescriptor) : Value :=
  Object [("model_version", VString (wf_model_version f));
          ("assembly_manifest_digest", jhex (assembly_manifest_digest f));
          ("source_image_digest", jhex (source_image_digest f));
          ("task_fingerprint", jhex (task_fingerprint f));
          ("assumptions", jstrs (assumptions f)); ("worlds", jhexes (worlds f))].

Definition jbudget (b : WorldRecoveryBudget) : Value :=
  Object [("world_id", jhex (wb_world_id b)); ("probability_weight", jnum (wb_probability_weight b));
          ("raw_baseline_cost_units", jnum (wb_raw_baseline_cost_units b))].
Definition joutcome (o : RecoveryQueryOutcome) : Value :=
  Object [("outcome_digest", jhex (ro_outcome_digest o)); ("worlds", jhexes (ro_worlds o))].
Definition jquery (q : RecoveryQuery) : Value :=
  Object [("query_digest", jhex (rq_query_digest q)); ("native_cost_units", jnum (rq_native_cost_units q));
          ("evidence_route_digest", jhex (rq_evidence_route_digest q));
          ("outcomes", Array (joutcome <$> rq_outcomes q))].

Definition jproblem (p : DominanceRecoveryProblem) : Value :=
  Object [("schema_version", VString (pb_schema_version p)); ("project_root", jhex (pb_project_root p));
          ("task_identity", jhex (pb_task_identity p)); ("fiber", jfiber (pb_fiber p));
          ("fiber_status", jfiber_status (pb_fiber_status p));
          ("baseline_identity", jhex (pb_baseline_identity p));
          ("reasoning_contract_digest", jhex (pb_reasoning_contract_digest p));
          ("decision_view_digest", jhex (pb_decision_view_digest p));
          ("protected_effects", Array (jeffect_set <$> pb_protected_effects p));
          ("accessible_effect_surface", jeffects (pb_accessible_effect_surface p));
          ("world_budgets", Array (jbudget <$> pb_world_budgets p));
          ("queries", Array (jquery <$> pb_queries p));
          ("coverage_certificate", jhex (pb_coverage_certificate p));
          ("recovery_query_trace", jhexes (pb_recovery_query_trace p));
          ("verifier_route", jhex (pb_verifier_route p));
          ("fallback_safepoint", jhex (pb_fallback_safepoint p))].

(** A [u128] serializes as a decimal string. *)
Definition ju128 (n : N) : Value := VString (ZeroRef.show_u64 n).
Definition jcost (c : ExactRecoveryCost) : Value :=
  Object [("numerator", ju128 (cost_numerator c)); ("denominator", ju128 (cost_denominator c))].
Definition jhyperedge (e : ConflictHyperedge) : Value :=
  Object [("worlds", jhexes (he_worlds e)); ("hyperedge_digest", jhex (he_digest e))].

Definition jdcr_claim (c : DominanceCompleteRecoveryClaim) : Value :=
  Object [("schema_version", VString (cc_schema_version c)); ("project_root", jhex (cc_project_root c));
          ("task_identity", jhex (cc_task_identity c));
          ("world_fiber_digest", jhex (cc_world_fiber_digest c));
          ("fiber_status", jdcr_status (cc_fiber_status c));
          ("baseline_identity", jhex (cc_baseline_identity c));
          ("reasoning_contract_digest", jhex (cc_reasoning_contract_digest c));
          ("decision_view_digest", jhex (cc_decision_view_digest c));
          ("accessible_effect_surface_digest", jhex (cc_accessible_effect_surface_digest c));
          ("common_baseline_dominant_effect_class", jhex (cc_common_baseline_dominant_effect_class c));
          ("coverage_certificate", jhex (cc_coverage_certificate c));
          ("conflict_hyperedges", jhexes (cc_conflict_hyperedges c));
          ("recovery_query_trace", jhexes (cc_recovery_query_trace c));
          ("verifier_route", jhex (cc_verifier_route c));
          ("fallback_safepoint", jhex (cc_fallback_safepoint c))].

Definition jdcr_record (r : DominanceCompleteRecoveryCertificateRecord) : Value :=
  Object [("contract_version", jnum (dc_contract_version r)); ("problem", jproblem (dc_problem r));
          ("claim", jdcr_claim (dc_claim r)); ("common_effects", jeffects (dc_common_effects r));
          ("problem_digest", jhex (dc_problem_digest r)); ("evidence_digest", jhex (dc_evidence_digest r));
          ("verifier_identity_digest", jhex (dc_verifier_identity_digest r));
          ("certificate_digest", jhex (dc_certificate_digest r))].

(** * Validation *)

Definition require_nonzero (values : list Digest) : R () :=
  reject? existsb zero_digest values with ZeroDigest in Ok ().

Definition require_strict_order {A} `{Ord A} (l : list A) : R () :=
  guard? strictly_ascending l else NonCanonicalOrder in Ok ().

(** [for world in &outcome.worlds]: the members observed so far. *)
Fixpoint observe_worlds (expected observed : list Digest) (l : list Digest) : R (list Digest) :=
  match l with
  | [] => Ok observed
  | world :: rest =>
      guard? bset_mem world expected else InvalidQuery in
      let '(fresh, observed) := bset_insert world observed in
      guard? fresh else InvalidQuery in
      observe_worlds expected observed rest
  end.

(** [for outcome in &query.outcomes]. *)
Fixpoint observe_outcomes (expected observed : list Digest) (l : list RecoveryQueryOutcome) : R (list Digest) :=
  match l with
  | [] => Ok observed
  | outcome :: rest =>
      reject? zero_digest (ro_outcome_digest outcome) || (length (ro_worlds outcome) =? 0)%nat
        with InvalidQuery in
      let? _ := require_strict_order (ro_worlds outcome) in
      let? observed := observe_worlds expected observed (ro_worlds outcome) in
      observe_outcomes expected observed rest
  end.

Definition validate_query (p : DominanceRecoveryProblem) (q : RecoveryQuery) : R () :=
  let? _ := require_nonzero [rq_query_digest q; rq_evidence_route_digest q] in
  reject? (rq_native_cost_units q =? 0)%N || (length (rq_outcomes q) <? 2)%nat ||
          (DCR_MAX_OUTCOMES_PER_QUERY <? length (rq_outcomes q))%nat
    with InvalidQuery in
  let? _ := require_strict_order (ro_outcome_digest <$> rq_outcomes q) in
  let expected := bset_of_list (worlds (pb_fiber p)) in
  let? observed := observe_outcomes expected [] (rq_outcomes q) in
  guard? bool_decide (observed = expected) else InvalidQuery in
  Ok ().

(** [for entry in &self.protected_effects]. *)
Definition validate_protected (entry : ProtectedEffectSet) : R () :=
  reject? (length (effects entry) =? 0)%nat || (ROBUST_SNAP_MAX_EFFECTS <? length (effects entry))%nat
    with IncompleteCoverage in
  require_strict_order (effects entry).

Definition assumption_bad (s : string) : bool :=
  bool_decide (s = "") || (ROBUST_SNAP_MAX_ASSUMPTION_BYTES <? String.length s)%nat.

Definition validate_fiber (p : DominanceRecoveryProblem) : R () :=
  let f := pb_fiber p in
  guard? bool_decide (wf_model_version f = ROBUST_SNAP_MODEL_VERSION) else UnsupportedFiber in
  guard? bool_decide (task_fingerprint f = pb_task_identity p) else IdentityMismatch in
  reject? (length (worlds f) =? 0)%nat || (DCR_MAX_WORLDS <? length (worlds f))%nat with BoundExceeded in
  let? _ := require_strict_order (worlds f) in
  reject? (length (assumptions f) =? 0)%nat || (ROBUST_SNAP_MAX_ASSUMPTIONS <? length (assumptions f))%nat ||
          existsb assumption_bad (assumptions f)
    with UnsupportedFiber in
  require_strict_order (assumptions f).

Definition validate_effects (p : DominanceRecoveryProblem) : R () :=
  guard? (length (pb_protected_effects p) =? length (worlds (pb_fiber p)))%nat else IncompleteCoverage in
  let protected_worlds := world_id <$> pb_protected_effects p in
  let? _ := require_strict_order protected_worlds in
  guard? bool_decide (protected_worlds = worlds (pb_fiber p)) else IncompleteCoverage in
  let? _ := for_each validate_protected (pb_protected_effects p) in
  reject? (ROBUST_SNAP_MAX_EFFECTS <? length (pb_accessible_effect_surface p))%nat with BoundExceeded in
  require_strict_order (pb_accessible_effect_surface p).

Definition validate_budgets (p : DominanceRecoveryProblem) : R () :=
  guard? (length (pb_world_budgets p) =? length (worlds (pb_fiber p)))%nat else InvalidCostModel in
  let budget_worlds := wb_world_id <$> pb_world_budgets p in
  let? _ := require_strict_order budget_worlds in
  guard? bool_decide (budget_worlds = worlds (pb_fiber p)) &&
         negb (existsb (fun b => (wb_probability_weight b =? 0)%N || (wb_raw_baseline_cost_units b =? 0)%N)
                 (pb_world_budgets p))
    else InvalidCostModel in
  Ok ().

Definition validate_queries (p : DominanceRecoveryProblem) : R () :=
  reject? (DCR_MAX_QUERIES <? length (pb_queries p))%nat with BoundExceeded in
  let? _ := require_strict_order (rq_query_digest <$> pb_queries p) in
  for_each (validate_query p) (pb_queries p).

Definition problem_digests (p : DominanceRecoveryProblem) : list Digest :=
  [pb_project_root p; pb_task_identity p; pb_baseline_identity p; pb_reasoning_contract_digest p;
   pb_decision_view_digest p; pb_coverage_certificate p; pb_verifier_route p; pb_fallback_safepoint p;
   assembly_manifest_digest (pb_fiber p); source_image_digest (pb_fiber p); task_fingerprint (pb_fiber p)].

Definition problem_validate (p : DominanceRecoveryProblem) : R () :=
  guard? bool_decide (pb_schema_version p = DCR_PROBLEM_SCHEMA_VERSION) else SchemaVersionMismatch in
  let? _ := require_nonzero (problem_digests p) in
  let? _ := validate_fiber p in
  let? _ := validate_effects p in
  let? _ := validate_budgets p in
  let? _ := validate_queries p in
  let trace := pb_recovery_query_trace p in
  reject? (DCR_MAX_QUERY_TRACE <? length trace)%nat || existsb zero_digest trace ||
          negb (length (bset_of_list trace) =? length trace)%nat
    with InvalidQueryTrace in
  Ok ().

Definition problem_new (project task : Digest) (fiber : WorldFiberDescriptor) (status : SourceFiberStatus)
  (baseline reasoning view : Digest) (protected : list ProtectedEffectSet) (surface : list ProtectedEffect)
  (budgets : list WorldRecoveryBudget) (queries : list RecoveryQuery) (coverage : Digest)
  (trace : list Digest) (route safepoint : Digest) : R DominanceRecoveryProblem :=
  let p := mkProblem DCR_PROBLEM_SCHEMA_VERSION project task fiber status baseline reasoning view protected
    surface budgets queries coverage trace route safepoint in
  let? _ := problem_validate p in
  Ok p.

(** * Masks *)

Definition bit (index : nat) : N := N.shiftl 1 (N.of_nat index).
(** [mask & (1_u64 << index) != 0]. *)
Definition has_bit (mask : N) (index : nat) : bool := negb (N.land mask (bit index) =? 0)%N.

(** [iter().enumerate().filter(|(index, _)| mask & (1 << index) != 0)], from
    [index] on. *)
Fixpoint select_from {A} (mask : N) (index : nat) (l : list A) : list A :=
  match l with
  | [] => []
  | x :: l' => if has_bit mask index then x :: select_from mask (S index) l' else select_from mask (S index) l'
  end.
Definition select {A} (mask : N) (l : list A) : list A := select_from mask 0 l.

Definition full_mask (p : DominanceRecoveryProblem) : N :=
  N.shiftl 1 (N.of_nat (length (worlds (pb_fiber p)))) - 1.

Definition effect_mask (surface l : list ProtectedEffect) : N :=
  foldl (fun mask effect =>
    match binary_search effect surface with Some index => N.lor mask (bit index) | None => mask end) 0%N l.

Definition accessible_world_effect_masks (p : DominanceRecoveryProblem) : list N :=
  (fun protected => effect_mask (pb_accessible_effect_surface p) (effects protected)) <$> pb_protected_effects p.

Definition U64_BITS : nat := 64.

(** [for (index, effects) in effect_masks.iter().enumerate()], with its [break]. *)
Fixpoint common_loop (index : nat) (effect_masks : list N) (world_mask common : N) : N :=
  match effect_masks with
  | [] => common
  | e :: rest =>
      if has_bit world_mask index then
        let common := N.land common e in
        if (common =? 0)%N then common else common_loop (S index) rest world_mask common
      else common_loop (S index) rest world_mask common
  end.

Definition common_effect_bits (effect_masks : list N) (world_mask : N) (effect_count : nat) : N :=
  common_loop 0 effect_masks world_mask
    (if (effect_count =? U64_BITS)%nat then U64_MAX else N.shiftl 1 (N.of_nat effect_count) - 1).

Definition common_effects (p : DominanceRecoveryProblem) (mask : N) : list ProtectedEffect :=
  select (common_effect_bits (accessible_world_effect_masks p) mask (length (pb_accessible_effect_surface p)))
    (pb_accessible_effect_surface p).

(** [trailing_zeros]. *)
Fixpoint pos_trailing_zeros (x : positive) : nat :=
  match x with xO y => S (pos_trailing_zeros y) | _ => 0 end.
Definition trailing_zeros (n : N) : nat := match n with N0 => U64_BITS | Npos x => pos_trailing_zeros x end.

(** The [while remaining != 0] loop: whether no world of [mask] can be dropped. *)
Fixpoint minimal_loop (fuel : nat) (effect_masks : list N) (count : nat) (mask remaining : N) : bool :=
  match fuel with
  | O => true
  | S fuel' =>
      if (remaining =? 0)%N then true
      else
        let b := bit (trailing_zeros remaining) in
        let remaining := N.ldiff remaining b in
        if (common_effect_bits effect_masks (N.ldiff mask b) count =? 0)%N then false
        else minimal_loop fuel' effect_masks count mask remaining
  end.

(** One round of [for mask in 1..=full]. *)
Definition is_hyperedge (effect_masks : list N) (count : nat) (mask : N) : bool :=
  (common_effect_bits effect_masks mask count =? 0)%N && minimal_loop U64_BITS effect_masks count mask mask.

Fixpoint hyperedge_loop (fuel : nat) (effect_masks : list N) (count : nat) (full mask explored : N)
  (minimal_masks : list N) : R (list N) :=
  match fuel with
  | O => Ok minimal_masks
  | S fuel' =>
      if (full <? mask)%N then Ok minimal_masks
      else
        let explored := (explored + 1)%N in
        reject? (DCR_MAX_HYPERGRAPH_STATES <? explored)%N with AnalysisBoundExceeded in
        hyperedge_loop fuel' effect_masks count full (mask + 1) explored
          (if is_hyperedge effect_masks count mask then minimal_masks ++ [mask] else minimal_masks)
  end.

(** The loop returns in round 65,537 at the latest. *)
Definition hyperedge_fuel : nat := N.to_nat (DCR_MAX_HYPERGRAPH_STATES + 1).

(** * Exact costs *)

Definition U128_MAX : N := 2 ^ 128 - 1.
Definition checked_mul_u128 (a b : N) : option N := if (a * b <=? U128_MAX)%N then Some (a * b)%N else None.
Definition checked_add_u128 (a b : N) : option N := if (a + b <=? U128_MAX)%N then Some (a + b)%N else None.

Inductive DpFailure := StateBound | Overflow.
Notation D := (result DpFailure).

Record Rational := mkRational { r_numerator : N; r_denominator : N }.
Definition Rational_ZERO : Rational := mkRational 0 1.

(** The [while right != 0] loop; [u128] values need fewer than 257 rounds. *)
Fixpoint gcd_loop (fuel : nat) (left right : N) : N :=
  match fuel with
  | O => left
  | S fuel' => if (right =? 0)%N then left else gcd_loop fuel' right (left mod right)
  end.
Definition gcd (left right : N) : N :=
  let g := gcd_loop 257 left right in if (g =? 0)%N then 1%N else g.

Definition Rational_new (numerator denominator : N) : D Rational :=
  reject? (denominator =? 0)%N with Overflow in
  let divisor := gcd numerator denominator in
  Ok (mkRational (numerator / divisor) (denominator / divisor)).

Definition integer (value : N) : Rational := mkRational value 1.

Definition Rational_add (a b : Rational) : D Rational :=
  let common := gcd (r_denominator a) (r_denominator b) in
  let left_scale := (r_denominator b / common)%N in
  let right_scale := (r_denominator a / common)%N in
  let? numerator := ok_or
    (x ← checked_mul_u128 (r_numerator a) left_scale;
     y ← checked_mul_u128 (r_numerator b) right_scale;
     checked_add_u128 x y) Overflow in
  let? denominator := ok_or (checked_mul_u128 (r_denominator a) left_scale) Overflow in
  Rational_new numerator denominator.

Definition mul_fraction (a : Rational) (numerator denominator : N) : D Rational :=
  let left_cancel := gcd (r_numerator a) denominator in
  let right_cancel := gcd numerator (r_denominator a) in
  let? rn := ok_or (checked_mul_u128 (r_numerator a / left_cancel) (numerator / right_cancel)) Overflow in
  let? rd := ok_or (checked_mul_u128 (r_denominator a / right_cancel) (denominator / left_cancel)) Overflow in
  Rational_new rn rd.

Definition compare (a b : Rational) : D comparison :=
  let common := gcd (r_denominator a) (r_denominator b) in
  let? x := ok_or (checked_mul_u128 (r_numerator a) (r_denominator b / common)) Overflow in
  let? y := ok_or (checked_mul_u128 (r_numerator b) (r_denominator a / common)) Overflow in
  Ok (x ?= y)%N.

Definition into_public (r : Rational) : ExactRecoveryCost := mkCost (r_numerator r) (r_denominator r).

(** * The plan *)

Inductive DpChoice := ChooseComplete | ChooseBaseline | ChooseQuery (index : nat).
Record DpNode := mkNode { nd_cost : Rational; nd_choice : DpChoice }.
Notation Memo := (gmap N DpNode).

Definition query_children (p : DominanceRecoveryProblem) (mask : N) (q : RecoveryQuery) : list N :=
  omap (fun outcome =>
    let child := foldl (fun child world =>
      match binary_search world (worlds (pb_fiber p)) with
      | Some index => N.lor child (bit index) | None => child end) 0%N (ro_worlds outcome) in
    let child := N.land child mask in
    if negb (child =? 0)%N && negb (child =? mask)%N then Some child else None) (rq_outcomes q).

(** [try_fold] of checked additions. *)
Fixpoint try_sum (l : list (option N)) (sum : N) : D N :=
  match l with
  | [] => Ok sum
  | x :: l' =>
      let? sum := ok_or (v ← x; checked_add_u128 sum v) Overflow in
      try_sum l' sum
  end.

Definition mask_weight (p : DominanceRecoveryProblem) (mask : N) : D N :=
  try_sum ((fun b => Some (wb_probability_weight b)) <$> select mask (pb_world_budgets p)) 0.

Definition baseline_cost (p : DominanceRecoveryProblem) (mask : N) : D Rational :=
  let? numerator := try_sum
    ((fun b => checked_mul_u128 (wb_probability_weight b) (wb_raw_baseline_cost_units b)) <$>
     select mask (pb_world_budgets p)) 0 in
  let? weight := mask_weight p mask in
  Rational_new numerator weight.

Section Solve.
Context (p : DominanceRecoveryProblem) (effect_masks : list N).

(** [for child in children], over the recursive call. *)
Fixpoint child_loop (solve : N -> Memo -> D (DpNode * Memo)) (parent_weight : N) (children : list N)
  (expected : Rational) (memo : Memo) : D (Rational * Memo) :=
  match children with
  | [] => Ok (expected, memo)
  | child :: rest =>
      let? (child_node, memo) := solve child memo in
      let? weight := mask_weight p child in
      let? share := mul_fraction (nd_cost child_node) weight parent_weight in
      let? expected := Rational_add expected share in
      child_loop solve parent_weight rest expected memo
  end.

(** [for (index, query) in problem.queries.iter().enumerate()]. *)
Fixpoint query_loop (solve : N -> Memo -> D (DpNode * Memo)) (mask parent_weight : N) (index : nat)
  (queries : list RecoveryQuery) (best : DpNode) (memo : Memo) : D (DpNode * Memo) :=
  match queries with
  | [] => Ok (best, memo)
  | query :: rest =>
      let children := query_children p mask query in
      if (length children <? 2)%nat then query_loop solve mask parent_weight (S index) rest best memo
      else
        let? (expected, memo) := child_loop solve parent_weight children
                                   (integer (rq_native_cost_units query)) memo in
        let? order := compare expected (nd_cost best) in
        query_loop solve mask parent_weight (S index) rest
          (if bool_decide (order = Lt) then mkNode expected (ChooseQuery index) else best) memo
  end.

(** A child is a proper subset, so the depth is at most the number of worlds
    of [mask] plus one. *)
Fixpoint solve (fuel : nat) (mask : N) (memo : Memo) : D (DpNode * Memo) :=
  match fuel with
  | O => Err StateBound
  | S fuel' =>
      match memo !! mask with
      | Some node => Ok (node, memo)
      | None =>
          reject? (DCR_MAX_DP_STATES <=? N.of_nat (size memo))%N with StateBound in
          if negb (common_effect_bits effect_masks mask (length (pb_accessible_effect_surface p)) =? 0)%N then
            let node := mkNode Rational_ZERO ChooseComplete in
            Ok (node, <[mask := node]> memo)
          else
            let? cost := baseline_cost p mask in
            let? parent_weight := mask_weight p mask in
            let? (best, memo) := query_loop (solve fuel') mask parent_weight 0 (pb_queries p)
                                   (mkNode cost ChooseBaseline) memo in
            Ok (best, <[mask := best]> memo)
      end
  end.
End Solve.

Definition solve_fuel (p : DominanceRecoveryProblem) : nat := S (length (worlds (pb_fiber p))).

(** * Certificates and the controller *)

Section Controller.
Context `{Platform, Codec VerifiedEvidence}.

Definition canonical_bytes (v : Value) : R bytes :=
  let b := canonical_bytes_of v in
  reject? (DCR_MAX_CANONICAL_BYTES <? len b)%N with CanonicalPayloadTooLarge in
  Ok b.

Definition decode_canonical {T} `{FromSlice T} (to_value : T -> Value) (b : bytes) : R T :=
  reject? (DCR_MAX_CANONICAL_BYTES <? len b)%N with CanonicalPayloadTooLarge in
  let? decoded := ok_or (from_slice b) Json in
  let? canonical := canonical_bytes (to_value decoded) in
  guard? bool_decide (canonical = b) else NonCanonicalEncoding in
  Ok decoded.

Definition digest_value (dom : bytes) (v : Value) : Digest := concat_digest dom (canonical_bytes_of v).

Definition problem_canonical_bytes (p : DominanceRecoveryProblem) : R bytes :=
  let? _ := problem_validate p in
  canonical_bytes (jproblem p).

Definition problem_from_canonical_bytes `{FromSlice DominanceRecoveryProblem} (b : bytes)
  : R DominanceRecoveryProblem :=
  let? p := decode_canonical jproblem b in
  let? _ := problem_validate p in
  Ok p.

Definition problem_digest (p : DominanceRecoveryProblem) : R Digest :=
  let? b := problem_canonical_bytes p in
  Ok (concat_digest PROBLEM_DOMAIN b).

Definition world_fiber_digest (p : DominanceRecoveryProblem) : R Digest :=
  let? b := canonical_bytes (jfiber (pb_fiber p)) in
  Ok (concat_digest FIBER_DOMAIN b).

Definition accessible_effect_surface_digest (p : DominanceRecoveryProblem) : R Digest :=
  let? b := canonical_bytes (jeffects (pb_accessible_effect_surface p)) in
  Ok (concat_digest SURFACE_DOMAIN b).

(** ** Conditioning *)

Definition keep_query (keep : list Digest) (q : RecoveryQuery) : option RecoveryQuery :=
  let outcomes := List.filter (fun cell => negb (length (ro_worlds cell) =? 0)%nat)
    ((fun cell => mkOutcome (ro_outcome_digest cell)
                    (List.filter (fun world => bset_mem world keep) (ro_worlds cell))) <$> rq_outcomes q) in
  if (2 <=? length outcomes)%nat
  then Some (mkQuery (rq_query_digest q) (rq_native_cost_units q) (rq_evidence_route_digest q) outcomes)
  else None.

Definition observation_digest (q : RecoveryQuery) (receipt outcome query : Digest) : Digest :=
  digest_value OBSERVATION_DOMAIN (Object
    [("evidence_route_digest", jhex (rq_evidence_route_digest q)); ("observation_receipt", jhex receipt);
     ("outcome_digest", jhex outcome); ("query_digest", jhex query)]).

Definition restrict_fiber (keep : list Digest) (f : WorldFiberDescriptor) : WorldFiberDescriptor :=
  mkFiber (wf_model_version f) (assembly_manifest_digest f) (source_image_digest f) (task_fingerprint f)
    (assumptions f) (List.filter (fun world => bset_mem world keep) (worlds f)).

Definition condition_on (p : DominanceRecoveryProblem) (query outcome receipt view : Digest)
  (surface : list ProtectedEffect) (coverage route safepoint : Digest) : R DominanceRecoveryProblem :=
  let? _ := require_nonzero [query; outcome; receipt; view; coverage; route; safepoint] in
  let? q := ok_or (List.find (fun q => bool_decide (rq_query_digest q = query)) (pb_queries p)) InvalidQuery in
  let? cell := ok_or (List.find (fun o => bool_decide (ro_outcome_digest o = outcome)) (rq_outcomes q))
                 InvalidQuery in
  let keep := bset_of_list (ro_worlds cell) in
  let kept world := bset_mem world keep in
  let conditioned := mkProblem (pb_schema_version p) (pb_project_root p) (pb_task_identity p)
    (restrict_fiber keep (pb_fiber p)) (pb_fiber_status p) (pb_baseline_identity p)
    (pb_reasoning_contract_digest p) view
    (List.filter (fun e => kept (world_id e)) (pb_protected_effects p)) surface
    (List.filter (fun b => kept (wb_world_id b)) (pb_world_budgets p))
    (omap (keep_query keep) (pb_queries p)) coverage
    (pb_recovery_query_trace p ++ [observation_digest q receipt outcome query]) route safepoint in
  let? _ := problem_validate conditioned in
  Ok conditioned.

(** ** Claims and certificates *)

Definition claim_digests (c : DominanceCompleteRecoveryClaim) : list Digest :=
  [cc_project_root c; cc_task_identity c; cc_world_fiber_digest c; cc_baseline_identity c;
   cc_reasoning_contract_digest c; cc_decision_view_digest c; cc_accessible_effect_surface_digest c;
   cc_common_baseline_dominant_effect_class c; cc_coverage_certificate c; cc_verifier_route c;
   cc_fallback_safepoint c].

Definition claim_validate (c : DominanceCompleteRecoveryClaim) : R () :=
  guard? bool_decide (cc_schema_version c = DCR_SCHEMA_VERSION) else SchemaVersionMismatch in
  guard? match cc_fiber_status c with DcrExact | DcrOverapproximation => true | _ => false end
    else UnknownFiberCannotComplete in
  let? _ := require_nonzero (claim_digests c) in
  guard? (length (cc_conflict_hyperedges c) =? 0)%nat else NotDominanceComplete in
  reject? (DCR_MAX_QUERY_TRACE <? length (cc_recovery_query_trace c))%nat ||
          existsb zero_digest (cc_recovery_query_trace c)
    with InvalidQueryTrace in
  Ok ().

Definition from_complete (p : DominanceRecoveryProblem) (common : list ProtectedEffect)
  : R DominanceCompleteRecoveryClaim :=
  reject? (length common =? 0)%nat with NotDominanceComplete in
  let? status := match pb_fiber_status p with
                 | FiberExact => Ok DcrExact
                 | FiberOverapproximation => Ok DcrOverapproximation
                 | FiberUnknownStatus => Err UnknownFiberCannotComplete
                 end in
  let? fiber := world_fiber_digest p in
  let? surface := accessible_effect_surface_digest p in
  let? class := canonical_bytes (jeffects common) in
  let c := mkDcrClaim DCR_SCHEMA_VERSION (pb_project_root p) (pb_task_identity p) fiber status
    (pb_baseline_identity p) (pb_reasoning_contract_digest p) (pb_decision_view_digest p) surface
    (concat_digest EFFECT_CLASS_DOMAIN class) (pb_coverage_certificate p) [] (pb_recovery_query_trace p)
    (pb_verifier_route p) (pb_fallback_safepoint p) in
  let? _ := claim_validate c in
  Ok c.

Definition claim_canonical_bytes (c : DominanceCompleteRecoveryClaim) : R bytes :=
  let? _ := claim_validate c in
  canonical_bytes (jdcr_claim c).

Definition claim_from_canonical_bytes `{FromSlice DominanceCompleteRecoveryClaim} (b : bytes)
  : R DominanceCompleteRecoveryClaim :=
  let? c := decode_canonical jdcr_claim b in
  let? _ := claim_validate c in
  Ok c.

Definition claim_digest (c : DominanceCompleteRecoveryClaim) : R Digest :=
  let? b := claim_canonical_bytes c in
  Ok (concat_digest CLAIM_DOMAIN b).

Definition complete_certificate_digest (problem claim evidence verifier : Digest)
  (common : list ProtectedEffect) : Digest :=
  digest_value COMPLETE_DOMAIN (Object
    [("claim_digest", jhex claim); ("common_effects", jeffects common);
     ("contract_version", jnum DCR_CONTRACT_VERSION); ("evidence_digest", jhex evidence);
     ("problem_digest", jhex problem); ("verifier_identity_digest", jhex verifier)]).

Definition certificate_validate (c : DominanceCompleteRecoveryCertificate) : R () :=
  guard? (dc_contract_version c =? DCR_CONTRACT_VERSION)%N else SchemaVersionMismatch in
  let? _ := problem_validate (dc_problem c) in
  let? _ := claim_validate (dc_claim c) in
  let? _ := require_nonzero [dc_evidence_digest c; dc_verifier_identity_digest c] in
  guard? bool_decide (pb_verifier_route (dc_problem c) = dc_verifier_identity_digest c)
    else CertificateDigestMismatch in
  let? pd := problem_digest (dc_problem c) in
  guard? bool_decide (pd = dc_problem_digest c) else CertificateDigestMismatch in
  let? expected := from_complete (dc_problem c) (dc_common_effects c) in
  guard? bool_decide (dc_claim c = expected) else CertificateDigestMismatch in
  guard? bool_decide (common_effects (dc_problem c) (full_mask (dc_problem c)) = dc_common_effects c)
    else CertificateDigestMismatch in
  let? cd := claim_digest (dc_claim c) in
  guard? bool_decide (complete_certificate_digest (dc_problem_digest c) cd (dc_evidence_digest c)
                        (dc_verifier_identity_digest c) (dc_common_effects c) = dc_certificate_digest c)
    else CertificateDigestMismatch in
  Ok ().

Definition mint (p : DominanceRecoveryProblem) (common : list ProtectedEffect) (evidence verifier : Digest)
  : R DominanceCompleteRecoveryCertificate :=
  let? claim := from_complete p common in
  let? pd := problem_digest p in
  let? cd := claim_digest claim in
  let c := mkDcrCertificate DCR_CONTRACT_VERSION p claim common pd evidence verifier
    (complete_certificate_digest pd cd evidence verifier common) in
  let? _ := certificate_validate c in
  Ok c.

Definition certificate_record (c : DominanceCompleteRecoveryCertificate)
  : DominanceCompleteRecoveryCertificateRecord := c.
Definition record_validate (r : DominanceCompleteRecoveryCertificateRecord) : R () := certificate_validate r.
Definition record_canonical_bytes (r : DominanceCompleteRecoveryCertificateRecord) : R bytes :=
  let? _ := record_validate r in
  canonical_bytes (jdcr_record r).
Definition record_from_canonical_bytes `{FromSlice DominanceCompleteRecoveryCertificate} (b : bytes)
  : R DominanceCompleteRecoveryCertificateRecord :=
  let? r := decode_canonical jdcr_record b in
  let? _ := record_validate r in
  Ok r.

(** ** Decisions *)

Definition hyperedge_of (p : DominanceRecoveryProblem) (pd : Digest) (mask : N) : ConflictHyperedge :=
  let ws := select mask (worlds (pb_fiber p)) in
  mkHyperedge ws (digest_value HYPEREDGE_DOMAIN (Object [("problem_digest", jhex pd); ("worlds", jhexes ws)])).

Definition conflict_hyperedges (p : DominanceRecoveryProblem) (pd : Digest) (effect_masks : list N)
  : R (list ConflictHyperedge) :=
  let? masks := hyperedge_loop hyperedge_fuel effect_masks (length (pb_accessible_effect_surface p))
                  (full_mask p) 1 0 [] in
  Ok (hyperedge_of p pd <$> masks).

Definition unknown_decision (p : DominanceRecoveryProblem) (pd : Digest) (reason : RecoveryUnknownReason)
  (edges : list ConflictHyperedge) (cost : option Rational) : RecoveryUnknownDecision :=
  let cost := into_public <$> cost in
  mkUnknown pd reason true edges cost (pb_fallback_safepoint p)
    (digest_value UNKNOWN_DOMAIN (Object
       [("conflict_hyperedges", Array (jhyperedge <$> edges));
        ("fallback_safepoint", jhex (pb_fallback_safepoint p)); ("problem_digest", jhex pd);
        ("raw_baseline_expected_cost", jopt jcost cost); ("raw_baseline_required", Bool true);
        ("reason", jreason reason)])).

Definition dcr_verifier_identity (evidence : VerifiedEvidence) : Digest :=
  let p := Evidence.provenance evidence in
  digest_value VERIFIER_DOMAIN (Object
    [("index_id", VString (Evidence.index_id p)); ("index_version", VString (Evidence.index_version p));
     ("operator_id", VString (Evidence.operator_id p));
     ("operator_version", VString (Evidence.operator_version p));
     ("parser_id", VString (Evidence.parser_id p)); ("parser_version", VString (Evidence.parser_version p))]).

Definition verify_problem_evidence (p : DominanceRecoveryProblem) (evidence : VerifiedEvidence) : R () :=
  guard? SemanticCut.successful_receipt evidence else UnsupportedEvidenceClass in
  let? b := problem_canonical_bytes p in
  guard? bool_decide (Evidence.payload evidence = b) else EvidencePayloadMismatch in
  Ok ().

Definition conflict_decision (p : DominanceRecoveryProblem) (pd : Digest) (q : RecoveryQuery)
  (admissible : list Digest) (edges : list ConflictHyperedge) (optimal raw : Rational)
  : RecoveryConflictDecision :=
  mkConflict pd q admissible edges (into_public optimal) (into_public raw) (pb_fallback_safepoint p)
    (digest_value CONFLICT_DOMAIN (Object
       [("admissible_queries", jhexes admissible); ("conflict_hyperedges", Array (jhyperedge <$> edges));
        ("fallback_safepoint", jhex (pb_fallback_safepoint p));
        ("optimal_expected_cost", jcost (into_public optimal)); ("problem_digest", jhex pd);
        ("raw_baseline_expected_cost", jcost (into_public raw)); ("selected_query", jquery q)])).

(** The decision once the problem and its evidence are verified and no effect
    is common.  [problem.queries[index]] does not panic: a chosen index is in
    range ([solve_spec] of [RecoverySolve]), so the last [None] is never
    reached. *)
Definition decide_conflict (p : DominanceRecoveryProblem) (pd : Digest) : R RecoveryDecision :=
  let root := full_mask p in
  let effect_masks := accessible_world_effect_masks p in
  let unknown reason edges cost := Ok (DecisionUnknown (unknown_decision p pd reason edges cost)) in
  match baseline_cost p root with
  | Err Overflow => unknown CostArithmeticOverflow [] None
  | Err StateBound => unknown AnalysisBoundExceededReason [] None
  | Ok raw =>
      match conflict_hyperedges p pd effect_masks with
      | Err AnalysisBoundExceeded => unknown AnalysisBoundExceededReason [] (Some raw)
      | Err e => Err e
      | Ok edges =>
          let admissible := rq_query_digest <$>
            List.filter (fun q => (2 <=? length (query_children p root q))%nat) (pb_queries p) in
          if (length admissible =? 0)%nat then unknown NoSoundQuery edges (Some raw)
          else
            match solve p effect_masks (solve_fuel p) root ∅ with
            | Err StateBound => unknown AnalysisBoundExceededReason edges (Some raw)
            | Err Overflow => unknown CostArithmeticOverflow edges (Some raw)
            | Ok (plan, _) =>
                match nd_choice plan with
                | ChooseQuery index =>
                    match pb_queries p !! index with
                    | Some q => Ok (Conflict (conflict_decision p pd q admissible edges (nd_cost plan) raw))
                    | None => unknown RawBaselineCheaperOrEqual edges (Some raw)
                    end
                | _ => unknown RawBaselineCheaperOrEqual edges (Some raw)
                end
            end
      end
  end.

Definition dominance_complete_recover (p : DominanceRecoveryProblem) (evidence : VerifiedEvidence)
  : R RecoveryDecision :=
  let? _ := problem_validate p in
  let? _ := verify_problem_evidence p evidence in
  let? pd := problem_digest p in
  let ed := Evidence.canonical_digest evidence in
  let verifier := dcr_verifier_identity evidence in
  guard? bool_decide (verifier = pb_verifier_route p) else VerifierIdentityMismatch in
  if bool_decide (pb_fiber_status p = FiberUnknownStatus) then
    Ok (DecisionUnknown (unknown_decision p pd FiberUnknown []
          (match baseline_cost p (full_mask p) with Ok c => Some c | Err _ => None end)))
  else
    let common := common_effects p (full_mask p) in
    if negb (length common =? 0)%nat then
      let? c := mint p common ed verifier in
      Ok (Complete c)
    else decide_conflict p pd.
End Controller.
