(* ===== verification/RecoveryMasks.v ===== *)
(** What the bit masks of [Recovery] mean: a mask selects worlds of the fiber,
    the common bits of a mask are the accessible effects protected in all its
    worlds, and the enumeration of masks finds the minimal conflicts. *)

From S2P Require Import Prelude.
From S2P Require Import Ordering.
From S2P Require Import DurableStore.
From S2P Require Import Identity.
From S2P Require Import RobustSnap.
From S2P Require Import Recovery.

Lemma existsb_none {A} (f : A -> bool) l x : existsb f l = false -> x ∈ l -> f x = false.
Proof.
  intros Hf Hx. apply not_true_iff_false. intros Ht. apply not_true_iff_false in Hf. apply Hf.
  apply existsb_exists. exists x. by rewrite <- list_elem_of_In.
Qed.

(** * Bits *)

(** [b]: the mask has bit [j]. *)
Notation "m '.[' j ']'" := (N.testbit m (N.of_nat j) = true) (at level 1, left associativity, format "m .[ j ]").

Lemma has_bit_spec mask i : has_bit mask i = N.testbit mask (N.of_nat i).
Proof.
  unfold has_bit, bit. rewrite N.shiftl_1_l. destruct (N.eqb_spec (N.land mask (2 ^ N.of_nat i)) 0) as [Hz|Hz]; cbn.
  - assert (Hb : N.testbit (N.land mask (2 ^ N.of_nat i)) (N.of_nat i) = false) by (by rewrite Hz, N.bits_0).
    rewrite N.land_spec, N.pow2_bits_true, andb_true_r in Hb. by rewrite Hb.
  - symmetry. apply not_false_iff_true. intros Hb. apply Hz. apply N.bits_inj. intros j.
    rewrite N.land_spec, N.pow2_bits_eqb, N.bits_0. destruct (N.eqb_spec (N.of_nat i) j) as [<-|_].
    + by rewrite Hb.
    + apply andb_false_r.
Qed.

Lemma bit_spec i j : (bit i).[j] <-> i = j.
Proof.
  unfold bit. rewrite N.shiftl_1_l, N.pow2_bits_eqb, N.eqb_eq. lia.
Qed.

Lemma lor_bits a b j : (N.lor a b).[j] <-> a.[j] \/ b.[j].
Proof. by rewrite N.lor_spec, orb_true_iff. Qed.

Lemma land_bits a b j : (N.land a b).[j] <-> a.[j] /\ b.[j].
Proof. by rewrite N.land_spec, andb_true_iff. Qed.

Lemma without_bits a i j : (N.ldiff a (bit i)).[j] <-> a.[j] /\ j <> i.
Proof.
  rewrite N.ldiff_spec, andb_true_iff, negb_true_iff, <- not_true_iff_false, bit_spec.
  split; intros [? ?]; split; congruence.
Qed.

Lemma zero_bits j : ~ (0%N).[j].
Proof. by rewrite N.bits_0. Qed.

Lemma mask_ext a b : (forall j, a.[j] <-> b.[j]) -> a = b.
Proof.
  intros H. apply N.bits_inj. intros j. specialize (H (N.to_nat j)). rewrite N2Nat.id in H.
  destruct (N.testbit a j), (N.testbit b j); intuition congruence.
Qed.

Lemma mask_nonzero a : a <> 0%N <-> exists j, a.[j].
Proof.
  split.
  - intros Ha. exists (N.to_nat (N.log2 a)). rewrite N2Nat.id. by apply N.bit_log2.
  - intros [j Hj] ->. by apply zero_bits in Hj.
Qed.

Lemma ones_bits n j : (N.shiftl 1 (N.of_nat n) - 1).[j] <-> j < n.
Proof.
  replace (N.shiftl 1 (N.of_nat n) - 1)%N with (N.ones (N.of_nat n)) by (unfold N.ones; lia).
  rewrite N.ones_spec_iff. lia.
Qed.

Lemma mask_bound n m : (forall j, m.[j] -> j < n) <-> (m <= N.shiftl 1 (N.of_nat n) - 1)%N.
Proof.
  rewrite N.shiftl_1_l. split.
  - intros Hb. destruct (N.eq_dec m 0%N) as [->|Hm]; [lia|].
    assert (m < 2 ^ N.of_nat n)%N; [|lia]. apply N.log2_lt_pow2; [lia|].
    assert (N.to_nat (N.log2 m) < n); [|lia]. apply Hb. rewrite N2Nat.id. by apply N.bit_log2.
  - intros Hm j Hj. destruct (decide (j < n)) as [|Hn]; [done|]. exfalso.
    rewrite N.bits_above_log2 in Hj; [done|].
    assert (0 < 2 ^ N.of_nat n)%N by (apply N.neq_0_lt_0, N.pow_nonzero; lia).
    destruct (N.eq_dec m 0%N) as [->|Hm0].
    + cbn. assert (j <> 0); [|lia]. intros ->. apply Hn. destruct n; [by apply zero_bits in Hj|lia].
    + assert (N.log2 m < N.of_nat n)%N; [|lia]. apply N.log2_lt_pow2; lia.
Qed.

Lemma trailing_zeros_spec r :
  r <> 0%N -> r.[trailing_zeros r] /\ forall j, r.[j] -> trailing_zeros r <= j.
Proof.
  destruct r as [|x]; [done|]. intros _. cbn [trailing_zeros]. induction x as [x IH|x IH|]; cbn [pos_trailing_zeros].
  - split; [done|lia].
  - destruct IH as [IH1 IH2]. change (N.pos x~0) with (2 * N.pos x)%N. split.
    + by rewrite Nat2N.inj_succ, N.double_bits_succ.
    + intros [|j]; [cbn; done|]. rewrite Nat2N.inj_succ, N.double_bits_succ. intros Hj. apply IH2 in Hj. lia.
  - split; [done|lia].
Qed.

(** * Selected elements *)

Lemma elem_of_select_from {A} (x : A) mask i l :
  x ∈ select_from mask i l <-> exists j, l !! j = Some x /\ mask.[i + j].
Proof.
  revert i. induction l as [|y l IH]; intros i; cbn [select_from].
  - rewrite elem_of_nil. split; [done|]. by intros (j & Hj & _).
  - rewrite has_bit_spec.
    assert (Hstep : (exists j, (y :: l) !! j = Some x /\ mask.[i + j]) <->
      x = y /\ mask.[i] \/ exists j, l !! j = Some x /\ mask.[S i + j]).
    { split.
      - intros ([|j] & Hj & Hb); cbn in Hj; [left; simplify_eq; by rewrite Nat.add_0_r in Hb|].
        right. exists j. split; [done|]. by replace (S i + j) with (i + S j) by lia.
      - intros [[-> Hb]|(j & Hj & Hb)]; [exists 0; by rewrite Nat.add_0_r|].
        exists (S j). split; [done|]. by replace (i + S j) with (S i + j) by lia. }
    rewrite Hstep. destruct (N.testbit mask (N.of_nat i)) eqn:Hb; rewrite ?elem_of_cons, IH; naive_solver.
Qed.

Lemma elem_of_select {A} (x : A) mask l : x ∈ select mask l <-> exists j, l !! j = Some x /\ mask.[j].
Proof. apply elem_of_select_from. Qed.

Lemma select_from_sublist {A} mask i (l : list A) : select_from mask i l `sublist_of` l.
Proof.
  revert i. induction l as [|y l IH]; intros i; cbn; [constructor|].
  destruct (has_bit mask i); by constructor.
Qed.

Lemma select_subset {A} (x : A) mask l : x ∈ select mask l -> x ∈ l.
Proof. intros (j & Hj & _)%elem_of_select. by eapply list_elem_of_lookup_2. Qed.

Section Masks.
Context {A : Type} `{Ord A, !OrdOk A}.
Implicit Types (table l : list A).

Lemma sublist_sorted l l' : l' `sublist_of` l -> StronglySorted below l -> StronglySorted below l'.
Proof.
  induction 1 as [|x l1 l2 Hs IH|x l1 l2 Hs IH]; [done|..]; intros Hl; apply StronglySorted_inv in Hl as [Hl Hx].
  - constructor; [by apply IH|]. rewrite Forall_forall in Hx |- *. intros y Hy. apply Hx. by eapply elem_of_sublist.
  - by apply IH.
Qed.

Lemma select_sorted mask l : StronglySorted below l -> StronglySorted below (select mask l).
Proof. apply sublist_sorted, select_from_sublist. Qed.

(** [table.binary_search(x)] marked in the mask, for each [x]. *)
Definition marks table (m : N) l : N :=
  foldl (fun m x => match binary_search x table with Some i => N.lor m (bit i) | None => m end) m l.

Lemma binary_search_lookup table x i :
  StronglySorted below table -> binary_search x table = Some i <-> table !! i = Some x.
Proof.
  intros Ht. change (binary_search x table) with (binary_search_by_key id x table).
  rewrite binary_search_by_key_spec by (by rewrite list_fmap_id). unfold id. naive_solver.
Qed.

Lemma marks_spec table m l j :
  StronglySorted below table ->
  (marks table m l).[j] <-> m.[j] \/ exists x, x ∈ l /\ table !! j = Some x.
Proof.
  intros Ht. revert m. induction l as [|y l IH]; intros m; cbn.
  - setoid_rewrite elem_of_nil. naive_solver.
  - change (foldl _ ?m l) with (marks table m l). rewrite IH. setoid_rewrite elem_of_cons.
    destruct (binary_search y table) as [i|] eqn:Hs.
    + apply binary_search_lookup in Hs; [|done]. rewrite lor_bits, bit_spec. split.
      * intros [[?|<-]|?]; naive_solver.
      * intros [?|(x & [->|Hx] & Hj)]; [auto| |eauto]. left. right.
        eapply NoDup_lookup; [by eapply sorted_NoDup|done..].
    + split; [naive_solver|]. intros [?|(x & [->|Hx] & Hj)]; [auto| |eauto].
      apply binary_search_lookup in Hj; [|done]. congruence.
Qed.

(** A set of elements of the table and its mask. *)
Lemma select_marks table l :
  StronglySorted below table -> StronglySorted below l -> l ⊆ table -> select (marks table 0 l) table = l.
Proof.
  intros Ht Hl Hsub. apply sorted_ext; [by apply select_sorted|done|]. intros x.
  rewrite elem_of_select. setoid_rewrite marks_spec; [|done]. split.
  - intros (j & Hj & [Hz|(y & Hy & Hj')]); [by apply zero_bits in Hz|]. congruence.
  - intros Hx. apply Hsub in Hx as Hin. apply list_elem_of_lookup in Hin as [j Hj]. exists j. naive_solver.
Qed.

Lemma marks_select table mask :
  StronglySorted below table -> (forall j, mask.[j] -> j < length table) -> marks table 0 (select mask table) = mask.
Proof.
  intros Ht Hb. apply mask_ext. intros j. rewrite marks_spec by done. setoid_rewrite elem_of_select. split.
  - intros [Hz|(x & (i & Hi & Hm) & Hj)]; [by apply zero_bits in Hz|].
    rewrite (NoDup_lookup table j i x); [done|by apply sorted_NoDup|done..].
  - intros Hj. destruct (lookup_lt_is_Some_2 table j) as [x Hx]; [by apply Hb|]. right. eauto.
Qed.
End Masks.

(** * Well-formed problems *)

Definition query_law (p : DominanceRecoveryProblem) (q : RecoveryQuery) : Prop :=
  (0 < rq_native_cost_units q)%N /\ 2 <= length (rq_outcomes q) /\
  StronglySorted below (ro_outcome_digest <$> rq_outcomes q) /\
  Forall (fun o => ro_worlds o <> []) (rq_outcomes q) /\
  concat (ro_worlds <$> rq_outcomes q) ≡ₚ worlds (pb_fiber p).

(** What [validate] establishes, as far as the plan and the effects need it. *)
Record problem_law (p : DominanceRecoveryProblem) : Prop := {
  pl_count : 0 < length (worlds (pb_fiber p)) <= DCR_MAX_WORLDS;
  pl_worlds : StronglySorted below (worlds (pb_fiber p));
  pl_protected : world_id <$> pb_protected_effects p = worlds (pb_fiber p);
  pl_effects : Forall (fun s => effects s <> []) (pb_protected_effects p);
  pl_surface_len : length (pb_accessible_effect_surface p) <= ROBUST_SNAP_MAX_EFFECTS;
  pl_surface : StronglySorted below (pb_accessible_effect_surface p);
  pl_budgets : wb_world_id <$> pb_world_budgets p = worlds (pb_fiber p);
  pl_positive : Forall (fun b => 0 < wb_probability_weight b /\ 0 < wb_raw_baseline_cost_units b)%N
                  (pb_world_budgets p);
  pl_queries_len : length (pb_queries p) <= DCR_MAX_QUERIES;
  pl_queries : Forall (query_law p) (pb_queries p);
  pl_trace : length (pb_recovery_query_trace p) <= DCR_MAX_QUERY_TRACE }.

(** Read a chain of checks as a conjunction. *)
Ltac open_checks H :=
  repeat first [rewrite guard_Ok in H | rewrite reject_Ok in H | rewrite bind_unit_Ok in H].

Lemma order_Ok {A} `{Ord A, !OrdOk A} (l : list A) : require_strict_order l = Ok () <-> StronglySorted below l.
Proof.
  unfold require_strict_order. rewrite <- strictly_ascending_spec. destruct (strictly_ascending l); split; done.
Qed.

Lemma observe_worlds_Ok expected observed l c :
  StronglySorted below observed ->
  observe_worlds expected observed l = Ok c -> StronglySorted below c /\ c ≡ₚ observed ++ l.
Proof.
  revert observed. induction l as [|w l IH]; intros observed Hs; cbn.
  - intros [= <-]. by rewrite app_nil_r.
  - pose proof (bset_insert_spec w observed Hs) as (H1 & _).
    pose proof (bset_insert_fresh w observed Hs) as Hf.
    destruct (bset_mem w expected); [|done]. destruct (bset_insert w observed) as [[] s]; cbn in *; [|done].
    intros Hc. apply IH in Hc as [Hc Hp]; [|done]. split; [done|]. rewrite Hp, Hf by done.
    cbn. by rewrite Permutation_middle.
Qed.

Lemma observe_outcomes_Ok expected observed l c :
  StronglySorted below observed ->
  observe_outcomes expected observed l = Ok c ->
  StronglySorted below c /\ c ≡ₚ observed ++ concat (ro_worlds <$> l) /\ Forall (fun o => ro_worlds o <> []) l.
Proof.
  revert observed. induction l as [|o l IH]; intros observed Hs; cbn [observe_outcomes].
  - intros [= <-]. cbn. by rewrite app_nil_r.
  - intros Hc. open_checks Hc. destruct Hc as (Hz & _ & Hc). apply bind_Ok_inv in Hc as (s & Hw & Hc).
    apply observe_worlds_Ok in Hw as [Hs' Hp]; [|done]. apply IH in Hc as (? & Hp' & Hf); [|done].
    split_and!; [done| |].
    + by rewrite Hp', Hp, <- app_assoc.
    + constructor; [|done]. breflect. intros Hn. by rewrite Hn in *.
Qed.

Lemma validate_query_law p q :
  StronglySorted below (worlds (pb_fiber p)) -> validate_query p q = Ok () -> query_law p q.
Proof.
  intros Hs Hv. unfold validate_query in Hv. open_checks Hv. destruct Hv as (_ & Hc & Hd & Hv).
  apply order_Ok in Hd. apply bind_Ok_inv in Hv as (c & Ho & Hv). apply guard_Ok in Hv as [Heq _].
  apply observe_outcomes_Ok in Ho as (_ & Hp & Hf); [|constructor]. breflect. subst c.
  rewrite bset_of_list_sorted in Hp by done. cbn in Hp. split_and!; [lia|lia|done..|by symmetry].
Qed.

Lemma validate_law p : problem_validate p = Ok () -> problem_law p.
Proof.
  intros Hv. unfold problem_validate in Hv. open_checks Hv.
  destruct Hv as (_ & _ & Hf & He & Hb & Hq & Ht & _).
  unfold validate_fiber in Hf. open_checks Hf. destruct Hf as (_ & _ & Hn & Hs & _).
  unfold validate_effects in He. open_checks He. destruct He as (_ & _ & Hp & Hpe & Hl & Hsf).
  unfold validate_budgets in Hb. open_checks Hb. destruct Hb as (_ & _ & Hbs & _).
  unfold validate_queries in Hq. open_checks Hq. destruct Hq as (Hql & _ & Hqs).
  rewrite for_each_Ok in Hqs. rewrite for_each_Ok in Hpe. apply order_Ok in Hs. apply order_Ok in Hsf. breflect.
  constructor; try (done || lia).
  - apply Forall_forall. intros s Hin. apply Hpe in Hin. unfold validate_protected in Hin.
    apply reject_Ok in Hin as [Hz _]. breflect. intros Hn'. by rewrite Hn' in *.
  - apply Forall_forall. intros b Hin.
    match goal with H : existsb _ (pb_world_budgets p) = false |- _ => apply existsb_none with (x := b) in H end; [|done].
    breflect. lia.
  - apply Forall_forall. intros q Hin. by apply validate_query_law, Hqs.
Qed.

(** * Common effects *)

(** The effect is in the protected set of the world. *)
Definition protected_in (p : DominanceRecoveryProblem) (w : Digest) (e : ProtectedEffect) : Prop :=
  exists s, s ∈ pb_protected_effects p /\ world_id s = w /\ e ∈ effects s.

(** The effect is accessible, and protected in each of the worlds. *)
Definition common_effect (p : DominanceRecoveryProblem) (ws : list Digest) (e : ProtectedEffect) : Prop :=
  e ∈ pb_accessible_effect_surface p /\ forall w, w ∈ ws -> protected_in p w e.

(** No single effect serves all the worlds. *)
Definition conflicting (p : DominanceRecoveryProblem) (ws : list Digest) : Prop :=
  forall e, ~ common_effect p ws e.

Lemma conflicting_mono p ws ws' : ws ⊆ ws' -> conflicting p ws -> conflicting p ws'.
Proof. intros Hs Hc e [He Hw]. apply (Hc e). split; [done|]. intros w Hin. by apply Hw, Hs. Qed.

Lemma common_loop_spec index masks wm common j :
  (common_loop index masks wm common).[j] <->
  common.[j] /\ forall i e, masks !! i = Some e -> wm.[index + i] -> e.[j].
Proof.
  revert index common. induction masks as [|e masks IH]; intros index common; cbn [common_loop].
  - split; [|by intros [? _]]. intros Hj. split; [done|]. by intros i e Hi.
  - assert (Hstep : (forall i f, (e :: masks) !! i = Some f -> wm.[index + i] -> f.[j]) <->
      (wm.[index] -> e.[j]) /\ forall i f, masks !! i = Some f -> wm.[S index + i] -> f.[j]).
    { split.
      - intros Hall. split; [intros Hw; apply (Hall 0); [done|by rewrite Nat.add_0_r]|].
        intros i f Hf Hw. apply (Hall (S i) f Hf). by replace (index + S i) with (S index + i) by lia.
      - intros [H0 HS] [|i] f Hf Hw; cbn in Hf; [simplify_eq; rewrite Nat.add_0_r in Hw; by apply H0|].
        eapply HS; [done|]. by replace (S index + i) with (index + S i) by lia. }
    rewrite Hstep, has_bit_spec. destruct (N.testbit wm (N.of_nat index)) eqn:Hb.
    + destruct (N.eqb_spec (N.land common e) 0) as [Hz|Hz].
      * rewrite Hz. split; [intros Hj; by apply zero_bits in Hj|]. intros (Hc & He & _).
        rewrite <- Hz. apply land_bits. auto.
      * rewrite IH, land_bits. naive_solver.
    + rewrite IH. naive_solver.
Qed.

Lemma common_effect_bits_spec masks wm count j :
  count <= U64_BITS ->
  (common_effect_bits masks wm count).[j] <->
  j < count /\ forall i e, masks !! i = Some e -> wm.[i] -> e.[j].
Proof.
  intros Hc. unfold common_effect_bits. rewrite common_loop_spec. apply and_iff_compat_r.
  destruct (Nat.eqb_spec count U64_BITS) as [->|_]; [|apply ones_bits].
  change U64_MAX with (N.shiftl 1 (N.of_nat U64_BITS) - 1)%N. apply ones_bits.
Qed.

Section Problem.
Context (p : DominanceRecoveryProblem) (Hlaw : problem_law p).
Notation ws := (worlds (pb_fiber p)).
Notation surface := (pb_accessible_effect_surface p).
Notation masks := (accessible_world_effect_masks p).

Lemma protected_lookup i w e :
  ws !! i = Some w -> protected_in p w e <-> exists s, pb_protected_effects p !! i = Some s /\ e ∈ effects s.
Proof.
  destruct Hlaw as [_ Hs Hp]. intros Hi. rewrite <- Hp, list_lookup_fmap in Hi.
  destruct (pb_protected_effects p !! i) as [s|] eqn:Hsi; [|done]. cbn in Hi. injection Hi as <-. split.
  - intros (s' & Hin & Hw & He). exists s. split; [done|]. apply list_elem_of_lookup in Hin as [i' Hi'].
    assert (i' = i) as ->; [|congruence].
    apply (NoDup_lookup ws i' i (world_id s)); [by apply sorted_NoDup|..]; rewrite <- Hp, list_lookup_fmap.
    + by rewrite Hi', <- Hw.
    + by rewrite Hsi.
  - intros (s' & Hs' & He). simplify_eq. exists s'. split; [by eapply list_elem_of_lookup_2|done].
Qed.

(** A common bit is the position of a common effect. *)
Lemma common_bit_spec mask j :
  (common_effect_bits masks mask (length surface)).[j] <->
  exists e, surface !! j = Some e /\ common_effect p (select mask ws) e.
Proof.
  rewrite common_effect_bits_spec by apply pl_surface_len, Hlaw. split.
  - intros [Hj Hall]. destruct (lookup_lt_is_Some_2 surface j Hj) as [e He]. exists e. split; [done|].
    split; [by eapply list_elem_of_lookup_2|]. intros w (i & Hi & Hm)%elem_of_select.
    rewrite (protected_lookup i) by done.
    assert (exists s, pb_protected_effects p !! i = Some s) as [s Hs].
    { apply lookup_lt_is_Some_2. rewrite <- (length_fmap world_id), (pl_protected p Hlaw). by eapply lookup_lt_Some. }
    exists s. split; [done|]. specialize (Hall i (effect_mask surface (effects s))).
    unfold accessible_world_effect_masks in Hall. rewrite list_lookup_fmap, Hs in Hall.
    specialize (Hall eq_refl Hm). apply marks_spec in Hall as [Hz|(e' & Hin & He')];
      [by apply zero_bits in Hz|congruence|apply Hlaw].
  - intros (e & He & _ & Hall). split; [by eapply lookup_lt_Some|].
    intros i m Hm Hb. unfold accessible_world_effect_masks in Hm. rewrite list_lookup_fmap in Hm.
    destruct (pb_protected_effects p !! i) as [s|] eqn:Hs; [|done]. cbn in Hm. injection Hm as <-.
    apply marks_spec; [apply Hlaw|]. right. exists e. split; [|done].
    assert (Hw : ws !! i = Some (world_id s)) by (by rewrite <- (pl_protected p Hlaw), list_lookup_fmap, Hs).
    destruct (proj1 (protected_lookup i (world_id s) e Hw)) as (s' & Hs' & ?); [|congruence].
    apply Hall, elem_of_select. eauto.
Qed.

Lemma common_bits_zero mask :
  common_effect_bits masks mask (length surface) = 0%N <-> conflicting p (select mask ws).
Proof.
  split.
  - intros Hz e He. pose proof (proj1 He) as [j Hj]%list_elem_of_lookup.
    apply (zero_bits j). rewrite <- Hz. apply common_bit_spec. by exists e.
  - intros Hc. destruct (N.eq_dec (common_effect_bits masks mask (length surface)) 0%N) as [|Hn]; [done|].
    apply mask_nonzero in Hn as [j (e & _ & He)%common_bit_spec]. by destruct (Hc e).
Qed.

Lemma elem_of_common_effects mask e : e ∈ common_effects p mask <-> common_effect p (select mask ws) e.
Proof.
  unfold common_effects. rewrite elem_of_select. setoid_rewrite common_bit_spec. split.
  - intros (j & Hj & e' & He' & Hc). congruence.
  - intros Hc. pose proof (proj1 Hc) as [j Hj]%list_elem_of_lookup. exists j. split; [done|]. by exists e.
Qed.
End Problem.

(** * Minimal conflicts *)

Lemma minimal_loop_spec fuel k masks count mask r :
  k + fuel = U64_BITS -> (forall j, r.[j] -> k <= j < U64_BITS) ->
  minimal_loop fuel masks count mask r = true <->
  forall j, r.[j] -> common_effect_bits masks (N.ldiff mask (bit j)) count <> 0%N.
Proof.
  revert k r. induction fuel as [|fuel IH]; intros k r Hk Hr; cbn [minimal_loop].
  - split; [|done]. intros _ j Hj. apply Hr in Hj. lia.
  - destruct (N.eqb_spec r 0) as [->|Hn]; [split; [|done]; intros _ j Hj; by apply zero_bits in Hj|].
    destruct (trailing_zeros_spec r Hn) as [Ht Hmin].
    destruct (N.eqb_spec (common_effect_bits masks (N.ldiff mask (bit (trailing_zeros r))) count) 0) as [Hz|Hz].
    + split; [done|]. intros Hall. by destruct (Hall _ Ht).
    + rewrite (IH (S k)); [|lia|].
      * setoid_rewrite without_bits. split; [|naive_solver]. intros Hall j Hj.
        destruct (decide (j = trailing_zeros r)) as [->|]; [done|]. by apply Hall.
      * intros j [Hj Hne]%without_bits. pose proof (Hr _ Ht). pose proof (Hr _ Hj). pose proof (Hmin _ Hj). lia.
Qed.

Lemma hyperedge_fuel_eq : N.of_nat hyperedge_fuel = 65537%N.
Proof. unfold hyperedge_fuel. by rewrite N2Nat.id. Qed.

Lemma hyperedge_loop_Ok fuel masks count full mask explored acc :
  (full <= DCR_MAX_HYPERGRAPH_STATES)%N -> (explored + 1 = mask)%N -> (full < mask + N.of_nat fuel)%N ->
  exists l, hyperedge_loop fuel masks count full mask explored acc = Ok (acc ++ l) /\ StronglySorted below l /\
    forall m, m ∈ l <-> (mask <= m <= full)%N /\ is_hyperedge masks count m = true.
Proof.
  intros Hfull. revert mask explored acc.
  induction fuel as [|fuel IH]; intros mask explored acc He Hf; cbn [hyperedge_loop].
  - exists []. rewrite app_nil_r. split_and!; [done|constructor|]. intros m. rewrite elem_of_nil. split; [done|lia].
  - destruct (N.ltb_spec full mask) as [Hm|Hm].
    + exists []. rewrite app_nil_r. split_and!; [done|constructor|]. intros m. rewrite elem_of_nil. split; [done|lia].
    + unfold DCR_MAX_HYPERGRAPH_STATES in *. rewrite (proj2 (N.ltb_ge _ _)) by lia.
      destruct (IH (mask + 1)%N (explored + 1)%N
        (if is_hyperedge masks count mask then acc ++ [mask] else acc)) as (l & Hl & Hs & Hmem); [lia..|].
      assert (Hlow : Forall (below mask) l).
      { apply Forall_forall. intros m Hin. apply Hmem in Hin. apply N.compare_lt_iff. lia. }
      rewrite Hl. destruct (is_hyperedge masks count mask) eqn:Hh.
      * exists (mask :: l). rewrite <- app_assoc. split_and!; [done|by constructor|].
        intros m. rewrite elem_of_cons, Hmem. split; [intros [->|]; [split; [lia|done]|naive_solver lia]|].
        intros [? ?]. destruct (N.eq_dec m mask); [by left|right; naive_solver lia].
      * exists l. split_and!; [done..|]. intros m. rewrite Hmem. split; [naive_solver lia|].
        intros [? ?]. split; [|done]. destruct (N.eq_dec m mask) as [->|]; [congruence|lia].
Qed.

Lemma hyperedge_loop_Err fuel masks count full mask explored acc :
  (DCR_MAX_HYPERGRAPH_STATES < full)%N -> (explored + 1 = mask)%N ->
  (explored <= DCR_MAX_HYPERGRAPH_STATES < explored + N.of_nat fuel)%N ->
  hyperedge_loop fuel masks count full mask explored acc = Err AnalysisBoundExceeded.
Proof.
  intros Hfull. revert mask explored acc.
  induction fuel as [|fuel IH]; intros mask explored acc He Hf; cbn [hyperedge_loop]; [lia|].
  rewrite (proj2 (N.ltb_ge _ _)) by lia.
  destruct (N.ltb_spec DCR_MAX_HYPERGRAPH_STATES (explored + 1)); [done|]. apply IH; lia.
Qed.

(** A nonempty set of worlds with no common effect, all of whose proper
    subsets have one. *)
Record minimal_conflict (p : DominanceRecoveryProblem) (ws : list Digest) : Prop := {
  mc_nonempty : ws <> [];
  mc_sorted : StronglySorted below ws;
  mc_worlds : ws ⊆ worlds (pb_fiber p);
  mc_conflict : conflicting p ws;
  mc_minimal : forall ws', ws' ⊆ ws -> ~ ws ⊆ ws' -> ~ conflicting p ws' }.

Section Hyperedges.
Context (p : DominanceRecoveryProblem) (Hlaw : problem_law p).
Notation ws := (worlds (pb_fiber p)).
Notation masks := (accessible_world_effect_masks p).
Notation count := (length (pb_accessible_effect_surface p)).

Lemma full_bits j : (full_mask p).[j] <-> j < length ws.
Proof. apply ones_bits. Qed.

Lemma in_full mask : (mask <= full_mask p)%N <-> forall j, mask.[j] -> j < length ws.
Proof. symmetry. apply mask_bound. Qed.

Lemma select_nonempty mask : (mask <= full_mask p)%N -> select mask ws <> [] <-> mask <> 0%N.
Proof.
  rewrite in_full. intros Hb. rewrite mask_nonzero. split.
  - intros Hn. destruct (select mask ws) as [|w l] eqn:Hs; [done|].
    assert (w ∈ select mask ws) as (j & _ & ?)%elem_of_select by (rewrite Hs; by left). eauto.
  - intros [j Hj]. destruct (lookup_lt_is_Some_2 ws j) as [w Hw]; [auto|].
    assert (w ∈ select mask ws) as Hin by (apply elem_of_select; eauto). intros Hn. by rewrite Hn in Hin; apply elem_of_nil in Hin.
Qed.

(** The worlds of a mask without one of its bits. *)
Lemma elem_of_without mask i w :
  ws !! i = Some w -> forall v, v ∈ select (N.ldiff mask (bit i)) ws <-> v ∈ select mask ws /\ v <> w.
Proof.
  intros Hi v. rewrite !elem_of_select. setoid_rewrite without_bits. split.
  - intros (j & Hj & Hm & Hne). split; [eauto|]. intros ->. apply Hne.
    apply (NoDup_lookup ws j i w); [apply sorted_NoDup, Hlaw|done..].
  - intros [(j & Hj & Hm) Hne]. exists j. split_and!; [done..|]. intros ->. congruence.
Qed.

Lemma minimal_spec mask :
  (mask <= full_mask p)%N ->
  minimal_loop U64_BITS masks count mask mask = true <->
  forall i, mask.[i] -> ~ conflicting p (select (N.ldiff mask (bit i)) ws).
Proof.
  intros Hm. rewrite in_full in Hm. rewrite (minimal_loop_spec _ 0); [|done|].
  - setoid_rewrite <- common_bits_zero; done.
  - intros j Hj. apply Hm in Hj. pose proof (pl_count p Hlaw) as [_ Hc]. unfold DCR_MAX_WORLDS, ROBUST_SNAP_MAX_WORLDS in Hc.
    unfold U64_BITS. lia.
Qed.

Lemma is_hyperedge_spec mask :
  (0 < mask <= full_mask p)%N ->
  is_hyperedge masks count mask = true <-> minimal_conflict p (select mask ws).
Proof.
  intros [H0 Hm]. unfold is_hyperedge. rewrite andb_true_iff, N.eqb_eq, common_bits_zero, minimal_spec by done.
  assert (Hin : forall i, mask.[i] -> exists w, ws !! i = Some w).
  { intros i Hi. rewrite in_full in Hm. by apply lookup_lt_is_Some_2, Hm. }
  split.
  - intros [Hc Hmin]. constructor; [apply select_nonempty; lia|apply select_sorted, Hlaw| |done|].
    + intros w. apply select_subset.
    + intros ws' Hsub Hnot Hc'. apply Hnot. intros w Hw. apply elem_of_select in Hw as (i & Hi & Hb).
      destruct (decide (w ∈ ws')) as [|Hn]; [done|]. exfalso. apply (Hmin i Hb).
      eapply conflicting_mono; [|exact Hc']. intros v Hv. apply (elem_of_without mask i w Hi).
      split; [by apply Hsub|congruence].
  - intros []. split; [done|]. intros i Hi. destruct (Hin i Hi) as [w Hw]. apply mc_minimal0.
    + intros v Hv. by apply (elem_of_without mask i w Hw) in Hv as [? _].
    + intros Hsub. assert (w ∈ select mask ws) as Hv by (apply elem_of_select; eauto).
      apply Hsub in Hv. by apply (elem_of_without mask i w Hw) in Hv as [_ ?].
Qed.

(** Each conflict contains a minimal one. *)
Lemma conflict_has_minimal mask :
  pb_accessible_effect_surface p <> [] -> (mask <= full_mask p)%N -> conflicting p (select mask ws) ->
  exists m, (0 < m <= full_mask p)%N /\ is_hyperedge masks count m = true /\ select m ws ⊆ select mask ws.
Proof.
  intros Hs. induction mask as [mask IH] using (well_founded_induction N.lt_wf_0). intros Hm Hc.
  assert (mask <> 0%N) as H0.
  { intros ->. destruct (pb_accessible_effect_surface p) as [|e l] eqn:He; [done|].
    apply (Hc e). split; [rewrite He; by left|]. intros w (j & _ & Hz)%elem_of_select. by apply zero_bits in Hz. }
  destruct (minimal_loop U64_BITS masks count mask mask) eqn:Hl.
  - exists mask. split; [lia|]. split; [|done]. unfold is_hyperedge.
    rewrite (proj2 (common_bits_zero p Hlaw mask)) by done. by rewrite Hl.
  - assert (exists i, mask.[i] /\ conflicting p (select (N.ldiff mask (bit i)) ws)) as (i & Hi & Hci).
    { apply not_true_iff_false in Hl. rewrite minimal_spec in Hl by done.
      destruct (decide (Exists (fun i => mask.[i] /\ common_effect_bits masks (N.ldiff mask (bit i)) count = 0%N)
        (seq 0 (length ws)))) as [He|He].
      - apply Exists_exists in He as (i & _ & Hi & Hz). exists i. by rewrite common_bits_zero in Hz.
      - exfalso. apply Hl. intros i Hi Hci. apply He, Exists_exists. exists i.
        split; [apply elem_of_seq; rewrite in_full in Hm; specialize (Hm i Hi); lia|]. by rewrite common_bits_zero. }
    assert (Hsub : forall j, (N.ldiff mask (bit i)).[j] -> mask.[j]) by (intros j [? _]%without_bits; done).
    destruct (IH (N.ldiff mask (bit i))) as (m & Hb & Hh & Hincl); [| |done|].
    + apply N.le_neq. split; [apply N.ldiff_le_l|]. intros He.
      rewrite <- He in Hi. by apply without_bits in Hi as [_ ?].
    + etrans; [apply N.ldiff_le_l|done].
    + exists m. split_and!; [lia..|done|]. intros w Hw. apply Hincl, elem_of_select in Hw as (j & Hj & Hb').
      apply elem_of_select. eauto.
Qed.
End Hyperedges.
