(* ===== verification/RecoveryPlan.v ===== *)
(** The cost-optimal plan of [Recovery]: the exact rationals compute the
    values they denote, and the memoized search over masks finds the least
    expected cost over all adaptive strategies of queries. *)

From S2P Require Import Prelude.
From S2P Require Import Ordering.
From S2P Require Import DurableStore.
From S2P Require Import Identity.
From S2P Require Import RobustSnap.
From S2P Require Import Recovery.
From S2P Require Import RecoveryMasks.

#[local] Open Scope N_scope.

(** * Outcomes of the search

    A result is right, an overflow, or, where [bound] allows it, the refusal
    at the state bound. *)
Definition holds (bound : Prop) {A} (m : D A) (Q : A -> Prop) : Prop :=
  match m with Ok x => Q x | Err Overflow => True | Err StateBound => bound end.

Section Holds.
Context (bound : Prop) {A B : Type}.

Lemma holds_bind (m : D A) (f : A -> D B) (P : A -> Prop) (Q : B -> Prop) :
  holds bound m P -> (forall x, P x -> holds bound (f x) Q) -> holds bound (let? x := m in f x) Q.
Proof. destruct m as [x|[]]; cbn; auto. Qed.

Lemma holds_weaken (m : D A) (P Q : A -> Prop) :
  holds bound m P -> (forall x, P x -> Q x) -> holds bound m Q.
Proof. destruct m as [x|[]]; cbn; auto. Qed.

Lemma holds_ok_or (o : option A) (Q : A -> Prop) :
  (forall x, o = Some x -> Q x) -> holds bound (ok_or o Overflow) Q.
Proof. destruct o; cbn; auto. Qed.
End Holds.

(** * Exact rationals *)

Lemma checked_mul_u128_Some a b c : checked_mul_u128 a b = Some c <-> c = a * b /\ a * b <= U128_MAX.
Proof. unfold checked_mul_u128. destruct (N.leb_spec (a * b) U128_MAX); split; naive_solver lia. Qed.

Lemma checked_add_u128_Some a b c : checked_add_u128 a b = Some c <-> c = a + b /\ a + b <= U128_MAX.
Proof. unfold checked_add_u128. destruct (N.leb_spec (a + b) U128_MAX); split; naive_solver lia. Qed.

(** Two rounds halve the right operand. *)
Lemma mod_halves l r : r <> 0 -> l mod r <> 0 -> 2 * (r mod (l mod r)) < r.
Proof.
  intros Hr Hx.
  pose proof (N.mod_lt l r Hr). set (x := l mod r) in *.
  pose proof (N.mod_lt r x Hx). pose proof (N.div_mod r x Hx).
  assert (1 <= r / x) by (apply N.div_le_lower_bound; lia). nia.
Qed.

Lemma gcd_loop_S fuel l r :
  gcd_loop (S fuel) l r = if r =? 0 then l else gcd_loop fuel r (l mod r).
Proof. done. Qed.

Lemma gcd_loop_spec (k : nat) l r fuel :
  r < 2 ^ N.of_nat k -> (2 * k < fuel)%nat -> gcd_loop fuel l r = N.gcd l r.
Proof.
  revert l r fuel. induction k as [|k IH]; intros l r fuel Hr Hf.
  - destruct fuel as [|fuel]; [lia|]. rewrite gcd_loop_S. cbn in Hr. assert (r = 0) as -> by lia. by rewrite N.gcd_0_r.
  - destruct fuel as [|[|fuel]]; [lia..|]. rewrite gcd_loop_S.
    destruct (N.eqb_spec r 0) as [->|H0]; [by rewrite N.gcd_0_r|]. rewrite gcd_loop_S.
    rewrite (N.gcd_comm l), <- (N.Lcm0.gcd_mod l r).
    destruct (N.eqb_spec (l mod r) 0) as [Hz|Hz]; [by rewrite Hz, N.gcd_0_l|].
    rewrite IH; [|rewrite Nat2N.inj_succ, N.pow_succ_r' in Hr; pose proof (mod_halves l r H0 Hz); lia|lia].
    by rewrite N.gcd_comm, (N.Lcm0.gcd_mod r).
Qed.

(** The loop's result divides both operands. *)
Lemma gcd_spec l r : r <= U128_MAX -> 0 < gcd l r /\ (gcd l r | l) /\ (gcd l r | r).
Proof.
  intros Hr. unfold gcd. rewrite (gcd_loop_spec 128) by (unfold U128_MAX in Hr; lia || (cbn; lia)).
  destruct (N.eqb_spec (N.gcd l r) 0) as [Hz|Hz].
  - split_and!; [lia|apply N.divide_1_l..].
  - split_and!; [lia|apply N.gcd_divide_l|apply N.gcd_divide_r].
Qed.

#[local] Opaque gcd U128_MAX.

Definition rat_ok (r : Rational) : Prop := r_numerator r <= U128_MAX /\ 0 < r_denominator r <= U128_MAX.

(** [r] is the fraction [x / y]. *)
Definition denotes (r : Rational) (x y : N) : Prop := rat_ok r /\ r_numerator r * y = x * r_denominator r.

Lemma mul_compare a b c : 0 < c -> (a * c ?= b * c) = (a ?= b).
Proof.
  intros Hc. destruct (N.compare_spec a b) as [->|H|H].
  - apply N.compare_refl.
  - apply N.compare_lt_iff. nia.
  - apply N.compare_gt_iff. nia.
Qed.

Section Rationals.
Context (bound : Prop).

Lemma Rational_new_spec n d :
  n <= U128_MAX -> d <= U128_MAX -> holds bound (Rational_new n d) (fun r => 0 < d /\ denotes r n d).
Proof.
  intros Hn Hd. unfold Rational_new. destruct (N.eqb_spec d 0) as [|H0]; [done|]. cbn [holds].
  destruct (gcd_spec n d Hd) as (Hg & [n' Hn'] & [d' Hd']). set (g := gcd n d) in *; clearbody g.
  split; [lia|]. rewrite Hn', Hd', !N.div_mul by lia. unfold denotes, rat_ok. cbn. nia.
Qed.

Lemma Rational_add_spec a b x1 x2 y :
  denotes a x1 y -> denotes b x2 y -> 0 < y -> holds bound (Rational_add a b) (fun r => denotes r (x1 + x2) y).
Proof.
  intros [[Ha1 Ha2] Ha] [[Hb1 Hb2] Hb] Hy. unfold Rational_add.
  destruct (gcd_spec (r_denominator a) (r_denominator b)) as (Hg & [da Hda] & [db Hdb]); [lia|].
  set (g := gcd _ _) in *; clearbody g. rewrite Hda, Hdb, !N.div_mul by lia.
  eapply holds_bind with (P := fun n => n = r_numerator a * db + r_numerator b * da /\ n <= U128_MAX).
  { apply holds_ok_or. intros n Hn. apply bind_Some in Hn as (u & Hu & Hn). apply bind_Some in Hn as (v & Hv & Hn).
    apply checked_mul_u128_Some in Hu as [-> _], Hv as [-> _]. apply checked_add_u128_Some in Hn as [-> ?]. auto. }
  intros n [-> Hn]. eapply holds_bind with (P := fun d => d = da * g * db /\ d <= U128_MAX).
  { apply holds_ok_or. intros d Hd. apply checked_mul_u128_Some in Hd as [-> ?]. auto. }
  intros d [-> Hd]. eapply holds_weaken; [by apply Rational_new_spec|]. cbn. intros r [Hpos [Hr Heq]].
  split; [done|]. destruct Hr as [_ Hr]. rewrite Hda in Ha. rewrite Hdb in Hb.
  apply (N.mul_cancel_r _ _ (da * g * db)); [lia|].
  transitivity (r_numerator r * (da * g * db) * y); [ring|]. rewrite Heq.
  transitivity ((r_numerator a * y * db + r_numerator b * y * da) * r_denominator r); [ring|].
  rewrite Ha, Hb. ring.
Qed.

Lemma mul_fraction_spec a x w y :
  denotes a x w -> 0 < w <= U128_MAX -> y <= U128_MAX -> 0 < y -> holds bound (mul_fraction a w y) (fun r => denotes r x y).
Proof.
  intros [[Ha1 Ha2] Ha] Hw Hy Hy0. unfold mul_fraction.
  destruct (gcd_spec (r_numerator a) y Hy) as (Hg & [n' Hn] & [y' Hy']). set (g := gcd (r_numerator a) y) in *; clearbody g.
  destruct (gcd_spec w (r_denominator a)) as (Hh & [w' Hw'] & [d' Hd]); [lia|]. set (h := gcd w (r_denominator a)) in *; clearbody h.
  rewrite Hn, Hd, Hy', Hw', !N.div_mul by lia.
  eapply holds_bind with (P := fun v => v = n' * w' /\ v <= U128_MAX).
  { apply holds_ok_or. intros v Hv. apply checked_mul_u128_Some in Hv as [-> ?]. auto. }
  intros u [-> Hu]. eapply holds_bind with (P := fun v => v = d' * y' /\ v <= U128_MAX).
  { apply holds_ok_or. intros v Hv. apply checked_mul_u128_Some in Hv as [-> ?]. auto. }
  intros v [-> Hv]. eapply holds_weaken; [by apply Rational_new_spec|]. cbn. intros r [Hpos [Hr Heq]].
  split; [done|]. destruct Hr as [_ Hr]. rewrite Hn, Hd, Hw' in Ha.
  apply (N.mul_cancel_r _ _ (d' * h * (d' * y'))); [nia|].
  transitivity (r_numerator r * (d' * y') * (y' * g) * d' * h); [ring|]. rewrite Heq.
  transitivity (n' * g * (w' * h) * r_denominator r * (y' * d')); [ring|]. rewrite Ha. ring.
Qed.

Lemma compare_spec a b x1 x2 y :
  denotes a x1 y -> denotes b x2 y -> 0 < y -> holds bound (compare a b) (fun c => c = (x1 ?= x2)).
Proof.
  intros [[Ha1 Ha2] Ha] [[Hb1 Hb2] Hb] Hy. unfold compare.
  destruct (gcd_spec (r_denominator a) (r_denominator b)) as (Hg & [da Hda] & [db Hdb]); [lia|].
  set (g := gcd _ _) in *; clearbody g. rewrite Hda, Hdb, !N.div_mul by lia. rewrite Hda in *. rewrite Hdb in *.
  eapply holds_bind; [apply holds_ok_or; intros u Hu; apply checked_mul_u128_Some in Hu; exact Hu|].
  intros u [-> _]. cbn beta.
  eapply holds_bind; [apply holds_ok_or; intros v Hv; apply checked_mul_u128_Some in Hv; exact Hv|].
  intros v [-> _]. cbn [holds].
  assert (E1 : r_numerator a * db * y = x1 * (da * db * g)) by (rewrite <- N.mul_assoc, (N.mul_comm db), N.mul_assoc, Ha; ring).
  assert (E2 : r_numerator b * da * y = x2 * (da * db * g)) by (rewrite <- N.mul_assoc, (N.mul_comm da), N.mul_assoc, Hb; ring).
  rewrite <- (mul_compare _ _ y Hy), E1, E2. apply mul_compare. nia.
Qed.
End Rationals.

(** * Sums over the worlds of a mask *)

Definition Nsum (l : list N) : N := foldr N.add 0 l.

#[local] Arguments Nsum : simpl never.

Lemma Nsum_cons x l : Nsum (x :: l) = x + Nsum l.
Proof. done. Qed.

Lemma Nsum_ext {A} (f g : A -> N) l : (forall x, x ∈ l -> f x = g x) -> Nsum (f <$> l) = Nsum (g <$> l).
Proof.
  induction l as [|x l IH]; intros Hfg; [done|]. rewrite !fmap_cons, !Nsum_cons.
  rewrite (Hfg x) by (by left). f_equal. apply IH. intros y Hy. apply Hfg. by right.
Qed.

Lemma Nsum_add {A} (f g : A -> N) l : Nsum ((fun x => f x + g x) <$> l) = Nsum (f <$> l) + Nsum (g <$> l).
Proof. induction l as [|x l IH]; [done|]. rewrite !fmap_cons, !Nsum_cons. lia. Qed.

Lemma Nsum_mul {A} c (f : A -> N) l : Nsum ((fun x => c * f x) <$> l) = c * Nsum (f <$> l).
Proof. induction l as [|x l IH]; [cbn; unfold Nsum; cbn; lia|]. rewrite !fmap_cons, !Nsum_cons. lia. Qed.

Lemma Nsum_le {A} (f : A -> N) l x : x ∈ l -> f x <= Nsum (f <$> l).
Proof. induction 1 as [x l|x y l _ IH]; rewrite fmap_cons, Nsum_cons; lia. Qed.

Lemma sum_lor {A} (g : A -> N) a b i l :
  (forall j, a.[j] -> ~ b.[j]) ->
  Nsum (g <$> select_from (N.lor a b) i l) = Nsum (g <$> select_from a i l) + Nsum (g <$> select_from b i l).
Proof.
  intros Hd. revert i. induction l as [|x l IH]; intros i; cbn [select_from]; [done|].
  rewrite !has_bit_spec, N.lor_spec. specialize (Hd i).
  destruct (N.testbit a (N.of_nat i)), (N.testbit b (N.of_nat i)); cbn [orb];
    rewrite ?fmap_cons, ?Nsum_cons, IH; [by destruct Hd|lia..].
Qed.

Lemma select_zero {A} (l : list A) : select 0 l = [].
Proof.
  destruct (select 0 l) as [|x l'] eqn:Hs; [done|].
  assert (x ∈ select 0 l) as (j & _ & Hj)%elem_of_select by (rewrite Hs; by left). by apply zero_bits in Hj.
Qed.

(** The checked folds compute the sums. *)
Lemma try_sum_spec bound {A} (f : A -> option N) (g : A -> N) l s :
  (forall x v, x ∈ l -> f x = Some v -> v = g x) -> s <= U128_MAX ->
  holds bound (try_sum (f <$> l) s) (fun v => v = s + Nsum (g <$> l) /\ v <= U128_MAX).
Proof.
  revert s. induction l as [|x l IH]; intros s Hf Hs; [cbn; unfold Nsum; cbn; split; [lia|done]|].
  rewrite !fmap_cons, Nsum_cons. cbn [try_sum].
  eapply holds_bind with (P := fun v => v = s + g x /\ v <= U128_MAX).
  - apply holds_ok_or. intros v Hv. apply bind_Some in Hv as (u & Hu & Hv).
    apply Hf in Hu as ->; [|by left]. apply checked_add_u128_Some in Hv as [-> ?]. auto.
  - intros v [-> Hv]. eapply holds_weaken; [apply IH; [|done]|].
    + intros y u Hy. apply Hf. by right.
    + cbn. intros u [-> Hu]. split; [lia|done].
Qed.

(** * Strategies

    A strategy asks queries one after the other, choosing each from the
    outcomes so far, and ends with a common effect or with the baseline. *)
Inductive strategy :=
| Finish
| UseBaseline
| Ask (index : nat) (next : Digest -> strategy).

(** What it costs in one world: the queries asked there, and the raw
    baseline where the strategy falls back to it. *)
Fixpoint run (p : DominanceRecoveryProblem) (s : strategy) (b : WorldRecoveryBudget) : N :=
  match s with
  | Finish => 0
  | UseBaseline => wb_raw_baseline_cost_units b
  | Ask index next =>
      match pb_queries p !! index with
      | Some q =>
          rq_native_cost_units q +
          match List.find (fun o => bool_decide (wb_world_id b ∈ ro_worlds o)) (rq_outcomes q) with
          | Some o => run p (next (ro_outcome_digest o)) b
          | None => 0
          end
      | None => 0
      end
  end.

(** The worlds that stay possible after an outcome. *)
Definition cell (o : RecoveryQueryOutcome) (ws : list Digest) : list Digest :=
  List.filter (fun w => bool_decide (w ∈ ro_worlds o)) ws.

(** It asks existing queries, and finishes only where one accessible effect is
    protected in every world still possible. *)
Fixpoint admissible (p : DominanceRecoveryProblem) (s : strategy) (ws : list Digest) : Prop :=
  match s with
  | Finish => exists e, common_effect p ws e
  | UseBaseline => True
  | Ask index next =>
      match pb_queries p !! index with
      | Some q => forall o, o ∈ rq_outcomes q -> cell o ws <> [] ->
                    admissible p (next (ro_outcome_digest o)) (cell o ws)
      | None => False
      end
  end.

Section Plan.
Context (p : DominanceRecoveryProblem) (Hlaw : problem_law p).
Notation ws := (worlds (pb_fiber p)).
Notation masks := (accessible_world_effect_masks p).
Notation count := (length (pb_accessible_effect_surface p)).

Definition msum (g : WorldRecoveryBudget -> N) (mask : N) : N := Nsum (g <$> select mask (pb_world_budgets p)).

(** Total weight, and expected costs scaled by it. *)
Definition weight (mask : N) : N := msum wb_probability_weight mask.
Definition raw_total (mask : N) : N := msum (fun b => wb_probability_weight b * wb_raw_baseline_cost_units b) mask.
Definition total (s : strategy) (mask : N) : N := msum (fun b => wb_probability_weight b * run p s b) mask.

(** The least expected cost, scaled, of the strategies for the worlds of a mask. *)
Definition optimal (mask t : N) : Prop :=
  (exists s, admissible p s (select mask ws) /\ total s mask = t) /\
  forall s, admissible p s (select mask ws) -> t <= total s mask.

(** The same for the strategies that first ask one query. *)
Definition best_ask (mask : N) (index : nat) (t : N) : Prop :=
  (exists next, admissible p (Ask index next) (select mask ws) /\ total (Ask index next) mask = t) /\
  forall next, admissible p (Ask index next) (select mask ws) -> t <= total (Ask index next) mask.

Lemma msum_ext g h mask :
  (forall b, b ∈ select mask (pb_world_budgets p) -> g b = h b) -> msum g mask = msum h mask.
Proof. apply Nsum_ext. Qed.

Lemma msum_zero g : msum g 0 = 0.
Proof. unfold msum. by rewrite select_zero. Qed.

Lemma budget_lookup j b : pb_world_budgets p !! j = Some b -> ws !! j = Some (wb_world_id b).
Proof. intros Hb. by rewrite <- (pl_budgets p Hlaw), list_lookup_fmap, Hb. Qed.

Lemma length_budgets : length (pb_world_budgets p) = length ws.
Proof. by rewrite <- (pl_budgets p Hlaw), length_fmap. Qed.

Lemma weight_pos mask : mask <> 0 -> mask <= full_mask p -> 0 < weight mask.
Proof.
  intros [j Hj]%mask_nonzero Hm. rewrite in_full in Hm.
  destruct (lookup_lt_is_Some_2 (pb_world_budgets p) j) as [b Hb]; [rewrite length_budgets; by apply Hm|].
  pose proof (pl_positive p Hlaw) as Hp. rewrite Forall_lookup in Hp. specialize (Hp j b Hb) as [Hp _].
  eapply N.lt_le_trans; [exact Hp|]. apply (Nsum_le wb_probability_weight). apply elem_of_select. eauto.
Qed.

(** ** Children of a query *)

Definition child (mask : N) (o : RecoveryQueryOutcome) : N := N.land (marks ws 0 (ro_worlds o)) mask.

Lemma child_bits mask o j : (child mask o).[j] <-> mask.[j] /\ exists w, w ∈ ro_worlds o /\ ws !! j = Some w.
Proof.
  unfold child. rewrite land_bits, marks_spec by apply Hlaw. pose proof (zero_bits j). naive_solver.
Qed.

Lemma child_le mask o : child mask o <= mask.
Proof. unfold child. apply N.land_le_r. Qed.

Lemma children_unfold mask q :
  query_children p mask q =
  omap (fun o => if negb (child mask o =? 0) && negb (child mask o =? mask) then Some (child mask o) else None)
    (rq_outcomes q).
Proof. done. Qed.

Lemma elem_of_children mask q c :
  c ∈ query_children p mask q <-> c <> 0 /\ c <> mask /\ exists o, o ∈ rq_outcomes q /\ child mask o = c.
Proof.
  rewrite children_unfold, list_elem_of_omap. split.
  - intros (o & Ho & Hc). destruct (negb _ && negb _) eqn:Hb; [|done]. injection Hc as <-. breflect. eauto.
  - intros (H0 & Hm & o & Ho & <-). exists o. split; [done|].
    by rewrite (proj2 (N.eqb_neq _ _) H0), (proj2 (N.eqb_neq _ _) Hm).
Qed.

Lemma select_child mask o : select (child mask o) ws = cell o (select mask ws).
Proof.
  apply sorted_ext; [apply select_sorted, Hlaw|apply sorted_filter, select_sorted, Hlaw|]. intros w.
  unfold cell. rewrite !list_elem_of_In, filter_In, <- !list_elem_of_In, bool_decide_eq_true.
  rewrite !elem_of_select. setoid_rewrite child_bits. split.
  - intros (j & Hj & Hm & v & Hv & Hj'). split; [eauto|congruence].
  - intros [(j & Hj & Hm) Hw]. eauto 10.
Qed.

Lemma concat_unique (os : list RecoveryQueryOutcome) i k a b w :
  NoDup (concat (ro_worlds <$> os)) -> os !! i = Some a -> os !! k = Some b ->
  w ∈ ro_worlds a -> w ∈ ro_worlds b -> i = k.
Proof.
  revert i k. induction os as [|o os IH]; intros i k Hn Hi Hk Ha Hb; [done|].
  cbn in Hn. apply NoDup_app in Hn as (_ & Hd & Hn).
  assert (Hin : forall c n, os !! n = Some c -> w ∈ ro_worlds c -> w ∈ concat (ro_worlds <$> os)).
  { intros c n Hc Hw. apply list_elem_of_In, in_concat. exists (ro_worlds c).
    rewrite <- !list_elem_of_In. split; [|done]. apply list_elem_of_fmap. exists c.
    split; [done|by eapply list_elem_of_lookup_2]. }
  destruct i as [|i], k as [|k]; cbn in Hi, Hk; simplify_eq; [done| | |].
  - destruct (Hd w Ha). eauto.
  - destruct (Hd w Hb). eauto.
  - f_equal. by apply IH.
Qed.

Section Query.
Context (q : RecoveryQuery) (Hq : query_law p q).
Notation os := (rq_outcomes q).

Lemma outcomes_NoDup : NoDup (concat (ro_worlds <$> os)).
Proof. destruct Hq as (_ & _ & _ & _ & ->). apply sorted_NoDup, Hlaw. Qed.

Lemma outcome_unique o o' w : o ∈ os -> o' ∈ os -> w ∈ ro_worlds o -> w ∈ ro_worlds o' -> o = o'.
Proof.
  intros [i Hi]%list_elem_of_lookup [k Hk]%list_elem_of_lookup Hw Hw'.
  assert (i = k) as -> by (eapply concat_unique; [apply outcomes_NoDup|done..]). congruence.
Qed.

Lemma outcome_of w : w ∈ ws -> exists o, o ∈ os /\ w ∈ ro_worlds o.
Proof.
  destruct Hq as (_ & _ & _ & _ & Hp). rewrite <- Hp, list_elem_of_In, in_concat. intros (l & Hl & Hw).
  rewrite <- list_elem_of_In in Hl. rewrite <- list_elem_of_In in Hw. apply list_elem_of_fmap in Hl as (o & -> & Ho). eauto.
Qed.

Lemma msum_concat g mask l :
  NoDup (concat (ro_worlds <$> l)) ->
  msum g (N.land (marks ws 0 (concat (ro_worlds <$> l))) mask) = Nsum ((fun o => msum g (child mask o)) <$> l).
Proof.
  induction l as [|o l IH]; intros Hn; [apply msum_zero|]. rewrite !fmap_cons, Nsum_cons. cbn [concat].
  cbn in Hn. apply NoDup_app in Hn as (_ & Hd & Hn).
  assert (Heq : N.land (marks ws 0 (ro_worlds o ++ concat (ro_worlds <$> l))) mask =
    N.lor (child mask o) (N.land (marks ws 0 (concat (ro_worlds <$> l))) mask)).
  { apply mask_ext. intros j. unfold child. rewrite lor_bits, !land_bits, !marks_spec by apply Hlaw.
    setoid_rewrite elem_of_app. naive_solver. }
  unfold msum at 1, select. rewrite Heq, sum_lor; [f_equal; by apply IH|].
  intros j (_ & w & Hw & Hj)%child_bits. rewrite land_bits, marks_spec by apply Hlaw.
  intros [[Hz|(v & Hv & Hj')] _]; [by apply zero_bits in Hz|]. apply (Hd w Hw). congruence.
Qed.

(** Each world of the mask is in the child of exactly one outcome. *)
Lemma msum_partition g mask : mask <= full_mask p -> msum g mask = Nsum ((fun o => msum g (child mask o)) <$> os).
Proof.
  intros Hm. rewrite <- msum_concat by apply outcomes_NoDup. f_equal. apply mask_ext. intros j.
  rewrite land_bits, marks_spec by apply Hlaw. split; [|by intros [_ ?]]. intros Hj. split; [|done]. right.
  rewrite in_full in Hm. destruct (lookup_lt_is_Some_2 ws j) as [w Hw]; [auto|]. exists w. split; [|done].
  destruct Hq as (_ & _ & _ & _ & ->). by eapply list_elem_of_lookup_2.
Qed.

(** Fewer than two children: the query tells nothing about these worlds. *)
Lemma unsplit_child mask :
  mask <> 0 -> mask <= full_mask p -> (length (query_children p mask q) < 2)%nat ->
  exists o, o ∈ os /\ child mask o = mask.
Proof.
  intros [j Hj]%mask_nonzero Hm Hlen.
  assert (Hcov : forall i, mask.[i] -> exists o, o ∈ os /\ (child mask o).[i]).
  { intros i Hi. rewrite in_full in Hm. destruct (lookup_lt_is_Some_2 ws i) as [w Hw]; [auto|].
    destruct (outcome_of w) as (o & Ho & Hwo); [by eapply list_elem_of_lookup_2|].
    exists o. split; [done|]. apply child_bits. eauto. }
  destruct (Hcov j Hj) as (o & Ho & Hoj). exists o. split; [done|]. apply mask_ext. intros i. split.
  - by intros [? _]%child_bits.
  - intros Hi. destruct (Hcov i Hi) as (o' & Ho' & Hoi).
    destruct (decide (child mask o = child mask o')) as [->|Hne]; [done|].
    assert (Hproper : forall c k, c ∈ os -> (child mask c).[k] -> child mask c <> mask -> child mask c ∈ query_children p mask q).
    { intros c k Hc Hk Hx. apply elem_of_children. split_and!; [apply mask_nonzero; eauto|done|eauto]. }
    destruct (decide (child mask o = mask)) as [->|H1]; [done|].
    destruct (decide (child mask o' = mask)) as [H2|H2].
    + exfalso. apply Hne. apply child_bits in Hoj as (_ & w & Hw & Hwj).
      rewrite <- H2 in Hj. apply child_bits in Hj as (_ & w' & Hw' & Hwj').
      f_equal. apply (outcome_unique o o' w); [done..|congruence].
    + exfalso. pose proof (Hproper _ _ Ho Hoj H1) as C1. pose proof (Hproper _ _ Ho' Hoi H2) as C2.
      destruct (query_children p mask q) as [|c1 [|c2 l]]; cbn in Hlen; [by apply elem_of_nil in C1| |lia].
      apply list_elem_of_singleton in C1, C2. congruence.
Qed.

(** Two or more: each is a proper subset. *)
Lemma split_child mask o :
  mask <> 0 -> (2 <= length (query_children p mask q))%nat -> o ∈ os -> child mask o <> mask.
Proof.
  intros Hm Hlen Ho Heq.
  destruct (query_children p mask q) as [|c l] eqn:Hc; cbn in Hlen; [lia|].
  assert (c ∈ query_children p mask q) as (H0 & Hne & o' & Ho' & <-)%elem_of_children by (rewrite Hc; by left).
  apply mask_nonzero in H0 as [j Hj]. apply child_bits in Hj as (Hj & w & Hw & Hwj).
  rewrite <- Heq in Hj. apply child_bits in Hj as (_ & w' & Hw' & Hwj').
  apply Hne. rewrite <- Heq at 2. f_equal. apply (outcome_unique o' o w); [done..|congruence].
Qed.
End Query.
End Plan.
