(* ===== verification/RecoverySolve.v ===== *)
(** The memoized search of [Recovery] returns the least expected cost over all
    strategies: the value of a query is the sum over its children, the best of
    the baseline and the queries is optimal, and memoization, fuel and the
    exact arithmetic do not change it. *)

From S2P Require Import Prelude.
From S2P Require Import Ordering.
From S2P Require Import DurableStore.
From S2P Require Import Identity.
From S2P Require Import RobustSnap.
From S2P Require Import Recovery.
From S2P Require Import RecoveryMasks.
From S2P Require Import RecoveryPlan.

#[local] Open Scope N_scope.
#[local] Arguments Nsum : simpl never.
#[local] Opaque U128_MAX.

Section Solve.
Context (p : DominanceRecoveryProblem) (Hlaw : problem_law p).
Notation ws := (worlds (pb_fiber p)).
Notation masks := (accessible_world_effect_masks p).
Notation count := (length (pb_accessible_effect_surface p)).
Notation child := (child p).
Notation optimal := (optimal p).
Notation total := (total p).
Notation weight := (weight p).

(** ** The value of a query *)

Lemma law_of i q : pb_queries p !! i = Some q -> query_law p q.
Proof. intros Hi. pose proof (pl_queries p Hlaw) as Hf. rewrite Forall_lookup in Hf. by eapply Hf. Qed.

Lemma find_outcome q o w :
  query_law p q -> o ∈ rq_outcomes q -> w ∈ ro_worlds o ->
  List.find (fun o => bool_decide (w ∈ ro_worlds o)) (rq_outcomes q) = Some o.
Proof.
  intros Hq Ho Hw. destruct (List.find _ (rq_outcomes q)) as [o'|] eqn:Hf.
  - apply find_some in Hf as [Ho' Hw']. rewrite <- list_elem_of_In in Ho'. apply bool_decide_eq_true in Hw'.
    f_equal. by apply (outcome_unique p Hlaw q Hq o' o w).
  - rewrite list_elem_of_In in Ho. eapply find_none in Hf; [|exact Ho]. cbn in Hf.
    apply bool_decide_eq_false in Hf. done.
Qed.

Lemma total_ask i q next mask :
  pb_queries p !! i = Some q -> mask <= full_mask p ->
  total (Ask i next) mask =
  rq_native_cost_units q * weight mask +
  Nsum ((fun o => total (next (ro_outcome_digest o)) (child mask o)) <$> rq_outcomes q).
Proof.
  intros Hi Hm. pose proof (law_of i q Hi) as Hq.
  set (after b := match List.find (fun o => bool_decide (wb_world_id b ∈ ro_worlds o)) (rq_outcomes q) with
                  | Some o => run p (next (ro_outcome_digest o)) b | None => 0 end).
  unfold RecoveryPlan.total at 1.
  rewrite (msum_ext p _ (fun b => rq_native_cost_units q * wb_probability_weight b + wb_probability_weight b * after b)).
  2:{ intros b _. cbn [run]. rewrite Hi. fold (after b). lia. }
  unfold msum. rewrite Nsum_add, Nsum_mul. fold (msum p wb_probability_weight mask). fold (weight mask). f_equal.
  fold (msum p (fun b => wb_probability_weight b * after b) mask).
  rewrite (msum_partition p Hlaw q Hq) by done. apply Nsum_ext. intros o Ho. apply msum_ext.
  intros b (j & Hb & Hj)%elem_of_select. apply child_bits in Hj as (_ & w & Hw & Hwj); [|done].
  apply (budget_lookup p Hlaw) in Hb. unfold after. rewrite (find_outcome q o); [done..|]. congruence.
Qed.

Lemma cell_nonempty mask o : mask <= full_mask p -> cell o (select mask ws) <> [] <-> child mask o <> 0.
Proof.
  intros Hm. rewrite <- select_child by done. apply select_nonempty. etrans; [apply child_le|done].
Qed.

(** A choice of strategies for the outcomes. *)
Definition continues (mask : N) (l : list RecoveryQueryOutcome) (next : Digest -> strategy) : Prop :=
  forall o, o ∈ l -> child mask o <> 0 -> admissible p (next (ro_outcome_digest o)) (select (child mask o) ws).

Lemma admissible_ask i q next mask :
  pb_queries p !! i = Some q -> mask <= full_mask p ->
  admissible p (Ask i next) (select mask ws) <-> continues mask (rq_outcomes q) next.
Proof.
  intros Hi Hm. cbn [admissible]. rewrite Hi. unfold continues.
  split; intros H o Ho Hc; specialize (H o Ho); rewrite (select_child p Hlaw) in *;
    apply H; by apply cell_nonempty.
Qed.

Notation kept mask := (fun o => if negb (child mask o =? 0) && negb (child mask o =? mask) then Some (child mask o) else None).
Notation outcome_total mask next := (fun o => total (next (ro_outcome_digest o)) (child mask o)).

Lemma children_least mask l ts next :
  (forall o, o ∈ l -> child mask o <> mask) -> Forall2 optimal (omap (kept mask) l) ts ->
  continues mask l next -> Nsum ts <= Nsum (outcome_total mask next <$> l).
Proof.
  revert ts. induction l as [|o l IH]; intros ts Hne Ht Hc; cbn in Ht.
  - inversion_clear Ht. done.
  - rewrite fmap_cons, Nsum_cons.
    assert (Hl : forall ts, Forall2 optimal (omap (kept mask) l) ts -> Nsum ts <= Nsum (outcome_total mask next <$> l)).
    { intros ts' Ht'. apply IH; [intros o' Ho'; apply Hne; by right|done|].
      intros o' Ho'. apply Hc. by right. }
    rewrite (proj2 (N.eqb_neq _ _) (Hne o ltac:(by left))), andb_true_r in Ht.
    destruct (N.eqb_spec (child mask o) 0) as [H0|H0]; cbn in Ht; [specialize (Hl _ Ht); lia|].
    destruct ts as [|t ts]; [by inversion Ht|]. apply Forall2_cons in Ht as [Hopt Ht].
    rewrite Nsum_cons. apply N.add_le_mono; [|by apply Hl]. apply Hopt, Hc; [by left|done].
Qed.

Lemma children_attained mask l ts :
  (forall o, o ∈ l -> child mask o <> mask) -> Forall2 optimal (omap (kept mask) l) ts ->
  NoDup (ro_outcome_digest <$> l) ->
  exists next, continues mask l next /\ Nsum (outcome_total mask next <$> l) = Nsum ts.
Proof.
  revert ts. induction l as [|o l IH]; intros ts Hne Ht Hn; cbn in Ht.
  - inversion_clear Ht. exists (fun _ => UseBaseline). split; [|done]. intros o Ho. by apply elem_of_nil in Ho.
  - rewrite fmap_cons in Hn. apply NoDup_cons in Hn as [Hfresh Hn].
    rewrite (proj2 (N.eqb_neq _ _) (Hne o ltac:(by left))), andb_true_r in Ht.
    assert (Hl : forall ts, Forall2 optimal (omap (kept mask) l) ts -> exists next, continues mask l next /\
      Nsum (outcome_total mask next <$> l) = Nsum ts).
    { intros ts' Ht'. apply IH; [intros o' Ho'; apply Hne; by right|done..]. }
    destruct (N.eqb_spec (child mask o) 0) as [H0|H0]; cbn in Ht.
    + destruct (Hl _ Ht) as (next & Hc & Hs). exists next. split.
      * intros o' [->|Ho']%elem_of_cons; [done|by apply Hc].
      * rewrite fmap_cons, Nsum_cons, H0, Hs. unfold RecoveryPlan.total. by rewrite msum_zero.
    + destruct ts as [|t ts]; [by inversion Ht|]. apply Forall2_cons in Ht as [[(s & Hs & Hst) _] Ht].
      destruct (Hl _ Ht) as (next & Hc & Hsum).
      assert (Hother : forall o', o' ∈ l -> ro_outcome_digest o' <> ro_outcome_digest o).
      { intros o' Ho' Heq. apply Hfresh. rewrite <- Heq. apply list_elem_of_fmap. eauto. }
      exists (fun d => if decide (d = ro_outcome_digest o) then s else next d). split.
      * intros o' [->|Ho']%elem_of_cons Hz; [by rewrite decide_True|].
        rewrite decide_False by auto. by apply Hc.
      * rewrite fmap_cons, !Nsum_cons, decide_True, Hst, <- Hsum by done. f_equal. apply Nsum_ext.
        intros o' Ho'. by rewrite decide_False by auto.
Qed.

(** Optimal values of the children give the value of asking the query. *)
Lemma best_ask_of_children i q mask ts :
  pb_queries p !! i = Some q -> mask <> 0 -> mask <= full_mask p ->
  (2 <= length (query_children p mask q))%nat -> Forall2 optimal (query_children p mask q) ts ->
  best_ask p mask i (rq_native_cost_units q * weight mask + Nsum ts).
Proof.
  intros Hi H0 Hm Hlen Ht. pose proof (law_of i q Hi) as Hq.
  assert (Hne : forall o, o ∈ rq_outcomes q -> child mask o <> mask) by (intros o; by apply split_child).
  rewrite children_unfold in Ht. split.
  - destruct (children_attained mask (rq_outcomes q) ts) as (next & Hc & Hs); [done..| |].
    { destruct Hq as (_ & _ & Hd & _). by apply sorted_NoDup. }
    exists next. rewrite (admissible_ask i q), (total_ask i q), Hs by done. done.
  - intros next. rewrite (admissible_ask i q), (total_ask i q) by done. intros Hc.
    apply N.add_le_mono_l. by apply children_least.
Qed.

(** A query that tells nothing cannot help. *)
Lemma ask_unsplit i q next mask :
  pb_queries p !! i = Some q -> mask <> 0 -> mask <= full_mask p -> (length (query_children p mask q) < 2)%nat ->
  admissible p (Ask i next) (select mask ws) ->
  exists d, admissible p (next d) (select mask ws) /\ total (next d) mask <= total (Ask i next) mask.
Proof.
  intros Hi H0 Hm Hlen Ha. pose proof (law_of i q Hi) as Hq.
  destruct (unsplit_child p Hlaw q Hq mask) as (o & Ho & Hc); [done..|].
  exists (ro_outcome_digest o). split.
  - apply (admissible_ask i q) in Ha; [|done..]. specialize (Ha o Ho). rewrite Hc in Ha. by apply Ha.
  - rewrite (total_ask i q) by done. pose proof (Nsum_le (outcome_total mask next) _ o Ho) as Hle.
    cbn in Hle. rewrite Hc in Hle. lia.
Qed.

(** ** The best choice *)

(** [best] is the least of the baseline and the queries before [index]. *)
Record best_so_far (mask : N) (index : nat) (best : DpNode) (t : N) : Prop := {
  bs_cost : denotes (nd_cost best) t (weight mask);
  bs_raw : t <= raw_total p mask;
  bs_asks : forall i q, (i < index)%nat -> pb_queries p !! i = Some q ->
    (2 <= length (query_children p mask q))%nat -> exists v, best_ask p mask i v /\ t <= v;
  bs_choice :
    nd_choice best = ChooseBaseline /\ t = raw_total p mask \/
    exists i q, nd_choice best = ChooseQuery i /\ (i < index)%nat /\ pb_queries p !! i = Some q /\
      (2 <= length (query_children p mask q))%nat /\ best_ask p mask i t /\ t < raw_total p mask /\
      forall j v, (j < i)%nat -> best_ask p mask j v ->
        (exists q, pb_queries p !! j = Some q /\ 2 <= length (query_children p mask q))%nat -> t < v }.

Lemma best_ask_unique mask i t t' : best_ask p mask i t -> best_ask p mask i t' -> t = t'.
Proof.
  intros [(n & Hn & <-) H1] [(n' & Hn' & <-) H2]. apply N.le_antisymm; auto.
Qed.

Lemma best_is_optimal mask best t :
  mask <> 0 -> mask <= full_mask p -> conflicting p (select mask ws) ->
  best_so_far mask (length (pb_queries p)) best t -> optimal mask t.
Proof.
  intros H0 Hm Hconf [Hcost Hraw Hasks Hch]. split.
  - destruct Hch as [[_ ->]|(i & q & _ & _ & _ & _ & [(next & Hn & Ht) _] & _)]; [|by exists (Ask i next)].
    by exists UseBaseline.
  - intros s. induction s as [| |i next IH]; intros Ha.
    + destruct Ha as [e He]. by destruct (Hconf e).
    + exact Hraw.
    + destruct (pb_queries p !! i) as [q|] eqn:Hi; [|cbn in Ha; by rewrite Hi in Ha].
      destruct (decide (2 <= length (query_children p mask q))%nat) as [Hl|Hl].
      * destruct (Hasks i q) as (v & [_ Hv] & Hle); [by eapply lookup_lt_Some|done..|].
        etrans; [exact Hle|]. by apply Hv.
      * destruct (ask_unsplit i q next mask) as (d & Hd & Hle); [done..|lia|done|].
        etrans; [|exact Hle]. by apply IH.
Qed.

(** ** Checked totals *)

Notation bound := (16 < length ws)%nat.

Lemma mask_weight_spec mask : holds bound (mask_weight p mask) (fun w => w = weight mask /\ w <= U128_MAX).
Proof.
  unfold mask_weight. eapply holds_weaken.
  - apply (try_sum_spec _ _ wb_probability_weight); [by intros b v _ [= <-]|]. apply N.le_0_l.
  - cbn. intros w [-> Hw]. rewrite N.add_0_l in *. done.
Qed.

Lemma baseline_cost_spec mask :
  holds bound (baseline_cost p mask) (fun c => 0 < weight mask /\ denotes c (raw_total p mask) (weight mask)).
Proof.
  unfold baseline_cost. eapply holds_bind.
  - apply (try_sum_spec _ _ (fun b => wb_probability_weight b * wb_raw_baseline_cost_units b)); [|apply N.le_0_l].
    intros b v _ Hv. by apply checked_mul_u128_Some in Hv as [-> _].
  - cbn. intros n [-> Hn]. rewrite N.add_0_l in *. eapply holds_bind; [apply mask_weight_spec|].
    intros w [-> Hw]. by apply Rational_new_spec.
Qed.

(** ** The search *)

(** A choice and what it says of the value. *)
Definition choice_ok (mask : N) (node : DpNode) (t : N) : Prop :=
  match nd_choice node with
  | ChooseComplete => exists e, common_effect p (select mask ws) e
  | ChooseBaseline => conflicting p (select mask ws) /\ t = raw_total p mask
  | ChooseQuery i =>
      conflicting p (select mask ws) /\ t < raw_total p mask /\ best_ask p mask i t /\
      exists q, pb_queries p !! i = Some q /\ (2 <= length (query_children p mask q))%nat /\
        forall j v, (j < i)%nat -> best_ask p mask j v ->
          (exists q, pb_queries p !! j = Some q /\ 2 <= length (query_children p mask q))%nat -> t < v
  end.

Definition node_ok (mask : N) (node : DpNode) : Prop :=
  mask <> 0 /\ mask <= full_mask p /\
  exists t, optimal mask t /\ denotes (nd_cost node) t (weight mask) /\ choice_ok mask node t.

Definition memo_ok (memo : gmap N DpNode) : Prop := forall m node, memo !! m = Some node -> node_ok m node.

Definition found (mask : N) (r : DpNode * gmap N DpNode) : Prop := memo_ok (snd r) /\ node_ok mask (fst r).

Lemma memo_ok_insert memo mask node : memo_ok memo -> node_ok mask node -> memo_ok (<[mask := node]> memo).
Proof. intros Hm Hn m n. rewrite lookup_insert_Some. intros [[<- <-]|[_ ?]]; eauto. Qed.

Lemma memo_size memo : memo_ok memo -> N.of_nat (size memo) <= full_mask p.
Proof.
  intros Hm. set (all := list_to_set (N.of_nat <$> seq 1 (N.to_nat (full_mask p))) : gset N).
  assert (Hs : size all = N.to_nat (full_mask p)).
  { unfold all. rewrite size_list_to_set by (apply NoDup_fmap_2; [intros x y; lia|apply NoDup_seq]).
    by rewrite length_fmap, length_seq. }
  assert (dom memo ⊆ all) as Hsub%subseteq_size; [|rewrite size_dom in Hsub; lia].
  intros m Hin. apply elem_of_dom in Hin as [n Hn]. apply Hm in Hn as (H0 & Hle & _).
  apply elem_of_list_to_set, list_elem_of_fmap. exists (N.to_nat m). split; [by rewrite N2Nat.id|].
  apply elem_of_seq. lia.
Qed.

Lemma child_range mask q c :
  mask <= full_mask p -> c ∈ query_children p mask q -> c <> 0 /\ c <= full_mask p.
Proof.
  intros Hm (H0 & _ & o & _ & <-)%elem_of_children. split; [done|]. etrans; [apply child_le|done].
Qed.

Lemma child_smaller mask q c :
  mask <= full_mask p -> c ∈ query_children p mask q -> (length (select c ws) < length (select mask ws))%nat.
Proof.
  intros Hm (H0 & Hne & o & Ho & <-)%elem_of_children. set (c := child mask o) in *.
  assert (Hsub : select c ws ⊆+ select mask ws).
  { apply NoDup_submseteq; [apply sorted_NoDup, select_sorted, Hlaw|].
    intros w (j & Hj & Hb)%elem_of_select. apply child_bits in Hb as [? _]; [|done]. apply elem_of_select. eauto. }
  destruct (decide (length (select mask ws) <= length (select c ws))%nat) as [Hle|]; [|lia]. exfalso. apply Hne.
  pose proof (submseteq_length_Permutation _ _ Hsub Hle) as Hp. apply mask_ext. intros j. split.
  - intros Hj. by apply child_bits in Hj as [? _].
  - intros Hj. rewrite in_full in Hm. destruct (lookup_lt_is_Some_2 ws j) as [w Hw]; [auto|].
    assert (w ∈ select c ws) as Hin by (rewrite Hp; apply elem_of_select; eauto).
    apply elem_of_select in Hin as (i & Hi & Hb).
    by rewrite (NoDup_lookup ws j i w) by (done || apply sorted_NoDup, Hlaw).
Qed.

Section Loops.
Context (rec : N -> gmap N DpNode -> D (DpNode * gmap N DpNode)) (mask : N).
Hypothesis Hmask : mask <= full_mask p.
Hypothesis Hrec : forall q c memo, c ∈ query_children p mask q -> memo_ok memo -> holds bound (rec c memo) (found c).

Lemma child_loop_spec q children x expected memo :
  children ⊆ query_children p mask q -> memo_ok memo -> denotes expected x (weight mask) ->
  0 < weight mask <= U128_MAX ->
  holds bound (child_loop p rec (weight mask) children expected memo)
    (fun r => memo_ok (snd r) /\ exists ts, Forall2 optimal children ts /\ denotes (fst r) (x + Nsum ts) (weight mask)).
Proof.
  intros Hsub Hmemo Hx Hw. revert x expected memo Hsub Hmemo Hx.
  induction children as [|c cs IH]; intros x expected memo Hsub Hmemo Hx; cbn [child_loop].
  - cbn. split; [done|]. exists []. split; [constructor|]. by rewrite N.add_0_r.
  - assert (Hc : c ∈ query_children p mask q) by (apply Hsub; by left).
    destruct (child_range mask q c Hmask Hc) as [Hc0 Hcm].
    eapply holds_bind; [by apply (Hrec q)|]. intros [node memo'] [Hmemo' (_ & _ & t & Ht & Hnc & _)]. cbn in *.
    eapply holds_bind; [apply mask_weight_spec|]. intros w [-> Hwc].
    eapply holds_bind; [apply mul_fraction_spec; [exact Hnc|split; [by apply weight_pos|done]|lia..]|].
    intros share Hshare. eapply holds_bind; [apply Rational_add_spec; [exact Hx|exact Hshare|lia]|].
    intros e He. eapply holds_weaken; [apply IH; [|done|exact He]|].
    + intros d Hd. apply Hsub. by right.
    + intros [e' m'] (Hm' & ts & Hts & Hden). split; [done|]. exists (t :: ts). split; [by constructor|].
      rewrite Nsum_cons, N.add_assoc. done.
Qed.

Hypothesis Hwidth : Forall (fun q => rq_native_cost_units q <= U128_MAX) (pb_queries p).

Lemma query_loop_spec index queries best t memo :
  mask <> 0 -> weight mask <= U128_MAX ->
  queries = drop index (pb_queries p) -> (index <= length (pb_queries p))%nat -> memo_ok memo ->
  best_so_far mask index best t ->
  holds bound (query_loop p rec mask (weight mask) index queries best memo)
    (fun r => memo_ok (snd r) /\ exists t', best_so_far mask (length (pb_queries p)) (fst r) t').
Proof.
  intros H0 Hwm. revert index best t memo.
  induction queries as [|q qs IH]; intros index best t memo Hqs Hidx Hmemo Hbest; cbn [query_loop].
  - cbn. split; [done|]. exists t. assert (length (pb_queries p) = index) as ->; [|done].
    assert (length (drop index (pb_queries p)) = 0%nat) by (by rewrite <- Hqs). rewrite length_drop in *. lia.
  - assert (Hq : pb_queries p !! index = Some q).
    { rewrite <- (Nat.add_0_r index), <- lookup_drop, <- Hqs. done. }
    pose proof (lookup_lt_Some _ _ _ Hq) as Hlt.
    assert (Hqs' : qs = drop (S index) (pb_queries p)).
    { rewrite (drop_S _ q index Hq) in Hqs. by injection Hqs. }
    destruct (Nat.ltb_spec (length (query_children p mask q)) 2) as [Hl|Hl].
    + apply (IH _ _ t); [done|lia|done|]. destruct Hbest as [Hc Hr Ha Hch]. constructor; [done..| |].
      * intros i q' Hi Hq' Hl'. destruct (Nat.eq_dec i index) as [->|]; [simplify_eq; lia|]. apply (Ha i q'); [lia|done..].
      * destruct Hch as [?|(i & q' & ? & ? & ?)]; [by left|right; exists i, q'; split_and!; naive_solver lia].
    + pose proof (weight_pos p Hlaw mask H0 Hmask) as Hwp.
      eapply holds_bind; [apply (child_loop_spec q _ (rq_native_cost_units q * weight mask)); [done|done| |done]|].
      { rewrite Forall_lookup in Hwidth. specialize (Hwidth index q Hq).
        split; [|cbn; lia]. unfold rat_ok. cbn. split; [done|]. split; [lia|]. by vm_compute. }
      intros [e memo'] (Hmemo' & ts & Hts & He). cbn [fst snd] in *.
      set (v := rq_native_cost_units q * weight mask + Nsum ts) in *.
      assert (Hv : best_ask p mask index v) by (by apply best_ask_of_children).
      destruct Hbest as [Hc Hr Ha Hch].
      eapply holds_bind; [by eapply compare_spec; [exact He|exact Hc|]|]. intros order ->.
      destruct (bool_decide ((v ?= t) = Lt)) eqn:Hlt'.
      * apply bool_decide_eq_true in Hlt'. rewrite N.compare_lt_iff in Hlt'.
        apply (IH _ _ v); [done|lia|done|]. constructor; [done|lia| |].
        -- intros i q' Hi Hq' Hl'. destruct (Nat.eq_dec i index) as [->|]; [exists v; split; [done|lia]|].
           destruct (Ha i q') as (u & Hu & Hle); [lia|done..|]. exists u. split; [done|lia].
        -- right. exists index, q. split_and!; [done|lia|done..|lia|].
           intros j u Hj Hu (q' & Hq' & Hl'). destruct (Ha j q') as (u' & Hu' & Hle); [done..|].
           rewrite (best_ask_unique _ _ _ _ Hu Hu'). lia.
      * apply bool_decide_eq_false in Hlt'. rewrite N.compare_lt_iff in Hlt'.
        apply (IH _ _ t); [done|lia|done|]. constructor; [done|lia| |].
        -- intros i q' Hi Hq' Hl'. destruct (Nat.eq_dec i index) as [->|]; [exists v; split; [done|lia]|].
           apply (Ha i q'); [lia|done..].
        -- destruct Hch as [?|(i & q' & ? & ? & ?)]; [by left|right; exists i, q'; split_and!; naive_solver lia].
Qed.
End Loops.

Lemma solve_spec fuel mask memo :
  Forall (fun q => rq_native_cost_units q <= U128_MAX) (pb_queries p) ->
  mask <> 0 -> mask <= full_mask p -> (length (select mask ws) < fuel)%nat -> memo_ok memo ->
  holds bound (solve p masks fuel mask memo) (found mask).
Proof.
  intros Hwidth. revert mask memo. induction fuel as [|fuel IH]; intros mask memo H0 Hm Hf Hmemo; [lia|]. cbn [solve].
  destruct (memo !! mask) as [node|] eqn:Hmm; [split; [done|by apply Hmemo]|].
  destruct (N.leb_spec DCR_MAX_DP_STATES (N.of_nat (size memo))) as [Hs|Hs].
  { cbn. pose proof (memo_size memo Hmemo) as Hfull. unfold DCR_MAX_DP_STATES in Hs.
    destruct (decide (16 < length ws)%nat) as [|Hn]; [done|]. exfalso.
    unfold full_mask in Hfull. rewrite N.shiftl_1_l in Hfull.
    assert (2 ^ N.of_nat (length ws) <= 2 ^ 16) by (apply N.pow_le_mono_r; lia). lia. }
  destruct (N.eqb_spec (common_effect_bits masks mask count) 0) as [Hz|Hz]; cbn [negb].
  - apply common_bits_zero in Hz; [|done].
    eapply holds_bind; [apply baseline_cost_spec|]. intros cost [Hwp Hcost].
    eapply holds_bind; [apply mask_weight_spec|]. intros w [-> Hw].
    eapply holds_bind.
    + apply (query_loop_spec (solve p masks fuel) mask Hm) with (t := raw_total p mask); [| |done|done|done|lia|done|].
      * intros q c memo' Hc Hmemo'. destruct (child_range mask q c Hm Hc).
        pose proof (child_smaller mask q c Hm Hc). apply IH; [done..|lia|done].
      * done.
      * constructor; [exact Hcost|done| |by left]. intros i q Hi. lia.
    + intros [best memo'] [Hmemo' [t Hbest]]. cbn [fst snd] in *.
      assert (node_ok mask best) as Hnode.
      { split_and!; [done..|]. exists t. split; [by eapply best_is_optimal|]. destruct Hbest as [Hc _ _ Hch].
        split; [done|]. unfold choice_ok. destruct Hch as [[-> ->]|(i & q & -> & _ & Hq & Hl & Hb & Hlt & Hfirst)]; [done|].
        split_and!; [done..|]. by exists q. }
      cbn. split; [by apply memo_ok_insert|done].
  - assert (exists e, common_effect p (select mask ws) e) as He.
    { apply mask_nonzero in Hz as [j (e & _ & He)%common_bit_spec]; [eauto|done]. }
    assert (node_ok mask (mkNode Rational_ZERO ChooseComplete)) as Hnode.
    { split_and!; [done..|]. exists 0. split_and!.
      - split; [|intros; apply N.le_0_l]. exists Finish. split; [done|]. unfold RecoveryPlan.total.
        rewrite (msum_ext p _ (fun b => 0 * wb_probability_weight b)) by (intros; cbn; lia).
        unfold msum. rewrite Nsum_mul. lia.
      - split; [|done]. split; [apply N.le_0_l|]. by vm_compute.
      - done. }
    cbn. split; [by apply memo_ok_insert|done].
Qed.

(** ** Fuel *)

Lemma child_loop_ext rec rec' w children e memo :
  (forall c m, c ∈ children -> rec c m = rec' c m) ->
  child_loop p rec w children e memo = child_loop p rec' w children e memo.
Proof.
  revert e memo. induction children as [|c cs IH]; intros e memo Hr; cbn; [done|].
  rewrite (Hr c) by (by left). destruct (rec' c memo) as [[node memo']|]; cbn; [|done].
  destruct (mask_weight p c); cbn; [|done]. destruct (mul_fraction _ _ _); cbn; [|done].
  destruct (Rational_add _ _); cbn; [|done]. apply IH. intros d m Hd. apply Hr. by right.
Qed.

Lemma query_loop_ext rec rec' mask w index queries best memo :
  (forall q c m, c ∈ query_children p mask q -> rec c m = rec' c m) ->
  query_loop p rec mask w index queries best memo = query_loop p rec' mask w index queries best memo.
Proof.
  intros Hr. revert index best memo. induction queries as [|q qs IH]; intros index best memo; cbn [query_loop]; [done|].
  destruct (length (query_children p mask q) <? 2)%nat; [apply IH|]. rewrite (child_loop_ext rec rec') by (intros c m; apply Hr).
  destruct (child_loop _ _ _ _ _ _) as [[e memo']|]; cbn; [|done]. destruct (compare _ _); cbn; [|done]. apply IH.
Qed.

(** A child is a proper subset, so fuel beyond the number of worlds is never
    used. *)
Lemma solve_fuel_enough fuel fuel' mask memo :
  mask <= full_mask p -> (length (select mask ws) < fuel)%nat -> (length (select mask ws) < fuel')%nat ->
  solve p masks fuel mask memo = solve p masks fuel' mask memo.
Proof.
  revert fuel' mask memo. induction fuel as [|fuel IH]; intros [|fuel'] mask memo Hm Hf Hf'; [lia..|]. cbn [solve].
  destruct (memo !! mask); [done|]. destruct (_ <=? _); [done|]. destruct (negb _); [done|].
  destruct (baseline_cost p mask); [|done]. cbn. destruct (mask_weight p mask); [|done]. cbn.
  rewrite (query_loop_ext (solve p masks fuel) (solve p masks fuel')); [done|].
  intros q c m Hc. pose proof (child_smaller mask q c Hm Hc). destruct (child_range mask q c Hm Hc). apply IH; [done|lia..].
Qed.
End Solve.
