(* ===== verification/RecoveryTheorems.v ===== *)
(** Guarantees of dominance-complete recovery: the reported hyperedges are the
    minimal conflicts, the plan is optimal among all adaptive strategies, each
    decision says what holds of its problem, and conditioning on observations
    narrows the worlds until it ends. *)

From S2P Require Import Prelude.
From S2P Require Import Canonical.
From S2P Require Import Ordering.
From S2P Require Import DurableStore.
From S2P Require Import Identity.
From S2P Require Import RobustSnap.
From S2P Require Import Recovery.
From S2P Require Import RecoveryMasks.
From S2P Require Import RecoveryPlan.
From S2P Require Import RecoverySolve.

#[local] Opaque N.testbit.

(** Machine widths of the problem's [u64] fields. *)
Definition machine_widths (p : DominanceRecoveryProblem) : Prop :=
  Forall (fun b => wb_probability_weight b <= U64_MAX /\ wb_raw_baseline_cost_units b <= U64_MAX)%N
    (pb_world_budgets p) /\
  Forall (fun q => rq_native_cost_units q <= U64_MAX)%N (pb_queries p).

Lemma native_widths p :
  machine_widths p -> Forall (fun q => rq_native_cost_units q <= U128_MAX)%N (pb_queries p).
Proof.
  intros [_ Hq]. eapply Forall_impl; [exact Hq|]. cbn. intros q Hle. etrans; [exact Hle|]. by vm_compute.
Qed.

Lemma select_full {A} (p : DominanceRecoveryProblem) (l : list A) :
  length l = length (worlds (pb_fiber p)) -> select (full_mask p) l = l.
Proof.
  intros Hl. unfold select.
  assert (Hg : forall i, i + length l <= length (worlds (pb_fiber p)) -> select_from (full_mask p) i l = l); [|apply Hg; lia].
  clear Hl. induction l as [|x l IH]; intros i Hi; cbn in *; [done|].
  rewrite has_bit_spec, (proj2 (full_bits p i)) by lia. f_equal. apply IH. lia.
Qed.

Lemma full_nonzero p : problem_law p -> full_mask p <> 0%N.
Proof. intros Hlaw. apply mask_nonzero. exists 0. apply full_bits. pose proof (pl_count p Hlaw). lia. Qed.

Lemma select_worlds p : select (full_mask p) (worlds (pb_fiber p)) = worlds (pb_fiber p).
Proof. by apply select_full. Qed.

(** * Hyperedges *)

Section Edges.
Context `{Platform} (p : DominanceRecoveryProblem) (Hlaw : problem_law p).
Notation ws := (worlds (pb_fiber p)).
Notation masks := (accessible_world_effect_masks p).

Lemma full_bound : length ws <= 16 <-> (full_mask p <= DCR_MAX_HYPERGRAPH_STATES)%N.
Proof.
  unfold full_mask, DCR_MAX_HYPERGRAPH_STATES. rewrite N.shiftl_1_l. split; intros Hle.
  - assert (2 ^ N.of_nat (length ws) <= 2 ^ 16)%N by (apply N.pow_le_mono_r; lia). lia.
  - destruct (decide (length ws <= 16)) as [|Hn]; [done|]. exfalso.
    assert (2 ^ 17 <= 2 ^ N.of_nat (length ws))%N by (apply N.pow_le_mono_r; lia). lia.
Qed.

(** What the list of hyperedges promises. *)
Record edges_exact (edges : list ConflictHyperedge) : Prop := {
  ee_distinct : NoDup (he_worlds <$> edges);
  ee_minimal : forall l, l ∈ he_worlds <$> edges <-> minimal_conflict p l;
  ee_complete : pb_accessible_effect_surface p <> [] -> forall l, l ⊆ ws -> conflicting p l ->
    exists h, h ∈ edges /\ he_worlds h ⊆ l }.

Lemma conflicting_same l l' : (forall w, w ∈ l <-> w ∈ l') -> conflicting p l -> conflicting p l'.
Proof. intros Heq. apply conflicting_mono. intros w. by apply Heq. Qed.

Lemma marks_in_full l : (marks ws 0 l <= full_mask p)%N.
Proof.
  apply in_full. intros j [Hz|(x & _ & Hx)]%marks_spec; [by apply zero_bits in Hz|by eapply lookup_lt_Some|apply Hlaw].
Qed.

Lemma hyperedges_Ok pd :
  length ws <= 16 -> exists edges, conflict_hyperedges p pd masks = Ok edges /\ edges_exact edges.
Proof.
  intros Hle. unfold conflict_hyperedges.
  destruct (hyperedge_loop_Ok hyperedge_fuel masks (length (pb_accessible_effect_surface p)) (full_mask p) 1 0 [])
    as (l & -> & Hs & Hmem); [by apply full_bound|done| |].
  { rewrite hyperedge_fuel_eq. apply full_bound in Hle. unfold DCR_MAX_HYPERGRAPH_STATES in Hle. lia. }
  cbn. exists (hyperedge_of p pd <$> l). split; [done|].
  assert (Hhe : he_worlds <$> (hyperedge_of p pd <$> l) = (fun m => select m ws) <$> l) by (by rewrite <- list_fmap_compose).
  assert (Hin : forall m, m ∈ l <-> (0 < m <= full_mask p)%N /\ minimal_conflict p (select m ws)).
  { intros m. rewrite Hmem. split; intros [Hr Hh]; (split; [lia|]); [apply is_hyperedge_spec in Hh|apply is_hyperedge_spec];
      (done || lia). }
  constructor.
  - rewrite Hhe. apply NoDup_fmap_2_strong; [|by apply sorted_NoDup].
    intros a b [Ha _]%Hin [Hb _]%Hin Heq. cbn in Heq.
    rewrite <- (marks_select ws a), <- (marks_select ws b), Heq by (apply in_full || apply Hlaw; lia). done.
  - intros ms. rewrite Hhe, list_elem_of_fmap. split.
    + intros (m & -> & Hm). by apply Hin in Hm as [_ ?].
    + intros Hmc. destruct (Hmc) as [Hne Hms Hsub _ _]. exists (marks ws 0 ms).
      assert (Hsel : select (marks ws 0 ms) ws = ms) by (apply select_marks; [apply Hlaw|done..]).
      split; [done|]. apply Hin. rewrite Hsel. split; [|done]. pose proof (marks_in_full ms).
      assert (marks ws 0 ms <> 0%N); [|lia]. apply (proj1 (select_nonempty p (marks ws 0 ms) ltac:(done))). by rewrite Hsel.
  - intros Hsurf ms Hsub Hc.
    assert (Hsel : forall w, w ∈ select (marks ws 0 ms) ws <-> w ∈ ms).
    { intros w. rewrite elem_of_select. setoid_rewrite marks_spec; [|apply Hlaw]. split.
      - intros (j & Hj & [Hz|(v & Hv & Hj')]); [by apply zero_bits in Hz|congruence].
      - intros Hw. pose proof (Hsub w Hw) as [j Hj]%list_elem_of_lookup. eauto 10. }
    destruct (conflict_has_minimal p Hlaw (marks ws 0 ms)) as (m & Hm & Hh & Hincl); [done|apply marks_in_full| |].
    { eapply conflicting_same; [|exact Hc]. intros w. by rewrite Hsel. }
    exists (hyperedge_of p pd m). split; [apply list_elem_of_fmap; exists m; split; [done|apply Hmem; split; [lia|done]]|].
    intros w Hw. by apply Hsel, Hincl.
Qed.

Lemma hyperedges_Err pd : 16 < length ws -> conflict_hyperedges p pd masks = Err AnalysisBoundExceeded.
Proof.
  intros Hlt. unfold conflict_hyperedges. rewrite hyperedge_loop_Err; [done| |done|].
  - apply N.nle_gt. intros Hle%full_bound. lia.
  - rewrite hyperedge_fuel_eq. unfold DCR_MAX_HYPERGRAPH_STATES. lia.
Qed.

End Edges.

(** C10: For a valid problem of at most sixteen worlds the enumeration of masks
    returns, without repetition, exactly the minimal conflicts: the nonempty
    sets of worlds with no common accessible effect all of whose proper
    subsets have one; every conflicting set contains a reported one.  For
    more worlds it refuses with [AnalysisBoundExceeded]. *)
Theorem conflict_hyperedges_exact `{Platform} (p : DominanceRecoveryProblem) (pd : Digest) :
  problem_validate p = Ok () ->
  match conflict_hyperedges p pd (accessible_world_effect_masks p) with
  | Ok edges => length (worlds (pb_fiber p)) <= 16 /\ edges_exact p edges
  | Err e => 16 < length (worlds (pb_fiber p)) /\ e = AnalysisBoundExceeded
  end.
Proof.
  intros Hlaw%validate_law. destruct (decide (length (worlds (pb_fiber p)) <= 16)) as [Hle|Hgt].
  - by destruct (hyperedges_Ok p Hlaw pd Hle) as (edges & -> & Hex).
  - rewrite hyperedges_Err by (done || lia). split; [lia|done].
Qed.

(** * The plan *)

Lemma solve_root p :
  problem_law p -> machine_widths p ->
  holds (16 < length (worlds (pb_fiber p))) (solve p (accessible_world_effect_masks p) (solve_fuel p) (full_mask p) ∅)
    (found p (full_mask p)).
Proof.
  intros Hlaw Hw. apply solve_spec; [done|by apply native_widths|by apply full_nonzero|done| |].
  - rewrite select_worlds. unfold solve_fuel. lia.
  - intros m node Hm. by rewrite lookup_empty in Hm.
Qed.

(** The cost of a strategy in expectation is [total p s full / weight p full]. *)

(** C8: The search over masks returns the least expected cost over all adaptive
    strategies: over every way of asking queries, each chosen from the
    outcomes seen so far, and of ending with an effect protected in all the
    worlds left or with the raw baseline.  The returned fraction is that cost
    exactly, the choice attains it (a query only when it beats the baseline,
    and the first such), overflow is the only failure for at most sixteen
    worlds, and the recursion never needs more depth than there are worlds. *)
Theorem recovery_plan_optimal (p : DominanceRecoveryProblem) :
  problem_validate p = Ok () -> machine_widths p ->
  let root := full_mask p in
  let masks := accessible_world_effect_masks p in
  match solve p masks (solve_fuel p) root ∅ with
  | Ok (plan, _) => exists t, optimal p root t /\ choice_ok p root plan t /\
      (0 < weight p root)%N /\ (0 < r_denominator (nd_cost plan))%N /\
      (r_numerator (nd_cost plan) * weight p root = t * r_denominator (nd_cost plan))%N
  | Err Overflow => True
  | Err StateBound => 16 < length (worlds (pb_fiber p))
  end /\
  forall more, solve p masks (solve_fuel p + more) root ∅ = solve p masks (solve_fuel p) root ∅.
Proof.
  intros Hlaw%validate_law Hw root masks. split.
  - pose proof (solve_root p Hlaw Hw) as Hs. fold root masks in Hs.
    destruct (solve p masks (solve_fuel p) root ∅) as [[plan memo]|[]]; cbn in Hs |- *; [|done..].
    destruct Hs as [_ (H0 & Hle & t & Hopt & [[_ [Hd _]] Hval] & Hch)]. exists t.
    split_and!; [done|done|by apply weight_pos|done|done].
  - intros more. subst root. unfold solve_fuel. apply solve_fuel_enough; [done|done|rewrite select_worlds; lia..].
Qed.

(** * Decisions *)

Section Decisions.
Context `{Platform, Codec VerifiedEvidence}.
Notation ws p := (worlds (pb_fiber p)).

(** The costs and the query of a conflict decision: asking [i] first is
    optimal, cheaper than the baseline, and the costs are exact. *)
Record conflict_law (p : DominanceRecoveryProblem) (d : RecoveryConflictDecision) : Prop := {
  cl_conflict : conflicting p (ws p);
  cl_edges : edges_exact p (cd_conflict_hyperedges d);
  cl_admissible : forall x, x ∈ cd_admissible_queries d <->
    exists q, q ∈ pb_queries p /\ rq_query_digest q = x /\ exists o, o ∈ rq_outcomes q /\ cell o (ws p) <> [] /\
      cell o (ws p) <> ws p;
  cl_optimal : exists i t, pb_queries p !! i = Some (cd_selected_query d) /\
    optimal p (full_mask p) t /\ best_ask p (full_mask p) i t /\ (t < raw_total p (full_mask p))%N /\
    let c := cd_optimal_expected_cost d in let r := cd_raw_baseline_expected_cost d in
    (0 < cost_denominator c)%N /\ (0 < cost_denominator r)%N /\
    (cost_numerator c * weight p (full_mask p) = t * cost_denominator c)%N /\
    (cost_numerator r * weight p (full_mask p) = raw_total p (full_mask p) * cost_denominator r)%N;
  cl_safepoint : cd_fallback_safepoint d = pb_fallback_safepoint p }.

(** A cost overflow: an exact total of the baseline exceeds 128 bits, before
    any hyperedge is computed; or the hyperedges are reported, some query splits
    the worlds, and the arithmetic of the search itself overflows. *)
Definition overflow_law (p : DominanceRecoveryProblem) (edges : list ConflictHyperedge) : Prop :=
  (edges = [] /\ (U128_MAX < raw_total p (full_mask p) \/ U128_MAX < weight p (full_mask p))%N) \/
  (edges_exact p edges /\ (exists q, q ∈ pb_queries p /\ 2 <= length (query_children p (full_mask p) q)) /\
   solve p (accessible_world_effect_masks p) (solve_fuel p) (full_mask p) ∅ = Err Overflow).

(** What each reason for the baseline says of the problem. *)
Definition reason_law (p : DominanceRecoveryProblem) (u : RecoveryUnknownDecision) : Prop :=
  match ud_reason u with
  | FiberUnknown => pb_fiber_status p = FiberUnknownStatus
  | NoSoundQuery => conflicting p (ws p) /\ edges_exact p (ud_conflict_hyperedges u) /\
      forall q, q ∈ pb_queries p -> length (query_children p (full_mask p) q) < 2
  | RawBaselineCheaperOrEqual => conflicting p (ws p) /\ edges_exact p (ud_conflict_hyperedges u) /\
      optimal p (full_mask p) (raw_total p (full_mask p))
  | AnalysisBoundExceededReason => conflicting p (ws p) /\ 16 < length (ws p)
  | CostArithmeticOverflow => conflicting p (ws p) /\ overflow_law p (ud_conflict_hyperedges u)
  end.

Record unknown_law (p : DominanceRecoveryProblem) (u : RecoveryUnknownDecision) : Prop := {
  ul_baseline : ud_raw_baseline_required u = true;
  ul_safepoint : ud_fallback_safepoint u = pb_fallback_safepoint p;
  ul_cost : forall c, ud_raw_baseline_expected_cost u = Some c -> (0 < cost_denominator c)%N /\
    (cost_numerator c * weight p (full_mask p) = raw_total p (full_mask p) * cost_denominator c)%N;
  ul_reason : reason_law p u }.

Record complete_law (p : DominanceRecoveryProblem) (c : DominanceCompleteRecoveryCertificate) : Prop := {
  kl_fiber : pb_fiber_status p <> FiberUnknownStatus;
  kl_problem : dc_problem c = p;
  kl_valid : certificate_validate c = Ok ();
  kl_effects : dc_common_effects c <> [];
  kl_exact : forall e, e ∈ dc_common_effects c <-> common_effect p (ws p) e }.

Definition decision_law (p : DominanceRecoveryProblem) (d : RecoveryDecision) : Prop :=
  match d with
  | Complete c => complete_law p c
  | Conflict d => conflict_law p d
  | DecisionUnknown u => unknown_law p u
  end.

Lemma denotes_public c t w :
  denotes c t w -> (0 < cost_denominator (into_public c))%N /\
  (cost_numerator (into_public c) * w = t * cost_denominator (into_public c))%N.
Proof. by intros [[_ [? _]] ?]. Qed.

Lemma raw_Ok p raw : baseline_cost p (full_mask p) = Ok raw -> denotes raw (raw_total p (full_mask p)) (weight p (full_mask p)).
Proof. intros Hr. pose proof (baseline_cost_spec p (full_mask p)) as Hb. rewrite Hr in Hb. by destruct Hb. Qed.

(** The baseline overflows only when a total does. *)
Lemma try_sum_overflow {A} (f : A -> option N) (g : A -> N) l s e :
  (forall x, f x = Some (g x) \/ (f x = None /\ U128_MAX < g x)%N) ->
  try_sum (f <$> l) s = Err e -> e = Overflow /\ (U128_MAX < s + Nsum (g <$> l))%N.
Proof.
  intros Hf. revert s. induction l as [|x l IH]; intros s; [done|]. rewrite !fmap_cons, Nsum_cons. cbn [try_sum].
  destruct (Hf x) as [->|[-> Hx]]; cbn.
  - unfold checked_add_u128. destruct (s + g x <=? U128_MAX)%N eqn:E; cbn.
    + intros [-> Hlt]%IH. split; [done|lia].
    + intros [= <-]. apply N.leb_gt in E. split; [done|lia].
  - intros [= <-]. split; [done|lia].
Qed.

Lemma baseline_overflow p : problem_law p -> baseline_cost p (full_mask p) = Err Overflow ->
  (U128_MAX < raw_total p (full_mask p) \/ U128_MAX < weight p (full_mask p))%N.
Proof.
  intros Hlaw. unfold baseline_cost. destruct (try_sum _ 0) as [n|e] eqn:Hn; cbn [mbind result_bind].
  - pose proof (mask_weight_spec p (full_mask p)) as Hm. destruct (mask_weight p (full_mask p)) as [w|e] eqn:Hw; cbn [mbind result_bind].
    + destruct Hm as [-> _]. unfold Rational_new. pose proof (weight_pos p Hlaw (full_mask p) (full_nonzero p Hlaw) (N.le_refl _)).
      rewrite (proj2 (N.eqb_neq _ _)) by lia. done.
    + intros _. right. unfold mask_weight in Hw. apply (try_sum_overflow _ wb_probability_weight) in Hw as [_ Hw]; [|by left].
      unfold weight, msum. lia.
  - intros _. left. apply (try_sum_overflow _ (fun b => wb_probability_weight b * wb_raw_baseline_cost_units b)%N) in Hn as [_ Hn].
    + unfold raw_total, msum. lia.
    + intros b. unfold checked_mul_u128. destruct (_ <=? U128_MAX)%N eqn:E; [by left|right; split; [done|by apply N.leb_gt]].
Qed.

(** Without a cost, or with the exact one. *)
Definition cost_right (p : DominanceRecoveryProblem) (c : option Rational) : Prop :=
  forall r, c = Some r -> denotes r (raw_total p (full_mask p)) (weight p (full_mask p)).

Lemma unknown_decision_law p pd reason edges cost :
  cost_right p cost -> reason_law p (unknown_decision p pd reason edges cost) ->
  unknown_law p (unknown_decision p pd reason edges cost).
Proof.
  intros Hc Hr. constructor; [done..| |done]. cbn. intros c Hs. apply fmap_Some in Hs as (r & -> & ->).
  by apply denotes_public, Hc.
Qed.

(** A query has children exactly when some outcome splits the worlds. *)
Lemma splits_spec p q :
  problem_law p -> q ∈ pb_queries p ->
  2 <= length (query_children p (full_mask p) q) <->
  exists o, o ∈ rq_outcomes q /\ cell o (ws p) <> [] /\ cell o (ws p) <> ws p.
Proof.
  intros Hlaw Hin. assert (Hq : query_law p q).
  { pose proof (pl_queries p Hlaw) as Hf. rewrite Forall_forall in Hf. by apply Hf. }
  pose proof (full_nonzero p Hlaw) as Hf0.
  assert (Hcell : forall o, cell o (ws p) = select (child p (full_mask p) o) (ws p)).
  { intros o. by rewrite select_child, select_worlds. }
  assert (Hne : forall o, cell o (ws p) <> [] <-> child p (full_mask p) o <> 0%N).
  { intros o. rewrite Hcell. apply select_nonempty. apply child_le. }
  split.
  - intros Hl. destruct (query_children p (full_mask p) q) as [|c l] eqn:Hc; [cbn in Hl; lia|].
    assert (c ∈ query_children p (full_mask p) q) as (Hc0 & Hcm & o & Ho & <-)%elem_of_children by (rewrite Hc; by left).
    exists o. split_and!; [done|by apply Hne|]. rewrite Hcell. intros Heq. apply Hcm.
    rewrite <- (marks_select (ws p) (child p (full_mask p) o)), Heq; [|apply Hlaw|apply in_full, child_le].
    rewrite <- (select_worlds p) at 2. apply marks_select; [apply Hlaw|by apply in_full].
  - intros (o & Ho & Hn & Hm). destruct (decide (2 <= length (query_children p (full_mask p) q))) as [|Hl]; [done|].
    exfalso. destruct (unsplit_child p Hlaw q Hq (full_mask p)) as (o' & Ho' & Hc); [done|done|lia|].
    apply Hne, mask_nonzero in Hn as [j Hj]. apply child_bits in Hj as (Hj & w & Hw & Hwj); [|done].
    rewrite <- Hc in Hj. apply child_bits in Hj as (_ & w' & Hw' & Hwj'); [|done].
    assert (o = o') as -> by (apply (outcome_unique p Hlaw q Hq o o' w); congruence).
    apply Hm. rewrite Hcell, Hc. apply select_worlds.
Qed.

Lemma elem_of_admissible p x :
  problem_law p ->
  x ∈ rq_query_digest <$> List.filter (fun q => 2 <=? length (query_children p (full_mask p) q)) (pb_queries p) <->
  exists q, q ∈ pb_queries p /\ rq_query_digest q = x /\ exists o, o ∈ rq_outcomes q /\ cell o (ws p) <> [] /\
    cell o (ws p) <> ws p.
Proof.
  intros Hlaw. rewrite list_elem_of_fmap.
  assert (Hf : forall q, q ∈ List.filter (fun q => 2 <=? length (query_children p (full_mask p) q)) (pb_queries p) <->
    q ∈ pb_queries p /\ 2 <= length (query_children p (full_mask p) q)).
  { intros q. by rewrite !list_elem_of_In, filter_In, Nat.leb_le. }
  setoid_rewrite Hf. split.
  - intros (q & -> & Hq & Hl). exists q. split_and!; [done..|]. by apply splits_spec.
  - intros (q & Hq & <- & Hs). exists q. split_and!; [done..|]. by apply splits_spec.
Qed.

Lemma decide_conflict_law p pd d :
  problem_law p -> machine_widths p -> conflicting p (ws p) -> decide_conflict p pd = Ok d -> decision_law p d.
Proof.
  intros Hlaw Hw Hconf. unfold decide_conflict.
  pose proof (baseline_cost_spec p (full_mask p)) as Hbase.
  destruct (baseline_cost p (full_mask p)) as [raw|[]] eqn:Hraw; cbn in Hbase.
  2-3: intros [= <-]; apply unknown_decision_law; [intros r Hr; discriminate Hr|]; cbn; auto.
  2:{ split; [done|]. left. split; [done|]. by apply baseline_overflow. }
  destruct Hbase as [_ Hden].
  assert (Hsome : cost_right p (Some raw)) by (intros r Hr; by simplify_eq).
  destruct (decide (length (ws p) <= 16)) as [Hle|Hgt].
  2:{ rewrite (hyperedges_Err p pd) by lia. intros [= <-]. apply unknown_decision_law; [done|]. cbn. split; [done|lia]. }
  destruct (hyperedges_Ok p Hlaw pd Hle) as (edges & -> & Hedges).
  destruct (_ =? 0)%nat eqn:Hadm.
  { intros [= <-]. apply unknown_decision_law; [done|]. cbn. split_and!; [done..|]. apply Nat.eqb_eq in Hadm.
    rewrite length_fmap in Hadm. apply nil_length_inv in Hadm. intros q Hq.
    destruct (decide (2 <= length (query_children p (full_mask p) q))) as [Hl|]; [|lia]. exfalso.
    apply Nat.leb_le in Hl. rewrite list_elem_of_In in Hq.
    apply (in_nil (a := q)). rewrite <- Hadm. by apply filter_In. }
  pose proof (solve_root p Hlaw Hw) as Hsolve.
  destruct (solve _ _ _ _ _) as [[plan memo]|[]] eqn:Hrun; cbn in Hsolve.
  2-3: intros [= <-]; apply unknown_decision_law; [done|]; cbn; auto.
  2:{ split; [done|]. right. split_and!; [done| |done]. apply Nat.eqb_neq in Hadm. rewrite length_fmap in Hadm.
    destruct (List.filter _ (pb_queries p)) as [|q l] eqn:Hf; [done|]. exists q.
    assert (Hq : In q (List.filter (fun q => 2 <=? length (query_children p (full_mask p) q)) (pb_queries p))) by (rewrite Hf; by left).
    apply filter_In in Hq as [Hq Hl]. split; [by apply list_elem_of_In|by apply Nat.leb_le]. }
  destruct Hsolve as [_ (_ & _ & t & Hopt & Hcost & Hch)]. unfold choice_ok in Hch.
  cbn [fst] in *. revert Hch. destruct (nd_choice plan) as [| |i]; intros Hch.
  - destruct Hch as [e He]. rewrite select_worlds in He. by destruct (Hconf e).
  - intros [= <-]. apply unknown_decision_law; [done|]. cbn. destruct Hch as [_ <-]. done.
  - destruct Hch as (_ & Hlt & Hask & q & Hq & _). rewrite Hq. intros [= <-].
    constructor; [done|done| |exists i, t|done].
    + intros x. cbn. by apply elem_of_admissible.
    + destruct (denotes_public _ _ _ Hcost), (denotes_public _ _ _ Hden). done.
Qed.

Lemma mint_Ok p common evidence verifier c :
  mint p common evidence verifier = Ok c ->
  dc_problem c = p /\ dc_common_effects c = common /\ certificate_validate c = Ok ().
Proof.
  unfold mint. intros Hm. apply bind_Ok_inv in Hm as (claim & _ & Hm). apply bind_Ok_inv in Hm as (pd & _ & Hm).
  apply bind_Ok_inv in Hm as (cd & _ & Hm). apply bind_unit_Ok in Hm as [Hv [= <-]]. done.
Qed.

(** C9: Whatever the controller decides holds of the problem.  It completes only
    over a known fiber, with a valid certificate listing exactly the
    accessible effects protected in every world; it reports a conflict only
    when no effect is common, naming the minimal conflicts, the queries that split
    the worlds, and a query that begins an optimal strategy cheaper than the
    baseline, with exact costs; otherwise it requires the raw baseline at the
    problem's safepoint, for a reason that is true of the problem: the fiber is
    unknown, no query splits the worlds, the baseline is optimal, there are
    more than sixteen worlds, or the 128-bit arithmetic of the baseline or of
    the search overflowed (of the baseline only when an exact total does not
    fit). *)
Theorem dominance_recover_exact (p : DominanceRecoveryProblem) (evidence : VerifiedEvidence) (d : RecoveryDecision) :
  machine_widths p -> dominance_complete_recover p evidence = Ok d -> decision_law p d.
Proof.
  intros Hw Hd. unfold dominance_complete_recover in Hd.
  rewrite !bind_unit_Ok in Hd. destruct Hd as (Hlaw%validate_law & _ & Hd).
  apply bind_Ok_inv in Hd as (pd & _ & Hd). apply guard_Ok in Hd as [_ Hd].
  destruct (bool_decide (pb_fiber_status p = FiberUnknownStatus)) eqn:Hst; breflect.
  { injection Hd as <-. apply unknown_decision_law; [|done]. intros r Hr. apply raw_Ok.
    destruct (baseline_cost p (full_mask p)); by simplify_eq. }
  destruct (negb _) eqn:Hc; breflect.
  - apply bind_Ok_inv in Hd as (c & Hm & [= <-]). apply mint_Ok in Hm as (Hp & He & Hv).
    constructor; [done..| |]; rewrite He.
    + intros Hn. by rewrite Hn in Hc.
    + intros e. by rewrite elem_of_common_effects, select_worlds.
  - apply nil_length_inv in Hc. eapply decide_conflict_law; [done|done| |exact Hd]. intros e He.
    assert (e ∈ common_effects p (full_mask p)) as Hin by (by rewrite elem_of_common_effects, select_worlds).
    rewrite Hc in Hin. by apply elem_of_nil in Hin.
Qed.

(** * Conditioning *)

(** One observation: [condition_on] with some arguments. *)
Definition narrows (p p' : DominanceRecoveryProblem) : Prop :=
  exists query outcome receipt view surface coverage route safepoint,
    condition_on p query outcome receipt view surface coverage route safepoint = Ok p'.

Lemma elem_of_lfilter {A} (f : A -> bool) l x : x ∈ List.filter f l <-> x ∈ l /\ f x = true.
Proof. by rewrite !list_elem_of_In, filter_In. Qed.

(** A query has a second outcome, with a world of its own. *)
Lemma other_outcome p q o :
  query_law p q -> exists o' w, o' ∈ rq_outcomes q /\ w ∈ ro_worlds o' /\ o' <> o.
Proof.
  intros (_ & Hlen & Hd & Hne & _). destruct (rq_outcomes q) as [|a [|b l]]; cbn in Hlen; [lia..|].
  apply sorted_NoDup in Hd. rewrite !fmap_cons in Hd. apply NoDup_cons in Hd as [Hd _].
  rewrite !Forall_cons in Hne. destruct Hne as (Ha & Hb & _).
  destruct (decide (ro_outcome_digest a = ro_outcome_digest o)) as [He|He].
  - destruct (ro_worlds b) as [|w lw] eqn:Hw; [done|]. exists b, w. rewrite Hw.
    split_and!; [right; by left|by left|]. intros ->. apply Hd. rewrite He. by left.
  - destruct (ro_worlds a) as [|w lw] eqn:Hw; [done|]. exists a, w. rewrite Hw.
    split_and!; [by left|by left|congruence].
Qed.

Lemma cell_smaller p q o :
  problem_law p -> q ∈ pb_queries p -> o ∈ rq_outcomes q -> length (cell o (ws p)) < length (ws p).
Proof.
  intros Hlaw Hq Ho. pose proof (pl_queries p Hlaw) as Hf. rewrite Forall_forall in Hf. specialize (Hf q Hq).
  destruct (other_outcome p q o Hf) as (o' & w & Ho' & Hwo' & Hno).
  assert (w ∈ ws p) as Hwp.
  { destruct Hf as (_ & _ & _ & _ & <-). rewrite list_elem_of_In, in_concat. exists (ro_worlds o').
    rewrite <- !list_elem_of_In. split; [apply list_elem_of_fmap; eauto|done]. }
  apply Nat.lt_nge. intros Hle.
  assert (Hsub : cell o (ws p) ⊆+ ws p).
  { apply NoDup_submseteq; [apply sorted_NoDup, sorted_filter, Hlaw|]. intros v [? _]%elem_of_lfilter. done. }
  pose proof (submseteq_length_Permutation _ _ Hsub Hle) as Hp. rewrite <- Hp in Hwp.
  apply elem_of_lfilter in Hwp as [_ Hw]. apply bool_decide_eq_true in Hw. apply Hno.
  by apply (outcome_unique p Hlaw q Hf o' o w).
Qed.

Lemma narrows_spec p p' :
  problem_law p -> narrows p p' ->
  problem_validate p' = Ok () /\
  (exists q o, q ∈ pb_queries p /\ o ∈ rq_outcomes q /\ ws p' = cell o (ws p)) /\
  length (ws p') < length (ws p) /\
  length (pb_recovery_query_trace p') = S (length (pb_recovery_query_trace p)) /\
  forall w e, w ∈ ws p' -> protected_in p' w e <-> protected_in p w e.
Proof.
  intros Hlaw (query & outcome & receipt & view & surface & coverage & route & safepoint & Hc).
  unfold condition_on in Hc. apply bind_unit_Ok in Hc as [_ Hc].
  apply bind_Ok_inv in Hc as (q & Hq & Hc). apply ok_or_Ok_inv in Hq.
  apply bind_Ok_inv in Hc as (o & Ho & Hc). apply ok_or_Ok_inv in Ho.
  apply bind_unit_Ok in Hc as [Hv Hc]. injection Hc as Hp'. rewrite Hp' in Hv. split; [done|].
  apply find_some in Hq as [Hq _], Ho as [Ho _]. rewrite <- list_elem_of_In in Hq. rewrite <- list_elem_of_In in Ho.
  assert (Hkeep : forall w, bset_mem w (bset_of_list (ro_worlds o)) = true <-> w ∈ ro_worlds o).
  { intros w. by rewrite bset_mem_spec, elem_of_bset_of_list. }
  assert (Hws : ws p' = cell o (ws p)).
  { rewrite <- Hp'. cbn. unfold cell. apply filter_ext. intros w.
    apply eq_true_iff_eq. by rewrite Hkeep, bool_decide_eq_true. }
  split; [by exists q, o|]. split; [|split].
  - rewrite Hws. by apply (cell_smaller p q).
  - rewrite <- Hp'. cbn. rewrite length_app. cbn. lia.
  - intros w e Hw. rewrite Hws in Hw. apply elem_of_lfilter in Hw as [_ Hw]. apply bool_decide_eq_true in Hw.
    unfold protected_in. rewrite <- Hp'. cbn. setoid_rewrite elem_of_lfilter. split.
    + intros (s & [Hs _] & ? & ?). eauto.
    + intros (s & Hs & <- & He). exists s. by rewrite Hkeep.
Qed.

(** C11: Observations narrow the problem and end.  After [n] conditionings of a
    valid problem the result is valid, its worlds are among the original
    ones with the same protected effects, its trace is [n] longer, and at
    least [n] worlds are gone; so fewer than thirty-two observations are
    possible, and a conflict of the remaining worlds was already one. *)
Theorem recovery_narrows (n : nat) (p p' : DominanceRecoveryProblem) :
  problem_validate p = Ok () -> nsteps narrows n p p' ->
  problem_validate p' = Ok () /\ ws p' ⊆ ws p /\
  n + length (ws p') <= length (ws p) /\ n < DCR_MAX_WORLDS /\
  length (pb_recovery_query_trace p') = n + length (pb_recovery_query_trace p) /\
  (forall w e, w ∈ ws p' -> protected_in p' w e <-> protected_in p w e) /\
  (pb_accessible_effect_surface p ⊆ pb_accessible_effect_surface p' -> conflicting p' (ws p') -> conflicting p (ws p)).
Proof.
  intros Hv Hn.
  assert (problem_validate p' = Ok () /\ ws p' ⊆ ws p /\ n + length (ws p') <= length (ws p) /\
    length (pb_recovery_query_trace p') = n + length (pb_recovery_query_trace p) /\
    (forall w e, w ∈ ws p' -> protected_in p' w e <-> protected_in p w e)) as (Hv' & Hsub & Hlen & Htr & Hprot).
  { revert Hv. induction Hn as [p|n p1 p2 p3 Hstep Hn IH]; intros Hv; [by split_and!|].
    pose proof (validate_law _ Hv) as Hlaw.
    destruct (narrows_spec _ _ Hlaw Hstep) as (Hv2 & (q & o & _ & _ & Hw2) & Hl2 & Ht2 & Hp2).
    destruct (IH Hv2) as (Hv3 & Hs3 & Hl3 & Ht3 & Hp3).
    assert (Hs2 : ws p2 ⊆ ws p1) by (rewrite Hw2; intros v [? _]%elem_of_lfilter; done).
    split_and!; [done|by etrans|lia|lia|]. intros w e Hw. rewrite Hp3 by done. apply Hp2. by apply Hs3. }
  pose proof (pl_count _ (validate_law _ Hv)). pose proof (pl_count _ (validate_law _ Hv')).
  split_and!; [done|done|done|lia|done|done|].
  intros Hsurf Hc e [He Hall]. apply (Hc e). split; [by apply Hsurf|]. intros w Hw. apply Hprot; [done|]. by apply Hall, Hsub.
Qed.
End Decisions.
