(* ===== verification/RecoveryWitness.v ===== *)
(** A recovery problem of three worlds in which the first and the third share no
    effect, and one cheap query tells the first world from the others. *)

From stdpp Require Import relations.
From S2P Require Import Prelude.
From S2P Require Import Canonical.
From S2P Require Import DurableStore.
From S2P Require Import Identity.
From S2P Require Zbf.
From S2P Require Evidence.
From S2P Require Import RobustSnap.
From S2P Require Import Recovery.
From S2P Require Import RecoveryMasks.
From S2P Require Import RecoveryPlan.
From S2P Require Import RecoverySolve.
From S2P Require Import RecoveryTheorems.

#[local] Instance recovery_platform : Platform :=
  {| sha256 := Zbf.toy_sha256; json_string := Zbf.toy_json_string |}.
#[local] Instance recovery_evidence : Codec VerifiedEvidence :=
  {| encode := fun c => Evidence.payload c; decode := fun _ => None |}.

Definition dg (n : N) : Digest := repeat (ascii_of_N n) 32.

Definition evidence_run (payload : bytes) : VerifiedEvidence :=
  Evidence.mkEvidence (Evidence.QTestTrace 1) [] payload
    (Evidence.mkProvenance "parser" "1" "index" "1" "runner" "1")
    (Evidence.WTestTrace (Evidence.mkLock "runner" "1") 1 0 (dg 9)) 0 0.

Definition route : Digest := dcr_verifier_identity (evidence_run []).
Definition read (n : N) : ProtectedEffect := mkEffect (dg n) ReadOnly.

Definition probe : RecoveryQuery :=
  mkQuery (dg 40) 1 (dg 41) [mkOutcome (dg 50) [dg 1]; mkOutcome (dg 51) [dg 2; dg 3]].

Definition three_worlds : DominanceRecoveryProblem :=
  mkProblem DCR_PROBLEM_SCHEMA_VERSION (dg 10) (dg 11)
    (mkFiber ROBUST_SNAP_MODEL_VERSION (dg 12) (dg 13) (dg 11) ["closed"%string] [dg 1; dg 2; dg 3])
    FiberExact (dg 14) (dg 15) (dg 16)
    [mkEffectSet (dg 1) [read 21]; mkEffectSet (dg 2) [read 21; read 22]; mkEffectSet (dg 3) [read 22]]
    [read 21; read 22]
    [mkBudget (dg 1) 1 10; mkBudget (dg 2) 1 10; mkBudget (dg 3) 2 10]
    [probe] (dg 17) [] route (dg 18).

Definition three_evidence : VerifiedEvidence :=
  evidence_run match problem_canonical_bytes three_worlds with Ok b => b | Err _ => [] end.

Lemma three_widths : machine_widths three_worlds.
Proof. split; repeat constructor; vm_compute; discriminate. Qed.

(** The only minimal conflict is the first world with the third. *)
Lemma conflict_hyperedges_exact_witness :
  exists edges, conflict_hyperedges three_worlds (dg 60) (accessible_world_effect_masks three_worlds) = Ok edges /\
    he_worlds <$> edges = [[dg 1; dg 3]] /\ edges_exact three_worlds edges.
Proof.
  assert (three_ok : problem_validate three_worlds = Ok ()) by (vm_compute; reflexivity).
  pose proof (conflict_hyperedges_exact three_worlds (dg 60) three_ok) as Hx.
  destruct (conflict_hyperedges three_worlds (dg 60) (accessible_world_effect_masks three_worlds)) as [edges|e] eqn:He.
  - exists edges. split; [reflexivity|]. split; [|apply Hx].
    assert (he_worlds <$> edges = match conflict_hyperedges three_worlds (dg 60)
      (accessible_world_effect_masks three_worlds) with Ok l => he_worlds <$> l | Err _ => [] end) as -> by (by rewrite He).
    vm_compute. reflexivity.
  - exfalso. destruct Hx as [Hx _]. revert Hx. apply Nat.le_ngt. vm_compute. lia.
Defined.

(** Asking costs one unit; the baseline would cost ten. *)
Lemma recovery_plan_optimal_witness :
  exists plan memo t,
    solve three_worlds (accessible_world_effect_masks three_worlds) (solve_fuel three_worlds) (full_mask three_worlds) ∅
      = Ok (plan, memo) /\
    nd_cost plan = mkRational 1 1 /\ nd_choice plan = ChooseQuery 0 /\ optimal three_worlds (full_mask three_worlds) t.
Proof.
  assert (three_ok : problem_validate three_worlds = Ok ()) by (vm_compute; reflexivity).
  destruct (recovery_plan_optimal three_worlds three_ok three_widths) as [Hx _].
  assert (Hv : match solve three_worlds (accessible_world_effect_masks three_worlds) (solve_fuel three_worlds)
      (full_mask three_worlds) ∅ with Ok (plan, _) => Some plan | Err _ => None end =
    Some (mkNode (mkRational 1 1) (ChooseQuery 0))) by (vm_compute; reflexivity).
  destruct (solve three_worlds (accessible_world_effect_masks three_worlds) (solve_fuel three_worlds)
    (full_mask three_worlds) ∅) as [[plan memo]|]; [|discriminate Hv].
  injection Hv as ->. destruct Hx as (t & Hopt & _). eauto 10.
Defined.

Definition decided : option RecoveryDecision :=
  match dominance_complete_recover three_worlds three_evidence with Ok d => Some d | Err _ => None end.

(** The controller asks the probe. *)
Lemma dominance_recover_exact_witness :
  exists d, dominance_complete_recover three_worlds three_evidence = Ok (Conflict d) /\
    cd_selected_query d = probe /\ cd_optimal_expected_cost d = mkCost 1 1 /\
    cd_raw_baseline_expected_cost d = mkCost 10 1 /\ conflict_law three_worlds d.
Proof.
  assert (Hd : exists d, decided = Some (Conflict d) /\ cd_selected_query d = probe /\
    cd_optimal_expected_cost d = mkCost 1 1 /\ cd_raw_baseline_expected_cost d = mkCost 10 1).
  { vm_compute. eexists. split_and!; reflexivity. }
  destruct Hd as (d & Hd & Hs & Ho & Hr). exists d.
  assert (Hrec : dominance_complete_recover three_worlds three_evidence = Ok (Conflict d)).
  { unfold decided in Hd. by destruct (dominance_complete_recover three_worlds three_evidence); simplify_eq. }
  split_and!; [done..|]. exact (dominance_recover_exact three_worlds three_evidence (Conflict d) three_widths Hrec).
Defined.

(** After the probe excludes the first world two are left. *)
Definition two_worlds : DominanceRecoveryProblem :=
  match condition_on three_worlds (dg 40) (dg 51) (dg 70) (dg 71) [read 21; read 22] (dg 72) route (dg 73) with
  | Ok p => p | Err _ => three_worlds end.

Lemma recovery_narrows_witness :
  nsteps narrows 1 three_worlds two_worlds /\ worlds (pb_fiber two_worlds) = [dg 2; dg 3] /\
  problem_validate two_worlds = Ok ().
Proof.
  assert (three_ok : problem_validate three_worlds = Ok ()) by (vm_compute; reflexivity).
  assert (Hstep : nsteps narrows 1 three_worlds two_worlds).
  { apply nsteps_once. exists (dg 40), (dg 51), (dg 70), (dg 71), [read 21; read 22], (dg 72), route, (dg 73).
    vm_compute. reflexivity. }
  destruct (recovery_narrows 1 three_worlds two_worlds three_ok Hstep) as [Hv _].
  split_and!; [done|vm_compute; reflexivity|done].
Defined.
