(* ===== verification/KernelCore.v ===== *)
(** The vocabulary of the two-phase kernel (zero-gate, two_phase.rs): guards
    and failure codes, the guard trace with its checks and digest, controller
    plans, and the resource envelope with the usage charged against it. *)

From S2P Require Import Prelude.
From S2P Require Import DurableStore.
From S2P Require Import Identity.

Definition TWO_PHASE_SCHEMA_VERSION : N := 6.
Definition GUARD_COUNT : nat := 10.
Definition MAX_SOURCE_REPOSITORIES : nat := 64.
Definition MAX_CONTROLLER_INSTRUCTIONS : nat := 4096.

(** * Guards *)

Inductive Guard :=
| G0Canonical | G1Coherence | G2FinitePlan | G3Attribution | G4Resources | G5RobustSnap
| G6SafetyShield | G7Performance | G8TransactionClosure | G9ReceiptCommitment.

Definition Guard_ALL : list Guard :=
  [G0Canonical; G1Coherence; G2FinitePlan; G3Attribution; G4Resources; G5RobustSnap;
   G6SafetyShield; G7Performance; G8TransactionClosure; G9ReceiptCommitment].

(** [self as usize]. *)
Definition guard_index (g : Guard) : nat :=
  match g with
  | G0Canonical => 0 | G1Coherence => 1 | G2FinitePlan => 2 | G3Attribution => 3 | G4Resources => 4
  | G5RobustSnap => 5 | G6SafetyShield => 6 | G7Performance => 7 | G8TransactionClosure => 8
  | G9ReceiptCommitment => 9
  end.

Definition predecessor (g : Guard) : option Guard :=
  match guard_index g with O => None | S previous => Guard_ALL !! previous end.

Inductive GuardStatus := Passed.

Record GuardEvent := mkEvent {
  ev_guard : Guard; ev_predecessor : option Guard; ev_status : GuardStatus }.

Inductive FailureCode :=
| SchemaVersionMismatch | MissingBinding | InvalidSourceIdentity | CanonicalDigestMismatch
| CoherenceFailure | InvalidPlan | PlanDigestMismatch | ReasoningContractMismatch
| SemanticCutCrossing | AttributionChanged | UnboundedWorker | BoundExceeded
| MissingSnapCertificate | MissingSafetyShield | IrreversiblePreEvidenceEffect
| PerformanceUnknown | ExecuteWithoutPermit | ExpiredPermit | ForgedPermit | PlanStepMismatch
| BufferOverflow | EarlyVisibleByte | IncompleteExecution | IncompleteTrace | ForgedPredecessor
| IncompleteTransactionClosure | UnaccountedFallback | MissingApprovalGrant | ForgedReceipt.

(** [code as u8]. *)
Definition failure_index (c : FailureCode) : N :=
  match c with
  | SchemaVersionMismatch => 0 | MissingBinding => 1 | InvalidSourceIdentity => 2
  | CanonicalDigestMismatch => 3 | CoherenceFailure => 4 | InvalidPlan => 5 | PlanDigestMismatch => 6
  | ReasoningContractMismatch => 7 | SemanticCutCrossing => 8 | AttributionChanged => 9
  | UnboundedWorker => 10 | BoundExceeded => 11 | MissingSnapCertificate => 12
  | MissingSafetyShield => 13 | IrreversiblePreEvidenceEffect => 14 | PerformanceUnknown => 15
  | ExecuteWithoutPermit => 16 | ExpiredPermit => 17 | ForgedPermit => 18 | PlanStepMismatch => 19
  | BufferOverflow => 20 | EarlyVisibleByte => 21 | IncompleteExecution => 22 | IncompleteTrace => 23
  | ForgedPredecessor => 24 | IncompleteTransactionClosure => 25 | UnaccountedFallback => 26
  | MissingApprovalGrant => 27 | ForgedReceipt => 28
  end.

Definition FailureCode_as_str (c : FailureCode) : string :=
  match c with
  | SchemaVersionMismatch => "schema_version_mismatch" | MissingBinding => "missing_binding"
  | InvalidSourceIdentity => "invalid_source_identity"
  | CanonicalDigestMismatch => "canonical_digest_mismatch" | CoherenceFailure => "coherence_failure"
  | InvalidPlan => "invalid_plan" | PlanDigestMismatch => "plan_digest_mismatch"
  | ReasoningContractMismatch => "reasoning_contract_mismatch"
  | SemanticCutCrossing => "semantic_cut_crossing" | AttributionChanged => "attribution_changed"
  | UnboundedWorker => "unbounded_worker" | BoundExceeded => "bound_exceeded"
  | MissingSnapCertificate => "missing_snap_certificate" | MissingSafetyShield => "missing_safety_shield"
  | IrreversiblePreEvidenceEffect => "irreversible_pre_evidence_effect"
  | PerformanceUnknown => "performance_unknown" | ExecuteWithoutPermit => "execute_without_permit"
  | ExpiredPermit => "expired_permit" | ForgedPermit => "forged_permit"
  | PlanStepMismatch => "plan_step_mismatch" | BufferOverflow => "buffer_overflow"
  | EarlyVisibleByte => "early_visible_byte" | IncompleteExecution => "incomplete_execution"
  | IncompleteTrace => "incomplete_trace" | ForgedPredecessor => "forged_predecessor"
  | IncompleteTransactionClosure => "incomplete_transaction_closure"
  | UnaccountedFallback => "unaccounted_fallback" | MissingApprovalGrant => "missing_approval_grant"
  | ForgedReceipt => "forged_receipt"
  end.

(** A kernel error without its detail text. *)
Record KernelError := mkKernelError { k_code : FailureCode; k_guard : option Guard }.

Notation R := (result KernelError).

Definition at_guard (c : FailureCode) (g : Guard) : KernelError := mkKernelError c (Some g).
Definition execution (c : FailureCode) : KernelError := mkKernelError c None.

#[global] Instance Guard_eq_dec : EqDecision Guard.
Proof. solve_decision. Defined.
#[global] Instance GuardStatus_eq_dec : EqDecision GuardStatus.
Proof. solve_decision. Defined.
#[global] Instance GuardEvent_eq_dec : EqDecision GuardEvent.
Proof. solve_decision. Defined.
#[global] Instance FailureCode_eq_dec : EqDecision FailureCode.
Proof. solve_decision. Defined.

(** * The trace *)

Record ExecutionTrace := mkTrace {
  events : list GuardEvent;
  executed_instructions : N;
  t_worker_steps : N;
  buffered_visible_bytes : N;
  t_staged_effects : N;
  execution_failure : option FailureCode }.

Definition trace_new : ExecutionTrace := mkTrace [] 0 0 0 0 None.

Definition pass (g : Guard) (t : ExecutionTrace) : ExecutionTrace :=
  mkTrace (events t ++ [mkEvent g (predecessor g) Passed]) (executed_instructions t) (t_worker_steps t)
    (buffered_visible_bytes t) (t_staged_effects t) (execution_failure t).

(** The loop of [verify_prefix]; the caller has checked that there are no
    more events than guards, so [Guard::ALL[index]] never misses. *)
Fixpoint verify_events (expected : list Guard) (es : list GuardEvent) : R () :=
  match es, expected with
  | e :: es', g :: expected' =>
      guard? bool_decide (ev_guard e = g) else execution IncompleteTrace in
      guard? bool_decide (ev_predecessor e = predecessor g) else execution ForgedPredecessor in
      guard? bool_decide (ev_status e = Passed) else execution IncompleteTrace in
      verify_events expected' es'
  | _, _ => Ok ()
  end.

Definition verify_prefix (t : ExecutionTrace) : R () :=
  reject? (GUARD_COUNT <? length (events t))%nat with execution IncompleteTrace in
  verify_events Guard_ALL (events t).

Definition verify_complete (t : ExecutionTrace) : R () :=
  let? _ := verify_prefix t in
  guard? (length (events t) =? GUARD_COUNT)%nat else execution IncompleteTrace in
  Ok ().

Definition byte_of (n : N) : byte := ascii_of_N n.

Definition event_bytes (e : GuardEvent) : bytes :=
  [byte_of (N.of_nat (guard_index (ev_guard e)));
   byte_of (match ev_predecessor e with Some g => N.of_nat (guard_index g) | None => U8_MAX end);
   byte_of (match ev_status e with Passed => 0 end)].

Definition failure_byte (f : option FailureCode) : byte :=
  byte_of (match f with Some c => failure_index c | None => U8_MAX end).

(** * Plans *)

Inductive PeerOwner := FsZero | GraphZero | TokenZero | ZeroStack.
Inductive ExecutionSurface := Mcp | Cli.

Inductive ControllerInstruction :=
| Dispatch (owner : PeerOwner) | DeterministicTransform | Verify | StageEffect | BufferVisible
| CloseTransaction.

#[global] Instance PeerOwner_eq_dec : EqDecision PeerOwner.
Proof. solve_decision. Defined.
#[global] Instance ControllerInstruction_eq_dec : EqDecision ControllerInstruction.
Proof. solve_decision. Defined.

Definition owner_index (o : PeerOwner) : N :=
  match o with FsZero => 0 | GraphZero => 1 | TokenZero => 2 | ZeroStack => 3 end.
Definition surface_index (s : ExecutionSurface) : N := match s with Mcp => 0 | Cli => 1 end.

Definition tag (i : ControllerInstruction) : N :=
  match i with
  | Dispatch owner => 16 + owner_index owner
  | DeterministicTransform => 32 | Verify => 48 | StageEffect => 64 | BufferVisible => 80
  | CloseTransaction => 96
  end.

(** [ControllerPlan] is its instructions. *)
Notation ControllerPlan := (list ControllerInstruction).

(** * Resources *)

Record WorkerEnvelope := mkEnvelope {
  we_fuel : N; we_deadline_ms : N; we_io_bytes : N; we_output_bytes : N; we_memory_bytes : N;
  we_processes : N; we_risk_units : N; we_worker_steps : N }.

Record ResourceUsage := mkUsage {
  ru_fuel : N; ru_elapsed_ms : N; ru_io_bytes : N; ru_memory_bytes : N; ru_processes : N;
  ru_risk_units : N; ru_worker_steps : N }.

Definition usage_default : ResourceUsage := mkUsage 0 0 0 0 0 0 0.

Definition usage_checked_add (u delta : ResourceUsage) : option ResourceUsage :=
  fuel ← checked_add_u64 (ru_fuel u) (ru_fuel delta);
  elapsed_ms ← checked_add_u64 (ru_elapsed_ms u) (ru_elapsed_ms delta);
  io_bytes ← checked_add_u64 (ru_io_bytes u) (ru_io_bytes delta);
  risk_units ← checked_add_u64 (ru_risk_units u) (ru_risk_units delta);
  worker_steps ← checked_add_u64 (ru_worker_steps u) (ru_worker_steps delta);
  Some (mkUsage fuel elapsed_ms io_bytes (N.max (ru_memory_bytes u) (ru_memory_bytes delta))
          (N.max (ru_processes u) (ru_processes delta)) risk_units worker_steps).

Definition envelope_has_zero (e : WorkerEnvelope) : bool :=
  (we_fuel e =? 0)%N || (we_deadline_ms e =? 0)%N || (we_io_bytes e =? 0)%N ||
  (we_output_bytes e =? 0)%N || (we_memory_bytes e =? 0)%N || (we_processes e =? 0)%N ||
  (we_risk_units e =? 0)%N || (we_worker_steps e =? 0)%N.

Definition within_envelope (u : ResourceUsage) (e : WorkerEnvelope) : bool :=
  (ru_fuel u <=? we_fuel e)%N && (ru_elapsed_ms u <=? we_deadline_ms e)%N &&
  (ru_io_bytes u <=? we_io_bytes e)%N && (ru_memory_bytes u <=? we_memory_bytes e)%N &&
  (ru_processes u <=? we_processes e)%N && (ru_risk_units u <=? we_risk_units e)%N &&
  (ru_worker_steps u <=? we_worker_steps e)%N.

Definition envelope_bytes (e : WorkerEnvelope) : bytes :=
  to_be 8 (we_fuel e) ++ to_be 8 (we_deadline_ms e) ++ to_be 8 (we_io_bytes e) ++
  to_be 8 (we_output_bytes e) ++ to_be 8 (we_memory_bytes e) ++ to_be 4 (we_processes e) ++
  to_be 8 (we_risk_units e) ++ to_be 8 (we_worker_steps e).

Definition usage_bytes (u : ResourceUsage) : bytes :=
  to_be 8 (ru_fuel u) ++ to_be 8 (ru_elapsed_ms u) ++ to_be 8 (ru_io_bytes u) ++
  to_be 8 (ru_memory_bytes u) ++ to_be 4 (ru_processes u) ++ to_be 8 (ru_risk_units u) ++
  to_be 8 (ru_worker_steps u).

(** * Byte framing and digests *)

Definition append_bounded (value : bytes) : bytes := to_be 8 (len value) ++ value.

Definition append_optional_digest (d : option Digest) : bytes :=
  match d with Some x => byte_of 1 :: x | None => [byte_of 0] end.

Section Digests.
Context `{Platform}.

Definition hash_bytes (b : bytes) : Digest := sha256 b.

Definition trace_digest (t : ExecutionTrace) : Digest :=
  hash_bytes (domain "zerostack.kernel.trace" ++ to_be 2 TWO_PHASE_SCHEMA_VERSION ++
    concat (event_bytes <$> events t) ++ to_be 4 (executed_instructions t) ++ to_be 8 (t_worker_steps t) ++
    to_be 8 (buffered_visible_bytes t) ++ to_be 4 (t_staged_effects t) ++
    [failure_byte (execution_failure t)]).

Definition plan_digest_of (p : ControllerPlan) : Digest :=
  hash_bytes (domain "zerostack.kernel.plan" ++ to_be 8 (N.of_nat (length p)) ++
    ((fun i => byte_of (tag i)) <$> p)).
End Digests.

(** * Lemmas *)

(** The events of a trace in which exactly the first [n] guards passed. *)
Definition passed (n : nat) : list GuardEvent :=
  (fun g => mkEvent g (predecessor g) Passed) <$> take n Guard_ALL.

Lemma verify_events_spec expected es :
  length es <= length expected ->
  verify_events expected es = Ok () <->
  es = (fun g => mkEvent g (predecessor g) Passed) <$> take (length es) expected.
Proof.
  revert expected. induction es as [|[g p []] es IH]; intros [|g' expected] Hlen; cbn in *; try done; [lia|].
  rewrite !guard_Ok, !bool_decide_eq_true, IH by lia. split.
  - intros (-> & -> & _ & He). f_equal. exact He.
  - intros [= -> -> He]. by split_and!.
Qed.

Lemma verify_prefix_spec t :
  verify_prefix t = Ok () <-> exists n, n <= GUARD_COUNT /\ events t = passed n.
Proof.
  unfold verify_prefix. rewrite reject_Ok, Nat.ltb_ge. split.
  - intros [Hlen Hv]. apply verify_events_spec in Hv; [|done]. by exists (length (events t)).
  - intros (n & Hn & He). assert (length (events t) = n) as Hl.
    { rewrite He. unfold passed. rewrite length_fmap, length_take. cbn. unfold GUARD_COUNT in Hn. lia. }
    split; [lia|]. apply verify_events_spec; [cbn; unfold GUARD_COUNT in Hn; lia|]. by rewrite Hl.
Qed.

Lemma verify_complete_spec t : verify_complete t = Ok () <-> events t = passed GUARD_COUNT.
Proof.
  unfold verify_complete. rewrite bind_unit_Ok, guard_Ok, verify_prefix_spec, Nat.eqb_eq. split.
  - intros ((n & Hn & He) & Hl & _). rewrite He in Hl |- *. unfold passed in Hl.
    rewrite length_fmap, length_take in Hl. cbn in Hl. f_equal. unfold GUARD_COUNT in *. lia.
  - intros He. rewrite He. split_and!; [by exists GUARD_COUNT|done|done].
Qed.

Lemma pass_passed n g t :
  events t = passed n -> Guard_ALL !! n = Some g -> events (pass g t) = passed (S n).
Proof.
  intros He Hg. unfold pass. cbn [events]. rewrite He. unfold passed.
  by rewrite (take_S_r _ _ _ Hg), fmap_app.
Qed.

Lemma checked_add_u64_Some a b c : checked_add_u64 a b = Some c -> c = (a + b)%N.
Proof. unfold checked_add_u64. destruct (_ <=? _)%N; naive_solver. Qed.

Lemma is_zero_digest' (d : Digest) : is_zero d = false -> zero_digest d = false.
Proof.
  intros Hd. apply bool_decide_eq_false. intros ->. discriminate Hd.
Qed.

#[global] Arguments passed _ : simpl never.
#[global] Arguments hash_bytes {_} _ : simpl never.
#[global] Arguments trace_digest {_} _ : simpl never.
#[global] Arguments plan_digest_of {_} _ : simpl never.
