(* ===== verification/Deoptimization.v ===== *)
(** Exact deoptimization to a frozen raw-baseline safepoint (zero-gate,
    deoptimization.rs): the safepoint captured before a candidate runs, the
    plan that abandons the candidate, the verified restoration, the frozen
    baseline invocation and the receipt of its verified execution. *)

From S2P Require Import Prelude.
From S2P Require Import Canonical.
From S2P Require Import DurableStore.
From S2P Require Import Identity.
From S2P Require Evidence.
From S2P Require Reasoning.
From S2P Require SemanticCut.
From S2P Require Recovery.
From S2P Require Quality.
From S2P Require DurableJournal.
From S2P Require GateTransaction.
From S2P Require KernelCore.

Notation VerifiedEvidence := Evidence.EvidenceCertificate.
Notation ReasoningContract := Reasoning.ReasoningContract.
Notation ReasoningSafepoint := SemanticCut.ReasoningSafepoint.
Notation WorkerEnvelope := KernelCore.WorkerEnvelope.
Notation TransactionReceipt := GateTransaction.TransactionReceipt.

Definition DEOPTIMIZATION_CONTRACT_VERSION : N := 1.
Definition BASELINE_SAFEPOINT_SCHEMA_VERSION : string := "zerostack.baseline_safepoint".
Definition BASELINE_RESTORATION_SCHEMA_VERSION : string := "zerostack.baseline_restoration".
Definition BASELINE_EXECUTION_SCHEMA_VERSION : string := "zerostack.baseline_execution".
Definition DEOPTIMIZATION_PLAN_SCHEMA_VERSION : string := "zerostack.deoptimization_plan".
Definition DEOPTIMIZATION_MAX_CANONICAL_BYTES : N := 1048576.

Definition SAFEPOINT_DOMAIN : bytes := domain "zerostack.deoptimization.safepoint_claim".
Definition SAFEPOINT_CERTIFICATE_DOMAIN : bytes := domain "zerostack.deoptimization.safepoint_certificate".
Definition REASONING_ENTRY_DOMAIN : bytes := domain "zerostack.deoptimization.reasoning_entry".
Definition PLAN_DOMAIN : bytes := domain "zerostack.deoptimization.plan".
Definition RESTORATION_CLAIM_DOMAIN : bytes := domain "zerostack.deoptimization.restoration_claim".
Definition RESUME_PERMIT_DOMAIN : bytes := domain "zerostack.deoptimization.resume_permit".
Definition INVOCATION_DOMAIN : bytes := domain "zerostack.deoptimization.baseline_invocation".
Definition EXECUTION_CLAIM_DOMAIN : bytes := domain "zerostack.deoptimization.baseline_execution_claim".
Definition EXECUTION_RECEIPT_DOMAIN : bytes := domain "zerostack.deoptimization.baseline_execution_receipt".
Definition VERIFIER_DOMAIN : bytes := domain "zerostack.deoptimization.verifier_identity".

Inductive DeoptimizationFailureCode :=
| SchemaVersionMismatch | ZeroDigest | InvalidResourceReserve | InvalidResourceUsage
| ReasoningEntryMismatch | SafepointBindingMismatch | TriggerMismatch | PlanDigestMismatch
| TransactionMismatch | RestorationMismatch | BaselineExecutionMismatch | ReceiptChainMismatch
| ResourceReserveExceeded | UnsupportedEvidenceClass | EvidencePayloadMismatch
| VerifierIdentityMismatch | CertificateDigestMismatch | CanonicalPayloadTooLarge
| NonCanonicalEncoding | ReasoningContractInvalid | Json.

Notation R := (result DeoptimizationFailureCode).

(** * Data *)

Record RaccWork := mkWork {
  rw_logical_input_tokens : N; rw_uncached_input_tokens : N; rw_cached_input_tokens : N;
  rw_reasoning_tokens : N; rw_visible_output_tokens : N; rw_tool_calls : N; rw_verifier_work : N;
  rw_fallback_work : N; rw_latency_micros : N; rw_peak_memory_bytes : N }.

Record RouteUsage := mkRoute {
  rt_fuel : N; rt_elapsed_ms : N; rt_io_bytes : N; rt_output_bytes : N; rt_memory_bytes : N;
  rt_processes : N; rt_risk_units : N; rt_worker_steps : N; rt_work : RaccWork }.

Record FallbackReserve := mkReserve {
  fr_deoptimization_envelope : WorkerEnvelope;
  fr_raw_baseline_envelope : WorkerEnvelope;
  fr_deoptimization_work_limit : RaccWork;
  fr_raw_baseline_work_limit : RaccWork }.

Inductive BaselineReasoningEntry :=
| ExactNativeContinuation (opaque_state_digest parent_response_digest session_identity_digest : Digest)
| CanonicalCleanStart (clean_start_identity_digest : Digest).

Record BaselineSafepointClaim := mkSafepointClaim {
  bs_schema_version : string;
  bs_project_snapshot_root : Digest;
  bs_working_tree_scope_digest : Digest;
  bs_external_state_inventory_digest : Digest;
  bs_comparison_identity_digest : Digest;
  bs_raw_baseline_identity_digest : Digest;
  bs_raw_baseline_input_digest : Digest;
  bs_raw_decision_view_digest : Digest;
  bs_assembly_contract_digest : Digest;
  bs_baseline_engine_contract_digest : Digest;
  bs_effect_schema_digest : Digest;
  bs_baseline_reasoning_contract : ReasoningContract;
  bs_baseline_reasoning_contract_digest : Digest;
  bs_reasoning_safepoint : ReasoningSafepoint;
  bs_reasoning_entry : BaselineReasoningEntry;
  bs_sampler_randomness_identity_digest : Digest;
  bs_baseline_verifier_identity_digest : Digest;
  bs_reserve : FallbackReserve;
  bs_transaction_route_digest : Digest;
  bs_restoration_route_digest : Digest;
  bs_capture_receipt_head_digest : Digest }.

(** [BaselineSafepointEvidence] and its public record have the same fields. *)
Record BaselineSafepointEvidence := mkSafepointEvidence {
  be_contract_version : N;
  be_claim : BaselineSafepointClaim;
  be_claim_digest : Digest;
  be_evidence_digest : Digest;
  be_verifier_identity_digest : Digest;
  be_certificate_digest : Digest }.
Notation BaselineSafepointCertificateRecord := BaselineSafepointEvidence.

Inductive DeoptimizationTrigger :=
| RecoveryUnknown (problem_digest decision_digest : Digest)
| QualityBaselineSelection (quality_admission_digest : Digest)
| FailClosed (failure_code : KernelCore.FailureCode) (failure_receipt_digest : Digest).

Record DeoptimizationPlanClaim := mkPlanClaim {
  pc_schema_version : string;
  pc_safepoint_certificate_digest : Digest;
  pc_trigger : DeoptimizationTrigger;
  pc_candidate_action_digest : Digest;
  pc_candidate_state_digest : Digest;
  pc_candidate_closure_manifest_digest : Digest;
  pc_prior_work_receipt_digest : Digest;
  pc_kernel_binding_digest : Digest;
  pc_kernel_admission_digest : Digest;
  pc_plan_digest : Digest }.

(** [DeoptimizationPlan] and its public record have the same fields. *)
Record DeoptimizationPlan := mkPlan {
  dp_contract_version : N;
  dp_safepoint : BaselineSafepointEvidence;
  dp_trigger : DeoptimizationTrigger;
  dp_candidate_action_digest : Digest;
  dp_candidate_state_digest : Digest;
  dp_candidate_closure_manifest_digest : Digest;
  dp_prior_work_receipt_digest : Digest;
  dp_kernel_binding_digest : Digest;
  dp_kernel_admission_digest : Digest;
  dp_plan_digest : Digest }.
Notation DeoptimizationPlanRecord := DeoptimizationPlan.

Record BaselineRestorationClaim := mkRestorationClaim {
  rc_schema_version : string;
  rc_plan_digest : Digest;
  rc_safepoint_certificate_digest : Digest;
  rc_transaction_receipt_digest : Digest;
  rc_restored_project_root : Digest;
  rc_restored_external_inventory_digest : Digest;
  rc_restored_reasoning_contract_digest : Digest;
  rc_restored_fixed_model_digest : Digest;
  rc_restored_reasoning_entry_digest : Digest;
  rc_raw_baseline_identity_digest : Digest;
  rc_raw_baseline_input_digest : Digest;
  rc_raw_decision_view_digest : Digest;
  rc_candidate_overlay_disposition_digest : Digest;
  rc_visible_buffer_disposition_digest : Digest;
  rc_prior_receipt_head_digest : Digest;
  rc_successor_receipt_head_digest : Digest;
  rc_restoration_verifier_identity_digest : Digest;
  rc_deoptimization_usage : RouteUsage }.

Record RestoredTransactionRecord := mkRestored {
  rs_receipt_digest : Digest;
  rs_action_digest : Digest;
  rs_closure_manifest_digest : Digest;
  rs_baseline_state : Digest;
  rs_candidate_state : Digest;
  rs_external_inventory_digest : Digest;
  rs_resource_count : N;
  rs_external_resource_count : N;
  rs_recovery_outcome : DurableJournal.RecoveryOutcome }.

(** [BaselineResumePermit] and its public receipt record have the same
    fields; the record validates more. *)
Record BaselineResumePermit := mkResume {
  rp_contract_version : N;
  rp_plan : DeoptimizationPlan;
  rp_restoration_claim : BaselineRestorationClaim;
  rp_restored_transaction : RestoredTransactionRecord;
  rp_restoration_claim_digest : Digest;
  rp_evidence_digest : Digest;
  rp_verifier_identity_digest : Digest;
  rp_permit_digest : Digest }.
Notation BaselineResumeReceiptRecord := BaselineResumePermit.

Record FrozenBaselineInvocation := mkInvocation {
  fi_resume_record : BaselineResumeReceiptRecord;
  fi_contract_version : N;
  fi_resume_permit_digest : Digest;
  fi_predecessor_receipt_head_digest : Digest;
  fi_transaction_receipt_digest : Digest;
  fi_project_snapshot_root : Digest;
  fi_raw_baseline_identity_digest : Digest;
  fi_raw_baseline_input_digest : Digest;
  fi_raw_decision_view_digest : Digest;
  fi_comparison_identity_digest : Digest;
  fi_assembly_contract_digest : Digest;
  fi_baseline_engine_contract_digest : Digest;
  fi_effect_schema_digest : Digest;
  fi_baseline_reasoning_contract : ReasoningContract;
  fi_baseline_reasoning_contract_digest : Digest;
  fi_reasoning_entry : BaselineReasoningEntry;
  fi_sampler_randomness_identity_digest : Digest;
  fi_baseline_verifier_identity_digest : Digest;
  fi_raw_baseline_envelope : WorkerEnvelope;
  fi_raw_baseline_work_limit : RaccWork;
  fi_invocation_digest : Digest }.

Record BaselineExecutionClaim := mkExecutionClaim {
  ec_schema_version : string;
  ec_invocation_digest : Digest;
  ec_resume_permit_digest : Digest;
  ec_transaction_receipt_digest : Digest;
  ec_project_snapshot_root : Digest;
  ec_raw_baseline_identity_digest : Digest;
  ec_raw_baseline_input_digest : Digest;
  ec_raw_decision_view_digest : Digest;
  ec_baseline_reasoning_contract_digest : Digest;
  ec_reasoning_entry_digest : Digest;
  ec_predecessor_receipt_head_digest : Digest;
  ec_output_digest : Digest;
  ec_effects_digest : Digest;
  ec_baseline_action_digest : Digest;
  ec_baseline_acceptance_digest : Digest;
  ec_baseline_successor_root : Digest;
  ec_baseline_transaction_receipt_digest : Digest;
  ec_raw_baseline_usage : RouteUsage;
  ec_successor_receipt_head_digest : Digest;
  ec_execution_verifier_identity_digest : Digest }.

Record BaselineExecutionReceipt := mkExecutionReceipt {
  er_resume_record : BaselineResumeReceiptRecord;
  er_invocation_digest : Digest;
  er_execution_claim : BaselineExecutionClaim;
  er_execution_claim_digest : Digest;
  er_evidence_digest : Digest;
  er_verifier_identity_digest : Digest;
  er_receipt_digest : Digest }.

(** [BaselineExecutionReceiptRecord]: the receipt's fields behind a version. *)
Record BaselineExecutionReceiptRecord := mkExecutionRecord {
  xr_contract_version : N;
  xr_receipt : BaselineExecutionReceipt }.

(** * Wire form *)

Definition jpolicy (p : Reasoning.NativeStatePolicy) : Value :=
  VString match p with
  | Reasoning.ExactRequired => "exact-required" | Reasoning.ExactIfAvailable => "exact-if-available"
  | Reasoning.CleanRestart => "clean-restart" | Reasoning.ScopedCertificate => "scoped-certificate"
  | Reasoning.Unavailable => "unavailable"
  end.

Definition jsampling (s : Reasoning.SamplingParams) : Value :=
  Object [("temperature_ppm", jnum (Reasoning.temperature_ppm s)); ("top_p_ppm", jnum (Reasoning.top_p_ppm s));
          ("seed", jopt jnum (Reasoning.seed s))].

Definition jstopping (s : Reasoning.StoppingPolicy) : Value :=
  Object [("stop_sequences", jstrs (Reasoning.stop_sequences s));
          ("max_steps", jopt jnum (Reasoning.max_steps s))].

Definition jpermission (p : Reasoning.ToolPermission) : Value :=
  Object [("read_only", Bool (Reasoning.read_only p));
          ("approval_required", Bool (Reasoning.approval_required p));
          ("max_calls", jopt jnum (Reasoning.max_calls p))].

(** A field under [skip_serializing_if = Option::is_none]. *)
Definition jskip {A} (name : string) (f : A -> Value) (o : option A) : list (string * Value) :=
  match o with Some x => [(name, f x)] | None => [] end.
(** A map under [skip_serializing_if = BTreeMap::is_empty]. *)
Definition jskip_map {A} (name : string) (f : A -> Value) (l : list (string * A)) : list (string * Value) :=
  match l with [] => [] | _ => [(name, Object ((fun e => (fst e, f (snd e))) <$> l))] end.

Definition jcontract (c : ReasoningContract) : Value :=
  Object ([("schema_version", VString (Reasoning.schema_version c));
           ("model_identity", jhex (Reasoning.model_identity c));
           ("backend_identity", jhex (Reasoning.backend_identity c));
           ("tokenizer_identity", jhex (Reasoning.tokenizer_identity c));
           ("decoder_identity", jhex (Reasoning.decoder_identity c));
           ("tool_schema_digest", jhex (Reasoning.tool_schema_digest c));
           ("reasoning_mode", VString (Reasoning.reasoning_mode c));
           ("reasoning_effort", VString (Reasoning.reasoning_effort c));
           ("max_output_tokens", jnum (Reasoning.max_output_tokens c));
           ("reserved_reasoning_tokens", jnum (Reasoning.reserved_reasoning_tokens c));
           ("reserved_visible_output_tokens", jnum (Reasoning.reserved_visible_output_tokens c));
           ("reserved_recovery_tokens", jnum (Reasoning.reserved_recovery_tokens c));
           ("native_state_policy", jpolicy (Reasoning.native_state_policy c));
           ("allow_effort_downshift", Bool (Reasoning.allow_effort_downshift c))] ++
          jskip_map "provider_extension" id (Reasoning.provider_extension c) ++
          jskip "sampling_params" jsampling (Reasoning.sampling_params c) ++
          jskip "stopping_policy" jstopping (Reasoning.stopping_policy c) ++
          jskip "system_prompt_root" jhex (Reasoning.system_prompt_root c) ++
          jskip_map "tool_permissions" jpermission (Reasoning.tool_permissions c)).

Definition jenvelope (e : WorkerEnvelope) : Value :=
  Object [("fuel", jnum (KernelCore.we_fuel e)); ("deadline_ms", jnum (KernelCore.we_deadline_ms e));
          ("io_bytes", jnum (KernelCore.we_io_bytes e)); ("output_bytes", jnum (KernelCore.we_output_bytes e));
          ("memory_bytes", jnum (KernelCore.we_memory_bytes e)); ("processes", jnum (KernelCore.we_processes e));
          ("risk_units", jnum (KernelCore.we_risk_units e));
          ("worker_steps", jnum (KernelCore.we_worker_steps e))].

Definition jwork (w : RaccWork) : Value :=
  Object [("logical_input_tokens", jnum (rw_logical_input_tokens w));
          ("uncached_input_tokens", jnum (rw_uncached_input_tokens w));
          ("cached_input_tokens", jnum (rw_cached_input_tokens w));
          ("reasoning_tokens", jnum (rw_reasoning_tokens w));
          ("visible_output_tokens", jnum (rw_visible_output_tokens w));
          ("tool_calls", jnum (rw_tool_calls w)); ("verifier_work", jnum (rw_verifier_work w));
          ("fallback_work", jnum (rw_fallback_work w)); ("latency_micros", jnum (rw_latency_micros w));
          ("peak_memory_bytes", jnum (rw_peak_memory_bytes w))].

Definition jroute (u : RouteUsage) : Value :=
  Object [("fuel", jnum (rt_fuel u)); ("elapsed_ms", jnum (rt_elapsed_ms u)); ("io_bytes", jnum (rt_io_bytes u));
          ("output_bytes", jnum (rt_output_bytes u)); ("memory_bytes", jnum (rt_memory_bytes u));
          ("processes", jnum (rt_processes u)); ("risk_units", jnum (rt_risk_units u));
          ("worker_steps", jnum (rt_worker_steps u)); ("work", jwork (rt_work u))].

Definition jreserve (r : FallbackReserve) : Value :=
  Object [("deoptimization_envelope", jenvelope (fr_deoptimization_envelope r));
          ("raw_baseline_envelope", jenvelope (fr_raw_baseline_envelope r));
          ("deoptimization_work_limit", jwork (fr_deoptimization_work_limit r));
          ("raw_baseline_work_limit", jwork (fr_raw_baseline_work_limit r))].

Definition jentry (e : BaselineReasoningEntry) : Value :=
  match e with
  | ExactNativeContinuation opaque parent session =>
      Object [("entry_kind", VString "exact_native_continuation"); ("opaque_state_digest", jhex opaque);
              ("parent_response_digest", jhex parent); ("session_identity_digest", jhex session)]
  | CanonicalCleanStart clean =>
      Object [("entry_kind", VString "canonical_clean_start"); ("clean_start_identity_digest", jhex clean)]
  end.

Definition jtrigger (t : DeoptimizationTrigger) : Value :=
  match t with
  | RecoveryUnknown problem decision =>
      Object [("trigger_kind", VString "recovery_unknown"); ("problem_digest", jhex problem);
              ("decision_digest", jhex decision)]
  | QualityBaselineSelection admission =>
      Object [("trigger_kind", VString "quality_baseline_selection"); ("quality_admission_digest", jhex admission)]
  | FailClosed code receipt =>
      Object [("trigger_kind", VString "fail_closed"); ("failure_code", VString (KernelCore.FailureCode_as_str code));
              ("failure_receipt_digest", jhex receipt)]
  end.

Definition jsafepoint_claim (c : BaselineSafepointClaim) : Value :=
  Object [("schema_version", VString (bs_schema_version c));
          ("project_snapshot_root", jhex (bs_project_snapshot_root c));
          ("working_tree_scope_digest", jhex (bs_working_tree_scope_digest c));
          ("external_state_inventory_digest", jhex (bs_external_state_inventory_digest c));
          ("comparison_identity_digest", jhex (bs_comparison_identity_digest c));
          ("raw_baseline_identity_digest", jhex (bs_raw_baseline_identity_digest c));
          ("raw_baseline_input_digest", jhex (bs_raw_baseline_input_digest c));
          ("raw_decision_view_digest", jhex (bs_raw_decision_view_digest c));
          ("assembly_contract_digest", jhex (bs_assembly_contract_digest c));
          ("baseline_engine_contract_digest", jhex (bs_baseline_engine_contract_digest c));
          ("effect_schema_digest", jhex (bs_effect_schema_digest c));
          ("baseline_reasoning_contract", jcontract (bs_baseline_reasoning_contract c));
          ("baseline_reasoning_contract_digest", jhex (bs_baseline_reasoning_contract_digest c));
          ("reasoning_safepoint", SemanticCut.jsafepoint (bs_reasoning_safepoint c));
          ("reasoning_entry", jentry (bs_reasoning_entry c));
          ("sampler_randomness_identity_digest", jhex (bs_sampler_randomness_identity_digest c));
          ("baseline_verifier_identity_digest", jhex (bs_baseline_verifier_identity_digest c));
          ("reserve", jreserve (bs_reserve c));
          ("transaction_route_digest", jhex (bs_transaction_route_digest c));
          ("restoration_route_digest", jhex (bs_restoration_route_digest c));
          ("capture_receipt_head_digest", jhex (bs_capture_receipt_head_digest c))].

Definition jplan_claim (c : DeoptimizationPlanClaim) : Value :=
  Object [("schema_version", VString (pc_schema_version c));
          ("safepoint_certificate_digest", jhex (pc_safepoint_certificate_digest c));
          ("trigger", jtrigger (pc_trigger c));
          ("candidate_action_digest", jhex (pc_candidate_action_digest c));
          ("candidate_state_digest", jhex (pc_candidate_state_digest c));
          ("candidate_closure_manifest_digest", jhex (pc_candidate_closure_manifest_digest c));
          ("prior_work_receipt_digest", jhex (pc_prior_work_receipt_digest c));
          ("kernel_binding_digest", jhex (pc_kernel_binding_digest c));
          ("kernel_admission_digest", jhex (pc_kernel_admission_digest c));
          ("plan_digest", jhex (pc_plan_digest c))].

Definition jrestoration_claim (c : BaselineRestorationClaim) : Value :=
  Object [("schema_version", VString (rc_schema_version c)); ("plan_digest", jhex (rc_plan_digest c));
          ("safepoint_certificate_digest", jhex (rc_safepoint_certificate_digest c));
          ("transaction_receipt_digest", jhex (rc_transaction_receipt_digest c));
          ("restored_project_root", jhex (rc_restored_project_root c));
          ("restored_external_inventory_digest", jhex (rc_restored_external_inventory_digest c));
          ("restored_reasoning_contract_digest", jhex (rc_restored_reasoning_contract_digest c));
          ("restored_fixed_model_digest", jhex (rc_restored_fixed_model_digest c));
          ("restored_reasoning_entry_digest", jhex (rc_restored_reasoning_entry_digest c));
          ("raw_baseline_identity_digest", jhex (rc_raw_baseline_identity_digest c));
          ("raw_baseline_input_digest", jhex (rc_raw_baseline_input_digest c));
          ("raw_decision_view_digest", jhex (rc_raw_decision_view_digest c));
          ("candidate_overlay_disposition_digest", jhex (rc_candidate_overlay_disposition_digest c));
          ("visible_buffer_disposition_digest", jhex (rc_visible_buffer_disposition_digest c));
          ("prior_receipt_head_digest", jhex (rc_prior_receipt_head_digest c));
          ("successor_receipt_head_digest", jhex (rc_successor_receipt_head_digest c));
          ("restoration_verifier_identity_digest", jhex (rc_restoration_verifier_identity_digest c));
          ("deoptimization_usage", jroute (rc_deoptimization_usage c))].

Definition jexecution_claim (c : BaselineExecutionClaim) : Value :=
  Object [("schema_version", VString (ec_schema_version c)); ("invocation_digest", jhex (ec_invocation_digest c));
          ("resume_permit_digest", jhex (ec_resume_permit_digest c));
          ("transaction_receipt_digest", jhex (ec_transaction_receipt_digest c));
          ("project_snapshot_root", jhex (ec_project_snapshot_root c));
          ("raw_baseline_identity_digest", jhex (ec_raw_baseline_identity_digest c));
          ("raw_baseline_input_digest", jhex (ec_raw_baseline_input_digest c));
          ("raw_decision_view_digest", jhex (ec_raw_decision_view_digest c));
          ("baseline_reasoning_contract_digest", jhex (ec_baseline_reasoning_contract_digest c));
          ("reasoning_entry_digest", jhex (ec_reasoning_entry_digest c));
          ("predecessor_receipt_head_digest", jhex (ec_predecessor_receipt_head_digest c));
          ("output_digest", jhex (ec_output_digest c)); ("effects_digest", jhex (ec_effects_digest c));
          ("baseline_action_digest", jhex (ec_baseline_action_digest c));
          ("baseline_acceptance_digest", jhex (ec_baseline_acceptance_digest c));
          ("baseline_successor_root", jhex (ec_baseline_successor_root c));
          ("baseline_transaction_receipt_digest", jhex (ec_baseline_transaction_receipt_digest c));
          ("raw_baseline_usage", jroute (ec_raw_baseline_usage c));
          ("successor_receipt_head_digest", jhex (ec_successor_receipt_head_digest c));
          ("execution_verifier_identity_digest", jhex (ec_execution_verifier_identity_digest c))].

Definition jsafepoint_record (e : BaselineSafepointCertificateRecord) : Value :=
  Object [("contract_version", jnum (be_contract_version e)); ("claim", jsafepoint_claim (be_claim e));
          ("claim_digest", jhex (be_claim_digest e)); ("evidence_digest", jhex (be_evidence_digest e));
          ("verifier_identity_digest", jhex (be_verifier_identity_digest e));
          ("certificate_digest", jhex (be_certificate_digest e))].

Definition jplan_record (p : DeoptimizationPlanRecord) : Value :=
  Object [("contract_version", jnum (dp_contract_version p)); ("safepoint", jsafepoint_record (dp_safepoint p));
          ("trigger", jtrigger (dp_trigger p));
          ("candidate_action_digest", jhex (dp_candidate_action_digest p));
          ("candidate_state_digest", jhex (dp_candidate_state_digest p));
          ("candidate_closure_manifest_digest", jhex (dp_candidate_closure_manifest_digest p));
          ("prior_work_receipt_digest", jhex (dp_prior_work_receipt_digest p));
          ("kernel_binding_digest", jhex (dp_kernel_binding_digest p));
          ("kernel_admission_digest", jhex (dp_kernel_admission_digest p));
          ("plan_digest", jhex (dp_plan_digest p))].

Definition jrestored (r : RestoredTransactionRecord) : Value :=
  Object [("receipt_digest", jhex (rs_receipt_digest r)); ("action_digest", jhex (rs_action_digest r));
          ("closure_manifest_digest", jhex (rs_closure_manifest_digest r));
          ("baseline_state", jhex (rs_baseline_state r)); ("candidate_state", jhex (rs_candidate_state r));
          ("external_inventory_digest", jhex (rs_external_inventory_digest r));
          ("resource_count", jnum (rs_resource_count r));
          ("external_resource_count", jnum (rs_external_resource_count r));
          ("recovery_outcome", GateTransaction.joutcome (rs_recovery_outcome r))].

Definition jresume_record (r : BaselineResumeReceiptRecord) : Value :=
  Object [("contract_version", jnum (rp_contract_version r)); ("plan", jplan_record (rp_plan r));
          ("restoration_claim", jrestoration_claim (rp_restoration_claim r));
          ("restored_transaction", jrestored (rp_restored_transaction r));
          ("restoration_claim_digest", jhex (rp_restoration_claim_digest r));
          ("evidence_digest", jhex (rp_evidence_digest r));
          ("verifier_identity_digest", jhex (rp_verifier_identity_digest r));
          ("permit_digest", jhex (rp_permit_digest r))].

Definition jexecution_record (x : BaselineExecutionReceiptRecord) : Value :=
  let r := xr_receipt x in
  Object [("contract_version", jnum (xr_contract_version x)); ("resume_record", jresume_record (er_resume_record r));
          ("invocation_digest", jhex (er_invocation_digest r));
          ("execution_claim", jexecution_claim (er_execution_claim r));
          ("execution_claim_digest", jhex (er_execution_claim_digest r));
          ("evidence_digest", jhex (er_evidence_digest r));
          ("verifier_identity_digest", jhex (er_verifier_identity_digest r));
          ("receipt_digest", jhex (er_receipt_digest r))].

(** * Resources *)

Definition require_nonzero (values : list Digest) : R () :=
  reject? existsb zero_digest values with ZeroDigest in Ok ().

(** A conjunction of digest equalities, in order. *)
Definition all_eq (l : list (Digest * Digest)) : bool :=
  forallb (fun p => bool_decide (fst p = snd p)) l.

Definition validate_limit (w : RaccWork) : R () :=
  let? observed_input :=
    ok_or (checked_add_u64 (rw_uncached_input_tokens w) (rw_cached_input_tokens w)) InvalidResourceReserve in
  guard? (observed_input =? rw_logical_input_tokens w)%N && negb (rw_fallback_work w =? 0)%N &&
         negb (rw_latency_micros w =? 0)%N && negb (rw_peak_memory_bytes w =? 0)%N
    else InvalidResourceReserve in
  Ok ().

Definition validate_usage (w : RaccWork) : R () :=
  let? observed_input :=
    ok_or (checked_add_u64 (rw_uncached_input_tokens w) (rw_cached_input_tokens w)) InvalidResourceUsage in
  guard? (observed_input =? rw_logical_input_tokens w)%N && negb (rw_fallback_work w =? 0)%N &&
         negb (rw_latency_micros w =? 0)%N
    else InvalidResourceUsage in
  Ok ().

Definition work_within (w limit : RaccWork) : bool :=
  (rw_logical_input_tokens w <=? rw_logical_input_tokens limit)%N &&
  (rw_uncached_input_tokens w <=? rw_uncached_input_tokens limit)%N &&
  (rw_cached_input_tokens w <=? rw_cached_input_tokens limit)%N &&
  (rw_reasoning_tokens w <=? rw_reasoning_tokens limit)%N &&
  (rw_visible_output_tokens w <=? rw_visible_output_tokens limit)%N &&
  (rw_tool_calls w <=? rw_tool_calls limit)%N && (rw_verifier_work w <=? rw_verifier_work limit)%N &&
  (rw_fallback_work w <=? rw_fallback_work limit)%N && (rw_latency_micros w <=? rw_latency_micros limit)%N &&
  (rw_peak_memory_bytes w <=? rw_peak_memory_bytes limit)%N.

Definition RouteUsage_validate (u : RouteUsage) : R () :=
  let? _ := validate_usage (rt_work u) in
  reject? (rt_elapsed_ms u =? 0)%N || (rt_memory_bytes u =? 0)%N || (rt_worker_steps u =? 0)%N
    with InvalidResourceUsage in
  Ok ().

Definition route_within (u : RouteUsage) (e : WorkerEnvelope) (limit : RaccWork) : bool :=
  (rt_fuel u <=? KernelCore.we_fuel e)%N && (rt_elapsed_ms u <=? KernelCore.we_deadline_ms e)%N &&
  (rt_io_bytes u <=? KernelCore.we_io_bytes e)%N && (rt_output_bytes u <=? KernelCore.we_output_bytes e)%N &&
  (rt_memory_bytes u <=? KernelCore.we_memory_bytes e)%N && (rt_processes u <=? KernelCore.we_processes e)%N &&
  (rt_risk_units u <=? KernelCore.we_risk_units e)%N && (rt_worker_steps u <=? KernelCore.we_worker_steps e)%N &&
  work_within (rt_work u) limit.

Definition validate_envelope (e : WorkerEnvelope) : R () :=
  reject? (KernelCore.we_fuel e =? 0)%N || (KernelCore.we_deadline_ms e =? 0)%N ||
          (KernelCore.we_io_bytes e =? 0)%N || (KernelCore.we_output_bytes e =? 0)%N ||
          (KernelCore.we_memory_bytes e =? 0)%N || (KernelCore.we_processes e =? 0)%N ||
          (KernelCore.we_worker_steps e =? 0)%N
    with InvalidResourceReserve in
  Ok ().

Definition FallbackReserve_validate (r : FallbackReserve) : R () :=
  let? _ := validate_envelope (fr_deoptimization_envelope r) in
  let? _ := validate_envelope (fr_raw_baseline_envelope r) in
  let? _ := validate_limit (fr_deoptimization_work_limit r) in
  validate_limit (fr_raw_baseline_work_limit r).

Definition BaselineReasoningEntry_validate (e : BaselineReasoningEntry) (c : ReasoningContract)
  (s : ReasoningSafepoint) : R () :=
  match e with
  | ExactNativeContinuation opaque parent session =>
      let? _ := require_nonzero [opaque; parent; session] in
      guard? (match Reasoning.native_state_policy c with
              | Reasoning.ExactRequired | Reasoning.ExactIfAvailable => true | _ => false end) &&
             bool_decide (SemanticCut.reasoning_state_status s = SemanticCut.ExactPreserved) &&
             bool_decide (SemanticCut.opaque_reasoning_state_digest s = opaque)
        else ReasoningEntryMismatch in
      Ok ()
  | CanonicalCleanStart clean =>
      let? _ := require_nonzero [clean] in
      guard? bool_decide (Reasoning.native_state_policy c = Reasoning.CleanRestart) &&
             bool_decide (SemanticCut.reasoning_state_status s = SemanticCut.ExactCleanRestart) &&
             bool_decide (SemanticCut.opaque_reasoning_state_digest s = clean)
        else ReasoningEntryMismatch in
      Ok ()
  end.

(** * The route *)

Section Route.
Context `{Platform, Codec ReasoningContract, Codec VerifiedEvidence}.

Definition canonical_bytes (v : Value) : R bytes :=
  let b := canonical_bytes_of v in
  reject? (DEOPTIMIZATION_MAX_CANONICAL_BYTES <? len b)%N with CanonicalPayloadTooLarge in
  Ok b.

Definition decode_canonical {T} `{FromSlice T} (to_value : T -> Value) (b : bytes) : R T :=
  reject? (DEOPTIMIZATION_MAX_CANONICAL_BYTES <? len b)%N with CanonicalPayloadTooLarge in
  let? value := ok_or (from_slice b) Json in
  let? canonical := canonical_bytes (to_value value) in
  guard? bool_decide (canonical = b) else NonCanonicalEncoding in
  Ok value.

Definition digest_value (dom : bytes) (v : Value) : Digest := concat_digest dom (canonical_bytes_of v).

Definition entry_digest (e : BaselineReasoningEntry) : R Digest :=
  let? b := canonical_bytes (jentry e) in
  Ok (concat_digest REASONING_ENTRY_DOMAIN b).

Definition contract_digest (c : ReasoningContract) : R Digest :=
  map_err ReasoningContractInvalid (Reasoning.identity_digest c).

(** ** Safepoints *)

Definition BaselineSafepointClaim_validate (c : BaselineSafepointClaim) : R () :=
  guard? bool_decide (bs_schema_version c = BASELINE_SAFEPOINT_SCHEMA_VERSION) else SchemaVersionMismatch in
  let? _ := map_err ReasoningContractInvalid (Reasoning.validate (bs_baseline_reasoning_contract c)) in
  let? _ := map_err ReasoningContractInvalid
              (SemanticCut.ReasoningSafepoint_validate (bs_reasoning_safepoint c)) in
  let? _ := FallbackReserve_validate (bs_reserve c) in
  let? _ := require_nonzero
    [bs_project_snapshot_root c; bs_working_tree_scope_digest c; bs_external_state_inventory_digest c;
     bs_comparison_identity_digest c; bs_raw_baseline_identity_digest c; bs_raw_baseline_input_digest c;
     bs_raw_decision_view_digest c; bs_assembly_contract_digest c; bs_baseline_engine_contract_digest c;
     bs_effect_schema_digest c; bs_baseline_reasoning_contract_digest c;
     bs_sampler_randomness_identity_digest c; bs_baseline_verifier_identity_digest c;
     bs_transaction_route_digest c; bs_restoration_route_digest c; bs_capture_receipt_head_digest c] in
  let? actual := contract_digest (bs_baseline_reasoning_contract c) in
  let s := bs_reasoning_safepoint c in
  guard? all_eq
      [(actual, bs_baseline_reasoning_contract_digest c);
       (SemanticCut.sp_reasoning_contract_digest s, bs_baseline_reasoning_contract_digest c);
       (SemanticCut.sp_fixed_model_digest s, Reasoning.model_identity (bs_baseline_reasoning_contract c));
       (SemanticCut.project_control_root s, bs_project_snapshot_root c);
       (SemanticCut.receipt_head_digest s, bs_capture_receipt_head_digest c)]
    else SafepointBindingMismatch in
  BaselineReasoningEntry_validate (bs_reasoning_entry c) (bs_baseline_reasoning_contract c) s.

Definition BaselineSafepointClaim_new (project working external comparison identity input view assembly
  engine effects : Digest) (contract : ReasoningContract) (safepoint : ReasoningSafepoint)
  (entry : BaselineReasoningEntry) (sampler verifier : Digest) (reserve : FallbackReserve)
  (transaction_route restoration_route head : Digest) : R BaselineSafepointClaim :=
  let? digest := contract_digest contract in
  let c := mkSafepointClaim BASELINE_SAFEPOINT_SCHEMA_VERSION project working external comparison identity
    input view assembly engine effects contract digest safepoint entry sampler verifier reserve
    transaction_route restoration_route head in
  let? _ := BaselineSafepointClaim_validate c in
  Ok c.

Definition BaselineSafepointClaim_canonical_bytes (c : BaselineSafepointClaim) : R bytes :=
  let? _ := BaselineSafepointClaim_validate c in
  canonical_bytes (jsafepoint_claim c).

Definition BaselineSafepointClaim_from_canonical_bytes `{FromSlice BaselineSafepointClaim} (b : bytes)
  : R BaselineSafepointClaim :=
  let? c := decode_canonical jsafepoint_claim b in
  let? _ := BaselineSafepointClaim_validate c in
  Ok c.

Definition BaselineSafepointClaim_digest (c : BaselineSafepointClaim) : R Digest :=
  let? b := BaselineSafepointClaim_canonical_bytes c in
  Ok (concat_digest SAFEPOINT_DOMAIN b).

Definition deoptimization_verifier_identity (evidence : VerifiedEvidence) : Digest :=
  let p := Evidence.provenance evidence in
  digest_value VERIFIER_DOMAIN (Object
    [("index_id", VString (Evidence.index_id p)); ("index_version", VString (Evidence.index_version p));
     ("operator_id", VString (Evidence.operator_id p));
     ("operator_version", VString (Evidence.operator_version p));
     ("parser_id", VString (Evidence.parser_id p)); ("parser_version", VString (Evidence.parser_version p))]).

Definition verify_exact_successful_payload (expected : bytes) (evidence : VerifiedEvidence) : R () :=
  guard? SemanticCut.successful_receipt evidence else UnsupportedEvidenceClass in
  guard? bool_decide (Evidence.payload evidence = expected) else EvidencePayloadMismatch in
  Ok ().

Definition verified_evidence_digest (evidence : VerifiedEvidence) : Digest :=
  Evidence.canonical_digest evidence.

Definition safepoint_certificate_digest_of (version : N) (claim evidence verifier : Digest) : Digest :=
  digest_value SAFEPOINT_CERTIFICATE_DOMAIN (Object
    [("claim_digest", jhex claim); ("contract_version", jnum version); ("evidence_digest", jhex evidence);
     ("verifier_identity_digest", jhex verifier)]).

Definition BaselineSafepointEvidence_verify_owner_scoped (c : BaselineSafepointClaim)
  (evidence : VerifiedEvidence) : R BaselineSafepointEvidence :=
  let? _ := BaselineSafepointClaim_validate c in
  let? b := BaselineSafepointClaim_canonical_bytes c in
  let? _ := verify_exact_successful_payload b evidence in
  let verifier := deoptimization_verifier_identity evidence in
  guard? bool_decide (verifier = bs_baseline_verifier_identity_digest c) else VerifierIdentityMismatch in
  let? claim := BaselineSafepointClaim_digest c in
  let ed := verified_evidence_digest evidence in
  Ok (mkSafepointEvidence DEOPTIMIZATION_CONTRACT_VERSION c claim ed verifier
        (safepoint_certificate_digest_of DEOPTIMIZATION_CONTRACT_VERSION claim ed verifier)).

Definition BaselineSafepointEvidence_validate (e : BaselineSafepointEvidence) : R () :=
  guard? (be_contract_version e =? DEOPTIMIZATION_CONTRACT_VERSION)%N else SchemaVersionMismatch in
  let? _ := BaselineSafepointClaim_validate (be_claim e) in
  let? _ := require_nonzero [be_evidence_digest e; be_verifier_identity_digest e; be_certificate_digest e] in
  let? d := BaselineSafepointClaim_digest (be_claim e) in
  guard? all_eq
      [(d, be_claim_digest e);
       (be_verifier_identity_digest e, bs_baseline_verifier_identity_digest (be_claim e));
       (safepoint_certificate_digest_of (be_contract_version e) (be_claim_digest e) (be_evidence_digest e)
          (be_verifier_identity_digest e), be_certificate_digest e)]
    else CertificateDigestMismatch in
  Ok ().

Definition BaselineSafepointEvidence_record (e : BaselineSafepointEvidence)
  : BaselineSafepointCertificateRecord := e.
Definition BaselineSafepointCertificateRecord_validate (r : BaselineSafepointCertificateRecord) : R () :=
  BaselineSafepointEvidence_validate r.

Definition BaselineSafepointCertificateRecord_canonical_bytes (r : BaselineSafepointCertificateRecord)
  : R bytes :=
  let? _ := BaselineSafepointCertificateRecord_validate r in
  canonical_bytes (jsafepoint_record r).

(** ** Plans *)

Definition plan_digest_of (version : N) (safepoint : Digest) (trigger : DeoptimizationTrigger)
  (action state manifest prior binding admission : Digest) : Digest :=
  digest_value PLAN_DOMAIN (Object
    [("candidate_action_digest", jhex action); ("candidate_closure_manifest_digest", jhex manifest);
     ("candidate_state_digest", jhex state); ("contract_version", jnum version);
     ("kernel_admission_digest", jhex admission); ("kernel_binding_digest", jhex binding);
     ("prior_work_receipt_digest", jhex prior); ("safepoint_certificate_digest", jhex safepoint);
     ("trigger", jtrigger trigger)]).

Definition DeoptimizationPlanClaim_validate (c : DeoptimizationPlanClaim) : R () :=
  guard? bool_decide (pc_schema_version c = DEOPTIMIZATION_PLAN_SCHEMA_VERSION) else SchemaVersionMismatch in
  let? _ := require_nonzero
    [pc_safepoint_certificate_digest c; pc_candidate_action_digest c; pc_candidate_state_digest c;
     pc_candidate_closure_manifest_digest c; pc_prior_work_receipt_digest c; pc_kernel_binding_digest c;
     pc_kernel_admission_digest c; pc_plan_digest c] in
  guard? bool_decide
      (plan_digest_of DEOPTIMIZATION_CONTRACT_VERSION (pc_safepoint_certificate_digest c) (pc_trigger c)
         (pc_candidate_action_digest c) (pc_candidate_state_digest c)
         (pc_candidate_closure_manifest_digest c) (pc_prior_work_receipt_digest c)
         (pc_kernel_binding_digest c) (pc_kernel_admission_digest c) = pc_plan_digest c)
    else PlanDigestMismatch in
  Ok ().

Definition DeoptimizationPlanClaim_canonical_bytes (c : DeoptimizationPlanClaim) : R bytes :=
  let? _ := DeoptimizationPlanClaim_validate c in
  canonical_bytes (jplan_claim c).

Definition DeoptimizationPlanClaim_from_canonical_bytes `{FromSlice DeoptimizationPlanClaim} (b : bytes)
  : R DeoptimizationPlanClaim :=
  let? c := decode_canonical jplan_claim b in
  let? _ := DeoptimizationPlanClaim_validate c in
  Ok c.

Definition plan_expected_digest (p : DeoptimizationPlan) : Digest :=
  plan_digest_of (dp_contract_version p) (be_certificate_digest (dp_safepoint p)) (dp_trigger p)
    (dp_candidate_action_digest p) (dp_candidate_state_digest p) (dp_candidate_closure_manifest_digest p)
    (dp_prior_work_receipt_digest p) (dp_kernel_binding_digest p) (dp_kernel_admission_digest p).

Definition DeoptimizationPlan_validate (p : DeoptimizationPlan) : R () :=
  guard? (dp_contract_version p =? DEOPTIMIZATION_CONTRACT_VERSION)%N else SchemaVersionMismatch in
  let? _ := BaselineSafepointEvidence_validate (dp_safepoint p) in
  let? _ := require_nonzero
    [dp_candidate_action_digest p; dp_candidate_state_digest p; dp_candidate_closure_manifest_digest p;
     dp_prior_work_receipt_digest p; dp_kernel_binding_digest p; dp_kernel_admission_digest p] in
  guard? bool_decide (plan_expected_digest p = dp_plan_digest p) else PlanDigestMismatch in
  Ok ().

Definition DeoptimizationPlan_new (safepoint : BaselineSafepointEvidence) (trigger : DeoptimizationTrigger)
  (action state manifest prior binding admission : Digest) : R DeoptimizationPlan :=
  let? _ := BaselineSafepointEvidence_validate safepoint in
  let? _ := require_nonzero [action; state; manifest; prior; binding; admission] in
  let plan d := mkPlan DEOPTIMIZATION_CONTRACT_VERSION safepoint trigger action state manifest prior
    binding admission d in
  let p := plan (plan_expected_digest (plan ZERO)) in
  let? _ := DeoptimizationPlan_validate p in
  Ok p.

Definition for_recovery_unknown (safepoint : BaselineSafepointEvidence) (unknown : Recovery.RecoveryUnknownDecision)
  (action state manifest prior binding admission : Digest) : R DeoptimizationPlan :=
  guard? Recovery.ud_raw_baseline_required unknown &&
         bool_decide (Recovery.ud_fallback_safepoint unknown = be_certificate_digest safepoint)
    else TriggerMismatch in
  DeoptimizationPlan_new safepoint (RecoveryUnknown (Recovery.ud_problem_digest unknown) (Recovery.ud_decision_digest unknown))
    action state manifest prior binding admission.

Definition for_quality_fallback (safepoint : BaselineSafepointEvidence)
  (admission_record : Quality.QualityAdmission) (action state manifest prior binding admission : Digest)
  : R DeoptimizationPlan :=
  let? _ := map_err TriggerMismatch (Quality.QualityAdmissionRecord_validate admission_record) in
  guard? bool_decide (Quality.selection admission_record = Quality.FrozenBaselineSelected) &&
         bool_decide (Quality.raw_baseline_identity_digest admission_record =
                      bs_raw_baseline_identity_digest (be_claim safepoint))
    else TriggerMismatch in
  DeoptimizationPlan_new safepoint (QualityBaselineSelection (Quality.admission_digest admission_record))
    action state manifest prior binding admission.

Definition for_fail_closed (safepoint : BaselineSafepointEvidence) (code : KernelCore.FailureCode)
  (receipt : Digest) (action state manifest prior binding admission : Digest) : R DeoptimizationPlan :=
  let? _ := require_nonzero [receipt] in
  DeoptimizationPlan_new safepoint (FailClosed code receipt) action state manifest prior binding admission.

Definition plan_claim (p : DeoptimizationPlan) : DeoptimizationPlanClaim :=
  mkPlanClaim DEOPTIMIZATION_PLAN_SCHEMA_VERSION (be_certificate_digest (dp_safepoint p)) (dp_trigger p)
    (dp_candidate_action_digest p) (dp_candidate_state_digest p) (dp_candidate_closure_manifest_digest p)
    (dp_prior_work_receipt_digest p) (dp_kernel_binding_digest p) (dp_kernel_admission_digest p)
    (dp_plan_digest p).

Definition DeoptimizationPlan_record (p : DeoptimizationPlan) : DeoptimizationPlanRecord := p.

Definition DeoptimizationPlanRecord_validate (p : DeoptimizationPlanRecord) : R () :=
  let? _ := BaselineSafepointCertificateRecord_validate (dp_safepoint p) in
  let? _ := DeoptimizationPlanClaim_validate (plan_claim p) in
  guard? (dp_contract_version p =? DEOPTIMIZATION_CONTRACT_VERSION)%N &&
         bool_decide (plan_expected_digest p = dp_plan_digest p)
    else PlanDigestMismatch in
  Ok ().

(** ** Restoration *)

Definition BaselineRestorationClaim_validate (c : BaselineRestorationClaim) : R () :=
  guard? bool_decide (rc_schema_version c = BASELINE_RESTORATION_SCHEMA_VERSION) else SchemaVersionMismatch in
  let? _ := require_nonzero
    [rc_plan_digest c; rc_safepoint_certificate_digest c; rc_transaction_receipt_digest c;
     rc_restored_project_root c; rc_restored_external_inventory_digest c;
     rc_restored_reasoning_contract_digest c; rc_restored_fixed_model_digest c;
     rc_restored_reasoning_entry_digest c; rc_raw_baseline_identity_digest c;
     rc_raw_baseline_input_digest c; rc_raw_decision_view_digest c;
     rc_candidate_overlay_disposition_digest c; rc_visible_buffer_disposition_digest c;
     rc_prior_receipt_head_digest c; rc_successor_receipt_head_digest c;
     rc_restoration_verifier_identity_digest c] in
  reject? bool_decide (rc_successor_receipt_head_digest c = rc_prior_receipt_head_digest c)
    with ReceiptChainMismatch in
  RouteUsage_validate (rc_deoptimization_usage c).

Definition BaselineRestorationClaim_new (p : DeoptimizationPlan) (transaction overlay visible successor
  verifier : Digest) (usage : RouteUsage) : R BaselineRestorationClaim :=
  let s := be_claim (dp_safepoint p) in
  let? entry := entry_digest (bs_reasoning_entry s) in
  let c := mkRestorationClaim BASELINE_RESTORATION_SCHEMA_VERSION (dp_plan_digest p)
    (be_certificate_digest (dp_safepoint p)) transaction (bs_project_snapshot_root s)
    (bs_external_state_inventory_digest s) (bs_baseline_reasoning_contract_digest s)
    (Reasoning.model_identity (bs_baseline_reasoning_contract s)) entry (bs_raw_baseline_identity_digest s)
    (bs_raw_baseline_input_digest s) (bs_raw_decision_view_digest s) overlay visible
    (bs_capture_receipt_head_digest s) successor verifier usage in
  let? _ := BaselineRestorationClaim_validate c in
  Ok c.

Definition BaselineRestorationClaim_canonical_bytes (c : BaselineRestorationClaim) : R bytes :=
  let? _ := BaselineRestorationClaim_validate c in
  canonical_bytes (jrestoration_claim c).

Definition BaselineRestorationClaim_from_canonical_bytes `{FromSlice BaselineRestorationClaim} (b : bytes)
  : R BaselineRestorationClaim :=
  let? c := decode_canonical jrestoration_claim b in
  let? _ := BaselineRestorationClaim_validate c in
  Ok c.

Definition BaselineRestorationClaim_digest (c : BaselineRestorationClaim) : R Digest :=
  let? b := BaselineRestorationClaim_canonical_bytes c in
  Ok (concat_digest RESTORATION_CLAIM_DOMAIN b).

Definition resume_permit_digest (plan claim transaction evidence verifier : Digest) : Digest :=
  digest_value RESUME_PERMIT_DOMAIN (Object
    [("contract_version", jnum DEOPTIMIZATION_CONTRACT_VERSION); ("evidence_digest", jhex evidence);
     ("plan_digest", jhex plan); ("restoration_claim_digest", jhex claim);
     ("transaction_receipt_digest", jhex transaction); ("verifier_identity_digest", jhex verifier)]).

(** What both replays of a resume permit compare. *)
Definition permit_bindings (p : BaselineResumePermit) (claim : Digest) : list (Digest * Digest) :=
  let s := be_claim (dp_safepoint (rp_plan p)) in
  let t := rp_restored_transaction p in
  [(claim, rp_restoration_claim_digest p);
   (rs_receipt_digest t, rc_transaction_receipt_digest (rp_restoration_claim p));
   (rs_action_digest t, dp_candidate_action_digest (rp_plan p));
   (rs_closure_manifest_digest t, dp_candidate_closure_manifest_digest (rp_plan p));
   (rs_baseline_state t, bs_project_snapshot_root s);
   (rs_candidate_state t, dp_candidate_state_digest (rp_plan p));
   (rs_external_inventory_digest t, bs_external_state_inventory_digest s);
   (rp_verifier_identity_digest p, rc_restoration_verifier_identity_digest (rp_restoration_claim p));
   (resume_permit_digest (dp_plan_digest (rp_plan p)) (rp_restoration_claim_digest p) (rs_receipt_digest t)
      (rp_evidence_digest p) (rp_verifier_identity_digest p), rp_permit_digest p)].

Definition BaselineResumePermit_validate (p : BaselineResumePermit) : R () :=
  guard? (rp_contract_version p =? DEOPTIMIZATION_CONTRACT_VERSION)%N else SchemaVersionMismatch in
  let? _ := DeoptimizationPlan_validate (rp_plan p) in
  let? _ := BaselineRestorationClaim_validate (rp_restoration_claim p) in
  let? _ := require_nonzero
    [rp_restoration_claim_digest p; rp_evidence_digest p; rp_verifier_identity_digest p; rp_permit_digest p] in
  let? claim := BaselineRestorationClaim_digest (rp_restoration_claim p) in
  guard? all_eq (permit_bindings p claim) else CertificateDigestMismatch in
  Ok ().

Definition BaselineResumeReceiptRecord_validate (p : BaselineResumeReceiptRecord) : R () :=
  let? _ := DeoptimizationPlanRecord_validate (rp_plan p) in
  let c := rp_restoration_claim p in
  let? _ := BaselineRestorationClaim_validate c in
  guard? (rp_contract_version p =? DEOPTIMIZATION_CONTRACT_VERSION)%N &&
         all_eq [(rc_plan_digest c, dp_plan_digest (rp_plan p));
                 (rc_safepoint_certificate_digest c, be_certificate_digest (dp_safepoint (rp_plan p)))]
    else CertificateDigestMismatch in
  let? claim := BaselineRestorationClaim_digest c in
  guard? all_eq (permit_bindings p claim) else CertificateDigestMismatch in
  Ok ().

Definition restored_record (t : TransactionReceipt) : RestoredTransactionRecord :=
  mkRestored (GateTransaction.receipt_digest t) (GateTransaction.action_digest t)
    (GateTransaction.closure_manifest_digest t) (GateTransaction.baseline_state t)
    (GateTransaction.candidate_state t) (GateTransaction.external_inventory_digest t)
    (GateTransaction.resource_count t) (GateTransaction.external_resource_count t)
    (GateTransaction.recovery_outcome t).

Definition verify_restoration (p : DeoptimizationPlan) (t : TransactionReceipt) (c : BaselineRestorationClaim)
  (evidence : VerifiedEvidence) : R BaselineResumePermit :=
  let? _ := DeoptimizationPlan_validate p in
  let? _ := BaselineRestorationClaim_validate c in
  let? _ := map_err TransactionMismatch (GateTransaction.TransactionReceipt_canonical_bytes t) in
  let s := be_claim (dp_safepoint p) in
  guard? bool_decide (GateTransaction.disposition t = GateTransaction.BaselineRootRecovered) &&
         bool_decide (GateTransaction.restoration_scope t = GateTransaction.DeclaredEffectClosure) &&
         (GateTransaction.external_restoration_debt_count t =? 0)%N &&
         all_eq
           [(GateTransaction.baseline_state t, bs_project_snapshot_root s);
            (GateTransaction.observed_root t, bs_project_snapshot_root s);
            (GateTransaction.external_inventory_digest t, bs_external_state_inventory_digest s);
            (GateTransaction.action_digest t, dp_candidate_action_digest p);
            (GateTransaction.candidate_state t, dp_candidate_state_digest p);
            (GateTransaction.closure_manifest_digest t, dp_candidate_closure_manifest_digest p);
            (GateTransaction.receipt_digest t, rc_transaction_receipt_digest c)]
    else TransactionMismatch in
  guard? all_eq
      [(rc_plan_digest c, dp_plan_digest p);
       (rc_safepoint_certificate_digest c, be_certificate_digest (dp_safepoint p));
       (rc_restored_project_root c, bs_project_snapshot_root s);
       (rc_restored_external_inventory_digest c, bs_external_state_inventory_digest s);
       (rc_restored_reasoning_contract_digest c, bs_baseline_reasoning_contract_digest s);
       (rc_restored_fixed_model_digest c, Reasoning.model_identity (bs_baseline_reasoning_contract s))]
    else RestorationMismatch in
  let? entry := entry_digest (bs_reasoning_entry s) in
  guard? all_eq
      [(rc_restored_reasoning_entry_digest c, entry);
       (rc_raw_baseline_identity_digest c, bs_raw_baseline_identity_digest s);
       (rc_raw_baseline_input_digest c, bs_raw_baseline_input_digest s);
       (rc_raw_decision_view_digest c, bs_raw_decision_view_digest s);
       (rc_prior_receipt_head_digest c, bs_capture_receipt_head_digest s)]
    else RestorationMismatch in
  guard? route_within (rc_deoptimization_usage c) (fr_deoptimization_envelope (bs_reserve s))
           (fr_deoptimization_work_limit (bs_reserve s))
    else ResourceReserveExceeded in
  let? b := BaselineRestorationClaim_canonical_bytes c in
  let? _ := verify_exact_successful_payload b evidence in
  let verifier := deoptimization_verifier_identity evidence in
  guard? bool_decide (verifier = rc_restoration_verifier_identity_digest c) else VerifierIdentityMismatch in
  let? claim := BaselineRestorationClaim_digest c in
  let ed := verified_evidence_digest evidence in
  let permit := mkResume DEOPTIMIZATION_CONTRACT_VERSION p c (restored_record t) claim ed verifier
    (resume_permit_digest (dp_plan_digest p) claim (GateTransaction.receipt_digest t) ed verifier) in
  let? _ := BaselineResumePermit_validate permit in
  Ok permit.

Definition BaselineResumePermit_record (p : BaselineResumePermit) : BaselineResumeReceiptRecord := p.

Definition BaselineResumeReceiptRecord_canonical_bytes (r : BaselineResumeReceiptRecord) : R bytes :=
  let? _ := BaselineResumeReceiptRecord_validate r in
  canonical_bytes (jresume_record r).

Definition BaselineResumeReceiptRecord_from_canonical_bytes `{FromSlice BaselineResumePermit} (b : bytes)
  : R BaselineResumeReceiptRecord :=
  let? r := decode_canonical jresume_record b in
  let? _ := BaselineResumeReceiptRecord_validate r in
  Ok r.

(** ** The frozen invocation *)

(** The [json!] object that both invocation digests hash. *)
Definition invocation_value (assembly : Digest) (contract : ReasoningContract) (contract_digest verifier
  comparison : Digest) (version : N) (effects predecessor project : Digest) (envelope : WorkerEnvelope)
  (identity input : Digest) (work : RaccWork) (view engine : Digest) (entry : BaselineReasoningEntry)
  (permit sampler transaction : Digest) : Value :=
  Object
    [("assembly_contract_digest", jhex assembly); ("baseline_reasoning_contract", jcontract contract);
     ("baseline_reasoning_contract_digest", jhex contract_digest);
     ("baseline_verifier_identity_digest", jhex verifier); ("comparison_identity_digest", jhex comparison);
     ("contract_version", jnum version); ("effect_schema_digest", jhex effects);
     ("predecessor_receipt_head_digest", jhex predecessor); ("project_snapshot_root", jhex project);
     ("raw_baseline_envelope", jenvelope envelope); ("raw_baseline_identity_digest", jhex identity);
     ("raw_baseline_input_digest", jhex input); ("raw_baseline_work_limit", jwork work);
     ("raw_decision_view_digest", jhex view); ("baseline_engine_contract_digest", jhex engine);
     ("reasoning_entry", jentry entry); ("resume_permit_digest", jhex permit);
     ("sampler_randomness_identity_digest", jhex sampler); ("transaction_receipt_digest", jhex transaction)].

Definition invocation_expected_digest (i : FrozenBaselineInvocation) : Digest :=
  digest_value INVOCATION_DOMAIN
    (invocation_value (fi_assembly_contract_digest i) (fi_baseline_reasoning_contract i)
       (fi_baseline_reasoning_contract_digest i) (fi_baseline_verifier_identity_digest i)
       (fi_comparison_identity_digest i) (fi_contract_version i) (fi_effect_schema_digest i)
       (fi_predecessor_receipt_head_digest i) (fi_project_snapshot_root i) (fi_raw_baseline_envelope i)
       (fi_raw_baseline_identity_digest i) (fi_raw_baseline_input_digest i) (fi_raw_baseline_work_limit i)
       (fi_raw_decision_view_digest i) (fi_baseline_engine_contract_digest i) (fi_reasoning_entry i)
       (fi_resume_permit_digest i) (fi_sampler_randomness_identity_digest i)
       (fi_transaction_receipt_digest i)).

Definition baseline_invocation_digest_from_resume_record (r : BaselineResumeReceiptRecord) : R Digest :=
  let? _ := BaselineResumeReceiptRecord_validate r in
  let s := be_claim (dp_safepoint (rp_plan r)) in
  Ok (digest_value INVOCATION_DOMAIN
    (invocation_value (bs_assembly_contract_digest s) (bs_baseline_reasoning_contract s)
       (bs_baseline_reasoning_contract_digest s) (bs_baseline_verifier_identity_digest s)
       (bs_comparison_identity_digest s) DEOPTIMIZATION_CONTRACT_VERSION (bs_effect_schema_digest s)
       (rc_successor_receipt_head_digest (rp_restoration_claim r)) (bs_project_snapshot_root s)
       (fr_raw_baseline_envelope (bs_reserve s)) (bs_raw_baseline_identity_digest s)
       (bs_raw_baseline_input_digest s) (fr_raw_baseline_work_limit (bs_reserve s))
       (bs_raw_decision_view_digest s) (bs_baseline_engine_contract_digest s) (bs_reasoning_entry s)
       (rp_permit_digest r) (bs_sampler_randomness_identity_digest s)
       (rs_receipt_digest (rp_restored_transaction r)))).

Definition FrozenBaselineInvocation_validate (i : FrozenBaselineInvocation) : R () :=
  guard? (fi_contract_version i =? DEOPTIMIZATION_CONTRACT_VERSION)%N else SchemaVersionMismatch in
  let? _ := BaselineResumeReceiptRecord_validate (fi_resume_record i) in
  guard? all_eq
      [(rp_permit_digest (fi_resume_record i), fi_resume_permit_digest i);
       (rs_receipt_digest (rp_restored_transaction (fi_resume_record i)), fi_transaction_receipt_digest i);
       (rc_successor_receipt_head_digest (rp_restoration_claim (fi_resume_record i)),
        fi_predecessor_receipt_head_digest i)]
    else SafepointBindingMismatch in
  let? _ := require_nonzero
    [fi_resume_permit_digest i; fi_predecessor_receipt_head_digest i; fi_transaction_receipt_digest i;
     fi_project_snapshot_root i; fi_raw_baseline_identity_digest i; fi_raw_baseline_input_digest i;
     fi_raw_decision_view_digest i; fi_comparison_identity_digest i; fi_assembly_contract_digest i;
     fi_baseline_engine_contract_digest i; fi_effect_schema_digest i;
     fi_baseline_reasoning_contract_digest i; fi_sampler_randomness_identity_digest i;
     fi_baseline_verifier_identity_digest i] in
  let? _ := map_err ReasoningContractInvalid (Reasoning.validate (fi_baseline_reasoning_contract i)) in
  let? _ := validate_envelope (fi_raw_baseline_envelope i) in
  let? _ := validate_limit (fi_raw_baseline_work_limit i) in
  let? cd := contract_digest (fi_baseline_reasoning_contract i) in
  guard? all_eq [(cd, fi_baseline_reasoning_contract_digest i);
                 (invocation_expected_digest i, fi_invocation_digest i)]
    else CertificateDigestMismatch in
  let? replayed := baseline_invocation_digest_from_resume_record (fi_resume_record i) in
  guard? bool_decide (replayed = fi_invocation_digest i) else CertificateDigestMismatch in
  Ok ().

Definition into_invocation (p : BaselineResumePermit) : R FrozenBaselineInvocation :=
  let? _ := BaselineResumePermit_validate p in
  let s := be_claim (dp_safepoint (rp_plan p)) in
  let invocation d := mkInvocation (BaselineResumePermit_record p) DEOPTIMIZATION_CONTRACT_VERSION
    (rp_permit_digest p) (rc_successor_receipt_head_digest (rp_restoration_claim p))
    (rs_receipt_digest (rp_restored_transaction p)) (bs_project_snapshot_root s)
    (bs_raw_baseline_identity_digest s) (bs_raw_baseline_input_digest s) (bs_raw_decision_view_digest s)
    (bs_comparison_identity_digest s) (bs_assembly_contract_digest s)
    (bs_baseline_engine_contract_digest s) (bs_effect_schema_digest s)
    (bs_baseline_reasoning_contract s) (bs_baseline_reasoning_contract_digest s) (bs_reasoning_entry s)
    (bs_sampler_randomness_identity_digest s) (bs_baseline_verifier_identity_digest s)
    (fr_raw_baseline_envelope (bs_reserve s)) (fr_raw_baseline_work_limit (bs_reserve s)) d in
  let i := invocation (invocation_expected_digest (invocation ZERO)) in
  let? _ := FrozenBaselineInvocation_validate i in
  Ok i.

(** ** The execution receipt *)

Definition BaselineExecutionClaim_validate (c : BaselineExecutionClaim) : R () :=
  guard? bool_decide (ec_schema_version c = BASELINE_EXECUTION_SCHEMA_VERSION) else SchemaVersionMismatch in
  let? _ := require_nonzero
    [ec_invocation_digest c; ec_resume_permit_digest c; ec_transaction_receipt_digest c;
     ec_project_snapshot_root c; ec_raw_baseline_identity_digest c; ec_raw_baseline_input_digest c;
     ec_raw_decision_view_digest c; ec_baseline_reasoning_contract_digest c; ec_reasoning_entry_digest c;
     ec_predecessor_receipt_head_digest c; ec_output_digest c; ec_effects_digest c;
     ec_baseline_action_digest c; ec_baseline_acceptance_digest c; ec_baseline_successor_root c;
     ec_baseline_transaction_receipt_digest c; ec_successor_receipt_head_digest c;
     ec_execution_verifier_identity_digest c] in
  let? _ := RouteUsage_validate (ec_raw_baseline_usage c) in
  reject? bool_decide (ec_successor_receipt_head_digest c = ec_predecessor_receipt_head_digest c)
    with ReceiptChainMismatch in
  Ok ().

Definition BaselineExecutionClaim_new (i : FrozenBaselineInvocation) (output effects action acceptance
  successor_root transaction : Digest) (usage : RouteUsage) (successor_head verifier : Digest)
  : R BaselineExecutionClaim :=
  let? _ := FrozenBaselineInvocation_validate i in
  let? entry := entry_digest (fi_reasoning_entry i) in
  let c := mkExecutionClaim BASELINE_EXECUTION_SCHEMA_VERSION (fi_invocation_digest i)
    (fi_resume_permit_digest i) (fi_transaction_receipt_digest i) (fi_project_snapshot_root i)
    (fi_raw_baseline_identity_digest i) (fi_raw_baseline_input_digest i) (fi_raw_decision_view_digest i)
    (fi_baseline_reasoning_contract_digest i) entry (fi_predecessor_receipt_head_digest i) output effects
    action acceptance successor_root transaction usage successor_head verifier in
  let? _ := BaselineExecutionClaim_validate c in
  guard? route_within (ec_raw_baseline_usage c) (fi_raw_baseline_envelope i) (fi_raw_baseline_work_limit i)
    else ResourceReserveExceeded in
  Ok c.

Definition BaselineExecutionClaim_canonical_bytes (c : BaselineExecutionClaim) : R bytes :=
  let? _ := BaselineExecutionClaim_validate c in
  canonical_bytes (jexecution_claim c).

Definition BaselineExecutionClaim_from_canonical_bytes `{FromSlice BaselineExecutionClaim} (b : bytes)
  : R BaselineExecutionClaim :=
  let? c := decode_canonical jexecution_claim b in
  let? _ := BaselineExecutionClaim_validate c in
  Ok c.

Definition BaselineExecutionClaim_digest (c : BaselineExecutionClaim) : R Digest :=
  let? b := BaselineExecutionClaim_canonical_bytes c in
  Ok (concat_digest EXECUTION_CLAIM_DOMAIN b).

Definition baseline_execution_receipt_digest (permit invocation claim evidence verifier : Digest) : Digest :=
  digest_value EXECUTION_RECEIPT_DOMAIN (Object
    [("evidence_digest", jhex evidence); ("execution_claim_digest", jhex claim);
     ("invocation_digest", jhex invocation); ("resume_permit_digest", jhex permit);
     ("verifier_identity_digest", jhex verifier)]).

Definition BaselineExecutionReceiptRecord_validate (x : BaselineExecutionReceiptRecord) : R () :=
  let r := xr_receipt x in
  let resume := er_resume_record r in
  let c := er_execution_claim r in
  let? _ := BaselineResumeReceiptRecord_validate resume in
  let? _ := BaselineExecutionClaim_validate c in
  let s := be_claim (dp_safepoint (rp_plan resume)) in
  guard? (xr_contract_version x =? DEOPTIMIZATION_CONTRACT_VERSION)%N else CertificateDigestMismatch in
  let? replayed := baseline_invocation_digest_from_resume_record resume in
  guard? all_eq
      [(replayed, er_invocation_digest r); (ec_resume_permit_digest c, rp_permit_digest resume);
       (ec_invocation_digest c, er_invocation_digest r);
       (ec_transaction_receipt_digest c, rs_receipt_digest (rp_restored_transaction resume));
       (ec_project_snapshot_root c, bs_project_snapshot_root s);
       (ec_raw_baseline_identity_digest c, bs_raw_baseline_identity_digest s);
       (ec_raw_baseline_input_digest c, bs_raw_baseline_input_digest s);
       (ec_raw_decision_view_digest c, bs_raw_decision_view_digest s);
       (ec_baseline_reasoning_contract_digest c, bs_baseline_reasoning_contract_digest s)]
    else CertificateDigestMismatch in
  let? entry := entry_digest (bs_reasoning_entry s) in
  guard? all_eq
      [(ec_reasoning_entry_digest c, entry);
       (ec_predecessor_receipt_head_digest c, rc_successor_receipt_head_digest (rp_restoration_claim resume))]
    else CertificateDigestMismatch in
  let? cd := BaselineExecutionClaim_digest c in
  guard? all_eq
      [(cd, er_execution_claim_digest r);
       (er_verifier_identity_digest r, ec_execution_verifier_identity_digest c);
       (baseline_execution_receipt_digest (rp_permit_digest resume) (er_invocation_digest r)
          (er_execution_claim_digest r) (er_evidence_digest r) (er_verifier_identity_digest r),
        er_receipt_digest r)]
    else CertificateDigestMismatch in
  Ok ().

Definition BaselineExecutionReceipt_record (r : BaselineExecutionReceipt) : BaselineExecutionReceiptRecord :=
  mkExecutionRecord DEOPTIMIZATION_CONTRACT_VERSION r.

Definition BaselineExecutionReceipt_validate (r : BaselineExecutionReceipt) : R () :=
  BaselineExecutionReceiptRecord_validate (BaselineExecutionReceipt_record r).

Definition verify_execution (i : FrozenBaselineInvocation) (c : BaselineExecutionClaim)
  (evidence : VerifiedEvidence) : R BaselineExecutionReceipt :=
  let? _ := FrozenBaselineInvocation_validate i in
  let? _ := BaselineExecutionClaim_validate c in
  guard? all_eq
      [(ec_invocation_digest c, fi_invocation_digest i); (ec_resume_permit_digest c, fi_resume_permit_digest i);
       (ec_transaction_receipt_digest c, fi_transaction_receipt_digest i);
       (ec_project_snapshot_root c, fi_project_snapshot_root i);
       (ec_raw_baseline_identity_digest c, fi_raw_baseline_identity_digest i);
       (ec_raw_baseline_input_digest c, fi_raw_baseline_input_digest i);
       (ec_raw_decision_view_digest c, fi_raw_decision_view_digest i);
       (ec_baseline_reasoning_contract_digest c, fi_baseline_reasoning_contract_digest i)]
    else BaselineExecutionMismatch in
  let? entry := entry_digest (fi_reasoning_entry i) in
  guard? all_eq
      [(ec_reasoning_entry_digest c, entry);
       (ec_predecessor_receipt_head_digest c, fi_predecessor_receipt_head_digest i)]
    else BaselineExecutionMismatch in
  guard? route_within (ec_raw_baseline_usage c) (fi_raw_baseline_envelope i) (fi_raw_baseline_work_limit i)
    else ResourceReserveExceeded in
  let? b := BaselineExecutionClaim_canonical_bytes c in
  let? _ := verify_exact_successful_payload b evidence in
  let verifier := deoptimization_verifier_identity evidence in
  guard? bool_decide (verifier = ec_execution_verifier_identity_digest c) else VerifierIdentityMismatch in
  let? claim := BaselineExecutionClaim_digest c in
  let ed := verified_evidence_digest evidence in
  let resume := fi_resume_record i in
  let r := mkExecutionReceipt resume (fi_invocation_digest i) c claim ed verifier
    (baseline_execution_receipt_digest (rp_permit_digest resume) (fi_invocation_digest i) claim ed verifier) in
  let? _ := BaselineExecutionReceipt_validate r in
  Ok r.

Definition BaselineExecutionReceiptRecord_canonical_bytes (x : BaselineExecutionReceiptRecord) : R bytes :=
  let? _ := BaselineExecutionReceiptRecord_validate x in
  canonical_bytes (jexecution_record x).

Definition BaselineExecutionReceiptRecord_from_canonical_bytes `{FromSlice BaselineExecutionReceiptRecord}
  (b : bytes) : R BaselineExecutionReceiptRecord :=
  let? x := decode_canonical jexecution_record b in
  let? _ := BaselineExecutionReceiptRecord_validate x in
  Ok x.
End Route.
