(* ===== verification/DeoptTheorems.v ===== *)
(** The deoptimization route is exact and never dead-ends: what a baseline
    execution receipt proves about the restored transaction, the frozen
    safepoint and the resources charged, and that every verified restoration
    can be invoked and its verified execution receipted. *)

From S2P Require Import Prelude.
From S2P Require Import Canonical.
From S2P Require Import DurableStore.
From S2P Require Import Identity.
From S2P Require Evidence.
From S2P Require Reasoning.
From S2P Require SemanticCut.
From S2P Require GateTransaction.
From S2P Require KernelCore.
From S2P Require Import Deoptimization.

(** Take the elements of a [Forall] over a literal list apart. *)
Ltac split_forall :=
  repeat match goal with
  | Hl : Forall _ (_ :: _) |- _ => apply Forall_cons_iff in Hl as [? Hl]
  | |- Forall _ (_ :: _) => apply Forall_cons_iff; split
  | |- Forall _ [] => constructor
  end.

Section Lemmas.
Context `{Platform, Codec ReasoningContract, Codec VerifiedEvidence}.

Lemma all_eq_spec l : all_eq l = true <-> Forall (fun p => fst p = snd p) l.
Proof.
  unfold all_eq. induction l as [|p l IH]; cbn [forallb]; [split; [constructor|done]|].
  rewrite andb_true_iff, bool_decide_eq_true, IH. symmetry. apply Forall_cons_iff.
Qed.

Lemma digests_nonzero_Ok l : require_nonzero l = Ok () <-> Forall (fun d => zero_digest d = false) l.
Proof.
  unfold require_nonzero. induction l as [|d l IH]; cbn; [split; [constructor|done]|].
  rewrite Forall_cons_iff, <- IH. destruct (zero_digest d), (existsb zero_digest l); naive_solver.
Qed.

Lemma payload_Ok b evidence :
  verify_exact_successful_payload b evidence = Ok () <->
  SemanticCut.successful_receipt evidence = true /\ Evidence.payload evidence = b.
Proof. unfold verify_exact_successful_payload. rewrite !guard_Ok, bool_decide_eq_true. naive_solver. Qed.

(** A validated plan's public record replays. *)
Lemma plan_record_validates p :
  zero_digest (dp_plan_digest p) = false ->
  DeoptimizationPlan_validate p = Ok () -> DeoptimizationPlanRecord_validate p = Ok ().
Proof.
  intros Hz Hp. unfold DeoptimizationPlan_validate in Hp.
  rewrite guard_Ok, !bind_unit_Ok, guard_Ok in Hp. destruct Hp as (Hv & Hs & Hn & Hd & _).
  apply N.eqb_eq in Hv. apply bool_decide_eq_true in Hd.
  unfold DeoptimizationPlanRecord_validate, DeoptimizationPlanClaim_validate, plan_claim.
  rewrite !bind_unit_Ok, !guard_Ok, bind_unit_Ok, guard_Ok, andb_true_iff, N.eqb_eq, !bool_decide_eq_true.
  cbn [pc_schema_version pc_safepoint_certificate_digest pc_trigger pc_candidate_action_digest
    pc_candidate_state_digest pc_candidate_closure_manifest_digest pc_prior_work_receipt_digest
    pc_kernel_binding_digest pc_kernel_admission_digest pc_plan_digest].
  unfold plan_expected_digest in *. rewrite Hv in *. split_and!; try done.
  unfold BaselineSafepointEvidence_validate in Hs.
  rewrite guard_Ok, !bind_unit_Ok in Hs. destruct Hs as (_ & _ & Hs & _).
  rewrite digests_nonzero_Ok in Hn, Hs |- *. split_forall; done.
Qed.

(** What [verify_restoration] has established when it mints a permit. *)
Record restoration (p : DeoptimizationPlan) (t : TransactionReceipt) (c : BaselineRestorationClaim)
  (evidence : VerifiedEvidence) (r : BaselineResumePermit) : Prop := {
  rest_plan : rp_plan r = p;
  rest_claim : rp_restoration_claim r = c;
  rest_transaction : rp_restored_transaction r = restored_record t;
  rest_recovered : GateTransaction.disposition t = GateTransaction.BaselineRootRecovered;
  rest_scope : GateTransaction.restoration_scope t = GateTransaction.DeclaredEffectClosure;
  rest_debt : GateTransaction.external_restoration_debt_count t = 0%N;
  rest_root : GateTransaction.observed_root t = bs_project_snapshot_root (be_claim (dp_safepoint p));
  rest_action : GateTransaction.action_digest t = dp_candidate_action_digest p;
  rest_bound : rc_plan_digest c = dp_plan_digest p;
  rest_safepoint : rc_safepoint_certificate_digest c = be_certificate_digest (dp_safepoint p);
  rest_entry : entry_digest (bs_reasoning_entry (be_claim (dp_safepoint p))) =
               Ok (rc_restored_reasoning_entry_digest c);
  rest_prior : rc_prior_receipt_head_digest c = bs_capture_receipt_head_digest (be_claim (dp_safepoint p));
  rest_within : route_within (rc_deoptimization_usage c)
                  (fr_deoptimization_envelope (bs_reserve (be_claim (dp_safepoint p))))
                  (fr_deoptimization_work_limit (bs_reserve (be_claim (dp_safepoint p)))) = true;
  rest_payload : BaselineRestorationClaim_canonical_bytes c = Ok (Evidence.payload evidence);
  rest_successful : SemanticCut.successful_receipt evidence = true;
  rest_valid : BaselineResumePermit_validate r = Ok () }.

Lemma verify_restoration_inv p t c evidence r :
  verify_restoration p t c evidence = Ok r -> restoration p t c evidence r.
Proof.
  unfold verify_restoration. intros Hr. repeat inv_ok1.
  apply all_eq_spec in Heqb0. apply all_eq_spec in Heqb1.
  repeat match goal with u : () |- _ => destruct u end.
  match goal with Hp : verify_exact_successful_payload _ _ = Ok _ |- _ => apply payload_Ok in Hp as [? Hp] end.
  breflect. match goal with Ht : all_eq _ = true |- _ => apply all_eq_spec in Ht end.
  split_forall. cbn [fst snd] in *. constructor; try done; congruence.
Qed.

(** The invocation a permit stands for. *)
Definition invocation_of (r : BaselineResumePermit) : FrozenBaselineInvocation :=
  let s := be_claim (dp_safepoint (rp_plan r)) in
  let invocation d := mkInvocation r DEOPTIMIZATION_CONTRACT_VERSION
    (rp_permit_digest r) (rc_successor_receipt_head_digest (rp_restoration_claim r))
    (rs_receipt_digest (rp_restored_transaction r)) (bs_project_snapshot_root s)
    (bs_raw_baseline_identity_digest s) (bs_raw_baseline_input_digest s) (bs_raw_decision_view_digest s)
    (bs_comparison_identity_digest s) (bs_assembly_contract_digest s)
    (bs_baseline_engine_contract_digest s) (bs_effect_schema_digest s)
    (bs_baseline_reasoning_contract s) (bs_baseline_reasoning_contract_digest s) (bs_reasoning_entry s)
    (bs_sampler_randomness_identity_digest s) (bs_baseline_verifier_identity_digest s)
    (fr_raw_baseline_envelope (bs_reserve s)) (fr_raw_baseline_work_limit (bs_reserve s)) d in
  invocation (invocation_expected_digest (invocation ZERO)).

Lemma into_invocation_inv r i : into_invocation r = Ok i -> i = invocation_of r.
Proof. unfold into_invocation. intros Hi. repeat inv_ok1. done. Qed.

Section Permit.
Context (r : BaselineResumePermit) (Hvalid : BaselineResumePermit_validate r = Ok ())
  (Hplan : rc_plan_digest (rp_restoration_claim r) = dp_plan_digest (rp_plan r))
  (Hsafe : rc_safepoint_certificate_digest (rp_restoration_claim r) =
           be_certificate_digest (dp_safepoint (rp_plan r))).

Lemma resume_record_validates : BaselineResumeReceiptRecord_validate r = Ok ().
Proof.
  unfold BaselineResumePermit_validate in Hvalid. rewrite guard_Ok, !bind_unit_Ok in Hvalid.
  destruct Hvalid as (Hv & Hp & Hc & _ & Hd). unfold BaselineResumeReceiptRecord_validate.
  rewrite !bind_unit_Ok, guard_Ok, andb_true_iff. split_and!; try done.
  - apply plan_record_validates; [|done]. rewrite <- Hplan.
    unfold BaselineRestorationClaim_validate in Hc. rewrite guard_Ok, !bind_unit_Ok in Hc.
    destruct Hc as (_ & Hc & _). apply digests_nonzero_Ok in Hc. by split_forall.
  - apply all_eq_spec. by split_forall.
Qed.

Lemma safepoint_claim_valid :
  BaselineSafepointClaim_validate (be_claim (dp_safepoint (rp_plan r))) = Ok ().
Proof.
  unfold BaselineResumePermit_validate, DeoptimizationPlan_validate, BaselineSafepointEvidence_validate in Hvalid.
  rewrite guard_Ok, !bind_unit_Ok, guard_Ok, !bind_unit_Ok, guard_Ok, bind_unit_Ok in Hvalid. tauto.
Qed.

Lemma invocation_nonzero :
  require_nonzero
    (let i := invocation_of r in
     [fi_resume_permit_digest i; fi_predecessor_receipt_head_digest i; fi_transaction_receipt_digest i;
      fi_project_snapshot_root i; fi_raw_baseline_identity_digest i; fi_raw_baseline_input_digest i;
      fi_raw_decision_view_digest i; fi_comparison_identity_digest i; fi_assembly_contract_digest i;
      fi_baseline_engine_contract_digest i; fi_effect_schema_digest i;
      fi_baseline_reasoning_contract_digest i; fi_sampler_randomness_identity_digest i;
      fi_baseline_verifier_identity_digest i]) = Ok ().
Proof.
  pose proof safepoint_claim_valid as Hs. unfold BaselineSafepointClaim_validate in Hs.
  rewrite guard_Ok, !bind_unit_Ok in Hs. destruct Hs as (_ & _ & _ & _ & Hs & _).
  unfold BaselineResumePermit_validate in Hvalid. rewrite guard_Ok, !bind_unit_Ok in Hvalid.
  destruct Hvalid as (_ & _ & Hc & Hn & Hd). repeat inv_ok1. apply all_eq_spec in Heqb.
  unfold BaselineRestorationClaim_validate in Hc. rewrite guard_Ok, !bind_unit_Ok in Hc.
  destruct Hc as (_ & Hc & _). rewrite digests_nonzero_Ok in Hs, Hc, Hn |- *.
  unfold permit_bindings in Heqb. unfold invocation_of. cbn in *. split_forall; cbn [fst snd] in *; try done.
  match goal with E : rs_receipt_digest _ = _ |- _ => by rewrite E end.
Qed.

Lemma into_invocation_Ok : into_invocation r = Ok (invocation_of r).
Proof.
  assert (FrozenBaselineInvocation_validate (invocation_of r) = Ok ()) as Hi.
  { unfold FrozenBaselineInvocation_validate. rewrite guard_Ok, bind_unit_Ok, guard_Ok, !bind_unit_Ok.
    pose proof safepoint_claim_valid as Hs. unfold BaselineSafepointClaim_validate in Hs.
    rewrite guard_Ok, !bind_unit_Ok in Hs. destruct Hs as (_ & Hcontract & _ & Hr & _ & Hcd).
    unfold FallbackReserve_validate in Hr. rewrite !bind_unit_Ok in Hr. destruct Hr as (_ & He & _ & Hw).
    split_and!; [done|exact resume_record_validates| |exact invocation_nonzero|done|done|done|].
    - apply all_eq_spec. by split_forall.
    - apply bind_Ok_inv in Hcd as (cd & Hcd & Heq). repeat inv_ok1. apply all_eq_spec in Heqb. split_forall.
      cbn [fst snd] in *. cbn [fi_baseline_reasoning_contract invocation_of]. rewrite Hcd. cbn [mbind result_bind].
      rewrite guard_Ok. split; [apply all_eq_spec; by split_forall|].
      cbn [fi_resume_record invocation_of]. unfold baseline_invocation_digest_from_resume_record.
      rewrite resume_record_validates. cbn [mbind result_bind]. rewrite guard_Ok, bool_decide_eq_true. done. }
  unfold into_invocation. rewrite Hvalid. cbn [mbind result_bind].
  change (BaselineResumePermit_record r) with r. fold (invocation_of r). by rewrite Hi.
Qed.
End Permit.
End Lemmas.

Section Execution.
Context `{Platform, Codec ReasoningContract, Codec VerifiedEvidence}.

(** What a claim built from an invocation satisfies. *)
Record claims (i : FrozenBaselineInvocation) (c : BaselineExecutionClaim) : Prop := {
  cl_invocation : FrozenBaselineInvocation_validate i = Ok ();
  cl_valid : BaselineExecutionClaim_validate c = Ok ();
  cl_within : route_within (ec_raw_baseline_usage c) (fi_raw_baseline_envelope i)
                (fi_raw_baseline_work_limit i) = true;
  cl_entry : entry_digest (fi_reasoning_entry i) = Ok (ec_reasoning_entry_digest c);
  cl_bound : Forall (fun p => fst p = snd p)
    [(ec_invocation_digest c, fi_invocation_digest i); (ec_resume_permit_digest c, fi_resume_permit_digest i);
     (ec_transaction_receipt_digest c, fi_transaction_receipt_digest i);
     (ec_project_snapshot_root c, fi_project_snapshot_root i);
     (ec_raw_baseline_identity_digest c, fi_raw_baseline_identity_digest i);
     (ec_raw_baseline_input_digest c, fi_raw_baseline_input_digest i);
     (ec_raw_decision_view_digest c, fi_raw_decision_view_digest i);
     (ec_baseline_reasoning_contract_digest c, fi_baseline_reasoning_contract_digest i)];
  cl_head : ec_predecessor_receipt_head_digest c = fi_predecessor_receipt_head_digest i }.

Lemma claim_new_inv i output effects action acceptance root transaction usage head verifier c :
  BaselineExecutionClaim_new i output effects action acceptance root transaction usage head verifier = Ok c ->
  claims i c /\ ec_baseline_successor_root c = root /\ ec_execution_verifier_identity_digest c = verifier.
Proof.
  unfold BaselineExecutionClaim_new. intros Hn. repeat inv_ok1. repeat match goal with u : () |- _ => destruct u end.
  split_and!; [constructor; try done; split_forall; done|done|done].
Qed.

Definition receipt_of (permit : BaselineResumePermit) (c : BaselineExecutionClaim) (ev : VerifiedEvidence)
  : BaselineExecutionReceipt :=
  let claim := concat_digest EXECUTION_CLAIM_DOMAIN (Evidence.payload ev) in
  mkExecutionReceipt permit (fi_invocation_digest (invocation_of permit)) c claim
    (verified_evidence_digest ev) (deoptimization_verifier_identity ev)
    (baseline_execution_receipt_digest (rp_permit_digest permit) (fi_invocation_digest (invocation_of permit))
       claim (verified_evidence_digest ev) (deoptimization_verifier_identity ev)).

Lemma verify_execution_Ok permit :
  BaselineResumePermit_validate permit = Ok () ->
  rc_plan_digest (rp_restoration_claim permit) = dp_plan_digest (rp_plan permit) ->
  rc_safepoint_certificate_digest (rp_restoration_claim permit) =
    be_certificate_digest (dp_safepoint (rp_plan permit)) ->
  forall c ev, claims (invocation_of permit) c ->
  BaselineExecutionClaim_canonical_bytes c = Ok (Evidence.payload ev) ->
  SemanticCut.successful_receipt ev = true ->
  deoptimization_verifier_identity ev = ec_execution_verifier_identity_digest c ->
  verify_execution (invocation_of permit) c ev = Ok (receipt_of permit c ev) /\
  BaselineExecutionReceipt_validate (receipt_of permit c ev) = Ok ().
Proof.
  intros Hvalid Hplan Hsafe c ev [] Hbytes Hok Hver.
  assert (BaselineExecutionClaim_digest c = Ok (concat_digest EXECUTION_CLAIM_DOMAIN (Evidence.payload ev))) as Hcd.
  { unfold BaselineExecutionClaim_digest. by rewrite Hbytes. }
  pose proof (resume_record_validates permit Hvalid Hplan Hsafe) as Hres.
  assert (baseline_invocation_digest_from_resume_record permit = Ok (fi_invocation_digest (invocation_of permit))) as Hd.
  { unfold baseline_invocation_digest_from_resume_record. rewrite Hres. done. }
  assert (BaselineExecutionReceipt_validate (receipt_of permit c ev) = Ok ()) as Hrec.
  { unfold BaselineExecutionReceipt_validate, BaselineExecutionReceiptRecord_validate.
    cbn [xr_receipt xr_contract_version BaselineExecutionReceipt_record receipt_of er_resume_record
      er_execution_claim er_invocation_digest er_execution_claim_digest er_verifier_identity_digest
      er_evidence_digest er_receipt_digest].
    rewrite Hres, cl_valid0. cbn [mbind result_bind]. rewrite guard_Ok. split; [done|].
    rewrite Hd. cbn [mbind result_bind]. split_forall. cbn [fst snd] in *. rewrite guard_Ok. split.
    { apply all_eq_spec. by split_forall. }
    cbn [fi_reasoning_entry invocation_of] in cl_entry0. rewrite cl_entry0. cbn [mbind result_bind]. rewrite guard_Ok.
    split; [apply all_eq_spec; by split_forall|]. rewrite Hcd. cbn [mbind result_bind]. rewrite guard_Ok.
    split; [apply all_eq_spec; by split_forall|done]. }
  split; [|done]. unfold verify_execution.
  rewrite cl_invocation0, cl_valid0. cbn [mbind result_bind]. rewrite guard_Ok. split; [by apply all_eq_spec|].
  rewrite cl_entry0. cbn [mbind result_bind]. rewrite guard_Ok.
  split; [apply all_eq_spec; by split_forall|]. rewrite guard_Ok. split; [done|].
  rewrite Hbytes. cbn [mbind result_bind]. rewrite bind_unit_Ok, payload_Ok. split; [done|].
  rewrite guard_Ok, bool_decide_eq_true. split; [done|]. rewrite Hcd. cbn [mbind result_bind].
  rewrite bind_unit_Ok. split; [exact Hrec|done].
Qed.
End Execution.

Section Theorems.
Context `{Platform, Codec ReasoningContract, Codec VerifiedEvidence}.

(** Every coordinate of a leg's usage is inside its envelope and work limit. *)
Definition inside_reserve (u : RouteUsage) (e : WorkerEnvelope) (limit : RaccWork) : Prop :=
  (rt_fuel u <= KernelCore.we_fuel e /\ rt_elapsed_ms u <= KernelCore.we_deadline_ms e /\
   rt_io_bytes u <= KernelCore.we_io_bytes e /\ rt_output_bytes u <= KernelCore.we_output_bytes e /\
   rt_memory_bytes u <= KernelCore.we_memory_bytes e /\ rt_processes u <= KernelCore.we_processes e /\
   rt_risk_units u <= KernelCore.we_risk_units e /\ rt_worker_steps u <= KernelCore.we_worker_steps e)%N /\
  (rw_logical_input_tokens (rt_work u) <= rw_logical_input_tokens limit /\
   rw_uncached_input_tokens (rt_work u) <= rw_uncached_input_tokens limit /\
   rw_cached_input_tokens (rt_work u) <= rw_cached_input_tokens limit /\
   rw_reasoning_tokens (rt_work u) <= rw_reasoning_tokens limit /\
   rw_visible_output_tokens (rt_work u) <= rw_visible_output_tokens limit /\
   rw_tool_calls (rt_work u) <= rw_tool_calls limit /\ rw_verifier_work (rt_work u) <= rw_verifier_work limit /\
   rw_fallback_work (rt_work u) <= rw_fallback_work limit /\
   rw_latency_micros (rt_work u) <= rw_latency_micros limit /\
   rw_peak_memory_bytes (rt_work u) <= rw_peak_memory_bytes limit)%N.

Lemma route_within_spec u e limit : route_within u e limit = true <-> inside_reserve u e limit.
Proof.
  unfold route_within, work_within, inside_reserve. rewrite !andb_true_iff, !N.leb_le. tauto.
Qed.

(** C6: A baseline execution receipt proves an exact fallback.  The candidate's
    transaction was rolled back to the safepoint's root with its whole effect
    closure restored and no external debt; the frozen baseline, and nothing
    else, ran from that root; both legs stayed within the reserve set aside
    before the candidate ran; every leg moved the receipt chain on; both
    claims are the exact payload of successful verified evidence; and the
    receipt is bound to the kernel execution it closes. *)
Theorem deoptimization_route_exact p t c1 ev1 permit i c2 ev2 r :
  verify_restoration p t c1 ev1 = Ok permit -> into_invocation permit = Ok i ->
  verify_execution i c2 ev2 = Ok r ->
  let s := be_claim (dp_safepoint p) in
  (GateTransaction.disposition t = GateTransaction.BaselineRootRecovered /\
   GateTransaction.restoration_scope t = GateTransaction.DeclaredEffectClosure /\
   GateTransaction.external_restoration_debt_count t = 0%N /\
   GateTransaction.observed_root t = bs_project_snapshot_root s /\
   GateTransaction.action_digest t = dp_candidate_action_digest p) /\
  (ec_project_snapshot_root c2 = bs_project_snapshot_root s /\
   ec_raw_baseline_identity_digest c2 = bs_raw_baseline_identity_digest s /\
   ec_raw_baseline_input_digest c2 = bs_raw_baseline_input_digest s /\
   ec_raw_decision_view_digest c2 = bs_raw_decision_view_digest s /\
   ec_baseline_reasoning_contract_digest c2 = bs_baseline_reasoning_contract_digest s /\
   ec_reasoning_entry_digest c2 = rc_restored_reasoning_entry_digest c1) /\
  inside_reserve (rc_deoptimization_usage c1) (fr_deoptimization_envelope (bs_reserve s))
    (fr_deoptimization_work_limit (bs_reserve s)) /\
  inside_reserve (ec_raw_baseline_usage c2) (fr_raw_baseline_envelope (bs_reserve s))
    (fr_raw_baseline_work_limit (bs_reserve s)) /\
  (rc_prior_receipt_head_digest c1 = bs_capture_receipt_head_digest s /\
   rc_successor_receipt_head_digest c1 <> rc_prior_receipt_head_digest c1 /\
   ec_predecessor_receipt_head_digest c2 = rc_successor_receipt_head_digest c1 /\
   ec_successor_receipt_head_digest c2 <> ec_predecessor_receipt_head_digest c2) /\
  (SemanticCut.successful_receipt ev1 = true /\ SemanticCut.successful_receipt ev2 = true /\
   BaselineRestorationClaim_canonical_bytes c1 = Ok (Evidence.payload ev1) /\
   BaselineExecutionClaim_canonical_bytes c2 = Ok (Evidence.payload ev2)) /\
  er_resume_record r = permit /\ er_execution_claim r = c2 /\ rp_plan permit = p.
Proof.
  intros Hr Hi Hx s. apply verify_restoration_inv in Hr as Hrest. destruct Hrest.
  apply into_invocation_inv in Hi as ->.
  pose proof rest_valid0 as Hc. unfold BaselineResumePermit_validate, BaselineRestorationClaim_validate in Hc.
  rewrite guard_Ok, !bind_unit_Ok, guard_Ok, bind_unit_Ok, reject_Ok in Hc.
  destruct Hc as (_ & _ & (_ & _ & Hhead & _) & _). apply bool_decide_eq_false in Hhead.
  unfold verify_execution in Hx. repeat inv_ok1.
  repeat match goal with u : () |- _ => destruct u end.
  match goal with Hp : verify_exact_successful_payload _ _ = Ok _ |- _ => apply payload_Ok in Hp as [? <-] end.
  match goal with Hc : BaselineExecutionClaim_validate _ = Ok _ |- _ =>
    unfold BaselineExecutionClaim_validate in Hc;
    rewrite guard_Ok, !bind_unit_Ok, reject_Ok, bool_decide_eq_false in Hc; destruct Hc as (_ & _ & _ & Hlast & _)
  end.
  repeat match goal with He : all_eq _ = true |- _ => apply all_eq_spec in He end.
  split_forall. cbn [fst snd invocation_of fi_project_snapshot_root fi_raw_baseline_identity_digest
    fi_raw_baseline_input_digest fi_raw_decision_view_digest fi_baseline_reasoning_contract_digest
    fi_reasoning_entry fi_predecessor_receipt_head_digest fi_raw_baseline_envelope
    fi_raw_baseline_work_limit fi_resume_record er_resume_record er_execution_claim] in *.
  rewrite ?rest_plan0, ?rest_claim0 in *.
  match goal with He : entry_digest _ = Ok ?e |- _ =>
    rewrite rest_entry0 in He; injection He as He end.
  rewrite <- !route_within_spec. by split_and!; subst.
Qed.

(** C7: The fallback route never dead-ends.  A verified restoration always
    mints a frozen invocation; and any execution claim built from that
    invocation, once successful evidence of the claimed verifier carries its
    canonical bytes, is accepted with a receipt that replays. *)
Theorem fallback_route_live p t c1 ev1 permit :
  verify_restoration p t c1 ev1 = Ok permit ->
  let i := invocation_of permit in
  into_invocation permit = Ok i /\
  forall output effects action acceptance root transaction usage head verifier c2 ev2,
    BaselineExecutionClaim_new i output effects action acceptance root transaction usage head verifier = Ok c2 ->
    BaselineExecutionClaim_canonical_bytes c2 = Ok (Evidence.payload ev2) ->
    SemanticCut.successful_receipt ev2 = true -> deoptimization_verifier_identity ev2 = verifier ->
    exists r, verify_execution i c2 ev2 = Ok r /\ BaselineExecutionReceipt_validate r = Ok () /\
      ec_baseline_successor_root (er_execution_claim r) = root.
Proof.
  intros Hr. apply verify_restoration_inv in Hr as []. subst p c1.
  split; [by apply into_invocation_Ok|].
  intros output effects action acceptance root transaction usage head verifier c2 ev2 Hnew Hbytes Hok Hver.
  apply claim_new_inv in Hnew as (Hc & Hroot & Hverifier). rewrite <- Hverifier in Hver.
  destruct (verify_execution_Ok permit rest_valid0 rest_bound0 rest_safepoint0 c2 ev2 Hc Hbytes Hok Hver)
    as (Hx & Hrec).
  eexists. split; [exact Hx|]. by split.
Qed.
End Theorems.
