(* ===== verification/TwoPhase.v ===== *)
(** Phase one of the two-phase kernel (zero-gate, two_phase.rs): the canonical
    artifact set, the execution binding, the safety shield, guards G0-G7 and
    the permit they mint.  The digest of the kernel's own contract manifest,
    constant data, is an argument. *)

From S2P Require Import Prelude.
From S2P Require Import DurableStore.
From S2P Require Import Ordering.
From S2P Require Import Identity.
From S2P Require ZeroRef.
From S2P Require Zbf.
From S2P Require Evidence.
From S2P Require Effect.
From S2P Require EffectWitness.
From S2P Require Reasoning.
From S2P Require SemanticCut.
From S2P Require RobustSnap.
From S2P Require Quality.
From S2P Require Import KernelCore.

Notation VerifiedEvidence := Evidence.EvidenceCertificate.
Notation EffectClass := Effect.EffectClass.

(** * Data *)

Record PeerArtifactInput := mkInput {
  pa_bytes : bytes;
  pa_expected_owner : Zbf.ArtifactOwner;
  pa_expected_kind : Zbf.ZbfArtifactKind;
  pa_expected_producer_contract_digest : Digest }.

Record CanonicalArtifactSet := mkArtifacts {
  ca_assembly_manifest_digest : Digest;
  ca_source_root_digest : Digest;
  ca_image_digest : Digest;
  ca_artifact_set_digest : Digest;
  ca_artifact_identities : list Digest;
  ca_producer_contract_digests : list Digest }.

Record SourceHead := mkHead { sh_repository : string; sh_head : string }.

Record ExecutionBinding := mkBinding {
  eb_schema_version : N;
  eb_assembly_manifest_digest : Digest;
  eb_source_tree_digest : Digest;
  eb_source_repository_heads : list SourceHead;
  eb_image_digest : Digest;
  eb_state_snapshot_digest : Digest;
  eb_task_fingerprint_digest : Digest;
  eb_plan_digest : Digest;
  eb_fixed_model_digest : Digest;
  eb_baseline_reasoning_contract : Reasoning.ReasoningContract;
  eb_reasoning_contract : Reasoning.ReasoningContract;
  eb_baseline_reasoning_contract_digest : Digest;
  eb_reasoning_contract_digest : Digest;
  eb_comparison_identity_digest : Digest;
  eb_semantic_cut_verifier_identity_digest : Digest;
  eb_predecessor_receipt_head : Digest }.

Inductive AttributionClass := Fixed | Changed.

Inductive SnapEvidence := NotClaimed | Verified (certificate : RobustSnap.RobustSnapCertificate).

Inductive SafetyShieldKind := ShieldReadOnly | ShieldAcceptedEffect.

Record SafetyShieldEvidence := mkShield {
  ss_kind : SafetyShieldKind;
  ss_shield_digest : Digest;
  ss_state_snapshot : Digest;
  ss_action_digest : option Digest;
  ss_evidence_digest : Digest;
  ss_verifier_digest : Digest;
  ss_acceptance_digest : option Digest;
  ss_accepted_effect : option EffectWitness.EffectAccepted }.

Record GuardEvidence := mkGuardEvidence {
  ge_artifacts : CanonicalArtifactSet;
  ge_reasoning_admission : Reasoning.StrictReasoningAdmission;
  ge_semantic_cut : SemanticCut.SemanticCutEvidence;
  ge_snap : SnapEvidence;
  ge_safety_shield : SafetyShieldEvidence;
  ge_approval_grant_digest : option Digest;
  ge_irreversible_pre_action_evidence_digest : option Digest;
  ge_performance : Quality.QualityAdmission }.

Record PrepareRequest := mkPrepare {
  pr_binding : ExecutionBinding;
  pr_surface : ExecutionSurface;
  pr_effect_class : EffectClass;
  pr_plan : ControllerPlan;
  pr_envelope : WorkerEnvelope;
  pr_evidence : GuardEvidence;
  pr_expiry_deadline_ms : N;
  pr_epoch : N;
  pr_caller_session_id : string }.

Record PrepareFailure := mkFailure { pf_error : KernelError; pf_trace : ExecutionTrace }.

Record PermitRecord := mkPermitRecord {
  pm_schema_version : N;
  pm_permit_id : Digest;
  pm_binding_digest : Digest;
  pm_admission_digest : Digest;
  pm_surface : ExecutionSurface;
  pm_trace : ExecutionTrace;
  pm_expiry_deadline_ms : N;
  pm_epoch : N;
  pm_caller_session_id : string }.

Record ExecutionPermit := mkPermit {
  ep_permit_id : Digest;
  ep_request : PrepareRequest;
  ep_trace : ExecutionTrace;
  ep_expiry_deadline_ms : N;
  ep_epoch : N;
  ep_caller_session_id : string }.

#[global] Instance EffectClass_eq_dec : EqDecision EffectClass.
Proof. solve_decision. Defined.

#[global] Instance ZbfArtifactKind_eq_dec : EqDecision Zbf.ZbfArtifactKind.
Proof. solve_decision. Defined.

Definition effect_class_tag (c : EffectClass) : N :=
  match c with
  | Effect.ReadOnly => 0 | Effect.ReversibleMutation => 1 | Effect.ApprovalRequiredMutation => 2
  | Effect.Irreversible => 3
  end.

Definition is_some_zero (o : option Digest) : bool :=
  match o with Some d => is_zero d | None => false end.
(** [digest.is_none_or(|digest| is_zero(&digest))]. *)
Definition is_none_or_zero (o : option Digest) : bool :=
  match o with Some d => is_zero d | None => true end.

(** * Source heads *)

Definition byte_among (s : string) (b : byte) : bool := existsb (Ascii.eqb b) (string_bytes s).

Definition is_ascii_alphanumeric (b : byte) : bool := byte_in 48 57 b || byte_in 65 90 b || byte_in 97 122 b.
Definition is_lower_hexdigit (b : byte) : bool := byte_in 48 57 b || byte_in 97 102 b.

Definition repository_valid (s : string) : bool :=
  let b := string_bytes s in
  negb (len b =? 0)%N && (len b <=? 64)%N &&
  forallb (fun x => is_ascii_alphanumeric x || byte_among "._-" x) b.

Definition head_valid (s : string) : bool :=
  let b := string_bytes s in
  (40 <=? len b)%N && (len b <=? 64)%N && forallb is_lower_hexdigit b.

Fixpoint source_heads_loop (previous : option (string * string)) (unique : list (string * string))
  (heads : list SourceHead) : R () :=
  match heads with
  | [] => Ok ()
  | source :: rest =>
      let current := (sh_repository source, sh_head source) in
      let '(fresh, unique) := bset_insert current unique in
      guard? repository_valid (sh_repository source) && head_valid (sh_head source) && fresh
        else at_guard InvalidSourceIdentity G1Coherence in
      reject? match previous with Some prior => geb prior current | None => false end
        with at_guard InvalidSourceIdentity G1Coherence in
      source_heads_loop (Some current) unique rest
  end.

Definition validate_source_heads (heads : list SourceHead) : R () :=
  reject? (length heads =? 0)%nat || (MAX_SOURCE_REPOSITORIES <? length heads)%nat
    with at_guard InvalidSourceIdentity G1Coherence in
  source_heads_loop None [] heads.

(** * Plans *)

(** [iter().position(p)]. *)
Fixpoint position {A} (p : A -> bool) (l : list A) : option nat :=
  match l with
  | [] => None
  | x :: l' => if p x then Some 0 else S <$> position p l'
  end.

(** [enumerate().filter_map(|(i, x)| p(x).then_some(i))], counting from [i]. *)
Fixpoint positions {A} (p : A -> bool) (i : nat) (l : list A) : list nat :=
  match l with
  | [] => []
  | x :: l' => if p x then i :: positions p (S i) l' else positions p (S i) l'
  end.

Definition count {A} (p : A -> bool) (l : list A) : nat := length (List.filter p l).

Definition is_close (i : ControllerInstruction) : bool := bool_decide (i = CloseTransaction).
Definition is_verify (i : ControllerInstruction) : bool := bool_decide (i = Verify).
Definition is_visible (i : ControllerInstruction) : bool := bool_decide (i = BufferVisible).
Definition is_stage (i : ControllerInstruction) : bool := bool_decide (i = StageEffect).
Definition is_dispatch (i : ControllerInstruction) : bool :=
  match i with Dispatch _ => true | _ => false end.

Section Prepare.
Context `{Platform, Codec Reasoning.ReasoningContract, Codec RobustSnap.SnapBody, Codec VerifiedEvidence}.
(** [two_phase_contract_digest()]. *)
Context (two_phase_contract_digest : Digest).

(** * Artifacts *)

Definition image_digest (source_root : Digest) (artifacts : list Digest) : Digest :=
  hash_bytes (domain "zerostack.kernel.image" ++ source_root ++ to_be 8 (N.of_nat (length artifacts)) ++
    concat artifacts).

Definition expected_artifacts : list (Zbf.ArtifactOwner * Zbf.ZbfArtifactKind) :=
  [(Zbf.FsZero, Zbf.FsPack); (Zbf.GraphZero, Zbf.GraphPack); (Zbf.TokenZero, Zbf.TokenPack)].

(** One round of the loop: the identity and producer of an accepted pack. *)
Definition verify_artifact (assembly source_root : Digest) (input : PeerArtifactInput)
  (expected : Zbf.ArtifactOwner * Zbf.ZbfArtifactKind) : R (Digest * Digest) :=
  let '(owner, kind) := expected in
  guard? bool_decide (pa_expected_owner input = owner) && bool_decide (pa_expected_kind input = kind)
    else at_guard InvalidSourceIdentity G1Coherence in
  reject? is_zero (pa_expected_producer_contract_digest input) with at_guard MissingBinding G1Coherence in
  let? object := map_err (at_guard CanonicalDigestMismatch G0Canonical)
    (Zbf.from_bytes sha256 json_string (pa_bytes input) assembly Zbf.PortableStrict) in
  let h := Zbf.header object in
  guard? bool_decide (Zbf.owner h = owner) && bool_decide (Zbf.kind h = kind) &&
         bool_decide (Zbf.source_root_digest h = source_root) &&
         bool_decide (Zbf.producer_contract_digest h = pa_expected_producer_contract_digest input)
    else at_guard CoherenceFailure G1Coherence in
  let? identity := map_err (at_guard CanonicalDigestMismatch G0Canonical)
    (Zbf.identity sha256 json_string object Zbf.PortableStrict) in
  Ok (identity, pa_expected_producer_contract_digest input).

Fixpoint verify_artifact_loop (assembly source_root : Digest)
  (inputs : list (PeerArtifactInput * (Zbf.ArtifactOwner * Zbf.ZbfArtifactKind)))
  : R (list (Digest * Digest)) :=
  match inputs with
  | [] => Ok []
  | (input, expected) :: rest =>
      let? x := verify_artifact assembly source_root input expected in
      let? xs := verify_artifact_loop assembly source_root rest in
      Ok (x :: xs)
  end.

Definition CanonicalArtifactSet_verify (assembly source_root : Digest) (artifacts : list PeerArtifactInput)
  : R CanonicalArtifactSet :=
  reject? is_zero assembly || is_zero source_root with at_guard MissingBinding G0Canonical in
  guard? (length artifacts =? length expected_artifacts)%nat
    else at_guard InvalidSourceIdentity G1Coherence in
  let? verified := verify_artifact_loop assembly source_root (zip artifacts expected_artifacts) in
  let identities := fst <$> verified in
  let producers := snd <$> verified in
  let image := image_digest source_root identities in
  Ok (mkArtifacts assembly source_root image
        (hash_bytes (domain "zerostack.kernel.artifact_set" ++ assembly ++ source_root ++ image ++
           concat ((fun p => fst p ++ snd p) <$> zip identities producers)))
        identities producers).

(** * Binding *)

Definition head_bytes (h : SourceHead) : bytes :=
  append_bounded (string_bytes (sh_repository h)) ++ append_bounded (string_bytes (sh_head h)).

Definition binding_digest (b : ExecutionBinding) : Digest :=
  hash_bytes (domain "zerostack.kernel.binding" ++ to_be 2 (eb_schema_version b) ++
    eb_assembly_manifest_digest b ++ eb_source_tree_digest b ++
    to_be 8 (N.of_nat (length (eb_source_repository_heads b))) ++
    concat (head_bytes <$> eb_source_repository_heads b) ++ eb_image_digest b ++
    eb_state_snapshot_digest b ++ eb_task_fingerprint_digest b ++ eb_plan_digest b ++
    eb_fixed_model_digest b ++ eb_baseline_reasoning_contract_digest b ++ eb_reasoning_contract_digest b ++
    eb_comparison_identity_digest b ++ eb_semantic_cut_verifier_identity_digest b ++
    eb_predecessor_receipt_head b).

Definition candidate_protocol_identity (b : ExecutionBinding) : Digest :=
  hash_bytes (domain "ZERO.TWO_PHASE.CANDIDATE_PROTOCOL" ++ eb_assembly_manifest_digest b ++
    eb_source_tree_digest b ++ eb_image_digest b ++ eb_fixed_model_digest b ++
    eb_reasoning_contract_digest b ++ two_phase_contract_digest).

(** * The safety shield *)

Definition safety_shield_digest (kind : SafetyShieldKind) (state : Digest) (action : option Digest)
  (evidence verifier : Digest) (acceptance : option Digest) : Digest :=
  hash_bytes (domain "zerostack.kernel.safety_shield" ++
    [byte_of (match kind with ShieldReadOnly => 0 | ShieldAcceptedEffect => 1 end)] ++ state ++
    append_optional_digest action ++ evidence ++ verifier ++ append_optional_digest acceptance).

Definition from_read_only_verified (state verifier : Digest) (evidence : VerifiedEvidence)
  : R SafetyShieldEvidence :=
  reject? is_zero state || is_zero verifier with at_guard MissingSafetyShield G6SafetyShield in
  let ed := Evidence.canonical_digest evidence in
  Ok (mkShield ShieldReadOnly (safety_shield_digest ShieldReadOnly state None ed verifier None)
        state None ed verifier None None).

Definition from_effect_accepted (a : EffectWitness.EffectAccepted) : R SafetyShieldEvidence :=
  let? _ := map_err (at_guard MissingSafetyShield G6SafetyShield) (EffectWitness.EffectAccepted_validate a) in
  let state := EffectWitness.state_snapshot a in
  let action := EffectWitness.action_digest a in
  let evidence := EffectWitness.evidence_digest a in
  let verifier := EffectWitness.verifier_digest a in
  let acceptance := EffectWitness.acceptance_digest a in
  Ok (mkShield ShieldAcceptedEffect
        (safety_shield_digest ShieldAcceptedEffect state (Some action) evidence verifier (Some acceptance))
        state (Some action) evidence verifier (Some acceptance) (Some a)).

(** * Admission *)

Definition rcq_of (cut : SemanticCut.SemanticCutEvidence) : Digest :=
  SemanticCut.terminal_rcq_identity_digest (SemanticCut.claim cut).

Definition snap_bytes (s : SnapEvidence) : bytes :=
  match s with
  | NotClaimed => [byte_of 0]
  | Verified c => byte_of 1 :: RobustSnap.certificate_digest c
  end.

Definition lease_bytes (deadline epoch : N) (session : string) : bytes :=
  to_be 8 deadline ++ to_be 8 epoch ++ append_bounded (string_bytes session).

Definition admission_digest (r : PrepareRequest) : Digest :=
  let e := pr_evidence r in
  hash_bytes (domain "zerostack.kernel.admission" ++ binding_digest (pr_binding r) ++
    [byte_of (surface_index (pr_surface r)); byte_of (effect_class_tag (pr_effect_class r))] ++
    plan_digest_of (pr_plan r) ++ envelope_bytes (pr_envelope r) ++
    lease_bytes (pr_expiry_deadline_ms r) (pr_epoch r) (pr_caller_session_id r) ++
    ca_artifact_set_digest (ge_artifacts e) ++ Reasoning.ra_admission_digest (ge_reasoning_admission e) ++
    SemanticCut.certificate_digest (ge_semantic_cut e) ++
    SemanticCut.verifier_identity_digest (ge_semantic_cut e) ++ rcq_of (ge_semantic_cut e) ++
    snap_bytes (ge_snap e) ++ ss_shield_digest (ge_safety_shield e) ++
    append_optional_digest (ge_approval_grant_digest e) ++
    append_optional_digest (ge_irreversible_pre_action_evidence_digest e) ++
    Quality.admission_digest (ge_performance e)).

(** * The guards *)

Definition bound_digests (r : PrepareRequest) : list Digest :=
  let b := pr_binding r in
  [eb_assembly_manifest_digest b; eb_source_tree_digest b; eb_image_digest b; eb_state_snapshot_digest b;
   eb_task_fingerprint_digest b; eb_plan_digest b; eb_fixed_model_digest b;
   eb_baseline_reasoning_contract_digest b; eb_reasoning_contract_digest b;
   eb_comparison_identity_digest b; eb_semantic_cut_verifier_identity_digest b;
   eb_predecessor_receipt_head b; ca_artifact_set_digest (ge_artifacts (pr_evidence r))].

(** [result.is_ok_and(|value| value == expected)]. *)
Definition ok_eq {E A} `{EqDecision A} (r : result E A) (expected : A) : bool :=
  match r with Ok x => bool_decide (x = expected) | Err _ => false end.

Definition reasoning_contract_valid (b : ExecutionBinding) : bool :=
  is_ok (Reasoning.validate (eb_baseline_reasoning_contract b)) &&
  ok_eq (Reasoning.identity_digest (eb_baseline_reasoning_contract b)) (eb_baseline_reasoning_contract_digest b) &&
  is_ok (Reasoning.validate (eb_reasoning_contract b)) &&
  ok_eq (Reasoning.identity_digest (eb_reasoning_contract b)) (eb_reasoning_contract_digest b) &&
  bool_decide (Reasoning.model_identity (eb_reasoning_contract b) = eb_fixed_model_digest b) &&
  negb (Reasoning.allow_effort_downshift (eb_reasoning_contract b)).

Definition reasoning_admission_valid (b : ExecutionBinding) (a : Reasoning.StrictReasoningAdmission) : bool :=
  is_ok (Reasoning.StrictReasoningAdmission_validate a) &&
  bool_decide (Reasoning.baseline_contract_digest a = eb_baseline_reasoning_contract_digest b) &&
  bool_decide (Reasoning.candidate_contract_digest a = eb_reasoning_contract_digest b) &&
  ok_eq (Reasoning.verify_strict_no_downshift (eb_baseline_reasoning_contract b) (eb_reasoning_contract b)) a.

Definition validate_g0 (r : PrepareRequest) : R () :=
  let b := pr_binding r in
  guard? (eb_schema_version b =? TWO_PHASE_SCHEMA_VERSION)%N else at_guard SchemaVersionMismatch G0Canonical in
  reject? existsb is_zero (bound_digests r) with at_guard MissingBinding G0Canonical in
  guard? reasoning_contract_valid b && reasoning_admission_valid b (ge_reasoning_admission (pr_evidence r))
    else at_guard ReasoningContractMismatch G0Canonical in
  guard? (length (ca_artifact_identities (ge_artifacts (pr_evidence r))) =? 3)%nat &&
         (length (ca_producer_contract_digests (ge_artifacts (pr_evidence r))) =? 3)%nat
    else at_guard CanonicalDigestMismatch G0Canonical in
  Ok ().

Definition validate_g1 (r : PrepareRequest) : R () :=
  let a := ge_artifacts (pr_evidence r) in
  let b := pr_binding r in
  guard? bool_decide (ca_assembly_manifest_digest a = eb_assembly_manifest_digest b) &&
         bool_decide (ca_source_root_digest a = eb_source_tree_digest b) &&
         bool_decide (ca_image_digest a = eb_image_digest b) &&
         bool_decide (ca_image_digest a = image_digest (ca_source_root_digest a) (ca_artifact_identities a)) &&
         negb (existsb is_zero (ca_producer_contract_digests a))
    else at_guard CoherenceFailure G1Coherence in
  validate_source_heads (eb_source_repository_heads b).

Definition validate_g2 (r : PrepareRequest) : R () :=
  let plan := pr_plan r in
  reject? (length plan =? 0)%nat || (MAX_CONTROLLER_INSTRUCTIONS <? length plan)%nat
    with at_guard InvalidPlan G2FinitePlan in
  guard? bool_decide (last plan = Some CloseTransaction) && (count is_close plan =? 1)%nat &&
         (count is_verify plan =? 1)%nat && (count is_visible plan =? 1)%nat &&
         negb (count is_dispatch plan =? 0)%nat
    else at_guard InvalidPlan G2FinitePlan in
  let? verify := ok_or (position is_verify plan) (at_guard InvalidPlan G2FinitePlan) in
  let? visible := ok_or (position is_visible plan) (at_guard InvalidPlan G2FinitePlan) in
  reject? (visible <=? verify)%nat with at_guard InvalidPlan G2FinitePlan in
  let staged := positions is_stage 0 plan in
  let read_only := bool_decide (pr_effect_class r = Effect.ReadOnly) in
  reject? read_only && negb (length staged =? 0)%nat with at_guard InvalidPlan G2FinitePlan in
  reject? negb read_only &&
          match staged with [s] => (s <=? verify)%nat || (visible <=? s)%nat | _ => true end
    with at_guard InvalidPlan G2FinitePlan in
  guard? bool_decide (plan_digest_of plan = eb_plan_digest (pr_binding r))
    else at_guard PlanDigestMismatch G2FinitePlan in
  Ok ().

(** Whether a cut is the one the binding names. *)
Definition cut_bound (b : ExecutionBinding) (cut : SemanticCut.SemanticCutEvidence) : bool :=
  let c := SemanticCut.claim cut in
  bool_decide (SemanticCut.input_project_control_root c = eb_state_snapshot_digest b) &&
  bool_decide (SemanticCut.compiled_plan_digest c = eb_plan_digest b) &&
  bool_decide (SemanticCut.sp_fixed_model_digest (SemanticCut.compiled_terminal c) = eb_fixed_model_digest b) &&
  bool_decide (SemanticCut.sp_reasoning_contract_digest (SemanticCut.compiled_terminal c) =
               eb_reasoning_contract_digest b) &&
  bool_decide (SemanticCut.comparison_identity_digest c = eb_comparison_identity_digest b) &&
  bool_decide (SemanticCut.certificate_scope_digest c = eb_task_fingerprint_digest b) &&
  bool_decide (SemanticCut.verifier_identity_digest cut = eb_semantic_cut_verifier_identity_digest b).

Definition validate_g3 (r : PrepareRequest) : R () :=
  let cut := ge_semantic_cut (pr_evidence r) in
  let? _ := map_err (at_guard SemanticCutCrossing G3Attribution) (SemanticCut.SemanticCutEvidence_validate cut) in
  guard? negb (is_zero (SemanticCut.certificate_digest cut)) && cut_bound (pr_binding r) cut
    else at_guard SemanticCutCrossing G3Attribution in
  Ok ().

Definition validate_g4 (r : PrepareRequest) : R () :=
  reject? envelope_has_zero (pr_envelope r) ||
          (we_worker_steps (pr_envelope r) <? N.of_nat (length (pr_plan r)))%N
    with at_guard UnboundedWorker G4Resources in
  Ok ().

Definition validate_g5 (r : PrepareRequest) : R () :=
  match ge_snap (pr_evidence r) with
  | NotClaimed => Ok ()
  | Verified c =>
      let? _ := map_err (at_guard MissingSnapCertificate G5RobustSnap) (RobustSnap.validate c) in
      let f := RobustSnap.fiber (RobustSnap.body c) in
      guard? bool_decide (RobustSnap.assembly_manifest_digest f = eb_assembly_manifest_digest (pr_binding r)) &&
             bool_decide (RobustSnap.source_image_digest f = eb_image_digest (pr_binding r)) &&
             bool_decide (RobustSnap.task_fingerprint f = eb_task_fingerprint_digest (pr_binding r))
        else at_guard MissingSnapCertificate G5RobustSnap in
      if bool_decide (RobustSnap.snap_level (RobustSnap.body c) = RobustSnap.S0) then
        let? selected := ok_or (RobustSnap.selected_effect (RobustSnap.body c))
                           (at_guard MissingSnapCertificate G5RobustSnap) in
        guard? bool_decide (ss_action_digest (ge_safety_shield (pr_evidence r)) =
                            Some (RobustSnap.effect_digest selected))
          else at_guard MissingSnapCertificate G5RobustSnap in
        Ok ()
      else Ok ()
  end.

Definition validate_g6 (r : PrepareRequest) : R () :=
  let e := pr_evidence r in
  let s := ge_safety_shield e in
  guard? negb (is_zero (ss_shield_digest s)) &&
         bool_decide (ss_state_snapshot s = eb_state_snapshot_digest (pr_binding r)) &&
         bool_decide (ss_shield_digest s =
           safety_shield_digest (ss_kind s) (ss_state_snapshot s) (ss_action_digest s) (ss_evidence_digest s)
             (ss_verifier_digest s) (ss_acceptance_digest s))
    else at_guard MissingSafetyShield G6SafetyShield in
  let? _ :=
    match pr_effect_class r, ss_kind s with
    | Effect.ReadOnly, ShieldReadOnly => Ok ()
    | Effect.ReadOnly, ShieldAcceptedEffect | _, ShieldReadOnly =>
        Err (at_guard MissingSafetyShield G6SafetyShield)
    | _, ShieldAcceptedEffect =>
        let? a := ok_or (ss_accepted_effect s) (at_guard MissingSafetyShield G6SafetyShield) in
        map_err (at_guard MissingSafetyShield G6SafetyShield) (EffectWitness.EffectAccepted_validate a)
    end in
  reject? bool_decide (pr_effect_class r = Effect.ApprovalRequiredMutation) &&
          is_none_or_zero (ge_approval_grant_digest e)
    with at_guard MissingApprovalGrant G6SafetyShield in
  reject? bool_decide (pr_effect_class r = Effect.Irreversible) &&
          is_none_or_zero (ge_irreversible_pre_action_evidence_digest e)
    with at_guard IrreversiblePreEvidenceEffect G6SafetyShield in
  Ok ().

(** The evidence classes that speak for the candidate itself. *)
Definition individual (c : Quality.QualityEvidenceClass) : bool :=
  match c with
  | Quality.ExactNeutral | Quality.PointwiseDominance | Quality.ScopedClassDominance => true
  | Quality.Distributional | Quality.Unidentified => false
  end.

Definition quality_scope_bound (b : ExecutionBinding) (q : Quality.QualityAdmission) : bool :=
  bool_decide (Quality.comparison_identity_digest q = eb_comparison_identity_digest b) &&
  (bool_decide (Quality.evidence_class q = Quality.Distributional) ||
   bool_decide (Quality.scope_digest q = eb_task_fingerprint_digest b)).

Definition quality_candidate_bound (b : ExecutionBinding) (q : Quality.QualityAdmission) : bool :=
  negb (individual (Quality.evidence_class q)) ||
  bool_decide (Quality.candidate_identity_digest q = Some (candidate_protocol_identity b)).

Definition validate_g7 (r : PrepareRequest) : R () :=
  let q := ge_performance (pr_evidence r) in
  let? _ := map_err (at_guard PerformanceUnknown G7Performance) (Quality.QualityAdmission_validate q) in
  guard? quality_scope_bound (pr_binding r) q else at_guard PerformanceUnknown G7Performance in
  guard? quality_candidate_bound (pr_binding r) q else at_guard PerformanceUnknown G7Performance in
  guard? Quality.coherent (Quality.evidence_class q) (Quality.selection q) (Quality.guarantee q)
    else at_guard PerformanceUnknown G7Performance in
  Ok ().

(** * Permits *)

Definition permit_digest (admission trace : Digest) (deadline epoch : N) (session : string) : Digest :=
  hash_bytes (domain "zerostack.kernel.permit" ++ admission ++ trace ++ lease_bytes deadline epoch session).

Notation P := (result PrepareFailure).

(** [guard!]: a failed check returns with the trace so far, a passed one
    extends it. *)
Definition guarded (g : Guard) (check : R ()) (trace : ExecutionTrace) : P ExecutionTrace :=
  match check with
  | Err e => Err (mkFailure e trace)
  | Ok _ => Ok (pass g trace)
  end.

Definition prepare (r : PrepareRequest) : P ExecutionPermit :=
  reject? bool_decide (pr_caller_session_id r = "") with
    mkFailure (at_guard MissingBinding G0Canonical) trace_new in
  reject? (pr_epoch r =? 0)%N with mkFailure (at_guard MissingBinding G0Canonical) trace_new in
  let? t := guarded G0Canonical (validate_g0 r) trace_new in
  let? t := guarded G1Coherence (validate_g1 r) t in
  let? t := guarded G2FinitePlan (validate_g2 r) t in
  let? t := guarded G3Attribution (validate_g3 r) t in
  let? t := guarded G4Resources (validate_g4 r) t in
  let? t := guarded G5RobustSnap (validate_g5 r) t in
  let? t := guarded G6SafetyShield (validate_g6 r) t in
  let? t := guarded G7Performance (validate_g7 r) t in
  Ok (mkPermit
        (permit_digest (admission_digest r) (trace_digest t) (pr_expiry_deadline_ms r) (pr_epoch r)
           (pr_caller_session_id r))
        r t (pr_expiry_deadline_ms r) (pr_epoch r) (pr_caller_session_id r)).

Definition ExecutionPermit_record (p : ExecutionPermit) : PermitRecord :=
  mkPermitRecord TWO_PHASE_SCHEMA_VERSION (ep_permit_id p) (binding_digest (pr_binding (ep_request p)))
    (admission_digest (ep_request p)) (pr_surface (ep_request p)) (ep_trace p) (ep_expiry_deadline_ms p)
    (ep_epoch p) (ep_caller_session_id p).

Definition validate_permit_record (r : PermitRecord) : R () :=
  guard? (pm_schema_version r =? TWO_PHASE_SCHEMA_VERSION)%N else execution ForgedPermit in
  let? _ := verify_prefix (pm_trace r) in
  guard? (length (events (pm_trace r)) =? 8)%nat else execution ForgedPermit in
  reject? is_zero (pm_binding_digest r) || is_zero (pm_admission_digest r) with execution ForgedPermit in
  reject? bool_decide (pm_caller_session_id r = "") with execution ForgedPermit in
  reject? (pm_epoch r =? 0)%N with execution ForgedPermit in
  guard? bool_decide (pm_permit_id r =
           permit_digest (pm_admission_digest r) (trace_digest (pm_trace r)) (pm_expiry_deadline_ms r)
             (pm_epoch r) (pm_caller_session_id r))
    else execution ForgedPermit in
  Ok ().
End Prepare.
