(* ===== verification/KernelExecution.v ===== *)
(** Phase two of the two-phase kernel (zero-gate, two_phase.rs): the brokered
    execution of a permitted plan, the transaction closure of guard G8, the
    final receipts of guard G9 and the validation of their public records. *)

From S2P Require Import Prelude.
From S2P Require Import DurableStore.
From S2P Require Import Identity.
From S2P Require Evidence.
From S2P Require Effect.
From S2P Require EffectWitness.
From S2P Require Reasoning.
From S2P Require SemanticCut.
From S2P Require RobustSnap.
From S2P Require Quality.
From S2P Require GateTransaction.
From S2P Require Deoptimization.
From S2P Require Import KernelCore.
From S2P Require Import TwoPhase.

Notation TransactionReceipt := GateTransaction.TransactionReceipt.
Notation BaselineExecutionReceipt := Deoptimization.BaselineExecutionReceipt.

Definition as_u32 (n : nat) : N := N.of_nat n mod 2 ^ 32.

(** * Data *)

Record StagedEffect := mkStaged {
  se_effect_digest : Digest;
  se_effect_class : EffectClass;
  se_acceptance_digest : option Digest;
  se_approval_grant_digest : option Digest;
  se_pre_action_evidence_digest : option Digest }.

Record BrokeredExecution := mkExecution {
  x_permit_id : Digest;
  x_request : PrepareRequest;
  x_trace : ExecutionTrace;
  x_expiry_deadline_ms : N;
  x_epoch : N;
  x_caller_session_id : string;
  x_next_instruction : nat;
  x_usage : ResourceUsage;
  x_verification_digest : option Digest;
  x_buffered_visible : bytes;
  x_staged_effects : list StagedEffect }.

Inductive ClosureKind := ClosureCommit | ClosureFallback.

Record RestorationAccounting := mkAccounting {
  ra_attempted : N; ra_completed : N; ra_debt : N }.
Definition accounting_default : RestorationAccounting := mkAccounting 0 0 0.

Record TransactionClosure := mkTxClosure {
  tc_kind : ClosureKind;
  tc_root : Digest;
  tc_transaction_receipt_digest : Digest;
  tc_deoptimization_execution_receipt_digest : option Digest;
  tc_deoptimization_kernel_binding_digest : option Digest;
  tc_deoptimization_kernel_admission_digest : option Digest;
  tc_action_digest : Digest;
  tc_acceptance_digest : option Digest;
  tc_baseline_state : Digest;
  tc_candidate_state : Digest;
  tc_restoration_scope : GateTransaction.RestorationScope;
  tc_external_restoration_debt_count : N;
  tc_restoration : RestorationAccounting }.

Record ReadyToFinalize := mkReady {
  rf_permit_id : Digest;
  rf_request : PrepareRequest;
  rf_trace : ExecutionTrace;
  rf_usage : ResourceUsage;
  rf_verification_digest : option Digest;
  rf_buffered_visible : bytes;
  rf_staged_effects : list StagedEffect;
  rf_closure : TransactionClosure }.

Inductive ReceiptKind := KCommit | KFallback.

Record ReceiptRecord := mkReceiptRecord {
  rec_schema_version : N;
  rec_kind : ReceiptKind;
  rec_permit_id : Digest;
  rec_binding_digest : Digest;
  rec_admission_digest : Digest;
  rec_assembly_manifest_digest : Digest;
  rec_source_tree_digest : Digest;
  rec_source_repository_heads : list SourceHead;
  rec_image_digest : Digest;
  rec_state_snapshot_digest : Digest;
  rec_task_fingerprint_digest : Digest;
  rec_plan_digest : Digest;
  rec_fixed_model_digest : Digest;
  rec_baseline_reasoning_contract : Reasoning.ReasoningContract;
  rec_reasoning_contract : Reasoning.ReasoningContract;
  rec_baseline_reasoning_contract_digest : Digest;
  rec_reasoning_contract_digest : Digest;
  rec_reasoning_admission : Reasoning.StrictReasoningAdmission;
  rec_comparison_identity_digest : Digest;
  rec_semantic_cut_verifier_identity_digest : Digest;
  rec_artifact_set_digest : Digest;
  rec_semantic_cut_certificate_digest : Digest;
  rec_semantic_cut : SemanticCut.SemanticCutEvidence;
  rec_terminal_rcq_identity_digest : Digest;
  rec_snap_certificate_digest : option Digest;
  rec_safety_shield_digest : Digest;
  rec_quality_admission : Quality.QualityAdmission;
  rec_final_quality_selection : Quality.QualitySelection;
  rec_transaction_receipt_digest : Digest;
  rec_deoptimization_execution_receipt_digest : option Digest;
  rec_attribution_class : AttributionClass;
  rec_effect_class : EffectClass;
  rec_resource_envelope : WorkerEnvelope;
  rec_surface : ExecutionSurface;
  rec_verification_digest : option Digest;
  rec_output_digest : Digest;
  rec_effects_digest : Digest;
  rec_resource_usage : ResourceUsage;
  rec_predecessor_receipt_head : Digest;
  rec_successor_root : Digest;
  rec_trace_digest : Digest;
  rec_receipt_head : Digest;
  rec_failure_code : option FailureCode;
  rec_restoration : RestorationAccounting }.

Record ReceiptCommon := mkCommon {
  rcm_permit_id : Digest;
  rcm_binding : ExecutionBinding;
  rcm_admission_digest : Digest;
  rcm_artifact_set_digest : Digest;
  rcm_reasoning_admission : Reasoning.StrictReasoningAdmission;
  rcm_semantic_cut_certificate_digest : Digest;
  rcm_semantic_cut : SemanticCut.SemanticCutEvidence;
  rcm_terminal_rcq_identity_digest : Digest;
  rcm_snap_certificate_digest : option Digest;
  rcm_safety_shield_digest : Digest;
  rcm_quality_admission : Quality.QualityAdmission;
  rcm_final_quality_selection : Quality.QualitySelection;
  rcm_transaction_receipt_digest : Digest;
  rcm_deoptimization_execution_receipt_digest : option Digest;
  rcm_attribution_class : AttributionClass;
  rcm_effect_class : EffectClass;
  rcm_resource_envelope : WorkerEnvelope;
  rcm_surface : ExecutionSurface;
  rcm_verification_digest : option Digest;
  rcm_output_digest : Digest;
  rcm_effects_digest : Digest;
  rcm_usage : ResourceUsage;
  rcm_successor_root : Digest;
  rcm_trace : ExecutionTrace;
  rcm_receipt_head : Digest;
  rcm_failure_code : option FailureCode;
  rcm_restoration : RestorationAccounting }.

Inductive FinalReceipt :=
| FCommit (common : ReceiptCommon) (buffered_visible : bytes) (staged_effects : list StagedEffect)
| FFallback (common : ReceiptCommon).

Inductive PublicationDurability :=
| BufferedOnly
| JournalRootCommitted (transaction_receipt_digest : Digest)
| JournalVerified (evidence_digest durable_profile_digest : Digest).

Record PublishedCommit := mkPublished {
  pub_visible_bytes : bytes;
  pub_approved_effects : list StagedEffect;
  pub_receipt_head : Digest;
  pub_successor_root : Digest;
  pub_durability : PublicationDurability }.

#[global] Instance ClosureKind_eq_dec : EqDecision ClosureKind.
Proof. solve_decision. Defined.
#[global] Instance RestorationAccounting_eq_dec : EqDecision RestorationAccounting.
Proof. solve_decision. Defined.
#[global] Instance ReceiptKind_eq_dec : EqDecision ReceiptKind.
Proof. solve_decision. Defined.
#[global] Instance AttributionClass_eq_dec : EqDecision AttributionClass.
Proof. solve_decision. Defined.
#[global] Instance QualitySelection_eq_dec : EqDecision Quality.QualitySelection.
Proof. solve_decision. Defined.

(** * Execution

    Every operation fails before it writes, so an error leaves the execution
    as it was. *)

Definition start_at (p : ExecutionPermit) (now_ms : N) : R BrokeredExecution :=
  reject? (ep_expiry_deadline_ms p <? now_ms)%N with execution ExpiredPermit in
  Ok (mkExecution (ep_permit_id p) (ep_request p) (ep_trace p) (ep_expiry_deadline_ms p) (ep_epoch p)
        (ep_caller_session_id p) 0 usage_default None [] []).

(** [SystemTime::now()] is the argument. *)
Definition start (p : ExecutionPermit) (now_ms : N) : R BrokeredExecution := start_at p now_ms.

Definition expect (x : BrokeredExecution) (expected : ControllerInstruction) : R () :=
  match pr_plan (x_request x) !! x_next_instruction x with
  | Some actual =>
      guard? bool_decide (actual = expected) else execution PlanStepMismatch in Ok ()
  | None => Err (execution IncompleteExecution)
  end.

Definition set_executed (n : N) (t : ExecutionTrace) : ExecutionTrace :=
  mkTrace (events t) n (t_worker_steps t) (buffered_visible_bytes t) (t_staged_effects t) (execution_failure t).
Definition set_worker_steps (n : N) (t : ExecutionTrace) : ExecutionTrace :=
  mkTrace (events t) (executed_instructions t) n (buffered_visible_bytes t) (t_staged_effects t)
    (execution_failure t).
Definition set_buffered (n : N) (t : ExecutionTrace) : ExecutionTrace :=
  mkTrace (events t) (executed_instructions t) (t_worker_steps t) n (t_staged_effects t) (execution_failure t).
Definition set_staged (n : N) (t : ExecutionTrace) : ExecutionTrace :=
  mkTrace (events t) (executed_instructions t) (t_worker_steps t) (buffered_visible_bytes t) n
    (execution_failure t).
Definition set_failure (c : FailureCode) (t : ExecutionTrace) : ExecutionTrace :=
  mkTrace (events t) (executed_instructions t) (t_worker_steps t) (buffered_visible_bytes t)
    (t_staged_effects t) (Some c).

(** [self.advance()] after the given assignments. *)
Definition advance (x : BrokeredExecution) (t : ExecutionTrace) (u : ResourceUsage) (v : option Digest)
  (visible : bytes) (staged : list StagedEffect) : BrokeredExecution :=
  mkExecution (x_permit_id x) (x_request x) (set_executed (as_u32 (S (x_next_instruction x))) t)
    (x_expiry_deadline_ms x) (x_epoch x) (x_caller_session_id x) (S (x_next_instruction x)) u v visible staged.

Definition check_usage (x : BrokeredExecution) (u : ResourceUsage) : R () :=
  guard? within_envelope u (pr_envelope (x_request x)) else execution BoundExceeded in Ok ().

Definition dispatch (x : BrokeredExecution) (owner : PeerOwner) (usage : ResourceUsage) : R BrokeredExecution :=
  let? _ := expect x (Dispatch owner) in
  let? next := ok_or (usage_checked_add (x_usage x) usage) (execution BoundExceeded) in
  let? _ := check_usage x next in
  Ok (advance x (set_worker_steps (ru_worker_steps next) (x_trace x)) next (x_verification_digest x)
        (x_buffered_visible x) (x_staged_effects x)).

Definition deterministic_transform (x : BrokeredExecution) : R BrokeredExecution :=
  let? _ := expect x DeterministicTransform in
  Ok (advance x (x_trace x) (x_usage x) (x_verification_digest x) (x_buffered_visible x) (x_staged_effects x)).

Definition record_verification (x : BrokeredExecution) (evidence : Digest) : R BrokeredExecution :=
  let? _ := expect x Verify in
  reject? is_zero evidence with execution IncompleteExecution in
  Ok (advance x (x_trace x) (x_usage x) (Some evidence) (x_buffered_visible x) (x_staged_effects x)).

Definition stage_effect (x : BrokeredExecution) (e : StagedEffect) : R BrokeredExecution :=
  let? _ := expect x StageEffect in
  let evidence := pr_evidence (x_request x) in
  let shield := ge_safety_shield evidence in
  guard? bool_decide (se_effect_class e = pr_effect_class (x_request x)) &&
         negb (is_zero (se_effect_digest e)) &&
         bool_decide (ss_action_digest shield = Some (se_effect_digest e)) &&
         bool_decide (ss_acceptance_digest shield = se_acceptance_digest e)
    else execution PlanStepMismatch in
  reject? bool_decide (se_effect_class e = Effect.ApprovalRequiredMutation) &&
          (bool_decide (ge_approval_grant_digest evidence = None) ||
           negb (bool_decide (se_approval_grant_digest e = ge_approval_grant_digest evidence)))
    with execution MissingApprovalGrant in
  reject? bool_decide (se_effect_class e = Effect.Irreversible) &&
          (bool_decide (ge_irreversible_pre_action_evidence_digest evidence = None) ||
           negb (bool_decide (se_pre_action_evidence_digest e =
                              ge_irreversible_pre_action_evidence_digest evidence)))
    with execution IrreversiblePreEvidenceEffect in
  let staged := x_staged_effects x ++ [e] in
  Ok (advance x (set_staged (as_u32 (length staged)) (x_trace x)) (x_usage x) (x_verification_digest x)
        (x_buffered_visible x) staged).

Definition buffer_visible (x : BrokeredExecution) (b : bytes) : R BrokeredExecution :=
  let? _ := expect x BufferVisible in
  let? new_len := ok_or (checked_add_u64 (len (x_buffered_visible x)) (len b)) (execution BufferOverflow) in
  reject? (we_output_bytes (pr_envelope (x_request x)) <? new_len)%N with execution BufferOverflow in
  Ok (advance x (set_buffered new_len (x_trace x)) (x_usage x) (x_verification_digest x)
        (x_buffered_visible x ++ b) (x_staged_effects x)).

Definition reject_early_publish : KernelError := execution EarlyVisibleByte.

(** * Transaction closure *)

Section Closure.
Context `{Platform, Codec Reasoning.ReasoningContract, Codec RobustSnap.SnapBody, Codec VerifiedEvidence}.
Context (two_phase_contract_digest : Digest).

Definition from_receipt (r : TransactionReceipt) : R TransactionClosure :=
  let? _ := map_err (at_guard IncompleteTransactionClosure G8TransactionClosure)
              (GateTransaction.TransactionReceipt_canonical_bytes r) in
  let? kind :=
    match GateTransaction.disposition r with
    | GateTransaction.CandidateCommitted => Ok ClosureCommit
    | GateTransaction.BaselineRootRecovered => Err (at_guard UnaccountedFallback G8TransactionClosure)
    end in
  let debt := GateTransaction.external_restoration_debt_count r in
  let restoration :=
    match kind with
    | ClosureCommit => accounting_default
    | ClosureFallback =>
        mkAccounting (GateTransaction.resource_count r) (GateTransaction.resource_count r - debt) debt
    end in
  Ok (mkTxClosure kind (GateTransaction.observed_root r) (GateTransaction.receipt_digest r) None None None
        (GateTransaction.action_digest r) (GateTransaction.acceptance_digest r)
        (GateTransaction.baseline_state r) (GateTransaction.candidate_state r)
        (GateTransaction.restoration_scope r) debt restoration).

Definition from_baseline_execution (r : BaselineExecutionReceipt) : R TransactionClosure :=
  let? _ := map_err (at_guard UnaccountedFallback G8TransactionClosure)
              (Deoptimization.BaselineExecutionReceipt_validate r) in
  let c := Deoptimization.er_execution_claim r in
  let resume := Deoptimization.er_resume_record r in
  let restored := Deoptimization.rp_restored_transaction resume in
  let count := Deoptimization.rs_resource_count restored in
  reject? (count =? 0)%N with at_guard IncompleteTransactionClosure G8TransactionClosure in
  Ok (mkTxClosure ClosureFallback (Deoptimization.ec_baseline_successor_root c)
        (Deoptimization.ec_baseline_transaction_receipt_digest c)
        (Some (Deoptimization.er_receipt_digest r))
        (Some (Deoptimization.dp_kernel_binding_digest (Deoptimization.rp_plan resume)))
        (Some (Deoptimization.dp_kernel_admission_digest (Deoptimization.rp_plan resume)))
        (Deoptimization.ec_baseline_action_digest c)
        (Some (Deoptimization.ec_baseline_acceptance_digest c))
        (Deoptimization.rs_baseline_state restored) (Deoptimization.rs_candidate_state restored)
        GateTransaction.DeclaredEffectClosure 0 (mkAccounting count count 0)).

Definition validate_closure (x : BrokeredExecution) (c : TransactionClosure) (failure : option FailureCode) : R () :=
  let r := x_request x in
  let shield := ge_safety_shield (pr_evidence r) in
  let selection := Quality.selection (ge_performance (pr_evidence r)) in
  reject? is_zero (tc_root c) || is_zero (tc_transaction_receipt_digest c) || is_zero (tc_action_digest c) ||
          negb (bool_decide (tc_baseline_state c = eb_state_snapshot_digest (pr_binding r))) ||
          negb (tc_external_restoration_debt_count c =? 0)%N || negb (ra_debt (tc_restoration c) =? 0)%N ||
          is_some_zero (tc_deoptimization_execution_receipt_digest c) ||
          is_some_zero (tc_deoptimization_kernel_binding_digest c) ||
          is_some_zero (tc_deoptimization_kernel_admission_digest c)
    with at_guard IncompleteTransactionClosure G8TransactionClosure in
  match tc_kind c with
  | ClosureCommit =>
      guard? bool_decide (failure = None) &&
             bool_decide (tc_deoptimization_execution_receipt_digest c = None) &&
             bool_decide (tc_deoptimization_kernel_binding_digest c = None) &&
             bool_decide (tc_deoptimization_kernel_admission_digest c = None) &&
             bool_decide (tc_restoration c = accounting_default) &&
             bool_decide (tc_root c = tc_candidate_state c) &&
             bool_decide (tc_restoration_scope c = GateTransaction.NotApplicableCandidateCommit) &&
             bool_decide (tc_acceptance_digest c = ss_acceptance_digest shield) &&
             bool_decide (ss_action_digest shield = Some (tc_action_digest c)) &&
             bool_decide (selection = Quality.Candidate)
        else at_guard IncompleteTransactionClosure G8TransactionClosure in
      Ok ()
  | ClosureFallback =>
      guard? negb (bool_decide (tc_deoptimization_execution_receipt_digest c = None)) &&
             bool_decide (tc_deoptimization_kernel_binding_digest c = Some (binding_digest (pr_binding r))) &&
             bool_decide (tc_deoptimization_kernel_admission_digest c = Some (admission_digest r)) &&
             negb (ra_attempted (tc_restoration c) =? 0)%N &&
             (ra_completed (tc_restoration c) =? ra_attempted (tc_restoration c))%N &&
             bool_decide (tc_restoration_scope c = GateTransaction.DeclaredEffectClosure) &&
             negb (bool_decide (failure = None) && negb (bool_decide (selection = Quality.FrozenBaselineSelected)))
        else at_guard UnaccountedFallback G8TransactionClosure in
      Ok ()
  end.

Definition into_ready (x : BrokeredExecution) (c : TransactionClosure) (failure : option FailureCode)
  : R ReadyToFinalize :=
  let? _ := validate_closure x c failure in
  Ok (mkReady (x_permit_id x) (x_request x) (pass G8TransactionClosure (x_trace x)) (x_usage x)
        (x_verification_digest x) (x_buffered_visible x) (x_staged_effects x) c).

Definition close_transaction (x : BrokeredExecution) (c : TransactionClosure) : R ReadyToFinalize :=
  let? _ := expect x CloseTransaction in
  let x := advance x (x_trace x) (x_usage x) (x_verification_digest x) (x_buffered_visible x)
             (x_staged_effects x) in
  guard? (x_next_instruction x =? length (pr_plan (x_request x)))%nat &&
         negb (bool_decide (x_verification_digest x = None))
    else execution IncompleteExecution in
  into_ready x c None.

Definition abort (x : BrokeredExecution) (failure : FailureCode) (c : TransactionClosure) : R ReadyToFinalize :=
  guard? bool_decide (tc_kind c = ClosureFallback)
    else at_guard IncompleteTransactionClosure G8TransactionClosure in
  into_ready
    (mkExecution (x_permit_id x) (x_request x) (set_failure failure (x_trace x)) (x_expiry_deadline_ms x)
       (x_epoch x) (x_caller_session_id x) (x_next_instruction x) (x_usage x) (x_verification_digest x)
       (x_buffered_visible x) (x_staged_effects x))
    c (Some failure).

(** * Receipts *)

Definition staged_bytes (e : StagedEffect) : bytes :=
  se_effect_digest e ++ [byte_of (effect_class_tag (se_effect_class e))] ++
  append_optional_digest (se_acceptance_digest e) ++ append_optional_digest (se_approval_grant_digest e) ++
  append_optional_digest (se_pre_action_evidence_digest e).

Definition effect_list_digest (l : list StagedEffect) : Digest :=
  hash_bytes (domain "zerostack.kernel.effects" ++ to_be 8 (N.of_nat (length l)) ++ concat (staged_bytes <$> l)).

Definition kind_index (k : ReceiptKind) : N := match k with KCommit => 0 | KFallback => 1 end.

Definition receipt_digest (kind : ReceiptKind) (permit_id : Digest) (binding : ExecutionBinding)
  (admission artifact_set reasoning cut rcq : Digest) (snap : option Digest) (shield : Digest)
  (quality : Quality.QualityAdmission) (selection : Quality.QualitySelection) (transaction : Digest)
  (deoptimization : option Digest) (attribution : AttributionClass) (class : EffectClass)
  (envelope : WorkerEnvelope) (surface : ExecutionSurface) (verification : option Digest)
  (output effects : Digest) (usage : ResourceUsage) (root trace : Digest) (failure : option FailureCode)
  (restoration : RestorationAccounting) : Digest :=
  hash_bytes (domain "zerostack.kernel.receipt" ++ to_be 2 TWO_PHASE_SCHEMA_VERSION ++
    [byte_of (kind_index kind)] ++ permit_id ++ binding_digest binding ++ admission ++ artifact_set ++
    reasoning ++ cut ++ rcq ++ append_optional_digest snap ++ shield ++ Quality.admission_digest quality ++
    [byte_of (match selection with Quality.Candidate => 0 | Quality.FrozenBaselineSelected => 1 end)] ++
    transaction ++ append_optional_digest deoptimization ++
    [byte_of (match attribution with Fixed => 0 | Changed => 1 end); byte_of (effect_class_tag class)] ++
    envelope_bytes envelope ++ [byte_of (surface_index surface)] ++ append_optional_digest verification ++
    output ++ effects ++ usage_bytes usage ++ eb_predecessor_receipt_head binding ++ root ++ trace ++
    [failure_byte failure] ++ to_be 8 (ra_attempted restoration) ++ to_be 8 (ra_completed restoration) ++
    to_be 8 (ra_debt restoration)).

Definition snap_certificate_digest (s : SnapEvidence) : option Digest :=
  match s with NotClaimed => None | Verified c => Some (RobustSnap.certificate_digest c) end.

Definition finalize (f : ReadyToFinalize) : R FinalReceipt :=
  let t := pass G9ReceiptCommitment (rf_trace f) in
  let? _ := verify_complete t in
  let r := rf_request f in
  let e := pr_evidence r in
  let c := rf_closure f in
  let output := hash_bytes (rf_buffered_visible f) in
  let effects := effect_list_digest (rf_staged_effects f) in
  let kind := match tc_kind c with ClosureCommit => KCommit | ClosureFallback => KFallback end in
  let selection := match kind with
                   | KCommit => Quality.Candidate | KFallback => Quality.FrozenBaselineSelected end in
  let cut := ge_semantic_cut e in
  let head := receipt_digest kind (rf_permit_id f) (pr_binding r) (admission_digest r)
    (ca_artifact_set_digest (ge_artifacts e)) (Reasoning.ra_admission_digest (ge_reasoning_admission e))
    (SemanticCut.certificate_digest cut) (rcq_of cut) (snap_certificate_digest (ge_snap e))
    (ss_shield_digest (ge_safety_shield e)) (Quality.QualityAdmission_record (ge_performance e)) selection
    (tc_transaction_receipt_digest c) (tc_deoptimization_execution_receipt_digest c) Fixed
    (pr_effect_class r) (pr_envelope r) (pr_surface r) (rf_verification_digest f) output effects (rf_usage f)
    (tc_root c) (trace_digest t) (execution_failure t) (tc_restoration c) in
  let common := mkCommon (rf_permit_id f) (pr_binding r) (admission_digest r)
    (ca_artifact_set_digest (ge_artifacts e)) (ge_reasoning_admission e) (SemanticCut.certificate_digest cut)
    (SemanticCut.SemanticCutEvidence_record cut) (rcq_of cut) (snap_certificate_digest (ge_snap e))
    (ss_shield_digest (ge_safety_shield e)) (Quality.QualityAdmission_record (ge_performance e)) selection
    (tc_transaction_receipt_digest c) (tc_deoptimization_execution_receipt_digest c) Fixed
    (pr_effect_class r) (pr_envelope r) (pr_surface r) (rf_verification_digest f) output effects (rf_usage f)
    (tc_root c) t head (execution_failure t) (tc_restoration c) in
  Ok match kind with
     | KCommit => FCommit common (rf_buffered_visible f) (rf_staged_effects f)
     | KFallback => FFallback common
     end.

Definition common_record (c : ReceiptCommon) (kind : ReceiptKind) : ReceiptRecord :=
  let b := rcm_binding c in
  mkReceiptRecord TWO_PHASE_SCHEMA_VERSION kind (rcm_permit_id c) (binding_digest b) (rcm_admission_digest c)
    (eb_assembly_manifest_digest b) (eb_source_tree_digest b) (eb_source_repository_heads b)
    (eb_image_digest b) (eb_state_snapshot_digest b) (eb_task_fingerprint_digest b) (eb_plan_digest b)
    (eb_fixed_model_digest b) (eb_baseline_reasoning_contract b) (eb_reasoning_contract b)
    (eb_baseline_reasoning_contract_digest b) (eb_reasoning_contract_digest b) (rcm_reasoning_admission c)
    (eb_comparison_identity_digest b) (eb_semantic_cut_verifier_identity_digest b)
    (rcm_artifact_set_digest c) (rcm_semantic_cut_certificate_digest c) (rcm_semantic_cut c)
    (rcm_terminal_rcq_identity_digest c) (rcm_snap_certificate_digest c) (rcm_safety_shield_digest c)
    (rcm_quality_admission c) (rcm_final_quality_selection c) (rcm_transaction_receipt_digest c)
    (rcm_deoptimization_execution_receipt_digest c) (rcm_attribution_class c) (rcm_effect_class c)
    (rcm_resource_envelope c) (rcm_surface c) (rcm_verification_digest c) (rcm_output_digest c)
    (rcm_effects_digest c) (rcm_usage c) (eb_predecessor_receipt_head b) (rcm_successor_root c)
    (trace_digest (rcm_trace c)) (rcm_receipt_head c) (rcm_failure_code c) (rcm_restoration c).

(** [CommitReceipt::record] and [FallbackReceipt::record]. *)
Definition receipt_record (f : FinalReceipt) : ReceiptRecord :=
  match f with FCommit c _ _ => common_record c KCommit | FFallback c => common_record c KFallback end.

(** [CommitReceipt::publish]; a fallback receipt has nothing to publish. *)
Definition publish (f : FinalReceipt) : option PublishedCommit :=
  match f with
  | FCommit c visible staged =>
      Some (mkPublished visible staged (rcm_receipt_head c) (rcm_successor_root c)
              (JournalRootCommitted (rcm_transaction_receipt_digest c)))
  | FFallback _ => None
  end.

(** * Validation of receipt records *)

Definition record_binding (r : ReceiptRecord) : ExecutionBinding :=
  mkBinding (rec_schema_version r) (rec_assembly_manifest_digest r) (rec_source_tree_digest r)
    (rec_source_repository_heads r) (rec_image_digest r) (rec_state_snapshot_digest r)
    (rec_task_fingerprint_digest r) (rec_plan_digest r) (rec_fixed_model_digest r)
    (rec_baseline_reasoning_contract r) (rec_reasoning_contract r)
    (rec_baseline_reasoning_contract_digest r) (rec_reasoning_contract_digest r)
    (rec_comparison_identity_digest r) (rec_semantic_cut_verifier_identity_digest r)
    (rec_predecessor_receipt_head r).

Definition reasoning_receipt_fields_valid (r : ReceiptRecord) : bool :=
  reasoning_contract_valid (record_binding r) &&
  reasoning_admission_valid (record_binding r) (rec_reasoning_admission r).

Definition semantic_cut_receipt_fields_valid (r : ReceiptRecord) : bool :=
  let cut := rec_semantic_cut r in
  is_ok (SemanticCut.SemanticCutCertificateRecord_validate cut) &&
  bool_decide (SemanticCut.certificate_digest cut = rec_semantic_cut_certificate_digest r) &&
  bool_decide (rcq_of cut = rec_terminal_rcq_identity_digest r) && cut_bound (record_binding r) cut.

Definition quality_receipt_fields_valid (r : ReceiptRecord) : bool :=
  let q := rec_quality_admission r in
  is_ok (Quality.QualityAdmissionRecord_validate q) && quality_scope_bound (record_binding r) q &&
  quality_candidate_bound two_phase_contract_digest (record_binding r) q &&
  match rec_kind r, rec_final_quality_selection r with
  | KCommit, Quality.Candidate | KFallback, Quality.FrozenBaselineSelected => true
  | _, _ => false
  end &&
  (negb (bool_decide (rec_kind r = KCommit)) || bool_decide (Quality.selection q = Quality.Candidate)).

Definition required_digests (r : ReceiptRecord) : list Digest :=
  [rec_permit_id r; rec_binding_digest r; rec_admission_digest r; rec_assembly_manifest_digest r;
   rec_source_tree_digest r; rec_image_digest r; rec_state_snapshot_digest r;
   rec_task_fingerprint_digest r; rec_plan_digest r; rec_fixed_model_digest r;
   rec_baseline_reasoning_contract_digest r; rec_reasoning_contract_digest r;
   Reasoning.ra_admission_digest (rec_reasoning_admission r); rec_comparison_identity_digest r;
   rec_semantic_cut_verifier_identity_digest r; rec_artifact_set_digest r;
   rec_semantic_cut_certificate_digest r; rec_terminal_rcq_identity_digest r; rec_safety_shield_digest r;
   Quality.admission_digest (rec_quality_admission r); rec_transaction_receipt_digest r;
   rec_output_digest r; rec_effects_digest r; rec_predecessor_receipt_head r; rec_successor_root r;
   rec_trace_digest r; rec_receipt_head r].

Definition closure_valid (r : ReceiptRecord) : bool :=
  let a := rec_restoration r in
  match rec_kind r with
  | KCommit =>
      bool_decide (rec_deoptimization_execution_receipt_digest r = None) &&
      bool_decide (rec_failure_code r = None) && bool_decide (a = accounting_default)
  | KFallback =>
      negb (bool_decide (rec_deoptimization_execution_receipt_digest r = None)) && (ra_debt a =? 0)%N &&
      bool_decide (checked_add_u64 (ra_completed a) (ra_debt a) = Some (ra_attempted a))
  end.

Definition validate_receipt_record (r : ReceiptRecord) : R () :=
  guard? (rec_schema_version r =? TWO_PHASE_SCHEMA_VERSION)%N else execution ForgedReceipt in
  let? _ := validate_source_heads (rec_source_repository_heads r) in
  let binding := record_binding r in
  reject? existsb is_zero (required_digests r) || is_some_zero (rec_verification_digest r) ||
          is_some_zero (rec_snap_certificate_digest r) ||
          is_some_zero (rec_deoptimization_execution_receipt_digest r) ||
          negb (bool_decide (binding_digest binding = rec_binding_digest r)) ||
          negb (bool_decide (rec_attribution_class r = Fixed)) || envelope_has_zero (rec_resource_envelope r) ||
          negb (reasoning_receipt_fields_valid r) || negb (semantic_cut_receipt_fields_valid r) ||
          negb (quality_receipt_fields_valid r)
    with execution ForgedReceipt in
  guard? closure_valid r else execution ForgedReceipt in
  guard? bool_decide (rec_receipt_head r =
      receipt_digest (rec_kind r) (rec_permit_id r) binding (rec_admission_digest r)
        (rec_artifact_set_digest r) (Reasoning.ra_admission_digest (rec_reasoning_admission r))
        (rec_semantic_cut_certificate_digest r) (rec_terminal_rcq_identity_digest r)
        (rec_snap_certificate_digest r) (rec_safety_shield_digest r) (rec_quality_admission r)
        (rec_final_quality_selection r) (rec_transaction_receipt_digest r)
        (rec_deoptimization_execution_receipt_digest r) (rec_attribution_class r) (rec_effect_class r)
        (rec_resource_envelope r) (rec_surface r) (rec_verification_digest r) (rec_output_digest r)
        (rec_effects_digest r) (rec_resource_usage r) (rec_successor_root r) (rec_trace_digest r)
        (rec_failure_code r) (rec_restoration r))
    else execution ForgedReceipt in
  Ok ().
End Closure.
