(* ===== verification/KernelTheorems.v ===== *)
(** The two-phase kernel keeps its promises: permits record exactly the
    guards that passed, every reachable execution follows its plan inside its
    envelope, commits are verified, shielded and published at the journal's
    root, fallbacks publish nothing, and genuine receipts validate. *)

From stdpp Require Import relations.
From S2P Require Import Prelude.
From S2P Require Import DurableStore.
From S2P Require Import Identity.
From S2P Require Evidence.
From S2P Require Effect.
From S2P Require EffectWitness.
From S2P Require Reasoning.
From S2P Require SemanticCut.
From S2P Require RobustSnap.
From S2P Require Quality.
From S2P Require GateTransaction.
From S2P Require Deoptimization.
From S2P Require Import KernelCore.
From S2P Require Import TwoPhase.
From S2P Require Import KernelExecution.

(** * Positions in a plan *)

Section Positions.
Context {A : Type} (p : A -> bool).

Lemma position_Some l n :
  position p l = Some n -> exists x, l !! n = Some x /\ p x = true.
Proof.
  revert n. induction l as [|x l IH]; intros n; cbn; [done|].
  destruct (p x) eqn:Hx; [intros [= <-]; by exists x|].
  destruct (position p l) as [k|]; cbn; [|done]. intros [= <-]. by apply IH.
Qed.

Lemma count_take_S l n x :
  l !! n = Some x -> count p (take (S n) l) = count p (take n l) + (if p x then 1 else 0).
Proof.
  intros Hx. unfold count. rewrite (take_S_r _ _ _ Hx), List.filter_app, length_app. cbn. by destruct (p x).
Qed.

Lemma count_take_le l n : count p (take n l) <= count p l.
Proof.
  unfold count. rewrite <- (take_drop n l) at 2. rewrite List.filter_app, length_app. lia.
Qed.

(** A satisfying element before [n] is counted there. *)
Lemma count_take_pos l n k x : l !! k = Some x -> p x = true -> k < n -> 0 < count p (take n l).
Proof.
  intros Hx Hp Hk. assert (take (S k) l = take (S k) (take n l)) as He by (rewrite take_take; f_equal; lia).
  pose proof (count_take_le (take n l) (S k)) as Hle. rewrite <- He, (count_take_S _ _ _ Hx), Hp in Hle. lia.
Qed.

Lemma count_take_mono l n m : n <= m -> count p (take n l) <= count p (take m l).
Proof.
  intros Hnm. replace (take n l) with (take n (take m l)) by (rewrite take_take; f_equal; lia).
  apply count_take_le.
Qed.

(** The only satisfying element is counted exactly from its position on. *)
Lemma count_once l k x n :
  l !! k = Some x -> p x = true -> count p l = 1 -> 0 < count p (take n l) -> k < n.
Proof.
  intros Hx Hp Hone Hpos. destruct (decide (k < n)) as [|Hn]; [done|].
  pose proof (count_take_mono l n k ltac:(lia)). pose proof (count_take_le l (S k)) as Hle.
  rewrite (count_take_S _ _ _ Hx), Hp in Hle. lia.
Qed.

Lemma length_positions i l : length (positions p i l) = count p l.
Proof.
  revert i. induction l as [|x l IH]; intros i; cbn; [done|]. unfold count in *. cbn.
  destruct (p x); cbn; by rewrite IH.
Qed.

Lemma positions_lookup i l s :
  s ∈ positions p i l -> exists k x, s = i + k /\ l !! k = Some x /\ p x = true.
Proof.
  revert i. induction l as [|x l IH]; intros i; cbn; [by intros ?%elem_of_nil|].
  destruct (p x) eqn:Hx.
  - intros [->|Hs]%elem_of_cons; [exists 0, x; split_and!; [lia|done|done]|].
    apply IH in Hs as (k & y & -> & Hy & Hp). exists (S k), y. split_and!; [lia|done|done].
  - intros Hs. apply IH in Hs as (k & y & -> & Hy & Hp). exists (S k), y. split_and!; [lia|done|done].
Qed.
End Positions.

Section Kernel.
Context `{Platform, Codec Reasoning.ReasoningContract, Codec RobustSnap.SnapBody, Codec VerifiedEvidence}.
Context (contract : Digest).

(** * Phase one *)

Definition guards (r : PrepareRequest) : list (R ()) :=
  [validate_g0 r; validate_g1 r; validate_g2 r; validate_g3 r; validate_g4 r; validate_g5 r;
   validate_g6 r; validate_g7 contract r].

(** The permit a request earns. *)
Definition permit_of (r : PrepareRequest) : ExecutionPermit :=
  let t := foldl (fun t g => pass g t) trace_new (take 8 Guard_ALL) in
  mkPermit
    (permit_digest (admission_digest r) (trace_digest t) (pr_expiry_deadline_ms r) (pr_epoch r)
       (pr_caller_session_id r))
    r t (pr_expiry_deadline_ms r) (pr_epoch r) (pr_caller_session_id r).

(** Follow an error to the check that raised it. *)
Ltac err_guard :=
  repeat match goal with
  | He : Ok _ = Err _ |- _ => discriminate He
  | He : Err _ = Err _ |- _ => injection He as He; subst
  | He : mbind _ ?m = Err _ |- _ => let Hm := fresh in destruct m eqn:Hm; cbn [mbind result_bind] in He
  | He : map_err _ ?m = Err _ |- _ => destruct m; cbn [map_err] in He
  | He : ok_or ?m _ = Err _ |- _ => destruct m; cbn [ok_or] in He
  | He : (match ?c with _ => _ end) = Err _ |- _ => destruct c
  end.

Lemma source_heads_named previous unique heads e :
  source_heads_loop previous unique heads = Err e -> k_guard e = Some G1Coherence.
Proof.
  revert previous unique. induction heads as [|h heads IH]; intros previous unique; cbn [source_heads_loop]; [done|].
  destruct (Ordering.bset_insert _ _) as [fresh unique']. destruct (_ && fresh); [|by intros [= <-]].
  destruct (match previous with Some _ => _ | None => _ end); [by intros [= <-]|]. apply IH.
Qed.

(** Every guard reports under its own name. *)
Lemma guard_named r i e :
  guards r !! i = Some (Err e) -> k_guard e = Guard_ALL !! i.
Proof.
  intros Hi. destruct i as [|[|[|[|[|[|[|[|i]]]]]]]]; cbn [guards lookup list_lookup] in Hi; [..|by destruct i];
    injection Hi as Hi.
  - unfold validate_g0 in Hi. by err_guard.
  - unfold validate_g1, validate_source_heads in Hi. destruct (bool_decide _ && _ && _ && _ && _); [|by injection Hi as <-].
    destruct (_ || _); [by injection Hi as <-|]. by apply source_heads_named in Hi.
  - unfold validate_g2 in Hi. by err_guard.
  - unfold validate_g3 in Hi. by err_guard.
  - unfold validate_g4 in Hi. by err_guard.
  - unfold validate_g5 in Hi. by err_guard.
  - unfold validate_g6 in Hi. by err_guard.
  - unfold validate_g7 in Hi. by err_guard.
Qed.

(** The loop of guards: run the checks in order from guard [i] on. *)
Fixpoint run_guards (i : nat) (checks : list (R ())) (t : ExecutionTrace) : result PrepareFailure ExecutionTrace :=
  match checks, Guard_ALL !! i with
  | c :: rest, Some g => let? t := guarded g c t in run_guards (S i) rest t
  | _, _ => Ok t
  end.

Lemma run_guards_spec i checks t :
  events t = passed i -> i + length checks <= GUARD_COUNT ->
  match run_guards i checks t with
  | Ok t' => (forall c, c ∈ checks -> c = Ok ()) /\ events t' = passed (i + length checks) /\
             t' = foldl (fun t g => pass g t) t (take (length checks) (drop i Guard_ALL))
  | Err f => exists k, checks !! k = Some (Err (pf_error f)) /\
             (forall j, j < k -> checks !! j = Some (Ok ())) /\ events (pf_trace f) = passed (i + k)
  end.
Proof.
  revert i t. induction checks as [|c checks IH]; intros i t He Hlen; cbn [run_guards length] in *.
  { split_and!; [by intros c ?%elem_of_nil|by rewrite Nat.add_0_r|done]. }
  destruct (Guard_ALL !! i) as [g|] eqn:Hg.
  2:{ apply lookup_ge_None in Hg. cbn in Hg. unfold GUARD_COUNT in Hlen. lia. }
  destruct c as [[]|e]; cbn [guarded mbind result_bind].
  - specialize (IH (S i) (pass g t) (pass_passed i g t He Hg) ltac:(lia)).
    destruct (run_guards (S i) checks (pass g t)) as [t'|f].
    + destruct IH as (Hc & He' & Ht). split_and!.
      * intros c [->|Hin]%elem_of_cons; [done|by apply Hc].
      * rewrite He'. f_equal. lia.
      * by rewrite (drop_S _ _ _ Hg), Ht.
    + destruct IH as (k & Hk & Hb & He'). exists (S k). split_and!; [done| |rewrite He'; f_equal; lia].
      intros [|j] Hj; [done|]. cbn. apply Hb. lia.
  - exists 0. split_and!; [done|lia|by rewrite Nat.add_0_r].
Qed.

Lemma prepare_run r :
  prepare contract r =
  if bool_decide (pr_caller_session_id r = "") || (pr_epoch r =? 0)%N
  then Err (mkFailure (at_guard MissingBinding G0Canonical) trace_new)
  else let? t := run_guards 0 (guards r) trace_new in
       Ok (mkPermit
             (permit_digest (admission_digest r) (trace_digest t) (pr_expiry_deadline_ms r) (pr_epoch r)
                (pr_caller_session_id r))
             r t (pr_expiry_deadline_ms r) (pr_epoch r) (pr_caller_session_id r)).
Proof.
  unfold prepare. destruct (bool_decide _); [done|]. destruct (_ =? _)%N; [done|]. cbn [orb].
  unfold guards. cbn [run_guards lookup list_lookup Guard_ALL].
  repeat match goal with |- context [guarded ?g ?c ?t] =>
    let Hc := fresh in destruct c as [[]|] eqn:Hc; cbn [guarded mbind result_bind]; [|done] end.
  done.
Qed.

(** What a permit witnesses about its request. *)
Record permitted (r : PrepareRequest) : Prop := {
  per_session : pr_caller_session_id r <> "";
  per_epoch : pr_epoch r <> 0%N;
  per_guards : forall c, c ∈ guards r -> c = Ok () }.

Lemma prepare_Ok_inv r p : prepare contract r = Ok p -> permitted r /\ p = permit_of r.
Proof.
  rewrite prepare_run. destruct (_ || _) eqn:Hl; [done|]. apply orb_false_iff in Hl as [Hs He].
  apply bool_decide_eq_false in Hs. apply N.eqb_neq in He.
  pose proof (run_guards_spec 0 (guards r) trace_new eq_refl ltac:(cbn; unfold GUARD_COUNT; lia)) as Hr.
  destruct (run_guards 0 (guards r) trace_new) as [t|f]; cbn [mbind result_bind]; [|done].
  destruct Hr as (Hc & _ & ->). intros [= <-]. done.
Qed.

(** C3: C3: [prepare] is fail-closed and accounts for every guard.  It issues a
    permit exactly when the lease is complete and guards G0 to G7 all accept;
    the permit carries the request, its lease and a trace of exactly those
    guards.  On refusal the error is the one raised by the first guard that
    failed, under that guard's name, and the trace lists exactly the guards
    that had passed; a request without a session or epoch reaches no guard. *)
Theorem prepare_fail_closed r :
  match prepare contract r with
  | Ok p =>
      pr_caller_session_id r <> "" /\ pr_epoch r <> 0%N /\ Forall (fun c => c = Ok ()) (guards r) /\
      ep_request p = r /\ events (ep_trace p) = passed 8 /\ ep_expiry_deadline_ms p = pr_expiry_deadline_ms r /\
      ep_epoch p = pr_epoch r /\ ep_caller_session_id p = pr_caller_session_id r
  | Err f =>
      ((pr_caller_session_id r = "" \/ pr_epoch r = 0%N) /\ events (pf_trace f) = passed 0) \/
      (exists i, guards r !! i = Some (Err (pf_error f)) /\ (forall j, j < i -> guards r !! j = Some (Ok ())) /\
        events (pf_trace f) = passed i /\ k_guard (pf_error f) = Guard_ALL !! i)
  end.
Proof.
  destruct (prepare contract r) as [p|f] eqn:Hp.
  - apply prepare_Ok_inv in Hp as [[] ->]. split_and!; try done. apply List.Forall_forall.
    intros c Hc. apply per_guards0. by apply list_elem_of_In.
  - rewrite prepare_run in Hp. destruct (_ || _) eqn:Hl.
    { injection Hp as <-. left. split; [|done]. apply orb_true_iff in Hl as [Hs|He].
      - left. by apply bool_decide_eq_true in Hs.
      - right. by apply N.eqb_eq. }
    pose proof (run_guards_spec 0 (guards r) trace_new eq_refl ltac:(cbn; unfold GUARD_COUNT; lia)) as Hr.
    destruct (run_guards 0 (guards r) trace_new) as [t|f']; cbn [mbind result_bind] in Hp; [done|].
    injection Hp as <-. destruct Hr as (k & Hk & Hb & He). right. exists k. split_and!; try done.
    by apply (guard_named r).
Qed.

(** * Plans that pass G2 *)

Record well_planned (r : PrepareRequest) (v w : nat) : Prop := {
  wp_length : length (pr_plan r) <= MAX_CONTROLLER_INSTRUCTIONS;
  wp_last : list.last (pr_plan r) = Some CloseTransaction;
  wp_verify : pr_plan r !! v = Some Verify;
  wp_visible : pr_plan r !! w = Some BufferVisible;
  wp_order : v < w;
  wp_verify_once : count is_verify (pr_plan r) = 1;
  wp_visible_once : count is_visible (pr_plan r) = 1;
  wp_dispatch : 0 < count is_dispatch (pr_plan r);
  wp_read_only : pr_effect_class r = Effect.ReadOnly -> count is_stage (pr_plan r) = 0;
  wp_staged : pr_effect_class r <> Effect.ReadOnly ->
    exists s, pr_plan r !! s = Some StageEffect /\ v < s < w /\ count is_stage (pr_plan r) = 1 }.

Lemma g2_well_planned r : validate_g2 r = Ok () -> exists v w, well_planned r v w.
Proof.
  unfold validate_g2. intros Hg. repeat inv_ok1. rename a into v, a0 into w.
  apply position_Some in Ha as (i & Hv & Hi). apply position_Some in Ha0 as (j & Hw & Hj).
  apply bool_decide_eq_true in Hi. apply bool_decide_eq_true in Hj. subst i j. breflect.
  exists v, w. constructor; try done; try lia.
  - intros Hro. rewrite (bool_decide_eq_true_2 _ Hro) in Heqb2. cbn in Heqb2. apply negb_false_iff, Nat.eqb_eq in Heqb2.
    by rewrite length_positions in Heqb2.
  - intros Hro. rewrite (bool_decide_eq_false_2 _ Hro) in Heqb3. cbn in Heqb3.
    destruct (positions is_stage 0 (pr_plan r)) as [|s [|]] eqn:Hs; try done. breflect.
    destruct (positions_lookup is_stage 0 (pr_plan r) s) as (k & x & -> & Hk & Hx).
    { rewrite Hs. by apply list_elem_of_singleton. }
    apply bool_decide_eq_true in Hx. subst x. exists k. cbn in *. split_and!; [done|lia|lia|].
    by rewrite <- (length_positions _ 0), Hs.
Qed.

(** * Reachable executions *)

Inductive step (x y : BrokeredExecution) : Prop :=
| step_dispatch owner usage : dispatch x owner usage = Ok y -> step x y
| step_transform : deterministic_transform x = Ok y -> step x y
| step_verify evidence : record_verification x evidence = Ok y -> step x y
| step_stage effect : stage_effect x effect = Ok y -> step x y
| step_visible b : buffer_visible x b = Ok y -> step x y.

(** Started from the permit at [now] and advanced by any accepted calls. *)
Definition runs (p : ExecutionPermit) (now : N) (x : BrokeredExecution) : Prop :=
  exists x0, start_at p now = Ok x0 /\ rtc step x0 x.

(** The staged effect is the shielded action, under its grants. *)
Definition admitted (r : PrepareRequest) (e : StagedEffect) : Prop :=
  let ev := pr_evidence r in
  se_effect_class e = pr_effect_class r /\
  ss_action_digest (ge_safety_shield ev) = Some (se_effect_digest e) /\
  ss_acceptance_digest (ge_safety_shield ev) = se_acceptance_digest e /\
  (pr_effect_class r = Effect.ApprovalRequiredMutation ->
   exists g, ge_approval_grant_digest ev = Some g /\ se_approval_grant_digest e = Some g) /\
  (pr_effect_class r = Effect.Irreversible ->
   exists g, ge_irreversible_pre_action_evidence_digest ev = Some g /\ se_pre_action_evidence_digest e = Some g).

Record on_plan (r : PrepareRequest) (x : BrokeredExecution) : Prop := {
  op_request : x_request x = r;
  op_permit : x_permit_id x = ep_permit_id (permit_of r);
  op_events : events (x_trace x) = passed 8;
  op_failure : execution_failure (x_trace x) = None;
  op_next : x_next_instruction x <= length (pr_plan r);
  op_executed : executed_instructions (x_trace x) = as_u32 (x_next_instruction x);
  op_within : within_envelope (x_usage x) (pr_envelope r) = true;
  op_steps : t_worker_steps (x_trace x) = ru_worker_steps (x_usage x);
  op_visible : buffered_visible_bytes (x_trace x) = len (x_buffered_visible x);
  op_bound : (len (x_buffered_visible x) <= we_output_bytes (pr_envelope r))%N;
  op_after : x_buffered_visible x <> [] -> 0 < count is_visible (take (x_next_instruction x) (pr_plan r));
  op_verified : x_verification_digest x = None <->
                count is_verify (take (x_next_instruction x) (pr_plan r)) = 0;
  op_nonzero : forall d, x_verification_digest x = Some d -> is_zero d = false;
  op_count : length (x_staged_effects x) = count is_stage (take (x_next_instruction x) (pr_plan r));
  op_trace : t_staged_effects (x_trace x) = as_u32 (length (x_staged_effects x));
  op_staged : Forall (admitted r) (x_staged_effects x) }.

Lemma expect_Ok x i : expect x i = Ok () <-> pr_plan (x_request x) !! x_next_instruction x = Some i.
Proof.
  unfold expect. destruct (_ !! _) as [a|]; [|by split]. rewrite guard_Ok, bool_decide_eq_true. naive_solver.
Qed.

Lemma within_default e : within_envelope usage_default e = true.
Proof. unfold within_envelope. cbn. rewrite !andb_true_iff, !N.leb_le. repeat split; apply N.le_0_l. Qed.

Lemma start_on_plan r now x : start_at (permit_of r) now = Ok x -> on_plan r x.
Proof.
  unfold start_at. intros Hs. repeat inv_ok1.
  constructor; cbn; try done; try lia; [apply within_default|apply N.le_0_l].
Qed.

Lemma dispatch_inv x owner usage y :
  dispatch x owner usage = Ok y ->
  pr_plan (x_request x) !! x_next_instruction x = Some (Dispatch owner) /\
  exists next, within_envelope next (pr_envelope (x_request x)) = true /\
  y = advance x (set_worker_steps (ru_worker_steps next) (x_trace x)) next (x_verification_digest x)
        (x_buffered_visible x) (x_staged_effects x).
Proof.
  unfold dispatch, check_usage. intros Hd. repeat inv_ok1. repeat match goal with u : () |- _ => destruct u end.
  match goal with He : expect _ _ = Ok _ |- _ => apply expect_Ok in He end. eauto.
Qed.

Lemma stage_admitted x e y :
  stage_effect x e = Ok y ->
  pr_plan (x_request x) !! x_next_instruction x = Some StageEffect /\ admitted (x_request x) e /\
  y = advance x (set_staged (as_u32 (length (x_staged_effects x ++ [e]))) (x_trace x)) (x_usage x)
        (x_verification_digest x) (x_buffered_visible x) (x_staged_effects x ++ [e]).
Proof.
  unfold stage_effect. intros Hs. repeat inv_ok1. repeat match goal with u : () |- _ => destruct u end.
  match goal with He : expect _ _ = Ok _ |- _ => apply expect_Ok in He end. breflect.
  split_and!; try done. unfold admitted. split_and!; try done.
  - intros Hc. rewrite <- H3 in Hc. rewrite (bool_decide_eq_true_2 _ Hc) in Heqb0. cbn in Heqb0. breflect.
    destruct (ge_approval_grant_digest _) as [g|]; [|done]. eauto.
  - intros Hc. rewrite <- H3 in Hc. rewrite (bool_decide_eq_true_2 _ Hc) in Heqb1. cbn in Heqb1. breflect.
    destruct (ge_irreversible_pre_action_evidence_digest _) as [g|]; [|done]. eauto.
Qed.

(** Every resource used is inside its bound. *)
Definition inside (u : ResourceUsage) (e : WorkerEnvelope) : Prop :=
  (ru_fuel u <= we_fuel e /\ ru_elapsed_ms u <= we_deadline_ms e /\ ru_io_bytes u <= we_io_bytes e /\
   ru_memory_bytes u <= we_memory_bytes e /\ ru_processes u <= we_processes e /\
   ru_risk_units u <= we_risk_units e /\ ru_worker_steps u <= we_worker_steps e)%N.

Lemma within_envelope_spec u e : within_envelope u e = true <-> inside u e.
Proof. unfold within_envelope, inside. rewrite !andb_true_iff, !N.leb_le. tauto. Qed.

(** * Every step keeps to the plan *)

(** What advancing past instruction [i] must account for. *)
Lemma advance_on_plan r x i t u v visible staged :
  on_plan r x -> pr_plan r !! x_next_instruction x = Some i ->
  events t = passed 8 -> execution_failure t = None ->
  within_envelope u (pr_envelope r) = true -> t_worker_steps t = ru_worker_steps u ->
  buffered_visible_bytes t = len visible -> (len visible <= we_output_bytes (pr_envelope r))%N ->
  (visible = x_buffered_visible x \/ is_visible i = true) ->
  (v = x_verification_digest x /\ is_verify i = false \/
   is_verify i = true /\ exists d, v = Some d /\ is_zero d = false) ->
  (staged = x_staged_effects x /\ is_stage i = false \/
   is_stage i = true /\ exists e, staged = x_staged_effects x ++ [e] /\ admitted r e) ->
  t_staged_effects t = as_u32 (length staged) ->
  on_plan r (advance x t u v visible staged).
Proof.
  intros [] Hi Ht Hf Hw Hs Hb Hl Hvis Hver Hst Hn.
  pose proof (lookup_lt_Some _ _ _ Hi) as Hlt.
  constructor; cbn [advance x_request x_permit_id x_trace x_next_instruction x_usage x_buffered_visible
    x_verification_digest x_staged_effects set_executed events executed_instructions t_worker_steps
    buffered_visible_bytes t_staged_effects execution_failure]; try done; rewrite ?(count_take_S _ _ _ _ Hi).
  - intros Hne. destruct Hvis as [-> | ->]; [|lia]. specialize (op_after0 Hne). lia.
  - destruct Hver as [[-> ->]|[-> (d & -> & _)]]; [by rewrite Nat.add_0_r|]. split; [done|lia].
  - intros d Hd. destruct Hver as [[-> _]|[_ (d' & -> & Hz)]]; [by apply op_nonzero0|by injection Hd as <-].
  - destruct Hst as [[-> ->]|[-> (e & -> & _)]]; [by rewrite Nat.add_0_r|]. rewrite length_app, op_count0. done.
  - destruct Hst as [[-> _]|[_ (e & -> & He)]]; [done|]. apply Forall_app. split; [done|by constructor].
Qed.

Lemma step_on_plan r x y : on_plan r x -> step x y -> on_plan r y.
Proof.
  intros Hx Hstep. pose proof (op_request _ _ Hx) as <-. destruct Hstep as [owner u Hs|Hs|e Hs|e Hs|b Hs].
  - apply dispatch_inv in Hs as (Hi & next & Hw & ->).
    eapply advance_on_plan; eauto; destruct Hx; cbn; eauto.
  - unfold deterministic_transform in Hs. repeat inv_ok1.
    match goal with He : expect _ _ = Ok ?u |- _ => destruct u; apply expect_Ok in He end.
    eapply advance_on_plan; eauto; destruct Hx; eauto.
  - unfold record_verification in Hs. repeat inv_ok1.
    match goal with He : expect _ _ = Ok ?u |- _ => destruct u; apply expect_Ok in He end.
    eapply advance_on_plan; eauto; destruct Hx; cbn; eauto.
  - apply stage_admitted in Hs as (Hi & Ha & ->).
    eapply advance_on_plan; eauto; destruct Hx; cbn; eauto.
  - unfold buffer_visible in Hs. repeat inv_ok1.
    match goal with He : expect _ _ = Ok ?u |- _ => destruct u; apply expect_Ok in He end.
    match goal with Ha : checked_add_u64 _ _ = Some _ |- _ => apply checked_add_u64_Some in Ha as -> end.
    breflect.
    eapply advance_on_plan; eauto; destruct Hx; cbn; eauto.
    + unfold len. rewrite length_app. lia.
    + unfold len in *. rewrite length_app. lia.
Qed.

Lemma runs_on_plan r now x : runs (permit_of r) now x -> on_plan r x.
Proof.
  intros (x0 & Hs & Hr). apply start_on_plan in Hs. induction Hr as [|x0 x1 x2 Hstep _ IH]; [done|].
  by apply IH, (step_on_plan _ x0).
Qed.

Lemma as_u32_small n : (N.of_nat n < 2 ^ 32)%N -> as_u32 n = N.of_nat n.
Proof. apply N.mod_small. Qed.

(** Nothing leaves the buffer and nothing is staged before verification, and
    no byte is visible before the effect is staged. *)
Lemma plan_order r v w x :
  well_planned r v w -> on_plan r x ->
  (x_verification_digest x = None -> x_buffered_visible x = [] /\ x_staged_effects x = []) /\
  (x_buffered_visible x <> [] -> pr_effect_class r <> Effect.ReadOnly -> length (x_staged_effects x) = 1) /\
  length (x_staged_effects x) <= 1 /\ (pr_effect_class r = Effect.ReadOnly -> x_staged_effects x = []).
Proof.
  intros [] []. set (n := x_next_instruction x) in *. set (cnt p := count p (take n (pr_plan r))) in *.
  assert (pr_effect_class r = Effect.ReadOnly -> x_staged_effects x = []) as Hro.
  { intros Hc. apply nil_length_inv. pose proof (count_take_le is_stage (pr_plan r) n). specialize (wp_read_only0 Hc). lia. }
  split_and!; [|intros Hne Hc| |done].
  - intros Hv. apply op_verified0 in Hv.
    assert (n <= v) as Hn.
    { destruct (decide (v < n)) as [Hlt|]; [|lia].
      pose proof (count_take_pos is_verify _ _ _ _ wp_verify0 eq_refl Hlt). lia. }
    split.
    + destruct (x_buffered_visible x) as [|b l]; [done|]. specialize (op_after0 ltac:(done)).
      apply (count_once _ _ _ _ _ wp_visible0 eq_refl wp_visible_once0) in op_after0. lia.
    + destruct (decide (pr_effect_class r = Effect.ReadOnly)) as [Hc|Hc]; [by apply Hro|].
      destruct (wp_staged0 Hc) as (s & Hs & Hr & Hone). apply nil_length_inv. rewrite op_count0.
      destruct (decide (0 < cnt is_stage)) as [Hp|]; [|unfold cnt in *; lia].
      apply (count_once _ _ _ _ _ Hs eq_refl Hone) in Hp. lia.
  - specialize (op_after0 Hne). apply (count_once _ _ _ _ _ wp_visible0 eq_refl wp_visible_once0) in op_after0.
    destruct (wp_staged0 Hc) as (s & Hs & Hr & Hone). rewrite op_count0.
    assert (s < n) as Hlt by lia. pose proof (count_take_pos is_stage _ _ _ _ Hs eq_refl Hlt).
    pose proof (count_take_le is_stage (pr_plan r) n). lia.
  - destruct (decide (pr_effect_class r = Effect.ReadOnly)) as [Hc|Hc]; [rewrite (Hro Hc); cbn; lia|].
    destruct (wp_staged0 Hc) as (s & Hs & Hr & Hone). pose proof (count_take_le is_stage (pr_plan r) n). lia.
Qed.

Lemma permitted_planned r : permitted r -> exists v w, well_planned r v w.
Proof.
  intros [_ _ Hg]. apply g2_well_planned, Hg, list_elem_of_lookup. by exists 2.
Qed.

(** C2: However the broker is driven, a permitted execution stays inside its
    lease, its plan and its envelope.  A permit past its deadline starts
    nothing.  In every reachable state the usage is within the envelope and
    the buffered output within its byte bound; before verification nothing is
    buffered and nothing staged, and no byte is buffered before the effect is
    staged; at most one effect is staged, none by a read-only request, and it
    is the shielded action under its grants; and the trace states the
    instructions, worker steps, bytes and effects truthfully, untruncated. *)
Theorem execution_invariant r p now x :
  prepare contract r = Ok p -> runs p now x ->
  (now <= pr_expiry_deadline_ms r)%N /\ x_next_instruction x <= length (pr_plan r) /\
  inside (x_usage x) (pr_envelope r) /\
  (len (x_buffered_visible x) <= we_output_bytes (pr_envelope r))%N /\
  (x_verification_digest x = None -> x_buffered_visible x = [] /\ x_staged_effects x = []) /\
  (x_buffered_visible x <> [] -> pr_effect_class r <> Effect.ReadOnly -> length (x_staged_effects x) = 1) /\
  length (x_staged_effects x) <= 1 /\ (pr_effect_class r = Effect.ReadOnly -> x_staged_effects x = []) /\
  Forall (admitted r) (x_staged_effects x) /\
  executed_instructions (x_trace x) = N.of_nat (x_next_instruction x) /\
  t_worker_steps (x_trace x) = ru_worker_steps (x_usage x) /\
  buffered_visible_bytes (x_trace x) = len (x_buffered_visible x) /\
  t_staged_effects (x_trace x) = N.of_nat (length (x_staged_effects x)).
Proof.
  intros (Hp & ->)%prepare_Ok_inv Hrun. pose proof (runs_on_plan _ _ _ Hrun) as Hx.
  destruct (permitted_planned _ Hp) as (v & w & Hw).
  destruct (plan_order _ _ _ _ Hw Hx) as (Ha & Hb & Hc & Hd). pose proof (wp_length _ _ _ Hw) as Hlen.
  assert (now <= pr_expiry_deadline_ms r)%N.
  { destruct Hrun as (x0 & Hs & _). unfold start_at in Hs. repeat inv_ok1. breflect. done. }
  destruct Hx. unfold MAX_CONTROLLER_INSTRUCTIONS in Hlen. split_and!; try done.
  - by apply within_envelope_spec.
  - rewrite op_executed0. apply as_u32_small. lia.
  - rewrite op_trace0. apply as_u32_small. lia.
Qed.

(** * Closing *)

Inductive closes (x : BrokeredExecution) (c : TransactionClosure) (f : ReadyToFinalize)
  : option FailureCode -> Prop :=
| closes_done : close_transaction x c = Ok f -> closes x c f None
| closes_abort code : abort x code c = Ok f -> closes x c f (Some code).

Record closed (r : PrepareRequest) (x : BrokeredExecution) (c : TransactionClosure)
  (failure : option FailureCode) (f : ReadyToFinalize) : Prop := {
  cl_valid : validate_closure x c failure = Ok ();
  cl_permit : rf_permit_id f = ep_permit_id (permit_of r);
  cl_request : rf_request f = r;
  cl_events : events (rf_trace f) = passed 9;
  cl_failure : execution_failure (rf_trace f) = failure;
  cl_usage : rf_usage f = x_usage x;
  cl_verification : rf_verification_digest f = x_verification_digest x;
  cl_visible : rf_buffered_visible f = x_buffered_visible x;
  cl_staged : rf_staged_effects f = x_staged_effects x;
  cl_closure : rf_closure f = c;
  cl_whole : failure = None ->
    pr_plan r !! x_next_instruction x = Some CloseTransaction /\
    S (x_next_instruction x) = length (pr_plan r) /\ x_verification_digest x <> None;
  cl_kind : failure <> None -> tc_kind c = ClosureFallback }.

Lemma closes_closed r x c f failure : on_plan r x -> closes x c f failure -> closed r x c failure f.
Proof.
  intros Hx Hc. pose proof (op_request _ _ Hx) as Hr. pose proof (op_permit _ _ Hx) as Hp.
  pose proof (op_events _ _ Hx) as He. pose proof (op_failure _ _ Hx) as Hf. destruct Hc as [Hc|code Hc].
  - unfold close_transaction, into_ready in Hc. repeat inv_ok1.
    match goal with Ha : expect _ _ = Ok ?u, Hb : validate_closure _ _ _ = Ok ?w |- _ =>
      destruct u, w; apply expect_Ok in Ha end. breflect.
    constructor; cbn [rf_permit_id rf_request rf_trace rf_usage rf_verification_digest rf_buffered_visible
      rf_staged_effects rf_closure advance x_permit_id x_request x_trace x_usage x_verification_digest
      x_buffered_visible x_staged_effects] in *; try done.
    by apply (pass_passed 8).
  - unfold abort, into_ready in Hc. repeat inv_ok1.
    match goal with Hb : validate_closure _ _ _ = Ok ?w |- _ => destruct w end. breflect.
    constructor; cbn [rf_permit_id rf_request rf_trace rf_usage rf_verification_digest rf_buffered_visible
      rf_staged_effects rf_closure x_permit_id x_request x_trace x_usage x_verification_digest
      x_buffered_visible x_staged_effects] in *; try done.
    by apply (pass_passed 8).
Qed.

Definition final_kind (f : ReadyToFinalize) : ReceiptKind :=
  match tc_kind (rf_closure f) with ClosureCommit => KCommit | ClosureFallback => KFallback end.

(** The receipt facts read off the execution that was closed. *)
Record common_for (f : ReadyToFinalize) (common : ReceiptCommon) : Prop := {
  cf_permit : rcm_permit_id common = rf_permit_id f;
  cf_binding : rcm_binding common = pr_binding (rf_request f);
  cf_admission : rcm_admission_digest common = admission_digest (rf_request f);
  cf_selection : rcm_final_quality_selection common =
    match final_kind f with KCommit => Quality.Candidate | KFallback => Quality.FrozenBaselineSelected end;
  cf_transaction : rcm_transaction_receipt_digest common = tc_transaction_receipt_digest (rf_closure f);
  cf_deoptimization : rcm_deoptimization_execution_receipt_digest common =
    tc_deoptimization_execution_receipt_digest (rf_closure f);
  cf_verification : rcm_verification_digest common = rf_verification_digest f;
  cf_output : rcm_output_digest common = hash_bytes (rf_buffered_visible f);
  cf_effects : rcm_effects_digest common = effect_list_digest (rf_staged_effects f);
  cf_usage : rcm_usage common = rf_usage f;
  cf_root : rcm_successor_root common = tc_root (rf_closure f);
  cf_trace : events (rcm_trace common) = passed GUARD_COUNT;
  cf_failure : rcm_failure_code common = execution_failure (rf_trace f);
  cf_restoration : rcm_restoration common = tc_restoration (rf_closure f);
  cf_artifacts : rcm_artifact_set_digest common =
    ca_artifact_set_digest (ge_artifacts (pr_evidence (rf_request f)));
  cf_reasoning : rcm_reasoning_admission common = ge_reasoning_admission (pr_evidence (rf_request f));
  cf_cut : rcm_semantic_cut common = ge_semantic_cut (pr_evidence (rf_request f));
  cf_cut_digest : rcm_semantic_cut_certificate_digest common = SemanticCut.certificate_digest (rcm_semantic_cut common);
  cf_rcq : rcm_terminal_rcq_identity_digest common = rcq_of (rcm_semantic_cut common);
  cf_snap : rcm_snap_certificate_digest common = snap_certificate_digest (ge_snap (pr_evidence (rf_request f)));
  cf_shield : rcm_safety_shield_digest common =
    ss_shield_digest (ge_safety_shield (pr_evidence (rf_request f)));
  cf_quality : rcm_quality_admission common = ge_performance (pr_evidence (rf_request f));
  cf_attribution : rcm_attribution_class common = Fixed;
  cf_envelope : rcm_resource_envelope common = pr_envelope (rf_request f);
  cf_head : rcm_receipt_head common =
    receipt_digest (final_kind f) (rcm_permit_id common) (rcm_binding common) (rcm_admission_digest common)
      (rcm_artifact_set_digest common) (Reasoning.ra_admission_digest (rcm_reasoning_admission common))
      (rcm_semantic_cut_certificate_digest common) (rcm_terminal_rcq_identity_digest common)
      (rcm_snap_certificate_digest common) (rcm_safety_shield_digest common) (rcm_quality_admission common)
      (rcm_final_quality_selection common) (rcm_transaction_receipt_digest common)
      (rcm_deoptimization_execution_receipt_digest common) (rcm_attribution_class common)
      (rcm_effect_class common) (rcm_resource_envelope common) (rcm_surface common)
      (rcm_verification_digest common) (rcm_output_digest common) (rcm_effects_digest common)
      (rcm_usage common) (rcm_successor_root common) (trace_digest (rcm_trace common))
      (rcm_failure_code common) (rcm_restoration common) }.

Lemma finalize_common f :
  events (rf_trace f) = passed 9 ->
  exists common, common_for f common /\
    finalize f = Ok match final_kind f with
                    | KCommit => FCommit common (rf_buffered_visible f) (rf_staged_effects f)
                    | KFallback => FFallback common
                    end.
Proof.
  intros He. pose proof (pass_passed 9 G9ReceiptCommitment (rf_trace f) He eq_refl) as He'.
  unfold finalize. rewrite (proj2 (verify_complete_spec _) He'). cbn [mbind result_bind].
  unfold final_kind. destruct (tc_kind (rf_closure f)) eqn:Hk; eexists; (split; [|reflexivity]);
    constructor; try done; unfold final_kind; by rewrite Hk.
Qed.

(** The two ways a safety shield is made. *)
Definition minted (s : SafetyShieldEvidence) : Prop :=
  (exists state verifier evidence, from_read_only_verified state verifier evidence = Ok s) \/
  (exists a, from_effect_accepted a = Ok s).

Lemma minted_action s d :
  minted s -> ss_action_digest s = Some d -> exists a,
    ss_kind s = ShieldAcceptedEffect /\ ss_accepted_effect s = Some a /\
    EffectWitness.EffectAccepted_validate a = Ok () /\ EffectWitness.action_digest a = d /\
    ss_acceptance_digest s = Some (EffectWitness.acceptance_digest a) /\
    ss_state_snapshot s = EffectWitness.state_snapshot a.
Proof.
  intros [(st & v & e & Hs)|(a & Hs)] Hd.
  - unfold from_read_only_verified in Hs. repeat inv_ok1. done.
  - unfold from_effect_accepted in Hs. repeat inv_ok1. cbn in Hd. injection Hd as <-.
    repeat match goal with u : () |- _ => destruct u end. exists a. done.
Qed.

Lemma from_receipt_inv t c :
  from_receipt t = Ok c ->
  GateTransaction.disposition t = GateTransaction.CandidateCommitted /\ tc_kind c = ClosureCommit /\
  tc_root c = GateTransaction.observed_root t /\ tc_action_digest c = GateTransaction.action_digest t /\
  tc_acceptance_digest c = GateTransaction.acceptance_digest t /\
  tc_baseline_state c = GateTransaction.baseline_state t /\
  tc_candidate_state c = GateTransaction.candidate_state t /\
  tc_transaction_receipt_digest c = GateTransaction.receipt_digest t.
Proof.
  unfold from_receipt. intros Hc. repeat inv_ok1. done.
Qed.

(** The shield of an effectful request accepts exactly one action. *)
Lemma permitted_class r :
  permitted r -> minted (ge_safety_shield (pr_evidence r)) ->
  ss_action_digest (ge_safety_shield (pr_evidence r)) <> None -> pr_effect_class r <> Effect.ReadOnly.
Proof.
  intros [_ _ Hg] Hm Ha Hc. destruct (ss_action_digest _) as [d|] eqn:Hd; [|done].
  destruct (minted_action _ _ Hm Hd) as (a & Hk & _).
  assert (validate_g6 r = Ok ()) as H6 by (apply Hg, list_elem_of_lookup; by exists 6).
  unfold validate_g6 in H6. rewrite Hc, Hk in H6. by repeat inv_ok1.
Qed.

(** The shield judged the bound state. *)
Lemma permitted_snapshot r :
  permitted r -> ss_state_snapshot (ge_safety_shield (pr_evidence r)) = eb_state_snapshot_digest (pr_binding r).
Proof.
  intros [_ _ Hg]. assert (validate_g6 r = Ok ()) as H6 by (apply Hg, list_elem_of_lookup; by exists 6).
  unfold validate_g6 in H6. apply guard_Ok in H6 as [H6 _]. breflect. done.
Qed.

Lemma whole_plan_staged r v w x :
  well_planned r v w -> on_plan r x -> pr_effect_class r <> Effect.ReadOnly ->
  pr_plan r !! x_next_instruction x = Some CloseTransaction ->
  S (x_next_instruction x) = length (pr_plan r) ->
  exists e, x_staged_effects x = [e] /\ admitted r e.
Proof.
  intros Hw Hx Hc Hlast Hlen. destruct (wp_staged _ _ _ Hw Hc) as (s & _ & _ & Hone).
  pose proof (op_count _ _ Hx) as Hn. pose proof (count_take_S is_stage _ _ _ Hlast) as Hs.
  rewrite Hlen, take_ge, Hone in Hs by lia. cbn in Hs. rewrite Nat.add_0_r in Hs. rewrite <- Hs in Hn.
  pose proof (op_staged _ _ Hx) as Ha. destruct (x_staged_effects x) as [|e [|]]; [done| |done].
  exists e. split; [done|]. by apply Forall_singleton.
Qed.

Lemma commit_closure x c :
  validate_closure x c None = Ok () -> tc_kind c = ClosureCommit ->
  tc_baseline_state c = eb_state_snapshot_digest (pr_binding (x_request x)) /\
  tc_root c = tc_candidate_state c /\ tc_restoration c = accounting_default /\
  tc_acceptance_digest c = ss_acceptance_digest (ge_safety_shield (pr_evidence (x_request x))) /\
  ss_action_digest (ge_safety_shield (pr_evidence (x_request x))) = Some (tc_action_digest c) /\
  Quality.selection (ge_performance (pr_evidence (x_request x))) = Quality.Candidate.
Proof.
  unfold validate_closure. intros Hv Hk. rewrite Hk in Hv. repeat inv_ok1. breflect. done.
Qed.

(** C1: A commit is earned.  When a permitted execution closes with a
    transaction receipt, finalization succeeds with a commit receipt, and the
    permit was live at start; the whole plan ran, with a nonzero verification
    digest; the request is not read-only, its shield was minted from an
    accepted effect over the bound state snapshot and exactly one effect was
    staged, that one, the transaction's action; the transaction committed the
    candidate from the bound snapshot and its observed root, the candidate
    state, is what is published; the candidate was selected on quality; the
    trace is complete and the usage inside the envelope. *)
Theorem kernel_commit_sound r p now x t c f :
  prepare contract r = Ok p -> minted (ge_safety_shield (pr_evidence r)) -> runs p now x ->
  from_receipt t = Ok c -> close_transaction x c = Ok f ->
  exists common e a d,
    finalize f = Ok (FCommit common (x_buffered_visible x) [e]) /\
    (now <= pr_expiry_deadline_ms r)%N /\ S (x_next_instruction x) = length (pr_plan r) /\
    rcm_verification_digest common = Some d /\ is_zero d = false /\
    pr_effect_class r <> Effect.ReadOnly /\ admitted r e /\
    ss_accepted_effect (ge_safety_shield (pr_evidence r)) = Some a /\
    EffectWitness.EffectAccepted_validate a = Ok () /\
    EffectWitness.state_snapshot a = eb_state_snapshot_digest (pr_binding r) /\
    se_effect_digest e = EffectWitness.action_digest a /\
    GateTransaction.action_digest t = EffectWitness.action_digest a /\
    GateTransaction.acceptance_digest t = Some (EffectWitness.acceptance_digest a) /\
    GateTransaction.disposition t = GateTransaction.CandidateCommitted /\
    GateTransaction.baseline_state t = eb_state_snapshot_digest (pr_binding r) /\
    GateTransaction.observed_root t = GateTransaction.candidate_state t /\
    publish (FCommit common (x_buffered_visible x) [e]) =
      Some (mkPublished (x_buffered_visible x) [e] (rcm_receipt_head common) (GateTransaction.observed_root t)
              (JournalRootCommitted (GateTransaction.receipt_digest t))) /\
    Quality.selection (ge_performance (pr_evidence r)) = Quality.Candidate /\
    events (rcm_trace common) = passed GUARD_COUNT /\ rcm_failure_code common = None /\
    inside (rcm_usage common) (pr_envelope r).
Proof.
  intros (Hp & ->)%prepare_Ok_inv Hm Hrun Ht Hc. pose proof (runs_on_plan _ _ _ Hrun) as Hx.
  pose proof (closes_closed _ _ _ _ _ Hx (closes_done _ _ _ Hc)) as Hcl.
  destruct (from_receipt_inv _ _ Ht) as (Hd & Hk & Hroot & Hact & Hacc & Hbase & Hcand & Hrd).
  destruct (commit_closure _ _ (cl_valid _ _ _ _ _ Hcl) Hk) as (Hsnap & Hrc & _ & Hca & Hsa & Hsel).
  rewrite (op_request _ _ Hx) in *. destruct (minted_action _ _ Hm Hsa) as (a & Hsk & Hae & Hval & Haa & Hsacc & Hst).
  assert (pr_effect_class r <> Effect.ReadOnly) as Hclass by (apply permitted_class; [done|done|by rewrite Hsa]).
  destruct (permitted_planned _ Hp) as (v & w & Hw).
  destruct (cl_whole _ _ _ _ _ Hcl eq_refl) as (Hlast & Hlen & Hver).
  destruct (whole_plan_staged _ _ _ _ Hw Hx Hclass Hlast Hlen) as (e & He & Hadm).
  destruct (x_verification_digest x) as [dv|] eqn:Hdv; [|done].
  destruct (finalize_common f (cl_events _ _ _ _ _ Hcl)) as (common & Hcf & Hfin).
  unfold final_kind in Hfin. rewrite (cl_closure _ _ _ _ _ Hcl), Hk, (cl_visible _ _ _ _ _ Hcl),
    (cl_staged _ _ _ _ _ Hcl), He in Hfin.
  pose proof (permitted_snapshot _ Hp) as Hss.
  destruct Hcf, Hcl, Hadm as (Hae1 & Hae2 & Hae3).
  exists common, e, a, dv. split_and!; try done.
  - destruct Hrun as (x0 & Hs & _). unfold start_at in Hs. repeat inv_ok1. breflect. done.
  - by rewrite cf_verification0, cl_verification0.
  - by apply (op_nonzero _ _ Hx).
  - by rewrite <- Hst.
  - rewrite Hsa in Hae2. injection Hae2 as <-. by rewrite Haa.
  - by rewrite <- Hact, Haa.
  - by rewrite <- Hacc, Hca.
  - by rewrite <- Hbase.
  - by rewrite <- Hroot, <- Hcand.
  - unfold publish. by rewrite cf_root0, cf_transaction0, cl_closure0, Hroot, Hrd.
  - by rewrite cf_failure0.
  - rewrite cf_usage0, cl_usage0. apply within_envelope_spec, (op_within _ _ Hx).
Qed.

Lemma fallback_closure x c failure :
  validate_closure x c failure = Ok () -> tc_kind c = ClosureFallback ->
  tc_baseline_state c = eb_state_snapshot_digest (pr_binding (x_request x)) /\
  tc_deoptimization_kernel_binding_digest c = Some (binding_digest (pr_binding (x_request x))) /\
  tc_deoptimization_kernel_admission_digest c = Some (admission_digest (x_request x)) /\
  ra_completed (tc_restoration c) = ra_attempted (tc_restoration c) /\
  ra_attempted (tc_restoration c) <> 0%N /\ ra_debt (tc_restoration c) = 0%N /\
  (failure = None -> Quality.selection (ge_performance (pr_evidence (x_request x))) = Quality.FrozenBaselineSelected).
Proof.
  unfold validate_closure. intros Hv Hk. rewrite Hk in Hv. repeat inv_ok1. breflect. split_and!; try done.
  intros ->.
  match goal with Hn : _ && negb _ = false |- _ => cbn in Hn; by apply negb_false_iff, bool_decide_eq_true in Hn end.
Qed.

(** C4: A fallback is accounted for.  When a permitted execution closes or
    aborts on a baseline execution receipt, finalization succeeds with a
    fallback receipt: nothing is published, neither the buffered bytes nor the
    staged effects; the deoptimization plan behind the receipt was bound to
    this very binding and admission; the restored transaction started from
    the bound snapshot and every resource was restored with no debt; the
    successor root is the baseline's; the receipt carries the abort's failure
    code, and a fallback without a failure happens only when quality selected
    the frozen baseline. *)
Theorem kernel_fallback_exact r p now x b c f failure :
  prepare contract r = Ok p -> runs p now x -> from_baseline_execution b = Ok c -> closes x c f failure ->
  exists common,
    finalize f = Ok (FFallback common) /\ publish (FFallback common) = None /\
    rcm_successor_root common =
      Deoptimization.ec_baseline_successor_root (Deoptimization.er_execution_claim b) /\
    rcm_deoptimization_execution_receipt_digest common = Some (Deoptimization.er_receipt_digest b) /\
    Deoptimization.dp_kernel_binding_digest (Deoptimization.rp_plan (Deoptimization.er_resume_record b)) =
      binding_digest (pr_binding r) /\
    Deoptimization.dp_kernel_admission_digest (Deoptimization.rp_plan (Deoptimization.er_resume_record b)) =
      admission_digest r /\
    Deoptimization.rs_baseline_state
      (Deoptimization.rp_restored_transaction (Deoptimization.er_resume_record b)) =
      eb_state_snapshot_digest (pr_binding r) /\
    ra_completed (rcm_restoration common) = ra_attempted (rcm_restoration common) /\
    ra_attempted (rcm_restoration common) <> 0%N /\ ra_debt (rcm_restoration common) = 0%N /\
    rcm_final_quality_selection common = Quality.FrozenBaselineSelected /\
    rcm_failure_code common = failure /\
    (failure = None -> Quality.selection (ge_performance (pr_evidence r)) = Quality.FrozenBaselineSelected) /\
    events (rcm_trace common) = passed GUARD_COUNT /\
    inside (rcm_usage common) (pr_envelope r).
Proof.
  intros (Hp & ->)%prepare_Ok_inv Hrun Hb Hc. pose proof (runs_on_plan _ _ _ Hrun) as Hx.
  pose proof (closes_closed _ _ _ _ _ Hx Hc) as Hcl.
  unfold from_baseline_execution in Hb. repeat inv_ok1.
  destruct (fallback_closure _ _ _ (cl_valid _ _ _ _ _ Hcl) eq_refl) as (Hsnap & Hbd & Had & Hrest).
  rewrite (op_request _ _ Hx) in *. cbn [tc_deoptimization_kernel_binding_digest
    tc_deoptimization_kernel_admission_digest tc_baseline_state tc_restoration] in *.
  destruct (finalize_common f (cl_events _ _ _ _ _ Hcl)) as (common & [] & Hfin).
  unfold final_kind in *. destruct Hcl. rewrite cl_closure0 in *. cbn [tc_kind tc_root tc_restoration
    tc_deoptimization_execution_receipt_digest] in *.
  exists common. injection Hbd as Hbd. injection Had as Had. rewrite cf_restoration0.
  destruct Hrest as (? & ? & ? & ?). split_and!; try done.
  - by rewrite cf_failure0.
  - rewrite cf_usage0, cl_usage0. apply within_envelope_spec, (op_within _ _ Hx).
Qed.

(** * Receipts validate *)

(** What the guards leave for the receipt. *)
Record bound (r : PrepareRequest) : Prop := {
  bo_version : eb_schema_version (pr_binding r) = TWO_PHASE_SCHEMA_VERSION;
  bo_digests : existsb is_zero (bound_digests r) = false;
  bo_heads : validate_source_heads (eb_source_repository_heads (pr_binding r)) = Ok ();
  bo_reasoning : reasoning_contract_valid (pr_binding r) = true;
  bo_admission : reasoning_admission_valid (pr_binding r) (ge_reasoning_admission (pr_evidence r)) = true;
  bo_cut : SemanticCut.SemanticCutEvidence_validate (ge_semantic_cut (pr_evidence r)) = Ok ();
  bo_cut_digest : is_zero (SemanticCut.certificate_digest (ge_semantic_cut (pr_evidence r))) = false;
  bo_cut_bound : cut_bound (pr_binding r) (ge_semantic_cut (pr_evidence r)) = true;
  bo_envelope : envelope_has_zero (pr_envelope r) = false;
  bo_shield : is_zero (ss_shield_digest (ge_safety_shield (pr_evidence r))) = false;
  bo_quality : Quality.QualityAdmission_validate (ge_performance (pr_evidence r)) = Ok ();
  bo_scope : quality_scope_bound (pr_binding r) (ge_performance (pr_evidence r)) = true;
  bo_candidate : quality_candidate_bound contract (pr_binding r) (ge_performance (pr_evidence r)) = true }.

(** Read a chain of checks that succeeded as the conjunction of its checks. *)
Ltac open_Ok Hok :=
  repeat first [rewrite guard_Ok in Hok | rewrite reject_Ok in Hok | rewrite bind_unit_Ok in Hok
               | rewrite map_err_Ok in Hok].

Lemma permitted_bound r : permitted r -> bound r.
Proof.
  intros [_ _ Hg].
  assert (validate_g0 r = Ok ()) as H0' by (apply Hg, list_elem_of_lookup; by exists 0).
  assert (validate_g1 r = Ok ()) as H1' by (apply Hg, list_elem_of_lookup; by exists 1).
  assert (validate_g3 r = Ok ()) as H3' by (apply Hg, list_elem_of_lookup; by exists 3).
  assert (validate_g4 r = Ok ()) as H4' by (apply Hg, list_elem_of_lookup; by exists 4).
  assert (validate_g6 r = Ok ()) as H6' by (apply Hg, list_elem_of_lookup; by exists 6).
  assert (validate_g7 contract r = Ok ()) as H7' by (apply Hg, list_elem_of_lookup; by exists 7).
  unfold validate_g0 in H0'. unfold validate_g1 in H1'. unfold validate_g3 in H3'.
  unfold validate_g4 in H4'. unfold validate_g6 in H6'. unfold validate_g7 in H7'.
  open_Ok H0'. open_Ok H1'. open_Ok H3'. open_Ok H4'. open_Ok H6'. open_Ok H7'.
  destruct H0' as (Hv & Hz & Hr & _), H1' as (_ & Hs), H3' as (Hc & Hcz & _), H4' as (He & _),
    H6' as (Hsh & _), H7' as (Hq & Hsc & Hcb & _).
  breflect. constructor; done.
Qed.

Lemma record_binding_common c kind :
  eb_schema_version (rcm_binding c) = TWO_PHASE_SCHEMA_VERSION -> record_binding (common_record c kind) = rcm_binding c.
Proof. destruct c as [? []]; cbn. by intros ->. Qed.

(** The digests a receipt record computes rather than copies. *)
Definition hashed_digests (r : ReceiptRecord) : list Digest :=
  [rec_permit_id r; rec_binding_digest r; rec_admission_digest r;
   Reasoning.ra_admission_digest (rec_reasoning_admission r); rec_terminal_rcq_identity_digest r;
   Quality.admission_digest (rec_quality_admission r); rec_output_digest r; rec_effects_digest r;
   rec_trace_digest r; rec_receipt_head r].

Lemma closure_digests x c failure :
  validate_closure x c failure = Ok () ->
  is_zero (tc_root c) = false /\ is_zero (tc_transaction_receipt_digest c) = false /\
  is_some_zero (tc_deoptimization_execution_receipt_digest c) = false.
Proof. unfold validate_closure. intros [Hv _]%reject_Ok. breflect. done. Qed.

(** Which closures a receipt of each kind accepts. *)
Lemma closure_valid_common r x c failure f common :
  on_plan r x -> closed r x c failure f -> common_for f common -> (ra_attempted (tc_restoration c) <= U64_MAX)%N ->
  closure_valid (common_record common (final_kind f)) = true /\
  (final_kind f = KCommit -> Quality.selection (ge_performance (pr_evidence r)) = Quality.Candidate).
Proof.
  intros Hx [] [] Hb. unfold closure_valid, final_kind in *. cbn [rec_kind rec_deoptimization_execution_receipt_digest
    rec_failure_code rec_restoration common_record]. rewrite cl_closure0, cl_failure0 in *.
  rewrite cf_deoptimization0, cf_failure0, cf_restoration0. destruct (tc_kind c) eqn:Hk.
  - destruct failure; [by specialize (cl_kind0 ltac:(done))|].
    destruct (commit_closure _ _ cl_valid0 Hk) as (_ & _ & Hr & _ & _ & Hs). rewrite Hr, (op_request _ _ Hx) in *.
    unfold validate_closure in cl_valid0. rewrite Hk in cl_valid0. open_Ok cl_valid0. destruct cl_valid0 as (_ & Hv & _).
    breflect. split; [|done]. by rewrite !andb_true_iff, !bool_decide_eq_true.
  - destruct (fallback_closure _ _ _ cl_valid0 Hk) as (_ & _ & _ & Hr & _ & Hd & _). split; [|done].
    unfold validate_closure in cl_valid0. rewrite Hk in cl_valid0. open_Ok cl_valid0. destruct cl_valid0 as (_ & Hv & _).
    breflect. rewrite !andb_true_iff, negb_true_iff, N.eqb_eq, bool_decide_eq_false, bool_decide_eq_true, Hr, Hd.
    split_and!; [done|done|]. unfold checked_add_u64. rewrite N.add_0_r. by rewrite (proj2 (N.leb_le _ _) Hb).
Qed.

Lemma required_nonzero r x c failure f common :
  bound r -> closed r x c failure f -> common_for f common ->
  existsb is_zero (hashed_digests (common_record common (final_kind f))) = false ->
  existsb is_zero (required_digests (common_record common (final_kind f))) = false.
Proof.
  intros [] [] [] Hz. destruct (closure_digests _ _ _ cl_valid0) as (? & ? & _).
  rewrite cl_request0, cl_closure0 in *. unfold hashed_digests, required_digests, bound_digests in *.
  cbn [existsb] in *. breflect. cbn [common_record rec_permit_id rec_binding_digest rec_admission_digest
    rec_assembly_manifest_digest rec_source_tree_digest rec_image_digest rec_state_snapshot_digest
    rec_task_fingerprint_digest rec_plan_digest rec_fixed_model_digest rec_baseline_reasoning_contract_digest
    rec_reasoning_contract_digest rec_reasoning_admission rec_comparison_identity_digest
    rec_semantic_cut_verifier_identity_digest rec_artifact_set_digest rec_semantic_cut_certificate_digest
    rec_terminal_rcq_identity_digest rec_safety_shield_digest rec_quality_admission
    rec_transaction_receipt_digest rec_output_digest rec_effects_digest rec_predecessor_receipt_head
    rec_successor_root rec_trace_digest rec_receipt_head] in *.
  rewrite cf_binding0, cf_artifacts0, cf_cut_digest0, cf_cut0, cf_shield0, cf_transaction0, cf_root0 in *.
  rewrite !orb_false_iff. split_and!; done.
Qed.

Lemma receipt_valid r x c failure f common :
  bound r -> on_plan r x -> closed r x c failure f -> common_for f common ->
  (ra_attempted (tc_restoration c) <= U64_MAX)%N ->
  existsb is_zero (hashed_digests (common_record common (final_kind f))) = false ->
  is_some_zero (rec_snap_certificate_digest (common_record common (final_kind f))) = false ->
  validate_receipt_record contract (common_record common (final_kind f)) = Ok ().
Proof.
  intros Hbo Hx Hcl Hcf Hu Hz Hsnap.
  pose proof (required_nonzero _ _ _ _ _ _ Hbo Hcl Hcf Hz) as Hreq.
  destruct (closure_valid_common _ _ _ _ _ _ Hx Hcl Hcf Hu) as [Hclv Hsel].
  destruct (closure_digests _ _ _ (cl_valid _ _ _ _ _ Hcl)) as (_ & _ & Hdz).
  assert (is_some_zero (x_verification_digest x) = false) as Hver.
  { destruct (x_verification_digest x) eqn:Hd; [by apply (op_nonzero _ _ Hx)|done]. }
  destruct Hbo, Hcl, Hcf. rewrite cl_request0, cl_closure0 in *.
  assert (record_binding (common_record common (final_kind f)) = pr_binding r) as Hrb
    by (rewrite record_binding_common; by rewrite cf_binding0).
  unfold validate_receipt_record. rewrite Hrb, Hreq, Hclv. rewrite cf_binding0 in cf_head0.
  rewrite (bool_decide_eq_true_2 (rec_receipt_head _ = _)) by exact cf_head0.
  unfold reasoning_receipt_fields_valid, semantic_cut_receipt_fields_valid, quality_receipt_fields_valid,
    SemanticCut.SemanticCutCertificateRecord_validate, Quality.QualityAdmissionRecord_validate.
  rewrite Hrb, Hsnap. cbn [common_record rec_schema_version rec_source_repository_heads rec_verification_digest
    rec_deoptimization_execution_receipt_digest rec_binding_digest rec_attribution_class rec_resource_envelope
    rec_reasoning_admission rec_semantic_cut rec_semantic_cut_certificate_digest rec_quality_admission
    rec_terminal_rcq_identity_digest rec_kind rec_final_quality_selection].
  rewrite cf_binding0, bo_heads0, cf_verification0, cl_verification0, Hver, cf_deoptimization0, Hdz,
    cf_attribution0, cf_envelope0, bo_envelope0, bo_reasoning0, cf_reasoning0, bo_admission0,
    cf_cut_digest0, cf_rcq0, cf_cut0, bo_cut0, bo_cut_bound0, cf_quality0, bo_quality0, bo_scope0, bo_candidate0,
    cf_selection0.
  cbn [mbind result_bind is_ok]. rewrite !(bool_decide_eq_true_2 (_ = _)) by done.
  destruct (final_kind f); [by rewrite (bool_decide_eq_true_2 _ (Hsel eq_refl))|done].
Qed.

Lemma permit_record_valid r :
  permitted r -> is_zero (binding_digest (pr_binding r)) = false -> is_zero (admission_digest r) = false ->
  validate_permit_record (ExecutionPermit_record (permit_of r)) = Ok ().
Proof.
  intros [] Hb Ha. unfold validate_permit_record. cbn [ExecutionPermit_record permit_of pm_schema_version
    pm_binding_digest pm_admission_digest pm_caller_session_id pm_epoch pm_permit_id pm_trace
    pm_expiry_deadline_ms ep_permit_id ep_request ep_trace ep_expiry_deadline_ms ep_epoch ep_caller_session_id].
  rewrite Hb, Ha, (bool_decide_eq_false_2 _ per_session0), (proj2 (N.eqb_neq _ _) per_epoch0).
  by rewrite bool_decide_eq_true_2.
Qed.

(** C5: Genuine records validate.  The record of every permit [prepare]
    issues, and the record of the final receipt of every permitted execution
    however it closes, pass the public validators, up to the hashes they
    compute being nonzero; in particular finalization never fails after a
    close or an abort, and whatever the guards admitted is re-derived
    consistently from the record alone, the binding digest and the receipt
    head included. *)
Theorem receipts_validate r p now x c f failure :
  prepare contract r = Ok p -> runs p now x -> (ra_attempted (tc_restoration c) <= U64_MAX)%N ->
  closes x c f failure ->
  (is_zero (binding_digest (pr_binding r)) = false -> is_zero (admission_digest r) = false ->
   validate_permit_record (ExecutionPermit_record p) = Ok ()) /\
  exists fr, finalize f = Ok fr /\
    (existsb is_zero (hashed_digests (receipt_record fr)) = false ->
     is_some_zero (rec_snap_certificate_digest (receipt_record fr)) = false ->
     validate_receipt_record contract (receipt_record fr) = Ok ()).
Proof.
  intros (Hp & ->)%prepare_Ok_inv Hrun Hu Hc. split; [by apply permit_record_valid|].
  pose proof (runs_on_plan _ _ _ Hrun) as Hx. pose proof (closes_closed _ _ _ _ _ Hx Hc) as Hcl.
  destruct (finalize_common f (cl_events _ _ _ _ _ Hcl)) as (common & Hcf & Hfin).
  pose proof (receipt_valid _ _ _ _ _ _ (permitted_bound _ Hp) Hx Hcl Hcf Hu) as Hv.
  eexists. split; [exact Hfin|]. by destruct (final_kind f).
Qed.
End Kernel.
