(* ===== verification/KernelWitness.v ===== *)
(** Concrete runs of the two-phase kernel: three packs, a certified request,
    an execution that commits, and one that aborts onto its frozen baseline
    through the deoptimization route. *)

From stdpp Require Import relations.
From S2P Require Import Prelude.
From S2P Require Import DurableStore.
From S2P Require Import Identity.
From S2P Require DurableJournal.
From S2P Require Zbf.
From S2P Require Evidence.
From S2P Require Effect.
From S2P Require EffectWitness.
From S2P Require Reasoning.
From S2P Require SemanticCut.
From S2P Require RobustSnap.
From S2P Require Quality.
From S2P Require GateTransaction.
From S2P Require Deoptimization.
From S2P Require DeoptTheorems.
From S2P Require Import KernelCore.
From S2P Require Import TwoPhase.
From S2P Require Import KernelExecution.
From S2P Require Import KernelTheorems.

#[local] Instance toy_platform : Platform :=
  {| sha256 := Zbf.toy_sha256; json_string := Zbf.toy_json_string |}.
#[local] Instance toy_contracts : Codec Reasoning.ReasoningContract :=
  {| encode := fun c => string_bytes (Reasoning.reasoning_mode c); decode := fun _ => None |}.
#[local] Instance toy_snaps : Codec RobustSnap.SnapBody :=
  {| encode := fun _ => []; decode := fun _ => None |}.
#[local] Instance toy_evidence : Codec VerifiedEvidence :=
  {| encode := fun c => Evidence.payload c; decode := fun _ => None |}.
#[local] Instance toy_programs : Codec Effect.EffectProgramBody :=
  {| encode := fun p => Effect.base_state p; decode := fun _ => None |}.

Definition d (n : N) : Digest := repeat (ascii_of_N n) 32.
Definition contract_manifest : Digest := d 99.

(** A successful test run whose payload is [payload]. *)
Definition test_run (payload : bytes) : VerifiedEvidence :=
  Evidence.mkEvidence (Evidence.QTestTrace 1) [] payload
    (Evidence.mkProvenance "parser" "1" "index" "1" "runner" "1")
    (Evidence.WTestTrace (Evidence.mkLock "runner" "1") 1 0 (d 9)) 0 0.

(** * Packs *)

Definition pack (owner : Zbf.ArtifactOwner) (kind : Zbf.ZbfArtifactKind) : PeerArtifactInput :=
  mkInput
    match Zbf.new_leaf Zbf.toy_sha256 Zbf.toy_json_string kind owner (d 2) Zbf.PortableStrict (d 3) (d 4)
            (string_bytes "payload") with
    | Ok o => match Zbf.to_bytes Zbf.toy_sha256 Zbf.toy_json_string o Zbf.PortableStrict with Ok b => b | Err _ => [] end
    | Err _ => []
    end owner kind (d 4).

Definition packs : list PeerArtifactInput :=
  [pack Zbf.FsZero Zbf.FsPack; pack Zbf.GraphZero Zbf.GraphPack; pack Zbf.TokenZero Zbf.TokenPack].

Definition artifacts : CanonicalArtifactSet :=
  match CanonicalArtifactSet_verify (d 2) (d 3) packs with Ok a => a | Err _ => mkArtifacts [] [] [] [] [] [] end.

(** * Reasoning, the cut and the binding *)

Definition reasoning : Reasoning.ReasoningContract :=
  Reasoning.mkContract Reasoning.REASONING_CONTRACT_SCHEMA_VERSION (d 11) (d 12) (d 13) (d 14) (d 15)
    "extended" "high" 4096 2000 1000 500 Reasoning.ExactRequired false [] None None None [].
Definition reasoning_digest : Digest :=
  match Reasoning.identity_digest reasoning with Ok x => x | Err _ => [] end.
Definition reasoning_admission : Reasoning.StrictReasoningAdmission :=
  match Reasoning.verify_strict_no_downshift reasoning reasoning with
  | Ok a => a | Err _ => Reasoning.mkAdmission 0 [] [] false (Reasoning.mkAdditions 0 0 0 0) [] end.

Definition plan : ControllerPlan :=
  [Dispatch FsZero; DeterministicTransform; Verify; StageEffect; BufferVisible; CloseTransaction].

Definition safepoint (head : Digest) : SemanticCut.ReasoningSafepoint :=
  SemanticCut.mkSafepoint SemanticCut.SEMANTIC_CUT_SCHEMA_VERSION (d 1) (d 21) (d 22) reasoning_digest (d 11)
    (d 23) SemanticCut.ExactPreserved (d 24) (d 25) (d 26) (d 27) head.
Definition cut_claim : SemanticCut.SemanticCutClaim :=
  SemanticCut.mkCutClaim SemanticCut.SEMANTIC_CUT_SCHEMA_VERSION (d 1) (d 31) (plan_digest_of plan)
    SemanticCut.DeterministicOnly (safepoint (d 28)) (safepoint (d 29)) (d 32) (d 32) (d 33) (d 33) (d 34) (d 35)
    (d 5) (d 6) (d 36).
Definition cut : SemanticCut.SemanticCutEvidence :=
  match SemanticCut.verify_owner_scoped cut_claim (test_run (canonical_bytes_of (SemanticCut.jcut_claim cut_claim))) with
  | Ok c => c | Err _ => SemanticCut.mkCut 0 cut_claim [] [] [] [] end.

Definition binding : ExecutionBinding :=
  mkBinding TWO_PHASE_SCHEMA_VERSION (d 2) (d 3)
    [mkHead "zerostack" "0123456789abcdef0123456789abcdef01234567"] (ca_image_digest artifacts) (d 1) (d 6)
    (plan_digest_of plan) (d 11) reasoning reasoning reasoning_digest reasoning_digest (d 5)
    (SemanticCut.verifier_identity_digest cut) (d 7).

(** * The shield and the quality admission *)

Definition accepted : EffectWitness.EffectAccepted :=
  match EffectWitness.Toy.outcome with
  | EffectWitness.Accepted a => a
  | _ => EffectWitness.mkAccepted 0 [] [] [] [] [] [] [] Effect.ExactChecker []
  end.
Definition shield : SafetyShieldEvidence :=
  match from_effect_accepted accepted with
  | Ok s => s | Err _ => mkShield ShieldReadOnly [] [] None [] [] None None end.

Definition pair : Quality.QualityPair :=
  Quality.mkPair 1 (d 6) (d 5) (d 41) (candidate_protocol_identity contract_manifest binding) (d 42) (d 43) (d 44) (d 45)
    [Quality.mkMetric "tests_passed" Quality.AtLeast 40 41].
Definition admission : Quality.QualityAdmission :=
  match (let? c := Quality.PointwiseDominanceCertificate_verify pair (d 46)
           (test_run (canonical_bytes_of (Quality.jpair pair))) in
         Quality.admit_strict (Quality.EPointwiseDominance c) (Quality.mkBaseline (d 41) (d 42) (d 47))) with
  | Ok a => a
  | Err _ => Quality.mkAdmission 0 [] [] [] [] [] None None [] [] [] None None Quality.Unidentified
               Quality.FrozenBaselineSelected Quality.GUnidentified false [] []
  end.

(** * The request and its permit *)

Definition envelope : WorkerEnvelope := mkEnvelope 100 1000 4096 64 4096 4 10 50.
Definition request : PrepareRequest :=
  mkPrepare binding Cli Effect.ReversibleMutation plan envelope
    (mkGuardEvidence artifacts reasoning_admission cut NotClaimed shield None None admission) 500 3 "session".

Definition permit : ExecutionPermit := permit_of request.

Example request_permitted : prepare contract_manifest request = Ok permit.
Proof. vm_compute. reflexivity. Qed.

(** * An execution of the whole plan *)

Definition effect : StagedEffect :=
  mkStaged (EffectWitness.action_digest accepted) Effect.ReversibleMutation
    (Some (EffectWitness.acceptance_digest accepted)) None None.

Definition or_else (x : BrokeredExecution) (r : R BrokeredExecution) : BrokeredExecution :=
  match r with Ok y => y | Err _ => x end.
Definition x0 : BrokeredExecution :=
  or_else (mkExecution [] request trace_new 0 0 "" 0 usage_default None [] []) (start_at permit 400).
Definition x1 : BrokeredExecution := or_else x0 (dispatch x0 FsZero (mkUsage 10 20 30 40 1 1 5)).
Definition x2 : BrokeredExecution := or_else x1 (deterministic_transform x1).
Definition x3 : BrokeredExecution := or_else x2 (record_verification x2 (d 50)).
Definition x4 : BrokeredExecution := or_else x3 (stage_effect x3 effect).
Definition x5 : BrokeredExecution := or_else x4 (buffer_visible x4 (string_bytes "done")).

Lemma ran : runs permit 400 x5.
Proof.
  exists x0. split; [vm_compute; reflexivity|].
  eapply rtc_l; [apply (step_dispatch x0 x1 FsZero (mkUsage 10 20 30 40 1 1 5)); vm_compute; reflexivity|].
  eapply rtc_l; [apply (step_transform x1 x2); vm_compute; reflexivity|].
  eapply rtc_l; [apply (step_verify x2 x3 (d 50)); vm_compute; reflexivity|].
  eapply rtc_l; [apply (step_stage x3 x4 effect); vm_compute; reflexivity|].
  eapply rtc_l; [apply (step_visible x4 x5 (string_bytes "done")); vm_compute; reflexivity|].
  apply rtc_refl.
Qed.

(** At the last instruction 5 of 50 worker steps and 4 of 64 bytes are used. *)
Lemma execution_invariant_witness :
  runs permit 400 x5 /\ inside (x_usage x5) envelope /\
  t_staged_effects (x_trace x5) = N.of_nat (length (x_staged_effects x5)).
Proof.
  assert (Hp : prepare contract_manifest request = Ok permit) by (vm_compute; reflexivity).
  pose proof (execution_invariant contract_manifest request permit 400 x5 Hp ran) as Hi.
  destruct Hi as (_ & _ & Hw & _ & _ & _ & _ & _ & _ & _ & _ & _ & Ht).
  split; [exact ran|]. split; [exact Hw|exact Ht].
Defined.

(** * The commit *)

Definition seal (t : TransactionReceipt) : TransactionReceipt :=
  GateTransaction.mkTxReceipt (GateTransaction.contract_version t) (GateTransaction.disposition t)
    (GateTransaction.restoration_scope t) (GateTransaction.request_digest t)
    (GateTransaction.closure_manifest_digest t) (GateTransaction.action_digest t)
    (GateTransaction.acceptance_digest t) (GateTransaction.baseline_state t)
    (GateTransaction.candidate_state t) (GateTransaction.external_inventory_digest t)
    (GateTransaction.external_restoration_debt_digest t) (GateTransaction.resource_count t)
    (GateTransaction.external_resource_count t) (GateTransaction.external_restoration_debt_count t)
    (GateTransaction.journal_binding_digest t) (GateTransaction.journal_recovery_digest t)
    (GateTransaction.recovery_outcome t) (GateTransaction.observed_root t)
    (GateTransaction.TransactionReceipt_expected_digest t).

Definition committed : TransactionReceipt :=
  seal (GateTransaction.mkTxReceipt 1 GateTransaction.CandidateCommitted
    GateTransaction.NotApplicableCandidateCommit (d 61) (d 62) (EffectWitness.action_digest accepted)
    (Some (EffectWitness.acceptance_digest accepted)) (d 1) (d 63) (d 64) (d 65) 2 1 0 (d 66) (d 67)
    DurableJournal.NewRootCommitted (d 63) []).

Definition no_closure : TransactionClosure :=
  mkTxClosure ClosureCommit [] [] None None None [] None [] [] GateTransaction.DeclaredEffectClosure 0 accounting_default.
Definition commit_closure' : TransactionClosure :=
  match from_receipt committed with Ok c => c | Err _ => no_closure end.
Definition not_ready : ReadyToFinalize :=
  mkReady [] request trace_new usage_default None [] [] no_closure.
Definition commit_ready : ReadyToFinalize :=
  match close_transaction x5 commit_closure' with Ok f => f | Err _ => not_ready end.

Lemma minted_shield : minted shield.
Proof. right. exists accepted. vm_compute. reflexivity. Qed.

Lemma kernel_commit_sound_witness :
  close_transaction x5 commit_closure' = Ok commit_ready /\
  exists common, finalize commit_ready = Ok (FCommit common (string_bytes "done") [effect]) /\
    rcm_failure_code common = None.
Proof.
  assert (Hp : prepare contract_manifest request = Ok permit) by (vm_compute; reflexivity).
  assert (Ht : from_receipt committed = Ok commit_closure') by (vm_compute; reflexivity).
  assert (Hc : close_transaction x5 commit_closure' = Ok commit_ready) by (vm_compute; reflexivity).
  split; [exact Hc|].
  destruct (kernel_commit_sound contract_manifest request permit 400 x5 committed commit_closure' commit_ready
    Hp minted_shield ran Ht Hc) as (common & e & a & v & Hf & _ & _ & _ & _ & _ & _ & _ & _ & _ & _ & _ & _ & _
    & _ & _ & _ & _ & _ & Hn & _).
  assert (He : match finalize commit_ready with Ok (FCommit _ b l) => b = string_bytes "done" /\ l = [effect] | _ => False end)
    by (vm_compute; split; reflexivity).
  rewrite Hf in He. destruct He as [Hb He]. exists common. rewrite Hb, He in Hf. split; [exact Hf|exact Hn].
Defined.

Lemma receipts_validate_witness :
  exists fr, finalize commit_ready = Ok fr /\ validate_receipt_record contract_manifest (receipt_record fr) = Ok ().
Proof.
  assert (Hp : prepare contract_manifest request = Ok permit) by (vm_compute; reflexivity).
  assert (Hc : closes x5 commit_closure' commit_ready None) by (apply closes_done; vm_compute; reflexivity).
  assert (Hu : (ra_attempted (tc_restoration commit_closure') <= U64_MAX)%N) by (vm_compute; discriminate).
  destruct (receipts_validate contract_manifest request permit 400 x5 commit_closure' commit_ready None Hp ran Hu Hc)
    as (_ & fr & Hf & Hv).
  exists fr. split; [exact Hf|].
  assert (Hz : match finalize commit_ready with
               | Ok r => existsb is_zero (hashed_digests (receipt_record r)) = false /\
                         is_some_zero (rec_snap_certificate_digest (receipt_record r)) = false
               | Err _ => False end) by (vm_compute; split; reflexivity).
  rewrite Hf in Hz. destruct Hz as [Hz Hs]. exact (Hv Hz Hs).
Defined.

(** * The fallback *)

Section Fallback.
Import Deoptimization.

Definition work : RaccWork := mkWork 100 60 40 10 10 2 3 4 500 4096.
Definition limit : RaccWork := mkWork 1000 600 400 100 100 20 30 40 5000 8192.
Definition reserve : FallbackReserve := mkReserve envelope envelope limit limit.
Definition usage : RouteUsage := mkRoute 1 2 3 4 5 1 1 2 work.

(** The claim and payload are settled by the safepoint. *)
Definition safepoint_claim : BaselineSafepointClaim :=
  mkSafepointClaim BASELINE_SAFEPOINT_SCHEMA_VERSION (d 1) (d 71) (d 64) (d 5) (d 41) (d 72) (d 73) (d 74) (d 75)
    (d 76) reasoning reasoning_digest (safepoint (d 7)) (ExactNativeContinuation (d 23) (d 77) (d 78)) (d 79)
    (deoptimization_verifier_identity (test_run [])) reserve (d 80) (d 81) (d 7).
Definition safepoint_evidence : BaselineSafepointEvidence :=
  match BaselineSafepointEvidence_verify_owner_scoped safepoint_claim
          (test_run (canonical_bytes_of (jsafepoint_claim safepoint_claim))) with
  | Ok e => e | Err _ => mkSafepointEvidence 0 safepoint_claim [] [] [] [] end.

Definition deopt_plan : DeoptimizationPlan :=
  match for_fail_closed safepoint_evidence BoundExceeded (d 82) (EffectWitness.action_digest accepted) (d 63) (d 62)
          (d 83) (binding_digest binding) (admission_digest request) with
  | Ok p => p
  | Err _ => mkPlan 0 safepoint_evidence (FailClosed BoundExceeded []) [] [] [] [] [] [] []
  end.

Definition rolled_back : TransactionReceipt :=
  seal (GateTransaction.mkTxReceipt 1 GateTransaction.BaselineRootRecovered GateTransaction.DeclaredEffectClosure
    (d 61) (d 62) (EffectWitness.action_digest accepted) None (d 1) (d 63) (d 64) (d 65) 2 1 0 (d 66) (d 67)
    DurableJournal.OldRootAborted (d 1) []).

Definition restoration : BaselineRestorationClaim :=
  match BaselineRestorationClaim_new deopt_plan (GateTransaction.receipt_digest rolled_back) (d 84) (d 85) (d 86)
          (deoptimization_verifier_identity (test_run [])) usage with
  | Ok c => c
  | Err _ => mkRestorationClaim "" [] [] [] [] [] [] [] [] [] [] [] [] [] [] [] [] usage
  end.
Definition restoration_run : VerifiedEvidence := test_run (canonical_bytes_of (jrestoration_claim restoration)).
Definition restored : RestoredTransactionRecord := restored_record rolled_back.
Definition resume : BaselineResumePermit :=
  match verify_restoration deopt_plan rolled_back restoration restoration_run with
  | Ok p => p | Err _ => mkResume 0 deopt_plan restoration restored [] [] [] [] end.

Definition invocation : FrozenBaselineInvocation :=
  match into_invocation resume with
  | Ok i => i
  | Err _ => mkInvocation resume 0 [] [] [] [] [] [] [] [] [] [] [] reasoning [] (CanonicalCleanStart []) [] []
               envelope limit []
  end.
Definition execution_claim : BaselineExecutionClaim :=
  match BaselineExecutionClaim_new invocation (d 87) (d 88) (d 89) (d 90) (d 91) (d 92) usage (d 93)
          (deoptimization_verifier_identity (test_run [])) with
  | Ok c => c
  | Err _ => mkExecutionClaim "" [] [] [] [] [] [] [] [] [] [] [] [] [] [] [] [] usage [] []
  end.
Definition execution_run : VerifiedEvidence := test_run (canonical_bytes_of (jexecution_claim execution_claim)).
Definition baseline_run : BaselineExecutionReceipt :=
  match verify_execution invocation execution_claim execution_run with
  | Ok r => r | Err _ => mkExecutionReceipt resume [] execution_claim [] [] [] [] end.
End Fallback.

Lemma deoptimization_route_exact_witness :
  Deoptimization.verify_execution invocation execution_claim execution_run = Ok baseline_run /\
  GateTransaction.observed_root rolled_back = d 1.
Proof.
  assert (Hr : Deoptimization.verify_restoration deopt_plan rolled_back restoration restoration_run = Ok resume)
    by (vm_compute; reflexivity).
  assert (Hi : Deoptimization.into_invocation resume = Ok invocation) by (vm_compute; reflexivity).
  assert (Hx : Deoptimization.verify_execution invocation execution_claim execution_run = Ok baseline_run)
    by (vm_compute; reflexivity).
  split; [exact Hx|].
  exact (proj1 (proj2 (proj2 (proj2 (proj1
    (DeoptTheorems.deoptimization_route_exact _ _ _ _ _ _ _ _ _ Hr Hi Hx)))))).
Defined.

Lemma fallback_route_live_witness :
  exists i r, Deoptimization.into_invocation resume = Ok i /\
    Deoptimization.verify_execution i execution_claim execution_run = Ok r /\
    Deoptimization.BaselineExecutionReceipt_validate r = Ok ().
Proof.
  assert (Hr : Deoptimization.verify_restoration deopt_plan rolled_back restoration restoration_run = Ok resume)
    by (vm_compute; reflexivity).
  destruct (DeoptTheorems.fallback_route_live _ _ _ _ _ Hr) as (Hi & Hlive).
  destruct (Hlive (d 87) (d 88) (d 89) (d 90) (d 91) (d 92) usage (d 93)
    (Deoptimization.deoptimization_verifier_identity (test_run [])) execution_claim execution_run)
    as (r & Hx & Hv & _); [vm_compute; reflexivity ..|].
  eexists _, r. split; [exact Hi|]. split; [exact Hx|exact Hv].
Defined.

(** Aborted after verification with one effect staged, the kernel falls back. *)
Definition fallback : TransactionClosure :=
  match from_baseline_execution baseline_run with Ok c => c | Err _ => no_closure end.
Definition fallback_ready : ReadyToFinalize :=
  match abort x5 BoundExceeded fallback with Ok f => f | Err _ => not_ready end.

Lemma kernel_fallback_exact_witness :
  exists common, finalize fallback_ready = Ok (FFallback common) /\
    rcm_successor_root common = d 91 /\ rcm_failure_code common = Some BoundExceeded.
Proof.
  assert (Hp : prepare contract_manifest request = Ok permit) by (vm_compute; reflexivity).
  assert (Hb : from_baseline_execution baseline_run = Ok fallback) by (vm_compute; reflexivity).
  assert (Hc : closes x5 fallback fallback_ready (Some BoundExceeded)) by (apply closes_abort; vm_compute; reflexivity).
  destruct (kernel_fallback_exact contract_manifest request permit 400 x5 baseline_run fallback fallback_ready
    (Some BoundExceeded) Hp ran Hb Hc) as (common & Hf & _ & Hr & _ & _ & _ & _ & _ & _ & _ & _ & Hn & _).
  exists common. split; [exact Hf|]. split; [|exact Hn].
  assert (Hd : Deoptimization.ec_baseline_successor_root (Deoptimization.er_execution_claim baseline_run) = d 91)
    by (vm_compute; reflexivity).
  rewrite Hr. exact Hd.
Defined.
