(* ===== verification/DurablePublication.v ===== *)
(** The durable publication gate ([zero-gate/src/durable_publication.rs]): a
    commit of the two-phase kernel may claim durable publication only with the
    journal's binding, its recovery receipt and published root, and a native
    durability receipt verified as evidence. *)

From S2P Require Import Prelude.
From S2P Require Import Canonical.
From S2P Require Import DurableStore.
From S2P Require Import Ordering.
From S2P Require Import Identity.
From S2P Require Zbf.
From S2P Require Evidence.
From S2P Require DurableJournal.
From S2P Require GateTransaction.
From S2P Require Reasoning.
From S2P Require RobustSnap.
From S2P Require Import KernelCore.
From S2P Require Import TwoPhase.
From S2P Require Import KernelExecution.

Notation DurableProfileId := Zbf.DurableProfileId.
Notation JournalBinding := DurableJournal.JournalBinding.
Notation RecoveryReceipt := DurableJournal.RecoveryReceipt.
Notation RootPublicationReceipt := DurableJournal.RootPublicationReceipt.

Definition DURABLE_PUBLICATION_DOMAIN : bytes := domain "zerostack.durable_publication".
Definition NATIVE_DURABILITY_RECEIPT_DOMAIN : bytes := domain "zerostack.native_durability_receipt".
Definition DURABLE_PUBLICATION_SCHEMA_VERSION : N := 1.

Inductive DurablePublicationFailureCode :=
| SchemaVersionMismatch | NonCommitReceipt | InvalidBaseReceipt | AssemblyMismatch | BindingMismatch
| RootMismatch | IncompleteRecovery | ProfileMismatch | UnverifiedNativeEvidence | RenameOnlyEvidence.

(** [DurablePublicationError] without its detail text. *)
Record DurablePublicationError := mkDPError {
  dp_code : DurablePublicationFailureCode; dp_journal_code : option DurableJournal.JournalFailureCode }.
Definition dp_error (c : DurablePublicationFailureCode) : DurablePublicationError := mkDPError c None.
Notation DP := (result DurablePublicationError).

Inductive NativeDurabilityCheck := FileSync | AtomicReplace | DirectorySync | KillReopen.
Definition check_index (c : NativeDurabilityCheck) : N :=
  match c with FileSync => 0 | AtomicReplace => 1 | DirectorySync => 2 | KillReopen => 3 end.
#[global] Instance NativeDurabilityCheck_eq_dec : EqDecision NativeDurabilityCheck.
Proof. solve_decision. Defined.
#[global] Instance NativeDurabilityCheck_ord : Ord NativeDurabilityCheck := cmp_via check_index.

Inductive NativePlatform := Linux | Macos | Windows.
Inductive NativeDurabilityResult := PassedNative | NotRun.
#[global] Instance NativeDurabilityResult_eq_dec : EqDecision NativeDurabilityResult.
Proof. solve_decision. Defined.

Record NativeDurabilityReceipt := mkNative {
  nd_schema_version : N;
  nd_durable_profile_id : DurableProfileId;
  nd_durable_profile_digest : Digest;
  nd_platform : NativePlatform;
  nd_filesystem : string;
  nd_source_repository_head : string;
  nd_source_tree_digest : Digest;
  nd_artifact_digest : Digest;
  nd_exact_command_digest : Digest;
  nd_execution_authority_digest : Digest;
  nd_native_run_id : string;
  nd_checks : list NativeDurabilityCheck;
  nd_result : NativeDurabilityResult }.

Definition jcheck (c : NativeDurabilityCheck) : Value :=
  VString match c with
          | FileSync => "file_sync" | AtomicReplace => "atomic_replace"
          | DirectorySync => "directory_sync" | KillReopen => "kill_reopen" end.
Definition jplatform (p : NativePlatform) : Value :=
  VString match p with Linux => "linux" | Macos => "macos" | Windows => "windows" end.
Definition jresult (r : NativeDurabilityResult) : Value :=
  VString match r with PassedNative => "passed_native" | NotRun => "not_run" end.
Definition jnative (r : NativeDurabilityReceipt) : Value :=
  Object [("schema_version", jnum (nd_schema_version r));
          ("durable_profile_id", VString (Zbf.DurableProfileId_as_str (nd_durable_profile_id r)));
          ("durable_profile_digest", jhex (nd_durable_profile_digest r)); ("platform", jplatform (nd_platform r));
          ("filesystem", VString (nd_filesystem r)); ("source_repository_head", VString (nd_source_repository_head r));
          ("source_tree_digest", jhex (nd_source_tree_digest r)); ("artifact_digest", jhex (nd_artifact_digest r));
          ("exact_command_digest", jhex (nd_exact_command_digest r));
          ("execution_authority_digest", jhex (nd_execution_authority_digest r));
          ("native_run_id", VString (nd_native_run_id r)); ("checks", Array (jcheck <$> nd_checks r));
          ("result", jresult (nd_result r))].

(** Private fields: only [verify_native_durability_receipt] makes one. *)
Record VerifiedDurableFilesystemEvidence := mkVerifiedFs {
  vf_durable_profile_id : DurableProfileId;
  vf_durable_profile_digest : Digest;
  vf_filesystem : string;
  vf_native_receipt_digest : Digest;
  vf_certificate_digest : Digest }.

(** The platform and file system a profile is frozen to. *)
Definition profile_matches (id : DurableProfileId) (p : NativePlatform) (filesystem : string) : bool :=
  match id, p with
  | Zbf.ApfsStrict, Macos => bool_decide (filesystem = "apfs")
  | Zbf.Ext4XfsStrict, Linux => bool_decide (filesystem = "ext4") || bool_decide (filesystem = "xfs")
  | Zbf.NtfsStrict, Windows => bool_decide (filesystem = "ntfs")
  | _, _ => false
  end.

Definition required_checks : list NativeDurabilityCheck :=
  bset_of_list [FileSync; AtomicReplace; DirectorySync; KillReopen].

Definition provenance_incomplete (r : NativeDurabilityReceipt) : bool :=
  negb (String.length (nd_source_repository_head r) =? 40)%nat ||
  negb (forallb is_lower_hexdigit (string_bytes (nd_source_repository_head r))) ||
  zero_digest (nd_source_tree_digest r) || zero_digest (nd_artifact_digest r) ||
  zero_digest (nd_exact_command_digest r) || zero_digest (nd_execution_authority_digest r) ||
  (String.length (nd_native_run_id r) =? 0)%nat || (128 <? String.length (nd_native_run_id r))%nat ||
  has_control (string_bytes (nd_native_run_id r)).

Section Gate.
Context `{Platform, Codec Evidence.EvidenceCertificate, FromSlice NativeDurabilityReceipt}.

(** A successful, verified test trace. *)
Definition native_trace (e : VerifiedEvidence) : bool :=
  match Evidence.query e, Evidence.completeness e with
  | Evidence.QTestTrace _, Evidence.WTestTrace _ _ exit_code _ => (exit_code =? 0)%Z
  | _, _ => false
  end.

Definition native_receipt_digest_of (canonical : bytes) : Digest :=
  sha256 (NATIVE_DURABILITY_RECEIPT_DOMAIN ++ to_be 8 (len canonical) ++ canonical).

Definition verify_native_durability_receipt (e : VerifiedEvidence) : DP VerifiedDurableFilesystemEvidence :=
  guard? native_trace e else dp_error UnverifiedNativeEvidence in
  let? receipt := ok_or (from_slice (T := NativeDurabilityReceipt) (Evidence.payload e))
                    (dp_error UnverifiedNativeEvidence) in
  let canonical := canonical_bytes_of (jnative receipt) in
  guard? bool_decide (canonical = Evidence.payload e) else dp_error UnverifiedNativeEvidence in
  reject? negb (nd_schema_version receipt =? DURABLE_PUBLICATION_SCHEMA_VERSION)%N ||
          negb (bool_decide (nd_result receipt = PassedNative)) with dp_error UnverifiedNativeEvidence in
  guard? bool_decide (nd_durable_profile_digest receipt =
           DurableJournal.profile_digest (nd_durable_profile_id receipt)) else dp_error ProfileMismatch in
  guard? profile_matches (nd_durable_profile_id receipt) (nd_platform receipt) (nd_filesystem receipt)
    else dp_error ProfileMismatch in
  reject? negb (length (nd_checks receipt) =? length required_checks)%nat ||
          negb (bool_decide (bset_of_list (nd_checks receipt) = required_checks))
    with dp_error RenameOnlyEvidence in
  reject? provenance_incomplete receipt with dp_error UnverifiedNativeEvidence in
  Ok (mkVerifiedFs (nd_durable_profile_id receipt) (nd_durable_profile_digest receipt) (nd_filesystem receipt)
        (native_receipt_digest_of canonical) (Evidence.canonical_digest e)).
End Gate.

Record DurablePublicationEvidence := mkDPEvidence {
  de_schema_version : N;
  de_journal_binding : JournalBinding;
  de_recovery_receipt : RecoveryReceipt;
  de_published_root : RootPublicationReceipt;
  de_filesystem_evidence : VerifiedDurableFilesystemEvidence }.

Definition dp_map {A} (c : DurablePublicationFailureCode) (m : result DurableJournal.JournalError A) : DP A :=
  map_err (dp_error c) m.

Section Publication.
Context `{Platform, DurableJournal.JournalCodecs JournalBinding, Codec JournalBinding}.
Context `{Codec Reasoning.ReasoningContract, Codec RobustSnap.SnapBody, Codec VerifiedEvidence}.
Context (contract : Digest).

Definition RootPublicationReceipt_digest (r : RootPublicationReceipt)
  : result DurableJournal.JournalError Digest :=
  let? b := DurableJournal.root_canonical_bytes (B := JournalBinding) r in
  Ok (domain_digest DurableJournal.ROOT_DOMAIN b).

Definition DurablePublicationEvidence_digest (e : DurablePublicationEvidence) : DP Digest :=
  let? binding := dp_map BindingMismatch (DurableJournal.JournalBinding_digest (de_journal_binding e)) in
  let? recovery := dp_map IncompleteRecovery (GateTransaction.RecoveryReceipt_digest (de_recovery_receipt e)) in
  let? root := dp_map RootMismatch (RootPublicationReceipt_digest (de_published_root e)) in
  let f := de_filesystem_evidence e in
  Ok (sha256 (DURABLE_PUBLICATION_DOMAIN ++ to_be 2 (de_schema_version e) ++ binding ++ recovery ++ root ++
              string_bytes (Zbf.DurableProfileId_as_str (vf_durable_profile_id f)) ++
              vf_durable_profile_digest f ++ to_be 8 (len (string_bytes (vf_filesystem f))) ++
              string_bytes (vf_filesystem f) ++ vf_native_receipt_digest f ++ vf_certificate_digest f)).

Definition complete_recovery (r : RecoveryReceipt) (binding : Digest) : bool :=
  bool_decide (DurableJournal.rr_binding_digest r = binding) && DurableJournal.rr_promotable r &&
  DurableJournal.rr_journal_root_correspondence r &&
  bool_decide (DurableJournal.rr_failure_code r = None) &&
  negb (bool_decide (DurableJournal.rr_terminal_record_digest r = None)) &&
  match DurableJournal.rr_outcome r with
  | DurableJournal.NewRootCommitted | DurableJournal.AlreadyCommitted => true
  | _ => false end.

Definition verify_durable_publication (record : ReceiptRecord) (e : DurablePublicationEvidence) : DP Digest :=
  let b := de_journal_binding e in
  guard? (de_schema_version e =? DURABLE_PUBLICATION_SCHEMA_VERSION)%N else dp_error SchemaVersionMismatch in
  reject? negb (bool_decide (rec_kind record = KCommit)) || bool_decide (is_Some (rec_failure_code record))
    with dp_error NonCommitReceipt in
  let? _ := match DurableJournal.JournalBinding_validate b with
            | Ok x => Ok x
            | Err je => Err (mkDPError BindingMismatch (Some (code je))) end in
  guard? bool_decide (rec_assembly_manifest_digest record = DurableJournal.jb_assembly_manifest_digest b)
    else dp_error AssemblyMismatch in
  guard? bool_decide (rec_successor_root record = DurableJournal.jb_new_root b) else dp_error RootMismatch in
  let? expected := dp_map BindingMismatch (DurableJournal.JournalBinding_digest b) in
  guard? complete_recovery (de_recovery_receipt e) expected else dp_error IncompleteRecovery in
  let root := de_published_root e in
  guard? bool_decide (DurableJournal.rp_root_digest root = DurableJournal.jb_new_root b) &&
         bool_decide (DurableJournal.rp_transaction_id root = DurableJournal.jb_transaction_id b) &&
         bool_decide (DurableJournal.rp_prepared_record_digest root =
                      DurableJournal.rr_prepared_record_digest (de_recovery_receipt e))
    else dp_error RootMismatch in
  guard? bool_decide (vf_durable_profile_id (de_filesystem_evidence e) = DurableJournal.jb_durable_profile_id b) &&
         bool_decide (vf_durable_profile_digest (de_filesystem_evidence e) =
                      DurableJournal.jb_durable_profile_digest b)
    else dp_error ProfileMismatch in
  let? _ := map_err (dp_error InvalidBaseReceipt) (validate_receipt_record contract record) in
  DurablePublicationEvidence_digest e.

(** [CommitReceipt::publish_durable]; a fallback receipt has no such method. *)
Definition publish_durable (f : FinalReceipt) (e : DurablePublicationEvidence) : option (DP PublishedCommit) :=
  published ← publish f;
  Some (let? d := verify_durable_publication (receipt_record f) e in
        Ok (mkPublished (pub_visible_bytes published) (pub_approved_effects published)
              (pub_receipt_head published) (pub_successor_root published)
              (JournalVerified d (vf_durable_profile_digest (de_filesystem_evidence e))))).
End Publication.
