(* ===== verification/DurablePublicationTheorems.v ===== *)
(** What a durable claim means: a native durability receipt is accepted exactly
    when it records every check once, on the profile's own platform; and over a
    journal with any history, a commit is released as journal-verified exactly
    when its root is the one on disk, where it stays. *)

From S2P Require Import Prelude.
From S2P Require Import Canonical.
From S2P Require Import DurableStore.
From S2P Require Import Ordering.
From S2P Require Import Identity.
From S2P Require Import DurableJournal.
From S2P Require Import DurableProtocol.
From S2P Require Import DurableTheorems.
From S2P Require Zbf.
From S2P Require Evidence.
From S2P Require GateTransaction.
From S2P Require Reasoning.
From S2P Require RobustSnap.
From S2P Require Import KernelCore.
From S2P Require Import TwoPhase.
From S2P Require Import KernelExecution.
From S2P Require Import DurablePublication.

(** * The native receipt *)

(** The runs a profile accepts: its own platform, one of its file systems, and
    each of the four checks exactly once, in any order. *)
Record native_run (r : NativeDurabilityReceipt) : Prop := {
  run_platform : (nd_durable_profile_id r, nd_platform r, nd_filesystem r) ∈
    [(Zbf.ApfsStrict, Macos, "apfs"); (Zbf.Ext4XfsStrict, Linux, "ext4");
     (Zbf.Ext4XfsStrict, Linux, "xfs"); (Zbf.NtfsStrict, Windows, "ntfs")]%string;
  run_checks : nd_checks r ≡ₚ [FileSync; AtomicReplace; DirectorySync; KillReopen];
  run_passed : nd_result r = PassedNative }.

Lemma profile_matches_spec id p fs : profile_matches id p fs = true <->
  (id, p, fs) ∈ [(Zbf.ApfsStrict, Macos, "apfs"); (Zbf.Ext4XfsStrict, Linux, "ext4");
                 (Zbf.Ext4XfsStrict, Linux, "xfs"); (Zbf.NtfsStrict, Windows, "ntfs")]%string.
Proof.
  rewrite !elem_of_cons, elem_of_nil.
  destruct id, p; cbn [profile_matches]; rewrite ?orb_true_iff, ?bool_decide_eq_true; naive_solver.
Qed.

#[global] Instance NativeDurabilityCheck_ord_ok : OrdOk NativeDurabilityCheck.
Proof. apply cmp_via_ok. by intros [] []. Qed.

(** Two lists with the same elements give the same ordered set. *)
Lemma bset_of_list_ext {A} `{OrdOk A} (l l' : list A) :
  (forall x, x ∈ l <-> x ∈ l') -> bset_of_list l = bset_of_list l'.
Proof.
  intros Heq. destruct (bset_of_list_spec l) as [Hs He], (bset_of_list_spec l') as [Hs' He'].
  assert (AntiSymm (=) below) as Hanti.
  { intros x y Hxy Hyx. destruct (cmp_lt_irrefl x). by eapply cmp_trans. }
  apply (StronglySorted_unique below); [done..|]. apply NoDup_Permutation; [by apply sorted_NoDup..|].
  intros x. by rewrite He, He'.
Qed.

(** Four observed checks whose set is the required one are each observed once. *)
Lemma checks_exactly_once (l : list NativeDurabilityCheck) :
  (length l =? length required_checks)%nat && bool_decide (bset_of_list l = required_checks) = true <->
  l ≡ₚ [FileSync; AtomicReplace; DirectorySync; KillReopen].
Proof.
  rewrite andb_true_iff, bool_decide_eq_true, Nat.eqb_eq. split.
  - intros [Hlen Hset]. symmetry. apply submseteq_length_Permutation; [|by rewrite Hlen].
    apply NoDup_submseteq; [by repeat constructor; set_solver|].
    unfold required_checks in Hset. intros c Hc. by rewrite <- (elem_of_bset_of_list c l), Hset, elem_of_bset_of_list.
  - intros Hp. split; [by rewrite Hp|]. apply bset_of_list_ext. intros c. by rewrite Hp.
Qed.

Section Native.
Context `{Platform, Codec Evidence.EvidenceCertificate, FromSlice NativeDurabilityReceipt}.

(** What a verified native receipt attests. *)
Lemma native_receipt_inv (ev : VerifiedEvidence) (v : VerifiedDurableFilesystemEvidence) :
  verify_native_durability_receipt ev = Ok v ->
  exists r, Evidence.payload ev = canonical_bytes_of (jnative r) /\ native_run r /\
    nd_durable_profile_id r = vf_durable_profile_id v /\
    nd_durable_profile_digest r = vf_durable_profile_digest v /\
    vf_durable_profile_digest v = profile_digest (vf_durable_profile_id v) /\
    vf_filesystem v = nd_filesystem r /\ provenance_incomplete r = false.
Proof.
  unfold verify_native_durability_receipt. intros Hok. repeat inv_ok1.
  breflect. eexists. split_and!; try reflexivity; try done.
  split; [by apply profile_matches_spec| |done].
  apply checks_exactly_once. rewrite andb_true_iff, Nat.eqb_eq, bool_decide_eq_true. done.
Qed.
End Native.

(** * Publication over a journal *)

Section Durable.
Context `{Platform, !PlatformOk, Codec JournalBinding, !CodecOk JournalBinding}.
Context `{JournalCodecs JournalBinding, !JournalCodecsOk JournalBinding}.
Context `{Codec Reasoning.ReasoningContract, Codec RobustSnap.SnapBody, Codec VerifiedEvidence}.
Context `{FromSlice NativeDurabilityReceipt}.
Context (contract : Digest) (ps : JournalPaths) (b : JournalBinding) (bdg : Digest) (r0 : RootPublicationReceipt).

(** Evidence gathered from the store [f]: the binding of the transaction, the
    recovery receipt and root read back, and a verified native receipt. *)
Record gathered (f : FS) (ev : VerifiedEvidence) (e : DurablePublicationEvidence) : Prop := {
  g_schema : de_schema_version e = DURABLE_PUBLICATION_SCHEMA_VERSION;
  g_binding : de_journal_binding e = b;
  g_recovery : existing_recovery ps (Some b) f = Ok (Some (de_recovery_receipt e));
  g_root : read_root ps f = Ok (de_published_root e);
  g_native : verify_native_durability_receipt ev = Ok (de_filesystem_evidence e) }.

(** What the kernel receipt must say. *)
Record claims_commit (r : ReceiptRecord) : Prop := {
  cc_kind : rec_kind r = KCommit;
  cc_clean : rec_failure_code r = None;
  cc_assembly : rec_assembly_manifest_digest r = jb_assembly_manifest_digest b;
  cc_root : rec_successor_root r = jb_new_root b;
  cc_valid : validate_receipt_record contract r = Ok () }.

Hypothesis Hs : setup ps b bdg r0.

Lemma binding_profile : jb_durable_profile_digest b = profile_digest (jb_durable_profile_id b).
Proof.
  pose proof (setup_valid _ _ _ _ Hs) as Hv. cbn in Hv. unfold JournalBinding_validate in Hv.
  repeat inv_ok1. by breflect.
Qed.

(** With a persisted receipt, the transaction is settled: the receipt proves a
    complete commit exactly when the new root is the published one. *)
Lemma settled_receipt_complete a f r : legal b bdg a -> repr ps b bdg r0 a f -> a_recov a = Some r ->
  complete_recovery r bdg = a_new a /\
  (a_new a = true -> a_phase a = IsCommitted /\ rr_prepared_record_digest r = pd b /\
     exists n ph d o, r = receipt_of b bdg n ph d o).
Proof.
  intros Hl _ Hr. destruct Hl as [x Hx| |n d|d x _ Hx|d x why _ Hx]; cbn in Hr; simplify_eq;
    destruct Hx as (o & Ho & ->); unfold complete_recovery; cbn; rewrite !bool_decide_true by done; cbn;
    destruct o; try discriminate Ho; cbn; (split; [done|]); intros ?; try done; split_and!; eauto.
Qed.

Lemma evidence_digest_total a f ev e : legal b bdg a -> repr ps b bdg r0 a f -> gathered f ev e ->
  a_new a = true -> exists d, DurablePublicationEvidence_digest e = Ok d.
Proof.
  intros Hl Hr [_ Hb Hrec Hroot _] Hn.
  erewrite existing_recovery_repr in Hrec by eauto. injection Hrec as Hrec.
  destruct (settled_receipt_complete _ _ _ Hl Hr Hrec) as (_ & Hc).
  destruct (Hc Hn) as (_ & _ & n & ph & d & o & Heq).
  erewrite read_root_repr in Hroot by eauto. rewrite Hn in Hroot. injection Hroot as Hroot.
  unfold DurablePublicationEvidence_digest, GateTransaction.RecoveryReceipt_digest, RootPublicationReceipt_digest.
  rewrite Hb, (setup_digest _ _ _ _ Hs : JournalBinding_digest b = _), Heq, (receipt_bytes_ok ps b bdg r0 Hs).
  rewrite <- Hroot, (root_bytes_ok ps b bdg r0 Hs). by eexists.
Qed.

(** Over gathered evidence the gate passes exactly when the receipt claims
    this commit, the profile is the binding's, and the new root is published. *)
Lemma durable_gate_exact a f ev e (r : ReceiptRecord) :
  legal b bdg a -> repr ps b bdg r0 a f -> gathered f ev e ->
  (exists d, verify_durable_publication contract r e = Ok d) <->
  claims_commit r /\ vf_durable_profile_id (de_filesystem_evidence e) = jb_durable_profile_id b /\ a_new a = true.
Proof.
  intros Hl Hr Hg. pose proof Hg as [Hsv Hb Hrec Hroot Hnat].
  apply native_receipt_inv in Hnat as (nr & _ & _ & _ & _ & Hpd & _).
  erewrite existing_recovery_repr in Hrec by eauto. injection Hrec as Hrec.
  erewrite read_root_repr in Hroot by eauto. injection Hroot as Hroot.
  destruct (settled_receipt_complete _ _ _ Hl Hr Hrec) as (Hc & Hn).
  pose proof (setup_digest _ _ _ _ Hs : JournalBinding_digest b = _) as Hbd.
  pose proof (setup_valid _ _ _ _ Hs : JournalBinding_validate b = _) as Hbv.
  unfold verify_durable_publication. rewrite Hb, Hbd, Hbv, Hsv. cbn [dp_map map_err mbind result_bind].
  rewrite Hc, N.eqb_refl. split.
  - intros [d Hok]. repeat inv_ok1. breflect. split_and!; try done.
    split; try done; [by apply eq_None_not_Some|].
    by destruct (validate_receipt_record contract r) as [[]|].
  - intros ([Hk Hf Ha Hsr Hv] & Hid & Hnew). destruct (Hn Hnew) as (_ & Hp & _).
    rewrite Hk, Hf, Ha, Hsr, Hv, Hnew, Hid, Hpd, Hid, <- Hroot, Hnew, Hp, <- binding_profile.
    cbn [root_of]. rewrite !bool_decide_true by done. rewrite bool_decide_false by (by intros []). cbn.
    rewrite ?bool_decide_true by done. by eapply evidence_digest_total.
Qed.

Lemma receipt_record_root (fr : FinalReceipt) p : publish fr = Some p ->
  rec_kind (receipt_record fr) = KCommit /\ pub_successor_root p = rec_successor_root (receipt_record fr) /\
  pub_receipt_head p = rec_receipt_head (receipt_record fr).
Proof. destruct fr as [c v s|c]; cbn; [|done]. by intros [= <-]. Qed.
End Durable.

Section Law.
Context `{Platform, !PlatformOk, Codec JournalBinding, !CodecOk JournalBinding}.
Context `{JournalCodecs JournalBinding, !JournalCodecsOk JournalBinding}.
Context `{Codec Reasoning.ReasoningContract, Codec RobustSnap.SnapBody, Codec VerifiedEvidence}.
Context `{FromSlice NativeDurabilityReceipt}.

(** C15: A durable claim is exactly a durable root.  Take a journal with any
    history of operations, crashes and failures from a fresh transaction, and
    evidence gathered from the store it left.  Then a kernel receipt is
    released as a journal-verified commit exactly when it is a valid,
    failure-free commit of this assembly onto this transaction's new root, the
    native run was made for the binding's profile, and that new root is the
    published one.  When released, the root the commit names is read back from
    the store after every further history, the journal stays committed, and a
    run of the four durability checks, each once, on the profile's own
    platform and file system stands behind the claim. *)
Theorem durable_publication_exact (contract : Digest) (ps : JournalPaths) (b : JournalBinding) (bdg : Digest)
  (r0 : RootPublicationReceipt) (f0 f : FS) (ev : VerifiedEvidence) (e : DurablePublicationEvidence)
  (fr : FinalReceipt) :
  setup ps b bdg r0 -> fresh ps r0 f0 -> evolves ps b f0 f -> gathered ps b f ev e ->
  ((exists p, publish_durable contract fr e = Some (Ok p)) <->
   claims_commit contract b (receipt_record fr) /\
   vf_durable_profile_id (de_filesystem_evidence e) = jb_durable_profile_id b /\
   read_root ps f = Ok (root_published b (pd b))) /\
  (forall p f', publish_durable contract fr e = Some (Ok p) -> evolves ps b f f' ->
   (exists d, pub_durability p = JournalVerified d (jb_durable_profile_digest b)) /\
   pub_receipt_head p = rec_receipt_head (receipt_record fr) /\
   (exists root, read_root ps f' = Ok root /\ rp_root_digest root = pub_successor_root p /\
      rp_transaction_id root = jb_transaction_id b) /\
   (exists j, read_journal ps f' = Ok j /\ jr_state (value j) = Committed /\ jr_binding (value j) = b) /\
   (exists run, Evidence.payload ev = canonical_bytes_of (jnative run) /\ native_run run /\
      nd_durable_profile_digest run = jb_durable_profile_digest b)).
Proof.
  intros Hs Hf Hev Hg.
  destruct (fresh_refines ps b bdg r0 Hs f0 f Hf Hev) as (a & _ & Hl & Hr).
  destruct (observe ps b bdg r0 a f Hs Hr) as [Hroot _].
  assert (read_root ps f = Ok (root_published b (pd b)) <-> a_new a = true) as Hpub.
  { rewrite Hroot. destruct (a_new a); cbn; split; try done. intros [= Heq].
    destruct (roots_differ ps b bdg r0 Hs). rewrite <- (setup_old _ _ _ _ Hs), Heq. done. }
  pose proof (durable_gate_exact contract ps b bdg r0 Hs a f ev e (receipt_record fr) Hl Hr Hg) as Hgate.
  rewrite Hpub. unfold publish_durable. split.
  - rewrite <- Hgate. split.
    + intros [p Hp]. destruct (publish fr) as [q|]; [|done]. cbn in Hp. injection Hp as Hp. inv_ok1. eauto.
    + intros [d Hd]. pose proof (proj1 Hgate (ex_intro _ d Hd)) as ([Hk _ _ _ _] & _).
      destruct fr as [c v s|c]; [|done]. cbn [publish mbind option_bind]. rewrite Hd. by eexists.
  - intros p f' Hp Hev'. destruct (publish fr) as [q|] eqn:Hq; [|done]. cbn in Hp. injection Hp as Hp. repeat inv_ok1.
    destruct (receipt_record_root _ _ Hq) as (_ & Hqr & Hqh).
    destruct (proj1 Hgate (ex_intro _ _ Ha)) as ([_ _ _ Hsr _] & Hid & Hnew).
    pose proof Hg as [_ _ Hrec _ Hnat]. erewrite existing_recovery_repr in Hrec by eauto. injection Hrec as Hrec.
    destruct (settled_receipt_complete ps b bdg r0 _ _ _ Hl Hr Hrec) as (_ & Hcm).
    destruct (Hcm Hnew) as (Hph & _).
    destruct (evolves_refines ps b bdg r0 Hs a f f' Hl Hr Hev') as (a' & Ha' & Hr').
    destruct (reachable_extends _ _ _ _ Ha') as (Hn' & Hc' & _).
    destruct (observe ps b bdg r0 a' f' Hs Hr') as [-> ->]. rewrite (Hn' Hnew), (Hc' Hph).
    apply native_receipt_inv in Hnat as (nr & Hpay & Hrun & Hni & Hnd & Hpd & _).
    rewrite Hid, <- (binding_profile ps b bdg r0 Hs) in Hpd. cbn.
    split; [rewrite Hpd; by eexists|]. split; [done|]. split; [|split].
    + eexists. split; [done|]. cbn. by rewrite Hqr, Hsr.
    + eexists. split; [done|]. done.
    + exists nr. split_and!; [done..|]. by rewrite Hnd, Hpd.
Qed.
End Law.
