(* ===== verification/DurablePublicationWitness.v ===== *)
(** A durable commit: the kernel receipt of [KernelWitness], a journal that
    prepared and committed the same root on Linux, and a native run of the
    four checks on ext4. *)

From S2P Require Import Prelude.
From S2P Require Import Canonical.
From S2P Require Import DurableStore.
From S2P Require Import DurableJournal.
From S2P Require Import DurableProtocol.
From S2P Require Import DurableTheorems.
From S2P Require Import FixedCodec.
From S2P Require Import DurableWitness.
From S2P Require Import Identity.
From S2P Require Import GateWitness.
From S2P Require Zbf.
From S2P Require Evidence.
From S2P Require Import KernelCore.
From S2P Require Import TwoPhase.
From S2P Require Import KernelExecution.
From S2P Require KernelWitness.
From S2P Require Import DurablePublication.
From S2P Require Import DurablePublicationTheorems.

Module DurableToy.
Import KernelWitness.
#[local] Existing Instance toy_platform.
#[local] Existing Instance toy_contracts.
#[local] Existing Instance toy_snaps.
#[local] Existing Instance toy_evidence.
#[local] Instance toy_platform_ok : PlatformOk.
Proof.
  intros m. hnf. cbn. unfold Zbf.toy_sha256. rewrite length_take, length_app, length_replicate. lia.
Qed.
#[local] Instance dp_binding_codec : Codec JournalBinding := fixed_codec.
#[local] Instance dp_binding_codec_ok : CodecOk JournalBinding := fixed_codec_ok.
#[local] Instance dp_codecs : JournalCodecs JournalBinding := {|
  root_codec := fixed_codec; journal_codec := fixed_codec; cartridge_codec := fixed_codec;
  death_codec := fixed_codec; recovery_codec := fixed_codec |}.
#[local] Instance dp_codecs_ok : JournalCodecsOk JournalBinding.
Proof. split; apply fixed_codec_ok. Qed.

Definition jb : JournalBinding :=
  DurableJournal.mkBinding DURABLE_BINDING_SCHEMA_VERSION (d 70) (d 2) Zbf.Ext4XfsStrict (profile_digest Zbf.Ext4XfsStrict)
    (d 1) (d 63) (d 71).
Definition jroot : RootPublicationReceipt := mkRoot DURABLE_RECEIPT_SCHEMA_VERSION ZERO (d 1) 0 ZERO.
Definition jps : JournalPaths := DurableWitness.Toy.ps.
Definition start : FS := {[ root_record jps := Regular (encode jroot) ]}.
Definition jdg : Digest := match JournalBinding_digest jb with Ok x => x | Err _ => [] end.

Definition native : NativeDurabilityReceipt :=
  mkNative 1 Zbf.Ext4XfsStrict (profile_digest Zbf.Ext4XfsStrict) Linux "ext4"
    "0123456789abcdef0123456789abcdef01234567" (d 3) (d 72) (d 73) (d 74) "run-1"
    [KillReopen; FileSync; AtomicReplace; DirectorySync] PassedNative.
#[local] Instance native_from_slice : FromSlice NativeDurabilityReceipt :=
  fun _ => Some native.

Lemma jsetup : setup jps jb jdg jroot.
Proof.
  split; try (vm_compute; reflexivity); try (vm_compute; discriminate).
  - split_and!; [by vm_compute | repeat constructor; by vm_compute].
  - split_and!; [by vm_compute | by vm_compute | repeat constructor; by vm_compute].
Qed.

Lemma jfresh : fresh jps jroot start.
Proof. split_and!; [apply lookup_singleton_eq | ..]; apply lookup_singleton_ne; discriminate. Qed.

Definition prepared : FS := fs (run jps jb DurableWitness.Toy.never (OpPrepare 5) (mkWorld start FaultPlan_none)).
Definition done' : FS :=
  fs (run jps jb DurableWitness.Toy.never (OpCommit (cart0 jb jdg)) (mkWorld prepared FaultPlan_none)).
Lemma done_evolves : evolves jps jb start done'.
Proof. apply evolves_op; [done|]. apply evolves_op; [done|]. constructor. Qed.

Definition native_trace_run : VerifiedEvidence := test_run (canonical_bytes_of (jnative native)).
Definition gathered_evidence : DurablePublicationEvidence :=
  mkDPEvidence 1 jb
    match existing_recovery jps (Some jb) done' with
    | Ok (Some r) => r | _ => DurableJournal.mkReceipt 0 [] [] None None [] NotStartedOldRoot false false None end
    match read_root jps done' with Ok r => r | Err _ => jroot end
    match verify_native_durability_receipt native_trace_run with
    | Ok v => v | Err _ => mkVerifiedFs Zbf.Ext4XfsStrict [] "" [] [] end.

Lemma all_gathered : gathered jps jb done' native_trace_run gathered_evidence.
Proof. split; vm_compute; reflexivity. Qed.

(** The released commit names the root the store reads back. *)
Lemma durable_publication_exact_witness : exists fr p root,
  finalize commit_ready = Ok fr /\ publish_durable contract_manifest fr gathered_evidence = Some (Ok p) /\
  read_root jps done' = Ok root /\ rp_root_digest root = pub_successor_root p.
Proof.
  assert (Hok : exists fr, finalize commit_ready = Ok fr /\
    claims_commit contract_manifest jb (receipt_record fr)).
  { eexists. split; [vm_compute; reflexivity|]. split; vm_compute; reflexivity. }
  destruct Hok as (fr & Hfr & Hc).
  destruct (durable_publication_exact contract_manifest jps jb jdg jroot start done' native_trace_run
    gathered_evidence fr jsetup jfresh done_evolves all_gathered) as [Hiff Hafter].
  assert (Hp : exists p, publish_durable contract_manifest fr gathered_evidence = Some (Ok p)).
  { apply Hiff. split; [exact Hc|]. split; vm_compute; reflexivity. }
  destruct Hp as [p Hp].
  destruct (Hafter p done' Hp (evolves_refl jps jb done')) as (_ & _ & (root & Hr & Hd & _) & _).
  exists fr, p, root. split_and!; assumption.
Defined.
End DurableToy.
