(* ===== verification/KernelTransaction.v ===== *)
(** Cell transactions of the kernel ([zero-kernel/src/transaction.rs]): file
    effects applied one by one under a durable journal record, settled by
    commit, rollback, compensation or drop, and reconciled after a crash.

    The file engine is the class [FileEngine] (the trait of [zero_kernel.rs]).
    The world is the engine's state, the journal's file store and a clock that
    counts probes and writes; the environment says at each tick whether the
    call is cancelled and which operating-system calls fail.  Texts that embed
    operating-system or path display strings are the class [Messages];
    [TransactionError::Store] drops its text. *)

From S2P Require Import Prelude.
From S2P Require Import DurableStore.
From S2P Require ZeroRef.
Local Open Scope string_scope.

(** * Engine types ([zero-abi/src/zero_kernel.rs]) *)

Definition ZeroHandle := string.

Inductive EngineErrorKind :=
| InvalidInput | OutsideWorkspace | NotFound | Conflict | Cancelled | Deadline | Budget | Unsupported
| Corrupt | Io | Internal.
#[global] Instance EngineErrorKind_eq_dec : EqDecision EngineErrorKind.
Proof. solve_decision. Defined.
Record EngineError := mkEngineError { ee_kind : EngineErrorKind; ee_detail : string; ee_retryable : bool }.

Record FileMetadata := mkMetadata {
  fm_mode : N; fm_modified_unix_ns : N; fm_symlink_target : option Path; fm_symlink_target_is_dir : bool }.
Record FileSnapshot := mkSnapshot {
  sn_path : Path; sn_content : ZeroHandle; sn_byte_len : N; sn_modified_unix_ns : N; sn_mode : N;
  sn_symlink_target : option Path; sn_symlink_target_is_dir : bool }.
Inductive FileEffectKind := EWrite | EEdit | ERemove | ERestore.
Record FileEffectRequest := mkRequest {
  fq_kind : FileEffectKind; fq_path : Path; fq_content : option bytes; fq_patch : option string;
  fq_expected_preimage : option ZeroHandle; fq_expect_absent : bool }.
Record FileEffectReceipt := mkEffectReceipt {
  fr_kind : FileEffectKind; fr_path : Path; fr_before : option ZeroHandle; fr_after : option ZeroHandle;
  fr_before_metadata : option FileMetadata; fr_journal : ZeroHandle }.

(** The operations of the [FileEngine] trait a transaction uses; reads take
    default options. *)
Class FileEngine (E : Type) := {
  elease : E -> result EngineError ();
  eread : E -> Path -> result EngineError FileSnapshot;
  eapply : E -> FileEffectRequest -> result EngineError FileEffectReceipt * E;
  erestore : E -> FileEffectReceipt -> result EngineError () * E }.

(** * Records *)

Inductive TransactionState := Prepared | Applying | Committed | Compensating | RolledBack | RecoveryRequired.
#[global] Instance TransactionState_eq_dec : EqDecision TransactionState.
Proof. solve_decision. Defined.

Record PreparedEffect := mkEffect {
  pe_request : FileEffectRequest; pe_before : option ZeroHandle; pe_before_metadata : option FileMetadata;
  pe_preparation : ZeroHandle; pe_receipt : option FileEffectReceipt; pe_restored : bool }.
Record TransactionRecord := mkTx {
  tr_session_id : string; tr_cell_id : string; tr_trace_id : string;
  tr_state : TransactionState; tr_effects : list PreparedEffect; tr_rollback_errors : list string }.
Definition with_state (r : TransactionRecord) (s : TransactionState) : TransactionRecord :=
  mkTx (tr_session_id r) (tr_cell_id r) (tr_trace_id r) s (tr_effects r) (tr_rollback_errors r).
Definition with_effects (r : TransactionRecord) (l : list PreparedEffect) : TransactionRecord :=
  mkTx (tr_session_id r) (tr_cell_id r) (tr_trace_id r) (tr_state r) l (tr_rollback_errors r).

Inductive TransactionError :=
| TEngine (e : EngineError) | TStore | TRecoveryRequired (details : list string).

(** What is hashed and stored before an effect is dispatched. *)
Record Preparation := mkPreparation {
  pr_request : FileEffectRequest; pr_before : option ZeroHandle; pr_trace_id : string }.

Class Messages := {
  restore_failed : Path -> EngineError -> string;
  invalid_transition : TransactionState -> TransactionState -> string;
  sync_failed : Path -> string;
  missing_receipts : Path -> string;
  quarantined_torn : Path -> string;
  quarantined_poisoned : Path -> string;
  quarantined_foreign : string -> string;
  quarantined_ambiguous : Path -> string;
  quarantine_count : N -> string;
  cancelled_after : EngineError -> string;
  preimage_mismatch : Path -> ZeroHandle -> option ZeroHandle -> string }.

Record EngineCallContext := mkContext {
  cx_project_root : Path; cx_session_id : string; cx_cell_id : string; cx_trace_id : string }.

(** The environment of a call, by clock tick. *)
Record Env := mkEnv {
  cancelled : nat -> bool;
  os_fails : nat -> OsCall -> bool;
  cas_put : bytes -> option ZeroHandle }.

Record KWorld (E : Type) := mkKWorld { engine : E; disk : FS; clock : nat }.
Global Arguments mkKWorld {E} _ _ _.
Global Arguments engine {E} _.
Global Arguments disk {E} _.
Global Arguments clock {E} _.

Definition is_terminal (s : TransactionState) : bool :=
  match s with Committed | RolledBack | RecoveryRequired => true | _ => false end.

Definition transition_allowed (from to : TransactionState) : bool :=
  match from, to with
  | Prepared, Applying | Applying, Applying | Prepared, Committed | Applying, Committed
  | Prepared, RolledBack | Applying, RolledBack | Prepared, RecoveryRequired | Applying, RecoveryRequired
  | Committed, Committed | Committed, Compensating | Compensating, Compensating | Compensating, RolledBack
  | Compensating, RecoveryRequired | RolledBack, RolledBack | RecoveryRequired, RecoveryRequired => true
  | _, _ => false
  end.
Definition validate_transition (from to : TransactionState) : result TransactionError () :=
  if transition_allowed from to then Ok () else Err TStore.

(** ** Names *)

Definition ends_with (suffix s : string) : bool :=
  (String.length suffix <=? String.length s)%nat &&
  String.eqb (String.substring (String.length s - String.length suffix) (String.length suffix) s) suffix.
Definition strip_suffix (suffix s : string) : option string :=
  if ends_with suffix s then Some (String.substring 0 (String.length s - String.length suffix) s) else None.
Definition contains (pat s : string) : bool := negb (bool_decide (String.index 0 pat s = None)).

Definition ignored_transaction_entry (p : Path) : bool :=
  match file_name p with
  | Some name => ends_with ".poisoned.json" name || contains ".txn-tmp-" name
  | None => false
  end.

(** [Path::with_file_name]. *)
Definition with_file_name (p : Path) (name : string) : Path :=
  match file_name p with Some _ => (removelast p ++ [Normal name])%list | None => (p ++ [Normal name])%list end.
Definition poisoned_journal_path (p : Path) : Path :=
  let name := default "journal.json" (file_name p) in
  let stem := default name (strip_suffix ".json" name) in
  with_file_name p (stem +:+ ".poisoned.json").

(** [str::parse::<u64>]: an optional plus sign, then digits only. *)
Definition parse_u64 (s : string) : option N :=
  ZeroRef.parse_digits (default s (ZeroRef.strip_prefix "+" s)).
Definition cell_sequence (cell_id : string) : option N :=
  rest ← ZeroRef.strip_prefix "cell-" cell_id;
  n ← parse_u64 rest;
  if (0 <? n)%N then Some n else None.

(** ** Paths *)

(** Lexical normalization, for a path that cannot be canonicalized. *)
Definition normalize_step (acc : Path) (c : Component) : Path :=
  match c with
  | CurDir => acc
  | ParentDir => match list.last acc with Some (Normal _) => removelast acc | _ => acc end
  | RootDir => [RootDir]
  | Normal n => (acc ++ [Normal n])%list
  end.
Definition is_absolute (p : Path) : bool := match p with RootDir :: _ => true | _ => false end.
Definition logical_path (canonicalize : Path -> option Path) (root p : Path) : Path :=
  let joined := if is_absolute p then p else (root ++ p)%list in
  default (foldl normalize_step [] joined) (canonicalize joined).

(** * Operations *)

Section Transactions.
Context {E : Type} `{FileEngine E, Codec TransactionRecord, Codec Preparation, Messages}.
Context (env : Env) (cx : EngineCallContext) (blake3_hex : string -> string).

Notation World := (KWorld E).
Notation WM := (M TransactionError World).

Definition tick (w : World) : World := mkKWorld (engine w) (disk w) (S (clock w)).
Definition with_engine (w : World) (e : E) : World := mkKWorld e (disk w) (clock w).
Definition with_disk (w : World) (d : FS) : World := mkKWorld (engine w) d (clock w).

(** [CancellationProbe::is_cancelled]. *)
Definition is_cancelled : WM bool := fun w => (Ok (cancelled env (clock w)), tick w).

(** One durable publication: every failing call before the rename leaves the
    old record; a failing directory sync leaves the new one, ambiguously. *)
Definition persist_record (path : Path) (record : TransactionRecord) : WM () := fun w =>
  let fails := os_fails env (clock w) in
  let w := tick w in
  if fails CreateDirAll then (Err TStore, w)
  else match file_name path with
  | None => (Err TStore, w)
  | Some _ =>
      if fails OpenTemp || fails WriteAll || fails SyncAll || fails Rename then (Err TStore, w)
      else
        let w := with_disk w (<[path := Regular (encode record)]> (disk w)) in
        if fails SyncDir then (Err (TRecoveryRequired [sync_failed path]), w) else (Ok (), w)
  end.

(** ** Rollback *)

Definition fallback_receipt (p : PreparedEffect) : FileEffectReceipt :=
  mkEffectReceipt (fq_kind (pe_request p)) (fq_path (pe_request p)) (pe_before p) None
    (pe_before_metadata p) (pe_preparation p).
Definition effect_receipt (p : PreparedEffect) : FileEffectReceipt :=
  default (fallback_receipt p) (pe_receipt p).
Definition mark_restored (p : PreparedEffect) : PreparedEffect :=
  mkEffect (pe_request p) (pe_before p) (pe_before_metadata p) (pe_preparation p) (pe_receipt p) true.

(** The effects from the last to the first, each restored unless it was. *)
Fixpoint restore_effects (e : E) (effects : list PreparedEffect) : list PreparedEffect * list string * E :=
  match effects with
  | [] => ([], [], e)
  | p :: rest =>
      if pe_restored p then
        let '(rest, errors, e) := restore_effects e rest in (p :: rest, errors, e)
      else
        let r := effect_receipt p in
        match erestore e r with
        | (Ok _, e) =>
            let '(rest, errors, e) := restore_effects e rest in (mark_restored p :: rest, errors, e)
        | (Err x, e) =>
            let '(rest, errors, e) := restore_effects e rest in
            (p :: rest, restore_failed (fr_path r) x :: errors, e)
        end
  end.

Definition rollback_record (e : E) (r : TransactionRecord) : TransactionRecord * E :=
  let '(effects, errors, e) := restore_effects e (reverse (tr_effects r)) in
  let target := match errors with [] => RolledBack | _ => RecoveryRequired end in
  let settle state errors :=
    mkTx (tr_session_id r) (tr_cell_id r) (tr_trace_id r) state (reverse effects) errors in
  if transition_allowed (tr_state r) target then (settle target errors, e)
  else (settle RecoveryRequired
          match errors with [] => [invalid_transition RecoveryRequired target] | _ => errors end, e).

(** ** A transaction: its record and whether it is settled *)

Record Tx := mkTransaction { tx_world : World; tx_record : TransactionRecord; tx_settled : bool }.
Notation TxM := (M TransactionError Tx).
Context (path : Path).

Definition on_world {A} (m : WM A) : TxM A := fun t =>
  let '(r, w) := m (tx_world t) in (r, mkTransaction w (tx_record t) (tx_settled t)).
Definition get_record : TxM TransactionRecord := fun t => (Ok (tx_record t), t).
Definition get_settled : TxM bool := fun t => (Ok (tx_settled t), t).
Definition put_record (r : TransactionRecord) : TxM () := fun t => (Ok (), mkTransaction (tx_world t) r (tx_settled t)).
Definition put_settled (b : bool) : TxM () := fun t => (Ok (), mkTransaction (tx_world t) (tx_record t) b).
Definition probe : TxM bool := on_world is_cancelled.
Definition persist : TxM () := fun t => on_world (persist_record path (tx_record t)) t.
(** The outcome of a computation as a value, for the code that inspects it. *)
Definition catch {A} (m : TxM A) : TxM (result TransactionError A) := fun t => let '(r, t) := m t in (Ok r, t).
Definition rollback_in_place : TxM () := fun t =>
  let '(r, e) := rollback_record (engine (tx_world t)) (tx_record t) in
  (Ok (), mkTransaction (with_engine (tx_world t) e) r (tx_settled t)).
Definition read_snapshot (p : Path) : TxM (option FileSnapshot) := fun t =>
  match eread (engine (tx_world t)) p with
  | Ok s => (Ok (Some s), t)
  | Err x => if bool_decide (ee_kind x = NotFound) then (Ok None, t) else (Err (TEngine x), t)
  end.
Definition engine_apply (q : FileEffectRequest) : TxM (result EngineError FileEffectReceipt) := fun t =>
  let '(r, e) := eapply (engine (tx_world t)) q in
  (Ok r, mkTransaction (with_engine (tx_world t) e) (tx_record t) (tx_settled t)).

Definition cancelled_error (detail : string) : TransactionError := TEngine (mkEngineError Cancelled detail false).
Definition conflict_error (p : Path) (expected : ZeroHandle) (got : option ZeroHandle) : TransactionError :=
  TEngine (mkEngineError Conflict (preimage_mismatch p expected got) false).

Definition receipts (r : TransactionRecord) : list FileEffectReceipt := omap pe_receipt (tr_effects r).

(** ** Applying an effect *)

Definition with_expected (q : FileEffectRequest) (h : option ZeroHandle) : FileEffectRequest :=
  mkRequest (fq_kind q) (fq_path q) (fq_content q) (fq_patch q) h (fq_expect_absent q).

(** An unstated preimage is the one observed; a stated one must be it. *)
Definition bind_preimage (q : FileEffectRequest) (s : option FileSnapshot)
  : result TransactionError FileEffectRequest :=
  match fq_expected_preimage q, s with
  | None, _ => Ok (with_expected q (sn_content <$> s))
  | Some expected, Some s =>
      guard? bool_decide (sn_content s = expected)
        else conflict_error (fq_path q) expected (Some (sn_content s)) in Ok q
  | Some expected, None =>
      guard? fq_expect_absent q else conflict_error (fq_path q) expected None in Ok q
  end.

Definition snapshot_metadata (s : FileSnapshot) : FileMetadata :=
  mkMetadata (sn_mode s) (sn_modified_unix_ns s) (sn_symlink_target s) (sn_symlink_target_is_dir s).

(** Drop the last preparation. *)
Definition pop_effect (r : TransactionRecord) : TransactionRecord :=
  let l := removelast (tr_effects r) in
  let r := with_effects r l in
  match l with [] => with_state r Prepared | _ => r end.
Definition set_last_receipt (r : TransactionRecord) (receipt : FileEffectReceipt) : TransactionRecord :=
  with_effects r
    match list.last (tr_effects r) with
    | Some p => (removelast (tr_effects r) ++
        [mkEffect (pe_request p) (pe_before p) (pe_before_metadata p) (pe_preparation p) (Some receipt) (pe_restored p)])%list
    | None => tr_effects r
    end.

(** Up to the dispatch: the effect is prepared and its record persisted. *)
Definition prepare_effect (q0 : FileEffectRequest) : TxM FileEffectRequest :=
  let! settled := get_settled in
  reject! settled with TStore in
  let! r := get_record in
  reject! is_terminal (tr_state r) with TStore in
  let! c := probe in
  reject! c with cancelled_error "transaction cancelled before apply" in
  let! snapshot := read_snapshot (fq_path q0) in
  let! q := lift (bind_preimage q0 snapshot) in
  let before := sn_content <$> snapshot in
  let! preparation := lift (ok_or (cas_put env (encode (mkPreparation q before (cx_trace_id cx)))) TStore) in
  let r := with_effects r (tr_effects r ++
    [mkEffect q before (snapshot_metadata <$> snapshot) preparation None false])%list in
  let! _ := put_record r in
  let! _ := lift (validate_transition (tr_state r) Applying) in
  let! _ := put_record (with_state r Applying) in
  let! _ := persist in
  let! c := probe in
  if c then
    let! _ := put_record (pop_effect (with_state r Applying)) in
    let! _ := persist in
    throw (cancelled_error "transaction cancelled before effect dispatch")
  else sret q.

(** The receipt binds the requested path and the observed preimage. *)
Definition receipt_matches (r : TransactionRecord) (receipt : FileEffectReceipt) : bool :=
  match list.last (tr_effects r) with
  | Some p => bool_decide (fr_path receipt = fq_path (pe_request p)) &&
              bool_decide (fr_before receipt = pe_before p)
  | None => false
  end.

(** Roll back, persist, and report what the record says. *)
Definition rollback_and_report {A} (e : TransactionError) : TxM A :=
  let! _ := rollback_in_place in
  let! _ := persist in
  let! r := get_record in
  if bool_decide (tr_state r = RecoveryRequired) then throw (TRecoveryRequired (tr_rollback_errors r)) else throw e.

(** Roll back, persist, settle; then report. *)
Definition settle_by_rollback {A} (k : TxM A) : TxM A :=
  let! _ := rollback_in_place in
  let! p := catch persist in
  let! _ := put_settled true in
  let! _ := lift p in
  let! r := get_record in
  if bool_decide (tr_state r = RecoveryRequired) then throw (TRecoveryRequired (tr_rollback_errors r)) else k.

Definition refused (k : EngineErrorKind) : bool := match k with NotFound | Conflict => true | _ => false end.

Definition dispatch_effect (q : FileEffectRequest) : TxM FileEffectReceipt :=
  let! outcome := engine_apply q in
  let! r := get_record in
  match outcome with
  | Ok receipt =>
      let! _ := put_record (set_last_receipt r receipt) in
      if negb (receipt_matches r receipt) then rollback_and_report TStore
      else
        let! c := probe in
        if c then rollback_and_report (cancelled_error "transaction cancelled after apply, rolled back")
        else let! _ := persist in sret receipt
  | Err x =>
      if refused (ee_kind x) then
        let! _ := put_record (pop_effect r) in
        let! _ := persist in
        throw (TEngine x)
      else
        let! c := probe in
        if c then
          let! _ := put_record (pop_effect r) in
          let! _ := persist in
          throw (cancelled_error (cancelled_after x))
        else settle_by_rollback (throw (TEngine x))
  end.

Definition apply (q : FileEffectRequest) : TxM FileEffectReceipt :=
  let! q := prepare_effect q in dispatch_effect q.

(** ** Settlement *)

Definition unreceipted (r : TransactionRecord) : bool := 
  existsb (fun p => match pe_receipt p with None => true | Some _ => false end) (tr_effects r).
Definition receipt_bound (p : PreparedEffect) : bool :=
  match pe_receipt p with
  | Some x => bool_decide (fr_path x = fq_path (pe_request p)) && bool_decide (fr_before x = pe_before p)
  | None => true
  end.

Definition commit : TxM (list FileEffectReceipt) :=
  let! settled := get_settled in
  reject! settled with TStore in
  let! c := probe in
  if c then settle_by_rollback (throw (cancelled_error "transaction cancelled, commit refused"))
  else
    let! r := get_record in
    if bool_decide (tr_state r = Committed) then
      reject! unreceipted r with TRecoveryRequired [missing_receipts path] in
      let! _ := put_settled true in sret (receipts r)
    else
      reject! is_terminal (tr_state r) with TStore in
      reject! unreceipted r with TStore in
      reject! negb (forallb receipt_bound (tr_effects r)) with TStore in
      let! _ := lift (validate_transition (tr_state r) Committed) in
      let! _ := put_record (with_state r Committed) in
      let! _ := persist in
      let! _ := put_settled true in
      sret (receipts r).

Definition compensate_committed : TxM () :=
  let! r := get_record in
  let! settled := get_settled in
  reject! negb (bool_decide (tr_state r = Committed)) || negb settled with TStore in
  let! _ := lift (validate_transition (tr_state r) Compensating) in
  let! _ := put_record (with_state r Compensating) in
  let! p := catch persist in
  match p with
  | Err e => let! _ := put_record r in throw e
  | Ok _ => let! _ := put_settled false in settle_by_rollback (sret ())
  end.

(** [Drop]: an unsettled transaction is rolled back, never committed. *)
Definition drop : TxM () :=
  let! settled := get_settled in
  if settled then sret ()
  else
    let! _ := rollback_in_place in
    let! _ := catch persist in
    put_settled true.

Definition rollback_body : TxM () :=
  let! r := get_record in
  match tr_state r with
  | RolledBack => put_settled true
  | RecoveryRequired => let! _ := put_settled true in throw (TRecoveryRequired (tr_rollback_errors r))
  | Committed => throw TStore
  | _ =>
      let! settled := get_settled in
      reject! settled with TStore in
      let! _ := rollback_in_place in
      let! _ := persist in
      let! _ := put_settled true in
      let! r := get_record in
      if bool_decide (tr_state r = RecoveryRequired) then throw (TRecoveryRequired (tr_rollback_errors r)) else sret ()
  end.
(** [rollback] consumes the transaction, so it is dropped on return. *)
Definition rollback : TxM () := fun t =>
  let '(r, t) := rollback_body t in (r, snd (drop t)).

(** ** What a pending transaction says about a path *)

Inductive PendingFileContent := PPresent (content : bytes) | PRemoved | PUnavailable.

Definition pending_content (canonicalize : Path -> option Path) (r : TransactionRecord) (p : Path)
  : option PendingFileContent :=
  let logical := logical_path canonicalize (cx_project_root cx) in
  e ← List.find (fun e =>
        bool_decide ((logical ∘ fr_path) <$> pe_receipt e = Some (logical p)) ||
        bool_decide (logical (fq_path (pe_request e)) = logical p)) (reverse (tr_effects r));
  Some match fq_kind (pe_request e) with
       | ERemove => PRemoved
       | EWrite | EEdit => match fq_content (pe_request e) with Some b => PPresent b | None => PUnavailable end
       | ERestore => PUnavailable
       end.
End Transactions.

(** * The coordinator *)

Section Coordinator.
Context {E : Type} `{FileEngine E, Codec TransactionRecord, Messages}.
Context (env : Env) (cx : EngineCallContext) (blake3_hex : string -> string) (root : Path).
Notation World := (KWorld E).
Notation WM := (M TransactionError World).

Definition session_directory (session : string) : Path :=
  (root ++ [Normal "transactions"; Normal (blake3_hex session)])%list.
Definition record_path (session cell : string) : Path :=
  (session_directory session ++ [Normal (blake3_hex cell +:+ ".json")])%list.

Definition tx_path : Path := record_path (cx_session_id cx) (cx_cell_id cx).
Definition new_record : TransactionRecord :=
  mkTx (cx_session_id cx) (cx_cell_id cx) (cx_trace_id cx) Prepared [] [].

(** An existing record may be resumed: same binding, not yet settled. *)
Definition resumable (r : TransactionRecord) : bool :=
  String.eqb (tr_session_id r) (cx_session_id cx) && String.eqb (tr_cell_id r) (cx_cell_id cx) &&
  String.eqb (tr_trace_id r) (cx_trace_id cx) &&
  match tr_state r with Prepared | Applying => true | _ => false end.

Definition begin : WM TransactionRecord := fun w =>
  match elease (engine w) with
  | Err x => (Err (TEngine x), w)
  | Ok _ =>
      match disk w !! tx_path with
      | Some (Regular b) =>
          match decode b with
          | Some r => if resumable r then (Ok r, w) else (Err TStore, w)
          | None => (Err TStore, w)
          end
      | Some (NotAFile | ReadFails _) => (Err TStore, w)
      | Some StatFails | None =>
          match persist_record env tx_path new_record w with
          | (Ok _, w) => (Ok new_record, w)
          | (Err x, w) => (Err x, w)
          end
      end
  end.

(** [fs::rename]; the tick decides whether it fails. *)
Definition rename_file (from to : Path) : M TransactionError World bool := fun w =>
  let ok := negb (os_fails env (clock w) Rename) in
  (Ok ok, tick (if ok then
    match disk w !! from with
    | Some x => with_disk w (<[to := x]> (delete from (disk w)))
    | None => w end
   else w)).

Definition is_recovery (x : TransactionError) : option (list string) :=
  match x with TRecoveryRequired d => Some d | _ => None end.

(** The body of the reconciliation loop on one directory entry: the paths
    recovered and the details of what was quarantined. *)
Definition reconcile_entry (p : Path) : WM (list Path * list string) := fun w =>
  match disk w !! p with
  | None | Some NotAFile => (Ok ([], []), w)
  | Some StatFails => (Err TStore, w)
  | Some (ReadFails _) => if ignored_transaction_entry p then (Ok ([], []), w) else (Err TStore, w)
  | Some (Regular b) =>
      if ignored_transaction_entry p then (Ok ([], []), w)
      else
        let poisoned := poisoned_journal_path p in
        match decode (T := TransactionRecord) b with
        | None =>
            let '(_, w) := rename_file p poisoned w in
            (Ok ([], [quarantined_torn p; quarantined_poisoned poisoned]), w)
        | Some r =>
            if negb (String.eqb (tr_session_id r) (cx_session_id cx)) then
              let '(_, w) := rename_file p poisoned w in
              (Ok ([], [quarantined_foreign (tr_session_id r)]), w)
            else if bool_decide (tr_state r = Committed) || bool_decide (tr_state r = RolledBack) then (Ok ([], []), w)
            else
              let '(r, e) := rollback_record (engine w) r in
              let w := with_engine w e in
              if bool_decide (tr_state r = RecoveryRequired) then
                let '(renamed, w) := rename_file p poisoned w in
                match renamed with
                | Ok true => (Ok ([], (tr_rollback_errors r ++ [quarantined_poisoned poisoned])%list), w)
                | _ => (Err TStore, w)
                end
              else
                match persist_record env p r w with
                | (Ok _, w) => (Ok ([p], []), w)
                | (Err x, w) =>
                    match is_recovery x with
                    | Some details =>
                        let '(_, w) := rename_file p poisoned w in
                        (Ok ([], (details ++ [quarantined_ambiguous poisoned])%list), w)
                    | None => (Err x, w)
                    end
                end
        end
  end.

Fixpoint reconcile_loop (entries : list Path) (recovered : list Path) (details : list string)
  : WM (list Path * list string) :=
  match entries with
  | [] => sret (recovered, details)
  | p :: rest =>
      let! x := reconcile_entry p in
      reconcile_loop rest (recovered ++ x.1)%list (details ++ x.2)%list
  end.

(** [entries] is the listing of the session directory, [None] when it does
    not exist; its order is the file system's. *)
Definition reconcile (entries : option (list Path)) : WM (list Path) := fun w =>
  match elease (engine w) with
  | Err x => (Err (TEngine x), w)
  | Ok _ =>
      match entries with
      | None => (Ok [], w)
      | Some entries =>
          (let! x := reconcile_loop entries [] [] in
           match x.2 with
           | [] => sret x.1
           | details => throw (TRecoveryRequired (quarantine_count (N.of_nat (length details)) :: details))
           end) w
      end
  end.

(** ** Cell sequences *)

Fixpoint highest_loop (session : string) (entries : list Path) (d : FS) (highest : N) : result TransactionError N :=
  match entries with
  | [] => Ok highest
  | p :: rest =>
      match d !! p with
      | None | Some NotAFile => highest_loop session rest d highest
      | Some StatFails => Err TStore
      | Some (ReadFails _) => if ignored_transaction_entry p then highest_loop session rest d highest else Err TStore
      | Some (Regular b) =>
          if ignored_transaction_entry p then highest_loop session rest d highest
          else
            let? r := ok_or (decode (T := TransactionRecord) b) TStore in
            guard? String.eqb (tr_session_id r) session else TStore in
            highest_loop session rest d (N.max highest (default 0%N (cell_sequence (tr_cell_id r))))
      end
  end.
Definition highest_cell_sequence (session : string) (entries : option (list Path)) (d : FS) : result TransactionError N :=
  match entries with None => Ok 0%N | Some l => highest_loop session l d 0 end.

Definition sequence_path (session : string) : Path :=
  (root ++ [Normal "cell-sequences"; Normal (blake3_hex session +:+ ".txt")])%list.

(** Under the process mutex and the store lock, which [locked] says was
    taken; [read_text] is UTF-8 decoding followed by [trim]. *)
Definition allocate_cell_sequence (locked : bool) (read_text : bytes -> option string) (session : string) (minimum : N)
  : WM N := fun w =>
  if negb locked then (Err TStore, w)
  else
    let stored : result TransactionError N :=
      match disk w !! sequence_path session with
      | None => Ok 0%N
      | Some (Regular b) =>
          let? t := ok_or (read_text b) TStore in ok_or (parse_u64 t) TStore
      | Some _ => Err TStore
      end in
    match stored with
    | Err x => (Err x, w)
    | Ok stored =>
        match checked_add_u64 (N.max stored minimum) 1%N with
        | None => (Err TStore, w)
        | Some next =>
            let fails := os_fails env (clock w) in
            let w := tick w in
            if fails CreateDirAll || fails OpenTemp || fails WriteAll || fails SyncAll || fails Rename
            then (Err TStore, w)
            else (Ok next, with_disk w (<[sequence_path session := Regular (string_bytes (ZeroRef.show_u64 next))]> (disk w)))
        end
    end.
End Coordinator.
