(* ===== verification/KernelTransactionTheorems.v ===== *)
(** Atomicity of cell transactions: a rollback or compensation that reports
    success, a drop that ends rolled back and a successful crash recovery give
    back the files as they were at the start, whatever was cancelled or failed
    in between, at the plain places that were not leaked; a commit is journaled
    with all receipts.  The engine's part of the contract is [FileEngineOk]. *)

From stdpp Require Import countable gmap.
From S2P Require Import Prelude.
From S2P Require Import DurableStore.
From S2P Require Import KernelTransaction.

(** What the engine shows at a place of the file tree: content and metadata. *)
Notation Shown := (option (ZeroHandle * FileMetadata)).
(** [plain] singles out the places that no symbolic link is at, leads to or
    leads through: a link shows the file behind it, so an effect on the one
    shows at the other, and the engine promises nothing there. *)
Class EngineView (E K : Type) := { place : Path -> K; view : E -> K -> Shown; plain : K -> bool }.

(** The preimage a receipt restores. *)
Definition preimage (r : FileEffectReceipt) : Shown :=
  match fr_before r, fr_before_metadata r with Some h, Some m => Some (h, m) | _, _ => None end.
Definition paired (before : option ZeroHandle) (m : option FileMetadata) : Prop := is_Some before <-> is_Some m.

(** What a transaction relies on, at the plain places: reads show the tree; an
    effect changes no other place, and none when refused; its receipt carries
    the metadata of the preimage it names; a restore changes no other place and,
    when it succeeds, puts the preimage back.  An effect that fails may leave
    its place in any state, and a restore may fail. *)
Class FileEngineOk (E K : Type) `{FileEngine E, EngineView E K} := {
  read_shows : forall e p s, plain (place p) = true -> eread e p = Ok s ->
    view e (place p) = Some (sn_content s, snapshot_metadata s);
  read_missing : forall e p x, plain (place p) = true -> eread e p = Err x -> ee_kind x = NotFound ->
    view e (place p) = None;
  apply_frame : forall e q k, plain k = true -> k <> place (fq_path q) -> view (eapply e q).2 k = view e k;
  apply_refused : forall e q x e' k, plain k = true -> eapply e q = (Err x, e') -> refused (ee_kind x) = true ->
    view e' k = view e k;
  apply_metadata : forall e q r e', plain (place (fq_path q)) = true -> eapply e q = (Ok r, e') ->
    fr_path r = fq_path q -> fr_before r = fst <$> view e (place (fq_path q)) ->
    fr_before_metadata r = snd <$> view e (place (fq_path q));
  restore_frame : forall e r k, plain k = true -> k <> place (fr_path r) -> view (erestore e r).2 k = view e k;
  restore_exact : forall e r u e', plain (place (fr_path r)) = true -> erestore e r = (Ok u, e') ->
    paired (fr_before r) (fr_before_metadata r) -> view e' (place (fr_path r)) = preimage r }.

(** The places a transaction answers for: plain, and not leaked. *)
Definition kept {E K : Type} `{EngineView E K} (leak : list K) (k : K) : Prop :=
  (k ∉ leak) /\ plain k = true.

Lemma kept_mono {E K : Type} `{EngineView E K} (leak leak' : list K) k : leak ⊆ leak' -> kept leak' k -> kept leak k.
Proof. intros Hs [Hk Hp]. split; [set_solver|done]. Qed.

(** * Inversion of the effectful code *)

Lemma sbind_inv {Er W A B} (m : M Er W A) (k : A -> M Er W B) w r w' : sbind m k w = (r, w') ->
  (exists x, m w = (Err x, w') /\ r = Err x) \/ (exists a w1, m w = (Ok a, w1) /\ k a w1 = (r, w')).
Proof. unfold sbind. destruct (m w) as [[a|x] w1]; intros; simplify_eq; eauto 6. Qed.

Section Atomicity.
Context {E K : Type} `{EqDecision K, FileEngine E, !EngineView E K, !FileEngineOk E K}.
Context `{Codec TransactionRecord, Codec Preparation, Messages}.
Context (env : Env) (cx : EngineCallContext) (path : Path).

(** ** Undoing effects, place by place *)

Definition touches (k : K) (p : PreparedEffect) : Prop :=
  pe_restored p = false /\ place (fr_path (effect_receipt p)) = k.
#[local] Instance touches_dec k p : Decision (touches k p).
Proof. unfold touches. apply _. Defined.

Definition undo1 (k : K) (p : PreparedEffect) (x : Shown) : Shown :=
  if decide (touches k p) then preimage (effect_receipt p) else x.
(** What restoring [l] from the last effect to the first leaves at [k]. *)
Definition undo (k : K) (l : list PreparedEffect) (x : Shown) : Shown := foldr (undo1 k) x l.

Lemma undo_app k l l' x : undo k (l ++ l') x = undo k l (undo k l' x).
Proof. apply foldr_app. Qed.

Lemma undo_untouched k l x : (forall p, p ∈ l -> ~ touches k p) -> undo k l x = x.
Proof.
  induction l as [|p l IH]; [done|]. intros Hn. cbn. unfold undo1 at 1. rewrite decide_False; [|by apply Hn; left].
  apply IH. intros q Hq. apply Hn. by right.
Qed.

Lemma undo_touched k l p x y : p ∈ l -> touches k p -> undo k l x = undo k l y.
Proof.
  intros Hp Ht. induction l as [|q l IH]; [by apply elem_of_nil in Hp|]. cbn. unfold undo1 at 1 3.
  destruct (decide (touches k q)) as [|Hn]; [done|]. apply elem_of_cons in Hp as [->|Hp]; [done|by apply IH].
Qed.

(** Undoing is the identity or constant at each place, so repeating it is harmless. *)
Lemma undo_fixed k l x c : undo k l x = c -> undo k l c = c.
Proof.
  intros Hu. destruct (decide (Exists (touches k) l)) as [Hex|Hno].
  - apply list.Exists_exists in Hex as (p & Hp & Ht). rewrite <- Hu at 2. by eapply undo_touched.
  - apply undo_untouched. intros p Hp Ht. apply Hno, list.Exists_exists. eauto.
Qed.

(** The receipt used to restore an effect, outside the leaked places, is the
    one for the requested path and the observed preimage. *)
Definition effect_ok (leak : list K) (p : PreparedEffect) : Prop :=
  pe_restored p = true \/ ~ kept leak (place (fr_path (effect_receipt p))) \/
  paired (fr_before (effect_receipt p)) (fr_before_metadata (effect_receipt p)).

Lemma restore_untouched e p k : plain k = true -> ~ touches k p -> pe_restored p = false ->
  view (erestore e (effect_receipt p)).2 k = view e k.
Proof. intros Hpl Hk Hr. apply restore_frame; [done|]. intros ->. by apply Hk. Qed.

(** Restoring touches only the places of the effects. *)
Lemma restore_effects_frame rl e l' errors e' k :
  plain k = true -> restore_effects e rl = (l', errors, e') -> (forall p, p ∈ rl -> ~ touches k p) ->
  view e' k = view e k.
Proof.
  intros Hpl. revert e l' errors. induction rl as [|p rl IH]; intros e l' errors Hrun Hk; cbn in Hrun; [by simplify_eq|].
  assert (forall q, q ∈ rl -> ~ touches k q) as Hk' by (intros q Hq; apply Hk; by right).
  assert (~ touches k p) as Hp by (apply Hk; by left). destruct (pe_restored p) eqn:Hres.
  { destruct (restore_effects e rl) as [[l1 er1] e1] eqn:Hr. simplify_eq. by eapply IH. }
  pose proof (restore_untouched e p k Hpl Hp Hres) as Hf.
  destruct (erestore e (effect_receipt p)) as [[u|x] e2]; cbn [snd] in Hf; rewrite <- Hf;
    destruct (restore_effects e2 rl) as [[l1 er1] e1] eqn:Hr; simplify_eq; by eapply IH.
Qed.

(** When nothing failed, everything is marked restored and undone. *)
Lemma restore_effects_spec leak rl e l' e' :
  restore_effects e rl = (l', [], e') -> Forall (effect_ok leak) rl ->
  Forall (fun p => pe_restored p = true) l' /\ forall k, kept leak k -> view e' k = undo k (reverse rl) (view e k).
Proof.
  revert e l'. induction rl as [|p rl IH]; intros e l' Hrun Hok; cbn in Hrun.
  { simplify_eq. split; [constructor|done]. }
  apply Forall_cons_iff in Hok as [Hp Hok].
  assert (forall k x, undo k (reverse (p :: rl)) x = undo k (reverse rl) (undo1 k p x)) as Hrev.
  { intros k x. rewrite reverse_cons, undo_app. done. }
  destruct (pe_restored p) eqn:Hres.
  - destruct (restore_effects e rl) as [[l1 er1] e1] eqn:Hr. simplify_eq.
    destruct (IH _ _ Hr Hok) as [Hall Hv]. split; [by constructor|]. intros k Hk.
    rewrite Hrev, Hv by done. unfold undo1. rewrite decide_False; [done|]. intros [? _]. congruence.
  - destruct (erestore e (effect_receipt p)) as [[u|x] e2] eqn:Hrs;
      destruct (restore_effects e2 rl) as [[l1 er1] e1] eqn:Hr; simplify_eq.
    destruct (IH _ _ Hr Hok) as [Hall Hv]. split; [by constructor|]. intros k Hk.
    rewrite Hrev, Hv by done. f_equal. unfold undo1. destruct (decide (touches k p)) as [[_ <-]|Hn].
    + destruct Hp as [Hp|[Hp|Hp]]; [congruence|done|]. eapply restore_exact; [apply Hk|done|done].
    + pose proof (restore_untouched e p k (proj2 Hk) Hn Hres) as Hf. by rewrite Hrs in Hf.
Qed.

(** ** Records that can restore the start *)

Context (v0 : K -> Shown).

(** Undoing the record's effects from the tree [v] gives the start, outside
    the leaked places; a rolled-back record has nothing left to undo. *)
Record safe (leak : list K) (r : TransactionRecord) (v : K -> Shown) : Prop := {
  s_state : tr_state r <> Committed /\ tr_state r <> Compensating;
  s_undo : tr_state r <> RecoveryRequired -> Forall (effect_ok leak) (tr_effects r) /\
    forall k, kept leak k -> undo k (tr_effects r) (v k) = v0 k;
  s_rolled : tr_state r = RolledBack -> Forall (fun p => pe_restored p = true) (tr_effects r);
  s_session : tr_session_id r = cx_session_id cx }.

Lemma effect_ok_mono leak leak' p : leak ⊆ leak' -> effect_ok leak p -> effect_ok leak' p.
Proof. intros Hs [?|[Hn|?]]; [by left|right; left|by right; right]. intros Hk. apply Hn. by eapply kept_mono. Qed.

Lemma safe_mono leak leak' r v : leak ⊆ leak' -> safe leak r v -> safe leak' r v.
Proof.
  intros Hs [Hst Hu Hr Hid]. split; [done| |done..]. intros Hn. destruct (Hu Hn) as [Hok Hv]. split.
  - revert Hok. apply Forall_impl. intros p. by apply effect_ok_mono.
  - intros k Hk. apply Hv. by eapply kept_mono.
Qed.

(** A change of the tree a record survives: none, back to the start, or at a
    place its own effects restore. *)
Lemma safe_view leak r v v' : safe leak r v ->
  (forall k, kept leak k -> v' k = v k \/ v' k = v0 k \/ exists p, p ∈ tr_effects r /\ touches k p) ->
  safe leak r v'.
Proof.
  intros [Hst Hu Hr Hid] Hch. split; [done| |done..]. intros Hn. destruct (Hu Hn) as [Hok Hv].
  split; [done|]. intros k Hk. destruct (Hch k Hk) as [->|[->|(p & Hp & Ht)]].
  - by apply Hv.
  - eapply undo_fixed. by apply Hv.
  - erewrite undo_touched by done. by apply Hv.
Qed.

Lemma restored_undo k l x : Forall (fun p => pe_restored p = true) l -> undo k l x = x.
Proof.
  rewrite Forall_forall. intros Hall. apply undo_untouched. intros p Hp [Hn _]. apply list_elem_of_In, Hall in Hp. congruence.
Qed.

(** Rolling back a safe record. *)
Lemma rollback_record_safe leak r e r' e' : safe leak r (view e) -> rollback_record e r = (r', e') ->
  safe leak r' (view e') /\ (tr_state r' = RolledBack \/ tr_state r' = RecoveryRequired) /\
  (tr_state r' = RolledBack -> forall k, kept leak k -> view e' k = v0 k) /\
  (forall k, kept leak k -> view e' k = view e k \/ view e' k = v0 k \/ exists p, p ∈ tr_effects r /\ touches k p).
Proof.
  intros [[Hnc Hnm] Hu Hr Hid] Hrun. unfold rollback_record in Hrun.
  destruct (restore_effects e (reverse (tr_effects r))) as [[l er] e1] eqn:Hre.
  assert (e' = e1) as -> by (destruct (transition_allowed _ _); by simplify_eq).
  assert (tr_state r <> RecoveryRequired -> Forall (effect_ok leak) (reverse (tr_effects r))) as Hok.
  { intros Hn. apply Forall_forall. intros p Hp. rewrite <- list_elem_of_In, elem_of_reverse, list_elem_of_In in Hp.
    revert p Hp. apply Forall_forall. by apply Hu. }
  assert (forall k, kept leak k -> view e1 k = view e k \/ view e1 k = v0 k \/ exists p, p ∈ tr_effects r /\ touches k p) as Hch.
  { intros k Hk. destruct (decide (Exists (touches k) (tr_effects r))) as [Hex|Hno].
    - apply list.Exists_exists in Hex. eauto.
    - left. eapply restore_effects_frame; [apply Hk|exact Hre|]. intros p Hp Ht. apply Hno, list.Exists_exists.
      exists p. split; [by rewrite elem_of_reverse in Hp|done]. }
  destruct er as [|x er].
  - destruct (decide (tr_state r = RecoveryRequired)) as [Hrec|Hrec].
    { rewrite Hrec in Hrun. cbn in Hrun. injection Hrun as <-. split_and!; [|by right|done|done].
      by split. }
    assert (transition_allowed (tr_state r) RolledBack = true) as Hta by (by destruct (tr_state r)).
    rewrite Hta in Hrun. injection Hrun as <-.
    destruct (restore_effects_spec leak _ _ _ _ Hre (Hok Hrec)) as [Hall Hv]. destruct (Hu Hrec) as [_ Hv0].
    assert (forall k, kept leak k -> view e1 k = v0 k) as Hback.
    { intros k Hk. rewrite Hv by done. rewrite reverse_involutive. by apply Hv0. }
    assert (Forall (fun p => pe_restored p = true) (reverse l)) as Hall'.
    { rewrite Forall_forall in *. intros p Hp. apply Hall. rewrite <- list_elem_of_In in *. by rewrite elem_of_reverse in Hp. }
    split_and!; [|by left|done|done]. split; cbn [tr_state tr_effects tr_session_id]; [done| |done..]. intros _. split.
    + revert Hall'. apply Forall_impl. intros p Hp. by left.
    + intros k Hk. rewrite restored_undo by done. by apply Hback.
  - assert (tr_state r' = RecoveryRequired /\ tr_session_id r' = tr_session_id r) as [Hst Hse].
    { destruct (transition_allowed _ _); injection Hrun as <-; done. }
    split_and!; [|by right|by rewrite Hst|done].
    by split; rewrite ?Hst, ?Hse.
Qed.

(** ** The invariant of an open transaction *)

Notation Tx := (@Tx E).
Definition shown (t : Tx) : K -> Shown := view (engine (tx_world t)).
Definition journaled (t : Tx) (r : TransactionRecord) : Prop :=
  disk (tx_world t) !! path = Some (Regular (encode r)).
Record inv (leak : list K) (t : Tx) : Prop := {
  i_record : safe leak (tx_record t) (shown t);
  i_journal : exists r, journaled t r /\ safe leak r (shown t) }.

Lemma inv_mono leak leak' t : leak ⊆ leak' -> inv leak t -> inv leak' t.
Proof. intros Hs [Hr (rd & Hd & Hj)]. split; [by eapply safe_mono|]. exists rd. split; [done|by eapply safe_mono]. Qed.

(** Same files and journal, whatever the clock says. *)
Definition alike (t t' : Tx) : Prop :=
  engine (tx_world t') = engine (tx_world t) /\ disk (tx_world t') = disk (tx_world t) /\
  tx_record t' = tx_record t.
Lemma inv_alike leak t t' : alike t t' -> inv leak t -> inv leak t'.
Proof.
  intros (He & Hd & Hr) [Hi (rd & Hj & Hs)]. unfold journaled, shown in *.
  split; unfold journaled, shown; rewrite ?He, ?Hd, ?Hr; eauto.
Qed.

(** A publication leaves the old record or the new one. *)
Lemma persist_inv t r t' : persist env path t = (r, t') ->
  engine (tx_world t') = engine (tx_world t) /\ tx_record t' = tx_record t /\ tx_settled t' = tx_settled t /\
  (disk (tx_world t') = disk (tx_world t) /\ r <> Ok () \/ journaled t' (tx_record t)).
Proof.
  unfold persist, on_world, persist_record. destruct t as [[e d n] rc st]. cbn. intros Hrun.
  destruct (os_fails env n CreateDirAll); [simplify_eq; split_and!; auto; by left|].
  destruct (file_name path); [|simplify_eq; split_and!; auto; by left].
  destruct (_ || _); [simplify_eq; split_and!; auto; by left|].
  destruct (os_fails env n SyncDir); simplify_eq; (split_and!; [done..|]); right; unfold journaled; cbn; apply lookup_insert_eq.
Qed.

Lemma inv_persist leak t r t' : persist env path t = (r, t') -> inv leak t -> inv leak t'.
Proof.
  intros Hp [Hi (rd & Hj & Hs)]. apply persist_inv in Hp as (He & Hr & _ & Hd). split.
  - unfold shown in *. by rewrite He, Hr.
  - unfold shown in *. rewrite He. destruct Hd as [[Hd _]|Hd]; [|by eauto].
    exists rd. unfold journaled in *. by rewrite Hd.
Qed.

(** Putting a record that is safe here. *)
Lemma inv_put leak t r : safe leak r (shown t) -> inv leak t ->
  inv leak (mkTransaction (tx_world t) r (tx_settled t)).
Proof. intros Hr [_ Hj]. by split. Qed.

(** What a prepared effect is: the last of the record, on the journal too,
    carrying what the tree shows at its place if that is plain. *)
Record prepared (t : Tx) (q : FileEffectRequest) (l : list PreparedEffect) (p : PreparedEffect) : Prop := {
  pp_effects : tr_effects (tx_record t) = l ++ [p];
  pp_journal : journaled t (tx_record t);
  pp_request : pe_request p = q;
  pp_open : pe_receipt p = None /\ pe_restored p = false;
  pp_state : tr_state (tx_record t) = Applying;
  pp_settled : tx_settled t = false;
  pp_before : plain (place (fq_path q)) = true ->
    pe_before p = fst <$> shown t (place (fq_path q)) /\ pe_before_metadata p = snd <$> shown t (place (fq_path q)) }.

Lemma paired_fmap (x : Shown) : paired (fst <$> x) (snd <$> x).
Proof. unfold paired. rewrite !fmap_is_Some. done. Qed.

Lemma preimage_fmap (x : Shown) r : fr_before r = fst <$> x -> fr_before_metadata r = snd <$> x -> preimage r = x.
Proof. unfold preimage. intros -> ->. by destruct x as [[]|]. Qed.

(** Adding or dropping an effect whose preimage is what is shown. *)
Lemma undo_snoc k l p (v : K -> Shown) :
  plain k = true -> pe_restored p = false ->
  (plain (place (fr_path (effect_receipt p))) = true -> preimage (effect_receipt p) = v (place (fr_path (effect_receipt p)))) ->
  undo k (l ++ [p]) (v k) = undo k l (v k).
Proof.
  intros Hpl Hr Hp. rewrite undo_app. f_equal. cbn. unfold undo1. destruct (decide (touches k p)) as [[_ <-]|]; auto.
Qed.

Lemma pop_effects r l p : tr_effects r = l ++ [p] -> tr_effects (pop_effect r) = l.
Proof. intros Hl. unfold pop_effect. rewrite Hl, removelast_last. by destruct l. Qed.

Lemma pop_state r : tr_state r = Prepared \/ tr_state r = Applying ->
  tr_state (pop_effect r) = Prepared \/ tr_state (pop_effect r) = Applying.
Proof. unfold pop_effect. intros Hs. destruct (removelast (tr_effects r)); cbn; auto. Qed.

Lemma pop_session r : tr_session_id (pop_effect r) = tr_session_id r.
Proof. unfold pop_effect. by destruct (removelast (tr_effects r)). Qed.

(** An open record is safe when its effects undo to the start. *)
Lemma safe_open leak r v : tr_state r = Prepared \/ tr_state r = Applying -> tr_session_id r = cx_session_id cx ->
  Forall (effect_ok leak) (tr_effects r) -> (forall k, kept leak k -> undo k (tr_effects r) (v k) = v0 k) -> safe leak r v.
Proof. intros Hs Hid Hok Hu. split; [by destruct Hs as [-> | ->]|done| |done]. destruct Hs as [-> | ->]; done. Qed.

Lemma probe_inv t r t' : probe env t = (r, t') -> alike t t' /\ tx_settled t' = tx_settled t /\
  r = Ok (cancelled env (clock (tx_world t))).
Proof. destruct t as [[e d n] rc st]. cbn. intros [= <- <-]. done. Qed.

Lemma read_inv p t r t' : read_snapshot p t = (r, t') -> t' = t /\
  forall s, r = Ok s -> plain (place p) = true -> (sn_content <$> s = fst <$> shown t (place p)) /\
    (snapshot_metadata <$> s = snd <$> shown t (place p)).
Proof.
  unfold read_snapshot. destruct (eread (engine (tx_world t)) p) as [x|x] eqn:Hr; intros Hrun.
  - simplify_eq. split; [done|]. intros s [= <-] Hpl. unfold shown. by erewrite read_shows.
  - case_bool_decide as Hk; simplify_eq; (split; [done|]); intros s; [|done]. intros [= <-] Hpl.
    unfold shown. by erewrite read_missing.
Qed.

Lemma bind_preimage_path q0 s q : bind_preimage q0 s = Ok q -> fq_path q = fq_path q0.
Proof.
  unfold bind_preimage. destruct (fq_expected_preimage q0), s; intros Hb; repeat inv_ok1; done.
Qed.

(** Pushing the prepared effect keeps the record safe. *)
Lemma safe_push leak r v p : safe leak r v -> tr_state r = Prepared \/ tr_state r = Applying ->
  pe_receipt p = None -> pe_restored p = false ->
  (plain (place (fq_path (pe_request p))) = true -> pe_before p = fst <$> v (place (fq_path (pe_request p))) /\
     pe_before_metadata p = snd <$> v (place (fq_path (pe_request p)))) ->
  safe leak (with_state (with_effects r (tr_effects r ++ [p])) Applying) v.
Proof.
  intros Hs Hst Hrc Hres Hb. destruct (s_undo _ _ _ Hs) as [Hok Hu]; [by destruct Hst as [-> | ->]|].
  assert (effect_receipt p = fallback_receipt p) as Heff by (unfold effect_receipt; by rewrite Hrc).
  apply safe_open; cbn [with_state with_effects tr_state tr_effects tr_session_id]; [by right|by apply Hs| |].
  - apply Forall_app. split; [done|]. constructor; [|done]. right. rewrite Heff. cbn.
    destruct (plain (place (fq_path (pe_request p)))) eqn:Hpl; [right|left; intros [_ ?]; congruence].
    destruct (Hb eq_refl) as [-> ->]. apply paired_fmap.
  - intros k Hk. rewrite undo_snoc; [by apply Hu|apply Hk|done|]. rewrite Heff. cbn. intros [? ?]%Hb. by apply preimage_fmap.
Qed.

Lemma alike_trans t1 t2 t3 : alike t1 t2 -> alike t2 t3 -> alike t1 t3.
Proof. intros (? & ? & ?) (? & ? & ?). split_and!; congruence. Qed.

Lemma prepare_spec leak t q0 r t' : inv leak t -> prepare_effect env cx path q0 t = (r, t') ->
  inv leak t' /\ forall q, r = Ok q -> exists l p, prepared t' q l p.
Proof.
  intros Hi Hrun. unfold prepare_effect in Hrun.
  apply sbind_inv in Hrun as [(? & [=] & _)|(settled & ? & [= <- <-] & Hrun)].
  destruct (tx_settled t) eqn:Hset; [injection Hrun as <- <-; split; [done|done]|].
  apply sbind_inv in Hrun as [(? & [=] & _)|(rc & ? & [= <- <-] & Hrun)].
  destruct (is_terminal (tr_state (tx_record t))) eqn:Hterm; [injection Hrun as <- <-; split; [done|done]|].
  assert (tr_state (tx_record t) = Prepared \/ tr_state (tx_record t) = Applying) as Hst.
  { destruct (s_state _ _ _ (i_record _ _ Hi)). destruct (tr_state (tx_record t)); auto; done. }
  apply sbind_inv in Hrun as [(x & Hp & ->)|(c & t1 & Hp & Hrun)]; apply probe_inv in Hp as (Ha & Hs1 & Hc); [done|].
  pose proof (inv_alike _ _ _ Ha Hi) as Hi1. destruct c; [injection Hrun as <- <-; split; [done|done]|].
  apply sbind_inv in Hrun as [(x & Hp & ->)|(snap & t2 & Hp & Hrun)]; apply read_inv in Hp as (-> & Hsn); [done|].
  specialize (Hsn snap eq_refl) as Hb.
  apply sbind_inv in Hrun as [(x & [= Hp <-] & ->)|(q & t2 & [= Hp <-] & Hrun)]; [done|].
  apply sbind_inv in Hrun as [(x & [= Hq <-] & ->)|(prep & t2 & [= Hq <-] & Hrun)]; [done|].
  apply sbind_inv in Hrun as [(? & [=] & _)|(u & t2 & Hput & Hrun)]. injection Hput as <- <-.
  assert (tx_record t1 = tx_record t) as Hr1 by apply Ha. rewrite <- Hr1 in *.
  apply bind_preimage_path in Hp. rewrite <- Hp in Hb.
  set (p := mkEffect q (sn_content <$> snap) (snapshot_metadata <$> snap) prep None false) in *.
  pose proof (safe_push leak _ _ p (i_record _ _ Hi1) Hst eq_refl eq_refl Hb) as Hsafe.
  apply sbind_inv in Hrun as [(x & [= Hv <-] & ->)|(u2 & t2 & [= Hv <-] & Hrun)].
  { unfold validate_transition in Hv. cbn in Hv. by destruct Hst as [Hst|Hst]; rewrite Hst in Hv. }
  apply sbind_inv in Hrun as [(? & [=] & _)|(u3 & t2 & Hput & Hrun)]. injection Hput as <- <-.
  cbn [tx_world tx_settled] in *.
  set (r1 := with_state (with_effects (tx_record t1) (tr_effects (tx_record t1) ++ [p])) Applying) in *.
  pose proof (inv_put leak t1 r1 Hsafe Hi1) as Hi2. set (t2 := mkTransaction (tx_world t1) r1 (tx_settled t1)) in *.
  apply sbind_inv in Hrun as [(x & Hp2 & ->)|(u4 & t3 & Hp2 & Hrun)]; pose proof (inv_persist _ _ _ _ Hp2 Hi2) as Hi3; [done|].
  apply persist_inv in Hp2 as (He3 & Hr3 & Hs3 & Hd3).
  destruct Hd3 as [[_ Hd3]|Hd3]; [by destruct u4|].
  apply sbind_inv in Hrun as [(x & Hpr & ->)|(c & t4 & Hpr & Hrun)]; apply probe_inv in Hpr as (Ha4 & Hs4 & _); [by eapply inv_alike in Hi3|].
  pose proof (inv_alike _ _ _ Ha4 Hi3) as Hi4. destruct Ha4 as (He4 & Hd4 & Hr4). destruct c.
  - apply sbind_inv in Hrun as [(? & [=] & _)|(u5 & t5 & Hput & Hrun)]. injection Hput as <- <-.
    assert (safe leak (pop_effect r1) (shown t4)) as Hpop.
    { assert (shown t4 = shown t1) as -> by (unfold shown; by rewrite He4, He3).
      apply safe_open; [by apply pop_state; right|rewrite pop_session; by apply Hsafe|..];
        rewrite (pop_effects r1 (tr_effects (tx_record t1)) p) by done;
        apply (s_undo _ _ _ (i_record _ _ Hi1)); by destruct Hst as [-> | ->]. }
    pose proof (inv_put _ _ _ Hpop Hi4) as Hi5.
    apply sbind_inv in Hrun as [(x & Hp5 & ->)|(u6 & t6 & Hp5 & Hrun)]; pose proof (inv_persist _ _ _ _ Hp5 Hi5) as Hi6; [done|].
    injection Hrun as <- <-. done.
  - injection Hrun as <- <-. split; [done|]. intros q' [= <-]. exists (tr_effects (tx_record t1)), p. split.
    + by rewrite Hr4, Hr3.
    + unfold journaled in *. by rewrite Hd4, Hr4, Hr3.
    + done.
    + done.
    + by rewrite Hr4, Hr3.
    + rewrite Hs4, Hs3. cbn. congruence.
    + assert (shown t4 = shown t1) as -> by (unfold shown; by rewrite He4, He3). done.
Qed.

(** ** Rolling back an open transaction *)

(** When the journal can restore every place the record would, rolling back
    keeps both able to restore the start, even if it fails halfway. *)
Lemma rollback_inv leak t rd : safe leak (tx_record t) (shown t) -> journaled t rd -> safe leak rd (shown t) ->
  (forall k p, kept leak k -> p ∈ tr_effects (tx_record t) -> touches k p -> exists p', p' ∈ tr_effects rd /\ touches k p') ->
  inv leak (rollback_in_place t).2.
Proof.
  intros Hr Hj Hd Hcover. unfold rollback_in_place.
  destruct (rollback_record (engine (tx_world t)) (tx_record t)) as [r' e'] eqn:Hrun.
  destruct (rollback_record_safe leak _ _ _ _ Hr Hrun) as (Hs & _ & _ & Hch). split; [done|]. exists rd. split; [done|].
  eapply safe_view; [exact Hd|]. intros k Hk. destruct (Hch k Hk) as [?|[?|(p & Hp & Ht)]]; [by left|by right; left|].
  right. right. by eapply Hcover.
Qed.

Lemma rollback_ok (t : Tx) : exists t1, rollback_in_place t = (Ok (), t1) /\ t1 = (rollback_in_place t).2 /\
  tx_settled t1 = tx_settled t.
Proof.
  unfold rollback_in_place. destruct (rollback_record _ _) as [r' e']. by eexists.
Qed.

Lemma report_inv {A} leak (e : TransactionError) t r t' : inv leak (rollback_in_place t).2 ->
  rollback_and_report (A := A) env path e t = (r, t') -> inv leak t'.
Proof.
  intros Hi Hrun. unfold rollback_and_report in Hrun. destruct (rollback_ok t) as (t1 & Hrb & -> & _).
  apply sbind_inv in Hrun as [(x & Hx & _)|(u & t1 & Hx & Hrun)]; rewrite Hrb in Hx; [done|]. injection Hx as <- <-.
  apply sbind_inv in Hrun as [(x & Hp & ->)|(u & t2 & Hp & Hrun)]; pose proof (inv_persist _ _ _ _ Hp Hi) as Hi2; [done|].
  apply sbind_inv in Hrun as [(? & [=] & _)|(rc & t3 & [= <- <-] & Hrun)].
  destruct (bool_decide _); by injection Hrun as <- <-.
Qed.

(** Settling: a rollback, a publication and a settled transaction; only a
    durable rollback reaches the continuation. *)
Lemma settle_run {A} (m : M TransactionError Tx A) t r t' : settle_by_rollback env path m t = (r, t') ->
  exists p t1 t2, persist env path (rollback_in_place t).2 = (p, t1) /\
    t2 = mkTransaction (tx_world t1) (tx_record t1) true /\
    ((t' = t2 /\ exists x, r = Err x) \/
     (p = Ok () /\ tr_state (tx_record t2) <> RecoveryRequired /\ m t2 = (r, t'))).
Proof.
  intros Hrun. unfold settle_by_rollback in Hrun. destruct (rollback_ok t) as (t1 & Hrb & Heq & _). rewrite <- Heq in *.
  apply sbind_inv in Hrun as [(x & Hx & _)|(u & ? & Hx & Hrun)]; rewrite Hrb in Hx; [done|]. injection Hx as <- <-.
  apply sbind_inv in Hrun as [(x & Hx & _)|(p & t2 & Hx & Hrun)]; unfold catch in Hx;
    destruct (persist env path t1) as [p' t2'] eqn:Hp; [done|]. injection Hx as <- <-.
  apply sbind_inv in Hrun as [(? & [=] & _)|(u & t3 & Hx & Hrun)]. injection Hx as <- <-.
  eexists _, _, _. split; [done|]. split; [done|].
  apply sbind_inv in Hrun as [(x & [= Hx <-] & ->)|(u & ? & [= Hx <-] & Hrun)]; [by left; eauto|].
  apply sbind_inv in Hrun as [(? & [=] & _)|(rc & ? & [= <- <-] & Hrun)]. cbn [tx_record] in Hrun.
  case_bool_decide as Hrec; [injection Hrun as <- <-; left; eauto|]. right. by destruct u.
Qed.

Lemma settle_keeps_inv {A} leak (m : M TransactionError Tx A) t r t' : inv leak (rollback_in_place t).2 ->
  settle_by_rollback env path m t = (r, t') -> (forall t1 r1 t2, m t1 = (r1, t2) -> t2 = t1) -> inv leak t'.
Proof.
  intros Hi Hrun Hm. apply settle_run in Hrun as (p & t1 & t2 & Hp & -> & Hor).
  pose proof (inv_persist _ _ _ _ Hp Hi) as Hi1.
  assert (inv leak (mkTransaction (tx_world t1) (tx_record t1) true)) as Hi2 by (by eapply inv_alike; [|exact Hi1]).
  destruct Hor as [[-> _]|(_ & _ & Hr)]; [done|]. by rewrite (Hm _ _ _ Hr).
Qed.

(** ** Dispatch *)

(** The places an effect may leave changed with no record of it: the requested
    place, when the engine fails after the dispatch and the failure is then
    reported as a cancellation; the requested and the receipted place, when the
    engine answers with a receipt for something else. *)
Definition leak_of (t : Tx) (q : FileEffectRequest) : list K :=
  match (eapply (engine (tx_world t)) q).1 with
  | Ok receipt => if receipt_matches (tx_record t) receipt then [] else [place (fq_path q); place (fr_path receipt)]
  | Err x => if negb (refused (ee_kind x)) && cancelled env (clock (tx_world t)) then [place (fq_path q)] else []
  end.

Section Dispatched.
Context (leak : list K) (t : Tx) (q : FileEffectRequest) (l : list PreparedEffect) (p : PreparedEffect).
Hypotheses (Hi : inv leak t) (Hpp : prepared t q l p).

Let after (e : E) : Tx := mkTransaction (with_engine (tx_world t) e) (tx_record t) (tx_settled t).

Lemma prepared_receipt : effect_receipt p = fallback_receipt p /\ fr_path (effect_receipt p) = fq_path q.
Proof.
  destruct (pp_open _ _ _ _ Hpp) as [Hr _]. unfold effect_receipt. rewrite Hr. cbn.
  by rewrite (pp_request _ _ _ _ Hpp).
Qed.

Lemma prepared_touches k : touches k p <-> k = place (fq_path q).
Proof.
  unfold touches. destruct prepared_receipt as [_ ->]. destruct (pp_open _ _ _ _ Hpp) as [_ ->]. naive_solver.
Qed.

Lemma prepared_preimage : plain (place (fq_path q)) = true ->
  preimage (effect_receipt p) = shown t (place (fq_path q)).
Proof.
  intros Hpl. destruct prepared_receipt as [-> _], (pp_before _ _ _ _ Hpp Hpl) as [Hb Hm]. by apply preimage_fmap.
Qed.

(** The journaled record survives the engine's work. *)
Lemma after_apply_safe leak' : leak ⊆ leak' -> safe leak' (tx_record t) (view (eapply (engine (tx_world t)) q).2).
Proof.
  intros Hl. eapply safe_view; [eapply safe_mono; [exact Hl|by apply Hi]|]. intros k Hk.
  destruct (decide (k = place (fq_path q))) as [->|Hn]; [|left; by apply apply_frame; [apply Hk|]].
  right. right. exists p. rewrite (pp_effects _ _ _ _ Hpp). split; [set_solver|by apply prepared_touches].
Qed.

Lemma after_apply_inv leak' e : e = (eapply (engine (tx_world t)) q).2 -> leak ⊆ leak' -> inv leak' (after e).
Proof.
  intros -> Hl. pose proof (after_apply_safe leak' Hl) as Hs. split; [done|]. exists (tx_record t).
  split; [by apply Hpp|done].
Qed.

(** The preparation is dropped where the engine left the rest as it was. *)
Lemma pop_safe leak' (v : K -> Shown) : leak ⊆ leak' -> (forall k, kept leak' k -> v k = shown t k) ->
  safe leak' (pop_effect (tx_record t)) v.
Proof.
  intros Hl Hv. pose proof (i_record _ _ Hi) as Hs.
  destruct (s_undo _ _ _ Hs) as [Hok Hu]; [by rewrite (pp_state _ _ _ _ Hpp)|].
  rewrite (pp_effects _ _ _ _ Hpp) in Hok, Hu. apply Forall_app in Hok as [Hok _].
  apply safe_open; [apply pop_state; right; by apply Hpp|rewrite pop_session; by apply Hs|..];
    rewrite (pop_effects _ l p) by apply Hpp.
  - revert Hok. apply Forall_impl. intros x. by apply effect_ok_mono.
  - intros k Hk. rewrite Hv by done. rewrite <- (Hu k) by (by eapply kept_mono). symmetry.
    apply undo_snoc; [apply Hk|by apply Hpp|].
    destruct prepared_receipt as [_ ->]. apply prepared_preimage.
Qed.

Definition receipted (receipt : FileEffectReceipt) : PreparedEffect :=
  mkEffect (pe_request p) (pe_before p) (pe_before_metadata p) (pe_preparation p) (Some receipt) (pe_restored p).

Lemma receipted_effects receipt : tr_effects (set_last_receipt (tx_record t) receipt) = l ++ [receipted receipt].
Proof.
  unfold set_last_receipt. rewrite (pp_effects _ _ _ _ Hpp), last_snoc, removelast_last. done.
Qed.

Lemma receipt_matches_spec receipt : receipt_matches (tx_record t) receipt = true <->
  fr_path receipt = fq_path q /\ fr_before receipt = pe_before p.
Proof.
  unfold receipt_matches. rewrite (pp_effects _ _ _ _ Hpp), last_snoc, andb_true_iff, !bool_decide_eq_true.
  by rewrite (pp_request _ _ _ _ Hpp).
Qed.

(** With its receipt, the effect undoes to the same thing outside the leaks. *)
Lemma receipted_safe receipt e leak' : eapply (engine (tx_world t)) q = (Ok receipt, e) -> leak ⊆ leak' ->
  (receipt_matches (tx_record t) receipt = true \/ place (fq_path q) ∈ leak' /\ place (fr_path receipt) ∈ leak') ->
  safe leak' (set_last_receipt (tx_record t) receipt) (view e) /\
  forall k x, kept leak' k -> x ∈ l ++ [receipted receipt] -> touches k x -> exists x', x' ∈ l ++ [p] /\ touches k x'.
Proof.
  intros Hap Hl Hm. pose proof (after_apply_safe leak' Hl) as Hs. rewrite Hap in Hs. cbn [snd] in Hs.
  destruct (s_undo _ _ _ Hs) as [Hok Hu]; [by rewrite (pp_state _ _ _ _ Hpp)|].
  rewrite (pp_effects _ _ _ _ Hpp) in Hok, Hu. apply Forall_app in Hok as [Hok _].
  assert (effect_ok leak' (receipted receipt) /\ forall k, kept leak' k ->
    (touches k (receipted receipt) -> touches k p) /\ forall x, undo1 k (receipted receipt) x = undo1 k p x) as [Hro Hsame].
  { destruct Hm as [Hm|[Hq Hr]].
    - apply receipt_matches_spec in Hm as [Hpath Hb].
      assert (plain (place (fq_path q)) = true -> fr_before receipt = fst <$> shown t (place (fq_path q)) /\
        fr_before_metadata receipt = snd <$> shown t (place (fq_path q))) as Hmd.
      { intros Hpl. destruct (pp_before _ _ _ _ Hpp Hpl) as [Hpb _]. rewrite Hpb in Hb. split; [done|].
        by apply (apply_metadata _ _ _ _ Hpl Hap Hpath Hb). }
      split.
      + right. cbn. rewrite Hpath. destruct (plain (place (fq_path q))) eqn:Hpl; [right|left; intros [_ ?]; congruence].
        destruct (Hmd eq_refl) as [-> ->]. apply paired_fmap.
      + intros k Hk. assert (touches k (receipted receipt) <-> touches k p) as Ht.
        { rewrite prepared_touches. unfold touches. cbn. rewrite Hpath, (proj2 (pp_open _ _ _ _ Hpp)). naive_solver. }
        split; [by apply Ht|]. intros x. unfold undo1. rewrite (decide_ext _ _ _ _ Ht).
        destruct (decide _) as [Hk'%prepared_touches|]; [|done]. subst k. destruct (Hmd (proj2 Hk)).
        rewrite prepared_preimage by apply Hk. cbn. by apply preimage_fmap.
    - split; [right; left; by intros [? _]|]. intros k Hk.
      assert (~ touches k (receipted receipt)) as Hn1 by (intros [_ <-]; by destruct Hk).
      assert (~ touches k p) as Hn2 by (rewrite prepared_touches; intros ->; by destruct Hk).
      split; [done|]. intros x. unfold undo1. by rewrite !decide_False. }
  split.
  - apply safe_open; [right; by apply Hpp|by apply Hs|..]; rewrite receipted_effects.
    + apply Forall_app. split; [done|]. by constructor.
    + intros k Hk. rewrite <- (Hu k Hk), !undo_app. f_equal. cbn. by apply Hsame.
  - intros k x Hk Hx Ht. apply elem_of_app in Hx as [Hx|Hx]; [exists x; set_solver|].
    apply list_elem_of_singleton in Hx as ->. exists p. split; [set_solver|by apply Hsame].
Qed.

(** A publication that ends in an error either way. *)
Lemma pop_inv leak' t1 x r t' : inv leak' t1 -> safe leak' (pop_effect (tx_record t1)) (shown t1) ->
  (let! _ := put_record (pop_effect (tx_record t1)) in
   let! _ := persist env path in throw (A := FileEffectReceipt) x) t1 = (r, t') -> inv leak' t'.
Proof.
  intros Hi1 Hpop Hrun. apply sbind_inv in Hrun as [(? & [=] & _)|(u & t2 & Hx & Hrun)]. injection Hx as <- <-.
  pose proof (inv_put _ _ _ Hpop Hi1) as Hi2.
  apply sbind_inv in Hrun as [(y & Hp & ->)|(u & t3 & Hp & Hrun)]; pose proof (inv_persist _ _ _ _ Hp Hi2) as Hi3; [done|].
  by injection Hrun as <- <-.
Qed.

Lemma dispatch_ok receipt e r t' : eapply (engine (tx_world t)) q = (Ok receipt, e) ->
  (let! _ := put_record (set_last_receipt (tx_record t) receipt) in
   if negb (receipt_matches (tx_record t) receipt) then rollback_and_report env path TStore
   else
     let! c := probe env in
     if c then rollback_and_report env path (cancelled_error "transaction cancelled after apply, rolled back"%string)
     else let! _ := persist env path in sret receipt) (after e) = (r, t') ->
  inv (leak ++ leak_of t q) t'.
Proof.
  intros Hap Hrun. apply sbind_inv in Hrun as [(? & [=] & _)|(u & t1 & Hx & Hrun)]. injection Hx as <- <-.
  pose proof (receipted_safe receipt e (leak ++ leak_of t q) Hap ltac:(set_solver)) as Hs.
  assert (receipt_matches (tx_record t) receipt = true \/
    place (fq_path q) ∈ leak ++ leak_of t q /\ place (fr_path receipt) ∈ leak ++ leak_of t q) as Hm.
  { unfold leak_of. rewrite Hap. cbn [fst]. destruct (receipt_matches _ _); [by left|right; set_solver]. }
  destruct (Hs Hm) as [Hsafe Hcover]. set (t1 := mkTransaction _ _ _) in Hrun.
  assert (inv (leak ++ leak_of t q) (after e)) as Hia by (apply after_apply_inv; [by rewrite Hap|set_solver]).
  assert (inv (leak ++ leak_of t q) t1) as Hi1 by (split; [done|apply Hia]).
  assert (forall t2, alike t1 t2 -> inv (leak ++ leak_of t q) (rollback_in_place t2).2) as Hrb.
  { intros t2 (He & Hd & Hr). apply (rollback_inv _ _ (tx_record t)); unfold journaled, shown; rewrite ?He, ?Hd, ?Hr.
    - done.
    - by apply Hpp.
    - pose proof (after_apply_safe (leak ++ leak_of t q) ltac:(set_solver)) as Ha. by rewrite Hap in Ha.
    - cbn [t1 tx_record]. rewrite receipted_effects. rewrite (pp_effects _ _ _ _ Hpp). exact Hcover. }
  destruct (receipt_matches (tx_record t) receipt); cbn [negb] in Hrun.
  - apply sbind_inv in Hrun as [(x & Hp & ->)|(c & t2 & Hp & Hrun)]; apply probe_inv in Hp as (Ha & _ & _);
      [by eapply inv_alike|]. destruct c.
    + eapply report_inv; [|exact Hrun]. by apply Hrb.
    + pose proof (inv_alike _ _ _ Ha Hi1) as Hi2.
      apply sbind_inv in Hrun as [(x & Hp & ->)|(u & t3 & Hp & Hrun)]; pose proof (inv_persist _ _ _ _ Hp Hi2) as Hi3; [done|].
      by injection Hrun as <- <-.
  - eapply report_inv; [|exact Hrun]. by apply Hrb.
Qed.

Lemma dispatch_spec r t' : dispatch_effect env path q t = (r, t') -> inv (leak ++ leak_of t q) t'.
Proof.
  intros Hrun. unfold dispatch_effect in Hrun.
  apply sbind_inv in Hrun as [(? & Hx & _)|(outcome & t1 & Hx & Hrun)]; unfold engine_apply in Hx;
    destruct (eapply (engine (tx_world t)) q) as [res e] eqn:Hap; [done|]. injection Hx as <- <-.
  apply sbind_inv in Hrun as [(? & [=] & _)|(rc & ? & [= <- <-] & Hrun)]. cbn [tx_record] in Hrun.
  destruct res as [receipt|x]; [by eapply dispatch_ok|].
  assert (forall leak', leak ⊆ leak' -> inv leak' (after e)) as Hia
    by (intros leak' Hl; apply after_apply_inv; [by rewrite Hap|done]).
  pose proof (apply_frame (engine (tx_world t)) q) as Hframe. rewrite Hap in Hframe. cbn [snd] in Hframe.
  assert (leak_of t q = if negb (refused (ee_kind x)) && cancelled env (clock (tx_world t)) then [place (fq_path q)] else []) as Hlk.
  { unfold leak_of. by rewrite Hap. }
  destruct (refused (ee_kind x)) eqn:Href.
  - apply (pop_inv (leak ++ leak_of t q) (after e) (TEngine x) r t'); [apply Hia; set_solver|apply pop_safe|exact Hrun].
    + set_solver.
    + intros k Hk. eapply apply_refused; [apply Hk|done|done].
  - apply sbind_inv in Hrun as [(y & Hp & ->)|(c & t1 & Hp & Hrun)]; apply probe_inv in Hp as (Ha & _ & Hc);
      [eapply inv_alike; [exact Ha|apply Hia; set_solver]|].
    injection Hc as ->. cbn [after tx_world with_engine clock] in Hrun.
    pose proof (inv_alike _ _ _ Ha (Hia (leak ++ leak_of t q) ltac:(set_solver))) as Hi1. destruct Ha as (He & Hd & Hr).
    change (tx_record t1 = tx_record t) in Hr. destruct (cancelled env (clock (tx_world t))).
    + rewrite <- Hr in Hrun. eapply pop_inv; [exact Hi1| |exact Hrun]. rewrite Hr. apply pop_safe; [set_solver|].
      intros k Hk. unfold shown at 1. rewrite He. cbn. apply Hframe; [apply Hk|]. intros ->. apply Hk. rewrite Hlk. set_solver.
    + eapply (settle_keeps_inv (leak ++ leak_of t q)); [|exact Hrun|by intros ? ? ? [= _ <-]].
      apply (rollback_inv _ _ (tx_record t)); [by apply Hi1| | |].
      * unfold journaled. rewrite Hd. by apply Hpp.
      * unfold shown. rewrite He. cbn. pose proof (after_apply_safe (leak ++ leak_of t q) ltac:(set_solver)) as Hs.
        by rewrite Hap in Hs.
      * rewrite Hr. cbn. eauto.
Qed.
End Dispatched.

(** ** Histories *)

Definition leaks (t : Tx) (q : FileEffectRequest) : list K :=
  match prepare_effect env cx path q t with (Ok q', t1) => leak_of t1 q' | _ => [] end.

(** The states of a transaction after any number of applies, each with any
    outcome, and the places they leaked. *)
Inductive ran (t0 : Tx) : Tx -> list K -> Prop :=
| ran_start : ran t0 t0 []
| ran_apply t leak q r t' : ran t0 t leak -> apply env cx path q t = (r, t') -> ran t0 t' (leak ++ leaks t q).

Lemma apply_spec leak t q r t' : inv leak t -> apply env cx path q t = (r, t') -> inv (leak ++ leaks t q) t'.
Proof.
  intros Hi Hrun. unfold apply in Hrun. apply sbind_inv in Hrun as [(x & Hp & ->)|(q' & t1 & Hp & Hrun)];
    unfold leaks; rewrite Hp; destruct (prepare_spec _ _ _ _ _ Hi Hp) as [Hi1 Hpp].
  - by rewrite app_nil_r.
  - destruct (Hpp _ eq_refl) as (l & p & Hpp'). by eapply dispatch_spec.
Qed.

Lemma ran_inv t0 t leak : inv [] t0 -> ran t0 t leak -> inv leak t.
Proof. intros Hi. induction 1; [done|]. by eapply apply_spec. Qed.

(** A transaction that just began: an empty record, on the journal. *)
Lemma begun_inv t : tx_record t = new_record cx -> journaled t (new_record cx) -> shown t = v0 -> inv [] t.
Proof.
  intros Hr Hj Hv. assert (safe [] (new_record cx) (shown t)) as Hs.
  { apply safe_open; [by left|done|constructor|]. intros k _. by rewrite Hv. }
  split; [by rewrite Hr|eauto].
Qed.

(** ** Settlement *)

(** The record after an in-place rollback of a safe transaction. *)
Lemma rolled_back_exact leak t : inv leak t ->
  tr_state (tx_record (rollback_in_place t).2) = RecoveryRequired \/
  tr_state (tx_record (rollback_in_place t).2) = RolledBack /\
  forall k, kept leak k -> shown (rollback_in_place t).2 k = v0 k.
Proof.
  intros [Hr _]. unfold rollback_in_place. destruct (rollback_record _ _) as [r' e'] eqn:Hrun.
  destruct (rollback_record_safe leak _ _ _ _ Hr Hrun) as (_ & [Hs|Hs] & Hb & _); [right|by left].
  split; [done|]. by apply Hb.
Qed.

Lemma rolled_view leak t : inv leak t -> tr_state (tx_record t) = RolledBack -> forall k, kept leak k -> shown t k = v0 k.
Proof.
  intros [Hr _] Hs k Hk. destruct (s_undo _ _ _ Hr) as [_ Hu]; [by rewrite Hs|].
  rewrite <- (Hu k Hk). symmetry. apply restored_undo. by apply Hr.
Qed.

(** The failing and the succeeding end of a rollback. *)
Lemma rollback_exact leak t t' : inv leak t -> rollback env path t = (Ok (), t') ->
  tr_state (tx_record t') = RolledBack /\ forall k, kept leak k -> shown t' k = v0 k.
Proof.
  intros Hi Hrun. unfold rollback in Hrun. destruct (rollback_body env path t) as [r t1] eqn:Hb.
  injection Hrun as -> <-. unfold rollback_body in Hb.
  apply sbind_inv in Hb as [(? & [=] & _)|(rc & ? & [= <- <-] & Hb)].
  destruct (s_state _ _ _ (i_record _ _ Hi)) as [Hnc Hnm].
  destruct (tr_state (tx_record t)) eqn:Hst; try done.
  3: { injection Hb as <-. split; [done|]. exact (rolled_view leak t Hi Hst). }
  all: apply sbind_inv in Hb as [(? & [=] & _)|(st & ? & [= <- <-] & Hb)];
    destruct (tx_settled t); [done|];
    destruct (rollback_ok t) as (t1' & Hrb & -> & _);
    apply sbind_inv in Hb as [(x & Hx & _)|(u & t2 & Hx & Hb)]; rewrite Hrb in Hx; [done|]; injection Hx as <- <-;
    apply sbind_inv in Hb as [(x & Hx & [=])|(u2 & t3 & Hp & Hb)];
    apply sbind_inv in Hb as [(? & [=] & _)|(u3 & t4 & Hx & Hb)]; injection Hx as <- <-;
    apply sbind_inv in Hb as [(? & [=] & _)|(rc & ? & [= <- <-] & Hb)];
    apply persist_inv in Hp as (He & Hr & _ & _); cbn [tx_record] in Hb;
    case_bool_decide as Hrec; [done|]; injection Hb as <-; cbn; rewrite Hr in *;
    destruct (rolled_back_exact leak t Hi) as [Hz|[Hz Hv]]; try done; split; [done|];
    intros k Hk; unfold shown; cbn; rewrite He; by apply Hv.
Qed.

Lemma drop_exact leak t : inv leak t -> tx_settled t = false ->
  tx_settled (drop env path t).2 = true /\
  (tr_state (tx_record (drop env path t).2) = RecoveryRequired \/
   tr_state (tx_record (drop env path t).2) = RolledBack /\ forall k, kept leak k -> shown (drop env path t).2 k = v0 k).
Proof.
  intros Hi Hs. destruct (drop env path t) as [r t'] eqn:Hrun. unfold drop in Hrun.
  apply sbind_inv in Hrun as [(? & [=] & _)|(st & ? & [= <- <-] & Hrun)]. rewrite Hs in Hrun.
  destruct (rollback_ok t) as (t1 & Hrb & Heq & _).
  apply sbind_inv in Hrun as [(x & Hx & _)|(u & ? & Hx & Hrun)]; rewrite Hrb in Hx; [done|]. injection Hx as <- <-.
  apply sbind_inv in Hrun as [(x & Hx & _)|(p & t2 & Hx & Hrun)]; unfold catch in Hx;
    destruct (persist env path t1) as [p' t2'] eqn:Hp; [done|]. injection Hx as <- <-. injection Hrun as <- <-.
  apply persist_inv in Hp as (He & Hr & _ & _). cbn. split; [done|]. rewrite Hr.
  pose proof (rolled_back_exact leak t Hi) as Hx. rewrite <- Heq in Hx. unfold shown in *. cbn. by rewrite He.
Qed.

(** A commit that is not refused for cancellation leaves the files alone; its
    journal is the old record or the committed one, with every receipt. *)
Record committed_as (r rc : TransactionRecord) : Prop := {
  ca_state : rc = with_state r Committed;
  ca_receipts : Forall (fun p => exists x, pe_receipt p = Some x /\ fr_path x = fq_path (pe_request p) /\
    fr_before x = pe_before p) (tr_effects r) }.

Lemma unreceipted_bound r : unreceipted r = false -> forallb receipt_bound (tr_effects r) = true ->
  Forall (fun p => exists x, pe_receipt p = Some x /\ fr_path x = fq_path (pe_request p) /\
    fr_before x = pe_before p) (tr_effects r).
Proof.
  unfold unreceipted. intros Hu Hb. rewrite forallb_forall in Hb. apply Forall_forall. intros p Hp.
  specialize (Hb p Hp). unfold receipt_bound in Hb. destruct (pe_receipt p) as [x|] eqn:Hx.
  - apply andb_true_iff in Hb as [?%bool_decide_eq_true ?%bool_decide_eq_true]. eauto.
  - assert (existsb (fun p => match pe_receipt p with None => true | Some _ => false end) (tr_effects r) = true) as Ht;
      [|congruence]. apply existsb_exists. exists p. by rewrite Hx.
Qed.

Lemma commit_spec leak t r t' : inv leak t -> commit env path t = (r, t') ->
  (cancelled env (clock (tx_world t)) = false ->
   engine (tx_world t') = engine (tx_world t) /\
   (disk (tx_world t') = disk (tx_world t) \/
    exists rc, committed_as (tx_record t) rc /\ journaled t' rc)) /\
  (forall rs, r = Ok rs -> cancelled env (clock (tx_world t)) = false /\
     committed_as (tx_record t) (tx_record t') /\ journaled t' (tx_record t') /\ tx_settled t' = true /\
     rs = receipts (tx_record t) /\ (tr_state (tx_record t) = Prepared \/ tr_state (tx_record t) = Applying)).
Proof.
  intros Hi Hrun. unfold commit in Hrun. destruct (s_state _ _ _ (i_record _ _ Hi)) as [Hnc Hnm].
  apply sbind_inv in Hrun as [(? & [=] & _)|(st & ? & [= <- <-] & Hrun)].
  destruct (tx_settled t); [injection Hrun as <- <-; split; [by auto|done]|].
  apply sbind_inv in Hrun as [(x & Hp & ->)|(c & t1 & Hp & Hrun)]; apply probe_inv in Hp as ((He & Hd & Hr) & Hst & Hc); [done|].
  injection Hc as ->. destruct (cancelled env (clock (tx_world t))).
  { split; [done|]. intros rs ->. by apply settle_run in Hrun as (p & t2 & t3 & _ & _ & [(_ & x & [=])|(_ & _ & [=])]). }
  apply sbind_inv in Hrun as [(? & [=] & _)|(rc & ? & [= <- <-] & Hrun)]. rewrite Hr in Hrun.
  rewrite bool_decide_false in Hrun by done.
  destruct (is_terminal (tr_state (tx_record t))) eqn:Hterm; [injection Hrun as <- <-; split; [by auto|done]|].
  destruct (unreceipted (tx_record t)) eqn:Hun; [injection Hrun as <- <-; split; [by auto|done]|].
  destruct (forallb receipt_bound (tr_effects (tx_record t))) eqn:Hbd; [cbn [negb] in Hrun|injection Hrun as <- <-; split; [by auto|done]].
  assert (tr_state (tx_record t) = Prepared \/ tr_state (tx_record t) = Applying) as Hopen
    by (destruct (tr_state (tx_record t)); auto; done).
  assert (committed_as (tx_record t) (with_state (tx_record t) Committed)) as Hca
    by (split; [done|by apply unreceipted_bound]).
  apply sbind_inv in Hrun as [(x & [= Hv <-] & ->)|(u2 & t2 & [= Hv <-] & Hrun)].
  { unfold validate_transition in Hv. by destruct Hopen as [Ho|Ho]; rewrite Ho in Hv. }
  apply sbind_inv in Hrun as [(? & [=] & _)|(u3 & t2 & Hput & Hrun)]. injection Hput as <- <-.
  apply sbind_inv in Hrun as [(x & Hp & ->)|(u4 & t3 & Hp & Hrun)];
    apply persist_inv in Hp as (He3 & Hr3 & Hs3 & Hd3); cbn in He3, Hr3, Hd3.
  - split; [|done]. intros _. split; [by rewrite He3|]. destruct Hd3 as [[Hd3 _]|Hd3]; [left; by rewrite Hd3|].
    right. eauto.
  - destruct Hd3 as [[_ Hd3]|Hd3]; [by destruct u4|].
    apply sbind_inv in Hrun as [(? & [=] & _)|(u5 & t4 & Hput & Hrun)]. injection Hput as <- <-.
    injection Hrun as <- <-. split; [intros _; split; [by rewrite <- He|right; eauto]|].
    intros rs [= <-]. cbn. rewrite Hr3. done.
Qed.

(** Rolling back a compensating record is rolling back an open one. *)
Lemma rollback_compensating e r : rollback_record e (with_state r Compensating) = rollback_record e (with_state r Applying).
Proof. unfold rollback_record. cbn [with_state tr_session_id tr_cell_id tr_trace_id tr_state tr_effects tr_rollback_errors].
  destruct (restore_effects e (reverse (tr_effects r))) as [[l er] e']. by destruct er. Qed.

Lemma compensate_exact leak t rc t1 t2 : inv leak t -> committed_as (tx_record t) rc ->
  tr_state (tx_record t) = Prepared \/ tr_state (tx_record t) = Applying ->
  tx_record t1 = rc -> engine (tx_world t1) = engine (tx_world t) ->
  compensate_committed env path t1 = (Ok (), t2) ->
  tr_state (tx_record t2) = RolledBack /\ journaled t2 (tx_record t2) /\ forall k, kept leak k -> shown t2 k = v0 k.
Proof.
  intros Hi [-> _] Hopen Hr1 He1 Hrun. unfold compensate_committed in Hrun.
  apply sbind_inv in Hrun as [(? & [=] & _)|(r & ? & [= <- <-] & Hrun)].
  apply sbind_inv in Hrun as [(? & [=] & _)|(st & ? & [= <- <-] & Hrun)]. rewrite Hr1 in Hrun.
  rewrite (bool_decide_true (tr_state (with_state _ _) = _)) in Hrun by done. cbn [negb orb] in Hrun.
  destruct (tx_settled t1); [cbn [negb] in Hrun|done].
  apply sbind_inv in Hrun as [(x & [=] & _)|(u & ? & [= <- <-] & Hrun)].
  apply sbind_inv in Hrun as [(? & [=] & _)|(u3 & t3 & Hput & Hrun)]. injection Hput as <- <-.
  apply sbind_inv in Hrun as [(x & Hx & _)|(p & t4 & Hx & Hrun)]; unfold catch in Hx;
    destruct (persist env path _) as [p' t4'] eqn:Hp in Hx; [done|]. injection Hx as <- <-.
  apply persist_inv in Hp as (He4 & Hr4 & _ & _). cbn in He4, Hr4. destruct p' as [u'|x].
  2: { apply sbind_inv in Hrun as [(? & [=] & _)|(? & ? & _ & [=])]. }
  apply sbind_inv in Hrun as [(? & [=] & _)|(u5 & t5 & Hput & Hrun)]. injection Hput as <- <-.
  apply settle_run in Hrun as (p & t6 & t7 & Hp & -> & [(_ & x & [=])|(-> & Hne & Hm)]). injection Hm as <-.
  apply persist_inv in Hp as (He6 & Hr6 & _ & Hd6). destruct Hd6 as [[_ Hd6]|Hd6]; [done|].
  unfold rollback_in_place in *. cbn [tx_world tx_record] in *. rewrite He4, He1, Hr4 in *.
  change (with_state (with_state (tx_record t) Committed) Compensating) with (with_state (tx_record t) Compensating) in *.
  rewrite rollback_compensating in *.
  destruct (rollback_record (engine (tx_world t)) (with_state (tx_record t) Applying)) as [r' e'] eqn:Hrun. cbn in *.
  assert (safe leak (with_state (tx_record t) Applying) (shown t)) as Hsafe.
  { pose proof (i_record _ _ Hi) as Hsf. destruct (s_undo _ _ _ Hsf) as [Hok Hu]; [by destruct Hopen as [-> | ->]|].
    apply safe_open; [by right|by apply Hsf|done|done]. }
  destruct (rollback_record_safe leak _ _ _ _ Hsafe Hrun) as (_ & [Hst|Hst] & Hback & _); [|by rewrite Hr6 in Hne].
  rewrite Hr6. split_and!; [done|done|]. intros k Hk. unfold shown. cbn. rewrite He6. by apply Hback.
Qed.

(** ** Crashes *)

(** Where a crash can find the world: between two operations, between the
    persisted preparation and its dispatch, after the dispatch and before its
    receipt is persisted, and after a commit that was attempted. *)
Inductive crash (t0 : Tx) : KWorld E -> list K -> Prop :=
| crash_between t leak : ran t0 t leak -> crash t0 (tx_world t) leak
| crash_prepared t leak q q' t1 : ran t0 t leak -> prepare_effect env cx path q t = (Ok q', t1) ->
    crash t0 (tx_world t1) leak
| crash_dispatched t leak q q' t1 : ran t0 t leak -> prepare_effect env cx path q t = (Ok q', t1) ->
    crash t0 (with_engine (tx_world t1) (eapply (engine (tx_world t1)) q').2) leak
| crash_commit t leak : ran t0 t leak -> cancelled env (clock (tx_world t)) = false ->
    crash t0 (tx_world (commit env path t).2) leak.

Lemma crash_journal t0 w leak : inv [] t0 -> crash t0 w leak ->
  exists r, disk w !! path = Some (Regular (encode r)) /\ tr_session_id r = cx_session_id cx /\
    (safe leak r (view (engine w)) \/ tr_state r = Committed).
Proof.
  intros Hi0 Hc. assert (forall t leak, ran t0 t leak -> inv leak t) as Hran by (intros; by eapply ran_inv).
  destruct Hc as [t leak Hr|t leak q q' t1 Hr Hp|t leak q q' t1 Hr Hp|t leak Hr Hnc].
  - destruct (i_journal _ _ (Hran _ _ Hr)) as (r & Hj & Hs). exists r. split; [done|]. split; [by apply Hs|by left].
  - destruct (prepare_spec _ _ _ _ _ (Hran _ _ Hr) Hp) as [[_ (r & Hj & Hs)] _].
    exists r. split; [done|]. split; [by apply Hs|by left].
  - destruct (prepare_spec _ _ _ _ _ (Hran _ _ Hr) Hp) as [Hi1 Hpp]. destruct (Hpp _ eq_refl) as (l & p & Hpp').
    destruct (after_apply_inv leak t1 q' l p Hi1 Hpp' leak _ eq_refl) as [_ (r & Hj & Hs)]; [done|].
    exists r. split; [done|]. split; [by apply Hs|by left].
  - destruct (commit env path t) as [r t'] eqn:Hrun. pose proof (Hran _ _ Hr) as Hi. cbn.
    destruct (commit_spec leak t r t' Hi Hrun) as [Hc _]. destruct (Hc Hnc) as [He [Hd|(rc & [-> Hca] & Hj)]].
    + destruct (i_journal _ _ Hi) as (rd & Hj & Hs). exists rd. rewrite Hd, He.
      split; [done|]. split; [by apply Hs|by left].
    + exists (with_state (tx_record t) Committed). split; [done|]. split; [apply Hi|by right].
Qed.
End Atomicity.

Section Guarantees.
Context {E K : Type} `{EqDecision K, FileEngine E, !EngineView E K, !FileEngineOk E K}.
Context `{Codec TransactionRecord, Codec Preparation, Messages}.
Context (env : Env) (cx : EngineCallContext) (blake3_hex : string -> string) (root : Path).
Notation path := (tx_path cx blake3_hex root).

(** A fresh transaction: no record existed when it began. *)
Definition began (w0 w1 : KWorld E) (r : TransactionRecord) : Prop :=
  begin env cx blake3_hex root w0 = (Ok r, w1) /\ disk w0 !! path = None.

Lemma began_inv w0 w1 r : began w0 w1 r ->
  inv cx path (view (engine w0)) [] (mkTransaction w1 r false).
Proof.
  intros [Hb Hn]. unfold begin in Hb. destruct (elease (engine w0)); [|done]. rewrite Hn in Hb.
  destruct (persist_record env path (new_record cx) w0) as [[u|x] w2] eqn:Hp; [|done]. injection Hb as <- <-.
  pose proof (persist_inv env path (mkTransaction w0 (new_record cx) false)) as Hpi.
  unfold persist, on_world in Hpi. cbn [tx_record tx_world tx_settled] in Hpi. rewrite Hp in Hpi.
  destruct (Hpi _ _ eq_refl) as (He & _ & _ & Hd). cbn in He, Hd.
  apply begun_inv; [done| |unfold shown; cbn; by rewrite He].
  destruct Hd as [[_ Hd]|Hd]; [by destruct u|done].
Qed.

(** C16: How a cell transaction settles.  A place is kept when no symbolic link
    is involved in it and no apply leaked it: an apply leaks the place of its
    request when the engine fails after dispatch with another error than
    not-found or conflict and the call is then reported as cancelled, and the
    requested and receipted places when the receipt is for something else.
    After any number of applies with any cancellations, engine errors and
    failing disk calls, over an engine that obeys [FileEngineOk]: a rollback
    that reports success leaves every kept place as it was when the transaction
    began; a drop settles the transaction either rolled back with every kept
    place given back, or as recovery-required, with nothing said of the places;
    a commit that reports success leaves the files alone, has journaled the
    committed record and returns the receipt of every effect, each for the
    requested path and the observed preimage; and a compensation of it that
    reports success gives every kept place back and journals the rollback. *)
Theorem cell_transaction_settles (w0 w1 : KWorld E) (r : TransactionRecord) (t : @Tx E) (leak : list K) :
  began w0 w1 r -> ran env cx path (mkTransaction w1 r false) t leak ->
  (forall t', rollback env path t = (Ok (), t') ->
     tr_state (tx_record t') = RolledBack /\ forall k, kept leak k -> shown t' k = view (engine w0) k) /\
  (tx_settled t = false -> tx_settled (drop env path t).2 = true /\
     (tr_state (tx_record (drop env path t).2) = RecoveryRequired \/
      tr_state (tx_record (drop env path t).2) = RolledBack /\
      forall k, kept leak k -> shown (drop env path t).2 k = view (engine w0) k)) /\
  (forall rs t', commit env path t = (Ok rs, t') ->
     engine (tx_world t') = engine (tx_world t) /\ rs = receipts (tx_record t) /\
     tr_state (tx_record t') = Committed /\ journaled path t' (tx_record t') /\
     tr_effects (tx_record t') = tr_effects (tx_record t) /\
     Forall (fun p => exists x, pe_receipt p = Some x /\ fr_path x = fq_path (pe_request p) /\
       fr_before x = pe_before p) (tr_effects (tx_record t)) /\
     forall t'', compensate_committed env path t' = (Ok (), t'') ->
       tr_state (tx_record t'') = RolledBack /\ journaled path t'' (tx_record t'') /\
       forall k, kept leak k -> shown t'' k = view (engine w0) k).
Proof.
  intros Hb Hran. pose proof (ran_inv env cx path _ _ _ _ (began_inv _ _ _ Hb) Hran) as Hi. split_and!.
  - intros t' Hrun. by apply (rollback_exact env cx path (view (engine w0)) leak t t' Hi).
  - exact (drop_exact env cx path _ leak t Hi).
  - intros rs t' Hrun. destruct (commit_spec env cx path _ leak t _ t' Hi Hrun) as [Hc Hok].
    destruct (Hok rs eq_refl) as (Hnc & Hca & Hj & _ & Hrs & Hopen). destruct (Hc Hnc) as [He _].
    pose proof Hca as [Hst Hrc]. split_and!; [done|done|by rewrite Hst|done|by rewrite Hst|done|].
    intros t'' Hcomp. by eapply (compensate_exact env cx path).
Qed.

(** A record whose bytes are read back. *)
Hypothesis decode_record : forall r : TransactionRecord, decode (encode r) = Some r.
Hypothesis not_ignored : ignored_transaction_entry path = false.

Lemma reconcile_one env' w l w' : reconcile env' cx (Some [path]) w = (Ok l, w') ->
  elease (engine w) = Ok () /\ reconcile_entry env' cx path w = (Ok (l, []), w').
Proof.
  unfold reconcile. destruct (elease (engine w)) as [[]|]; [|done]. intros Hrun. split; [done|].
  apply sbind_inv in Hrun as [(x & Hx & [=])|(p & w1 & Hx & Hrun)]. cbn [reconcile_loop] in Hx.
  apply sbind_inv in Hx as [(x & Hy & [=])|([rec det] & w2 & Hy & Hx)]. injection Hx as <- <-. cbn in Hrun.
  destruct det; [|done]. injection Hrun as <- <-. done.
Qed.

(** What one reconciled entry can be: an unsettled record rolled back and
    republished, or a settled one left alone. *)
Lemma reconcile_entry_ok env' w l w' r :
  disk w !! path = Some (Regular (encode r)) -> tr_session_id r = cx_session_id cx ->
  reconcile_entry env' cx path w = (Ok (l, []), w') ->
  (w' = w /\ l = [] /\ (tr_state r = Committed \/ tr_state r = RolledBack)) \/
  (l = [path] /\ tr_state r <> Committed /\ exists r' e', rollback_record (engine w) r = (r', e') /\ tr_state r' <> RecoveryRequired /\
     engine w' = e' /\ disk w' !! path = Some (Regular (encode r'))).
Proof.
  intros Hd Hid Hrun. unfold reconcile_entry in Hrun. rewrite Hd, not_ignored, decode_record, Hid, String.eqb_refl in Hrun.
  cbn [negb] in Hrun.
  destruct (bool_decide (tr_state r = Committed) || bool_decide (tr_state r = RolledBack)) eqn:Hset.
  { apply orb_true_iff in Hset. rewrite !bool_decide_eq_true in Hset. simplify_eq. by left. }
  destruct (rollback_record (engine w) r) as [r' e'] eqn:Hrb.
  case_bool_decide as Hrec.
  { unfold rename_file in Hrun. destruct (negb _); [|done]. cbn in Hrun. injection Hrun as _ Hz _. by destruct (tr_rollback_errors r'). }
  pose proof (persist_inv env' path (mkTransaction (with_engine w e') r' false)) as Hpi.
  unfold persist, on_world in Hpi. cbn [tx_record tx_world tx_settled] in Hpi.
  destruct (persist_record env' path r' (with_engine w e')) as [[u|x] w2] eqn:Hp.
  - injection Hrun as <- <-. destruct (Hpi _ _ eq_refl) as (He & _ & _ & Hj). cbn in He, Hj. right.
    apply orb_false_iff in Hset as [Hnc%bool_decide_eq_false _].
    split; [done|]. split; [done|]. exists r', e'. split_and!; [done..|]. destruct Hj as [[_ Hj]|Hj]; [by destruct u|exact Hj].
  - destruct x as [x| |d]; cbn in Hrun; try done.
    destruct (rename_file env' path (poisoned_journal_path path) w2) as [y w3].
    injection Hrun as _ Hz _. by destruct d.
Qed.

(** Nothing failing, one reconciled entry is settled. *)
Lemma reconcile_entry_settles env' w r :
  (forall e x, (erestore e x).1 = Ok ()) -> (forall n c, os_fails env' n c = false) ->
  disk w !! path = Some (Regular (encode r)) -> tr_session_id r = cx_session_id cx -> tr_state r <> RecoveryRequired ->
  exists l w', reconcile_entry env' cx path w = (Ok (l, []), w').
Proof.
  intros Hres Hos Hd Hid Hst. unfold reconcile_entry. rewrite Hd, not_ignored, decode_record, Hid, String.eqb_refl.
  cbn [negb]. destruct (bool_decide (tr_state r = Committed) || bool_decide (tr_state r = RolledBack)) eqn:Hset; [eauto|].
  apply orb_false_iff in Hset as [Hnc%bool_decide_eq_false Hnr%bool_decide_eq_false].
  assert (forall rl e, exists l e', restore_effects e rl = (l, [], e')) as Hall.
  { induction rl as [|p rl IH]; intros e; [by eexists _, _|]. cbn. destruct (pe_restored p).
    - destruct (IH e) as (l & e' & ->). by eexists _, _.
    - pose proof (Hres e (effect_receipt p)) as Hx. destruct (erestore e (effect_receipt p)) as [y e2]. cbn in Hx. subst y.
      destruct (IH e2) as (l & e' & ->). by eexists _, _. }
  unfold rollback_record. destruct (Hall (reverse (tr_effects r)) (engine w)) as (l & e' & ->).
  assert (transition_allowed (tr_state r) RolledBack = true) as -> by (by destruct (tr_state r)).
  rewrite bool_decide_false by done. unfold persist_record. rewrite !Hos. cbn [orb].
  assert (is_Some (file_name path)) as [nm ->].
  { unfold file_name, tx_path, record_path. rewrite last_snoc. by eexists. }
  by eexists _, _.
Qed.

(** C17: Crash recovery.  Let the process of a fresh transaction crash at one of
    four points: between two operations after any number of applies, after an
    effect was prepared, after the engine then worked on it, or after an
    uncancelled commit was attempted.  If reconciliation of its record then
    succeeds, the record on disk is rolled back and every kept place (plain and
    not leaked, as above) is as it was when the transaction began, or it is
    committed and the files and the disk are left alone.  With a held lease, an
    engine whose restores succeed and a disk that does not fail, reconciliation
    does succeed, unless the journal already says that recovery is required. *)
Theorem crash_recovery_atomic (env' : Env) (w0 w1 w : KWorld E) (r : TransactionRecord) (leak : list K) :
  began w0 w1 r -> crash env cx path (mkTransaction w1 r false) w leak ->
  (forall l w', reconcile env' cx (Some [path]) w = (Ok l, w') ->
     exists r', disk w' !! path = Some (Regular (encode r')) /\
       (tr_state r' = RolledBack /\ (forall k, kept leak k -> view (engine w') k = view (engine w0) k) \/
        tr_state r' = Committed /\ l = [] /\ w' = w)) /\
  (elease (engine w) = Ok () -> (forall e x, (erestore e x).1 = Ok ()) -> (forall n c, os_fails env' n c = false) ->
   (exists l w', reconcile env' cx (Some [path]) w = (Ok l, w')) \/
   exists r', disk w !! path = Some (Regular (encode r')) /\ tr_state r' = RecoveryRequired).
Proof.
  intros Hb Hc. destruct (crash_journal env cx path _ _ _ _ (began_inv _ _ _ Hb) Hc) as (rd & Hd & Hid & Hor). split.
  - intros l w' Hrun. apply reconcile_one in Hrun as [_ Hrun].
    destruct (reconcile_entry_ok env' w l w' rd Hd Hid Hrun) as [(-> & -> & Hset)|(-> & Hnc & r' & e' & Hrb & Hne & He & Hj)].
    + exists rd. split; [done|]. destruct Hset as [Hset|Hset]; [by right|left]. split; [done|].
      destruct Hor as [Hs|Hcm]; [|congruence]. intros k Hk.
      destruct (s_undo _ _ _ _ _ Hs) as [_ Hu]; [by rewrite Hset|]. rewrite <- (Hu k Hk). symmetry. apply restored_undo.
      by apply Hs.
    + exists r'. split; [done|]. left. destruct Hor as [Hs|Hcm]; [|done].
      destruct (rollback_record_safe cx _ leak _ _ _ _ Hs Hrb) as (_ & [Hst|Hst] & Hback & _); [|done].
      split; [done|]. rewrite He. by apply Hback.
  - intros Hl Hres Hos. destruct (decide (tr_state rd = RecoveryRequired)) as [Hrec|Hrec]; [right; eauto|left].
    destruct (reconcile_entry_settles env' w rd Hres Hos Hd Hid Hrec) as (l & w' & Hrun).
    exists l, w'. unfold reconcile. rewrite Hl. unfold sbind at 1. cbn [reconcile_loop]. unfold sbind. rewrite Hrun. done.
Qed.
End Guarantees.

(** * A commit that was not journaled *)

Section Retry.
Context {E : Type} `{FileEngine E, Codec TransactionRecord, Messages}.

(** A retried commit reports success without a journal.  When the record of
    a commit cannot be published, the commit fails but stays committed in
    memory; committing again, uncancelled, then returns the receipts and
    settles the transaction while the journal still holds the record it held
    before, which reconciliation would roll back. *)
Theorem retried_commit_unjournaled (env : Env) (path : Path) (t : @Tx E) :
  tx_settled t = false -> tr_state (tx_record t) = Applying -> unreceipted (tx_record t) = false ->
  forallb receipt_bound (tr_effects (tx_record t)) = true ->
  cancelled env (clock (tx_world t)) = false -> cancelled env (S (S (clock (tx_world t)))) = false ->
  os_fails env (S (clock (tx_world t))) CreateDirAll = true ->
  exists t1 t2, commit env path t = (Err TStore, t1) /\ commit env path t1 = (Ok (receipts (tx_record t)), t2) /\
    tx_settled t2 = true /\ disk (tx_world t2) = disk (tx_world t).
Proof.
  intros Hs Hst Hun Hbd Hc1 Hc2 Hos. destruct t as [[e d n] r st]. cbn in *. subst st.
  assert (commit env path (mkTransaction (mkKWorld e d n) r false) =
    (Err TStore, mkTransaction (mkKWorld e d (S (S n))) (with_state r Committed) false)) as Hfirst.
  { unfold commit, probe, persist, on_world, persist_record, is_cancelled, sbind, get_settled, get_record, throw, lift, put_record.
    cbn. rewrite Hc1. cbn. rewrite Hst, bool_decide_false, Hun, Hbd by done. cbn. by rewrite Hos. }
  eexists _, _. split; [exact Hfirst|]. split_and!.
  - unfold commit, probe, on_world, is_cancelled, sbind, get_settled, get_record, put_settled, sret. cbn. rewrite Hc2. cbn.
    rewrite bool_decide_true by done. unfold unreceipted in Hun. rewrite Hun. reflexivity.
  - done.
  - done.
Qed.
End Retry.

(** * Concrete runs

    A concrete file engine (a map from paths to contents), a codec of
    transaction records, and runs of a cell transaction over them. *)

Local Open Scope string_scope.

(** * A codec: the binary digits of the record's number *)

#[local] Instance FileMetadata_dec : EqDecision FileMetadata. Proof. solve_decision. Defined.
#[local] Instance FileEffectKind_dec : EqDecision FileEffectKind. Proof. solve_decision. Defined.
#[local] Instance FileEffectRequest_dec : EqDecision FileEffectRequest. Proof. solve_decision. Defined.
#[local] Instance FileEffectReceipt_dec : EqDecision FileEffectReceipt. Proof. solve_decision. Defined.
#[local] Instance PreparedEffect_dec : EqDecision PreparedEffect. Proof. solve_decision. Defined.
#[local] Instance TransactionRecord_dec : EqDecision TransactionRecord. Proof. solve_decision. Defined.

#[local] Instance FileMetadata_countable : Countable FileMetadata.
Proof.
  refine (inj_countable' (fun m => (fm_mode m, fm_modified_unix_ns m, fm_symlink_target m, fm_symlink_target_is_dir m))
    (fun '(a, b, c, d) => mkMetadata a b c d) _). by intros [].
Defined.
#[local] Instance FileEffectKind_countable : Countable FileEffectKind.
Proof.
  refine (inj_countable' (fun k => match k with EWrite => 0 | EEdit => 1 | ERemove => 2 | ERestore => 3 end)%nat
    (fun n => match n with 0 => EWrite | 1 => EEdit | 2 => ERemove | _ => ERestore end)%nat _). by intros [].
Defined.
#[local] Instance TransactionState_countable : Countable TransactionState.
Proof.
  refine (inj_countable' (fun k => match k with Prepared => 0 | Applying => 1 | Committed => 2 | Compensating => 3
      | RolledBack => 4 | RecoveryRequired => 5 end)%nat
    (fun n => match n with 0 => Prepared | 1 => Applying | 2 => Committed | 3 => Compensating
      | 4 => RolledBack | _ => RecoveryRequired end)%nat _). by intros [].
Defined.
#[local] Instance FileEffectRequest_countable : Countable FileEffectRequest.
Proof.
  refine (inj_countable' (fun q => (fq_kind q, fq_path q, fq_content q, fq_patch q, fq_expected_preimage q, fq_expect_absent q))
    (fun '(a, b, c, d, e, f) => mkRequest a b c d e f) _). by intros [].
Defined.
#[local] Instance FileEffectReceipt_countable : Countable FileEffectReceipt.
Proof.
  refine (inj_countable' (fun q => (fr_kind q, fr_path q, fr_before q, fr_after q, fr_before_metadata q, fr_journal q))
    (fun '(a, b, c, d, e, f) => mkEffectReceipt a b c d e f) _). by intros [].
Defined.
#[local] Instance PreparedEffect_countable : Countable PreparedEffect.
Proof.
  refine (inj_countable' (fun q => (pe_request q, pe_before q, pe_before_metadata q, pe_preparation q, pe_receipt q, pe_restored q))
    (fun '(a, b, c, d, e, f) => mkEffect a b c d e f) _). by intros [].
Defined.
#[local] Instance TransactionRecord_countable : Countable TransactionRecord.
Proof.
  refine (inj_countable' (fun q => (tr_session_id q, tr_cell_id q, tr_trace_id q, tr_state q, tr_effects q, tr_rollback_errors q))
    (fun '(a, b, c, d, e, f) => mkTx a b c d e f) _). by intros [].
Defined.

Fixpoint pos_bytes (p : positive) : bytes :=
  match p with xH => [] | xO p => "0"%char :: pos_bytes p | xI p => "1"%char :: pos_bytes p end.
Fixpoint bytes_pos (b : bytes) : positive :=
  match b with [] => xH | c :: b => if Ascii.eqb c "0"%char then xO (bytes_pos b) else xI (bytes_pos b) end.
Lemma bytes_pos_bytes p : bytes_pos (pos_bytes p) = p.
Proof. induction p; cbn; congruence. Qed.

#[local] Instance record_codec : Codec TransactionRecord := {|
  DurableStore.encode := fun r => pos_bytes (countable.encode r);
  DurableStore.decode := fun b => countable.decode (bytes_pos b) |}.
Lemma record_codec_ok (r : TransactionRecord) : DurableStore.decode (DurableStore.encode r) = Some r.
Proof. cbn. rewrite bytes_pos_bytes. apply countable.decode_encode. Qed.
#[local] Instance preparation_codec : Codec Preparation := {|
  DurableStore.encode := fun _ => []; DurableStore.decode := fun _ => None |}.
#[local] Instance messages : Messages := {|
  restore_failed := fun _ _ => "restore"; invalid_transition := fun _ _ => "transition"; sync_failed := fun _ => "sync";
  missing_receipts := fun _ => "receipts"; quarantined_torn := fun _ => "torn"; quarantined_poisoned := fun _ => "poisoned";
  quarantined_foreign := fun _ => "foreign"; quarantined_ambiguous := fun _ => "ambiguous";
  quarantine_count := fun _ => "count"; cancelled_after := fun _ => "cancelled"; preimage_mismatch := fun _ _ _ => "preimage" |}.

(** * An engine: files by path *)

Notation Files := (gmap (list Component) (ZeroHandle * FileMetadata)).
Definition regular : FileMetadata := mkMetadata 420 0 None false.

Definition toy_snapshot (p : Path) (x : ZeroHandle * FileMetadata) : FileSnapshot :=
  mkSnapshot p x.1 0 (fm_modified_unix_ns x.2) (fm_mode x.2) (fm_symlink_target x.2) (fm_symlink_target_is_dir x.2).
Definition toy_apply (e : Files) (q : FileEffectRequest) : result EngineError FileEffectReceipt * Files :=
  let receipt after := mkEffectReceipt (fq_kind q) (fq_path q) (fst <$> e !! fq_path q) after (snd <$> e !! fq_path q) "j" in
  match fq_kind q, fq_content q with
  | (EWrite | EEdit), Some b =>
      let h := String.string_of_list_ascii b in (Ok (receipt (Some h)), <[fq_path q := (h, regular)]> e)
  | ERemove, _ =>
      match e !! fq_path q with
      | Some _ => (Ok (receipt None), delete (fq_path q) e)
      | None => (Err (mkEngineError NotFound "" false), e)
      end
  | _, _ => (Err (mkEngineError InvalidInput "" false), e)
  end.
Definition toy_restore (e : Files) (r : FileEffectReceipt) : result EngineError () * Files :=
  (Ok (), match preimage r with Some x => <[fr_path r := x]> e | None => delete (fr_path r) e end).

#[local] Instance toy_engine : FileEngine Files := {|
  elease := fun _ => Ok ();
  eread := fun e p => match e !! p with Some x => Ok (toy_snapshot p x) | None => Err (mkEngineError NotFound "" false) end;
  eapply := toy_apply;
  erestore := toy_restore |}.
#[local] Instance toy_view : EngineView Files Path := {| place := fun p => p; view := fun e k => e !! k; plain := fun _ => true |}.

#[local] Instance toy_engine_ok : FileEngineOk Files Path.
Proof.
  split; cbn.
  - intros e p s _. destruct (e !! p) as [[h [a b c d]]|] eqn:Hp; [|done]. by intros [= <-].
  - intros e p x _. by destruct (e !! p) eqn:Hp.
  - intros e q k _ Hk. unfold toy_apply. destruct (fq_kind q), (fq_content q); cbn; rewrite ?lookup_insert_ne by congruence; try done;
      destruct (e !! fq_path q); cbn; rewrite ?lookup_delete_ne by congruence; done.
  - intros e q x e' k _. unfold toy_apply. destruct (fq_kind q), (fq_content q); try (by intros [= <- <-]);
      destruct (e !! fq_path q); by intros [= <- <-].
  - intros e q r e' _. unfold toy_apply. destruct (fq_kind q), (fq_content q); try (by intros [= <- <-]);
      destruct (e !! fq_path q); by intros [= <- <-].
  - intros e r k _ Hk. destruct (preimage r); cbn; [by rewrite lookup_insert_ne by congruence|by rewrite lookup_delete_ne by congruence].
  - intros e r u e' _ [= <- <-] _. destruct (preimage r); [apply lookup_insert_eq|apply lookup_delete_eq].
Qed.

(** * Runs *)

Definition cx0 : EngineCallContext := mkContext [RootDir; Normal "p"] "s" "c" "t".
Definition calm : Env := mkEnv (fun _ => false) (fun _ _ => false) (fun _ => Some "h").
Definition blake (s : string) : string := s.
Definition jpath : Path := tx_path cx0 blake [RootDir].
Definition file_a : Path := [Normal "a"].
Definition file_b : Path := [Normal "b"].
Definition files0 : Files := {[ file_a := ("old", regular) ]}.
Definition start : KWorld Files := mkKWorld files0 ∅ 0.
Definition edit_a : FileEffectRequest := mkRequest EEdit file_a (Some (string_bytes "new")) None None false.
Definition write_b : FileEffectRequest := mkRequest EWrite file_b (Some (string_bytes "b")) None None true.

Definition tx0 (env : Env) : Tx := mkTransaction (begin env cx0 blake [RootDir] start).2 (new_record cx0) false.
Definition tx1 (env : Env) : Tx := (apply env cx0 jpath edit_a (tx0 env)).2.
Definition tx2 (env : Env) : Tx := (apply env cx0 jpath write_b (tx1 env)).2.

Lemma began0 : began calm cx0 blake [RootDir] start (begin calm cx0 blake [RootDir] start).2 (new_record cx0).
Proof. split; [vm_compute; reflexivity|apply lookup_empty]. Qed.

Lemma ran2 : ran calm cx0 jpath (tx0 calm) (tx2 calm)
  (([] ++ leaks calm cx0 jpath (tx0 calm) edit_a) ++ leaks calm cx0 jpath (tx1 calm) write_b)%list.
Proof.
  apply (ran_apply calm cx0 jpath _ (tx1 calm) _ write_b (apply calm cx0 jpath write_b (tx1 calm)).1); [|apply surjective_pairing].
  apply (ran_apply calm cx0 jpath _ (tx0 calm) _ edit_a (apply calm cx0 jpath edit_a (tx0 calm)).1); [|apply surjective_pairing].
  apply ran_start.
Qed.

Example no_leaks :
  (([] ++ leaks calm cx0 jpath (tx0 calm) edit_a) ++ leaks calm cx0 jpath (tx1 calm) write_b)%list = ([] : list Path).
Proof. vm_compute. reflexivity. Qed.

(** Rolled back, the edited file shows its old content again. *)
Lemma cell_transaction_settles_witness : exists t',
  rollback calm jpath (tx2 calm) = (Ok (), t') /\ shown (tx2 calm) file_a = Some ("new", regular) /\
  shown t' file_a = Some ("old", regular).
Proof.
  destruct (cell_transaction_settles calm cx0 blake [RootDir] start _ _ _ _ began0 ran2) as [Hroll _].
  assert (Hok : (rollback calm jpath (tx2 calm)).1 = Ok ()) by (vm_compute; reflexivity).
  destruct (rollback calm jpath (tx2 calm)) as [r t'] eqn:Hr. cbn in Hok. subst r. exists t'.
  split; [reflexivity|]. split; [vm_compute; reflexivity|].
  destruct (Hroll t' Hr) as [_ Hv]. rewrite Hv; [vm_compute; reflexivity|]. rewrite no_leaks. split; [apply not_elem_of_nil|reflexivity].
Defined.

(** Crashed after the engine removed [a] and before its receipt was journaled. *)
Definition remove_a : FileEffectRequest := mkRequest ERemove file_a None None None false.
Definition prepared_remove : result TransactionError FileEffectRequest * Tx :=
  prepare_effect calm cx0 jpath remove_a (tx0 calm).
Definition crashed : KWorld Files :=
  with_engine (tx_world prepared_remove.2)
    (eapply (engine (tx_world prepared_remove.2)) (with_expected remove_a (Some "old"))).2.

Lemma prepared_remove_ok :
  prepare_effect calm cx0 jpath remove_a (tx0 calm) = (Ok (with_expected remove_a (Some "old")), prepared_remove.2).
Proof.
  unfold prepared_remove. rewrite (surjective_pairing (prepare_effect calm cx0 jpath remove_a (tx0 calm))) at 1. f_equal.
Qed.

Definition read_back (o : option Entry) : option TransactionRecord :=
  match o with Some (Regular b) => DurableStore.decode b | _ => None end.
Lemma crashed_record r : disk crashed !! jpath = Some (Regular (DurableStore.encode r)) -> tr_state r = Applying.
Proof.
  destruct (prepare_spec calm cx0 jpath _ [] (tx0 calm) remove_a _ _
    (began_inv calm cx0 blake [RootDir] _ _ _ began0) prepared_remove_ok) as [_ Hp].
  destruct (Hp _ eq_refl) as (l & p & [_ Hj _ _ Hst _ _]).
  change (disk crashed) with (disk (tx_world prepared_remove.2)). unfold journaled in Hj. rewrite Hj.
  intros Heq. apply (f_equal read_back) in Heq. cbn [read_back] in Heq. rewrite !record_codec_ok in Heq.
  apply (inj Some) in Heq. by rewrite <- Heq.
Qed.

Lemma crash_recovery_atomic_witness : exists l w',
  reconcile calm cx0 (Some [jpath]) crashed = (Ok l, w') /\
  view (engine crashed) file_a = None /\ view (engine w') file_a = Some ("old", regular).
Proof.
  pose proof (crash_dispatched calm cx0 jpath (tx0 calm) (tx0 calm) [] remove_a _ _ (ran_start _ _ _ _) prepared_remove_ok) as Hc.
  assert (Hig : ignored_transaction_entry jpath = false) by (vm_compute; reflexivity).
  destruct (crash_recovery_atomic calm cx0 blake [RootDir] record_codec_ok Hig calm start _ crashed _ [] began0 Hc) as [Hsafe Hlive].
  destruct Hlive as [(l & w' & Hrun)|(r & Hd & Hr)]; [reflexivity|reflexivity|reflexivity| |].
  - exists l, w'. split; [exact Hrun|]. split; [vm_compute; reflexivity|].
    destruct (Hsafe l w' Hrun) as (r & Hd & [[_ Hv]|(Hcm & Hl & Hw)]).
    + rewrite Hv; [vm_compute; reflexivity|split; [apply not_elem_of_nil|reflexivity]].
    + rewrite Hw in Hd. rewrite (crashed_record r Hd) in Hcm. discriminate Hcm.
  - rewrite (crashed_record r Hd) in Hr. discriminate Hr.
Defined.

(** One edit applied, then a disk that cannot create the journal directory at
    the commit's publication. *)
Definition flaky : Env :=
  mkEnv (fun _ => false) (fun n c => (n =? S (clock (tx_world (tx1 calm))))%nat) (fun _ => Some "h").

Lemma retried_commit_unjournaled_witness : exists t1 t2,
  commit flaky jpath (tx1 calm) = (Err TStore, t1) /\
  commit flaky jpath t1 = (Ok (receipts (tx_record (tx1 calm))), t2) /\
  disk (tx_world t2) = disk (tx_world (tx1 calm)) /\ length (receipts (tx_record (tx1 calm))) = 1.
Proof.
  destruct (retried_commit_unjournaled flaky jpath (tx1 calm)) as (t1 & t2 & H1 & H2 & _ & Hd);
    [vm_compute; reflexivity..|].
  exists t1, t2. split; [exact H1|]. split; [exact H2|]. split; [exact Hd|vm_compute; reflexivity].
Defined.

(** * A leak

    An engine that writes the file and then fails to store its own journal
    object, as the file engine's [apply] does when [cas.put] fails after the
    bytes are published. *)
Inductive Faulty := mkFaulty (f : Files).
Definition faulty_files (e : Faulty) : Files := match e with mkFaulty f => f end.
#[local] Instance faulty_engine : FileEngine Faulty := {|
  elease := fun _ => Ok ();
  eread := fun e p => eread (faulty_files e) p;
  eapply := fun e q => (Err (mkEngineError Io "cas" false), mkFaulty (toy_apply (faulty_files e) q).2);
  erestore := fun e r => let '(x, f) := toy_restore (faulty_files e) r in (x, mkFaulty f) |}.

(** Cancelled from the probe that follows the failed dispatch. *)
Definition late_cancel : Env := mkEnv (fun n => (4 <=? n)%nat) (fun _ _ => false) (fun _ => Some "h").
Definition faulty_tx : Tx :=
  (apply late_cancel cx0 jpath edit_a (mkTransaction (mkKWorld (mkFaulty files0) ∅ 1) (new_record cx0) false)).2.

(** The preparation is dropped, the rollback reports success, and the edit stays. *)
Example cancelled_failure_leaks :
  (rollback late_cancel jpath faulty_tx).1 = Ok () /\
  faulty_files (engine (tx_world (rollback late_cancel jpath faulty_tx).2)) !! file_a = Some ("new", regular).
Proof. split; vm_compute; reflexivity. Qed.

(** Without the cancellation the same failure is rolled back. *)
Example uncancelled_failure_restores :
  faulty_files (engine (tx_world (apply calm cx0 jpath edit_a
    (mkTransaction (mkKWorld (mkFaulty files0) ∅ 1) (new_record cx0) false)).2)) !! file_a = Some ("old", regular).
Proof. vm_compute. reflexivity. Qed.
