(* ===== verification/Sums.v ===== *)
(** Sums of counters over lists, and Euclid's loop: the arithmetic the
    accounting components share. *)

From S2P Require Import Prelude.

#[local] Open Scope N_scope.

Fixpoint sum_of {A} (f : A -> N) (l : list A) : N := match l with [] => 0 | x :: l' => f x + sum_of f l' end.

Lemma sum_of_app {A} (f : A -> N) l l' : sum_of f (l ++ l') = sum_of f l + sum_of f l'.
Proof. induction l; cbn; [done|]. rewrite IHl. lia. Qed.

Lemma sum_of_snoc {A} (f : A -> N) l x : sum_of f (l ++ [x]) = sum_of f l + f x.
Proof. rewrite sum_of_app. cbn. lia. Qed.

Lemma sum_of_ext {A} (f g : A -> N) l : (forall x, x ∈ l -> f x = g x) -> sum_of f l = sum_of g l.
Proof.
  induction l as [|x l IH]; intros H; [done|]. cbn. f_equal; [apply H; by left|].
  apply IH. intros y Hy. apply H. by right.
Qed.

Lemma sum_of_le {A} (f g : A -> N) l : (forall x, x ∈ l -> f x <= g x) -> sum_of f l <= sum_of g l.
Proof.
  induction l as [|x l IH]; intros H; [done|]. cbn. apply N.add_le_mono; [apply H; by left|].
  apply IH. intros y Hy. apply H. by right.
Qed.

Lemma sum_of_elem_le {A} (f : A -> N) l x : x ∈ l -> f x <= sum_of f l.
Proof. induction 1; cbn; lia. Qed.

Lemma sum_of_plus {A} (f g : A -> N) l : sum_of (fun x => f x + g x) l = sum_of f l + sum_of g l.
Proof. induction l; cbn; lia. Qed.

#[global] Instance sum_of_perm {A} (f : A -> N) : Proper ((≡ₚ) ==> (=)) (sum_of f).
Proof. induction 1; cbn; [done|congruence|lia|congruence]. Qed.

Lemma sum_of_swap {A B} (f : A -> B -> N) l (m : list B) :
  sum_of (fun x => sum_of (f x) m) l = sum_of (fun y => sum_of (fun x => f x y) l) m.
Proof.
  induction l as [|x l IH]; cbn.
  - induction m as [|y m IHm]; cbn; [done|]. by rewrite <- IHm.
  - rewrite IH. symmetry. apply sum_of_plus.
Qed.

(** Splitting a sum along an enumeration of classes without repetition. *)
Lemma sum_of_classes {A K} `{EqDecision K} (key : A -> K) (f : A -> N) (ks : list K) l :
  NoDup ks -> (forall x, x ∈ l -> key x ∈ ks) ->
  sum_of (fun k => sum_of (fun x => if bool_decide (key x = k) then f x else 0) l) ks = sum_of f l.
Proof.
  intros Hn Hk. rewrite sum_of_swap. apply sum_of_ext. intros x Hx. specialize (Hk x Hx).
  clear l Hx. induction Hn as [|k ks Hnin Hn IH]; [by apply elem_of_nil in Hk|]. cbn.
  apply elem_of_cons in Hk as [<-|Hk].
  - rewrite bool_decide_true by done. rewrite (sum_of_ext _ (fun _ => 0)).
    + assert (sum_of (fun _ : K => 0) ks = 0) as -> by (clear; induction ks; cbn; lia). lia.
    + intros k' Hk'. rewrite bool_decide_false; [done|]. by intros <-.
  - rewrite bool_decide_false by (by intros <-). by apply IH.
Qed.

Lemma sum_of_fmap {A B} (f : B -> N) (g : A -> B) l : sum_of f (g <$> l) = sum_of (fun x => f (g x)) l.
Proof. induction l; cbn; congruence. Qed.

Lemma checked_add_u64_exact a b n : checked_add_u64 a b = Some n <-> n = a + b /\ a + b <= U64_MAX.
Proof.
  unfold checked_add_u64. destruct (N.leb_spec (a + b) U64_MAX); [|split; [done|lia]].
  split; [by intros [= <-]|by intros [-> _]].
Qed.

(** * Euclid's loop

    [while b != 0 { (a, b) = (b, a % b) }]: the second argument halves in two
    rounds, so [2 * 128 + 1] rounds are enough for [u128]. *)
Fixpoint euclid (fuel : nat) (a b : N) : N :=
  match fuel with
  | O => a
  | S fuel' => if b =? 0 then a else euclid fuel' b (a mod b)
  end.

Lemma euclid_gcd (k : nat) : forall a b fuel,
  b < 2 ^ N.of_nat k -> (2 * k < fuel)%nat -> euclid fuel a b = N.gcd a b.
Proof.
  induction k as [|k IH]; intros a b fuel Hb Hf.
  - destruct fuel as [|fuel]; [lia|]. cbn in Hb. assert (b = 0) as -> by lia. cbn. by rewrite N.gcd_0_r.
  - destruct fuel as [|[|fuel]]; [lia..|]. cbn [euclid].
    destruct (N.eqb_spec b 0) as [->|Hb0]; [by rewrite N.gcd_0_r|].
    rewrite (N.gcd_comm a), <- (N.Lcm0.gcd_mod a b).
    destruct (N.eqb_spec (a mod b) 0) as [Hz|Hz]; [by rewrite Hz, N.gcd_0_l|].
    rewrite IH; [by rewrite N.gcd_comm, (N.Lcm0.gcd_mod b)| |lia].
    pose proof (N.mod_lt a b Hb0) as Hm. pose proof (N.mod_lt b (a mod b) Hz) as Hm2.
    pose proof (N.div_mod b (a mod b) Hz) as Hd.
    assert (1 <= b / (a mod b)) by (apply N.div_le_lower_bound; lia).
    rewrite Nat2N.inj_succ, N.pow_succ_r' in Hb. nia.
Qed.

(** A fraction in lowest terms. *)
Definition lowest_terms (n d : N) (f : N * N) : Prop :=
  fst f * d = n * snd f /\ 0 < snd f /\ N.gcd (fst f) (snd f) = 1.

Lemma lowest_of_gcd n d : 0 < d -> lowest_terms n d (n / N.gcd n d, d / N.gcd n d).
Proof.
  intros Hd. assert (Hg : N.gcd n d <> 0) by (intros [_ H0]%N.gcd_eq_0; lia).
  destruct (N.gcd_divide_l n d) as [a Ha], (N.gcd_divide_r n d) as [b Hb].
  pose proof (N.gcd_div_gcd n d _ Hg eq_refl) as Hco. unfold lowest_terms. cbn [fst snd].
  set (g := N.gcd n d) in *. clearbody g. split_and!; [| |exact Hco].
  - rewrite Ha at 1. rewrite Hb at 2. rewrite !N.div_mul by done. rewrite Ha, Hb. nia.
  - rewrite Hb, N.div_mul by done. nia.
Qed.
