(* ===== verification/Ledger.v ===== *)
(** Token accounting ([zero-ledger/src/lib.rs], [fresh_work.rs]): charges
    classified exactly once, the append-only gauge, the evidence that raises
    a receipt's gates, the sealed receipt with its parts-per-million target,
    and the exposure account a ledger must replay to.  [u64] counters are
    checked; [u128] products are written with their width, as release builds
    compute them. *)

From S2P Require Import Prelude.
From S2P Require Import Canonical.
From S2P Require Import DurableStore.
From S2P Require Import Identity.
From S2P Require Import Sums.

Definition PPM_ONE : N := 1000000.
Definition RECEIPT_SCHEMA_VERSION : N := 2.

(** * Digests *)

Definition nibble (value : N) : byte :=
  if (value <=? 9)%N then ascii_of_N (48 + value) else ascii_of_N (97 + value - 10).
Definition unnibble (b : byte) : option N :=
  let n := N_of_ascii b in
  if (48 <=? n)%N && (n <=? 57)%N then Some (n - 48)%N
  else if (97 <=? n)%N && (n <=? 102)%N then Some (n - 97 + 10)%N
  else None.

Fixpoint digest_hex (d : Digest) : bytes :=
  match d with
  | [] => []
  | b :: d' => nibble (N.shiftr (N_of_ascii b) 4) :: nibble (N.land (N_of_ascii b) 15) :: digest_hex d'
  end.
Definition Digest_to_hex (d : Digest) : string := bytes_string (digest_hex d).

(** The [chunks_exact(2)] loop. *)
Fixpoint parse_pairs (s : bytes) : option Digest :=
  match s with
  | h :: l :: s' =>
      hi ← unnibble h; lo ← unnibble l; rest ← parse_pairs s';
      Some (ascii_of_N (N.lor (N.shiftl hi 4) lo) :: rest)
  | _ => Some []
  end.
Definition Digest_from_hex (text : string) : option Digest :=
  if (String.length text =? 64)%nat then parse_pairs (string_bytes text) else None.

(** * Failures *)

Inductive ExposureSide := Raw | Racc.

(** [LedgerError]; the tokenizer identities of a mismatch are not kept. *)
Inductive LedgerError :=
| TokenizerIdentityMismatch
| CounterOverflow (counter : string)
| PpmOutOfRange (ppm : N)
| UnclassifiedInput (declared classified : N)
| DoubleCountedInput (declared classified : N)
| EmptyExposureAccount
| ReplayIdentityMismatch (side : ExposureSide) (expected actual : N)
| ZeroTaskAttemptCost
| FreshWorkTotalMismatch (declared decomposed : N)
| EmptyActionId
| EmptyBillProvider
| HiddenUnchargedWork (provider class : string) (billed : N)
| OutOfTolerance (provider class : string) (billed ledger tolerance_ppm : N).

Notation L := (result LedgerError).

Definition add (lhs rhs : N) (counter : string) : L N := ok_or (checked_add_u64 lhs rhs) (CounterOverflow counter).

(** * Fresh work *)

Inductive FreshWorkComponent := FreshWork | Replayed | RecoveryWork | Overhead.
Definition FreshWorkComponent_ALL : list FreshWorkComponent := [FreshWork; Replayed; RecoveryWork; Overhead].
Definition field_name (c : FreshWorkComponent) : string :=
  match c with
  | FreshWork => "fresh_work_tokens" | Replayed => "replayed_tokens"
  | RecoveryWork => "recovery_tokens" | Overhead => "overhead_tokens" end.

Record FreshWorkVector := mkFresh {
  fw_fresh_work_tokens : N;
  fw_replayed_tokens : N;
  fw_recovery_tokens : N;
  fw_overhead_tokens : N;
  fw_total_tokens : N }.
Definition FreshWorkVector_default : FreshWorkVector := mkFresh 0 0 0 0 0.

Definition component_tokens (v : FreshWorkVector) (c : FreshWorkComponent) : N :=
  match c with
  | FreshWork => fw_fresh_work_tokens v | Replayed => fw_replayed_tokens v
  | RecoveryWork => fw_recovery_tokens v | Overhead => fw_overhead_tokens v end.
Definition set_component (v : FreshWorkVector) (c : FreshWorkComponent) (tokens : N) : FreshWorkVector :=
  match v with
  | mkFresh f r rec o t =>
      match c with
      | FreshWork => mkFresh tokens r rec o t | Replayed => mkFresh f tokens rec o t
      | RecoveryWork => mkFresh f r tokens o t | Overhead => mkFresh f r rec tokens t end
  end.

(** A [for] loop that adds named amounts to a checked total. *)
Fixpoint sum_named (l : list (string * N)) (total : N) : L N :=
  match l with
  | [] => Ok total
  | (name, tokens) :: rest => let? total := add total tokens name in sum_named rest total
  end.

Definition component_sum (v : FreshWorkVector) : L N :=
  sum_named ((fun c => (field_name c, component_tokens v c)) <$> FreshWorkComponent_ALL) 0.

Definition FreshWorkVector_new (fresh replayed recovery overhead : N) : L FreshWorkVector :=
  let? total := sum_named [(field_name FreshWork, fresh); (field_name Replayed, replayed);
                           (field_name RecoveryWork, recovery); (field_name Overhead, overhead)] 0 in
  Ok (mkFresh fresh replayed recovery overhead total).

Definition all_fresh (tokens : N) : FreshWorkVector := mkFresh tokens 0 0 0 tokens.
Definition is_declared (v : FreshWorkVector) : bool := (0 <? fw_total_tokens v)%N.

(** [None] inside when the vector is undeclared; outside when an [expect]
    would panic. *)
Definition eta_action_ppm (v : FreshWorkVector) : option (option N) :=
  if (fw_total_tokens v =? 0)%N then Some None
  else
    let ppm := (fw_fresh_work_tokens v * PPM_ONE / fw_total_tokens v)%N in
    if (ppm <=? U32_MAX)%N then if (ppm <=? PPM_ONE)%N then Some (Some ppm) else None else None.

Fixpoint merge_loop (v other merged : FreshWorkVector) (l : list FreshWorkComponent) : L FreshWorkVector :=
  match l with
  | [] => Ok merged
  | c :: rest =>
      let? sum := add (component_tokens v c) (component_tokens other c) (field_name c) in
      merge_loop v other (set_component merged c sum) rest
  end.
Definition merge (v other : FreshWorkVector) : L FreshWorkVector :=
  let? merged := merge_loop v other v FreshWorkComponent_ALL in
  let? total := component_sum merged in
  Ok (mkFresh (fw_fresh_work_tokens merged) (fw_replayed_tokens merged) (fw_recovery_tokens merged)
        (fw_overhead_tokens merged) total).

(** [Deserialize for FreshWorkVector]: the wire total is rechecked. *)
Definition FreshWorkVector_from_wire (w : FreshWorkVector) : L FreshWorkVector :=
  let? v := FreshWorkVector_new (fw_fresh_work_tokens w) (fw_replayed_tokens w) (fw_recovery_tokens w)
              (fw_overhead_tokens w) in
  guard? (fw_total_tokens v =? fw_total_tokens w)%N
    else FreshWorkTotalMismatch (fw_total_tokens w) (fw_total_tokens v) in
  Ok v.

Record ActionFreshWork := mkAction { af_action_id : string; af_vector : FreshWorkVector }.
Definition ActionFreshWork_new (id : string) (v : FreshWorkVector) : L ActionFreshWork :=
  reject? bool_decide (id = "") with EmptyActionId in Ok (mkAction id v).

Record SessionFreshWork := mkSession { sf_actions : N; sf_aggregate : FreshWorkVector }.
Definition SessionFreshWork_default : SessionFreshWork := mkSession 0 FreshWorkVector_default.
Definition with_action (s : SessionFreshWork) (v : FreshWorkVector) : L SessionFreshWork :=
  let? actions := add (sf_actions s) 1 "actions" in
  let? aggregate := merge (sf_aggregate s) v in
  Ok (mkSession actions aggregate).
Fixpoint from_actions_loop (s : SessionFreshWork) (l : list ActionFreshWork) : L SessionFreshWork :=
  match l with
  | [] => Ok s
  | a :: rest => let? s := with_action s (af_vector a) in from_actions_loop s rest
  end.
Definition from_actions (l : list ActionFreshWork) : L SessionFreshWork :=
  from_actions_loop SessionFreshWork_default l.
Definition eta_session_ppm (s : SessionFreshWork) : option (option N) := eta_action_ppm (sf_aggregate s).

(** * Charges *)

Definition RetainedFractionPpm_new (ppm : N) : L N :=
  reject? (PPM_ONE <? ppm)%N with PpmOutOfRange ppm in Ok ppm.

Record TokenizerIdentity := mkTokenizer { tokenizer_id : string; tokenizer_version_digest : Digest }.
#[global] Instance TokenizerIdentity_eq_dec : EqDecision TokenizerIdentity.
Proof. solve_decision. Defined.
Record LedgerConfig := mkConfig { tokenizer : TokenizerIdentity }.

Inductive ChargeClass := Billed | FailedTrial | Retry | Recovery | Reexpansion | Fallback.
Inductive TaskAttemptDisposition := Passed | RolledBack.
Definition ChargeClass_ALL : list ChargeClass := [Billed; FailedTrial; Retry; Recovery; Reexpansion; Fallback].
Definition counter_name (c : ChargeClass) : string :=
  match c with
  | Billed => "billed_tokens" | FailedTrial => "failed_trial_tokens" | Retry => "retry_tokens"
  | Recovery => "recovery_tokens" | Reexpansion => "reexpansion_tokens" | Fallback => "fallback_tokens" end.

Record TokenLedger := mkLedger {
  lg_tokenizer : TokenizerIdentity;
  lg_raw_input_tokens : N;
  lg_declared_input_tokens : N;
  lg_billed_tokens : N;
  lg_failed_trial_tokens : N;
  lg_retry_tokens : N;
  lg_recovery_tokens : N;
  lg_reexpansion_tokens : N;
  lg_fallback_tokens : N;
  lg_model_output_tokens : N;
  lg_model_calls : N;
  lg_retries : N;
  lg_fresh_work : FreshWorkVector;
  lg_fresh_work_actions : N }.

Definition ledger_empty (t : TokenizerIdentity) : TokenLedger :=
  mkLedger t 0 0 0 0 0 0 0 0 0 0 0 FreshWorkVector_default 0.

Definition ledger_class_tokens (l : TokenLedger) (c : ChargeClass) : N :=
  match c with
  | Billed => lg_billed_tokens l | FailedTrial => lg_failed_trial_tokens l | Retry => lg_retry_tokens l
  | Recovery => lg_recovery_tokens l | Reexpansion => lg_reexpansion_tokens l
  | Fallback => lg_fallback_tokens l end.

Definition racc_input_tokens (l : TokenLedger) : L N :=
  sum_named ((fun c => (counter_name c, ledger_class_tokens l c)) <$> ChargeClass_ALL) 0.

Definition check_accounting_complete (l : TokenLedger) : L N :=
  let? classified := racc_input_tokens l in
  reject? (classified <? lg_declared_input_tokens l)%N
    with UnclassifiedInput (lg_declared_input_tokens l) classified in
  reject? (lg_declared_input_tokens l <? classified)%N
    with DoubleCountedInput (lg_declared_input_tokens l) classified in
  Ok classified.

Record TokenCharge := mkCharge {
  ch_raw_input_tokens : N;
  ch_input_tokens : N;
  ch_billed_tokens : N;
  ch_failed_trial_tokens : N;
  ch_retry_tokens : N;
  ch_recovery_tokens : N;
  ch_reexpansion_tokens : N;
  ch_fallback_tokens : N;
  ch_model_output_tokens : N;
  ch_model_calls : N;
  ch_retries : N;
  ch_fresh_work : FreshWorkVector }.

Definition apply_charge_totals (l : TokenLedger) (t : TokenCharge) : TokenLedger :=
  mkLedger (lg_tokenizer l) (ch_raw_input_tokens t) (ch_input_tokens t) (ch_billed_tokens t)
    (ch_failed_trial_tokens t) (ch_retry_tokens t) (ch_recovery_tokens t) (ch_reexpansion_tokens t)
    (ch_fallback_tokens t) (ch_model_output_tokens t) (ch_model_calls t) (ch_retries t) (ch_fresh_work t)
    (lg_fresh_work_actions l).

Definition charge_class_tokens (c : TokenCharge) (k : ChargeClass) : N :=
  match k with
  | Billed => ch_billed_tokens c | FailedTrial => ch_failed_trial_tokens c | Retry => ch_retry_tokens c
  | Recovery => ch_recovery_tokens c | Reexpansion => ch_reexpansion_tokens c
  | Fallback => ch_fallback_tokens c end.

Definition classified_tokens (c : TokenCharge) : L N :=
  sum_named ((fun k => (counter_name k, charge_class_tokens c k)) <$> ChargeClass_ALL) 0.

Definition check_fresh_work (c : TokenCharge) (declared : N) : L () :=
  if negb (is_declared (ch_fresh_work c)) then Ok ()
  else
    let? decomposed := component_sum (ch_fresh_work c) in
    guard? (decomposed =? declared)%N else FreshWorkTotalMismatch declared decomposed in
    Ok ().

Definition check_classification (c : TokenCharge) : L N :=
  let? classified := classified_tokens c in
  reject? (classified <? ch_input_tokens c)%N with UnclassifiedInput (ch_input_tokens c) classified in
  reject? (ch_input_tokens c <? classified)%N with DoubleCountedInput (ch_input_tokens c) classified in
  let? _ := check_fresh_work c classified in
  Ok classified.

(** The three accumulation steps, in their order. *)
Definition accumulate (c : TokenCharge) (l : TokenLedger) : L TokenCharge :=
  let? raw := add (lg_raw_input_tokens l) (ch_raw_input_tokens c) "raw_input_tokens" in
  let? input := add (lg_declared_input_tokens l) (ch_input_tokens c) "declared_input_tokens" in
  let? billed := add (lg_billed_tokens l) (ch_billed_tokens c) "billed_tokens" in
  let? failed := add (lg_failed_trial_tokens l) (ch_failed_trial_tokens c) "failed_trial_tokens" in
  let? retry := add (lg_retry_tokens l) (ch_retry_tokens c) "retry_tokens" in
  let? recovery := add (lg_recovery_tokens l) (ch_recovery_tokens c) "recovery_tokens" in
  let? reexpansion := add (lg_reexpansion_tokens l) (ch_reexpansion_tokens c) "reexpansion_tokens" in
  let? fallback := add (lg_fallback_tokens l) (ch_fallback_tokens c) "fallback_tokens" in
  let? output := add (lg_model_output_tokens l) (ch_model_output_tokens c) "model_output_tokens" in
  let? calls := add (lg_model_calls l) (ch_model_calls c) "model_calls" in
  let? retries := add (lg_retries l) (ch_retries c) "retries" in
  let? fresh := merge (lg_fresh_work l) (ch_fresh_work c) in
  Ok (mkCharge raw input billed failed retry recovery reexpansion fallback output calls retries fresh).

(** * The gauge *)

Record ResourceGauge := mkGauge { rg_config : LedgerConfig; rg_ledger : TokenLedger; rg_charges : N }.

Definition ResourceGauge_new (c : LedgerConfig) : ResourceGauge := mkGauge c (ledger_empty (tokenizer c)) 0.

Definition check_tokenizer (g : ResourceGauge) (t : TokenizerIdentity) : L () :=
  guard? bool_decide (t = tokenizer (rg_config g)) else TokenizerIdentityMismatch in Ok ().

Definition charge (g : ResourceGauge) (t : TokenizerIdentity) (c : TokenCharge) : L ResourceGauge :=
  let? _ := check_tokenizer g t in
  let? _ := check_classification c in
  let? totals := accumulate c (rg_ledger g) in
  let? actions := if is_declared (ch_fresh_work c)
                  then add (lg_fresh_work_actions (rg_ledger g)) 1 "fresh_work_actions"
                  else Ok (lg_fresh_work_actions (rg_ledger g)) in
  let? charges := add (rg_charges g) 1 "charges" in
  let l := apply_charge_totals (rg_ledger g) totals in
  Ok (mkGauge (rg_config g)
        (mkLedger (lg_tokenizer l) (lg_raw_input_tokens l) (lg_declared_input_tokens l) (lg_billed_tokens l)
           (lg_failed_trial_tokens l) (lg_retry_tokens l) (lg_recovery_tokens l) (lg_reexpansion_tokens l)
           (lg_fallback_tokens l) (lg_model_output_tokens l) (lg_model_calls l) (lg_retries l)
           (lg_fresh_work l) actions) charges).

Definition attempt_charge (cost : N) (d : TaskAttemptDisposition) : TokenCharge :=
  mkCharge cost cost (match d with Passed => cost | RolledBack => 0%N end)
    (match d with Passed => 0%N | RolledBack => cost end) 0 0 0 0 0 0 0 FreshWorkVector_default.

Definition charge_task_attempt (g : ResourceGauge) (t : TokenizerIdentity) (cost : N)
  (d : TaskAttemptDisposition) : L ResourceGauge :=
  reject? (cost =? 0)%N with ZeroTaskAttemptCost in
  charge g t (attempt_charge cost d).

(** * Evidence handles *)

Inductive EvidenceError :=
| NoEvidence (kind : string)
| RootMismatch (kind : string) (declared actual : Digest)
| TaskRegressed.

Section Receipts.
Context `{Platform}.

(** [sha256_hex] read back with [expect]; a 32-byte hash always parses. *)
Definition fold_root (tag : string) (leaves : list Digest) : Digest :=
  let buf := string_bytes tag ++ [byte0] ++ concat leaves in
  default [] (Digest_from_hex (Sha256Digest_to_hex (sha256 buf))).

Definition verify_root {A} (kind : string) (root_of : list A -> Digest) (root : Digest) (l : list A)
  : result EvidenceError Digest :=
  let actual := root_of l in
  guard? bool_decide (actual = root) else RootMismatch kind root actual in
  Ok root.

Definition archive_root_of (spans : list Digest) : Digest := fold_root "racc.archive" spans.
Definition ArchiveAttestation_verify (root : Digest) (spans : list Digest) : result EvidenceError Digest :=
  reject? (length spans =? 0)%nat with NoEvidence "archive" in
  verify_root "archive" archive_root_of root spans.

Inductive PolicyDecision := SufficiencyProven (witness_digest : Digest) | RawFallbackServed (view_digest : Digest).
Definition decision_leaf (d : PolicyDecision) : Digest :=
  match d with
  | SufficiencyProven w => fold_root "racc.policy.proven" [w]
  | RawFallbackServed v => fold_root "racc.policy.fallback" [v] end.
Definition policy_root_of (l : list PolicyDecision) : Digest := fold_root "racc.policy" (decision_leaf <$> l).
Definition PolicyEvidence_verify (root : Digest) (l : list PolicyDecision) : result EvidenceError Digest :=
  reject? (length l =? 0)%nat with NoEvidence "policy" in
  verify_root "policy" policy_root_of root l.

Inductive TaskOutcome := Accepted (task_digest : Digest) | Regressed (task_digest : Digest).
Definition outcome_leaf (o : TaskOutcome) : Digest :=
  match o with
  | Accepted t => fold_root "racc.task.accepted" [t]
  | Regressed t => fold_root "racc.task.regressed" [t] end.
Definition is_accepted (o : TaskOutcome) : bool := match o with Accepted _ => true | Regressed _ => false end.
Definition task_root_of (l : list TaskOutcome) : Digest := fold_root "racc.task" (outcome_leaf <$> l).
Definition TaskAcceptanceReceipt_verify (root : Digest) (l : list TaskOutcome) : result EvidenceError Digest :=
  reject? (length l =? 0)%nat with NoEvidence "task" in
  guard? forallb is_accepted l else TaskRegressed in
  verify_root "task" task_root_of root l.

(** * Receipts *)

Record ReceiptRoots := mkRoots { rr_archive_root : Digest; rr_certificate_root : Digest }.

(** The gates hold the roots of the evidence that raised them. *)
Record ExactnessGates := mkGates {
  eg_byte_exact : option Digest; eg_policy_exact_or_fallback : option Digest; eg_task_verified : option Digest }.
Definition ExactnessGates_default : ExactnessGates := mkGates None None None.
Definition with_byte_exact (g : ExactnessGates) (attestation : Digest) : ExactnessGates :=
  mkGates (Some attestation) (eg_policy_exact_or_fallback g) (eg_task_verified g).
Definition with_policy_exact_or_fallback (g : ExactnessGates) (evidence : Digest) : ExactnessGates :=
  mkGates (eg_byte_exact g) (Some evidence) (eg_task_verified g).
Definition with_task_verified (g : ExactnessGates) (receipt : Digest) : ExactnessGates :=
  mkGates (eg_byte_exact g) (eg_policy_exact_or_fallback g) (Some receipt).

Inductive ReceiptError :=
| IncompleteLedger
| Accounting (e : LedgerError)
| EvidenceRootMismatch (kind : string) (receipt evidence : Digest).

Record DominanceReceipt := mkReceipt {
  dr_schema_version : N;
  dr_ledger : TokenLedger;
  dr_racc_input_tokens : N;
  dr_target_retained_ppm : N;
  dr_archive_root : Digest;
  dr_certificate_root : Digest;
  dr_byte_exact : bool;
  dr_policy_exact_or_fallback : bool;
  dr_task_verified : bool }.

Definition is_some {A} (o : option A) : bool := match o with Some _ => true | None => false end.
(** [if let Some(root) = gate && root != receipt_root]. *)
Definition other_root (gate : option Digest) (root : Digest) : option Digest :=
  r ← gate; if bool_decide (r = root) then None else Some r.

Definition seal (l : TokenLedger) (target : N) (roots : ReceiptRoots) (gates : ExactnessGates)
  : result ReceiptError DominanceReceipt :=
  reject? (lg_raw_input_tokens l =? 0)%N with IncompleteLedger in
  let? racc := match check_accounting_complete l with Ok n => Ok n | Err e => Err (Accounting e) end in
  match other_root (eg_byte_exact gates) (rr_archive_root roots) with
  | Some r => Err (EvidenceRootMismatch "archive" (rr_archive_root roots) r)
  | None =>
      match other_root (eg_policy_exact_or_fallback gates) (rr_certificate_root roots) with
      | Some r => Err (EvidenceRootMismatch "policy" (rr_certificate_root roots) r)
      | None =>
          Ok (mkReceipt RECEIPT_SCHEMA_VERSION l racc target (rr_archive_root roots) (rr_certificate_root roots)
                (is_some (eg_byte_exact gates)) (is_some (eg_policy_exact_or_fallback gates))
                (is_some (eg_task_verified gates)))
      end
  end.

Definition finalize_receipt (g : ResourceGauge) (target : N) (roots : ReceiptRoots) (gates : ExactnessGates)
  : result ReceiptError DominanceReceipt :=
  reject? (rg_charges g =? 0)%N with IncompleteLedger in
  seal (rg_ledger g) target roots gates.

Definition meets_token_target (r : DominanceReceipt) : bool :=
  if (lg_raw_input_tokens (dr_ledger r) =? 0)%N then false
  else
    match racc_input_tokens (dr_ledger r) with
    | Err _ => false
    | Ok exposure =>
        if negb (exposure =? dr_racc_input_tokens r)%N then false
        else (exposure * PPM_ONE <=? lg_raw_input_tokens (dr_ledger r) * dr_target_retained_ppm r)%N
    end.

Definition exact_phase_valid (r : DominanceReceipt) : bool :=
  dr_byte_exact r && dr_policy_exact_or_fallback r && dr_task_verified r && meets_token_target r.

(** [u128::div_ceil]. *)
Definition div_ceil (a b : N) : N := if (a mod b =? 0)%N then (a / b)%N else (a / b + 1)%N.

Definition achieved_retained_ppm_ceil (r : DominanceReceipt) : option N :=
  if (lg_raw_input_tokens (dr_ledger r) =? 0)%N then None
  else
    match racc_input_tokens (dr_ledger r) with
    | Err _ => None
    | Ok exposure => Some (div_ceil (exposure * PPM_ONE) (lg_raw_input_tokens (dr_ledger r)))
    end.

(** ** Wire form *)

Definition jledger_digest (d : Digest) : Value := VString (Digest_to_hex d).
Definition jfresh (v : FreshWorkVector) : Value :=
  Object [("fresh_work_tokens", jnum (fw_fresh_work_tokens v)); ("replayed_tokens", jnum (fw_replayed_tokens v));
          ("recovery_tokens", jnum (fw_recovery_tokens v)); ("overhead_tokens", jnum (fw_overhead_tokens v));
          ("total_tokens", jnum (fw_total_tokens v))].
Definition jtokenizer (t : TokenizerIdentity) : Value :=
  Object [("tokenizer_id", VString (tokenizer_id t));
          ("tokenizer_version_digest", jledger_digest (tokenizer_version_digest t))].
Definition jledger (l : TokenLedger) : Value :=
  Object [("tokenizer", jtokenizer (lg_tokenizer l)); ("raw_input_tokens", jnum (lg_raw_input_tokens l));
          ("declared_input_tokens", jnum (lg_declared_input_tokens l)); ("billed_tokens", jnum (lg_billed_tokens l));
          ("failed_trial_tokens", jnum (lg_failed_trial_tokens l)); ("retry_tokens", jnum (lg_retry_tokens l));
          ("recovery_tokens", jnum (lg_recovery_tokens l)); ("reexpansion_tokens", jnum (lg_reexpansion_tokens l));
          ("fallback_tokens", jnum (lg_fallback_tokens l)); ("model_output_tokens", jnum (lg_model_output_tokens l));
          ("model_calls", jnum (lg_model_calls l)); ("retries", jnum (lg_retries l));
          ("fresh_work", jfresh (lg_fresh_work l)); ("fresh_work_actions", jnum (lg_fresh_work_actions l))].
Definition jreceipt (r : DominanceReceipt) : Value :=
  Object [("schema_version", jnum (dr_schema_version r)); ("ledger", jledger (dr_ledger r));
          ("racc_input_tokens", jnum (dr_racc_input_tokens r));
          ("target_retained_ppm", jnum (dr_target_retained_ppm r));
          ("archive_root", jledger_digest (dr_archive_root r));
          ("certificate_root", jledger_digest (dr_certificate_root r)); ("byte_exact", Bool (dr_byte_exact r));
          ("policy_exact_or_fallback", Bool (dr_policy_exact_or_fallback r));
          ("task_verified", Bool (dr_task_verified r))].
Definition to_canonical_json (r : DominanceReceipt) : string := canonical_json json_string (jreceipt r).
Definition canonical_digest_hex (r : DominanceReceipt) : string :=
  Sha256Digest_to_hex (sha256 (string_bytes (to_canonical_json r))).
End Receipts.

(** * Exposure accounts *)

(** [u128] arithmetic wraps in release builds. *)
Definition wrap_u128 (n : N) : N := (n mod 2 ^ 128)%N.

Record ExposureBlock := mkBlock { eb_block_tokens : N; eb_raw_exposures : N; eb_racc_exposures : N }.
Record ExposureAccount := mkAccount {
  ea_raw_fixed_overhead : N; ea_racc_fixed_overhead : N; ea_blocks : list ExposureBlock }.

Definition exposure_cost (a : ExposureAccount) (overhead : N) (multiplicity : ExposureBlock -> N) : L N :=
  reject? (length (ea_blocks a) =? 0)%nat with EmptyExposureAccount in
  Ok (foldl (fun total b => wrap_u128 (total + eb_block_tokens b * multiplicity b)) overhead (ea_blocks a)).

Definition raw_cost (a : ExposureAccount) : L N := exposure_cost a (ea_raw_fixed_overhead a) eb_raw_exposures.
Definition racc_cost (a : ExposureAccount) : L N := exposure_cost a (ea_racc_fixed_overhead a) eb_racc_exposures.

Definition wrapping_sum (l : list N) : N := foldl (fun s x => wrap_u128 (s + x)) 0%N l.
Definition block_tokens_total (a : ExposureAccount) : N := wrapping_sum (eb_block_tokens <$> ea_blocks a).
Definition weighted_racc_exposure (a : ExposureAccount) : N :=
  wrapping_sum ((fun b => eb_block_tokens b * eb_racc_exposures b)%N <$> ea_blocks a).
Definition weighted_raw_exposure (a : ExposureAccount) : N :=
  wrapping_sum ((fun b => eb_block_tokens b * eb_raw_exposures b)%N <$> ea_blocks a).

Definition check_replay_identity (a : ExposureAccount) (l : TokenLedger) : L () :=
  let? racc_actual := check_accounting_complete l in
  let? raw_expected := raw_cost a in
  let? racc_expected := racc_cost a in
  guard? (lg_raw_input_tokens l =? raw_expected)%N
    else ReplayIdentityMismatch Raw raw_expected (lg_raw_input_tokens l) in
  guard? (racc_actual =? racc_expected)%N else ReplayIdentityMismatch Racc racc_expected racc_actual in
  Ok ().

Definition saving_ppm_floor (a : ExposureAccount) : L N :=
  let? raw := raw_cost a in
  reject? (raw =? 0)%N with EmptyExposureAccount in
  let? racc := racc_cost a in
  if (raw <=? racc)%N then Ok 0%N
  else
    let ppm := (wrap_u128 ((raw - racc) * PPM_ONE) / raw)%N in
    Ok (if (ppm <=? U32_MAX)%N then ppm else PPM_ONE).

Definition exact_saving_ratio (a : ExposureAccount) : L (N * N) :=
  let? raw := raw_cost a in
  reject? (raw =? 0)%N with EmptyExposureAccount in
  let? racc := racc_cost a in
  Ok ((raw - racc)%N, raw).

(** * Rounding up *)

#[local] Open Scope N_scope.

Lemma div_ceil_le a b t : 0 < b -> div_ceil a b <= t <-> a <= b * t.
Proof.
  intros Hb. unfold div_ceil. pose proof (N.div_mod a b ltac:(lia)) as Hd.
  pose proof (N.mod_lt a b ltac:(lia)) as Hm. set (q := a / b) in *. clearbody q.
  set (m := a mod b) in *. clearbody m. destruct (N.eqb_spec m 0); split; intros H; try nia.
Qed.

(** * Theorems

    Guarantees of the token ledger: a gauge after any sequence of charges is
    the sum of the accepted ones with every token classified exactly once, and
    a valid receipt is backed by evidence and an exact comparison of the
    charged and raw tokens. *)

(** * Checked sums *)

Lemma add_Ok a b name n : add a b name = Ok n <-> n = a + b /\ a + b <= U64_MAX.
Proof.
  unfold add. rewrite <- checked_add_u64_exact.
  destruct (checked_add_u64 a b); cbn; split; congruence.
Qed.

Lemma sum_named_Ok l t n :
  t <= U64_MAX -> sum_named l t = Ok n <-> n = t + sum_of snd l /\ t + sum_of snd l <= U64_MAX.
Proof.
  revert t. induction l as [|[name x] l IH]; intros t Ht; cbn.
  - split; [intros [= <-]|intros [-> _]; f_equal]; [split|]; lia.
  - split.
    + intros H. apply bind_Ok_inv in H as (s & Hs & H). apply add_Ok in Hs as [-> Hs].
      apply IH in H as [-> H]; [|done]. split; lia.
    + intros [-> H]. rewrite (proj2 (add_Ok t x name (t + x))) by (split; [done|lia]). cbn.
      apply IH; [lia|split; lia].
Qed.

Definition class_sum (f : ChargeClass -> N) : N := sum_of f ChargeClass_ALL.

Lemma sum_of_named (f : ChargeClass -> N) :
  sum_of snd ((fun c => (counter_name c, f c)) <$> ChargeClass_ALL) = class_sum f.
Proof. reflexivity. Qed.

Lemma racc_input_Ok l n :
  racc_input_tokens l = Ok n <->
  n = class_sum (ledger_class_tokens l) /\ class_sum (ledger_class_tokens l) <= U64_MAX.
Proof. unfold racc_input_tokens. rewrite sum_named_Ok by done. by rewrite sum_of_named. Qed.

Lemma check_accounting_Ok l n :
  check_accounting_complete l = Ok n <->
  n = lg_declared_input_tokens l /\ class_sum (ledger_class_tokens l) = lg_declared_input_tokens l /\
  lg_declared_input_tokens l <= U64_MAX.
Proof.
  unfold check_accounting_complete. split.
  - intros H. apply bind_Ok_inv in H as (c & Hc & H). apply racc_input_Ok in Hc as [-> Hc].
    rewrite !reject_Ok in H. destruct H as (H1 & H2 & [= <-]). breflect. split_and!; lia.
  - intros (-> & Hs & Hle).
    rewrite (proj2 (racc_input_Ok l (lg_declared_input_tokens l))) by (split; lia). cbn.
    by rewrite N.ltb_irrefl.
Qed.

(** * Charges *)

(** What a charge declares is what its classes sum to. *)
Definition classified (c : TokenCharge) : Prop := class_sum (charge_class_tokens c) = ch_input_tokens c.
(** A declared decomposition of the work sums to the charged input. *)
Definition decomposed (c : TokenCharge) : Prop :=
  is_declared (ch_fresh_work c) = true ->
  sum_of (component_tokens (ch_fresh_work c)) FreshWorkComponent_ALL = ch_input_tokens c.

Lemma component_sum_Ok v n :
  component_sum v = Ok n <->
  n = sum_of (component_tokens v) FreshWorkComponent_ALL /\
  sum_of (component_tokens v) FreshWorkComponent_ALL <= U64_MAX.
Proof. unfold component_sum. by rewrite sum_named_Ok by done. Qed.

Lemma check_classification_Ok c n :
  check_classification c = Ok n -> classified c /\ decomposed c /\ n = ch_input_tokens c.
Proof.
  unfold check_classification, classified_tokens. intros H. apply bind_Ok_inv in H as (k & Hk & H).
  apply sum_named_Ok in Hk as [Hk Hle]; [|done]. rewrite sum_of_named in Hk, Hle.
  rewrite !reject_Ok, bind_unit_Ok in H. destruct H as (H1 & H2 & Hf & [= <-]). breflect.
  assert (k = ch_input_tokens c) as Hki by lia. split_and!; [|intros Hd|done].
  - red. change (class_sum (charge_class_tokens c) = ch_input_tokens c). lia.
  - unfold check_fresh_work in Hf. rewrite Hd in Hf. cbn [negb] in Hf.
    apply bind_Ok_inv in Hf as (d & Hcs & Hf). apply component_sum_Ok in Hcs as [-> _].
    rewrite guard_Ok in Hf. destruct Hf as [Hf _]. breflect. lia.
Qed.

(** The counters of a ledger and of a charge, as functions of one index. *)
Inductive Counter := CRaw | CDeclared | CClass (c : ChargeClass) | COutput | CCalls | CRetries
  | CFresh (c : FreshWorkComponent).
Definition ledger_counter (l : TokenLedger) (k : Counter) : N :=
  match k with
  | CRaw => lg_raw_input_tokens l | CDeclared => lg_declared_input_tokens l
  | CClass c => ledger_class_tokens l c | COutput => lg_model_output_tokens l
  | CCalls => lg_model_calls l | CRetries => lg_retries l
  | CFresh c => component_tokens (lg_fresh_work l) c end.
Definition charge_counter (t : TokenCharge) (k : Counter) : N :=
  match k with
  | CRaw => ch_raw_input_tokens t | CDeclared => ch_input_tokens t
  | CClass c => charge_class_tokens t c | COutput => ch_model_output_tokens t
  | CCalls => ch_model_calls t | CRetries => ch_retries t
  | CFresh c => component_tokens (ch_fresh_work t) c end.

(** The total of a work vector is the sum of its components. *)
Definition fresh_total (v : FreshWorkVector) : Prop :=
  fw_total_tokens v = sum_of (component_tokens v) FreshWorkComponent_ALL /\ fw_total_tokens v <= U64_MAX.

Lemma merge_Ok v w m :
  merge v w = Ok m ->
  fresh_total m /\ forall c, component_tokens m c = component_tokens v c + component_tokens w c
                             /\ component_tokens m c <= U64_MAX.
Proof.
  unfold merge. intros H. apply bind_Ok_inv in H as (m' & Hm & H). apply bind_Ok_inv in H as (t & Ht & [= <-]).
  apply component_sum_Ok in Ht as [Ht Hle]. destruct v, w, m'; cbn in Hm.
  repeat (apply bind_Ok_inv in Hm as (? & Ha & Hm); apply add_Ok in Ha as [-> ?]). injection Hm as <- <- <- <- <-.
  split; [split; [exact Ht|rewrite Ht; exact Hle]|]. by intros [].
Qed.

Lemma accumulate_Ok c l t :
  accumulate c l = Ok t ->
  (forall k, charge_counter t k = ledger_counter l k + charge_counter c k /\ charge_counter t k <= U64_MAX) /\
  fresh_total (ch_fresh_work t).
Proof.
  unfold accumulate. intros H.
  do 11 (apply bind_Ok_inv in H as (? & Ha & H); apply add_Ok in Ha as [-> ?]).
  apply bind_Ok_inv in H as (m & Hm & [= <-]). apply merge_Ok in Hm as [Ht Hm].
  split; [|done]. intros [| |[]| | | |k]; first [done|apply Hm].
Qed.

(** An accepted charge: pinned tokenizer, classified, and every counter of the
    gauge advanced by it within [u64]. *)
Lemma charge_Ok g t c g' :
  charge g t c = Ok g' ->
  t = tokenizer (rg_config g) /\ classified c /\ decomposed c /\
  rg_config g' = rg_config g /\ lg_tokenizer (rg_ledger g') = lg_tokenizer (rg_ledger g) /\
  rg_charges g' = rg_charges g + 1 /\ rg_charges g' <= U64_MAX /\
  (forall k, ledger_counter (rg_ledger g') k = ledger_counter (rg_ledger g) k + charge_counter c k
             /\ ledger_counter (rg_ledger g') k <= U64_MAX) /\
  fresh_total (lg_fresh_work (rg_ledger g')).
Proof.
  unfold charge, check_tokenizer. intros H. rewrite bind_unit_Ok, guard_Ok in H. destruct H as [[Ht _] H].
  apply bind_Ok_inv in H as (n & Hn & H). apply check_classification_Ok in Hn as (Hc & Hd & _).
  apply bind_Ok_inv in H as (t' & Hacc & H). apply accumulate_Ok in Hacc as [Hk Hf].
  apply bind_Ok_inv in H as (a & _ & H). apply bind_Ok_inv in H as (k & Hch & [= <-]).
  apply add_Ok in Hch as [-> Hch]. breflect. split_and!; done.
Qed.

(** * Histories

    [charge] takes the gauge by mutable reference and writes it only at its
    end, so a refused charge leaves it as it was. *)
Definition submit (g : ResourceGauge) (tc : TokenizerIdentity * TokenCharge) : ResourceGauge :=
  match charge g tc.1 tc.2 with Ok g' => g' | Err _ => g end.
Fixpoint submit_all (g : ResourceGauge) (h : list (TokenizerIdentity * TokenCharge)) : ResourceGauge :=
  match h with [] => g | tc :: h' => submit_all (submit g tc) h' end.
Fixpoint accepted (g : ResourceGauge) (h : list (TokenizerIdentity * TokenCharge)) : list TokenCharge :=
  match h with
  | [] => []
  | tc :: h' => (if is_ok (charge g tc.1 tc.2) then [tc.2] else []) ++ accepted (submit g tc) h'
  end.

Record gauge_inv (cfg : LedgerConfig) (l : list TokenCharge) (g : ResourceGauge) : Prop := mkInv {
  gi_config : rg_config g = cfg;
  gi_tokenizer : lg_tokenizer (rg_ledger g) = tokenizer cfg;
  gi_charges : rg_charges g = N.of_nat (length l);
  gi_counters : forall k, ledger_counter (rg_ledger g) k = sum_of (fun c => charge_counter c k) l;
  gi_widths : forall k, ledger_counter (rg_ledger g) k <= U64_MAX;
  gi_fresh : fresh_total (lg_fresh_work (rg_ledger g));
  gi_classified : Forall (fun c => classified c /\ decomposed c) l }.

Lemma gauge_inv_new cfg : gauge_inv cfg [] (ResourceGauge_new cfg).
Proof. split; try done; by intros [| |[]| | | |[]]. Qed.

Lemma gauge_inv_charge cfg l g t c g' :
  gauge_inv cfg l g -> charge g t c = Ok g' -> gauge_inv cfg (l ++ [c]) g'.
Proof.
  intros [] (Ht & Hc & Hd & Hcfg & Htok & Hn & Hw & Hk & Hf)%charge_Ok. split.
  - congruence.
  - congruence.
  - rewrite Hn, gi_charges0, length_app. cbn. lia.
  - intros k. rewrite sum_of_snoc, <- gi_counters0. apply Hk.
  - intros k. apply Hk.
  - done.
  - apply Forall_app. by rewrite Forall_singleton.
Qed.

Lemma gauge_inv_history cfg h : forall l g,
  gauge_inv cfg l g -> gauge_inv cfg (l ++ accepted g h) (submit_all g h).
Proof.
  induction h as [|[t c] h IH]; intros l g Hg; cbn; [by rewrite app_nil_r|].
  unfold submit; cbn. destruct (charge g t c) as [g'|e] eqn:Hc; cbn.
  - rewrite cons_middle, app_assoc. apply IH. by eapply gauge_inv_charge.
  - by apply IH.
Qed.

Lemma gauge_inv_reached cfg h :
  gauge_inv cfg (accepted (ResourceGauge_new cfg) h) (submit_all (ResourceGauge_new cfg) h).
Proof. apply (gauge_inv_history cfg h []), gauge_inv_new. Qed.

(** Classified charges make a classified ledger. *)
Lemma gauge_inv_accounting cfg l g :
  gauge_inv cfg l g ->
  check_accounting_complete (rg_ledger g) = Ok (lg_declared_input_tokens (rg_ledger g)).
Proof.
  intros [_ _ _ Hk Hw _ Hc]. apply check_accounting_Ok. split_and!; [done| |apply (Hw CDeclared)].
  rewrite (Hk CDeclared : lg_declared_input_tokens (rg_ledger g) = _). unfold class_sum.
  rewrite (sum_of_ext _ (fun k => sum_of (fun c => charge_class_tokens c k) l)) by (intros k _; apply (Hk (CClass k))).
  rewrite (sum_of_swap (fun k c => charge_class_tokens c k)). apply sum_of_ext. intros c Hin.
  rewrite Forall_forall in Hc. apply Hc. by apply list_elem_of_In.
Qed.

(** After any sequence of charges, accepted or refused, a gauge counts
    exactly the accepted ones: every counter (raw, declared, each class,
    output, calls, retries and each component of the work) is the sum over the
    accepted charges and fits [u64]; each accepted charge was classified
    exactly once and its declared decomposition sums to its input; and the
    gauge's own check of exactly-once classification never fails. *)
Theorem gauge_counts_accepted_charges (cfg : LedgerConfig) (h : list (TokenizerIdentity * TokenCharge)) :
  let g := submit_all (ResourceGauge_new cfg) h in
  let l := accepted (ResourceGauge_new cfg) h in
  (forall k, ledger_counter (rg_ledger g) k = sum_of (fun c => charge_counter c k) l /\
             ledger_counter (rg_ledger g) k <= U64_MAX) /\
  rg_charges g = N.of_nat (length l) /\
  Forall (fun c => classified c /\ decomposed c) l /\
  check_accounting_complete (rg_ledger g) = Ok (sum_of ch_input_tokens l) /\
  fresh_total (lg_fresh_work (rg_ledger g)).
Proof.
  intros g l. pose proof (gauge_inv_reached cfg h) as Hg. fold g l in Hg.
  pose proof (gauge_inv_accounting _ _ _ Hg) as Ha. destruct Hg as [_ _ Hn Hk Hw Hf Hc].
  split_and!; try done. rewrite Ha. f_equal. apply (Hk CDeclared).
Qed.

(** * Receipts *)

Section ReceiptTheorems.
Context `{Platform}.

(** The evidence presented for each gate, the latest where it was raised again. *)
Record Presented := mkPresented {
  pr_spans : option (list Digest); pr_decisions : option (list PolicyDecision); pr_outcomes : option (list TaskOutcome) }.

(** The gates a caller can hold: raised only by handles whose evidence
    verified. *)
Inductive gates_earned : ExactnessGates -> Presented -> Prop :=
| earned_default : gates_earned ExactnessGates_default (mkPresented None None None)
| earned_byte g e root spans a :
    gates_earned g e -> ArchiveAttestation_verify root spans = Ok a ->
    gates_earned (with_byte_exact g a) (mkPresented (Some spans) (pr_decisions e) (pr_outcomes e))
| earned_policy g e root ds a :
    gates_earned g e -> PolicyEvidence_verify root ds = Ok a ->
    gates_earned (with_policy_exact_or_fallback g a) (mkPresented (pr_spans e) (Some ds) (pr_outcomes e))
| earned_task g e root os a :
    gates_earned g e -> TaskAcceptanceReceipt_verify root os = Ok a ->
    gates_earned (with_task_verified g a) (mkPresented (pr_spans e) (pr_decisions e) (Some os)).

(** What was presented is never empty, and every task of it was accepted. *)
Definition evidence_sound (e : Presented) : Prop :=
  option_wf (fun spans => spans <> []) (pr_spans e) /\ option_wf (fun ds => ds <> []) (pr_decisions e) /\
  option_wf (fun os => os <> [] /\ Forall (fun o => is_accepted o = true) os) (pr_outcomes e).

Lemma verify_root_Ok {A} kind (root_of : list A -> Digest) root l a :
  verify_root kind root_of root l = Ok a -> a = root_of l.
Proof. unfold verify_root. rewrite guard_Ok. intros [H1 [= <-]]. by breflect. Qed.

Lemma nonempty_length {A} (l : list A) : (length l =? 0)%nat = false -> l <> [].
Proof. by destruct l. Qed.

Lemma gates_backed g e :
  gates_earned g e ->
  eg_byte_exact g = archive_root_of <$> pr_spans e /\ eg_policy_exact_or_fallback g = policy_root_of <$> pr_decisions e /\
  eg_task_verified g = task_root_of <$> pr_outcomes e /\ evidence_sound e.
Proof.
  unfold evidence_sound.
  induction 1 as [|g e root l a _ IH Hv|g e root l a _ IH Hv|g e root l a _ IH Hv]; [done|..];
    destruct IH as (? & ? & ? & ? & ? & ?).
  - unfold ArchiveAttestation_verify in Hv. rewrite reject_Ok in Hv. destruct Hv as [Hn ->%verify_root_Ok].
    split_and!; cbn; try done. by apply nonempty_length.
  - unfold PolicyEvidence_verify in Hv. rewrite reject_Ok in Hv. destruct Hv as [Hn ->%verify_root_Ok].
    split_and!; cbn; try done. by apply nonempty_length.
  - unfold TaskAcceptanceReceipt_verify in Hv. rewrite reject_Ok, guard_Ok in Hv.
    destruct Hv as (Hn & Ha & ->%verify_root_Ok). split_and!; cbn; try done.
    split; [by apply nonempty_length|]. apply Forall_forall. rewrite forallb_forall in Ha. intros o Ho. by apply Ha.
Qed.

Lemma other_root_None gate root : other_root gate root = None <-> gate = None \/ gate = Some root.
Proof.
  destruct gate as [r|]; [|split; auto]. cbn. case_bool_decide as Hr; split; intros Hd.
  - right. congruence.
  - done.
  - done.
  - destruct Hd; congruence.
Qed.

Lemma other_root_Some gate root r : other_root gate root = Some r <-> gate = Some r /\ r <> root.
Proof.
  destruct gate as [r'|]; [|split; [done|by intros []]]. cbn. case_bool_decide as Hr; split; intros Hd.
  - done.
  - destruct Hd. congruence.
  - split; congruence.
  - by destruct Hd as [-> _].
Qed.

(** A receipt over a counted gauge: the comparison it makes. *)
Lemma meets_target_sealed r n :
  0 < lg_raw_input_tokens (dr_ledger r) -> racc_input_tokens (dr_ledger r) = Ok n -> dr_racc_input_tokens r = n ->
  meets_token_target r = (n * PPM_ONE <=? lg_raw_input_tokens (dr_ledger r) * dr_target_retained_ppm r) /\
  achieved_retained_ppm_ceil r = Some (div_ceil (n * PPM_ONE) (lg_raw_input_tokens (dr_ledger r))).
Proof.
  intros Hraw Hr <-. unfold meets_token_target, achieved_retained_ppm_ceil.
  destruct (N.eqb_spec (lg_raw_input_tokens (dr_ledger r)) 0); [lia|]. rewrite Hr. by rewrite N.eqb_refl.
Qed.

(** What a receipt over the accepted charges [l] and the presented evidence says. *)
Record receipt_truth (l : list TokenCharge) (target : N) (e : Presented) (r : DominanceReceipt) : Prop := mkTruth {
  rt_exposure : dr_racc_input_tokens r = sum_of ch_input_tokens l;
  rt_raw : 0 < sum_of ch_raw_input_tokens l;
  rt_target : meets_token_target r = true <->
    sum_of ch_input_tokens l * PPM_ONE <= sum_of ch_raw_input_tokens l * target;
  rt_achieved : exists p, achieved_retained_ppm_ceil r = Some p /\ (meets_token_target r = true <-> p <= target);
  rt_valid : exact_phase_valid r = true <->
    archive_root_of <$> pr_spans e = Some (dr_archive_root r) /\
    policy_root_of <$> pr_decisions e = Some (dr_certificate_root r) /\
    is_Some (pr_outcomes e) /\
    sum_of ch_input_tokens l * PPM_ONE <= sum_of ch_raw_input_tokens l * target;
  rt_sound : evidence_sound e }.

Lemma seal_truth cfg l g target roots gates e r :
  gauge_inv cfg l g -> gates_earned gates e -> seal (rg_ledger g) target roots gates = Ok r ->
  receipt_truth l target e r.
Proof.
  intros Hg He Hs. pose proof (gauge_inv_accounting _ _ _ Hg) as Ha.
  destruct Hg as [_ _ _ Hk Hw _ _]. 
  pose proof (Hk CRaw : lg_raw_input_tokens (rg_ledger g) = sum_of ch_raw_input_tokens l) as Hraw.
  pose proof (Hk CDeclared : lg_declared_input_tokens (rg_ledger g) = sum_of ch_input_tokens l) as Hdecl.
  destruct (gates_backed gates e He) as (Hb & Hp & Ht & Hsound).
  pose proof Ha as (_ & Hsum & Hle)%check_accounting_Ok.
  unfold seal in Hs. rewrite reject_Ok, Ha in Hs. destruct Hs as [Hz Hs]. cbn in Hs. breflect.
  destruct (other_root (eg_byte_exact gates) _) eqn:Hob; [done|].
  destruct (other_root (eg_policy_exact_or_fallback gates) _) eqn:Hop; [done|].
  apply other_root_None in Hob, Hop. injection Hs as <-.
  edestruct (meets_target_sealed (mkReceipt RECEIPT_SCHEMA_VERSION (rg_ledger g)
    (lg_declared_input_tokens (rg_ledger g)) target (rr_archive_root roots) (rr_certificate_root roots)
    (is_some (eg_byte_exact gates)) (is_some (eg_policy_exact_or_fallback gates))
    (is_some (eg_task_verified gates)))) as [Hm Hach]; cbn; [|apply racc_input_Ok; split; [symmetry; exact Hsum|lia]|done|].
  { lia. }
  assert (Htgt : forall x, (lg_declared_input_tokens (rg_ledger g) * PPM_ONE <=? lg_raw_input_tokens (rg_ledger g) * x) = true
    <-> sum_of ch_input_tokens l * PPM_ONE <= sum_of ch_raw_input_tokens l * x).
  { intros x. rewrite N.leb_le, Hraw, Hdecl. done. }
  split; cbn [dr_racc_input_tokens dr_archive_root dr_certificate_root].
  - done.
  - lia.
  - rewrite Hm. apply Htgt.
  - eexists. split; [exact Hach|]. rewrite Hm. cbn. rewrite N.leb_le. symmetry. apply div_ceil_le. lia.
  - unfold exact_phase_valid. rewrite Hm. cbn. rewrite !andb_true_iff, Htgt. split.
    + intros (((H1 & H2) & H3) & H4). split_and!; [| | |done].
      * rewrite <- Hb. destruct (eg_byte_exact gates); [|done]. by destruct Hob.
      * rewrite <- Hp. destruct (eg_policy_exact_or_fallback gates); [|done]. by destruct Hop.
      * rewrite Ht in H3. by destruct (pr_outcomes e).
    + rewrite <- Hb, <- Hp, Ht. intros (-> & -> & (os & ->) & H4). by split_and!.
  - done.
Qed.

(** C34: Sealing a gauge reached by any sequence of charges, with gates raised
    only by presenting evidence that verified, always decides.  A receipt
    reports the charged input and compares it exactly with the raw input at the
    target, and its reported ceiling agrees with that comparison.  It is valid
    for the exact phase exactly when the target is met, spans and policy
    decisions were presented whose roots are the receipt's own, and task
    outcomes were presented; what was presented is nonempty and all its tasks
    were accepted.  A refusal means nothing was charged or no raw input was
    measured, or that a gate holds evidence for another root.  The accounting
    check never refuses. *)
Theorem receipts_tell_the_truth (cfg : LedgerConfig) (h : list (TokenizerIdentity * TokenCharge))
  (target : N) (roots : ReceiptRoots) (gates : ExactnessGates) (e : Presented) :
  gates_earned gates e ->
  let l := accepted (ResourceGauge_new cfg) h in
  match finalize_receipt (submit_all (ResourceGauge_new cfg) h) target roots gates with
  | Ok r => receipt_truth l target e r
  | Err IncompleteLedger => sum_of ch_raw_input_tokens l = 0
  | Err (Accounting _) => False
  | Err (EvidenceRootMismatch _ root other) =>
      other <> root /\
      (eg_byte_exact gates = Some other /\ root = rr_archive_root roots \/
       eg_policy_exact_or_fallback gates = Some other /\ root = rr_certificate_root roots)
  end.
Proof.
  intros He l. pose proof (gauge_inv_reached cfg h) as Hg. fold l in Hg.
  set (g := submit_all _ h) in *. clearbody g l. unfold finalize_receipt.
  pose proof (gauge_inv_accounting _ _ _ Hg) as Ha.
  pose proof (gi_counters _ _ _ Hg CRaw : lg_raw_input_tokens (rg_ledger g) = sum_of ch_raw_input_tokens l) as Hraw.
  destruct (N.eqb_spec (rg_charges g) 0) as [Hc|Hc].
  { rewrite (gi_charges _ _ _ Hg) in Hc. by destruct l. }
  destruct (seal (rg_ledger g) target roots gates) as [r|x] eqn:Hs; [by eapply seal_truth|].
  unfold seal in Hs. destruct (N.eqb_spec (lg_raw_input_tokens (rg_ledger g)) 0) as [Hz|Hz].
  { injection Hs as <-. congruence. }
  rewrite Ha in Hs. cbn in Hs.
  destruct (other_root (eg_byte_exact gates) _) as [o|] eqn:Ho.
  { injection Hs as <-. apply other_root_Some in Ho as [Ho Hne]. auto. }
  destruct (other_root (eg_policy_exact_or_fallback gates) _) as [o|] eqn:Hp; [|done].
  injection Hs as <-. apply other_root_Some in Hp as [Hp Hne]. auto.
Qed.
End ReceiptTheorems.
