(* ===== verification/CausalWork.v ===== *)
(** Exclusive causal-work receipts ([zero-ledger/src/causal_work.rs]): one
    parent-measured counter window, one class per work unit, an explicit
    residue policy; with the correspondence receipts of native counters and
    the reading of the legacy classes.  Serialising a receipt cannot fail for
    these types, so [CausalWorkError::Json] never arises and
    [compute_digest] returns its digest. *)

From S2P Require Import Prelude.
From S2P Require Import Canonical.
From S2P Require Import DurableStore.
From S2P Require Import Ordering.
From S2P Require Import Identity.
From S2P Require Import Sums.

Definition CAUSAL_WORK_TAXONOMY_VERSION : N := 3.
Definition CAUSAL_WORK_RECEIPT_SCHEMA : N := 1.
Definition CAUSAL_WORK_MAX_CHARGES : N := 65536.
Definition CAUSAL_WORK_MAX_ID_BYTES : nat := 256.

Inductive CausalWorkClass :=
| Candidate | Verification | Comparison | Baseline | Fallback | Restoration | Prewarm | Residue.
#[global] Instance CausalWorkClass_eq_dec : EqDecision CausalWorkClass.
Proof. solve_decision. Defined.
Definition CausalWorkClass_ALL : list CausalWorkClass :=
  [Candidate; Verification; Comparison; Baseline; Fallback; Restoration; Prewarm; Residue].
Definition CausalWorkClass_as_str (c : CausalWorkClass) : string :=
  match c with
  | Candidate => "candidate" | Verification => "verification" | Comparison => "comparison"
  | Baseline => "baseline" | Fallback => "fallback" | Restoration => "restoration"
  | Prewarm => "prewarm" | Residue => "residue" end.
(** The derived order is the order of declaration. *)
Definition class_index (c : CausalWorkClass) : N :=
  match c with
  | Candidate => 0 | Verification => 1 | Comparison => 2 | Baseline => 3
  | Fallback => 4 | Restoration => 5 | Prewarm => 6 | Residue => 7 end.

Inductive CausalCounterUnit :=
| Tokens | Bytes | Calls | CpuNanoseconds | WallNanoseconds | AllocatedBytes | IoBytes.
#[global] Instance CausalCounterUnit_eq_dec : EqDecision CausalCounterUnit.
Proof. solve_decision. Defined.
Definition unit_str (u : CausalCounterUnit) : string :=
  match u with
  | Tokens => "tokens" | Bytes => "bytes" | Calls => "calls" | CpuNanoseconds => "cpu_nanoseconds"
  | WallNanoseconds => "wall_nanoseconds" | AllocatedBytes => "allocated_bytes" | IoBytes => "io_bytes" end.

Record ParentCounterIdentity := mkIdentity {
  pi_counter_id : string;
  pi_unit : CausalCounterUnit;
  pi_boundary_digest : Digest;
  pi_adapter_digest : Digest;
  pi_platform_profile_digest : Digest }.
#[global] Instance ParentCounterIdentity_eq_dec : EqDecision ParentCounterIdentity.
Proof. solve_decision. Defined.

Record ParentCounterWindow := mkWindow { pw_identity : ParentCounterIdentity; pw_start : N; pw_end : N }.

Inductive ParentCounterObservation :=
| ObservationMeasured (window : ParentCounterWindow)
| ObservationUnmeasured (identity : ParentCounterIdentity) (reason : string).

Record CausalWorkCharge := mkWork { cw_work_unit_id : Digest; cw_class : CausalWorkClass; cw_amount : N }.
#[global] Instance CausalWorkCharge_eq_dec : EqDecision CausalWorkCharge.
Proof. solve_decision. Defined.
#[global] Instance CausalWorkCharge_ord : Ord CausalWorkCharge :=
  cmp_via (fun c => (cw_work_unit_id c, (class_index (cw_class c), cw_amount c))).

Inductive ResiduePolicy :=
| RejectUnclassified
| AssignToResidue (policy_id : string) (policy_digest residue_work_unit_id : Digest).

Inductive CausalWorkError :=
| UnsupportedVersion
| CounterRegressed (start stop : N)
| CounterOverflow
| InvalidText (field : string)
| TooManyCharges
| DoubleClassifiedWorkUnit (id : Digest)
| ZeroAmountCharge (id : Digest)
| ChargesForUnmeasuredCounter
| ResidueWithoutPolicy
| UnclassifiedWork (amount : N)
| NonConservation (observed classified : N)
| NonCanonicalCharges
| ClassTotalsMismatch
| ReceiptDigestMismatch
| CounterCorrespondenceMismatch
| JsonError.
Notation CW := (result CausalWorkError).

Definition delta (w : ParentCounterWindow) : CW N :=
  reject? (pw_end w <? pw_start w)%N with CounterRegressed (pw_start w) (pw_end w) in
  Ok (pw_end w - pw_start w)%N.

Definition validate_text (field text : string) : CW () :=
  reject? (String.length text =? 0)%nat || (CAUSAL_WORK_MAX_ID_BYTES <? String.length text)%nat ||
          has_control (string_bytes text)
    with InvalidText field in
  Ok ().
Definition validate_identity (i : ParentCounterIdentity) : CW () := validate_text "counter_id" (pi_counter_id i).

(** * Class totals *)

Record CausalClassTotals := mkTotals {
  ct_candidate : N; ct_verification : N; ct_comparison : N; ct_baseline : N;
  ct_fallback : N; ct_restoration : N; ct_prewarm : N; ct_residue : N }.
#[global] Instance CausalClassTotals_eq_dec : EqDecision CausalClassTotals.
Proof. solve_decision. Defined.
Definition CausalClassTotals_default : CausalClassTotals := mkTotals 0 0 0 0 0 0 0 0.

Definition class_total (t : CausalClassTotals) (c : CausalWorkClass) : N :=
  match c with
  | Candidate => ct_candidate t | Verification => ct_verification t | Comparison => ct_comparison t
  | Baseline => ct_baseline t | Fallback => ct_fallback t | Restoration => ct_restoration t
  | Prewarm => ct_prewarm t | Residue => ct_residue t end.
Definition set_class (t : CausalClassTotals) (c : CausalWorkClass) (n : N) : CausalClassTotals :=
  match t with
  | mkTotals a b d e f g h i =>
      match c with
      | Candidate => mkTotals n b d e f g h i | Verification => mkTotals a n d e f g h i
      | Comparison => mkTotals a b n e f g h i | Baseline => mkTotals a b d n f g h i
      | Fallback => mkTotals a b d e n g h i | Restoration => mkTotals a b d e f n h i
      | Prewarm => mkTotals a b d e f g n i | Residue => mkTotals a b d e f g h n end
  end.
Definition totals_add (t : CausalClassTotals) (c : CausalWorkClass) (amount : N) : CW CausalClassTotals :=
  let? n := ok_or (checked_add_u64 (class_total t c) amount) CounterOverflow in
  Ok (set_class t c n).

Fixpoint total_loop (t : CausalClassTotals) (l : list CausalWorkClass) (total : N) : CW N :=
  match l with
  | [] => Ok total
  | c :: rest => let? total := ok_or (checked_add_u64 total (class_total t c)) CounterOverflow in total_loop t rest total
  end.
Definition checked_total (t : CausalClassTotals) : CW N := total_loop t CausalWorkClass_ALL 0.

(** * Receipts *)

Record CausalWorkReceipt := mkCausal {
  cr_schema_version : N;
  cr_taxonomy_version : N;
  cr_assembly_manifest_digest : Digest;
  cr_measurement : ParentCounterWindow;
  cr_residue_policy : ResiduePolicy;
  cr_charges : list CausalWorkCharge;
  cr_class_totals : CausalClassTotals;
  cr_classified_total : N;
  cr_observed_total : N;
  cr_receipt_digest : Digest }.

Inductive CausalWorkOutcome :=
| OutcomeMeasured (receipt : CausalWorkReceipt)
| OutcomeUnmeasured (identity : ParentCounterIdentity) (reason : string).

Definition jidentity (i : ParentCounterIdentity) : Value :=
  Object [("counter_id", VString (pi_counter_id i)); ("unit", VString (unit_str (pi_unit i)));
          ("boundary_digest", jhex (pi_boundary_digest i)); ("adapter_digest", jhex (pi_adapter_digest i));
          ("platform_profile_digest", jhex (pi_platform_profile_digest i))].
Definition jwindow (w : ParentCounterWindow) : Value :=
  Object [("identity", jidentity (pw_identity w)); ("start", jnum (pw_start w)); ("end", jnum (pw_end w))].
Definition jpolicy (p : ResiduePolicy) : Value :=
  match p with
  | RejectUnclassified => Object [("policy", VString "reject_unclassified")]
  | AssignToResidue id d u =>
      Object [("policy", VString "assign_to_residue"); ("policy_id", VString id); ("policy_digest", jhex d);
              ("residue_work_unit_id", jhex u)] end.
Definition jwork (c : CausalWorkCharge) : Value :=
  Object [("work_unit_id", jhex (cw_work_unit_id c)); ("class", VString (CausalWorkClass_as_str (cw_class c)));
          ("amount", jnum (cw_amount c))].
Definition jtotals (t : CausalClassTotals) : Value :=
  Object ((fun c => (CausalWorkClass_as_str c, jnum (class_total t c))) <$> CausalWorkClass_ALL).
(** The receipt object after [remove("receipt_digest")]. *)
Definition jcausal_body (r : CausalWorkReceipt) : Value :=
  Object [("schema_version", jnum (cr_schema_version r)); ("taxonomy_version", jnum (cr_taxonomy_version r));
          ("assembly_manifest_digest", jhex (cr_assembly_manifest_digest r));
          ("measurement", jwindow (cr_measurement r)); ("residue_policy", jpolicy (cr_residue_policy r));
          ("charges", Array (jwork <$> cr_charges r)); ("class_totals", jtotals (cr_class_totals r));
          ("classified_total", jnum (cr_classified_total r)); ("observed_total", jnum (cr_observed_total r))].

Definition has_residue_policy (p : ResiduePolicy) : bool :=
  match p with AssignToResidue _ _ _ => true | RejectUnclassified => false end.
(** The guarded match arm of [validate]. *)
Definition residue_is (p : ResiduePolicy) (id : Digest) : bool :=
  match p with AssignToResidue _ _ u => bool_decide (id = u) | RejectUnclassified => false end.
Definition is_residue (c : CausalWorkCharge) : bool := bool_decide (cw_class c = Residue).

(** The first adjacent pair of equal keys. *)
Fixpoint adjacent_equal {A K} `{EqDecision K} (key : A -> K) (l : list A) : option K :=
  match l with
  | x :: (y :: _) as l' => if bool_decide (key x = key y) then Some (key x) else adjacent_equal key l'
  | _ => None
  end.

(** The loop of [build] over the sorted charges. *)
Fixpoint build_totals (p : ResiduePolicy) (l : list CausalWorkCharge) (t : CausalClassTotals) : CW CausalClassTotals :=
  match l with
  | [] => Ok t
  | c :: rest =>
      reject? (cw_amount c =? 0)%N with ZeroAmountCharge (cw_work_unit_id c) in
      reject? is_residue c && negb (has_residue_policy p) with ResidueWithoutPolicy in
      let? t := totals_add t (cw_class c) (cw_amount c) in
      build_totals p rest t
  end.

(** The loop of [validate], with the units seen so far. *)
Fixpoint validate_charges (p : ResiduePolicy) (l : list CausalWorkCharge) (seen : list Digest)
  (t : CausalClassTotals) : CW CausalClassTotals :=
  match l with
  | [] => Ok t
  | c :: rest =>
      reject? (cw_amount c =? 0)%N with ZeroAmountCharge (cw_work_unit_id c) in
      let '(fresh, seen) := bset_insert (cw_work_unit_id c) seen in
      guard? fresh else DoubleClassifiedWorkUnit (cw_work_unit_id c) in
      reject? is_residue c && negb (residue_is p (cw_work_unit_id c)) with ResidueWithoutPolicy in
      let? t := totals_add t (cw_class c) (cw_amount c) in
      validate_charges p rest seen t
  end.

Definition validate_policy (p : ResiduePolicy) : CW () :=
  match p with
  | AssignToResidue id _ _ => validate_text "residue_policy.policy_id" id
  | RejectUnclassified => Ok () end.

(** The charges and totals once the missing amount is accounted for. *)
Definition settle_residue (p : ResiduePolicy) (charges : list CausalWorkCharge) (t : CausalClassTotals)
  (missing : N) : CW (list CausalWorkCharge * CausalClassTotals) :=
  if negb (missing =? 0)%N then
    match p with
    | RejectUnclassified => Err (UnclassifiedWork missing)
    | AssignToResidue id _ u =>
        let? _ := validate_text "residue_policy.policy_id" id in
        match binary_search_by_key cw_work_unit_id u charges with
        | Some _ => Err (DoubleClassifiedWorkUnit u)
        | None =>
            let charges := sort_by_key cw_work_unit_id (charges ++ [mkWork u Residue missing]) in
            let? t := totals_add t Residue missing in
            Ok (charges, t)
        end
    end
  else
    let? _ := validate_policy p in
    Ok (charges, t).

Section Digests.
Context `{Platform}.

Definition compute_digest (r : CausalWorkReceipt) : Digest :=
  sha256 (string_bytes "zerostack.causal_work_receipt" ++ [byte0] ++ canonical_bytes_of (jcausal_body r)).

Definition CausalWorkReceipt_validate (r : CausalWorkReceipt) : CW () :=
  reject? negb (cr_schema_version r =? CAUSAL_WORK_RECEIPT_SCHEMA)%N ||
          negb (cr_taxonomy_version r =? CAUSAL_WORK_TAXONOMY_VERSION)%N with UnsupportedVersion in
  let? _ := validate_identity (pw_identity (cr_measurement r)) in
  reject? (CAUSAL_WORK_MAX_CHARGES <? N.of_nat (length (cr_charges r)))%N with TooManyCharges in
  let? _ := validate_policy (cr_residue_policy r) in
  let? totals := validate_charges (cr_residue_policy r) (cr_charges r) [] CausalClassTotals_default in
  guard? strictly_ascending (cr_charges r) else NonCanonicalCharges in
  guard? bool_decide (totals = cr_class_totals r) else ClassTotalsMismatch in
  let? observed := delta (cr_measurement r) in
  let? classified := checked_total totals in
  reject? negb (observed =? cr_observed_total r)%N || negb (classified =? cr_classified_total r)%N ||
          negb (observed =? classified)%N
    with NonConservation observed classified in
  guard? bool_decide (compute_digest r = cr_receipt_digest r) else ReceiptDigestMismatch in
  Ok ().

(** [Deserialize for CausalWorkReceipt], from the fields of the wire object. *)
Definition CausalWorkReceipt_from_wire (r : CausalWorkReceipt) : CW CausalWorkReceipt :=
  let? _ := CausalWorkReceipt_validate r in Ok r.

Definition with_receipt_digest (r : CausalWorkReceipt) (d : Digest) : CausalWorkReceipt :=
  mkCausal (cr_schema_version r) (cr_taxonomy_version r) (cr_assembly_manifest_digest r) (cr_measurement r)
    (cr_residue_policy r) (cr_charges r) (cr_class_totals r) (cr_classified_total r) (cr_observed_total r) d.

Definition build_measured (manifest : Digest) (window : ParentCounterWindow) (charges : list CausalWorkCharge)
  (policy : ResiduePolicy) : CW CausalWorkReceipt :=
  let? _ := validate_identity (pw_identity window) in
  reject? (CAUSAL_WORK_MAX_CHARGES <? N.of_nat (length charges))%N with TooManyCharges in
  let charges := sort_by_key cw_work_unit_id charges in
  match adjacent_equal cw_work_unit_id charges with
  | Some id => Err (DoubleClassifiedWorkUnit id)
  | None =>
      let? totals := build_totals policy charges CausalClassTotals_default in
      let? observed := delta window in
      let? before := checked_total totals in
      reject? (observed <? before)%N with NonConservation observed before in
      let? settled := settle_residue policy charges totals (observed - before)%N in
      let '(charges, totals) := settled in
      let? classified := checked_total totals in
      guard? (classified =? observed)%N else NonConservation observed classified in
      let r := mkCausal CAUSAL_WORK_RECEIPT_SCHEMA CAUSAL_WORK_TAXONOMY_VERSION manifest window policy charges
                 totals classified observed ZERO in
      let r := with_receipt_digest r (compute_digest r) in
      let? _ := CausalWorkReceipt_validate r in
      Ok r
  end.

Definition CausalWorkReceipt_build (manifest : Digest) (observation : ParentCounterObservation)
  (charges : list CausalWorkCharge) (policy : ResiduePolicy) : CW CausalWorkOutcome :=
  match observation with
  | ObservationUnmeasured identity reason =>
      let? _ := validate_identity identity in
      let? _ := validate_text "unmeasured.reason" reason in
      guard? (length charges =? 0)%nat else ChargesForUnmeasuredCounter in
      Ok (OutcomeUnmeasured identity reason)
  | ObservationMeasured window =>
      let? r := build_measured manifest window charges policy in
      Ok (OutcomeMeasured r)
  end.

Definition causal_work_contract_manifest : Value :=
  Object [("contract", VString "zerostack.causal_work");
          ("taxonomy_version", jnum CAUSAL_WORK_TAXONOMY_VERSION);
          ("receipt_schema", jnum CAUSAL_WORK_RECEIPT_SCHEMA);
          ("classes", jstrs (CausalWorkClass_as_str <$> CausalWorkClass_ALL));
          ("arithmetic", VString "checked_u64_integer_only");
          ("classification", VString "one_unique_work_unit_id_one_class");
          ("wire_decode", VString "all_receipt_invariants_validated_during_deserialization");
          ("correspondence_decode", VString "validated_constructor_and_deserializer_only");
          ("measurement_namespace", VString "parent_counter_observation");
          ("estimate_namespace", VString "declared_estimate_nonconvertible_to_measurement");
          ("unavailable_counter", VString "unmeasured_not_zero");
          ("residue", VString "reject_or_preregistered_assign_to_residue");
          ("residue_work_unit_id", VString "every_residue_charge_equals_preregistered_id");
          ("legacy", VString "readable_mapping_requires_remeasurement_and_is_not_fact")].
Definition causal_work_contract_digest : Digest := sha256 (canonical_bytes_of causal_work_contract_manifest).
End Digests.

(** * Correspondence of native counters *)

Inductive CounterEvidenceMode := Synthetic | RchCompilation | Native.
Record CounterCorrespondenceReceipt := mkCorrespondence {
  cc_platform_profile : string;
  cc_evidence_mode : CounterEvidenceMode;
  cc_identity : ParentCounterIdentity;
  cc_parent_window : ParentCounterWindow;
  cc_adapter_observed_delta : N;
  cc_adapter_binary_digest : Digest }.

(** The disjunction is evaluated left to right: [delta()?] is read only when
    the identities agree. *)
Definition CounterCorrespondenceReceipt_validate (r : CounterCorrespondenceReceipt) : CW () :=
  let? _ := validate_text "platform_profile" (cc_platform_profile r) in
  let? _ := validate_identity (cc_identity r) in
  guard? bool_decide (pw_identity (cc_parent_window r) = cc_identity r) else CounterCorrespondenceMismatch in
  let? d := delta (cc_parent_window r) in
  guard? (d =? cc_adapter_observed_delta r)%N else CounterCorrespondenceMismatch in
  guard? bool_decide (pi_adapter_digest (cc_identity r) = cc_adapter_binary_digest r)
    else CounterCorrespondenceMismatch in
  Ok ().
Definition CounterCorrespondenceReceipt_new (profile : string) (mode : CounterEvidenceMode)
  (identity : ParentCounterIdentity) (window : ParentCounterWindow) (observed : N) (binary : Digest)
  : CW CounterCorrespondenceReceipt :=
  let r := mkCorrespondence profile mode identity window observed binary in
  let? _ := CounterCorrespondenceReceipt_validate r in
  Ok r.
Definition is_native_evidence (r : CounterCorrespondenceReceipt) : bool :=
  match cc_evidence_mode r with Native => true | _ => false end.

(** * Legacy classes *)

Inductive LegacyChargeClass :=
| LegacyBilled | LegacyFailedTrial | LegacyRetry | LegacyRecovery | LegacyReexpansion | LegacyFallback.
Record LegacyClassMapping := mkLegacy {
  legacy : LegacyChargeClass;
  suggested_causal_class : CausalWorkClass;
  requires_remeasurement : bool;
  measured_fact : bool }.
Definition map_legacy_class (l : LegacyChargeClass) : LegacyClassMapping :=
  mkLegacy l
    (match l with
     | LegacyBilled | LegacyFailedTrial => Candidate
     | LegacyRetry | LegacyReexpansion => Restoration
     | LegacyRecovery => Verification
     | LegacyFallback => Fallback end) true false.

(** * Theorems

    Guarantees of causal-work receipts: exactly which windows, charges and
    policies give a receipt, and that a receipt conserves its measurement. *)

#[local] Open Scope N_scope.

(** * Totals *)

Definition class_amount (c : CausalWorkClass) (w : CausalWorkCharge) : N :=
  if bool_decide (cw_class w = c) then cw_amount w else 0.
Definition amount_in (c : CausalWorkClass) (l : list CausalWorkCharge) : N := sum_of (class_amount c) l.
Definition amount_of (l : list CausalWorkCharge) : N := sum_of cw_amount l.

Lemma CausalWorkClass_ALL_NoDup : NoDup CausalWorkClass_ALL.
Proof. apply (bool_decide_unpack _). vm_compute. done. Qed.

Lemma amount_classes l : sum_of (fun c => amount_in c l) CausalWorkClass_ALL = amount_of l.
Proof.
  apply (sum_of_classes cw_class); [apply CausalWorkClass_ALL_NoDup|].
  intros w _. destruct (cw_class w); apply list_elem_of_In; vm_compute; tauto.
Qed.

Lemma amount_in_cons c w l : amount_in c (w :: l) = class_amount c w + amount_in c l.
Proof. reflexivity. Qed.

Lemma amount_in_le c l : amount_in c l <= amount_of l.
Proof. apply sum_of_le. intros w _. unfold class_amount. case_bool_decide; lia. Qed.

Lemma totals_ext t t' : (forall c, class_total t c = class_total t' c) -> t = t'.
Proof.
  intros He. destruct t, t'.
  pose proof (He Candidate); pose proof (He Verification); pose proof (He Comparison); pose proof (He Baseline);
  pose proof (He Fallback); pose proof (He Restoration); pose proof (He Prewarm); pose proof (He Residue).
  cbn in *. congruence.
Qed.

Lemma class_total_set t c n c' :
  class_total (set_class t c n) c' = if bool_decide (c = c') then n else class_total t c'.
Proof. destruct t, c, c'; reflexivity. Qed.

Definition totals_width (t : CausalClassTotals) : Prop := forall c, class_total t c <= U64_MAX.

Lemma totals_add_Ok t c n t' :
  totals_width t ->
  totals_add t c n = Ok t' <->
  (forall c', class_total t' c' = class_total t c' + class_amount c' (mkWork [] c n)) /\ totals_width t'.
Proof.
  intros Hw. unfold totals_add, class_amount. cbn. split.
  - intros H. apply bind_Ok_inv in H as (m & Hm & [= <-]). apply ok_or_Ok_inv, checked_add_u64_exact in Hm as [-> Hm].
    split; intros c'; rewrite class_total_set; case_bool_decide; subst; auto; lia.
  - intros [He Hw']. assert (Hs : checked_add_u64 (class_total t c) n = Some (class_total t' c)).
    { apply checked_add_u64_exact. specialize (He c). specialize (Hw' c). rewrite bool_decide_true in He by done. split; lia. }
    rewrite Hs. cbn. f_equal. apply totals_ext. intros c'. rewrite class_total_set. specialize (He c').
    case_bool_decide; [by subst|]. lia.
Qed.

Lemma class_amount_id c w id : class_amount c (mkWork id (cw_class w) (cw_amount w)) = class_amount c w.
Proof. by destruct w. Qed.

(** What both loops ask of a charge. *)
Lemma build_totals_Ok p l : forall t t',
  totals_width t ->
  build_totals p l t = Ok t' <->
  Forall (fun w => 0 < cw_amount w /\ (cw_class w = Residue -> has_residue_policy p = true)) l /\
  (forall c, class_total t' c = class_total t c + amount_in c l) /\ totals_width t'.
Proof.
  induction l as [|w l IH]; intros t t' Hw; cbn [build_totals].
  - split.
    + intros [= <-]. split_and!; [constructor|intros c; cbn; lia|done].
    + intros (_ & He & _). f_equal. apply totals_ext. intros c. specialize (He c). cbn in He. lia.
  - rewrite !reject_Ok, Forall_cons. split.
    + intros (Hz & Hr & H). apply bind_Ok_inv in H as (t1 & Ht & H). breflect.
      apply totals_add_Ok in Ht as [He Hw1]; [|done]. apply IH in H as (Hl & He2 & Hw2); [|done].
      split_and!; [lia| |done| |done].
      * intros Hc. unfold is_residue in Hr. rewrite bool_decide_true in Hr by done. cbn in Hr. by apply negb_false_iff.
      * intros c. rewrite He2, He, class_amount_id, amount_in_cons. lia.
    + intros (((Hz & Hr) & Hl) & He & Hw').
      assert (exists t1, totals_add t (cw_class w) (cw_amount w) = Ok t1 /\
        (forall c', class_total t1 c' = class_total t c' + class_amount c' w) /\ totals_width t1) as (t1 & Ht1 & He1 & Hw1).
      { exists (set_class t (cw_class w) (class_total t (cw_class w) + cw_amount w)).
        assert (Hall : forall c', class_total (set_class t (cw_class w) (class_total t (cw_class w) + cw_amount w)) c'
          = class_total t c' + class_amount c' w).
        { intros c'. rewrite class_total_set. unfold class_amount. case_bool_decide; subst; lia. }
        assert (Hww : totals_width (set_class t (cw_class w) (class_total t (cw_class w) + cw_amount w))).
        { intros c'. rewrite Hall. specialize (He c'). specialize (Hw' c'). rewrite amount_in_cons in He. lia. }
        split_and!; [apply totals_add_Ok; [done|]|done|done]. split; [|done]. intros c'. by rewrite class_amount_id. }
      split_and!; [by apply N.eqb_neq; lia| |].
      * unfold is_residue. case_bool_decide; [by rewrite Hr|done].
      * rewrite Ht1. cbn. apply IH; [done|]. split_and!; [done| |done]. intros c. rewrite He, He1, amount_in_cons. lia.
Qed.

Lemma checked_total_Ok t n :
  checked_total t = Ok n <-> n = sum_of (class_total t) CausalWorkClass_ALL /\ n <= U64_MAX.
Proof.
  assert (Hg : forall l s, s <= U64_MAX ->
    total_loop t l s = Ok n <-> n = s + sum_of (class_total t) l /\ n <= U64_MAX).
  { induction l as [|c l IH]; intros s Hs; cbn.
    - split; [intros [= <-]; split; lia|intros [-> _]; f_equal; lia].
    - split.
      + intros H. apply bind_Ok_inv in H as (m & Hm & H).
        apply ok_or_Ok_inv, checked_add_u64_exact in Hm as [-> Hm]. apply IH in H as [-> H]; [|done]. split; lia.
      + intros [-> H]. 
        assert (Hs1 : checked_add_u64 s (class_total t c) = Some (s + class_total t c))
          by (apply checked_add_u64_exact; split; lia).
        rewrite Hs1. cbn.
        apply IH; [lia|split; lia]. }
  unfold checked_total. rewrite Hg by done. by rewrite N.add_0_l.
Qed.

(** * Charges *)

Notation ids l := (cw_work_unit_id <$> l).

#[global] Instance CausalWorkCharge_ord_ok : OrdOk CausalWorkCharge.
Proof.
  apply cmp_via_ok. intros [i c a] [i' c' a'] [= -> Hc ->]. destruct c, c'; try discriminate Hc; reflexivity.
Qed.

Lemma below_charges w w' : below (cw_work_unit_id w) (cw_work_unit_id w') -> below w w'.
Proof. unfold below, cmp at 2, CausalWorkCharge_ord, cmp_via, cmp at 2, prod_ord. cbn. by intros ->. Qed.

Lemma below_charges_inv w w' :
  below w w' -> cw_work_unit_id w <> cw_work_unit_id w' -> below (cw_work_unit_id w) (cw_work_unit_id w').
Proof.
  unfold below, cmp at 1, CausalWorkCharge_ord, cmp_via, cmp at 1, prod_ord. cbn.
  destruct (cmp (cw_work_unit_id w) (cw_work_unit_id w')) eqn:Hc; cbn; [|done|done].
  apply cmp_eq in Hc. done.
Qed.

(** One charge per unit in canonical order, as the two checks of [validate]
    establish it. *)
Lemma ascending_ids l :
  StronglySorted below (ids l) <-> NoDup (ids l) /\ strictly_ascending l = true.
Proof.
  rewrite strictly_ascending_spec. induction l as [|w l IH]; cbn.
  - split; [intros _; split; constructor|intros _; constructor].
  - split.
    + intros H. pose proof (sorted_NoDup _ H) as Hn. apply StronglySorted_inv in H as [H Hw].
      apply IH in H as [_ H]. split; [done|]. constructor; [done|]. rewrite Forall_fmap in Hw.
      eapply Forall_impl; [exact Hw|]. intros w'. apply below_charges.
    + intros [Hn H]. apply NoDup_cons in Hn as [Hni Hn]. apply StronglySorted_inv in H as [H Hw].
      constructor; [by apply IH|]. apply Forall_fmap. rewrite Forall_forall in *. intros w' Hin.
      apply below_charges_inv; [by apply Hw|]. intros He. apply Hni. rewrite He. by apply list_elem_of_fmap_2.
Qed.

Lemma adjacent_equal_NoDup {A K} `{EqDecision K} (key : A -> K) l : NoDup (key <$> l) -> adjacent_equal key l = None.
Proof.
  induction l as [|x [|y l] IH]; intros Hn; [done..|]. cbn [adjacent_equal].
  apply NoDup_cons in Hn as [Hx Hn]. rewrite bool_decide_false; [by apply IH|].
  intros He. apply Hx. rewrite He. by left.
Qed.

Lemma adjacent_equal_sorted {A K} `{EqDecision K, Ord K, !OrdOk K} (key : A -> K) l :
  adjacent_equal key (sort_by_key key l) = None <-> NoDup (key <$> l).
Proof.
  split; [|intros Hn; apply adjacent_equal_NoDup; by rewrite sort_by_key_perm].
  intros Ha. rewrite <- (sort_by_key_perm key l). apply sorted_NoDup.
  assert (Hs : Sorted (fun a b : A => geb (key b) (key a)) (sort_by_key key l)).
  { apply sort_by_key_sorted. }
  apply Sorted_StronglySorted; [intros x y z; apply cmp_trans|]. revert Ha.
  induction Hs as [|x s Hs IH Hx]; intros Ha; cbn; [constructor|]. destruct s as [|y s]; [by repeat constructor|].
  cbn [adjacent_equal] in Ha. case_bool_decide as Hne; [done|]. constructor; [by apply IH|]. constructor.
  inversion Hx as [|? ? Hxy]; subst. unfold below. unfold geb, ltb in Hxy. rewrite (cmp_antisym (key x) (key y)) in Hxy.
  destruct (cmp (key x) (key y)) eqn:Hc; [by apply cmp_eq in Hc|done|cbn in Hxy; contradiction].
Qed.

Lemma residue_is_has p id : residue_is p id = true -> has_residue_policy p = true.
Proof. by destruct p. Qed.

(** The units of a receipt: each positive, once, and residue only under the
    registered identity. *)
Lemma validate_charges_Ok p l : forall seen t t',
  StronglySorted below seen ->
  validate_charges p l seen t = Ok t' <->
  NoDup (ids l) /\ (forall w, w ∈ l -> cw_work_unit_id w ∉ seen) /\
  Forall (fun w => cw_class w = Residue -> residue_is p (cw_work_unit_id w) = true) l /\
  build_totals p l t = Ok t'.
Proof.
  induction l as [|w l IH]; intros seen t t' Hs; cbn [validate_charges build_totals].
  - split; [intros H; split_and!; [constructor|by intros w ?%elem_of_nil|constructor|done]|by intros (_ & _ & _ & ?)].
  - destruct (bset_insert_spec (cw_work_unit_id w) seen Hs) as (Hs' & Hin & Hfresh).
    destruct (bset_insert (cw_work_unit_id w) seen) as [fresh seen'] eqn:Hb. cbn in Hs', Hin, Hfresh.
    rewrite !reject_Ok, guard_Ok, reject_Ok, fmap_cons, NoDup_cons, Forall_cons.
    setoid_rewrite elem_of_cons. setoid_rewrite list_elem_of_fmap.
    split.
    + intros (Hz & Hf & Hr & H). apply bind_Ok_inv in H as (t1 & Ht & H). apply IH in H as (Hn & Hseen & Hres & Hbt); [|done].
      apply Hfresh in Hf. split_and!; try done.
      * intros (w' & He & Hw'). apply (Hseen w' Hw'). apply Hin. by left.
      * intros w' [->|Hw'] Hx; [done|]. apply (Hseen w' Hw'). apply Hin. by right.
      * intros Hc. unfold is_residue in Hr. rewrite bool_decide_true in Hr by done. cbn in Hr. by apply negb_false_iff.
      * unfold is_residue in *. case_bool_decide as Hc; cbn in *; [|done]. apply negb_false_iff in Hr.
        by rewrite (residue_is_has _ _ Hr).
      * by rewrite Ht.
    + intros ((Hni & Hn) & Hseen & (Hrw & Hres) & Hz & Hr & H). apply bind_Ok_inv in H as (t1 & Ht & H).
      split_and!; [done|apply Hfresh; apply Hseen; by left| |].
      * unfold is_residue. case_bool_decide; [by rewrite Hrw|done].
      * rewrite Ht. apply IH; [done|]. split_and!; try done. intros w' Hw' [He|Hx]%Hin; [|by apply (Hseen w'); [right|]].
        apply Hni. by exists w'.
Qed.

(** * Receipts *)

(** What a charge of a receipt satisfies. *)
Definition charge_ok (p : ResiduePolicy) (w : CausalWorkCharge) : Prop :=
  0 < cw_amount w /\ (cw_class w = Residue -> residue_is p (cw_work_unit_id w) = true).

(** The totals a list of charges has. *)
Definition totals_are (t : CausalClassTotals) (l : list CausalWorkCharge) : Prop :=
  forall c, class_total t c = amount_in c l.

Lemma totals_are_sum t l : totals_are t l -> sum_of (class_total t) CausalWorkClass_ALL = amount_of l.
Proof. intros Ht. rewrite <- amount_classes. apply sum_of_ext. intros c _. apply Ht. Qed.

Lemma totals_are_width t l : totals_are t l -> amount_of l <= U64_MAX -> totals_width t.
Proof. intros Ht Hl c. rewrite Ht. pose proof (amount_in_le c l). lia. Qed.

Lemma default_width : totals_width CausalClassTotals_default.
Proof. by intros []. Qed.

Lemma default_total c : class_total CausalClassTotals_default c = 0.
Proof. by destruct c. Qed.

Lemma build_default_Ok p l t :
  build_totals p l CausalClassTotals_default = Ok t <->
  Forall (fun w => 0 < cw_amount w /\ (cw_class w = Residue -> has_residue_policy p = true)) l /\
  totals_are t l /\ totals_width t.
Proof.
  rewrite build_totals_Ok by apply default_width. unfold totals_are. setoid_rewrite default_total.
  setoid_rewrite N.add_0_l. done.
Qed.

Section ReceiptSpecs.
Context `{Platform}.

Record causal_valid (r : CausalWorkReceipt) : Prop := mkCausalValid {
  cv_schema : cr_schema_version r = CAUSAL_WORK_RECEIPT_SCHEMA;
  cv_taxonomy : cr_taxonomy_version r = CAUSAL_WORK_TAXONOMY_VERSION;
  cv_identity : validate_identity (pw_identity (cr_measurement r)) = Ok ();
  cv_policy : validate_policy (cr_residue_policy r) = Ok ();
  cv_length : N.of_nat (length (cr_charges r)) <= CAUSAL_WORK_MAX_CHARGES;
  cv_units : StronglySorted below (ids (cr_charges r));
  cv_charges : Forall (charge_ok (cr_residue_policy r)) (cr_charges r);
  cv_totals : totals_are (cr_class_totals r) (cr_charges r);
  cv_window : pw_start (cr_measurement r) <= pw_end (cr_measurement r);
  cv_conserved : amount_of (cr_charges r) = pw_end (cr_measurement r) - pw_start (cr_measurement r);
  cv_observed : cr_observed_total r = amount_of (cr_charges r);
  cv_classified : cr_classified_total r = amount_of (cr_charges r);
  cv_digest : cr_receipt_digest r = compute_digest r }.

Lemma delta_Ok w d : delta w = Ok d <-> pw_start w <= pw_end w /\ d = pw_end w - pw_start w.
Proof.
  unfold delta. destruct (N.ltb_spec (pw_end w) (pw_start w)); [split; [done|lia]|].
  split; [by intros [= <-]|by intros [_ ->]].
Qed.

Lemma validate_sound r : CausalWorkReceipt_validate r = Ok () -> causal_valid r.
Proof.
  unfold CausalWorkReceipt_validate. rewrite reject_Ok, bind_unit_Ok, reject_Ok, bind_unit_Ok.
  intros (Hver & Hid & Hlen & Hpol & Hv). apply bind_Ok_inv in Hv as (t & Ht & Hv).
  rewrite guard_Ok, guard_Ok in Hv. destruct Hv as (Hasc & Heq & Hv).
  apply bind_Ok_inv in Hv as (o & Ho & Hv). apply bind_Ok_inv in Hv as (c & Hc & Hv).
  rewrite reject_Ok, guard_Ok in Hv. destruct Hv as (Hcons & Hd & _). breflect. subst t.
  apply delta_Ok in Ho as [Hw ->]. apply checked_total_Ok in Hc as [-> Hc].
  apply validate_charges_Ok in Ht as (Hn & _ & Hres & Hb); [|constructor].
  apply build_default_Ok in Hb as (Hpos & Htot & _). rewrite (totals_are_sum _ _ Htot) in *.
  split; try (done || lia || congruence).
  - by apply ascending_ids.
  - rewrite Forall_forall in *. intros w Hin. split; [by apply Hpos|by apply Hres].
Qed.

Lemma validate_complete r :
  pw_end (cr_measurement r) <= U64_MAX -> causal_valid r -> CausalWorkReceipt_validate r = Ok ().
Proof.
  intros Hend [Hs Ht Hid Hpol Hlen Hu Hch Htot Hw Hcons Hobs Hcls Hd].
  unfold CausalWorkReceipt_validate. rewrite Hs, Ht, Hid, Hpol, !N.eqb_refl.
  cbn [negb orb mbind result_bind].
  destruct (N.ltb_spec CAUSAL_WORK_MAX_CHARGES (N.of_nat (length (cr_charges r)))); [lia|].
  apply ascending_ids in Hu as [Hn Hasc].
  assert (Hval : validate_charges (cr_residue_policy r) (cr_charges r) [] CausalClassTotals_default
                 = Ok (cr_class_totals r)).
  { apply validate_charges_Ok; [constructor|]. split_and!; [done|by intros w _ ?%elem_of_nil| |].
    - eapply Forall_impl; [exact Hch|]. by intros w [].
    - apply build_default_Ok. split_and!; [|done|by eapply totals_are_width; [done|lia]].
      eapply Forall_impl; [exact Hch|]. intros w [Hz Hr]. split; [done|]. intros Hc. by eapply residue_is_has, Hr. }
  rewrite Hval. cbn [mbind result_bind]. rewrite Hasc, bool_decide_true by done.
  rewrite (proj2 (delta_Ok (cr_measurement r) _) (conj Hw eq_refl)). cbn [mbind result_bind].
  rewrite (proj2 (checked_total_Ok (cr_class_totals r) (amount_of (cr_charges r))))
    by (rewrite (totals_are_sum _ _ Htot); split; [done|lia]). cbn [mbind result_bind].
  rewrite Hobs, Hcls, <- Hcons, !N.eqb_refl, <- Hd. cbn. by rewrite bool_decide_true.
Qed.

(** The charge a window leaves unaccounted for, under the policy. *)
Definition residue_charge (p : ResiduePolicy) (missing : N) : list CausalWorkCharge :=
  match p with
  | AssignToResidue _ _ u => if missing =? 0 then [] else [mkWork u Residue missing]
  | RejectUnclassified => [] end.

(** What a receipt can be built from. *)
Record causal_admissible (w : ParentCounterWindow) (l : list CausalWorkCharge) (p : ResiduePolicy) : Prop := mkAdmissible {
  ca_identity : validate_identity (pw_identity w) = Ok ();
  ca_policy : validate_policy p = Ok ();
  ca_window : pw_start w <= pw_end w;
  ca_units : NoDup (ids l);
  ca_charges : Forall (charge_ok p) l;
  ca_within : amount_of l <= pw_end w - pw_start w;
  ca_length : N.of_nat (length (l ++ residue_charge p (pw_end w - pw_start w - amount_of l))) <= CAUSAL_WORK_MAX_CHARGES;
  ca_residue : amount_of l < pw_end w - pw_start w -> exists id d u, p = AssignToResidue id d u /\ u ∉ ids l }.

Definition totals_of (l : list CausalWorkCharge) : CausalClassTotals :=
  mkTotals (amount_in Candidate l) (amount_in Verification l) (amount_in Comparison l) (amount_in Baseline l)
    (amount_in Fallback l) (amount_in Restoration l) (amount_in Prewarm l) (amount_in Residue l).

Lemma totals_of_are l : totals_are (totals_of l) l.
Proof. by intros []. Qed.

Lemma totals_are_perm t l l' : l ≡ₚ l' -> totals_are t l -> totals_are t l'.
Proof. intros Hp Ht c. rewrite Ht. unfold amount_in. by rewrite Hp. Qed.

Lemma amount_of_perm l l' : l ≡ₚ l' -> amount_of l = amount_of l'.
Proof. intros Hp. unfold amount_of. by rewrite Hp. Qed.

Lemma ids_perm l l' : l ≡ₚ l' -> NoDup (ids l) -> NoDup (ids l').
Proof. intros Hp. by rewrite Hp. Qed.

Lemma residue_amount p l d :
  amount_of l <= d -> (amount_of l < d -> has_residue_policy p = true) ->
  amount_of (l ++ residue_charge p (d - amount_of l)) = d.
Proof.
  intros Hle Hr. unfold amount_of at 1. rewrite sum_of_app. change (sum_of cw_amount l) with (amount_of l).
  destruct p as [|id dg u]; cbn.
  - destruct (decide (amount_of l < d)) as [Hlt|]; [by specialize (Hr Hlt)|lia].
  - destruct (N.eqb_spec (d - amount_of l) 0); cbn; lia.
Qed.

Lemma residue_charge_ok p m : Forall (charge_ok p) (residue_charge p m).
Proof.
  destruct p as [|id d u]; cbn; [constructor|]. destruct (N.eqb_spec m 0); [constructor|].
  apply Forall_singleton. split; cbn; [lia|]. intros _. by rewrite bool_decide_true.
Qed.

(** The settled charges and totals. *)
Lemma settle_Ok p l t m l' t' :
  StronglySorted below (ids l) -> totals_are t l -> totals_width t ->
  settle_residue p l t m = Ok (l', t') ->
  l' ≡ₚ l ++ residue_charge p m /\ StronglySorted below (ids l') /\ totals_are t' l' /\ totals_width t' /\
  validate_policy p = Ok () /\
  (0 < m -> exists id d u, p = AssignToResidue id d u /\ u ∉ ids l).
Proof.
  intros Hs Ht Hw. unfold settle_residue. destruct (N.eqb_spec m 0) as [->|Hm]; cbn [negb].
  - rewrite bind_unit_Ok. intros [Hp [= <- <-]].
    assert (residue_charge p 0 = []) as -> by (by destruct p). rewrite app_nil_r. split_and!; [done..|lia].
  - destruct p as [|id d u]; [done|]. rewrite bind_unit_Ok. intros [Hp Hx].
    destruct (binary_search_by_key cw_work_unit_id u l) eqn:Hbs; [done|].
    apply binary_search_by_key_None in Hbs; [|done].
    apply bind_Ok_inv in Hx as (t1 & Ht1 & [= <- <-]). apply totals_add_Ok in Ht1 as [Ht1 Hw1]; [|done].
    unfold residue_charge. destruct (N.eqb_spec m 0); [done|].
    pose proof (sort_by_key_perm cw_work_unit_id (l ++ [mkWork u Residue m])) as Hperm.
    split_and!; [done| | |done|done|intros _; by exists id, d, u].
    { apply sort_by_key_ascending. rewrite fmap_app, NoDup_app. split_and!; [by apply sorted_NoDup| |apply NoDup_singleton].
      intros x Hx Hu. apply list_elem_of_singleton in Hu as ->. done. }
    eapply totals_are_perm; [by symmetry|]. intros c. rewrite Ht1, Ht. unfold amount_in. by rewrite sum_of_snoc.
Qed.

Lemma settle_complete p l m :
  StronglySorted below (ids l) -> validate_policy p = Ok () -> amount_of l + m <= U64_MAX ->
  (0 < m -> exists id d u, p = AssignToResidue id d u /\ u ∉ ids l) ->
  exists l' t', settle_residue p l (totals_of l) m = Ok (l', t') /\ l' ≡ₚ l ++ residue_charge p m.
Proof.
  intros Hs Hp Hle Hr. unfold settle_residue. destruct (N.eqb_spec m 0) as [->|Hm]; cbn [negb].
  - rewrite Hp. exists l, (totals_of l). split; [done|].
    assert (residue_charge p 0 = []) as -> by (by destruct p). by rewrite app_nil_r.
  - destruct Hr as (id & d & u & -> & Hu); [lia|]. cbn in Hp. rewrite Hp. cbn [mbind result_bind].
    assert (binary_search_by_key cw_work_unit_id u l = None) as -> by (by apply binary_search_by_key_None).
    assert (Hw : totals_width (totals_of l)) by (eapply totals_are_width; [apply totals_of_are|lia]).
    assert (Ht : totals_add (totals_of l) Residue m = Ok (totals_of (l ++ [mkWork u Residue m]))).
    { apply totals_add_Ok; [done|]. split.
      - intros c. rewrite (totals_of_are l c), (totals_of_are (l ++ [mkWork u Residue m]) c).
        unfold amount_in. by rewrite sum_of_snoc.
      - eapply totals_are_width; [apply totals_of_are|]. unfold amount_of. rewrite sum_of_snoc. done. }
    rewrite Ht. cbn. do 2 eexists. split; [done|]. destruct (N.eqb_spec m 0); [done|]. apply sort_by_key_perm.
Qed.

(** The receipt that states a window, its charges and policy. *)
Definition states_window (manifest : Digest) (w : ParentCounterWindow) (l : list CausalWorkCharge)
  (p : ResiduePolicy) (r : CausalWorkReceipt) : Prop :=
  cr_assembly_manifest_digest r = manifest /\ cr_measurement r = w /\ cr_residue_policy r = p /\
  cr_charges r ≡ₚ l ++ residue_charge p (pw_end w - pw_start w - amount_of l).

Lemma build_sound manifest w l p r :
  build_measured manifest w l p = Ok r ->
  causal_admissible w l p /\ causal_valid r /\ states_window manifest w l p r.
Proof.
  unfold build_measured. rewrite bind_unit_Ok, reject_Ok. intros (Hid & Hlen & Hb).
  destruct (adjacent_equal cw_work_unit_id (sort_by_key cw_work_unit_id l)) eqn:Hadj; [done|].
  apply adjacent_equal_sorted in Hadj as Hn. pose proof (sort_by_key_perm cw_work_unit_id l) as Hperm.
  pose proof (sort_by_key_ascending cw_work_unit_id l Hn) as Hs.
  set (s := sort_by_key cw_work_unit_id l) in *. clearbody s.
  apply bind_Ok_inv in Hb as (t & Ht & Hb). apply bind_Ok_inv in Hb as (d & Hd & Hb).
  apply bind_Ok_inv in Hb as (b & Hbf & Hb). rewrite reject_Ok in Hb. destruct Hb as [Hge Hb].
  apply bind_Ok_inv in Hb as ([s' t'] & Hset & Hb). apply bind_Ok_inv in Hb as (c & Hc & Hb).
  rewrite guard_Ok in Hb. destruct Hb as [_ Hb]. rewrite bind_unit_Ok in Hb. destruct Hb as [Hv [= <-]].
  apply delta_Ok in Hd as [Hw ->]. apply build_default_Ok in Ht as (_ & Ht & Htw).
  apply checked_total_Ok in Hbf as [-> _]. rewrite (totals_are_sum _ _ Ht), (amount_of_perm _ _ Hperm) in *.
  apply settle_Ok in Hset as (Hs' & _ & _ & _ & Hpol & Hres); [|done..]. apply validate_sound in Hv. breflect.
  rewrite Hperm in Hs'. split_and!; [|done|done..].
  pose proof (cv_length _ Hv) as Hl. pose proof (cv_charges _ Hv) as Hch. cbn in Hl, Hch.
  rewrite Hs' in Hl, Hch. apply Forall_app in Hch as [Hch _]. split; try done.
  intros Hlt. destruct Hres as (id & dg & u & -> & Hu); [lia|]. exists id, dg, u. by rewrite <- Hperm.
Qed.

Lemma build_complete manifest w l p :
  pw_end w <= U64_MAX -> causal_admissible w l p -> exists r, build_measured manifest w l p = Ok r.
Proof.
  intros Hend [Hid Hpol Hw Hn Hch Hin Hlen Hres]. unfold build_measured. rewrite Hid. cbn [mbind result_bind].
  rewrite length_app in Hlen. destruct (N.ltb_spec CAUSAL_WORK_MAX_CHARGES (N.of_nat (length l))); [lia|].
  rewrite (proj2 (adjacent_equal_sorted cw_work_unit_id l) Hn). rewrite <- length_app in Hlen.
  pose proof (sort_by_key_perm cw_work_unit_id l) as Hperm. pose proof (sort_by_key_ascending cw_work_unit_id l Hn) as Hs.
  set (s := sort_by_key cw_work_unit_id l) in *. clearbody s.
  rewrite <- (amount_of_perm _ _ Hperm) in *. rewrite <- Hperm in Hch, Hlen.
  assert (Hbt : build_totals p s CausalClassTotals_default = Ok (totals_of s)).
  { apply build_default_Ok. split_and!; [|apply totals_of_are|eapply totals_are_width; [apply totals_of_are|lia]].
    eapply Forall_impl; [exact Hch|]. intros x [Hz Hr]. split; [done|]. intros Hc. by eapply residue_is_has, Hr. }
  rewrite Hbt. cbn [mbind result_bind]. rewrite (proj2 (delta_Ok w _) (conj Hw eq_refl)). cbn [mbind result_bind].
  rewrite (proj2 (checked_total_Ok (totals_of s) (amount_of s)))
    by (rewrite (totals_are_sum _ _ (totals_of_are s)); split; [done|lia]). cbn [mbind result_bind].
  destruct (N.ltb_spec (pw_end w - pw_start w) (amount_of s)); [lia|].
  destruct (settle_complete p s (pw_end w - pw_start w - amount_of s)) as (s' & t' & Hset & Hs'); try done; [lia| |].
  { intros Hm. destruct Hres as (id & dg & u & -> & Hu); [lia|]. exists id, dg, u. by rewrite Hperm. }
  rewrite Hset. cbn [mbind result_bind].
  apply settle_Ok in Hset as (_ & Hasc & Ht' & _ & _ & _); [|done|apply totals_of_are|eapply totals_are_width; [apply totals_of_are|lia]].
  assert (Ha : amount_of s' = pw_end w - pw_start w).
  { rewrite (amount_of_perm _ _ Hs'). apply residue_amount; [done|]. intros Hlt.
    destruct Hres as (id & dg & u & -> & _); [done|done]. }
  rewrite (proj2 (checked_total_Ok t' (amount_of s'))) by (rewrite (totals_are_sum _ _ Ht'); split; [done|lia]).
  cbn [mbind result_bind]. rewrite (proj2 (N.eqb_eq _ _) Ha). set (r := with_receipt_digest _ _).
  rewrite (validate_complete r); [by eexists|done|]. split; cbn; try done; [by rewrite Hs'|].
  rewrite Hs'. apply Forall_app. split; [done|apply residue_charge_ok].
Qed.

(** A measured window, charges and residue policy give a receipt exactly
    when they are admissible (identity and policy well-formed, the window not
    reversed, every charge positive and its unit charged once, residue only
    under the registered unit, the charges within the window, and a remainder
    only where the policy assigns it to a unit not otherwise charged); and the
    receipt is valid: its charges are the given ones plus at most the residue,
    in canonical order, one per unit, with class totals that sum to the
    measured delta. *)
Theorem causal_receipt_exact (manifest : Digest) (w : ParentCounterWindow) (l : list CausalWorkCharge)
  (p : ResiduePolicy) :
  pw_end w <= U64_MAX ->
  ((exists r, CausalWorkReceipt_build manifest (ObservationMeasured w) l p = Ok (OutcomeMeasured r)) <->
   causal_admissible w l p) /\
  (forall r, CausalWorkReceipt_build manifest (ObservationMeasured w) l p = Ok (OutcomeMeasured r) ->
     causal_valid r /\ states_window manifest w l p r /\ CausalWorkReceipt_validate r = Ok ()).
Proof.
  intros Hend.
  assert (Hb : forall r, CausalWorkReceipt_build manifest (ObservationMeasured w) l p = Ok (OutcomeMeasured r) <->
    build_measured manifest w l p = Ok r).
  { intros r. cbn. destruct (build_measured manifest w l p) as [r'|e]; cbn; [|done]. split; congruence. }
  setoid_rewrite Hb. split; [split|].
  - intros [r Hr]. by apply build_sound in Hr as [Ha _].
  - by apply build_complete.
  - intros r Hr. apply build_sound in Hr as (_ & Hv & Hst). split_and!; [done..|].
    apply validate_complete; [|done]. by destruct Hst as (_ & -> & _).
Qed.

(** Decoding a receipt accepts exactly the receipts that satisfy every
    invariant: current versions, one positive charge per unit in canonical
    order, residue under the registered unit only, class totals that are the
    sums of the charges, conservation of the measured delta, and a digest of
    its own contents. *)
Theorem causal_decode_exact (r : CausalWorkReceipt) :
  pw_end (cr_measurement r) <= U64_MAX ->
  CausalWorkReceipt_from_wire r = Ok r <-> causal_valid r.
Proof.
  intros Hend. unfold CausalWorkReceipt_from_wire. rewrite bind_unit_Ok. split.
  - intros [Hv _]. by apply validate_sound.
  - intros Hv. split; [by apply validate_complete|done].
Qed.
End ReceiptSpecs.
