(* ===== verification/BMap.v ===== *)
(** [BTreeMap] as an association list in key order: insertion with the value
    it replaces, lookup, removal and in-place update, for any ordered key. *)

From S2P Require Import Prelude.
From S2P Require Import Ordering.

Section Maps.
Context {K V : Type} `{Ord K}.
Implicit Types (m : list (K * V)) (k : K) (v : V).

(** [get]. *)
Fixpoint bmap_lookup k m : option V :=
  match m with
  | [] => None
  | (k', v) :: m' => match cmp k k' with Eq => Some v | _ => bmap_lookup k m' end
  end.

(** [insert]: the map and the value replaced. *)
Fixpoint bmap_insert k v m : option V * list (K * V) :=
  match m with
  | [] => (None, [(k, v)])
  | (k', v') :: m' =>
      match cmp k k' with
      | Lt => (None, (k, v) :: m)
      | Eq => (Some v', (k', v) :: m')
      | Gt => let '(old, m'') := bmap_insert k v m' in (old, (k', v') :: m'')
      end
  end.

(** [remove]. *)
Definition bmap_delete k m : list (K * V) :=
  List.filter (fun kv => match cmp k kv.1 with Eq => false | _ => true end) m.

(** [entry(k).or_insert(d)] followed by an update of the value. *)
Definition bmap_update k (d : V) (f : V -> V) m : list (K * V) :=
  snd (bmap_insert k (f (default d (bmap_lookup k m))) m).

Definition bmap_keys m : list K := fst <$> m.
Definition bmap_values m : list V := snd <$> m.
Definition bmap_mem k m : bool := match bmap_lookup k m with Some _ => true | None => false end.
End Maps.

(** * Lemmas *)

Section MapLemmas.
Context {K V : Type} `{Ord K, !OrdOk K}.
Implicit Types (m : list (K * V)) (k : K) (v : V).

Definition bmap_wf m : Prop := StronglySorted below (bmap_keys m).

Lemma bmap_insert_old k v m : bmap_wf m -> fst (bmap_insert k v m) = bmap_lookup k m.
Proof.
  unfold bmap_wf. induction m as [|[k' v'] m IH]; intros Hm; [done|]. cbn in Hm |- *.
  apply StronglySorted_inv in Hm as [Hm Hk]. destruct (cmp k k') eqn:Hc; [done| |].
  - cbn. symmetry. clear IH. induction m as [|[k'' v''] m IH']; [done|]. cbn in *.
    apply Forall_cons in Hk as [Hk1 Hk2]. apply StronglySorted_inv in Hm as [Hm _].
    rewrite (cmp_trans k k' k'' Hc Hk1). by apply IH'.
  - rewrite <- IH by done. by destruct (bmap_insert k v m).
Qed.

Lemma elem_of_insert_keys k v m x : x ∈ bmap_keys (snd (bmap_insert k v m)) <-> x = k \/ x ∈ bmap_keys m.
Proof.
  induction m as [|[k' v'] m IH]; cbn; [rewrite list_elem_of_singleton, elem_of_nil; tauto|].
  destruct (cmp k k') eqn:Hc; cbn.
  - apply cmp_eq in Hc as ->. rewrite elem_of_cons. tauto.
  - rewrite !elem_of_cons. tauto.
  - destruct (bmap_insert k v m) as [o m']; cbn in *. rewrite !elem_of_cons, IH. tauto.
Qed.

Lemma bmap_insert_wf k v m : bmap_wf m -> bmap_wf (snd (bmap_insert k v m)).
Proof.
  unfold bmap_wf. induction m as [|[k' v'] m IH]; intros Hm; [repeat constructor|]. cbn in Hm |- *.
  destruct (cmp k k') eqn:Hc; cbn; [done| |].
  - pose proof Hm as [_ Hk]%StronglySorted_inv. constructor; [done|]. constructor; [done|].
    eapply Forall_impl; [exact Hk|]. intros x. by apply cmp_trans.
  - apply StronglySorted_inv in Hm as [Hm Hk]. specialize (IH Hm).
    pose proof (elem_of_insert_keys k v m) as He. destruct (bmap_insert k v m) as [o m']; cbn in *.
    constructor; [done|]. rewrite Forall_forall in *. intros x Hx.
    apply He in Hx as [->|Hx]; [by apply cmp_gt_lt|by apply Hk].
Qed.

Lemma bmap_lookup_insert k v m : bmap_lookup k (snd (bmap_insert k v m)) = Some v.
Proof.
  induction m as [|[k' v'] m IH]; cbn; [by rewrite cmp_refl|].
  destruct (cmp k k') eqn:Hc; cbn; [by rewrite Hc|by rewrite cmp_refl|].
  destruct (bmap_insert k v m) as [o m']; cbn in *. by rewrite Hc.
Qed.

Lemma bmap_lookup_insert_ne k k' v m : k <> k' -> bmap_lookup k' (snd (bmap_insert k v m)) = bmap_lookup k' m.
Proof.
  intros Hne. assert (Hn : forall A (a b : A), match cmp k' k with Eq => a | _ => b end = b).
  { intros A a b. destruct (cmp k' k) eqn:Hc; [|done..]. by apply cmp_eq in Hc. }
  induction m as [|[k1 v1] m IH]; cbn; [apply Hn|].
  destruct (cmp k k1) eqn:Hc; cbn.
  - apply cmp_eq in Hc as <-. by rewrite !Hn.
  - apply Hn.
  - destruct (bmap_insert k v m) as [o m']; cbn in *. by rewrite IH.
Qed.

Lemma bmap_lookup_elem k v m : bmap_wf m -> bmap_lookup k m = Some v <-> (k, v) ∈ m.
Proof.
  unfold bmap_wf. induction m as [|[k' v'] m IH]; intros Hm; cbn; [by rewrite elem_of_nil|].
  apply StronglySorted_inv in Hm as [Hm Hk]. rewrite elem_of_cons. specialize (IH Hm).
  destruct (cmp k k') eqn:Hc.
  - apply cmp_eq in Hc as ->. split; [intros [= ->]; by left|]. intros [[= ->]|Hin]; [done|].
    exfalso. rewrite Forall_forall in Hk. apply (cmp_lt_irrefl k'), Hk. apply list_elem_of_fmap. by exists (k', v).
  - rewrite IH. split; [by right|]. intros [[= -> ->]|]; [by rewrite cmp_refl in Hc|done].
  - rewrite IH. split; [by right|]. intros [[= -> ->]|]; [by rewrite cmp_refl in Hc|done].
Qed.

Lemma bmap_lookup_keys k m : is_Some (bmap_lookup k m) <-> k ∈ bmap_keys m.
Proof.
  induction m as [|[k' v'] m IH]; cbn; [rewrite elem_of_nil; split; [by intros []|done]|].
  rewrite elem_of_cons. destruct (cmp k k') eqn:Hc.
  - apply cmp_eq in Hc as ->. split; [by left|by eexists].
  - rewrite IH. split; [by right|]. intros [->|]; [by rewrite cmp_refl in Hc|done].
  - rewrite IH. split; [by right|]. intros [->|]; [by rewrite cmp_refl in Hc|done].
Qed.

Lemma bmap_update_wf k d f m : bmap_wf m -> bmap_wf (bmap_update k d f m).
Proof. apply bmap_insert_wf. Qed.

Lemma bmap_lookup_update k d f m : bmap_lookup k (bmap_update k d f m) = Some (f (default d (bmap_lookup k m))).
Proof. apply bmap_lookup_insert. Qed.

Lemma bmap_lookup_update_ne k k' d f m : k <> k' -> bmap_lookup k' (bmap_update k d f m) = bmap_lookup k' m.
Proof. apply bmap_lookup_insert_ne. Qed.
End MapLemmas.
