(* ===== verification/ChargingMaps.v ===== *)
(** Resource rows and the reconciliation of provider bills
    ([zero-ledger/src/resource_classes.rs]), and the six-phase lower-bound
    ledger of disjoint charging maps ([charging_maps.rs]).  A [Vec] holds fewer
    than [2^63] elements, so a [u128] sum of [u64] amounts does not wrap and
    is the sum. *)

From S2P Require Import Prelude.
From S2P Require Import Canonical.
From S2P Require Import DurableStore.
From S2P Require Import Ordering.
From S2P Require Import Identity.
From S2P Require Import Sums.
From S2P Require Import BMap.
From S2P Require Import Ledger.
From S2P Require Import CausalWork.

(** * Resource rows *)

Inductive ResourceClass :=
| ToolArgsBytes | ToolReturnsBytes | WireBytes | DiskBytes | CpuTime | GpuTime | StorageBytes | Maintenance
| UncachedInputTokens.
#[global] Instance ResourceClass_eq_dec : EqDecision ResourceClass.
Proof. solve_decision. Defined.
Definition ResourceClass_ALL : list ResourceClass :=
  [ToolArgsBytes; ToolReturnsBytes; WireBytes; DiskBytes; CpuTime; GpuTime; StorageBytes; Maintenance;
   UncachedInputTokens].
Definition ResourceClass_as_str (c : ResourceClass) : string :=
  match c with
  | ToolArgsBytes => "tool_args_bytes" | ToolReturnsBytes => "tool_returns_bytes" | WireBytes => "wire_bytes"
  | DiskBytes => "disk_bytes" | CpuTime => "cpu_nanoseconds" | GpuTime => "gpu_nanoseconds"
  | StorageBytes => "storage_bytes" | Maintenance => "maintenance"
  | UncachedInputTokens => "uncached_input_tokens" end.
Definition ResourceClass_from_str (s : string) : result string ResourceClass :=
  if bool_decide (s = "tool_args_bytes") then Ok ToolArgsBytes
  else if bool_decide (s = "tool_returns_bytes") then Ok ToolReturnsBytes
  else if bool_decide (s = "wire_bytes") then Ok WireBytes
  else if bool_decide (s = "disk_bytes") then Ok DiskBytes
  else if bool_decide (s = "cpu_nanoseconds") then Ok CpuTime
  else if bool_decide (s = "gpu_nanoseconds") then Ok GpuTime
  else if bool_decide (s = "storage_bytes") then Ok StorageBytes
  else if bool_decide (s = "maintenance") then Ok Maintenance
  else if bool_decide (s = "uncached_input_tokens") then Ok UncachedInputTokens
  else Err s.

Inductive MeasurementSource := Estimate | Bounded | Exact.
#[global] Instance MeasurementSource_eq_dec : EqDecision MeasurementSource.
Proof. solve_decision. Defined.
Definition source_index (s : MeasurementSource) : N := match s with Estimate => 0 | Bounded => 1 | Exact => 2 end.
#[global] Instance MeasurementSource_ord : Ord MeasurementSource := cmp_via source_index.
Definition source_min (a b : MeasurementSource) : MeasurementSource := if ltb b a then b else a.
Definition derive (l : list MeasurementSource) : MeasurementSource := foldl source_min Exact l.

Record ResourceRow := mkRow { rw_class : ResourceClass; rw_amount : N; rw_source : MeasurementSource }.
Record ResourceTotal := mkTotal { rt_amount : N; rt_source : MeasurementSource }.
Definition ResourceLedger := list ResourceRow.
Definition record (l : ResourceLedger) (r : ResourceRow) : ResourceLedger := l ++ [r].

Definition grand_total (rows : ResourceLedger) : ResourceTotal :=
  mkTotal (foldl (fun a r => a + rw_amount r)%N 0%N rows) (derive (rw_source <$> rows)).
Definition total_for (rows : ResourceLedger) (c : ResourceClass) : option ResourceTotal :=
  let selected := filter (fun r => rw_class r = c) rows in
  if (length selected =? 0)%nat then None else Some (grand_total selected).

Record ProviderBillLine := mkBill {
  bl_provider : string; bl_class : ResourceClass; bl_billed_amount : N; bl_tolerance_ppm : N }.
Definition ProviderBillLine_new (provider : string) (c : ResourceClass) (billed tolerance : N) : L ProviderBillLine :=
  reject? (String.length provider =? 0)%nat with EmptyBillProvider in
  reject? (PPM_ONE <? tolerance)%N with PpmOutOfRange tolerance in
  Ok (mkBill provider c billed tolerance).

Inductive BillLineStatus := ReconcilesExactly | ReconcilesWithinTolerance.
#[global] Instance BillLineStatus_eq_dec : EqDecision BillLineStatus.
Proof. solve_decision. Defined.
Record BillLineReconciliation := mkLine {
  ln_provider : string; ln_class : ResourceClass; ln_billed_amount : N; ln_tolerance_ppm : N;
  ln_ledger_total : N; ln_deviation : N; ln_status : BillLineStatus }.
Inductive ReconciliationState := StateExact | StateWithinTolerance.
Record ProviderBillReconciliation := mkReconciliation {
  pr_lines : list BillLineReconciliation; pr_overall : ReconciliationState }.

Definition abs_diff (a b : N) : N := ((a - b) + (b - a))%N.
(** [deviation.checked_mul(PPM_ONE).is_some_and(..)] over [u128]. *)
Definition within_tolerance (deviation billed tolerance : N) : bool :=
  (deviation * PPM_ONE <? 2 ^ 128)%N && (deviation * PPM_ONE <=? billed * tolerance)%N.

(** One round: the line, and whether its ledger rows are all [Exact]. *)
Definition reconcile_line (rows : ResourceLedger) (b : ProviderBillLine) : L (BillLineReconciliation * bool) :=
  reject? (String.length (bl_provider b) =? 0)%nat with EmptyBillProvider in
  reject? (PPM_ONE <? bl_tolerance_ppm b)%N with PpmOutOfRange (bl_tolerance_ppm b) in
  match total_for rows (bl_class b) with
  | None =>
      reject? (0 <? bl_billed_amount b)%N
        with HiddenUnchargedWork (bl_provider b) (ResourceClass_as_str (bl_class b)) (bl_billed_amount b) in
      Ok (mkLine (bl_provider b) (bl_class b) (bl_billed_amount b) (bl_tolerance_ppm b) 0 0 ReconcilesExactly, true)
  | Some total =>
      let deviation := abs_diff (rt_amount total) (bl_billed_amount b) in
      guard? within_tolerance deviation (bl_billed_amount b) (bl_tolerance_ppm b)
        else OutOfTolerance (bl_provider b) (ResourceClass_as_str (bl_class b)) (bl_billed_amount b)
               (rt_amount total) (bl_tolerance_ppm b) in
      let status := if (deviation =? 0)%N && (bl_tolerance_ppm b =? 0)%N then ReconcilesExactly
                    else ReconcilesWithinTolerance in
      Ok (mkLine (bl_provider b) (bl_class b) (bl_billed_amount b) (bl_tolerance_ppm b) (rt_amount total)
            deviation status, bool_decide (rt_source total = Exact))
  end.

Fixpoint reconcile_loop (rows : ResourceLedger) (bills : list ProviderBillLine)
  (lines : list BillLineReconciliation) (all_exact any_inexact : bool) : L ProviderBillReconciliation :=
  match bills with
  | [] => Ok (mkReconciliation lines (if all_exact && negb any_inexact then StateExact else StateWithinTolerance))
  | b :: rest =>
      let? r := reconcile_line rows b in
      let '(line, exact_rows) := r in
      reconcile_loop rows rest (lines ++ [line])
        (all_exact && bool_decide (ln_status line = ReconcilesExactly)) (any_inexact || negb exact_rows)
  end.
Definition reconcile (rows : ResourceLedger) (bills : list ProviderBillLine) : L ProviderBillReconciliation :=
  reconcile_loop rows bills [] true false.

(** * Charging maps *)

Inductive ChargingPhase := RequestInfo | Decisions | Reasoning | PhaseVerification | Output | Effects.
#[global] Instance ChargingPhase_eq_dec : EqDecision ChargingPhase.
Proof. solve_decision. Defined.
Definition ChargingPhase_ALL : list ChargingPhase :=
  [RequestInfo; Decisions; Reasoning; PhaseVerification; Output; Effects].
Definition phase_index (p : ChargingPhase) : N :=
  match p with
  | RequestInfo => 0 | Decisions => 1 | Reasoning => 2 | PhaseVerification => 3 | Output => 4 | Effects => 5 end.
#[global] Instance ChargingPhase_ord : Ord ChargingPhase := cmp_via phase_index.
#[global] Instance CausalWorkClass_ord : Ord CausalWorkClass := cmp_via class_index.

Record ChargingEntry := mkEntry { ce_work_unit_id : string; ce_amount : N; ce_source : MeasurementSource }.
#[global] Instance ChargingEntry_ord : Ord ChargingEntry :=
  cmp_via (fun e => (ce_work_unit_id e, (ce_amount e, ce_source e))).
Record ChargingMap := mkChargingMap {
  cm_phase : ChargingPhase; cm_entries : list ChargingEntry; cm_total : N; cm_source : MeasurementSource }.

Inductive ChargingMapError :=
| EmptyWorkUnitId
| WorkUnitIdTooLong (len : nat)
| ZeroAmount (work_unit_id : string)
| DuplicateWorkUnit (work_unit_id : string)
| MapCounterOverflow
| WireTotalsMismatch
| DuplicatePhase (phase : ChargingPhase)
| MissingPhases (phases : list ChargingPhase)
| OverlappingCharge (work_unit_id : string) (first second : ChargingPhase)
| MapNonConservation (attributed measured : N)
| ZeroMeasuredTotal
| EmptyReceiptSet
| InvalidReceipt (e : CausalWorkError)
| PolicyConflict (class : CausalWorkClass)
| IncompletePolicy (class : CausalWorkClass).
Notation CM := (result ChargingMapError).

Definition check_entry (e : ChargingEntry) : CM () :=
  reject? (String.length (ce_work_unit_id e) =? 0)%nat with EmptyWorkUnitId in
  reject? (CAUSAL_WORK_MAX_ID_BYTES <? String.length (ce_work_unit_id e))%nat
    with WorkUnitIdTooLong (String.length (ce_work_unit_id e)) in
  reject? (ce_amount e =? 0)%N with ZeroAmount (ce_work_unit_id e) in
  Ok ().
Fixpoint entries_total (l : list ChargingEntry) (total : N) : CM N :=
  match l with
  | [] => Ok total
  | e :: rest =>
      let? total := ok_or (checked_add_u64 total (ce_amount e)) MapCounterOverflow in entries_total rest total
  end.

Definition ChargingMap_build (phase : ChargingPhase) (entries : list ChargingEntry) : CM ChargingMap :=
  let? _ := for_each check_entry entries in
  let sorted := sort entries in
  match adjacent_equal ce_work_unit_id sorted with
  | Some id => Err (DuplicateWorkUnit id)
  | None =>
      let? total := entries_total sorted 0 in
      Ok (mkChargingMap phase sorted total (derive (ce_source <$> sorted)))
  end.

(** [Deserialize for ChargingMap], from the fields of the wire object. *)
Definition ChargingMap_from_wire (w : ChargingMap) : CM ChargingMap :=
  let? m := ChargingMap_build (cm_phase w) (cm_entries w) in
  reject? negb (cm_total m =? cm_total w)%N || negb (bool_decide (cm_source m = cm_source w))
    with WireTotalsMismatch in
  Ok m.

Definition ChargingMapSet := list (ChargingPhase * ChargingMap).

Fixpoint by_phase_loop (maps : list ChargingMap) (by_phase : ChargingMapSet) : CM ChargingMapSet :=
  match maps with
  | [] => Ok by_phase
  | m :: rest =>
      match bmap_insert (cm_phase m) m by_phase with
      | (Some _, _) => Err (DuplicatePhase (cm_phase m))
      | (None, by_phase) => by_phase_loop rest by_phase
      end
  end.
Definition ChargingMapSet_new (maps : list ChargingMap) : CM ChargingMapSet :=
  let? by_phase := by_phase_loop maps [] in
  let missing := List.filter (fun p => negb (bmap_mem p by_phase)) ChargingPhase_ALL in
  guard? (length missing =? 0)%nat else MissingPhases missing in
  Ok by_phase.

(** [map]: the index panics on a missing phase, which a set never has. *)
Definition set_map (s : ChargingMapSet) (p : ChargingPhase) : option ChargingMap := bmap_lookup p s.

Definition total_attributed (s : ChargingMapSet) : ResourceTotal :=
  mkTotal (foldl (fun a m => a + cm_total m)%N 0%N (bmap_values s)) (derive (cm_source <$> bmap_values s)).

Fixpoint overlap_entries (phase : ChargingPhase) (l : list ChargingEntry) (owner : list (string * ChargingPhase))
  : CM (list (string * ChargingPhase)) :=
  match l with
  | [] => Ok owner
  | e :: rest =>
      match bmap_insert (ce_work_unit_id e) phase owner with
      | (Some first, _) => Err (OverlappingCharge (ce_work_unit_id e) first phase)
      | (None, owner) => overlap_entries phase rest owner
      end
  end.
Fixpoint overlap_maps (l : list ChargingMap) (owner : list (string * ChargingPhase)) : CM () :=
  match l with
  | [] => Ok ()
  | m :: rest => let? owner := overlap_entries (cm_phase m) (cm_entries m) owner in overlap_maps rest owner
  end.
Definition check_overlap (s : ChargingMapSet) : CM () := overlap_maps (bmap_values s) [].

(** The private [reduce] on [u64]. *)
Definition ledger_reduce (num den : N) : N * N :=
  let a := euclid 129 num den in ((num / a)%N, (den / a)%N).

Record ClosureReport := mkClosure {
  cl_attributed : N; cl_measured : N; cl_unclaimed : N; cl_gamma : N * N; cl_full : bool }.
Definition check_closure (s : ChargingMapSet) (measured : N) : CM ClosureReport :=
  let attributed := rt_amount (total_attributed s) in
  reject? (measured <? attributed)%N with MapNonConservation attributed measured in
  reject? (measured =? 0)%N with ZeroMeasuredTotal in
  let gamma := ledger_reduce (attributed mod 2 ^ 64)%N measured in
  Ok (mkClosure attributed measured (measured - attributed)%N gamma (fst gamma =? snd gamma)%N).

Definition PhasePolicy := list (CausalWorkClass * ChargingPhase).
Fixpoint policy_loop (l : list (CausalWorkClass * ChargingPhase)) (m : PhasePolicy) : CM PhasePolicy :=
  match l with
  | [] => Ok m
  | (c, p) :: rest =>
      match bmap_insert c p m with
      | (Some _, _) => Err (PolicyConflict c)
      | (None, m) => policy_loop rest m
      end
  end.
Definition PhasePolicy_new (assignments : list (CausalWorkClass * ChargingPhase)) : CM PhasePolicy :=
  let? m := policy_loop assignments [] in
  let? _ := for_each (fun c => guard? bmap_mem c m else IncompletePolicy c in Ok ()) CausalWorkClass_ALL in
  Ok m.
(** [self.assignments[&class]]; [None] would panic. *)
Definition phase_for (p : PhasePolicy) (c : CausalWorkClass) : option ChargingPhase := bmap_lookup c p.

Section Solve.
Context `{Platform}.

Definition solve_charge (policy : PhasePolicy) (by_phase : list (ChargingPhase * list ChargingEntry))
  (c : CausalWorkCharge) : option (list (ChargingPhase * list ChargingEntry)) :=
  phase ← phase_for policy (cw_class c);
  Some (bmap_update phase []
          (fun l => l ++ [mkEntry (Sha256Digest_to_hex (cw_work_unit_id c)) (cw_amount c) Exact]) by_phase).
Fixpoint solve_charges (policy : PhasePolicy) (by_phase : list (ChargingPhase * list ChargingEntry))
  (l : list CausalWorkCharge) : option (list (ChargingPhase * list ChargingEntry)) :=
  match l with
  | [] => Some by_phase
  | c :: rest => by_phase ← solve_charge policy by_phase c; solve_charges policy by_phase rest
  end.
(** [None] is the panic of [phase_for] on an unassigned class. *)
Fixpoint solve_receipts (policy : PhasePolicy) (by_phase : list (ChargingPhase * list ChargingEntry))
  (l : list CausalWorkReceipt) : option (CM (list (ChargingPhase * list ChargingEntry))) :=
  match l with
  | [] => Some (Ok by_phase)
  | r :: rest =>
      match CausalWorkReceipt_validate r with
      | Err e => Some (Err (InvalidReceipt e))
      | Ok _ =>
          by_phase ← solve_charges policy by_phase (cr_charges r);
          solve_receipts policy by_phase rest
      end
  end.
Fixpoint solve_maps (by_phase : list (ChargingPhase * list ChargingEntry)) (phases : list ChargingPhase)
  (maps : list ChargingMap) : CM (list ChargingMap) :=
  match phases with
  | [] => Ok maps
  | p :: rest =>
      let entries := default [] (bmap_lookup p by_phase) in
      let? m := ChargingMap_build p entries in
      solve_maps (bmap_delete p by_phase) rest (maps ++ [m])
  end.
Definition solve (policy : PhasePolicy) (receipts : list CausalWorkReceipt) : option (CM ChargingMapSet) :=
  if (length receipts =? 0)%nat then Some (Err EmptyReceiptSet)
  else
    r ← solve_receipts policy [] receipts;
    Some (let? by_phase := r in
          let? maps := solve_maps by_phase ChargingPhase_ALL [] in
          ChargingMapSet_new maps).
End Solve.

(** * Theorems

    Guarantees of the resource ledger and the charging maps: bills reconcile
    exactly within their tolerances, and solving receipts attributes every
    measured unit to one phase and conserves the measured total. *)

#[local] Open Scope N_scope.

(** * Labels and sums *)

Lemma foldl_sum {A} (f : A -> N) l : forall s, foldl (fun a x => a + f x) s l = s + sum_of f l.
Proof. induction l as [|x l IH]; intros s; cbn; [lia|]. rewrite IH. lia. Qed.

Lemma source_min_Exact a b : source_min a b = Exact <-> a = Exact /\ b = Exact.
Proof. destruct a, b; vm_compute; split; [|intros []|..]; intuition congruence. Qed.

Lemma derive_Exact l : derive l = Exact <-> forall s, s ∈ l -> s = Exact.
Proof.
  unfold derive. assert (Hg : forall a, foldl source_min a l = Exact <-> a = Exact /\ forall s, s ∈ l -> s = Exact).
  { induction l as [|x l IH]; intros a; cbn.
    - split; [intros ->; split; [done|by intros s ?%elem_of_nil]|by intros [-> _]].
    - rewrite IH, source_min_Exact. setoid_rewrite elem_of_cons. naive_solver. }
  rewrite Hg. tauto.
Qed.

#[global] Instance ChargingPhase_ord_ok : OrdOk ChargingPhase.
Proof. apply cmp_via_ok. intros [] []; by vm_compute. Qed.
#[global] Instance CausalWorkClass_ord_ok : OrdOk CausalWorkClass.
Proof. apply cmp_via_ok. intros [] []; by vm_compute. Qed.
#[global] Instance MeasurementSource_ord_ok : OrdOk MeasurementSource.
Proof. apply cmp_via_ok. intros [] []; by vm_compute. Qed.
#[global] Instance ChargingEntry_ord_ok : OrdOk ChargingEntry.
Proof. apply cmp_via_ok. by intros [] [] [= -> -> ->]. Qed.

(** * Maps *)

Lemma bmap_insert_fresh {K V} `{Ord K} (k : K) (v : V) m m' :
  bmap_insert k v m = (None, m') -> m' ≡ₚ (k, v) :: m.
Proof.
  revert m'. induction m as [|[k' v'] m IH]; intros m'; cbn; [by intros [= <-]|].
  destruct (cmp k k'); [done|by intros [= <-]|].
  destruct (bmap_insert k v m) as [o m1]. intros [= -> <-]. rewrite (IH m1 eq_refl). apply perm_swap.
Qed.

Lemma bmap_lookup_delete_ne {K V} `{Ord K, !OrdOk K} (k k' : K) (m : list (K * V)) :
  k <> k' -> bmap_lookup k' (bmap_delete k m) = bmap_lookup k' m.
Proof.
  intros Hne. induction m as [|[k1 v1] m IH]; [done|]. cbn. destruct (cmp k k1) eqn:Hc; cbn.
  - apply cmp_eq in Hc as <-. destruct (cmp k' k) eqn:Hc'; [by apply cmp_eq in Hc'|done..].
  - by rewrite <- IH.
  - by rewrite <- IH.
Qed.

Lemma entries_total_Ok l : forall t n,
  entries_total l t = Ok n -> n = t + sum_of ce_amount l.
Proof.
  induction l as [|e l IH]; intros t n; cbn; [intros [= <-]; lia|]. intros H.
  apply bind_Ok_inv in H as (m & Hm & H). apply ok_or_Ok_inv, checked_add_u64_exact in Hm as [-> _].
  apply IH in H. lia.
Qed.

(** A map holds its entries, each unit once, and their sum. *)
Lemma ChargingMap_build_Ok p l m :
  ChargingMap_build p l = Ok m ->
  cm_phase m = p /\ cm_entries m ≡ₚ l /\ cm_total m = sum_of ce_amount l /\
  cm_source m = derive (ce_source <$> cm_entries m).
Proof.
  unfold ChargingMap_build. rewrite bind_unit_Ok. intros [_ H]. pose proof (sort_by_key_perm id l) as Hp.
  fold (sort l) in Hp. destruct (adjacent_equal _ _); [done|].
  apply bind_Ok_inv in H as (n & Hn & [= <-]). apply entries_total_Ok in Hn as ->. cbn.
  split_and!; [done|done| |done]. by rewrite Hp.
Qed.

(** * Policies *)

Definition policy_total (p : PhasePolicy) : Prop := forall c, is_Some (phase_for p c).

Lemma bmap_mem_is_Some {K V} `{Ord K} (k : K) (m : list (K * V)) : bmap_mem k m = true <-> is_Some (bmap_lookup k m).
Proof.
  unfold bmap_mem. destruct (bmap_lookup k m) as [v|]; split; intros Hx; [by exists v|done|done|by destruct Hx].
Qed.

Lemma PhasePolicy_new_total l p : PhasePolicy_new l = Ok p -> policy_total p.
Proof.
  unfold PhasePolicy_new. intros H. apply bind_Ok_inv in H as (m & _ & H). rewrite bind_unit_Ok, for_each_Ok in H.
  destruct H as [H [= <-]]. intros c. apply bmap_mem_is_Some.
  assert (Hc : c ∈ CausalWorkClass_ALL) by (apply list_elem_of_In; destruct c; vm_compute; tauto).
  specialize (H c Hc). cbn in H. rewrite guard_Ok in H. by destruct H.
Qed.

(** * Solving *)

Definition entry_of (c : CausalWorkCharge) : ChargingEntry :=
  mkEntry (Sha256Digest_to_hex (cw_work_unit_id c)) (cw_amount c) Exact.
(** The entries a phase receives from charges. *)
Definition phase_charges (policy : PhasePolicy) (p : ChargingPhase) (l : list CausalWorkCharge) : list CausalWorkCharge :=
  List.filter (fun c => bool_decide (phase_for policy (cw_class c) = Some p)) l.

Notation entries_at p m := (default [] (bmap_lookup p m)).

Lemma solve_charges_Some policy l : forall bp,
  policy_total policy ->
  exists bp', solve_charges policy bp l = Some bp' /\
  forall p, entries_at p bp' = entries_at p bp ++ (entry_of <$> phase_charges policy p l).
Proof.
  induction l as [|c l IH]; intros bp Hp; cbn [solve_charges].
  - exists bp. split; [done|]. intros p. by rewrite app_nil_r.
  - destruct (Hp (cw_class c)) as [q Hq]. unfold solve_charge. rewrite Hq. cbn [mbind option_bind].
    destruct (IH (bmap_update q [] (fun l => l ++ [entry_of c]) bp) Hp) as (bp' & Hb & He).
    exists bp'. split; [exact Hb|]. intros p. rewrite He. unfold phase_charges. cbn [List.filter]. rewrite Hq.
    case_bool_decide as Hqp.
    + injection Hqp as <-. rewrite bmap_lookup_update. cbn. by rewrite <- app_assoc.
    + rewrite bmap_lookup_update_ne by congruence. done.
Qed.

Lemma phase_charges_app policy p l l' :
  phase_charges policy p (l ++ l') = phase_charges policy p l ++ phase_charges policy p l'.
Proof. apply List.filter_app. Qed.

Section SolveTheorems.
Context `{Platform}.

Definition all_charges (rs : list CausalWorkReceipt) : list CausalWorkCharge := rs ≫= cr_charges.

Lemma solve_receipts_Some policy rs : forall bp,
  policy_total policy ->
  exists r, solve_receipts policy bp rs = Some r /\
  forall bp', r = Ok bp' ->
    Forall (fun x => CausalWorkReceipt_validate x = Ok ()) rs /\
    forall p, entries_at p bp' = entries_at p bp ++ (entry_of <$> phase_charges policy p (all_charges rs)).
Proof.
  induction rs as [|x rs IH]; intros bp Hp; cbn [solve_receipts].
  - eexists. split; [done|]. intros bp' [= <-]. split; [constructor|]. intros p. by rewrite app_nil_r.
  - destruct (CausalWorkReceipt_validate x) as [[]|e] eqn:Hv; [|by eexists].
    destruct (solve_charges_Some policy (cr_charges x) bp Hp) as (bp1 & Hb & He). rewrite Hb. cbn [mbind option_bind].
    destruct (IH bp1 Hp) as (r & Hr & Hr'). exists r. split; [done|]. intros bp' Hok.
    destruct (Hr' bp' Hok) as [Hall He']. split; [by constructor|]. intros p. rewrite He', He.
    change (all_charges (x :: rs)) with (cr_charges x ++ all_charges rs).
    by rewrite phase_charges_app, fmap_app, app_assoc.
Qed.

Lemma solve_maps_Ok bp0 phases : forall bp maps ms,
  NoDup phases -> (forall p, p ∈ phases -> bmap_lookup p bp = bmap_lookup p bp0) ->
  solve_maps bp phases maps = Ok ms ->
  exists ms', ms = maps ++ ms' /\ Forall2 (fun p m => ChargingMap_build p (entries_at p bp0) = Ok m) phases ms'.
Proof.
  induction phases as [|p ps IH]; intros bp maps ms Hn Hbp; cbn [solve_maps].
  - intros [= <-]. exists []. rewrite app_nil_r. split; [done|constructor].
  - intros Hx. apply bind_Ok_inv in Hx as (m & Hm & Hx). apply NoDup_cons in Hn as [Hp Hn].
    apply IH in Hx as (ms' & -> & Hf); [|done|].
    + exists (m :: ms'). split; [by rewrite <- app_assoc|]. constructor; [|done]. rewrite <- Hbp; [done|by left].
    + intros p' Hp'. rewrite bmap_lookup_delete_ne by (by intros ->). apply Hbp. by right.
Qed.

Lemma by_phase_loop_Ok maps : forall bp s,
  bmap_wf bp -> by_phase_loop maps bp = Ok s ->
  bmap_wf s /\ s ≡ₚ bp ++ ((fun m => (cm_phase m, m)) <$> maps).
Proof.
  induction maps as [|m maps IH]; intros bp s Hw; cbn [by_phase_loop].
  - intros [= <-]. split; [done|]. by rewrite app_nil_r.
  - destruct (bmap_insert (cm_phase m) m bp) as [[o|] bp'] eqn:Hi; [done|]. intros Hx.
    pose proof (bmap_insert_wf (cm_phase m) m bp Hw) as Hw'. rewrite Hi in Hw'.
    apply IH in Hx as [Hws Hs]; [|done]. split; [done|]. rewrite Hs, (bmap_insert_fresh _ _ _ _ Hi). cbn.
    by rewrite Permutation_middle.
Qed.

Lemma ChargingPhase_ALL_NoDup : NoDup ChargingPhase_ALL.
Proof. apply (bool_decide_unpack _). vm_compute. done. Qed.

Lemma elem_of_phases p : p ∈ ChargingPhase_ALL.
Proof. apply list_elem_of_In. destruct p; vm_compute; tauto. Qed.

(** Over a total policy, the phases partition the charges. *)
Lemma phase_sums policy l :
  policy_total policy ->
  sum_of (fun p => sum_of cw_amount (phase_charges policy p l)) ChargingPhase_ALL = sum_of cw_amount l.
Proof.
  intros Hp. set (key := fun c => default RequestInfo (phase_for policy (cw_class c))).
  rewrite <- (sum_of_classes key cw_amount ChargingPhase_ALL l ChargingPhase_ALL_NoDup)
    by (intros; apply elem_of_phases).
  apply sum_of_ext. intros p _. unfold phase_charges. induction l as [|c l IH]; [done|]. cbn.
  rewrite <- IH. destruct (Hp (cw_class c)) as [q Hq].
  assert (Hk : key c = q) by (unfold key; by rewrite Hq). destruct (decide (q = p)) as [->|Hne].
  - rewrite !bool_decide_true by done. done.
  - rewrite !bool_decide_false by congruence. done.
Qed.

Lemma phase_partition policy l :
  policy_total policy -> concat ((fun p => phase_charges policy p l) <$> ChargingPhase_ALL) ≡ₚ l.
Proof.
  intros Hp. induction l as [|c l IH]; [reflexivity|]. destruct (Hp (cw_class c)) as [q Hq].
  assert (Hc : forall p, phase_charges policy p (c :: l) =
    (if bool_decide (q = p) then [c] else []) ++ phase_charges policy p l).
  { intros p. unfold phase_charges. cbn. rewrite Hq.
    destruct (decide (q = p)) as [->|Hne]; [by rewrite !bool_decide_true|].
    by rewrite !bool_decide_false by congruence. }
  transitivity (c :: concat ((fun p => phase_charges policy p l) <$> ChargingPhase_ALL)); [|by rewrite IH].
  unfold ChargingPhase_ALL. cbn [fmap list_fmap concat]. rewrite !Hc, !app_nil_r. clear Hc IH Hq.
  destruct q; repeat (rewrite bool_decide_false by done); rewrite bool_decide_true by done;
    repeat (rewrite bool_decide_false by done); cbn [app]; repeat rewrite <- Permutation_middle; reflexivity.
Qed.

(** ** Overlap *)

Lemma overlap_entries_Ok phase l : forall owner,
  bmap_wf owner ->
  (is_ok (overlap_entries phase l owner) = true <->
   NoDup (ce_work_unit_id <$> l) /\ forall x, x ∈ ce_work_unit_id <$> l -> x ∉ bmap_keys owner) /\
  forall owner', overlap_entries phase l owner = Ok owner' ->
    bmap_wf owner' /\ forall x, x ∈ bmap_keys owner' <-> x ∈ bmap_keys owner \/ x ∈ ce_work_unit_id <$> l.
Proof.
  induction l as [|e l IH]; intros owner Hw; cbn [overlap_entries fmap list_fmap].
  - split.
    + split; [intros _; split; [constructor|by intros x ?%elem_of_nil]|done].
    + intros owner' [= <-]. split; [done|]. intros x. rewrite elem_of_nil. tauto.
  - pose proof (bmap_insert_old (ce_work_unit_id e) phase owner Hw) as Hold.
    pose proof (bmap_insert_wf (ce_work_unit_id e) phase owner Hw) as Hw'.
    pose proof (elem_of_insert_keys (ce_work_unit_id e) phase owner) as Hk.
    destruct (bmap_insert (ce_work_unit_id e) phase owner) as [[o|] owner1]; cbn in Hold, Hw', Hk.
    + assert (Hin : ce_work_unit_id e ∈ bmap_keys owner) by (apply bmap_lookup_keys; by eexists).
      split; [|done]. split; [done|]. intros [_ Hx]. exfalso. by apply (Hx (ce_work_unit_id e)); [left|].
    + assert (Hni : ce_work_unit_id e ∉ bmap_keys owner).
      { rewrite <- bmap_lookup_keys, <- Hold. by intros []. }
      destruct (IH owner1 Hw') as [IH1 IH2]. split.
      * rewrite IH1, NoDup_cons. setoid_rewrite Hk. setoid_rewrite elem_of_cons. split.
        -- intros [Hn Hx]. split_and!; [|done|].
           ++ intros Hin. apply (Hx _ Hin). by left.
           ++ intros x [->|Hin]; [done|]. intros Ho. apply (Hx x Hin). by right.
        -- intros [[Hn1 Hn2] Hx]. split; [done|]. intros x Hin [->|Ho]; [done|]. by apply (Hx x); [right|].
      * intros owner' Ho. destruct (IH2 owner' Ho) as [Hwo Hko]. split; [done|].
        intros x. rewrite Hko, Hk, elem_of_cons. tauto.
Qed.

Lemma overlap_maps_Ok ms : forall owner,
  bmap_wf owner ->
  overlap_maps ms owner = Ok () <->
  NoDup (ce_work_unit_id <$> (ms ≫= cm_entries)) /\
  forall x, x ∈ ce_work_unit_id <$> (ms ≫= cm_entries) -> x ∉ bmap_keys owner.
Proof.
  induction ms as [|m ms IH]; intros owner Hw; cbn [overlap_maps].
  - split; [intros _; split; [constructor|by intros x ?%elem_of_nil]|done].
  - change ((m :: ms) ≫= cm_entries) with (cm_entries m ++ (ms ≫= cm_entries)).
    rewrite fmap_app, NoDup_app. setoid_rewrite elem_of_app.
    destruct (overlap_entries_Ok (cm_phase m) (cm_entries m) owner Hw) as [H1 H2].
    destruct (overlap_entries (cm_phase m) (cm_entries m) owner) as [owner'|e]; cbn in H1 |- *.
    + destruct (H2 owner' eq_refl) as [Hw' Hk]. rewrite (IH owner' Hw'). setoid_rewrite Hk.
      destruct (proj1 H1 eq_refl) as [Hn Hd]. naive_solver.
    + split; [done|]. intros [(Hn & _ & _) Hd].
      assert (false = true) by (apply H1; split; [done|]; intros x Hx; apply Hd; by left). done.
Qed.

Lemma hex_inj d d' : Sha256Digest_to_hex d = Sha256Digest_to_hex d' -> d = d'.
Proof.
  unfold Sha256Digest_to_hex, bytes_string. intros He.
  apply (f_equal String.list_ascii_of_string) in He. rewrite !String.list_ascii_of_string_of_list_ascii in He.
  pose proof (hex_pairs_to_hex d 0) as Hd. rewrite He, hex_pairs_to_hex in Hd. congruence.
Qed.

(** ** Closure *)

Lemma euclid_129 a b : b <= U64_MAX -> euclid 129 a b = N.gcd a b.
Proof. intros Hb. apply (euclid_gcd 64); [unfold U64_MAX in Hb; change (N.of_nat 64) with 64; lia|lia]. Qed.

(** [reduce] gives the fraction in lowest terms. *)
Lemma ledger_reduce_spec n d : 0 < d <= U64_MAX -> lowest_terms n d (ledger_reduce n d).
Proof. intros [Hd Hle]. unfold ledger_reduce. rewrite euclid_129 by done. by apply lowest_of_gcd. Qed.

(** What a set attributes, in the words of its receipts. *)
Record attributed_exactly (policy : PhasePolicy) (rs : list CausalWorkReceipt) (s : ChargingMapSet) : Prop := mkAttributed {
  at_receipts : Forall (fun r => CausalWorkReceipt_validate r = Ok ()) rs;
  at_maps : forall p, exists m, set_map s p = Some m /\ cm_phase m = p /\
    cm_entries m ≡ₚ entry_of <$> phase_charges policy p (all_charges rs) /\
    cm_total m = sum_of cw_amount (phase_charges policy p (all_charges rs));
  at_total : rt_amount (total_attributed s) =
    sum_of (fun r => pw_end (cr_measurement r) - pw_start (cr_measurement r)) rs;
  at_label : rt_source (total_attributed s) = Exact;
  at_overlap : check_overlap s = Ok () <-> NoDup (cw_work_unit_id <$> all_charges rs) }.

Lemma valid_amounts rs :
  Forall (fun r => CausalWorkReceipt_validate r = Ok ()) rs ->
  sum_of cw_amount (all_charges rs) = sum_of (fun r => pw_end (cr_measurement r) - pw_start (cr_measurement r)) rs.
Proof.
  induction 1 as [|r rs Hr _ IH]; [done|].
  change (all_charges (r :: rs)) with (cr_charges r ++ all_charges rs). rewrite sum_of_app, IH. cbn. f_equal.
  apply validate_sound in Hr. apply (cv_conserved _ Hr).
Qed.

Lemma solved_maps policy rs bp ms :
  (forall p, entries_at p bp = entry_of <$> phase_charges policy p (all_charges rs)) ->
  Forall2 (fun p m => ChargingMap_build p (entries_at p bp) = Ok m) ChargingPhase_ALL ms ->
  Forall2 (fun p m => cm_phase m = p /\ cm_entries m ≡ₚ entry_of <$> phase_charges policy p (all_charges rs) /\
    cm_total m = sum_of cw_amount (phase_charges policy p (all_charges rs)) /\ cm_source m = Exact)
    ChargingPhase_ALL ms.
Proof.
  intros Hbp Hf. eapply Forall2_impl; [exact Hf|]. intros p m Hb.
  apply ChargingMap_build_Ok in Hb as (Hp & He & Ht & Hs). rewrite Hbp in He, Ht. split_and!; [done|done| |].
  - by rewrite Ht, sum_of_fmap.
  - rewrite Hs. apply derive_Exact. intros x Hx. rewrite He in Hx.
    apply list_elem_of_fmap in Hx as (e & -> & Hx). by apply list_elem_of_fmap in Hx as (c & -> & _).
Qed.

Lemma Forall2_entries {A} (P : ChargingPhase -> ChargingMap -> Prop) (f : ChargingPhase -> list A) (g : A -> ChargingEntry) ps ms :
  Forall2 P ps ms -> (forall p m, P p m -> cm_entries m ≡ₚ g <$> f p) ->
  ms ≫= cm_entries ≡ₚ g <$> concat (f <$> ps).
Proof.
  intros Hf Hp. induction Hf as [|p m ps ms Hpm _ IH]; [done|].
  change ((m :: ms) ≫= cm_entries) with (cm_entries m ++ (ms ≫= cm_entries)). cbn.
  by rewrite fmap_app, (Hp _ _ Hpm), IH.
Qed.

Lemma Forall2_totals {A} (P : A -> ChargingMap -> Prop) (f : A -> N) ps ms :
  Forall2 P ps ms -> (forall p m, P p m -> cm_total m = f p) -> sum_of cm_total ms = sum_of f ps.
Proof. intros Hf Hp. induction Hf as [|p m ps ms Hpm _ IH]; [done|]. cbn. rewrite (Hp _ _ Hpm). congruence. Qed.

Lemma attributed_of_maps policy rs s ms :
  policy_total policy -> Forall (fun r => CausalWorkReceipt_validate r = Ok ()) rs ->
  Forall2 (fun p m => cm_phase m = p /\ cm_entries m ≡ₚ entry_of <$> phase_charges policy p (all_charges rs) /\
    cm_total m = sum_of cw_amount (phase_charges policy p (all_charges rs)) /\ cm_source m = Exact)
    ChargingPhase_ALL ms ->
  bmap_wf s -> s ≡ₚ ((fun m => (cm_phase m, m)) <$> ms) ->
  attributed_exactly policy rs s.
Proof.
  intros Hp Hv Hf Hw Hs.
  assert (Hvals : bmap_values s ≡ₚ ms).
  { unfold bmap_values. rewrite Hs, <- list_fmap_compose. by rewrite list_fmap_id. }
  split; [done|..].
  - intros p. destruct (proj1 (list_elem_of_lookup _ _) (elem_of_phases p)) as [i Hi].
    destruct (Forall2_lookup_l _ _ _ _ _ Hf Hi) as (m & Hm & Hph & He & Ht & _). exists m. split_and!; try done.
    apply bmap_lookup_elem; [done|]. rewrite Hs. apply list_elem_of_fmap. exists m. split; [by rewrite Hph|].
    by eapply list_elem_of_lookup_2.
  - unfold total_attributed. cbn. rewrite foldl_sum, N.add_0_l, Hvals, <- valid_amounts by done.
    rewrite <- (phase_sums policy (all_charges rs) Hp). eapply Forall2_totals; [exact Hf|]. by intros p m (_ & _ & ? & _).
  - unfold total_attributed. cbn. apply derive_Exact. intros x Hx. rewrite Hvals in Hx.
    apply list_elem_of_fmap in Hx as (m & -> & Hm). apply list_elem_of_lookup in Hm as [i Hi].
    by destruct (Forall2_lookup_r _ _ _ _ _ Hf Hi) as (p & _ & _ & _ & _ & ?).
  - unfold check_overlap. rewrite overlap_maps_Ok by constructor.
    rewrite Hvals, (Forall2_entries _ (fun p => phase_charges policy p (all_charges rs)) entry_of _ _ Hf)
      by (by intros p m (_ & ? & _)).
    rewrite (phase_partition policy _ Hp), <- list_fmap_compose.
    rewrite (list_fmap_ext (ce_work_unit_id ∘ entry_of) (Sha256Digest_to_hex ∘ cw_work_unit_id)) by done.
    rewrite list_fmap_compose. split.
    + intros [Hn _]. by eapply NoDup_fmap_1.
    + intros Hn. split; [|intros x _; apply not_elem_of_nil]. apply NoDup_fmap_2; [intros d d'; apply hex_inj|done].
Qed.

(** Under a total phase policy, solving measured receipts always decides
    and a solved set attributes exactly: every receipt is valid, each phase's
    map holds the charges the policy assigns to it with their sum, the total
    attributed is the sum of the measured deltas and is labelled exact, the
    overlap check passes exactly when no work unit is charged twice, and the
    closure against that measured total is full with ratio 1. *)
Theorem charging_solve_exact (assignments : list (CausalWorkClass * ChargingPhase)) (policy : PhasePolicy)
  (rs : list CausalWorkReceipt) :
  PhasePolicy_new assignments = Ok policy ->
  exists r, solve policy rs = Some r /\
  forall s, r = Ok s ->
    attributed_exactly policy rs s /\
    let measured := sum_of (fun r => pw_end (cr_measurement r) - pw_start (cr_measurement r)) rs in
    (0 < measured <= U64_MAX -> check_closure s measured = Ok (mkClosure measured measured 0 (1, 1) true)).
Proof.
  intros Hpol%PhasePolicy_new_total. unfold solve. destruct rs as [|r0 rs0]; [by eexists|].
  cbn [length Nat.eqb]. set (rs := r0 :: rs0) in *. clearbody rs.
  destruct (solve_receipts_Some policy rs [] Hpol) as (r & Hr & Hspec). rewrite Hr. cbn [mbind option_bind].
  eexists. split; [done|]. intros s Hs. apply bind_Ok_inv in Hs as (bp & -> & Hs).
  destruct (Hspec bp eq_refl) as [Hv Hbp]. apply bind_Ok_inv in Hs as (ms & Hms & Hs).
  apply (solve_maps_Ok bp) in Hms as (ms' & -> & Hf); [|apply ChargingPhase_ALL_NoDup|done].
  unfold ChargingMapSet_new in Hs. apply bind_Ok_inv in Hs as (s' & Hs' & Hs). rewrite guard_Ok in Hs.
  destruct Hs as [_ [= <-]]. apply by_phase_loop_Ok in Hs' as [Hw Hs']; [|constructor].
  assert (Ha : attributed_exactly policy rs s').
  { eapply attributed_of_maps; [done|done|eapply solved_maps; [exact Hbp|exact Hf]|done|done]. }
  split; [done|]. intros Hm. unfold check_closure. rewrite (at_total _ _ _ Ha).
  set (measured := sum_of _ rs) in *. clearbody measured.
  rewrite N.ltb_irrefl. destruct (N.eqb_spec measured 0); [lia|]. rewrite N.sub_diag.
  rewrite N.mod_small by (unfold U64_MAX in Hm; lia). unfold ledger_reduce. rewrite euclid_129 by lia.
  rewrite N.gcd_diag, N.div_same by done. done.
Qed.
End SolveTheorems.

(** * Bills *)

Definition class_rows (rows : ResourceLedger) (c : ResourceClass) : list ResourceRow :=
  filter (fun r => rw_class r = c) rows.

(** What a bill line needs: a named provider, a tolerance of at most one, no
    charge where the ledger has no row, and otherwise a deviation within the
    declared share of the bill. *)
Definition line_admissible (rows : ResourceLedger) (b : ProviderBillLine) : Prop :=
  bl_provider b <> EmptyString /\ bl_tolerance_ppm b <= PPM_ONE /\
  if decide (class_rows rows (bl_class b) = []) then bl_billed_amount b = 0
  else abs_diff (sum_of rw_amount (class_rows rows (bl_class b))) (bl_billed_amount b) * PPM_ONE
       <= bl_billed_amount b * bl_tolerance_ppm b.

(** A line that keeps the whole report exact. *)
Definition line_exact (rows : ResourceLedger) (b : ProviderBillLine) : Prop :=
  class_rows rows (bl_class b) = [] \/
  sum_of rw_amount (class_rows rows (bl_class b)) = bl_billed_amount b /\ bl_tolerance_ppm b = 0 /\
  Forall (fun r => rw_source r = Exact) (class_rows rows (bl_class b)).

Lemma total_for_spec rows c :
  total_for rows c = if decide (class_rows rows c = []) then None
    else Some (mkTotal (sum_of rw_amount (class_rows rows c)) (derive (rw_source <$> class_rows rows c))).
Proof.
  unfold total_for, grand_total. fold (class_rows rows c). rewrite foldl_sum, N.add_0_l.
  by destruct (class_rows rows c).
Qed.

Lemma string_length_0 s : (String.length s =? 0)%nat = bool_decide (s = EmptyString).
Proof. destruct s; cbn; [by rewrite bool_decide_true|by rewrite bool_decide_false]. Qed.

(** One line: accepted exactly when admissible, with its exactness. *)
Lemma reconcile_line_spec rows b :
  bl_billed_amount b <= U64_MAX ->
  (is_ok (reconcile_line rows b) = true <-> line_admissible rows b) /\
  forall line ex, reconcile_line rows b = Ok (line, ex) ->
    ln_class line = bl_class b /\ ln_ledger_total line = sum_of rw_amount (class_rows rows (bl_class b)) /\
    (ln_status line = ReconcilesExactly /\ ex = true <-> line_exact rows b).
Proof.
  intros Hw. unfold reconcile_line, line_admissible, line_exact. rewrite string_length_0, total_for_spec.
  case_bool_decide as Hp; [split; [split; [done|by intros [? _]]|done]|].
  destruct (N.ltb_spec PPM_ONE (bl_tolerance_ppm b)) as [Ht|Ht]; [split; [split; [done|intros (_ & ? & _); lia]|done]|].
  destruct (decide (class_rows rows (bl_class b) = [])) as [Hr|Hr].
  - destruct (N.ltb_spec 0 (bl_billed_amount b)); [split; [split; [done|intros (_ & _ & ?); lia]|done]|].
    split; [split; [intros _; split_and!; [done|done|lia]|done]|].
    intros line ex [= <- <-]. rewrite Hr. split_and!; [done|done|]. cbn. tauto.
  - cbn [rt_amount rt_source]. set (sum := sum_of rw_amount _). set (dev := abs_diff sum (bl_billed_amount b)).
    assert (Hwt : within_tolerance dev (bl_billed_amount b) (bl_tolerance_ppm b) =
      (dev * PPM_ONE <=? bl_billed_amount b * bl_tolerance_ppm b)).
    { unfold within_tolerance. destruct (N.leb_spec (dev * PPM_ONE) (bl_billed_amount b * bl_tolerance_ppm b)) as [Hle|];
        [|by rewrite andb_false_r].
      rewrite andb_true_r. apply N.ltb_lt. unfold U64_MAX, PPM_ONE in *. nia. }
    rewrite Hwt. destruct (N.leb_spec (dev * PPM_ONE) (bl_billed_amount b * bl_tolerance_ppm b)) as [Hle|Hle];
      [|split; [split; [done|intros (_ & _ & ?); lia]|done]].
    split; [split; [by intros _|done]|]. intros line ex [= <- <-]. cbn. split_and!; [done|done|].
    assert (Hdev : dev = 0 <-> sum = bl_billed_amount b) by (unfold dev, abs_diff; lia).
    assert (Hex : derive (rw_source <$> class_rows rows (bl_class b)) = Exact <->
      Forall (fun r => rw_source r = Exact) (class_rows rows (bl_class b))).
    { rewrite derive_Exact, Forall_forall. split.
      - intros Hd r Hin. apply Hd. by apply list_elem_of_fmap_2.
      - intros Hd x (r & -> & Hin)%list_elem_of_fmap. by apply Hd. }
    rewrite bool_decide_eq_true, Hex.
    destruct (N.eqb_spec dev 0), (N.eqb_spec (bl_tolerance_ppm b) 0); cbn; intuition (congruence || lia).
Qed.

Lemma reconcile_loop_spec rows bills : forall lines ae ai,
  Forall (fun b => bl_billed_amount b <= U64_MAX) bills ->
  (is_ok (reconcile_loop rows bills lines ae ai) = true <-> Forall (line_admissible rows) bills) /\
  forall rep, reconcile_loop rows bills lines ae ai = Ok rep ->
    pr_overall rep = StateExact <-> (ae = true /\ ai = false) /\ Forall (line_exact rows) bills.
Proof.
  induction bills as [|b bills IH]; intros lines ae ai Hw; cbn [reconcile_loop].
  - split; [split; [constructor|done]|]. intros rep [= <-]. cbn.
    destruct ae, ai; cbn; intuition (discriminate || constructor).
  - apply Forall_cons in Hw as [Hb Hw]. destruct (reconcile_line_spec rows b Hb) as [H1 H2]. rewrite !Forall_cons.
    destruct (reconcile_line rows b) as [[line ex]|e]; cbn in H1 |- *.
    + destruct (H2 line ex eq_refl) as (_ & _ & Hex).
      destruct (IH (lines ++ [line]) (ae && bool_decide (ln_status line = ReconcilesExactly)) (ai || negb ex) Hw)
        as [IH1 IH2]. split; [tauto|]. intros rep Hrep. rewrite (IH2 rep Hrep), Forall_cons, <- Hex.
      rewrite andb_true_iff, orb_false_iff, negb_false_iff, bool_decide_eq_true. tauto.
    + split; [|done]. rewrite <- H1. split; [done|by intros [? _]].
Qed.

(** A provider bill reconciles exactly when every line is admissible: the
    provider is named, the tolerance is at most one, a class with no row bills
    nothing, and the ledger's sum for the class deviates from the billed amount
    by at most the declared parts per million of it; and the report is labelled
    exact exactly when every charged line agrees with no tolerance and every
    contributing row is an exact reading. *)
Theorem reconcile_exact (rows : ResourceLedger) (bills : list ProviderBillLine) :
  Forall (fun b => bl_billed_amount b <= U64_MAX) bills ->
  ((exists rep, reconcile rows bills = Ok rep) <-> Forall (line_admissible rows) bills) /\
  (forall rep, reconcile rows bills = Ok rep ->
     pr_overall rep = StateExact <-> Forall (line_exact rows) bills).
Proof.
  intros Hw. destruct (reconcile_loop_spec rows bills [] true false Hw) as [H1 H2]. unfold reconcile. split.
  - rewrite <- H1. destruct (reconcile_loop rows bills [] true false) as [rep|e]; cbn; split; try done;
      [by exists rep|by intros [? ?]].
  - intros rep Hrep. rewrite (H2 rep Hrep). tauto.
Qed.
