(* ===== verification/Campaign.v ===== *)
(** Reuse campaigns and their break-even horizons
    ([zero-ledger/src/campaign.rs]) and the frontier-closure decomposition
    ([frontier.rs]).  An [option] result is [None] where the source would
    panic on an [expect] or an index. *)

From S2P Require Import Prelude.
From S2P Require Import Ordering.
From S2P Require Import Sums.
From S2P Require Import Ledger.

#[local] Open Scope N_scope.

(** * Fractions *)

(** [gcd] on [u128]: 257 rounds are enough for its width. *)
Definition campaign_gcd (a b : N) : N := euclid 257 a b.

(** [u64::try_from(..).expect(..)]. *)
Definition expect_u64 (n : N) : option N := if n <=? U64_MAX then Some n else None.

Definition campaign_reduce (num den : N) : option (N * N) :=
  d ← expect_u64 (campaign_gcd num den);
  Some (num / d, den / d).

(** * Campaigns *)

Record ReuseCampaign := mkCampaign {
  rc_cold_build_cost : N;
  rc_per_use_cost : N;
  rc_alternative_per_use_cost : N;
  rc_reuse_count : N }.

Inductive CampaignError :=
| Impossible (reason : string)
| WarmRunClaimOmitsColdBuild (claimed cold_build : N).

Definition ReuseCampaign_new (cold per_use alternative count : N) : result CampaignError ReuseCampaign :=
  reject? (count =? 0) with Impossible "reuse campaign has no uses: denominator nonpositive" in
  reject? (alternative <=? per_use)
    with Impossible "per-use savings nonpositive: the alternative is not strictly more expensive than the campaign" in
  Ok (mkCampaign cold per_use alternative count).

(** [Deserialize for ReuseCampaign]: through the constructor. *)
Definition ReuseCampaign_from_wire (w : ReuseCampaign) : result CampaignError ReuseCampaign :=
  ReuseCampaign_new (rc_cold_build_cost w) (rc_per_use_cost w) (rc_alternative_per_use_cost w) (rc_reuse_count w).

Definition per_use_savings (c : ReuseCampaign) : N := rc_alternative_per_use_cost c - rc_per_use_cost c.
Definition total_campaign_cost (c : ReuseCampaign) : N :=
  rc_cold_build_cost c + rc_per_use_cost c * rc_reuse_count c.
Definition alternative_total_cost (c : ReuseCampaign) : N := rc_alternative_per_use_cost c * rc_reuse_count c.

(** [i128::try_from(..).expect("fits i128")]. *)
Definition expect_i128 (n : N) : option Z := if n <? 2 ^ 127 then Some (Z.of_N n) else None.
Definition campaign_surplus (c : ReuseCampaign) : option Z :=
  a ← expect_i128 (alternative_total_cost c);
  t ← expect_i128 (total_campaign_cost c);
  Some (a - t)%Z.

Definition amortized_cold_per_use (c : ReuseCampaign) : option (N * N) :=
  campaign_reduce (rc_cold_build_cost c) (rc_reuse_count c).
Definition allocated_per_use (c : ReuseCampaign) : N * N :=
  let numerator := rc_cold_build_cost c + rc_per_use_cost c * rc_reuse_count c in
  let divisor := campaign_gcd numerator (rc_reuse_count c) in
  (numerator / divisor, rc_reuse_count c / divisor).

Definition strict_break_even_uses (c : ReuseCampaign) : option N :=
  if rc_cold_build_cost c =? 0 then Some 0
  else expect_u64 (div_ceil (rc_cold_build_cost c) (per_use_savings c)).

(** [(99 * len).div_ceil(100)] on [usize]. *)
Definition q99_rank (len : nat) : nat := N.to_nat (div_ceil ((99 * N.of_nat len) mod 2 ^ 64) 100).

Definition q99_break_even_uses (c : ReuseCampaign) (observed : list N) : option (result CampaignError N) :=
  if (length observed =? 0)%nat then
    Some (Err (Impossible "no per-use savings observations: Q99 break-even is underdetermined"))
  else
    let sorted := sort observed in
    let rank := q99_rank (length sorted) in
    if (rank =? 0)%nat then None
    else
      q99 ← sorted !! (rank - 1)%nat;
      if q99 =? 0 then Some (Err (Impossible "zero Q99 savings: no finite break-even horizon"))
      else if rc_cold_build_cost c =? 0 then Some (Ok 0)
      else h ← expect_u64 (div_ceil (rc_cold_build_cost c) q99); Some (Ok h).

Definition check_claim_includes_cold_build (c : ReuseCampaign) (claimed : N) : result CampaignError () :=
  reject? (claimed <? rc_cold_build_cost c) with WarmRunClaimOmitsColdBuild claimed (rc_cold_build_cost c) in
  Ok ().

(** * Frontier closure *)

Inductive FrontierTerm := Preparation | PreparedPath | NoveltyFallback.
Definition FrontierTerm_ALL : list FrontierTerm := [Preparation; PreparedPath; NoveltyFallback].

Record LimitingBurden := mkBurden { lb_term : FrontierTerm; lb_normalized : N * N; lb_absolute : N }.

Record FrontierClosure := mkFrontier {
  fc_baseline_total : N;
  fc_optimized_total : N;
  fc_preparation : N;
  fc_prepared_path : N;
  fc_novelty_fallback : N }.

Inductive FrontierError :=
| ZeroBaselineTotal
| TermSumMismatch (term_sum optimized : N)
| FrontierOverflow.

Definition term_sum (a b c : N) : option N := s ← checked_add_u64 a b; checked_add_u64 s c.

Definition FrontierClosure_new (baseline optimized preparation prepared novelty : N)
  : result FrontierError FrontierClosure :=
  reject? (baseline =? 0) with ZeroBaselineTotal in
  let? s := ok_or (term_sum preparation prepared novelty) FrontierOverflow in
  guard? (s =? optimized) else TermSumMismatch s optimized in
  Ok (mkFrontier baseline optimized preparation prepared novelty).

Definition frontier_term (f : FrontierClosure) (t : FrontierTerm) : N :=
  match t with
  | Preparation => fc_preparation f | PreparedPath => fc_prepared_path f
  | NoveltyFallback => fc_novelty_fallback f end.

(** The file's own copy of [reduce]. *)
Definition frontier_reduce (num den : N) : option (N * N) := campaign_reduce num den.
Definition normalized_term (f : FrontierClosure) (t : FrontierTerm) : option (N * N) :=
  frontier_reduce (frontier_term f t) (fc_baseline_total f).
Definition optimized_ratio (f : FrontierClosure) : option (N * N) :=
  frontier_reduce (fc_optimized_total f) (fc_baseline_total f).
Definition closure_holds (f : FrontierClosure) : bool :=
  bool_decide (term_sum (fc_preparation f) (fc_prepared_path f) (fc_novelty_fallback f) =
               Some (fc_optimized_total f)).

Fixpoint burden_loop (f : FrontierClosure) (terms : list FrontierTerm) (best : option LimitingBurden)
  : option (option LimitingBurden) :=
  match terms with
  | [] => Some best
  | t :: rest =>
      normalized ← normalized_term f t;
      let greater :=
        match best with
        | None => true
        | Some b => (fst (lb_normalized b) * snd normalized <? fst normalized * snd (lb_normalized b))
        end in
      burden_loop f rest (if greater then Some (mkBurden t normalized (frontier_term f t)) else best)
  end.
Definition largest_limiting_burden (f : FrontierClosure) : option (option LimitingBurden) :=
  best ← burden_loop f FrontierTerm_ALL None;
  Some (b ← best; if lb_absolute b =? 0 then None else Some b).

(** * Lemmas *)

Lemma campaign_gcd_spec a b : b < 2 ^ 128 -> campaign_gcd a b = N.gcd a b.
Proof. intros Hb. apply (euclid_gcd 128); [done|lia]. Qed.

Lemma u64_u128 n : n <= U64_MAX -> n < 2 ^ 128.
Proof. unfold U64_MAX. intros H. eapply N.le_lt_trans; [exact H|]. by vm_compute. Qed.

Lemma campaign_reduce_spec n d :
  n <= U64_MAX -> 0 < d <= U64_MAX -> exists f, campaign_reduce n d = Some f /\ lowest_terms n d f.
Proof.
  intros Hn [Hd Hle]. unfold campaign_reduce. rewrite campaign_gcd_spec by (by apply u64_u128).
  assert (N.gcd n d <= d) by (apply N.divide_pos_le; [done|apply N.gcd_divide_r]).
  unfold expect_u64. destruct (N.leb_spec (N.gcd n d) U64_MAX); [|lia]. cbn.
  eexists. split; [done|]. by apply lowest_of_gcd.
Qed.

(** * Theorems

    Guarantees of reuse campaigns and frontier closures: horizons are the
    least counts that pay the cold build back, reported fractions are exact
    and reduced, and the limiting burden is the first largest term. *)

#[local] Opaque campaign_gcd campaign_reduce.

(** * Horizons *)

Definition campaign_widths (c : ReuseCampaign) : Prop :=
  rc_cold_build_cost c <= U64_MAX /\ rc_per_use_cost c <= U64_MAX /\
  rc_alternative_per_use_cost c <= U64_MAX /\ rc_reuse_count c <= U64_MAX.

(** Uses after which the campaign has cost no more than the alternative. *)
Definition paid_back (c : ReuseCampaign) (uses : N) : Prop :=
  rc_cold_build_cost c + uses * rc_per_use_cost c <= uses * rc_alternative_per_use_cost c.

Lemma div_ceil_le_num a b : 0 < b -> div_ceil a b <= a.
Proof. intros Hb. apply div_ceil_le; [done|]. nia. Qed.

(** [ceil(cold / saving)] is the least number of savings that cover the cold
    build, and always fits. *)
Lemma horizon_spec cold saving :
  cold <= U64_MAX -> 0 < saving ->
  exists h, (if cold =? 0 then Some 0 else expect_u64 (div_ceil cold saving)) = Some h /\
  forall m, cold <= m * saving <-> h <= m.
Proof.
  intros Hc Hs. destruct (N.eqb_spec cold 0) as [->|Hz].
  - exists 0. split; [done|]. intros m. lia.
  - pose proof (div_ceil_le_num cold saving Hs) as Hle. unfold expect_u64.
    destruct (N.leb_spec (div_ceil cold saving) U64_MAX); [|lia]. eexists. split; [done|].
    intros m. rewrite div_ceil_le by done. by rewrite N.mul_comm.
Qed.

Lemma campaign_new_Ok cold w a n c :
  ReuseCampaign_new cold w a n = Ok c -> c = mkCampaign cold w a n /\ 0 < n /\ w < a.
Proof.
  unfold ReuseCampaign_new. rewrite !reject_Ok. intros (Hn & Ha & [= <-]). breflect. split_and!; [done|lia|lia].
Qed.

(** For every accepted campaign the strict break-even horizon exists and
    is the least number of uses at which the campaign has cost no more than the
    alternative; the reported surplus, where it is reported, is the exact
    difference and is nonnegative exactly when the actual uses reach that
    horizon; and the per-use shares are the exact fractions in lowest terms. *)
Theorem campaign_break_even_exact (cold w a n : N) (c : ReuseCampaign) :
  ReuseCampaign_new cold w a n = Ok c -> campaign_widths c ->
  exists h, strict_break_even_uses c = Some h /\
    (forall m, paid_back c m <-> h <= m) /\
    (forall z, campaign_surplus c = Some z ->
       z = (Z.of_N (alternative_total_cost c) - Z.of_N (total_campaign_cost c))%Z /\
       ((0 <= z)%Z <-> h <= rc_reuse_count c)) /\
    (exists f, amortized_cold_per_use c = Some f /\ lowest_terms (rc_cold_build_cost c) (rc_reuse_count c) f) /\
    lowest_terms (total_campaign_cost c) (rc_reuse_count c) (allocated_per_use c).
Proof.
  intros (-> & Hn & Ha)%campaign_new_Ok (Hc & _ & _ & Hr). cbn in *.
  destruct (horizon_spec cold (a - w)) as (h & Hh & Hm); [done|lia|].
  assert (Hpb : forall m, paid_back (mkCampaign cold w a n) m <-> h <= m).
  { intros m. rewrite <- Hm. unfold paid_back. cbn. rewrite N.mul_sub_distr_l. nia. }
  exists h. split_and!; [exact Hh|exact Hpb| | |].
  - intros z Hz. unfold campaign_surplus in Hz. cbn in Hz.
    unfold expect_i128 in Hz. destruct (N.ltb_spec (alternative_total_cost (mkCampaign cold w a n)) (2 ^ 127)); [|done].
    cbn in Hz. destruct (N.ltb_spec (total_campaign_cost (mkCampaign cold w a n)) (2 ^ 127)); [|done].
    cbn in Hz. injection Hz as <-. split; [done|]. rewrite <- (Hpb n).
    unfold paid_back, alternative_total_cost, total_campaign_cost. cbn. lia.
  - unfold amortized_cold_per_use. cbn [rc_cold_build_cost rc_reuse_count]. apply campaign_reduce_spec; [done|lia].
  - unfold allocated_per_use. cbn. rewrite campaign_gcd_spec by (by apply u64_u128). by apply lowest_of_gcd.
Qed.

(** The surplus is not reported for every accepted campaign: the totals of
    [u64] costs reach [2^128] and the conversion to [i128] panics. *)
Theorem campaign_surplus_panics :
  exists c, ReuseCampaign_new 0 0 U64_MAX U64_MAX = Ok c /\ campaign_widths c /\ campaign_surplus c = None.
Proof.
  exists (mkCampaign 0 0 U64_MAX U64_MAX). split_and!; [by vm_compute|by vm_compute|by vm_compute].
Qed.

(** * The 99th percentile *)

Notation count P l := (N.of_nat (length (filter P l))).

Lemma sort_sorted_le (l : list N) : StronglySorted N.le (sort l).
Proof.
  apply Sorted_StronglySorted; [intros x y z; lia|].
  assert (Hs : Sorted (fun a b : N => geb b a) (sort l)).
  { apply (sort_by_key_sorted id). }
  induction Hs as [|x s Hs IH Hx]; constructor; [done|]. destruct Hx as [|y s Hxy]; constructor.
  unfold geb, ltb, id, cmp, N_ord in Hxy. destruct (N.compare_spec y x); [lia|by cbn in Hxy|lia].
Qed.

(** The order statistic at an index of the sorted sample. *)
Lemma sorted_counts (s : list N) i q :
  StronglySorted N.le s -> s !! i = Some q ->
  N.of_nat i < count (fun x => x <= q) s /\ count (fun x => x < q) s <= N.of_nat i.
Proof.
  intros Hs. revert i. induction Hs as [|x s Hs IH Hx]; intros i Hi; [done|]. rewrite Forall_forall in Hx.
  destruct i as [|i]; cbn in Hi.
  - injection Hi as ->. rewrite filter_cons_True by lia. rewrite filter_cons_False by lia. cbn [length].
    split; [lia|]. rewrite filter_none; [done|]. intros y Hy. apply Hx in Hy. lia.
  - destruct (IH i Hi) as [H1 H2].
    assert (x <= q) by (apply Hx; by eapply list_elem_of_lookup_2).
    rewrite filter_cons_True by done. cbn [length]. split; [lia|].
    rewrite filter_cons. destruct (decide (x < q)); cbn [length]; lia.
Qed.

(** The value at rank [ceil(0.99 * len)]: at least 99 in 100 observations are
    at most it, and fewer are below it. *)
Definition is_q99 (obs : list N) (q : N) : Prop :=
  q ∈ obs /\ 99 * N.of_nat (length obs) <= 100 * count (fun x => x <= q) obs /\
  100 * count (fun x => x < q) obs < 99 * N.of_nat (length obs).

Lemma q99_rank_spec len :
  (0 < len)%nat -> N.of_nat len <= 2 ^ 57 ->
  99 * N.of_nat len <= 100 * N.of_nat (q99_rank len) /\ 100 * N.of_nat (q99_rank len - 1) < 99 * N.of_nat len /\
  (0 < q99_rank len <= len)%nat.
Proof.
  intros Hl Hle. unfold q99_rank. rewrite N.mod_small by lia.
  set (r := div_ceil (99 * N.of_nat len) 100).
  assert (Hr : forall t, r <= t <-> 99 * N.of_nat len <= 100 * t) by (intros t; by apply div_ceil_le).
  pose proof (proj1 (Hr r) ltac:(lia)) as H1. pose proof (Hr (r - 1)) as H2. pose proof (Hr (N.of_nat len)) as H3.
  assert (0 < r) by lia. split_and!; [lia| |lia|lia].
  destruct (decide (99 * N.of_nat len <= 100 * (r - 1))); lia.
Qed.

Lemma q99_found (obs : list N) :
  obs <> [] -> N.of_nat (length obs) <= 2 ^ 57 ->
  exists q, sort obs !! (q99_rank (length (sort obs)) - 1)%nat = Some q /\ is_q99 obs q.
Proof.
  intros Hne Hle. pose proof (sort_by_key_perm id obs) as Hp. fold (sort obs) in Hp.
  assert (Hlen : length (sort obs) = length obs) by (by rewrite Hp).
  rewrite Hlen. destruct (q99_rank_spec (length obs)) as (H1 & H2 & H3); [by destruct obs; [|cbn; lia]|done|].
  destruct (lookup_lt_is_Some_2 (sort obs) (q99_rank (length obs) - 1)) as [q Hq]; [lia|].
  exists q. split; [done|]. destruct (sorted_counts _ _ _ (sort_sorted_le obs) Hq) as [Ha Hb].
  rewrite Hp in Ha, Hb. split_and!; [|lia|lia]. rewrite <- Hp. by eapply list_elem_of_lookup_2.
Qed.

(** The 99th-percentile horizon decides every sample: it is refused
    exactly for an empty sample or a zero percentile, and otherwise it is the
    least number of uses at which the sample's exact 99th-percentile saving
    covers the cold build.  It never panics. *)
Theorem q99_horizon_exact (c : ReuseCampaign) (obs : list N) :
  rc_cold_build_cost c <= U64_MAX -> N.of_nat (length obs) <= 2 ^ 57 ->
  match q99_break_even_uses c obs with
  | Some (Ok h) => exists q, is_q99 obs q /\ 0 < q /\ forall m, rc_cold_build_cost c <= m * q <-> h <= m
  | Some (Err _) => obs = [] \/ is_q99 obs 0
  | None => False
  end.
Proof.
  intros Hc Hl. unfold q99_break_even_uses. destruct obs as [|x obs']; [by left|].
  cbn [length Nat.eqb]. set (obs := x :: obs') in *.
  destruct (q99_found obs) as (q & Hq & Hspec); [done|done|].
  assert (Hr : (0 < q99_rank (length (sort obs)))%nat).
  { pose proof (sort_by_key_perm id obs) as Hp. fold (sort obs) in Hp. rewrite Hp.
    apply q99_rank_spec; [cbn; lia|done]. }
  destruct (Nat.eqb_spec (q99_rank (length (sort obs))) 0); [lia|]. rewrite Hq. cbn [mbind option_bind].
  destruct (N.eqb_spec q 0) as [->|Hq0]; [by right|].
  destruct (horizon_spec (rc_cold_build_cost c) q) as (h & Hh & Hm); [done|lia|].
  destruct (N.eqb_spec (rc_cold_build_cost c) 0) as [Hz|Hz]; [|rewrite Hh]; cbn.
  - injection Hh as <-. exists q. split_and!; [done|lia|done].
  - exists q. split_and!; [done|lia|done].
Qed.

(** * Frontier closures *)

Definition term_index (t : FrontierTerm) : N :=
  match t with Preparation => 0 | PreparedPath => 1 | NoveltyFallback => 2 end.

Definition closure_widths (f : FrontierClosure) : Prop :=
  fc_baseline_total f <= U64_MAX /\ forall t, frontier_term f t <= U64_MAX.

(** Cross multiplication of reduced fractions over one baseline compares the
    terms themselves. *)
Lemma reduced_compare a a' b f f' :
  0 < b -> lowest_terms a b f -> lowest_terms a' b f' ->
  (fst f * snd f' <? fst f' * snd f) = (a <? a').
Proof.
  intros Hb (H1 & H2 & _) (H3 & H4 & _). destruct f as [n d], f' as [n' d']. cbn [fst snd] in *.
  assert (Hx : (n * d') * b = a * (d * d')) by (transitivity ((n * b) * d'); [ring|rewrite H1; ring]).
  assert (Hy : (n' * d) * b = a' * (d * d')) by (transitivity ((n' * b) * d); [ring|rewrite H3; ring]).
  assert (Hd : 0 < d * d') by nia. set (dd := d * d') in *. clearbody dd.
  destruct (N.ltb_spec (n * d') (n' * d)), (N.ltb_spec a a'); [done| | |done]; exfalso; nia.
Qed.

(** The burden of a term. *)
Definition burden_of (f : FrontierClosure) (b : LimitingBurden) : Prop :=
  lb_absolute b = frontier_term f (lb_term b) /\
  lowest_terms (lb_absolute b) (fc_baseline_total f) (lb_normalized b).

(** The loop keeps the first of the largest terms seen. *)
Definition first_largest (f : FrontierClosure) (seen : list FrontierTerm) (b : LimitingBurden) : Prop :=
  burden_of f b /\ forall t, t ∈ seen ->
    frontier_term f t <= lb_absolute b /\ (term_index t < term_index (lb_term b) -> frontier_term f t < lb_absolute b).

Lemma burden_loop_spec f : 0 < fc_baseline_total f -> closure_widths f -> forall rest seen b,
  first_largest f seen b ->
  (forall t, t ∈ rest -> forall t', t' ∈ seen -> term_index t' < term_index t) ->
  term_index (lb_term b) < 3 -> lb_term b ∈ seen ->
  StronglySorted (fun t t' => term_index t < term_index t') rest ->
  exists b', burden_loop f rest (Some b) = Some (Some b') /\ first_largest f (seen ++ rest) b'.
Proof.
  intros Hb [Hbw Hw]. induction rest as [|t rest IH]; intros seen b [Hbo Hfl] Hlt Hti Hin Hs; cbn [burden_loop].
  - exists b. split; [done|]. rewrite app_nil_r. done.
  - destruct (campaign_reduce_spec (frontier_term f t) (fc_baseline_total f)) as (nt & Hnt & Hlow); [apply Hw|done|].
    unfold normalized_term, frontier_reduce. rewrite Hnt. cbn [mbind option_bind].
    rewrite (reduced_compare (lb_absolute b) (frontier_term f t) (fc_baseline_total f)) by (done || apply Hbo).
    apply StronglySorted_inv in Hs as [Hs Ht]. rewrite Forall_forall in Ht.
    replace (seen ++ t :: rest) with ((seen ++ [t]) ++ rest) by (by rewrite <- app_assoc).
    assert (Hord : forall t1, t1 ∈ rest -> forall t', t' ∈ seen ++ [t] -> term_index t' < term_index t1).
    { intros t1 H1 t' [H'|H']%elem_of_app; [apply Hlt; [by right|done]|].
      apply list_elem_of_singleton in H' as ->. by apply Ht. }
    destruct (N.ltb_spec (lb_absolute b) (frontier_term f t)) as [Hgt|Hle]; apply IH; try done.
    + split; [done|]. intros t' [H'|H']%elem_of_app; cbn.
      * destruct (Hfl t' H') as [H1 _]. lia.
      * apply list_elem_of_singleton in H' as ->. cbn. lia.
    + by destruct t.
    + apply elem_of_app. right. by left.
    + split; [done|]. intros t' [H'|H']%elem_of_app; [by apply Hfl|].
      apply list_elem_of_singleton in H' as ->. split; [done|].
      specialize (Hlt t (ltac:(by left)) (lb_term b) Hin). lia.
    + apply elem_of_app. by left.
Qed.

(** An accepted frontier closure has terms that sum exactly to its
    optimized total, and its limiting burden is decided: none exactly when
    every term is zero, and otherwise the first of the largest terms with its
    absolute amount and its share of the baseline in lowest terms. *)
Theorem frontier_burden_exact (baseline optimized p q r : N) (f : FrontierClosure) :
  FrontierClosure_new baseline optimized p q r = Ok f -> closure_widths f ->
  closure_holds f = true /\
  sum_of (frontier_term f) FrontierTerm_ALL = fc_optimized_total f /\
  match largest_limiting_burden f with
  | None => False
  | Some None => forall t, frontier_term f t = 0
  | Some (Some b) => 0 < lb_absolute b /\ first_largest f FrontierTerm_ALL b
  end.
Proof.
  intros Hn Hw. unfold FrontierClosure_new in Hn. rewrite reject_Ok in Hn. destruct Hn as [Hb Hn].
  apply bind_Ok_inv in Hn as (s & Hs & Hn). rewrite guard_Ok in Hn. destruct Hn as [He [= <-]].
  apply ok_or_Ok_inv in Hs. breflect. subst s.
  assert (Hsum : optimized = p + q + r).
  { unfold term_sum in Hs. destruct (checked_add_u64 p q) as [pq|] eqn:Hpq; [|done]. cbn in Hs.
    apply checked_add_u64_exact in Hpq as [-> _]. by apply checked_add_u64_exact in Hs as [-> _]. }
  split_and!; [unfold closure_holds; cbn; by rewrite bool_decide_true|cbn; lia|].
  set (f := mkFrontier baseline optimized p q r) in *. assert (Hpos : 0 < fc_baseline_total f) by (cbn; lia).
  unfold largest_limiting_burden, FrontierTerm_ALL.
  destruct (campaign_reduce_spec (frontier_term f Preparation) (fc_baseline_total f)) as (nt & Hnt & Hlow);
    [apply Hw|split; [done|apply Hw]|].
  assert (Hfirst : burden_loop f [Preparation; PreparedPath; NoveltyFallback] None =
    burden_loop f [PreparedPath; NoveltyFallback] (Some (mkBurden Preparation nt (frontier_term f Preparation)))).
  { change (burden_loop f [Preparation; PreparedPath; NoveltyFallback] None) with
      (n ← normalized_term f Preparation;
       burden_loop f [PreparedPath; NoveltyFallback] (Some (mkBurden Preparation n (frontier_term f Preparation)))).
    unfold normalized_term at 1, frontier_reduce. by rewrite Hnt. }
  rewrite Hfirst. destruct (burden_loop_spec f Hpos Hw [PreparedPath; NoveltyFallback] [Preparation]
    (mkBurden Preparation nt (frontier_term f Preparation))) as (b' & Hb' & Hfl).
  - split; [done|]. intros t ->%list_elem_of_singleton. split; cbn; lia.
  - intros t Ht t' ->%list_elem_of_singleton. by destruct t; cbn; [apply elem_of_cons in Ht as [?|Ht]; [done|]; apply list_elem_of_singleton in Ht|..].
  - done.
  - by left.
  - repeat constructor.
  - rewrite Hb'. cbn [mbind option_bind].
    destruct (N.eqb_spec (lb_absolute b') 0) as [Hz|Hz]; [|split; [lia|done]].
    intros t. destruct (proj2 Hfl t) as [Hle _]; [|lia]. apply list_elem_of_In. destruct t; vm_compute; tauto.
Qed.
