(* ===== verification/Usage.v ===== *)
(** Provider-neutral usage events and exactly-once savings attribution
    ([zero-ledger/src/usage.rs]), with the observations they are made from
    ([UsageAmount] and [ProviderUsageObservation] of
    [zero-abi/src/zero_kernel.rs]).  Failures are the source's messages. *)

From S2P Require Import Prelude.
From S2P Require Import Canonical.
From S2P Require Import Ordering.
From S2P Require Import Identity.
From S2P Require Import BMap.
From S2P Require Import Sums.

Definition str_empty (s : string) : bool := (String.length s =? 0)%nat.
(** [s.trim().is_empty()]. *)
Definition blank (s : string) : bool := all_whitespace (string_bytes s).

(** * Observations *)

Definition PROVIDER_USAGE_SCHEMA : string := "zerostack.provider_usage".

Inductive UsageMeasurement := Measured | Estimated | Unmeasured.
#[global] Instance UsageMeasurement_eq_dec : EqDecision UsageMeasurement.
Proof. solve_decision. Defined.

Record UsageAmount := mkUsage { ua_measurement : UsageMeasurement; ua_amount : option N; ua_provenance : string }.
Definition UsageAmount_measured (n : N) (p : string) : UsageAmount := mkUsage Measured (Some n) p.
Definition UsageAmount_estimated (n : N) (p : string) : UsageAmount := mkUsage Estimated (Some n) p.
Definition UsageAmount_unmeasured (p : string) : UsageAmount := mkUsage Unmeasured None p.

Definition UsageAmount_validate (a : UsageAmount) : result string () :=
  reject? blank (ua_provenance a) with "usage amount provenance must not be empty" in
  match ua_measurement a with
  | Measured | Estimated =>
      guard? bool_decide (is_Some (ua_amount a)) else "measured and estimated usage must carry an amount" in Ok ()
  | Unmeasured =>
      reject? bool_decide (is_Some (ua_amount a)) with "unmeasured usage must not carry an amount" in Ok ()
  end.

Record ProviderUsageObservation := mkObservation {
  po_schema : string;
  po_provider : string;
  po_model : option string;
  po_request_id : string;
  po_route : option string;
  po_service_tier : option string;
  po_uncached_input_tokens : UsageAmount;
  po_cached_read_input_tokens : UsageAmount;
  po_cached_write_input_tokens : UsageAmount;
  po_reasoning_tokens : UsageAmount;
  po_output_tokens : UsageAmount;
  po_billed_tokens : UsageAmount;
  po_billed_microcredits : UsageAmount;
  po_credit_microcredits : UsageAmount }.

Definition blank_option (o : option string) : bool := match o with Some v => blank v | None => false end.

Definition ProviderUsageObservation_validate (o : ProviderUsageObservation) : result string () :=
  guard? bool_decide (po_schema o = PROVIDER_USAGE_SCHEMA)
    else ("invalid provider usage schema: expected " ++ PROVIDER_USAGE_SCHEMA)%string in
  reject? blank (po_provider o) with "provider must not be empty" in
  reject? blank (po_request_id o) with "request_id must not be empty" in
  let? _ := for_each (fun nv : string * option string =>
              reject? blank_option nv.2 with (nv.1 ++ " must not be blank when present")%string in Ok ())
              [("model", po_model o); ("route", po_route o); ("service_tier", po_service_tier o)] in
  let? _ := UsageAmount_validate (po_uncached_input_tokens o) in
  let? _ := UsageAmount_validate (po_cached_read_input_tokens o) in
  let? _ := UsageAmount_validate (po_cached_write_input_tokens o) in
  let? _ := UsageAmount_validate (po_reasoning_tokens o) in
  let? _ := UsageAmount_validate (po_output_tokens o) in
  let? _ := UsageAmount_validate (po_billed_tokens o) in
  let? _ := UsageAmount_validate (po_billed_microcredits o) in
  let? _ := UsageAmount_validate (po_credit_microcredits o) in
  Ok ().

(** * Events *)

Inductive UsageCoordinate :=
| VisibleInput | ToolResult | BilledInput | CacheRead | CacheWrite | ReasoningUse | VisibleOutput
| ProviderCredit | BackendCpu | BackendIo | Latency | Storage | VerificationUse | UncachedInput
| BilledTokens | BilledCost.
#[global] Instance UsageCoordinate_eq_dec : EqDecision UsageCoordinate.
Proof. solve_decision. Defined.
Definition coordinate_index (c : UsageCoordinate) : N :=
  match c with
  | VisibleInput => 0 | ToolResult => 1 | BilledInput => 2 | CacheRead => 3 | CacheWrite => 4
  | ReasoningUse => 5 | VisibleOutput => 6 | ProviderCredit => 7 | BackendCpu => 8 | BackendIo => 9
  | Latency => 10 | Storage => 11 | VerificationUse => 12 | UncachedInput => 13 | BilledTokens => 14
  | BilledCost => 15 end.
#[global] Instance UsageCoordinate_ord : Ord UsageCoordinate := cmp_via coordinate_index.

(** [ObservationKind] has the constructors of [UsageMeasurement]. *)
Inductive ObservationKind := KMeasured | KEstimated | KUnmeasured.
#[global] Instance ObservationKind_eq_dec : EqDecision ObservationKind.
Proof. solve_decision. Defined.
Inductive UsageArm := ArmBaseline | ArmZero | ArmCompetitor.

Record UsageEvent := mkEvent {
  ue_event_id : string;
  ue_task_root : string;
  ue_arm : UsageArm;
  ue_coordinate : UsageCoordinate;
  ue_amount : N;
  ue_unit : string;
  ue_provenance : string;
  ue_observation : ObservationKind;
  ue_window_id : option string;
  ue_occurrence_id : option string }.

Definition UsageEvent_validate (e : UsageEvent) : result string () :=
  reject? str_empty (ue_event_id e) || str_empty (ue_task_root e) || str_empty (ue_unit e) ||
          str_empty (ue_provenance e)
    with "usage event identity, task, unit, and provenance are required" in
  reject? bool_decide (ue_observation e = KUnmeasured) && negb (ue_amount e =? 0)%N
    with "unmeasured usage cannot carry a numeric amount" in
  Ok ().

Record PlanWindow := mkPlanWindow {
  pl_id : string;
  pl_provider : string;
  pl_plan_tier : string;
  pl_model_contract_root : string;
  pl_started_unix_ms : N;
  pl_ended_unix_ms : option N;
  pl_reset_observed_unix_ms : option N;
  pl_throttle_observed_unix_ms : option N }.
Definition PlanWindow_validate (w : PlanWindow) : result string () :=
  reject? str_empty (pl_id w) || str_empty (pl_provider w) || str_empty (pl_plan_tier w)
    with "plan window identity, provider, and tier are required" in
  reject? (match pl_ended_unix_ms w with Some stop => (stop <? pl_started_unix_ms w)%N | None => false end)
    with "plan window end precedes start" in
  Ok ().

(** [u128] totals of [u64] amounts. *)
Definition checked_add_u128 (a b : N) : option N := if (a + b <? 2 ^ 128)%N then Some (a + b)%N else None.

Fixpoint totals_loop (events : list UsageEvent) (totals : list (UsageCoordinate * N))
  : result string (list (UsageCoordinate * N)) :=
  match events with
  | [] => Ok totals
  | e :: rest =>
      let? _ := UsageEvent_validate e in
      if bool_decide (ue_observation e = KMeasured) then
        let current := default 0%N (bmap_lookup (ue_coordinate e) totals) in
        let? sum := ok_or (checked_add_u128 current (ue_amount e)) "usage coordinate overflow" in
        totals_loop rest (snd (bmap_insert (ue_coordinate e) sum totals))
      else totals_loop rest totals
  end.
Definition coordinate_totals (events : list UsageEvent) : result string (list (UsageCoordinate * N)) :=
  totals_loop events [].

Definition observation_entries (o : ProviderUsageObservation)
  : list (UsageCoordinate * UsageAmount * string * string) :=
  [(UncachedInput, po_uncached_input_tokens o, "uncached_input", "tokens");
   (CacheRead, po_cached_read_input_tokens o, "cache_read", "tokens");
   (CacheWrite, po_cached_write_input_tokens o, "cache_write", "tokens");
   (ReasoningUse, po_reasoning_tokens o, "reasoning", "tokens");
   (VisibleOutput, po_output_tokens o, "visible_output", "tokens");
   (BilledTokens, po_billed_tokens o, "billed_tokens", "tokens");
   (BilledCost, po_billed_microcredits o, "billed_cost", "microcredits");
   (ProviderCredit, po_credit_microcredits o, "provider_credit", "microcredits")].

Definition entry_event (task_root : string) (arm : UsageArm) (o : ProviderUsageObservation)
  (entry : UsageCoordinate * UsageAmount * string * string) : UsageEvent :=
  match entry with
  | (coordinate, amount, slug, unit) =>
      mkEvent (po_request_id o ++ ":" ++ slug) task_root arm coordinate (default 0%N (ua_amount amount)) unit
        (ua_provenance amount)
        (match ua_measurement amount with
         | Measured => KMeasured | Estimated => KEstimated | Unmeasured => KUnmeasured end)
        None (Some (po_request_id o))
  end.

Fixpoint events_loop (task_root : string) (arm : UsageArm) (o : ProviderUsageObservation)
  (entries : list (UsageCoordinate * UsageAmount * string * string)) (out : list UsageEvent)
  : result string (list UsageEvent) :=
  match entries with
  | [] => Ok out
  | x :: rest =>
      let e := entry_event task_root arm o x in
      let? _ := UsageEvent_validate e in
      events_loop task_root arm o rest (out ++ [e])
  end.
Definition provider_usage_events (task_root : string) (arm : UsageArm) (o : ProviderUsageObservation)
  : result string (list UsageEvent) :=
  reject? str_empty task_root with "task_root must not be empty" in
  let? _ := ProviderUsageObservation_validate o in
  events_loop task_root arm o (observation_entries o) [].

(** * Savings *)

Inductive SavingsDisposition := Retained | Eliminated (mechanism : string).
Record SavingsOccurrence := mkSavings {
  so_occurrence_id : string;
  so_baseline_event_id : string;
  so_optimized_event_id : option string;
  so_disposition : SavingsDisposition }.

(** [+= 1] on [u32] wraps in release builds. *)
Definition bump_u32 (n : N) : N := ((n + 1) mod 2 ^ 32)%N.

Fixpoint attribution_loop (expected : list string) (l : list SavingsOccurrence) (counts : list (string * N))
  : result string (list (string * N)) :=
  match l with
  | [] => Ok counts
  | a :: rest =>
      reject? str_empty (so_occurrence_id a) || str_empty (so_baseline_event_id a)
        with "savings attribution ids must not be empty" in
      guard? bset_mem (so_occurrence_id a) expected
        else ("unexpected savings occurrence " ++ so_occurrence_id a)%string in
      attribution_loop expected rest (bmap_update (so_occurrence_id a) 0%N bump_u32 counts)
  end.

Definition validate_disjoint_attribution (baseline : list string) (l : list SavingsOccurrence) : result string () :=
  let expected := bset_of_list baseline in
  guard? (length expected =? length baseline)%nat else "baseline occurrence ids must be unique" in
  let? counts := attribution_loop expected l [] in
  for_each (fun o => guard? bool_decide (bmap_lookup o counts = Some 1%N)
                       else ("occurrence " ++ o ++ " is not classified exactly once")%string in Ok ()) expected.

Record ModelCallReconciliation := mkCalls { mc_declared : N; mc_observed : N }.
Definition hidden_calls (m : ModelCallReconciliation) : N := (mc_observed m - mc_declared m)%N.
Definition reconciled (m : ModelCallReconciliation) : bool := (mc_declared m =? mc_observed m)%N.

(** * Theorems

    Guarantees of usage accounting: attribution accepts exactly the lists that
    classify each baseline occurrence once, and the totals of an observation
    hold its measured coordinates and no others. *)

#[local] Open Scope N_scope.

(** * Attribution *)

Lemma str_empty_spec s : str_empty s = false <-> s <> EmptyString.
Proof. by destruct s. Qed.

Notation occurrences x l := (N.of_nat (length (filter (fun a => so_occurrence_id a = x) l))).

(** What each attribution needs on its own. *)
Definition attribution_ok (expected : list string) (a : SavingsOccurrence) : Prop :=
  so_occurrence_id a <> EmptyString /\ so_baseline_event_id a <> EmptyString /\ so_occurrence_id a ∈ expected.

Lemma bset_mem_elem (x : string) s : bset_mem x s = true <-> x ∈ s.
Proof. apply bset_mem_spec. Qed.

Lemma attribution_loop_spec expected l : forall counts,
  (forall x n, bmap_lookup x counts = Some n -> n + N.of_nat (length l) < 2 ^ 32) ->
  N.of_nat (length l) < 2 ^ 32 ->
  (is_ok (attribution_loop expected l counts) = true <-> Forall (attribution_ok expected) l) /\
  forall counts', attribution_loop expected l counts = Ok counts' ->
    forall x, bmap_lookup x counts' =
      if decide (occurrences x l = 0) then bmap_lookup x counts
      else Some (default 0 (bmap_lookup x counts) + occurrences x l).
Proof.
  induction l as [|a l IH]; intros counts Hc Hl; cbn [attribution_loop].
  - split; [split; [constructor|done]|]. by intros counts' [= <-] x.
  - rewrite Forall_cons. unfold attribution_ok at 1.
    destruct (str_empty (so_occurrence_id a) || str_empty (so_baseline_event_id a)) eqn:He.
    { split; [|done]. split; [done|]. intros ((H1 & H2 & _) & _). apply orb_true_iff in He as [He|He].
      - apply str_empty_spec in H1. congruence.
      - apply str_empty_spec in H2. congruence. }
    apply orb_false_iff in He as [He1%str_empty_spec He2%str_empty_spec].
    destruct (bset_mem (so_occurrence_id a) expected) eqn:Hm.
    2:{ split; [|done]. split; [done|]. intros ((_ & _ & Hin) & _). apply bset_mem_elem in Hin. congruence. }
    apply bset_mem_elem in Hm. set (counts1 := bmap_update (so_occurrence_id a) 0 bump_u32 counts).
    cbn [length] in Hc, Hl. rewrite Nat2N.inj_succ in Hl.
    assert (Hb : default 0 (bmap_lookup (so_occurrence_id a) counts) + 1 + N.of_nat (length l) < 2 ^ 32).
    { destruct (bmap_lookup (so_occurrence_id a) counts) as [n|] eqn:Hn; cbn; [|lia]. specialize (Hc _ _ Hn). lia. }
    assert (Hl1 : bmap_lookup (so_occurrence_id a) counts1 =
      Some (default 0 (bmap_lookup (so_occurrence_id a) counts) + 1)).
    { unfold counts1. rewrite bmap_lookup_update. unfold bump_u32. by rewrite N.mod_small by lia. }
    assert (Hl2 : forall x, so_occurrence_id a <> x -> bmap_lookup x counts1 = bmap_lookup x counts).
    { intros x Hx. by apply bmap_lookup_update_ne. }
    clearbody counts1. destruct (IH counts1) as [IH1 IH2]; [|lia|].
    { intros x n Hx. destruct (decide (so_occurrence_id a = x)) as [<-|Hne]; [rewrite Hl1 in Hx|rewrite Hl2 in Hx by done].
      - injection Hx as <-. lia.
      - specialize (Hc _ _ Hx). lia. }
    split; [tauto|]. intros counts' Hok x. rewrite (IH2 counts' Hok x), filter_cons.
    destruct (decide (so_occurrence_id a = x)) as [<-|Hne]; [|by rewrite Hl2].
    rewrite Hl1. cbn [length default from_option]. rewrite Nat2N.inj_succ.
    destruct (decide (N.succ _ = 0)); [lia|]. destruct (decide (_ = 0)) as [Hz|Hz]; f_equal; cbn; lia.
Qed.

Lemma attributed_cons x a l :
  occurrences x (a :: l) = (if decide (so_occurrence_id a = x) then 1 else 0) + occurrences x l.
Proof. rewrite filter_cons. destruct (decide (so_occurrence_id a = x)); cbn [length]; lia. Qed.

Lemma occurrences_pos x l : 0 < occurrences x l <-> x ∈ so_occurrence_id <$> l.
Proof.
  induction l as [|a l IH]; [cbn; rewrite elem_of_nil; split; [lia|done]|].
  rewrite attributed_cons, fmap_cons, elem_of_cons, <- IH.
  destruct (decide (so_occurrence_id a = x)) as [<-|Hne]; [split; [by left|lia]|].
  split; [right; lia|]. intros [->|]; [done|lia].
Qed.

Lemma occurrences_NoDup l : NoDup (so_occurrence_id <$> l) <-> forall x, occurrences x l <= 1.
Proof.
  induction l as [|a l IH]; [split; [intros _ x; cbn; lia|constructor]|].
  rewrite fmap_cons, NoDup_cons, IH. setoid_rewrite attributed_cons.
  pose proof (occurrences_pos (so_occurrence_id a) l) as Hp. split.
  - intros [Ha Hl] x. specialize (Hl x). destruct (decide (so_occurrence_id a = x)) as [<-|]; [|lia].
    assert (~ 0 < occurrences (so_occurrence_id a) l) by (by rewrite Hp). lia.
  - intros Hx. split.
    + rewrite <- Hp. specialize (Hx (so_occurrence_id a)). rewrite decide_True in Hx by done. lia.
    + intros x. specialize (Hx x). lia.
Qed.

(** Every baseline occurrence once, and nothing else. *)
Lemma once_iff_perm (l : list SavingsOccurrence) (s : list string) :
  NoDup s ->
  so_occurrence_id <$> l ≡ₚ s <->
  (forall a, a ∈ l -> so_occurrence_id a ∈ s) /\ (forall x, x ∈ s -> occurrences x l = 1).
Proof.
  intros Hn. split.
  - intros Hp. split; [intros a Ha; rewrite <- Hp; by apply list_elem_of_fmap_2|]. intros x Hx.
    rewrite <- Hp in Hn, Hx. apply occurrences_pos in Hx. pose proof (proj1 (occurrences_NoDup l) Hn x). lia.
  - intros [Hin Hone]. apply NoDup_Permutation; [apply occurrences_NoDup|done|].
    + intros x. destruct (decide (0 < occurrences x l)) as [Hpos|]; [|lia].
      apply occurrences_pos in Hpos as (a & -> & Ha)%list_elem_of_fmap. rewrite Hone; [done|by apply Hin].
    + intros x. split.
      * intros (a & -> & Ha)%list_elem_of_fmap. by apply Hin.
      * intros Hx. apply occurrences_pos. rewrite Hone by done. lia.
Qed.

Lemma bset_of_list_length (l : list string) : (length (bset_of_list l) =? length l)%nat = true <-> NoDup l.
Proof.
  destruct (bset_of_list_spec l) as [Hs Hin]. pose proof (sorted_NoDup _ Hs) as Hn. rewrite Nat.eqb_eq. split.
  - intros Hlen. assert (Hp : bset_of_list l ≡ₚ l).
    { apply (submseteq_length_Permutation); [|lia]. apply NoDup_submseteq; [done|]. intros x. apply Hin. }
    by rewrite <- Hp.
  - intros Hl. apply Permutation_length, NoDup_Permutation; done.
Qed.

(** Attribution accepts exactly the lists that classify every baseline
    occurrence once: the baseline identities are distinct, the attributions
    name non-empty identities, and their occurrences are a rearrangement of
    the baseline. *)
Theorem attribution_exactly_once (baseline : list string) (l : list SavingsOccurrence) :
  N.of_nat (length l) < 2 ^ 32 ->
  validate_disjoint_attribution baseline l = Ok () <->
  NoDup baseline /\
  Forall (fun a => so_occurrence_id a <> EmptyString /\ so_baseline_event_id a <> EmptyString) l /\
  so_occurrence_id <$> l ≡ₚ baseline.
Proof.
  intros Hlen. unfold validate_disjoint_attribution. rewrite guard_Ok, bset_of_list_length.
  destruct (bset_of_list_spec baseline) as [_ Hin]. set (expected := bset_of_list baseline) in *.
  destruct (attribution_loop_spec expected l []) as [H1 H2]; [done|done|].
  assert (Hf : Forall (attribution_ok expected) l <->
    Forall (fun a => so_occurrence_id a <> EmptyString /\ so_baseline_event_id a <> EmptyString) l /\
    forall a, a ∈ l -> so_occurrence_id a ∈ baseline).
  { unfold attribution_ok. rewrite !Forall_forall. split.
    - intros Ha. split; intros a Hal; destruct (Ha a Hal) as (? & ? & ?); [done|by apply Hin].
    - intros [Ha Hs] a Hal. destruct (Ha a Hal). split_and!; [done|done|]. by apply Hin, Hs. }
  rewrite Hf in H1. clear Hf.
  split.
  - intros [Hn Hv]. apply bind_Ok_inv in Hv as (counts & Hc & Hv). rewrite Hc in H1.
    destruct (proj1 H1 eq_refl) as [Hok Hsub]. split_and!; [done|done|]. apply once_iff_perm; [done|]. split; [done|].
    intros x Hx. rewrite for_each_Ok in Hv. specialize (Hv x (proj2 (Hin x) Hx)). cbn in Hv.
    rewrite guard_Ok in Hv. destruct Hv as [Hv _]. apply bool_decide_eq_true in Hv.
    rewrite (H2 counts Hc x) in Hv. destruct (decide _); [done|].
    cbn [bmap_lookup default from_option] in Hv. rewrite N.add_0_l in Hv. by injection Hv.
  - intros (Hn & Hok & Hp). split; [done|]. apply once_iff_perm in Hp as [Hsub Hone]; [|done].
    destruct (attribution_loop expected l []) as [counts|e] eqn:Hc.
    2:{ assert (is_ok (Err (A:=list (string * N)) e) = true) by (by apply H1). done. }
    cbn. apply for_each_Ok. intros x Hx. apply Hin in Hx. rewrite bool_decide_true; [done|].
    rewrite (H2 counts eq_refl x), (Hone x Hx). destruct (decide _); [lia|done].
Qed.

(** * Totals *)

#[global] Instance UsageCoordinate_ord_ok : OrdOk UsageCoordinate.
Proof. apply cmp_via_ok. intros c c' Hc. destruct c, c'; first [reflexivity|by vm_compute in Hc]. Qed.

(** The measured events of a coordinate. *)
Definition measured_at (c : UsageCoordinate) (l : list UsageEvent) : list UsageEvent :=
  filter (fun e => ue_coordinate e = c /\ ue_observation e = KMeasured) l.

Lemma measured_at_in c e l :
  ue_coordinate e = c -> ue_observation e = KMeasured -> measured_at c (e :: l) = e :: measured_at c l.
Proof. intros. unfold measured_at. by rewrite filter_cons_True. Qed.

Lemma measured_at_out c e l :
  ~ (ue_coordinate e = c /\ ue_observation e = KMeasured) -> measured_at c (e :: l) = measured_at c l.
Proof. intros. unfold measured_at. by rewrite filter_cons_False. Qed.

Lemma checked_add_u128_small a b : a + b < 2 ^ 128 -> checked_add_u128 a b = Some (a + b).
Proof. intros Hlt. unfold checked_add_u128. by rewrite (proj2 (N.ltb_lt _ _) Hlt). Qed.

Lemma totals_loop_spec l : forall t,
  (forall c, default 0 (bmap_lookup c t) + sum_of ue_amount l < 2 ^ 128) ->
  (is_ok (totals_loop l t) = true <-> Forall (fun e => UsageEvent_validate e = Ok ()) l) /\
  forall t', totals_loop l t = Ok t' -> forall c,
    bmap_lookup c t' = if decide (measured_at c l = []) then bmap_lookup c t
                       else Some (default 0 (bmap_lookup c t) + sum_of ue_amount (measured_at c l)).
Proof.
  induction l as [|e l IH]; intros t Ht; cbn [totals_loop].
  - split; [split; [constructor|done]|]. by intros t' [= <-] c.
  - rewrite Forall_cons. cbn [sum_of] in Ht.
    destruct (UsageEvent_validate e) as [[]|s]; cbn [mbind result_bind]; [|split; [split; [done|by intros [? _]]|done]].
    case_bool_decide as Hm.
    + pose proof (Ht (ue_coordinate e)) as Hte. rewrite checked_add_u128_small by lia. cbn [ok_or mbind result_bind].
      set (t1 := snd (bmap_insert _ _ t)).
      assert (H1 : bmap_lookup (ue_coordinate e) t1 = Some (default 0 (bmap_lookup (ue_coordinate e) t) + ue_amount e))
        by apply bmap_lookup_insert.
      assert (H2 : forall c, ue_coordinate e <> c -> bmap_lookup c t1 = bmap_lookup c t)
        by (intros c Hc; by apply bmap_lookup_insert_ne).
      clearbody t1. destruct (IH t1) as [IH1 IH2].
      { intros c. specialize (Ht c). destruct (decide (ue_coordinate e = c)) as [<-|Hne]; [rewrite H1; cbn [from_option id]|rewrite H2 by done]; lia. }
      split; [tauto|]. intros t' Hok c. rewrite (IH2 t' Hok c).
      destruct (decide (ue_coordinate e = c)) as [<-|Hne].
      * rewrite measured_at_in, H1 by done. cbn [sum_of from_option id].
        destruct (decide (e :: _ = [])); [done|].
        destruct (decide (measured_at _ l = [])) as [Hz|]; f_equal; [rewrite Hz; cbn; lia|lia].
      * rewrite measured_at_out by (by intros [? _]). by rewrite H2.
    + destruct (IH t) as [IH1 IH2]; [intros c; specialize (Ht c); lia|]. split; [tauto|].
      intros t' Hok c. rewrite (IH2 t' Hok c). by rewrite measured_at_out by (by intros [_ ?]).
Qed.

Lemma coordinate_totals_spec l :
  sum_of ue_amount l < 2 ^ 128 ->
  ((exists t, coordinate_totals l = Ok t) <-> Forall (fun e => UsageEvent_validate e = Ok ()) l) /\
  forall t, coordinate_totals l = Ok t -> forall c,
    bmap_lookup c t = if decide (measured_at c l = []) then None else Some (sum_of ue_amount (measured_at c l)).
Proof.
  intros Hs. destruct (totals_loop_spec l []) as [H1 H2]; [intros c; cbn; lia|]. unfold coordinate_totals. split.
  - rewrite <- H1. destruct (totals_loop l []) as [t|e]; cbn; split; try done; [by exists t|by intros [? ?]].
  - exact H2.
Qed.

(** * Observations *)

Lemma string_app_nonempty a c b : str_empty (a ++ String c b) = false.
Proof. by destruct a. Qed.

Lemma entry_event_valid task arm o c a slug unit :
  task <> EmptyString -> unit <> EmptyString -> UsageAmount_validate a = Ok () ->
  UsageEvent_validate (entry_event task arm o (c, a, slug, unit)) = Ok ().
Proof.
  intros Ht Hu Ha. unfold UsageAmount_validate in Ha. rewrite reject_Ok in Ha. destruct Ha as [Hp Ha].
  unfold UsageEvent_validate, entry_event. cbn [ue_event_id ue_task_root ue_unit ue_provenance ue_observation ue_amount].
  change (po_request_id o ++ ":" ++ slug)%string with (po_request_id o ++ String ":" slug)%string.
  rewrite string_app_nonempty, (proj2 (str_empty_spec _) Ht), (proj2 (str_empty_spec _) Hu). cbn [orb].
  assert (Hn : str_empty (ua_provenance a) = false).
  { apply str_empty_spec. intros He. rewrite He in Hp. done. }
  rewrite Hn. destruct (ua_measurement a); [done|done|]. rewrite reject_Ok in Ha. destruct Ha as [Ha _].
  destruct (ua_amount a); [|done]. rewrite bool_decide_true in Ha by (by eexists). done.
Qed.

Lemma events_loop_spec task arm o entries : forall out,
  Forall (fun x => UsageEvent_validate (entry_event task arm o x) = Ok ()) entries ->
  events_loop task arm o entries out = Ok (out ++ (entry_event task arm o <$> entries)).
Proof.
  induction entries as [|x l IH]; intros out Hf; cbn [events_loop]; [by rewrite app_nil_r|].
  apply Forall_cons in Hf as [Hx Hl]. rewrite Hx. cbn [mbind result_bind]. rewrite IH by done.
  by rewrite <- app_assoc.
Qed.

Lemma observation_amounts_valid o :
  ProviderUsageObservation_validate o = Ok () ->
  Forall (fun x => UsageAmount_validate x.1.1.2 = Ok () /\ x.2 <> EmptyString) (observation_entries o).
Proof.
  unfold ProviderUsageObservation_validate. rewrite guard_Ok, !reject_Ok, !bind_unit_Ok.
  intros (_ & _ & _ & _ & H1 & H2 & H3 & H4 & H5 & H6 & H7 & H8 & _). by repeat constructor.
Qed.

(** The reading of a coordinate in an observation. *)
Definition reading (o : ProviderUsageObservation) (c : UsageCoordinate) : option UsageAmount :=
  match c with
  | UncachedInput => Some (po_uncached_input_tokens o) | CacheRead => Some (po_cached_read_input_tokens o)
  | CacheWrite => Some (po_cached_write_input_tokens o) | ReasoningUse => Some (po_reasoning_tokens o)
  | VisibleOutput => Some (po_output_tokens o) | BilledTokens => Some (po_billed_tokens o)
  | BilledCost => Some (po_billed_microcredits o) | ProviderCredit => Some (po_credit_microcredits o)
  | _ => None end.

(** A measured reading counts; anything else is absent, not zero. *)
Definition measured_reading (o : ProviderUsageObservation) (c : UsageCoordinate) : option N :=
  a ← reading o c; if bool_decide (ua_measurement a = Measured) then Some (default 0 (ua_amount a)) else None.

Lemma coordinate_index_inj c c' : coordinate_index c = coordinate_index c' -> c = c'.
Proof. intros Hc. destruct c, c'; first [reflexivity|by vm_compute in Hc]. Qed.

Lemma measured_entry task arm o c k a slug unit l :
  measured_at c (entry_event task arm o (k, a, slug, unit) :: l) =
  (if (coordinate_index k =? coordinate_index c) && bool_decide (ua_measurement a = Measured)
   then [entry_event task arm o (k, a, slug, unit)] else []) ++ measured_at c l.
Proof.
  destruct (N.eqb_spec (coordinate_index k) (coordinate_index c)) as [Hk%coordinate_index_inj|Hk];
    [case_bool_decide as Ha|]; cbn [andb app].
  - apply measured_at_in; [done|]. cbn. by rewrite Ha.
  - apply measured_at_out. cbn. intros [_ Hx]. by destruct (ua_measurement a).
  - apply measured_at_out. cbn. intros [-> _]. done.
Qed.

(** A provider observation converts exactly when the task is named and the
    observation is valid; its eight events are valid, and their coordinate
    totals hold the amount of every measured coordinate and no entry for an
    estimated or unmeasured one, so missing data never becomes zero. *)
Theorem observation_totals_exact (task : string) (arm : UsageArm) (o : ProviderUsageObservation) :
  Forall (fun x => default 0 (ua_amount x.1.1.2) <= U64_MAX) (observation_entries o) ->
  ((exists evs, provider_usage_events task arm o = Ok evs) <->
   task <> EmptyString /\ ProviderUsageObservation_validate o = Ok ()) /\
  forall evs, provider_usage_events task arm o = Ok evs ->
    length evs = 8%nat /\
    exists t, coordinate_totals evs = Ok t /\ forall c, bmap_lookup c t = measured_reading o c.
Proof.
  intros Hw.
  assert (Hev : task <> EmptyString -> ProviderUsageObservation_validate o = Ok () ->
    Forall (fun x => UsageEvent_validate (entry_event task arm o x) = Ok ()) (observation_entries o) /\
    provider_usage_events task arm o = Ok (entry_event task arm o <$> observation_entries o)).
  { intros Ht Hv. assert (Hf : Forall (fun x => UsageEvent_validate (entry_event task arm o x) = Ok ()) (observation_entries o)).
    { eapply Forall_impl; [apply observation_amounts_valid, Hv|]. intros [[[c a] slug] unit] [Ha Hu]. by apply entry_event_valid. }
    split; [done|]. unfold provider_usage_events. rewrite (proj2 (str_empty_spec task) Ht), Hv. cbn [mbind result_bind].
    by rewrite events_loop_spec. }
  assert (Hinv : forall evs, provider_usage_events task arm o = Ok evs ->
    task <> EmptyString /\ ProviderUsageObservation_validate o = Ok ()).
  { intros evs He. unfold provider_usage_events in He. rewrite reject_Ok, bind_unit_Ok in He.
    destruct He as (Ht & Hv & _). split; [by apply str_empty_spec|done]. }
  split; [split|].
  - intros [evs He]. by eapply Hinv.
  - intros [Ht Hv]. eexists. by apply Hev.
  - intros evs He. destruct (Hinv evs He) as [Ht Hv]. destruct (Hev Ht Hv) as [Hf He']. rewrite He' in He.
    injection He as <-. split; [done|].
    assert (Hsum : sum_of ue_amount (entry_event task arm o <$> observation_entries o) < 2 ^ 128).
    { rewrite sum_of_fmap. eapply N.le_lt_trans; [apply (sum_of_le _ (fun _ => U64_MAX))|by vm_compute].
      intros x Hx. rewrite Forall_forall in Hw. specialize (Hw x Hx). by destruct x as [[[c a] slug] unit]. }
    destruct (coordinate_totals_spec _ Hsum) as [H1 H2]. destruct (proj2 H1) as [t Hok]; [by apply Forall_fmap|].
    exists t. split; [done|]. intros c. rewrite (H2 t Hok c). clear. unfold observation_entries, measured_reading.
    cbn [fmap list_fmap]. rewrite !measured_entry.
    destruct c; cbn; try case_bool_decide; cbn; try done; f_equal; lia.
Qed.
