(* ===== verification/LedgerWitness.v ===== *)
(** A ledger session at concrete inputs: charges of which one is refused, a
    sealed receipt, a measured window with a residue, its charging maps, a
    bill, a reuse campaign, a frontier closure and an attribution. *)

From S2P Require Import Prelude.
From S2P Require Import Canonical.
From S2P Require Import DurableStore.
From S2P Require Import Ordering.
From S2P Require Import Identity.
From S2P Require Zbf.
From S2P Require Import Sums.
From S2P Require Import BMap.
From S2P Require Import Ledger.
From S2P Require Import CausalWork.
From S2P Require Import ChargingMaps.
From S2P Require Import Campaign.
From S2P Require Import Usage.

#[local] Open Scope N_scope.

#[local] Instance ledger_platform : Platform :=
  {| sha256 := Zbf.toy_sha256; json_string := Zbf.toy_json_string |}.

Definition ldg (n : N) : Digest := repeat (ascii_of_N n) 32.
Definition tok : TokenizerIdentity := mkTokenizer "cl100k" (ldg 1).

(** A decomposed charge, and one whose classes exceed its input. *)
Definition good_charge : TokenCharge := mkCharge 1000 100 70 0 10 0 20 0 5 1 1 (mkFresh 60 20 15 5 100).
Definition bad_charge : TokenCharge := mkCharge 1000 100 70 40 0 0 0 0 5 1 1 FreshWorkVector_default.
Definition session : list (TokenizerIdentity * TokenCharge) := [(tok, good_charge); (tok, bad_charge); (tok, good_charge)].

(** Evidence for all three gates. *)
Definition spans : list Digest := [ldg 7; ldg 8].
Definition decisions : list PolicyDecision := [SufficiencyProven (ldg 5); RawFallbackServed (ldg 6)].
Definition outcomes : list TaskOutcome := [Accepted (ldg 3); Accepted (ldg 4)].
Definition presented : Presented := mkPresented (Some spans) (Some decisions) (Some outcomes).
Definition session_roots : ReceiptRoots := mkRoots (archive_root_of spans) (policy_root_of decisions).
Definition session_gates : ExactnessGates :=
  with_task_verified (with_policy_exact_or_fallback (with_byte_exact ExactnessGates_default (archive_root_of spans))
    (policy_root_of decisions)) (task_root_of outcomes).

Lemma session_gates_earned : gates_earned session_gates presented.
Proof.
  eapply (earned_task _ (mkPresented (Some spans) (Some decisions) None) (task_root_of outcomes) outcomes);
    [|vm_compute; reflexivity].
  eapply (earned_policy _ (mkPresented (Some spans) None None) (policy_root_of decisions) decisions);
    [|vm_compute; reflexivity].
  eapply (earned_byte _ (mkPresented None None None) (archive_root_of spans) spans); [constructor|vm_compute; reflexivity].
Defined.

Lemma receipts_tell_the_truth_witness :
  match finalize_receipt (submit_all (ResourceGauge_new (mkConfig tok)) session) 100000 session_roots session_gates with
  | Ok r => exact_phase_valid r = true /\ achieved_retained_ppm_ceil r = Some 100000 /\
            receipt_truth [good_charge; good_charge] 100000 presented r
  | Err _ => False
  end.
Proof.
  pose proof (receipts_tell_the_truth (mkConfig tok) session 100000 session_roots session_gates presented
    session_gates_earned) as Ht. cbv zeta in Ht.
  assert (Ha : accepted (ResourceGauge_new (mkConfig tok)) session = [good_charge; good_charge])
    by (vm_compute; reflexivity).
  rewrite Ha in Ht.
  destruct (finalize_receipt (submit_all (ResourceGauge_new (mkConfig tok)) session) 100000 session_roots
    session_gates) as [r|e] eqn:Hf.
  - split; [|split; [|exact Ht]]; vm_compute in Hf; injection Hf as <-; vm_compute; reflexivity.
  - vm_compute in Hf. discriminate Hf.
Defined.

(** * Receipts of causal work *)

Definition counter : ParentCounterIdentity := mkIdentity "tokens.total" Tokens (ldg 11) (ldg 12) (ldg 13).
Definition window : ParentCounterWindow := mkWindow counter 40 140.
Definition units : list CausalWorkCharge :=
  [mkWork (ldg 22) Verification 30; mkWork (ldg 21) Candidate 50].
Definition assign : ResiduePolicy := AssignToResidue "residue.v1" (ldg 14) (ldg 23).

(** The receipt as built. *)
Definition receipt : CausalWorkReceipt :=
  match build_measured (ldg 15) window units assign with
  | Ok r => r
  | Err _ => mkCausal 0 0 [] window assign [] CausalClassTotals_default 0 0 [] end.

Lemma causal_receipt_exact_witness :
  causal_admissible window units assign /\ causal_valid receipt /\
  amount_of (cr_charges receipt) = 100 /\ amount_in Residue (cr_charges receipt) = 20.
Proof.
  assert (Hb : CausalWorkReceipt_build (ldg 15) (ObservationMeasured window) units assign
               = Ok (OutcomeMeasured receipt)) by (vm_compute; reflexivity).
  assert (Hw : pw_end window <= U64_MAX) by (vm_compute; discriminate).
  destruct (causal_receipt_exact (ldg 15) window units assign Hw) as [H1 H2].
  split; [apply H1; exists receipt; exact Hb|]. split; [apply (H2 receipt Hb)|]. split; vm_compute; reflexivity.
Defined.

Lemma causal_decode_exact_witness : causal_valid receipt.
Proof.
  apply (causal_decode_exact receipt); [vm_compute; discriminate|vm_compute; reflexivity].
Defined.

(** * Charging maps *)

Definition assignments : list (CausalWorkClass * ChargingPhase) :=
  [(Candidate, Reasoning); (Verification, PhaseVerification); (Comparison, Decisions); (Baseline, RequestInfo);
   (Fallback, Effects); (Restoration, Effects); (Prewarm, RequestInfo); (Residue, Output)].
Definition phase_policy : PhasePolicy := match PhasePolicy_new assignments with Ok p => p | Err _ => [] end.
Definition solved : ChargingMapSet := match solve phase_policy [receipt] with Some (Ok s) => s | _ => [] end.

Lemma charging_solve_exact_witness :
  attributed_exactly phase_policy [receipt] solved /\ check_overlap solved = Ok () /\
  check_closure solved 100 = Ok (mkClosure 100 100 0 (1, 1) true).
Proof.
  assert (Hp : PhasePolicy_new assignments = Ok phase_policy) by (vm_compute; reflexivity).
  assert (Hs : solve phase_policy [receipt] = Some (Ok solved)) by (vm_compute; reflexivity).
  destruct (charging_solve_exact assignments phase_policy [receipt] Hp) as (r & Hr & H).
  rewrite Hs in Hr. injection Hr as <-. destruct (H solved eq_refl) as [Ha Hc].
  split; [exact Ha|]. split; [vm_compute; reflexivity|]. apply Hc. vm_compute. split; [reflexivity|discriminate].
Defined.

(** * Bills *)

Definition rows : ResourceLedger := [mkRow WireBytes 990 Exact; mkRow CpuTime 5 Estimate; mkRow WireBytes 5 Exact].
Definition bill : list ProviderBillLine := [mkBill "provider" WireBytes 1000 5000; mkBill "provider" DiskBytes 0 0].

Lemma reconcile_exact_witness :
  Forall (line_admissible rows) bill /\
  exists rep, reconcile rows bill = Ok rep /\ ~ Forall (line_exact rows) bill.
Proof.
  assert (Hw : Forall (fun b => bl_billed_amount b <= U64_MAX) bill)
    by (repeat constructor; vm_compute; discriminate).
  destruct (reconcile_exact rows bill Hw) as [H1 H2].
  destruct (reconcile rows bill) as [rep|e] eqn:Hr.
  - split; [apply H1; exists rep; reflexivity|]. exists rep. split; [reflexivity|].
    rewrite <- (H2 rep eq_refl). vm_compute in Hr. injection Hr as <-. discriminate.
  - vm_compute in Hr. discriminate Hr.
Defined.

(** * Campaigns *)

Definition campaign : ReuseCampaign := mkCampaign 100 3 10 20.

Lemma campaign_break_even_exact_witness :
  strict_break_even_uses campaign = Some 15 /\ (forall m, paid_back campaign m <-> 15 <= m) /\
  campaign_surplus campaign = Some 40%Z.
Proof.
  assert (Hn : ReuseCampaign_new 100 3 10 20 = Ok campaign) by reflexivity.
  assert (Hw : campaign_widths campaign) by (repeat split; vm_compute; discriminate).
  destruct (campaign_break_even_exact 100 3 10 20 campaign Hn Hw) as (h & Hh & Hm & _).
  assert (Hs : strict_break_even_uses campaign = Some 15) by (vm_compute; reflexivity).
  rewrite Hs in Hh. injection Hh as <-. split; [exact Hs|]. split; [exact Hm|vm_compute; reflexivity].
Defined.

Lemma q99_horizon_exact_witness :
  exists h, q99_break_even_uses campaign [4; 9; 1; 7] = Some (Ok h) /\ exists q, is_q99 [4; 9; 1; 7] q /\ 0 < q.
Proof.
  pose proof (q99_horizon_exact campaign [4; 9; 1; 7] ltac:(vm_compute; discriminate) ltac:(vm_compute; discriminate)) as Hq.
  destruct (q99_break_even_uses campaign [4; 9; 1; 7]) as [[h|e]|] eqn:He.
  - exists h. split; [reflexivity|]. destruct Hq as (q & Hq & Hpos & _). exists q. split; [exact Hq|exact Hpos].
  - vm_compute in He. discriminate He.
  - destruct Hq.
Defined.

Definition frontier : FrontierClosure := mkFrontier 200 90 30 45 15.

Lemma frontier_burden_exact_witness :
  exists b, largest_limiting_burden frontier = Some (Some b) /\ lb_term b = PreparedPath /\
            first_largest frontier FrontierTerm_ALL b.
Proof.
  assert (Hn : FrontierClosure_new 200 90 30 45 15 = Ok frontier) by (vm_compute; reflexivity).
  assert (Hw : closure_widths frontier) by (split; [vm_compute; discriminate|intros []; vm_compute; discriminate]).
  destruct (frontier_burden_exact 200 90 30 45 15 frontier Hn Hw) as (_ & _ & Hb).
  destruct (largest_limiting_burden frontier) as [[b|]|] eqn:He.
  - exists b. split; [reflexivity|]. split; [vm_compute in He; injection He as <-; reflexivity|apply Hb].
  - vm_compute in He. discriminate He.
  - destruct Hb.
Defined.

(** * Usage *)

Definition attributions : list SavingsOccurrence :=
  [mkSavings "b" "e2" None (Eliminated "dedup"); mkSavings "a" "e1" (Some "z1"%string) Retained].

Lemma attribution_exactly_once_witness :
  N.of_nat (length attributions) < 2 ^ 32 /\ so_occurrence_id <$> attributions ≡ₚ ["a"%string; "b"%string].
Proof.
  split; [vm_compute; reflexivity|].
  apply (attribution_exactly_once ["a"%string; "b"%string] attributions); vm_compute; reflexivity.
Defined.

Definition observed : ProviderUsageObservation :=
  mkObservation PROVIDER_USAGE_SCHEMA "provider" None "req-1" None None
    (UsageAmount_measured 700 "api") (UsageAmount_measured 0 "api") (UsageAmount_unmeasured "api")
    (UsageAmount_estimated 40 "api") (UsageAmount_measured 90 "api") (UsageAmount_unmeasured "api")
    (UsageAmount_unmeasured "api") (UsageAmount_unmeasured "api").

Lemma observation_totals_exact_witness :
  exists evs t, provider_usage_events "task" ArmZero observed = Ok evs /\ coordinate_totals evs = Ok t /\
    bmap_lookup CacheRead t = Some 0 /\ bmap_lookup CacheWrite t = None /\ bmap_lookup ReasoningUse t = None.
Proof.
  assert (Hw : Forall (fun x => default 0 (ua_amount x.1.1.2) <= U64_MAX) (observation_entries observed))
    by (repeat constructor; vm_compute; discriminate).
  destruct (observation_totals_exact "task" ArmZero observed Hw) as [H1 H2].
  destruct (proj2 H1) as [evs He]; [split; [discriminate|vm_compute; reflexivity]|].
  destruct (H2 evs He) as (_ & t & Ht & Hc). exists evs, t.
  split; [exact He|]. split; [exact Ht|]. rewrite !Hc. repeat split; vm_compute; reflexivity.
Defined.
