(* ===== verification/BTree.v ===== *)
(** Ordered collections.  [BTreeMap] and [BTreeSet] of the source are stdpp's
    [gmap] and [gset] over keys in [N]; what the source's iteration adds to
    them is the ascending key order, given here by [keys], [values] and
    [members].  A 32-byte [ContentHash] is the number its bytes spell big
    endian, so the derived lexicographic order is the order of [N]. *)

From S2P Require Import Prelude.
From stdpp Require Export sorting gmap fin_sets relations.

(** A computation of the source either panics or returns its error type. *)
Inductive abort (E : Type) : Type :=
| Panicked
| Failed (e : E).
Global Arguments Panicked {E}.
Global Arguments Failed {E} e.

(** * Ascending iteration *)

#[global] Instance N_le_total : Total N.le.
Proof. intros x y. lia. Qed.
#[global] Instance N_le_trans : Transitive N.le.
Proof. intros x y z. lia. Qed.

(** [BTreeSet::iter]. *)
Definition members (s : gset N) : list N := merge_sort N.le (elements s).

(** [BTreeMap::keys] and [BTreeMap::values]. *)
Definition keys {V : Type} (m : gmap N V) : list N := members (dom m).
Definition values {V : Type} (m : gmap N V) : list V := omap (fun k => m !! k) (keys m).

(** [iter().next()] of a set. *)
Definition first (s : gset N) : option N := head (members s).

Lemma elem_of_members x s : x ∈ members s <-> x ∈ s.
Proof. unfold members. by rewrite merge_sort_Permutation, elem_of_elements. Qed.

Lemma NoDup_members s : NoDup (members s).
Proof. unfold members. rewrite merge_sort_Permutation. apply NoDup_elements. Qed.

Lemma members_sorted s : StronglySorted N.le (members s).
Proof. apply StronglySorted_merge_sort; apply _. Qed.

Lemma length_members s : length (members s) = size s.
Proof. unfold members. by rewrite merge_sort_Permutation. Qed.

Lemma elem_of_keys {V : Type} x (m : gmap N V) : x ∈ keys m <-> is_Some (m !! x).
Proof. unfold keys. by rewrite elem_of_members, elem_of_dom. Qed.

Lemma NoDup_keys {V : Type} (m : gmap N V) : NoDup (keys m).
Proof. apply NoDup_members. Qed.

Lemma elem_of_values {V : Type} v (m : gmap N V) : v ∈ values m <-> exists k, m !! k = Some v.
Proof.
  unfold values. rewrite list_elem_of_omap. split.
  - intros (k & _ & Hk). by exists k.
  - intros (k & Hk). exists k. by rewrite elem_of_keys, Hk.
Qed.

Lemma first_None s : first s = None <-> s = ∅.
Proof.
  unfold first. rewrite <- leibniz_equiv_iff, <- size_empty_iff, <- length_members.
  by destruct (members s).
Qed.

Lemma first_elem s x : first s = Some x -> x ∈ s.
Proof.
  unfold first. rewrite <- elem_of_members. destruct (members s); [done|].
  simpl. intros [= ->]. by left.
Qed.

(** A strictly increasing key above every other is iterated last. *)
Lemma sorted_unique (l l' : list N) :
  StronglySorted N.le l -> StronglySorted N.le l' -> l ≡ₚ l' -> l = l'.
Proof. intros ? ? ?. by apply (StronglySorted_unique N.le). Qed.

Lemma StronglySorted_snoc l x :
  StronglySorted N.le l -> (forall y, y ∈ l -> (y <= x)%N) -> StronglySorted N.le (l ++ [x]).
Proof.
  induction 1 as [|y l Hl IH Hy]; simpl; intros Hx; [by repeat constructor|].
  constructor; [apply IH; intros z Hz; apply Hx; by right|].
  apply Forall_app. split; [done|]. constructor; [|constructor]. apply Hx. by left.
Qed.

Lemma keys_insert_last {V : Type} (m : gmap N V) x v :
  (forall y, is_Some (m !! y) -> (y < x)%N) -> keys (<[x := v]> m) = keys m ++ [x].
Proof.
  intros Hx. assert (x ∉ dom m) as Hn.
  { intros Hd. apply elem_of_dom, Hx in Hd. lia. }
  apply sorted_unique; [apply members_sorted| |].
  - apply StronglySorted_snoc; [apply members_sorted|].
    intros y Hy%elem_of_keys%Hx. lia.
  - unfold keys, members. rewrite !merge_sort_Permutation, dom_insert_L.
    rewrite elements_union_singleton by done. apply Permutation_cons_append.
Qed.

Lemma values_insert_last {V : Type} (m : gmap N V) x v :
  (forall y, is_Some (m !! y) -> (y < x)%N) -> values (<[x := v]> m) = values m ++ [v].
Proof.
  intros Hx. unfold values. rewrite keys_insert_last by done. rewrite omap_app. f_equal.
  - apply list_omap_ext, Forall_Forall2_diag, Forall_forall.
    intros y Hy%elem_of_keys%Hx. rewrite lookup_insert_ne by lia. done.
  - simpl. by rewrite lookup_insert_eq.
Qed.

(** [Extend]ing a map by the entries of another, as the loops
    [for (k, v) in m2 { m1.insert(k, v) }] do. *)
Definition overlay {V : Type} (base changes : gmap N V) : gmap N V := changes ∪ base.

Lemma lookup_overlay {V : Type} (base changes : gmap N V) k :
  overlay base changes !! k = match changes !! k with Some v => Some v | None => base !! k end.
Proof. unfold overlay. rewrite lookup_union. by destruct (changes !! k), (base !! k). Qed.

#[export] Hint Resolve NoDup_members NoDup_keys members_sorted : zs.
