(* ===== verification/Invalidation.v ===== *)
(** The influence graph of graphzero-core ([invalidation.rs]): dependency
    edges, the upward closure that bounds what a change invalidates, and
    Kahn's topological order.  The theorems identify the closure with
    reachability and decide acyclicity through the order. *)

From S2P Require Import Prelude.
From S2P Require Import BTree.

Notation ArtifactId := N (only parsing).

Inductive InfluenceClass := ExactSupport | SoundOverapproximation | Heuristic.

Definition protects_incremental_equivalence (c : InfluenceClass) : bool :=
  match c with ExactSupport | SoundOverapproximation => true | Heuristic => false end.

Inductive DependencyKind := Build | Schema | Effect | Data | RuntimeObserved.

Record DependencyGraph := mkGraph {
  class : InfluenceClass;
  forward : gmap ArtifactId (gset ArtifactId);
  kinds : gmap (ArtifactId * ArtifactId) DependencyKind;
}.

Inductive InvalidationError :=
| Cycle (nodes : list ArtifactId)
| UnprotectedInfluence (c : InfluenceClass)
| MissingProducer (id : ArtifactId)
| EquivalenceDivergence (id : ArtifactId).

Record InvalidationCertificate := mkCertificate {
  cert_influence : InfluenceClass;
  cert_changed : gset ArtifactId;
  invalidated : gset ArtifactId;
  is_upward_closure : bool;
}.

(** * Building the graph *)

Definition graph_new (c : InfluenceClass) : DependencyGraph := mkGraph c ∅ ∅.

(** [entry(k).or_default()]. *)
Definition or_default (m : gmap ArtifactId (gset ArtifactId)) (k : ArtifactId)
  : gmap ArtifactId (gset ArtifactId) := <[k := default ∅ (m !! k)]> m.

Definition add_dependency (g : DependencyGraph) (input output : ArtifactId) : DependencyGraph :=
  let with_edge := <[input := {[output]} ∪ default ∅ (forward g !! input)]> (forward g) in
  mkGraph (class g) (or_default with_edge output) (kinds g).

Definition add_dependency_kinded (g : DependencyGraph) (input output : ArtifactId)
    (kind : DependencyKind) : DependencyGraph :=
  let g' := add_dependency g input output in
  mkGraph (class g') (forward g') (<[(input, output) := kind]> (kinds g')).

Definition declared_kind (g : DependencyGraph) (input output : ArtifactId) : option DependencyKind :=
  kinds g !! (input, output).

Definition ensure_node (g : DependencyGraph) (id : ArtifactId) : DependencyGraph :=
  mkGraph (class g) (or_default (forward g) id) (kinds g).

(** * The upward closure *)

(** The loop over [next]: an artifact new to [out] is queued. *)
Fixpoint push_new (next : list ArtifactId) (out : gset ArtifactId) (q : list ArtifactId)
  : gset ArtifactId * list ArtifactId :=
  match next with
  | [] => (out, q)
  | y :: rest =>
      if bool_decide (y ∈ out) then push_new rest out q
      else push_new rest ({[y]} ∪ out) (q ++ [y])
  end.

Fixpoint closure_loop (g : DependencyGraph) (fuel : nat) (out : gset ArtifactId)
    (q : list ArtifactId) : gset ArtifactId :=
  match fuel, q with
  | O, _ | _, [] => out
  | S fuel', x :: q' =>
      match forward g !! x with
      | None => closure_loop g fuel' out q'
      | Some next =>
          let '(out', q'') := push_new (members next) out q' in
          closure_loop g fuel' out' q''
      end
  end.

(** Every artifact some edge points to. *)
Definition targets (g : DependencyGraph) : gset ArtifactId := ⋃ (values (forward g)).

(** An artifact is queued at most once, so one round per seed and per target
    empties the queue. *)
Definition upward_closure (g : DependencyGraph) (changed : gset ArtifactId) : gset ArtifactId :=
  closure_loop g (size changed + size (targets g)) changed (members changed).

Definition certify_invalidation (g : DependencyGraph) (changed : gset ArtifactId)
  : InvalidationCertificate :=
  mkCertificate (class g) changed (upward_closure g changed) true.

(** * Topological order *)

(** [indegree.entry(target).or_default() += 1]. *)
Definition bump (m : gmap ArtifactId N) (t : ArtifactId) : gmap ArtifactId N :=
  <[t := (default 0 (m !! t) + 1)%N]> m.

Definition indegrees (g : DependencyGraph) : gmap ArtifactId N :=
  foldl (fun m ts => foldl bump m (members ts)) (gset_to_gmap 0%N (dom (forward g)))
    (values (forward g)).

Definition zeros (m : gmap ArtifactId N) : list ArtifactId :=
  filter (fun k => m !! k = Some 0%N) (keys m).

Definition positive (m : gmap ArtifactId N) : list ArtifactId :=
  filter (fun k => (0 < default 0 (m !! k))%N) (keys m).

(** The loop over the targets of a removed node; decrementing a zero panics. *)
Fixpoint relax (ts : list ArtifactId) (ind : gmap ArtifactId N) (q : list ArtifactId)
  : result (abort InvalidationError) (gmap ArtifactId N * list ArtifactId) :=
  match ts with
  | [] => Ok (ind, q)
  | y :: rest =>
      match ind !! y with
      | None => relax rest ind q
      | Some v =>
          reject? (v =? 0)%N with Panicked in
          relax rest (<[y := (v - 1)%N]> ind) (if (v - 1 =? 0)%N then q ++ [y] else q)
      end
  end.

(** The main loop.  Running out of rounds would be a divergence of the
    source's loop and is reported as [Panicked]. *)
Fixpoint kahn (g : DependencyGraph) (fuel : nat) (ind : gmap ArtifactId N)
    (q out : list ArtifactId)
  : result (abort InvalidationError) (gmap ArtifactId N * list ArtifactId) :=
  match q, fuel with
  | [], _ => Ok (ind, out)
  | _, O => Err Panicked
  | x :: q', S fuel' =>
      let out' := out ++ [x] in
      match forward g !! x with
      | None => kahn g fuel' ind q' out'
      | Some ts =>
          let? (ind', q'') := relax (members ts) ind q' in
          kahn g fuel' ind' q'' out'
      end
  end.

Definition topological_order (g : DependencyGraph)
  : result (abort InvalidationError) (list ArtifactId) :=
  let ind := indegrees g in
  let? (ind', out) := kahn g (size ind) ind (zeros ind) [] in
  reject? negb (length out =? size ind')%nat with Failed (Cycle (positive ind')) in
  Ok out.

(** * Influence as a relation *)

Definition succs (g : DependencyGraph) (x : ArtifactId) : gset ArtifactId :=
  default ∅ (forward g !! x).

Definition edge (g : DependencyGraph) (x y : ArtifactId) : Prop := y ∈ succs g x.

Definition node (g : DependencyGraph) (x : ArtifactId) : Prop :=
  is_Some (forward g !! x) \/ exists u, edge g u x.

Definition acyclic (g : DependencyGraph) : Prop := forall x, ~ tc (edge g) x x.

#[global] Instance edge_dec g x y : Decision (edge g x y) := decide (y ∈ succs g x).

Lemma edge_targets g x y : edge g x y -> y ∈ targets g.
Proof.
  unfold edge, succs. destruct (forward g !! x) as [ts|] eqn:Hts; [|set_solver]. intros Hy.
  unfold targets. apply elem_of_union_list. exists ts.
  split; [|done]. apply elem_of_values. by exists x.
Qed.

(** Edges of a graph built by the operations. *)

Lemma succs_or_default m k x : default ∅ (or_default m k !! x) = default (∅ : gset N) (m !! x).
Proof.
  unfold or_default. destruct (decide (x = k)) as [->|]; [by rewrite lookup_insert_eq|].
  by rewrite lookup_insert_ne.
Qed.

Lemma edge_add_dependency g i o x y :
  edge (add_dependency g i o) x y <-> edge g x y \/ x = i /\ y = o.
Proof.
  unfold edge, succs, add_dependency; simpl. rewrite succs_or_default.
  destruct (decide (x = i)) as [->|].
  - rewrite lookup_insert_eq. simpl. set_solver.
  - rewrite lookup_insert_ne by done. set_solver.
Qed.

Lemma edge_ensure_node g k x y : edge (ensure_node g k) x y <-> edge g x y.
Proof. unfold edge, succs, ensure_node; simpl. by rewrite succs_or_default. Qed.

(** * The closure is reachability *)

Section Closure.
Context (g : DependencyGraph).

Lemma push_new_spec next out q out' q' :
  NoDup next -> push_new next out q = (out', q') ->
  exists fresh, q' = q ++ fresh /\ NoDup fresh /\
    (forall y, y ∈ fresh <-> y ∈ next /\ y ∉ out) /\
    (forall y, y ∈ out' <-> y ∈ out \/ y ∈ next).
Proof.
  revert out q. induction next as [|y next IH]; intros out q Hnd Hp; simpl in Hp.
  - simplify_eq. exists []. rewrite app_nil_r. split_and!; [done | constructor | set_solver | set_solver].
  - apply list.NoDup_cons in Hnd as [Hy Hnd]. case_bool_decide as Hin.
    + destruct (IH _ _ Hnd Hp) as (fresh & -> & Hf & Hfy & Ho). exists fresh.
      split_and!; [done | done | set_solver | set_solver].
    + destruct (IH _ _ Hnd Hp) as (fresh & -> & Hf & Hfy & Ho). exists (y :: fresh).
      rewrite <- (assoc_L (++)). split_and!; [done | | set_solver | set_solver].
      apply list.NoDup_cons. split; [|done]. rewrite Hfy. set_solver.
Qed.

(** What the loop maintains: everything found is reachable from the seeds and
    everything found except the queue has its successors found. *)
Definition explored (changed out : gset ArtifactId) (q : list ArtifactId) : Prop :=
  changed ⊆ out /\ (forall x, x ∈ q -> x ∈ out) /\
  (forall y, y ∈ out -> exists x, x ∈ changed /\ rtc (edge g) x y) /\
  (forall x y, x ∈ out -> x ∉ q -> edge g x y -> y ∈ out).

Lemma explored_step changed out x q :
  explored changed out (x :: q) ->
  let '(out', q') := push_new (members (succs g x)) out q in
  explored changed out' q' /\
  length q' + size (targets g ∖ out') = length q + size (targets g ∖ out).
Proof.
  intros (Hc & Hq & Hr & Hcl). destruct (push_new _ _ _) as [out' q'] eqn:Hp.
  destruct (push_new_spec _ _ _ _ _ (NoDup_members _) Hp) as (fresh & -> & Hnd & Hf & Ho).
  setoid_rewrite elem_of_members in Hf. setoid_rewrite elem_of_members in Ho. clear Hp.
  assert (forall y, y ∈ fresh -> y ∈ targets g ∖ out) as Hft.
  { intros y [Hy Hn]%Hf. apply elem_of_difference. split; [by eapply edge_targets | done]. }
  split; [split_and!|].
  - intros y Hy. apply Ho. left. by apply Hc.
  - intros y [Hy|Hy]%elem_of_app; apply Ho; [left; apply Hq; by right|right; by apply Hf].
  - intros y [Hy|Hy]%Ho; [by apply Hr|]. destruct (Hr x) as (z & Hz & Hzx); [apply Hq; by left|].
    exists z. split; [done|]. by eapply rtc_r.
  - intros u v Hu Hn Huv. apply Ho. destruct (decide (u = x)) as [->|Hux]; [by right|].
    rewrite elem_of_app, Hf in Hn. apply Ho in Hu.
    destruct (decide (u ∈ out)); [|tauto].
    left. apply (Hcl u v); [done|rewrite elem_of_cons; tauto|done].
  - assert (targets g ∖ out' = (targets g ∖ out) ∖ list_to_set fresh) as ->.
    { apply set_eq. intros y. rewrite !elem_of_difference, Ho, elem_of_list_to_set, Hf. tauto. }
    rewrite length_app, size_difference.
    + rewrite size_list_to_set by done.
      pose proof (subseteq_size (C := gset N) (list_to_set fresh) (targets g ∖ out)) as Hs.
      rewrite size_list_to_set in Hs by done. lapply Hs; [lia|].
      intros y Hy%elem_of_list_to_set. by apply Hft.
    + intros y Hy%elem_of_list_to_set. by apply Hft.
Qed.

Lemma closure_loop_explored changed fuel out q :
  length q + size (targets g ∖ out) <= fuel -> explored changed out q ->
  explored changed (closure_loop g fuel out q) [].
Proof.
  revert out q. induction fuel as [|fuel IH]; intros out q Hf He; simpl.
  { destruct q; [done | simpl in Hf; lia]. }
  destruct q as [|x q]; [done|]. simpl in Hf.
  pose proof (explored_step _ _ _ _ He) as Hs. unfold succs in Hs.
  destruct (forward g !! x) as [next|]; simpl in Hs.
  - destruct (push_new _ _ _) as [out' q']. destruct Hs. apply IH; [lia | done].
  - replace (members ∅) with (@nil N) in Hs by done. simpl in Hs.
    destruct Hs. apply IH; [lia | done].
Qed.

Lemma closure_reachable changed y :
  y ∈ upward_closure g changed <-> exists x, x ∈ changed /\ rtc (edge g) x y.
Proof.
  assert (explored changed (upward_closure g changed) []) as (Hc & _ & Hr & Hcl).
  { apply closure_loop_explored.
    - rewrite length_members.
      pose proof (subseteq_size (targets g ∖ changed) (targets g)) as Hs. lapply Hs; [lia|set_solver].
    - split_and!; [done | intros x; by rewrite elem_of_members | |].
      + intros z Hz. by exists z.
      + intros x z Hx Hn. by rewrite elem_of_members in Hn. }
  split; [apply Hr|]. intros (x & Hx & Hxy). apply Hc in Hx.
  induction Hxy as [|x z y Hxz _ IH]; [done|]. apply IH. eapply Hcl; [done | set_solver | done].
Qed.

Lemma tc_closure x y : tc (edge g) x y <-> y ∈ upward_closure g (succs g x).
Proof.
  rewrite closure_reachable. split.
  - intros Ht. destruct Ht as [x y Hxy|x z y Hxz Hzy]; [by exists y|].
    exists z. split; [done | by apply tc_rtc].
  - intros (z & Hz & Hzy). by eapply tc_rtc_r; [apply tc_once|].
Qed.

#[global] Instance reaches_dec x y : Decision (tc (edge g) x y).
Proof. refine (cast_if (decide (y ∈ upward_closure g (succs g x)))); by rewrite tc_closure. Defined.
End Closure.

(** * Kahn's order *)

Lemma difference_singleton_empty (X : gset N) x :
  X ∖ {[x]} = ∅ -> (x ∈ X -> X = {[x]}) /\ (x ∉ X -> X = ∅).
Proof.
  intros He. assert (forall y, y ∈ X -> y = x) as Hy.
  { intros y Hy. destruct (decide (y = x)); [done|]. set_solver. }
  split; intros Hx; apply set_eq; intros y; [set_solver|]. split; [|set_solver].
  intros Hin. pose proof (Hy y Hin). by subst.
Qed.

Section Order.
Context (g : DependencyGraph).

(** The predecessors of [y] not yet in [out]. *)
Definition waiting (out : list ArtifactId) (y : ArtifactId) : gset ArtifactId :=
  filter (fun u => edge g u y /\ u ∉ out) (dom (forward g)).

Lemma edge_source u y : edge g u y -> u ∈ dom (forward g).
Proof.
  unfold edge, succs. rewrite elem_of_dom. by destruct (forward g !! u) eqn:?; [|set_solver].
Qed.

Lemma elem_of_waiting out y u : u ∈ waiting out y <-> edge g u y /\ u ∉ out.
Proof. unfold waiting. rewrite elem_of_filter. pose proof (edge_source u y). tauto. Qed.

Lemma waiting_snoc out x y : waiting (out ++ [x]) y = waiting out y ∖ {[x]}.
Proof.
  apply set_eq. intros u. rewrite elem_of_difference, !elem_of_waiting, elem_of_singleton.
  rewrite elem_of_app, list_elem_of_singleton. tauto.
Qed.

Lemma foldl_bump ts m y : NoDup ts ->
  foldl bump m ts !! y =
    if bool_decide (y ∈ ts) then Some (default 0 (m !! y) + 1)%N else m !! y.
Proof.
  revert m. induction ts as [|t ts IH]; intros m Hnd; simpl; [done|].
  apply list.NoDup_cons in Hnd as [Ht Hnd]. rewrite IH by done. unfold bump.
  destruct (decide (y = t)) as [->|Hy].
  - rewrite bool_decide_false, bool_decide_true by (done || by left). by rewrite lookup_insert_eq.
  - rewrite lookup_insert_ne by done.
    destruct (decide (y ∈ ts)); [rewrite !bool_decide_true by (done || by right); done|].
    rewrite !bool_decide_false; [done| |done]. by intros [?|?]%elem_of_cons.
Qed.

Definition count_loop (m : gmap ArtifactId N) (us : list ArtifactId) : gmap ArtifactId N :=
  foldl (fun m ts => foldl bump m (members ts)) m (omap (fun k => forward g !! k) us).

Lemma count_loop_spec m us y : NoDup us ->
  default 0%N (count_loop m us !! y) =
    (default 0 (m !! y) + N.of_nat (size (filter (fun u => edge g u y) (list_to_set us : gset N))))%N /\
  (is_Some (count_loop m us !! y) <-> is_Some (m !! y) \/ exists u, u ∈ us /\ edge g u y).
Proof.
  induction us as [|u us IH] using rev_ind; intros Hnd.
  - unfold count_loop. simpl. split; [|set_solver]. replace (filter _ _) with (∅ : gset N) by set_solver.
    rewrite size_empty. lia.
  - apply NoDup_app in Hnd as (Hus & Hu & _). specialize (IH Hus) as [IH1 IH2].
    unfold count_loop in *. rewrite omap_app, foldl_app. simpl.
    assert (u ∉ us) as Hn. { intros ?. eapply Hu; [done|]. by left. }
    set (m' := foldl _ m (omap _ us)) in *.
    assert (foldl (fun m ts => foldl bump m (members ts)) m'
              (match forward g !! u with Some y => [y] | None => [] end) =
            foldl bump m' (members (succs g u))) as ->.
    { unfold succs. by destruct (forward g !! u). }
    rewrite foldl_bump by auto with zs.
    rewrite (bool_decide_ext _ (edge g u y)) by apply elem_of_members.
    case_bool_decide as He; simpl.
    + replace (filter _ (list_to_set (us ++ [u])))
        with ({[u]} ∪ filter (fun u => edge g u y) (list_to_set us : gset N)) by set_solver.
      rewrite size_union by set_solver. rewrite size_singleton, IH1. split; [lia|].
      split; [intros _; right; exists u; set_solver | done].
    + replace (filter _ (list_to_set (us ++ [u])))
        with (filter (fun u => edge g u y) (list_to_set us : gset N)) by set_solver.
      split; [done|]. rewrite IH2. set_solver.
Qed.

Lemma indegrees_spec y :
  default 0%N (indegrees g !! y) = N.of_nat (size (waiting [] y)) /\
  (is_Some (indegrees g !! y) <-> node g y).
Proof.
  destruct (count_loop_spec (gset_to_gmap 0%N (dom (forward g))) (keys (forward g)) y) as [H1 H2];
    [auto with zs|].
  change (indegrees g) with (count_loop (gset_to_gmap 0%N (dom (forward g))) (keys (forward g))).
  rewrite H1, H2. clear H1 H2. rewrite <- elem_of_dom, dom_gset_to_gmap, elem_of_dom. split.
  - assert (default 0%N (gset_to_gmap 0%N (dom (forward g)) !! y) = 0%N) as ->.
    { destruct (gset_to_gmap _ _ !! y) eqn:Hy; [|done]. by apply lookup_gset_to_gmap_Some in Hy as [_ <-]. }
    rewrite N.add_0_l. do 2 f_equal.
    apply set_eq. intros u. rewrite elem_of_filter, elem_of_list_to_set, elem_of_waiting, elem_of_keys.
    pose proof (edge_source u y) as Hs. rewrite elem_of_dom in Hs. set_solver.
  - unfold node. setoid_rewrite elem_of_keys. split; [naive_solver|].
    intros [?|(u & Hu)]; [by left|]. right. exists u. split; [|done].
    by apply elem_of_dom, (edge_source u y).
Qed.

Lemma relax_spec ts ind q : NoDup ts -> (forall y, y ∈ ts -> exists v, ind !! y = Some v /\ (0 < v)%N) ->
  exists ind' fresh, relax ts ind q = Ok (ind', q ++ fresh) /\ NoDup fresh /\
    (forall y, y ∈ fresh <-> y ∈ ts /\ ind !! y = Some 1%N) /\
    (forall y, ind' !! y = if bool_decide (y ∈ ts) then N.pred <$> ind !! y else ind !! y).
Proof.
  revert ind q. induction ts as [|t ts IH]; intros ind q Hnd Hpos; simpl.
  { exists ind, []. rewrite app_nil_r. split_and!; [done | constructor | set_solver | done]. }
  apply list.NoDup_cons in Hnd as [Ht Hnd]. destruct (Hpos t) as (v & Hv & Hv0); [by left|].
  rewrite Hv. rewrite (proj2 (N.eqb_neq v 0)) by lia.
  destruct (IH (<[t := (v - 1)%N]> ind) (if (v - 1 =? 0)%N then q ++ [t] else q)) as
    (ind' & fresh & -> & Hfr & Hfy & Hi); [done | |].
  { intros y Hy. rewrite lookup_insert_ne by set_solver. apply Hpos. by right. }
  assert (forall y, y ∈ fresh <-> y ∈ ts /\ ind !! y = Some 1%N) as Hfy'.
  { intros y. rewrite Hfy. destruct (decide (y = t)) as [->|]; [tauto|]. by rewrite lookup_insert_ne. }
  assert (forall y, ind' !! y = if bool_decide (y ∈ t :: ts) then N.pred <$> ind !! y else ind !! y) as Hi'.
  { intros y. rewrite Hi. destruct (decide (y = t)) as [->|Hy].
    - rewrite bool_decide_false, bool_decide_true by (done || by left).
      rewrite lookup_insert_eq, Hv. simpl. f_equal. lia.
    - rewrite lookup_insert_ne by done. erewrite (bool_decide_ext (y ∈ t :: ts)); [done|].
      rewrite elem_of_cons. tauto. }
  destruct (v - 1 =? 0)%N eqn:He; breflect.
  - exists ind', (t :: fresh). rewrite <- (assoc_L (++)). split_and!; [done | | | done].
    + apply list.NoDup_cons. split; [|done]. rewrite Hfy'. tauto.
    + intros y. rewrite !elem_of_cons, Hfy'. split; [|naive_solver].
      intros [->|?]; [|tauto]. split; [by left|]. rewrite Hv. f_equal. lia.
  - exists ind', fresh. split_and!; [done | done | | done].
    intros y. rewrite Hfy', elem_of_cons. split; [tauto|]. intros [[->|?] Hy]; [|tauto].
    rewrite Hv in Hy. simplify_eq.
Qed.

(** [out] lists every predecessor of a member before it. *)
Definition ordered (out : list ArtifactId) : Prop :=
  forall pre v post, out = pre ++ v :: post -> forall u, edge g u v -> u ∈ pre.

Record kahn_inv (ind : gmap ArtifactId N) (q out : list ArtifactId) : Prop := {
  ki_nodup : NoDup (out ++ q);
  ki_dom : forall y, is_Some (ind !! y) <-> node g y;
  ki_count : forall y, default 0%N (ind !! y) = N.of_nat (size (waiting out y));
  ki_ready : forall y, y ∈ out ++ q <-> node g y /\ waiting out y = ∅;
  ki_order : ordered out;
}.

Lemma waiting_empty_count out (ind : gmap ArtifactId N) y : is_Some (ind !! y) ->
  default 0%N (ind !! y) = N.of_nat (size (waiting out y)) ->
  ind !! y = Some 0%N <-> waiting out y = ∅.
Proof.
  intros [v Hv]. rewrite Hv. simpl. intros ->.
  rewrite <- (leibniz_equiv_iff (waiting out y)), <- size_empty_iff. split; [intros [=]; lia|].
  intros ->. done.
Qed.

Lemma kahn_inv_init : kahn_inv (indegrees g) (zeros (indegrees g)) [].
Proof.
  split; simpl.
  - apply NoDup_filter. auto with zs.
  - intros y. apply indegrees_spec.
  - intros y. apply indegrees_spec.
  - intros y. unfold zeros. rewrite list_elem_of_filter, elem_of_keys.
    pose proof (indegrees_spec y) as [Hc Hn]. rewrite <- Hn.
    pose proof (waiting_empty_count [] (indegrees g) y). tauto.
  - intros pre v post Ho. by destruct pre.
Qed.

Lemma ordered_snoc out x : ordered out -> waiting out x = ∅ -> ordered (out ++ [x]).
Proof.
  intros Ho Hw pre v post He u Hu. destruct post as [|w post _] using rev_ind.
  - apply app_inj_tail in He as [-> ->]. destruct (decide (u ∈ pre)) as [|Hn]; [done|].
    assert (u ∈ waiting pre v) by (by apply elem_of_waiting). set_solver.
  - rewrite app_comm_cons, (assoc_L (++)) in He. apply app_inj_tail in He as [-> _]. by eapply Ho.
Qed.

(** Removing [x] from the front of the queue: the decrements cannot
    underflow, and exactly the nodes that waited for [x] alone are queued. *)
Lemma relax_front ind x q out : kahn_inv ind (x :: q) out ->
  (x ∉ out) /\ waiting out x = ∅ /\
  exists ind' fresh, relax (members (succs g x)) ind q = Ok (ind', q ++ fresh) /\ NoDup fresh /\
    (forall y, y ∈ fresh <-> edge g x y /\ waiting out y = {[x]}) /\
    (forall y, ind' !! y = if bool_decide (edge g x y) then N.pred <$> ind !! y else ind !! y).
Proof.
  intros [Hnd Hd Hc Hr _].
  assert (x ∉ out) as Hx. { apply NoDup_app in Hnd as (_ & H & _). intros Hx. apply (H x Hx). by left. }
  assert (forall y, edge g x y -> x ∈ waiting out y) as Hin
    by (intros y Hy; by apply elem_of_waiting).
  assert (forall y, edge g x y -> is_Some (ind !! y)) as Hsome
    by (intros y Hy; apply Hd; right; by exists x).
  split_and!; [done | apply Hr; set_solver |].
  destruct (relax_spec (members (succs g x)) ind q) as (ind' & fresh & Hrel & Hfn & Hfy & Hi);
    [auto with zs | |].
  { intros y Hy%elem_of_members. destruct (Hsome y Hy) as [v Hv]. exists v. split; [done|].
    specialize (Hc y). rewrite Hv in Hc. simpl in Hc. rewrite Hc.
    assert (size (waiting out y) <> 0); [|lia]. apply size_non_empty_iff. set_solver. }
  setoid_rewrite elem_of_members in Hfy. exists ind', fresh. split_and!; [done | done | |].
  - intros y. rewrite Hfy. split; intros [Hy Hw]; (split; [done|]).
    + specialize (Hc y). rewrite Hw in Hc. simpl in Hc.
      destruct (size_1_elem_of (waiting out y)) as [z Hz]; [lia|]. apply leibniz_equiv in Hz.
      specialize (Hin y Hy). rewrite Hz in *. set_solver.
    + destruct (Hsome y Hy) as [v Hv]. specialize (Hc y).
      rewrite Hv, Hw, size_singleton in Hc. simpl in Hc. by subst v.
  - intros y. rewrite Hi. by rewrite (bool_decide_ext _ (edge g x y)) by apply elem_of_members.
Qed.

Lemma kahn_step ind x q out : kahn_inv ind (x :: q) out ->
  exists ind' q', relax (members (succs g x)) ind q = Ok (ind', q') /\ kahn_inv ind' q' (out ++ [x]).
Proof.
  intros Hk. destruct (relax_front _ _ _ _ Hk) as (Hx & Hwx & ind' & fresh & Hrel & Hfn & Hfw & Hi).
  destruct Hk as [Hnd Hd Hc Hr Ho]. exists ind', (q ++ fresh). split; [done|]. split.
  - rewrite <- (assoc_L (++)). simpl. rewrite app_comm_cons, (assoc_L (++)). apply NoDup_app.
    split_and!; [done | | done]. intros y Hy%Hr [He Hw]%Hfw. set_solver.
  - intros y. rewrite Hi. rewrite <- Hd. case_bool_decide; by rewrite ?fmap_is_Some.
  - intros y. rewrite Hi, waiting_snoc. specialize (Hc y). case_bool_decide as Hy.
    + assert (x ∈ waiting out y) by (by apply elem_of_waiting).
      assert (is_Some (ind !! y)) as [v Hv] by (apply Hd; right; by exists x). rewrite Hv in *. simpl in *.
      rewrite size_difference by set_solver. rewrite size_singleton. lia.
    + rewrite Hc. do 2 f_equal. apply set_eq. intros u.
      rewrite elem_of_difference, elem_of_singleton, elem_of_waiting.
      split; [|tauto]. intros [Hu Hn]. split; [done|]. by intros ->.
  - intros y. rewrite waiting_snoc.
    assert (y ∈ (out ++ [x]) ++ q ++ fresh <-> y ∈ out ++ x :: q \/ y ∈ fresh) as ->
      by set_solver.
    rewrite Hr, Hfw. split.
    + intros [[Hn Hw]|[He Hw]]; rewrite Hw; (split; [|set_solver]); [done|]. right. by exists x.
    + intros [Hn Hw]. destruct (decide (x ∈ waiting out y)) as [Hxw|Hxw].
      * right. split; [by apply elem_of_waiting in Hxw as []|]. by apply difference_singleton_empty.
      * left. split; [done|]. by eapply difference_singleton_empty.
  - by apply ordered_snoc.
Qed.

Lemma kahn_inv_bound ind q out : kahn_inv ind q out -> length (out ++ q) <= size ind.
Proof.
  intros [Hnd Hd _ Hr _]. rewrite <- size_dom, <- (size_list_to_set (C := gset N)) by done.
  apply subseteq_size. intros y Hy%elem_of_list_to_set%Hr. apply elem_of_dom, Hd. tauto.
Qed.

Lemma kahn_inv_size ind q out ind' q' out' :
  kahn_inv ind q out -> kahn_inv ind' q' out' -> size ind = size ind'.
Proof.
  intros [_ Hd _ _ _] [_ Hd' _ _ _]. rewrite <- !size_dom. f_equal. apply set_eq.
  intros y. by rewrite !elem_of_dom, Hd, Hd'.
Qed.

Lemma kahn_spec fuel ind q out : kahn_inv ind q out -> size ind <= fuel + length out ->
  exists ind' out', kahn g fuel ind q out = Ok (ind', out') /\ kahn_inv ind' [] out'.
Proof.
  revert ind q out. induction fuel as [|fuel IH]; intros ind q out Hk Hf.
  - destruct q as [|x q]; [by exists ind, out|]. exfalso.
    apply kahn_inv_bound in Hk. rewrite length_app in Hk. simpl in *. lia.
  - destruct q as [|x q]; [by exists ind, out|].
    destruct (kahn_step _ _ _ _ Hk) as (ind' & q' & Hrel & Hk').
    assert (size ind' <= fuel + length (out ++ [x])) as Hf'.
    { rewrite <- (kahn_inv_size _ _ _ _ _ _ Hk Hk'), length_app. simpl. lia. }
    destruct (IH _ _ _ Hk' Hf') as (ind2 & out2 & Hrun & Hk2). exists ind2, out2. split; [|done].
    simpl. unfold succs in Hrel. destruct (forward g !! x) as [ts|]; simpl in Hrel.
    + by rewrite Hrel.
    + replace (members ∅) with (@nil N) in Hrel by done. simpl in Hrel. by simplify_eq.
Qed.

Lemma topological_order_run :
  exists ind out, kahn_inv ind [] out /\
    topological_order g =
      if (length out =? size ind)%nat then Ok out else Err (Failed (Cycle (positive ind))).
Proof.
  destruct (kahn_spec (size (indegrees g)) _ _ _ kahn_inv_init) as (ind & out & Hrun & Hk);
    [simpl; lia|].
  exists ind, out. split; [done|]. unfold topological_order. rewrite Hrun. simpl.
  by destruct (length out =? size ind)%nat.
Qed.

Lemma ordered_tc out pre v post u : ordered out -> out = pre ++ v :: post -> tc (edge g) u v -> u ∈ pre.
Proof.
  intros Ho He Ht. revert pre post He.
  induction Ht as [u v Huv|u z v Huz _ IH]; intros pre post He; [by eapply Ho|].
  pose proof (IH _ _ He) as Hz. apply list_elem_of_split in Hz as (p1 & p2 & ->).
  rewrite elem_of_app. left. eapply (Ho p1 z (p2 ++ v :: post)); [|done].
  by rewrite He, <- (assoc_L (++)).
Qed.

Lemma tc_node x y : tc (edge g) x y -> node g y.
Proof. induction 1 as [x y Hxy|]; [right; by exists x | done]. Qed.

Lemma ordered_acyclic out : NoDup out -> (forall x, node g x -> x ∈ out) -> ordered out -> acyclic g.
Proof.
  intros Hnd Hall Ho x Hx. pose proof (Hall x (tc_node x x Hx)) as Hin.
  apply list_elem_of_split in Hin as (pre & post & ->).
  apply NoDup_app in Hnd as (_ & Hd & _). eapply Hd; [by eapply ordered_tc|by left].
Qed.

Lemma order_complete ind out : kahn_inv ind [] out -> length out = size ind ->
  forall y, node g y -> y ∈ out.
Proof.
  intros Hk He. destruct Hk as [Hnd Hd _ Hr _]. rewrite app_nil_r in *. intros y Hy.
  assert (list_to_set out = dom ind) as Hs.
  { apply set_subseteq_size_eq.
    - intros z Hz%elem_of_list_to_set%Hr. apply elem_of_dom, Hd. tauto.
    - rewrite size_list_to_set, size_dom by done. lia. }
  rewrite <- (elem_of_list_to_set (C := gset N)), Hs. by apply elem_of_dom, Hd.
Qed.

(** The nodes left over when the queue runs dry all wait for each other. *)
Lemma leftover_cycle ind out : kahn_inv ind [] out ->
  length out <> size ind ->
  (forall y, y ∈ positive ind -> exists x, x ∈ positive ind /\ edge g x y) /\
  exists x, x ∈ positive ind /\ tc (edge g) x x.
Proof.
  intros [Hnd Hd Hc Hr Ho] Hlen. rewrite app_nil_r in *.
  assert (forall y, y ∈ positive ind <-> node g y /\ y ∉ out) as Hp.
  { intros y. unfold positive. rewrite list_elem_of_filter, elem_of_keys, Hd, Hr, Hc.
    rewrite <- (leibniz_equiv_iff (waiting out y)), <- size_empty_iff. split.
    - intros [? ?]. split; [done|]. intros [_ ?]. lia.
    - intros [Hn Hw]. split; [|done]. destruct (size (waiting out y)) eqn:?; [tauto | lia]. }
  assert (forall y, y ∈ positive ind -> exists x, x ∈ positive ind /\ edge g x y) as Hpred.
  { intros y [Hn Hy]%Hp. destruct (set_choose_L (waiting out y)) as [x Hx].
    { intros He. apply Hy, Hr. done. }
    apply elem_of_waiting in Hx as [Hx Ho']. exists x. split; [|done]. apply Hp. split; [|done].
    left. apply elem_of_dom. by eapply edge_source. }
  split; [done|].
  destruct (minimal_exists_elem_of_L (C := gset N) (tc (edge g)) (list_to_set (positive ind)))
    as (x & Hx & Hmin).
  - intros He. apply Hlen. apply Nat.le_antisymm.
    + rewrite <- (app_nil_r out). apply (kahn_inv_bound ind [] out). by split; rewrite ?app_nil_r.
    + rewrite <- size_dom, <- (size_list_to_set (C := gset N)) by done. apply subseteq_size.
      intros y Hy%elem_of_dom%Hd. apply elem_of_list_to_set.
      destruct (decide (y ∈ out)); [done|]. exfalso.
      assert (y ∈ (list_to_set (positive ind) : gset N)) by (by apply elem_of_list_to_set, Hp).
      rewrite He in *. set_solver.
  - apply elem_of_list_to_set in Hx. exists x. split; [done|].
    destruct (Hpred x Hx) as (y & Hy & Hyx). apply tc_once in Hyx. eapply tc_trans; [|exact Hyx].
    apply Hmin; [by apply elem_of_list_to_set | done].
Qed.
End Order.

Lemma acyclic_order (g : DependencyGraph) : acyclic g -> exists order, topological_order g = Ok order.
Proof.
  intros Ha. destruct (topological_order_run g) as (ind & out & Hk & ->).
  destruct (Nat.eqb_spec (length out) (size ind)) as [He|Hne]; [by exists out|].
  destruct (leftover_cycle g ind out Hk Hne) as (_ & x & _ & Hx). by destruct (Ha x).
Qed.

Lemma order_acyclic (g : DependencyGraph) order : topological_order g = Ok order -> acyclic g.
Proof.
  intros Ho. destruct (topological_order_run g) as (ind & out & Hk & He). rewrite Ho in He.
  destruct (Nat.eqb_spec (length out) (size ind)) as [Hl|]; [|done].
  pose proof (order_complete g _ _ Hk Hl) as Hall. destruct Hk as [Hnd _ _ _ Hord].
  rewrite app_nil_r in Hnd. by eapply ordered_acyclic.
Qed.

(** C35: Kahn's loop is total and decides acyclicity.  An order it returns
    lists every node of the graph exactly once, each after all the artifacts
    it depends on, and the graph has no cycle; a [Cycle] report names
    artifacts that depend on one another, among them one on a cycle.  The
    loop never underflows an indegree and nothing else is reported. *)
Theorem topological_order_decides (g : DependencyGraph) :
  match topological_order g with
  | Ok order =>
      NoDup order /\ (forall x, x ∈ order <-> node g x) /\ ordered g order /\ acyclic g
  | Err (Failed (Cycle nodes)) =>
      (forall y, y ∈ nodes -> exists x, x ∈ nodes /\ edge g x y) /\
      exists x, x ∈ nodes /\ tc (edge g) x x
  | Err _ => False
  end.
Proof.
  destruct (topological_order_run g) as (ind & out & Hk & ->).
  destruct (Nat.eqb_spec (length out) (size ind)) as [He|Hne]; [|by eapply leftover_cycle].
  pose proof (order_complete g ind out Hk He) as Hall. destruct Hk as [Hnd _ _ Hr Ho].
  rewrite app_nil_r in *. split_and!; [done | | done | by eapply ordered_acyclic].
  intros x. split; [|apply Hall]. by intros [? _]%Hr.
Qed.

(** The invalidated set is exactly what the changed artifacts reach along
    dependency edges, so it never invalidates too little. *)
Theorem invalidation_is_reachability (g : DependencyGraph) (changed : gset ArtifactId) (y : ArtifactId) :
  y ∈ invalidated (certify_invalidation g changed) <->
  exists x, x ∈ changed /\ rtc (edge g) x y.
Proof. apply closure_reachable. Qed.
