(* ===== verification/Recompute.v ===== *)
(** The recompute engine of graphzero-core ([invalidation.rs]): full rebuild
    to a fixed point, incremental rebuild of the invalidated closure with the
    equality-boundary cutoff, and the equivalence check between them.  The
    theorems show that over a graph that records what every producer reads
    the full rebuild computes the unique settled state, the incremental pass
    computes the same state, and the check accepts. *)

From S2P Require Import Prelude.
From S2P Require Import BTree.
From S2P Require Import Invalidation.

Notation State := (gmap N bytes).

(** A boxed [Fn] closure: a pure function of the state it is shown. *)
Notation ProducerFn := (State -> option bytes).

Record RecomputeEngine := mkEngine {
  graph : DependencyGraph;
  producers : gmap N ProducerFn;
}.

Record RecomputeResult := mkResult { state : State; recomputed : gset N }.

Record CutoffReport := mkReport {
  rep_recomputed : gset N;
  cut_off : gset N;
  boundary_nodes : gset N;
}.

Definition engine_new (g : DependencyGraph) : RecomputeEngine := mkEngine g ∅.

Definition register_producer (e : RecomputeEngine) (id : N) (f : ProducerFn) : RecomputeEngine :=
  mkEngine (ensure_node (graph e) id) (<[id := f]> (producers e)).

Definition is_producer (e : RecomputeEngine) (id : N) : bool :=
  bool_decide (is_Some (producers e !! id)).

(** * Full rebuild *)

Record Pass := mkPass {
  p_state : State;
  p_recomputed : gset N;
  pending : gset N;
  progressed : bool;
}.

(** The body of [for id in &schedule]. *)
Definition pass_visit (e : RecomputeEngine) (st : Pass) (id : N)
  : result (abort InvalidationError) Pass :=
  if bool_decide (id ∈ pending st) then
    let? prod := ok_or (producers e !! id) (Failed (MissingProducer id)) in
    match prod (p_state st) with
    | Some v => Ok (mkPass (<[id := v]> (p_state st)) ({[id]} ∪ p_recomputed st)
                      (pending st ∖ {[id]}) true)
    | None => Ok st
    end
  else Ok st.

Fixpoint full_pass (e : RecomputeEngine) (schedule : list N) (st : Pass)
  : result (abort InvalidationError) Pass :=
  match schedule with
  | [] => Ok st
  | id :: rest => let? st' := pass_visit e st id in full_pass e rest st'
  end.

(** [pending.iter().next().copied().unwrap()]. *)
Definition stuck (pend : gset N) : abort InvalidationError :=
  match first pend with Some id => Failed (MissingProducer id) | None => Panicked end.

(** The [while] loop; [rounds] counts down the source's [guard]. *)
Fixpoint full_loop (e : RecomputeEngine) (schedule : list N) (rounds : nat)
    (s : State) (rec pend : gset N) : result (abort InvalidationError) RecomputeResult :=
  if bool_decide (pend = ∅) then Ok (mkResult s rec)
  else match rounds with
  | O => Err (stuck pend)
  | S rounds' =>
      let? st := full_pass e schedule (mkPass s rec pend false) in
      reject? negb (progressed st) with stuck (pending st) in
      full_loop e schedule rounds' (p_state st) (p_recomputed st) (pending st)
  end.

Definition schedule (e : RecomputeEngine) (order : list N) : list N :=
  foldl (fun acc id => if bool_decide (id ∈ acc) then acc else acc ++ [id])
    (filter (fun id => id ∈ dom (producers e)) order) (keys (producers e)).

Definition full_recompute (e : RecomputeEngine) (inputs : State)
  : result (abort InvalidationError) RecomputeResult :=
  let? _ := topological_order (graph e) in
  let order := match topological_order (graph e) with Ok o => o | Err _ => [] end in
  full_loop e (schedule e order) (size (producers e) + 2) inputs ∅ (dom (producers e)).

(** * Incremental rebuild *)

Definition preds (g : DependencyGraph) : gmap N (gset N) :=
  foldl (fun m u =>
      foldl (fun m v => <[v := {[u]} ∪ default ∅ (m !! v)]> m) m
        (members (default ∅ (forward g !! u))))
    ∅ (keys (forward g)).

Record Walk := mkWalk {
  w_state : State;
  w_recomputed : gset N;
  w_cut_off : gset N;
  w_boundary_nodes : gset N;
  boundary : gset N;
  tainted : gset N;
  reached_ids : gset N;
}.

(** The body of [for id in order]. *)
Definition visit (e : RecomputeEngine) (old_state : State) (changed dirty : gset N)
    (prs : gmap N (gset N)) (w : Walk) (id : N) : Walk :=
  if negb (bool_decide (id ∈ dirty)) then w else
  let ps := members (default ∅ (prs !! id)) in
  let reached :=
    if bool_decide (id ∈ changed) then true
    else existsb (fun p =>
           negb (bool_decide (p ∈ boundary w)) &&
           (if is_producer e p then bool_decide (p ∈ reached_ids w) else bool_decide (p ∈ dirty))) ps in
  if negb reached then
    if is_producer e id then
      mkWalk (w_state w) (w_recomputed w) ({[id]} ∪ w_cut_off w) (w_boundary_nodes w)
        (boundary w) (tainted w) (reached_ids w)
    else w
  else
  let inputs_tainted := existsb (fun p => bool_decide (p ∈ tainted w)) ps in
  let taint1 := if inputs_tainted then {[id]} ∪ tainted w else tainted w in
  match producers e !! id with
  | None =>
      mkWalk (w_state w) (w_recomputed w) (w_cut_off w) (w_boundary_nodes w)
        (boundary w) taint1 (reached_ids w)
  | Some prod =>
      let reached1 := {[id]} ∪ reached_ids w in
      match prod (w_state w) with
      | Some v =>
          let equal := negb inputs_tainted && bool_decide (old_state !! id = Some v) in
          mkWalk (<[id := v]> (w_state w)) ({[id]} ∪ w_recomputed w) (w_cut_off w)
            (if equal then {[id]} ∪ w_boundary_nodes w else w_boundary_nodes w)
            (if equal then {[id]} ∪ boundary w else boundary w)
            taint1 reached1
      | None =>
          mkWalk (w_state w) (w_recomputed w) (w_cut_off w) (w_boundary_nodes w)
            (boundary w) ({[id]} ∪ taint1) reached1
      end
  end.

Definition incremental_recompute_with_report (e : RecomputeEngine) (old_state changed_inputs : State)
  : result (abort InvalidationError) (RecomputeResult * CutoffReport) :=
  let changed := dom changed_inputs in
  let dirty := invalidated (certify_invalidation (graph e) changed) in
  let start := overlay old_state changed_inputs in
  let? order := topological_order (graph e) in
  let w := foldl (visit e old_state changed dirty (preds (graph e)))
             (mkWalk start ∅ ∅ ∅ ∅ ∅ ∅) order in
  Ok (mkResult (w_state w) (w_recomputed w),
      mkReport (w_recomputed w) (w_cut_off w) (w_boundary_nodes w)).

Definition incremental_recompute (e : RecomputeEngine) (old_state changed_inputs : State)
  : result (abort InvalidationError) RecomputeResult :=
  let? (r, _) := incremental_recompute_with_report e old_state changed_inputs in Ok r.

(** * The protected claim *)

Definition divergence (ids : list N) (bad : N -> bool) : result (abort InvalidationError) () :=
  match list_find (fun id => bad id = true) ids with
  | Some (_, id) => Err (Failed (EquivalenceDivergence id))
  | None => Ok ()
  end.

Definition assert_incremental_equivalence (e : RecomputeEngine) (baseline_inputs changed_inputs : State)
  : result (abort InvalidationError) () :=
  reject? negb (protects_incremental_equivalence (class (graph e)))
    with Failed (UnprotectedInfluence (class (graph e))) in
  let full_inputs := overlay baseline_inputs changed_inputs in
  let? full := full_recompute e full_inputs in
  let? base := full_recompute e baseline_inputs in
  let? incr := incremental_recompute e (state base) changed_inputs in
  let? _ := divergence (keys (producers e))
              (fun id => negb (bool_decide (state full !! id = state incr !! id))) in
  divergence (keys (producers e))
    (fun id => negb (bool_decide (state base !! id = state full !! id))
               && negb (bool_decide (id ∈ recomputed incr))).

(** * Declared influence

    [local]: a producer's result depends only on the graph predecessors of
    its artifact, which is what a protected influence class declares.
    [registered]: every producer is a node, as [register_producer] ensures. *)

Definition local (e : RecomputeEngine) : Prop :=
  forall id prod s s', producers e !! id = Some prod ->
    (forall p, edge (graph e) p id -> s !! p = s' !! p) -> prod s = prod s'.

Definition registered (e : RecomputeEngine) : Prop :=
  forall id, is_Some (producers e !! id) -> node (graph e) id.

(** A settled state: inputs as given, every producer's output in place. *)
Definition settled (e : RecomputeEngine) (inputs s : State) : Prop :=
  forall id, match producers e !! id with
             | Some prod => is_Some (s !! id) /\ prod s = s !! id
             | None => s !! id = inputs !! id
             end.

Section Engine.
Context (e : RecomputeEngine) (order : list N) (Horder : topological_order (graph e) = Ok order).

Notation g := (graph e).

Lemma order_facts :
  NoDup order /\ (forall x, x ∈ order <-> node g x) /\ ordered g order.
Proof.
  destruct (topological_order_run g) as (ind & out & Hk & Ho). rewrite Horder in Ho.
  destruct (Nat.eqb_spec (length out) (size ind)) as [He|]; [|done]. simplify_eq.
  pose proof (order_complete g _ _ Hk He) as Hall. destruct Hk as [Hnd _ _ Hr Hord].
  rewrite app_nil_r in *. split_and!; [done | | done]. intros x. split; [by intros [? _]%Hr | apply Hall].
Qed.

(** Along the order no later artifact is a predecessor of an earlier one. *)
Lemma order_later pre x post : order = pre ++ x :: post ->
  (forall u, edge g u x -> u ∈ pre) /\ (x ∉ pre) /\ (forall y, y ∈ x :: pre -> ~ edge g x y).
Proof.
  intros He. destruct order_facts as (Hnd & Hn & Ho).
  assert (x ∉ pre) as Hx.
  { rewrite He in Hnd. apply NoDup_app in Hnd as (_ & Hd & _). intros Hx. eapply Hd; [done|by left]. }
  split; [by eapply Ho|]. split; [done|]. intros y Hy Hxy. apply Hx.
  apply elem_of_cons in Hy as [->|Hy]; [by eapply Ho|].
  apply list_elem_of_split in Hy as (p1 & p2 & ->).
  assert (x ∈ p1); [|set_solver]. eapply (Ho p1 y (p2 ++ x :: post)); [|done].
  by rewrite He, <- (assoc_L (++)).
Qed.

Lemma influence_wf : well_founded (edge g).
Proof.
  destruct order_facts as (Hnd & Hn & Ho).
  assert (forall pre post, order = pre ++ post -> forall x, x ∈ pre -> Acc (edge g) x) as Hpre.
  { intros pre. induction pre as [|y pre IH] using rev_ind; intros post He x Hx; [set_solver|].
    rewrite <- (assoc_L (++)) in He. apply elem_of_app in Hx as [Hx|Hx]; [by eapply IH|].
    apply list_elem_of_singleton in Hx as ->. constructor. intros u Hu.
    eapply IH; [done|]. by eapply Ho. }
  intros x. constructor. intros u Hu.
  destruct (decide (u ∈ order)) as [Hin|Hin]; [by apply (Hpre order []); [rewrite app_nil_r|]|].
  exfalso. apply Hin, Hn. left. by apply elem_of_dom, (edge_source g u x).
Qed.

Context (Hlocal : local e) (Hreg : registered e).

Lemma settled_unique inputs s s' : settled e inputs s -> settled e inputs s' -> s = s'.
Proof.
  intros Hs Hs'. apply map_eq. intros x. induction (influence_wf x) as [x _ IH].
  specialize (Hs x). specialize (Hs' x). destruct (producers e !! x) as [prod|] eqn:Hp; [|congruence].
  destruct Hs as [_ <-], Hs' as [_ <-]. by eapply Hlocal.
Qed.

(** ** One pass of the full rebuild *)

Definition ran (st : Pass) (id : N) (v : bytes) : Prop :=
  p_state st !! id = Some v /\ (id ∉ pending st) /\ id ∈ p_recomputed st.

Definition waits (inputs : State) (st : Pass) (id : N) : Prop :=
  p_state st !! id = inputs !! id /\ id ∈ pending st /\ id ∉ p_recomputed st.

Record pass_inv (inputs : State) (pre : list N) (st : Pass) : Prop := {
  pi_visited : forall id prod, producers e !! id = Some prod -> id ∈ pre ->
    match prod (p_state st) with Some v => ran st id v | None => waits inputs st id end;
  pi_rest : forall id, is_Some (producers e !! id) -> id ∉ pre -> waits inputs st id;
  pi_other : forall id, producers e !! id = None ->
    p_state st !! id = inputs !! id /\ (id ∉ pending st) /\ id ∉ p_recomputed st;
  pi_idle : progressed st = false -> pending st = dom (producers e);
}.

Lemma pass_inv_init inputs : pass_inv inputs [] (mkPass inputs ∅ (dom (producers e)) false).
Proof.
  split; simpl; [set_solver | | | done].
  - intros id Hid _. split_and!; [done | by apply elem_of_dom | set_solver].
  - intros id Hid. split_and!; [done | by apply not_elem_of_dom | set_solver].
Qed.

Lemma pass_inv_skip inputs pre x st : producers e !! x = None ->
  pass_inv inputs pre st -> pass_inv inputs (pre ++ [x]) st.
Proof.
  intros Hx [Hv Hr Ho Hi]. split; [| |done|done].
  - intros id prod Hp Hin. apply Hv; [done|]. set_solver.
  - intros id Hid Hn. apply Hr; [done|]. set_solver.
Qed.

Lemma pass_visit_step inputs pre x post st :
  order = pre ++ x :: post -> pass_inv inputs pre st ->
  exists st', pass_visit e st x = Ok st' /\ pass_inv inputs (pre ++ [x]) st'.
Proof.
  intros He Hi. destruct (order_later _ _ _ He) as (_ & Hx & Hlater).
  unfold pass_visit. destruct (producers e !! x) as [prod|] eqn:Hp; simpl.
  2: { destruct (pi_other _ _ _ Hi x Hp) as (_ & Hn & _). rewrite bool_decide_false by done.
       exists st. split; [done | by apply pass_inv_skip]. }
  destruct (pi_rest _ _ _ Hi x) as (Hs & Hin & Hrec); [by eexists | done |].
  rewrite bool_decide_true by done.
  assert (forall id f v, producers e !! id = Some f -> id ∈ x :: pre ->
            f (<[x := v]> (p_state st)) = f (p_state st)) as Hstable.
  { intros id f v Hf Hid. eapply Hlocal; [done|]. intros p Hedge.
    rewrite lookup_insert_ne; [done|]. intros <-. by eapply Hlater. }
  destruct (prod (p_state st)) as [v|] eqn:Hv; (eexists; split; [done|]); destruct Hi as [Hvis Hr Ho Hi].
  - split; simpl.
    + intros id f Hf Hid. assert (id ∈ x :: pre) as Hid' by set_solver.
      rewrite (Hstable id f v Hf Hid'). destruct (decide (id = x)) as [->|Hne].
      * rewrite Hp in Hf. simplify_eq. rewrite Hv. split_and!; simpl; [by rewrite lookup_insert_eq|set_solver..].
      * assert (id ∈ pre) as Hpre by set_solver. specialize (Hvis id f Hf Hpre).
        destruct (f (p_state st)); destruct Hvis as (? & ? & ?);
          (split_and!; simpl; [by rewrite lookup_insert_ne|set_solver..]).
    + intros id Hid Hn. assert ((id ∉ pre) /\ id <> x) as [Hn' Hne] by set_solver.
      destruct (Hr id Hid Hn') as (? & ? & ?).
      split_and!; simpl; [by rewrite lookup_insert_ne|set_solver..].
    + intros id Hid. assert (id <> x) by (by intros ->; rewrite Hp in Hid).
      destruct (Ho id Hid) as (? & ? & ?). split_and!; [by rewrite lookup_insert_ne|set_solver..].
    + done.
  - split; [| |done|done].
    + intros id f Hf Hid. destruct (decide (id = x)) as [->|Hne].
      * rewrite Hp in Hf. simplify_eq. by rewrite Hv.
      * apply Hvis; [done|]. set_solver.
    + intros id Hid Hn. apply Hr; [done|]. set_solver.
Qed.

Lemma full_pass_order inputs st :
  pass_inv inputs [] st -> exists st', full_pass e order st = Ok st' /\ pass_inv inputs order st'.
Proof.
  assert (forall post pre st, order = pre ++ post -> pass_inv inputs pre st ->
            exists st', full_pass e post st = Ok st' /\ pass_inv inputs order st') as Hgen.
  { intros post. induction post as [|x post IH]; intros pre st' He Hi; simpl.
    - exists st'. rewrite app_nil_r in He. by subst pre.
    - destruct (pass_visit_step _ _ _ _ _ He Hi) as (st1 & -> & Hi1). simpl.
      apply (IH (pre ++ [x])); [|done]. by rewrite <- (assoc_L (++)). }
  intros Hi. by apply (Hgen order [] st).
Qed.

Lemma full_pass_filter l st : pending st ⊆ dom (producers e) ->
  full_pass e (filter (fun id => id ∈ dom (producers e)) l) st = full_pass e l st.
Proof.
  revert st. induction l as [|x l IH]; intros st Hp; [done|]. rewrite filter_cons.
  destruct (decide (x ∈ dom (producers e))) as [Hx|Hx]; simpl.
  - unfold pass_visit at 1 2. case_bool_decide; simpl; [|by apply IH].
    destruct (producers e !! x) as [prod|]; simpl; [|done].
    destruct (prod (p_state st)); simpl; apply IH; [set_solver | done].
  - unfold pass_visit. rewrite bool_decide_false by set_solver. by apply IH.
Qed.

Lemma full_pass_stable l st :
  (forall id, id ∈ pending st -> exists prod, producers e !! id = Some prod /\ prod (p_state st) = None) ->
  full_pass e l st = Ok st.
Proof.
  intros Hst. induction l as [|x l IH]; [done|]. simpl. unfold pass_visit.
  case_bool_decide as Hx; [|done]. destruct (Hst x Hx) as (prod & -> & Hn). simpl. by rewrite Hn.
Qed.

Lemma schedule_order : schedule e order = filter (fun id => id ∈ dom (producers e)) order.
Proof.
  unfold schedule. destruct order_facts as (_ & Hn & _).
  assert (forall id, id ∈ keys (producers e) ->
            id ∈ filter (fun id => id ∈ dom (producers e)) order) as Hk.
  { intros id Hid%elem_of_keys. apply list_elem_of_filter. split; [by apply elem_of_dom|].
    by apply Hn, Hreg. }
  induction (keys (producers e)) as [|k ks IH]; simpl; [done|].
  rewrite bool_decide_true by (apply Hk; by left). apply IH. intros id ?. apply Hk. by right.
Qed.

(** The producers that cannot run stop the rebuild at its second round. *)
Lemma full_recompute_cases inputs :
  exists st, pass_inv inputs order st /\
    full_recompute e inputs =
      if bool_decide (pending st = ∅) then Ok (mkResult (p_state st) (p_recomputed st))
      else Err (stuck (pending st)).
Proof.
  unfold full_recompute. rewrite Horder. simpl. rewrite schedule_order.
  replace (size (producers e) + 2) with (S (S (size (producers e)))) by lia.
  destruct (full_pass_order _ _ (pass_inv_init inputs)) as (st & Hpass & Hi).
  cbn [full_loop]. case_bool_decide as Hd.
  { exists (mkPass inputs ∅ (dom (producers e)) false). simpl. rewrite bool_decide_true by done.
    split; [|done]. assert (forall id, producers e !! id = None) as Hnone.
    { intros id. apply not_elem_of_dom. rewrite Hd. set_solver. }
    split; simpl; [| |set_solver|done].
    - intros id prod. by rewrite Hnone.
    - intros id [? Hid]. by rewrite Hnone in Hid. }
  rewrite full_pass_filter by done. rewrite Hpass. simpl. exists st. split; [done|].
  destruct (progressed st) eqn:Hprog; simpl.
  2: { rewrite bool_decide_false; [done|]. by rewrite (pi_idle _ _ _ Hi Hprog). }
  case_bool_decide as Hpe; [done|].
  rewrite full_pass_filter; [rewrite full_pass_stable; [done|]|]; simpl.
  - intros id Hid. destruct (producers e !! id) as [prod|] eqn:Hp.
    + exists prod. split; [done|]. destruct (decide (id ∈ order)) as [Ho|Ho].
      * pose proof (pi_visited _ _ _ Hi id prod Hp Ho) as Hv.
        destruct (prod (p_state st)); [by destruct Hv as (_ & ? & _)|done].
      * exfalso. apply Ho. destruct order_facts as (_ & Hn & _). apply Hn, Hreg. by eexists.
    + by destruct (pi_other _ _ _ Hi id Hp) as (_ & ? & _).
  - intros id Hid. apply elem_of_dom. destruct (producers e !! id) eqn:Hp; [by eexists|].
    by destruct (pi_other _ _ _ Hi id Hp) as (_ & ? & _).
Qed.

Lemma pass_settled inputs st : pass_inv inputs order st -> pending st = ∅ ->
  settled e inputs (p_state st) /\ p_recomputed st = dom (producers e).
Proof.
  intros Hi Hp. destruct order_facts as (_ & Hn & _).
  assert (forall id prod, producers e !! id = Some prod ->
            exists v, prod (p_state st) = Some v /\ ran st id v) as Hran.
  { intros id prod Hid. pose proof (pi_visited _ _ _ Hi id prod Hid) as Hv.
    destruct (prod (p_state st)) as [v|]; [exists v|]; (lapply Hv; [|apply Hn, Hreg; by eexists]);
      [done|]. intros (_ & ? & _). set_solver. }
  split.
  - intros id. destruct (producers e !! id) as [prod|] eqn:Hid.
    + destruct (Hran id prod Hid) as (v & -> & -> & _). by split; [eexists|].
    + apply (pi_other _ _ _ Hi id Hid).
  - apply set_eq. intros id. rewrite elem_of_dom. destruct (producers e !! id) as [prod|] eqn:Hid.
    + destruct (Hran id prod Hid) as (v & _ & _ & _ & ?). by split; [eexists|].
    + destruct (pi_other _ _ _ Hi id Hid) as (_ & _ & ?). by split; [|intros []].
Qed.

(** A settled state leaves no producer waiting. *)
Lemma settled_pass inputs s st : settled e inputs s -> pass_inv inputs order st -> pending st = ∅.
Proof.
  intros Hs Hi. destruct order_facts as (_ & Hn & _).
  assert (forall x, p_state st !! x = s !! x /\ x ∉ pending st) as Hag.
  { intros x. induction (influence_wf x) as [x _ IH]. specialize (Hs x).
    destruct (producers e !! x) as [prod|] eqn:Hp.
    - destruct Hs as [[v Hv] Hps].
      assert (prod (p_state st) = Some v) as Hpv.
      { rewrite <- Hv, <- Hps. eapply Hlocal; [done|]. intros p Hpx. by apply IH. }
      pose proof (pi_visited _ _ _ Hi x prod Hp) as Hvis. rewrite Hpv in Hvis.
      destruct Hvis as (-> & ? & _); [apply Hn, Hreg; by eexists | by rewrite Hv].
    - destruct (pi_other _ _ _ Hi x Hp) as (-> & ? & _). done. }
  apply set_eq. intros x. split; [|set_solver]. intros Hx. by destruct (Hag x).
Qed.
End Engine.

(** What a full rebuild computes.  Over an acyclic graph that records what
    every producer reads, a rebuild that succeeds returns the settled state
    of its inputs, unique among all states, having run every producer; a
    rebuild that fails names a producer, and then no settled state exists. *)
Theorem full_recompute_settles (e : RecomputeEngine) (inputs : State) :
  local e -> registered e -> acyclic (graph e) ->
  match full_recompute e inputs with
  | Ok r =>
      settled e inputs (state r) /\ (forall s, settled e inputs s -> s = state r) /\
      recomputed r = dom (producers e)
  | Err (Failed (MissingProducer id)) =>
      is_Some (producers e !! id) /\ ~ exists s, settled e inputs s
  | Err _ => False
  end.
Proof.
  intros Hl Hr Ha. destruct (acyclic_order _ Ha) as [order Horder].
  destruct (full_recompute_cases e order Horder Hl Hr inputs) as (st & Hi & ->).
  case_bool_decide as Hp.
  - destruct (pass_settled e order Horder Hl Hr inputs st Hi Hp) as [Hs Hrec]. simpl.
    split_and!; [done | | done]. intros s Hs'. by eapply settled_unique.
  - unfold stuck. destruct (first (pending st)) as [id|] eqn:Hf; [|by apply Hp, first_None].
    apply first_elem in Hf. split.
    + destruct (producers e !! id) eqn:Hid; [by eexists|].
      by destruct (pi_other _ _ _ _ Hi id Hid) as (_ & ? & _).
    + intros [s Hs]. by eapply Hp, settled_pass.
Qed.

(** * The incremental pass *)

Definition add_pred (u : N) (m : gmap N (gset N)) (v : N) : gmap N (gset N) :=
  <[v := {[u]} ∪ default ∅ (m !! v)]> m.

Lemma add_preds_spec u ts m p v :
  p ∈ default ∅ (foldl (add_pred u) m ts !! v) <-> p ∈ default ∅ (m !! v) \/ p = u /\ v ∈ ts.
Proof.
  revert m. induction ts as [|t ts IH]; intros m; simpl; [set_solver|]. rewrite IH. unfold add_pred.
  destruct (decide (v = t)) as [->|]; [rewrite lookup_insert_eq|rewrite lookup_insert_ne by done];
    simpl; set_solver.
Qed.

Lemma preds_spec g p v : p ∈ default ∅ (preds g !! v) <-> edge g p v.
Proof.
  assert (forall us m, p ∈ default ∅ (foldl (fun m u => foldl (add_pred u) m (members (succs g u))) m us !! v)
            <-> p ∈ default ∅ (m !! v) \/ p ∈ us /\ edge g p v) as Hgen.
  { induction us as [|u us IH]; intros m; simpl; [set_solver|].
    rewrite IH, add_preds_spec, elem_of_members. unfold edge. set_solver. }
  change (preds g) with (foldl (fun m u => foldl (add_pred u) m (members (succs g u))) ∅ (keys (forward g))).
  rewrite Hgen, lookup_empty, elem_of_keys. simpl. split; [set_solver|].
  intros He. right. split; [|done]. by apply elem_of_dom, (edge_source g p v).
Qed.

Lemma existsb_members f (s : gset N) : existsb f (members s) = true <-> exists p, p ∈ s /\ f p = true.
Proof.
  rewrite existsb_exists. setoid_rewrite <- list_elem_of_In. by setoid_rewrite elem_of_members.
Qed.

Lemma existsb_members_false f (s : gset N) :
  existsb f (members s) = false <-> forall p, p ∈ s -> f p = false.
Proof.
  rewrite <- not_true_iff_false, existsb_members. split.
  - intros Hn p Hp. apply not_true_iff_false. intros Hf. apply Hn. by exists p.
  - intros Hf (p & Hp & Ht). by rewrite Hf in Ht.
Qed.

Section Incremental.
Context (e : RecomputeEngine) (Hlocal : local e) (Hreg : registered e).
Context (order : list N) (Horder : topological_order (graph e) = Ok order).
Context (baseline changes base full : State).
Context (Hbase : settled e baseline base) (Hfull : settled e (overlay baseline changes) full).

Notation g := (graph e).
Notation changed := (dom changes).
Notation dirty := (upward_closure g changed).

Lemma input_full x : producers e !! x = None -> full !! x = overlay base changes !! x.
Proof.
  intros Hp. specialize (Hfull x). specialize (Hbase x). rewrite Hp in *.
  by rewrite Hfull, !lookup_overlay, Hbase.
Qed.

Lemma overlay_unchanged x : x ∉ changed -> overlay base changes !! x = base !! x.
Proof. intros Hx%not_elem_of_dom. by rewrite lookup_overlay, Hx. Qed.

Lemma changed_dirty x : x ∈ changed -> x ∈ dirty.
Proof. intros Hx. apply closure_reachable. by exists x. Qed.

Lemma dirty_edge x y : x ∈ dirty -> edge g x y -> y ∈ dirty.
Proof. rewrite !closure_reachable. intros (z & Hz & Hzx) He. exists z. split; [done | by eapply rtc_r]. Qed.

(** A producer whose predecessors kept their values keeps its own. *)
Lemma producer_keeps x : is_Some (producers e !! x) ->
  (forall p, edge g p x -> full !! p = base !! p) -> full !! x = base !! x.
Proof.
  intros [prod Hp] Hpred. specialize (Hfull x). specialize (Hbase x). rewrite Hp in *.
  destruct Hfull as [_ <-], Hbase as [_ <-]. by eapply Hlocal.
Qed.

Lemma clean_keeps x : x ∉ dirty -> full !! x = base !! x.
Proof.
  induction (influence_wf e order Horder x) as [x _ IH]. intros Hx.
  destruct (producers e !! x) as [prod|] eqn:Hp.
  - apply producer_keeps; [by eexists|]. intros p Hpx. apply IH; [done|].
    intros Hd. by eapply Hx, dirty_edge.
  - rewrite input_full by done. apply overlay_unchanged. by intros ?%changed_dirty.
Qed.

Record walk_inv (pre : list N) (w : Walk) : Prop := {
  wi_done : forall x, x ∈ pre -> w_state w !! x = full !! x;
  wi_rest : forall x, x ∉ pre -> w_state w !! x = overlay base changes !! x;
  wi_kept : forall x, x ∈ pre -> is_Some (producers e !! x) -> x ∉ reached_ids w -> full !! x = base !! x;
  wi_boundary : forall x, x ∈ boundary w -> full !! x = base !! x;
  wi_tainted : tainted w = ∅;
  wi_reached : reached_ids w = w_recomputed w;
}.

(** Extending the prefix by an artifact the walk leaves alone. *)
Lemma walk_inv_skip pre x w : walk_inv pre w -> x ∉ pre -> full !! x = overlay base changes !! x ->
  (is_Some (producers e !! x) -> full !! x = base !! x) -> walk_inv (pre ++ [x]) w.
Proof.
  intros [Hd Hr Hk Hb Ht Hre] Hx Hf Hp. split; [| | |done|done|done].
  - intros y [Hy|Hy%list_elem_of_singleton]%elem_of_app; [by apply Hd|]. subst y. by rewrite Hr.
  - intros y Hy. apply Hr. set_solver.
  - intros y [Hy|Hy%list_elem_of_singleton]%elem_of_app; [by apply Hk|]. subst y. auto.
Qed.

(** An artifact that no predecessor propagates to keeps its value. *)
Lemma unreached_keeps pre x w : walk_inv pre w -> (forall u, edge g u x -> u ∈ pre) ->
  (forall p, edge g p x -> negb (bool_decide (p ∈ boundary w)) &&
     (if is_producer e p then bool_decide (p ∈ reached_ids w) else bool_decide (p ∈ dirty)) = false) ->
  forall p, edge g p x -> full !! p = base !! p.
Proof.
  intros Hi Hpre Hn p Hp. specialize (Hn p Hp). specialize (Hpre p Hp).
  apply andb_false_iff in Hn as [Hn|Hn]; breflect; [by eapply wi_boundary|].
  unfold is_producer in Hn. case_bool_decide as Hpr; breflect; [by eapply wi_kept | by apply clean_keeps].
Qed.

Lemma visit_step pre x post w : order = pre ++ x :: post -> walk_inv pre w ->
  walk_inv (pre ++ [x]) (visit e base changed dirty (preds g) w x).
Proof.
  intros He Hi. destruct (order_later e order Horder pre x post He) as (Hpre & Hx & _).
  unfold visit. case_bool_decide as Hd; simpl.
  2: { apply walk_inv_skip; [done | done | | by intros _; apply clean_keeps].
       rewrite overlay_unchanged; [by apply clean_keeps | by intros ?%changed_dirty]. }
  destruct (if bool_decide (x ∈ changed) then true else _) eqn:Hreach; simpl.
  - clear Hreach. replace (existsb _ (members (default ∅ (preds g !! x)))) with false.
    2: { symmetry. apply existsb_members_false. intros p _. rewrite (wi_tainted _ _ Hi).
         by apply bool_decide_false, not_elem_of_empty. }
    destruct (producers e !! x) as [prod|] eqn:Hp.
    2: { apply walk_inv_skip; [destruct Hi; by split | done | by apply input_full|].
         rewrite Hp. by intros []. }
    pose proof (Hfull x) as Hfx. rewrite Hp in Hfx. destruct Hfx as [[v Hv] Hpv].
    assert (prod (w_state w) = Some v) as ->.
    { rewrite <- Hv, <- Hpv. eapply Hlocal; [done|]. intros p Hpx. by apply (wi_done _ _ Hi), Hpre. }
    destruct Hi as [Hdone Hr Hk Hb Ht Hre]. split; simpl; [| | | |done|by rewrite Hre].
    + intros y Hy. destruct (decide (y = x)) as [->|]; [by rewrite lookup_insert_eq|].
      rewrite lookup_insert_ne by done. apply Hdone. set_solver.
    + intros y Hy. rewrite lookup_insert_ne by set_solver. apply Hr. set_solver.
    + intros y Hy Hpy Hny. apply Hk; [|done|]; set_solver.
    + case_bool_decide as Heq; [|exact Hb].
      intros y [->%elem_of_singleton|Hy]%elem_of_union; [by rewrite Hv | by apply Hb].
  - case_bool_decide as Hc; [done|]. rewrite existsb_members_false in Hreach.
    assert (is_Some (producers e !! x) -> full !! x = base !! x) as Hkeep.
    { intros Hp. apply producer_keeps; [done|]. eapply unreached_keeps; [done|done|].
      intros p Hpx. by apply Hreach, preds_spec. }
    assert (full !! x = overlay base changes !! x) as Hov.
    { destruct (producers e !! x) as [prod|] eqn:Hp; [|by apply input_full].
      rewrite overlay_unchanged by done. apply Hkeep. by eexists. }
    unfold is_producer. case_bool_decide; [|by apply walk_inv_skip].
    destruct Hi. apply walk_inv_skip; [by split|done..].
Qed.

Lemma walk_final w0 : walk_inv [] w0 ->
  walk_inv order (foldl (visit e base changed dirty (preds g)) w0 order).
Proof.
  assert (forall post pre w, order = pre ++ post -> walk_inv pre w ->
            walk_inv order (foldl (visit e base changed dirty (preds g)) w post)) as Hgen.
  { intros post. induction post as [|x post IH]; intros pre w He Hi; simpl.
    - rewrite app_nil_r in He. by rewrite He.
    - apply (IH (pre ++ [x])); [by rewrite <- (assoc_L (++))|]. by eapply visit_step. }
  by apply (Hgen order []).
Qed.

Lemma incremental_run : exists r rep,
  incremental_recompute_with_report e base changes = Ok (r, rep) /\
  state r = full /\ recomputed r = rep_recomputed rep /\
  (forall x, is_Some (producers e !! x) -> x ∉ recomputed r -> full !! x = base !! x).
Proof.
  unfold incremental_recompute_with_report. rewrite Horder. simpl.
  set (w := foldl _ _ order).
  assert (walk_inv order w) as Hi.
  { apply walk_final. split; simpl; set_solver. }
  destruct (order_facts e order Horder) as (_ & Hn & _).
  eexists _, _. split_and!; [done | | done |]; simpl.
  - apply map_eq. intros x. destruct (decide (x ∈ order)) as [Hx|Hx]; [by apply (wi_done _ _ Hi)|].
    rewrite (wi_rest _ _ Hi) by done. symmetry. apply input_full.
    destruct (producers e !! x) eqn:Hp; [|done]. exfalso. apply Hx, Hn, Hreg. by eexists.
  - intros x Hx Hr. rewrite <- (wi_reached _ _ Hi) in Hr. apply (wi_kept _ _ Hi); [|done|done].
    by apply Hn, Hreg.
Qed.
End Incremental.

Lemma full_recompute_Ok e inputs r : local e -> registered e -> acyclic (graph e) ->
  full_recompute e inputs = Ok r -> settled e inputs (state r).
Proof.
  intros Hl Hr Ha Hf. destruct (acyclic_order _ Ha) as [order Horder].
  destruct (full_recompute_cases e order Horder Hl Hr inputs) as (st & Hi & He).
  rewrite Hf in He. case_bool_decide as Hp; simplify_eq. simpl. by eapply pass_settled.
Qed.

Lemma divergence_none ids bad : (forall id, id ∈ ids -> bad id = false) -> divergence ids bad = Ok ().
Proof.
  intros Hb. unfold divergence. destruct (list_find _ ids) as [[i id]|] eqn:Hf; [|done].
  apply list_find_Some in Hf as (Hi & Ht & _). rewrite Hb in Ht; [done|]. by eapply list_elem_of_lookup_2.
Qed.

(** C24: Certified incremental invalidation.  Over an acyclic graph that
    records what every producer reads, whenever the rebuilds of the baseline
    and of the changed inputs succeed, the incremental pass from the baseline
    state, with its equality cutoff, returns exactly the state of the full
    rebuild, and for a protected influence class the equivalence check
    accepts. *)
Theorem incremental_matches_full (e : RecomputeEngine) (baseline changes : State)
    (base full : RecomputeResult) :
  local e -> registered e -> acyclic (graph e) ->
  full_recompute e baseline = Ok base ->
  full_recompute e (overlay baseline changes) = Ok full ->
  (exists r rep, incremental_recompute_with_report e (state base) changes = Ok (r, rep) /\
     state r = state full) /\
  assert_incremental_equivalence e baseline changes =
    if protects_incremental_equivalence (class (graph e)) then Ok ()
    else Err (Failed (UnprotectedInfluence (class (graph e)))).
Proof.
  intros Hl Hr Ha Hb Hf. destruct (acyclic_order _ Ha) as [order Horder].
  pose proof (full_recompute_Ok _ _ _ Hl Hr Ha Hb) as Sb.
  pose proof (full_recompute_Ok _ _ _ Hl Hr Ha Hf) as Sf.
  destruct (incremental_run e Hl Hr order Horder baseline changes _ _ Sb Sf)
    as (r & rep & Hrun & Hst & _ & Hkeep).
  split; [by exists r, rep|]. unfold assert_incremental_equivalence.
  destruct (protects_incremental_equivalence _); simpl; [|done].
  rewrite Hf. simpl. rewrite Hb. simpl. unfold incremental_recompute. rewrite Hrun. simpl.
  rewrite Hst. rewrite !divergence_none; [done|..]; intros id Hid%elem_of_keys.
  - by apply negb_false_iff, bool_decide_eq_true.
  - apply andb_false_iff. destruct (decide (id ∈ recomputed r)) as [Hin|Hin].
    + right. by rewrite bool_decide_true.
    + left. apply negb_false_iff, bool_decide_eq_true. symmetry. by apply Hkeep.
Qed.

(** * The cutoff report *)

Section Report.
Context (e : RecomputeEngine) (old changes : State).

Notation dirty := (upward_closure (graph e) (dom changes)).

Record honest (pre : list N) (w : Walk) : Prop := {
  ho_state : forall x, x ∉ w_recomputed w -> w_state w !! x = overlay old changes !! x;
  ho_rec : forall x, x ∈ w_recomputed w -> x ∈ pre /\ x ∈ dirty /\ is_Some (producers e !! x);
  ho_cut : forall x, x ∈ w_cut_off w ->
    x ∈ pre /\ x ∈ dirty /\ is_Some (producers e !! x) /\ (x ∉ dom changes) /\ x ∉ w_recomputed w;
  ho_boundary : forall x, x ∈ w_boundary_nodes w -> x ∈ w_recomputed w /\ w_state w !! x = old !! x;
}.

Lemma honest_mono pre x w w' : honest pre w ->
  w_state w' = w_state w -> w_recomputed w' = w_recomputed w -> w_cut_off w' = w_cut_off w ->
  w_boundary_nodes w' = w_boundary_nodes w -> honest (pre ++ [x]) w'.
Proof.
  intros [Hs Hr Hc Hb] E1 E2 E3 E4. split; rewrite ?E1, ?E2, ?E3, ?E4; [done | | |done].
  - intros y (? & ? & ?)%Hr. rewrite elem_of_app. tauto.
  - intros y (? & ? & ? & ? & ?)%Hc. rewrite elem_of_app. tauto.
Qed.

Lemma honest_cut pre x w w' : honest pre w -> x ∉ pre ->
  x ∈ dirty -> is_Some (producers e !! x) -> x ∉ dom changes ->
  w_state w' = w_state w -> w_recomputed w' = w_recomputed w -> w_cut_off w' = {[x]} ∪ w_cut_off w ->
  w_boundary_nodes w' = w_boundary_nodes w -> honest (pre ++ [x]) w'.
Proof.
  intros [Hs Hr Hc Hb] Hx Hd Hp Hn E1 E2 E3 E4. split; rewrite ?E1, ?E2, ?E3, ?E4; [done | | |done].
  - intros y (? & ? & ?)%Hr. rewrite elem_of_app. tauto.
  - intros y [->%elem_of_singleton|(? & ? & ? & ? & ?)%Hc]%elem_of_union; rewrite elem_of_app;
      [|tauto]. split_and!; [right; by left | done | done | done |]. by intros [? _]%Hr.
Qed.

Lemma honest_ran pre x w w' v : honest pre w -> x ∉ pre ->
  x ∈ dirty -> is_Some (producers e !! x) ->
  w_state w' = <[x := v]> (w_state w) -> w_recomputed w' = {[x]} ∪ w_recomputed w ->
  w_cut_off w' = w_cut_off w ->
  (forall y, y ∈ w_boundary_nodes w' -> y ∈ w_boundary_nodes w \/ y = x /\ old !! x = Some v) ->
  honest (pre ++ [x]) w'.
Proof.
  intros [Hs Hr Hc Hb] Hx Hd Hp E1 E2 E3 Hbn. split; rewrite ?E1, ?E2, ?E3.
  - intros y Hy. rewrite not_elem_of_union, not_elem_of_singleton in Hy. destruct Hy.
    rewrite lookup_insert_ne by done. by apply Hs.
  - intros y [->%elem_of_singleton|(? & ? & ?)%Hr]%elem_of_union; rewrite elem_of_app; [|tauto].
    split_and!; [right; by left | done | done].
  - intros y (? & ? & ? & ? & ?)%Hc. rewrite elem_of_app, not_elem_of_union, not_elem_of_singleton.
    split_and!; [by left | done | done | done | by intros -> | done].
  - intros y [Hy|[-> Hv]]%Hbn.
    + destruct (Hb y Hy) as [Hin Ho]. split; [by apply elem_of_union_r|].
      rewrite lookup_insert_ne; [done|]. intros <-. by apply Hr in Hin as [? _].
    + rewrite lookup_insert_eq. split; [|done]. by apply elem_of_union_l, elem_of_singleton.
Qed.

Lemma visit_honest prs pre x w : x ∉ pre -> honest pre w ->
  honest (pre ++ [x]) (visit e old (dom changes) dirty prs w x).
Proof.
  intros Hx Hh. unfold visit. case_bool_decide as Hd; simpl; [|by eapply honest_mono].
  destruct (if bool_decide (x ∈ dom changes) then true else _) eqn:Hreach; simpl.
  - destruct (producers e !! x) as [prod|] eqn:Hp; [|by eapply honest_mono].
    destruct (prod (w_state w)) as [v|]; [|by eapply honest_mono].
    eapply honest_ran; [done | done | done | by eexists | done | done | done | simpl].
    intros y Hy. destruct (_ && bool_decide (old !! x = Some v)) eqn:He; [|by left]. breflect.
    apply elem_of_union in Hy as [->%elem_of_singleton|Hy]; [by right | by left].
  - unfold is_producer. destruct (decide (is_Some (producers e !! x))) as [Hp|Hp].
    + rewrite bool_decide_true by done. destruct (decide (x ∈ dom changes)) as [Hc|Hc].
      { by rewrite bool_decide_true in Hreach. }
      by eapply honest_cut.
    + rewrite bool_decide_false by done. by eapply honest_mono.
Qed.

Lemma walk_honest prs order w : NoDup order -> honest [] w ->
  honest order (foldl (visit e old (dom changes) dirty prs) w order).
Proof.
  intros Hnd. assert (forall post pre w, NoDup (pre ++ post) -> honest pre w ->
    honest (pre ++ post) (foldl (visit e old (dom changes) dirty prs) w post)) as Hgen.
  { intros post. induction post as [|x post IH]; intros pre w' Hn Hh; simpl.
    - by rewrite app_nil_r.
    - rewrite cons_middle, (assoc_L (++)) in *. apply IH; [done|]. apply visit_honest; [|done].
      apply NoDup_app in Hn as (Hn & _ & _). apply NoDup_app in Hn as (_ & Hn & _).
      intros Hx. eapply Hn; [done | by left]. }
  by apply (Hgen order []).
Qed.
End Report.

(** The cutoff report is honest, whatever the producers compute.  The
    artifacts recomputed and those cut off are disjoint sets of invalidated
    producers; a boundary artifact was recomputed to its old value; an
    artifact that was cut off kept its old value; and every value that
    differs from the old state is a changed input or was recomputed. *)
Theorem cutoff_report_honest (e : RecomputeEngine) (old changes : State)
    (r : RecomputeResult) (rep : CutoffReport) :
  incremental_recompute_with_report e old changes = Ok (r, rep) ->
  recomputed r = rep_recomputed rep /\ rep_recomputed rep ## cut_off rep /\
  boundary_nodes rep ⊆ rep_recomputed rep /\
  (forall x, x ∈ rep_recomputed rep ∪ cut_off rep ->
     x ∈ invalidated (certify_invalidation (graph e) (dom changes)) /\ is_Some (producers e !! x)) /\
  (forall x, x ∈ boundary_nodes rep ∪ cut_off rep -> state r !! x = old !! x) /\
  (forall x, state r !! x <> old !! x -> x ∈ dom changes ∪ rep_recomputed rep).
Proof.
  intros Hrun. unfold incremental_recompute_with_report in Hrun. inv_ok1. simplify_eq. rename a into order.
  destruct (order_facts e order Ha) as (Hnd & _ & _). simpl.
  set (w := foldl _ _ order). assert (honest e old changes order w) as [Hs Hr Hc Hb].
  { apply walk_honest; [done|]. by split. }
  split_and!; [done | set_solver | set_solver | set_solver | |].
  - intros x [Hx|Hx]%elem_of_union; [by apply Hb|]. destruct (Hc x Hx) as (_ & _ & _ & Hn & Hnr).
    rewrite Hs by done. apply not_elem_of_dom in Hn. by rewrite lookup_overlay, Hn.
  - intros x Hx. destruct (decide (x ∈ w_recomputed w)); [set_solver|].
    rewrite Hs, lookup_overlay in Hx by done. destruct (changes !! x) eqn:Hch; [|done].
    apply elem_of_union. left. by apply elem_of_dom.
Qed.

(** * A concrete engine

    Artifact 2 keeps the first byte of source 1 and artifact 3 repeats
    artifact 2; the change to source 1 leaves its first byte alone, so the
    incremental pass stops at artifact 2. *)

Definition head_of (id : N) : ProducerFn := fun s => b ← s !! id; Some (take 1 b).
Definition twice_of (id : N) : ProducerFn := fun s => b ← s !! id; Some (b ++ b).

Definition demo : RecomputeEngine :=
  let g := add_dependency (add_dependency (graph_new ExactSupport) 1 2) 2 3 in
  register_producer (register_producer (engine_new g) 2 (head_of 1)) 3 (twice_of 2).

Definition demo_inputs (text : string) : State := {[ 1%N := string_bytes text ]}.

Definition demo_state (text : string) : State :=
  let b := string_bytes text in
  {[ 1%N := b; 2%N := take 1 b; 3%N := take 1 b ++ take 1 b ]}.

Lemma demo_order : topological_order (graph demo) = Ok [1; 2; 3]%N.
Proof. vm_compute. reflexivity. Qed.

Lemma demo_producers id prod : producers demo !! id = Some prod ->
  id = 2%N /\ prod = head_of 1 \/ id = 3%N /\ prod = twice_of 2.
Proof.
  unfold demo, register_producer. simpl. intros [[<- <-]|[? Hp]]%lookup_insert_Some; [by right|].
  apply lookup_insert_Some in Hp as [[<- <-]|[? Hp]]; [by left|]. by rewrite lookup_empty in Hp.
Qed.

Lemma demo_edges : edge (graph demo) 1 2 /\ edge (graph demo) 2 3.
Proof. split; vm_compute; done. Qed.

Lemma demo_local : local demo.
Proof.
  intros id prod s s' [[-> ->]|[-> ->]]%demo_producers Hs; unfold head_of, twice_of;
    rewrite (Hs _ ltac:(apply demo_edges)); done.
Qed.

Lemma demo_registered : registered demo.
Proof.
  intros id [prod [[-> _]|[-> _]]%demo_producers]; right; eexists; apply demo_edges.
Qed.

Lemma demo_acyclic : acyclic (graph demo).
Proof. eapply order_acyclic, demo_order. Qed.

Lemma demo_rebuild_ab :
  full_recompute demo (demo_inputs "ab") = Ok (mkResult (demo_state "ab") {[2; 3]}%N).
Proof. vm_compute. reflexivity. Qed.

Lemma demo_rebuild_ac :
  full_recompute demo (overlay (demo_inputs "ab") (demo_inputs "ac")) =
    Ok (mkResult (demo_state "ac") {[2; 3]}%N).
Proof. vm_compute. reflexivity. Qed.

Definition demo_report : RecomputeResult * CutoffReport :=
  (mkResult (demo_state "ac") {[2]}%N, mkReport {[2%N]} {[3%N]} {[2%N]}).

Lemma demo_incremental :
  incremental_recompute_with_report demo (demo_state "ab") (demo_inputs "ac") = Ok demo_report.
Proof. vm_compute. reflexivity. Qed.

Lemma full_recompute_settles_witness : settled demo (demo_inputs "ab") (demo_state "ab").
Proof.
  pose proof (full_recompute_settles demo (demo_inputs "ab") demo_local demo_registered demo_acyclic) as H.
  rewrite demo_rebuild_ab in H. exact (proj1 H).
Defined.

Lemma incremental_matches_full_witness :
  assert_incremental_equivalence demo (demo_inputs "ab") (demo_inputs "ac") = Ok ().
Proof.
  exact (proj2 (incremental_matches_full demo (demo_inputs "ab") (demo_inputs "ac") _ _
    demo_local demo_registered demo_acyclic demo_rebuild_ab demo_rebuild_ac)).
Defined.

Lemma cutoff_report_honest_witness :
  state (fst demo_report) !! 3%N = demo_state "ab" !! 3%N.
Proof.
  destruct (cutoff_report_honest demo (demo_state "ab") (demo_inputs "ac") _ _ demo_incremental)
    as (_ & _ & _ & _ & Hkept & _).
  apply Hkept. vm_compute. done.
Defined.

(** Artifact 2 reads artifact 5, which is derived from source 1, but the edge
    from 5 to 2 was never declared; artifact 2 falls back to a default when 5
    is not there yet. *)
Definition or_default_of (id : N) : ProducerFn := fun s => Some (default [] (s !! id)).

Definition undeclared : RecomputeEngine :=
  let g := add_dependency (graph_new SoundOverapproximation) 1 5 in
  register_producer (register_producer (engine_new g) 5 (head_of 1)) 2 (or_default_of 5).

(** A missing influence edge can go unnoticed: the full rebuild runs artifact
    2 before artifact 5 and does not return to it, so it succeeds with a
    state that is not settled, and the equivalence check accepts a change
    that artifact 2 depends on. *)
Lemma undeclared_edge_unnoticed :
  (exists r, full_recompute undeclared (demo_inputs "ab") = Ok r /\
     state r !! 2%N = Some [] /\ or_default_of 5 (state r) = Some (string_bytes "a")) /\
  assert_incremental_equivalence undeclared (demo_inputs "ab") (demo_inputs "xy") = Ok ().
Proof.
  split; [|vm_compute; reflexivity].
  eexists. split; [vm_compute; reflexivity|]. split; vm_compute; reflexivity.
Qed.
