(* ===== verification/Dirty.v ===== *)
(** The dirty set since a bookmark (graphzero-core [dirty.rs] and the closure
    records of [invalidation.rs]) with the schema stamp of graphzero-types
    ([schema_version.rs]).  The theorems identify the dirty set with what the
    journal's artifacts reach, through the influence graph or through the
    recorded consultations alone. *)

From S2P Require Import Prelude.
From S2P Require Import BTree.
From S2P Require Import Invalidation.

(** * Schema stamps *)

Inductive StoreSegmentKind := Fingerprint | DirtySet | Snapshot.

Definition GRAPHZERO_STORE_SCHEMA_MAJOR : N := 1.
Definition GRAPHZERO_STORE_SCHEMA_MINOR : N := 0.

Record SchemaVersionStamp := mkStamp {
  schema_major : N;
  schema_minor : N;
  writer_version : string;
}.

Definition stamp_current (writer : string) : SchemaVersionStamp :=
  mkStamp GRAPHZERO_STORE_SCHEMA_MAJOR GRAPHZERO_STORE_SCHEMA_MINOR writer.

Inductive AdmitOutcome := Compatible | DegradedOlderMinor.
Inductive SchemaVersionRefuseReason := NewerMajor | OlderMajor.

Record SchemaVersionError := mkVersionError {
  segment : StoreSegmentKind;
  found_major : N;
  found_minor : N;
  supported_major : N;
  supported_minor : N;
  refuse_reason : SchemaVersionRefuseReason;
}.

Definition admit_read (seg : StoreSegmentKind) (found : SchemaVersionStamp) (major minor : N)
  : result SchemaVersionError AdmitOutcome :=
  let refuse := mkVersionError seg (schema_major found) (schema_minor found) major minor in
  reject? (major <? schema_major found)%N with refuse NewerMajor in
  reject? (schema_major found <? major)%N with refuse OlderMajor in
  if (schema_minor found <? minor)%N then Ok DegradedOlderMinor else Ok Compatible.

Definition admit_current (seg : StoreSegmentKind) (found : SchemaVersionStamp)
  : result SchemaVersionError AdmitOutcome :=
  admit_read seg found GRAPHZERO_STORE_SCHEMA_MAJOR GRAPHZERO_STORE_SCHEMA_MINOR.

(** * Closure records *)

Record DependencyClosureRecord := mkClosure {
  artifact : ArtifactId;
  consulted : gset ArtifactId;
  influence : InfluenceClass;
  producer_digest : N;
}.

Definition record_dependency_closure (a : ArtifactId) (c : gset ArtifactId) (i : InfluenceClass)
    (d : N) : DependencyClosureRecord := mkClosure a c i d.

Definition dirty_from_closure (closures : list DependencyClosureRecord)
    (journal_changed : gset ArtifactId) : gset ArtifactId :=
  foldl (fun dirty rec =>
      if existsb (fun c => bool_decide (c ∈ journal_changed)) (members (consulted rec))
      then {[artifact rec]} ∪ dirty else dirty)
    ∅ closures.

(** * The journal feed *)

Inductive JournalEventKind := Create | Modify | Delete | Rename.

Record JournalEvent := mkEvent {
  ev_kind : JournalEventKind;
  ev_artifact : ArtifactId;
  ev_to : option ArtifactId;
}.

Record Bookmark := mkBookmark { bm_id : N; bm_label : string }.

Record DirtyReport := mkDirtyReport {
  rep_schema_major : N;
  rep_schema_minor : N;
  rep_writer_version : string;
  since : Bookmark;
  rep_journal_changed : gset ArtifactId;
  dirty_artifacts : gset ArtifactId;
  certificate : InvalidationCertificate;
}.

Definition schema_stamp (r : DirtyReport) : SchemaVersionStamp :=
  mkStamp (rep_schema_major r) (rep_schema_minor r) (rep_writer_version r).

Definition admit_schema (r : DirtyReport) : result SchemaVersionError AdmitOutcome :=
  admit_current DirtySet (schema_stamp r).

Definition journal_changed_set (events : list JournalEvent) : gset ArtifactId :=
  foldl (fun out ev =>
      let out := {[ev_artifact ev]} ∪ out in
      match ev_to ev with Some t => {[t]} ∪ out | None => out end)
    ∅ events.

Section Dirty.
(** The crate version the build stamps, [CARGO_PKG_VERSION]. *)
Context (pkg_version : string).

Definition dirty_set_writer_version : string := "graphzero-core@" +:+ pkg_version.

Definition stamp_dirty_report (s : Bookmark) (journal_changed dirty : gset ArtifactId)
    (c : InvalidationCertificate) : DirtyReport :=
  let stamp := stamp_current dirty_set_writer_version in
  mkDirtyReport (schema_major stamp) (schema_minor stamp) (writer_version stamp)
    s journal_changed dirty c.

Definition dirty_since (s : Bookmark) (events : list JournalEvent)
    (closures : list DependencyClosureRecord) (g : DependencyGraph) : DirtyReport :=
  let journal_changed := journal_changed_set events in
  let dirty := foldl (fun d c => {[c]} ∪ d) (dirty_from_closure closures journal_changed)
                 (members journal_changed) in
  let cert := certify_invalidation g dirty in
  stamp_dirty_report s journal_changed (invalidated cert) cert.

Definition consultation_graph (closures : list DependencyClosureRecord) : DependencyGraph :=
  foldl (fun g rec =>
      foldl (fun g c => add_dependency g c (artifact rec)) (ensure_node g (artifact rec))
        (members (consulted rec)))
    (graph_new SoundOverapproximation) closures.

Definition dirty_since_closures_only (s : Bookmark) (events : list JournalEvent)
    (closures : list DependencyClosureRecord) : DirtyReport :=
  dirty_since s events closures (consultation_graph closures).

(** * What the report contains *)

(** An event touches the artifact it names and the target of a rename. *)
Definition touches (ev : JournalEvent) (x : ArtifactId) : Prop :=
  ev_artifact ev = x \/ ev_to ev = Some x.

Definition journaled (events : list JournalEvent) (x : ArtifactId) : Prop :=
  exists ev, ev ∈ events /\ touches ev x.

(** [consults closures a b]: some record says [b] consulted [a]. *)
Definition consults (closures : list DependencyClosureRecord) (a b : ArtifactId) : Prop :=
  exists rec, rec ∈ closures /\ artifact rec = b /\ a ∈ consulted rec.

Lemma elem_of_journal_changed events x : x ∈ journal_changed_set events <-> journaled events x.
Proof.
  unfold journal_changed_set, journaled. set (f := fun out ev => _).
  assert (forall out, x ∈ foldl f out events <-> x ∈ out \/ exists ev, ev ∈ events /\ touches ev x) as H.
  { induction events as [|ev events IH]; intros out; simpl; [set_solver|].
    rewrite IH. unfold f, touches. destruct (ev_to ev) eqn:He; set_solver. }
  rewrite H. set_solver.
Qed.

Lemma elem_of_dirty_from_closure closures changed x :
  x ∈ dirty_from_closure closures changed <-> exists c, c ∈ changed /\ consults closures c x.
Proof.
  unfold dirty_from_closure. set (f := fun d rec => _).
  assert (forall d, x ∈ foldl f d closures <-> x ∈ d \/ exists c, c ∈ changed /\ consults closures c x) as H.
  { induction closures as [|rec closures IH]; intros d; simpl.
    { unfold consults. set_solver. }
    rewrite IH. unfold f, consults. destruct (existsb _ _) eqn:He.
    - rewrite existsb_exists in He. destruct He as (c & Hc%list_elem_of_In%elem_of_members & Hd).
      breflect. set_solver.
    - assert (forall c, c ∈ consulted rec -> c ∉ changed) as Hn; [|set_solver].
      intros c Hc Hch. apply not_true_iff_false in He. apply He, existsb_exists. exists c.
      split; [by apply list_elem_of_In, elem_of_members | by apply bool_decide_true]. }
  rewrite H. set_solver.
Qed.

Lemma elem_of_foldl_insert (l : list N) (d : gset N) x :
  x ∈ foldl (fun d c => {[c]} ∪ d) d l <-> x ∈ d \/ x ∈ l.
Proof. revert d. induction l as [|c l IH]; intros d; simpl; [set_solver|]. rewrite IH. set_solver. Qed.

Lemma edge_add_dependencies cs b g x y :
  edge (foldl (fun g c => add_dependency g c b) g cs) x y <-> edge g x y \/ x ∈ cs /\ y = b.
Proof.
  revert g. induction cs as [|c cs IH]; intros g; simpl; [set_solver|].
  rewrite IH, edge_add_dependency, elem_of_cons. tauto.
Qed.

Lemma edge_consultation closures x y :
  edge (consultation_graph closures) x y <-> consults closures x y.
Proof.
  unfold consultation_graph. set (f := fun g rec => _).
  assert (forall g, edge (foldl f g closures) x y <-> edge g x y \/ consults closures x y) as H.
  { induction closures as [|rec closures IH]; intros g; simpl.
    { unfold consults. set_solver. }
    rewrite IH. unfold f. rewrite edge_add_dependencies, edge_ensure_node, elem_of_members.
    unfold consults. set_solver. }
  rewrite H. unfold edge at 1, succs. simpl. rewrite lookup_empty. set_solver.
Qed.

Lemma dirty_reach s events closures g y :
  y ∈ dirty_artifacts (dirty_since s events closures g) <->
  exists x, (journaled events x \/ exists c, journaled events c /\ consults closures c x) /\
    rtc (edge g) x y.
Proof.
  simpl. rewrite closure_reachable. setoid_rewrite elem_of_foldl_insert.
  setoid_rewrite elem_of_dirty_from_closure. setoid_rewrite elem_of_members.
  setoid_rewrite elem_of_journal_changed. split; intros (x & Hx & Hxy); exists x; tauto.
Qed.
End Dirty.

(** The dirty set since a bookmark is exactly what is reachable in the
    influence graph from an artifact the journal touched or from a derived
    artifact that consulted one; the report carries the certificate of that
    closure and its schema stamp is admitted as compatible. *)
Theorem dirty_since_exact (pkg_version : string) (s : Bookmark) (events : list JournalEvent)
    (closures : list DependencyClosureRecord) (g : DependencyGraph) :
  let r := dirty_since pkg_version s events closures g in
  (forall y, y ∈ dirty_artifacts r <->
     exists x, (journaled events x \/ exists c, journaled events c /\ consults closures c x) /\
       rtc (edge g) x y) /\
  invalidated (certificate r) = dirty_artifacts r /\ admit_schema r = Ok Compatible.
Proof. intros r. split_and!; [intros y; apply dirty_reach | done | done]. Qed.

(** Without an influence graph the recorded consultations alone are
    followed transitively: an artifact is dirty exactly when a chain of
    consultations leads to it from an artifact the journal touched. *)
Theorem dirty_closures_only_exact (pkg_version : string) (s : Bookmark) (events : list JournalEvent)
    (closures : list DependencyClosureRecord) (y : ArtifactId) :
  y ∈ dirty_artifacts (dirty_since_closures_only pkg_version s events closures) <->
  exists x, journaled events x /\ rtc (consults closures) x y.
Proof.
  unfold dirty_since_closures_only. rewrite dirty_reach.
  assert (forall x, rtc (edge (consultation_graph closures)) x y <-> rtc (consults closures) x y) as Hr.
  { intros x. split; induction 1 as [|a b c Hab _ IH]; try done; (eapply rtc_l; [|exact IH]);
      by apply edge_consultation. }
  setoid_rewrite Hr. split.
  - intros (x & [Hx|(c & Hc & Hcx)] & Hxy); [by exists x|]. exists c. split; [done|]. by eapply rtc_l.
  - intros (x & Hx & Hxy). exists x. tauto.
Qed.
