(* ===== verification/ProjectGraph.v ===== *)
(** The source-anchored project graph of graphzero-core ([graph.rs]) and its
    truth classes ([truth.rs]): nodes and edges admitted only against the
    graph's source root, and absence certified only under complete coverage.
    The theorems give the graph's invariant over every history of insertions
    and the exact meaning of an absence certificate. *)

From S2P Require Import Prelude.
From S2P Require Import BTree.

(** * Truth classes *)

Inductive TruthClass :=
| CompilerExact | LspExactScoped | SyntaxDerived | TSoundOverapproximation
| TRuntimeObserved | Historical | THeuristic | TUnknown.

Definition is_exact (t : TruthClass) : bool :=
  match t with CompilerExact | LspExactScoped => true | _ => false end.

Definition admissible_in_strict_fiber (t : TruthClass) : bool :=
  match t with
  | CompilerExact | LspExactScoped | SyntaxDerived | TSoundOverapproximation => true
  | _ => false
  end.

Definition may_upgrade_to_exact (t : TruthClass) : bool := false.

(** * The graph *)

(** 32-byte content hashes, compared as numbers. *)
Notation ContentHash := N (only parsing).
Notation NodeId := N (only parsing).
Notation EdgeId := N (only parsing).

Inductive CoverageClass := CoComplete | CoSoundOverapproximation | CoObservedOnly | CoPartial | CoUnknown.

Definition permits_absence_certificate (c : CoverageClass) : bool :=
  match c with CoComplete => true | _ => false end.

Inductive Relation :=
| Defines | Calls | Imports | Implements | References | Tests
| SchemaDepends | BuildDepends | EffectMayTouch.

#[global] Instance Relation_eq_dec : EqDecision Relation.
Proof. solve_decision. Defined.

Record SourceAnchor := mkAnchor {
  an_source_root : ContentHash;
  an_producer : ContentHash;
  an_configuration : ContentHash;
}.

Record GraphNode := mkNode {
  node_id : NodeId;
  node_kind : string;
  node_name : string;
  node_anchor : SourceAnchor;
  node_truth : TruthClass;
}.

Record GraphEdge := mkEdge {
  edge_id : EdgeId;
  edge_from : NodeId;
  edge_to : NodeId;
  relation : Relation;
  edge_truth : TruthClass;
  provenance : list SourceAnchor;
}.

Record NegativeKnowledgeCertificate := mkNegative {
  nk_relation : Relation;
  nk_region : ContentHash;
  nk_source_root : ContentHash;
  nk_extractor_contract : ContentHash;
  nk_checked_nodes : N;
  nk_coverage : CoverageClass;
}.

Record ProjectGraph := mkProject {
  source_root : ContentHash;
  coverage : CoverageClass;
  coverage_region : ContentHash;
  extractor_contract : ContentHash;
  nodes : gmap NodeId GraphNode;
  edges : gmap EdgeId GraphEdge;
}.

Inductive GraphError :=
| DuplicateNode (id : NodeId)
| DuplicateEdge (id : EdgeId)
| MissingEndpoint (id : NodeId)
| CoverageNotComplete (actual : CoverageClass)
| RelationPresent (id : EdgeId)
| StaleRoot.

Definition project_new (root : ContentHash) (c : CoverageClass) (region contract : ContentHash)
  : ProjectGraph := mkProject root c region contract ∅ ∅.

Definition add_node (g : ProjectGraph) (n : GraphNode) : result GraphError ProjectGraph :=
  reject? negb (an_source_root (node_anchor n) =? source_root g)%N with StaleRoot in
  reject? bool_decide (is_Some (nodes g !! node_id n)) with DuplicateNode (node_id n) in
  Ok (mkProject (source_root g) (coverage g) (coverage_region g) (extractor_contract g)
        (<[node_id n := n]> (nodes g)) (edges g)).

Definition add_edge (g : ProjectGraph) (e : GraphEdge) : result GraphError ProjectGraph :=
  reject? existsb (fun a => negb (an_source_root a =? source_root g)%N) (provenance e)
    with StaleRoot in
  reject? negb (bool_decide (is_Some (nodes g !! edge_from e))) with MissingEndpoint (edge_from e) in
  reject? negb (bool_decide (is_Some (nodes g !! edge_to e))) with MissingEndpoint (edge_to e) in
  reject? bool_decide (is_Some (edges g !! edge_id e)) with DuplicateEdge (edge_id e) in
  Ok (mkProject (source_root g) (coverage g) (coverage_region g) (extractor_contract g)
        (nodes g) (<[edge_id e := e]> (edges g))).

Definition neighbors (g : ProjectGraph) (n : NodeId) (rel : Relation) : gset NodeId :=
  list_to_set (edge_to <$>
    filter (fun e => edge_from e = n /\ relation e = rel) (values (edges g))).

Definition certify_absence (g : ProjectGraph) (rel : Relation)
  : result GraphError NegativeKnowledgeCertificate :=
  reject? negb (permits_absence_certificate (coverage g)) with CoverageNotComplete (coverage g) in
  match list_find (fun e => relation e = rel) (values (edges g)) with
  | Some (_, e) => Err (RelationPresent (edge_id e))
  | None =>
      Ok (mkNegative rel (coverage_region g) (source_root g) (extractor_contract g)
            (N.of_nat (size (nodes g))) (coverage g))
  end.

(** * The invariant *)

Record project_wf (g : ProjectGraph) : Prop := {
  pw_node : forall k n, nodes g !! k = Some n ->
    node_id n = k /\ an_source_root (node_anchor n) = source_root g;
  pw_edge : forall k e, edges g !! k = Some e ->
    edge_id e = k /\ is_Some (nodes g !! edge_from e) /\ is_Some (nodes g !! edge_to e) /\
    Forall (fun a => an_source_root a = source_root g) (provenance e);
}.

(** Insertions that succeeded, in any order. *)
Inductive grows (g : ProjectGraph) : ProjectGraph -> Prop :=
| grows_refl : grows g g
| grows_node g1 g2 n : grows g g1 -> add_node g1 n = Ok g2 -> grows g g2
| grows_edge g1 g2 e : grows g g1 -> add_edge g1 e = Ok g2 -> grows g g2.

Lemma add_node_Ok g n g' : add_node g n = Ok g' ->
  an_source_root (node_anchor n) = source_root g /\ nodes g !! node_id n = None /\
  g' = mkProject (source_root g) (coverage g) (coverage_region g) (extractor_contract g)
         (<[node_id n := n]> (nodes g)) (edges g).
Proof.
  unfold add_node. intros Hrun. inv_ok. breflect. split_and!; [done | by apply eq_None_not_Some | done].
Qed.

Lemma add_edge_Ok g e g' : add_edge g e = Ok g' ->
  Forall (fun a => an_source_root a = source_root g) (provenance e) /\
  is_Some (nodes g !! edge_from e) /\ is_Some (nodes g !! edge_to e) /\ edges g !! edge_id e = None /\
  g' = mkProject (source_root g) (coverage g) (coverage_region g) (extractor_contract g)
         (nodes g) (<[edge_id e := e]> (edges g)).
Proof.
  unfold add_edge. intros Hrun. inv_ok. breflect.
  split_and!; [|done|done|by apply eq_None_not_Some|done].
  apply list.Forall_forall. intros a Ha. apply N.eqb_eq, negb_false_iff, not_true_iff_false. intros Hn.
  rewrite <- not_true_iff_false, existsb_exists in Heqb. apply Heqb. exists a.
  split; [by apply list_elem_of_In | done].
Qed.

Lemma add_node_wf g n g' : project_wf g -> add_node g n = Ok g' -> project_wf g'.
Proof.
  intros [Hn He] (Hr & Hf & ->)%add_node_Ok. split; simpl.
  - intros k m [[<- <-]|[_ Hm]]%lookup_insert_Some; [done | by apply Hn].
  - intros k e (? & ? & ? & ?)%He. split_and!; [done|by apply lookup_insert_is_Some'; right..|done].
Qed.

Lemma add_edge_wf g e g' : project_wf g -> add_edge g e = Ok g' -> project_wf g'.
Proof.
  intros [Hn He] (Hp & Hf & Ht & _ & ->)%add_edge_Ok. split; simpl; [done|].
  intros k m [[<- <-]|[_ Hm]]%lookup_insert_Some; [done | by apply He].
Qed.

Lemma grows_wf g g' : project_wf g -> grows g g' ->
  project_wf g' /\ source_root g' = source_root g /\ nodes g ⊆ nodes g' /\ edges g ⊆ edges g'.
Proof.
  intros Hwf. induction 1 as [|g1 g2 n _ (IH & Hs & Hn & He) H|g1 g2 e _ (IH & Hs & Hn & He) H]; [done|..].
  - split; [by eapply add_node_wf|]. apply add_node_Ok in H as (_ & Hf & ->). simpl.
    split_and!; [done | etrans; [done|by apply insert_subseteq] | done].
  - split; [by eapply add_edge_wf|]. apply add_edge_Ok in H as (_ & _ & _ & Hf & ->). simpl.
    split_and!; [done | done | etrans; [done|by apply insert_subseteq]].
Qed.

Lemma project_new_wf root c region contract : project_wf (project_new root c region contract).
Proof. split; simpl; intros k ?; by rewrite lookup_empty. Qed.

Lemma elem_of_neighbors g n rel m :
  m ∈ neighbors g n rel <->
  exists k e, edges g !! k = Some e /\ edge_from e = n /\ relation e = rel /\ edge_to e = m.
Proof.
  unfold neighbors. rewrite elem_of_list_to_set, list_elem_of_fmap. split.
  - intros (e & -> & [[? ?] [k Hk]%elem_of_values]%list_elem_of_filter). by exists k, e.
  - intros (k & e & Hk & ? & ? & <-). exists e. split; [done|]. apply list_elem_of_filter.
    split; [done|]. apply elem_of_values. by exists k.
Qed.

(** The project graph stays anchored.  Whatever insertions are attempted,
    every node and edge of the graph is stored under its own identity, carries
    the graph's source root in its anchor or in all of its provenance, and
    every edge joins nodes of the graph, so neighbors are always nodes;
    nothing inserted is later removed or replaced. *)
Theorem project_graph_anchored (root region contract : ContentHash) (c : CoverageClass)
    (g1 g2 : ProjectGraph) :
  grows (project_new root c region contract) g1 -> grows g1 g2 ->
  project_wf g2 /\ source_root g2 = root /\ nodes g1 ⊆ nodes g2 /\ edges g1 ⊆ edges g2 /\
  forall n rel m, m ∈ neighbors g2 n rel -> is_Some (nodes g2 !! n) /\ is_Some (nodes g2 !! m).
Proof.
  intros H1 H2. destruct (grows_wf _ _ (project_new_wf root c region contract) H1) as (Hwf1 & Hs1 & _).
  destruct (grows_wf _ _ Hwf1 H2) as (Hwf2 & Hs2 & Hn & He).
  split_and!; [done | by rewrite Hs2, Hs1 | done | done|].
  intros n rel m (k & e & Hk & <- & _ & <-)%elem_of_neighbors.
  by destruct (pw_edge _ Hwf2 k e Hk) as (_ & ? & ? & _).
Qed.

(** An absence certificate is sound and is never issued on a mere failed
    search.  It is issued exactly when the declared coverage is complete and
    no edge has the relation, it is bound to the graph's root, region and
    extractor, and then no node has neighbors by it; incomplete coverage is
    refused before the edges are searched, and a refusal because the relation
    is present names an edge that has it. *)
Theorem absence_certificate_sound (g : ProjectGraph) (rel : Relation) :
  project_wf g ->
  match certify_absence g rel with
  | Ok cert =>
      coverage g = CoComplete /\ (forall k e, edges g !! k = Some e -> relation e <> rel) /\
      (forall n, neighbors g n rel = ∅) /\
      cert = mkNegative rel (coverage_region g) (source_root g) (extractor_contract g)
               (N.of_nat (size (nodes g))) CoComplete
  | Err (CoverageNotComplete c) => c = coverage g /\ coverage g <> CoComplete
  | Err (RelationPresent id) =>
      coverage g = CoComplete /\ exists e, edges g !! id = Some e /\ relation e = rel
  | Err _ => False
  end.
Proof.
  intros Hwf. unfold certify_absence. destruct (coverage g) eqn:Hc; simpl; try done.
  destruct (list_find _ _) as [[i e]|] eqn:Hf.
  - apply list_find_Some in Hf as (Hi & He & _). split; [done|]. exists e. split; [|done].
    apply list_elem_of_lookup_2, elem_of_values in Hi as [k Hk].
    by destruct (pw_edge _ Hwf k e Hk) as [-> _].
  - apply list_find_None in Hf. rewrite list.Forall_forall in Hf.
    assert (forall k e, edges g !! k = Some e -> relation e <> rel) as Hno.
    { intros k e Hk. apply Hf, elem_of_values. by exists k. }
    split_and!; [done | done | | done]. intros n. apply set_eq. intros m.
    rewrite elem_of_neighbors. split; [|set_solver]. intros (k & e & Hk & _ & Hr & _). by eapply Hno in Hk.
Qed.

(** * A concrete graph *)

Definition demo_node (id : N) : GraphNode := mkNode id "fn" "f" (mkAnchor 7 1 1) CompilerExact.
Definition demo_edge : GraphEdge := mkEdge 30 10 20 Calls CompilerExact [mkAnchor 7 1 1].

Definition demo_graph : ProjectGraph :=
  mkProject 7 CoComplete 8 9 {[ 10%N := demo_node 10; 20%N := demo_node 20 ]} {[ 30%N := demo_edge ]}.

Lemma demo_grows : grows (project_new 7 CoComplete 8 9) demo_graph.
Proof.
  eapply (grows_edge _ _ _ demo_edge);
    [eapply (grows_node _ _ _ (demo_node 10));
      [eapply (grows_node _ _ _ (demo_node 20)); [apply grows_refl|] | ] |]; reflexivity.
Qed.

Lemma demo_graph_wf : project_wf demo_graph.
Proof. apply (grows_wf _ _ (project_new_wf 7 CoComplete 8 9) demo_grows). Qed.

Lemma project_graph_anchored_witness : source_root demo_graph = 7%N.
Proof. apply (project_graph_anchored 7 8 9 CoComplete demo_graph demo_graph demo_grows (grows_refl _)). Defined.

Lemma absence_certificate_sound_witness :
  neighbors demo_graph 10 Imports = ∅ /\ certify_absence demo_graph Calls = Err (RelationPresent 30).
Proof.
  pose proof (absence_certificate_sound demo_graph Imports demo_graph_wf) as H.
  assert (certify_absence demo_graph Imports = Ok (mkNegative Imports 8 7 9 2 CoComplete)) as E by reflexivity.
  rewrite E in H. split; [apply H | reflexivity].
Defined.
