(* ===== verification/Grades.v ===== *)
(** The evidence-grade ledger of graphzero-core ([grades.rs]): baseline grades,
    evidence-backed upgrades, cascading revocation and the hub vocabulary.
    The theorems give the ledger's invariant (the active upgrades of every
    artifact climb the lattice from its baseline), the exact cascade of a
    revocation, its fail-closed restore, and the append-only history. *)

From S2P Require Import Prelude.
From S2P Require Import BTree.
From S2P Require Import ProjectGraph.
From stdpp Require Import pretty.

Inductive GradeName := Complete | SoundOverapproximation | ObservedOnly | Unknown.

#[global] Instance GradeName_eq_dec : EqDecision GradeName.
Proof. solve_decision. Defined.

Definition may_upgrade_to (from to : GradeName) : bool :=
  match from, to with
  | ObservedOnly, SoundOverapproximation => true
  | ObservedOnly, Complete => true
  | SoundOverapproximation, Complete => true
  | _, _ => false
  end.

(** [impl From<CoverageClass> for GradeName]. *)
Definition grade_from_coverage (c : CoverageClass) : GradeName :=
  match c with
  | CoComplete => Complete
  | CoSoundOverapproximation => SoundOverapproximation
  | CoObservedOnly | CoPartial => ObservedOnly
  | CoUnknown => Unknown
  end.

Inductive GradeEvidence :=
| VerificationReceipt (digest : string)
| TestRun (run_ref : string)
| BoundedAnalysis (bound digest : string)
| PriorUpgrade (record : N).

Record GradeUpgradeRecord := mkUpgrade {
  artifact : string;
  r_from : GradeName;
  r_to : GradeName;
  evidence : GradeEvidence;
  actor : string;
  ordinal : N;
}.

Record GradeRevocation := mkRevocation {
  n_ordinal : N;
  n_record : N;
  n_reason : string;
  n_actor : string;
  restored_to : GradeName;
}.

Record GradeLedgerEntry := mkEntry {
  e_ordinal : N;
  e_artifact : string;
  upgrade_record : GradeUpgradeRecord;
  e_revoked : bool;
  e_revocations : list GradeRevocation;
}.

Inductive GradeError :=
| UnknownArtifact (a : string)
| AlreadyDeclared (a : string)
| EvidenceRequired
| UpgradeNotAllowed (from to : GradeName)
| NoSuchRecord (r : N)
| AlreadyRevoked (r : N).

Record GradeLedger := mkLedger {
  baseline : gmap string GradeName;
  records : gmap N GradeUpgradeRecord;
  revoked : gset N;
  revocations : gmap N GradeRevocation;
  next_ordinal : N;
}.

(** * Evidence *)

Definition is_empty (s : string) : bool := bool_decide (s = "").

Definition has_empty_reference (ev : GradeEvidence) : bool :=
  match ev with
  | VerificationReceipt d => is_empty d
  | TestRun r => is_empty r
  | BoundedAnalysis b d => is_empty b || is_empty d
  | PriorUpgrade _ => false
  end.

Definition require_non_empty (ev : GradeEvidence) : result GradeError () :=
  reject? has_empty_reference ev with EvidenceRequired in Ok ().

Definition verification_receipt (d : string) : result GradeError GradeEvidence :=
  let ev := VerificationReceipt d in let? _ := require_non_empty ev in Ok ev.

Definition test_run (r : string) : result GradeError GradeEvidence :=
  let ev := TestRun r in let? _ := require_non_empty ev in Ok ev.

Definition bounded_analysis (b d : string) : result GradeError GradeEvidence :=
  let ev := BoundedAnalysis b d in let? _ := require_non_empty ev in Ok ev.

Definition evidence_id (ev : GradeEvidence) : string :=
  match ev with
  | VerificationReceipt d => "receipt:" +:+ d
  | TestRun r => "test_run:" +:+ r
  | BoundedAnalysis _ d => "analysis:" +:+ d
  | PriorUpgrade r => "record:" +:+ pretty r
  end.

Definition referenced_record (ev : GradeEvidence) : option N :=
  match ev with PriorUpgrade r => Some r | _ => None end.

(** * Ledger operations

    The source's [&mut self] methods return the ledger they leave. *)

Definition ledger_new : GradeLedger := mkLedger ∅ ∅ ∅ ∅ 0.

Definition declare_grade (l : GradeLedger) (a : string) (g : GradeName)
  : result (abort GradeError) GradeLedger :=
  reject? bool_decide (is_Some (baseline l !! a)) with Failed (AlreadyDeclared a) in
  Ok (mkLedger (<[a := g]> (baseline l)) (records l) (revoked l) (revocations l) (next_ordinal l)).

Definition effective_grade (l : GradeLedger) (a : string) : option GradeName :=
  base ← baseline l !! a;
  Some (foldl (fun g r =>
          if bool_decide (artifact r = a) && negb (bool_decide (ordinal r ∈ revoked l))
          then r_to r else g)
        base (values (records l))).

(** [self.next_ordinal += 1]: overflow panics. *)
Definition bump_ordinal (l : GradeLedger) : result (abort GradeError) N :=
  ok_or (checked_add_u64 (next_ordinal l) 1) Panicked.

Definition upgrade (l : GradeLedger) (a : string) (to : GradeName) (ev : GradeEvidence)
    (who : string) : result (abort GradeError) (N * GradeLedger) :=
  let? from := ok_or (effective_grade l a) (Failed (UnknownArtifact a)) in
  reject? has_empty_reference ev with Failed EvidenceRequired in
  let? _ :=
    match referenced_record ev with
    | None => Ok ()
    | Some r =>
        reject? negb (bool_decide (is_Some (records l !! r))) with Failed (NoSuchRecord r) in
        reject? bool_decide (r ∈ revoked l) with Failed (AlreadyRevoked r) in
        Ok ()
    end in
  reject? negb (may_upgrade_to from to) with Failed (UpgradeNotAllowed from to) in
  let ord := next_ordinal l in
  let? next := bump_ordinal l in
  Ok (ord, mkLedger (baseline l) (<[ord := mkUpgrade a from to ev who ord]> (records l))
             (revoked l) (revocations l) next).

(** ** Revocation *)

(** Whether [candidate], recorded at [ord], is pushed by [current]. *)
Definition dependent (current : N) (cr : GradeUpgradeRecord) (ord : N) (candidate : GradeUpgradeRecord)
  : bool :=
  let explicit := bool_decide (referenced_record (evidence candidate) = Some current) in
  let implicit := bool_decide (artifact candidate = artifact cr)
                  && bool_decide (r_from candidate = r_to cr) in
  (explicit || implicit) && (current <? ord)%N.

(** The records the inner loop pushes, in iteration order. *)
Definition dependents (l : GradeLedger) (cascade : gset N) (current : N) (cr : GradeUpgradeRecord)
  : list N :=
  filter (fun ord =>
      negb (bool_decide (ord ∈ cascade)) &&
      match records l !! ord with
      | Some candidate => dependent current cr ord candidate
      | None => false
      end = true)
    (keys (records l)).

(** The [while let Some(current) = stack.pop()] loop, the top of the stack
    first.  Indexing a missing record panics; running out of rounds would be
    a divergence of the source's loop and is reported as [Panicked]. *)
Fixpoint cascade_loop (l : GradeLedger) (fuel : nat) (cascade : gset N) (stack : list N)
  : result (abort GradeError) (gset N) :=
  match stack, fuel with
  | [], _ => Ok cascade
  | _, O => Err Panicked
  | current :: rest, S fuel' =>
      if bool_decide (current ∈ cascade) then cascade_loop l fuel' cascade rest
      else
        let cascade' := {[current]} ∪ cascade in
        let? cr := ok_or (records l !! current) Panicked in
        cascade_loop l fuel' cascade' (rev (dependents l cascade' current cr) ++ rest)
  end.

(** A record enters the cascade once and pushes at most every record, so one
    round per push suffices. *)
Definition cascade_fuel (l : GradeLedger) : nat := 1 + size (records l) * size (records l).

(** The loop that attaches a note to every newly revoked record. *)
Fixpoint add_notes (l : GradeLedger) (ords : list N) (reason who : string)
  : result (abort GradeError) GradeLedger :=
  match ords with
  | [] => Ok l
  | ord :: rest =>
      let? r := ok_or (records l !! ord) Panicked in
      let restored := default (r_from r) (effective_grade l (artifact r)) in
      let note := mkRevocation (next_ordinal l) ord reason who restored in
      let? next := bump_ordinal l in
      add_notes (mkLedger (baseline l) (records l) (revoked l)
                   (<[n_ordinal note := note]> (revocations l)) next) rest reason who
  end.

Definition revoke_upgrade (l : GradeLedger) (record : N) (reason who : string)
  : result (abort GradeError) (N * GradeLedger) :=
  reject? negb (bool_decide (is_Some (records l !! record))) with Failed (NoSuchRecord record) in
  let? cascade := cascade_loop l (cascade_fuel l) ∅ [record] in
  let to_revoke := filter (fun o => o ∉ revoked l) (members cascade) in
  match to_revoke with
  | [] => Err (Failed (AlreadyRevoked record))
  | _ =>
      let l1 := mkLedger (baseline l) (records l)
                  (foldl (fun s o => {[o]} ∪ s) (revoked l) to_revoke)
                  (revocations l) (next_ordinal l) in
      let? l2 := add_notes l1 to_revoke reason who in
      Ok (N.of_nat (length to_revoke), l2)
  end.

(** The loop over the targets: a refused revocation is skipped. *)
Fixpoint revoke_targets (l : GradeLedger) (targets : list N) (reason who : string) (total : N)
  : result (abort GradeError) (N * GradeLedger) :=
  match targets with
  | [] => Ok (total, l)
  | t :: rest =>
      match revoke_upgrade l t reason who with
      | Ok (count, l') => revoke_targets l' rest reason who (total + count)
      | Err (Failed _) => revoke_targets l rest reason who total
      | Err Panicked => Err Panicked
      end
  end.

Definition revoke_evidence (l : GradeLedger) (id reason who : string)
  : result (abort GradeError) (N * GradeLedger) :=
  let targets := filter (fun o =>
      negb (bool_decide (o ∈ revoked l)) &&
      match records l !! o with
      | Some r => bool_decide (evidence_id (evidence r) = id)
      | None => false
      end = true)
    (keys (records l)) in
  revoke_targets l targets reason who 0.

Definition is_revoked (l : GradeLedger) (record : N) : bool := bool_decide (record ∈ revoked l).

Definition entry_le (x y : GradeLedgerEntry) : Prop := (e_ordinal x <= e_ordinal y)%N.
#[global] Instance entry_le_dec x y : Decision (entry_le x y) :=
  decide (e_ordinal x <= e_ordinal y)%N.

Definition history (l : GradeLedger) (a : string) : list GradeLedgerEntry :=
  merge_sort entry_le
    ((fun r => mkEntry (ordinal r) a r (bool_decide (ordinal r ∈ revoked l))
        (filter (fun n => n_record n = ordinal r) (values (revocations l)))) <$>
     filter (fun r => artifact r = a) (values (records l))).

(** * The hub vocabulary *)

Inductive HubGradeName := Proved | BoundedComplete | Observed | HubUnknown.
Inductive ClaimKind := Positive | Absence.

Definition hub_equivalent (g : GradeName) (k : ClaimKind) : option HubGradeName :=
  match g, k with
  | Complete, _ => Some Proved
  | SoundOverapproximation, Positive => Some BoundedComplete
  | SoundOverapproximation, Absence => None
  | ObservedOnly, _ => Some Observed
  | Unknown, _ => Some HubUnknown
  end.

Definition grade_from_hub (g : HubGradeName) (k : ClaimKind) : option GradeName :=
  match g, k with
  | Proved, _ => Some Complete
  | BoundedComplete, Positive => Some SoundOverapproximation
  | BoundedComplete, Absence => None
  | Observed, _ => Some ObservedOnly
  | HubUnknown, _ => Some Unknown
  end.

(** * Climbing the lattice *)

Lemma may_upgrade_trans a b c :
  may_upgrade_to a b = true -> may_upgrade_to b c = true -> may_upgrade_to a c = true.
Proof. by destruct a, b, c. Qed.

(** [climbs g rs]: the upgrades [rs] lead up the lattice from [g]. *)
Fixpoint climbs (g : GradeName) (rs : list GradeUpgradeRecord) : Prop :=
  match rs with
  | [] => True
  | r :: rest => r_from r = g /\ may_upgrade_to g (r_to r) = true /\ climbs (r_to r) rest
  end.

(** The grade at the end of the climb. *)
Definition summit (g : GradeName) (rs : list GradeUpgradeRecord) : GradeName :=
  foldl (fun _ r => r_to r) g rs.

Lemma summit_app g rs rs' : summit g (rs ++ rs') = summit (summit g rs) rs'.
Proof. apply foldl_app. Qed.

Lemma climbs_app g rs rs' : climbs g (rs ++ rs') <-> climbs g rs /\ climbs (summit g rs) rs'.
Proof.
  revert g. induction rs as [|r rs IH]; intros g; simpl; [tauto|]. rewrite IH.
  unfold summit. simpl. tauto.
Qed.

Lemma climbs_above g rs r : climbs g rs -> r ∈ rs -> may_upgrade_to g (r_to r) = true.
Proof.
  revert g. induction rs as [|x rs IH]; intros g Hc Hr; [set_solver|].
  destruct Hc as (_ & Hx & Hc). apply elem_of_cons in Hr as [->|Hr]; [done|].
  eapply may_upgrade_trans; [done|]. by apply IH.
Qed.

(** Removing upgrades together with all that build on them keeps a prefix. *)
Lemma climbs_cut (P : GradeUpgradeRecord -> Prop) `{!forall r, Decision (P r)} g rs :
  climbs g rs ->
  (forall pre a b post, rs = pre ++ a :: b :: post -> P a -> P b) ->
  exists kept gone, rs = kept ++ gone /\ filter (fun r => ~ P r) rs = kept /\ Forall P gone.
Proof.
  intros Hc. revert g Hc. induction rs as [|r rs IH]; intros g Hc Hcl; [by exists [], []|].
  destruct Hc as (_ & _ & Hc).
  assert (forall pre a b post, rs = pre ++ a :: b :: post -> P a -> P b) as Hcl'.
  { intros pre a b post ->. by apply (Hcl (r :: pre) a b post). }
  destruct (IH _ Hc Hcl') as (kept & gone & He & Hf & Hg). rewrite filter_cons.
  destruct (decide (~ P r)) as [Hr|Hr].
  - exists (r :: kept), gone. by rewrite Hf, He.
  - assert (P r) as Hpr by (destruct (decide (P r)); tauto).
    assert (Forall P rs) as Hall.
    { clear -Hcl Hpr. revert r Hpr Hcl. induction rs as [|x rs IH]; intros r Hpr Hcl; constructor.
      - by apply (Hcl [] r x rs).
      - apply (IH x); [by apply (Hcl [] r x rs)|]. intros pre a b post He.
        apply (Hcl (r :: pre) a b post). by rewrite He. }
    exists [], (r :: rs). split_and!; [done | | by constructor].
    clear -Hall. induction Hall as [|x rs Hx _ IH]; [done|]. rewrite filter_cons.
    by destruct (decide (~ P x)).
Qed.

(** * The active upgrades of an artifact *)

Definition is_active (l : GradeLedger) (a : string) (r : GradeUpgradeRecord) : Prop :=
  artifact r = a /\ ordinal r ∉ revoked l.
#[global] Instance is_active_dec l a r : Decision (is_active l a r).
Proof. unfold is_active. apply _. Defined.

Definition active (l : GradeLedger) (a : string) : list GradeUpgradeRecord :=
  filter (is_active l a) (values (records l)).

Lemma effective_summit l a :
  effective_grade l a = (fun g => summit g (active l a)) <$> baseline l !! a.
Proof.
  unfold effective_grade, active, summit. destruct (baseline l !! a) as [g|]; [|done]. simpl. f_equal.
  revert g. induction (values (records l)) as [|r rs IH]; intros g; [done|]. simpl.
  rewrite filter_cons. unfold is_active. rewrite <- bool_decide_not, <- bool_decide_and.
  case_bool_decide; case_decide; try tauto; apply IH.
Qed.

(** * The invariant *)

(** Direct dependence between records: a later record cites the earlier one
    or continues its artifact from the grade it reached. *)
Definition depends (l : GradeLedger) (a b : N) : Prop :=
  exists ra rb, records l !! a = Some ra /\ records l !! b = Some rb /\ dependent a ra b rb = true.

Record ledger_wf (l : GradeLedger) : Prop := {
  lw_key : forall k r, records l !! k = Some r -> ordinal r = k /\ (k < next_ordinal l)%N;
  lw_revoked : forall k, k ∈ revoked l -> is_Some (records l !! k);
  lw_declared : forall k r, records l !! k = Some r -> is_Some (baseline l !! artifact r);
  lw_climbs : forall a g, baseline l !! a = Some g -> climbs g (active l a);
  lw_cited : forall k r c, records l !! k = Some r -> k ∉ revoked l ->
    evidence r = PriorUpgrade c -> is_Some (records l !! c) /\ (c ∉ revoked l) /\ (c < k)%N;
  lw_evidence : forall k r, records l !! k = Some r -> has_empty_reference (evidence r) = false;
  lw_note_key : forall k n, revocations l !! k = Some n -> n_ordinal n = k /\ (k < next_ordinal l)%N;
  lw_next : (next_ordinal l <= U64_MAX)%N;
  lw_noted : forall o, o ∈ revoked l <-> exists k n, revocations l !! k = Some n /\ n_record n = o;
}.

Lemma StronglySorted_filter {A : Type} (R : A -> A -> Prop) (P : A -> Prop) `{!forall x, Decision (P x)} l :
  StronglySorted R l -> StronglySorted R (filter P l).
Proof.
  induction 1 as [|x l Hl IH Hx]; [constructor|]. rewrite filter_cons. case_decide; [|done].
  constructor; [done|]. apply list.Forall_forall. intros y [_ Hy]%list_elem_of_filter.
  by eapply list.Forall_forall in Hx.
Qed.

Lemma StronglySorted_adjacent {A : Type} (R : A -> A -> Prop) l pre x y post :
  StronglySorted R l -> l = pre ++ x :: y :: post -> R x y.
Proof.
  intros Hs ->. induction pre as [|z pre IH]; simpl in Hs.
  - apply StronglySorted_inv in Hs as [_ Hx]. by inv Hx.
  - apply StronglySorted_inv in Hs as [Hs _]. by apply IH.
Qed.

Lemma active_sorted l a : ledger_wf l ->
  StronglySorted (fun r r' => (ordinal r < ordinal r')%N) (active l a).
Proof.
  intros Hwf. apply StronglySorted_filter. unfold values.
  pose proof (members_sorted (dom (records l))) as Hs. pose proof (NoDup_keys (records l)) as Hnd.
  unfold keys in *. induction Hs as [|k ks Hks IH Hk]; [constructor|].
  apply list.NoDup_cons in Hnd as [Hn Hnd]. specialize (IH Hnd). simpl.
  destruct (records l !! k) as [r|] eqn:Hr; [|done]. constructor; [done|].
  apply list.Forall_forall. intros r' (k' & Hk' & Hr')%list_elem_of_omap.
  apply (lw_key _ Hwf) in Hr as [<- _]. apply (lw_key _ Hwf) in Hr' as [<- _].
  eapply list.Forall_forall in Hk; [|done]. assert (ordinal r <> ordinal r') by (by intros He; rewrite He in Hn).
  lia.
Qed.

Lemma elem_of_active l a r : ledger_wf l ->
  r ∈ active l a <-> records l !! ordinal r = Some r /\ artifact r = a /\ ordinal r ∉ revoked l.
Proof.
  intros Hwf. unfold active, is_active. rewrite list_elem_of_filter, elem_of_values. split.
  - intros [[Ha Hn] [k Hk]]. pose proof (lw_key _ Hwf _ _ Hk) as [<- _]. done.
  - intros (Hr & Ha & Hn). split; [done | by eexists].
Qed.

(** * The cascade *)

Section Cascade.
Context (l : GradeLedger) (record : N).

Record cascading (cascade : gset N) (stack : list N) : Prop := {
  ca_reach : forall x, x ∈ cascade \/ x ∈ stack -> rtc (depends l) record x;
  ca_closed : forall x y, x ∈ cascade -> depends l x y -> y ∈ cascade \/ y ∈ stack;
  ca_start : record ∈ cascade \/ record ∈ stack;
  ca_dom : forall x, x ∈ cascade \/ x ∈ stack -> is_Some (records l !! x);
}.

Lemma elem_of_dependents cascade current cr y : records l !! current = Some cr ->
  y ∈ dependents l cascade current cr <-> (y ∉ cascade) /\ depends l current y.
Proof.
  intros Hc. unfold dependents, depends. rewrite list_elem_of_filter, elem_of_keys, andb_true_iff.
  rewrite negb_true_iff, bool_decide_eq_false. split.
  - intros [[Hn Hd] [ry Hy]]. rewrite Hy in Hd. split; [done|]. by exists cr, ry.
  - intros [Hn (ra & rb & Ha & Hb & Hd)]. rewrite Hb. simplify_eq. split; [done | by eexists].
Qed.

Lemma cascading_pop cascade x stack : cascading cascade (x :: stack) -> x ∈ cascade ->
  cascading cascade stack.
Proof.
  intros [Hr Hc Hs Hd] Hx. split.
  - intros y Hy. apply Hr. rewrite elem_of_cons. tauto.
  - intros a b Ha Hab. destruct (Hc a b Ha Hab) as [|[->|]%elem_of_cons]; tauto.
  - destruct Hs as [|[->|]%elem_of_cons]; tauto.
  - intros y Hy. apply Hd. rewrite elem_of_cons. tauto.
Qed.

Lemma cascading_push cascade x cr stack : cascading cascade (x :: stack) ->
  records l !! x = Some cr ->
  cascading ({[x]} ∪ cascade) (rev (dependents l ({[x]} ∪ cascade) x cr) ++ stack).
Proof.
  intros [Hr Hc Hs Hd] Hx.
  assert (forall y, y ∈ rev (dependents l ({[x]} ∪ cascade) x cr) ++ stack <->
            (y ∉ {[x]} ∪ cascade) /\ depends l x y \/ y ∈ stack) as Hst.
  { intros y. by rewrite elem_of_app, <- elem_of_dependents, list_elem_of_In, <- in_rev, <- list_elem_of_In. }
  assert (rtc (depends l) record x) as Hrx by (apply Hr; right; by left).
  setoid_rewrite elem_of_cons in Hr. setoid_rewrite elem_of_cons in Hc.
  rewrite elem_of_cons in Hs. setoid_rewrite elem_of_cons in Hd. split.
  - intros y. rewrite Hst, elem_of_union, elem_of_singleton.
    intros [[->|?]|[[_ Hxy]|?]]; [done | apply Hr; tauto | by eapply rtc_r | apply Hr; tauto].
  - intros a b. rewrite Hst, !elem_of_union, !elem_of_singleton. intros [->|Ha] Hab.
    + destruct (decide (b = x)), (decide (b ∈ cascade)); tauto.
    + destruct (Hc a b Ha Hab) as [|[->|]]; tauto.
  - rewrite Hst, elem_of_union, elem_of_singleton. destruct Hs as [|[->|]]; tauto.
  - intros y. rewrite Hst, elem_of_union, elem_of_singleton.
    intros [[->|?]|[[_ (? & ? & _ & ? & _)]|?]]; [by eexists | apply Hd; tauto | by eexists | apply Hd; tauto].
Qed.

Lemma length_dependents cascade x cr : length (dependents l cascade x cr) <= size (records l).
Proof.
  unfold dependents. rewrite <- size_dom, <- length_members. apply length_filter.
Qed.

Lemma cascading_room cascade stack x : cascading cascade (x :: stack) -> x ∉ cascade ->
  size ({[x]} ∪ cascade) = S (size cascade) /\ size cascade < size (records l).
Proof.
  intros Hca Hx. assert (size ({[x]} ∪ cascade) = S (size cascade)) as Hs.
  { rewrite size_union by (apply disjoint_singleton_l; done). by rewrite size_singleton. }
  split; [done|]. enough (size ({[x]} ∪ cascade) <= size (records l)) by lia.
  rewrite <- size_dom. apply subseteq_size. intros y Hy. apply elem_of_dom, (ca_dom _ _ Hca).
  apply elem_of_union in Hy as [->%elem_of_singleton|?]; [right; by left | by left].
Qed.

Lemma cascading_done cascade : cascading cascade [] ->
  (forall x, x ∈ cascade <-> rtc (depends l) record x) /\
  (forall x, x ∈ cascade -> is_Some (records l !! x)).
Proof.
  intros [Hr Hc Hs Hd]. setoid_rewrite elem_of_nil in Hr. setoid_rewrite elem_of_nil in Hc.
  rewrite elem_of_nil in Hs. setoid_rewrite elem_of_nil in Hd.
  split; [|auto]. intros x. split; [auto|]. destruct Hs as [Hs|[]]. intros Hrx. clear Hr.
  induction Hrx as [|u y z Huy _ IH]; [done|]. apply IH. by destruct (Hc u y Hs Huy).
Qed.

Lemma cascade_loop_spec fuel cascade stack :
  cascading cascade stack ->
  length stack + (size (records l) - size cascade) * size (records l) <= fuel ->
  exists c, cascade_loop l fuel cascade stack = Ok c /\
    (forall x, x ∈ c <-> rtc (depends l) record x) /\ (forall x, x ∈ c -> is_Some (records l !! x)).
Proof.
  revert cascade stack. induction fuel as [|fuel IH]; intros cascade stack Hca Hf.
  all: destruct stack as [|x stack]; simpl in *.
  1, 3: exists cascade; split; [done | by apply cascading_done].
  { by apply Nat.nle_succ_0 in Hf. }
  case_bool_decide as Hx; [apply IH; [by eapply cascading_pop | lia]|].
  destruct (ca_dom _ _ Hca x) as [cr Hcr]; [right; by left|]. rewrite Hcr. simpl.
  apply IH; [by apply cascading_push|]. destruct (cascading_room _ _ _ Hca Hx) as [-> Hlt].
  rewrite length_app, length_rev. pose proof (length_dependents ({[x]} ∪ cascade) x cr). nia.
Qed.
End Cascade.

(** * Revocation *)

Lemma effective_ext l l' a : baseline l' = baseline l -> records l' = records l ->
  revoked l' = revoked l -> effective_grade l' a = effective_grade l a.
Proof. intros E1 E2 E3. unfold effective_grade. by rewrite E1, E2, E3. Qed.

(** The note the revocation of [o] leaves, at ledger ordinal [k]. *)
Definition note_of (l : GradeLedger) (reason who : string) (k o : N) (n : GradeRevocation) : Prop :=
  exists r, records l !! o = Some r /\
    n = mkRevocation k o reason who (default (r_from r) (effective_grade l (artifact r))).

Lemma note_of_ext l l' reason who k o n : baseline l' = baseline l -> records l' = records l ->
  revoked l' = revoked l -> note_of l' reason who k o n <-> note_of l reason who k o n.
Proof.
  intros E1 E2 E3. unfold note_of. rewrite E2. by setoid_rewrite (effective_ext l l' _ E1 E2 E3).
Qed.

(** [l'] is [l] with a note for each of [ords], at consecutive ordinals. *)
Record noted (l : GradeLedger) (ords : list N) (reason who : string) (l' : GradeLedger) : Prop := {
  no_baseline : baseline l' = baseline l;
  no_records : records l' = records l;
  no_revoked : revoked l' = revoked l;
  no_next : next_ordinal l' = (next_ordinal l + N.of_nat (length ords))%N;
  no_old : forall k, (k < next_ordinal l)%N -> revocations l' !! k = revocations l !! k;
  no_above : forall k, (next_ordinal l' <= k)%N -> revocations l' !! k = revocations l !! k;
  no_new : forall i o, ords !! i = Some o ->
    exists n, revocations l' !! (next_ordinal l + N.of_nat i)%N = Some n /\
      note_of l reason who (next_ordinal l + N.of_nat i) o n;
}.

Lemma bump_ordinal_cases l :
  bump_ordinal l = if (next_ordinal l + 1 <=? U64_MAX)%N then Ok (next_ordinal l + 1)%N else Err Panicked.
Proof. unfold bump_ordinal, checked_add_u64. by destruct (_ <=? _)%N. Qed.

Lemma add_notes_spec l ords reason who :
  (next_ordinal l <= U64_MAX)%N -> (forall o, o ∈ ords -> is_Some (records l !! o)) ->
  if (next_ordinal l + N.of_nat (length ords) <=? U64_MAX)%N
  then exists l', add_notes l ords reason who = Ok l' /\ noted l ords reason who l'
  else add_notes l ords reason who = Err Panicked.
Proof.
  revert l. induction ords as [|o ords IH]; intros l Hle Hd.
  { rewrite (proj2 (N.leb_le _ _)) by (simpl; lia). exists l. split; [done|].
    split; simpl; try done. lia. }
  cbn [add_notes length]. destruct (Hd o) as [r Hr]; [by left|].
  rewrite Hr. cbn [mbind result_bind ok_or]. rewrite bump_ordinal_cases.
  destruct (next_ordinal l + 1 <=? U64_MAX)%N eqn:Hb; breflect; cbn [mbind result_bind].
  2: { rewrite (proj2 (N.leb_gt _ _)) by lia. done. }
  set (n := mkRevocation _ _ _ _ _).
  set (l1 := mkLedger _ _ _ _ _). specialize (IH l1). simpl in IH.
  replace (next_ordinal l + N.of_nat (S (length ords)))%N
    with (next_ordinal l + 1 + N.of_nat (length ords))%N by lia.
  specialize (IH Hb (fun x Hx => Hd x (list_elem_of_further _ _ _ Hx))).
  destruct (_ <=? U64_MAX)%N; [|done].
  destruct IH as (l' & Hrun & [E1 E2 E3 E4 Ho Ha Hn]).
  exists l'. split; [done|]. simpl in *. split; try done; cbn [length].
  - lia.
  - intros k Hk. rewrite Ho by lia. by rewrite lookup_insert_ne by (simpl; lia).
  - intros k Hk. rewrite Ha by lia. by rewrite lookup_insert_ne by (simpl; lia).
  - intros [|i] x Hx; simpl in Hx.
    + simplify_eq. exists n. rewrite N.add_0_r. split; [|by exists r].
      rewrite Ho by lia. by rewrite lookup_insert_eq.
    + destruct (Hn i x Hx) as (m & Hm & Hnm). exists m.
      replace (next_ordinal l + N.of_nat (S i))%N with (next_ordinal l + 1 + N.of_nat i)%N by lia.
      split; [done|]. by apply (note_of_ext l l1).
Qed.

(** The records a revocation newly revokes, ascending. *)
Definition falls (l : GradeLedger) (record : N) (news : list N) : Prop :=
  NoDup news /\ forall x, x ∈ news <-> rtc (depends l) record x /\ x ∉ revoked l.

Definition with_revoked (l : GradeLedger) (rv : gset N) : GradeLedger :=
  mkLedger (baseline l) (records l) rv (revocations l) (next_ordinal l).

Lemma revoke_run l record reason who : ledger_wf l -> is_Some (records l !! record) ->
  exists news, falls l record news /\ (forall o, o ∈ news -> is_Some (records l !! o)) /\
    match news with
    | [] => revoke_upgrade l record reason who = Err (Failed (AlreadyRevoked record))
    | _ =>
        if (next_ordinal l + N.of_nat (length news) <=? U64_MAX)%N
        then exists l', revoke_upgrade l record reason who = Ok (N.of_nat (length news), l') /\
               noted (with_revoked l (list_to_set news ∪ revoked l)) news reason who l'
        else revoke_upgrade l record reason who = Err Panicked
    end.
Proof.
  intros Hwf Hr. unfold revoke_upgrade. rewrite bool_decide_true by done. cbn [negb].
  destruct (cascade_loop_spec l record (cascade_fuel l) ∅ [record]) as (c & Hrun & Hc & Hd).
  { split.
    - intros x [?| ->%list_elem_of_singleton]; [set_solver | done].
    - set_solver.
    - right. by left.
    - intros x [?| ->%list_elem_of_singleton]; [set_solver | done]. }
  { rewrite size_empty. simpl. unfold cascade_fuel. lia. }
  rewrite Hrun. cbn [mbind result_bind]. set (news := filter (fun o => o ∉ revoked l) (members c)).
  assert (forall x, x ∈ news <-> rtc (depends l) record x /\ x ∉ revoked l) as Hn.
  { intros x. unfold news. rewrite list_elem_of_filter, elem_of_members, Hc. tauto. }
  assert (forall o, o ∈ news -> is_Some (records l !! o)) as Hnd.
  { intros o Ho. unfold news in Ho. rewrite list_elem_of_filter, elem_of_members in Ho.
    apply Hd. tauto. }
  exists news. split; [|split; [done|]].
  { split; [|done]. apply NoDup_filter. auto with zs. }
  assert (foldl (fun s o => {[o]} ∪ s) (revoked l) news = list_to_set news ∪ revoked l) as ->.
  { generalize (revoked l). clear. induction news as [|o news IH]; intros s; simpl; [set_solver|].
    rewrite IH. set_solver. }
  pose proof (add_notes_spec (with_revoked l (list_to_set news ∪ revoked l)) news reason who
    (lw_next _ Hwf) Hnd) as Hadd. simpl in Hadd. clearbody news. destruct news as [|o news]; [done|].
  destruct (_ <=? U64_MAX)%N.
  - destruct Hadd as (l' & Hadd & Hno). unfold with_revoked in Hadd. rewrite Hadd. by exists l'.
  - unfold with_revoked in Hadd. by rewrite Hadd.
Qed.

Lemma revoke_Ok l record reason who n l' : ledger_wf l ->
  revoke_upgrade l record reason who = Ok (n, l') ->
  exists news, falls l record news /\ (forall o, o ∈ news -> is_Some (records l !! o)) /\
    news <> [] /\ n = N.of_nat (length news) /\ (next_ordinal l + n <= U64_MAX)%N /\
    noted (with_revoked l (list_to_set news ∪ revoked l)) news reason who l'.
Proof.
  intros Hwf Hrun. destruct (decide (is_Some (records l !! record))) as [Hr|Hr].
  2: { unfold revoke_upgrade in Hrun. by rewrite bool_decide_false in Hrun. }
  destruct (revoke_run l record reason who Hwf Hr) as (news & Hf & Hd & Hm). exists news.
  destruct news as [|o news]; [by rewrite Hrun in Hm|].
  destruct (_ <=? U64_MAX)%N eqn:Hle; [|by rewrite Hrun in Hm]. breflect.
  destruct Hm as (l'' & Hrun' & Hno). rewrite Hrun in Hrun'. injection Hrun' as -> ->.
  split_and!; done.
Qed.

Lemma climbs_adjacent g rs pre a b post : climbs g rs -> rs = pre ++ a :: b :: post -> r_from b = r_to a.
Proof.
  intros Hc ->. apply climbs_app in Hc as [_ Hc]. simpl in Hc. by destruct Hc as (_ & _ & ? & _).
Qed.

Section Revoked.
Context (l : GradeLedger) (Hwf : ledger_wf l) (record : N) (news : list N).
Context (Hfalls : falls l record news) (rv : gset N) (Hrv : rv = list_to_set news ∪ revoked l).

Lemma elem_of_rv x : x ∈ rv <-> x ∈ news \/ x ∈ revoked l.
Proof. rewrite Hrv. by rewrite elem_of_union, elem_of_list_to_set. Qed.

Lemma falls_closed x y : x ∈ news -> depends l x y -> y ∈ rv.
Proof.
  intros Hx Hxy. apply Hfalls in Hx as [Hx _]. apply elem_of_rv.
  destruct (decide (y ∈ revoked l)); [by right|]. left. apply Hfalls. split; [by eapply rtc_r | done].
Qed.

(** The active upgrades of an artifact keep a prefix. *)
Lemma active_split a g : baseline l !! a = Some g ->
  exists gone, active l a = active (with_revoked l rv) a ++ gone /\
    Forall (fun r => ordinal r ∈ rv) gone.
Proof.
  intros Hg. pose proof (lw_climbs _ Hwf a g Hg) as Hc.
  destruct (climbs_cut (fun r => ordinal r ∈ rv) g (active l a) Hc) as (kept & gone & He & Hk & Hgo).
  - intros pre x y post Hxy Hx.
    pose proof (StronglySorted_adjacent _ _ _ _ _ _ (active_sorted l a Hwf) Hxy) as Hlt.
    pose proof (climbs_adjacent _ _ _ _ _ _ Hc Hxy) as Hft.
    assert (x ∈ active l a) as Hxa%elem_of_active by (rewrite Hxy; set_solver); [|done].
    assert (y ∈ active l a) as Hya%elem_of_active by (rewrite Hxy; set_solver); [|done].
    destruct Hxa as (Hxr & Hxa & Hxn), Hya as (Hyr & Hya & Hyn).
    apply elem_of_rv in Hx as [Hx|Hx]; [|done]. apply (falls_closed (ordinal x)); [done|].
    exists x, y. split_and!; [done | done |]. unfold dependent.
    rewrite (bool_decide_true (artifact y = artifact x)) by congruence.
    rewrite (bool_decide_true (r_from y = r_to x)) by done. rewrite (proj2 (N.ltb_lt _ _)) by done.
    by rewrite orb_true_r.
  - exists gone. split; [|done]. rewrite He. f_equal. rewrite <- Hk. unfold active, with_revoked. simpl.
    rewrite list_filter_filter. apply list_filter_iff. intros r. unfold is_active. simpl.
    rewrite elem_of_rv. tauto.
Qed.

Lemma revoked_climbs a g : baseline l !! a = Some g -> climbs g (active (with_revoked l rv) a).
Proof.
  intros Hg. destruct (active_split a g Hg) as (gone & He & _).
  pose proof (lw_climbs _ Hwf a g Hg) as Hc. rewrite He in Hc. by apply climbs_app in Hc as [].
Qed.

(** A newly revoked upgrade lies strictly above where its artifact rests. *)
Lemma revoked_rests o r : o ∈ news -> records l !! o = Some r ->
  exists g, effective_grade (with_revoked l rv) (artifact r) = Some g /\
    may_upgrade_to g (r_to r) = true.
Proof.
  intros Ho Hr. destruct (lw_declared _ Hwf o r Hr) as [g Hg].
  destruct (active_split _ _ Hg) as (gone & He & Hgo).
  pose proof (lw_climbs _ Hwf _ g Hg) as Hc. rewrite He in Hc. apply climbs_app in Hc as [_ Hc].
  eexists. rewrite effective_summit. simpl. rewrite Hg. split; [done|].
  eapply climbs_above; [done|]. pose proof (lw_key _ Hwf _ _ Hr) as [Hor _].
  assert (r ∈ active l (artifact r)) as Hra.
  { apply elem_of_active; [done|]. rewrite Hor. split_and!; [done | done|]. by apply Hfalls. }
  rewrite He in Hra. apply elem_of_app in Hra as [Hra|Hra]; [|done]. exfalso.
  unfold active in Hra. apply list_elem_of_filter in Hra as [[_ Hn] _]. simpl in Hn.
  apply Hn. rewrite Hor. apply elem_of_rv. by left.
Qed.
End Revoked.

Lemma active_ext l l' a : records l' = records l -> revoked l' = revoked l -> active l' a = active l a.
Proof.
  intros E1 E2. unfold active. rewrite E1. apply list_filter_iff. intros r. unfold is_active.
  by rewrite E2.
Qed.

Lemma revoke_noted l record reason who l' news : ledger_wf l -> falls l record news ->
  noted (with_revoked l (list_to_set news ∪ revoked l)) news reason who l' ->
  forall o, o ∈ revoked l' <-> exists k m, revocations l' !! k = Some m /\ n_record m = o.
Proof.
  intros Hwf Hf [E1 E2 E3 E4 Ho Ha Hn] o. simpl in *.
  rewrite E3, elem_of_union, elem_of_list_to_set. split.
  - intros [Hin|Hin].
    + apply list_elem_of_lookup in Hin as [i Hi]. destruct (Hn i o Hi) as (m & Hm & r & _ & ->).
      by eexists _, _.
    + apply (lw_noted _ Hwf) in Hin as (k & m & Hm & Hmo). exists k, m. split; [|done].
      rewrite Ho; [done|]. by apply (lw_note_key _ Hwf k m).
  - intros (k & m & Hm & <-).
    destruct (decide (k < next_ordinal l)%N) as [Hk|Hk].
    { right. apply (lw_noted _ Hwf). rewrite Ho in Hm by done. by exists k, m. }
    destruct (decide (next_ordinal l' <= k)%N) as [Hk'|Hk'].
    { rewrite Ha in Hm by done. apply (lw_note_key _ Hwf) in Hm as [_ ?]. lia. }
    destruct (lookup_lt_is_Some_2 news (N.to_nat (k - next_ordinal l))) as [x Hx]; [lia|].
    destruct (Hn _ _ Hx) as (m' & Hm' & r & _ & ->).
    replace (next_ordinal l + N.of_nat (N.to_nat (k - next_ordinal l)))%N with k in Hm' by lia.
    rewrite Hm in Hm'. simplify_eq. left. simpl. by eapply list_elem_of_lookup_2.
Qed.

Lemma revoke_wf l record reason who n l' : ledger_wf l ->
  revoke_upgrade l record reason who = Ok (n, l') -> ledger_wf l'.
Proof.
  intros Hwf Hrun. destruct (revoke_Ok _ _ _ _ _ _ Hwf Hrun) as (news & Hf & Hd & _ & -> & Hle & Hno).
  pose proof (revoke_noted _ _ _ _ _ _ Hwf Hf Hno) as Hnoted.
  destruct Hno as [E1 E2 E3 E4 Ho Ha Hn]. simpl in *. split.
  - intros k r Hr. rewrite E2 in Hr. apply (lw_key _ Hwf) in Hr as [? ?]. split; [done | lia].
  - intros k Hk. rewrite E3, elem_of_union, elem_of_list_to_set in Hk. rewrite E2.
    destruct Hk; [by apply Hd | by apply (lw_revoked _ Hwf)].
  - intros k r Hr. rewrite E1. rewrite E2 in Hr. by eapply (lw_declared _ Hwf).
  - intros a g Hg. rewrite E1 in Hg.
    rewrite (active_ext (with_revoked l (list_to_set news ∪ revoked l)) l') by done.
    by eapply revoked_climbs.
  - intros k r c Hr Hk Hev. rewrite E2 in *. rewrite E3, elem_of_union, elem_of_list_to_set in Hk.
    destruct (lw_cited _ Hwf k r c Hr) as (Hc & Hcn & Hlt); [tauto | done |].
    split_and!; [done | | done]. rewrite E3, elem_of_union, elem_of_list_to_set.
    intros [Hcin|]; [|done]. apply Hk.
    destruct Hc as [rc Hrc]. apply (elem_of_rv _ _ (list_to_set news ∪ revoked l) eq_refl).
    eapply falls_closed; [done | done | done |]. exists rc, r. split_and!; [done..|].
    unfold dependent. rewrite Hev. simpl. rewrite bool_decide_true by done. by apply N.ltb_lt.
  - intros k r Hr. rewrite E2 in Hr. by eapply (lw_evidence _ Hwf).
  - intros k m Hm. destruct (decide (k < next_ordinal l)%N) as [Hk|Hk].
    { rewrite Ho in Hm by done. apply (lw_note_key _ Hwf) in Hm as [? ?]. split; [done | lia]. }
    destruct (decide (next_ordinal l' <= k)%N) as [Hk'|Hk'].
    { rewrite Ha in Hm by done. apply (lw_note_key _ Hwf) in Hm as [_ ?]. lia. }
    destruct (lookup_lt_is_Some_2 news (N.to_nat (k - next_ordinal l))) as [x Hx]; [lia|].
    destruct (Hn _ _ Hx) as (m' & Hm' & r & _ & ->).
    replace (next_ordinal l + N.of_nat (N.to_nat (k - next_ordinal l)))%N with k in Hm' by lia.
    rewrite Hm in Hm'. simplify_eq. simpl. split; [lia | lia].
  - lia.
  - done.
Qed.

(** * Declaration and upgrade *)

Lemma declare_wf l a g l' : ledger_wf l -> declare_grade l a g = Ok l' -> ledger_wf l'.
Proof.
  intros Hwf Hrun. unfold declare_grade in Hrun. case_bool_decide as Ha; [done|]. simplify_eq.
  assert (baseline l !! a = None) as Hna by (by apply eq_None_not_Some).
  destruct Hwf as [H1 H2 H3 H4 H5 He H6 H7 H8]. split; simpl; try done.
  - intros k r Hr. apply H3 in Hr. destruct (decide (artifact r = a)) as [<-|];
      [by rewrite lookup_insert_eq; eexists|]. by rewrite lookup_insert_ne.
  - intros b h Hb. rewrite (active_ext l) by done. destruct (decide (b = a)) as [->|].
    + destruct (active l a) as [|r rs] eqn:Hact; [done|]. exfalso.
      assert (r ∈ active l a) as Hr by (rewrite Hact; by left).
      unfold active in Hr. apply list_elem_of_filter in Hr as [[Hra _] [k Hk]%elem_of_values].
      apply H3 in Hk. rewrite Hra, Hna in Hk. by destruct Hk.
    + rewrite lookup_insert_ne in Hb by done. by apply H4.
Qed.

(** What a successful upgrade did. *)
Lemma upgrade_Ok l a to ev who ord l' : upgrade l a to ev who = Ok (ord, l') ->
  exists from, effective_grade l a = Some from /\ has_empty_reference ev = false /\
    (forall c, ev = PriorUpgrade c -> is_Some (records l !! c) /\ c ∉ revoked l) /\
    may_upgrade_to from to = true /\ ord = next_ordinal l /\ (next_ordinal l + 1 <= U64_MAX)%N /\
    l' = mkLedger (baseline l) (<[ord := mkUpgrade a from to ev who ord]> (records l))
           (revoked l) (revocations l) (next_ordinal l + 1).
Proof.
  unfold upgrade. rewrite bump_ordinal_cases. intros Hrun.
  destruct (effective_grade l a) as [from|]; [|done]. simpl in Hrun. exists from.
  destruct (has_empty_reference ev); [done|].
  assert (forall c, ev = PriorUpgrade c -> is_Some (records l !! c) /\ c ∉ revoked l) as Hc.
  { intros c ->. simpl in Hrun. case_bool_decide; [|done]. simpl in Hrun. by case_bool_decide. }
  apply bind_Ok_inv in Hrun as (u & _ & Hrun).
  destruct (may_upgrade_to from to); [|done]. simpl in Hrun.
  destruct (_ <=? U64_MAX)%N eqn:Hle; [|done]. breflect. simpl in Hrun. simplify_eq. split_and!; done.
Qed.

Lemma upgrade_active l a to ev who ord l' from b : ledger_wf l ->
  l' = mkLedger (baseline l) (<[ord := mkUpgrade a from to ev who ord]> (records l))
         (revoked l) (revocations l) (next_ordinal l + 1) ->
  ord = next_ordinal l ->
  active l' b = active l b ++ (if bool_decide (b = a) then [mkUpgrade a from to ev who ord] else []).
Proof.
  intros Hwf -> ->. unfold active. simpl. rewrite values_insert_last.
  2: { intros y [r Hr]. by apply (lw_key _ Hwf) in Hr as [_ ?]. }
  rewrite filter_app. f_equal.
  rewrite filter_cons, filter_nil. unfold is_active. simpl.
  assert (next_ordinal l ∉ revoked l) as Hn.
  { intros Hin. apply (lw_revoked _ Hwf) in Hin as [r Hr]. apply (lw_key _ Hwf) in Hr as [_ ?]. lia. }
  case_bool_decide as Hb; case_decide as Hd; try done; naive_solver.
Qed.

Lemma upgrade_wf l a to ev who ord l' : ledger_wf l -> upgrade l a to ev who = Ok (ord, l') -> ledger_wf l'.
Proof.
  intros Hwf Hrun. destruct (upgrade_Ok _ _ _ _ _ _ _ Hrun) as (from & Hg & Hev & Hc & Hup & Ho & Hle & Hl').
  pose proof (fun b => upgrade_active l a to ev who ord l' from b Hwf Hl' Ho) as Hact.
  rewrite effective_summit in Hg. destruct (baseline l !! a) as [base|] eqn:Hbase; [|done].
  simpl in Hg. injection Hg as Hg. pose proof Hwf as [H1 H2 H3 H4 H5 Hee H6 H7 H8]. subst ord.
  split.
  - subst l'. simpl. intros k r [[<- <-]|[_ Hr]]%lookup_insert_Some; simpl; [split; [done|lia]|].
    apply H1 in Hr as [? ?]. split; [done | lia].
  - subst l'. simpl. intros k Hk. apply lookup_insert_is_Some'. right. by apply H2.
  - subst l'. simpl. intros k r [[<- <-]|[_ Hr]]%lookup_insert_Some; simpl; [by eexists | by eapply H3].
  - intros b h Hb. rewrite Hact. subst l'. simpl in Hb. case_bool_decide as Hba.
    + subst b. apply climbs_app. split; [by apply H4|]. simplify_eq. simpl. by split_and!.
    + rewrite app_nil_r. by apply H4.
  - subst l'. simpl. intros k r c [[<- <-]|[Hne Hr]]%lookup_insert_Some Hk Hcit; simpl in *.
    + destruct (Hc c Hcit) as [Hs Hn]. split_and!; [apply lookup_insert_is_Some'; by right | done |].
      destruct Hs as [rc Hrc]. by apply H1 in Hrc as [_ ?].
    + destruct (H5 k r c Hr Hk Hcit) as (? & ? & ?).
      split_and!; [apply lookup_insert_is_Some'; by right | done | done].
  - subst l'. simpl. intros k r [[<- <-]|[_ Hr]]%lookup_insert_Some; [done | by eapply Hee].
  - subst l'. simpl. intros k m Hm. apply H6 in Hm as [? ?]. split; [done | lia].
  - subst l'. simpl. lia.
  - subst l'. simpl. done.
Qed.

Lemma new_wf : ledger_wf ledger_new.
Proof.
  split; simpl; try (intros; set_solver). unfold U64_MAX. lia.
Qed.

(** * Histories *)

(** [ledger_steps l l']: successful ledger operations lead from [l] to [l']. *)
Inductive ledger_steps (l : GradeLedger) : GradeLedger -> Prop :=
| steps_refl : ledger_steps l l
| steps_declare l1 l2 a g :
    ledger_steps l l1 -> declare_grade l1 a g = Ok l2 -> ledger_steps l l2
| steps_upgrade l1 l2 a to ev who ord :
    ledger_steps l l1 -> upgrade l1 a to ev who = Ok (ord, l2) -> ledger_steps l l2
| steps_revoke l1 l2 record reason who n :
    ledger_steps l l1 -> revoke_upgrade l1 record reason who = Ok (n, l2) -> ledger_steps l l2
| steps_revoke_evidence l1 l2 id reason who n :
    ledger_steps l l1 -> revoke_evidence l1 id reason who = Ok (n, l2) -> ledger_steps l l2.

(** What later operations never take back. *)
Record extends (l l' : GradeLedger) : Prop := {
  ex_baseline : baseline l ⊆ baseline l';
  ex_records : records l ⊆ records l';
  ex_revoked : revoked l ⊆ revoked l';
  ex_notes : revocations l ⊆ revocations l';
}.

#[global] Instance extends_refl : Reflexive extends.
Proof. intros l. by split. Qed.
#[global] Instance extends_trans : Transitive extends.
Proof. intros l1 l2 l3 [] []. by split; etrans. Qed.

Lemma declare_extends l a g l' : declare_grade l a g = Ok l' -> extends l l'.
Proof.
  unfold declare_grade. case_bool_decide as Ha; [done|]. intros [= <-]. split; simpl; try done.
  apply insert_subseteq. by apply eq_None_not_Some.
Qed.

Lemma upgrade_extends l a to ev who ord l' : ledger_wf l -> upgrade l a to ev who = Ok (ord, l') ->
  extends l l'.
Proof.
  intros Hwf Hrun. destruct (upgrade_Ok _ _ _ _ _ _ _ Hrun) as (from & _ & _ & _ & _ & -> & _ & ->).
  split; simpl; try done. apply insert_subseteq.
  destruct (records l !! next_ordinal l) as [r|] eqn:Hr; [|done]. apply (lw_key _ Hwf) in Hr as [_ ?]. lia.
Qed.

Lemma revoke_extends l record reason who n l' : ledger_wf l ->
  revoke_upgrade l record reason who = Ok (n, l') -> extends l l'.
Proof.
  intros Hwf Hrun. destruct (revoke_Ok _ _ _ _ _ _ Hwf Hrun) as (news & _ & _ & _ & _ & _ & Hno).
  destruct Hno as [E1 E2 E3 _ Ho _ _]. simpl in *. split; [by rewrite E1 | by rewrite E2 | |].
  - rewrite E3. apply union_subseteq_r.
  - apply map_subseteq_spec. intros k m Hm. rewrite Ho; [done|]. by apply (lw_note_key _ Hwf k m).
Qed.

Lemma revoke_targets_wf l targets reason who total n l' : ledger_wf l ->
  revoke_targets l targets reason who total = Ok (n, l') ->
  ledger_wf l' /\ extends l l' /\ (forall t, t ∈ targets -> is_Some (records l !! t) -> t ∈ revoked l').
Proof.
  revert l total. induction targets as [|t targets IH]; intros l total Hwf Hrun; simpl in Hrun.
  { simplify_eq. split_and!; [done | done | set_solver]. }
  destruct (revoke_upgrade l t reason who) as [[c l1]|[|e]] eqn:Hr; [|done|].
  - pose proof (revoke_wf _ _ _ _ _ _ Hwf Hr) as Hwf1. pose proof (revoke_extends _ _ _ _ _ _ Hwf Hr) as He1.
    destruct (IH _ _ Hwf1 Hrun) as (Hwf' & He' & Ht). split_and!; [done | by etrans |].
    intros x [->|Hx]%elem_of_cons Hsx.
    + apply (ex_revoked _ _ He').
      destruct (revoke_Ok _ _ _ _ _ _ Hwf Hr) as (news & [_ Hf] & _ & _ & _ & _ & Hno).
      rewrite (no_revoked _ _ _ _ _ Hno). simpl. rewrite elem_of_union, elem_of_list_to_set, Hf.
      destruct (decide (t ∈ revoked l)); [by right | by left].
    + apply Ht; [done|]. destruct Hsx as [r Hsx]. exists r.
      by eapply lookup_weaken, (ex_records _ _ He1).
  - destruct (IH _ _ Hwf Hrun) as (Hwf' & He' & Ht). split_and!; [done | done |].
    intros x [->|Hx]%elem_of_cons Hsx; [|by apply Ht]. apply (ex_revoked _ _ He').
    destruct (revoke_run l t reason who Hwf Hsx) as (news & [_ Hf] & _ & Hm).
    destruct news as [|o news].
    + destruct (decide (t ∈ revoked l)); [done|]. assert (t ∈ @nil N) by (by apply Hf). set_solver.
    + destruct (_ <=? U64_MAX)%N; [destruct Hm as (? & Hm & _)|]; by rewrite Hr in Hm.
Qed.

Lemma steps_wf l l' : ledger_wf l -> ledger_steps l l' -> ledger_wf l' /\ extends l l'.
Proof.
  intros Hwf Hs. induction Hs as [| l1 l2 a g _ [IH E] H | l1 l2 a to ev who ord _ [IH E] H
    | l1 l2 record reason who n _ [IH E] H | l1 l2 id reason who n _ [IH E] H]; [done|..].
  - split; [by eapply declare_wf | etrans; [done | by eapply declare_extends]].
  - split; [by eapply upgrade_wf | etrans; [done | by eapply upgrade_extends]].
  - split; [by eapply revoke_wf | etrans; [done | by eapply revoke_extends]].
  - destruct (revoke_targets_wf _ _ _ _ _ _ _ IH H) as (? & ? & _). split; [done | by etrans].
Qed.

(** * What the ledger promises *)

(** C36: Every grade is earned.  In any ledger reached by successful
    operations the effective grade of an artifact is the end of a climb of
    valid lattice steps from its baseline, one per upgrade that is not
    revoked; each of those carries a non-empty evidence reference, and a
    cited prior upgrade exists and is itself not revoked.  An unknown
    baseline never rises. *)
Theorem grades_are_earned (l : GradeLedger) (a : string) (g : GradeName) :
  ledger_steps ledger_new l -> effective_grade l a = Some g ->
  exists base, baseline l !! a = Some base /\
    climbs base (active l a) /\ summit base (active l a) = g /\
    (forall r, r ∈ active l a ->
       has_empty_reference (evidence r) = false /\
       forall c, evidence r = PriorUpgrade c -> is_Some (records l !! c) /\ is_revoked l c = false) /\
    (base = Unknown -> g = Unknown).
Proof.
  intros Hs Hg. destruct (steps_wf _ _ new_wf Hs) as [Hwf _]. rewrite effective_summit in Hg.
  destruct (baseline l !! a) as [base|] eqn:Hb; [|done]. simpl in Hg. injection Hg as Hg.
  pose proof (lw_climbs _ Hwf a base Hb) as Hc. exists base. split_and!; [done | done | done | |].
  - intros r (Hr & _ & Hn)%elem_of_active; [|done]. split; [by eapply (lw_evidence _ Hwf)|].
    intros c Hev. destruct (lw_cited _ Hwf _ _ c Hr Hn Hev) as (? & ? & _). split; [done|].
    by apply bool_decide_eq_false.
  - intros ->. destruct (active l a) as [|r rs]; [done|]. by destruct Hc as (_ & ? & _).
Qed.

(** Revocation, with the dependence the code tests: a later record depends on
    one whose grade it started from, even if another upgrade earned it since
    ([stale_revocation_cascades]).  It is exact and fail-closed.  A revocation that succeeds
    revokes precisely the record and the records that depend on it through
    any number of steps, returns how many are new, deletes nothing, and
    leaves the artifact of every newly revoked upgrade at a grade strictly
    below that upgrade, which the one note written for it records.  It is
    refused only for a missing record or when all of these are revoked
    already, and panics only when the ordinals are exhausted. *)
Theorem revocation_fail_closed (l : GradeLedger) (record : N) (reason who : string) :
  ledger_wf l ->
  match revoke_upgrade l record reason who with
  | Ok (n, l') =>
      ledger_wf l' /\ extends l l' /\ records l' = records l /\
      (forall x, x ∈ revoked l' <-> x ∈ revoked l \/ rtc (depends l) record x) /\
      (0 < n)%N /\ n = N.of_nat (size (revoked l' ∖ revoked l)) /\
      (forall o r, o ∈ revoked l' ∖ revoked l -> records l !! o = Some r ->
         exists g, effective_grade l' (artifact r) = Some g /\ may_upgrade_to g (r_to r) = true /\
           exists k note, revocations l' !! k = Some note /\ n_record note = o /\ restored_to note = g)
  | Err (Failed (NoSuchRecord r)) => r = record /\ records l !! record = None
  | Err (Failed (AlreadyRevoked r)) =>
      r = record /\ forall x, rtc (depends l) record x -> x ∈ revoked l
  | Err Panicked => (U64_MAX < next_ordinal l + N.of_nat (size (records l)))%N
  | Err (Failed _) => False
  end.
Proof.
  intros Hwf. destruct (decide (is_Some (records l !! record))) as [Hr|Hr].
  2: { unfold revoke_upgrade. rewrite bool_decide_false by done. simpl.
       split; [done | by apply eq_None_not_Some]. }
  destruct (revoke_run l record reason who Hwf Hr) as (news & Hf & Hd & Hm).
  destruct news as [|o0 news0]; [rewrite Hm; split; [done|]|].
  { intros x Hx. destruct (decide (x ∈ revoked l)); [done|]. exfalso.
    assert (x ∈ @nil N) by (by apply Hf). set_solver. }
  set (news := o0 :: news0) in *. destruct (_ <=? U64_MAX)%N eqn:Hle; breflect.
  2: { rewrite Hm. eapply N.lt_le_trans; [exact Hle|].
       enough (length news <= size (records l)) by lia.
       rewrite <- size_dom, <- (size_list_to_set (C := gset N)) by apply Hf.
       apply subseteq_size. intros x Hx%elem_of_list_to_set. by apply elem_of_dom, Hd. }
  destruct Hm as (l' & Hrun & Hno). rewrite Hrun.
  assert (revoked l' = list_to_set news ∪ revoked l) as Hrv by apply Hno.
  assert (news <> []) as Hne by done. clearbody news.
  assert (revoked l' ∖ revoked l = list_to_set news) as Hdiff.
  { rewrite Hrv. apply set_eq. intros x. rewrite elem_of_difference, elem_of_union, elem_of_list_to_set.
    pose proof (proj2 Hf x). tauto. }
  split_and!.
  - by eapply revoke_wf.
  - by eapply revoke_extends.
  - apply (no_records _ _ _ _ _ Hno).
  - intros x. rewrite Hrv, elem_of_union, elem_of_list_to_set. rewrite (proj2 Hf x).
    destruct (decide (x ∈ revoked l)); tauto.
  - destruct news; [done | simpl; lia].
  - rewrite Hdiff, size_list_to_set by apply Hf. done.
  - rewrite Hdiff. intros o r Ho%elem_of_list_to_set Hor.
    destruct (revoked_rests l Hwf record news Hf _ eq_refl o r Ho Hor) as (g & Hg & Hup).
    exists g. rewrite (effective_ext (with_revoked l (list_to_set news ∪ revoked l)) l') by apply Hno.
    split_and!; [done | done |]. apply list_elem_of_lookup in Ho as [i Hi].
    destruct (no_new _ _ _ _ _ Hno i o Hi) as (m & Hm & r' & Hr' & ->). simpl in *.
    eexists _, _. split_and!; [exact Hm | done|]. simpl. rewrite Hor in Hr'. simplify_eq. by rewrite Hg.
Qed.

(** Invalidated evidence supports nothing.  After every record that rests
    on an evidence identifier is revoked, no upgrade in force carries that
    identifier, and what was in the ledger before is still recorded. *)
Theorem revoked_evidence_supports_nothing (l l' : GradeLedger) (id reason who : string) (n : N) :
  ledger_wf l -> revoke_evidence l id reason who = Ok (n, l') ->
  ledger_wf l' /\ extends l l' /\
  forall k r, records l !! k = Some r -> evidence_id (evidence r) = id -> is_revoked l' k = true.
Proof.
  intros Hwf Hrun. destruct (revoke_targets_wf _ _ _ _ _ _ _ Hwf Hrun) as (Hwf' & He & Ht).
  split_and!; [done | done |]. intros k r Hk Hid. apply bool_decide_eq_true.
  destruct (decide (k ∈ revoked l)) as [Hin|Hin]; [by apply (ex_revoked _ _ He)|].
  apply Ht; [|by eexists]. apply list_elem_of_filter. split; [|apply elem_of_keys; by eexists].
  rewrite Hk, bool_decide_false, bool_decide_true by done. done.
Qed.

(** The ledger is append-only.  Baselines, upgrade records, revocation
    flags and notes are never removed or altered by later operations, and
    the history of an artifact lists, in ordinal order, each of its records
    with its current status: revoked exactly when some note says so. *)
Theorem history_append_only (l1 l2 : GradeLedger) :
  ledger_steps ledger_new l1 -> ledger_steps l1 l2 ->
  extends l1 l2 /\
  forall a, Sorted entry_le (history l2 a) /\
    (forall e, e ∈ history l2 a ->
       records l2 !! e_ordinal e = Some (upgrade_record e) /\ artifact (upgrade_record e) = a /\
       e_revoked e = is_revoked l2 (e_ordinal e) /\ (e_revoked e = true <-> e_revocations e <> [])) /\
    (forall k r, records l1 !! k = Some r -> artifact r = a ->
       exists e, e ∈ history l2 a /\ e_ordinal e = k /\ upgrade_record e = r /\
         (is_revoked l1 k = true -> e_revoked e = true)).
Proof.
  intros Hs1 Hs2. destruct (steps_wf _ _ new_wf Hs1) as [Hwf1 _].
  destruct (steps_wf _ _ Hwf1 Hs2) as [Hwf2 He]. split; [done|]. intros a.
  unfold history. set (f := fun r => mkEntry _ _ _ _ _). split_and!.
  - apply Sorted_merge_sort. intros x y. unfold entry_le. lia.
  - intros e. rewrite merge_sort_Permutation, list_elem_of_fmap.
    intros (r & -> & [Ha [k Hk]%elem_of_values]%list_elem_of_filter). simpl.
    pose proof (lw_key _ Hwf2 _ _ Hk) as [<- _]. split_and!; [done | done | done |].
    rewrite bool_decide_eq_true, (lw_noted _ Hwf2). split.
    + intros (k & n & Hn & Hnr) Hnil. apply (filter_nil_not_elem_of _ _ n Hnil Hnr).
      apply elem_of_values. by exists k.
    + intros Hne. destruct (filter _ _) as [|n ns] eqn:Hfil; [done|].
      assert (n ∈ n :: ns) as Hn by (by left). rewrite <- Hfil in Hn.
      apply list_elem_of_filter in Hn as [Hnr [k Hk']%elem_of_values]. by exists k, n.
  - intros k r Hk Ha. assert (records l2 !! k = Some r) as Hk2 by (eapply lookup_weaken; [done|apply He]).
    pose proof (lw_key _ Hwf2 _ _ Hk2) as [Hor _]. exists (f r). split_and!; [| done | done |].
    + rewrite merge_sort_Permutation. apply list_elem_of_fmap_2, list_elem_of_filter.
      split; [done|]. apply elem_of_values. by exists k.
    + simpl. rewrite Hor. intros Hrv%bool_decide_eq_true. by apply bool_decide_eq_true, (ex_revoked _ _ He).
Qed.

(** What an upgrade does on every branch.  On success the artifact's
    effective grade becomes the requested one, no other artifact moves, the
    record starts at the previous effective grade and gets the next ordinal;
    each refusal names its cause and nothing else is refused. *)
Theorem upgrade_behaviour (l : GradeLedger) (a : string) (to : GradeName) (ev : GradeEvidence)
    (who : string) :
  ledger_wf l ->
  match upgrade l a to ev who with
  | Ok (ord, l') =>
      exists from, effective_grade l a = Some from /\ may_upgrade_to from to = true /\
        ord = next_ordinal l /\ records l' = <[ord := mkUpgrade a from to ev who ord]> (records l) /\
        records l !! ord = None /\
        (forall b, effective_grade l' b = if bool_decide (b = a) then Some to else effective_grade l b) /\
        ledger_wf l'
  | Err (Failed (UnknownArtifact b)) => b = a /\ baseline l !! a = None
  | Err (Failed EvidenceRequired) => has_empty_reference ev = true
  | Err (Failed (NoSuchRecord r)) => ev = PriorUpgrade r /\ records l !! r = None
  | Err (Failed (AlreadyRevoked r)) => ev = PriorUpgrade r /\ is_revoked l r = true
  | Err (Failed (UpgradeNotAllowed from to')) =>
      to' = to /\ effective_grade l a = Some from /\ may_upgrade_to from to = false
  | Err (Failed (AlreadyDeclared _)) => False
  | Err Panicked => next_ordinal l = U64_MAX
  end.
Proof.
  intros Hwf. destruct (upgrade l a to ev who) as [[ord l']|e] eqn:Hrun.
  - pose proof (upgrade_wf _ _ _ _ _ _ _ Hwf Hrun) as Hwf'.
    destruct (upgrade_Ok _ _ _ _ _ _ _ Hrun) as (from & Hg & _ & _ & Hup & Ho & _ & Hl').
    exists from. split_and!; [done | done | done | by rewrite Hl' | | | done].
    + subst ord. destruct (records l !! next_ordinal l) as [r|] eqn:Hr; [|done].
      apply (lw_key _ Hwf) in Hr as [_ ?]. lia.
    + intros b. rewrite !effective_summit in *. rewrite (upgrade_active l a to ev who ord l' from b) by done.
      assert (baseline l' = baseline l) as -> by (by rewrite Hl'). case_bool_decide as Hb.
      * subst b. destruct (baseline l !! a); [|done]. simpl. by rewrite summit_app.
      * by rewrite app_nil_r.
  - unfold upgrade in Hrun. rewrite bump_ordinal_cases in Hrun. pose proof (effective_summit l a) as Hes.
    destruct (effective_grade l a) as [from|] eqn:Hg; simpl in Hrun.
    2: { simplify_eq. by destruct (baseline l !! a). }
    clear Hes. destruct (has_empty_reference ev) eqn:Hev; [by simplify_eq|].
    destruct (match referenced_record ev with Some _ => _ | None => _ end) as [[]|e'] eqn:Hm; simpl in Hrun.
    + destruct (may_upgrade_to from to) eqn:Hup; simpl in Hrun; [|by simplify_eq].
      destruct (_ <=? U64_MAX)%N eqn:Hle; simpl in Hrun; [done|]. breflect. simplify_eq.
      pose proof (lw_next _ Hwf). lia.
    + simplify_eq. destruct ev as [| | |c]; try done. simpl in Hm. case_bool_decide as Hrec; simpl in Hm.
      * case_bool_decide as Hrv; simplify_eq. split; [done | by apply bool_decide_eq_true].
      * simplify_eq. split; [done | by apply eq_None_not_Some].
Qed.

(** The grade vocabularies agree: for each kind of claim a GraphZero grade
    and a hub grade are equivalent in one direction exactly when they are in
    the other; an overapproximation has no equivalent for a claim of absence;
    and of the coverage classes only the one that permits an absence
    certificate maps to a grade that is proved to the hub for absence. *)
Theorem hub_grades_round_trip (g : GradeName) (h : HubGradeName) (k : ClaimKind) (c : CoverageClass) :
  (hub_equivalent g k = Some h <-> grade_from_hub h k = Some g) /\
  hub_equivalent SoundOverapproximation Absence = None /\ grade_from_hub BoundedComplete Absence = None /\
  (permits_absence_certificate c = true <->
   hub_equivalent (grade_from_coverage c) Absence = Some Proved).
Proof. split_and!; [by destruct g, h, k | done | done | by destruct c]. Qed.

(** * A concrete ledger *)

(** The ledger a run of operations leaves, each a function of the ledger. *)
Definition ledger_of {A} (r : result (abort GradeError) (A * GradeLedger)) : GradeLedger :=
  match r with Ok (_, l) => l | Err _ => ledger_new end.

Definition declared (l : GradeLedger) (a : string) (g : GradeName) : GradeLedger :=
  match declare_grade l a g with Ok l' => l' | Err _ => ledger_new end.

Definition demo_declared : GradeLedger := declared (declared ledger_new "lib" ObservedOnly) "app" ObservedOnly.
Definition demo_receipt : GradeLedger :=
  ledger_of (upgrade demo_declared "lib" SoundOverapproximation (VerificationReceipt "d1") "ci").
Definition demo_tested : GradeLedger :=
  ledger_of (upgrade demo_receipt "lib" Complete (TestRun "run://ci/7") "ci").
Definition demo_ledger : GradeLedger :=
  ledger_of (upgrade demo_tested "app" SoundOverapproximation (PriorUpgrade 0) "ci").

Lemma ledger_ok {A} (r : result (abort GradeError) (A * GradeLedger)) :
  is_ok r = true -> exists n, r = Ok (n, ledger_of r).
Proof. destruct r as [[n l]|]; [by exists n | done]. Qed.

Lemma declared_ok l a g : is_ok (declare_grade l a g) = true -> declare_grade l a g = Ok (declared l a g).
Proof. unfold declared. by destruct (declare_grade l a g). Qed.

Lemma upgrade_step l a to ev who : ledger_steps ledger_new l -> is_ok (upgrade l a to ev who) = true ->
  ledger_steps ledger_new (ledger_of (upgrade l a to ev who)).
Proof. intros Hs [n Hn]%ledger_ok. by eapply steps_upgrade. Qed.

Lemma demo_steps : ledger_steps ledger_new demo_ledger.
Proof.
  apply upgrade_step; [|vm_compute; reflexivity].
  apply upgrade_step; [|vm_compute; reflexivity].
  apply upgrade_step; [|vm_compute; reflexivity].
  eapply steps_declare; [|apply declared_ok; vm_compute; reflexivity].
  eapply steps_declare; [|apply declared_ok; vm_compute; reflexivity]. apply steps_refl.
Qed.

Lemma demo_wf : ledger_wf demo_ledger.
Proof. apply (steps_wf _ _ new_wf demo_steps). Qed.

(** The receipt behind record 0 is withdrawn. *)
Definition demo_withdrawn : GradeLedger :=
  ledger_of (revoke_evidence demo_ledger "receipt:d1" "withdrawn" "ci").

Lemma demo_revoke :
  exists n, revoke_evidence demo_ledger "receipt:d1" "withdrawn" "ci" = Ok (n, demo_withdrawn).
Proof. apply ledger_ok. vm_compute. reflexivity. Qed.

Definition demo_fallen : GradeLedger := ledger_of (revoke_upgrade demo_ledger 0 "withdrawn" "ci").

Lemma demo_revoke_record :
  exists n, revoke_upgrade demo_ledger 0 "withdrawn" "ci" = Ok (n, demo_fallen).
Proof. apply ledger_ok. vm_compute. reflexivity. Qed.

Lemma grades_are_earned_witness :
  exists base, baseline demo_ledger !! "lib" = Some base /\
    summit base (active demo_ledger "lib") = Complete.
Proof.
  destruct (grades_are_earned demo_ledger "lib" Complete demo_steps) as (base & Hb & _ & Hs & _);
    [vm_compute; reflexivity | by exists base].
Defined.

Lemma revocation_fail_closed_witness : 0%N ∈ revoked demo_fallen.
Proof.
  pose proof (revocation_fail_closed demo_ledger 0 "withdrawn" "ci" demo_wf) as H.
  destruct demo_revoke_record as [n E]. rewrite E in H. destruct H as (_ & _ & _ & H & _).
  apply H. by right.
Defined.

Lemma revoked_evidence_witness : is_revoked demo_withdrawn 0 = true.
Proof.
  destruct demo_revoke as [n E].
  destruct (revoked_evidence_supports_nothing demo_ledger demo_withdrawn "receipt:d1" "withdrawn" "ci" n
    demo_wf E) as (_ & _ & H).
  apply (H 0%N (mkUpgrade "lib" ObservedOnly SoundOverapproximation (VerificationReceipt "d1") "ci" 0));
    vm_compute; reflexivity.
Defined.

Lemma history_append_only_witness : extends demo_ledger demo_withdrawn.
Proof.
  destruct demo_revoke as [n E].
  apply (history_append_only demo_ledger demo_withdrawn demo_steps).
  eapply steps_revoke_evidence; [apply steps_refl | exact E].
Defined.

Lemma upgrade_behaviour_witness :
  effective_grade demo_ledger "app" = Some SoundOverapproximation /\
  upgrade demo_ledger "app" ObservedOnly (TestRun "r") "ci" =
    Err (Failed (UpgradeNotAllowed SoundOverapproximation ObservedOnly)).
Proof.
  assert (upgrade demo_ledger "app" ObservedOnly (TestRun "r") "ci" =
    Err (Failed (UpgradeNotAllowed SoundOverapproximation ObservedOnly))) as E
    by (vm_compute; reflexivity).
  pose proof (upgrade_behaviour demo_ledger "app" ObservedOnly (TestRun "r") "ci" demo_wf) as H.
  rewrite E in H. split; [apply H | exact E].
Defined.

(** An upgrade is withdrawn, earned again with fresh evidence, and raised
    further: records 0, 2 and 3, note 1. *)
Definition stale_ledger : GradeLedger :=
  let l0 := declared ledger_new "lib" ObservedOnly in
  let l1 := ledger_of (upgrade l0 "lib" SoundOverapproximation (VerificationReceipt "d1") "ci") in
  let l2 := ledger_of (revoke_upgrade l1 0 "withdrawn" "ci") in
  let l3 := ledger_of (upgrade l2 "lib" SoundOverapproximation (VerificationReceipt "d2") "ci") in
  ledger_of (upgrade l3 "lib" Complete (TestRun "run://ci/8") "ci").

(** The cascade matches grades, not supporting records: revoking the revoked
    record 0 once more is not refused as [AlreadyRevoked] but revokes record
    3, whose grade was earned from record 2. *)
Lemma stale_revocation_cascades :
  is_revoked stale_ledger 0 = true /\ effective_grade stale_ledger "lib" = Some Complete /\
  let r := revoke_upgrade stale_ledger 0 "again" "ci" in
  is_ok r = true /\ is_revoked (ledger_of r) 3 = true /\ is_revoked (ledger_of r) 2 = false /\
  effective_grade (ledger_of r) "lib" = Some SoundOverapproximation.
Proof. vm_compute. split_and!; reflexivity. Qed.
