(* ===== verification/Reserve.v ===== *)
(** Intent reservations of graphzero-reserve ([schema.rs], [ledger.rs],
    [footprint.rs], [service.rs]): the append-only reservation ledger, merged
    contract footprints, conflict checks, acquisition, declaration, release
    and the active query.

    The write-ahead log of graphzero-store is the list of its reservation
    entries in order.  The service holds a mutex, a file lock and the writer
    lock across each operation, so an operation is one step and concurrent
    callers are interleaved sequences of steps; each carries its own clock
    and its own input/output failures.  The footprint of one intent text
    comes from the code snapshot and is the parameter [contract_footprint];
    percentages are exact rationals.  Error texts, the notification counter
    and the JSON certificate are not modelled. *)

From S2P Require Import Prelude.
From S2P Require Import Canonical.
From S2P Require Import DurableStore.
From S2P Require Import BTree.
From Stdlib Require Import QArith Qminmax.
From stdpp Require Import prelude sorting gmap strings list.
Open Scope N_scope.

(** * Schema *)

Definition SCHEMA_VERSION : N := 1.

Inductive ReservationStatus := Declared | Active | Released | Expired.

#[global] Instance ReservationStatus_eq_dec : EqDecision ReservationStatus.
Proof. solve_decision. Defined.

Record IntentOperation := mkOp {
  op_kind : string;
  target_symbol : option string;
  intent_text : option string;
}.

Record IntentReservation := mkReservation {
  schema_version : N;
  reservation_id : string;
  repo_id : string;
  agent_id : string;
  intent_ops : list IntentOperation;
  footprint_ref : string;
  evidence_refs : list string;
  ttl_seconds : N;
  status : ReservationStatus;
  created_at : N;
  expires_at : N;
  contract_nodes : list string;
}.

Record DeclareResponse := mkDeclareResponse {
  dr_reservation_id : string;
  dr_footprint_ref : string;
  dr_status : ReservationStatus;
  dr_ttl_seconds : N;
  dr_expires_at : N;
  dr_evidence_refs : list string;
}.

Record ConflictGraphEdge := mkConflict {
  from_reservation_id : string;
  to_agent_id : string;
  cf_node : string;
  evidence_ref : string;
}.

Record ReservationCheckResponse := mkCheck {
  verdict : string;
  overlap_nodes : list string;
  ck_evidence_refs : list string;
  conflict_edges : list ConflictGraphEdge;
  coverage : option Q;
  blocking_reservation_ids : list string;
}.

Record ReservationQueryResponse := mkQuery {
  active_count : N;
  reservations : list IntentReservation;
}.

Inductive ReserveError := Validation | NotFound (id : string) | Store.

(** * The ledger *)

Notation Wal := (list IntentReservation).

Record ReservationLedger := mkLedger {
  records : list IntentReservation;
  tip : gmap string IntentReservation;
}.

(** [tip.insert(rec.reservation_id, rec)]. *)
Definition put_tip (t : gmap string IntentReservation) (r : IntentReservation)
  : gmap string IntentReservation := <[reservation_id r := r]> t.

Definition open_ledger (wal : Wal) : ReservationLedger := mkLedger wal (foldl put_tip ∅ wal).

(** [BTreeMap::values] of a map with string keys. *)
Definition tip_values (t : gmap string IntentReservation) : list IntentReservation :=
  omap (fun k => t !! k) (merge_sort String.le (elements (dom t))).

Definition is_live (s : ReservationStatus) : bool :=
  match s with Active | Declared => true | Released | Expired => false end.

Definition with_status (r : IntentReservation) (s : ReservationStatus) : IntentReservation :=
  mkReservation (schema_version r) (reservation_id r) (repo_id r) (agent_id r) (intent_ops r)
    (footprint_ref r) (evidence_refs r) (ttl_seconds r) s (created_at r) (expires_at r)
    (contract_nodes r).

Definition expire (now : N) (r : IntentReservation) : IntentReservation :=
  if is_live (status r) && (expires_at r <=? now) then with_status r Expired else r.

Definition materialized (l : ReservationLedger) (now : N) : list IntentReservation :=
  expire now <$> tip_values (tip l).

Definition active (l : ReservationLedger) (repo : string) (now : N) : list IntentReservation :=
  filter (fun r => repo_id r = repo /\ status r = Active) (materialized l now).

Definition blocking_for_conflict (l : ReservationLedger) (repo : string) (now : N)
  : list IntentReservation :=
  filter (fun r => repo_id r = repo /\ is_live (status r) = true) (materialized l now).

(** * Footprints *)

Record FootprintSnapshot := mkFootprint {
  fp_ref : string;
  fp_target : string;
  fp_nodes : list string;
  fp_evidence : list string;
  tier_a_percent : Q;
}.

Definition intent_text_for_op (op : IntentOperation) : string :=
  match intent_text op with
  | Some t => t
  | None =>
      match target_symbol op with
      | Some s => "change signature of " +:+ s
      | None => "change " +:+ op_kind op
      end
  end.

(** The five accumulators of [footprint_from_intent_ops]. *)
Record Merge := mkMerge {
  m_nodes : gset string;
  m_evidence : gset string;
  m_tier : Q;
  m_ref : string;
  m_target : string;
}.

Definition clamp_percent (q : Q) : Q := Qmin (Qmax q 0) 100.

Definition merge_footprint_into (m : Merge) (fp : FootprintSnapshot) : Merge :=
  let first := bool_decide (m_ref m = "") in
  mkMerge (list_to_set (fp_nodes fp) ∪ m_nodes m) (list_to_set (fp_evidence fp) ∪ m_evidence m)
    (Qmin (m_tier m) (clamp_percent (tier_a_percent fp)))
    (if first then fp_ref fp else m_ref m) (if first then fp_target fp else m_target m).

Definition sorted_strings (s : gset string) : list string := merge_sort String.le (elements s).

Section Service.
Context `{Platform}.
(** Snapshot lookup of one intent text, and serde's JSON of the operations. *)
Context (contract_footprint : string -> result ReserveError FootprintSnapshot).
Context (ops_json : list IntentOperation -> bytes).
(** [HashSet] iteration order. *)
Context (set_iter : gset string -> list string).

Fixpoint merge_ops (m : Merge) (ops : list IntentOperation) : result ReserveError Merge :=
  match ops with
  | [] => Ok m
  | op :: rest =>
      let? fp := contract_footprint (intent_text_for_op op) in
      merge_ops (merge_footprint_into m fp) rest
  end.

Definition footprint_from_intent_ops (ops : list IntentOperation)
  : result ReserveError FootprintSnapshot :=
  let? m := merge_ops (mkMerge ∅ ∅ 100 "" "") ops in
  Ok (mkFootprint (if bool_decide (m_ref m = "") then "footprint/unknown" else m_ref m) (m_target m)
        (sorted_strings (m_nodes m)) (sorted_strings (m_evidence m)) (m_tier m)).

(** * Service helpers *)

Definition fast_hex (b : bytes) : string := bytes_string (to_hex_bytes b).

Definition intent_digest (agent : string) (ops : list IntentOperation) : Digest :=
  sha256 (ops_json ops ++ string_bytes agent).

Definition make_reservation_id (agent : string) (intent_hash : Digest) : string :=
  "res_" +:+ agent +:+ "_" +:+ fast_hex (take 8 intent_hash).

(** [str::trim] removes Unicode white space; these are its UTF-8 forms. *)
Fixpoint all_whitespace (b : bytes) : bool :=
  match b with
  | [] => true
  | x :: rest =>
      let n := N_of_ascii x in
      if (((9 <=? n) && (n <=? 13)) || (n =? 32))%N then all_whitespace rest
      else match rest with
      | y :: rest2 =>
          let n2 := N_of_ascii y in
          if ((n =? 194) && ((n2 =? 133) || (n2 =? 160)))%N then all_whitespace rest2
          else match rest2 with
          | z :: rest3 =>
              let n3 := N_of_ascii z in
              if (((n =? 225) && (n2 =? 154) && (n3 =? 128))
                  || ((n =? 226) && (n2 =? 128) && (((128 <=? n3) && (n3 <=? 138))
                                                    || (n3 =? 168) || (n3 =? 169) || (n3 =? 175)))
                  || ((n =? 226) && (n2 =? 129) && (n3 =? 159))
                  || ((n =? 227) && (n2 =? 128) && (n3 =? 128)))%N
              then all_whitespace rest3 else false
          | [] => false
          end
      | [] => false
      end
  end.

Record DeclareRequest := mkRequest {
  rq_agent_id : string;
  rq_intent_ops : list IntentOperation;
  rq_ttl_seconds : N;
}.

Definition validate_declare_request (req : DeclareRequest) : result (abort ReserveError) () :=
  reject? all_whitespace (string_bytes (rq_agent_id req)) with Failed Validation in
  reject? bool_decide (rq_intent_ops req = nil) with Failed Validation in
  Ok ().

Definition declare_response (rid : string) (fp : FootprintSnapshot) (ttl expires : N)
  : DeclareResponse :=
  mkDeclareResponse rid (fp_ref fp) Declared ttl expires (fp_evidence fp).

(** [now + ttl]: overflow panics. *)
Definition deadline (now ttl : N) : result (abort ReserveError) N :=
  ok_or (checked_add_u64 now ttl) Panicked.

Definition evidence_ref_for_overlap (a : IntentReservation) (fp : FootprintSnapshot) (n : string)
  : string :=
  match evidence_refs a, fp_evidence fp with
  | e :: _, _ => e
  | [], e :: _ => e
  | [], [] => n
  end.

(** [blocking.push] unless it is there. *)
Definition push_once (l : list string) (s : string) : list string :=
  if bool_decide (s ∈ l) then l else l ++ [s].

Record Conflicts := mkConflicts {
  overlap : list string;
  edges : list ConflictGraphEdge;
  blocking : list string;
}.

Definition conflict_node (a : IntentReservation) (fp : FootprintSnapshot) (c : Conflicts) (n : string)
  : Conflicts :=
  mkConflicts (overlap c ++ [n])
    (edges c ++ [mkConflict (reservation_id a) (agent_id a) n (evidence_ref_for_overlap a fp n)])
    (push_once (blocking c) (reservation_id a)).

Definition conflict_overlap (l : ReservationLedger) (repo : string) (now : N) (agent : string)
    (fp : FootprintSnapshot) : Conflicts :=
  let new_set : gset string := list_to_set (fp_nodes fp) in
  foldl (fun c a =>
      if bool_decide (agent_id a = agent) then c
      else foldl (conflict_node a fp) c (set_iter (new_set ∩ list_to_set (contract_nodes a))))
    (mkConflicts [] [] []) (blocking_for_conflict l repo now).

Definition should_return_unknown (fp : FootprintSnapshot) : bool :=
  negb (Qle_bool 100 (tier_a_percent fp)).

Definition unknown_check_response (fp : FootprintSnapshot) : ReservationCheckResponse :=
  mkCheck "unknown" [] (fp_evidence fp) [] (Some (tier_a_percent fp / 100)%Q) [].

Definition conflict_check_response (c : Conflicts) : ReservationCheckResponse :=
  mkCheck "conflict" (overlap c) (evidence_ref <$> edges c) (edges c) (Some 1%Q) (blocking c).

Definition clear_check_response (fp : FootprintSnapshot) : ReservationCheckResponse :=
  mkCheck "clear" [] (fp_evidence fp) [] (Some 1%Q) [].

(** * Operations *)

Inductive IoCall := OpenSnapshot | ReadRepoId | ThreadLock | FileLock | OpenLedger.

(** How the append and commit of a log entry ended: an [Unconfirmed] commit
    reports an error although the entry may be read back later. *)
Inductive AppendResult := Appended | NotAppended | Unconfirmed.

Record Io := mkIo { io_fails : IoCall -> bool; append_result : AppendResult }.

Context (io : Io) (now : N) (repo : string).

Notation ReserveM A := (M (abort ReserveError) Wal A).

(** A call that fails with a store error. *)
Definition io_call (c : IoCall) : ReserveM () :=
  reject! io_fails io c with Failed Store in sret ().

Definition store_err {A} (r : result ReserveError A) : result (abort ReserveError) A :=
  match r with Ok a => Ok a | Err _ => Err (Failed Store) end.

Definition load_footprint_for_ops (ops : list IntentOperation) : ReserveM FootprintSnapshot :=
  let! _ := io_call OpenSnapshot in lift (store_err (footprint_from_intent_ops ops)).

Definition open_for_write : ReserveM ReservationLedger :=
  let! _ := io_call ThreadLock in
  let! _ := io_call FileLock in
  let! _ := io_call OpenLedger in
  fun wal => (Ok (open_ledger wal), wal).

Definition append (l : ReservationLedger) (r : IntentReservation) : ReserveM ReservationLedger := fun wal =>
  match append_result io with
  | Appended => (Ok (mkLedger (records l ++ [r]) (put_tip (tip l) r)), wal ++ [r])
  | NotAppended => (Err (Failed Store), wal)
  | Unconfirmed => (Err (Failed Store), wal ++ [r])
  end.

Definition try_refresh_existing_declare (l : ReservationLedger) (rid : string) (ttl : N)
    (fp : FootprintSnapshot) : ReserveM (option DeclareResponse) :=
  match list_find (fun r => reservation_id r = rid) (records l) with
  | None => sret None
  | Some (_, existing) =>
      if negb (is_live (status existing)) then sret None
      else
        let! expires := lift (deadline now ttl) in
        let refreshed := mkReservation (schema_version existing) (reservation_id existing)
          (repo_id existing) (agent_id existing) (intent_ops existing) (footprint_ref existing)
          (evidence_refs existing) ttl (status existing) (created_at existing) expires
          (contract_nodes existing) in
        let! _ := append l refreshed in
        sret (Some (declare_response rid fp ttl expires))
  end.

Definition new_reservation (rid agent : string) (ops : list IntentOperation) (fp : FootprintSnapshot)
    (s : ReservationStatus) (ttl expires : N) : IntentReservation :=
  mkReservation SCHEMA_VERSION rid repo agent ops (fp_ref fp) (fp_evidence fp) ttl s now expires
    (fp_nodes fp).

Definition declare (req : DeclareRequest) : ReserveM DeclareResponse :=
  let! _ := lift (validate_declare_request req) in
  let! fp := load_footprint_for_ops (rq_intent_ops req) in
  let ttl := N.max (rq_ttl_seconds req) 60 in
  let rid := make_reservation_id (rq_agent_id req)
               (intent_digest (rq_agent_id req) (rq_intent_ops req)) in
  let! l := open_for_write in
  let! _ := io_call ReadRepoId in
  let! refreshed := try_refresh_existing_declare l rid ttl fp in
  match refreshed with
  | Some resp => sret resp
  | None =>
      let! expires := lift (deadline now ttl) in
      let! _ := append l (new_reservation rid (rq_agent_id req) (rq_intent_ops req) fp Declared ttl expires) in
      sret (declare_response rid fp ttl expires)
  end.

Definition acquire_internal_locked (l : ReservationLedger) (agent : string)
    (ops : list IntentOperation) (fp : FootprintSnapshot) (ttl : N) : ReserveM () :=
  reject! negb (bool_decide (overlap (conflict_overlap l repo now agent fp) = nil))
    with Failed Validation in
  let rid := make_reservation_id agent (intent_digest agent ops) in
  let! expires := lift (deadline now ttl) in
  let! _ := append l (new_reservation rid agent ops fp Active ttl expires) in
  sret ().

Definition check_with_ttl (agent : string) (ops : list IntentOperation) (acquire : bool)
    (ttl : option N) : ReserveM ReservationCheckResponse :=
  let! fp := load_footprint_for_ops ops in
  let! _ := io_call ReadRepoId in
  let! l := open_for_write in
  let c := conflict_overlap l repo now agent fp in
  if negb (bool_decide (overlap c = nil)) then sret (conflict_check_response c)
  else if should_return_unknown fp then sret (unknown_check_response fp)
  else
    let! _ := if acquire
              then acquire_internal_locked l agent ops fp (N.max (default 3600 ttl) 60)
              else sret () in
    sret (clear_check_response fp).

Definition check (agent : string) (ops : list IntentOperation) (acquire : bool)
  : ReserveM ReservationCheckResponse := check_with_ttl agent ops acquire None.

Definition release (agent rid : string) : ReserveM () :=
  let! l := open_for_write in
  match list_find (fun r => reservation_id r = rid /\ agent_id r = agent) (materialized l now) with
  | None => throw (Failed (NotFound rid))
  | Some (_, r) => let! _ := append l (with_status r Released) in sret ()
  end.

Definition query_active (wal : Wal) : result (abort ReserveError) ReservationQueryResponse :=
  reject? io_fails io ReadRepoId with Failed Store in
  reject? io_fails io OpenLedger with Failed Store in
  let act := active (open_ledger wal) repo now in
  Ok (mkQuery (N.of_nat (length act)) act).
End Service.

(** * Reading the ledger *)

Lemma open_snoc wal r : tip (open_ledger (wal ++ [r])) = put_tip (tip (open_ledger wal)) r.
Proof. unfold open_ledger. simpl. by rewrite foldl_app. Qed.

(** The tip of an identifier is its last record. *)
Lemma tip_last wal id r : tip (open_ledger wal) !! id = Some r <->
  exists pre post, wal = pre ++ r :: post /\ reservation_id r = id /\
    Forall (fun r' => reservation_id r' <> id) post.
Proof.
  induction wal as [|r' wal IH] using rev_ind.
  - simpl. rewrite lookup_empty. split; [done|]. intros (pre & post & Hw & _). by destruct pre.
  - rewrite open_snoc. unfold put_tip. destruct (decide (reservation_id r' = id)) as [Hid|Hid].
    + rewrite Hid, lookup_insert_eq. split.
      * intros [= ->]. exists wal, []. by split_and!.
      * intros (pre & post & Hw & Hr & Hp). f_equal.
        destruct post as [|x post _] using rev_ind; [by apply app_inj_tail in Hw as [_ ?]|].
        rewrite app_comm_cons, (assoc_L (++)) in Hw. apply app_inj_tail in Hw as [_ ->].
        apply Forall_app in Hp as [_ Hp]. by inv Hp.
    + rewrite lookup_insert_ne by done. rewrite IH. split.
      * intros (pre & post & -> & Hr & Hp). exists pre, (post ++ [r']).
        rewrite <- (assoc_L (++)). split_and!; [done | done |]. apply Forall_app. by repeat constructor.
      * intros (pre & post & Hw & Hr & Hp).
        destruct post as [|x post _] using rev_ind.
        { apply app_inj_tail in Hw as [_ ->]. done. }
        rewrite app_comm_cons, (assoc_L (++)) in Hw. apply app_inj_tail in Hw as [-> ->].
        apply Forall_app in Hp as [Hp _]. by exists pre, post.
Qed.

Lemma tip_id wal id r : tip (open_ledger wal) !! id = Some r -> reservation_id r = id.
Proof. intros (? & ? & _ & ? & _)%tip_last. done. Qed.

Lemma elem_of_tip_values t r : r ∈ tip_values t <-> exists id, t !! id = Some r.
Proof.
  unfold tip_values. rewrite list_elem_of_omap. split.
  - intros (k & _ & Hk). by exists k.
  - intros (k & Hk). exists k. split; [|done]. rewrite merge_sort_Permutation, elem_of_elements.
    by apply elem_of_dom.
Qed.

(** A reservation in force: the tip of its identifier, live and unexpired. *)
Definition in_force (wal : Wal) (t : N) (r : IntentReservation) : Prop :=
  tip (open_ledger wal) !! reservation_id r = Some r /\ is_live (status r) = true /\ t < expires_at r.

Lemma expire_live now r : is_live (status (expire now r)) = true <->
  is_live (status r) = true /\ now < expires_at r.
Proof.
  unfold expire. destruct (is_live (status r)) eqn:Hl; simpl; [|rewrite Hl; naive_solver].
  destruct (expires_at r <=? now) eqn:He; breflect; simpl; [|rewrite Hl; naive_solver].
  split; [done|]. intros [_ ?]. lia.
Qed.

Lemma expire_id now r : is_live (status (expire now r)) = true -> expire now r = r.
Proof.
  intros [Hl He]%expire_live. unfold expire. rewrite Hl, (proj2 (N.leb_gt _ _)) by done. done.
Qed.

Lemma elem_of_blocking wal repo now r :
  r ∈ blocking_for_conflict (open_ledger wal) repo now <-> in_force wal now r /\ repo_id r = repo.
Proof.
  unfold blocking_for_conflict, materialized, in_force.
  rewrite list_elem_of_filter, list_elem_of_fmap. split.
  - intros [[Hrepo Hl] (r0 & -> & [id Hid]%elem_of_tip_values)].
    pose proof (proj1 (expire_live now r0) Hl) as [? ?]. rewrite (expire_id _ _ Hl) in *.
    by rewrite (tip_id _ _ _ Hid).
  - intros [(Hid & Hl & Hlt) Hrepo]. split; [done|]. exists r. split.
    + symmetry. by apply expire_id, expire_live.
    + apply elem_of_tip_values. by eexists.
Qed.

(** * Conflicts *)

Section Conflicts.
Context `{Platform} (set_iter : gset string -> list string).
Context (Hiter : forall s, set_iter s ≡ₚ elements s).
Context (wal : Wal) (repo : string) (now : N) (agent : string) (fp : FootprintSnapshot).

(** [blocks r n]: another agent's reservation in force shares node [n]. *)
Definition blocks (r : IntentReservation) (n : string) : Prop :=
  in_force wal now r /\ repo_id r = repo /\ agent_id r <> agent /\
  n ∈ fp_nodes fp /\ n ∈ contract_nodes r.

Definition edge_of (r : IntentReservation) (n : string) : ConflictGraphEdge :=
  mkConflict (reservation_id r) (agent_id r) n (evidence_ref_for_overlap r fp n).

(** What the accumulators hold after the nodes of [ps] were pushed. *)
Definition found (ps : list (IntentReservation * string)) (c : Conflicts) : Prop :=
  overlap c = snd <$> ps /\ edges c = (fun p => edge_of (fst p) (snd p)) <$> ps /\
  (forall id, id ∈ blocking c <-> exists p, p ∈ ps /\ reservation_id (fst p) = id).

Lemma found_nodes r ns ps c : found ps c ->
  found (ps ++ ((fun n => (r, n)) <$> ns)) (foldl (conflict_node r fp) c ns).
Proof.
  revert ps c. induction ns as [|n ns IH]; intros ps c Hc; simpl; [by rewrite app_nil_r|].
  rewrite cons_middle, (assoc_L (++)). apply IH. destruct Hc as (Ho & He & Hb).
  split_and!; simpl.
  - by rewrite Ho, fmap_app.
  - by rewrite He, fmap_app.
  - intros id. unfold push_once. case_bool_decide as Hin.
    + rewrite Hb. setoid_rewrite elem_of_app. setoid_rewrite list_elem_of_singleton.
      apply Hb in Hin as (p & Hp & Hid). split; [naive_solver|].
      intros (q & [Hq| ->] & Hqid); [by exists q|]. simpl in Hqid. exists p. by rewrite Hid.
    + rewrite elem_of_app, list_elem_of_singleton, Hb. setoid_rewrite elem_of_app.
      setoid_rewrite list_elem_of_singleton. naive_solver.
Qed.

Definition shared (r : IntentReservation) : list string :=
  set_iter (list_to_set (fp_nodes fp) ∩ list_to_set (contract_nodes r)).

Definition hits (rs : list IntentReservation) : list (IntentReservation * string) :=
  rs ≫= fun r => if bool_decide (agent_id r = agent) then [] else (fun n => (r, n)) <$> shared r.

Lemma conflict_found :
  found (hits (blocking_for_conflict (open_ledger wal) repo now))
    (conflict_overlap set_iter (open_ledger wal) repo now agent fp).
Proof.
  unfold conflict_overlap. generalize (blocking_for_conflict (open_ledger wal) repo now) as rs.
  assert (forall rs ps c, found ps c -> found (ps ++ hits rs)
    (foldl (fun c a => if bool_decide (agent_id a = agent) then c
              else foldl (conflict_node a fp) c (shared a)) c rs)) as Hgen.
  { induction rs as [|r rs IH]; intros ps c Hc; [by rewrite app_nil_r|].
    unfold hits. rewrite bind_cons. simpl. rewrite (assoc_L (++)). apply IH.
    case_bool_decide; [by rewrite app_nil_r | by apply found_nodes]. }
  intros rs. apply (Hgen rs []). split_and!; [done | done |]. simpl. set_solver.
Qed.

Lemma elem_of_hits r n :
  (r, n) ∈ hits (blocking_for_conflict (open_ledger wal) repo now) <-> blocks r n.
Proof.
  unfold hits, blocks. rewrite list_elem_of_bind. split.
  - intros (r' & Hin & [Hf Hr]%elem_of_blocking). case_bool_decide as Ha; [set_solver|].
    apply list_elem_of_fmap in Hin as (n' & [= -> ->] & Hn).
    unfold shared in Hn. rewrite Hiter, elem_of_elements in Hn. set_solver.
  - intros (Hf & Hr & Ha & Hn & Hn'). exists r. split; [|by apply elem_of_blocking].
    rewrite bool_decide_false by done. apply list_elem_of_fmap_2. unfold shared.
    rewrite Hiter, elem_of_elements. set_solver.
Qed.

Lemma conflict_spec (c := conflict_overlap set_iter (open_ledger wal) repo now agent fp) :
  (forall n, n ∈ overlap c <-> exists r, blocks r n) /\
  (forall id, id ∈ blocking c <-> exists r n, blocks r n /\ reservation_id r = id) /\
  (forall e, e ∈ edges c <-> exists r n, blocks r n /\ e = edge_of r n).
Proof.
  destruct conflict_found as (Ho & He & Hb). fold c in Ho, He, Hb. split_and!.
  - intros n. rewrite Ho, list_elem_of_fmap. setoid_rewrite <- elem_of_hits. split.
    + intros ([r n'] & -> & Hin). by exists r.
    + intros (r & Hin). by exists (r, n).
  - intros id. rewrite Hb. setoid_rewrite <- elem_of_hits. split.
    + intros ([r n] & Hin & Hid). by exists r, n.
    + intros (r & n & Hin & Hid). by exists (r, n).
  - intros e. rewrite He, list_elem_of_fmap. setoid_rewrite <- elem_of_hits. split.
    + intros ([r n] & -> & Hin). by exists r, n.
    + intros (r & n & Hin & ->). by exists (r, n).
Qed.

Lemma no_conflict : overlap (conflict_overlap set_iter (open_ledger wal) repo now agent fp) = [] <->
  forall r n, ~ blocks r n.
Proof.
  destruct conflict_spec as (Ho & _). split.
  - intros Hnil r n Hb. assert (n ∈ @nil string) as Hn by (rewrite <- Hnil; apply Ho; by exists r).
    set_solver.
  - intros Hno. apply elem_of_nil_inv. intros n (r & Hb)%Ho. by eapply Hno.
Qed.
End Conflicts.

(** * Histories *)

Inductive Op :=
| OpCheck (agent : string) (ops : list IntentOperation) (acquire : bool) (ttl : option N)
| OpDeclare (req : DeclareRequest)
| OpRelease (agent rid : string).

(** What a step finds around it: the code snapshot, the input/output
    failures, the clock and the repository. *)
Record Env := mkEnv {
  e_footprint : string -> result ReserveError FootprintSnapshot;
  e_io : Io;
  e_now : N;
  e_repo : string;
}.

Section Histories.
Context `{Platform} (ops_json : list IntentOperation -> bytes) (set_iter : gset string -> list string).

Definition run_op (env : Env) (op : Op) (wal : Wal) : Wal :=
  match op with
  | OpCheck agent ops acquire ttl =>
      snd (check_with_ttl (e_footprint env) ops_json set_iter (e_io env) (e_now env) (e_repo env)
             agent ops acquire ttl wal)
  | OpDeclare req =>
      snd (declare (e_footprint env) ops_json (e_io env) (e_now env) (e_repo env) req wal)
  | OpRelease agent rid => snd (release (e_io env) (e_now env) agent rid wal)
  end.

(** A declaration whose identifier was first recorded as an acquisition. *)
Definition revives (wal : Wal) (op : Op) : Prop :=
  match op with
  | OpDeclare req =>
      exists i r, list_find (fun r => reservation_id r =
          make_reservation_id (rq_agent_id req)
            (intent_digest ops_json (rq_agent_id req) (rq_intent_ops req))) wal = Some (i, r) /\
        status r = Active
  | _ => False
  end.

(** [history t wal]: the log after some sequence of operations in the order
    of the lock, with no reviving declaration.  An operation reads its clock
    before it takes the lock, so the readings come in any order; [t] is the
    latest of them. *)
Inductive history : N -> Wal -> Prop :=
| history_nil : history 0 []
| history_op t wal env op :
    history t wal -> ~ revives wal op ->
    history (N.max t (e_now env)) (run_op env op wal).

(** What one operation writes: at most one record, active only when no
    reservation in force of another agent shares a node with it. *)
Definition writes (env : Env) (wal wal' : Wal) : Prop :=
  wal' = wal \/
  exists r, wal' = wal ++ [r] /\
    (status r = Active -> repo_id r = e_repo env /\
       forall r' n, in_force wal (e_now env) r' -> repo_id r' = repo_id r -> agent_id r' <> agent_id r ->
         n ∈ contract_nodes r -> n ∉ contract_nodes r').

Lemma writes_one env wal r :
  (status r = Active -> repo_id r = e_repo env /\
     forall r' n, in_force wal (e_now env) r' -> repo_id r' = repo_id r -> agent_id r' <> agent_id r ->
       n ∈ contract_nodes r -> n ∉ contract_nodes r') ->
  writes env wal (wal ++ [r]).
Proof. intros Hr. right. by exists r. Qed.

Lemma writes_none env wal : writes env wal wal.
Proof. by left. Qed.

(** Symbolic execution of an operation: reads that may fail, then at most one
    append. *)
Ltac exec_reads := unfold sbind, io_call, lift, sret, throw;
  repeat (destruct (io_fails _ _); [apply writes_none|]; cbn [fst snd]).
Ltac exec_append := unfold append; destruct (append_result _); cbn [fst snd];
  [| apply writes_none |]; apply writes_one.

Lemma declare_writes env wal req : ~ revives wal (OpDeclare req) ->
  writes env wal (run_op env (OpDeclare req) wal).
Proof.
  intros Hrev. simpl. unfold declare, load_footprint_for_ops, open_for_write, try_refresh_existing_declare.
  unfold sbind at 1, lift at 1. destruct (validate_declare_request req) as [[]|]; [|apply writes_none].
  exec_reads. destruct (store_err _) as [fp|]; [|apply writes_none]. exec_reads.
  cbn [records open_ledger]. destruct (list_find _ wal) as [[i r]|] eqn:Hf; cbn [negb].
  1: assert (status r <> Active) as Hna by (intros Ha; apply Hrev; by exists i, r).
  1: destruct (is_live (status r)); cbn [negb].
  all: destruct (deadline _ _) as [ex|]; [|apply writes_none]; by exec_append.
Qed.

Lemma release_writes env wal agent rid : writes env wal (run_op env (OpRelease agent rid) wal).
Proof.
  simpl. unfold release, open_for_write. exec_reads.
  destruct (list_find _ _) as [[i r]|]; [|apply writes_none]. by exec_append.
Qed.

Context (Hiter : forall s, set_iter s ≡ₚ elements s).

Lemma check_writes env wal agent ops acquire ttl :
  writes env wal (run_op env (OpCheck agent ops acquire ttl) wal).
Proof.
  simpl. unfold check_with_ttl, load_footprint_for_ops, open_for_write, acquire_internal_locked.
  exec_reads. destruct (store_err _) as [fp|]; [|apply writes_none]. exec_reads.
  case_bool_decide as Hov; cbn [negb]; [|apply writes_none].
  destruct (should_return_unknown fp); [apply writes_none|]. destruct acquire; [|apply writes_none].
  destruct (deadline _ _) as [ex|]; [|apply writes_none].
  pose proof (proj1 (no_conflict set_iter Hiter wal (e_repo env) (e_now env) agent fp) Hov) as Hno.
  exec_append; intros _; (split; [done|]); intros r' n Hf Hr Ha Hn Hn'; by apply (Hno r' n).
Qed.

Lemma op_writes env wal op : ~ revives wal op -> writes env wal (run_op env op wal).
Proof.
  destruct op; intros Hr; [apply check_writes | by apply declare_writes | apply release_writes].
Qed.

(** * Exclusion *)

Definition holds (wal : Wal) (t : N) (r : IntentReservation) : Prop :=
  in_force wal t r /\ status r = Active.

Definition exclusive (wal : Wal) (t : N) : Prop :=
  forall r1 r2 n, holds wal t r1 -> holds wal t r2 -> repo_id r1 = repo_id r2 ->
    agent_id r1 <> agent_id r2 -> n ∈ contract_nodes r1 -> n ∉ contract_nodes r2.

Lemma in_force_later wal t t' r : t <= t' -> in_force wal t' r -> in_force wal t r.
Proof. intros Ht (? & ? & ?). split_and!; [done | done | lia]. Qed.

Lemma in_force_snoc wal t r x : in_force (wal ++ [x]) t r -> r = x \/ in_force wal t r.
Proof.
  intros (Hid & Hl & Ht). rewrite open_snoc in Hid. unfold put_tip in Hid.
  apply lookup_insert_Some in Hid as [[_ ->]|[_ Hid]]; [by left | right; by split_and!].
Qed.

Lemma writes_exclusive env wal wal' t : writes env wal wal' ->
  exclusive wal t -> exclusive wal' (N.max t (e_now env)).
Proof.
  intros Hw Hex r1 r2 n [F1 S1] [F2 S2] Hr Ha N1 N2.
  assert (Hlate : forall r, in_force wal (N.max t (e_now env)) r -> in_force wal t r /\ in_force wal (e_now env) r)
    by (intros r Hf; split; eapply in_force_later; [|exact Hf| |exact Hf]; lia).
  destruct Hw as [->|(x & -> & Hx)].
  { apply Hlate in F1 as [F1 _], F2 as [F2 _]. by apply (Hex r1 r2 n). }
  destruct (in_force_snoc _ _ _ _ F1) as [->|G1], (in_force_snoc _ _ _ _ F2) as [->|G2]; [done|..].
  - destruct (Hx S1) as [_ Hd]. apply Hlate in G2 as [_ G2]. by apply (Hd r2 n).
  - destruct (Hx S2) as [_ Hd]. apply Hlate in G1 as [_ G1]. by apply (Hd r1 n).
  - apply Hlate in G1 as [G1 _], G2 as [G2 _]. by apply (Hex r1 r2 n).
Qed.

Lemma history_exclusive t wal : history t wal -> exclusive wal t.
Proof.
  induction 1 as [|t wal env op Hh IH Hr].
  - intros r1 r2 n [(Hid & _) _]. simpl in Hid. by rewrite lookup_empty in Hid.
  - eapply writes_exclusive, IH. by apply op_writes.
Qed.
End Histories.

(** C33: Exclusion.  In any interleaving of checks, acquisitions, declarations
    and releases on one log, by any agents and for any repositories, with any
    input/output failures, changing code snapshots and clock readings in any
    order, two active reservations of one repository held by different agents
    that are unexpired at a time no earlier than every reading so far never
    share a contract node.  The one operation left out is a declaration of an
    intent that was first recorded as an acquisition. *)
Theorem reservations_exclusive `{Platform} (ops_json : list IntentOperation -> bytes)
    (set_iter : gset string -> list string) (t t' : N) (wal : Wal) :
  (forall s, set_iter s ≡ₚ elements s) ->
  history ops_json set_iter t wal -> t <= t' -> exclusive wal t'.
Proof.
  intros Hiter Hh Ht r1 r2 n [F1 S1] [F2 S2].
  by apply (history_exclusive ops_json set_iter Hiter t wal Hh);
    (split; [by eapply in_force_later|done]).
Qed.

(** What a check answers.  A conflict is reported exactly when another
    agent's reservation in force in the repository shares a node with the
    footprint, naming exactly the shared nodes and the blocking reservations
    and writing nothing; otherwise the answer is unknown for incomplete
    coverage, writing nothing, or clear, and then a requested acquisition is
    in force for the caller on the whole footprint.  A check fails only when
    the store does or when the expiry overflows. *)
Theorem check_verdict `{Platform} (fpf : string -> result ReserveError FootprintSnapshot)
    (ops_json : list IntentOperation -> bytes) (set_iter : gset string -> list string)
    (io : Io) (now : N) (repo agent : string) (ops : list IntentOperation) (acquire : bool)
    (ttl : option N) (wal : Wal) :
  (forall s, set_iter s ≡ₚ elements s) ->
  let '(res, wal') := check_with_ttl fpf ops_json set_iter io now repo agent ops acquire ttl wal in
  match res with
  | Ok resp =>
      exists fp, footprint_from_intent_ops fpf ops = Ok fp /\
      ((verdict resp = "conflict" /\ wal' = wal /\ overlap_nodes resp <> [] /\
        (forall n, n ∈ overlap_nodes resp <-> exists r, blocks wal repo now agent fp r n) /\
        (forall id, id ∈ blocking_reservation_ids resp <->
           exists r n, blocks wal repo now agent fp r n /\ reservation_id r = id)) \/
       (verdict resp = "unknown" /\ wal' = wal /\ (tier_a_percent fp < 100)%Q /\
        (forall r n, ~ blocks wal repo now agent fp r n)) \/
       (verdict resp = "clear" /\ (100 <= tier_a_percent fp)%Q /\
        (forall r n, ~ blocks wal repo now agent fp r n) /\
        if acquire
        then exists r, wal' = wal ++ [r] /\ holds wal' now r /\ agent_id r = agent /\
               repo_id r = repo /\ contract_nodes r = fp_nodes fp
        else wal' = wal))
  | Err Panicked => U64_MAX < now + N.max (default 3600 ttl) 60
  | Err (Failed Store) =>
      (exists c, io_fails io c = true) \/ append_result io <> Appended \/
      is_ok (footprint_from_intent_ops fpf ops) = false
  | Err (Failed _) => False
  end.
Proof.
  intros Hiter. destruct (check_with_ttl _ _ _ _ _ _ _ _ _ _ _) as [res wal'] eqn:Hrun.
  unfold check_with_ttl, load_footprint_for_ops, open_for_write, acquire_internal_locked in Hrun.
  unfold sbind, io_call, lift, sret, throw in Hrun.
  repeat match type of Hrun with
  | context [io_fails io ?c] =>
      destruct (io_fails io c) eqn:?; [simplify_eq; left; by eexists|]; cbn [fst snd] in Hrun
  | context [store_err ?r] =>
      destruct r as [fp|] eqn:Hfp; cbn [store_err] in Hrun; [|simplify_eq; right; by right]
  end.
  set (c := conflict_overlap set_iter (open_ledger wal) repo now agent fp) in *.
  destruct (conflict_spec set_iter Hiter wal repo now agent fp) as (Ho & Hb & _). fold c in Ho, Hb.
  case_bool_decide as Hov; cbn [negb] in Hrun.
  2: { simplify_eq. exists fp. split; [done|]. left. by split_and!. }
  pose proof (proj1 (no_conflict set_iter Hiter wal repo now agent fp) Hov) as Hno.
  unfold should_return_unknown in Hrun. destruct (Qle_bool 100 (tier_a_percent fp)) eqn:Hq; cbn [negb] in Hrun.
  2: { simplify_eq. exists fp. split; [done|]. right. left. split_and!; [done | done | | done].
       apply Qnot_le_lt. intros Hle%Qle_bool_iff. congruence. }
  apply Qle_bool_iff in Hq.
  destruct acquire; [|simplify_eq; exists fp; split; [done|]; right; right; by split_and!].
  unfold deadline, checked_add_u64 in Hrun. destruct (_ <=? U64_MAX) eqn:Hle; cbn [ok_or] in Hrun; breflect.
  2: { by simplify_eq. }
  unfold append in Hrun. destruct (append_result io) eqn:Hap; simplify_eq; [|right; left; congruence..].
  exists fp. split; [done|]. right. right. split_and!; [done | done | done|].
  eexists. split; [done|]. split_and!; [| done | done | done].
  split; [|done]. unfold in_force. rewrite open_snoc. unfold put_tip. simpl.
  rewrite lookup_insert_eq. split_and!; [done | done | lia].
Qed.

Lemma elem_of_active_now wal repo now r :
  r ∈ active (open_ledger wal) repo now <-> holds wal now r /\ repo_id r = repo.
Proof.
  unfold active, holds. split.
  - intros [[Hrepo Hs] Hin]%list_elem_of_filter.
    assert (r ∈ blocking_for_conflict (open_ledger wal) repo now) as Hb.
    { apply list_elem_of_filter. by rewrite Hs. }
    apply elem_of_blocking in Hb. tauto.
  - intros [[Hf Hs] Hrepo]. apply list_elem_of_filter. split; [done|].
    assert (r ∈ blocking_for_conflict (open_ledger wal) repo now) as Hb by (by apply elem_of_blocking).
    by apply list_elem_of_filter in Hb as [_ ?].
Qed.

Lemma release_Ok io now agent rid wal wal' : release io now agent rid wal = (Ok (), wal') ->
  exists r, tip (open_ledger wal) !! rid = Some r /\ agent_id r = agent /\
    exists x, wal' = wal ++ [x] /\ reservation_id x = rid /\ status x = Released.
Proof.
  unfold release, open_for_write, sbind, io_call, sret, throw. intros Hrun.
  repeat (destruct (io_fails io _); [done|]; cbn [fst snd] in Hrun).
  destruct (list_find _ _) as [[i r]|] eqn:Hf; [|done].
  apply list_find_Some in Hf as (Hi & [Hid Ha] & _). apply list_elem_of_lookup_2 in Hi.
  unfold materialized in Hi. apply list_elem_of_fmap in Hi as (r0 & -> & [id Hr0]%elem_of_tip_values).
  assert (reservation_id (expire now r0) = reservation_id r0 /\ agent_id (expire now r0) = agent_id r0)
    as [E1 E2] by (unfold expire; by destruct (_ && _)).
  rewrite E1 in Hid. rewrite E2 in Ha. pose proof (tip_id _ _ _ Hr0) as Hid0.
  exists r0. unfold append in Hrun. destruct (append_result io); simplify_eq.
  split_and!; [done | done |]. eexists. split_and!; [done | by simpl; rewrite E1 | done].
Qed.

(** Releases and the active query.  The log is append-only under every
    operation.  A release succeeds only for the agent that owns the tip of
    the identifier, after which that identifier is not in force and every
    other one is as it was; the query lists exactly the active unexpired
    reservations of its repository. *)
Theorem release_and_query (io : Io) (now : N) (repo agent rid : string) (wal wal' : Wal)
    (res : result (abort ReserveError) ()) :
  release io now agent rid wal = (res, wal') ->
  wal `prefix_of` wal' /\
  (res = Ok () -> exists r, tip (open_ledger wal) !! rid = Some r /\ agent_id r = agent /\
     (forall x, in_force wal' now x -> reservation_id x <> rid) /\
     (forall id, id <> rid -> tip (open_ledger wal') !! id = tip (open_ledger wal) !! id)) /\
  (forall resp, query_active io now repo wal' = Ok resp ->
     active_count resp = N.of_nat (length (reservations resp)) /\
     forall x, x ∈ reservations resp <-> holds wal' now x /\ repo_id x = repo).
Proof.
  intros Hrun. split_and!.
  - unfold release, open_for_write, sbind, io_call, sret, throw in Hrun.
    repeat (destruct (io_fails io _); [by simplify_eq|]; cbn [fst snd] in Hrun).
    destruct (list_find _ _) as [[i r]|]; [|by simplify_eq].
    unfold append in Hrun. destruct (append_result io); simplify_eq; [by eexists | done | by eexists].
  - intros ->. destruct (release_Ok _ _ _ _ _ _ Hrun) as (r & Hr & Ha & x & -> & Hx & Hs).
    exists r. split_and!; [done | done | |].
    + intros y (Hy & Hl & _) Hid. rewrite open_snoc in Hy. unfold put_tip in Hy.
      rewrite Hx, Hid, lookup_insert_eq in Hy. simplify_eq. by rewrite Hs in Hl.
    + intros id Hid. rewrite open_snoc. unfold put_tip. by rewrite Hx, lookup_insert_ne.
  - intros resp Hq. unfold query_active in Hq. do 2 (destruct (io_fails io _); [done|]).
    simplify_eq. split; [done|]. intros x. apply elem_of_active_now.
Qed.

(** * Concrete reservations

    Every intent has the one-node footprint of symbol [f], fully covered. *)

Definition demo_platform : Platform := {| sha256 := fun _ => ZERO; json_string := fun s => s |}.
Definition demo_json (_ : list IntentOperation) : bytes := [].
Definition demo_iter (s : gset string) : list string := elements s.
Definition demo_ops : list IntentOperation := [mkOp "edit" (Some "f") None].
Definition demo_footprint (_ : string) : result ReserveError FootprintSnapshot :=
  Ok (mkFootprint "footprint/f" "f" ["node/f"] [] 100).
Definition demo_io : Io := mkIo (fun _ => false) Appended.
Definition demo_env (now : N) : Env := mkEnv demo_footprint demo_io now "repo".

Definition demo_run (now : N) (op : Op) (wal : Wal) : Wal :=
  run_op (H := demo_platform) demo_json demo_iter (demo_env now) op wal.

Definition demo_rid : string := make_reservation_id "a" ZERO.

(** Agent [a] acquires and releases, then agent [b] acquires. *)
Definition demo_held : Wal := demo_run 1 (OpCheck "a" demo_ops true None) [].
Definition demo_wal : Wal :=
  demo_run 3 (OpCheck "b" demo_ops true None) (demo_run 2 (OpRelease "a" demo_rid) demo_held).

Lemma demo_iter_ok s : demo_iter s ≡ₚ elements s.
Proof. done. Qed.

Lemma demo_history : history (H := demo_platform) demo_json demo_iter 3 demo_wal.
Proof.
  apply (history_op (H := demo_platform) _ _ 2 _ (demo_env 3)); [|by intros []].
  apply (history_op (H := demo_platform) _ _ 1 _ (demo_env 2)); [|by intros []].
  apply (history_op (H := demo_platform) _ _ 0 _ (demo_env 1)); [constructor|by intros []].
Qed.

Lemma reservations_exclusive_witness : exclusive demo_wal 4.
Proof.
  apply (reservations_exclusive (H := demo_platform) demo_json demo_iter 3 4 demo_wal demo_iter_ok demo_history).
  lia.
Defined.

Definition demo_check : result (abort ReserveError) ReservationCheckResponse * Wal :=
  check_with_ttl (H := demo_platform) demo_footprint demo_json demo_iter demo_io 2 "repo" "b" demo_ops true None demo_held.

Definition demo_merged : FootprintSnapshot :=
  mkFootprint "footprint/f" "f" ["node/f"] [] 100.

Lemma check_verdict_witness :
  match fst demo_check with
  | Ok resp => verdict resp = "conflict" /\
      exists r, blocks demo_held "repo" 2 "b" demo_merged r "node/f"
  | Err _ => False
  end.
Proof.
  pose proof (check_verdict (H := demo_platform) demo_footprint demo_json demo_iter demo_io 2 "repo" "b"
    demo_ops true None demo_held demo_iter_ok) as Hc.
  fold demo_check in Hc.
  assert (is_ok (fst demo_check) = true) as Hok by (vm_compute; reflexivity).
  assert (forall resp, fst demo_check = Ok resp -> verdict resp = "conflict" /\ "node/f" ∈ overlap_nodes resp)
    as Hv by (intros resp Hr; vm_compute in Hr; injection Hr as <-; split; [done | by left]).
  destruct demo_check as [[resp|] wal']; [|done]. simpl in *.
  destruct (Hv resp eq_refl) as [Hverdict Hin]. split; [done|].
  destruct Hc as (fp & Hfp & [(_ & _ & _ & Hov & _)|[(Hu & _)|(Hu & _)]]);
    [|rewrite Hverdict in Hu; done..].
  assert (fp = demo_merged) as <- by (vm_compute in Hfp; injection Hfp as <-; reflexivity). by apply Hov.
Defined.

Lemma release_and_query_witness : demo_held `prefix_of` demo_run 2 (OpRelease "a" demo_rid) demo_held.
Proof.
  destruct (release demo_io 2 "a" demo_rid demo_held) as [res wal'] eqn:E.
  replace (demo_run 2 (OpRelease "a" demo_rid) demo_held) with wal'
    by (unfold demo_run; simpl; by rewrite E).
  exact (proj1 (release_and_query demo_io 2 "repo" "a" demo_rid demo_held wal' res E)).
Defined.

(** Agent [a] then declares its intent again. *)
Definition demo_revived : Wal := demo_run 4 (OpDeclare (mkRequest "a" demo_ops 60)) demo_wal.

Definition demo_record (agent : string) (created ttl : N) : IntentReservation :=
  mkReservation 1 (make_reservation_id agent ZERO) "repo" agent demo_ops "footprint/f" [] ttl
    Active created (created + ttl) ["node/f"].

Lemma demo_revived_tail : exists pre x,
  demo_revived = pre ++ [demo_record "b" 3 3600; x] /\
  reservation_id x = make_reservation_id "a" ZERO /\ repo_id x = "repo" /\ agent_id x = "a" /\
  status x = Active /\ expires_at x = 64 /\ contract_nodes x = ["node/f"].
Proof.
  exists (take 2 demo_revived), (default (demo_record "" 0 0) (demo_revived !! 3%nat)).
  split_and!; vm_compute; reflexivity.
Qed.

(** Declaring an intent looks up the first record of its identifier, not the
    last: after [a] acquired and released and [b] acquired the same node, a
    declaration by [a] appends [a]'s old active record again, and both agents
    hold the node. *)
Lemma declare_revives_released : exists r1 r2,
  holds demo_revived 4 r1 /\ holds demo_revived 4 r2 /\ repo_id r1 = repo_id r2 /\
  agent_id r1 = "a" /\ agent_id r2 = "b" /\
  "node/f" ∈ contract_nodes r1 /\ "node/f" ∈ contract_nodes r2.
Proof.
  destruct demo_revived_tail as (pre & x & Hw & Hid & Hr & Ha & Hs & He & Hn).
  assert (make_reservation_id "b" ZERO <> make_reservation_id "a" ZERO) as Hne by (vm_compute; congruence).
  generalize dependent demo_revived. intros wal Hw. exists x, (demo_record "b" 3 3600).
  assert (holds wal 4 x) as Hx.
  { split; [|done]. split_and!; [|by rewrite Hs|by rewrite He]. apply tip_last.
    exists (pre ++ [demo_record "b" 3 3600]), []. by rewrite Hw, <- (assoc_L (++)). }
  assert (holds wal 4 (demo_record "b" 3 3600)) as Hb.
  { split; [|done]. split_and!; [|done|done]. apply tip_last. exists pre, [x]. rewrite Hw.
    split_and!; [done | done|]. repeat constructor. rewrite Hid. simpl. congruence. }
  split_and!; [done | done | by rewrite Hr | done | done | rewrite Hn; by left | by left].
Qed.
