(* ===== verification/Coverage.v ===== *)
(** graphzero-coverage: per-blob coverage bitmaps, freshness checks, coverage
    certificates, and the three-answer query results built from them. *)

From Stdlib Require Import Floats.SpecFloat.
From stdpp Require Import gmap strings.
From S2P Require Import Prelude.
From S2P Require Import DurableStore.
Local Open Scope string_scope.

Definition BlobId := string.
Definition ContentHash := bytes.

Inductive Tier := TierA | TierB | TierC.
#[global] Instance Tier_eq_dec : EqDecision Tier.
Proof. solve_decision. Defined.
#[global] Instance Tier_countable : Countable Tier.
Proof.
  refine (inj_countable' (fun t => match t with TierA => 0 | TierB => 1 | TierC => 2 end)%nat
    (fun n => match n with 0 => TierA | 1 => TierB | _ => TierC end)%nat _). by intros [].
Defined.

(** * 64-bit floats

    IEEE 754 binary64, by the executable specification of the standard
    library: rounding to nearest, ties to even. *)

Definition f64 := spec_float.
Definition f64_of_usize (n : N) : f64 := binary_normalize 53 1024 (Z.of_N n) 0 false.
Definition f64_mul : f64 -> f64 -> f64 := SFmul 53 1024.
Definition f64_div : f64 -> f64 -> f64 := SFdiv 53 1024.
Definition f64_is_nan (x : f64) : bool := match x with S754_nan => true | _ => false end.
Definition f64_is_finite (x : f64) : bool :=
  match x with S754_nan | S754_infinity _ => false | _ => true end.
(** [f64::min]: a NaN argument yields the other one. *)
Definition f64_min (a b : f64) : f64 :=
  if f64_is_nan a then b else if f64_is_nan b then a else if SFltb b a then b else a.
(** [f64::clamp]: NaN stays NaN. *)
Definition f64_clamp (x lo hi : f64) : f64 :=
  let x := if SFltb x lo then lo else x in if SFltb hi x then hi else x.

(** * Bitmaps ([bitmap.rs]) *)

Definition CATEGORY_INDEXED : N := 0.
Definition words : Type := N * N * N.
(** A bitmap maps each tracked blob to its three tier words; every operation
    that names a category panics ([None]) outside [0..64]. *)
Notation Bitmap := (gmap BlobId words).

Definition category_mask (category : N) : option N :=
  if (category <? 64)%N then Some (N.shiftl 1 category) else None.

Definition tier_word (t : Tier) (w : words) : N :=
  match t, w with TierA, (a, _, _) => a | TierB, (_, b, _) => b | TierC, (_, _, c) => c end.
Definition update_word (t : Tier) (f : N -> N) (w : words) : words :=
  match t, w with
  | TierA, (a, b, c) => (f a, b, c) | TierB, (a, b, c) => (a, f b, c) | TierC, (a, b, c) => (a, b, f c)
  end.
Definition no_words : words := (0, 0, 0)%N.

Definition bitmap_new : Bitmap := ∅.
Definition entry_words (b : Bitmap) (id : BlobId) : words := default no_words (b !! id).

Definition bitmap_set (b : Bitmap) (id : BlobId) (t : Tier) (category : N) : option Bitmap :=
  mask ← category_mask category;
  Some (<[id := update_word t (fun w => N.lor w mask) (entry_words b id)]> b).

(** [!mask] on [u64]. *)
Definition u64_not (m : N) : N := N.lxor m U64_MAX.
Definition bitmap_clear (b : Bitmap) (id : BlobId) (t : Tier) (category : N) : option Bitmap :=
  mask ← category_mask category;
  Some match b !! id with
       | Some w => <[id := update_word t (fun w => N.land w (u64_not mask)) w]> b
       | None => b
       end.
Definition bitmap_get (b : Bitmap) (id : BlobId) (t : Tier) (category : N) : option bool :=
  mask ← category_mask category;
  Some match b !! id with
       | Some w => negb (N.land (tier_word t w) mask =? 0)%N
       | None => false
       end.

Definition is_indexed (b : Bitmap) (id : BlobId) (t : Tier) : option bool := bitmap_get b id t CATEGORY_INDEXED.
Definition mark_indexed (b : Bitmap) (id : BlobId) (t : Tier) : option Bitmap := bitmap_set b id t CATEGORY_INDEXED.
Definition bitmap_remove (b : Bitmap) (id : BlobId) : Bitmap := delete id b.
(** In the map's own, unspecified order. *)
Definition blob_ids (b : Bitmap) : list BlobId := (map_to_list b).*1.
Definition total_blobs (b : Bitmap) : N := N.of_nat (size b).
Definition word_indexed (t : Tier) (w : words) : bool :=
  negb (N.land (tier_word t w) (N.shiftl 1 CATEGORY_INDEXED) =? 0)%N.
Definition indexed_count (b : Bitmap) (t : Tier) : N :=
  N.of_nat (length (List.filter (word_indexed t) (map_to_list b).*2)).

Definition pct_of (indexed total : N) : f64 :=
  if (total =? 0)%N then S754_zero false
  else f64_mul (f64_div (f64_of_usize indexed) (f64_of_usize total)) (f64_of_usize 100).
Definition coverage_pct (b : Bitmap) (t : Tier) : f64 := pct_of (indexed_count b t) (total_blobs b).
Definition tier_b_reserved_bits : list N := [1; 2; 3; 4; 5; 6; 7]%N.
Definition tier_c_reserved_bits : list N := [8; 9; 10; 11; 12; 13; 14; 15]%N.

Definition or_words (w o : words) : words :=
  match w, o with ((a, b), c), ((a', b'), c') => (N.lor a a', N.lor b b', N.lor c c') end.
(** The loop over the other map's entries; each entry is visited once. *)
Definition merge_entry (b : Bitmap) (e : BlobId * words) : Bitmap :=
  <[e.1 := or_words (entry_words b e.1) e.2]> b.
Definition bitmap_merge (b other : Bitmap) : Bitmap := foldl merge_entry b (map_to_list other).

(** * Certificates ([certificate.rs]) *)

Inductive GapReason := NotIndexed | Stale | Unparseable.
Record Gap := mkGap { gap_blob_id : BlobId; gap_tier : Tier; gap_reason : GapReason }.
Record CoverageCertificate := mkCoverage {
  tier_a_pct : f64; tier_b_pct : f64; tier_c_pct : f64;
  freshness_verified : bool; gaps : list Gap; generated_at : N }.
Definition CoverageCertificate_new (at_ : N) : CoverageCertificate :=
  mkCoverage (S754_zero false) (S754_zero false) (S754_zero false) false [] at_.
Definition estimated_size (c : CoverageCertificate) : N :=
  (8 * 3 + 1 + 8 + 24 + N.of_nat (length (gaps c)) * (32 + 8 + 16))%N.

(** * Blast-radius confidence ([confidence_algebra.rs]) *)

Definition f64_one : f64 := f64_of_usize 1.
Definition blast_finding_score (edges : list f64) (tier_a : f64) : f64 :=
  match edges with
  | [] => S754_zero false
  | _ =>
      let min_edge := foldl f64_min (S754_infinity false) edges in
      if negb (f64_is_finite min_edge) then S754_zero false
      else f64_mul min_edge (f64_clamp (f64_div tier_a (f64_of_usize 100)) (S754_zero false) f64_one)
  end.

(** * Freshness ([freshness.rs]) *)

Inductive FreshnessError := FreshIo | MissingStoredHash | HashMismatch.
(** A [LiveBytesProvider]: the bytes behind a path hint. *)
Definition LiveBytesProvider := string -> result FreshnessError bytes.
Definition EmptyProvider : LiveBytesProvider := fun _ => Ok [].

Section Freshness.
Context `{Platform}.
Definition compute_hash (b : bytes) : ContentHash := sha256 b.
Definition freshness_check (stored : option ContentHash) (live : bytes) : result FreshnessError bool :=
  let? stored := ok_or stored MissingStoredHash in
  Ok (bool_decide (stored = compute_hash live)).
End Freshness.

(** * The index ([index.rs]) *)

(** The [CoverageIndex] trait as a record of its read operations: the tracked
    ids in visiting order, and the path of a blob when it is valid UTF-8. *)
Record CoverageIndex := mkIndex {
  read_coverage : BlobId -> option Bitmap;
  read_freshness : BlobId -> option ContentHash;
  all_blob_ids : list BlobId;
  blob_path : BlobId -> option string }.

Record MockCoverageIndex := mkMock {
  mk_coverage : gmap BlobId Bitmap;
  mk_hashes : gmap BlobId ContentHash;
  mk_paths : gmap BlobId string;
  mk_order : list BlobId }.
Definition mock_new : MockCoverageIndex := mkMock ∅ ∅ ∅ [].
Definition mock_len (m : MockCoverageIndex) : N := N.of_nat (size (mk_coverage m)).
Definition mock_is_empty (m : MockCoverageIndex) : bool := (mock_len m =? 0)%N.
Definition write_coverage (m : MockCoverageIndex) (id : BlobId) (b : Bitmap) : MockCoverageIndex :=
  mkMock (<[id := b]> (mk_coverage m)) (mk_hashes m) (mk_paths m)
    (if bool_decide (is_Some (mk_coverage m !! id)) then mk_order m else mk_order m ++ [id]).
Definition write_freshness (m : MockCoverageIndex) (id : BlobId) (h : ContentHash) : MockCoverageIndex :=
  mkMock (mk_coverage m) (<[id := h]> (mk_hashes m)) (mk_paths m) (mk_order m).
Definition write_blob_path (m : MockCoverageIndex) (id : BlobId) (p : string) : MockCoverageIndex :=
  mkMock (mk_coverage m) (mk_hashes m) (<[id := p]> (mk_paths m)) (mk_order m).
Definition mock_index (m : MockCoverageIndex) : CoverageIndex :=
  mkIndex (fun id => mk_coverage m !! id) (fun id => mk_hashes m !! id) (mk_order m)
    (fun id => mk_paths m !! id).

(** * Query results ([query.rs]) *)

Inductive QueryResult :=
| Present (evidence_ref : string) (certificate : CoverageCertificate)
| Absent (certificate : CoverageCertificate)
| Unknown (certificate : CoverageCertificate).
Inductive QueryBuildErrorKind := MissingEvidenceRef.
Record QueryBuildError := mkBuildError {
  qe_kind : QueryBuildErrorKind; qe_certificate : CoverageCertificate }.

Record QueryResultBuilder := mkBuilder {
  qb_index : CoverageIndex; qb_tier : Tier; qb_found : bool; qb_evidence : option string }.
Definition builder_new (i : CoverageIndex) (t : Tier) : QueryResultBuilder := mkBuilder i t false None.
Definition found (q : QueryResultBuilder) (r : string) : QueryResultBuilder :=
  mkBuilder (qb_index q) (qb_tier q) true (Some r).
Definition not_found (q : QueryResultBuilder) : QueryResultBuilder :=
  mkBuilder (qb_index q) (qb_tier q) false None.

(** Category 0 is in range, so the lookup never panics. *)
Definition is_blob_indexed (i : CoverageIndex) (id : BlobId) (t : Tier) : bool :=
  match read_coverage i id with
  | Some b => default false (is_indexed b id t)
  | None => false
  end.

Section Query.
Context `{Platform} (provider : LiveBytesProvider) (now : N).

Definition blob_is_fresh (i : CoverageIndex) (id : BlobId) : bool :=
  let hint := default "" (blob_path i id) in
  match read_freshness i id, provider hint with
  | Some stored, Ok live =>
      match freshness_check (Some stored) live with Ok b => b | Err _ => false end
  | _, _ => false
  end.

Definition assign_tier_coverage_pct (c : CoverageCertificate) (t : Tier) (indexed total : N)
  : CoverageCertificate :=
  let pct := pct_of indexed total in
  match t with
  | TierA => mkCoverage pct (tier_b_pct c) (tier_c_pct c) (freshness_verified c) (gaps c) (generated_at c)
  | TierB => mkCoverage (tier_a_pct c) pct (tier_c_pct c) (freshness_verified c) (gaps c) (generated_at c)
  | TierC => mkCoverage (tier_a_pct c) (tier_b_pct c) pct (freshness_verified c) (gaps c) (generated_at c)
  end.

Definition push_gap (c : CoverageCertificate) (g : Gap) : CoverageCertificate :=
  mkCoverage (tier_a_pct c) (tier_b_pct c) (tier_c_pct c) (freshness_verified c) (gaps c ++ [g]) (generated_at c).

Definition scan_blob_coverage (i : CoverageIndex) (t : Tier) (id : BlobId) (c : CoverageCertificate)
  : (bool * bool) * CoverageCertificate :=
  if negb (is_blob_indexed i id t) then (false, false, push_gap c (mkGap id t NotIndexed))
  else if blob_is_fresh i id then (true, true, c)
  else (true, false, push_gap c (mkGap id t Stale)).

(** The counters the visitor closes over: total, fresh, indexed. *)
Definition scan_step (i : CoverageIndex) (t : Tier) (st : N * N * N * CoverageCertificate) (id : BlobId)
  : N * N * N * CoverageCertificate :=
  let '(total, fresh, indexed, c) := st in
  let '(ix, fr, c) := scan_blob_coverage i t id c in
  (total + 1, if ix && fr then fresh + 1 else fresh, if ix then indexed + 1 else indexed, c)%N.

Definition build_certificate (i : CoverageIndex) (t : Tier) : CoverageCertificate * bool :=
  let '(total, fresh, indexed, c) :=
    foldl (scan_step i t) (0%N, 0%N, 0%N, CoverageCertificate_new now) (all_blob_ids i) in
  let c := assign_tier_coverage_pct c t indexed total in
  let c := mkCoverage (tier_a_pct c) (tier_b_pct c) (tier_c_pct c)
             ((fresh =? indexed)%N && (0 <? indexed)%N) (gaps c) (generated_at c) in
  (c, (0 <? total)%N && (indexed =? total)%N).

Definition try_build (q : QueryResultBuilder) : result QueryBuildError QueryResult :=
  let '(cert, full) := build_certificate (qb_index q) (qb_tier q) in
  if qb_found q then
    match qb_evidence q with
    | Some r => if (String.length r =? 0)%nat then Err (mkBuildError MissingEvidenceRef cert)
                else Ok (Present r cert)
    | None => Err (mkBuildError MissingEvidenceRef cert)
    end
  else if freshness_verified cert && full then Ok (Absent cert)
  else Ok (Unknown cert).

Definition build (q : QueryResultBuilder) : QueryResult :=
  match try_build q with Ok r => r | Err e => Unknown (qe_certificate e) end.
End Query.

(** * Theorems

    Bitmaps refine a set of (blob, tier, category) marks, and a query is
    answered [Absent] exactly when every tracked blob is indexed and fresh. *)


(** * Bitmaps as sets *)

(** The bit of a category, read from the stored word. *)
Definition marked (b : Bitmap) (id : BlobId) (t : Tier) (k : N) : bool :=
  N.testbit (tier_word t (entry_words b id)) k.

Lemma mask_inv k m : category_mask k = Some m -> (k < 64)%N /\ m = N.shiftl 1 k.
Proof. unfold category_mask. destruct (N.ltb_spec k 64); [|done]. by intros [= <-]. Qed.

Lemma testbit_mask k j : N.testbit (N.shiftl 1 k) j = bool_decide (j = k).
Proof.
  rewrite N.shiftl_1_l, N.pow2_bits_eqb. destruct (N.eqb_spec k j); [subst; by rewrite bool_decide_true|].
  by rewrite bool_decide_false by congruence.
Qed.

Lemma land_mask w k : negb (N.land w (N.shiftl 1 k) =? 0)%N = N.testbit w k.
Proof.
  destruct (N.testbit w k) eqn:Hk.
  - apply negb_true_iff, N.eqb_neq. intros Hz.
    assert (N.testbit (N.land w (N.shiftl 1 k)) k = false) as Hb by (rewrite Hz; apply N.bits_0).
    rewrite N.land_spec, Hk, testbit_mask, bool_decide_true in Hb; done.
  - apply negb_false_iff, N.eqb_eq, N.bits_inj. intros j. rewrite N.land_spec, testbit_mask, N.bits_0.
    case_bool_decide; subst; [by rewrite Hk|apply andb_false_r].
Qed.

(** Clearing a bit of a [u64] word. *)
Lemma testbit_clear w k j : (w <= U64_MAX)%N -> (k < 64)%N ->
  N.testbit (N.land w (u64_not (N.shiftl 1 k))) j = N.testbit w j && negb (bool_decide (j = k)).
Proof.
  intros Hw Hk. unfold u64_not. rewrite N.land_spec, N.lxor_spec, testbit_mask.
  change U64_MAX with (N.ones 64) in *.
  destruct (N.lt_ge_cases j 64) as [Hj|Hj]; [by rewrite N.ones_spec_low, xorb_true_r|].
  rewrite N.ones_spec_high, xorb_false_r by lia.
  rewrite (N.bits_above_log2 w j); [done|].
  destruct (decide (w = 0%N)) as [->|Hn]; [cbn; lia|].
  apply N.log2_lt_pow2; [lia|]. eapply N.le_lt_trans; [exact Hw|].
  apply N.lt_le_trans with (2 ^ 64)%N; [by vm_compute|]. by apply N.pow_le_mono_r.
Qed.

Lemma tier_word_update t t' f w :
  tier_word t' (update_word t f w) = if decide (t' = t) then f (tier_word t w) else tier_word t' w.
Proof. by destruct w as [[a b] c], t, t'. Qed.

Lemma tier_word_or t w o : tier_word t (or_words w o) = N.lor (tier_word t w) (tier_word t o).
Proof. by destruct w as [[? ?] ?], o as [[? ?] ?], t. Qed.

Lemma entry_insert b id id' w : entry_words (<[id := w]> b) id' = if decide (id' = id) then w else entry_words b id'.
Proof.
  unfold entry_words. destruct (decide (id' = id)) as [->|Hn]; [by rewrite lookup_insert_eq|].
  by rewrite lookup_insert_ne.
Qed.

(** Words are [u64]. *)
Definition bitmap_wf (b : Bitmap) : Prop := forall id t, (tier_word t (entry_words b id) <= U64_MAX)%N.

Lemma u64_lor a b : (a <= U64_MAX)%N -> (b <= U64_MAX)%N -> (N.lor a b <= U64_MAX)%N.
Proof.
  intros Ha Hb. change U64_MAX with (N.pred (2 ^ 64)) in *. apply N.lt_le_pred.
  destruct (decide (N.lor a b = 0%N)) as [->|Hn]; [by vm_compute|].
  apply N.log2_lt_pow2; [lia|]. rewrite N.log2_lor.
  assert (forall x, (x <= N.pred (2 ^ 64))%N -> (N.log2 x < 64)%N) as Hlog.
  { intros x Hx. destruct (decide (x = 0%N)) as [->|]; [by vm_compute|]. apply N.log2_lt_pow2; lia. }
  apply N.max_lub_lt; by apply Hlog.
Qed.

Lemma u64_land a b : (a <= U64_MAX)%N -> (N.land a b <= U64_MAX)%N.
Proof.
  intros Ha. etrans; [|exact Ha].
  rewrite <- (N.lor_ldiff_and a b) at 2. rewrite N.lor_comm.
  apply N.ldiff_le, N.bits_inj. intros j.
  rewrite N.ldiff_spec, N.lor_spec, N.land_spec, N.ldiff_spec, N.bits_0. by destruct (N.testbit a j), (N.testbit b j).
Qed.

Lemma u64_mask k m : category_mask k = Some m -> (m <= U64_MAX)%N.
Proof.
  intros [Hk ->]%mask_inv. rewrite N.shiftl_1_l. change U64_MAX with (N.pred (2 ^ 64)).
  apply N.lt_le_pred, N.pow_lt_mono_r; lia.
Qed.

Lemma or_no_words w : or_words w no_words = w.
Proof. destruct w as [[a b] c]. cbn. by rewrite !N.lor_0_r. Qed.

(** Merging visits each entry of the other map once and ors it in. *)
Lemma merge_entries (b : Bitmap) (l : list (BlobId * words)) : NoDup l.*1 ->
  (forall id, entry_words (foldl merge_entry b l) id =
     or_words (entry_words b id) (entry_words (list_to_map l : Bitmap) id)) /\
  dom (foldl merge_entry b l) = dom b ∪ dom (list_to_map l : Bitmap).
Proof.
  revert b. induction l as [|[k w] l IH]; intros b Hnd.
  { split; [intros id; by rewrite or_no_words|set_solver]. }
  apply list.NoDup_cons in Hnd as [Hk Hnd]. rewrite list_to_map_cons. cbn [foldl fst snd]. destruct (IH (merge_entry b (k, w)) Hnd) as [IH1 IH2]. split.
  - intros id. rewrite IH1. unfold merge_entry. cbn [fst snd]. rewrite !entry_insert.
    destruct (decide (id = k)) as [->|]; [|done].
    unfold entry_words at 2. rewrite (not_elem_of_list_to_map_1 (M := gmap BlobId) l k) by done. cbn. apply or_no_words.
  - rewrite IH2. unfold merge_entry. cbn [fst snd]. set_solver.
Qed.

Lemma entry_merge b o id : entry_words (bitmap_merge b o) id = or_words (entry_words b id) (entry_words o id).
Proof.
  unfold bitmap_merge. rewrite (proj1 (merge_entries b (map_to_list o) (NoDup_fst_map_to_list o))).
  by rewrite list_to_map_to_list.
Qed.
Lemma dom_merge b o : dom (bitmap_merge b o) = dom b ∪ dom o.
Proof.
  unfold bitmap_merge. rewrite (proj2 (merge_entries b (map_to_list o) (NoDup_fst_map_to_list o))).
  by rewrite list_to_map_to_list.
Qed.

(** The abstract operations: [built b ids s] when [b] was made by some
    sequence of bitmap operations whose effect on the tracked blobs and on the
    set of marks is [ids] and [s]. *)
Notation Mark := (BlobId * Tier * N)%type.
Inductive built : Bitmap -> gset BlobId -> gset Mark -> Prop :=
| built_new : built bitmap_new ∅ ∅
| built_set b ids s id t k b' : built b ids s -> bitmap_set b id t k = Some b' ->
    built b' ({[id]} ∪ ids) ({[(id, t, k)]} ∪ s)
| built_clear b ids s id t k b' : built b ids s -> bitmap_clear b id t k = Some b' ->
    built b' ids (s ∖ {[(id, t, k)]})
| built_remove b ids s id : built b ids s ->
    built (bitmap_remove b id) (ids ∖ {[id]}) (filter (fun m => m.1.1 <> id) s)
| built_merge b ids s o ids' s' : built b ids s -> built o ids' s' ->
    built (bitmap_merge b o) (ids ∪ ids') (s ∪ s').

Record represents (b : Bitmap) (ids : gset BlobId) (s : gset Mark) : Prop := {
  rep_wf : bitmap_wf b;
  rep_dom : dom b = ids;
  rep_marks : forall id t k, marked b id t k = bool_decide ((id, t, k) ∈ s) }.

Lemma rep_set b ids s id t k b' : represents b ids s -> bitmap_set b id t k = Some b' ->
  represents b' ({[id]} ∪ ids) ({[(id, t, k)]} ∪ s).
Proof.
  intros [Hw <- Hm] Hset. unfold bitmap_set in Hset. apply bind_Some in Hset as (m & Hk & [= <-]).
  pose proof (u64_mask _ _ Hk) as Hu. apply mask_inv in Hk as [Hk ->]. split.
  - intros i t'. rewrite entry_insert. destruct (decide (i = id)); [|apply Hw]. rewrite tier_word_update.
    destruct (decide (t' = t)); [|apply Hw]. by apply u64_lor.
  - set_solver.
  - intros i t' j. unfold marked. rewrite entry_insert.
    destruct (decide (i = id)) as [->|Hi]; [rewrite tier_word_update; destruct (decide (t' = t)) as [->|Ht]|].
    + rewrite N.lor_spec, testbit_mask. fold (marked b id t j). rewrite Hm, <- bool_decide_or.
      apply bool_decide_ext. set_solver.
    + fold (marked b id t' j). rewrite Hm. apply bool_decide_ext. set_solver.
    + fold (marked b i t' j). rewrite Hm. apply bool_decide_ext. set_solver.
Qed.

Lemma rep_clear b ids s id t k b' : represents b ids s -> bitmap_clear b id t k = Some b' ->
  represents b' ids (s ∖ {[(id, t, k)]}).
Proof.
  intros [Hw <- Hm] Hc. unfold bitmap_clear in Hc. apply bind_Some in Hc as (m & Hk & [= <-]).
  apply mask_inv in Hk as [Hk ->]. destruct (b !! id) as [w|] eqn:Hb.
  - assert (entry_words b id = w) as He by (unfold entry_words; by rewrite Hb). split.
    + intros i t'. rewrite entry_insert. destruct (decide (i = id)) as [->|]; [|apply Hw].
      rewrite tier_word_update, <- He. destruct (decide (t' = t)); [|apply Hw]. by apply u64_land.
    + rewrite dom_insert_L. apply elem_of_dom_2 in Hb. set_solver.
    + intros i t' j. unfold marked. rewrite entry_insert.
      destruct (decide (i = id)) as [->|Hi]; [rewrite tier_word_update, <- He; destruct (decide (t' = t)) as [->|Ht]|].
      * rewrite testbit_clear by (done || apply Hw). fold (marked b id t j).
        rewrite Hm, <- bool_decide_not, <- bool_decide_and. apply bool_decide_ext. set_solver.
      * fold (marked b id t' j). rewrite Hm. apply bool_decide_ext. set_solver.
      * fold (marked b i t' j). rewrite Hm. apply bool_decide_ext. set_solver.
  - split; [done..|]. intros i t' j. rewrite Hm. apply bool_decide_ext.
    rewrite elem_of_difference, elem_of_singleton. split; [|tauto]. intros Hin. split; [done|]. intros [= -> -> ->].
    specialize (Hm id t k). rewrite bool_decide_true in Hm by done. unfold marked, entry_words in Hm.
    rewrite Hb in Hm. cbn in Hm. by destruct t; rewrite N.bits_0 in Hm.
Qed.

Lemma entry_delete b id i : entry_words (delete id b) i = if decide (i = id) then no_words else entry_words b i.
Proof.
  unfold entry_words. destruct (decide (i = id)) as [->|]; [by rewrite lookup_delete_eq|by rewrite lookup_delete_ne].
Qed.

Lemma built_represents b ids s : built b ids s -> represents b ids s.
Proof.
  induction 1 as [|b ids s id t k b' _ IH Hs|b ids s id t k b' _ IH Hc|b ids s id _ [Hw <- Hm]
                 |b ids s o ids' s' _ [Hw <- Hm] _ [Hw' <- Hm']].
  - split; [intros id []; by vm_compute|apply dom_empty_L|].
    intros id t k. rewrite bool_decide_false by set_solver. unfold marked, entry_words, bitmap_new.
    rewrite lookup_empty. by destruct t; apply N.bits_0.
  - by eapply rep_set.
  - by eapply rep_clear.
  - unfold bitmap_remove. split.
    + intros i t. rewrite entry_delete. destruct (decide (i = id)); [by destruct t; vm_compute|apply Hw].
    + set_solver.
    + intros i t k. unfold marked. rewrite entry_delete. destruct (decide (i = id)) as [->|Hi].
      * rewrite bool_decide_false by set_solver. by destruct t; apply N.bits_0.
      * fold (marked b i t k). rewrite Hm. apply bool_decide_ext. rewrite elem_of_filter. cbn. tauto.
  - split.
    + intros i t. rewrite entry_merge, tier_word_or. by apply u64_lor.
    + apply dom_merge.
    + intros i t k. unfold marked. rewrite entry_merge, tier_word_or, N.lor_spec.
      fold (marked b i t k) (marked o i t k). rewrite Hm, Hm', <- bool_decide_or. apply bool_decide_ext. set_solver.
Qed.

Lemma word_indexed_marked b id t w : b !! id = Some w -> word_indexed t w = marked b id t CATEGORY_INDEXED.
Proof. intros Hb. unfold word_indexed, marked, entry_words. rewrite Hb. apply land_mask. Qed.

Lemma filter_fmap_length {A B} (f : A -> B) (p : B -> bool) (l : list A) :
  length (List.filter p (f <$> l)) = length (List.filter (fun x => p (f x)) l).
Proof. induction l as [|x l IH]; [done|]. rewrite fmap_cons. cbn. destruct (p (f x)); cbn; by rewrite IH. Qed.

(** Counting marked words counts the tracked blobs that carry the mark. *)
Lemma indexed_count_size b t : indexed_count b t =
  N.of_nat (size (filter (fun id => marked b id t CATEGORY_INDEXED = true) (dom b))).
Proof.
  unfold indexed_count. f_equal. rewrite filter_fmap_length.
  set (l := List.filter (fun x : BlobId * words => word_indexed t x.2) (map_to_list b)).
  assert (NoDup l.*1) as Hnd.
  { subst l. pose proof (NoDup_fst_map_to_list b) as Hb. revert Hb.
    induction (map_to_list b) as [|[k w] m IH]; cbn; [done|]. rewrite list.NoDup_cons. intros [Hk Hm].
    specialize (IH Hm). destruct (word_indexed t w); cbn; [|done]. apply list.NoDup_cons. split; [|done].
    intros Hin. apply Hk. apply list_elem_of_fmap in Hin as (y & -> & Hy).
    apply list_elem_of_In, filter_In in Hy as [Hy _]. apply list_elem_of_fmap. exists y. split; [done|]. by apply list_elem_of_In. }
  rewrite <- (length_fmap fst l), <- (size_list_to_set (C := gset BlobId)) by done. f_equal.
  apply set_eq. intros id. rewrite elem_of_list_to_set, elem_of_filter, elem_of_dom, list_elem_of_fmap. split.
  - intros ([k w] & -> & Hin). apply list_elem_of_In, filter_In in Hin as [Hin Hw].
    apply list_elem_of_In, elem_of_map_to_list in Hin. cbn in *. erewrite <- word_indexed_marked by done. eauto.
  - intros [Hm [w Hw]]. exists (id, w). split; [done|]. apply list_elem_of_In, filter_In.
    split; [by apply list_elem_of_In, elem_of_map_to_list|]. cbn. by erewrite word_indexed_marked.
Qed.

(** C40: A bitmap is a set of marks.  However it was built by setting, clearing,
    removing and merging, reading a category returns membership of its mark,
    setting and clearing succeed exactly on categories 0 to 63, the tracked
    blobs are those set or merged in and not removed since, and the counts are
    the sizes of those sets. *)
Theorem bitmap_refines_marks (b : Bitmap) (ids : gset BlobId) (s : gset (BlobId * Tier * N)) :
  built b ids s ->
  (forall id t k, bitmap_get b id t k = if (k <? 64)%N then Some (bool_decide ((id, t, k) ∈ s)) else None) /\
  (forall id t k, (is_Some (bitmap_set b id t k) <-> (k < 64)%N) /\
                  (is_Some (bitmap_clear b id t k) <-> (k < 64)%N)) /\
  (forall id, id ∈ blob_ids b <-> id ∈ ids) /\
  total_blobs b = N.of_nat (size ids) /\
  (forall t, indexed_count b t = N.of_nat (size (filter (fun id => (id, t, CATEGORY_INDEXED) ∈ s) ids))) /\
  (forall t, (indexed_count b t <= total_blobs b)%N).
Proof.
  intros [Hw Hd Hm]%built_represents.
  assert (forall t, indexed_count b t = N.of_nat (size (filter (fun id => (id, t, CATEGORY_INDEXED) ∈ s) ids))) as Hc.
  { intros t. rewrite indexed_count_size, Hd. f_equal. f_equal. apply set_eq. intros id.
    rewrite !elem_of_filter, Hm, bool_decide_eq_true. done. }
  split_and!.
  - intros id t k. unfold bitmap_get, category_mask. destruct (N.ltb_spec k 64) as [Hk|]; [|done].
    rewrite <- Hm. unfold marked, entry_words. cbn [mbind option_bind]. f_equal.
    destruct (b !! id) as [w|]; [apply land_mask|]. by destruct t; rewrite N.bits_0.
  - intros id t k. unfold bitmap_set, bitmap_clear, category_mask.
    destruct (N.ltb_spec k 64) as [Hk|Hk]; cbn; split; split; (done || by eexists) || (intros []; done) || lia.
  - intros id. subst ids. unfold blob_ids. rewrite elem_of_dom, list_elem_of_fmap. split.
    + intros ([k w] & -> & Hin). apply elem_of_map_to_list in Hin. by eexists.
    + intros [w Hid]. exists (id, w). split; [done|]. by apply elem_of_map_to_list.
  - unfold total_blobs. subst ids. by rewrite size_dom.
  - exact Hc.
  - intros t. rewrite Hc. unfold total_blobs. rewrite <- size_dom, Hd.
    apply N2Z.inj_le. rewrite !nat_N_Z. apply inj_le, subseteq_size. set_solver.
Qed.

(** * Answers *)

Section Answers.
Context `{Platform} (provider : LiveBytesProvider) (now : N).

(** A blob a query may rely on, and the gap any other blob leaves. *)
Definition trusted (i : CoverageIndex) (t : Tier) (id : BlobId) : bool :=
  is_blob_indexed i id t && blob_is_fresh provider i id.
Definition gap_of (i : CoverageIndex) (t : Tier) (id : BlobId) : option Gap :=
  if trusted i t id then None
  else Some (mkGap id t (if is_blob_indexed i id t then Stale else NotIndexed)).
Definition count_of (p : BlobId -> bool) (l : list BlobId) : N := N.of_nat (length (List.filter p l)).

Lemma count_cons p x l : count_of p (x :: l) = ((if p x then 1 else 0) + count_of p l)%N.
Proof. unfold count_of. cbn. destruct (p x); cbn [length]; lia. Qed.

Lemma scan_loop i t l total fresh indexed c :
  foldl (scan_step provider i t) (total, fresh, indexed, c) l =
  ((total + N.of_nat (length l))%N, (fresh + count_of (trusted i t) l)%N,
   (indexed + count_of (fun id => is_blob_indexed i id t) l)%N,
   mkCoverage (tier_a_pct c) (tier_b_pct c) (tier_c_pct c) (freshness_verified c)
     (gaps c ++ omap (gap_of i t) l) (generated_at c)).
Proof.
  revert total fresh indexed c. induction l as [|id l IH]; intros total fresh indexed c.
  { cbn. rewrite !N.add_0_r, app_nil_r. by destruct c. }
  cbn [foldl]. unfold scan_step at 2, scan_blob_coverage. rewrite !count_cons.
  cbn [omap list_omap]. unfold gap_of at 1.
  replace (trusted i t id) with (is_blob_indexed i id t && blob_is_fresh provider i id) by done.
  destruct (is_blob_indexed i id t); cbn [negb andb]; [destruct (blob_is_fresh provider i id)|];
    rewrite IH; cbn [length gaps tier_a_pct tier_b_pct tier_c_pct freshness_verified generated_at push_gap];
    rewrite <- ?app_assoc; cbn [app andb]; apply (f_equal4 (fun a b c d => (a, b, c, d))); done || lia.
Qed.

Lemma count_all p q l : (forall x, p x = true -> q x = true) ->
  (count_of p l =? count_of q l)%N = true <-> forall x, x ∈ l -> q x = true -> p x = true.
Proof.
  intros Hpq. rewrite N.eqb_eq. 
  assert (forall l, (count_of p l <= count_of q l)%N) as Hle.
  { intros k. induction k as [|x k IH]; [done|]. rewrite !count_cons. pose proof (Hpq x). destruct (p x), (q x); naive_solver lia. }
  induction l as [|x l IH]; [split; [intros _ x Hx; by apply elem_of_nil in Hx|done]|].
  rewrite !count_cons. setoid_rewrite elem_of_cons. pose proof (Hpq x) as Hx. specialize (Hle l).
  destruct (p x) eqn:Hp, (q x) eqn:Hq; try (by discriminate (Hx eq_refl)); rewrite ?N.add_cancel_l, ?IH;
    [naive_solver| |naive_solver].
  split; [intros; exfalso; lia|]. intros Hall. specialize (Hall x (or_introl eq_refl) Hq). congruence.
Qed.

Lemma count_pos p l : (0 <? count_of p l)%N = true <-> exists x, x ∈ l /\ p x = true.
Proof.
  rewrite N.ltb_lt. unfold count_of. rewrite <- (N.neq_0_lt_0 _). split.
  - intros Hn. destruct (List.filter p l) as [|x k] eqn:Hf; [done|]. exists x.
    rewrite list_elem_of_In. apply filter_In. rewrite Hf. by left.
  - intros (x & Hx & Hp) Hz. assert (x ∈ List.filter p l) as Hin by (by apply list_elem_of_In, filter_In; rewrite <- list_elem_of_In).
    destruct (List.filter p l); [by apply elem_of_nil in Hin|done].
Qed.

(** The certificate of a scan. *)
Definition scanned (i : CoverageIndex) (t : Tier) : CoverageCertificate :=
  let ids := all_blob_ids i in
  let pct t' := if bool_decide (t = t') then
    pct_of (count_of (fun id => is_blob_indexed i id t) ids) (N.of_nat (length ids)) else S754_zero false in
  mkCoverage (pct TierA) (pct TierB) (pct TierC)
    (existsb (fun id => is_blob_indexed i id t) ids &&
     forallb (fun id => negb (is_blob_indexed i id t) || blob_is_fresh provider i id) ids)
    (omap (gap_of i t) ids) now.
Definition covered (i : CoverageIndex) (t : Tier) : bool :=
  negb (bool_decide (all_blob_ids i = [])) && forallb (trusted i t) (all_blob_ids i).

Lemma eq_bool_iff' (a b : bool) : (a = true <-> b = true) -> a = b.
Proof. destruct a, b; intuition. Qed.

Lemma fresh_flag i t l :
  (count_of (trusted i t) l =? count_of (fun id => is_blob_indexed i id t) l)%N &&
  (0 <? count_of (fun id => is_blob_indexed i id t) l)%N =
  existsb (fun id => is_blob_indexed i id t) l &&
  forallb (fun id => negb (is_blob_indexed i id t) || blob_is_fresh provider i id) l.
Proof.
  apply eq_bool_iff'. rewrite !andb_true_iff, count_pos, count_all, existsb_exists, forallb_forall.
  - unfold trusted. setoid_rewrite list_elem_of_In. split.
    + intros [Hall Hex]. split; [exact Hex|]. intros x Hx. specialize (Hall x Hx).
      destruct (is_blob_indexed i x t); [by apply Hall|done].
    + intros [Hex Hall]. split; [|exact Hex]. intros x Hx Hi. specialize (Hall x Hx). by rewrite Hi in *.
  - intros x. unfold trusted. rewrite andb_true_iff. tauto.
Qed.

Lemma full_flag i t l :
  (0 <? N.of_nat (length l))%N && (count_of (fun id => is_blob_indexed i id t) l =? N.of_nat (length l))%N = true <->
  l <> [] /\ forall id, id ∈ l -> is_blob_indexed i id t = true.
Proof.
  rewrite andb_true_iff, N.ltb_lt.
  assert (N.of_nat (length l) = count_of (fun _ => true) l) as Hlen.
  { clear. induction l as [|x l IH]; [done|]. rewrite count_cons, <- IH. cbn [length]. lia. }
  rewrite Hlen, count_all by done. rewrite <- Hlen. split; intros [Hn Hall]; (split; [|naive_solver]).
  - by intros ->.
  - destruct l; [done|]. cbn [length]. lia.
Qed.

Lemma certificate_exact i t :
  (build_certificate provider now i t).1 = scanned i t /\
  freshness_verified (build_certificate provider now i t).1 && (build_certificate provider now i t).2 = covered i t.
Proof.
  unfold build_certificate. rewrite scan_loop, !N.add_0_l. cbn [fst snd freshness_verified]. split.
  - unfold scanned. rewrite fresh_flag. by destruct t.
  - rewrite fresh_flag. apply eq_bool_iff'. unfold covered.
    rewrite andb_true_iff, full_flag, !andb_true_iff, negb_true_iff, bool_decide_eq_false, existsb_exists, !forallb_forall.
    unfold trusted. setoid_rewrite <- list_elem_of_In. setoid_rewrite andb_true_iff. setoid_rewrite orb_true_iff.
    setoid_rewrite negb_true_iff. split.
    + intros [[_ Hf] [Hn Hi]]. split; [done|]. intros x Hx. specialize (Hf x Hx). rewrite (Hi x Hx) in *. naive_solver.
    + intros [Hn Hall]. split; [split|split; [done|naive_solver]].
      * destruct (all_blob_ids i) as [|x l]; [done|]. exists x. split; [by left|]. apply Hall. by left.
      * intros x Hx. right. by apply Hall.
Qed.

(** Any history of writes to the in-memory index. *)
Inductive MockWrite :=
| WCoverage (id : BlobId) (b : Bitmap) | WFreshness (id : BlobId) (h : ContentHash) | WPath (id : BlobId) (p : string).
Definition mock_write (m : MockCoverageIndex) (w : MockWrite) : MockCoverageIndex :=
  match w with
  | WCoverage id b => write_coverage m id b
  | WFreshness id h => write_freshness m id h
  | WPath id p => write_blob_path m id p
  end.
Definition written (l : list MockWrite) : MockCoverageIndex := foldl mock_write mock_new l.

(** The visiting order lists each covered blob once. *)
Lemma written_order l :
  NoDup (mk_order (written l)) /\
  forall id, id ∈ mk_order (written l) <-> is_Some (mk_coverage (written l) !! id).
Proof.
  induction l as [|w l IH] using rev_ind.
  { split; [constructor|]. intros id. cbn. rewrite lookup_empty, elem_of_nil. split; [done|by intros []]. }
  unfold written in *. rewrite foldl_snoc. destruct IH as [Hnd Hin]. destruct w as [id b|id h|id p]; [|done..].
  cbn. case_bool_decide as Hc; split; try done.
  - intros i. rewrite Hin. destruct (decide (i = id)) as [->|]; [rewrite lookup_insert_eq; naive_solver|].
    by rewrite lookup_insert_ne.
  - apply list.NoDup_app. split_and!; [done| |apply NoDup_singleton]. intros x Hx ->%list_elem_of_singleton. by apply Hc, Hin.
  - intros i. rewrite elem_of_app, list_elem_of_singleton, Hin. destruct (decide (i = id)) as [->|].
    + rewrite lookup_insert_eq. naive_solver.
    + rewrite lookup_insert_ne by done. naive_solver.
Qed.

Lemma trusted_written l t id b : mk_coverage (written l) !! id = Some b ->
  trusted (mock_index (written l)) t id = true <->
  bitmap_get b id t CATEGORY_INDEXED = Some true /\
  exists live, provider (default "" (mk_paths (written l) !! id)) = Ok live /\
    mk_hashes (written l) !! id = Some (sha256 live).
Proof.
  intros Hb. unfold trusted, is_blob_indexed, blob_is_fresh, is_indexed. cbn [read_coverage read_freshness blob_path mock_index].
  rewrite Hb, andb_true_iff. apply Morphisms_Prop.and_iff_morphism.
  - destruct (bitmap_get b id t CATEGORY_INDEXED) as [[]|]; cbn; naive_solver.
  - destruct (mk_hashes (written l) !! id) as [h|]; [|naive_solver].
    destruct (provider _) as [live|]; [|naive_solver]. cbn. rewrite bool_decide_eq_true.
    unfold compute_hash. naive_solver.
Qed.

(** C39: A query is answered [Absent] exactly at full fresh coverage.  Over any
    index the answer and its certificate are determined: an answer with
    evidence is [Present], an empty evidence reference is refused (and reads
    as [Unknown]), and without evidence the answer is [Absent] when the tier is
    covered and [Unknown] otherwise; the certificate carries the time, the
    exact percentage of the queried tier and one gap per untrusted blob, in
    visiting order.  Over an index with any history of writes, the tier is
    covered exactly when something is tracked and every tracked blob has its
    indexed bit and live bytes with the stored hash; and [Absent] has no gaps. *)
Theorem query_answers_exact (i : CoverageIndex) (t : Tier) (r : string) (l : list MockWrite) :
  try_build provider now (builder_new i t) =
    Ok (if covered i t then Absent (scanned i t) else Unknown (scanned i t)) /\
  try_build provider now (not_found (found (builder_new i t) r)) = try_build provider now (builder_new i t) /\
  try_build provider now (found (builder_new i t) r) =
    (if bool_decide (r = "") then Err (mkBuildError MissingEvidenceRef (scanned i t))
     else Ok (Present r (scanned i t))) /\
  build provider now (found (builder_new i t) "") = Unknown (scanned i t) /\
  (covered i t = true -> gaps (scanned i t) = [] /\ freshness_verified (scanned i t) = true) /\
  (covered (mock_index (written l)) t = true <->
   mk_coverage (written l) <> ∅ /\
   forall id b, mk_coverage (written l) !! id = Some b ->
     bitmap_get b id t CATEGORY_INDEXED = Some true /\
     exists live, provider (default "" (mk_paths (written l) !! id)) = Ok live /\
       mk_hashes (written l) !! id = Some (sha256 live)).
Proof.
  destruct (certificate_exact i t) as [Hc Hv]. split_and!.
  - unfold try_build. cbn [qb_index qb_tier qb_found builder_new].
    destruct (build_certificate provider now i t) as [c full]. cbn [fst snd] in *. subst c. rewrite Hv.
    by destruct (covered i t).
  - done.
  - unfold try_build. cbn [qb_index qb_tier qb_found qb_evidence builder_new found].
    destruct (build_certificate provider now i t) as [c full]. cbn [fst snd] in *. subst c.
    destruct r as [|a r]; [by rewrite bool_decide_true|by rewrite bool_decide_false].
  - unfold build, try_build. cbn [qb_index qb_tier qb_found qb_evidence builder_new found String.length Nat.eqb].
    destruct (build_certificate provider now i t) as [c full]. cbn [fst snd] in *. by subst c.
  - intros Hcov. assert (freshness_verified (scanned i t) = true) as Hf.
    { rewrite <- Hc. rewrite <- Hv in Hcov. by apply andb_true_iff in Hcov as [? _]. }
    split; [|exact Hf]. unfold covered in Hcov. apply andb_true_iff in Hcov as [_ Hall].
    unfold scanned. cbn [gaps]. clear Hc Hv Hf. induction (all_blob_ids i) as [|x k IH]; [done|]. cbn in Hall |- *.
    apply andb_true_iff in Hall as [Hx Hk]. unfold gap_of at 1. rewrite Hx. by apply IH.
  - unfold covered. cbn [all_blob_ids mock_index]. destruct (written_order l) as [_ Hord].
    rewrite andb_true_iff, negb_true_iff, bool_decide_eq_false, forallb_forall. apply Morphisms_Prop.and_iff_morphism.
    + rewrite not_iff_compat; [reflexivity|]. split.
      * intros He. apply map_empty. intros id. apply eq_None_not_Some. rewrite <- Hord, He. apply not_elem_of_nil.
      * intros He. apply elem_of_nil_inv. intros id. rewrite Hord, He, lookup_empty. intros [? ?]. done.
    + setoid_rewrite <- list_elem_of_In. setoid_rewrite Hord. split.
      * intros Hall id b Hb. apply (trusted_written l t id b Hb). apply Hall. by eexists.
      * intros Hall id [b Hb]. apply (trusted_written l t id b Hb). by apply Hall.
Qed.
End Answers.

(** Two blobs, one indexed and one marked with a reserved category, then
    unmarked. *)
Definition demo_marks : Bitmap := {[ "a" := (1, 0, 0)%N; "b" := (0, 0, 0)%N ]}.

Lemma demo_built : built demo_marks ({["b"]} ∪ ({["a"]} ∪ ∅))
  (({[("b", TierB, 3%N)]} ∪ ({[("a", TierA, 0%N)]} ∪ ∅)) ∖ {[("b", TierB, 3%N)]}).
Proof.
  eapply built_clear; [eapply built_set; [eapply built_set; [apply built_new|]|]|]; vm_compute; reflexivity.
Qed.

Lemma bitmap_refines_marks_witness :
  bitmap_get demo_marks "a" TierA 0 = Some true /\ total_blobs demo_marks = 2%N.
Proof.
  destruct (bitmap_refines_marks _ _ _ demo_built) as (Hg & _ & _ & Ht & _).
  split; [rewrite (Hg "a" TierA 0%N); vm_compute; reflexivity|rewrite Ht; vm_compute; reflexivity].
Defined.
