(* ===== verification/GcTime.v ===== *)
(** Timestamps of the garbage collector ([zero-store/src/gc.rs]): the civil
    calendar, [parse_rfc3339] and [format_system_time].

    A [SystemTime] is a count of nanoseconds since the Unix epoch.  [i64]
    division and remainder are the truncating [Z.quot] and [Z.rem].  Slicing a
    string off a character boundary panics; [parse_rfc3339] returns that as
    [Err Panicked], and [Ok None] is the source's [None]. *)

From S2P Require Import Prelude.
From S2P Require ZeroRef.
From stdpp Require Import pretty.
#[local] Open Scope Z_scope.

(** * Time *)

Notation SystemTime := Z (only parsing).
Definition NANOS : Z := 1000000000.
Definition I64_MAX : Z := 2 ^ 63 - 1.

(** [SystemTime::checked_add(Duration::from_secs(n))]: seconds are an [i64]. *)
Definition checked_add_secs (t : SystemTime) (n : N) : option SystemTime :=
  if t / NANOS + Z.of_N n <=? I64_MAX then Some (t + Z.of_N n * NANOS) else None.

(** [duration_since(earlier).unwrap_or_default().as_secs()]. *)
Definition secs_since (t earlier : SystemTime) : N := Z.to_N (Z.max 0 (t - earlier) / NANOS).

(** * The civil calendar *)

Definition days_in_month (year : Z) (month : N) : option N :=
  match month with
  | 1 | 3 | 5 | 7 | 8 | 10 | 12 => Some 31
  | 4 | 6 | 9 | 11 => Some 30
  | 2 => Some (if (Z.rem year 4 =? 0)%Z && negb (Z.rem year 100 =? 0)%Z || (Z.rem year 400 =? 0)%Z then 29 else 28)
  | _ => None
  end%N.

Definition civil_to_days (year : Z) (month day : N) : Z :=
  let '(y, m) := if Z.of_N month <=? 2 then (year - 1, Z.of_N month + 12) else (year, Z.of_N month) in
  let era := Z.quot (if 0 <=? y then y else y - 399) 400 in
  let yoe := y - era * 400 in
  let doy := Z.quot (153 * (m + (if 2 <? m then -3 else 9)) + 2) 5 + Z.of_N day - 1 in
  era * 146097 + yoe * 365 + Z.quot yoe 4 - Z.quot yoe 100 + doy - 719468.

Definition civil_from_days (days : Z) : Z * N * N :=
  let z := days + 719468 in
  let era := Z.quot (if 0 <=? z then z else z - 146096) 146097 in
  let doe := z - era * 146097 in
  let yoe := Z.quot (doe - Z.quot doe 1460 + Z.quot doe 36524 - Z.quot doe 146096) 365 in
  let year := yoe + era * 400 in
  let doy := doe - (365 * yoe + Z.quot yoe 4 - Z.quot yoe 100) in
  let mp := Z.quot (5 * doy + 2) 153 in
  let day := doy - Z.quot (153 * mp + 2) 5 + 1 in
  let month := mp + (if mp <? 10 then 3 else -9) in
  (year + (if month <=? 2 then 1 else 0), Z.to_N month, Z.to_N day).

(** * Parsing *)

Inductive Panicked := CharBoundary.

(** [str::parse]: an optional sign (a minus only for signed types), then at
    least one digit.  The slices here are at most nine bytes, far from the
    integer bounds. *)
Definition parse_unsigned (s : bytes) : option N :=
  let digits := match s with c :: rest => if bool_decide (c = "+"%char) then rest else s | [] => s end in
  ZeroRef.parse_digits (bytes_string digits).
Definition parse_signed (s : bytes) : option Z :=
  match s with
  | c :: rest =>
      if bool_decide (c = "-"%char) then (fun n => - Z.of_N n) <$> ZeroRef.parse_digits (bytes_string rest)
      else Z.of_N <$> parse_unsigned s
  | [] => None
  end.

Definition byte_at (s : bytes) (i : nat) : byte := default byte0 (s !! i).
Definition cut (s : bytes) (i j : nat) : bytes := take (j - i) (drop i s).

(** [str::is_char_boundary] inside a string: not a UTF-8 continuation byte. *)
Definition is_char_boundary (s : bytes) (i : nat) : bool :=
  let b := N_of_ascii (byte_at s i) in ((b <? 128) || (191 <? b))%N.

Fixpoint digit_run (s : bytes) : nat :=
  match s with c :: rest => if ZeroRef.is_ascii_digit c then S (digit_run rest) else 0 | [] => 0 end.

(** The fraction after the seconds: the nanoseconds and the rest. *)
Definition parse_fraction (rest : bytes) : option (Z * bytes) :=
  match rest with
  | c :: frac =>
      if bool_decide (c = "."%char) then
        let n := digit_run frac in
        if (n =? 0)%nat then None
        else
          let take_n := Nat.min n 9 in
          n' ← ZeroRef.parse_digits (bytes_string (take take_n frac));
          Some (Z.of_N n' * 10 ^ Z.of_nat (9 - take_n), drop n frac)
      else Some (0, rest)
  | [] => Some (0, rest)
  end.

Definition parse_offset (rest : bytes) : option Z :=
  if bool_decide (rest = ["Z"%char]) || bool_decide (rest = ["z"%char]) then Some 0
  else
    let sign := byte_at rest 0 in
    if (length rest =? 6)%nat && (bool_decide (sign = "+"%char) || bool_decide (sign = "-"%char))
       && bool_decide (byte_at rest 3 = ":"%char) then
      oh ← parse_signed (cut rest 1 3);
      om ← parse_signed (cut rest 4 6);
      if (23 <? oh) || (59 <? om) then None
      else Some ((if bool_decide (sign = "+"%char) then 1 else -1) * (oh * 3600 + om * 60))
    else None.

(** The calendar fields, before the fraction and the offset. *)
Definition parse_fields (s : bytes) : option Z :=
  year ← parse_signed (cut s 0 4);
  month ← parse_unsigned (cut s 5 7);
  day ← parse_unsigned (cut s 8 10);
  hour ← parse_unsigned (cut s 11 13);
  minute ← parse_unsigned (cut s 14 16);
  second ← parse_unsigned (cut s 17 19);
  if negb ((1 <=? month) && (month <=? 12))%N || (23 <? hour)%N || (59 <? minute)%N || (60 <? second)%N || (day =? 0)%N
  then None
  else
    d ← days_in_month year month;
    if (d <? day)%N then None
    else Some (civil_to_days year month day * 86400 + Z.of_N hour * 3600 + Z.of_N minute * 60 + Z.of_N second).

(** Whether the fields before the seconds parse, the ones read before the
    slice that can panic. *)
Definition minute_parses (s : bytes) : bool :=
  bool_decide (is_Some (parse_signed (cut s 0 4))) && bool_decide (is_Some (parse_unsigned (cut s 5 7)))
  && bool_decide (is_Some (parse_unsigned (cut s 8 10))) && bool_decide (is_Some (parse_unsigned (cut s 11 13)))
  && bool_decide (is_Some (parse_unsigned (cut s 14 16))).

Definition parse_rfc3339 (text : string) : result Panicked (option SystemTime) :=
  let s := string_bytes text in
  if (length s <? 20)%nat || negb (bool_decide (byte_at s 4 = "-"%char)) || negb (bool_decide (byte_at s 7 = "-"%char))
     || negb (bool_decide (byte_at s 10 = "T"%char)) || negb (bool_decide (byte_at s 13 = ":"%char))
     || negb (bool_decide (byte_at s 16 = ":"%char))
  then Ok None
  else if minute_parses s && negb (is_char_boundary s 19) then Err CharBoundary
  else
    Ok (local ← parse_fields s;
        '(nanos, rest) ← parse_fraction (drop 19 s);
        offset ← parse_offset rest;
        let utc := local - offset in
        if 0 <=? utc then Some (utc * NANOS + nanos) else None).

(** * Printing *)

(** [{n:0w}]. *)
Definition pad (w : nat) (n : N) : string :=
  let digits := pretty n in
  bytes_string (replicate (w - String.length digits) "0"%char) +:+ digits.

(** The fields of a day and of a second of the day, as text.  The years
    [civil_from_days] yields for the days since the epoch are not negative. *)
Definition format_seconds (seconds : N) : string :=
  let '(year, month, day) := civil_from_days (Z.of_N (seconds / 86400)) in
  let rem := (seconds mod 86400)%N in
  pad 4 (Z.to_N year) +:+ "-" +:+ pad 2 month +:+ "-" +:+ pad 2 day +:+ "T" +:+ pad 2 (rem / 3600) +:+ ":"
    +:+ pad 2 (rem mod 3600 / 60) +:+ ":" +:+ pad 2 (rem mod 60) +:+ "Z".

(** A time before the epoch prints as the epoch. *)
Definition format_system_time (t : SystemTime) : string := format_seconds (Z.to_N (Z.max 0 t / NANOS)).

Example epoch_text : format_system_time 0 = "1970-01-01T00:00:00Z"%string.
Proof. vm_compute. reflexivity. Qed.
Example leap_second_text : parse_rfc3339 "2016-12-31T23:59:60.25+00:00" = Ok (Some 1483228800250000000).
Proof. vm_compute. reflexivity. Qed.

(** * The calendar is a bijection

    Within an era of 400 years both directions depend only on the day of the
    era: 146097 cases, checked one by one. *)

Definition day_of_era_ok (doe : Z) : bool :=
  let yoe := Z.quot (doe - Z.quot doe 1460 + Z.quot doe 36524 - Z.quot doe 146096) 365 in
  let doy := doe - (365 * yoe + Z.quot yoe 4 - Z.quot yoe 100) in
  let mp := Z.quot (5 * doy + 2) 153 in
  let day := doy - Z.quot (153 * mp + 2) 5 + 1 in
  let month := mp + (if mp <? 10 then 3 else -9) in
  (0 <=? yoe) && (yoe <? 400) && (0 <=? mp) && (mp <? 12) && (1 <=? day) &&
  ((yoe + (if month <=? 2 then 1 else 0) <=? 399) || (146036 <? doe)) &&
  match days_in_month (yoe + (if month <=? 2 then 1 else 0)) (Z.to_N month) with
  | Some d => (Z.to_N day <=? d)%N
  | None => false
  end.

Fixpoint all_below (p : Z -> bool) (n : nat) (z : Z) : bool :=
  match n with O => true | S n' => p z && all_below p n' (z + 1) end.

Lemma all_below_spec p n : forall z, all_below p n z = true -> forall x, z <= x < z + Z.of_nat n -> p x = true.
Proof.
  induction n as [|n IH]; intros z Ha x Hx; [lia|]. cbn [all_below] in Ha. apply andb_prop in Ha as [Hp Ha].
  destruct (decide (x = z)) as [->|]; [done|]. apply (IH (z + 1)); [done|lia].
Qed.

Lemma days_of_era : all_below day_of_era_ok (Z.to_nat 146097) 0 = true.
Proof. vm_compute. reflexivity. Qed.

Lemma days_in_month_era year month era :
  0 <= year -> 0 <= era -> days_in_month (year + era * 400) month = days_in_month year month.
Proof.
  intros Hy He. unfold days_in_month.
  assert (forall k q, k * q = 400 -> 0 < k -> Z.rem (year + era * 400) k = Z.rem year k) as Hrem.
  { intros k q Hk Hp. rewrite !Z.rem_mod_nonneg by lia. rewrite <- Hk. replace (era * (k * q)) with (era * q * k) by ring.
    apply Z_mod_plus_full. }
  by rewrite (Hrem 4 100), (Hrem 100 4), (Hrem 400 1) by lia.
Qed.

Lemma civil_roundtrip days : 0 <= days <= 2932896 ->
  let '(year, month, day) := civil_from_days days in
  civil_to_days year month day = days /\ 0 <= year <= 9999 /\ (1 <= month <= 12)%N /\ (1 <= day)%N /\
  exists d, days_in_month year month = Some d /\ (day <= d)%N.
Proof.
  intros Hd. unfold civil_from_days. rewrite (proj2 (Z.leb_le 0 (days + 719468))) by lia.
  remember (days + 719468) as z eqn:Hz. remember (Z.quot z 146097) as era eqn:Hera.
  remember (z - era * 146097) as doe eqn:Hdoe.
  assert (He : 0 <= era /\ 0 <= doe < 146097).
  { pose proof (Z.quot_rem' z 146097). pose proof (Z.rem_bound_pos z 146097 ltac:(lia) ltac:(lia)).
    pose proof (Z.quot_pos z 146097 ltac:(lia) ltac:(lia)). lia. }
  assert (Hok : day_of_era_ok doe = true).
  { apply (all_below_spec _ _ _ days_of_era). rewrite Z2Nat.id; lia. }
  unfold day_of_era_ok in Hok.
  set (yoe := Z.quot (doe - Z.quot doe 1460 + Z.quot doe 36524 - Z.quot doe 146096) 365) in *.
  set (doy := doe - (365 * yoe + Z.quot yoe 4 - Z.quot yoe 100)) in *.
  set (mp := Z.quot (5 * doy + 2) 153) in *.
  set (day := doy - Z.quot (153 * mp + 2) 5 + 1) in *.
  set (month := mp + (if mp <? 10 then 3 else -9)) in *.
  destruct (days_in_month (yoe + (if month <=? 2 then 1 else 0)) (Z.to_N month)) as [d|] eqn:Hdim;
    [|by rewrite andb_false_r in Hok].
  rewrite !andb_true_iff, orb_true_iff, N.leb_le, !Z.leb_le, !Z.ltb_lt in Hok.
  destruct Hok as [[[[[[Hy1 Hy2] Hm1] Hm2] Hday] Hcap] Hdd].
  assert (Hmonth : month <= 2 /\ 10 <= mp /\ month = mp - 9 \/ 2 < month /\ mp < 10 /\ month = mp + 3).
  { unfold month. destruct (Z.ltb_spec mp 10); lia. }
  assert (Hb : month <= 2 /\ (if month <=? 2 then 1 else 0) = 1 \/ 2 < month /\ (if month <=? 2 then 1 else 0) = 0).
  { destruct (Z.leb_spec month 2); lia. }
  set (b := if month <=? 2 then 1 else 0) in *. clearbody b.
  replace (yoe + era * 400 + b) with (yoe + b + era * 400) by lia. rewrite days_in_month_era by lia.
  split; [|split; [|split; [lia|split; [lia|by exists d]]]].
  - unfold civil_to_days. rewrite !Z2N.id by lia.
    assert (Hquot : forall y, y = yoe + era * 400 -> Z.quot (if 0 <=? y then y else y - 399) 400 = era).
    { intros y ->. rewrite (proj2 (Z.leb_le _ _)) by lia. rewrite Z.quot_div_nonneg by lia.
      rewrite Z.div_add by lia. rewrite Z.div_small by lia. lia. }
    destruct Hmonth as [(Hle & _ & Hm)|(Hgt & _ & Hm)].
    + rewrite (proj2 (Z.leb_le month 2) Hle). rewrite Hquot by lia.
      rewrite (proj2 (Z.ltb_lt 2 (month + 12))) by lia. rewrite Hm at 1.
      replace (mp - 9 + 12 + -3) with mp by lia. unfold day at 1, doy at 1.
      replace (yoe + b + era * 400 - 1 - era * 400) with yoe by lia. lia.
    + rewrite (proj2 (Z.leb_gt month 2) Hgt). rewrite Hquot by lia.
      rewrite (proj2 (Z.ltb_lt 2 month)) by lia. rewrite Hm at 1.
      replace (mp + 3 + -3) with mp by lia. unfold day at 1, doy at 1.
      replace (yoe + b + era * 400 - era * 400) with yoe by lia. lia.
  - clearbody yoe month. lia.
Qed.

(** * Texts round-trip *)

Definition pad2_ok (z : Z) : bool :=
  match string_bytes (pad 2 (Z.to_N z)) with
  | [a; b] => bool_decide (parse_unsigned [a; b] = Some (Z.to_N z))
  | _ => false
  end.
Definition pad4_ok (z : Z) : bool :=
  match string_bytes (pad 4 (Z.to_N z)) with
  | [a; b; c; d] => bool_decide (parse_signed [a; b; c; d] = Some z)
  | _ => false
  end.

Lemma pads : all_below pad2_ok 100 0 = true /\ all_below pad4_ok (Z.to_nat 10000) 0 = true.
Proof. split; vm_compute; reflexivity. Qed.

Lemma pad2_digits n : (n < 100)%N ->
  exists a b, string_bytes (pad 2 n) = [a; b] /\ parse_unsigned [a; b] = Some n.
Proof.
  intros Hn. assert (pad2_ok (Z.of_N n) = true) as Hok by (apply (all_below_spec _ _ _ (proj1 pads)); lia).
  unfold pad2_ok in Hok. rewrite N2Z.id in Hok.
  destruct (string_bytes (pad 2 n)) as [|a [|b [|]]]; try done. exists a, b. split; [done|].
  by apply bool_decide_eq_true in Hok.
Qed.
Lemma pad4_digits y : 0 <= y <= 9999 ->
  exists a b c d, string_bytes (pad 4 (Z.to_N y)) = [a; b; c; d] /\ parse_signed [a; b; c; d] = Some y.
Proof.
  intros Hy. assert (pad4_ok y = true) as Hok.
  { apply (all_below_spec _ _ _ (proj2 pads)). rewrite Z2Nat.id; lia. }
  unfold pad4_ok in Hok. destruct (string_bytes (pad 4 (Z.to_N y))) as [|a [|b [|c [|d [|]]]]]; try done.
  exists a, b, c, d. split; [done|]. by apply bool_decide_eq_true in Hok.
Qed.

Lemma string_bytes_app a b : string_bytes (a +:+ b) = (string_bytes a ++ string_bytes b)%list.
Proof. unfold string_bytes. induction a as [|c a IH]; [done|]. exact (f_equal (cons c) IH). Qed.

(** The last second whose year has four digits. *)
Definition MAX_SECONDS : N := 253402300799.

Lemma seconds_of_day (n : N) : let r := (n mod 86400)%N in
  (r / 3600 < 24)%N /\ (r mod 3600 / 60 < 60)%N /\ (r mod 60 < 60)%N /\
  Z.of_N n = Z.of_N (n / 86400) * 86400 + Z.of_N (r / 3600) * 3600 + Z.of_N (r mod 3600 / 60) * 60 + Z.of_N (r mod 60).
Proof.
  intros r. pose proof (N.mod_lt n 86400 ltac:(lia)) as Hr. fold r in Hr.
  pose proof (N.div_mod n 86400 ltac:(lia)) as Hn. fold r in Hn.
  pose proof (N.div_mod r 3600 ltac:(lia)) as H1. pose proof (N.mod_lt r 3600 ltac:(lia)) as H2.
  pose proof (N.div_mod (r mod 3600) 60 ltac:(lia)) as H3. pose proof (N.mod_lt r 60 ltac:(lia)) as H4.
  assert (Hm : (r mod 3600 mod 60 = r mod 60)%N).
  { rewrite H1 at 2. replace (3600 * (r / 3600) + r mod 3600)%N with (r mod 3600 + r / 3600 * 60 * 60)%N by lia.
    by rewrite N.Div0.mod_add. }
  rewrite Hm in H3. split_and!; [apply N.Div0.div_lt_upper_bound; lia..|done|lia].
Qed.

(** Twenty bytes in the printed layout. *)
Lemma parse_layout year month day h mi sec d :
  0 <= year <= 9999 -> (1 <= month <= 12)%N -> (1 <= day <= d)%N -> days_in_month year month = Some d -> (d <= 31)%N ->
  (h < 24)%N -> (mi < 60)%N -> (sec < 60)%N -> 0 <= civil_to_days year month day ->
  parse_rfc3339 (pad 4 (Z.to_N year) +:+ "-" +:+ pad 2 month +:+ "-" +:+ pad 2 day +:+ "T" +:+ pad 2 h +:+ ":"
    +:+ pad 2 mi +:+ ":" +:+ pad 2 sec +:+ "Z") =
  Ok (Some ((civil_to_days year month day * 86400 + Z.of_N h * 3600 + Z.of_N mi * 60 + Z.of_N sec) * NANOS)).
Proof.
  intros Hy Hm Hd Hdim Hd31 Hh Hmi Hs Hciv.
  destruct (pad4_digits year Hy) as (y1 & y2 & y3 & y4 & HyE & Hyp).
  destruct (pad2_digits month ltac:(lia)) as (m1 & m2 & HmE & Hmp).
  destruct (pad2_digits day ltac:(lia)) as (d1 & d2 & HdE & Hdp).
  destruct (pad2_digits h ltac:(lia)) as (h1 & h2 & HhE & Hhp).
  destruct (pad2_digits mi ltac:(lia)) as (i1 & i2 & HiE & Hip).
  destruct (pad2_digits sec ltac:(lia)) as (s1 & s2 & HsE & Hsp).
  unfold parse_rfc3339. rewrite !string_bytes_app, HyE, HmE, HdE, HhE, HiE, HsE.
  change (string_bytes "-") with ["-"%char]. change (string_bytes "T") with ["T"%char].
  change (string_bytes ":") with [":"%char]. change (string_bytes "Z") with ["Z"%char].
  cbn [app]. set (s := _ :: _).
  assert (Hf : parse_fields s =
    Some (civil_to_days year month day * 86400 + Z.of_N h * 3600 + Z.of_N mi * 60 + Z.of_N sec)).
  { unfold parse_fields. change (cut s 0 4) with [y1; y2; y3; y4]. change (cut s 5 7) with [m1; m2].
    change (cut s 8 10) with [d1; d2]. change (cut s 11 13) with [h1; h2]. change (cut s 14 16) with [i1; i2].
    change (cut s 17 19) with [s1; s2]. rewrite Hyp, Hmp, Hdp, Hhp, Hip, Hsp. cbn [mbind option_bind].
    match goal with |- (if ?c then _ else _) = _ => assert (c = false) as -> end.
    { rewrite !orb_false_iff, negb_false_iff, andb_true_iff, !N.leb_le, !N.ltb_ge, N.eqb_neq. lia. }
    rewrite Hdim. cbn [mbind option_bind]. by rewrite (proj2 (N.ltb_ge _ _)) by lia. }
  change (byte_at s 4) with "-"%char. change (byte_at s 7) with "-"%char. change (byte_at s 10) with "T"%char.
  change (byte_at s 13) with ":"%char. change (byte_at s 16) with ":"%char.
  change (is_char_boundary s 19) with true. change (length s) with 20%nat. change (drop 19 s) with ["Z"%char].
  rewrite !bool_decide_true, andb_false_r by done. cbn -[civil_to_days NANOS parse_fields parse_offset parse_fraction].
  rewrite Hf. cbn [mbind option_bind]. change (parse_fraction ["Z"%char]) with (Some (0, ["Z"%char])).
  cbn [mbind option_bind]. change (parse_offset ["Z"%char]) with (Some 0). cbn [mbind option_bind].
  rewrite Z.sub_0_r, Z.add_0_r. by rewrite (proj2 (Z.leb_le _ _)) by lia.
Qed.

(** Every time from the epoch to the end of the year 9999 prints as a
    timestamp that parses back to the same second. *)
Theorem timestamps_roundtrip (t : SystemTime) : 0 <= t / NANOS <= Z.of_N MAX_SECONDS ->
  parse_rfc3339 (format_system_time t) = Ok (Some (t / NANOS * NANOS)).
Proof.
  intros Ht. unfold format_system_time. rewrite Z.max_r.
  2: { pose proof (Z.mul_div_le t NANOS ltac:(done)). unfold NANOS in *. lia. }
  remember (Z.to_N (t / NANOS)) as n eqn:Hn. assert (Htn : t / NANOS = Z.of_N n) by lia. clear Hn. rewrite Htn in *. clear Htn.
  unfold MAX_SECONDS in *. assert (Hs : (n <= 253402300799)%N) by lia. clear Ht t. unfold format_seconds.
  assert (Hq : 0 <= Z.of_N (n / 86400) <= 2932896).
  { split; [apply N2Z.is_nonneg|]. rewrite N2Z.inj_div. apply Z.lt_succ_r, Z.div_lt_upper_bound; lia. }
  pose proof (civil_roundtrip _ Hq) as Hc.
  destruct (civil_from_days (Z.of_N (n / 86400))) as [[year month] day].
  destruct Hc as (Hciv & Hy & Hm & Hd & d & Hdim & Hdd).
  pose proof (seconds_of_day n) as (Hh & Hmi & Hsec & Hsum). set (r := (n mod 86400)%N) in *.
  assert (Hd31 : (d <= 31)%N) by (unfold days_in_month in Hdim; repeat case_match; simplify_eq; lia).
  rewrite (parse_layout year month day (r / 3600) (r mod 3600 / 60) (r mod 60) d) by (try done; lia).
  rewrite Hciv. do 2 f_equal. rewrite Hsum. lia.
Qed.

Lemma timestamps_roundtrip_witness :
  parse_rfc3339 (format_system_time 1700000000123456789) = Ok (Some 1700000000000000000).
Proof. apply (timestamps_roundtrip 1700000000123456789). vm_compute. split; discriminate. Defined.

(** A year of five digits prints as a text that does not parse. *)
Example year_10000_unparsed : parse_rfc3339 (format_system_time (253402300800 * NANOS)) = Ok None.
Proof. vm_compute. reflexivity. Qed.

(** A two-byte character across the end of the seconds panics instead of
    reading as an invalid timestamp. *)
Example split_character_panics :
  parse_rfc3339 ("2026-01-01T00:00:0" +:+ String (ascii_of_nat 195) (String (ascii_of_nat 169) "Z")) = Err CharBoundary.
Proof. vm_compute. reflexivity. Qed.
