(* ===== verification/GcRefs.v ===== *)
(** The references of a stored object ([zero-store/src/gc.rs],
    [refs_from_verified_bytes]): the digests of every object embedded in a ZBF
    container, directly or through nested containers.

    The error texts are the constructors of [RefsError].  [usize] is 64 bits
    wide, so the conversion of a child length to [usize] never fails. *)

From S2P Require Import Prelude.
From S2P Require Import Canonical.
From S2P Require Import Ordering.
From S2P Require Import DurableStore.
From S2P Require Import Zbf.
#[local] Open Scope N_scope.

Definition GC_MAX_BLOB_HASHES : N := 65536.

Inductive RefsError :=
| NestingExceeded | ObjectExceedsBound | ShorterThanHeader | MissingMagic | UnsupportedSchema | UnknownZbfFlags
| ReservedNonzero | PayloadLengthOverflows | PayloadLengthMismatch | PayloadDigestMismatch | NoChildCount
| ChildCountExceeded | ChildLengthTruncated | ChildShorterThanHeader | ChildTruncated | RefsExceeded | TrailingPayload.

(** [refs], in the order of discovery, and [seen]. *)
Record RefState := mkRefs { found : list string; seen : list string }.

Section Refs.
Context `{Platform}.

Definition lower_hex (b : bytes) : string := Sha256Digest_to_hex b.
Definition content_sha256_hex (b : bytes) : string := lower_hex (sha256 b).

Definition be_u16 (b : bytes) : N := of_be (take 2 b).
Definition be_u32 (b : bytes) : N := of_be (take 4 b).
Definition be_u64 (b : bytes) : N := of_be (take 8 b).

Definition note_ref (hash : string) (st : RefState) : result RefsError RefState :=
  if bset_mem hash (seen st) then Ok st
  else
    reject? GC_MAX_BLOB_HASHES <=? N.of_nat (length (seen st)) with RefsExceeded in
    Ok (mkRefs (found st ++ [hash]) (snd (bset_insert hash (seen st)))).

(** The loop over the children of a container; [rest] is the payload from
    [offset] on. *)
Section Children.
Context (collect : bytes -> RefState -> result RefsError RefState).

Fixpoint collect_children (count : nat) (rest : bytes) (st : RefState) : result RefsError (bytes * RefState) :=
  match count with
  | O => Ok (rest, st)
  | S count' =>
      reject? len rest <? 8 with ChildLengthTruncated in
      let child_len := be_u64 rest in
      let rest := drop 8 rest in
      reject? child_len <? ZBF_HEADER_LEN with ChildShorterThanHeader in
      reject? len rest <? child_len with ChildTruncated in
      let child := take (N.to_nat child_len) rest in
      let rest := drop (N.to_nat child_len) rest in
      let? st := note_ref (content_sha256_hex child) st in
      let? st := collect child st in
      collect_children count' rest st
  end.
End Children.

(** The checks of one object before its children. *)
Definition check_header (b : bytes) (depth : N) : result RefsError () :=
  reject? ZBF_MAX_DEPTH <? depth with NestingExceeded in
  reject? ZBF_MAX_OBJECT_BYTES <? len b with ObjectExceedsBound in
  reject? len b <? ZBF_HEADER_LEN with ShorterThanHeader in
  reject? negb (bool_decide (take 8 b = ZBF_MAGIC)) with MissingMagic in
  reject? negb (be_u16 (drop 8 b) =? ZBF_SCHEMA_MAJOR) || negb (be_u16 (drop 10 b) =? ZBF_SCHEMA_MINOR)
    with UnsupportedSchema in
  reject? negb (N.land (N_of_ascii (default byte0 (b !! 15%nat))) (N.lxor U8_MAX ZBF_CONTAINER_FLAG) =? 0)
    with UnknownZbfFlags in
  reject? existsb (fun x => negb (bool_decide (x = byte0))) (take 8 (drop 184 b)) with ReservedNonzero in
  let? expected_total := ok_or (checked_add_u64 ZBF_HEADER_LEN (be_u64 (drop 16 b))) PayloadLengthOverflows in
  reject? negb (expected_total =? len b) with PayloadLengthMismatch in
  reject? negb (bool_decide (content_sha256_hex (drop 192 b) = lower_hex (take 32 (drop 152 b))))
    with PayloadDigestMismatch in
  Ok ().

Definition zbf_flags (b : bytes) : N := N_of_ascii (default byte0 (b !! 15%nat)).

(** [fuel] bounds the nesting, which [ZBF_MAX_DEPTH] stops at 16. *)
Fixpoint collect_zbf_refs (fuel : nat) (b : bytes) (depth : N) (st : RefState) : result RefsError RefState :=
  match fuel with
  | O => Err NestingExceeded
  | S fuel' =>
      let? _ := check_header b depth in
      if zbf_flags b =? 0 then Ok st
      else
        let payload := drop 192 b in
        reject? len payload <? 4 with NoChildCount in
        let count := be_u32 payload in
        reject? ZBF_MAX_CHILDREN <? count with ChildCountExceeded in
        let? (rest, st) :=
          collect_children (fun c => collect_zbf_refs fuel' c (depth + 1)) (N.to_nat count) (drop 4 payload) st in
        reject? negb (len rest =? 0) with TrailingPayload in
        Ok st
  end.

Definition refs_fuel : nat := 18.
Definition refs_from_verified_bytes (b : bytes) : result RefsError (list string) :=
  if (len b <? 8) || negb (bool_decide (take 8 b = ZBF_MAGIC)) then Ok []
  else
    let? st := collect_zbf_refs refs_fuel b 0 (mkRefs [] []) in
    Ok (found st).

(** * Specification

    A container embeds the objects its payload frames; [embedded] is the
    transitive closure. *)
Definition embeds (b c : bytes) : Prop :=
  exists cs, zbf_flags b = ZBF_CONTAINER_FLAG /\ drop 192 b = to_be 4 (N.of_nat (length cs)) ++ frames cs /\
    N.of_nat (length cs) <= U32_MAX /\ Forall (fun x => len x <= U64_MAX) cs /\ c ∈ cs.
Definition embedded : bytes -> bytes -> Prop := tc embeds.

Definition refs_wf (st : RefState) : Prop :=
  NoDup (found st) /\ StronglySorted below (seen st) /\ forall h, h ∈ seen st <-> h ∈ found st.

(** [st'] is [st] extended by exactly the digests that satisfy [P]. *)
Definition extends (P : string -> Prop) (st st' : RefState) : Prop :=
  refs_wf st' /\ forall h, h ∈ found st' <-> h ∈ found st \/ P h.

Fixpoint collect_all (collect : bytes -> RefState -> result RefsError RefState) (cs : list bytes) (st : RefState)
  : result RefsError RefState :=
  match cs with
  | [] => Ok st
  | c :: cs' => let? st := note_ref (content_sha256_hex c) st in let? st := collect c st in collect_all collect cs' st
  end.

(** * Proofs *)

Lemma note_ref_extends hash st st' : refs_wf st -> note_ref hash st = Ok st' -> extends (eq hash) st st'.
Proof.
  intros (Hn & Hs & Hm) H1. unfold note_ref in H1. destruct (bset_mem hash (seen st)) eqn:Hb.
  - injection H1 as <-. apply bset_mem_spec, Hm in Hb. split; [done|]. intros h. split; [tauto|]. by intros [?|<-].
  - destruct (_ <=? _); [done|]. injection H1 as <-. apply not_true_iff_false in Hb. rewrite bset_mem_spec in Hb.
    destruct (bset_insert_spec hash (seen st) Hs) as (Hs' & Hin & _). split; cbn.
    + split_and!; [|done|].
      * cbn. apply NoDup_app. split_and!; [done| |apply NoDup_singleton]. intros x Hx Hx'.
        apply list_elem_of_singleton in Hx' as ->. by apply Hb, Hm.
      * intros h. cbn. rewrite Hin, Hm, elem_of_app, list_elem_of_singleton. tauto.
    + intros h. rewrite elem_of_app, list_elem_of_singleton. intuition congruence.
Qed.

Lemma extends_trans P Q R st1 st2 st3 :
  extends P st1 st2 -> extends Q st2 st3 -> (forall h, R h <-> P h \/ Q h) -> extends R st1 st3.
Proof. intros [_ H1] [H2 H3] HR. split; [done|]. intros h. rewrite H3, H1, HR. tauto. Qed.

(** The loop reads exactly the frames of [cs]. *)
Lemma collect_children_inv collect n : forall rest st tail st',
  collect_children collect n rest st = Ok (tail, st') ->
  exists cs, length cs = n /\ rest = frames cs ++ tail /\
    Forall (fun x => len x <= U64_MAX) cs /\ collect_all collect cs st = Ok st'.
Proof.
  induction n as [|n IH]; intros rest st tail st' H1; cbn in H1.
  - injection H1 as <- <-. by exists [].
  - destruct (N.ltb_spec (len rest) 8) as [|Hl]; [done|].
    destruct (_ <? ZBF_HEADER_LEN); [done|].
    destruct (N.ltb_spec (len (drop 8 rest)) (be_u64 rest)) as [|Hl2]; [done|].
    apply bind_Ok_inv in H1 as (st1 & Hnote & H1). apply bind_Ok_inv in H1 as (st2 & Hc & H1).
    apply IH in H1 as (cs & Hlen & Hrest & Hall & Hcs).
    set (k := N.to_nat (be_u64 rest)) in *. exists (take k (drop 8 rest) :: cs). split_and!.
    + cbn. by rewrite Hlen.
    + assert (Hk : len (take k (drop 8 rest)) = be_u64 rest).
      { unfold len in *. rewrite length_take. lia. }
      unfold frames. cbn [fmap list_fmap concat]. unfold frame at 1. rewrite Hk. unfold be_u64.
      replace (to_be 8 (of_be (take 8 rest))) with (take 8 rest).
      * rewrite <- !app_assoc. change (concat (frame <$> cs)) with (frames cs). rewrite <- Hrest.
        by rewrite (take_drop k), (take_drop 8).
      * rewrite <- (to_be_of_be (take 8 rest)) at 1. unfold len in Hl. rewrite length_take, Nat.min_l by lia. done.
    + constructor; [|done]. unfold len in *. rewrite length_take. pose proof (of_be_lt (take 8 rest)) as Hlt.
      rewrite length_take, Nat.min_l in Hlt by lia. fold (be_u64 rest) in Hlt. unfold U64_MAX. lia.
    + cbn. rewrite Hnote. cbn. by rewrite Hc.
Qed.

Lemma frames_inj cs : forall cs', length cs = length cs' -> Forall (fun x => len x <= U64_MAX) cs ->
  Forall (fun x => len x <= U64_MAX) cs' -> frames cs = frames cs' -> cs = cs'.
Proof.
  induction cs as [|c cs IH]; intros [|c' cs'] Hl Hc Hc' Hf; try done. apply Forall_cons in Hc as [Hc Hcs].
  apply Forall_cons in Hc' as [Hc' Hcs']. unfold frames in Hf. cbn [fmap list_fmap concat] in Hf.
  unfold frame at 1 3 in Hf. rewrite <- !app_assoc in Hf. apply app_inj_1 in Hf as [Hf1 Hf]; [|by rewrite !length_to_be].
  assert (len c = len c') as Hlen.
  { rewrite <- (of_be_to_be 8 (len c)), <- (of_be_to_be 8 (len c')), Hf1; unfold U64_MAX in *; [done|lia..]. }
  apply app_inj_1 in Hf as [-> Hf]; [|unfold len in Hlen; lia]. f_equal. apply IH; [|done..]. cbn in Hl. lia.
Qed.

(** The digests of the objects embedded in [b]. *)
Definition ref_of (b : bytes) (h : string) : Prop := exists c, embedded b c /\ h = content_sha256_hex c.

Lemma embedded_cases b x : embedded b x <-> exists c, embeds b c /\ (x = c \/ embedded c x).
Proof.
  unfold embedded. split.
  - intros Hx. inversion Hx as [|? c ? Hc Hr]; subst; [by exists x; auto|]. exists c. auto.
  - intros (c & Hc & [->|Hx]); [by apply tc_once|by eapply tc_l].
Qed.

Lemma collect_all_extends collect cs : forall st st',
  (forall c st st', c ∈ cs -> refs_wf st -> collect c st = Ok st' -> extends (ref_of c) st st') ->
  refs_wf st -> collect_all collect cs st = Ok st' ->
  extends (fun h => exists c, c ∈ cs /\ (h = content_sha256_hex c \/ ref_of c h)) st st'.
Proof.
  induction cs as [|c cs IH]; intros st st' Hcol Hwf H1; cbn in H1.
  - injection H1 as <-. split; [done|]. intros h. split; [tauto|]. intros [?|(c & Hc & _)]; [done|].
    by apply elem_of_nil in Hc.
  - apply bind_Ok_inv in H1 as (st1 & Hnote & H1). apply bind_Ok_inv in H1 as (st2 & Hc & H1).
    apply note_ref_extends in Hnote; [|done]. pose proof (Hcol c st1 st2 ltac:(left) (proj1 Hnote) Hc) as Hc'.
    apply IH in H1; [|intros ????; apply Hcol; by right|apply Hc'].
    pose proof (extends_trans _ _ (fun h => ref_of c h \/ exists x, x ∈ cs /\ (h = content_sha256_hex x \/ ref_of x h))
      _ _ _ Hc' H1 ltac:(done)) as H2.
    eapply extends_trans; [exact Hnote|exact H2|].
    { intros h. cbn. setoid_rewrite elem_of_cons. split.
      * intros (x & [->|Hx] & Hh); [destruct Hh as [->|Hh]; auto|]. right. right. by exists x.
      * intros [<-|[Hh|(x & Hx & Hh)]]; [exists c; auto..|exists x; auto]. }
Qed.

Lemma flag_cases b : N.land (zbf_flags b) (N.lxor U8_MAX ZBF_CONTAINER_FLAG) = 0 ->
  zbf_flags b = 0 \/ zbf_flags b = ZBF_CONTAINER_FLAG.
Proof.
  unfold zbf_flags. generalize (default byte0 (b !! 15%nat)). intros a.
  destruct a as [[] [] [] [] [] [] [] []]; vm_compute; try discriminate; auto.
Qed.

Lemma check_header_flags b depth : check_header b depth = Ok () ->
  zbf_flags b = 0 \/ zbf_flags b = ZBF_CONTAINER_FLAG.
Proof.
  intros H1. apply flag_cases. unfold check_header in H1. fold (zbf_flags b) in H1.
  destruct (N.eqb_spec (N.land (zbf_flags b) (N.lxor U8_MAX ZBF_CONTAINER_FLAG)) 0); [done|]. cbn [negb] in H1.
  repeat (case_match; [done|]). done.
Qed.

Lemma embeds_children b cs c : zbf_flags b = ZBF_CONTAINER_FLAG -> 4 <= len (drop 192 b) ->
  length cs = N.to_nat (be_u32 (drop 192 b)) -> drop 4 (drop 192 b) = frames cs ->
  Forall (fun x => len x <= U64_MAX) cs -> embeds b c <-> c ∈ cs.
Proof.
  intros Hf Hl Hlen Hfr Hall. set (p := drop 192 b) in *.
  assert (Hlt : be_u32 p < 256 ^ 4).
  { pose proof (of_be_lt (take 4 p)) as Hlt. unfold len in Hl. by rewrite length_take, Nat.min_l in Hlt by lia. }
  assert (Hp : p = to_be 4 (N.of_nat (length cs)) ++ frames cs).
  { rewrite <- Hfr, Hlen, N2Nat.id. unfold be_u32. rewrite <- (take_drop 4 p) at 1. f_equal.
    rewrite <- (to_be_of_be (take 4 p)) at 1. unfold len in Hl. by rewrite length_take, Nat.min_l by lia. }
  split.
  - intros (cs' & _ & Hp' & Hn & Hall' & Hc). fold p in Hp'. rewrite Hp' in Hp.
    apply app_inj_1 in Hp as [Hcount Hfs]; [|by rewrite !length_to_be].
    apply (f_equal of_be) in Hcount. rewrite !of_be_to_be in Hcount by (unfold U32_MAX in *; lia).
    apply frames_inj in Hfs; [by subst|lia|done..].
  - intros Hc. exists cs. split_and!; try done. unfold U32_MAX. lia.
Qed.

Lemma collect_extends (fuel : nat) : forall b depth st st',
  refs_wf st -> collect_zbf_refs fuel b depth st = Ok st' -> extends (ref_of b) st st'.
Proof.
  induction fuel as [|fuel IH]; intros b depth st st' Hwf H1; [done|]. cbn [collect_zbf_refs] in H1.
  apply bind_Ok_inv in H1 as ([] & Hh & H1). apply check_header_flags in Hh as Hf.
  destruct (N.eqb_spec (zbf_flags b) 0) as [Hz|Hz].
  - injection H1 as <-. split; [done|]. intros h. split; [tauto|]. intros [?|(c & Hc & _)]; [done|].
    apply embedded_cases in Hc as (c' & (cs & Hc & _) & _). by rewrite Hz in Hc.
  - destruct Hf as [|Hf]; [done|]. destruct (N.ltb_spec (len (drop 192 b)) 4) as [|Hl]; [done|].
    destruct (_ <? be_u32 _); [done|]. apply bind_Ok_inv in H1 as ([rest st1] & Hc & H1).
    destruct (N.eqb_spec (len rest) 0) as [Hr|]; [|done]. injection H1 as <-.
    apply collect_children_inv in Hc as (cs & Hlen & Hrest & Hall & Hcs).
    apply collect_all_extends in Hcs; [|intros c ???; apply IH|done].
    destruct rest; [|unfold len in Hr; cbn in Hr; lia]. rewrite app_nil_r in Hrest.
    assert (Hemb : forall c, embeds b c <-> c ∈ cs).
    { intros c. apply embeds_children; try done. }
    destruct Hcs as [Hwf' Hin]. split; [done|]. intros h. rewrite Hin. f_equiv. unfold ref_of. split.
    + intros (c & Hc & [->|(x & Hx & ->)]).
      * exists c. split; [|done]. apply embedded_cases. exists c. rewrite Hemb. auto.
      * exists x. split; [|done]. apply embedded_cases. exists c. rewrite Hemb. auto.
    + intros (x & Hx & ->). apply embedded_cases in Hx as (c & Hc & Hx). apply Hemb in Hc.
      exists c. split; [done|]. destruct Hx as [->|Hx]; [by left|right; by exists x].
Qed.

Lemma refs_members b refs : refs_from_verified_bytes b = Ok refs ->
  NoDup refs /\ (take 8 b = ZBF_MAGIC -> forall h, h ∈ refs <-> ref_of b h) /\ (take 8 b <> ZBF_MAGIC -> refs = []).
Proof.
  intros H1. unfold refs_from_verified_bytes in H1. destruct (decide (take 8 b = ZBF_MAGIC)) as [Hm|Hm].
  - assert ((len b <? 8) = false) as Hl.
    { apply N.ltb_ge. apply (f_equal length) in Hm. rewrite length_take in Hm.
      change (length ZBF_MAGIC) with 8%nat in Hm. unfold len. lia. }
    rewrite Hl, bool_decide_true in H1 by done. cbn [orb negb] in H1.
    apply bind_Ok_inv in H1 as (st & Hc & H1). injection H1 as <-.
    apply collect_extends in Hc as [Hwf Hin]; [|split_and!; cbn; [apply NoDup_nil_2|constructor|done]].
    split; [apply Hwf|]. split; [|done]. intros _ h. rewrite Hin. cbn. rewrite elem_of_nil. tauto.
  - rewrite (bool_decide_false _ Hm), orb_true_r in H1. injection H1 as <-. by split_and!; [apply NoDup_nil_2|..].
Qed.

(** C21: The references of an object are exactly the digests of the objects
    embedded in it at any depth, without repetition, so the references of an
    embedded object are among them; an object without the container magic has
    none. *)
Theorem refs_closure_exact (b : bytes) (refs : list string) : refs_from_verified_bytes b = Ok refs ->
  NoDup refs /\
  (take 8 b = ZBF_MAGIC -> forall h, h ∈ refs <-> ref_of b h) /\
  (take 8 b = ZBF_MAGIC -> forall c h, embedded b c -> ref_of c h -> h ∈ refs) /\
  (take 8 b <> ZBF_MAGIC -> refs = []).
Proof.
  intros H1. destruct (refs_members b refs H1) as (Hn & Hm & Hnm). split_and!; [done..| |done].
  intros Hmagic c h Hbc (x & Hcx & ->). apply Hm; [done|]. exists x. split; [|done]. by eapply tc_transitive.
Qed.
End Refs.
