(* ===== verification/StoreTree.v ===== *)
(** The store's directory tree and the system calls on it, for the object
    store and the garbage collector of zero-store.

    A path is the list of its components below the store root.  A link is
    recorded with what following it finds; a path that runs through a link or
    a file is an error other than not-found.  Directories list their entries
    in the order [read_dir] yields them.  Every call consults the environment
    at the world's tick, and may fail. *)

From S2P Require Import Prelude.
From S2P Require Import DurableStore.
From S2P Require Import GcTime.
From stdpp Require Import pretty.

Notation SPath := (list string).

Inductive LinkTarget := ToFile | ToDir | Dangling.
Inductive Node :=
| NFile (content : bytes) (mtime : option Z)
| NDir (children : list (string * Node))
| NLink (target : LinkTarget).
Notation Children := (list (string * Node)).

Inductive IoError := NotFoundErr | AlreadyExistsErr | WouldBlockErr | OtherErr.
#[global] Instance IoError_eq_dec : EqDecision IoError.
Proof. solve_decision. Defined.

Definition is_real_file (n : Node) : bool := match n with NFile _ _ => true | _ => false end.
Definition is_real_dir (n : Node) : bool := match n with NDir _ => true | _ => false end.
Definition is_symlink (n : Node) : bool := match n with NLink _ => true | _ => false end.
(** [Path::is_file] and [Path::is_dir] follow a final link. *)
Definition follows_to_file (n : Node) : bool := match n with NFile _ _ | NLink ToFile => true | _ => false end.
Definition follows_to_dir (n : Node) : bool := match n with NDir _ | NLink ToDir => true | _ => false end.

(** ** The tree *)

Fixpoint child (name : string) (cs : Children) : option Node :=
  match cs with
  | [] => None
  | (x, n) :: cs' => if String.eqb name x then Some n else child name cs'
  end.
Fixpoint set_child (name : string) (n : Node) (cs : Children) : Children :=
  match cs with
  | [] => [(name, n)]
  | (x, m) :: cs' => if String.eqb name x then (x, n) :: cs' else (x, m) :: set_child name n cs'
  end.
Definition drop_child (name : string) (cs : Children) : Children :=
  List.filter (fun e => negb (String.eqb name e.1)) cs.

Fixpoint node_at (p : SPath) (t : Node) : result IoError Node :=
  match p with
  | [] => Ok t
  | x :: p' =>
      match t with
      | NDir cs => match child x cs with Some n => node_at p' n | None => Err NotFoundErr end
      | _ => Err OtherErr
      end
  end.

(** Put a node at a path whose parent is a directory; anything else is left
    alone. *)
Fixpoint put_node (p : SPath) (n : Node) (t : Node) : Node :=
  match p with
  | [] => n
  | x :: p' =>
      match t with
      | NDir cs =>
          match p', child x cs with
          | [], _ => NDir (set_child x n cs)
          | _, Some m => NDir (set_child x (put_node p' n m) cs)
          | _, None => t
          end
      | _ => t
      end
  end.
Fixpoint remove_node (p : SPath) (t : Node) : Node :=
  match p, t with
  | [x], NDir cs => NDir (drop_child x cs)
  | x :: p', NDir cs =>
      match child x cs with Some m => NDir (set_child x (remove_node p' m) cs) | None => t end
  | _, _ => t
  end.

(** [fs::create_dir_all]: missing components become directories; a component
    that is a link to a directory is accepted where it stands. *)
Fixpoint create_dirs (p : SPath) (t : Node) : result IoError Node :=
  match p with
  | [] => if follows_to_dir t then Ok t else Err OtherErr
  | x :: p' =>
      match t with
      | NDir cs =>
          let? m := create_dirs p' (default (NDir []) (child x cs)) in
          Ok (NDir (set_child x m cs))
      | _ => Err OtherErr
      end
  end.

(** ** The world *)

Record StoreEnv := mkStoreEnv {
  io_fails : nat -> bool;
  lock_granted : nat -> bool;
  now_at : nat -> Z;
  process_id : N }.
(** [temp_seq] and [cas_seq] are the process-wide counters behind temporary
    names of [fs_replace.rs] and [cas.rs]. *)
Record StoreWorld := mkStore { root : Node; tick : nat; temp_seq : N; cas_seq : N }.
Definition with_root (w : StoreWorld) (t : Node) : StoreWorld := mkStore t (tick w) (temp_seq w) (cas_seq w).
Definition step (w : StoreWorld) : StoreWorld := mkStore (root w) (S (tick w)) (temp_seq w) (cas_seq w).

(** Run a fallible action and hand its result to the caller. *)
Definition attempt {E E' W A} (m : M E W A) : M E' W (result E A) := fun w => let '(r, w') := m w in (Ok r, w').
Definition map_error {E E' W A} (f : E -> E') (m : M E W A) : M E' W A := fun w =>
  let '(r, w') := m w in (match r with Ok a => Ok a | Err e => Err (f e) end, w').

Notation IO := (M IoError StoreWorld).

Section Calls.
Context (env : StoreEnv).

(** A call that only looks. *)
Definition look {A} (f : Node -> result IoError A) : IO A := fun w =>
  (if io_fails env (tick w) then Err OtherErr else f (root w), step w).
(** A call that changes the tree when it succeeds. *)
Definition change (f : Node -> result IoError Node) : IO () := fun w =>
  if io_fails env (tick w) then (Err OtherErr, step w)
  else match f (root w) with Ok t => (Ok (), step (with_root w t)) | Err e => (Err e, step w) end.

Definition system_now {E} : M E StoreWorld Z := fun w => (Ok (now_at env (tick w)), step w).

Definition symlink_metadata (p : SPath) : IO Node := look (node_at p).
Definition is_file_at {E} (p : SPath) : M E StoreWorld bool :=
  let! r := attempt (symlink_metadata p) in
  sret (match r with Ok n => follows_to_file n | Err _ => false end).
Definition is_dir_at {E} (p : SPath) : M E StoreWorld bool :=
  let! r := attempt (symlink_metadata p) in
  sret (match r with Ok n => follows_to_dir n | Err _ => false end).
(** True only for a regular file at exactly this path. *)
Definition is_regular_file {E} (p : SPath) : M E StoreWorld bool :=
  let! r := attempt (symlink_metadata p) in
  sret (match r with Ok n => is_real_file n | Err _ => false end).
Definition read_dir (p : SPath) : IO Children :=
  look (fun t => let? n := node_at p t in match n with NDir cs => Ok cs | _ => Err OtherErr end).
(** The next entry of a listing, and [DirEntry::file_type] or [metadata]:
    calls that can fail on their own. *)
Definition entry_call : IO () := look (fun _ => Ok ()).
Definition read_file (p : SPath) : IO bytes :=
  look (fun t => let? n := node_at p t in match n with NFile b _ => Ok b | _ => Err OtherErr end).

Definition remove_file (p : SPath) : IO () :=
  change (fun t => let? n := node_at p t in if is_real_dir n then Err OtherErr else Ok (remove_node p t)).
Definition create_dir (p : SPath) : IO () :=
  change (fun t =>
    let? parent := node_at (removelast p) t in
    match parent, node_at p t with
    | NDir _, Err NotFoundErr => Ok (put_node p (NDir []) t)
    | _, Ok _ => Err AlreadyExistsErr
    | _, _ => Err OtherErr
    end).
Definition create_dir_all (p : SPath) : IO () := change (create_dirs p).

(** [OpenOptions::create_new]. *)
Definition create_new (p : SPath) : IO () := fun w =>
  change (fun t =>
    let? parent := node_at (removelast p) t in
    match parent, node_at p t with
    | NDir _, Err NotFoundErr => Ok (put_node p (NFile [] (Some (now_at env (tick w)))) t)
    | _, Ok _ => Err AlreadyExistsErr
    | _, _ => Err OtherErr
    end) w.
(** [OpenOptions::create] without truncation. *)
Definition open_or_create (p : SPath) : IO () := fun w =>
  change (fun t =>
    let? parent := node_at (removelast p) t in
    match parent, node_at p t with
    | NDir _, Err NotFoundErr => Ok (put_node p (NFile [] (Some (now_at env (tick w)))) t)
    | _, Ok (NFile _ _) => Ok t
    | _, _ => Err OtherErr
    end) w.
(** Writing a file this process created: its whole content. *)
Definition write_all (p : SPath) (b : bytes) : IO () := fun w =>
  change (fun t =>
    let? n := node_at p t in
    match n with NFile _ _ => Ok (put_node p (NFile b (Some (now_at env (tick w)))) t) | _ => Err OtherErr end) w.
Definition set_modified (p : SPath) (time : Z) : IO () :=
  change (fun t =>
    let? n := node_at p t in
    match n with NFile b _ => Ok (put_node p (NFile b (Some time)) t) | _ => Err OtherErr end).
(** [sync_all] on a file or a directory. *)
Definition sync_all : IO () := look (fun _ => Ok ()).

(** [rename] of a file: replaces a file or a link at the destination. *)
Definition rename (from to : SPath) : IO () :=
  change (fun t =>
    let? n := node_at from t in
    let? parent := node_at (removelast to) t in
    match parent, n, node_at to t with
    | NDir _, NFile _ _, (Err NotFoundErr | Ok (NFile _ _) | Ok (NLink _)) => Ok (put_node to n (remove_node from t))
    | _, _, _ => Err OtherErr
    end).
End Calls.

(** * Durable replacement ([fs_replace.rs]) *)

Section Replace.
Context (env : StoreEnv).

(** On Unix no rename error is transient, so the first attempt decides. *)
Definition replace_file (tmp dest : SPath) : IO () := rename env tmp dest.
Definition sync_dir (dir : SPath) : IO () :=
  let! _ := look env (fun t => let? n := node_at dir t in Ok n) in
  sync_all env.

(** [AtomicU64::fetch_add]. *)
Definition fetch_temp_seq : IO N := fun w =>
  (Ok (temp_seq w), mkStore (root w) (tick w) ((temp_seq w + 1) mod 2 ^ 64)%N (cas_seq w)).
Definition temp_name (file_name : string) (sequence : N) : string :=
  "." +:+ file_name +:+ ".tmp-" +:+ pretty (process_id env) +:+ "-" +:+ pretty sequence.

(** The loop takes a new number for each name already in use; a directory
    with [n] entries uses up at most [n] of them. *)
Fixpoint open_unique_temp (fuel : nat) (parent : SPath) (file_name : string) : IO SPath :=
  match fuel with
  | O => throw OtherErr
  | S fuel' =>
      let! sequence := fetch_temp_seq in
      let temp := (parent ++ [temp_name file_name sequence])%list in
      let! r := attempt (create_new env temp) in
      match r with
      | Ok _ => sret temp
      | Err AlreadyExistsErr => open_unique_temp fuel' parent file_name
      | Err e => throw e
      end
  end.
Definition entries_at (p : SPath) (t : Node) : nat :=
  match node_at p t with Ok (NDir cs) => length cs | _ => 0 end.

Definition write_sync_replace (temp dest : SPath) (b : bytes) : IO () :=
  let! _ := write_all env temp b in
  let! _ := sync_all env in
  replace_file temp dest.

(** [atomic_write_file]: the sync policy is [Required]. *)
Definition atomic_write_file (dest : SPath) (b : bytes) : IO () :=
  let parent := removelast dest in
  let! _ := create_dir_all env parent in
  let file_name := default "artifact" (last dest) in
  let! temp := (fun w => open_unique_temp (S (entries_at parent (root w))) parent file_name w) in
  let! published := attempt (write_sync_replace temp dest b) in
  match published with
  | Err e => let! _ := attempt (E' := IoError) (remove_file env temp) in throw e
  | Ok _ => let! _ := attempt (E' := IoError) (sync_dir parent) in sret ()
  end.
End Replace.

(** * Theorems

    Locality of the store's directory tree: what a change at one path leaves
    alone elsewhere, and the frame rules of programs over the tree. *)

(** * Paths *)

(** Neither path is a prefix of the other. *)
Definition apart (p q : SPath) : Prop := ~ p `prefix_of` q /\ ~ q `prefix_of` p.

Lemma apart_cons x y p q : apart (x :: p) (y :: q) <-> x <> y \/ apart p q.
Proof.
  unfold apart. destruct (decide (x = y)) as [->|Hxy].
  - split.
    + intros [Hp Hq]. right. split; intros Hpre; [apply Hp|apply Hq]; by apply prefix_cons.
    + intros [?|[Hp Hq]]; [done|]. split; intros Hpre%prefix_cons_inv_2; auto.
  - split; [by left|]. intros _. split; intros Hpre%prefix_cons_inv_1; congruence.
Qed.

Lemma apart_same_length p q : length p = length q -> p <> q -> apart p q.
Proof.
  intros Hl Hn. split; intros [k Hk]; rewrite Hk, length_app in Hl; destruct k; cbn in Hl; try lia;
    rewrite app_nil_r in Hk; congruence.
Qed.

(** * Children *)

Lemma child_set_same x n cs : child x (set_child x n cs) = Some n.
Proof.
  induction cs as [|[y m] cs IH]; cbn; [by rewrite String.eqb_refl|].
  destruct (String.eqb_spec x y) as [->|Hn]; cbn; [by rewrite String.eqb_refl|].
  destruct (String.eqb_spec x y); [done|]. done.
Qed.
Lemma child_set_other x y n cs : x <> y -> child y (set_child x n cs) = child y cs.
Proof.
  intros Hn. induction cs as [|[z m] cs IH]; cbn.
  - destruct (String.eqb_spec y x); [congruence|done].
  - destruct (String.eqb_spec x z) as [->|]; cbn [child]; destruct (String.eqb_spec y z); congruence.
Qed.
Lemma child_drop_same x cs : child x (drop_child x cs) = None.
Proof.
  induction cs as [|[y m] cs IH]; cbn; [done|]. destruct (String.eqb_spec x y); cbn; [done|].
  destruct (String.eqb_spec x y); [done|]. done.
Qed.
Lemma child_drop_other x y cs : x <> y -> child y (drop_child x cs) = child y cs.
Proof.
  intros Hn. induction cs as [|[z m] cs IH]; cbn; [done|].
  destruct (String.eqb_spec x z) as [->|]; cbn [child negb fst]; destruct (String.eqb_spec y z); try congruence; exact IH.
Qed.
Lemma child_elem x n cs : child x cs = Some n -> (x, n) ∈ cs.
Proof.
  induction cs as [|[y m] cs IH]; cbn; [done|]. destruct (String.eqb_spec x y) as [->|].
  - intros [= ->]. left.
  - intros Hc. right. by apply IH.
Qed.

Lemma node_at_app p : forall q t, node_at (p ++ q) t = (let? n := node_at p t in node_at q n).
Proof.
  induction p as [|x p IH]; intros q t; [done|]. cbn [app node_at]. destruct t as [|cs|]; [done| |done].
  destruct (child x cs); [apply IH|done].
Qed.

(** * Locality *)

Lemma put_node_apart p : forall q n t, apart p q -> node_at q (put_node p n t) = node_at q t.
Proof.
  induction p as [|x p IH]; intros q n t Ha; [by destruct Ha as [[] _]; apply prefix_nil|].
  destruct q as [|y q]; [by destruct Ha as [_ []]; apply prefix_nil|]. apply apart_cons in Ha.
  destruct t as [|cs|]; [done| |done]. cbn [put_node]. destruct p as [|z p'].
  - destruct Ha as [Hn|[[] _]]; [|apply prefix_nil]. cbn. by rewrite child_set_other.
  - destruct (child x cs) as [m|] eqn:Hx; [|done]. cbn [node_at]. destruct (decide (x = y)) as [->|Hn].
    + destruct Ha as [?|Ha]; [done|]. rewrite child_set_same, Hx. by apply IH.
    + by rewrite child_set_other.
Qed.

Lemma remove_node_apart p : forall q t, apart p q -> node_at q (remove_node p t) = node_at q t.
Proof.
  induction p as [|x p IH]; intros q t Ha; [by destruct Ha as [[] _]; apply prefix_nil|].
  destruct q as [|y q]; [by destruct Ha as [_ []]; apply prefix_nil|]. apply apart_cons in Ha.
  destruct t as [|cs|]; [by destruct p| |by destruct p]. destruct p as [|z p'].
  - destruct Ha as [Hn|[[] _]]; [|apply prefix_nil]. cbn. by rewrite child_drop_other.
  - cbn [remove_node]. destruct (child x cs) as [m|] eqn:Hx; [|done]. cbn [node_at].
    destruct (decide (x = y)) as [->|Hn].
    + destruct Ha as [?|Ha]; [done|]. rewrite child_set_same, Hx. by apply IH.
    + by rewrite child_set_other.
Qed.

Lemma remove_node_same p : forall t n, p <> [] -> node_at p t = Ok n -> node_at p (remove_node p t) = Err NotFoundErr.
Proof.
  induction p as [|x p IH]; intros t n Hp Hn; [done|]. cbn [node_at] in Hn.
  destruct t as [|cs|]; [done| |done]. destruct (child x cs) as [m|] eqn:Hx; [|done]. destruct p as [|y p'].
  - cbn. by rewrite child_drop_same.
  - cbn [remove_node]. rewrite Hx. cbn [node_at]. rewrite child_set_same. by eapply IH.
Qed.

Lemma put_node_same p : forall t n cs, p <> [] -> node_at (removelast p) t = Ok (NDir cs) -> node_at p (put_node p n t) = Ok n.
Proof.
  induction p as [|x p IH]; intros t n cs Hp Hd; [done|]. destruct p as [|y p'].
  - cbn in Hd. injection Hd as ->. cbn. by rewrite child_set_same.
  - change (removelast (x :: y :: p')) with (x :: removelast (y :: p')) in Hd. cbn [node_at] in Hd.
    destruct t as [|cs'|]; [done| |done]. destruct (child x cs') as [m|] eqn:Hx; [|done].
    change (put_node (x :: y :: p') n (NDir cs')) with
      (match child x cs' with Some m => NDir (set_child x (put_node (y :: p') n m) cs') | None => NDir cs' end).
    rewrite Hx. cbn [node_at]. rewrite child_set_same. by eapply IH.
Qed.

(** A directory made at a free path shows nothing new but itself. *)
Lemma put_empty_dir p : forall q t, node_at p t = Err NotFoundErr -> ~ q `prefix_of` p ->
  node_at q (put_node p (NDir []) t) = node_at q t.
Proof.
  induction p as [|x p IH]; intros q t Hp Hq; [done|].
  destruct q as [|y q]; [by destruct Hq; apply prefix_nil|]. cbn [node_at] in Hp.
  destruct t as [|cs|]; [done| |done]. cbn [put_node]. destruct p as [|z p'].
  - cbn. destruct (decide (x = y)) as [->|Hn]; [|by rewrite child_set_other].
    destruct (child y cs) eqn:Hy; [by destruct (is_real_dir n)|]. rewrite child_set_same.
    destruct q; [by destruct Hq|done].
  - destruct (child x cs) as [m|] eqn:Hx; [|done]. cbn [node_at]. destruct (decide (x = y)) as [->|Hn].
    + rewrite child_set_same, Hx. apply IH; [done|]. intros Hpre. by apply Hq, prefix_cons.
    + by rewrite child_set_other.
Qed.

Lemma create_dirs_keeps p : forall q t t', create_dirs p t = Ok t' -> ~ q `prefix_of` p -> node_at q t' = node_at q t.
Proof.
  induction p as [|x p IH]; intros q t t' Hc Hq.
  - cbn in Hc. destruct (follows_to_dir t); [|done]. by injection Hc as ->.
  - destruct q as [|y q]; [by destruct Hq; apply prefix_nil|]. cbn in Hc. destruct t as [|cs|]; [done| |done].
    destruct (create_dirs p (default (NDir []) (child x cs))) as [m|] eqn:Hm; [|done]. injection Hc as <-. cbn [node_at].
    destruct (decide (x = y)) as [->|Hn]; [|by rewrite child_set_other].
    rewrite child_set_same. assert (Hq' : ~ q `prefix_of` p) by (intros Hpre; by apply Hq, prefix_cons).
    rewrite (IH _ _ _ Hm Hq'). destruct (child y cs); [done|]. cbn. destruct q; [by destruct Hq'; apply prefix_nil|done].
Qed.

(** * Frames

    [keeps K m]: whatever [m] returns, the nodes at the paths of [K] are what
    they were.  [reads m]: the whole tree is. *)

Definition keeps (K : SPath -> Prop) {E A} (m : M E StoreWorld A) : Prop :=
  forall w q, K q -> node_at q (root (m w).2) = node_at q (root w).
Definition reads {E A} (m : M E StoreWorld A) : Prop := forall w, root (m w).2 = root w.

Create HintDb frame.

Section Frames.
Context (env : StoreEnv) (K : SPath -> Prop).

Lemma reads_keeps {E A} (m : M E StoreWorld A) : reads m -> keeps K m.
Proof. intros Hm w q _. by rewrite Hm. Qed.

Lemma keeps_ret {E A} (a : A) : keeps K (sret (E := E) a).
Proof. done. Qed.
Lemma keeps_throw {E A} (e : E) : keeps K (throw (A := A) e).
Proof. done. Qed.
Lemma keeps_lift {E A} (r : result E A) : keeps K (lift r).
Proof. done. Qed.
Lemma keeps_sbind {E A B} (m : M E StoreWorld A) (k : A -> M E StoreWorld B) :
  keeps K m -> (forall a, keeps K (k a)) -> keeps K (sbind m k).
Proof.
  intros Hm Hk w q Hq. unfold sbind. specialize (Hm w q Hq). destruct (m w) as [[a|e] w']; cbn in *; [|done].
  by rewrite (Hk a w' q Hq).
Qed.
Lemma keeps_attempt {E E' A} (m : M E StoreWorld A) : keeps K m -> keeps K (attempt (E' := E') m).
Proof. intros Hm w q Hq. specialize (Hm w q Hq). unfold attempt. by destruct (m w). Qed.
Lemma keeps_map_error {E E' A} (f : E -> E') (m : M E StoreWorld A) : keeps K m -> keeps K (map_error f m).
Proof. intros Hm w q Hq. specialize (Hm w q Hq). unfold map_error. by destruct (m w). Qed.
Lemma keeps_change f : (forall t t' q, f t = Ok t' -> K q -> node_at q t' = node_at q t) -> keeps K (change env f).
Proof.
  intros Hf w q Hq. unfold change. destruct (io_fails _ _); [done|]. destruct (f (root w)) as [t|e] eqn:Ht; [|done].
  by apply (Hf _ _ _ Ht).
Qed.

Lemma reads_ret {E A} (a : A) : reads (sret (E := E) a).
Proof. done. Qed.
Lemma reads_throw {E A} (e : E) : reads (throw (A := A) e).
Proof. done. Qed.
Lemma reads_lift {E A} (r : result E A) : reads (lift r).
Proof. done. Qed.
Lemma reads_sbind {E A B} (m : M E StoreWorld A) (k : A -> M E StoreWorld B) :
  reads m -> (forall a, reads (k a)) -> reads (sbind m k).
Proof.
  intros Hm Hk w. unfold sbind. specialize (Hm w). destruct (m w) as [[a|e] w']; cbn in *; [|done]. by rewrite Hk.
Qed.
Lemma reads_attempt {E E' A} (m : M E StoreWorld A) : reads m -> reads (attempt (E' := E') m).
Proof. intros Hm w. specialize (Hm w). unfold attempt. by destruct (m w). Qed.
Lemma reads_map_error {E E' A} (f : E -> E') (m : M E StoreWorld A) : reads m -> reads (map_error f m).
Proof. intros Hm w. specialize (Hm w). unfold map_error. by destruct (m w). Qed.
Lemma reads_look {A} (f : Node -> result IoError A) : reads (look env f).
Proof. done. Qed.
Lemma reads_now {E} : reads (system_now env (E := E)).
Proof. done. Qed.
End Frames.

#[export] Hint Resolve keeps_ret keeps_throw keeps_lift keeps_attempt keeps_map_error : frame.
#[export] Hint Resolve reads_ret reads_throw reads_lift reads_attempt reads_map_error reads_look reads_now : frame.

(** Split a program into its calls. *)
Ltac split_reads :=
  repeat first
    [ solve [eauto with frame]
    | progress intros
    | match goal with |- reads (match ?x with _ => _ end) => destruct x end
    | apply reads_sbind; [|intros] ].
Ltac split_keeps :=
  repeat first
    [ solve [eauto with frame]
    | solve [apply reads_keeps; eauto with frame]
    | progress intros
    | match goal with |- keeps _ (match ?x with _ => _ end) => destruct x end
    | apply keeps_sbind; [|intros] ].

Section Calls.
Context (env : StoreEnv).

Lemma reads_symlink_metadata p : reads (symlink_metadata env p).
Proof. done. Qed.
Lemma reads_is_file_at {E} p : reads (is_file_at env (E := E) p).
Proof. unfold is_file_at. split_reads. Qed.
Lemma reads_is_dir_at {E} p : reads (is_dir_at env (E := E) p).
Proof. unfold is_dir_at. split_reads. Qed.
Lemma reads_is_regular_file {E} p : reads (is_regular_file env (E := E) p).
Proof. unfold is_regular_file. split_reads. Qed.
Lemma reads_read_dir p : reads (read_dir env p).
Proof. done. Qed.
Lemma reads_read_file p : reads (read_file env p).
Proof. done. Qed.
Lemma reads_entry_call : reads (entry_call env).
Proof. done. Qed.
Lemma reads_sync_all : reads (sync_all env).
Proof. done. Qed.
Lemma reads_sync_dir p : reads (sync_dir env p).
Proof. unfold sync_dir. split_reads. Qed.

Lemma keeps_remove_file K p : (forall q, K q -> apart p q) -> keeps K (remove_file env p).
Proof.
  intros Ha. apply keeps_change. intros t t' q Ht Hq. destruct (node_at p t); [|done]. cbn in Ht.
  destruct (is_real_dir _); [done|]. injection Ht as <-. apply remove_node_apart. auto.
Qed.
Lemma keeps_create_dir K p : (forall q, K q -> ~ q `prefix_of` p) -> keeps K (create_dir env p).
Proof.
  intros Ha. apply keeps_change. intros t t' q Ht Hq. destruct (node_at (removelast p) t) as [n|]; [|done]. cbn in Ht.
  destruct (node_at p t) as [|e] eqn:Hp; [by destruct n|]. destruct n, e; try done; injection Ht as <-.
  apply put_empty_dir; auto.
Qed.
Lemma keeps_create_dir_all K p : (forall q, K q -> ~ q `prefix_of` p) -> keeps K (create_dir_all env p).
Proof. intros Ha. apply keeps_change. intros t t' q Ht Hq. eapply create_dirs_keeps; [exact Ht|auto]. Qed.

Lemma keeps_put (K : SPath -> Prop) p (f : Node -> Z -> result IoError Node) :
  (forall q, K q -> apart p q) -> (forall t t' z, f t z = Ok t' -> t' = t \/ exists n, t' = put_node p n t) ->
  keeps K (fun w => change env (fun t => f t (now_at env (tick w))) w).
Proof.
  intros Ha Hf w q Hq. refine (keeps_change env K _ _ w q Hq). intros t t' q' Ht Hq'.
  apply Hf in Ht as [->|[n ->]]; [done|]. apply put_node_apart. auto.
Qed.
Lemma keeps_create_new K p : (forall q, K q -> apart p q) -> keeps K (create_new env p).
Proof.
  intros Ha. unfold create_new.
  apply (keeps_put K p (fun t z =>
    let? parent := node_at (removelast p) t in
    match parent, node_at p t with
    | NDir _, Err NotFoundErr => Ok (put_node p (NFile [] (Some z)) t)
    | _, Ok _ => Err AlreadyExistsErr
    | _, _ => Err OtherErr
    end) Ha).
  intros t t' z Ht. destruct (node_at (removelast p) t) as [n|]; [|done]. cbn in Ht. repeat case_match; simplify_eq; eauto.
Qed.
Lemma keeps_open_or_create K p : (forall q, K q -> apart p q) -> keeps K (open_or_create env p).
Proof.
  intros Ha. unfold open_or_create.
  apply (keeps_put K p (fun t z =>
    let? parent := node_at (removelast p) t in
    match parent, node_at p t with
    | NDir _, Err NotFoundErr => Ok (put_node p (NFile [] (Some z)) t)
    | _, Ok (NFile _ _) => Ok t
    | _, _ => Err OtherErr
    end) Ha).
  intros t t' z Ht. destruct (node_at (removelast p) t) as [n|]; [|done]. cbn in Ht. repeat case_match; simplify_eq; eauto.
Qed.
Lemma keeps_write_all K p b : (forall q, K q -> apart p q) -> keeps K (write_all env p b).
Proof.
  intros Ha. unfold write_all.
  apply (keeps_put K p (fun t z =>
    let? n := node_at p t in
    match n with NFile _ _ => Ok (put_node p (NFile b (Some z)) t) | _ => Err OtherErr end) Ha).
  intros t t' z Ht. destruct (node_at p t) as [n|]; [|done]. cbn in Ht. repeat case_match; simplify_eq; eauto.
Qed.
Lemma keeps_rename K p p' : (forall q, K q -> apart p q) -> (forall q, K q -> apart p' q) -> keeps K (rename env p p').
Proof.
  intros Ha Ha'. apply keeps_change. intros t t' q Ht Hq.
  destruct (node_at p t) as [n|]; [|done]. cbn in Ht. destruct (node_at (removelast p') t) as [d|]; [|done]. cbn in Ht.
  assert (t' = put_node p' n (remove_node p t)) as -> by (repeat case_match; simplify_eq; done).
  rewrite put_node_apart by auto. apply remove_node_apart. auto.
Qed.
End Calls.
#[export] Hint Resolve reads_symlink_metadata reads_is_file_at reads_is_dir_at reads_is_regular_file reads_read_dir
  reads_read_file reads_entry_call reads_sync_all reads_sync_dir : frame.

(** * Durable replacement *)

Lemma apart_app p q r : apart p q -> apart (p ++ r) q.
Proof.
  intros [Hp Hq]. split.
  - intros Hpre. apply Hp. etrans; [by apply prefix_app_r|exact Hpre].
  - intros Hpre. destruct (prefix_weak_total q p (p ++ r) Hpre) as [|]; [by apply prefix_app_r|done..].
Qed.
Lemma apart_prefix p q p' : apart p q -> p' `prefix_of` p -> ~ q `prefix_of` p'.
Proof. intros [_ Hq] Hp Hpre. apply Hq. by etrans. Qed.

Section Replace.
Context (env : StoreEnv) (K : SPath -> Prop).

Lemma reads_fetch_temp_seq : reads (fetch_temp_seq).
Proof. done. Qed.
Hint Resolve reads_fetch_temp_seq : frame.

Lemma keeps_open_unique_temp fuel parent name :
  (forall q, K q -> apart parent q) -> keeps K (open_unique_temp env fuel parent name).
Proof.
  intros Ha. induction fuel as [|fuel IH]; cbn [open_unique_temp]; [apply keeps_throw|].
  apply keeps_sbind; [apply reads_keeps, reads_fetch_temp_seq|]. intros n. apply keeps_sbind.
  - apply keeps_attempt, keeps_create_new. intros q Hq. apply apart_app. auto.
  - intros [|[]]; try apply keeps_throw; try apply keeps_ret. exact IH.
Qed.

Lemma open_unique_temp_in fuel : forall parent name w temp w',
  open_unique_temp env fuel parent name w = (Ok temp, w') -> exists x, temp = parent ++ [x].
Proof.
  induction fuel as [|fuel IH]; intros parent name w temp w' Ht; [done|].
  cbn [open_unique_temp] in Ht. unfold sbind, fetch_temp_seq, attempt in Ht.
  destruct (create_new env _ _) as [[[]|e] w1]; cbn in Ht.
  - injection Ht as <- <-. eauto.
  - destruct e; try done. by eapply IH.
Qed.

Lemma keeps_atomic_write_file dest b : dest <> [] ->
  (forall q, K q -> apart (removelast dest) q) -> keeps K (atomic_write_file env dest b).
Proof.
  intros Hd Ha w q Hq. unfold atomic_write_file.
  apply (keeps_sbind K); [|intros ?|exact Hq].
  { apply keeps_create_dir_all. intros q' Hq'. by apply (apart_prefix (removelast dest)); [apply Ha|]. }
  intros w1 q1 Hq1. unfold sbind at 1.
  match goal with |- context [open_unique_temp env ?fuel ?p ?n w1] =>
    pose proof (keeps_open_unique_temp fuel p n Ha w1 q1 Hq1) as Ht end.
  destruct (open_unique_temp _ _ _ _ w1) as [[temp|e] w2] eqn:Hopen; cbn [snd] in *; [|done].
  apply open_unique_temp_in in Hopen as [x ->]. rewrite <- Ht.
  assert (Hx : forall y q', K q' -> apart (removelast dest ++ [y]) q') by (intros; apply apart_app; auto).
  assert (Hdest : forall q', K q' -> apart dest q').
  { intros q' Hq'. rewrite (app_removelast_last "" Hd). apply apart_app. auto. }
  refine (keeps_sbind K _ _ _ _ w2 q1 Hq1).
  - apply keeps_attempt. unfold write_sync_replace. apply keeps_sbind; [apply keeps_write_all; auto|]. intros _.
    apply keeps_sbind; [apply reads_keeps, reads_sync_all|]. intros _. apply keeps_rename; auto.
  - intros [|]; (apply keeps_sbind; [|intros]); try apply keeps_ret; try apply keeps_throw.
    + apply keeps_attempt, reads_keeps, reads_sync_dir.
    + apply keeps_attempt, keeps_remove_file; auto.
Qed.
End Replace.

(** * What a successful look saw *)

Lemma look_inv {A} env (f : Node -> result IoError A) w r w' : look env f w = (r, w') ->
  root w' = root w /\ (r = f (root w) \/ r = Err OtherErr).
Proof. unfold look. intros [= <- <-]. split; [done|]. destruct (io_fails _ _); auto. Qed.
Lemma symlink_metadata_inv env p w r w' : symlink_metadata env p w = (r, w') ->
  root w' = root w /\ (r = node_at p (root w) \/ r = Err OtherErr).
Proof. apply look_inv. Qed.
Lemma read_dir_Ok env p w cs w' : read_dir env p w = (Ok cs, w') -> node_at p (root w) = Ok (NDir cs) /\ root w' = root w.
Proof.
  intros Hr. apply look_inv in Hr as [Hr [Hc|]]; [|done]. split; [|done]. destruct (node_at p (root w)) as [n|]; [|done].
  cbn in Hc. destruct n; by simplify_eq.
Qed.
Lemma read_file_Ok env p w b w' : read_file env p w = (Ok b, w') ->
  exists m, node_at p (root w) = Ok (NFile b m) /\ root w' = root w.
Proof.
  intros Hr. apply look_inv in Hr as [Hr [Hc|]]; [|done]. destruct (node_at p (root w)) as [n|]; [|done].
  cbn in Hc. destruct n; simplify_eq. eauto.
Qed.
