(* ===== verification/Cas.v ===== *)
(** The content-addressed object store and its coordination lock
    ([zero-store/src/cas.rs] and [gc_lock.rs]).

    The store's root directory is the tree of [StoreTree]; [store_key] names it
    after [absolutize], the spelling locks are compared by.  Taking the lock
    has the outcome the environment gives for the bounded wait.  Errors keep
    their variant and, for a digest mismatch, the two digests. *)

From S2P Require Import Prelude.
From S2P Require Import Canonical.
From S2P Require Import Ordering.
From S2P Require Import DurableStore.
From S2P Require Import GcTime.
From S2P Require Import GcRefs.
From S2P Require Import StoreTree.
From S2P Require ZeroRef.
From S2P Require KernelTransaction.
From stdpp Require Import pretty.
#[local] Open Scope string_scope.

(** * The coordination lock *)

Inductive LockMode := Shared | Exclusive.
#[global] Instance LockMode_eq_dec : EqDecision LockMode.
Proof. solve_decision. Defined.
Record StoreLock := mkLock { lock_mode : LockMode; lock_store : string }.

Definition GC_DIR : string := "gc".
Definition COORDINATOR_LOCK : string := "coordinator.lock".
Definition coordinator_lock_path : SPath := [GC_DIR; COORDINATOR_LOCK].
Definition is_exclusive (l : StoreLock) : bool := bool_decide (lock_mode l = Exclusive).
Definition is_for_store_root (l : StoreLock) (store_key : string) : bool := String.eqb (lock_store l) store_key.

Section Lock.
Context (env : StoreEnv) (store_key : string).

Definition ensure_gc_namespace_dir : IO SPath :=
  let directory := [GC_DIR] in
  let! r := attempt (symlink_metadata env directory) in
  match r with
  | Ok n => if is_real_dir n then sret directory else throw OtherErr
  | Err NotFoundErr =>
      let! c := attempt (create_dir env directory) in
      match c with
      | Ok _ | Err AlreadyExistsErr =>
          let! n := symlink_metadata env directory in
          if is_real_dir n then sret directory else throw OtherErr
      | Err e => throw e
      end
  | Err e => throw e
  end.

Definition open_lock_file : IO () :=
  let! _ := create_dir_all env [] in
  let! n := symlink_metadata env [] in
  reject! negb (is_real_dir n) with OtherErr in
  let! _ := ensure_gc_namespace_dir in
  let! r := attempt (symlink_metadata env coordinator_lock_path) in
  match r with
  | Ok n => if is_real_file n then open_or_create env coordinator_lock_path else throw OtherErr
  | Err NotFoundErr => open_or_create env coordinator_lock_path
  | Err e => throw e
  end.

(** The outcome of waiting for the lock until the deadline. *)
Definition wait_lock : IO bool := fun w => (Ok (lock_granted env (tick w)), step w).

Definition acquire (mode : LockMode) : IO StoreLock :=
  let! _ := open_lock_file in
  let! granted := wait_lock in
  if granted then sret (mkLock mode store_key) else throw WouldBlockErr.
Definition publish_lock : IO StoreLock := acquire Shared.
Definition sweep_lock : IO StoreLock := acquire Exclusive.
Definition try_acquire (mode : LockMode) : IO (option StoreLock) :=
  let! _ := open_lock_file in
  let! granted := wait_lock in
  sret (if granted then Some (mkLock mode store_key) else None).
End Lock.

(** * Objects *)

Definition CAS_MAX_OBJECT_BYTES : N := 256 * 1024 * 1024.
Definition CAS_TEMP_REAP_AGE : N := 3600.
Definition TEMP_PREFIX : string := ".tmp-".
Definition TEMP_CREATE_ATTEMPTS : nat := 5.
Definition CAS_QUARANTINE_DIR : string := "quarantine".

Inductive CasError :=
| CasNotFound | CasIo | DigestMismatch (expected actual : string) | PolicyDenied | Malformed.
Record PutOutcome := mkPut { put_hash : string; put_created : bool }.

Definition is_temp_name (name : string) : bool :=
  String.prefix TEMP_PREFIX name || KernelTransaction.ends_with ".tmp" name.
Definition is_listable_object_name (name : string) : bool :=
  ZeroRef.is_full_lower_hex name && negb (is_temp_name name).

(** [sha256.get(..2).unwrap_or(sha256)]: the whole name when the cut is out
    of range or not at a character boundary. *)
Definition shard (sha256 : string) : string :=
  let b := string_bytes sha256 in
  if (2 <=? length b)%nat && ((length b =? 2)%nat || is_char_boundary b 2) then bytes_string (take 2 b) else sha256.
Definition object_path (sha256 : string) : SPath := ["blobs"; "sha256"; shard sha256; sha256].

Section Cas.
Context `{Platform} (env : StoreEnv) (store_key : string).
Notation CAS := (M CasError StoreWorld).

Definition io {A} (m : IO A) : CAS A := map_error (fun _ => CasIo) m.

Definition contains (sha256 : string) : CAS bool :=
  if ZeroRef.is_full_lower_hex sha256 then is_regular_file env (object_path sha256) else sret false.

Definition check_guard_root (guard : StoreLock) : CAS () :=
  if is_for_store_root guard store_key then sret () else throw PolicyDenied.
Definition check_regular (n : Node) : CAS () := if is_real_file n then sret () else throw Malformed.

Definition read_verified_at (path : SPath) (expected : string) (limit : N) : CAS bytes :=
  let! b := io (read_file env path) in
  reject! (limit <? len b)%N with PolicyDenied in
  let actual := content_sha256_hex b in
  reject! negb (String.eqb actual expected) with DigestMismatch expected actual in
  sret b.

Definition node_len (n : Node) : N := match n with NFile b _ => len b | _ => 0 end.

Definition get_verified_limited (sha256 : string) (limit : N) : CAS bytes :=
  reject! negb (ZeroRef.is_full_lower_hex sha256) with Malformed in
  let effective_limit := N.min limit CAS_MAX_OBJECT_BYTES in
  let path := object_path sha256 in
  let! r := attempt (symlink_metadata env path) in
  let! meta := match r with Ok n => sret n | Err NotFoundErr => throw CasNotFound | Err _ => throw CasIo end in
  let! _ := check_regular meta in
  reject! (effective_limit <? node_len meta)%N with PolicyDenied in
  read_verified_at path sha256 effective_limit.
Definition get_verified (sha256 : string) : CAS bytes := get_verified_limited sha256 CAS_MAX_OBJECT_BYTES.
Definition get_verified_gated (sha256 : string) (authorize_read : string -> result CasError ()) : CAS bytes :=
  let! _ := lift (authorize_read sha256) in
  get_verified sha256.

(** ** Publication *)

Definition touch_path (path : SPath) : IO () :=
  let! now := system_now env in
  set_modified env path now.

Definition touch (sha256 : string) : CAS () :=
  reject! negb (ZeroRef.is_full_lower_hex sha256) with Malformed in
  let path := object_path sha256 in
  let! regular := is_regular_file env path in
  reject! negb regular with CasNotFound in
  io (touch_path path).

Definition try_return_existing_object (dest : SPath) (hash : string) (limit : N) : CAS (option PutOutcome) :=
  let! r := attempt (symlink_metadata env dest) in
  match r with
  | Ok meta =>
      let! _ := check_regular meta in
      let! _ := read_verified_at dest hash limit in
      let! _ := attempt (touch_path dest) in
      sret (Some (mkPut hash false))
  | Err NotFoundErr => sret None
  | Err _ => throw CasIo
  end.

Definition ensure_object_publish_dirs (parent : SPath) : CAS () :=
  let! _ := io (create_dir_all env parent) in
  let! n := io (symlink_metadata env parent) in
  reject! negb (is_real_dir n) with Malformed in
  let! n := io (symlink_metadata env (removelast parent)) in
  reject! negb (is_real_dir n) with Malformed in
  sret ().

(** Best effort over one listing: errors skip the entry. *)
Fixpoint reap_entries (dir : SPath) (now : Z) (entries : Children) : CAS () :=
  match entries with
  | [] => sret ()
  | (name, n) :: rest =>
      let! e := attempt (entry_call env) in
      let! _ :=
        (match e with
         | Err _ => sret ()
         | Ok _ =>
             if is_temp_name name then
               let! meta := attempt (entry_call env) in
               match meta, n with
               | Ok _, NFile _ (Some mtime) =>
                   if (0 <=? now - mtime)%Z && (Z.of_N CAS_TEMP_REAP_AGE * NANOS <=? now - mtime)%Z then
                     let! _ := attempt (remove_file env (dir ++ [name])%list) in sret ()
                   else sret ()
               | _, _ => sret ()
               end
             else sret ()
         end) in
      reap_entries dir now rest
  end.
Definition reap_stale_temps (dir : SPath) : CAS () :=
  let! entries := attempt (read_dir env dir) in
  match entries with
  | Err _ => sret ()
  | Ok entries => let! now := system_now env in reap_entries dir now entries
  end.

Definition fetch_cas_seq : CAS N := fun w =>
  (Ok (cas_seq w), mkStore (root w) (tick w) (temp_seq w) ((cas_seq w + 1) mod 2 ^ 64)%N).
Definition cas_temp_name (hash : string) (sequence : N) : string :=
  TEMP_PREFIX +:+ String.substring 0 8 hash +:+ "-" +:+ pretty (process_id env) +:+ "-" +:+ pretty sequence.

Fixpoint create_temp_object (attempts : nat) (parent : SPath) (hash : string) : CAS SPath :=
  match attempts with
  | O => throw CasIo
  | S attempts' =>
      let! sequence := fetch_cas_seq in
      let tmp := (parent ++ [cas_temp_name hash sequence])%list in
      let! r := attempt (create_new env tmp) in
      match r with
      | Ok _ => sret tmp
      | Err AlreadyExistsErr => match attempts' with O => throw CasIo | _ => create_temp_object attempts' parent hash end
      | Err _ => throw CasIo
      end
  end.

Definition publish_temp_object (tmp parent dest : SPath) (hash : string) (b : bytes) (limit : N) : CAS bool :=
  let! _ := io (write_all env tmp b) in
  let! _ := io (sync_all env) in
  let! replaced := attempt (replace_file env tmp dest) in
  match replaced with
  | Err _ =>
      let! regular := is_regular_file env dest in
      if regular then
        let! v := attempt (E' := CasError) (read_verified_at dest hash limit) in
        if is_ok v then sret false else throw CasIo
      else throw CasIo
  | Ok _ =>
      let! synced := attempt (sync_dir env parent) in
      if is_ok synced then sret true
      else
        let! v := attempt (E' := CasError) (read_verified_at dest hash limit) in
        if is_ok v then sret true else throw CasIo
  end.

Definition publish_new_object_via_temp (parent dest : SPath) (hash : string) (b : bytes) (limit : N) : CAS bool :=
  let! tmp := create_temp_object TEMP_CREATE_ATTEMPTS parent hash in
  let! publish := attempt (E' := CasError) (publish_temp_object tmp parent dest hash b limit) in
  let! _ := attempt (remove_file env tmp) in
  lift publish.

Definition put_with_limit (b : bytes) (limit : N) : CAS PutOutcome :=
  reject! (limit <? len b)%N with PolicyDenied in
  let hash := content_sha256_hex b in
  let dest := object_path hash in
  let! existing := try_return_existing_object dest hash limit in
  match existing with
  | Some outcome => sret outcome
  | None =>
      let parent := removelast dest in
      let! _ := ensure_object_publish_dirs parent in
      let! _ := reap_stale_temps parent in
      let! created := publish_new_object_via_temp parent dest hash b limit in
      sret (mkPut hash created)
  end.

Definition put_in_lock (b : bytes) (limit : N) (guard : StoreLock) : CAS PutOutcome :=
  let! _ := check_guard_root guard in
  put_with_limit b (N.min limit CAS_MAX_OBJECT_BYTES).
Definition put_outcome (b : bytes) (limit : N) : CAS PutOutcome :=
  let! guard := io (publish_lock env store_key) in
  put_in_lock b limit guard.
Definition put_prehashed (sha256 : string) (b : bytes) : CAS PutOutcome :=
  reject! negb (ZeroRef.is_full_lower_hex sha256) with Malformed in
  let actual := content_sha256_hex b in
  reject! negb (String.eqb actual sha256) with DigestMismatch sha256 actual in
  put_outcome b CAS_MAX_OBJECT_BYTES.

(** ** Listing *)

Fixpoint push_objects (max_objects : option N) (entries : Children) (out : list string) : CAS (list string) :=
  match entries with
  | [] => sret out
  | (name, n) :: rest =>
      let! _ := io (entry_call env) in
      if is_listable_object_name name then
        let! file_type := attempt (entry_call env) in
        if is_ok file_type && is_real_file n then
          match max_objects with
          | Some max =>
              if (max <=? N.of_nat (length out))%N then throw Malformed
              else push_objects max_objects rest (out ++ [name])%list
          | None => push_objects max_objects rest (out ++ [name])%list
          end
        else push_objects max_objects rest out
      else push_objects max_objects rest out
  end.
Definition push_objects_from_shard (shard_path : SPath) (out : list string) (max_objects : option N)
  : CAS (list string) :=
  let! entries := io (read_dir env shard_path) in
  push_objects max_objects entries out.

Fixpoint list_shards (max_objects : option N) (shards : Children) (out : list string) : CAS (list string) :=
  match shards with
  | [] => sret out
  | (name, n) :: rest =>
      let! _ := io (entry_call env) in
      let! file_type := attempt (entry_call env) in
      if is_ok file_type && is_real_dir n then
        let! out := push_objects_from_shard ["blobs"; "sha256"; name] out max_objects in
        list_shards max_objects rest out
      else list_shards max_objects rest out
  end.
Definition list_objects_with_limit (max_objects : option N) : CAS (list string) :=
  let! r := attempt (read_dir env ["blobs"; "sha256"]) in
  match r with
  | Ok shards =>
      let! out := list_shards max_objects shards [] in
      sret (sort out)
  | Err NotFoundErr => sret []
  | Err _ => throw CasIo
  end.
Definition list_objects : CAS (list string) := list_objects_with_limit None.
Definition list_objects_bounded (max_objects : N) : CAS (list string) := list_objects_with_limit (Some max_objects).

(** ** Removal *)

Definition sweep_target (sha256 : string) (guard : StoreLock) : CAS SPath :=
  reject! negb (is_exclusive guard) with PolicyDenied in
  let! _ := check_guard_root guard in
  reject! negb (ZeroRef.is_full_lower_hex sha256) with Malformed in
  let path := object_path sha256 in
  let! r := attempt (symlink_metadata env path) in
  let! meta := match r with Ok n => sret n | Err NotFoundErr => throw CasNotFound | Err _ => throw CasIo end in
  reject! negb (is_real_file meta) with Malformed in
  sret path.

Definition remove_object (sha256 : string) (guard : StoreLock) : CAS () :=
  let! path := sweep_target sha256 guard in
  io (remove_file env path).

(** The candidates [dir/stem<n>]; the version numbers are [u32].  A directory
    with [k] entries is passed after at most [k] of them. *)
Fixpoint next_unused_path (fuel : nat) (dir : SPath) (stem : string) (n : N) : CAS SPath :=
  match fuel with
  | O => throw PolicyDenied
  | S fuel' =>
      let candidate := (dir ++ [stem +:+ pretty n])%list in
      let! r := attempt (symlink_metadata env candidate) in
      match r with
      | Err NotFoundErr => sret candidate
      | Err _ => throw CasIo
      | Ok _ => if (n <? U32_MAX)%N then next_unused_path fuel' dir stem (n + 1)%N else throw PolicyDenied
      end
  end.
Definition unused_path (dir : SPath) (stem : string) (start : N) : CAS SPath := fun w =>
  next_unused_path (S (entries_at dir (root w))) dir stem start w.

Definition refuse_symlink_dest (path : SPath) : CAS () :=
  let! r := attempt (symlink_metadata env path) in
  match r with
  | Ok n => if is_symlink n then throw Malformed else sret ()
  | Err NotFoundErr => sret ()
  | Err _ => throw CasIo
  end.

Definition vacate_verified_quarantine_slot (dest : SPath) (sha256 : string) : CAS () :=
  let! r := attempt (symlink_metadata env dest) in
  match r with
  | Err NotFoundErr => sret ()
  | Err _ => throw CasIo
  | Ok meta =>
      reject! is_symlink meta with Malformed in
      reject! negb (is_real_file meta) with Malformed in
      let dir := removelast dest in
      let! v := attempt (E' := CasError) (read_verified_at dest sha256 CAS_MAX_OBJECT_BYTES) in
      let! backup :=
        match v with
        | Ok _ => unused_path dir (sha256 +:+ ".") 1
        | Err (DigestMismatch _ _) =>
            let plain := (dir ++ [sha256 +:+ ".unverified"])%list in
            let! r := attempt (symlink_metadata env plain) in
            match r with
            | Err NotFoundErr => sret plain
            | Err _ => throw CasIo
            | Ok _ => unused_path dir (sha256 +:+ ".unverified-") 1
            end
        | Err e => throw e
        end in
      let! _ := refuse_symlink_dest backup in
      io (replace_file env dest backup)
  end.

Definition quarantine_object (sha256 : string) (guard : StoreLock) : CAS () :=
  let! path := sweep_target sha256 guard in
  let dir := [GC_DIR; CAS_QUARANTINE_DIR] in
  let! _ := io (create_dir_all env dir) in
  let! v := attempt (E' := CasError) (read_verified_at path sha256 CAS_MAX_OBJECT_BYTES) in
  let! dest :=
    match v with
    | Ok _ =>
        let dest := (dir ++ [sha256])%list in
        let! _ := vacate_verified_quarantine_slot dest sha256 in
        sret dest
    | Err (DigestMismatch _ _) => unused_path dir (sha256 +:+ ".corrupt-") 0
    | Err e => throw e
    end in
  let! _ := refuse_symlink_dest dest in
  let! _ := io (replace_file env path dest) in
  let! _ := attempt (sync_dir env dir) in
  sret ().
End Cas.
