(* ===== verification/Gc.v ===== *)
(** Marking in the garbage collector ([zero-store/src/gc.rs]): the metadata
    records, their validation and reading, the walks over the metadata
    namespaces, and the mark state they build.

    Records are read through a codec parameter ([serde_json]).  Errors keep
    their variant; a panic of the source is the variant [GcPanic], which no
    caller turns into a value.  Evidence texts are written out; the texts of
    paths and errors inside them are the class [GcDisplay]. *)

From S2P Require Import Prelude.
From S2P Require Import Canonical.
From S2P Require Import Ordering.
From S2P Require Import BMap.
From S2P Require Import DurableStore.
From S2P Require Import GcTime.
From S2P Require Import GcRefs.
From S2P Require Import StoreTree.
From S2P Require Import Cas.
From S2P Require ZeroRef.
From S2P Require TwoPhase.
From stdpp Require Import pretty.
#[local] Open Scope string_scope.

Definition GC_SCHEMA_VERSION : string := "zerostack.cas-gc".
Definition GC_MAX_RECORD_BYTES : N := 32 * 1024 * 1024.
Definition GC_MAX_REPORT_OBJECTS : N := 65536.
Definition GC_MAX_EVIDENCE_ITEMS : nat := 256.
Definition GC_EVIDENCE_TRUNCATED : string := "evidence truncated at GC_MAX_EVIDENCE_ITEMS".
Definition GC_MAX_PRODUCER_ID_BYTES : N := 64.
Definition GC_MAX_PRODUCER_NAMESPACES : N := 1024.
Definition GC_MAX_OWNER_HOST_BYTES : N := 255.
Definition GC_MIN_GRACE_SECONDS : N := 60.
Definition GC_MAX_PROJECT_NAMESPACES : N := GC_MAX_REPORT_OBJECTS.
Definition GC_RECORD_TYPE_REACHABILITY : string := "reachability-snapshot".
Definition GC_RECORD_TYPE_PIN : string := "pin".
Definition GC_RECORD_TYPE_LEASE : string := "lease".
Definition GC_RECORD_TYPE_DRY_RUN : string := "gc-run-receipt".
Definition GC_RECORD_TYPE_SWEEP_PROGRESS : string := "sweep-progress".
Definition GC_RECORD_TYPE_REPAIR : string := "repair-receipt".
Definition GC_REFS_FORMAT : string := "zbf-container-children".

(** * The contract *)

Section Contract.
Context `{Platform}.

Definition num (n : N) : Value := Number (ZeroRef.show_u64 n).
Definition gc_contract_manifest : Value :=
  Object [
    ("schema_version", VString GC_SCHEMA_VERSION);
    ("store", Object [
      ("cas_layout", VString "blobs/sha256/<hh>/<hash>");
      ("cas_layout_version", num 1);
      ("digest", VString "sha256-lowercase-hex")]);
    ("producer_id", Object [
      ("max_bytes", num GC_MAX_PRODUCER_ID_BYTES);
      ("grammar", VString "[a-z0-9][a-z0-9._-]*[a-z0-9] (single alphanumeric allowed)")]);
    ("records", Object [
      ("reachability", VString GC_RECORD_TYPE_REACHABILITY);
      ("pin", VString GC_RECORD_TYPE_PIN);
      ("lease", VString GC_RECORD_TYPE_LEASE);
      ("run_receipt", VString GC_RECORD_TYPE_DRY_RUN);
      ("sweep_progress", VString GC_RECORD_TYPE_SWEEP_PROGRESS);
      ("repair_receipt", VString GC_RECORD_TYPE_REPAIR)]);
    ("bounds", Object [
      ("record_bytes", num GC_MAX_RECORD_BYTES);
      ("producer_namespaces", num GC_MAX_PRODUCER_NAMESPACES);
      ("blob_hashes", num GC_MAX_BLOB_HASHES);
      ("report_objects", num GC_MAX_REPORT_OBJECTS);
      ("evidence_items", num (N.of_nat GC_MAX_EVIDENCE_ITEMS));
      ("owner_host_bytes", num GC_MAX_OWNER_HOST_BYTES);
      ("minimum_grace_seconds", num GC_MIN_GRACE_SECONDS)]);
    ("safety", Object [
      ("cas_publish_lock", VString "shared");
      ("metadata_publish_lock", VString "exclusive");
      ("collector_lock", VString "exclusive-through-recheck-and-mutation");
      ("unknown_metadata", VString "retain-uncertain");
      ("snapshot_epoch", VString "strictly-monotonic-per-producer-project");
      ("repair", VString "quarantine-before-republish");
      ("leased_publish", VString "lease-before-object-under-exclusive-lock");
      ("expired_pin", VString "does-not-retain");
      ("lock_namespace", VString "real-directory-and-regular-file-only")]);
    ("reachability", Object [
      ("roots", VString "reachability-snapshot blob_hashes");
      ("refs", VString "content-derived-from-verified-object-bytes");
      ("refs_format", VString GC_REFS_FORMAT);
      ("closure", VString "transitive-from-roots-pins-and-leases");
      ("fail_closed", VString "corrupt-or-incomplete-refs-evidence-retains-uncertain-and-never-commits")])].

Definition contract_digest_hex (v : Value) : string := content_sha256_hex (string_bytes (canonical_json json_string v)).
Definition gc_contract_digest_hex : string := contract_digest_hex gc_contract_manifest.
End Contract.

(** * Names *)

Definition is_lower (b : byte) : bool := ZeroRef.in_range 97 122 b.
Definition name_byte (b : byte) : bool :=
  bool_decide (b = "."%char) || bool_decide (b = "_"%char) || bool_decide (b = "-"%char).

Definition is_valid_producer_id (s : string) : bool :=
  let b := string_bytes s in
  negb (bool_decide (b = [])) && (len b <=? GC_MAX_PRODUCER_ID_BYTES)%N
  && match head b with Some x => TwoPhase.is_ascii_alphanumeric x | None => false end
  && match last b with Some x => TwoPhase.is_ascii_alphanumeric x | None => false end
  && forallb (fun x => is_lower x || ZeroRef.is_ascii_digit x || name_byte x) b.

Definition is_valid_hash (s : string) : bool :=
  let b := string_bytes s in
  (len b =? 64)%N && forallb (fun x => ZeroRef.is_ascii_digit x || ZeroRef.in_range 97 102 x) b.

(** Pin, operation and run identifiers. *)
Definition is_valid_pin_id (s : string) : bool :=
  let b := string_bytes s in
  negb (bool_decide (b = [])) && (len b <=? 128)%N
  && TwoPhase.is_ascii_alphanumeric (default byte0 (head b))
  && forallb (fun x => TwoPhase.is_ascii_alphanumeric x || name_byte x) b.

Definition is_ascii_control (b : byte) : bool := (N_of_ascii b <? 32)%N || (N_of_ascii b =? 127)%N.
Definition is_valid_host (s : string) : bool :=
  let b := string_bytes s in
  negb (bool_decide (b = [])) && (len b <=? GC_MAX_OWNER_HOST_BYTES)%N && negb (existsb is_ascii_control b).

(** [Path::extension] of a file name: what follows the last dot, unless the
    name has none or starts with its only one. *)
Fixpoint after_last_dot (s : string) : option string :=
  match s with
  | EmptyString => None
  | String c rest =>
      match after_last_dot rest with
      | Some e => Some e
      | None => if Ascii.eqb c "." then Some rest else None
      end
  end.
Definition extension (name : string) : option string :=
  match name with EmptyString => None | String _ rest => after_last_dot rest end.

(** * Records *)

Record Header := mkHeader {
  hd_schema_version : string; hd_record_type : string; hd_engine : string; hd_project_id : string;
  hd_store_contract_digest : option string }.
Record ReachabilitySnapshot := mkSnapshot {
  rs_header : Header; rs_epoch : N; rs_published_at : string; rs_blob_hashes : list string }.
Record PinRecord := mkPin {
  pin_header : Header; pin_id : string; pin_created_at : string; pin_expires_at : option string;
  pin_blob_hash : string }.
Record LeaseOwner := mkOwner { owner_pid : N; owner_host : string }.
Record LeaseRecord := mkLease {
  ls_header : Header; ls_operation_id : string; ls_epoch : N; ls_owner : LeaseOwner; ls_started_at : string;
  ls_expires_at : string; ls_grace_seconds : N; ls_blob_hashes : list string }.

Inductive GcError :=
| GcIo | GcJson | SchemaViolation | CorruptMetadata | UncertainMetadata | GcPolicy | FaultInjected | GcPanic.
#[global] Instance GcError_eq_dec : EqDecision GcError.
Proof. solve_decision. Defined.

Definition gc_of_cas (e : CasError) : GcError :=
  match e with
  | CasIo => GcIo
  | DigestMismatch _ _ => CorruptMetadata
  | PolicyDenied => GcPolicy
  | Malformed => SchemaViolation
  | CasNotFound => UncertainMetadata
  end.

Class GcDisplay := {
  display_path : SPath -> string;
  display_error : GcError -> string;
  display_cas_error : CasError -> string;
  display_refs_error : RefsError -> string }.

(** The serialized forms. *)
Class GcCodecs := {
  #[global] snapshot_codec :: Codec ReachabilitySnapshot;
  #[global] pin_codec :: Codec PinRecord;
  #[global] lease_codec :: Codec LeaseRecord }.

Notation G := (M GcError StoreWorld).

Definition gio {A} (m : IO A) : G A := map_error (fun _ => GcIo) m.
Definition gcas {A} (m : M CasError StoreWorld A) : G A := map_error gc_of_cas m.
Definition require (c : bool) (e : GcError) : G () := if c then sret () else throw e.
Definition parse_time (s : string) : G (option Z) :=
  match parse_rfc3339 s with Ok t => sret t | Err _ => throw GcPanic end.
Definition require_time (s : string) (e : GcError) : G Z :=
  let! t := parse_time s in
  match t with Some t => sret t | None => throw e end.

(** * Files *)

Section Files.
Context (env : StoreEnv).

(** The nearest component named [gc], as a prefix of the path. *)
Fixpoint nearest_gc (n : nat) (dir : SPath) : option SPath :=
  match n with
  | O => None
  | S n' => if bool_decide (dir !! n' = Some GC_DIR) then Some (take n dir) else nearest_gc n' dir
  end.

(** A lost race to create the directory is checked once more. *)
Fixpoint ensure_real_dir (fuel : nat) (path : SPath) : IO () :=
  let! r := attempt (symlink_metadata env path) in
  match r with
  | Ok n => if is_real_dir n then sret () else throw OtherErr
  | Err NotFoundErr =>
      let! c := attempt (create_dir env path) in
      match c, fuel with
      | Ok _, _ => sret ()
      | Err AlreadyExistsErr, S fuel' => ensure_real_dir fuel' path
      | Err e, _ => throw e
      end
  | Err e => throw e
  end.

Fixpoint ensure_components (current : SPath) (relative : SPath) : IO () :=
  match relative with
  | [] => sret ()
  | x :: rest =>
      let current := (current ++ [x])%list in
      let! _ := ensure_real_dir 1 current in
      ensure_components current rest
  end.

Definition ensure_real_directory_tree (dir : SPath) : IO () :=
  match nearest_gc (length dir) dir with
  | None => throw OtherErr
  | Some gc_root =>
      let! _ := ensure_real_dir 1 gc_root in
      ensure_components gc_root (drop (length gc_root) dir)
  end.

Definition gc_atomic_write (path : SPath) (b : bytes) : IO () :=
  reject! (GC_MAX_RECORD_BYTES <? len b)%N with OtherErr in
  let! _ := ensure_real_directory_tree (removelast path) in
  atomic_write_file env path b.

Definition gc_join (parts : SPath) : SPath := GC_DIR :: parts.

Definition read_gc_json {T} `{Codec T} (path : SPath) : G T :=
  let! meta := gio (symlink_metadata env path) in
  reject! negb (is_real_file meta) with CorruptMetadata in
  reject! (GC_MAX_RECORD_BYTES <? node_len meta)%N with CorruptMetadata in
  let! b := gio (read_file env path) in
  reject! (GC_MAX_RECORD_BYTES <? len b)%N with CorruptMetadata in
  match decode b with Some v => sret v | None => throw GcJson end.

Definition serialize_gc_json {T} `{Codec T} (value : T) : result GcError bytes :=
  let b := encode value in
  if (GC_MAX_RECORD_BYTES <? len b)%N then Err GcPolicy else Ok b.

Definition write_gc_json {T} `{Codec T} (path : SPath) (value : T) : G () :=
  let! b := lift (serialize_gc_json value) in
  gio (gc_atomic_write path b).

Definition remove_gc_record (path : SPath) : G () :=
  let! r := attempt (remove_file env path) in
  match r with Ok _ | Err NotFoundErr => sret () | Err _ => throw GcIo end.

(** ** Reading records *)

Context `{Platform} `{GcCodecs}.

Definition bound_gc_contract_matches (schema_version contract_digest : string) : bool :=
  String.eqb schema_version GC_SCHEMA_VERSION && String.eqb contract_digest gc_contract_digest_hex.

(** The engine and project components of a record's path. *)
Definition validate_namespace (path : SPath) (engine project_id : string) : G () :=
  let n := length path in
  reject! (n <? 4)%nat with CorruptMetadata in
  let! _ := require (bool_decide (path !! (n - 3)%nat = Some engine)) CorruptMetadata in
  require (bool_decide (path !! (n - 2)%nat = Some project_id)) CorruptMetadata.

Definition validate_record_common (h : Header) (path : SPath) (expected_type : string) : G () :=
  let! _ := require (String.eqb (hd_record_type h) expected_type) CorruptMetadata in
  let! _ := require (String.eqb (hd_schema_version h) GC_SCHEMA_VERSION) CorruptMetadata in
  let! _ := require
    (match hd_store_contract_digest h with
     | Some digest => bound_gc_contract_matches (hd_schema_version h) digest
     | None => false
     end) CorruptMetadata in
  let! _ := require (is_valid_producer_id (hd_engine h)) CorruptMetadata in
  let! _ := require (is_valid_hash (hd_project_id h)) CorruptMetadata in
  validate_namespace path (hd_engine h) (hd_project_id h).

Definition read_reachability_snapshot (path : SPath) : G ReachabilitySnapshot :=
  let! snap := read_gc_json path in
  let! _ := validate_record_common (rs_header snap) path GC_RECORD_TYPE_REACHABILITY in
  let! _ := require (1 <=? rs_epoch snap)%N CorruptMetadata in
  let! _ := require_time (rs_published_at snap) CorruptMetadata in
  let! _ := require (N.of_nat (length (rs_blob_hashes snap)) <=? GC_MAX_BLOB_HASHES)%N CorruptMetadata in
  let! _ := require (forallb is_valid_hash (rs_blob_hashes snap)) CorruptMetadata in
  sret snap.

Definition read_pin_record (path : SPath) : G PinRecord :=
  let! pin := read_gc_json path in
  let! _ := validate_record_common (pin_header pin) path GC_RECORD_TYPE_PIN in
  let! _ := require (is_valid_pin_id (pin_id pin)) CorruptMetadata in
  let! created_at := require_time (pin_created_at pin) CorruptMetadata in
  let! _ :=
    match pin_expires_at pin with
    | Some exp =>
        let! expires_at := require_time exp CorruptMetadata in
        require (created_at <=? expires_at)%Z CorruptMetadata
    | None => sret ()
    end in
  let! _ := require (is_valid_hash (pin_blob_hash pin)) CorruptMetadata in
  sret pin.

Definition read_lease_record (path : SPath) : G LeaseRecord :=
  let! lease := read_gc_json path in
  let! _ := validate_record_common (ls_header lease) path GC_RECORD_TYPE_LEASE in
  let! _ := require (is_valid_pin_id (ls_operation_id lease)) CorruptMetadata in
  let! _ := require (1 <=? ls_epoch lease)%N CorruptMetadata in
  let! _ := require (negb (owner_pid (ls_owner lease) =? 0)%N) CorruptMetadata in
  let! _ := require (is_valid_host (owner_host (ls_owner lease))) CorruptMetadata in
  let! started_at := require_time (ls_started_at lease) CorruptMetadata in
  let! expires_at := require_time (ls_expires_at lease) CorruptMetadata in
  let! _ := require (started_at <=? expires_at)%Z CorruptMetadata in
  let! _ := require (GC_MIN_GRACE_SECONDS <=? ls_grace_seconds lease)%N CorruptMetadata in
  let! _ := require (N.of_nat (length (ls_blob_hashes lease)) <=? GC_MAX_BLOB_HASHES)%N CorruptMetadata in
  let! _ := require (forallb is_valid_hash (ls_blob_hashes lease)) CorruptMetadata in
  sret lease.
End Files.

(** * Mark state *)

(** [live]: hash, reasons and evidence. *)
Record MarkState := mkMark {
  live : list (string * (list string * list string));
  uncertain : bool;
  global_evidence : list string }.
Definition MarkState_default : MarkState := mkMark [] false [].

Definition contains_str (s : string) (l : list string) : bool := existsb (String.eqb s) l.

(** A vector without repetition, cut at the bound with a marker. *)
Definition push_bounded (values : list string) (value : string) : list string :=
  if contains_str value values then values
  else if (length values <? GC_MAX_EVIDENCE_ITEMS)%nat then (values ++ [value])%list
  else if contains_str GC_EVIDENCE_TRUNCATED values then values
  else <[(GC_MAX_EVIDENCE_ITEMS - 1)%nat := GC_EVIDENCE_TRUNCATED]> values.

(** Drop the largest items other than the marker until the bound holds. *)
Fixpoint drop_largest (fuel : nat) (values : list string) : list string :=
  match fuel with
  | O => values
  | S fuel' =>
      if (length values <=? GC_MAX_EVIDENCE_ITEMS)%nat then values
      else
        match List.find (fun x => negb (String.eqb x GC_EVIDENCE_TRUNCATED)) (rev values) with
        | Some removable => drop_largest fuel' (List.filter (fun x => negb (String.eqb x removable)) values)
        | None => values
        end
  end.
Definition push_bounded_set (values : list string) (value : string) : list string :=
  let values := snd (bset_insert value values) in
  if (length values <=? GC_MAX_EVIDENCE_ITEMS)%nat then values
  else
    let values := snd (bset_insert GC_EVIDENCE_TRUNCATED values) in
    drop_largest (length values) values.

Definition mark_uncertain (s : MarkState) (evidence : string) : MarkState :=
  mkMark (live s) true (push_bounded_set (global_evidence s) evidence).

Definition mark_hash (s : MarkState) (hash reason evidence : string) : MarkState :=
  if (GC_MAX_REPORT_OBJECTS <=? N.of_nat (length (live s)))%N && negb (bmap_mem hash (live s)) then
    mark_uncertain s ("live hash traversal exceeded " +:+ ZeroRef.show_u64 GC_MAX_REPORT_OBJECTS)
  else
    mkMark
      (bmap_update hash ([], [])
        (fun meta => (snd (bset_insert reason (fst meta)), push_bounded_set (snd meta) evidence)) (live s))
      (uncertain s) (global_evidence s).

Definition mark_hashes (hashes : list string) (reason evidence : string) (s : MarkState) : MarkState :=
  foldl (fun s h => mark_hash s h reason evidence) s hashes.

(** * Walks *)

Section Walks.
Context (env : StoreEnv) {S : Type}.

(** A real directory entry with a UTF-8 name. *)
Definition require_dir_utf8_name (name : string) (n : Node) : G string :=
  let! _ := gio (entry_call env) in
  reject! negb (is_real_dir n) with CorruptMetadata in
  reject! negb (ZeroRef.valid_utf8 (string_bytes name)) with CorruptMetadata in
  sret name.

Fixpoint walk_project_entries (engine_dir : SPath) (f : SPath -> S -> G S) (entries : Children) (acc : N * S)
  : G (N * S) :=
  match entries with
  | [] => sret acc
  | (name, n) :: rest =>
      let '(project_count, s) := acc in
      let! _ := gio (entry_call env) in
      let! project_id := require_dir_utf8_name name n in
      let! _ := require (is_valid_hash project_id) CorruptMetadata in
      let project_count := (project_count + 1)%N in
      let! _ := require (project_count <=? GC_MAX_PROJECT_NAMESPACES)%N GcPolicy in
      let! s := f (engine_dir ++ [name])%list s in
      walk_project_entries engine_dir f rest (project_count, s)
  end.
Definition walk_project_namespaces (engine_dir : SPath) (f : SPath -> S -> G S) (acc : N * S) : G (N * S) :=
  let! entries := gio (read_dir env engine_dir) in
  walk_project_entries engine_dir f entries acc.

Fixpoint walk_producers (dir : SPath) (f : SPath -> S -> G S) (entries : Children) (producer_count : N) (acc : N * S)
  : G (N * S) :=
  match entries with
  | [] => sret acc
  | (name, n) :: rest =>
      let! _ := gio (entry_call env) in
      let! producer_id := require_dir_utf8_name name n in
      let! _ := require (is_valid_producer_id producer_id) CorruptMetadata in
      let producer_count := (producer_count + 1)%N in
      let! _ := require (producer_count <=? GC_MAX_PRODUCER_NAMESPACES)%N GcPolicy in
      let! acc := walk_project_namespaces (dir ++ [name])%list f acc in
      walk_producers dir f rest producer_count acc
  end.

Definition walk_gc_projects (subdir : string) (f : SPath -> S -> G S) (s : S) : G S :=
  let dir := [GC_DIR; subdir] in
  let! r := attempt (symlink_metadata env dir) in
  match r with
  | Ok meta =>
      reject! negb (is_real_dir meta) with CorruptMetadata in
      let! entries := gio (read_dir env dir) in
      let! acc := walk_producers dir f entries 0 (0%N, s) in
      sret (snd acc)
  | Err NotFoundErr => sret s
  | Err _ => throw GcIo
  end.
End Walks.

Section Json.
Context (env : StoreEnv) {S : Type}.

Fixpoint walk_json_entries (project_dir : SPath) (f : SPath -> S -> G S) (entries : Children) (acc : N * S)
  : G (N * S) :=
  match entries with
  | [] => sret acc
  | (name, n) :: rest =>
      let '(json_count, s) := acc in
      let! _ := gio (entry_call env) in
      let! _ := gio (entry_call env) in
      reject! negb (is_real_file n) with CorruptMetadata in
      if bool_decide (extension name = Some "json") then
        reject! (GC_MAX_BLOB_HASHES <=? json_count)%N with GcPolicy in
        let! s := f (project_dir ++ [name])%list s in
        walk_json_entries project_dir f rest ((json_count + 1)%N, s)
      else walk_json_entries project_dir f rest (json_count, s)
  end.

Definition walk_gc_json (subdir : string) (f : SPath -> S -> G S) (s : S) : G S :=
  let! acc :=
    walk_gc_projects env subdir
      (fun project_dir acc =>
         let! entries := gio (read_dir env project_dir) in
         walk_json_entries project_dir f entries acc) (0%N, s) in
  sret (snd acc).
End Json.

(** * Loading the mark state *)

Section Load.
Context (env : StoreEnv) `{Platform} `{GcCodecs} `{GcDisplay}.

(** An unreadable record makes the state uncertain; a panic stays one. *)
Definition or_uncertain {T} (path : SPath) (read : G T) (visit : T -> MarkState -> G MarkState) (s : MarkState)
  : G MarkState :=
  let! r := attempt (E' := GcError) read in
  match r with
  | Ok record => visit record s
  | Err GcPanic => throw GcPanic
  | Err err => sret (mark_uncertain s (display_path path +:+ ": " +:+ display_error err))
  end.

Definition walk_gc_records {T} (subdir : string) (read : SPath -> G T) (visit : SPath -> T -> MarkState -> G MarkState)
    (s : MarkState) : G MarkState :=
  walk_gc_json env subdir (fun path s => or_uncertain path (read path) (visit path) s) s.

Definition visit_pin (now : Z) (path : SPath) (pin : PinRecord) (s : MarkState) : G MarkState :=
  let! expires_at := match pin_expires_at pin with Some exp => parse_time exp | None => sret None end in
  if match expires_at with Some expires_at => (expires_at <=? now)%Z | None => false end then sret s
  else sret (mark_hash s (pin_blob_hash pin) "pin" ("pin " +:+ display_path path)).
Definition load_all_pins (s : MarkState) (now : Z) : G MarkState :=
  walk_gc_records "pins" (read_pin_record env) (visit_pin now) s.

Definition visit_root (project_dir : SPath) (acc : bool * MarkState) : G (bool * MarkState) :=
  let s := snd acc in
  let current := (project_dir ++ ["current.json"])%list in
  let! present := is_file_at env current in
  let! s :=
    if negb present then sret (mark_uncertain s ("missing reachability snapshot " +:+ display_path current))
    else
      or_uncertain current (read_reachability_snapshot env current)
        (fun snap s =>
           sret (mark_hashes (rs_blob_hashes snap) "reachability-root"
             ("root " +:+ display_path current +:+ " epoch " +:+ ZeroRef.show_u64 (rs_epoch snap)) s)) s in
  sret (true, s).
Definition load_reachability_roots (s : MarkState) : G MarkState :=
  let! present := is_dir_at env [GC_DIR; "roots"] in
  if negb present then sret (mark_uncertain s "missing gc/roots directory; reachability metadata absent")
  else
    let! acc := walk_gc_projects env "roots" visit_root (false, s) in
    let '(saw_any_project, s) := acc in
    sret (if saw_any_project then s
          else mark_uncertain s "gc/roots has no project namespaces; reachability metadata absent").

Definition apply_lease_liveness (now : Z) (grace_seconds : N) (path : SPath) (lease : LeaseRecord) (s : MarkState)
  : G MarkState :=
  let! parsed := parse_time (ls_expires_at lease) in
  let expires := default now parsed in
  let grace_end := checked_add_secs expires (N.max (ls_grace_seconds lease) grace_seconds) in
  let active := (now <=? expires)%Z in
  let in_grace := negb active && match grace_end with None => true | Some stop => (now <? stop)%Z end in
  let reason := if active then "active-lease" else "stale-lease-grace" in
  let evidence :=
    if active then "lease " +:+ display_path path
    else if in_grace then "lease " +:+ display_path path +:+ " inside grace"
    else "lease " +:+ display_path path +:+ " retained on uncertain liveness" in
  let s :=
    if negb active && negb in_grace then
      mark_uncertain s ("lease " +:+ display_path path +:+ " stale outside grace; owner liveness unverified")
    else s in
  sret (mark_hashes (ls_blob_hashes lease) reason evidence s).

Definition trace_seed (seed : string) (s : MarkState) : G MarkState :=
  let! r := attempt (get_verified env seed) in
  match r with
  | Ok b =>
      match refs_from_verified_bytes b with
      | Ok refs => sret (mark_hashes refs "ref-child" ("ref from " +:+ seed) s)
      | Err reason =>
          sret (mark_uncertain s ("refs evidence corrupt for " +:+ seed +:+ ": " +:+ display_refs_error reason))
      end
  | Err CasNotFound =>
      sret (mark_uncertain s ("reachable seed " +:+ seed +:+ " missing from CAS; refs evidence incomplete"))
  | Err error => sret (mark_uncertain s ("refs seed " +:+ seed +:+ " unreadable: " +:+ display_cas_error error))
  end.
Fixpoint trace_seeds (seeds : list string) (s : MarkState) : G MarkState :=
  match seeds with
  | [] => sret s
  | seed :: rest => let! s := trace_seed seed s in trace_seeds rest s
  end.
Definition trace_refs (s : MarkState) : G MarkState := trace_seeds (bmap_keys (live s)) s.

Definition load_mark_state (now : Z) (grace_seconds : N) : G MarkState :=
  let! s := load_reachability_roots MarkState_default in
  let! s := load_all_pins s now in
  let! s := walk_gc_records "leases" (read_lease_record env) (apply_lease_liveness now grace_seconds) s in
  trace_refs s.
End Load.
