(* ===== verification/GcMarkTheorems.v ===== *)
(** Soundness of marking: what the metadata references is live in the mark
    state, unless the state is uncertain. *)

From S2P Require Import Prelude.
From S2P Require Import Ordering.
From S2P Require Import BMap.
From S2P Require Import DurableStore.
From S2P Require Import GcTime.
From S2P Require Import GcRefs.
From S2P Require Import StoreTree.
From S2P Require Import Cas.
From S2P Require Import Gc.
From S2P Require Import Zbf.
#[local] Open Scope string_scope.

Lemma sbind_Ok {E W A B} (m : M E W A) (k : A -> M E W B) w b w' : sbind m k w = (Ok b, w') ->
  exists a w1, m w = (Ok a, w1) /\ k a w1 = (Ok b, w').
Proof. unfold sbind. destruct (m w) as [[a|e] w1]; [|done]. eauto. Qed.
Lemma attempt_Ok {E E' W A} (m : M E W A) w r w' : attempt (E' := E') m w = (Ok r, w') -> m w = (r, w').
Proof. unfold attempt. destruct (m w). by intros [= -> ->]. Qed.
Lemma map_error_Ok {E E' W A} (f : E -> E') (m : M E W A) w a w' : map_error f m w = (Ok a, w') -> m w = (Ok a, w').
Proof. unfold map_error. destruct (m w) as [[]]; by intros [= -> ->]. Qed.
Lemma require_passes c e w a w' : require c e w = (Ok a, w') -> c = true /\ w' = w.
Proof. unfold require. destruct c; by intros [= _ ->]. Qed.

(** * Reading keeps the tree *)

Section Reads.
Context (env : StoreEnv) `{Platform} `{GcCodecs} `{GcDisplay}.

Lemma reads_require c e : reads (require c e).
Proof. unfold require. split_reads. Qed.
Lemma reads_parse_time s : reads (parse_time s).
Proof. unfold parse_time. split_reads. Qed.
Hint Resolve reads_require reads_parse_time : frame.
Lemma reads_require_time s e : reads (require_time s e).
Proof. unfold require_time. split_reads. Qed.
Hint Resolve reads_require_time : frame.
Lemma reads_gio {A} (m : IO A) : reads m -> reads (gio m).
Proof. apply reads_map_error. Qed.
Lemma reads_gcas {A} (m : M CasError StoreWorld A) : reads m -> reads (gcas m).
Proof. apply reads_map_error. Qed.
Lemma reads_io {A} (m : IO A) : reads m -> reads (io m).
Proof. apply reads_map_error. Qed.
Hint Resolve reads_gio reads_gcas reads_io : frame.

Lemma reads_read_gc_json {T} `{Codec T} path : reads (read_gc_json env (T := T) path).
Proof. unfold read_gc_json. split_reads. Qed.
Hint Resolve reads_read_gc_json : frame.
Lemma reads_validate_record_common h path ty : reads (validate_record_common h path ty).
Proof. unfold validate_record_common, validate_namespace. split_reads. Qed.
Hint Resolve reads_validate_record_common : frame.
Lemma reads_read_reachability_snapshot path : reads (read_reachability_snapshot env path).
Proof. unfold read_reachability_snapshot. split_reads. Qed.
Lemma reads_read_pin_record path : reads (read_pin_record env path).
Proof. unfold read_pin_record. split_reads. Qed.
Lemma reads_read_lease_record path : reads (read_lease_record env path).
Proof. unfold read_lease_record. split_reads. Qed.
Hint Resolve reads_read_reachability_snapshot reads_read_pin_record reads_read_lease_record : frame.

Lemma reads_read_verified_at path expected limit : reads (read_verified_at env path expected limit).
Proof. unfold read_verified_at. split_reads. Qed.
Hint Resolve reads_read_verified_at : frame.
Lemma reads_get_verified sha : reads (get_verified env sha).
Proof. unfold get_verified, get_verified_limited, check_regular. split_reads. Qed.
Hint Resolve reads_get_verified : frame.

Section Walk.
Context {S : Type} (f : SPath -> S -> G S) (Hf : forall p s, reads (f p s)).
Lemma reads_walk_project_entries dir entries : forall acc, reads (walk_project_entries env dir f entries acc).
Proof. induction entries as [|[name n] rest IH]; cbn; intros [c s]; unfold require_dir_utf8_name; split_reads. Qed.
Hint Resolve reads_walk_project_entries : frame.
Lemma reads_walk_producers dir entries : forall c acc, reads (walk_producers env dir f entries c acc).
Proof.
  induction entries as [|[name n] rest IH]; cbn; intros c acc; unfold require_dir_utf8_name, walk_project_namespaces;
    split_reads.
Qed.
Hint Resolve reads_walk_producers : frame.
Lemma reads_walk_gc_projects subdir s : reads (walk_gc_projects env subdir f s).
Proof. unfold walk_gc_projects. split_reads. Qed.
Lemma reads_walk_json_entries dir entries : forall acc, reads (walk_json_entries env dir f entries acc).
Proof. induction entries as [|[name n] rest IH]; cbn; intros [c s]; split_reads. Qed.
End Walk.
Hint Resolve reads_walk_gc_projects reads_walk_json_entries : frame.

Lemma reads_walk_gc_json {S} (f : SPath -> S -> G S) (Hf : forall p s, reads (f p s)) subdir s :
  reads (walk_gc_json env subdir f s).
Proof.
  unfold walk_gc_json. apply reads_sbind; [|split_reads]. apply reads_walk_gc_projects. intros p a. split_reads.
Qed.
Lemma reads_or_uncertain {T} path (read : G T) visit s :
  reads read -> (forall r s, reads (visit r s)) -> reads (or_uncertain path read visit s).
Proof. intros Hr Hv. unfold or_uncertain. split_reads. Qed.
Lemma reads_walk_gc_records {T} subdir (read : SPath -> G T) visit s :
  (forall p, reads (read p)) -> (forall p r s, reads (visit p r s)) -> reads (walk_gc_records env subdir read visit s).
Proof. intros Hr Hv. apply reads_walk_gc_json. intros p a. by apply reads_or_uncertain. Qed.
Lemma reads_visit_pin now path pin s : reads (visit_pin now path pin s).
Proof. unfold visit_pin. split_reads. Qed.
Lemma reads_apply_lease now g path lease s : reads (apply_lease_liveness now g path lease s).
Proof. unfold apply_lease_liveness. split_reads. Qed.
Lemma reads_visit_root dir acc : reads (visit_root env dir acc).
Proof.
  unfold visit_root. apply reads_sbind; [split_reads|]. intros []; cbn [negb]; split_reads.
Qed.
Hint Resolve reads_visit_root : frame.
Lemma reads_load_reachability_roots s : reads (load_reachability_roots env s).
Proof.
  unfold load_reachability_roots. apply reads_sbind; [split_reads|]. intros []; cbn [negb]; split_reads.
Qed.
Lemma reads_trace_seed seed s : reads (trace_seed env seed s).
Proof. unfold trace_seed. split_reads. Qed.
Hint Resolve reads_trace_seed : frame.
Lemma reads_trace_seeds seeds : forall s, reads (trace_seeds env seeds s).
Proof. induction seeds as [|seed rest IH]; intros s; cbn; split_reads. Qed.
Lemma reads_load_mark_state now g : reads (load_mark_state env now g).
Proof.
  unfold load_mark_state. apply reads_sbind; [apply reads_load_reachability_roots|intros].
  apply reads_sbind; [apply reads_walk_gc_records; [apply reads_read_pin_record|apply reads_visit_pin]|intros].
  apply reads_sbind; [apply reads_walk_gc_records; [apply reads_read_lease_record|apply reads_apply_lease]|intros].
  apply reads_trace_seeds.
Qed.
End Reads.

(** * Mark states grow *)

Definition marked (h : string) (s : MarkState) : Prop := bmap_mem h (live s) = true.
Definition covered (h : string) (s : MarkState) : Prop := uncertain s = true \/ marked h s.
Definition grows (s s' : MarkState) : Prop :=
  (uncertain s = true -> uncertain s' = true) /\ forall h, marked h s -> marked h s'.

#[global] Instance grows_preorder : PreOrder grows.
Proof. split; [by split|]. intros s1 s2 s3 [Hu1 Hm1] [Hu2 Hm2]. split; auto. Qed.
Lemma grows_covered h s s' : grows s s' -> covered h s -> covered h s'.
Proof. intros [Hu Hm] [?|?]; [left|right]; auto. Qed.

Lemma bmap_mem_lookup {V} h (m : list (string * V)) : bmap_mem h m = true <-> is_Some (bmap_lookup h m).
Proof. unfold bmap_mem. destruct (bmap_lookup h m); split; intros Hx; eauto; try done; by destruct Hx. Qed.

Lemma mark_uncertain_grows s ev : grows s (mark_uncertain s ev).
Proof. by split. Qed.
Lemma mark_hash_grows s h r ev : grows s (mark_hash s h r ev).
Proof.
  unfold mark_hash. destruct (_ && _); [apply mark_uncertain_grows|]. split; [done|]. intros h' Hh'.
  unfold marked in *. cbn [live]. rewrite bmap_mem_lookup in *. destruct (decide (h = h')) as [->|Hn].
  - rewrite bmap_lookup_update. eauto.
  - by rewrite bmap_lookup_update_ne.
Qed.
Lemma mark_hash_covers s h r ev : covered h (mark_hash s h r ev).
Proof.
  unfold mark_hash. destruct (_ && _); [by left|]. right. unfold marked. cbn [live].
  rewrite bmap_mem_lookup, bmap_lookup_update. eauto.
Qed.
Lemma mark_hashes_grows hs r ev : forall s, grows s (mark_hashes hs r ev s).
Proof.
  induction hs as [|h hs IH]; intros s; [done|]. cbn. etrans; [apply (mark_hash_grows s h r ev)|apply IH].
Qed.
Lemma mark_hashes_covers h hs r ev : h ∈ hs -> forall s, covered h (mark_hashes hs r ev s).
Proof.
  induction 1 as [|h h' hs _ IH]; intros s; [|apply IH]. cbn.
  eapply grows_covered; [apply mark_hashes_grows|apply mark_hash_covers].
Qed.

(** * Walks visit every entry *)

Section Visits.
Context (env : StoreEnv) {S : Type} (le : relation S) `{!PreOrder le} (f : SPath -> S -> G S).
Hypothesis f_reads : forall p s, reads (f p s).
Hypothesis f_grows : forall p s w s' w', f p s w = (Ok s', w') -> le s s'.

(** [f] was run at [p], and its result is below [s]. *)
Definition visited (t : Node) (p : SPath) (s : S) : Prop :=
  exists s1 w1 s2 w2, f p s1 w1 = (Ok s2, w2) /\ root w1 = t /\ le s2 s.

Lemma visited_le t p s s' : visited t p s -> le s s' -> visited t p s'.
Proof. intros (s1 & w1 & s2 & w2 & Hf & Ht & Hl) Hs. exists s1, w1, s2, w2. split_and!; [done..|by etrans]. Qed.

Lemma Ok_reads {E A} (m : M E StoreWorld A) w r w' : reads m -> m w = (r, w') -> root w' = root w.
Proof. intros Hm Hr. specialize (Hm w). by rewrite Hr in Hm. Qed.

Lemma require_dir_Ok name n w x w' : require_dir_utf8_name env name n w = (Ok x, w') ->
  root w' = root w /\ is_real_dir n = true /\ x = name.
Proof.
  unfold require_dir_utf8_name. intros Hr. apply sbind_Ok in Hr as (? & w1 & H1 & Hr).
  apply Ok_reads in H1; [|apply reads_gio, reads_entry_call]. destruct (is_real_dir n); [|done].
  destruct (ZeroRef.valid_utf8 _); [|done]. by injection Hr as <- <-.
Qed.

Lemma walk_project_entries_visits dir entries : forall acc w acc' w',
  walk_project_entries env dir f entries acc w = (Ok acc', w') ->
  le (snd acc) (snd acc') /\ root w' = root w /\
  forall name n, (name, n) ∈ entries -> visited (root w) (dir ++ [name])%list (snd acc').
Proof.
  induction entries as [|[name n] rest IH]; intros [c s] w acc' w' Hw; cbn [walk_project_entries] in Hw.
  - injection Hw as <- <-. split_and!; [done..|]. intros ?? Hin. by apply elem_of_nil in Hin.
  - apply sbind_Ok in Hw as (? & w1 & H1 & Hw). apply Ok_reads in H1; [|apply reads_gio, reads_entry_call].
    apply sbind_Ok in Hw as (? & w2 & H2 & Hw). apply require_dir_Ok in H2 as (H2 & _ & ->).
    apply sbind_Ok in Hw as (? & w3 & H3 & Hw). apply require_passes in H3 as [_ ->].
    apply sbind_Ok in Hw as (? & w4 & H4 & Hw). apply require_passes in H4 as [_ ->].
    apply sbind_Ok in Hw as (s1 & w5 & Hf & Hw). pose proof (Ok_reads _ _ _ _ (f_reads _ _) Hf) as H5.
    apply IH in Hw as (Hle & Hr & Hv). cbn [snd] in *. apply f_grows in Hf as Hg.
    split_and!; [by etrans|congruence|]. intros name' n' [[= -> ->]|Hin]%elem_of_cons.
    + exists s, w2, s1, w5. split_and!; [done|congruence|done].
    + replace (root w) with (root w5) by congruence. by eapply Hv.
Qed.

Lemma walk_project_namespaces_visits dir acc w acc' w' :
  walk_project_namespaces env dir f acc w = (Ok acc', w') ->
  le (snd acc) (snd acc') /\ root w' = root w /\
  forall name n cs, node_at dir (root w) = Ok (NDir cs) -> (name, n) ∈ cs ->
    visited (root w) (dir ++ [name])%list (snd acc').
Proof.
  unfold walk_project_namespaces. intros Hw. apply sbind_Ok in Hw as (entries & w1 & H1 & Hw).
  apply map_error_Ok, read_dir_Ok in H1 as [He H1].
  apply walk_project_entries_visits in Hw as (Hle & Hr & Hv). rewrite H1 in *. split_and!; [done..|].
  intros name n cs Hd Hin. rewrite Hd in He. injection He as <-. by eapply Hv.
Qed.

Lemma walk_producers_visits dir entries : forall c acc w acc' w',
  walk_producers env dir f entries c acc w = (Ok acc', w') ->
  le (snd acc) (snd acc') /\ root w' = root w /\
  forall producer n cs project m, (producer, n) ∈ entries -> node_at (dir ++ [producer])%list (root w) = Ok (NDir cs) ->
    (project, m) ∈ cs -> visited (root w) ((dir ++ [producer]) ++ [project])%list (snd acc').
Proof.
  induction entries as [|[name n] rest IH]; intros c acc w acc' w' Hw; cbn [walk_producers] in Hw.
  - injection Hw as <- <-. split_and!; [done..|]. intros ????? Hin. by apply elem_of_nil in Hin.
  - apply sbind_Ok in Hw as (? & w1 & H1 & Hw). apply Ok_reads in H1; [|apply reads_gio, reads_entry_call].
    apply sbind_Ok in Hw as (? & w2 & H2 & Hw). apply require_dir_Ok in H2 as (H2 & _ & ->).
    apply sbind_Ok in Hw as (? & w3 & H3 & Hw). apply require_passes in H3 as [_ ->].
    apply sbind_Ok in Hw as (? & w4 & H4 & Hw). apply require_passes in H4 as [_ ->].
    apply sbind_Ok in Hw as (acc1 & w5 & Hp & Hw). apply walk_project_namespaces_visits in Hp as (Hle1 & Hr1 & Hv1).
    apply IH in Hw as (Hle & Hr & Hv). split_and!; [by etrans|congruence|].
    intros producer n' cs project m [[= -> ->]|Hin]%elem_of_cons Hd Hc.
    + replace (root w) with (root w2) in * by congruence. eapply visited_le; [by eapply Hv1|done].
    + replace (root w) with (root w5) in * by congruence. by eapply Hv.
Qed.

Lemma walk_gc_projects_visits subdir s w s' w' :
  walk_gc_projects env subdir f s w = (Ok s', w') ->
  le s s' /\ root w' = root w /\
  forall producer project n, node_at [GC_DIR; subdir; producer; project] (root w) = Ok n ->
    visited (root w) [GC_DIR; subdir; producer; project] s'.
Proof.
  unfold walk_gc_projects. intros Hw. apply sbind_Ok in Hw as (r & w1 & H1 & Hw).
  apply attempt_Ok, symlink_metadata_inv in H1 as [H1 Hmeta].
  setoid_rewrite (node_at_app [GC_DIR; subdir] [_; _]).
  destruct r as [meta|[]]; try done.
  - destruct (is_real_dir meta); [|done]. cbn [negb] in Hw.
    apply sbind_Ok in Hw as (entries & w2 & H2 & Hw). apply map_error_Ok, read_dir_Ok in H2 as [Hd H2].
    apply sbind_Ok in Hw as (acc & w3 & Hp & Hw). injection Hw as <- <-.
    apply walk_producers_visits in Hp as (Hle & Hr' & Hv). cbn [snd] in *. rewrite H2, H1 in *. split_and!; [done..|].
    intros producer project n Hn. rewrite Hd in Hn. cbn in Hn.
    destruct (child producer entries) as [[|ps|]|] eqn:Hp; try done. destruct (child project ps) as [pn|] eqn:Hpn; [|done].
    apply (Hv producer (NDir ps) ps project pn); [by apply child_elem| |by apply child_elem].
    rewrite (node_at_app [GC_DIR; subdir]), Hd. cbn. by rewrite Hp.
  - injection Hw as <- <-. split_and!; [done..|]. intros producer project n Hn. exfalso. destruct Hmeta as [Hm|]; [|done].
    by rewrite <- Hm in Hn.
Qed.

Lemma walk_json_entries_visits dir entries : forall acc w acc' w',
  walk_json_entries env dir f entries acc w = (Ok acc', w') ->
  le (snd acc) (snd acc') /\ root w' = root w /\
  forall name n, (name, n) ∈ entries -> extension name = Some "json" -> visited (root w) (dir ++ [name])%list (snd acc').
Proof.
  induction entries as [|[name n] rest IH]; intros [c s] w acc' w' Hw; cbn [walk_json_entries] in Hw.
  - injection Hw as <- <-. split_and!; [done..|]. intros ?? Hin. by apply elem_of_nil in Hin.
  - apply sbind_Ok in Hw as (? & w1 & H1 & Hw). apply Ok_reads in H1; [|apply reads_gio, reads_entry_call].
    apply sbind_Ok in Hw as (? & w2 & H2 & Hw). apply Ok_reads in H2; [|apply reads_gio, reads_entry_call].
    destruct (is_real_file n); [|done]. cbn [negb] in Hw. case_bool_decide as He.
    + destruct (_ <=? c)%N; [done|].
      apply sbind_Ok in Hw as (s1 & w3 & Hf & Hw). pose proof (Ok_reads _ _ _ _ (f_reads _ _) Hf) as H3.
      apply IH in Hw as (Hle & Hr & Hv). cbn [snd] in *. apply f_grows in Hf as Hg.
      split_and!; [by etrans|congruence|]. intros name' n' [[= -> ->]|Hin]%elem_of_cons He'.
      * exists s, w2, s1, w3. split_and!; [done|congruence|done].
      * replace (root w) with (root w3) by congruence. by eapply Hv.
    + apply IH in Hw as (Hle & Hr & Hv). cbn [snd] in *. split_and!; [done|congruence|].
      intros name' n' [[= -> ->]|Hin]%elem_of_cons He'; [done|].
      replace (root w) with (root w2) by congruence. by eapply Hv.
Qed.
End Visits.

Section JsonVisits.
Context (env : StoreEnv) {S : Type} (le : relation S) `{!PreOrder le} (f : SPath -> S -> G S).
Hypothesis f_reads : forall p s, reads (f p s).
Hypothesis f_grows : forall p s w s' w', f p s w = (Ok s', w') -> le s s'.

Lemma walk_gc_json_visits subdir s w s' w' :
  walk_gc_json env subdir f s w = (Ok s', w') ->
  le s s' /\ root w' = root w /\
  forall producer project name n, node_at [GC_DIR; subdir; producer; project; name] (root w) = Ok n ->
    extension name = Some "json" -> visited le f (root w) [GC_DIR; subdir; producer; project; name] s'.
Proof.
  unfold walk_gc_json. intros Hw. apply sbind_Ok in Hw as (acc & w1 & Hp & Hw). injection Hw as <- <-.
  set (g := fun project_dir acc => _) in Hp. set (le' := fun a b : N * S => le (snd a) (snd b)).
  assert (PreOrder le') by (split; unfold le'; [intros ?; done|intros ???; by etrans]).
  assert (Hg_reads : forall p a, reads (g p a)).
  { intros p a. unfold g. apply reads_sbind; [apply reads_gio, reads_read_dir|intros; by apply reads_walk_json_entries]. }
  assert (Hg_grows : forall p a w2 a' w3, g p a w2 = (Ok a', w3) -> le' a a').
  { intros p a w2 a' w3 Hrun. unfold g in Hrun. apply sbind_Ok in Hrun as (entries & w4 & H4 & Hrun).
    by apply (walk_json_entries_visits env le f f_reads f_grows) in Hrun as (Hle & _ & _). }
  destruct (walk_gc_projects_visits env le' g Hg_reads Hg_grows _ _ _ _ _ Hp) as (Hle & Hr & Hv).
  split_and!; [done..|]. intros producer project name n Hn He.
  rewrite (node_at_app [GC_DIR; subdir; producer; project] [name]) in Hn.
  destruct (node_at [GC_DIR; subdir; producer; project] (root w)) as [d|] eqn:Hd; [|done]. cbn in Hn.
  destruct d as [|cs|]; [done| |done]. destruct (child name cs) as [m|] eqn:Hc; [|done].
  destruct (Hv producer project _ Hd) as (s1 & w2 & s2 & w3 & Hrun & Ht & Hl). unfold g in Hrun.
  apply sbind_Ok in Hrun as (entries & w4 & H4 & Hrun). apply map_error_Ok, read_dir_Ok in H4 as [He4 H4].
  apply (walk_json_entries_visits env le f f_reads f_grows) in Hrun as (_ & _ & Hv2).
  rewrite Ht in *. rewrite He4 in Hd. injection Hd as ->. rewrite H4 in Hv2.
  eapply visited_le; [done|apply (Hv2 name m); [by apply child_elem|done]|done].
Qed.
End JsonVisits.

(** * What the metadata references *)

Definition file_at (t : Node) (p : SPath) (b : bytes) : Prop := exists m, node_at p t = Ok (NFile b m).

Definition pin_expired (now : Z) (pin : PinRecord) : Prop :=
  exists text e, pin_expires_at pin = Some text /\ parse_rfc3339 text = Ok (Some e) /\ (e <= now)%Z.

Section Referenced.
Context `{Platform} `{GcCodecs}.

(** Named by a root snapshot, a pin that has not expired, or a lease. *)
Inductive direct_ref (t : Node) (now : Z) (h : string) : Prop :=
| ref_root producer project b snap :
    file_at t [GC_DIR; "roots"; producer; project; "current.json"] b -> decode b = Some snap ->
    h ∈ rs_blob_hashes snap -> direct_ref t now h
| ref_pin producer project name b pin :
    file_at t [GC_DIR; "pins"; producer; project; name] b -> extension name = Some "json" -> decode b = Some pin ->
    pin_blob_hash pin = h -> ~ pin_expired now pin -> direct_ref t now h
| ref_lease producer project name b lease :
    file_at t [GC_DIR; "leases"; producer; project; name] b -> extension name = Some "json" -> decode b = Some lease ->
    h ∈ ls_blob_hashes lease -> direct_ref t now h.

(** Or embedded, at any depth, in a container so named. *)
Inductive referenced (t : Node) (now : Z) (h : string) : Prop :=
| referenced_direct : direct_ref t now h -> referenced t now h
| referenced_embedded seed b :
    direct_ref t now seed -> file_at t (object_path seed) b -> take 8 b = ZBF_MAGIC -> ref_of b h -> referenced t now h.
End Referenced.

Section Sound.
Context (env : StoreEnv) `{Platform} `{GcCodecs} `{GcDisplay}.

Lemma read_gc_json_Ok {T} `{Codec T} path w (v : T) w' : read_gc_json env path w = (Ok v, w') ->
  exists b, file_at (root w) path b /\ decode b = Some v.
Proof.
  unfold read_gc_json. intros Hr. apply sbind_Ok in Hr as (n & w1 & Hm & Hr). apply map_error_Ok in Hm.
  apply symlink_metadata_inv in Hm as [Hm _]. destruct (is_real_file n); [|done]. destruct (_ <? _)%N; [done|].
  cbn [negb] in Hr. apply sbind_Ok in Hr as (b & w2 & Hb & Hr). apply map_error_Ok, read_file_Ok in Hb as (m & Hb & _).
  destruct (_ <? _)%N; [done|]. exists b. rewrite Hm in Hb. split; [by exists m|]. destruct (decode b); [by injection Hr as ->|done].
Qed.

(** Every reader returns what it decoded from the file. *)
Ltac skip Hr := apply sbind_Ok in Hr as (? & ? & _ & Hr).
Lemma read_snapshot_Ok path w v w' : read_reachability_snapshot env path w = (Ok v, w') ->
  exists b, file_at (root w) path b /\ decode b = Some v.
Proof.
  unfold read_reachability_snapshot. intros Hr. apply sbind_Ok in Hr as (x & w1 & Hj & Hr).
  do 5 skip Hr. injection Hr as -> ->. by eapply read_gc_json_Ok.
Qed.
Lemma read_pin_Ok path w v w' : read_pin_record env path w = (Ok v, w') ->
  exists b, file_at (root w) path b /\ decode b = Some v.
Proof.
  unfold read_pin_record. intros Hr. apply sbind_Ok in Hr as (x & w1 & Hj & Hr).
  do 5 skip Hr. injection Hr as -> ->. by eapply read_gc_json_Ok.
Qed.
Lemma read_lease_Ok path w v w' : read_lease_record env path w = (Ok v, w') ->
  exists b, file_at (root w) path b /\ decode b = Some v.
Proof.
  unfold read_lease_record. intros Hr. apply sbind_Ok in Hr as (x & w1 & Hj & Hr).
  do 11 skip Hr. injection Hr as -> ->. by eapply read_gc_json_Ok.
Qed.

Lemma or_uncertain_Ok {T} path (read : G T) visit s w s' w' :
  (forall r s w s' w', visit r s w = (Ok s', w') -> grows s s') ->
  or_uncertain path read visit s w = (Ok s', w') ->
  grows s s' /\ (uncertain s' = true \/ exists r w1, read w = (Ok r, w1) /\ visit r s w1 = (Ok s', w')).
Proof.
  intros Hv Hr. unfold or_uncertain in Hr. apply sbind_Ok in Hr as (r & w1 & Ha & Hr). apply attempt_Ok in Ha.
  destruct r as [record|e].
  - split; [by eapply Hv|]. right. eauto.
  - destruct e; try done; injection Hr as <- <-; split; try (by left); apply mark_uncertain_grows.
Qed.

(** The three loaders, at one reference each. *)
Lemma visit_pin_grows now path pin s w s' w' : visit_pin now path pin s w = (Ok s', w') -> grows s s'.
Proof.
  unfold visit_pin. intros Hr. apply sbind_Ok in Hr as (e & w1 & _ & Hr). case_match; injection Hr as <- <-; [done|].
  apply mark_hash_grows.
Qed.
Lemma visit_pin_covers now path pin s w s' w' : visit_pin now path pin s w = (Ok s', w') -> ~ pin_expired now pin ->
  covered (pin_blob_hash pin) s'.
Proof.
  unfold visit_pin. intros Hr Hexp. apply sbind_Ok in Hr as (e & w1 & He & Hr).
  assert (match e with Some e => (e <=? now)%Z | None => false end = false) as Hf.
  { destruct e as [e|]; [|done]. apply Z.leb_gt. destruct (pin_expires_at pin) as [text|] eqn:Hp; [|done].
    unfold parse_time in He. destruct (parse_rfc3339 text) as [o|] eqn:Ho; [|done]. injection He as -> <-.
    apply Z.nle_gt. intros Hle. apply Hexp. exists text, e. auto. }
  rewrite Hf in Hr. injection Hr as <- <-. apply mark_hash_covers.
Qed.
Lemma apply_lease_grows now g path lease s w s' w' : apply_lease_liveness now g path lease s w = (Ok s', w') ->
  grows s s'.
Proof.
  unfold apply_lease_liveness. intros Hr. apply sbind_Ok in Hr as (e & w1 & _ & Hr). injection Hr as <- <-.
  etrans; [|apply mark_hashes_grows]. case_match; [apply mark_uncertain_grows|done].
Qed.
Lemma apply_lease_covers now g path lease s w s' w' h : apply_lease_liveness now g path lease s w = (Ok s', w') ->
  h ∈ ls_blob_hashes lease -> covered h s'.
Proof.
  unfold apply_lease_liveness. intros Hr Hh. apply sbind_Ok in Hr as (e & w1 & _ & Hr). injection Hr as <- <-.
  by apply mark_hashes_covers.
Qed.

Lemma walk_gc_records_sound {T} `{Codec T} subdir (read : SPath -> G T) visit s w s' w' :
  (forall p, reads (read p)) -> (forall p r s, reads (visit p r s)) ->
  (forall p r s w s' w', visit p r s w = (Ok s', w') -> grows s s') ->
  (forall p w r w', read p w = (Ok r, w') -> exists b, file_at (root w) p b /\ decode b = Some r) ->
  walk_gc_records env subdir read visit s w = (Ok s', w') ->
  grows s s' /\ root w' = root w /\
  forall producer project name b r, file_at (root w) [GC_DIR; subdir; producer; project; name] b ->
    extension name = Some "json" -> decode b = Some r ->
    uncertain s' = true \/
    exists s1 w1 s2 w2, visit [GC_DIR; subdir; producer; project; name] r s1 w1 = (Ok s2, w2) /\ grows s2 s'.
Proof.
  intros Hr Hv Hg Hd Hw. unfold walk_gc_records in Hw.
  set (f := fun path s => or_uncertain path (read path) (visit path) s) in Hw.
  assert (Hf_grows : forall p s w s' w', f p s w = (Ok s', w') -> grows s s').
  { intros p s0 w0 s1 w1 Hf. by eapply or_uncertain_Ok in Hf as [? _]; [|apply Hg]. }
  destruct (walk_gc_json_visits env grows f) with (2 := Hf_grows) (3 := Hw) as (Hle & Hroot & Hvis).
  { intros p a. by apply reads_or_uncertain. }
  split_and!; [done..|]. intros producer project name b r Hfile Hext Hdec. destruct Hfile as [m Hm].
  destruct (Hvis producer project name _ Hm Hext) as (s1 & w1 & s2 & w2 & Hf & Ht & Hl).
  apply or_uncertain_Ok in Hf as [_ [Hu|(r' & w3 & Hread & Hvisit)]]; [left; by apply Hl| |apply Hg].
  right. apply Hd in Hread as (b' & [m' Hm'] & Hdec'). rewrite Ht, Hm in Hm'. injection Hm' as <- <-.
  rewrite Hdec in Hdec'. injection Hdec' as <-. eauto 8.
Qed.

Definition grows_snd (a b : bool * MarkState) : Prop := grows (snd a) (snd b).
#[local] Instance grows_snd_preorder : PreOrder grows_snd.
Proof. split; unfold grows_snd; [intros ?; done|intros ???; by etrans]. Qed.

Lemma visit_root_Ok dir acc w acc' w' : visit_root env dir acc w = (Ok acc', w') ->
  grows_snd acc acc' /\
  forall b snap h, file_at (root w) (dir ++ ["current.json"])%list b -> decode b = Some snap -> h ∈ rs_blob_hashes snap ->
    covered h (snd acc').
Proof.
  unfold visit_root. intros Hr. apply sbind_Ok in Hr as (present & w1 & Hp & Hr).
  apply Ok_reads in Hp; [|apply reads_is_file_at]. apply sbind_Ok in Hr as (s' & w2 & Hs & Hr).
  injection Hr as <- <-. unfold grows_snd. cbn [snd]. destruct present; cbn [negb] in Hs.
  - apply or_uncertain_Ok in Hs as [Hg Hs]; [|intros ????? [= <- <-]; apply mark_hashes_grows].
    split; [done|]. intros b snap h Hb Hd Hh. destruct Hs as [Hu|(snap' & w3 & Hread & Hv)]; [by left|].
    apply read_snapshot_Ok in Hread as (b' & [m' Hb'] & Hd'). destruct Hb as [m Hb]. rewrite Hp, Hb in Hb'.
    injection Hb' as <- <-. rewrite Hd in Hd'. injection Hd' as <-. injection Hv as <- <-. by apply mark_hashes_covers.
  - injection Hs as <- <-. split; [apply mark_uncertain_grows|]. by left.
Qed.

Lemma load_roots_sound s w s' w' : load_reachability_roots env s w = (Ok s', w') ->
  grows s s' /\ root w' = root w /\
  forall producer project b snap h, file_at (root w) [GC_DIR; "roots"; producer; project; "current.json"] b ->
    decode b = Some snap -> h ∈ rs_blob_hashes snap -> covered h s'.
Proof.
  intros Hr. pose proof (Ok_reads _ _ _ _ (reads_load_reachability_roots env s) Hr) as Hroot.
  unfold load_reachability_roots in Hr. apply sbind_Ok in Hr as (present & w1 & Hp & Hr).
  apply Ok_reads in Hp; [|apply reads_is_dir_at]. destruct present; cbn [negb] in Hr.
  - apply sbind_Ok in Hr as ([saw s1] & w2 & Hw & Hr).
    destruct (walk_gc_projects_visits env grows_snd (visit_root env)) with (3 := Hw) as (Hle & Hroot' & Hv).
    { intros p a. apply reads_visit_root. }
    { intros p a w3 a' w4 Ha. by apply visit_root_Ok in Ha as [? _]. }
    assert (Hg : grows s1 s') by (destruct saw; injection Hr as <- <-; [done|apply mark_uncertain_grows]).
    split_and!; [by etrans; [exact Hle|]|done|]. intros producer project b snap h [m Hm] Hd Hh. rewrite <- Hp in *.
    pose proof Hm as Hm'. rewrite (node_at_app [GC_DIR; "roots"; producer; project] ["current.json"]) in Hm'.
    destruct (node_at [GC_DIR; "roots"; producer; project] (root w1)) as [d|] eqn:Hdir; [|done].
    destruct (Hv _ _ _ Hdir) as (a1 & w3 & a2 & w4 & Ha & Ht & Hl). apply visit_root_Ok in Ha as [_ Hc].
    eapply grows_covered; [exact Hg|]. eapply grows_covered; [exact Hl|]. eapply Hc; [|done..].
    rewrite Ht. by exists m.
  - injection Hr as <- <-. split_and!; [apply mark_uncertain_grows|done|]. by left.
Qed.

Lemma get_verified_Ok sha w b w' : get_verified env sha w = (Ok b, w') ->
  file_at (root w) (object_path sha) b /\ content_sha256_hex b = sha.
Proof.
  unfold get_verified, get_verified_limited. intros Hr. destruct (ZeroRef.is_full_lower_hex sha); [|done]. cbn [negb] in Hr.
  apply sbind_Ok in Hr as (r & w1 & Hm & Hr). apply attempt_Ok, symlink_metadata_inv in Hm as [Hm _].
  apply sbind_Ok in Hr as (n & w2 & Hn & Hr). assert (w2 = w1) as -> by (destruct r as [|[]]; [by injection Hn as _ <-|done..]).
  apply sbind_Ok in Hr as (? & w3 & Hc & Hr). unfold check_regular in Hc. destruct (is_real_file n); [|done].
  injection Hc as _ <-. destruct (_ <? _)%N; [done|]. unfold read_verified_at in Hr.
  apply sbind_Ok in Hr as (b' & w4 & Hb & Hr). apply map_error_Ok, read_file_Ok in Hb as (m & Hb & _).
  destruct (_ <? _)%N; [done|]. destruct (String.eqb_spec (content_sha256_hex b') sha) as [Hh|]; [|done].
  cbn [negb] in Hr. injection Hr as <- <-. split; [|done]. exists m. by rewrite <- Hb, Hm.
Qed.

Lemma trace_seed_Ok seed s w s' w' : trace_seed env seed s w = (Ok s', w') ->
  grows s s' /\
  forall b h, file_at (root w) (object_path seed) b -> take 8 b = ZBF_MAGIC -> ref_of b h -> covered h s'.
Proof.
  unfold trace_seed. intros Hr. apply sbind_Ok in Hr as (r & w1 & Hg & Hr). apply attempt_Ok in Hg.
  destruct r as [b'|e].
  - apply get_verified_Ok in Hg as [[m' Hb'] _]. destruct (refs_from_verified_bytes b') as [refs|] eqn:Hrefs.
    + injection Hr as <- <-. split; [apply mark_hashes_grows|]. intros b h [m Hb] Hmagic Href.
      rewrite Hb in Hb'. injection Hb' as <- <-. apply refs_members in Hrefs as (_ & Hrefs & _).
      apply mark_hashes_covers. by apply Hrefs.
    + injection Hr as <- <-. split; [apply mark_uncertain_grows|]. by left.
  - destruct e; injection Hr as <- <-; (split; [apply mark_uncertain_grows|]; by left).
Qed.
Lemma trace_seeds_Ok seeds : forall s w s' w', trace_seeds env seeds s w = (Ok s', w') ->
  grows s s' /\
  forall seed b h, seed ∈ seeds -> file_at (root w) (object_path seed) b -> take 8 b = ZBF_MAGIC -> ref_of b h ->
    covered h s'.
Proof.
  induction seeds as [|seed rest IH]; intros s w s' w' Hr; cbn [trace_seeds] in Hr.
  - injection Hr as <- <-. split; [done|]. intros ??? Hin. by apply elem_of_nil in Hin.
  - apply sbind_Ok in Hr as (s1 & w1 & Ht & Hr).
    pose proof (Ok_reads _ _ _ _ (reads_trace_seed env seed s) Ht) as Hroot.
    apply trace_seed_Ok in Ht as [Hg1 Hc1]. apply IH in Hr as [Hg2 Hc2]. split; [by etrans|].
    intros seed' b h [->|Hin]%elem_of_cons Hb Hm Hh; [by eapply grows_covered; [|eapply Hc1]|].
    eapply Hc2; [done| |done..]. by rewrite Hroot.
Qed.

(** Whatever the metadata references is marked, or the state is uncertain. *)
Lemma load_mark_state_sound now g w s w' h : load_mark_state env now g w = (Ok s, w') ->
  referenced (root w) now h -> covered h s.
Proof.
  unfold load_mark_state. intros Hr. apply sbind_Ok in Hr as (s1 & w1 & Hl1 & Hr).
  apply sbind_Ok in Hr as (s2 & w2 & Hl2 & Hr). apply sbind_Ok in Hr as (s3 & w3 & Hl3 & Hr).
  apply load_roots_sound in Hl1 as (Hg1 & Hr1 & Hc1).
  apply walk_gc_records_sound in Hl2 as (Hg2 & Hr2 & Hc2);
    [|apply reads_read_pin_record|apply reads_visit_pin|apply visit_pin_grows|apply read_pin_Ok].
  apply walk_gc_records_sound in Hl3 as (Hg3 & Hr3 & Hc3);
    [|apply reads_read_lease_record|apply reads_apply_lease|apply apply_lease_grows|apply read_lease_Ok].
  apply trace_seeds_Ok in Hr as [Hg4 Hc4]. rewrite Hr1 in Hc2. rewrite Hr2, Hr1 in Hc3. rewrite Hr3, Hr2, Hr1 in Hc4.
  assert (Hdirect : forall x, direct_ref (root w) now x -> covered x s3).
  { intros x [producer project b snap Hf Hd Hx|producer project name b pin Hf He Hd Hx Hexp
      |producer project name b lease Hf He Hd Hx].
    - eapply grows_covered; [|by eapply Hc1]. by etrans.
    - destruct (Hc2 _ _ _ _ _ Hf He Hd) as [Hu|(x1 & x2 & x3 & x4 & Hv & Hgv)]; [left; by apply Hg3|].
      eapply grows_covered; [exact Hg3|]. eapply grows_covered; [exact Hgv|]. subst x. by eapply visit_pin_covers.
    - destruct (Hc3 _ _ _ _ _ Hf He Hd) as [Hu|(x1 & x2 & x3 & x4 & Hv & Hgv)]; [by left|].
      eapply grows_covered; [exact Hgv|]. by eapply apply_lease_covers. }
  intros [Hdir|seed b Hdir Hb Hm Hh]; [eapply grows_covered; [exact Hg4|]; auto|].
  destruct (Hdirect _ Hdir) as [Hu|Hmk]; [left; by apply Hg4|]. eapply (Hc4 seed); [|done..].
  apply bmap_lookup_keys. by apply bmap_mem_lookup.
Qed.
End Sound.
