(* ===== verification/CasTheorems.v ===== *)
(** Correctness of publication: an atomic write leaves the written file, and a
    successful put leaves an object with the digest it is named by and changes
    no other object. *)

From S2P Require Import Prelude.
From S2P Require Import Canonical.
From S2P Require Import DurableStore.
From S2P Require Import GcTime.
From S2P Require Import GcRefs.
From S2P Require Import StoreTree.
From S2P Require Import Cas.
From S2P Require Import Gc.
From S2P Require Import GcMarkTheorems.
#[local] Open Scope list_scope.

(** * Writing *)

Lemma change_Ok env f w a w' : change env f w = (Ok a, w') -> f (root w) = Ok (root w').
Proof.
  unfold change. destruct (io_fails _ _); [done|]. destruct (f (root w)); [|done]. by intros [= _ <-].
Qed.

Lemma node_at_parent p : forall t n, p <> [] -> node_at p t = Ok n -> exists cs, node_at (removelast p) t = Ok (NDir cs).
Proof.
  intros t n Hp Hn. rewrite (app_removelast_last ""%string Hp), node_at_app in Hn.
  destruct (node_at (removelast p) t) as [d|]; [|done]. cbn in Hn. destruct d; [done|eauto|done].
Qed.
Lemma put_node_over p t n n' : p <> [] -> node_at p t = Ok n' -> node_at p (put_node p n t) = Ok n.
Proof. intros Hp Hn. apply node_at_parent in Hn as [cs Hcs]; [|done]. by eapply put_node_same. Qed.
Lemma remove_child_dir d x : forall t cs, node_at d t = Ok (NDir cs) ->
  node_at d (remove_node (d ++ [x]) t) = Ok (NDir (drop_child x cs)).
Proof.
  induction d as [|y d IH]; intros t cs Hd; [by injection Hd as ->|]. cbn [node_at] in Hd.
  destruct t as [|cs'|]; [done| |done]. destruct (child y cs') as [m|] eqn:Hy; [|done].
  change ((y :: d) ++ [x]) with (y :: (d ++ [x])). destruct (d ++ [x]) as [|z l] eqn:Hdx; [by destruct d|].
  cbn [remove_node]. rewrite Hy. cbn [node_at]. rewrite child_set_same. by apply IH.
Qed.

Section Write.
Context (env : StoreEnv).

Lemma write_all_Ok p b w a w' : p <> [] -> write_all env p b w = (Ok a, w') -> file_at (root w') p b.
Proof.
  intros Hp Hw. apply change_Ok in Hw. destruct (node_at p (root w)) as [n|] eqn:Hn; [|done]. cbn in Hw.
  destruct n; [|done..]. injection Hw as <-. exists (Some (now_at env (tick w))). by eapply put_node_over.
Qed.
Lemma rename_Ok d x y b w a w' : file_at (root w) (d ++ [x]) b -> rename env (d ++ [x]) (d ++ [y]) w = (Ok a, w') ->
  file_at (root w') (d ++ [y]) b.
Proof.
  intros [m Hm] Hr. apply change_Ok in Hr. rewrite Hm in Hr. cbn [mbind result_bind] in Hr.
  rewrite removelast_last in Hr. destruct (node_at d (root w)) as [n|] eqn:Hd; [|done]. cbn [mbind result_bind] in Hr.
  destruct n as [|cs|]; [done| |done].
  assert (root w' = put_node (d ++ [y]) (NFile b m) (remove_node (d ++ [x]) (root w))) as ->.
  { repeat case_match; simplify_eq; done. }
  exists m. eapply put_node_same; [by destruct d|]. rewrite removelast_last. by apply remove_child_dir.
Qed.

Lemma atomic_write_file_Ok d y b w a w' : atomic_write_file env (d ++ [y]) b w = (Ok a, w') ->
  file_at (root w') (d ++ [y]) b.
Proof.
  intros Hw. unfold atomic_write_file in Hw. rewrite removelast_last in Hw.
  apply sbind_Ok in Hw as (? & w1 & _ & Hw). apply sbind_Ok in Hw as (temp & w2 & Ht & Hw).
  apply open_unique_temp_in in Ht as [tmp ->]. apply sbind_Ok in Hw as (published & w3 & Hp & Hw). apply attempt_Ok in Hp.
  destruct published as [[]|e].
  - apply sbind_Ok in Hw as (? & w4 & Hs & Hw). injection Hw as _ <-. apply attempt_Ok in Hs.
    rewrite (Ok_reads _ _ _ _ (reads_sync_dir env d) Hs). unfold write_sync_replace in Hp.
    apply sbind_Ok in Hp as (? & w5 & Hwr & Hp). apply write_all_Ok in Hwr; [|by destruct d].
    apply sbind_Ok in Hp as (? & w6 & Hsy & Hp). rewrite <- (Ok_reads _ _ _ _ (reads_sync_all env) Hsy) in Hwr.
    by eapply rename_Ok.
  - apply sbind_Ok in Hw as (? & w4 & _ & [=]).
Qed.
Lemma write_gc_json_Ok {T} `{Codec T} d y (v : T) w a w' : write_gc_json env (d ++ [y]) v w = (Ok a, w') ->
  file_at (root w') (d ++ [y]) (encode v).
Proof.
  unfold write_gc_json. intros Hw. apply sbind_Ok in Hw as (b & w1 & Hb & Hw). unfold lift, serialize_gc_json in Hb.
  injection Hb as Hb <-. destruct (_ <? _)%N; [done|]. injection Hb as <-. apply map_error_Ok in Hw.
  unfold gc_atomic_write in Hw. destruct (_ <? _)%N; [done|]. apply sbind_Ok in Hw as (? & w2 & _ & Hw).
  by eapply atomic_write_file_Ok.
Qed.
End Write.

(** * Publishing an object *)

Lemma hex_char_not_dot n : hex_char n <> "."%char.
Proof.
  unfold hex_char. destruct (HEX !! N.to_nat n) as [c|] eqn:Hc; [|done]. cbn.
  apply list_elem_of_lookup_2, list_elem_of_In in Hc. intros ->.
  assert (Hall : forallb (fun c => negb (Ascii.eqb c ".")) HEX = true) by reflexivity.
  by apply (proj1 (forallb_forall _ _) Hall) in Hc.
Qed.
Lemma hex_not_dotted d s : Sha256Digest_to_hex d <> String "." s.
Proof.
  unfold Sha256Digest_to_hex. destruct d as [|c d]; [done|]. cbn. intros [= Hc _]. by apply hex_char_not_dot in Hc.
Qed.

(** Publication writes only names of these shapes in the object's shard. *)
Definition shard_dir (hash : string) : SPath := ["blobs"; "sha256"; shard hash]%string.
Definition untouched (hash : string) (K : SPath -> Prop) : Prop :=
  forall q, K q -> ~ q `prefix_of` shard_dir hash /\
    forall name, is_temp_name name = true \/ name = hash -> apart (shard_dir hash ++ [name]) q.

Section Put.
Context `{Platform} (env : StoreEnv) (store_key : string).

Lemma prefix_append s t : String.prefix s (s +:+ t) = true.
Proof.
  induction s as [|c s IH]; [by destruct t|]. change (String c s +:+ t) with (String c (s +:+ t)). cbn.
  by destruct (ascii_dec c c).
Qed.
Lemma cas_temp_is_temp hash n : is_temp_name (cas_temp_name env hash n) = true.
Proof. unfold is_temp_name, cas_temp_name. by rewrite prefix_append. Qed.

Lemma keeps_reap_entries K dir now entries :
  (forall q name, K q -> is_temp_name name = true -> apart (dir ++ [name]) q) -> keeps K (reap_entries env dir now entries).
Proof.
  intros Ha. induction entries as [|[name n] rest IH]; cbn [reap_entries]; [apply keeps_ret|].
  apply keeps_sbind; [apply keeps_attempt, reads_keeps, reads_entry_call|]. intros e. apply keeps_sbind; [|intros _; exact IH].
  destruct e; [|apply keeps_ret]. destruct (is_temp_name name) eqn:Ht; [|apply keeps_ret].
  apply keeps_sbind; [apply keeps_attempt, reads_keeps, reads_entry_call|]. intros [[]|e]; [|apply keeps_ret].
  destruct n as [b [m|]| |]; try apply keeps_ret. destruct (_ && _); [|apply keeps_ret].
  apply keeps_sbind; [|intros; apply keeps_ret]. apply keeps_attempt, keeps_remove_file. auto.
Qed.

Lemma create_temp_object_in attempts : forall parent hash w tmp w',
  create_temp_object env attempts parent hash w = (Ok tmp, w') -> exists n, tmp = parent ++ [cas_temp_name env hash n].
Proof.
  induction attempts as [|k IH]; intros parent hash w tmp w' Ht; cbn [create_temp_object] in Ht; [done|].
  apply sbind_Ok in Ht as (n & w1 & _ & Ht). apply sbind_Ok in Ht as (r & w2 & _ & Ht).
  destruct r as [[]|[]]; try done; [injection Ht as <- _; eauto|]. destruct k; [done|]. by eapply IH.
Qed.
Lemma keeps_create_temp_object K attempts parent hash :
  (forall q name, K q -> is_temp_name name = true -> apart (parent ++ [name]) q) ->
  keeps K (create_temp_object env attempts parent hash).
Proof.
  intros Ha. induction attempts as [|k IH]; cbn [create_temp_object]; [apply keeps_throw|].
  apply keeps_sbind; [by apply reads_keeps|]. intros n.
  apply keeps_sbind; [apply keeps_attempt, keeps_create_new; intros q Hq; apply Ha; [done|apply cas_temp_is_temp]|].
  intros [[]|[]]; try apply keeps_throw; [apply keeps_ret|]. destruct k; [apply keeps_throw|exact IH].
Qed.

Lemma keeps_touch_path K p : (forall q, K q -> apart p q) -> keeps K (touch_path env p).
Proof.
  intros Ha. unfold touch_path. apply keeps_sbind; [by apply reads_keeps|]. intros z. apply keeps_change.
  intros t t' q Ht Hq. destruct (node_at p t) as [n|]; [|done]. cbn in Ht. destruct n; [|done..]. injection Ht as <-.
  apply put_node_apart. auto.
Qed.

Lemma keeps_publish_new K hash b limit : untouched hash K ->
  keeps K (publish_new_object_via_temp env (shard_dir hash) (object_path hash) hash b limit).
Proof.
  intros HK w q Hq. destruct (HK q Hq) as [_ Hap].
  assert (HT : forall q name, K q -> is_temp_name name = true -> apart (shard_dir hash ++ [name]) q).
  { intros q' name Hq' Ht. apply (HK q' Hq'). by left. }
  unfold publish_new_object_via_temp. unfold sbind at 1.
  pose proof (keeps_create_temp_object K TEMP_CREATE_ATTEMPTS (shard_dir hash) hash HT w q Hq) as Hk.
  destruct (create_temp_object _ _ _ _ w) as [[tmp|e] w1] eqn:Hc; [|done]. cbn [snd] in Hk. rewrite <- Hk.
  apply create_temp_object_in in Hc as [n ->].
  assert (Ht : forall q, K q -> apart (shard_dir hash ++ [cas_temp_name env hash n]) q) by (intros q' Hq'; apply HT; [done|apply cas_temp_is_temp]).
  assert (Hd : forall q, K q -> apart (object_path hash) q) by (intros q' Hq'; apply (HK q' Hq'); by right).
  refine (keeps_sbind K _ _ _ _ w1 q Hq).
  - apply keeps_attempt. unfold publish_temp_object.
    apply keeps_sbind; [by apply keeps_map_error, keeps_write_all|intros _].
    apply keeps_sbind; [apply keeps_map_error, reads_keeps, reads_sync_all|intros _].
    apply keeps_sbind; [by apply keeps_attempt, keeps_rename|intros [[]|e]].
    + apply keeps_sbind; [apply keeps_attempt, reads_keeps, reads_sync_dir|intros r].
      destruct (is_ok r); [apply keeps_ret|].
      apply keeps_sbind; [apply keeps_attempt, reads_keeps, reads_read_verified_at|intros v].
      destruct (is_ok v); [apply keeps_ret|apply keeps_throw].
    + apply keeps_sbind; [apply reads_keeps, reads_is_regular_file|intros []; [|apply keeps_throw]].
      apply keeps_sbind; [apply keeps_attempt, reads_keeps, reads_read_verified_at|intros v].
      destruct (is_ok v); [apply keeps_ret|apply keeps_throw].
  - intros r. apply keeps_sbind; [by apply keeps_attempt, keeps_remove_file|]. intros _. apply keeps_lift.
Qed.

Lemma keeps_put_with_limit K b limit : untouched (content_sha256_hex b) K -> keeps K (put_with_limit env b limit).
Proof.
  intros HK. unfold put_with_limit. set (hash := content_sha256_hex b) in *. destruct (_ <? _)%N; [apply keeps_throw|].
  assert (Hd : forall q, K q -> apart (object_path hash) q) by (intros q Hq; apply (HK q Hq); by right).
  apply keeps_sbind.
  - unfold try_return_existing_object.
    apply keeps_sbind; [apply keeps_attempt, reads_keeps, reads_symlink_metadata|intros [n|[]]];
      try apply keeps_throw; try apply keeps_ret.
    apply keeps_sbind; [unfold check_regular; destruct (is_real_file n); [apply keeps_ret|apply keeps_throw]|intros _].
    apply keeps_sbind; [apply reads_keeps, reads_read_verified_at|intros _].
    apply keeps_sbind; [by apply keeps_attempt, keeps_touch_path|intros _]. apply keeps_ret.
  - intros [out|]; [apply keeps_ret|]. change (removelast (object_path hash)) with (shard_dir hash).
    apply keeps_sbind.
    { unfold ensure_object_publish_dirs. apply keeps_sbind; [apply keeps_map_error, keeps_create_dir_all; intros q Hq; apply (HK q Hq)|].
      intros _. apply keeps_sbind; [apply keeps_map_error, reads_keeps, reads_symlink_metadata|intros n].
      destruct (is_real_dir n); [|apply keeps_throw].
      apply keeps_sbind; [apply keeps_map_error, reads_keeps, reads_symlink_metadata|intros n'].
      destruct (is_real_dir n'); [apply keeps_ret|apply keeps_throw]. }
    intros _. apply keeps_sbind.
    { unfold reap_stale_temps. apply keeps_sbind; [apply keeps_attempt, reads_keeps, reads_read_dir|intros [entries|e]];
        [|apply keeps_ret]. apply keeps_sbind; [by apply reads_keeps|intros now]. apply keeps_reap_entries.
      intros q name Hq Ht. apply (HK q Hq). by left. }
    intros _. apply keeps_sbind; [by apply keeps_publish_new|intros created]. apply keeps_ret.
Qed.

(** An object is in place: a file with the digest it is named by. *)
Definition object_in_place (t : Node) (hash : string) : Prop :=
  exists b, file_at t (object_path hash) b /\ content_sha256_hex b = hash.

Lemma read_verified_at_Ok path hash limit w b w' : read_verified_at env path hash limit w = (Ok b, w') ->
  file_at (root w) path b /\ content_sha256_hex b = hash /\ root w' = root w.
Proof.
  intros Hr. pose proof (Ok_reads _ _ _ _ (reads_read_verified_at env path hash limit) Hr) as Hw. unfold read_verified_at in Hr.
  apply sbind_Ok in Hr as (b' & w1 & Hb & Hr). apply map_error_Ok, read_file_Ok in Hb as (m & Hb & _).
  destruct (_ <? _)%N; [done|]. destruct (String.eqb_spec (content_sha256_hex b') hash); [|done].
  cbn [negb] in Hr. injection Hr as <- _. split_and!; [by exists m|done|done].
Qed.

Lemma touch_path_file p b w r w' : p <> [] -> touch_path env p w = (r, w') -> file_at (root w) p b -> file_at (root w') p b.
Proof.
  intros Hp Ht [m Hm]. unfold touch_path, sbind, system_now in Ht. unfold set_modified, change in Ht.
  cbn [root step] in Ht. destruct (io_fails _ _); [injection Ht as <- <-; by exists m|]. rewrite Hm in Ht. cbn in Ht.
  injection Ht as <- <-. eexists. by eapply put_node_over.
Qed.

Lemma tmp_not_object hash n : shard_dir (content_sha256_hex hash) ++ [cas_temp_name env (content_sha256_hex hash) n] <>
  object_path (content_sha256_hex hash).
Proof.
  unfold shard_dir, object_path. cbn [app]. intros [= Heq]. symmetry in Heq. revert Heq. apply hex_not_dotted.
Qed.

Lemma publish_new_in_place b limit w c w' :
  publish_new_object_via_temp env (shard_dir (content_sha256_hex b)) (object_path (content_sha256_hex b))
    (content_sha256_hex b) b limit w = (Ok c, w') -> object_in_place (root w') (content_sha256_hex b).
Proof.
  intros Hp. set (hash := content_sha256_hex b) in *. unfold publish_new_object_via_temp in Hp.
  apply sbind_Ok in Hp as (tmp & w1 & Ht & Hp). apply create_temp_object_in in Ht as [n ->].
  set (tmp := shard_dir hash ++ [cas_temp_name env hash n]) in *.
  apply sbind_Ok in Hp as (publish & w2 & Hpub & Hp). apply attempt_Ok in Hpub.
  apply sbind_Ok in Hp as (rem & w3 & Hrem & Hp). apply attempt_Ok in Hrem. unfold lift in Hp. injection Hp as -> <-.
  assert (Hin : object_in_place (root w2) hash).
  { unfold publish_temp_object in Hpub. apply sbind_Ok in Hpub as (? & w4 & Hw & Hpub).
    apply map_error_Ok, write_all_Ok in Hw; [|done]. apply sbind_Ok in Hpub as (? & w5 & Hs & Hpub).
    apply map_error_Ok in Hs. rewrite <- (Ok_reads _ _ _ _ (reads_sync_all env) Hs) in Hw.
    apply sbind_Ok in Hpub as (replaced & w6 & Hr & Hpub). apply attempt_Ok in Hr. destruct replaced as [[]|e].
    - assert (Hdest : file_at (root w6) (object_path hash) b) by (by eapply (rename_Ok env (shard_dir hash))).
      apply sbind_Ok in Hpub as (sy & w7 & Hsy & Hpub). apply attempt_Ok in Hsy.
      rewrite <- (Ok_reads _ _ _ _ (reads_sync_dir env (shard_dir hash)) Hsy) in Hdest.
      destruct (is_ok sy); [injection Hpub as _ <-; by exists b|].
      apply sbind_Ok in Hpub as (v & w8 & Hv & Hpub). apply attempt_Ok in Hv.
      rewrite <- (Ok_reads _ _ _ _ (reads_read_verified_at env _ _ _) Hv) in Hdest.
      destruct (is_ok v); [|done]. injection Hpub as _ <-. by exists b.
    - apply sbind_Ok in Hpub as ([] & w7 & Hreg & Hpub); [|done].
      apply sbind_Ok in Hpub as (v & w8 & Hv & Hpub). apply attempt_Ok in Hv. destruct v as [b'|]; [|done].
      apply read_verified_at_Ok in Hv as (Hb' & Hh & Hw8). injection Hpub as _ <-. rewrite <- Hw8 in Hb'. by exists b'. }
  destruct Hin as (b' & [m Hb'] & Hh). exists b'. split; [|done]. exists m. rewrite <- Hb'.
  assert (Hk : keeps (eq (object_path hash)) (remove_file env tmp)).
  { apply keeps_remove_file. intros q <-. apply apart_same_length; [done|]. apply tmp_not_object. }
  specialize (Hk w2 _ eq_refl). by rewrite Hrem in Hk.
Qed.

Lemma put_in_place b limit w out w' : put_with_limit env b limit w = (Ok out, w') ->
  put_hash out = content_sha256_hex b /\ object_in_place (root w') (content_sha256_hex b).
Proof.
  intros Hp. unfold put_with_limit in Hp. set (hash := content_sha256_hex b) in *. destruct (_ <? _)%N; [done|].
  apply sbind_Ok in Hp as (existing & w1 & He & Hp). destruct existing as [o|].
  - injection Hp as <- <-. unfold try_return_existing_object in He. apply sbind_Ok in He as (r & w2 & _ & He).
    destruct r as [n|[]]; try done. apply sbind_Ok in He as (? & w3 & _ & He).
    apply sbind_Ok in He as (b' & w4 & Hv & He). apply read_verified_at_Ok in Hv as (Hb' & Hh & Hw4).
    apply sbind_Ok in He as (t & w5 & Ht & He). apply attempt_Ok in Ht. injection He as <- <-. split; [done|].
    exists b'. split; [|done]. eapply touch_path_file; [done|exact Ht|]. by rewrite Hw4.
  - apply sbind_Ok in Hp as (? & w2 & _ & Hp). apply sbind_Ok in Hp as (? & w3 & _ & Hp).
    apply sbind_Ok in Hp as (created & w4 & Hpub & Hp). injection Hp as <- <-. split; [done|].
    by eapply publish_new_in_place.
Qed.
End Put.
