(* ===== verification/GcSweep.v ===== *)
(** Collection and publication ([zero-store/src/gc.rs]): the dry-run report,
    the resumable sweep [run_gc], and the operations that publish roots, pins
    and leases, put leased objects and repair damaged ones.

    The test hook called before an unlink is the absent one of production.
    [validate_dry_run_report] is stated on the report's fields: its checks of
    JSON shape hold for a value serialized from the record. *)

From S2P Require Import Prelude.
From S2P Require Import Canonical.
From S2P Require Import Ordering.
From S2P Require Import BMap.
From S2P Require Import DurableStore.
From S2P Require Import GcTime.
From S2P Require Import GcRefs.
From S2P Require Import StoreTree.
From S2P Require Import Cas.
From S2P Require Import Gc.
From S2P Require ZeroRef.
From S2P Require KernelTransaction.
#[local] Open Scope string_scope.

Inductive GcVerdict := Retain | Collect | RetainUncertain.
#[global] Instance GcVerdict_eq_dec : EqDecision GcVerdict.
Proof. solve_decision. Defined.
Inductive GcRunState := Evaluated | Complete.
#[global] Instance GcRunState_eq_dec : EqDecision GcRunState.
Proof. solve_decision. Defined.

Record GcCandidate := mkCandidate {
  gc_blob_hash : string; gc_verdict : GcVerdict; gc_reason_codes : list string; gc_evidence : list string }.
Record DryRunReport := mkReport {
  rp_schema_version : string; rp_record_type : string; rp_store_contract_digest : string; rp_run_id : string;
  rp_store_root : string; rp_evaluated_at : string; rp_apply : bool; rp_state : GcRunState;
  rp_objects : list GcCandidate; rp_planned : list string; rp_deleted : list string }.
Record SweepProgress := mkProgress {
  sp_schema_version : string; sp_record_type : string; sp_store_contract_digest : string; sp_run_id : string;
  sp_store_root : string; sp_evaluated_at : string; sp_plan_digest : string; sp_objects : list string;
  sp_deleted : list string; sp_state : string }.
Record GcConfig := mkConfig {
  cf_run_id : string; cf_grace_seconds : N; cf_min_age_seconds : N; cf_apply : bool; cf_now : Z;
  cf_fault_after_deletes : option N; cf_report_limit : nat }.

Class SweepCodecs := {
  #[global] report_codec :: Codec DryRunReport;
  #[global] progress_codec :: Codec SweepProgress }.

(** * The report *)

Section Report.
Context (env : StoreEnv) (store_key : string) `{Platform} `{GcCodecs} `{SweepCodecs} `{GcDisplay}.

Definition is_young (now : Z) (min_age_seconds : N) (hash : string) : G bool :=
  let! r := attempt (symlink_metadata env (object_path hash)) in
  sret (match r with
        | Ok (NFile _ (Some modified)) => (secs_since now modified <? min_age_seconds)%N
        | _ => true
        end).

Definition classify (s : MarkState) (min_age_seconds : N) (now : Z) (hash : string)
  : G (GcVerdict * list string * list string) :=
  match bmap_lookup hash (live s) with
  | Some meta => sret (Retain, fst meta, snd meta)
  | None =>
      if uncertain s then sret (RetainUncertain, ["uncertain-metadata"], global_evidence s)
      else
        let! young := is_young now min_age_seconds hash in
        sret (if young then
                (RetainUncertain, ["uncertain-metadata"],
                 ["object younger than " +:+ ZeroRef.show_u64 min_age_seconds +:+ " seconds"])
              else (Collect, ["no-live-reference"], ["no reachable root, pin, lease, or ref"]))
  end.

Fixpoint classify_all (s : MarkState) (min_age_seconds : N) (now : Z) (hashes : list string) : G (list GcCandidate) :=
  match hashes with
  | [] => sret []
  | hash :: rest =>
      let! c := classify s min_age_seconds now hash in
      let '(verdict, reasons, evidence) := c in
      let reasons := match reasons with [] => ["uncertain-metadata"] | _ => reasons end in
      let! objects := classify_all s min_age_seconds now rest in
      sret (mkCandidate hash verdict reasons (foldl push_bounded [] evidence) :: objects)
  end.

Definition collectable (objects : list GcCandidate) : list string :=
  gc_blob_hash <$> List.filter (fun o => bool_decide (gc_verdict o = Collect)) objects.

Definition build_dry_run_report (run_id : string) (s : MarkState) (min_age_seconds : N) (now : Z) (apply : bool)
  : G DryRunReport :=
  let! hashes := gcas (list_objects_bounded env GC_MAX_REPORT_OBJECTS) in
  let! objects := classify_all s min_age_seconds now hashes in
  reject! (GC_MAX_REPORT_OBJECTS <? N.of_nat (length objects))%N with GcPolicy in
  let objects := sort_by_key gc_blob_hash objects in
  sret (mkReport GC_SCHEMA_VERSION GC_RECORD_TYPE_DRY_RUN gc_contract_digest_hex run_id store_key
    (format_system_time now) apply Evaluated objects (collectable objects) []).

Definition sweep_plan_digest (run_id store_root : string) (objects : list string) : string :=
  contract_digest_hex (Object [
    ("domain", VString "zerostack.gc-sweep-plan");
    ("store_contract_digest", VString gc_contract_digest_hex);
    ("run_id", VString run_id);
    ("store_root", VString store_root);
    ("objects", Array (VString <$> objects))]).

Definition validate_run_id (run_id : string) : result GcError () :=
  if is_valid_pin_id run_id then Ok () else Err SchemaViolation.

Definition read_sweep_progress (path : SPath) : G SweepProgress :=
  let! p := read_gc_json env path in
  let! _ := require (String.eqb (sp_schema_version p) GC_SCHEMA_VERSION) CorruptMetadata in
  let! _ := require (String.eqb (sp_record_type p) GC_RECORD_TYPE_SWEEP_PROGRESS) CorruptMetadata in
  let! _ := require (bound_gc_contract_matches (sp_schema_version p) (sp_store_contract_digest p)) CorruptMetadata in
  let! _ := lift (map_err CorruptMetadata (validate_run_id (sp_run_id p))) in
  let! _ := require (negb (String.eqb (sp_store_root p) "")) CorruptMetadata in
  let! _ := require_time (sp_evaluated_at p) CorruptMetadata in
  let! _ := require (String.eqb (sp_state p) "sweeping") CorruptMetadata in
  let! _ := require (N.of_nat (length (sp_objects p)) <=? GC_MAX_REPORT_OBJECTS)%N CorruptMetadata in
  let! _ := require (length (sp_deleted p) <=? length (sp_objects p))%nat CorruptMetadata in
  let! _ := require (negb (has_duplicate (sp_objects p)) && negb (has_duplicate (sp_deleted p))) CorruptMetadata in
  let! _ := require (forallb (fun h => contains_str h (sp_objects p)) (sp_deleted p)) CorruptMetadata in
  let! _ := require (forallb is_valid_hash (sp_objects p)) CorruptMetadata in
  let! _ := require
    (String.eqb (sp_plan_digest p) (sweep_plan_digest (sp_run_id p) (sp_store_root p) (sp_objects p))) CorruptMetadata in
  sret p.

(** ** Retention of reports *)

Definition reports_dir : SPath := [GC_DIR; "reports"].
Definition report_path (run_id : string) : SPath := [GC_DIR; "reports"; run_id +:+ ".json"].
Definition progress_path (run_id : string) : SPath := [GC_DIR; "reports"; run_id +:+ ".progress.json"].

Definition utf8_name (name : string) : string := if ZeroRef.valid_utf8 (string_bytes name) then name else "".
Definition is_report_name (name : string) : bool :=
  KernelTransaction.ends_with ".json" name && negb (KernelTransaction.ends_with ".progress.json" name).
Definition modified_or_epoch (n : Node) : Z := match n with NFile _ (Some t) => t | _ => 0%Z end.

Fixpoint list_reports (entries : Children) (reports : list (Z * string)) : G (list (Z * string)) :=
  match entries with
  | [] => sret reports
  | (name, n) :: rest =>
      let! _ := gio (entry_call env) in
      let! _ := gio (entry_call env) in
      if is_real_file n && is_report_name (utf8_name name) then
        let! _ := gio (entry_call env) in
        reject! (GC_MAX_REPORT_OBJECTS <=? N.of_nat (length reports))%N with GcPolicy in
        list_reports rest (reports ++ [(modified_or_epoch n, name)])%list
      else list_reports rest reports
  end.

#[local] Instance Z_ord : Ord Z := Z.compare.

(** The oldest report other than the current one goes first. *)
Definition oldest_other (current : string) (reports : list (Z * string)) : nat :=
  match List.find (fun ir => negb (String.eqb (snd (snd ir)) current)) (imap (fun i r => (i, r)) reports) with
  | Some (i, _) => i
  | None => 0
  end.
Fixpoint prune_loop (fuel keep : nat) (current : string) (reports : list (Z * string)) : G () :=
  match fuel with
  | O => sret ()
  | S fuel' =>
      if (keep <? length reports)%nat then
        let index := oldest_other current reports in
        match reports !! index with
        | Some (_, name) =>
            let! _ := gio (remove_file env (reports_dir ++ [name])%list) in
            prune_loop fuel' keep current (delete index reports)
        | None => sret ()
        end
      else sret ()
  end.
Definition prune_gc_reports (keep : nat) (current : string) : G () :=
  let keep := Nat.max keep 1 in
  let! entries := gio (read_dir env reports_dir) in
  let! reports := list_reports entries [] in
  let reports := sort_by_key id reports in
  prune_loop (length reports) keep current reports.
End Report.

(** * Validation of a report *)

Definition REASON_CODES : list string :=
  ["reachability-root"; "ref-child"; "pin"; "active-lease"; "stale-lease-grace"; "shared-root"; "unknown-version";
   "corrupt-metadata"; "uncertain-metadata"; "unpublished-temp"; "namespace-isolation"; "no-live-reference"].

Section Validation.
Context `{Platform} `{SweepCodecs}.

Definition schema (c : bool) : result GcError () := if c then Ok () else Err SchemaViolation.

Definition valid_reason_codes (l : list string) : bool :=
  (length l <=? GC_MAX_EVIDENCE_ITEMS)%nat && negb (bool_decide (l = []))
  && forallb (fun r => contains_str r REASON_CODES) l && negb (has_duplicate l).
Definition valid_evidence (l : list string) : bool :=
  (length l <=? GC_MAX_EVIDENCE_ITEMS)%nat && forallb (fun e => negb (String.eqb e "")) l && negb (has_duplicate l).
Definition valid_hash_list (l : list string) : bool :=
  (N.of_nat (length l) <=? GC_MAX_REPORT_OBJECTS)%N && forallb is_valid_hash l && negb (has_duplicate l).
Definition valid_candidate (o : GcCandidate) : bool :=
  is_valid_hash (gc_blob_hash o) && valid_reason_codes (gc_reason_codes o) && valid_evidence (gc_evidence o).

Definition subset_str (l m : list string) : bool := forallb (fun h => contains_str h m) l.

Definition validate_dry_run_report (r : DryRunReport) : result GcError () :=
  let? _ := serialize_gc_json r in
  let? _ := schema (String.eqb (rp_schema_version r) GC_SCHEMA_VERSION) in
  let? _ := schema (String.eqb (rp_record_type r) GC_RECORD_TYPE_DRY_RUN) in
  let? _ := schema (bound_gc_contract_matches (rp_schema_version r) (rp_store_contract_digest r)) in
  let? _ := validate_run_id (rp_run_id r) in
  let? _ := schema (negb (String.eqb (rp_store_root r) "")) in
  let? _ :=
    match parse_rfc3339 (rp_evaluated_at r) with
    | Ok t => schema (bool_decide (is_Some t))
    | Err _ => Err GcPanic
    end in
  let complete := bool_decide (rp_state r = Complete) in
  let? _ := schema (rp_apply r || negb complete) in
  let? _ := schema (N.of_nat (length (rp_objects r)) <=? GC_MAX_REPORT_OBJECTS)%N in
  let? _ := schema (forallb valid_candidate (rp_objects r) && negb (has_duplicate (gc_blob_hash <$> rp_objects r))) in
  let collect := collectable (rp_objects r) in
  let? _ := schema (valid_hash_list (rp_planned r)) in
  let? _ := schema (complete || subset_str (rp_planned r) collect && subset_str collect (rp_planned r)) in
  let? _ := schema (subset_str collect (rp_planned r)) in
  let? _ := schema (valid_hash_list (rp_deleted r)) in
  let? _ := schema (subset_str (rp_deleted r) (rp_planned r)) in
  let? _ := schema
    (forallb (fun h => contains_str h (gc_blob_hash <$> rp_objects r) || contains_str h (rp_deleted r)) (rp_planned r)) in
  schema ((rp_apply r && complete) || bool_decide (rp_deleted r = [])).
End Validation.

(** * The sweep *)

Section Sweep.
Context (env : StoreEnv) (store_key : string) `{Platform} `{GcCodecs} `{SweepCodecs} `{GcDisplay}.

(** The deletions an interrupted sweep recorded that are still in effect. *)
Fixpoint confirm_deleted (hashes : list string) (deleted : list string) : G (list string) :=
  match hashes with
  | [] => sret deleted
  | hash :: rest =>
      let! r := attempt (symlink_metadata env (object_path hash)) in
      match r with
      | Ok n => if is_real_file n then confirm_deleted rest deleted else throw CorruptMetadata
      | Err NotFoundErr => confirm_deleted rest (deleted ++ [hash])%list
      | Err _ => throw GcIo
      end
  end.

Definition progress_record (config : GcConfig) (report : DryRunReport) (plan_digest : string)
    (to_delete deleted : list string) : SweepProgress :=
  mkProgress GC_SCHEMA_VERSION GC_RECORD_TYPE_SWEEP_PROGRESS gc_contract_digest_hex (cf_run_id config) store_key
    (rp_evaluated_at report) plan_digest to_delete deleted "sweeping".

Fixpoint sweep_loop (config : GcConfig) (guard : StoreLock) (persist : list string -> G ()) (hashes : list string)
    (deleted : list string) : G (list string) :=
  match hashes with
  | [] => sret deleted
  | hash :: rest =>
      if contains_str hash deleted then sweep_loop config guard persist rest deleted
      else
        let! re_state := load_mark_state env (cf_now config) (cf_grace_seconds config) in
        if bmap_mem hash (live re_state) || uncertain re_state then sweep_loop config guard persist rest deleted
        else
          let! _ := gcas (remove_object env store_key hash guard) in
          let deleted := (deleted ++ [hash])%list in
          let! _ := persist deleted in
          if bool_decide (cf_fault_after_deletes config = Some (N.of_nat (length deleted))) then throw FaultInjected
          else sweep_loop config guard persist rest deleted
  end.

Definition finish_candidate (deleted : list string) (o : GcCandidate) : GcCandidate :=
  if bool_decide (gc_verdict o = Collect) then
    if contains_str (gc_blob_hash o) deleted then
      mkCandidate (gc_blob_hash o) Collect (gc_reason_codes o) (push_bounded (gc_evidence o) "deleted by this sweep")
    else
      mkCandidate (gc_blob_hash o) RetainUncertain ["uncertain-metadata"]
        ["re-check before delete showed a live reference or uncertainty"]
  else o.

Definition final_report (report : DryRunReport) (to_delete deleted : list string) : DryRunReport :=
  mkReport (rp_schema_version report) (rp_record_type report) (rp_store_contract_digest report) (rp_run_id report)
    (rp_store_root report) (rp_evaluated_at report) (rp_apply report) Complete
    (finish_candidate deleted <$> rp_objects report) to_delete deleted.

Definition read_prior_progress (config : GcConfig) : G (option SweepProgress) :=
  let path := progress_path (cf_run_id config) in
  let! present := is_file_at env path in
  if present then
    let! progress := read_sweep_progress env path in
    let! _ := require (String.eqb (sp_run_id progress) (cf_run_id config)) SchemaViolation in
    let! _ := require (String.eqb (sp_store_root progress) store_key) SchemaViolation in
    sret (Some progress)
  else sret None.

(** What to delete, what is already deleted, and the digest of the plan. *)
Definition resume_plan (config : GcConfig) (prior : option SweepProgress) (current : list string)
  : G (list string * list string * string) :=
  match prior with
  | Some progress =>
      let! deleted := confirm_deleted (sp_deleted progress) [] in
      let remaining := List.filter (fun h => negb (contains_str h deleted)) (sp_objects progress) in
      let! _ := require (bool_decide (remaining = current)) SchemaViolation in
      sret (sp_objects progress, deleted, sp_plan_digest progress)
  | None => sret (current, [], sweep_plan_digest (cf_run_id config) store_key current)
  end.

Definition write_report (config : GcConfig) (report : DryRunReport) : G () :=
  let! _ := write_gc_json env (report_path (cf_run_id config)) report in
  prune_gc_reports env (cf_report_limit config) (cf_run_id config +:+ ".json").

Definition apply_sweep (config : GcConfig) (guard : StoreLock) (prior : option SweepProgress) (report : DryRunReport)
  : G DryRunReport :=
  let! plan := resume_plan config prior (collectable (rp_objects report)) in
  let '(to_delete, deleted, plan_digest) := plan in
  let persist := fun deleted =>
    write_gc_json env (progress_path (cf_run_id config)) (progress_record config report plan_digest to_delete deleted) in
  let! _ := persist deleted in
  let! deleted := sweep_loop config guard persist to_delete deleted in
  let final := final_report report to_delete deleted in
  let! _ := lift (validate_dry_run_report final) in
  let! _ := write_report config final in
  let! _ := remove_gc_record env (progress_path (cf_run_id config)) in
  sret final.

Definition run_gc (config : GcConfig) : G DryRunReport :=
  let! _ := lift (validate_run_id (cf_run_id config)) in
  let! coord := gio (sweep_lock env store_key) in
  let! prior := read_prior_progress config in
  let! state := load_mark_state env (cf_now config) (cf_grace_seconds config) in
  let! report :=
    build_dry_run_report env store_key (cf_run_id config) state (cf_min_age_seconds config) (cf_now config)
      (cf_apply config) in
  let! _ := write_report config report in
  if negb (cf_apply config) then sret report else apply_sweep config coord prior report.
End Sweep.

(** * Publication *)

Record RepairReceipt := mkRepair {
  rr_schema_version : string; rr_record_type : string; rr_store_contract_digest : string; rr_producer_id : string;
  rr_project_id : string; rr_operation_id : string; rr_blob_hash : string; rr_repaired : bool; rr_quarantined : bool;
  rr_completed_at : string }.

Section Publish.
Context (env : StoreEnv) (store_key : string) `{Platform} `{GcCodecs} `{Codec RepairReceipt}.

Definition require_gc_producer (producer_id : string) : G () := require (is_valid_producer_id producer_id) GcPolicy.

(** The check of a record already at [path]; [read] returns its epoch. *)
Definition require_newer_epoch (path : SPath) (read : G N) (epoch : N) : G () :=
  let! r := attempt (symlink_metadata env path) in
  match r with
  | Ok n =>
      reject! negb (is_real_file n) with CorruptMetadata in
      let! existing := read in
      reject! (epoch <=? existing)%N with SchemaViolation in
      sret ()
  | Err NotFoundErr => sret ()
  | Err _ => throw GcIo
  end.
Definition require_strictly_newer_epoch (path : SPath) (epoch : N) : G () :=
  require_newer_epoch path (let! snap := read_reachability_snapshot env path in sret (rs_epoch snap)) epoch.
Definition validate_next_lease_epoch (path : SPath) (epoch : N) : G () :=
  require_newer_epoch path (let! lease := read_lease_record env path in sret (ls_epoch lease)) epoch.

Definition snapshot_path (producer_id project_id : string) : SPath :=
  gc_join ["roots"; producer_id; project_id; "current.json"].

Definition publish_reachability_snapshot (producer_id project_id : string) (epoch : N) (blob_hashes : list string)
  : G SPath :=
  let! _ := require_gc_producer producer_id in
  let! _ := require (is_valid_hash project_id) SchemaViolation in
  let! _ := require (negb (epoch =? 0)%N) SchemaViolation in
  let! _ := require (N.of_nat (length blob_hashes) <=? GC_MAX_BLOB_HASHES)%N SchemaViolation in
  let! _ := require (forallb is_valid_hash blob_hashes) GcPolicy in
  let! _ := gio (sweep_lock env store_key) in
  let path := snapshot_path producer_id project_id in
  let! _ := require_strictly_newer_epoch path epoch in
  let! now := system_now env in
  let! _ :=
    write_gc_json env path
      (mkSnapshot
        (mkHeader GC_SCHEMA_VERSION GC_RECORD_TYPE_REACHABILITY producer_id project_id (Some gc_contract_digest_hex))
        epoch (format_system_time now) (bset_of_list blob_hashes)) in
  sret path.

Definition current_reachability_snapshot (producer_id project_id : string) : G (option ReachabilitySnapshot) :=
  let! _ := require_gc_producer producer_id in
  let! _ := require (is_valid_hash project_id) SchemaViolation in
  let path := snapshot_path producer_id project_id in
  let! r := attempt (symlink_metadata env path) in
  match r with
  | Ok n =>
      if is_real_file n then let! snap := read_reachability_snapshot env path in sret (Some snap)
      else throw CorruptMetadata
  | Err NotFoundErr => sret None
  | Err _ => throw GcIo
  end.

(** Schema, type and contract of a record about to be published. *)
Definition validate_header (h : Header) (expected : string) : G () :=
  let! _ := require (String.eqb (hd_schema_version h) GC_SCHEMA_VERSION) SchemaViolation in
  let! _ := require (String.eqb (hd_record_type h) expected) SchemaViolation in
  let! _ := require (bool_decide (hd_store_contract_digest h = Some gc_contract_digest_hex)) SchemaViolation in
  let! _ := require_gc_producer (hd_engine h) in
  require (is_valid_hash (hd_project_id h)) SchemaViolation.

Definition gc_record_path (subdir : string) (h : Header) (id : string) : SPath :=
  gc_join [subdir; hd_engine h; hd_project_id h; id +:+ ".json"].

Definition validate_pin_record (pin : PinRecord) : G SPath :=
  let! _ := validate_header (pin_header pin) GC_RECORD_TYPE_PIN in
  let! _ := require (is_valid_pin_id (pin_id pin)) SchemaViolation in
  let! _ := require (is_valid_hash (pin_blob_hash pin)) SchemaViolation in
  let! created_at := require_time (pin_created_at pin) SchemaViolation in
  let! _ :=
    match pin_expires_at pin with
    | Some exp =>
        let! expires_at := require_time exp SchemaViolation in
        require (created_at <=? expires_at)%Z SchemaViolation
    | None => sret ()
    end in
  sret (gc_record_path "pins" (pin_header pin) (pin_id pin)).

Definition publish_pin_record (pin : PinRecord) : G SPath :=
  let! path := validate_pin_record pin in
  let! _ := gio (sweep_lock env store_key) in
  let! _ := write_gc_json env path pin in
  sret path.

(** Removal of a pin or a lease. *)
Definition remove_record (subdir producer_id project_id id : string) : G () :=
  let! _ := require_gc_producer producer_id in
  let! _ := require (is_valid_hash project_id) SchemaViolation in
  let! _ := require (is_valid_pin_id id) SchemaViolation in
  let! _ := gio (sweep_lock env store_key) in
  remove_gc_record env (gc_join [subdir; producer_id; project_id; id +:+ ".json"]).
Definition remove_pin_record : string -> string -> string -> G () := remove_record "pins".
Definition remove_lease_record : string -> string -> string -> G () := remove_record "leases".

Definition validate_lease_record (lease : LeaseRecord) : G SPath :=
  let! _ := validate_header (ls_header lease) GC_RECORD_TYPE_LEASE in
  let! _ := require (is_valid_pin_id (ls_operation_id lease)) SchemaViolation in
  let! _ := require (1 <=? ls_epoch lease)%N SchemaViolation in
  let! _ := require (N.of_nat (length (ls_blob_hashes lease)) <=? GC_MAX_BLOB_HASHES)%N SchemaViolation in
  let! _ := require (forallb is_valid_hash (ls_blob_hashes lease)) SchemaViolation in
  let! _ := require (1 <=? owner_pid (ls_owner lease))%N SchemaViolation in
  let! _ := require (is_valid_host (owner_host (ls_owner lease))) SchemaViolation in
  let! _ := require (GC_MIN_GRACE_SECONDS <=? ls_grace_seconds lease)%N SchemaViolation in
  let! started_at := require_time (ls_started_at lease) SchemaViolation in
  let! expires_at := require_time (ls_expires_at lease) SchemaViolation in
  let! _ := require (started_at <=? expires_at)%Z SchemaViolation in
  sret (gc_record_path "leases" (ls_header lease) (ls_operation_id lease)).

Definition publish_lease_record_locked (lease : LeaseRecord) (path : SPath) (guard : StoreLock) : G SPath :=
  let! _ := require (is_exclusive guard && is_for_store_root guard store_key) GcPolicy in
  let! _ := validate_next_lease_epoch path (ls_epoch lease) in
  let! _ := write_gc_json env path lease in
  sret path.
Definition publish_lease_record (lease : LeaseRecord) : G SPath :=
  let! path := validate_lease_record lease in
  let! coord := gio (sweep_lock env store_key) in
  publish_lease_record_locked lease path coord.

(** An object and its protecting lease, published under one lock. *)
Definition put_leased (b : bytes) (producer_id project_id operation_id : string) (epoch : N) (owner : LeaseOwner)
    (lease_seconds : N) : G PutOutcome :=
  let! now := system_now env in
  match checked_add_secs now (N.max lease_seconds GC_MIN_GRACE_SECONDS) with
  | None => throw GcPolicy
  | Some expires_at =>
      let lease :=
        mkLease (mkHeader GC_SCHEMA_VERSION GC_RECORD_TYPE_LEASE producer_id project_id (Some gc_contract_digest_hex))
          operation_id epoch owner (format_system_time now) (format_system_time expires_at) GC_MIN_GRACE_SECONDS
          [content_sha256_hex b] in
      let! lease_path := validate_lease_record lease in
      let! coord := gio (sweep_lock env store_key) in
      let! _ := validate_next_lease_epoch lease_path epoch in
      let! _ := publish_lease_record_locked lease lease_path coord in
      gcas (put_in_lock env store_key b CAS_MAX_OBJECT_BYTES coord)
  end.

(** ** Repair *)

Definition validate_repair_bytes (blob_hash : string) (b : bytes) : G () :=
  let! _ := require (is_valid_hash blob_hash) SchemaViolation in
  require (String.eqb (content_sha256_hex b) blob_hash) CorruptMetadata.

Definition repair_object_with_guard (lock : StoreLock) (blob_hash : string) (b : bytes) : G (bool * bool) :=
  let! _ := require (is_exclusive lock && is_for_store_root lock store_key) GcPolicy in
  let! r := attempt (get_verified env blob_hash) in
  let republish := fun quarantined =>
    let! outcome := gcas (put_in_lock env store_key b CAS_MAX_OBJECT_BYTES lock) in
    let! _ := require (String.eqb (put_hash outcome) blob_hash) CorruptMetadata in
    sret (true, quarantined) in
  match r with
  | Ok _ => sret (false, false)
  | Err CasNotFound => republish false
  | Err (DigestMismatch _ _) =>
      let! _ := gcas (quarantine_object env store_key blob_hash lock) in
      republish true
  | Err e => throw (gc_of_cas e)
  end.

Definition repair_object (blob_hash : string) (b : bytes) : G bool :=
  let! _ := validate_repair_bytes blob_hash b in
  let! lock := gio (sweep_lock env store_key) in
  let! r := repair_object_with_guard lock blob_hash b in
  sret (fst r).

Definition repair_object_receipted (producer_id project_id operation_id blob_hash : string) (b : bytes)
  : G RepairReceipt :=
  let! _ := require_gc_producer producer_id in
  let! _ := require (is_valid_hash project_id) SchemaViolation in
  let! _ := require (is_valid_pin_id operation_id) SchemaViolation in
  let! _ := validate_repair_bytes blob_hash b in
  let receipt_path := gc_join ["repairs"; producer_id; project_id; operation_id +:+ ".json"] in
  let! lock := gio (sweep_lock env store_key) in
  let! r := attempt (symlink_metadata env receipt_path) in
  reject! is_ok r with GcPolicy in
  let! repaired := repair_object_with_guard lock blob_hash b in
  let! now := system_now env in
  let receipt :=
    mkRepair GC_SCHEMA_VERSION GC_RECORD_TYPE_REPAIR gc_contract_digest_hex producer_id project_id operation_id
      blob_hash (fst repaired) (snd repaired) (format_system_time now) in
  let! _ := write_gc_json env receipt_path receipt in
  sret receipt.
End Publish.
