(* ===== verification/GcTheorems.v ===== *)
(** Safety of collection: whatever happens during a run, the metadata stays,
    and only unreferenced objects go. *)

From S2P Require Import Prelude.
From S2P Require Import Ordering.
From S2P Require Import BMap.
From S2P Require Import DurableStore.
From S2P Require Import GcTime.
From S2P Require Import GcRefs.
From S2P Require Import StoreTree.
From S2P Require Import Cas.
From S2P Require Import Gc.
From S2P Require Import GcMarkTheorems.
From S2P Require Import GcSweep.
#[local] Open Scope string_scope.

Notation metadata := (["roots"; "pins"; "leases"]%string) (only parsing).

(** The paths a run must not disturb: the metadata and the objects. *)
Definition protected (q : SPath) : Prop :=
  (exists sub, sub ∈ metadata /\ q = [GC_DIR; sub]) \/ exists h, q = object_path h.
Definition protected_but (h : string) (q : SPath) : Prop := protected q /\ q <> object_path h.

Lemma object_path_inj h h' : object_path h = object_path h' -> h = h'.
Proof. by intros [= _ ->]. Qed.
Lemma object_path_apart h q : protected_but h q -> apart (object_path h) q.
Proof.
  intros [[(sub & _ & ->)|[h' ->]] Hn].
  - unfold object_path. apply apart_cons. by left.
  - by apply apart_same_length.
Qed.
Lemma gc_apart sub q : sub ∉ metadata -> protected q -> apart [GC_DIR; sub] q.
Proof.
  intros Hsub [(sub' & Hs & ->)|[h ->]]; [|apply apart_cons; by left].
  apply apart_same_length; [done|]. by intros [= ->].
Qed.
Lemma protected_not_prefix_gc q : protected q -> ~ q `prefix_of` [GC_DIR].
Proof.
  intros [(sub & _ & ->)|[h ->]] Hpre; apply prefix_length in Hpre; cbn in Hpre; lia.
Qed.

Section Frames.
Context (env : StoreEnv) (store_key : string).

Lemma keeps_ensure_real_dir K fuel : forall path, (forall q, K q -> ~ q `prefix_of` path) -> keeps K (ensure_real_dir env fuel path).
Proof.
  induction fuel as [|fuel IH]; intros path Ha; cbn [ensure_real_dir];
    (apply keeps_sbind; [apply keeps_attempt, reads_keeps, reads_symlink_metadata|]);
    intros [n|[]]; try apply keeps_throw; try (destruct (is_real_dir n); [apply keeps_ret|apply keeps_throw]);
    (apply keeps_sbind; [by apply keeps_attempt, keeps_create_dir|]); intros [|[]]; try apply keeps_ret; try apply keeps_throw.
  by apply IH.
Qed.
Lemma keeps_ensure_components K relative : forall current,
  (forall q, K q -> ~ q `prefix_of` (current ++ relative)%list) -> keeps K (ensure_components env current relative).
Proof.
  induction relative as [|x rest IH]; intros current Ha; cbn [ensure_components]; [apply keeps_ret|].
  apply keeps_sbind.
  - apply keeps_ensure_real_dir. intros q Hq Hpre. apply (Ha q Hq). etrans; [exact Hpre|].
    exists rest. by rewrite <- app_assoc.
  - intros _. apply IH. intros q Hq. rewrite <- app_assoc. by apply Ha.
Qed.
Lemma nearest_gc_prefix n dir p : nearest_gc n dir = Some p -> p = take (length p) dir.
Proof.
  induction n as [|n IH]; [done|]. cbn. case_bool_decide as Hd; [|done]. intros [= <-].
  apply lookup_lt_Some in Hd. rewrite length_take, Nat.min_l by lia. done.
Qed.
Lemma keeps_ensure_tree K dir : (forall q, K q -> apart dir q) -> keeps K (ensure_real_directory_tree env dir).
Proof.
  intros Ha. unfold ensure_real_directory_tree. destruct (nearest_gc _ _) as [p|] eqn:Hp; [|apply keeps_throw].
  apply nearest_gc_prefix in Hp. assert (Hpre : p `prefix_of` dir) by (exists (drop (length p) dir); by rewrite Hp at 1; rewrite take_drop).
  apply keeps_sbind.
  - apply keeps_ensure_real_dir. intros q Hq. by apply (apart_prefix dir); [apply Ha|].
  - intros _. apply keeps_ensure_components. intros q Hq. rewrite Hp at 1. rewrite take_drop.
    by apply (apart_prefix dir); [apply Ha|].
Qed.
Lemma keeps_write_gc_json K {T} `{Codec T} path (v : T) : path <> [] ->
  (forall q, K q -> apart (removelast path) q) -> keeps K (write_gc_json env path v).
Proof.
  intros Hp Ha. unfold write_gc_json. apply keeps_sbind; [apply keeps_lift|]. intros b. apply keeps_map_error.
  unfold gc_atomic_write. destruct (_ <? _)%N; [apply keeps_throw|].
  apply keeps_sbind; [by apply keeps_ensure_tree|]. intros _. by apply keeps_atomic_write_file.
Qed.

Lemma keeps_acquire mode : keeps protected (acquire env store_key mode).
Proof.
  unfold acquire. apply keeps_sbind.
  - unfold open_lock_file. apply keeps_sbind.
    { apply keeps_create_dir_all. intros q Hq [k Hk]. apply (protected_not_prefix_gc q Hq). destruct q; [|done].
      by apply prefix_nil. }
    intros _. apply keeps_sbind; [apply reads_keeps, reads_symlink_metadata|]. intros n.
    destruct (is_real_dir n); [|apply keeps_throw]. cbn [negb]. apply keeps_sbind.
    + unfold ensure_gc_namespace_dir. apply keeps_sbind; [apply keeps_attempt, reads_keeps, reads_symlink_metadata|].
      intros [m|[]]; try apply keeps_throw; [destruct (is_real_dir m); [apply keeps_ret|apply keeps_throw]|].
      apply keeps_sbind; [apply keeps_attempt, keeps_create_dir, protected_not_prefix_gc|].
      intros [|[]]; try apply keeps_throw; (apply keeps_sbind; [apply reads_keeps, reads_symlink_metadata|]);
        intros m; (destruct (is_real_dir m); [apply keeps_ret|apply keeps_throw]).
    + intros _. assert (Hl : keeps protected (open_or_create env coordinator_lock_path)).
      { apply keeps_open_or_create. intros q Hq. apply gc_apart; [|done]. unfold COORDINATOR_LOCK. set_solver. }
      apply keeps_sbind; [apply keeps_attempt, reads_keeps, reads_symlink_metadata|].
      intros [m|[]]; try apply keeps_throw; [destruct (is_real_file m); [done|apply keeps_throw]|done].
  - intros _. apply keeps_sbind; [by apply reads_keeps|]. intros []; [apply keeps_ret|apply keeps_throw].
Qed.

Lemma reports_apart q : protected q -> apart [GC_DIR; "reports"] q.
Proof. apply gc_apart. set_solver. Qed.

Lemma keeps_remove_report name : keeps protected (remove_file env (reports_dir ++ [name])%list).
Proof. apply keeps_remove_file. intros q Hq. by apply apart_app, reports_apart. Qed.

Lemma keeps_prune_loop fuel keep current : forall reports, keeps protected (prune_loop env fuel keep current reports).
Proof.
  induction fuel as [|fuel IH]; intros reports; cbn [prune_loop]; [apply keeps_ret|].
  destruct (_ <? _)%nat; [|apply keeps_ret]. destruct (reports !! _) as [[m name]|]; [|apply keeps_ret].
  apply keeps_sbind; [apply keeps_map_error, keeps_remove_report|]. intros _. apply IH.
Qed.
Lemma reads_list_reports entries : forall reports, reads (list_reports env entries reports).
Proof.
  induction entries as [|[name n] rest IH]; intros reports; cbn [list_reports]; [apply reads_ret|].
  apply reads_sbind; [apply reads_gio, reads_entry_call|intros _].
  apply reads_sbind; [apply reads_gio, reads_entry_call|intros _]. destruct (_ && _); [|apply IH].
  apply reads_sbind; [apply reads_gio, reads_entry_call|intros _]. destruct (_ <=? _)%N; [apply reads_throw|apply IH].
Qed.

Context `{Platform} `{GcCodecs} `{SweepCodecs}.

Lemma keeps_write_report config report : keeps protected (write_report env config report).
Proof.
  unfold write_report. apply keeps_sbind.
  - apply keeps_write_gc_json; [done|]. apply reports_apart.
  - intros _. unfold prune_gc_reports. apply keeps_sbind; [apply reads_keeps, reads_gio, reads_read_dir|].
    intros entries. apply keeps_sbind; [apply reads_keeps, reads_list_reports|]. intros reports. apply keeps_prune_loop.
Qed.
Lemma keeps_persist config v : keeps protected (write_gc_json (T := SweepProgress) env (progress_path (cf_run_id config)) v).
Proof. apply keeps_write_gc_json; [done|]. apply reports_apart. Qed.
Lemma keeps_remove_progress run_id : keeps protected (remove_gc_record env (progress_path run_id)).
Proof.
  unfold remove_gc_record. apply keeps_sbind; [apply keeps_attempt, (keeps_remove_report (run_id +:+ ".progress.json"))|].
  intros [|[]]; try apply keeps_ret; apply keeps_throw.
Qed.
End Frames.

(** * The sweep *)

(** The tree [t] after deleting from [t0] only objects that satisfy [P]. *)
Definition swept (P : string -> Prop) (t0 t : Node) : Prop :=
  (forall sub, sub ∈ metadata -> node_at [GC_DIR; sub] t = node_at [GC_DIR; sub] t0) /\
  (forall h, node_at (object_path h) t = node_at (object_path h) t0 \/
             node_at (object_path h) t = Err NotFoundErr /\ P h).

Lemma swept_refl P t : swept P t t.
Proof. split; auto. Qed.
Lemma swept_keeps {E A} P t0 (m : M E StoreWorld A) w r w' :
  keeps protected m -> m w = (r, w') -> swept P t0 (root w) -> swept P t0 (root w').
Proof.
  intros Hk Hm [Hs1 Hs2]. specialize (Hk w). rewrite Hm in Hk. cbn [snd] in Hk. split.
  - intros sub Hsub. rewrite Hk; [by apply Hs1|]. left. eauto.
  - intros h. rewrite Hk; [apply Hs2|]. right. eauto.
Qed.

Section Safety.
Context (env : StoreEnv) (store_key : string) `{Platform} `{GcCodecs} `{SweepCodecs} `{GcDisplay}.

(** References survive a sweep of unreferenced objects. *)
Lemma direct_ref_swept P t0 t now h : swept P t0 t -> direct_ref t0 now h -> direct_ref t now h.
Proof.
  intros [Hs _]. unfold file_at. intros Hd.
  assert (Ht : forall sub rest b m, sub ∈ metadata -> node_at (GC_DIR :: sub :: rest) t0 = Ok (NFile b m) ->
    file_at t (GC_DIR :: sub :: rest) b).
  { intros sub rest b m Hsub Hn. exists m. rewrite (node_at_app [GC_DIR; sub] rest) in *. by rewrite Hs. }
  destruct Hd as [producer project b snap [m Hf] Hd Hx|producer project name b pin [m Hf] He Hd Hx Hexp
    |producer project name b lease [m Hf] He Hd Hx].
  - eapply ref_root; [|done..]. eapply Ht; [set_solver|done].
  - eapply ref_pin; [|done..]. eapply Ht; [set_solver|done].
  - eapply ref_lease; [|done..]. eapply Ht; [set_solver|done].
Qed.
Lemma referenced_swept (P : string -> Prop) t0 t now h : (forall x, P x -> ~ referenced t0 now x) -> swept P t0 t ->
  referenced t0 now h -> referenced t now h.
Proof.
  intros HP Hs [Hd|seed b Hd [m Hb] Hm Hh]; [apply referenced_direct; by eapply direct_ref_swept|].
  eapply referenced_embedded; [by eapply direct_ref_swept| |done..]. exists m.
  destruct (proj2 Hs seed) as [Heq|[_ Hp]]; [congruence|]. exfalso. by apply (HP _ Hp), referenced_direct.
Qed.

Lemma remove_object_inv h guard w r w' : remove_object env store_key h guard w = (r, w') ->
  (root w' = root w /\ exists e, r = Err e) \/
  (exists b m, node_at (object_path h) (root w) = Ok (NFile b m)) /\ root w' = remove_node (object_path h) (root w).
Proof.
  unfold remove_object. intros Hr.
  assert (Hst : forall r1 w1, sweep_target env store_key h guard w = (r1, w1) ->
    root w1 = root w /\ (forall p, r1 = Ok p -> p = object_path h /\ exists b m, node_at p (root w) = Ok (NFile b m))).
  { intros r1 w1 Hst. unfold sweep_target, check_guard_root in Hst.
    destruct (is_exclusive guard); [|by injection Hst as <- <-].
    destruct (is_for_store_root guard store_key); [|by injection Hst as <- <-].
    destruct (ZeroRef.is_full_lower_hex h); [|by injection Hst as <- <-]. cbn [negb] in Hst.
    unfold sbind, sret, attempt in Hst. destruct (symlink_metadata env (object_path h) w) as [res w2] eqn:Hm.
    apply symlink_metadata_inv in Hm as [Hm Hres]. destruct res as [n|[]]; try (by injection Hst as <- <-).
    destruct Hres as [Hres|]; [|done]. cbn [is_real_file negb] in Hst.
    destruct n as [b m| |]; cbn [is_real_file negb] in Hst; injection Hst as <- <-; [|done..].
    split; [done|]. intros p [= <-]. split; [done|]. eauto. }
  unfold sbind in Hr. destruct (sweep_target _ _ _ _ _) as [[p|e] w1] eqn:Hs.
  - destruct (Hst _ _ eq_refl) as [Hw1 Hp]. destruct (Hp p eq_refl) as (-> & b & m & Hn).
    unfold io, map_error, remove_file, change in Hr. destruct (io_fails env (tick w1)); [left; injection Hr as <- <-; eauto|].
    rewrite Hw1, Hn in Hr. cbn in Hr. injection Hr as <- <-. right. split; [eauto|done].
  - destruct (Hst _ _ eq_refl) as [Hw1 _]. left. injection Hr as <- <-. eauto.
Qed.

Lemma swept_remove (P : string -> Prop) t0 t h b m : swept P t0 t -> node_at (object_path h) t = Ok (NFile b m) -> P h ->
  swept P t0 (remove_node (object_path h) t).
Proof.
  intros [Hs1 Hs2] Hn HP. split.
  - intros sub Hsub. rewrite remove_node_apart; [by apply Hs1|]. apply object_path_apart. split; [left; eauto|done].
  - intros h'. destruct (decide (h = h')) as [<-|Hne].
    + right. split; [|done]. by eapply remove_node_same.
    + rewrite remove_node_apart; [apply Hs2|]. apply object_path_apart. split; [right; eauto|].
      intros Heq. by apply Hne, object_path_inj.
Qed.

(** Objects recorded as deleted are gone. *)
Definition gone (t : Node) (deleted : list string) : Prop :=
  forall h, h ∈ deleted -> node_at (object_path h) t = Err NotFoundErr.
Lemma gone_keeps {E A} (m : M E StoreWorld A) w r w' deleted :
  keeps protected m -> m w = (r, w') -> gone (root w) deleted -> gone (root w') deleted.
Proof.
  intros Hk Hm Hg h Hh. specialize (Hk w). rewrite Hm in Hk. cbn [snd] in Hk. rewrite Hk; [by apply Hg|]. right. eauto.
Qed.

Lemma contains_str_spec h l : contains_str h l = true <-> h ∈ l.
Proof.
  unfold contains_str. rewrite existsb_exists, list_elem_of_In. split.
  - intros (x & Hx & He). apply String.eqb_eq in He as ->. done.
  - intros Hh. exists h. split; [done|]. apply String.eqb_refl.
Qed.

(** Certain and unmarked at the re-check means unreferenced from the start. *)
Lemma recheck_unreferenced (P : string -> Prop) t0 config w s w' h :
  (forall x, P x -> ~ referenced t0 (cf_now config) x) -> swept P t0 (root w) ->
  load_mark_state env (cf_now config) (cf_grace_seconds config) w = (Ok s, w') ->
  bmap_mem h (live s) || uncertain s = false -> ~ referenced t0 (cf_now config) h.
Proof.
  intros HP Hs Hl Hf Href. apply orb_false_iff in Hf as [Hm Hu].
  apply (referenced_swept P _ (root w)) in Href; [|done..].
  apply (load_mark_state_sound env _ _ _ _ _ _ Hl) in Href as [|Hmk]; [congruence|]. unfold marked in Hmk. congruence.
Qed.

Lemma sweep_loop_swept (P C : string -> Prop) t0 config guard persist hashes : forall deleted w r w',
  (forall d, keeps protected (persist d)) ->
  (forall h, P h <-> C h /\ ~ referenced t0 (cf_now config) h) ->
  (forall h, h ∈ hashes -> h ∉ deleted -> C h) ->
  sweep_loop env store_key config guard persist hashes deleted w = (r, w') ->
  swept P t0 (root w) -> gone (root w) deleted ->
  swept P t0 (root w') /\ forall d, r = Ok d -> gone (root w') d.
Proof.
  induction hashes as [|h rest IH]; intros deleted w r w' Hk HP HC Hr Hs Hg; cbn [sweep_loop] in Hr.
  { injection Hr as <- <-. split; [done|]. by intros d [= <-]. }
  assert (HP' : forall x, P x -> ~ referenced t0 (cf_now config) x) by (intros x Hx; by apply HP in Hx as [_ ?]).
  destruct (contains_str h deleted) eqn:Hin.
  { eapply IH; [done|done| |done..]. intros x Hx. apply HC. by right. }
  apply not_true_iff_false in Hin. rewrite contains_str_spec in Hin.
  unfold sbind at 1 in Hr. destruct (load_mark_state _ _ _ w) as [[s|e] w1] eqn:Hl;
    pose proof (Ok_reads _ _ _ _ (reads_load_mark_state env _ _) Hl) as Hw1; rewrite <- Hw1 in Hs, Hg.
  2: { injection Hr as <- <-. split; [done|]. by intros d [=]. }
  destruct (bmap_mem h (live s) || uncertain s) eqn:Hlive.
  { eapply IH; [done|done| |done..]. intros x Hx. apply HC. by right. }
  assert (HPh : P h).
  { apply HP. split; [apply HC; [left|done]|]. eapply (recheck_unreferenced P t0 config w); try done. by rewrite <- Hw1. }
  unfold sbind at 1 in Hr. unfold gcas, map_error in Hr.
  destruct (remove_object env store_key h guard w1) as [res w2] eqn:Hrem.
  apply remove_object_inv in Hrem as [[Hsame [e ->]]|[(b & m & Hn) Hdel]].
  { injection Hr as <- <-. rewrite Hsame. split; [done|by intros d [=]]. }
  assert (Hs2 : swept P t0 (root w2)) by (rewrite Hdel; by eapply swept_remove).
  destruct res as [[]|e]; [|injection Hr as <- <-; split; [done|by intros d [=]]].
  assert (Hg2 : gone (root w2) (deleted ++ [h])%list).
  { intros x [Hx| ->%list_elem_of_singleton]%elem_of_app; rewrite Hdel; [|by eapply remove_node_same].
    rewrite remove_node_apart; [by apply Hg|]. apply object_path_apart. split; [right; eauto|].
    intros Heq%object_path_inj. by subst. }
  unfold sbind at 1 in Hr. destruct (persist (deleted ++ [h])%list w2) as [rp w3] eqn:Hp.
  assert (Hs3 : swept P t0 (root w3)) by (by eapply swept_keeps).
  assert (Hg3 : gone (root w3) (deleted ++ [h])%list) by (by eapply gone_keeps).
  destruct rp as [[]|e]; [|injection Hr as <- <-; split; [done|by intros d [=]]].
  case_bool_decide; [injection Hr as <- <-; split; [done|by intros d [=]]|].
  eapply IH; [done|done| |done..]. intros x Hx Hnx. apply HC; [by right|]. intros Hxd. apply Hnx, elem_of_app. by left.
Qed.

(** ** The plan *)

(** An object old enough to collect. *)
Definition old_enough (config : GcConfig) (t : Node) (h : string) : Prop :=
  exists b modified, node_at (object_path h) t = Ok (NFile b (Some modified)) /\
    (cf_min_age_seconds config <= secs_since (cf_now config) modified)%N.

Lemma reads_classify s min_age now h : reads (classify env s min_age now h).
Proof.
  unfold classify, is_young. destruct (bmap_lookup h (live s)); [apply reads_ret|].
  destruct (uncertain s); [apply reads_ret|]. split_reads.
Qed.
Lemma reads_classify_all s min_age now hashes : reads (classify_all env s min_age now hashes).
Proof.
  induction hashes as [|h rest IH]; cbn [classify_all]; [apply reads_ret|].
  apply reads_sbind; [apply reads_classify|]. intros [[v r] ev]. apply reads_sbind; [done|]. intros objects. apply reads_ret.
Qed.

Lemma classify_collect s config h w r w' v reasons ev :
  classify env s (cf_min_age_seconds config) (cf_now config) h w = (r, w') -> r = Ok (v, reasons, ev) -> v = Collect ->
  old_enough config (root w) h.
Proof.
  intros Hc -> ->. unfold classify in Hc. destruct (bmap_lookup h (live s)); [by injection Hc|].
  destruct (uncertain s); [by injection Hc|]. apply sbind_Ok in Hc as (young & w1 & Hy & Hc).
  destruct young; [by injection Hc|]. unfold is_young in Hy. apply sbind_Ok in Hy as (n & w2 & Hn & Hy).
  apply attempt_Ok, symlink_metadata_inv in Hn as [Hw2 Hn]. injection Hy as Hy _.
  destruct n as [[b [m|]| |]|]; try done. destruct Hn as [Hn|]; [|done]. exists b, m. split; [done|].
  by apply N.ltb_ge in Hy.
Qed.
Lemma classify_all_collect s config hashes : forall w objects w' o,
  classify_all env s (cf_min_age_seconds config) (cf_now config) hashes w = (Ok objects, w') ->
  o ∈ objects -> gc_verdict o = Collect -> old_enough config (root w) (gc_blob_hash o).
Proof.
  induction hashes as [|h rest IH]; intros w objects w' o Hc Ho Hv; cbn [classify_all] in Hc.
  { injection Hc as <- <-. by apply elem_of_nil in Ho. }
  apply sbind_Ok in Hc as ([[v reasons] ev] & w1 & Hh & Hc).
  pose proof (Ok_reads _ _ _ _ (reads_classify _ _ _ _) Hh) as Hw1.
  apply sbind_Ok in Hc as (objects' & w2 & Hrest & Hc). injection Hc as <- <-.
  apply elem_of_cons in Ho as [->|Ho]; [by eapply classify_collect|]. rewrite <- Hw1. by eapply IH.
Qed.

Lemma reads_push_objects max entries : forall out, reads (push_objects env max entries out).
Proof.
  induction entries as [|[name n] rest IH]; intros out; cbn [push_objects]; [apply reads_ret|].
  apply reads_sbind; [apply reads_io, reads_entry_call|intros _]. destruct (is_listable_object_name name); [|apply IH].
  apply reads_sbind; [apply reads_attempt, reads_entry_call|intros ft]. destruct (_ && _); [|apply IH].
  destruct max; [|apply IH]. destruct (_ <=? _)%N; [apply reads_throw|apply IH].
Qed.
Lemma reads_list_shards max shards : forall out, reads (list_shards env max shards out).
Proof.
  induction shards as [|[name n] rest IH]; intros out; cbn [list_shards]; [apply reads_ret|].
  apply reads_sbind; [apply reads_io, reads_entry_call|intros _].
  apply reads_sbind; [apply reads_attempt, reads_entry_call|intros ft]. destruct (_ && _); [|apply IH].
  apply reads_sbind; [|intros; apply IH]. unfold push_objects_from_shard.
  apply reads_sbind; [apply reads_io, reads_read_dir|intros; apply reads_push_objects].
Qed.
Lemma reads_list_objects max : reads (list_objects_with_limit env max).
Proof.
  unfold list_objects_with_limit. apply reads_sbind; [apply reads_attempt, reads_read_dir|].
  intros [shards|[]]; try apply reads_throw; [|apply reads_ret].
  apply reads_sbind; [apply reads_list_shards|]. intros. apply reads_ret.
Qed.

Lemma build_report_inv config s w r w' :
  build_dry_run_report env store_key (cf_run_id config) s (cf_min_age_seconds config) (cf_now config) (cf_apply config) w
    = (r, w') ->
  root w' = root w /\
  forall report, r = Ok report -> rp_deleted report = [] /\
    forall h, h ∈ collectable (rp_objects report) -> old_enough config (root w) h.
Proof.
  intros Hb. unfold build_dry_run_report in Hb. unfold sbind at 1, gcas, map_error in Hb.
  destruct (list_objects_bounded _ _ w) as [lr w1] eqn:Hl. apply Ok_reads in Hl; [|apply reads_list_objects].
  destruct lr as [hashes|e]; [|injection Hb as <- <-; split; [done|by intros ? [=]]].
  unfold sbind in Hb. destruct (classify_all _ _ _ _ _ w1) as [cr w2] eqn:Hc.
  pose proof (Ok_reads _ _ _ _ (reads_classify_all _ _ _ _) Hc) as Hw2.
  destruct cr as [objects|e]; [|injection Hb as <- <-; split; [congruence|by intros ? [=]]].
  destruct (_ <? _)%N; injection Hb as <- <-; (split; [congruence|]); [by intros ? [=]|].
  intros report [= <-]. cbn [rp_deleted rp_objects]. split; [done|]. intros h Hh.
  unfold collectable in Hh. apply list_elem_of_fmap in Hh as (o & -> & Ho).
  rewrite list_elem_of_In, filter_In, <- list_elem_of_In in Ho. destruct Ho as [Ho Hv]. apply bool_decide_eq_true in Hv.
  rewrite <- Hl. eapply classify_all_collect; [exact Hc| |done].
  by rewrite sort_by_key_perm in Ho.
Qed.

Lemma confirm_deleted_inv hashes : forall acc w r w', confirm_deleted env hashes acc w = (r, w') ->
  root w' = root w /\ forall deleted, r = Ok deleted -> gone (root w) acc -> gone (root w) deleted.
Proof.
  induction hashes as [|h rest IH]; intros acc w r w' Hc; cbn [confirm_deleted] in Hc.
  { injection Hc as <- <-. split; [done|]. by intros d [= <-]. }
  unfold sbind, attempt in Hc. destruct (symlink_metadata _ _ w) as [res w1] eqn:Hm.
  apply symlink_metadata_inv in Hm as [Hw1 Hres]. destruct res as [n|[]].
  - destruct (is_real_file n); [|by injection Hc as <- <-]. apply IH in Hc as [Hc1 Hc2]. rewrite Hw1 in *. auto.
  - apply IH in Hc as [Hc1 Hc2]. rewrite Hw1 in *. split; [done|]. intros d Hd Hg. apply Hc2; [done|].
    intros x [Hx| ->%list_elem_of_singleton]%elem_of_app; [by apply Hg|]. by destruct Hres.
  - by injection Hc as <- <-.
  - by injection Hc as <- <-.
  - by injection Hc as <- <-.
Qed.

Lemma resume_plan_inv config prior current w r w' : resume_plan env store_key config prior current w = (r, w') ->
  root w' = root w /\
  forall to_delete deleted digest, r = Ok (to_delete, deleted, digest) -> gone (root w) deleted /\
    forall h, h ∈ to_delete -> h ∉ deleted -> h ∈ current.
Proof.
  intros Hr. unfold resume_plan in Hr. destruct prior as [progress|].
  - unfold sbind at 1 in Hr. destruct (confirm_deleted _ _ _ w) as [cr w1] eqn:Hc.
    apply confirm_deleted_inv in Hc as [Hw1 Hgone]. destruct cr as [deleted|e]; [|by injection Hr as <- <-].
    unfold sbind, require in Hr. case_bool_decide as Heq; [|by injection Hr as <- <-]. injection Hr as <- <-.
    split; [done|]. intros ??? [= <- <- <-]. split; [by apply Hgone; [|intros ? ?%elem_of_nil]|]. intros h Hh Hn.
    rewrite <- Heq, list_elem_of_In, filter_In, <- list_elem_of_In. split; [done|].
    apply negb_true_iff, not_true_iff_false. by rewrite contains_str_spec.
  - injection Hr as <- <-. split; [done|]. intros ??? [= <- <- <-]. split; [by intros ? ?%elem_of_nil|]. done.
Qed.

(** ** The run *)

(** What a run may delete: an old, unreferenced object, in an applied run. *)
Definition garbage (config : GcConfig) (t : Node) (h : string) : Prop :=
  cf_apply config = true /\ old_enough config t h /\ ~ referenced t (cf_now config) h.

Lemma reads_read_prior_progress config : reads (read_prior_progress env store_key config).
Proof.
  unfold read_prior_progress. apply reads_sbind; [apply reads_is_file_at|]. intros []; [|apply reads_ret].
  apply reads_sbind.
  - unfold read_sweep_progress. apply reads_sbind; [apply reads_read_gc_json|intros p].
    repeat (apply reads_sbind; [first [apply reads_require|apply reads_require_time|apply reads_lift]|intros _]).
    apply reads_ret.
  - intros p. apply reads_sbind; [apply reads_require|intros _]. apply reads_sbind; [apply reads_require|intros _].
    apply reads_ret.
Qed.

Lemma apply_sweep_inv (P : string -> Prop) t0 config guard prior report w r w' :
  (forall h, P h <-> old_enough config t0 h /\ ~ referenced t0 (cf_now config) h) ->
  (forall h, h ∈ collectable (rp_objects report) -> old_enough config t0 h) -> swept P t0 (root w) ->
  apply_sweep env store_key config guard prior report w = (r, w') ->
  swept P t0 (root w') /\ forall final, r = Ok final -> gone (root w') (rp_deleted final).
Proof.
  intros HP Hold Hs Hr. unfold apply_sweep in Hr. unfold sbind at 1 in Hr.
  destruct (resume_plan _ _ _ _ _ w) as [pr w1] eqn:Hplan. apply resume_plan_inv in Hplan as [Hw1 Hplan].
  destruct pr as [[[to_delete deleted] digest]|e]; [|injection Hr as <- <-; rewrite Hw1; by split; [|intros ? [=]]].
  destruct (Hplan _ _ _ eq_refl) as [Hgone Hsub]. rewrite <- Hw1 in Hs, Hgone.
  unfold sbind at 1 in Hr. match type of Hr with context [write_gc_json env ?p ?v w1] =>
    destruct (write_gc_json env p v w1) as [wr w2] eqn:Hwrite; pose proof (keeps_persist env config v) as Hk end.
  pose proof (swept_keeps _ _ _ _ _ _ Hk Hwrite Hs) as Hs2. pose proof (gone_keeps _ _ _ _ _ Hk Hwrite Hgone) as Hg2.
  destruct wr as [[]|e]; [|injection Hr as <- <-; by split; [|intros ? [=]]].
  unfold sbind at 1 in Hr. match type of Hr with context [sweep_loop env store_key config guard ?pe to_delete deleted w2] =>
    destruct (sweep_loop env store_key config guard pe to_delete deleted w2) as [sr w3] eqn:Hloop end.
  apply (sweep_loop_swept P (old_enough config t0) t0) in Hloop as [Hs3 Hg3]; [|intros d; apply keeps_persist|done| |done..].
  2: { intros h Hh Hn. apply Hold. by apply Hsub. }
  destruct sr as [deleted'|e]; [|injection Hr as <- <-; by split; [|intros ? [=]]]. specialize (Hg3 _ eq_refl).
  unfold sbind at 1, lift in Hr. destruct (validate_dry_run_report _) as [[]|e];
    [|injection Hr as <- <-; by split; [|intros ? [=]]].
  unfold sbind at 1 in Hr. destruct (write_report _ _ _ w3) as [rr w4] eqn:Hrep.
  pose proof (swept_keeps _ _ _ _ _ _ (keeps_write_report env config _) Hrep Hs3) as Hs4.
  pose proof (gone_keeps _ _ _ _ _ (keeps_write_report env config _) Hrep Hg3) as Hg4.
  destruct rr as [[]|e]; [|injection Hr as <- <-; by split; [|intros ? [=]]].
  unfold sbind in Hr. destruct (remove_gc_record _ _ w4) as [dr w5] eqn:Hdel.
  pose proof (swept_keeps _ _ _ _ _ _ (keeps_remove_progress env _) Hdel Hs4) as Hs5.
  pose proof (gone_keeps _ _ _ _ _ (keeps_remove_progress env _) Hdel Hg4) as Hg5.
  destruct dr as [[]|e]; injection Hr as <- <-; (split; [done|]); intros final [= <-]. done.
Qed.

Lemma swept_mono (P Q : string -> Prop) t0 t : (forall h, P h -> Q h) -> swept P t0 t -> swept Q t0 t.
Proof. intros HPQ [Hs1 Hs2]. split; [done|]. intros h. destruct (Hs2 h) as [|[? ?]]; auto. Qed.

(** The run up to the report: the tree is the initial one on protected paths. *)
Lemma run_gc_inv config w r w' : run_gc env store_key config w = (r, w') ->
  swept (garbage config (root w)) (root w) (root w') /\ forall report, r = Ok report -> gone (root w') (rp_deleted report).
Proof.
  intros Hr. unfold run_gc in Hr. set (F := fun _ : string => False).
  assert (HF : forall w1, swept F (root w) (root w1) -> swept (garbage config (root w)) (root w) (root w1)).
  { intros w1. by apply swept_mono. }
  unfold sbind at 1, lift in Hr. destruct (validate_run_id _) as [[]|e];
    [|injection Hr as <- <-; split; [apply swept_refl|by intros ? [=]]].
  unfold sbind at 1, gio, map_error in Hr. destruct (sweep_lock env store_key w) as [lr w1] eqn:Hlock.
  pose proof (swept_keeps F _ _ _ _ _ (keeps_acquire env store_key Exclusive) Hlock (swept_refl F (root w))) as Hs1.
  destruct lr as [guard|e]; [|injection Hr as <- <-; split; [by apply HF|by intros ? [=]]].
  unfold sbind at 1 in Hr. destruct (read_prior_progress _ _ _ w1) as [pr w2] eqn:Hprior.
  pose proof (swept_keeps F _ _ _ _ _ (reads_keeps _ _ (reads_read_prior_progress config)) Hprior Hs1) as Hs2.
  destruct pr as [prior|e]; [|injection Hr as <- <-; split; [by apply HF|by intros ? [=]]].
  unfold sbind at 1 in Hr. destruct (load_mark_state _ _ _ w2) as [mr w3] eqn:Hload.
  pose proof (swept_keeps F _ _ _ _ _ (reads_keeps _ _ (reads_load_mark_state env _ _)) Hload Hs2) as Hs3.
  destruct mr as [state|e]; [|injection Hr as <- <-; split; [by apply HF|by intros ? [=]]].
  unfold sbind at 1 in Hr. destruct (build_dry_run_report _ _ _ _ _ _ _ w3) as [br w4] eqn:Hbuild.
  apply build_report_inv in Hbuild as [Hw4 Hbuild]. rewrite <- Hw4 in Hs3.
  destruct br as [report|e]; [|injection Hr as <- <-; split; [by apply HF|by intros ? [=]]].
  destruct (Hbuild _ eq_refl) as [Hnone Hold].
  unfold sbind at 1 in Hr. destruct (write_report _ _ _ w4) as [wr w5] eqn:Hwrite.
  pose proof (swept_keeps F _ _ _ _ _ (keeps_write_report env config report) Hwrite Hs3) as Hs5.
  destruct wr as [[]|e]; [|injection Hr as <- <-; split; [by apply HF|by intros ? [=]]].
  destruct (cf_apply config) eqn:Happly; cbn [negb] in Hr.
  2: { injection Hr as <- <-. split; [by apply HF|]. intros rep [= <-]. rewrite Hnone. by intros ? ?%elem_of_nil. }
  apply (apply_sweep_inv (fun h => old_enough config (root w) h /\ ~ referenced (root w) (cf_now config) h) (root w)) in Hr
    as [Hs Hg]; [|done| |by eapply swept_mono; [|exact Hs5]].
  - split; [|done]. eapply swept_mono; [|exact Hs]. intros h [Ho Hn]. by split_and!.
  - intros h Hh. destruct (Hold h Hh) as (b & m & Hn & Hage). exists b, m. split; [|done].
    rewrite Hw4 in Hs3. by destruct (proj2 Hs3 h) as [<-|[_ []]].
Qed.
End Safety.

(** C18: Whatever a collection run returns, and whichever calls fail on the way,
    the roots, pins and leases are left as they were; an object is left as it
    was unless it is removed, and then the run was an applied one and the
    object was, before the run, old enough and neither named by a snapshot, an
    unexpired pin or a lease nor embedded in a container so named; and every
    object a returned report lists as deleted is gone. *)
Theorem gc_deletes_only_garbage (env : StoreEnv) (store_key : string) `{Platform} `{GcCodecs} `{SweepCodecs} `{GcDisplay}
    (config : GcConfig) (w w' : StoreWorld) (r : result GcError DryRunReport) :
  run_gc env store_key config w = (r, w') ->
  (forall sub, sub ∈ metadata -> node_at [GC_DIR; sub] (root w') = node_at [GC_DIR; sub] (root w)) /\
  (forall h, node_at (object_path h) (root w') = node_at (object_path h) (root w) \/
     node_at (object_path h) (root w') = Err NotFoundErr /\ cf_apply config = true /\
     old_enough config (root w) h /\ ~ referenced (root w) (cf_now config) h) /\
  (forall report h, r = Ok report -> h ∈ rp_deleted report -> node_at (object_path h) (root w') = Err NotFoundErr).
Proof.
  intros Hr. apply run_gc_inv in Hr as [[Hm Ho] Hg]. split_and!; [done| |].
  - intros h. destruct (Ho h) as [|(Hn & Ha & Hold & Href)]; [by left|right; by split_and!].
  - intros report h -> Hh. by apply (Hg report).
Qed.
