(* ===== verification/GcPublication.v ===== *)
(** Publication and collection together: a put leaves its object in place and
    nothing else changed, and an object put under a lease outlives every
    collection run while the lease is there. *)

From S2P Require Import Prelude.
From S2P Require Import DurableStore.
From S2P Require Import GcTime.
From S2P Require Import GcRefs.
From S2P Require Import StoreTree.
From S2P Require Import Cas.
From S2P Require Import CasTheorems.
From S2P Require Import Gc.
From S2P Require Import GcMarkTheorems.
From S2P Require Import GcSweep.
From S2P Require Import GcTheorems.
From S2P Require ZeroRef.
From S2P Require KernelTransaction.
#[local] Open Scope string_scope.

(** * Temporary names are not object names *)

Lemma string_all_get P s : forall i c, ZeroRef.string_all P s = true -> String.get i s = Some c -> P c = true.
Proof.
  induction s as [|a s IH]; intros i c Hall Hget; [by destruct i|]. cbn in Hall. apply andb_prop in Hall as [Ha Hs].
  destruct i as [|i]; cbn in Hget; [by injection Hget as <-|]. by eapply IH.
Qed.
Lemma full_hex_get s i c : ZeroRef.is_full_lower_hex s = true -> String.get i s = Some c -> c <> "."%char.
Proof.
  unfold ZeroRef.is_full_lower_hex. intros [_ Hall]%andb_prop Hget ->. by apply (string_all_get _ _ _ _ Hall) in Hget.
Qed.
Lemma prefix_get_head c p s : String.prefix (String c p) s = true -> String.get 0 s = Some c.
Proof. destruct s as [|a s]; [done|]. cbn. by destruct (ascii_dec c a) as [->|]. Qed.

Lemma temp_not_hex name : is_temp_name name = true -> ZeroRef.is_full_lower_hex name = false.
Proof.
  intros Ht. apply not_true_iff_false. intros Hh. apply orb_prop in Ht as [Hp|He].
  - apply prefix_get_head in Hp. by apply (full_hex_get _ _ _ Hh) in Hp.
  - unfold KernelTransaction.ends_with in He. apply andb_prop in He as [Hl He]. apply Nat.leb_le in Hl.
    apply String.eqb_eq in He. set (k := (String.length name - String.length ".tmp")%nat) in *.
    assert (Hget : String.get 0 (String.substring k (String.length ".tmp") name) = Some "."%char) by (by rewrite He).
    rewrite String.substring_correct1 in Hget by (cbn; lia). by apply (full_hex_get _ _ _ Hh) in Hget.
Qed.

(** * Putting *)

(** The metadata and every object other than [hash]. *)
Definition elsewhere (hash : string) (q : SPath) : Prop :=
  (exists sub, sub ∈ metadata /\ q = [GC_DIR; sub]) \/
  exists h, ZeroRef.is_full_lower_hex h = true /\ h <> hash /\ q = object_path h.

Lemma elsewhere_untouched hash : untouched hash (elsewhere hash).
Proof.
  intros q [(sub & Hsub & ->)|(h & Hh & Hn & ->)].
  - split.
    + intros Hp. by apply prefix_cons_inv_1 in Hp.
    + intros name _. unfold shard_dir. apply apart_cons. by left.
  - split.
    + intros Hp. apply prefix_length in Hp. cbn in Hp. lia.
    + intros name Hname. apply apart_same_length; [done|]. unfold shard_dir, object_path. cbn. intros [= _ ->].
      destruct Hname as [Ht|]; [|done]. apply temp_not_hex in Ht. congruence.
Qed.
Lemma elsewhere_protected hash q : elsewhere hash q -> protected q.
Proof. intros [?|(h & _ & _ & ->)]; [by left|right; eauto]. Qed.
Lemma keeps_mono {E A} (K K' : SPath -> Prop) (m : M E StoreWorld A) :
  (forall q, K q -> K' q) -> keeps K' m -> keeps K m.
Proof. intros HK Hm w q Hq. apply Hm. auto. Qed.

Section Put.
Context `{Platform} (env : StoreEnv) (store_key : string).

Lemma keeps_put_outcome b limit : keeps (elsewhere (content_sha256_hex b)) (put_outcome env store_key b limit).
Proof.
  unfold put_outcome. apply keeps_sbind.
  - apply keeps_map_error. eapply keeps_mono; [apply elsewhere_protected|apply keeps_acquire].
  - intros guard. unfold put_in_lock, check_guard_root. apply keeps_sbind.
    + destruct (is_for_store_root guard store_key); [apply keeps_ret|apply keeps_throw].
    + intros _. apply keeps_put_with_limit, elsewhere_untouched.
Qed.

(** A file already at the object's path keeps its bytes. *)
Lemma put_never_overwrites b limit w r w' b0 : put_with_limit env b limit w = (r, w') ->
  file_at (root w) (object_path (content_sha256_hex b)) b0 -> file_at (root w') (object_path (content_sha256_hex b)) b0.
Proof.
  intros Hp Hf. unfold put_with_limit in Hp. set (hash := content_sha256_hex b) in *.
  destruct (_ <? _)%N; [by injection Hp as <- <-|]. unfold sbind at 1 in Hp.
  destruct (try_return_existing_object env (object_path hash) hash limit w) as [er w1] eqn:He.
  assert (Hw1 : file_at (root w1) (object_path hash) b0 /\ er <> Ok None).
  { unfold try_return_existing_object in He. unfold sbind at 1, attempt in He.
    destruct (symlink_metadata env (object_path hash) w) as [mr w2] eqn:Hm. apply symlink_metadata_inv in Hm as [Hw2 Hmr].
    rewrite <- Hw2 in Hf. destruct Hf as [m Hf]. destruct mr as [n|e].
    - unfold sbind at 1, check_regular in He. destruct (is_real_file n);
        [|injection He as <- <-; split; [by exists m|done]].
      unfold sret, sbind at 1 in He. destruct (read_verified_at env (object_path hash) hash limit w2) as [vr w3] eqn:Hv.
      apply Ok_reads in Hv; [|apply reads_read_verified_at]. rewrite <- Hv in Hf.
      destruct vr as [b'|e]; [|injection He as <- <-; split; [by exists m|done]].
      unfold sbind in He. destruct (touch_path env (object_path hash) w3) as [tr w4] eqn:Ht.
      apply (touch_path_file env _ b0) in Ht; [|done|by exists m]. injection He as <- <-. by split.
    - destruct e; injection He as <- <-; (split; [by exists m|try done]).
      destruct Hmr as [Hmr|]; [|done]. rewrite <- Hw2, Hf in Hmr. done. }
  destruct Hw1 as [Hw1 Hne]. destruct er as [[out|]|e]; [by injection Hp as <- <-|done|by injection Hp as <- <-].
Qed.
End Put.

(** C20: Whatever a put returns, the metadata and all other objects are as they
    were, and a file already at the object's path keeps its bytes; when it
    succeeds, it returns the digest of the bytes and a file with that digest
    is at the object's path. *)
Theorem put_publishes_exactly `{Platform} (env : StoreEnv) (store_key : string) (b : bytes) (limit : N)
    (w w' : StoreWorld) (r : result CasError PutOutcome) :
  put_outcome env store_key b limit w = (r, w') ->
  (forall sub, sub ∈ metadata -> node_at [GC_DIR; sub] (root w') = node_at [GC_DIR; sub] (root w)) /\
  (forall h, ZeroRef.is_full_lower_hex h = true -> h <> content_sha256_hex b ->
     node_at (object_path h) (root w') = node_at (object_path h) (root w)) /\
  (forall b0, file_at (root w) (object_path (content_sha256_hex b)) b0 ->
     file_at (root w') (object_path (content_sha256_hex b)) b0) /\
  (forall out, r = Ok out -> put_hash out = content_sha256_hex b /\ object_in_place (root w') (content_sha256_hex b)).
Proof.
  intros Hp. pose proof (keeps_put_outcome env store_key b limit w) as Hk. rewrite Hp in Hk. cbn [snd] in Hk.
  split_and!; [intros sub Hsub; apply Hk; left; eauto|intros h Hh Hn; apply Hk; right; eauto| |].
  - intros b0 [m Hf]. unfold put_outcome in Hp. unfold sbind at 1, io, map_error in Hp.
    destruct (publish_lock env store_key w) as [lr w1] eqn:Hl.
    pose proof (keeps_acquire env store_key Shared w (object_path (content_sha256_hex b)) ltac:(right; eauto)) as Hk1.
    unfold publish_lock in Hl. rewrite Hl in Hk1. cbn [snd] in Hk1. rewrite <- Hk1 in Hf.
    destruct lr as [guard|e]; [|injection Hp as <- <-; by exists m]. unfold put_in_lock, sbind, check_guard_root in Hp.
    destruct (is_for_store_root guard store_key); [|injection Hp as <- <-; by exists m].
    eapply put_never_overwrites; [exact Hp|]. by exists m.
  - intros out ->. apply sbind_Ok in Hp as (guard & w1 & _ & Hp). apply sbind_Ok in Hp as (? & w2 & _ & Hp).
    by eapply put_in_place.
Qed.

(** * Leases protect *)

Lemma extension_json s : s <> "" -> extension (s +:+ ".json") = Some "json".
Proof.
  assert (Hlast : forall t, after_last_dot (t +:+ ".json") = Some "json").
  { induction t as [|c t IH]; [reflexivity|]. change (String c t +:+ ".json") with (String c (t +:+ ".json")). cbn.
    by rewrite IH. }
  destruct s as [|c s]; [done|]. intros _. change (String c s +:+ ".json") with (String c (s +:+ ".json")). cbn. apply Hlast.
Qed.
Lemma valid_id_nonempty s : is_valid_pin_id s = true -> s <> "".
Proof. intros Hv ->. done. Qed.

(** A store where [hash] is leased and in place. *)
Definition leased `{Platform} `{GcCodecs} (t : Node) (hash : string) : Prop :=
  object_in_place t hash /\
  exists producer project name b lease, file_at t [GC_DIR; "leases"; producer; project; name] b /\
    extension name = Some "json" /\ decode b = Some lease /\ hash ∈ ls_blob_hashes lease.

(** The store after a sequence of runs. *)
Fixpoint collect_repeatedly `{Platform} `{GcCodecs} `{SweepCodecs} `{GcDisplay} (store_key : string)
    (runs : list (StoreEnv * GcConfig)) (w : StoreWorld) : StoreWorld :=
  match runs with
  | [] => w
  | (env, config) :: rest => collect_repeatedly store_key rest (snd (run_gc env store_key config w))
  end.

Section Leases.
Context `{Platform} `{GcCodecs} `{SweepCodecs} `{GcDisplay} (store_key : string).

Lemma leased_survives_run env config w :
  forall hash, leased (root w) hash -> leased (root (snd (run_gc env store_key config w))) hash.
Proof.
  intros hash [(b & [m Hb] & Hh) (producer & project & name & lb & lease & [lm Hl] & Hext & Hdec & Hin)].
  destruct (run_gc env store_key config w) as [r w'] eqn:Hr. cbn [snd]. apply run_gc_inv in Hr as [[Hmeta Hobj] _].
  assert (Href : referenced (root w) (cf_now config) hash).
  { apply referenced_direct. eapply ref_lease; [by exists lm|done..]. }
  split.
  - exists b. split; [|done]. exists m. destruct (Hobj hash) as [->|(_ & _ & _ & Hn)]; done.
  - exists producer, project, name, lb, lease. split_and!; [|done..]. exists lm.
    rewrite (node_at_app [GC_DIR; "leases"] [producer; project; name]) in *. rewrite Hmeta by set_solver. done.
Qed.

Lemma put_leased_leaves env b producer project operation epoch owner seconds w out w' :
  (forall l : LeaseRecord, decode (encode l) = Some l) ->
  put_leased env store_key b producer project operation epoch owner seconds w = (Ok out, w') ->
  put_hash out = content_sha256_hex b /\ leased (root w') (content_sha256_hex b).
Proof.
  intros Hcodec Hp. unfold put_leased in Hp. apply sbind_Ok in Hp as (now & w1 & _ & Hp).
  destruct (checked_add_secs now _) as [expires|]; [|done]. apply sbind_Ok in Hp as (path & w2 & Hv & Hp).
  apply sbind_Ok in Hp as (guard & w3 & _ & Hp). apply sbind_Ok in Hp as (? & w4 & _ & Hp).
  apply sbind_Ok in Hp as (? & w5 & Hlease & Hp). apply map_error_Ok in Hp.
  unfold publish_lease_record_locked in Hlease. apply sbind_Ok in Hlease as (? & w6 & _ & Hlease).
  apply sbind_Ok in Hlease as (? & w7 & _ & Hlease). apply sbind_Ok in Hlease as (? & w8 & Hw & Hlease).
  injection Hlease as _ <-. set (lease := mkLease _ _ _ _ _ _ _ _) in *.
  assert (Hpath : path = [GC_DIR; "leases"; producer; project; operation +:+ ".json"] /\ is_valid_pin_id operation = true).
  { unfold validate_lease_record in Hv. apply sbind_Ok in Hv as (? & ? & _ & Hv).
    apply sbind_Ok in Hv as (? & ? & Hid & Hv). apply require_passes in Hid as [Hid _].
    do 9 (apply sbind_Ok in Hv as (? & ? & _ & Hv)). injection Hv as <- _. split; [reflexivity|exact Hid]. }
  destruct Hpath as [-> Hid]. apply (write_gc_json_Ok env [GC_DIR; "leases"; producer; project]) in Hw as [lm Hl].
  apply sbind_Ok in Hp as (? & w9 & Hg & Hp). unfold check_guard_root in Hg.
  destruct (is_for_store_root guard store_key); [|done]. injection Hg as _ <-.
  pose proof (keeps_put_with_limit env _ b (N.min CAS_MAX_OBJECT_BYTES CAS_MAX_OBJECT_BYTES)
    (elsewhere_untouched (content_sha256_hex b)) w8 [GC_DIR; "leases"] ltac:(left; eexists; split; [|done]; set_solver)) as Hk.
  rewrite Hp in Hk. cbn [snd] in Hk. apply put_in_place in Hp as [Hh Hplace]. split; [done|]. split; [done|].
  exists producer, project, (operation +:+ ".json"), (encode lease), lease. split_and!.
  - exists lm. rewrite (node_at_app [GC_DIR; "leases"] [producer; project; operation +:+ ".json"]) in *. by rewrite Hk.
  - apply extension_json. by apply valid_id_nonempty.
  - apply Hcodec.
  - left.
Qed.
End Leases.

(** C19: An object that [put_leased] published is in place, with its digest,
    after any sequence of collection runs, whatever their configurations and
    times and whichever of their calls fail: the lease keeps it even after it
    has expired. *)
Theorem leased_object_survives `{Platform} `{GcCodecs} `{SweepCodecs} `{GcDisplay} (env : StoreEnv) (store_key : string)
    (b : bytes) (producer project operation : string) (epoch : N) (owner : LeaseOwner) (seconds : N)
    (w w1 : StoreWorld) (out : PutOutcome) (runs : list (StoreEnv * GcConfig)) :
  (forall l : LeaseRecord, decode (encode l) = Some l) ->
  put_leased env store_key b producer project operation epoch owner seconds w = (Ok out, w1) ->
  put_hash out = content_sha256_hex b /\
  object_in_place (root (collect_repeatedly store_key runs w1)) (content_sha256_hex b).
Proof.
  intros Hcodec Hp. apply put_leased_leaves in Hp as [Hh Hl]; [|done]. split; [done|]. revert w1 Hl.
  induction runs as [|[env' config] rest IH]; intros w1 Hl; [apply Hl|]. cbn [collect_repeatedly]. apply IH.
  by apply leased_survives_run.
Qed.
