(* ===== verification/GcWitness.v ===== *)
(** A concrete store: a token codec for the records, a digest that keeps the
    first 32 bytes, and runs of publication and collection over a small tree. *)

From S2P Require Import Prelude.
From S2P Require Import Canonical.
From S2P Require Import DurableStore.
From S2P Require Import Zbf.
From S2P Require Import GcTime.
From S2P Require Import GcRefs.
From S2P Require Import StoreTree.
From S2P Require Import Cas.
From S2P Require Import CasTheorems.
From S2P Require Import Gc.
From S2P Require Import GcMarkTheorems.
From S2P Require Import GcSweep.
From S2P Require Import GcTheorems.
From S2P Require Import GcPublication.
From S2P Require Import KernelTransactionTheorems.
#[local] Open Scope list_scope.

(** * Tokens *)

Fixpoint tok (t : bytes) : bytes := match t with [] => ["0"%char] | c :: t' => "1"%char :: c :: tok t' end.
Definition toks (l : list bytes) : bytes := concat (tok <$> l).
Fixpoint untok (b cur : bytes) : option (list bytes) :=
  match b with
  | [] => match cur with [] => Some [] | _ => None end
  | x :: b' =>
      if Ascii.eqb x "0" then cons (rev cur) <$> untok b' []
      else match b' with c :: b'' => untok b'' (c :: cur) | [] => None end
  end.
Lemma untok_tok t : forall rest cur, untok (tok t ++ rest) cur = cons (rev cur ++ t) <$> untok rest [].
Proof.
  induction t as [|c t IH]; intros rest cur; cbn; [by rewrite app_nil_r|]. rewrite IH. cbn. by rewrite <- app_assoc.
Qed.
Lemma untok_toks l : untok (toks l) [] = Some l.
Proof. induction l as [|t l IH]; [done|]. unfold toks. cbn. rewrite untok_tok. cbn. fold (toks l). by rewrite IH. Qed.

Definition tN (n : N) : bytes := pos_bytes (N.succ_pos n).
Definition uN (b : bytes) : N := Pos.pred_N (bytes_pos b).
Lemma uN_tN n : uN (tN n) = n.
Proof. unfold uN, tN. rewrite bytes_pos_bytes. apply N.pos_pred_succ. Qed.
Definition tO (o : option string) : bytes := match o with None => [] | Some s => "s"%char :: string_bytes s end.
Definition uO (b : bytes) : option string := match b with [] => None | _ :: s => Some (bytes_string s) end.
Definition tL (l : list string) : bytes := toks (string_bytes <$> l).
Definition uL (b : bytes) : list string := match untok b [] with Some l => bytes_string <$> l | None => [] end.

Lemma bytes_string_bytes s : bytes_string (string_bytes s) = s.
Proof. apply String.string_of_list_ascii_of_string. Qed.
Lemma uO_tO o : uO (tO o) = o.
Proof. destruct o; cbn; [by rewrite bytes_string_bytes|done]. Qed.
Lemma uL_tL l : uL (tL l) = l.
Proof.
  unfold uL, tL. rewrite untok_toks. induction l as [|s l IH]; [done|]. cbn. rewrite bytes_string_bytes. by f_equal.
Qed.

Definition header_toks (h : Header) : list bytes :=
  [string_bytes (hd_schema_version h); string_bytes (hd_record_type h); string_bytes (hd_engine h);
   string_bytes (hd_project_id h); tO (hd_store_contract_digest h)].

#[local] Instance toy_codecs : GcCodecs := {|
  snapshot_codec := {|
    encode := fun s => toks (header_toks (rs_header s) ++ [tN (rs_epoch s); string_bytes (rs_published_at s); tL (rs_blob_hashes s)]);
    decode := fun b =>
      match untok b [] with
      | Some [a; t; e; p; d; n; at_; l] =>
          Some (mkSnapshot (mkHeader (bytes_string a) (bytes_string t) (bytes_string e) (bytes_string p) (uO d))
            (uN n) (bytes_string at_) (uL l))
      | _ => None
      end |};
  pin_codec := {|
    encode := fun s => toks (header_toks (pin_header s) ++
      [string_bytes (pin_id s); string_bytes (pin_created_at s); tO (pin_expires_at s); string_bytes (pin_blob_hash s)]);
    decode := fun b =>
      match untok b [] with
      | Some [a; t; e; p; d; i; c; x; h] =>
          Some (mkPin (mkHeader (bytes_string a) (bytes_string t) (bytes_string e) (bytes_string p) (uO d))
            (bytes_string i) (bytes_string c) (uO x) (bytes_string h))
      | _ => None
      end |};
  lease_codec := {|
    encode := fun s => toks (header_toks (ls_header s) ++
      [string_bytes (ls_operation_id s); tN (ls_epoch s); tN (owner_pid (ls_owner s)); string_bytes (owner_host (ls_owner s));
       string_bytes (ls_started_at s); string_bytes (ls_expires_at s); tN (ls_grace_seconds s); tL (ls_blob_hashes s)]);
    decode := fun b =>
      match untok b [] with
      | Some [a; t; e; p; d; o; n; pid; host; st; ex; g; l] =>
          Some (mkLease (mkHeader (bytes_string a) (bytes_string t) (bytes_string e) (bytes_string p) (uO d))
            (bytes_string o) (uN n) (mkOwner (uN pid) (bytes_string host)) (bytes_string st) (bytes_string ex) (uN g) (uL l))
      | _ => None
      end |} |}.

Lemma toy_lease_codec_ok (l : LeaseRecord) : decode (encode l) = Some l.
Proof.
  destruct l as [[] o n [] st ex g hs]. cbn -[toks untok header_toks]. rewrite untok_toks. cbn -[toks untok].
  by rewrite !bytes_string_bytes, !uN_tN, uO_tO, uL_tL.
Qed.

#[local] Instance toy_sweep_codecs : SweepCodecs := {|
  report_codec := {| encode := fun _ => []; decode := fun _ => None |};
  progress_codec := {|
    encode := fun s => toks
      [string_bytes (sp_schema_version s); string_bytes (sp_record_type s); string_bytes (sp_store_contract_digest s);
       string_bytes (sp_run_id s); string_bytes (sp_store_root s); string_bytes (sp_evaluated_at s);
       string_bytes (sp_plan_digest s); tL (sp_objects s); tL (sp_deleted s); string_bytes (sp_state s)];
    decode := fun b =>
      match untok b [] with
      | Some [a; t; c; r; s; e; p; o; d; st] =>
          Some (mkProgress (bytes_string a) (bytes_string t) (bytes_string c) (bytes_string r) (bytes_string s)
            (bytes_string e) (bytes_string p) (uL o) (uL d) (bytes_string st))
      | _ => None
      end |} |}.

#[local] Instance toy_platform : Platform := {|
  sha256 := fun b => take 32 (b ++ replicate 32 byte0);
  json_string := fun s => String (ascii_of_nat 34) (s +:+ String (ascii_of_nat 34) EmptyString) |}.
#[local] Instance toy_display : GcDisplay := {|
  display_path := fun p => join "/" p; display_error := fun _ => "error"%string;
  display_cas_error := fun _ => "error"%string; display_refs_error := fun _ => "error"%string |}.

Definition quiet_env : StoreEnv := mkStoreEnv (fun _ => false) (fun _ => true) (fun _ => 1700000000 * NANOS)%Z 7.
(** The environment in which the call at one tick fails. *)
Definition failing_at (n : nat) : StoreEnv :=
  mkStoreEnv (fun k => Nat.eqb k n) (fun _ => true) (fun _ => 1700000000 * NANOS)%Z 7.

(** * A store

    Three objects: a container that embeds a leaf, the leaf itself, and a
    stray.  A root snapshot names the container. *)

Definition zbf_object (flags : N) (payload : bytes) : bytes :=
  ZBF_MAGIC ++ to_be 2 1 ++ to_be 2 0 ++ to_be 3 0 ++ to_be 1 flags ++ to_be 8 (len payload) ++ replicate 128 byte0
    ++ sha256 payload ++ replicate 8 byte0 ++ payload.
Definition leaf : bytes := zbf_object 0 (string_bytes "leaf").
Definition container : bytes := zbf_object 1 (to_be 4 1 ++ frames [leaf]).
Definition stray : bytes := string_bytes "stray".
Definition h_leaf : string := content_sha256_hex leaf.
Definition h_container : string := content_sha256_hex container.
Definition h_stray : string := content_sha256_hex stray.

Definition project : string := h_stray.
Definition toy_root (h : string) : ReachabilitySnapshot :=
  mkSnapshot (mkHeader GC_SCHEMA_VERSION GC_RECORD_TYPE_REACHABILITY "engine" project (Some gc_contract_digest_hex))
    1 "2023-01-01T00:00:00Z" [h].
Definition object_node (b : bytes) : string * Node := (shard (content_sha256_hex b), NDir [(content_sha256_hex b, NFile b (Some 0%Z))]).

(** [extra] is added to the collector's directory. *)
Definition toy_tree (extra : Children) : Node :=
  NDir [("blobs", NDir [("sha256", NDir [
           (shard h_leaf, NDir [(h_leaf, NFile leaf (Some 0%Z)); (h_container, NFile container (Some 0%Z))]);
           (shard h_stray, NDir [(h_stray, NFile stray (Some 0%Z))])])]);
        ("gc", NDir (("roots", NDir [("engine", NDir [(project, NDir [("current.json", NFile (encode (toy_root h_container)) None)])])])
           :: extra))]%string.
Definition toy_world (extra : Children) : StoreWorld := mkStore (toy_tree extra) 0 0 0.
Definition sweep_config : GcConfig := mkConfig "run" 60 0 true (1700000000 * NANOS)%Z None 4.

Definition deleted_of (r : result GcError DryRunReport) : option (list string) :=
  match r with Ok report => Some (rp_deleted report) | Err _ => None end.

(** * Runs *)

Example sweep_collects_the_stray :
  deleted_of (fst (run_gc quiet_env "key" sweep_config (toy_world []))) = Some [h_stray].
Proof. vm_compute. reflexivity. Qed.

(** The run deletes the stray; the embedded leaf stays. *)
Lemma gc_deletes_only_garbage_witness :
  exists r w', run_gc quiet_env "key" sweep_config (toy_world []) = (r, w') /\
    node_at (object_path h_stray) (root w') = Err NotFoundErr /\
    ~ referenced (toy_tree []) (cf_now sweep_config) h_stray /\
    forall sub, sub ∈ ["roots"; "pins"; "leases"]%string -> node_at [GC_DIR; sub] (root w') = node_at [GC_DIR; sub] (toy_tree []).
Proof.
  destruct (run_gc quiet_env "key" sweep_config (toy_world [])) as [r w'] eqn:Hr. exists r, w'. split; [done|].
  assert (Hn : node_at (object_path h_stray) (root w') = Err NotFoundErr).
  { replace w' with (snd (run_gc quiet_env "key" sweep_config (toy_world []))) by (by rewrite Hr). vm_compute. reflexivity. }
  destruct (gc_deletes_only_garbage quiet_env "key" sweep_config (toy_world []) w' r Hr) as (Hm & Ho & _).
  split; [done|]. split; [|exact Hm]. destruct (Ho h_stray) as [Hsame|(_ & _ & _ & Href)]; [|exact Href].
  rewrite Hn in Hsame. discriminate Hsame.
Defined.

Lemma refs_closure_exact_witness : NoDup [h_leaf] /\ ref_of container h_leaf.
Proof.
  assert (Hr : refs_from_verified_bytes container = Ok [h_leaf]) by (vm_compute; reflexivity).
  destruct (refs_closure_exact container [h_leaf] Hr) as (Hn & Hm & _). split; [exact Hn|].
  apply (proj1 (Hm ltac:(vm_compute; reflexivity) h_leaf)). left.
Defined.

Definition empty_world : StoreWorld := mkStore (NDir []) 0 0 0.

Lemma put_publishes_exactly_witness :
  exists out w', put_outcome quiet_env "key" stray CAS_MAX_OBJECT_BYTES empty_world = (Ok out, w') /\
    put_hash out = h_stray /\ object_in_place (root w') h_stray.
Proof.
  destruct (put_outcome quiet_env "key" stray CAS_MAX_OBJECT_BYTES empty_world) as [r w'] eqn:Hp.
  assert (Hok : exists out, r = Ok out).
  { replace r with (fst (put_outcome quiet_env "key" stray CAS_MAX_OBJECT_BYTES empty_world)) by (by rewrite Hp).
    eexists. vm_compute. reflexivity. }
  destruct Hok as [out ->]. exists out, w'. split; [done|].
  destruct (put_publishes_exactly quiet_env "key" stray CAS_MAX_OBJECT_BYTES empty_world w' (Ok out) Hp) as (_ & _ & _ & Ho).
  exact (Ho out eq_refl).
Defined.

(** A leased stray survives a run of its own time and one a century later. *)
Definition century_later : GcConfig := mkConfig "later" 60 0 true (4900000000 * NANOS)%Z None 4.
Lemma leased_object_survives_witness :
  exists out w1,
    put_leased quiet_env "key" stray "engine" project "op" 1 (mkOwner 1 "host") 60 empty_world = (Ok out, w1) /\
    put_hash out = h_stray /\
    object_in_place (root (collect_repeatedly "key" [(quiet_env, sweep_config); (failing_at 9, century_later)] w1)) h_stray.
Proof.
  destruct (put_leased quiet_env "key" stray "engine" project "op" 1 (mkOwner 1 "host") 60 empty_world) as [r w1] eqn:Hp.
  assert (Hok : exists out, r = Ok out).
  { replace r with (fst (put_leased quiet_env "key" stray "engine" project "op" 1 (mkOwner 1 "host") 60 empty_world))
      by (by rewrite Hp). eexists. vm_compute. reflexivity. }
  destruct Hok as [out ->]. exists out, w1. split; [done|].
  exact (leased_object_survives quiet_env "key" stray "engine" project "op" 1 (mkOwner 1 "host") 60 empty_world w1 out
    [(quiet_env, sweep_config); (failing_at 9, century_later)] toy_lease_codec_ok Hp).
Defined.

(** * Behaviour at the edges *)

(** A progress record that could not be rewritten after an unlink makes every
    later applied run of that name fail. *)
Definition interrupted : StoreWorld := snd (run_gc (failing_at 76) "key" sweep_config (toy_world [])).
Example lost_progress_blocks_the_run :
  node_at (object_path h_stray) (root interrupted) = Err NotFoundErr /\
  fst (run_gc quiet_env "key" sweep_config interrupted) = Err SchemaViolation.
Proof. vm_compute. split; reflexivity. Qed.

(** A pin whose timestamp splits a character stops the collector. *)
Definition split_time : string := "2026-01-01T00:00:0" +:+ String (ascii_of_nat 195) (String (ascii_of_nat 169) "Z").
Definition bad_pin : PinRecord :=
  mkPin (mkHeader GC_SCHEMA_VERSION GC_RECORD_TYPE_PIN "engine" project (Some gc_contract_digest_hex)) "p" split_time None h_stray.
Definition pins_with (pin : PinRecord) : Children :=
  [("pins", NDir [("engine", NDir [(project, NDir [("p.json", NFile (encode pin) None)])])])]%string.
Example split_timestamp_panics :
  fst (run_gc quiet_env "key" sweep_config (toy_world (pins_with bad_pin))) = Err GcPanic.
Proof. vm_compute. reflexivity. Qed.

(** The report of the run [run.progress] is the progress record of [run]. *)
Example run_names_collide : report_path "run.progress" = progress_path "run".
Proof. reflexivity. Qed.

(** A producer named [gc] cannot publish into a fresh store; another can. *)
Example producer_gc_is_refused :
  fst (publish_reachability_snapshot quiet_env "key" "gc" project 1 [] empty_world) = Err GcIo /\
  is_ok (fst (publish_reachability_snapshot quiet_env "key" "engine" project 1 [] empty_world)) = true.
Proof. vm_compute. split; reflexivity. Qed.
