(* ===== verification/Gauge.v ===== *)
(** zero-gauge: exact rationals over 256-bit products and the feasible hit-rate
    solver ([zero-gauge/src/solver.rs]), the zero-failure certification bounds
    in 64-bit fixed point ([bounds.rs]) and the fixed-point multipliers
    ([hundredfold.rs]).

    [u64] and [u128] values are [N], [i128] values are [Z]; a cast, shift or
    [wrapping_*] that can lose bits is written out.  A call of [expect] that
    can fail returns a [GaugePanic]. *)

From S2P Require Import Prelude Sums.

#[local] Open Scope N_scope.

Definition U128_MAX : N := 2 ^ 128 - 1.
Definition wrap128 (x : N) : N := x mod 2 ^ 128.
Definition overflowing_add128 (a b : N) : N * bool := (wrap128 (a + b), U128_MAX <? a + b).
Definition wrapping_sub128 (a b : N) : N := wrap128 (a + 2 ^ 128 - b).

(** [u128::overflowing_shl]: the flag tells whether the shift count reaches the
    width, not whether a bit was shifted out. *)
Definition overflowing_shl128 (a count : N) : N * bool := (wrap128 (N.shiftl a (count mod 128)), 128 <=? count).
Definition unsigned_abs (z : Z) : N := Z.abs_N z.

Inductive GaugePanic := GcdTooWide | HighWordTooWide | DenominatorTooWide.
Notation panics := (result GaugePanic).

(** * Rationals *)

Record Rational := mkRational { num : Z; den : N }.
#[global] Instance Rational_eq_dec : EqDecision Rational.
Proof. solve_decision. Defined.

Definition ZERO : Rational := mkRational 0 1.
Definition ONE : Rational := mkRational 1 1.

Record FeasibleInterval := mkFeasible { fi_min : Rational; fi_max : Rational }.
Record Blocker := mkBlocker { bl_coordinate : string; bl_feasible : option FeasibleInterval; bl_before : FeasibleInterval }.

Inductive SolverError :=
| ZeroDenominator
| InvertedInterval (field : string) (lo hi : N)
| EmptyCoordinateName
| InconsistentModel (coordinate relation : string)
| NoCoordinates
| EmptyIntersection (blocker : Blocker).

(** [gcd]: at most 257 rounds on 128-bit operands ([euclid_gcd]). *)
Definition gcd (a b : N) : N := euclid 257 a b.

Definition i128_of_u128 (p : GaugePanic) (x : N) : panics Z := if x <? 2 ^ 127 then Ok (Z.of_N x) else Err p.

Definition Rational_new (n : Z) (d : N) : panics (result SolverError Rational) :=
  if d =? 0 then Ok (Err ZeroDenominator)
  else
    let divisor := gcd (unsigned_abs n) d in
    let? divisor_i := i128_of_u128 GcdTooWide divisor in
    Ok (Ok (mkRational (Z.quot n divisor_i) (d / divisor))).

Definition is_zero (r : Rational) : bool := (num r =? 0)%Z.
Definition is_one (r : Rational) : bool := (num r =? 1)%Z && (den r =? 1).

(** * 256-bit products *)

Definition MASK : N := N.shiftr U128_MAX 64.

Definition widen_mul (a b : N) : N * N :=
  let a_lo := N.land a MASK in
  let a_hi := N.shiftr a 64 in
  let b_lo := N.land b MASK in
  let b_hi := N.shiftr b 64 in
  let ll := a_lo * b_lo in
  let lh := a_hi * b_lo in
  let hl := a_lo * b_hi in
  let hh := a_hi * b_hi in
  let m_lo := N.land lh MASK + N.land hl MASK in
  let m_hi := N.shiftr lh 64 + N.shiftr hl 64 + N.shiftr m_lo 64 in
  let ll_hi := N.shiftr ll 64 in
  let ll_lo := N.land ll MASK in
  let mid := m_lo + ll_hi in
  let lo := N.lor (wrap128 (N.shiftl (N.land mid MASK) 64)) ll_lo in
  let hi := hh + m_hi + N.shiftr mid 64 in
  (hi, lo).

(** A signed 256-bit value [hi * 2^128 + lo]. *)
Record U256 := mkU256 { hi : Z; lo : N }.

Definition u256_add (a b : U256) : U256 :=
  let '(l, carry) := overflowing_add128 (lo a) (lo b) in
  mkU256 (hi a + hi b + Z.b2z carry) l.

Definition u256_neg (a : U256) : U256 :=
  let '(l, carry) := overflowing_add128 (U128_MAX - lo a) 1 in
  mkU256 (Z.lnot (hi a) + Z.b2z carry) l.

Definition u256_cmp (a b : U256) : comparison :=
  match (hi a ?= hi b)%Z with Eq => lo a ?= lo b | c => c end.

Definition u256_unsigned_mul (a b : N) : panics U256 :=
  let '(h, l) := widen_mul a b in
  let? h := i128_of_u128 HighWordTooWide h in
  Ok (mkU256 h l).

Definition u256_signed_mul (a b : Z) : panics U256 :=
  let negative := negb (Bool.eqb (a <? 0)%Z (b <? 0)%Z) in
  let? value := u256_unsigned_mul (unsigned_abs a) (unsigned_abs b) in
  Ok (if negative then u256_neg value else value).

Definition compare (a b : Rational) : panics comparison :=
  match (num a ?= 0)%Z, (num b ?= 0)%Z with
  | Lt, Gt => Ok Lt
  | Gt, Lt => Ok Gt
  | Eq, _ => Ok (0 ?= num b)%Z
  | _, Eq => Ok (num a ?= 0)%Z
  | Gt, Gt =>
      let? x := u256_unsigned_mul (unsigned_abs (num a)) (den b) in
      let? y := u256_unsigned_mul (unsigned_abs (num b)) (den a) in
      Ok (u256_cmp x y)
  | Lt, Lt =>
      let? x := u256_unsigned_mul (unsigned_abs (num b)) (den a) in
      let? y := u256_unsigned_mul (unsigned_abs (num a)) (den b) in
      Ok (u256_cmp x y)
  end.

Definition rat_le (a b : Rational) : panics bool :=
  let? c := compare a b in Ok (match c with Gt => false | _ => true end).
Definition rat_max (a b : Rational) : panics Rational := let? above := rat_le b a in Ok (match above with true => a | false => b end).
Definition rat_min (a b : Rational) : panics Rational := let? below := rat_le a b in Ok (match below with true => a | false => b end).
Definition rat_gt (a b : Rational) : panics bool := let? below := rat_le a b in Ok (negb below).

Definition contains_rate (min max h : Rational) : panics bool :=
  let? l := rat_le min h in
  match l with true => rat_le h max | false => Ok false end.
Definition FeasibleInterval_contains (i : FeasibleInterval) (h : Rational) : panics bool :=
  contains_rate (fi_min i) (fi_max i) h.

(** * The solver *)

Record Interval := mkInterval { iv_lo : N; iv_hi : N }.

Definition Interval_new (l h : N) : result SolverError Interval :=
  if h <? l then Err (InvertedInterval "interval" l h) else Ok (mkInterval l h).

Record ResourceCoordinate := mkCoordinate {
  rc_name : string; rc_baseline : Interval; rc_hit : Interval; rc_fallback : Interval;
  rc_preparation : Interval; rc_target : Interval }.

Definition ResourceCoordinate_new (name : string) (baseline hit fallback preparation target : Interval)
  : result SolverError ResourceCoordinate :=
  reject? String.eqb name "" with EmptyCoordinateName in
  let? _ := Interval_new (iv_lo baseline) (iv_hi baseline) in
  let? _ := Interval_new (iv_lo hit) (iv_hi hit) in
  let? _ := Interval_new (iv_lo fallback) (iv_hi fallback) in
  let? _ := Interval_new (iv_lo preparation) (iv_hi preparation) in
  let? _ := Interval_new (iv_lo target) (iv_hi target) in
  reject? iv_lo fallback <? iv_hi hit with InconsistentModel name "hit above fallback" in
  reject? iv_lo baseline <? iv_hi fallback with InconsistentModel name "fallback above baseline" in
  Ok (mkCoordinate name baseline hit fallback preparation target).

(** [Rational::new(..).expect(..)]: the denominators passed are positive. *)
Definition new_expected (n : Z) (d : N) : panics Rational :=
  let? r := Rational_new n d in
  match r with Ok q => Ok q | Err _ => Err DenominatorTooWide end.

Definition corner_interval (p hit fallback target : N) : panics (option FeasibleInterval) :=
  let k := (Z.of_N target - Z.of_N p - Z.of_N fallback)%Z in
  let slope := (Z.of_N hit - Z.of_N fallback)%Z in
  match (slope ?= 0)%Z with
  | Eq => Ok (if (0 <=? k)%Z then Some (mkFeasible ZERO ONE) else None)
  | Gt =>
      if (k <? 0)%Z then Ok None
      else
        let? bound := new_expected k (Z.to_N slope) in
        let? max := rat_min bound ONE in
        Ok (Some (mkFeasible ZERO max))
  | Lt =>
      if (0 <=? k)%Z then Ok (Some (mkFeasible ZERO ONE))
      else
        let? bound := new_expected (- k) (Z.to_N (- slope)) in
        let? above := rat_gt bound ONE in
        Ok (match above with true => None | false => Some (mkFeasible bound ONE) end)
  end.

Definition certified_feasible_interval (c : ResourceCoordinate) : panics (option FeasibleInterval) :=
  corner_interval (iv_hi (rc_preparation c)) (iv_hi (rc_hit c)) (iv_hi (rc_fallback c)) (iv_lo (rc_target c)).
Definition exists_feasible_interval (c : ResourceCoordinate) : panics (option FeasibleInterval) :=
  corner_interval (iv_lo (rc_preparation c)) (iv_lo (rc_hit c)) (iv_lo (rc_fallback c)) (iv_hi (rc_target c)).

(** The common body of [certified_holds] and [exists_holds]. *)
Definition corner_holds (p hit fallback target : N) (h : Rational) : panics bool :=
  let? d := i128_of_u128 DenominatorTooWide (den h) in
  let? x := u256_signed_mul (Z.of_N p + Z.of_N fallback) d in
  let? y := u256_signed_mul (num h) (Z.of_N hit - Z.of_N fallback) in
  let lhs := u256_add x y in
  let? rhs := u256_signed_mul (Z.of_N target) d in
  Ok (match u256_cmp lhs rhs with Gt => false | _ => true end).

Definition certified_holds (c : ResourceCoordinate) (h : Rational) : panics bool :=
  corner_holds (iv_hi (rc_preparation c)) (iv_hi (rc_hit c)) (iv_hi (rc_fallback c)) (iv_lo (rc_target c)) h.
Definition exists_holds (c : ResourceCoordinate) (h : Rational) : panics bool :=
  corner_holds (iv_lo (rc_preparation c)) (iv_lo (rc_hit c)) (iv_lo (rc_fallback c)) (iv_hi (rc_target c)) h.

Record CoordinateReport := mkCoordinateReport {
  cr_coordinate : string; cr_certified : option FeasibleInterval; cr_exists : option FeasibleInterval }.
Record FeasibleIntersection := mkIntersection { fx_min : Rational; fx_max : Rational; fx_coordinates : list CoordinateReport }.
Definition FeasibleIntersection_contains (r : FeasibleIntersection) (h : Rational) : panics bool :=
  contains_rate (fx_min r) (fx_max r) h.

Fixpoint intersect_loop (coordinates : list ResourceCoordinate) (min max : Rational) (reports : list CoordinateReport)
  : panics (result SolverError FeasibleIntersection) :=
  match coordinates with
  | [] => Ok (Ok (mkIntersection min max reports))
  | c :: rest =>
      let? certified := certified_feasible_interval c in
      let? exists_iv := exists_feasible_interval c in
      match certified with
      | Some interval =>
          let? next_min := rat_max min (fi_min interval) in
          let? next_max := rat_min max (fi_max interval) in
          let? empty := rat_gt next_min next_max in
          match empty with
          | true => Ok (Err (EmptyIntersection (mkBlocker (rc_name c) (Some interval) (mkFeasible min max))))
          | false => intersect_loop rest next_min next_max (reports ++ [mkCoordinateReport (rc_name c) certified exists_iv])
          end
      | None => Ok (Err (EmptyIntersection (mkBlocker (rc_name c) None (mkFeasible min max))))
      end
  end.

Definition feasible_intersection (coordinates : list ResourceCoordinate) : panics (result SolverError FeasibleIntersection) :=
  match coordinates with
  | [] => Ok (Err NoCoordinates)
  | _ => intersect_loop coordinates ZERO ONE []
  end.

(** * Zero-failure bounds *)

Definition SCALE : N := 2 ^ 64.

Record ZeroFailureBoundInput := mkBoundInput {
  zf_trials : N; zf_failures : N; zf_success_target : Rational; zf_alpha : Rational;
  zf_independent : bool; zf_design_effect : option Rational }.
Record ZeroFailureBoundCertification := mkCertification {
  zc_effective_trials : N; zc_success_target : Rational; zc_alpha : Rational }.

Inductive BoundsError :=
| ZeroTrials
| FailuresExceedTrials
| NonZeroFailures (failures : N)
| ParameterOutOfUnitInterval (parameter : string)
| DependentTrace
| InvalidDesignEffect
| InsufficientEffectiveSample (effective : N)
| InsufficientTrials (trials : N)
| AmbiguousBound
| TrialsOverflow.
#[global] Instance BoundsError_eq_dec : EqDecision BoundsError.
Proof. solve_decision. Defined.

(** [x as u128] for an [i128]. *)
Definition as_u128 (z : Z) : N := Z.to_N (z mod 2 ^ 128).

Definition validate_unit_open (rate : Rational) (parameter : string) : result BoundsError () :=
  if (num rate <=? 0)%Z || (den rate <=? as_u128 (num rate)) then Err (ParameterOutOfUnitInterval parameter) else Ok ().

Definition cmp_u256 (a b : N * N) : comparison :=
  match fst a ?= fst b with Eq => snd a ?= snd b | c => c end.

(** One word of the long division: the bits of [word] below [bits], from the
    highest, enter the remainder. *)
Fixpoint div_word (bits : nat) (word divisor quotient remainder : N) : N * N :=
  match bits with
  | O => (quotient, remainder)
  | S b =>
      let bit := N.of_nat b in
      let '(shifted, over) := overflowing_shl128 remainder 1 in
      let shifted := N.lor shifted (N.land (N.shiftr word bit) 1) in
      if over || (divisor <=? shifted)
      then div_word b word divisor (N.lor quotient (N.shiftl 1 bit)) (wrapping_sub128 shifted divisor)
      else div_word b word divisor quotient shifted
  end.

Definition u256_div_u128_floor (hi lo divisor : N) : N :=
  let '(quotient, remainder) := div_word 128 hi divisor 0 0 in
  fst (div_word 128 lo divisor quotient remainder).

Definition u256_div_u128_ceil (hi lo divisor : N) : N :=
  let '(l, carry) := overflowing_add128 lo (divisor - 1) in
  let h := wrap128 (hi + N.b2n carry) in
  u256_div_u128_floor h l divisor.

Definition mul_floor (x y : N) : N :=
  let '(h, l) := widen_mul x y in N.lor (wrap128 (N.shiftl h 64)) (N.shiftr l 64).

Definition mul_ceil (x y : N) : N :=
  let '(h, l) := widen_mul x y in
  let '(sum, carry) := overflowing_add128 l (SCALE - 1) in
  let h := wrap128 (h + N.b2n carry) in
  N.lor (wrap128 (N.shiftl h 64)) (N.shiftr sum 64).

Record FixedInterval := mkFixed { fx_lo : N; fx_hi : N }.

Definition interval_mul (a b : FixedInterval) : FixedInterval :=
  mkFixed (mul_floor (fx_lo a) (fx_lo b)) (mul_ceil (fx_hi a) (fx_hi b)).

Definition scale_rational (alpha : Rational) : N * N := (as_u128 (num alpha), den alpha).

Definition scale_rational_interval (q : Rational) : FixedInterval :=
  let '(h, l) := widen_mul (as_u128 (num q)) SCALE in
  mkFixed (u256_div_u128_floor h l (den q)) (u256_div_u128_ceil h l (den q)).

(** [while remaining > 0]: 64 rounds halve a [u64] to zero. *)
Fixpoint power_loop (fuel : nat) (power factor : FixedInterval) (remaining : N) : FixedInterval :=
  match fuel with
  | O => power
  | S fuel' =>
      if remaining =? 0 then power
      else
        let power := if N.land remaining 1 =? 1 then interval_mul power factor else power in
        let remaining := N.shiftr remaining 1 in
        let factor := if 0 <? remaining then interval_mul factor factor else factor in
        power_loop fuel' power factor remaining
  end.

Definition power_le (q : Rational) (n : N) (alpha : Rational) : result BoundsError bool :=
  if n =? 0 then Ok false
  else
    let target := scale_rational alpha in
    let base := scale_rational_interval q in
    let power := power_loop 64 (mkFixed SCALE SCALE) base n in
    match cmp_u256 (widen_mul (fx_hi power) (snd target)) (widen_mul (fst target) SCALE) with
    | Lt | Eq => Ok true
    | Gt =>
        match cmp_u256 (widen_mul (fx_lo power) (snd target)) (widen_mul (fst target) SCALE) with
        | Gt => Ok false
        | _ => Err AmbiguousBound
        end
    end.

Definition effective_trials (trials : N) (design_effect : Rational) : N :=
  let '(h, l) := widen_mul trials (den design_effect) in
  u256_div_u128_floor h l (as_u128 (num design_effect)) mod 2 ^ 64.

Definition design_trials (trials : N) (design_effect : option Rational) : result BoundsError N :=
  match design_effect with
  | None => Ok trials
  | Some d =>
      if (num d <=? 0)%Z || (as_u128 (num d) <? den d) then Err InvalidDesignEffect
      else Ok (effective_trials trials d)
  end.

Definition zero_failure_bound_certifies (input : ZeroFailureBoundInput) : result BoundsError ZeroFailureBoundCertification :=
  let? _ := validate_unit_open (zf_success_target input) "success_target" in
  let? _ := validate_unit_open (zf_alpha input) "alpha" in
  reject? zf_trials input =? 0 with ZeroTrials in
  reject? zf_trials input <? zf_failures input with FailuresExceedTrials in
  reject? negb (zf_failures input =? 0) with NonZeroFailures (zf_failures input) in
  reject? negb (zf_independent input) with DependentTrace in
  let? effective := design_trials (zf_trials input) (zf_design_effect input) in
  reject? effective =? 0 with InsufficientEffectiveSample effective in
  let? holds := power_le (zf_success_target input) effective (zf_alpha input) in
  reject? negb holds with InsufficientTrials effective in
  Ok (mkCertification effective (zf_success_target input) (zf_alpha input)).

(** The doubling loop: from 1 the 64th doubling leaves [u64]. *)
Fixpoint double_loop (fuel : nat) (q alpha : Rational) (hi : N) : result BoundsError N :=
  match fuel with
  | O => Err TrialsOverflow
  | S fuel' =>
      let doubled := hi * 2 in
      reject? U64_MAX <? doubled with TrialsOverflow in
      let? holds := power_le q doubled alpha in
      match holds with true => Ok doubled | false => double_loop fuel' q alpha doubled end
  end.

(** The binary search: 64 rounds close an interval below [2^64]. *)
Fixpoint search_loop (fuel : nat) (q alpha : Rational) (lo hi : N) : result BoundsError N :=
  match fuel with
  | O => Ok hi
  | S fuel' =>
      if lo + 1 <? hi then
        let mid := lo + (hi - lo) / 2 in
        let? holds := power_le q mid alpha in
        match holds with true => search_loop fuel' q alpha lo mid | false => search_loop fuel' q alpha mid hi end
      else Ok hi
  end.

Definition min_zero_failure_trials (q alpha : Rational) : result BoundsError N :=
  let? _ := validate_unit_open q "success_target" in
  let? _ := validate_unit_open alpha "alpha" in
  let? first := power_le q 1 alpha in
  match first with
  | true => Ok 1
  | false =>
      let? hi := double_loop 64 q alpha 1 in
      search_loop 64 q alpha (hi / 2) hi
  end.

(** * Multipliers *)

Definition PPM : N := 1000000.
Definition HUNDREDFOLD : N := 100.

Inductive MultiplierError :=
| MultiplierInput | MultiplierOverflow | MultiplierWide
| CoverageInput | CoverageInfeasible | GateAbovePpm | WindowInput | BaselineWindow | OptimizedWindow
| InvalidRoot | MultiplierMismatch | WindowMissing.

Definition multiplier_ppm (baseline optimized : N) : result MultiplierError N :=
  reject? (baseline =? 0) || (optimized =? 0) with MultiplierInput in
  reject? U128_MAX <? baseline * PPM with MultiplierOverflow in
  let scaled := baseline * PPM / optimized in
  if scaled <=? U64_MAX then Ok scaled else Err MultiplierWide.

Definition required_prepared_coverage_ppm (baseline preparation hit fallback target_multiplier : N) : result MultiplierError N :=
  reject? (baseline =? 0) || (target_multiplier =? 0) || (fallback <=? hit) with CoverageInput in
  let target := baseline * PPM / target_multiplier in
  let numerator := N.min ((preparation + fallback) * PPM) U128_MAX - target in
  let denominator := fallback - hit in
  let coverage := (numerator + denominator - 1) / denominator in
  reject? PPM <? coverage with CoverageInfeasible in
  Ok coverage.

Fixpoint coverage_chain_loop (gates : list N) (product : N) : result MultiplierError N :=
  match gates with
  | [] => Ok product
  | gate :: rest =>
      reject? PPM <? gate with GateAbovePpm in
      reject? U128_MAX <? product * gate with MultiplierOverflow in
      coverage_chain_loop rest ((product * gate + PPM - 1) / PPM)
  end.
Definition coverage_chain_ppm (gates : list N) : result MultiplierError N := coverage_chain_loop gates PPM.

Fixpoint sum_window (values : list N) (sum : N) : option N :=
  match values with
  | [] => Some sum
  | v :: rest => match checked_add_u64 sum v with Some s => sum_window rest s | None => None end
  end.

Fixpoint window_loop (starts : list nat) (baseline optimized : list N) (window : nat) (minimum : N) : result MultiplierError N :=
  match starts with
  | [] => Ok minimum
  | start :: rest =>
      let? base := ok_or (sum_window (take window (drop start baseline)) 0) BaselineWindow in
      let? zero := ok_or (sum_window (take window (drop start optimized)) 0) OptimizedWindow in
      let? m := multiplier_ppm base zero in
      window_loop rest baseline optimized window (N.min minimum m)
  end.

Definition minimum_window_multiplier_ppm (baseline optimized : list N) (window : nat) : result MultiplierError N :=
  reject? negb (length baseline =? length optimized)%nat || (length baseline =? 0)%nat || (window =? 0)%nat
          || (length baseline <? window)%nat with WindowInput in
  window_loop (seq 0 (length baseline - window + 1)) baseline optimized window U64_MAX.

Inductive MultiplierCoordinate := Visible | Billed | PlanCapacity | CompleteWork | SlidingWindow.
#[global] Instance MultiplierCoordinate_eq_dec : EqDecision MultiplierCoordinate.
Proof. solve_decision. Defined.
Inductive ReportStatus := Verified | Observed | Estimated | Rejected.
#[global] Instance ReportStatus_eq_dec : EqDecision ReportStatus.
Proof. solve_decision. Defined.

Record MultiplierReport := mkMultiplierReport {
  mr_coordinate : MultiplierCoordinate; mr_baseline_usage : N; mr_optimized_usage : N; mr_multiplier_ppm : N;
  mr_task_scope_root : string; mr_quality_ok : bool; mr_protected_regressions : N; mr_ledger_root : string;
  mr_status : ReportStatus; mr_window_minimum_ppm : option N }.

Definition lower_hex_byte (b : byte) : bool :=
  ((48 <=? N_of_ascii b) && (N_of_ascii b <=? 57)) || ((97 <=? N_of_ascii b) && (N_of_ascii b <=? 102)).
Definition valid_root (root : string) : bool :=
  (String.length root =? 64)%nat && forallb lower_hex_byte (string_bytes root).

Definition MultiplierReport_validate (r : MultiplierReport) : result MultiplierError () :=
  reject? negb (valid_root (mr_task_scope_root r)) || negb (valid_root (mr_ledger_root r)) with InvalidRoot in
  let? m := multiplier_ppm (mr_baseline_usage r) (mr_optimized_usage r) in
  reject? negb (mr_multiplier_ppm r =? m) with MultiplierMismatch in
  reject? bool_decide (mr_coordinate r = SlidingWindow) && bool_decide (mr_window_minimum_ppm r = None) with WindowMissing in
  Ok ().

Definition verified_hundredfold (r : MultiplierReport) : bool :=
  is_ok (MultiplierReport_validate r) && bool_decide (mr_status r = Verified) && mr_quality_ok r &&
  (mr_protected_regressions r =? 0) && (HUNDREDFOLD * PPM <=? mr_multiplier_ppm r) &&
  match mr_window_minimum_ppm r with None => true | Some m => HUNDREDFOLD * PPM <=? m end.

(** * Theorems

    What zero-gauge guarantees: products and comparisons are exact, the solver
    decides feasibility, fixed-point powers enclose the exact ones, and a
    certified trial count is one that suffices. *)

#[local] Notation B := (2 ^ 64) (only parsing).
#[local] Notation W := (2 ^ 128) (only parsing).

(** * Words *)

Lemma land_low_word x : N.land x MASK = x mod B.
Proof. change MASK with (N.ones 64). apply N.land_ones. Qed.

Lemma lor_shifted x y k : y < 2 ^ k -> N.lor (N.shiftl x k) y = x * 2 ^ k + y.
Proof.
  intros Hy. assert (Hl : N.land (N.shiftl x k) y = 0).
  { apply N.bits_inj. intros i. rewrite N.land_spec, N.bits_0. destruct (N.ltb_spec i k) as [Hi|Hi].
    - by rewrite N.shiftl_spec_low.
    - rewrite <- (N.mod_small y (2 ^ k)) by done. rewrite N.mod_pow2_bits_high by done. apply andb_false_r. }
  rewrite <- N.lxor_lor, <- N.add_nocarry_lxor by done. by rewrite N.shiftl_mul_pow2.
Qed.

Lemma shiftr_div x k : N.shiftr x k = x / 2 ^ k.
Proof. apply N.shiftr_div_pow2. Qed.

Lemma divmod x k : x = (x / 2 ^ k) * 2 ^ k + x mod 2 ^ k /\ x mod 2 ^ k < 2 ^ k.
Proof. split; [rewrite N.mul_comm; apply N.div_mod|apply N.mod_lt]; lia. Qed.

Lemma div_below x a b : x < 2 ^ (a + b) -> x / 2 ^ a < 2 ^ b.
Proof. intros Hx. apply N.Div0.div_lt_upper_bound. by rewrite <- N.pow_add_r. Qed.

(** The carry of the middle sum of [widen_mul] enters the high word twice: once
    in [m_hi] and once through [mid], so the result is the product plus that
    carry, and exact when there is none. *)
Definition cross_carry (a b : N) : N := (a / B * (b mod B) mod B + a mod B * (b / B) mod B) / B.

Lemma widen_mul_value a b : a < W -> b < W ->
  exists h l, widen_mul a b = (h, l) /\ l < W /\ h * W + l = a * b + cross_carry a b * W.
Proof.
  intros Ha Hb. unfold widen_mul, cross_carry. rewrite !land_low_word, !shiftr_div.
  destruct (divmod a 64) as [Ea Ra], (divmod b 64) as [Eb Rb].
  set (al := a mod B) in *. set (ah := a / B) in *. set (bl := b mod B) in *. set (bh := b / B) in *.
  clearbody al ah bl bh. subst a b.
  destruct (divmod (al * bl) 64) as [Ell Rll], (divmod (ah * bl) 64) as [Elh Rlh], (divmod (al * bh) 64) as [Ehl Rhl].
  set (m_lo := ah * bl mod B + al * bh mod B). destruct (divmod m_lo 64) as [Em Rm].
  set (mid := m_lo + al * bl / B). destruct (divmod mid 64) as [Ed Rd].
  unfold wrap128. rewrite (N.mod_small _ W) by (rewrite N.shiftl_mul_pow2; lia).
  rewrite lor_shifted by done. eexists _, _. split; [done|].
  replace ((ah * B + al) * (bh * B + bl)) with (ah * bh * W + (ah * bl) * B + (al * bh) * B + al * bl) by lia.
  split; [lia|]. subst mid m_lo. lia.
Qed.

Lemma cross_carry_narrow a b : a <= B \/ b <= B -> cross_carry a b = 0.
Proof.
  intros [H|H]; unfold cross_carry; apply N.div_small.
  - destruct (decide (a = B)) as [->|].
    + rewrite N.Div0.mod_same, N.mul_0_l, N.Div0.mod_0_l, N.add_0_r. apply N.mod_lt. lia.
    + rewrite (N.div_small a) by lia. rewrite N.mul_0_l, N.Div0.mod_0_l, N.add_0_l. apply N.mod_lt. lia.
  - destruct (decide (b = B)) as [->|].
    + rewrite N.Div0.mod_same, N.mul_0_r, N.Div0.mod_0_l, N.add_0_l. apply N.mod_lt. lia.
    + rewrite (N.div_small b) by lia. rewrite N.mul_0_r, N.Div0.mod_0_l, N.add_0_r. apply N.mod_lt. lia.
Qed.

Lemma widen_mul_exact a b : a < W -> b < W -> a <= B \/ b <= B ->
  exists h l, widen_mul a b = (h, l) /\ l < W /\ h * W + l = a * b.
Proof.
  intros Ha Hb Hn. destruct (widen_mul_value a b Ha Hb) as (h & l & ? & ? & Hv).
  rewrite cross_carry_narrow in Hv by done. eexists _, _. split_and!; [done..|lia].
Qed.

(** * Signed 256-bit values *)

Definition value256 (x : U256) : Z := (hi x * 2 ^ 128 + Z.of_N (lo x))%Z.
Definition low_ok (x : U256) : Prop := lo x < W.

Lemma cmp_word (h h' : Z) (l l' : N) : l < W -> l' < W ->
  match (h ?= h')%Z with Eq => l ?= l' | c => c end = (h * 2 ^ 128 + Z.of_N l ?= h' * 2 ^ 128 + Z.of_N l')%Z.
Proof.
  intros Hl Hl'. destruct (Z.compare_spec h h') as [->|H|H].
  - destruct (N.compare_spec l l'); symmetry; [apply Z.compare_eq_iff|apply Z.compare_lt_iff|apply Z.compare_gt_iff]; lia.
  - symmetry. apply Z.compare_lt_iff. lia.
  - symmetry. apply Z.compare_gt_iff. lia.
Qed.

Lemma u256_cmp_exact x y : low_ok x -> low_ok y -> u256_cmp x y = (value256 x ?= value256 y)%Z.
Proof. apply cmp_word. Qed.

Lemma u256_unsigned_mul_exact a b : a < W -> b < W -> a <= B \/ b <= B -> a * b < 2 ^ 255 ->
  exists x, u256_unsigned_mul a b = Ok x /\ low_ok x /\ value256 x = (Z.of_N a * Z.of_N b)%Z.
Proof.
  intros Ha Hb Hn Hp. destruct (widen_mul_exact a b Ha Hb Hn) as (h & l & Hw & Hl & Hv).
  unfold u256_unsigned_mul. rewrite Hw. unfold i128_of_u128. rewrite (proj2 (N.ltb_lt _ _)) by lia.
  eexists. split; [done|]. split; [done|]. unfold value256. cbn. lia.
Qed.

Lemma u256_neg_exact x : low_ok x -> low_ok (u256_neg x) /\ value256 (u256_neg x) = (- value256 x)%Z.
Proof.
  unfold low_ok, value256, u256_neg, overflowing_add128, wrap128, U128_MAX. intros Hl. cbn [hi lo].
  destruct (N.ltb_spec (W - 1) (W - 1 - lo x + 1)) as [H|H]; cbn [Z.b2z];
    unfold Z.lnot, Z.pred; (split; [apply N.mod_lt; lia|]).
  - assert (lo x = 0) as -> by lia. change ((W - 1 - 0 + 1) mod W) with 0. lia.
  - rewrite N.mod_small by lia. lia.
Qed.

Lemma u256_add_exact x y : low_ok x -> low_ok y ->
  low_ok (u256_add x y) /\ value256 (u256_add x y) = (value256 x + value256 y)%Z.
Proof.
  unfold low_ok, value256, u256_add, overflowing_add128, wrap128, U128_MAX. intros Hx Hy. cbn [hi lo].
  destruct (N.ltb_spec (W - 1) (lo x + lo y)) as [H|H]; cbn [Z.b2z]; (split; [apply N.mod_lt; lia|]).
  - rewrite (N.Div0.mod_eq _ W) by lia. assert ((lo x + lo y) / W = 1) as ->; [|lia].
    symmetry. apply (N.div_unique _ _ _ (lo x + lo y - W)); lia.
  - rewrite N.mod_small by lia. lia.
Qed.

Lemma u256_signed_mul_exact (a b : Z) : (Z.abs a < 2 ^ 128)%Z -> (Z.abs b < 2 ^ 128)%Z ->
  (Z.abs a <= 2 ^ 64 \/ Z.abs b <= 2 ^ 64)%Z -> (Z.abs a * Z.abs b < 2 ^ 255)%Z ->
  exists x, u256_signed_mul a b = Ok x /\ low_ok x /\ value256 x = (a * b)%Z.
Proof.
  intros Ha Hb Hn Hp. unfold u256_signed_mul, unsigned_abs.
  destruct (u256_unsigned_mul_exact (Z.abs_N a) (Z.abs_N b)) as (x & Hx & Hl & Hv); [lia|lia|destruct Hn; [left|right]; lia| |].
  { apply N2Z.inj_lt. rewrite N2Z.inj_mul, !N2Z.inj_abs_N. done. }
  rewrite Hx. cbn [mbind result_bind]. destruct (u256_neg_exact x Hl) as [Hl' Hv'].
  rewrite !N2Z.inj_abs_N in Hv. eexists. split; [done|].
  destruct (Z.ltb_spec a 0) as [Ha0|Ha0], (Z.ltb_spec b 0) as [Hb0|Hb0]; cbn [Bool.eqb negb]; (split; [done|]);
    rewrite ?Hv', Hv, ?(Z.abs_neq a), ?(Z.abs_neq b), ?(Z.abs_eq a), ?(Z.abs_eq b) by lia; ring.
Qed.

(** * Comparison *)

Definition in_width (r : Rational) : Prop := (- 2 ^ 127 < num r < 2 ^ 127)%Z /\ 0 < den r < W.
(** No cross product of the comparison has two wide factors. *)
Definition narrow (a b : Rational) : Prop :=
  ((Z.abs (num a) <= 2 ^ 64)%Z \/ den b <= B) /\ ((Z.abs (num b) <= 2 ^ 64)%Z \/ den a <= B).
Definition exact_cmp (a b : Rational) : comparison := (num a * Z.of_N (den b) ?= num b * Z.of_N (den a))%Z.

Lemma compare_exact a b : in_width a -> in_width b -> narrow a b -> compare a b = Ok (exact_cmp a b).
Proof.
  intros [Ha Hda] [Hb Hdb] [Hn1 Hn2]. unfold compare, exact_cmp, unsigned_abs.
  destruct (u256_unsigned_mul_exact (Z.abs_N (num a)) (den b)) as (x & -> & Hlx & Hvx); [lia..|nia|].
  destruct (u256_unsigned_mul_exact (Z.abs_N (num b)) (den a)) as (y & -> & Hly & Hvy); [lia..|nia|].
  cbn [mbind result_bind]. rewrite !u256_cmp_exact by done. rewrite Hvx, Hvy.
  destruct (Z.compare_spec (num a) 0) as [Ea|La|Ga], (Z.compare_spec (num b) 0) as [Eb|Lb|Gb]; f_equal;
    repeat match goal with |- context [Z.of_N (Z.abs_N ?z)] => rewrite (N2Z.inj_abs_N z) end;
    rewrite ?Ea, ?Eb, ?Z.mul_0_l; try done;
    try (symmetry; first [apply Z.compare_lt_iff; nia | apply Z.compare_gt_iff; nia | apply Z.compare_eq_iff; nia]).
  - rewrite (proj2 (Z.compare_gt_iff 0 (num b))) by lia. symmetry. apply Z.compare_gt_iff. nia.
  - rewrite (proj2 (Z.compare_lt_iff 0 (num b))) by lia. symmetry. apply Z.compare_lt_iff. nia.
  - rewrite (Z.abs_neq (num a)), (Z.abs_neq (num b)) by lia.
    rewrite !Z.mul_opp_l. by rewrite Z.compare_opp.
  - by rewrite (Z.abs_eq (num a)), (Z.abs_eq (num b)) by lia.
Qed.

(** * The solver *)

(** A rate in [0, 1] with a denominator of at most 64 bits. *)
Definition unit_rate (r : Rational) : Prop := (0 <= num r <= Z.of_N (den r))%Z /\ 0 < den r <= B.
Definition le_rate (a b : Rational) : Prop := (num a * Z.of_N (den b) <= num b * Z.of_N (den a))%Z.
#[global] Instance le_rate_dec a b : Decision (le_rate a b).
Proof. unfold le_rate. apply _. Defined.

Lemma unit_rate_compare a b : unit_rate a -> unit_rate b -> compare a b = Ok (exact_cmp a b).
Proof. intros [Ha Hda] [Hb Hdb]. apply compare_exact; unfold in_width, narrow; lia. Qed.

Lemma rat_le_exact a b : in_width a -> in_width b -> narrow a b -> rat_le a b = Ok (bool_decide (le_rate a b)).
Proof.
  intros Ha Hb Hn. unfold rat_le. rewrite compare_exact by done. cbn. unfold exact_cmp, le_rate. f_equal.
  destruct (Z.compare_spec (num a * Z.of_N (den b)) (num b * Z.of_N (den a))); symmetry;
    (apply bool_decide_eq_true_2 || apply bool_decide_eq_false_2); lia.
Qed.

Lemma unit_rate_le a b : unit_rate a -> unit_rate b -> rat_le a b = Ok (bool_decide (le_rate a b)).
Proof. intros [Ha Hda] [Hb Hdb]. apply rat_le_exact; unfold in_width, narrow; lia. Qed.

Lemma le_rate_trans a b c : 0 < den b -> le_rate a b -> le_rate b c -> le_rate a c.
Proof. unfold le_rate. intros Hb H1 H2. nia. Qed.
Lemma le_rate_total a b : le_rate a b \/ le_rate b a.
Proof. unfold le_rate. lia. Qed.

Lemma Rational_new_exact (n : Z) (d : N) : (0 <= n < 2 ^ 127)%Z -> 0 < d < 2 ^ 127 ->
  exists r, Rational_new n d = Ok (Ok r) /\ (num r * Z.of_N d = n * Z.of_N (den r))%Z /\
    (0 <= num r <= n)%Z /\ 0 < den r <= d.
Proof.
  intros Hn Hd. unfold Rational_new, gcd, unsigned_abs. rewrite (proj2 (N.eqb_neq d 0)) by lia.
  rewrite (euclid_gcd 128) by (change (2 ^ N.of_nat 128) with W; lia).
  set (g := N.gcd (Z.abs_N n) d).
  destruct (N.gcd_divide_l (Z.abs_N n) d) as [a Ha], (N.gcd_divide_r (Z.abs_N n) d) as [b Hb]. fold g in Ha, Hb.
  clearbody g. assert (0 < g) by (destruct (decide (g = 0)); [subst; lia|lia]).
  assert (0 < b) by (destruct (decide (b = 0)); [subst; lia|lia]). assert (g <= d) by (rewrite Hb; nia). unfold i128_of_u128. rewrite (proj2 (N.ltb_lt g (2 ^ 127))) by lia.
  cbn [mbind result_bind]. eexists. split; [done|]. cbn [num den].
  assert (n = Z.of_N a * Z.of_N g)%Z as -> by lia. rewrite Z.quot_mul by lia.
  rewrite Hb, N.div_mul by lia. split_and!; nia.
Qed.

(** The blended cost [p + h hit + (1 - h) fallback] at [h = n / d] is within
    the target. *)
Definition meets (p hit fallback target : N) (n d : Z) : Prop :=
  ((Z.of_N p + Z.of_N fallback) * d + n * (Z.of_N hit - Z.of_N fallback) <= Z.of_N target * d)%Z.
Definition within (i : FeasibleInterval) (n d : Z) : Prop :=
  (num (fi_min i) * d <= n * Z.of_N (den (fi_min i)))%Z /\ (n * Z.of_N (den (fi_max i)) <= num (fi_max i) * d)%Z.
Definition unit_interval (i : FeasibleInterval) : Prop := unit_rate (fi_min i) /\ unit_rate (fi_max i).

Lemma unit_ZERO : unit_rate ZERO. Proof. by split; cbn. Qed.
Lemma unit_ONE : unit_rate ONE. Proof. by split; cbn. Qed.

Lemma corner_exact (p hit fallback target : N) :
  p <= U64_MAX -> hit <= U64_MAX -> fallback <= U64_MAX -> target <= U64_MAX ->
  exists r, corner_interval p hit fallback target = Ok r /\ (forall i, r = Some i -> unit_interval i) /\
    forall n d, (0 < d)%Z -> (0 <= n <= d)%Z ->
      meets p hit fallback target n d <-> exists i, r = Some i /\ within i n d.
Proof.
  unfold U64_MAX. intros Hp Hh Hf Ht. unfold corner_interval, meets.
  set (k := (Z.of_N target - Z.of_N p - Z.of_N fallback)%Z). set (slope := (Z.of_N hit - Z.of_N fallback)%Z).
  assert (Hcost : forall n d, ((Z.of_N p + Z.of_N fallback) * d + n * slope <= Z.of_N target * d <-> n * slope <= k * d)%Z)
    by (intros; subst k; lia).
  destruct (Z.compare_spec slope 0) as [Hs|Hs|Hs].
  - eexists. split; [done|]. split.
    { intros i. destruct (0 <=? k)%Z; [|done]. intros [= <-]. split; [apply unit_ZERO|apply unit_ONE]. }
    intros n d Hd Hn. rewrite Hcost, Hs. destruct (Z.leb_spec 0 k).
    + split; [|nia]. intros _. eexists. split; [done|]. unfold within; cbn. lia.
    + split; [nia|]. by intros (i & ? & _).
  - destruct (Z.leb_spec 0 k) as [Hk|Hk].
    { eexists. split; [done|]. split; [by intros i [= <-]; split; [apply unit_ZERO|apply unit_ONE]|].
      intros n d Hd Hn. rewrite Hcost. split; [|nia]. intros _. eexists. split; [done|]. unfold within; cbn. lia. }
    destruct (Rational_new_exact (- k) (Z.to_N (- slope))) as (r & Hr & Hv & Hnr & Hdr); [lia..|].
    unfold new_expected. rewrite Hr. cbn [mbind result_bind]. unfold rat_gt.
    rewrite rat_le_exact; [| |unfold in_width, narrow; cbn; lia..]; [|unfold in_width; lia]. cbn [mbind result_bind].
    unfold le_rate, ONE. cbn [num den]. eexists. split; [done|]. case_bool_decide as Hle; cbn [negb].
    + split; [intros i [= <-]; split; [|apply unit_ONE]; split; cbn; lia|].
      intros n d Hd Hn. rewrite Hcost. unfold within. split.
      * intros Hc. eexists. split; [done|]. cbn. split; [|lia]. nia.
      * intros (i & [= <-] & Hm & _). cbn in Hm. nia.
    + split; [done|]. intros n d Hd Hn. rewrite Hcost. split; [nia|]. by intros (i & ? & _).
  - destruct (Z.ltb_spec k 0) as [Hk|Hk].
    { eexists. split; [done|]. split; [done|]. intros n d Hd Hn. rewrite Hcost. split; [nia|]. by intros (i & ? & _). }
    destruct (Rational_new_exact k (Z.to_N slope)) as (r & Hr & Hv & Hnr & Hdr); [lia..|].
    unfold new_expected. rewrite Hr. cbn [mbind result_bind]. unfold rat_min.
    rewrite rat_le_exact; [| |unfold in_width, narrow; cbn; lia..]; [|unfold in_width; lia]. cbn [mbind result_bind].
    unfold le_rate, ONE. cbn [num den]. eexists. split; [done|]. case_bool_decide as Hle.
    + split; [intros i [= <-]; split; [apply unit_ZERO|]; split; cbn; lia|].
      intros n d Hd Hn. rewrite Hcost. unfold within. split.
      * intros Hc. eexists. split; [done|]. cbn. split; [lia|]. nia.
      * intros (i & [= <-] & _ & Hm). cbn in Hm. nia.
    + split; [by intros i [= <-]; split; [apply unit_ZERO|apply unit_ONE]|].
      intros n d Hd Hn. rewrite Hcost. split; [|nia]. intros _. eexists. split; [done|]. unfold within; cbn. lia.
Qed.

Lemma lower_trans a c n d : 0 < den c -> (0 <= d)%Z -> le_rate a c ->
  (num c * d <= n * Z.of_N (den c))%Z -> (num a * d <= n * Z.of_N (den a))%Z.
Proof.
  unfold le_rate. intros Hc Hd Hac Hcn. apply (Z.mul_le_mono_pos_r _ _ (Z.of_N (den c))); [lia|].
  transitivity (num c * Z.of_N (den a) * d)%Z; [|transitivity (n * Z.of_N (den c) * Z.of_N (den a))%Z; [nia|lia]]. nia.
Qed.
Lemma upper_trans a c n d : 0 < den c -> (0 <= d)%Z -> le_rate c a ->
  (n * Z.of_N (den c) <= num c * d)%Z -> (n * Z.of_N (den a) <= num a * d)%Z.
Proof.
  unfold le_rate. intros Hc Hd Hac Hcn. apply (Z.mul_le_mono_pos_r _ _ (Z.of_N (den c))); [lia|].
  transitivity (num c * d * Z.of_N (den a))%Z; [nia|]. nia.
Qed.

Lemma rat_max_unit a b : unit_rate a -> unit_rate b ->
  exists m, rat_max a b = Ok m /\ unit_rate m /\ forall n d, (0 < d)%Z ->
    (num m * d <= n * Z.of_N (den m) <-> num a * d <= n * Z.of_N (den a) /\ num b * d <= n * Z.of_N (den b))%Z.
Proof.
  intros Ha Hb. unfold rat_max. rewrite unit_rate_le by done. cbn. eexists. split; [done|].
  pose proof (le_rate_total a b) as Ht. destruct Ha as [? Hda], Hb as [? Hdb].
  case_bool_decide as Hle; (split; [done|]); intros n d Hd; (split; [|tauto]); intros Hn; (split; try done).
  - apply (lower_trans b a); [lia|lia|done|done].
  - apply (lower_trans a b); [lia|lia|tauto|done].
Qed.
Lemma rat_min_unit a b : unit_rate a -> unit_rate b ->
  exists m, rat_min a b = Ok m /\ unit_rate m /\ forall n d, (0 < d)%Z ->
    (n * Z.of_N (den m) <= num m * d <-> n * Z.of_N (den a) <= num a * d /\ n * Z.of_N (den b) <= num b * d)%Z.
Proof.
  intros Ha Hb. unfold rat_min. rewrite unit_rate_le by done. cbn. eexists. split; [done|].
  pose proof (le_rate_total a b) as Ht. destruct Ha as [? Hda], Hb as [? Hdb].
  case_bool_decide as Hle; (split; [done|]); intros n d Hd; (split; [|tauto]); intros Hn; (split; try done).
  - apply (upper_trans b a); [lia|lia|done|done].
  - apply (upper_trans a b); [lia|lia|tauto|done].
Qed.

Definition coordinate_ok (c : ResourceCoordinate) : Prop :=
  iv_hi (rc_preparation c) <= U64_MAX /\ iv_hi (rc_hit c) <= U64_MAX /\ iv_hi (rc_fallback c) <= U64_MAX /\
  iv_lo (rc_target c) <= U64_MAX /\
  iv_lo (rc_preparation c) <= U64_MAX /\ iv_lo (rc_hit c) <= U64_MAX /\ iv_lo (rc_fallback c) <= U64_MAX /\
  iv_hi (rc_target c) <= U64_MAX.

(** The hit rate [n / d] keeps the worst cost of the coordinate within its
    smallest target. *)
Definition certified_at (n d : Z) (c : ResourceCoordinate) : Prop :=
  meets (iv_hi (rc_preparation c)) (iv_hi (rc_hit c)) (iv_hi (rc_fallback c)) (iv_lo (rc_target c)) n d.

Definition unit_point (n d : Z) : Prop := (0 < d /\ 0 <= n <= d)%Z.

Definition loop_result (cs : list ResourceCoordinate) (min max : Rational) (r : result SolverError FeasibleIntersection) : Prop :=
  match r with
  | Ok r => unit_rate (fx_min r) /\ unit_rate (fx_max r) /\ le_rate (fx_min r) (fx_max r) /\
      forall n d, unit_point n d ->
        within (mkFeasible (fx_min r) (fx_max r)) n d <-> within (mkFeasible min max) n d /\ Forall (certified_at n d) cs
  | Err (EmptyIntersection b) => exists pre c post, cs = pre ++ c :: post /\ bl_coordinate b = rc_name c /\
      (exists n d, unit_point n d /\ within (mkFeasible min max) n d /\ Forall (certified_at n d) pre) /\
      forall n d, unit_point n d -> within (mkFeasible min max) n d -> ~ Forall (certified_at n d) (pre ++ [c])
  | Err _ => False
  end.

Lemma min_within min max : unit_rate min -> le_rate min max ->
  unit_point (num min) (Z.of_N (den min)) /\ within (mkFeasible min max) (num min) (Z.of_N (den min)).
Proof. unfold unit_rate, unit_point, le_rate, within. cbn. intros [? ?] ?. lia. Qed.

Lemma empty_above min max n d : 0 < den min -> 0 < den max -> (0 < d)%Z ->
  ~ le_rate min max -> ~ within (mkFeasible min max) n d.
Proof.
  unfold le_rate, within. cbn. intros Hm HM Hd Hlt [H1 H2]. apply Hlt.
  apply (Z.mul_le_mono_pos_r _ _ d); [lia|]. transitivity (n * Z.of_N (den min) * Z.of_N (den max))%Z; nia.
Qed.

Lemma intersect_loop_exact cs : Forall coordinate_ok cs -> forall min max reports,
  unit_rate min -> unit_rate max -> le_rate min max ->
  exists r, intersect_loop cs min max reports = Ok r /\ loop_result cs min max r.
Proof.
  induction 1 as [|c cs Hc Hcs IH]; intros min max reports Hmin Hmax Hle.
  { eexists. split; [done|]. cbn. split_and!; try done. intros n d _. split; [|tauto]. by split. }
  cbn [intersect_loop]. unfold certified_feasible_interval, exists_feasible_interval.
  destruct Hc as (H1 & H2 & H3 & H4 & H5 & H6 & H7 & H8).
  destruct (corner_exact _ _ _ _ H1 H2 H3 H4) as (ri & -> & Hu & Hx).
  destruct (corner_exact _ _ _ _ H5 H6 H7 H8) as (re & -> & _ & _). cbn [mbind result_bind].
  destruct ri as [i|].
  2:{ eexists. split; [done|]. exists [], c, cs. split_and!; [done..| |].
      - eexists _, _. destruct (min_within min max Hmin Hle). split_and!; [done..|constructor].
      - intros n d [Hd Hn] _ Hf. cbn in Hf. apply Forall_cons_1 in Hf as [Hf _]. apply Hx in Hf as (i & ? & _); done. }
  destruct (Hu i eq_refl) as [Hui1 Hui2].
  destruct (rat_max_unit min (fi_min i) Hmin Hui1) as (m & -> & Hm & Hmx). cbn [mbind result_bind].
  destruct (rat_min_unit max (fi_max i) Hmax Hui2) as (M & -> & HM & HMx). cbn [mbind result_bind].
  unfold rat_gt. rewrite unit_rate_le by done. cbn [mbind result_bind].
  assert (Hboth : forall n d, unit_point n d -> within (mkFeasible m M) n d <-> within (mkFeasible min max) n d /\ certified_at n d c).
  { intros n d [Hd Hn]. unfold certified_at. rewrite (Hx n d Hd Hn). unfold within at 1. cbn. rewrite (Hmx n d Hd), (HMx n d Hd).
    unfold within. cbn. split; [intros [[? ?] [? ?]]|intros [[? ?] (i' & [= <-] & ? & ?)]; done]. split; [done|]. by exists i. }
  case_bool_decide as Hlt; cbn [negb].
  - destruct (IH m M (reports ++ [mkCoordinateReport (rc_name c) (Some i) re])) as (r & -> & Hr); [done..|].
    eexists. split; [done|]. destruct r as [r|[]]; try done; cbn [loop_result] in Hr |- *.
    + destruct Hr as (? & ? & ? & Hr). split_and!; [done..|]. intros n d Hp. rewrite (Hr n d Hp), (Hboth n d Hp), list.Forall_cons. tauto.
    + destruct Hr as (pre & c' & post & -> & ? & (n & d & Hp & Hw & Hf) & Hno).
      exists (c :: pre), c', post. split_and!; [done..| |].
      * exists n, d. apply Hboth in Hw as [? ?]; [|done]. split_and!; [done..|]. by constructor.
      * intros n' d' Hp' Hw' Hf'. cbn in Hf'. apply Forall_cons_1 in Hf' as [? Hf']. eapply Hno; [done| |done]. by apply Hboth.
  - eexists. split; [done|]. exists [], c, cs. split_and!; [done..| |].
    + eexists _, _. destruct (min_within min max Hmin Hle). split_and!; [done..|constructor].
    + intros n d Hp Hw Hf. cbn in Hf. apply Forall_cons_1 in Hf as [Hf _]. destruct Hm, HM, Hp.
      eapply (empty_above m M n d); [lia..|done|]. by apply Hboth.
Qed.

Lemma certified_holds_exact c h : coordinate_ok c -> unit_rate h ->
  exists b, certified_holds c h = Ok b /\ (b = true <-> certified_at (num h) (Z.of_N (den h)) c).
Proof.
  intros (H1 & H2 & H3 & H4 & _) [Hn Hd]. unfold certified_holds, corner_holds, certified_at, meets, U64_MAX in *.
  unfold i128_of_u128. rewrite (proj2 (N.ltb_lt _ _)) by lia. cbn [mbind result_bind].
  edestruct (u256_signed_mul_exact (Z.of_N (iv_hi (rc_preparation c)) + Z.of_N (iv_hi (rc_fallback c))) (Z.of_N (den h)))
    as (x & -> & Hlx & Hvx); [lia..|nia|]. cbn [mbind result_bind].
  edestruct (u256_signed_mul_exact (num h) (Z.of_N (iv_hi (rc_hit c)) - Z.of_N (iv_hi (rc_fallback c))))
    as (y & -> & Hly & Hvy); [lia..|nia|]. cbn [mbind result_bind].
  edestruct (u256_signed_mul_exact (Z.of_N (iv_lo (rc_target c))) (Z.of_N (den h))) as (z & -> & Hlz & Hvz); [lia..|nia|].
  cbn [mbind result_bind]. destruct (u256_add_exact x y Hlx Hly) as [Hla Hva].
  rewrite u256_cmp_exact by done. rewrite Hva, Hvx, Hvy, Hvz. eexists. split; [done|].
  match goal with |- context [(?a ?= ?b)%Z] => destruct (Z.compare_spec a b) end; split; try done; lia.
Qed.

(** * Long division *)

Lemma lor_bit q b : q mod 2 ^ (b + 1) = 0 -> N.lor q (N.shiftl 1 b) = q + 2 ^ b.
Proof.
  intros Hq. destruct (divmod q (b + 1)) as [Eq _]. rewrite Hq, N.add_0_r in Eq. rewrite Eq.
  rewrite <- (N.shiftl_mul_pow2 (q / 2 ^ (b + 1))), lor_shifted.
  - by rewrite !N.shiftl_mul_pow2, N.mul_1_l.
  - rewrite N.shiftl_mul_pow2, N.mul_1_l. apply N.pow_lt_mono_r; lia.
Qed.

(** With the divisor at most [2^127] no remainder bit is lost, and a word of the
    division adds exactly the quotient of what it appends to the remainder. *)
Lemma div_word_exact divisor word : 0 < divisor <= 2 ^ 127 -> forall bits q r,
  r < divisor -> q mod 2 ^ N.of_nat bits = 0 ->
  exists Q R, div_word bits word divisor q r = (q + Q, R) /\ R < divisor /\
    r * 2 ^ N.of_nat bits + word mod 2 ^ N.of_nat bits = Q * divisor + R.
Proof.
  intros Hd. induction bits as [|b IH]; intros q r Hr Hq.
  { exists 0, r. cbn [div_word]. rewrite N.add_0_r. split_and!; [done..|]. cbn. rewrite N.mod_1_r. lia. }
  rewrite Nat2N.inj_succ, <- N.add_1_r in Hq |- *. cbn [div_word]. set (bit := N.of_nat b) in *.
  unfold overflowing_shl128. change (1 mod 128) with 1. change (128 <=? 1) with false. cbn [orb].
  unfold wrap128. rewrite (N.mod_small _ W) by (rewrite N.shiftl_mul_pow2; lia).
  assert (Hbit : N.land (N.shiftr word bit) 1 = word / 2 ^ bit mod 2).
  { rewrite shiftr_div. change 1 with (N.ones 1). rewrite N.land_ones. done. }
  rewrite Hbit, lor_shifted by (apply N.mod_lt; lia). set (w := word / 2 ^ bit mod 2).
  assert (Hw : w < 2) by (apply N.mod_lt; lia).
  assert (Hword : word mod 2 ^ (bit + 1) = w * 2 ^ bit + word mod 2 ^ bit).
  { rewrite N.add_1_r, N.pow_succ_r', (N.mul_comm 2), N.Div0.mod_mul_r. subst w. lia. }
  assert (Hq' : q mod 2 ^ bit = 0).
  { destruct (divmod q (bit + 1)) as [Eq _]. rewrite Hq, N.add_0_r, N.add_1_r, N.pow_succ_r' in Eq. rewrite Eq.
    rewrite N.mul_assoc. apply N.Div0.mod_mul. }
  rewrite Hword, N.pow_add_r. change (2 ^ 1) with 2.
  destruct (N.leb_spec divisor (r * 2 + w)) as [Hge|Hlt].
  - unfold wrapping_sub128, wrap128. replace (r * 2 + w + W - divisor) with (r * 2 + w - divisor + 1 * W) by lia.
    rewrite N.Div0.mod_add, N.mod_small by lia. rewrite lor_bit by done.
    destruct (IH (q + 2 ^ bit) (r * 2 + w - divisor)) as (Q & R & -> & HR & Hv); [lia| |].
    { rewrite <- (N.mul_1_l (2 ^ bit)) at 1. by rewrite N.Div0.mod_add. }
    exists (2 ^ bit + Q), R. split; [f_equal; lia|]. split; [done|]. nia.
  - destruct (IH q (r * 2 + w)) as (Q & R & -> & HR & Hv); [lia|done|].
    exists Q, R. split_and!; [done..|]. nia.
Qed.

Lemma u256_div_exact h l divisor : 0 < divisor <= 2 ^ 127 -> h < divisor -> l < W ->
  u256_div_u128_floor h l divisor = (h * W + l) / divisor.
Proof.
  intros Hd Hh Hl. unfold u256_div_u128_floor.
  destruct (div_word_exact divisor h Hd 128 0 0) as (Q & R & -> & HR & Hv); [lia|done|].
  change (2 ^ N.of_nat 128) with W in Hv. rewrite N.mod_small in Hv by lia.
  assert (Q = 0) as -> by nia. rewrite N.add_0_l.
  destruct (div_word_exact divisor l Hd 128 0 R) as (Q & R' & -> & HR' & Hv'); [done..|].
  change (2 ^ N.of_nat 128) with W in Hv'. rewrite (N.mod_small l) in Hv' by done. cbn [fst].
  rewrite N.add_0_l. apply (N.div_unique _ _ _ R'); lia.
Qed.

Lemma u256_div_ceil_exact h l divisor : 0 < divisor <= 2 ^ 127 -> h * W + l + divisor <= divisor * W -> l < W ->
  u256_div_u128_ceil h l divisor = (h * W + l + divisor - 1) / divisor.
Proof.
  intros Hd Hh Hl. unfold u256_div_u128_ceil, overflowing_add128, wrap128, U128_MAX.
  destruct (N.ltb_spec (W - 1) (l + (divisor - 1))) as [Hc|Hc]; cbn [N.b2n].
  - replace (l + (divisor - 1)) with (l + divisor - 1 - W + 1 * W) by lia. rewrite N.Div0.mod_add.
    rewrite (N.mod_small (l + divisor - 1 - W)), (N.mod_small (h + 1)) by lia.
    rewrite u256_div_exact by lia. f_equal. lia.
  - rewrite (N.mod_small (l + (divisor - 1))), (N.mod_small (h + 0)) by lia.
    rewrite u256_div_exact by lia. f_equal. lia.
Qed.

(** * Fixed-point intervals *)

Lemma high_low_64 h l : h < B -> l < W -> N.lor (wrap128 (N.shiftl h 64)) (N.shiftr l 64) = (h * W + l) / B.
Proof.
  intros Hh Hl. unfold wrap128. rewrite N.mod_small by (rewrite N.shiftl_mul_pow2; lia).
  rewrite shiftr_div. pose proof (div_below l 64 64 Hl). rewrite lor_shifted by done.
  replace (h * W + l) with (h * B * B + l) by lia. by rewrite N.div_add_l by lia.
Qed.

Lemma mul_floor_exact x y : x <= SCALE -> y <= SCALE -> mul_floor x y = x * y / SCALE.
Proof.
  unfold SCALE, mul_floor. intros Hx Hy. destruct (widen_mul_exact x y) as (h & l & -> & Hl & Hv); [lia|lia|lia|].
  rewrite high_low_64 by nia. by rewrite Hv.
Qed.

Lemma wrap128_small x : x < W -> wrap128 x = x.
Proof. apply N.mod_small. Qed.
Lemma wrap128_over x : W <= x < 2 * W -> wrap128 x = x - W.
Proof.
  intros Hx. unfold wrap128. replace x with (x - W + 1 * W) at 1 by lia. rewrite N.Div0.mod_add. apply N.mod_small. lia.
Qed.

Lemma mul_ceil_exact x y : x <= SCALE -> y <= SCALE -> mul_ceil x y = (x * y + SCALE - 1) / SCALE.
Proof.
  unfold mul_ceil, SCALE. intros Hx Hy. destruct (widen_mul_exact x y) as (h & l & -> & Hl & Hv); [lia|lia|lia|].
  assert (h <= 1) by nia. unfold overflowing_add128, U128_MAX.
  destruct (N.ltb_spec (W - 1) (l + (B - 1))) as [Hc|Hc]; cbn [N.b2n]; rewrite (wrap128_small (h + _)) by lia.
  - rewrite (wrap128_over (l + _)), high_low_64 by lia. f_equal. lia.
  - rewrite (wrap128_small (l + _)), high_low_64 by lia. f_equal. lia.
Qed.

(** The interval holds the rate [n / d] at the scale. *)
Definition encloses (i : FixedInterval) (n d : N) : Prop :=
  fx_lo i * d <= n * SCALE /\ n * SCALE <= fx_hi i * d /\ fx_lo i <= SCALE /\ fx_hi i <= SCALE.

Lemma interval_mul_encloses a b n1 d1 n2 d2 : 0 < d1 -> 0 < d2 ->
  encloses a n1 d1 -> encloses b n2 d2 -> encloses (interval_mul a b) (n1 * n2) (d1 * d2).
Proof.
  unfold encloses. intros H1 H2 (Hal & Hah & Hlo1 & Hhi1) (Hbl & Hbh & Hlo2 & Hhi2). cbn [interval_mul fx_lo fx_hi].
  rewrite mul_floor_exact, mul_ceil_exact by done. assert (HS : 0 < SCALE) by (unfold SCALE; lia). generalize dependent SCALE. intros S.
  intros. destruct a as [al ah], b as [bl bh]. cbn in *.
  pose proof (N.Div0.mul_div_le (al * bl) S) as Hf.
  pose proof (N.div_mod (ah * bh + S - 1) S ltac:(lia)) as Hc. pose proof (N.mod_lt (ah * bh + S - 1) S ltac:(lia)).
  set (m := (ah * bh + S - 1) mod S) in *. clearbody m. set (f := al * bl / S) in *. set (c := (ah * bh + S - 1) / S) in *. clearbody f c.
  assert (Hc' : ah * bh <= S * c) by lia.
  split_and!.
  - apply (N.mul_le_mono_pos_r _ _ S); [done|].
    transitivity (S * f * (d1 * d2)); [lia|].
    transitivity (al * bl * (d1 * d2)); [by apply N.mul_le_mono_r|]. transitivity ((al * d1) * (bl * d2)); [lia|].
    transitivity ((n1 * S) * (n2 * S)); [by apply N.mul_le_mono|lia].
  - apply (N.mul_le_mono_pos_r _ _ S); [done|].
    transitivity ((n1 * S) * (n2 * S)); [lia|]. transitivity ((ah * d1) * (bh * d2)); [by apply N.mul_le_mono|].
    transitivity (S * c * (d1 * d2)); [|lia]. transitivity (ah * bh * (d1 * d2)); [lia|]. by apply N.mul_le_mono_r.
  - assert (al * bl <= S * S) by (by apply N.mul_le_mono). apply (N.mul_le_mono_pos_l _ _ S); lia.
  - assert (ah * bh <= S * S) by (by apply N.mul_le_mono). apply N.lt_succ_r, (N.mul_lt_mono_pos_l S); [done|]. rewrite N.mul_succ_r. lia.
Qed.

Lemma power_loop_encloses fuel : forall power factor remaining n d a f, 0 < d ->
  remaining < 2 ^ N.of_nat fuel -> encloses power (n ^ a) (d ^ a) -> encloses factor (n ^ f) (d ^ f) ->
  encloses (power_loop fuel power factor remaining) (n ^ (a + f * remaining)) (d ^ (a + f * remaining)).
Proof.
  induction fuel as [|fuel IH]; intros power factor remaining n d a f Hd Hr Hp Hf.
  { cbn in Hr. assert (remaining = 0) as -> by lia. by rewrite N.mul_0_r, N.add_0_r. }
  cbn [power_loop]. destruct (N.eqb_spec remaining 0) as [->|Hr0]; [by rewrite N.mul_0_r, N.add_0_r|].
  change 1 with (N.ones 1) at 1. rewrite N.land_ones, shiftr_div. change (2 ^ 1) with 2.
  rewrite Nat2N.inj_succ, N.pow_succ_r' in Hr.
  pose proof (N.div_mod remaining 2 ltac:(lia)) as Hdm. pose proof (N.mod_lt remaining 2 ltac:(lia)) as Hm.
  set (half := remaining / 2) in *. set (odd := remaining mod 2) in *. clearbody half odd.
  assert (Hdp : forall e, 0 < d ^ e) by (intros e; assert (d ^ e <> 0) by (apply N.pow_nonzero; lia); lia).
  set (power' := if odd =? 1 then interval_mul power factor else power).
  assert (Hp' : encloses power' (n ^ (a + f * odd)) (d ^ (a + f * odd))).
  { subst power'. destruct (N.eqb_spec odd 1) as [->|]; [|assert (odd = 0) as -> by lia; by rewrite N.mul_0_r, N.add_0_r].
    rewrite N.mul_1_r, !N.pow_add_r. by apply interval_mul_encloses. }
  destruct (N.ltb_spec 0 half) as [Hh|Hh].
  - replace (a + f * remaining) with ((a + f * odd) + (f + f) * half) by nia.
    apply IH; [done|lia|done|]. rewrite !N.pow_add_r. by apply interval_mul_encloses.
  - assert (half = 0) as -> by lia. assert (remaining = odd) as -> by lia.
    replace (a + f * odd) with ((a + f * odd) + f * 0) by lia. by apply IH; [|lia|..].
Qed.

(** * Zero-failure bounds *)

Definition unit_open (r : Rational) : Prop := (0 < num r < Z.of_N (den r))%Z /\ (num r < 2 ^ 127)%Z /\ den r < W.
(** [q^n <= alpha], multiplied out. *)
Definition power_below (q : Rational) (n : N) (alpha : Rational) : Prop :=
  Z.to_N (num q) ^ n * den alpha <= Z.to_N (num alpha) * den q ^ n.

Lemma as_u128_pos z : (0 <= z < 2 ^ 127)%Z -> as_u128 z = Z.to_N z.
Proof. intros Hz. unfold as_u128. rewrite Z.mod_small by lia. done. Qed.

Lemma validate_unit_open_Ok r s : in_width r -> validate_unit_open r s = Ok () <-> unit_open r.
Proof.
  intros [Hn Hd]. unfold validate_unit_open, unit_open. destruct (Z.leb_spec (num r) 0) as [H|H]; cbn [orb]; [split; [done|lia]|].
  rewrite as_u128_pos by lia. destruct (N.leb_spec (den r) (Z.to_N (num r))); split; try done; lia.
Qed.

Lemma scale_interval_encloses q : unit_open q -> den q <= 2 ^ 127 ->
  encloses (scale_rational_interval q) (Z.to_N (num q)) (den q).
Proof.
  intros (Hq & Hq' & Hd) Hd'. unfold scale_rational_interval, encloses. rewrite as_u128_pos by lia.
  set (n := Z.to_N (num q)). assert (Hn : n < den q) by lia. set (d := den q) in *. clearbody n d.
  destruct (widen_mul_exact n SCALE) as (h & l & -> & Hl & Hv); [lia|unfold SCALE; lia|unfold SCALE; lia|]. cbn [fx_lo fx_hi].
  assert (Hp : h * W + l + d <= d * W) by (rewrite Hv; unfold SCALE; nia).
  rewrite u256_div_exact, u256_div_ceil_exact by (try done; nia). rewrite Hv.
  pose proof (N.Div0.mul_div_le (n * SCALE) d) as Hf.
  pose proof (N.div_mod (n * SCALE + d - 1) d ltac:(lia)) as Hc. pose proof (N.mod_lt (n * SCALE + d - 1) d ltac:(lia)) as Hm.
  set (m := (n * SCALE + d - 1) mod d) in *. set (f := n * SCALE / d) in *. set (c := (n * SCALE + d - 1) / d) in *.
  clearbody m f c. assert (HS : 0 < SCALE) by (unfold SCALE; lia). generalize dependent SCALE. intros S. intros.
  assert (n * S <= d * S) by (apply N.mul_le_mono_r; lia).
  split_and!; [lia|lia|apply (N.mul_le_mono_pos_l _ _ d); lia|].
  apply N.lt_succ_r, (N.mul_lt_mono_pos_l d); [lia|]. rewrite N.mul_succ_r. lia.
Qed.

Lemma cmp_u256_exact a b h l h' l' : widen_mul a b = (h, l) -> l < W -> l' < W ->
  cmp_u256 (widen_mul a b) (h', l') = (h * W + l ?= h' * W + l').
Proof.
  intros -> Hl Hl'. unfold cmp_u256. cbn [fst snd].
  destruct (N.compare_spec h h') as [->|H|H]; symmetry.
  - destruct (N.compare_spec l l'); [apply N.compare_eq_iff|apply N.compare_lt_iff|apply N.compare_gt_iff]; lia.
  - apply N.compare_lt_iff. nia.
  - apply N.compare_gt_iff. nia.
Qed.

Lemma compare_scaled x alpha : x <= SCALE -> unit_open alpha ->
  cmp_u256 (widen_mul x (snd (scale_rational alpha))) (widen_mul (fst (scale_rational alpha)) SCALE)
  = (x * den alpha ?= Z.to_N (num alpha) * SCALE).
Proof.
  intros Hx (Ha & Ha' & Hd). unfold scale_rational. cbn [fst snd]. rewrite as_u128_pos by lia.
  destruct (widen_mul_exact x (den alpha)) as (h & l & Hw & Hl & Hv); [unfold SCALE in *; lia..|].
  destruct (widen_mul_exact (Z.to_N (num alpha)) SCALE) as (h' & l' & Hw' & Hl' & Hv'); [unfold SCALE in *; lia..|].
  rewrite Hw'. rewrite (cmp_u256_exact _ _ _ _ _ _ Hw Hl Hl'). by rewrite Hv, Hv'.
Qed.

(** A decision of [power_le] is the truth about the exact power. *)
Lemma power_le_exact q n alpha b : unit_open q -> den q <= 2 ^ 127 -> unit_open alpha -> n <= U64_MAX ->
  power_le q n alpha = Ok b -> (b = true <-> power_below q n alpha).
Proof.
  intros Hq Hdq Ha Hn Hb. unfold power_le in Hb. destruct (N.eqb_spec n 0) as [->|Hn0].
  { injection Hb as <-. unfold power_below. cbn. destruct Ha as (? & ? & ?). split; [done|lia]. }
  assert (He : encloses (power_loop 64 (mkFixed SCALE SCALE) (scale_rational_interval q) n) (Z.to_N (num q) ^ n) (den q ^ n)).
  { rewrite <- (N.mul_1_l n) at 2 3. rewrite <- (N.add_0_l (1 * n)). apply power_loop_encloses.
    - destruct Hq; lia.
    - unfold U64_MAX in Hn. change (2 ^ N.of_nat 64) with B. lia.
    - unfold encloses. cbn. lia.
    - rewrite !N.pow_1_r. by apply scale_interval_encloses. }
  set (p := power_loop 64 (mkFixed SCALE SCALE) (scale_rational_interval q) n) in *. clearbody p.
  destruct He as (Hlo & Hhi & Hlo1 & Hhi1). rewrite !compare_scaled in Hb by done. unfold power_below.
  assert (Hdp : 0 < den q ^ n) by (destruct Hq; assert (den q ^ n <> 0) by (apply N.pow_nonzero; lia); lia).
  set (N_ := Z.to_N (num q) ^ n) in *. set (D := den q ^ n) in *. set (a := Z.to_N (num alpha)) in *. set (d := den alpha) in *.
  clearbody N_ D a d. assert (HS : 0 < SCALE) by (unfold SCALE; lia). generalize dependent SCALE. intros S. intros.
  assert (Htrue : fx_hi p * d <= a * S -> N_ * d <= a * D).
  { intros Hle. apply (N.mul_le_mono_pos_r _ _ S); [done|]. transitivity (N_ * S * d); [lia|].
    transitivity (fx_hi p * D * d); [by apply N.mul_le_mono_r|]. transitivity (fx_hi p * d * D); [lia|].
    transitivity (a * S * D); [by apply N.mul_le_mono_r|lia]. }
  assert (Hfalse : a * S < fx_lo p * d -> a * D < N_ * d).
  { intros Hlt. apply (N.mul_lt_mono_pos_r S); [done|]. apply (N.lt_le_trans _ (fx_lo p * d * D)).
    - replace (a * D * S) with (a * S * D) by lia. by apply N.mul_lt_mono_pos_r.
    - transitivity (fx_lo p * D * d); [lia|]. transitivity (N_ * S * d); [by apply N.mul_le_mono_r|lia]. }
  destruct (N.compare_spec (fx_hi p * d) (a * S)); [| |destruct (N.compare_spec (fx_lo p * d) (a * S))]; injection Hb as <- || done;
    split; try done; intros; try (apply Htrue; lia). specialize (Hfalse ltac:(lia)). lia.
Qed.

Lemma power_below_succ q n alpha : unit_open q -> power_below q n alpha -> power_below q (n + 1) alpha.
Proof.
  unfold power_below. intros (Hq & _ & _) H. rewrite !N.pow_add_r, !N.pow_1_r.
  transitivity (Z.to_N (num q) ^ n * den alpha * den q); [|transitivity (Z.to_N (num alpha) * den q ^ n * den q); [by apply N.mul_le_mono_r|lia]].
  replace (Z.to_N (num q) ^ n * Z.to_N (num q) * den alpha) with (Z.to_N (num q) ^ n * den alpha * Z.to_N (num q)) by lia.
  apply N.mul_le_mono_l. lia.
Qed.

Lemma power_below_mono q n m alpha : unit_open q -> n <= m -> power_below q n alpha -> power_below q m alpha.
Proof.
  intros Hq Hnm H. replace m with (n + (m - n)) by lia. generalize (m - n). intros k. clear Hnm.
  induction k as [|k IH] using N.peano_ind; [by rewrite N.add_0_r|].
  replace (n + N.succ k) with (n + k + 1) by lia. by apply power_below_succ.
Qed.

(** The effective trials are the trials divided by the design effect. *)
Definition effective_of (trials : N) (design_effect : option Rational) : N :=
  match design_effect with None => trials | Some d => trials * den d / Z.to_N (num d) end.

Lemma effective_trials_exact trials d : in_width d -> trials <= U64_MAX -> (0 < num d)%Z -> den d <= Z.to_N (num d) ->
  effective_trials trials d = trials * den d / Z.to_N (num d).
Proof.
  unfold U64_MAX. intros [Hn Hd] Ht Hp Hle. unfold effective_trials. rewrite as_u128_pos by lia.
  destruct (widen_mul_exact trials (den d)) as (h & l & -> & Hl & Hv); [lia..|].
  set (k := Z.to_N (num d)) in *. assert (Hk : 0 < k < 2 ^ 127) by lia.
  rewrite u256_div_exact by (try done; nia). rewrite Hv. apply N.mod_small.
  apply N.Div0.div_lt_upper_bound. nia.
Qed.

Lemma design_trials_Ok trials d e : trials <= U64_MAX -> (forall r, d = Some r -> in_width r) ->
  design_trials trials d = Ok e -> e = effective_of trials d /\ e <= U64_MAX /\ forall r, d = Some r -> le_rate ONE r.
Proof.
  intros Ht Hw. unfold design_trials. destruct d as [r|]; cbn [effective_of]; [|by intros [= <-]].
  specialize (Hw r eq_refl). destruct (Z.leb_spec (num r) 0) as [|Hp]; [done|]. cbn [orb].
  destruct Hw as [Hn Hd]. rewrite as_u128_pos by lia. destruct (N.ltb_spec (Z.to_N (num r)) (den r)) as [|Hle]; [done|].
  intros [= <-]. rewrite effective_trials_exact by done. split; [done|]. split.
  - apply N.Div0.div_le_upper_bound. nia.
  - intros r' [= <-]. unfold le_rate. cbn. lia.
Qed.

Definition input_ok (i : ZeroFailureBoundInput) : Prop :=
  zf_trials i <= U64_MAX /\ in_width (zf_success_target i) /\ in_width (zf_alpha i) /\
  (forall r, zf_design_effect i = Some r -> in_width r) /\ den (zf_success_target i) <= 2 ^ 127.

Lemma certifies_inv i r : zero_failure_bound_certifies i = r -> is_ok r = true \/ (exists e, r = Err (InsufficientTrials e)) ->
  validate_unit_open (zf_success_target i) "success_target" = Ok () /\ validate_unit_open (zf_alpha i) "alpha" = Ok () /\
  0 < zf_trials i /\ zf_failures i = 0 /\ zf_independent i = true /\
  exists e b, design_trials (zf_trials i) (zf_design_effect i) = Ok e /\ 0 < e /\ power_le (zf_success_target i) e (zf_alpha i) = Ok b /\
    r = if b then Ok (mkCertification e (zf_success_target i) (zf_alpha i)) else Err (InsufficientTrials e).
Proof.
  unfold zero_failure_bound_certifies. intros Hr Hc.
  destruct (validate_unit_open (zf_success_target i) _) as [[]|e1] eqn:H1; cbn [mbind result_bind] in Hr.
  2:{ subst r. unfold validate_unit_open in H1. destruct (_ || _); [|done]. injection H1 as <-. by destruct Hc as [|[? ?]]. }
  destruct (validate_unit_open (zf_alpha i) _) as [[]|e1] eqn:H2; cbn [mbind result_bind] in Hr.
  2:{ subst r. unfold validate_unit_open in H2. destruct (_ || _); [|done]. injection H2 as <-. by destruct Hc as [|[? ?]]. }
  destruct (N.eqb_spec (zf_trials i) 0) as [|Ht]; [subst r; by destruct Hc as [|[? ?]]|].
  destruct (N.ltb_spec (zf_trials i) (zf_failures i)) as [|Hf]; [subst r; by destruct Hc as [|[? ?]]|].
  destruct (N.eqb_spec (zf_failures i) 0) as [Hf0|]; cbn [negb] in Hr; [|subst r; by destruct Hc as [|[? ?]]].
  destruct (zf_independent i); cbn [negb] in Hr; [|subst r; by destruct Hc as [|[? ?]]].
  destruct (design_trials (zf_trials i) (zf_design_effect i)) as [e|e1] eqn:Hd; cbn [mbind result_bind] in Hr.
  2:{ subst r. unfold design_trials in Hd. repeat case_match; simplify_eq; by destruct Hc as [|[? ?]]. }
  destruct (N.eqb_spec e 0) as [|He]; [subst r; by destruct Hc as [|[? ?]]|].
  destruct (power_le _ _ _) as [b|e1] eqn:Hp; cbn [mbind result_bind] in Hr.
  2:{ subst r. unfold power_le in Hp. repeat case_match; simplify_eq; by destruct Hc as [|[? ?]]. }
  split_and!; [done|done|lia|done|done|]. exists e, b. split_and!; [done|lia|done|]. subst r. by destruct b.
Qed.

(** C23: For a success target whose denominator is at most [2^127] (beyond it the
    long division loses a bit, [wide_rationals_misjudged]) and rationals and
    counts within their widths: a certificate is issued only for an independent
    trace without failures, at the trials divided by the design effect, when the exact power of the
    success target at that count is at most alpha; and a refusal for too few
    trials means that it is not. *)
Theorem zero_failure_certification_exact (i : ZeroFailureBoundInput) : input_ok i ->
  (forall c, zero_failure_bound_certifies i = Ok c ->
     zf_failures i = 0 /\ zf_independent i = true /\ (forall r, zf_design_effect i = Some r -> le_rate ONE r) /\
     zc_effective_trials c = effective_of (zf_trials i) (zf_design_effect i) /\ 0 < zc_effective_trials c /\
     power_below (zf_success_target i) (zc_effective_trials c) (zf_alpha i)) /\
  (forall e, zero_failure_bound_certifies i = Err (InsufficientTrials e) ->
     e = effective_of (zf_trials i) (zf_design_effect i) /\ ~ power_below (zf_success_target i) e (zf_alpha i)).
Proof.
  intros (Ht & Hq & Ha & Hd & Hdq).
  assert (Hall : forall r, zero_failure_bound_certifies i = r -> is_ok r = true \/ (exists e, r = Err (InsufficientTrials e)) ->
    zf_failures i = 0 /\ zf_independent i = true /\ (forall d, zf_design_effect i = Some d -> le_rate ONE d) /\
    exists e b, e = effective_of (zf_trials i) (zf_design_effect i) /\ 0 < e /\ (b = true <-> power_below (zf_success_target i) e (zf_alpha i)) /\
      r = if b then Ok (mkCertification e (zf_success_target i) (zf_alpha i)) else Err (InsufficientTrials e)).
  { intros r Hr Hc. destruct (certifies_inv i r Hr Hc) as (H1 & H2 & _ & Hf & Hind & e & b & He & He0 & Hp & ->).
    apply (design_trials_Ok _ _ _ Ht Hd) in He as (-> & Hm & Hdes). split_and!; [done..|].
    eexists _, b. split_and!; [done|done| |done]. apply power_le_exact; [by eapply validate_unit_open_Ok|done| |done|done].
    by eapply validate_unit_open_Ok. }
  split.
  - intros c Hc. destruct (Hall _ Hc (or_introl eq_refl)) as (? & ? & ? & e & b & -> & ? & Hb & Hr).
    destruct b; [|done]. injection Hr as ->. cbn. split_and!; try done. by apply Hb.
  - intros e' Hc. destruct (Hall _ Hc (or_intror (ex_intro _ _ eq_refl))) as (? & ? & ? & e & b & -> & ? & Hb & Hr).
    destruct b; [done|]. injection Hr as ->. split; [done|]. intros Hx. by apply Hb in Hx.
Qed.

Lemma double_loop_Ok q alpha fuel : unit_open q -> den q <= 2 ^ 127 -> unit_open alpha -> forall hi n,
  ~ power_below q hi alpha -> 0 < hi -> double_loop fuel q alpha hi = Ok n ->
  n <= U64_MAX /\ power_below q n alpha /\ ~ power_below q (n / 2) alpha /\ 2 <= n /\ n mod 2 = 0.
Proof.
  intros Hq Hdq Ha. induction fuel as [|fuel IH]; intros hi n Hno Hpos Hr; [done|]. cbn [double_loop] in Hr.
  destruct (N.ltb_spec U64_MAX (hi * 2)) as [|Hm]; [done|].
  destruct (power_le q (hi * 2) alpha) as [b|] eqn:Hp; [|done]. cbn [mbind result_bind] in Hr.
  apply power_le_exact in Hp; [|done..]. destruct b.
  - injection Hr as <-. rewrite N.div_mul, N.Div0.mod_mul by lia. split_and!; [done|by apply Hp|done|lia|done].
  - apply (IH (hi * 2)); [|lia|done]. intros Hx. by apply Hp in Hx.
Qed.

Lemma search_loop_Ok q alpha fuel : unit_open q -> den q <= 2 ^ 127 -> unit_open alpha -> forall lo hi n,
  lo < hi <= U64_MAX -> hi - lo <= 2 ^ N.of_nat fuel -> ~ power_below q lo alpha -> power_below q hi alpha ->
  search_loop fuel q alpha lo hi = Ok n -> lo < n <= U64_MAX /\ power_below q n alpha /\ ~ power_below q (n - 1) alpha.
Proof.
  intros Hq Hdq Ha. induction fuel as [|fuel IH]; intros lo hi n Hlh Hf Hlo Hhi Hr.
  { injection Hr as <-. cbn in Hf. assert (hi - 1 = lo) as -> by lia. split_and!; [lia|lia|done|done]. }
  cbn [search_loop] in Hr. destruct (N.ltb_spec (lo + 1) hi) as [Hlt|Hge].
  2:{ injection Hr as <-. assert (hi - 1 = lo) as -> by lia. split_and!; [lia|lia|done|done]. }
  pose proof (N.div_mod (hi - lo) 2 ltac:(lia)) as Hdm. pose proof (N.mod_lt (hi - lo) 2 ltac:(lia)) as Hm.
  set (k := (hi - lo) / 2) in *. set (r := (hi - lo) mod 2) in *. clearbody k r. rewrite Nat2N.inj_succ, N.pow_succ_r' in Hf.
  destruct (power_le q (lo + k) alpha) as [b|] eqn:Hp; [|done]. cbn [mbind result_bind] in Hr.
  apply power_le_exact in Hp; [|done|done|done|lia]. destruct b.
  - apply (IH lo (lo + k)); [lia|lia|done|by apply Hp|done].
  - destruct (IH (lo + k) hi n) as (? & ? & ?); [lia|lia| |done|done|]; [intros Hx; by apply Hp in Hx|].
    split_and!; [lia|lia|done|done].
Qed.

Lemma search_after_doubling q alpha f1 f2 n : unit_open q -> den q <= 2 ^ 127 -> unit_open alpha ->
  U64_MAX < 2 ^ N.of_nat f2 -> ~ power_below q 1 alpha ->
  mbind (M := result BoundsError) (fun hi => search_loop f2 q alpha (hi / 2) hi) (double_loop f1 q alpha 1) = Ok n ->
  1 <= n <= U64_MAX /\ power_below q n alpha /\ ~ power_below q (n - 1) alpha.
Proof.
  intros Hq Hdq Ha Hf Hno Hr. destruct (double_loop f1 q alpha 1) as [hi|] eqn:Hd; [|done]. cbn [mbind result_bind] in Hr.
  apply double_loop_Ok in Hd as (Hmax & Hhi & Hlo & H2' & Hev); [|done..].
  pose proof (N.div_mod hi 2 ltac:(lia)) as Hdm. rewrite Hev in Hdm.
  apply search_loop_Ok in Hr as (Hn & Hb & Hnb); [|done|done|done|lia|lia|done|done].
  split_and!; [lia|lia|done|done].
Qed.

(** The number of trials the search returns is the least one whose exact
    power is at most alpha. *)
Theorem least_trials_exact (q alpha : Rational) (n : N) :
  in_width q -> den q <= 2 ^ 127 -> in_width alpha -> min_zero_failure_trials q alpha = Ok n ->
  1 <= n <= U64_MAX /\ power_below q n alpha /\ forall m, 1 <= m < n -> ~ power_below q m alpha.
Proof.
  intros Hwq Hdq Hwa Hr. unfold min_zero_failure_trials in Hr.
  apply bind_Ok_inv in Hr as ([] & H1 & Hr). apply bind_Ok_inv in Hr as ([] & H2 & Hr).
  apply validate_unit_open_Ok in H1, H2; [|done..]. apply bind_Ok_inv in Hr as (b & Hp & Hr).
  apply power_le_exact in Hp; [|done|done|done|by vm_compute]. destruct b.
  { injection Hr as <-. split_and!; [done|by vm_compute|by apply Hp|lia]. }
  apply search_after_doubling in Hr as (Hn & Hb & Hnb); [|done|done|done|by vm_compute|intros Hx; by apply Hp in Hx].
  split_and!; [lia|lia|done|]. intros m Hm Hx. apply Hnb. apply (power_below_mono q m); [done|lia|done].
Qed.

(** * Feasibility *)

(** Actual costs inside the measured intervals of a coordinate. *)
Definition inside (c : ResourceCoordinate) (p hit fallback target : N) : Prop :=
  p <= iv_hi (rc_preparation c) /\ hit <= iv_hi (rc_hit c) /\ fallback <= iv_hi (rc_fallback c) /\ iv_lo (rc_target c) <= target.

Lemma meets_inside c p hit fallback target n d : unit_point n d -> inside c p hit fallback target ->
  certified_at n d c -> meets p hit fallback target n d.
Proof.
  intros [Hd Hn] (Hp & Hh & Hf & Ht). unfold certified_at, meets. intros Hc.
  assert (Z.of_N p * d <= Z.of_N (iv_hi (rc_preparation c)) * d)%Z by (apply Z.mul_le_mono_nonneg_r; lia).
  assert (Z.of_N hit * n <= Z.of_N (iv_hi (rc_hit c)) * n)%Z by (apply Z.mul_le_mono_nonneg_r; lia).
  assert (Z.of_N fallback * (d - n) <= Z.of_N (iv_hi (rc_fallback c)) * (d - n))%Z by (apply Z.mul_le_mono_nonneg_r; lia).
  assert (Z.of_N (iv_lo (rc_target c)) * d <= Z.of_N target * d)%Z by (apply Z.mul_le_mono_nonneg_r; lia). lia.
Qed.

Lemma contains_rate_exact min max h : unit_rate min -> unit_rate max -> unit_rate h ->
  contains_rate min max h = Ok true <-> within (mkFeasible min max) (num h) (Z.of_N (den h)).
Proof.
  intros Hm HM Hh. unfold contains_rate, within. cbn [fi_min fi_max]. rewrite !unit_rate_le by done. cbn [mbind result_bind].
  unfold le_rate. case_bool_decide as H1; [|split; [done|tauto]]. case_bool_decide as H2; split; try done; try tauto.
Qed.

Lemma all_certified_hold cs h : Forall coordinate_ok cs -> unit_rate h ->
  Forall (fun c => certified_holds c h = Ok true) cs <-> Forall (certified_at (num h) (Z.of_N (den h))) cs.
Proof.
  intros Hcs Hh. induction Hcs as [|c cs Hc Hcs IH]; [done|]. rewrite !list.Forall_cons, IH.
  destruct (certified_holds_exact c h Hc Hh) as (b & -> & Hb). rewrite <- Hb. naive_solver.
Qed.

(** C22: The solver never panics and decides feasibility: an intersection it
    returns is nonempty and holds exactly the hit rates at which every
    coordinate's worst cost meets its smallest target (so every actual cost
    inside the measured intervals meets its target); for hit rates whose
    denominator is at most [2^64] its own membership test agrees with the direct
    evaluation of every coordinate (wider ones can meet the carry error of
    [widen_mul], [wide_rationals_misjudged]); and a blocker is the first
    coordinate that no hit rate reconciles with those before it. *)
Theorem feasible_intersection_exact (cs : list ResourceCoordinate) : Forall coordinate_ok cs ->
  exists res, feasible_intersection cs = Ok res /\
  match res with
  | Ok r =>
      le_rate (fx_min r) (fx_max r) /\
      (forall n d, unit_point n d -> within (mkFeasible (fx_min r) (fx_max r)) n d <-> Forall (certified_at n d) cs) /\
      (forall h, unit_rate h ->
         FeasibleIntersection_contains r h = Ok true <-> Forall (fun c => certified_holds c h = Ok true) cs) /\
      (forall n d c p hit fallback target, unit_point n d -> within (mkFeasible (fx_min r) (fx_max r)) n d -> c ∈ cs ->
         inside c p hit fallback target -> meets p hit fallback target n d)
  | Err NoCoordinates => cs = []
  | Err (EmptyIntersection b) => exists pre c post, cs = pre ++ c :: post /\ bl_coordinate b = rc_name c /\
      (exists n d, unit_point n d /\ Forall (certified_at n d) pre) /\
      (forall n d, unit_point n d -> ~ Forall (certified_at n d) (pre ++ [c]))
  | Err _ => False
  end.
Proof.
  intros Hcs. unfold feasible_intersection. destruct cs as [|c0 cs0]; [by exists (Err NoCoordinates)|].
  destruct (intersect_loop_exact _ Hcs ZERO ONE [] unit_ZERO unit_ONE) as (r & -> & Hr); [by cbn|].
  set (cs := c0 :: cs0) in *. clearbody cs. exists r. split; [done|].
  assert (H01 : forall n d, unit_point n d -> within (mkFeasible ZERO ONE) n d) by (unfold unit_point, within; cbn; lia).
  destruct r as [r|[]]; try done; cbn [loop_result] in Hr.
  - destruct Hr as (Hmin & Hmax & Hle & Hw).
    assert (Hw' : forall n d, unit_point n d -> within (mkFeasible (fx_min r) (fx_max r)) n d <-> Forall (certified_at n d) cs)
      by (intros n d Hp; rewrite (Hw n d Hp); specialize (H01 n d Hp); tauto).
    split_and!; [done|done| |].
    + intros h Hh. unfold FeasibleIntersection_contains. rewrite contains_rate_exact, all_certified_hold by done.
      apply Hw'. destruct Hh. unfold unit_point. lia.
    + intros n d c p hit fallback target Hp Hi Hin Hins. apply (meets_inside c); [done..|].
      apply Hw' in Hi; [|done]. rewrite list.Forall_forall in Hi. by apply Hi.
  - destruct Hr as (pre & c & post & -> & Hn & (n & d & Hp & _ & Hf) & Hno). exists pre, c, post.
    split_and!; [done..| |]; [by exists n, d|]. intros n' d' Hp'. apply Hno; [done|]. by apply H01.
Qed.

(** * Multipliers *)

(** The required coverage is the least share, in millionths, of prepared
    work at which the blended cost reaches the target, and the request is
    refused as infeasible exactly when full coverage does not reach it. *)
Theorem required_coverage_least (baseline preparation hit fallback m : N) :
  baseline <= U64_MAX -> preparation <= U64_MAX -> 0 < baseline -> 0 < m -> hit < fallback <= U64_MAX ->
  let reaches c := ((preparation + fallback) * PPM <= baseline * PPM / m + c * (fallback - hit)) in
  match required_prepared_coverage_ppm baseline preparation hit fallback m with
  | Ok c => c <= PPM /\ reaches c /\ forall c', c' < c -> ~ reaches c'
  | Err e => e = CoverageInfeasible /\ ~ reaches PPM
  end.
Proof.
  intros Hb Hp Hb0 Hm Hf reaches. subst reaches. unfold U64_MAX in *. unfold required_prepared_coverage_ppm.
  rewrite (proj2 (N.eqb_neq baseline 0)), (proj2 (N.eqb_neq m 0)), (proj2 (N.leb_gt fallback hit)) by lia. cbn [orb].
  rewrite N.min_l by (unfold U128_MAX, PPM; lia).
  set (total := (preparation + fallback) * PPM). set (target := baseline * PPM / m). set (step := fallback - hit).
  assert (Hs : 0 < step) by lia.
  pose proof (N.div_mod (total - target + step - 1) step ltac:(lia)) as Hdm. pose proof (N.mod_lt (total - target + step - 1) step ltac:(lia)) as Hr.
  set (r := (total - target + step - 1) mod step) in *. set (c := (total - target + step - 1) / step) in *. clearbody r c total target step.
  assert (Hreach : forall c', total <= target + c' * step <-> c <= c').
  { intros c'. split; intros H; [|nia]. destruct (N.le_gt_cases c c') as [|Hlt]; [done|].
    assert ((c' + 1) * step <= c * step) by (apply N.mul_le_mono_r; lia). lia. }
  destruct (N.ltb_spec PPM c).
  - split; [done|]. rewrite Hreach. lia.
  - split; [done|]. split; [by apply Hreach|]. intros c' Hlt. rewrite Hreach. lia.
Qed.

(** * Concrete runs

    Concrete gauges: the documented sample sizes, a feasible and an infeasible
    pair of coordinates, and rationals beyond the widths the exactness
    theorems assume, where the code gives wrong answers. *)

Definition q99 : Rational := mkRational 99 100.
Definition five_percent : Rational := mkRational 1 20.
Definition trace (trials : N) : ZeroFailureBoundInput := mkBoundInput trials 0 q99 five_percent true (Some (mkRational 2 1)).

Lemma zero_failure_certification_exact_witness :
  input_ok (trace 598) /\ power_below q99 299 five_percent /\ ~ power_below q99 298 five_percent.
Proof.
  assert (Hok : forall t, t <= U64_MAX -> input_ok (trace t)).
  { intros t Ht. split; [done|]. split; [by vm_compute|]. split; [by vm_compute|]. split; [|by vm_compute]. by intros r [= <-]. }
  assert (Hc : zero_failure_bound_certifies (trace 598) = Ok (mkCertification 299 q99 five_percent)) by (by vm_compute).
  assert (He : zero_failure_bound_certifies (trace 597) = Err (InsufficientTrials 298)) by (by vm_compute).
  assert (H598 : input_ok (trace 598)) by (apply Hok; by vm_compute). assert (H597 : input_ok (trace 597)) by (apply Hok; by vm_compute).
  split; [done|]. split.
  - exact (proj2 (proj2 (proj2 (proj2 (proj2 (proj1 (zero_failure_certification_exact (trace 598) H598) _ Hc)))))).
  - exact (proj2 (proj2 (zero_failure_certification_exact (trace 597) H597) _ He)).
Defined.

Lemma least_trials_exact_witness : power_below q99 299 five_percent /\ forall m, 1 <= m < 299 -> ~ power_below q99 m five_percent.
Proof.
  assert (Hq : in_width q99) by (by vm_compute). assert (Hd : den q99 <= 2 ^ 127) by (by vm_compute).
  assert (Ha : in_width five_percent) by (by vm_compute).
  assert (H : min_zero_failure_trials q99 five_percent = Ok 299) by (by vm_compute).
  exact (proj2 (least_trials_exact q99 five_percent 299 Hq Hd Ha H)).
Defined.

Example documented_sample_sizes :
  min_zero_failure_trials q99 five_percent = Ok 299 /\ min_zero_failure_trials (mkRational 999 1000) five_percent = Ok 2995.
Proof. by vm_compute. Qed.

Definition tokens : ResourceCoordinate :=
  mkCoordinate "tokens" (mkInterval 100 100) (mkInterval 1 2) (mkInterval 50 50) (mkInterval 0 1) (mkInterval 10 12).
Definition storage : ResourceCoordinate :=
  mkCoordinate "storage" (mkInterval 100 100) (mkInterval 20 20) (mkInterval 40 40) (mkInterval 5 5) (mkInterval 30 30).
Definition latency : ResourceCoordinate :=
  mkCoordinate "latency" (mkInterval 100 100) (mkInterval 20 20) (mkInterval 30 30) (mkInterval 5 5) (mkInterval 24 24).

Lemma feasible_intersection_exact_witness :
  Forall coordinate_ok [tokens; storage] /\
  feasible_intersection [tokens; storage; latency] = Ok (Err (EmptyIntersection (mkBlocker "latency" None (mkFeasible (mkRational 41 48) ONE)))) /\
  exists r, feasible_intersection [tokens; storage] = Ok (Ok r) /\ fx_min r = mkRational 41 48 /\ fx_max r = ONE /\
    forall n d, unit_point n d -> within (mkFeasible (fx_min r) (fx_max r)) n d <-> Forall (certified_at n d) [tokens; storage].
Proof.
  assert (Hok : Forall coordinate_ok [tokens; storage]) by (repeat constructor; by vm_compute).
  split; [done|]. split; [by vm_compute|].
  destruct (feasible_intersection_exact [tokens; storage] Hok) as (res & Hres & Hr).
  assert (Hc : fst <$> match feasible_intersection [tokens; storage] with Ok (Ok r) => Some (fx_min r, fx_max r) | _ => None end = Some (mkRational 41 48))
    by (by vm_compute).
  assert (Hc' : snd <$> match feasible_intersection [tokens; storage] with Ok (Ok r) => Some (fx_min r, fx_max r) | _ => None end = Some ONE)
    by (by vm_compute).
  rewrite Hres in Hc, Hc'. destruct res as [r|e]; [|done]. cbn in Hc, Hc'. exists r. split; [done|].
  injection Hc as Hc. injection Hc' as Hc'. split; [done|]. split; [done|]. apply Hr.
Defined.

Lemma required_coverage_least_witness :
  required_prepared_coverage_ppm 1000 1 2 200 100 = Ok 964647 /\
  ~ ((1 + 200) * PPM <= 1000 * PPM / 100 + 964646 * (200 - 2)).
Proof.
  assert (H : required_prepared_coverage_ppm 1000 1 2 200 100 = Ok 964647) by (by vm_compute). split; [done|].
  pose proof (required_coverage_least 1000 1 2 200 100) as Hc. rewrite H in Hc.
  destruct Hc as (_ & _ & Hl); [by vm_compute..|by split; vm_compute|]. apply Hl. by vm_compute.
Defined.

(** * Beyond the assumed widths *)

Definition wide_low : Rational := mkRational 32287080525121444182 61551200367924013427.
Definition wide_high : Rational := mkRational 20308436345877855361 30205879851836143751.
(** About 0.990, with a denominator above [2^127]. *)
Definition wide_target : Rational := mkRational (2 ^ 127 - 1) 171842595295073924049004176753042946785.

(** Outside those widths the answers are wrong: a rational below another
    one compares as above it, and one trial certifies a success rate of more
    than 98 percent at five percent error although its power is far above
    alpha. *)
Theorem wide_rationals_misjudged :
  (compare wide_low wide_high = Ok Gt /\ exact_cmp wide_low wide_high = Lt) /\
  zero_failure_bound_certifies (mkBoundInput 1 0 wide_target five_percent true None)
    = Ok (mkCertification 1 wide_target five_percent) /\
  ~ power_below wide_target 1 five_percent /\ (98 * Z.of_N (den wide_target) < 100 * num wide_target)%Z.
Proof. by vm_compute. Qed.
