(* ===== verification/Decision.v ===== *)
(** Trivalent verdicts and contingent policies of zero-abi:
    [zero-abi/src/verdict.rs] and [zero-abi/src/decision.rs]. *)

From S2P Require Import Prelude Ordering Identity.

#[local] Open Scope N_scope.

(** * Safety verdicts *)

Definition VERDICT_MAX_PREMISE_NAME_BYTES : N := 256.

Record Premise := mkPremise { pm_name : string; pm_established : option bool }.

Inductive VerdictBuildError := EmptyName | NameTooLong (actual maximum : N) | ControlCharacter.

Definition strlen (s : string) : N := len (string_bytes s).

Definition Premise_validate (p : Premise) : result VerdictBuildError () :=
  reject? String.eqb (pm_name p) "" with EmptyName in
  reject? VERDICT_MAX_PREMISE_NAME_BYTES <? strlen (pm_name p)
    with NameTooLong (strlen (pm_name p)) VERDICT_MAX_PREMISE_NAME_BYTES in
  reject? has_control (string_bytes (pm_name p)) with ControlCharacter in
  Ok ().

Definition Premise_new (name : string) (established : option bool) : result VerdictBuildError Premise :=
  let p := mkPremise name established in
  let? _ := Premise_validate p in
  Ok p.

Inductive SafetyVerdict := Safe | Unsafe (reasons : list string) | Unknown (reasons : list string).
#[global] Instance SafetyVerdict_eq_dec : EqDecision SafetyVerdict.
Proof. solve_decision. Defined.

(** [Vec::dedup]: of equal neighbours the first stays. *)
Fixpoint dedup (l : list string) : list string :=
  match l with
  | x :: (y :: _) as rest => if bool_decide (x = y) then dedup rest else x :: dedup rest
  | _ => l
  end.
Definition sort_dedup (reasons : list string) : list string := dedup (sort reasons).
Definition merge_reasons (l r : list string) : list string := bset_of_list (l ++ r).

Definition meet (a b : SafetyVerdict) : SafetyVerdict :=
  match a, b with
  | Safe, Safe => Safe
  | Unsafe l, Unsafe r => Unsafe (merge_reasons l r)
  | Unsafe reasons, _ | _, Unsafe reasons => Unsafe (sort_dedup reasons)
  | Unknown l, Unknown r => Unknown (merge_reasons l r)
  | Unknown reasons, Safe | Safe, Unknown reasons => Unknown (sort_dedup reasons)
  end.

Definition meet_all (l : list SafetyVerdict) : SafetyVerdict := foldl meet Safe l.

Definition premise_verdict (p : Premise) : SafetyVerdict :=
  match pm_established p with
  | Some true => Safe
  | Some false => Unsafe [pm_name p]
  | None => Unknown [pm_name p]
  end.

Definition from_premises (premises : list Premise) : SafetyVerdict :=
  match premises with
  | [] => Unknown ["no_premises"]
  | _ => meet_all (premise_verdict <$> premises)
  end.

Definition grants_authority (v : SafetyVerdict) : bool := match v with Safe => true | _ => false end.
Definition reasons (v : SafetyVerdict) : list string := match v with Safe => [] | Unsafe r | Unknown r => r end.
Definition label (v : SafetyVerdict) : string :=
  match v with Safe => "safe" | Unsafe _ => "unsafe" | Unknown _ => "unknown" end.

(** * Contingent policies *)

Definition OBSERVATION_CLASS_MAX_BYTES : N := 128.
Definition DECISION_ID_MAX_BYTES : N := 256.

Inductive DecisionError :=
| InvalidObservationClass
| InvalidDecisionPoint
| InvalidPolicyRule
| AlternativeNotOffered (decision_id alternative : string) (rule_index : nat)
| InvalidPolicyError.

Record ObservationClass := mkClass { class_id : string }.
#[global] Instance ObservationClass_eq_dec : EqDecision ObservationClass.
Proof. solve_decision. Defined.

Definition class_byte (b : byte) : bool :=
  byte_in 97 122 b || byte_in 48 57 b || byte_is 46 b || byte_is 95 b || byte_is 45 b.

Definition ObservationClass_validate (c : ObservationClass) : result DecisionError () :=
  reject? String.eqb (class_id c) "" with InvalidObservationClass in
  reject? OBSERVATION_CLASS_MAX_BYTES <? strlen (class_id c) with InvalidObservationClass in
  reject? negb (forallb class_byte (string_bytes (class_id c))) with InvalidObservationClass in
  Ok ().

Definition ObservationClass_new (id : string) : result DecisionError ObservationClass :=
  let c := mkClass id in
  let? _ := ObservationClass_validate c in
  Ok c.

Record SemanticDecisionPoint := mkPoint {
  dp_decision_id : string; dp_observation_class : ObservationClass; dp_question : string;
  dp_alternatives : list string; dp_evidence_refs : list string }.

Fixpoint check_alternatives (alternatives : list string) (seen : list string) : result DecisionError () :=
  match alternatives with
  | [] => Ok ()
  | a :: rest =>
      reject? String.eqb a "" with InvalidDecisionPoint in
      let '(fresh, seen) := bset_insert a seen in
      reject? negb fresh with InvalidDecisionPoint in
      check_alternatives rest seen
  end.

Definition SemanticDecisionPoint_validate (p : SemanticDecisionPoint) : result DecisionError () :=
  reject? String.eqb (dp_decision_id p) "" with InvalidDecisionPoint in
  reject? DECISION_ID_MAX_BYTES <? strlen (dp_decision_id p) with InvalidDecisionPoint in
  reject? String.eqb (dp_question p) "" with InvalidDecisionPoint in
  reject? bool_decide (dp_alternatives p = []) with InvalidDecisionPoint in
  let? _ := check_alternatives (dp_alternatives p) [] in
  reject? existsb (fun r => String.eqb r "") (dp_evidence_refs p) with InvalidDecisionPoint in
  ObservationClass_validate (dp_observation_class p).

Definition SemanticDecisionPoint_new (decision_id : string) (class : ObservationClass) (question : string)
  (alternatives evidence_refs : list string) : result DecisionError SemanticDecisionPoint :=
  let p := mkPoint decision_id class question alternatives evidence_refs in
  let? _ := SemanticDecisionPoint_validate p in
  Ok p.

Inductive ObservedMatch := Exact (value : string) | Any.

Record ContingentPolicyRule := mkRule {
  pr_observation_class : ObservationClass; pr_observed : ObservedMatch; pr_select_alternative : string }.

Definition ContingentPolicyRule_validate (r : ContingentPolicyRule) : result DecisionError () :=
  let? _ := ObservationClass_validate (pr_observation_class r) in
  reject? match pr_observed r with Exact v => String.eqb v "" | Any => false end with InvalidPolicyRule in
  reject? String.eqb (pr_select_alternative r) "" with InvalidPolicyRule in
  Ok ().

Definition ContingentPolicyRule_new (class : ObservationClass) (observed : ObservedMatch) (select : string)
  : result DecisionError ContingentPolicyRule :=
  let r := mkRule class observed select in
  let? _ := ContingentPolicyRule_validate r in
  Ok r.

Record ContingentPolicy := mkPolicy { rules : list ContingentPolicyRule }.

Definition ContingentPolicy_validate (p : ContingentPolicy) : result DecisionError () :=
  for_each (fun r => match ContingentPolicyRule_validate r with Ok _ => Ok () | Err _ => Err InvalidPolicyRule end) (rules p).

Definition ContingentPolicy_new (rs : list ContingentPolicyRule) : result DecisionError ContingentPolicy :=
  let p := mkPolicy rs in
  let? _ := ContingentPolicy_validate p in
  Ok p.

Record DecisionRequired := mkRequired {
  dr_decision_id : string; dr_observation_class : ObservationClass; dr_question : string;
  dr_choices : list string; dr_observed_value : string }.

Inductive PolicyResolution :=
| Selected (alternative : string) (rule_index : nat)
| Uncovered (decision_required : DecisionRequired)
| PolicyError (e : DecisionError).

Definition rule_matches (point : SemanticDecisionPoint) (observed_value : string) (r : ContingentPolicyRule) : bool :=
  bool_decide (pr_observation_class r = dp_observation_class point) &&
  match pr_observed r with Exact v => String.eqb v observed_value | Any => true end.

Fixpoint resolve_loop (rs : list ContingentPolicyRule) (rule_index : nat) (point : SemanticDecisionPoint) (observed_value : string)
  : PolicyResolution :=
  match rs with
  | [] => Uncovered (mkRequired (dp_decision_id point) (dp_observation_class point) (dp_question point) (dp_alternatives point) observed_value)
  | r :: rest =>
      if negb (rule_matches point observed_value r) then resolve_loop rest (S rule_index) point observed_value
      else if negb (existsb (fun a => String.eqb a (pr_select_alternative r)) (dp_alternatives point))
           then PolicyError (AlternativeNotOffered (dp_decision_id point) (pr_select_alternative r) rule_index)
           else Selected (pr_select_alternative r) rule_index
  end.
Definition resolve (p : ContingentPolicy) (point : SemanticDecisionPoint) (observed_value : string) : PolicyResolution :=
  resolve_loop (rules p) 0 point observed_value.

Definition policy_is_empty (p : ContingentPolicy) : bool := bool_decide (length (rules p) = 0%nat).
Definition verdict_permits_selection (v : SafetyVerdict) : bool := match v with Safe => true | _ => false end.

(** * What a verdict over premises means *)

Lemma dedup_head l x : head (dedup (x :: l)) = Some x.
Proof. revert x. induction l as [|y l IH]; intros x; cbn; [done|]. case_bool_decide as Hxy; [subst; apply IH|done]. Qed.

Lemma elem_of_dedup x l : x ∈ dedup l <-> x ∈ l.
Proof.
  induction l as [|y l IH]; [done|]. destruct l as [|z l]; [done|]. cbn [dedup].
  case_bool_decide as Hyz; rewrite !elem_of_cons in *; [rewrite IH; set_solver|].
  change (dedup (z :: l)) with (dedup (z :: l)) in IH. rewrite IH. done.
Qed.

Lemma sorted_dedup l : Sorted (fun a b : string => geb b a) l -> StronglySorted below (dedup l).
Proof.
  intros Hs. apply Sorted_StronglySorted; [intros x y z; apply cmp_trans|].
  induction Hs as [|x l Hs IH Hx]; [constructor|]. destruct l as [|y l]; [repeat constructor|].
  cbn [dedup]. case_bool_decide as Hxy; [done|]. constructor; [done|].
  apply HdRel_inv in Hx as Hxy'. pose proof (dedup_head l y) as Hh.
  change (HdRel below x (dedup (y :: l))). destruct (dedup (y :: l)) as [|z l'] eqn:Hd; [done|]. injection Hh as ->. constructor.
  unfold below, geb, ltb in *. rewrite (cmp_antisym x y) in Hxy'.
  destruct (cmp x y) eqn:Hc; [|done|cbn in Hxy'; contradiction]. apply cmp_eq in Hc. done.
Qed.

Lemma sort_dedup_bset l : sort_dedup l = bset_of_list l.
Proof.
  apply sorted_ext.
  - apply sorted_dedup. apply (sort_by_key_sorted id).
  - apply bset_of_list_spec.
  - intros x. unfold sort_dedup. by rewrite elem_of_dedup, elem_of_sort, elem_of_bset_of_list.
Qed.

Lemma reason_set_ext (l l' : list string) : (forall x, x ∈ l <-> x ∈ l') -> bset_of_list l = bset_of_list l'.
Proof.
  intros Hx. apply sorted_ext; [apply bset_of_list_spec..|]. intros x. rewrite !elem_of_bset_of_list. apply Hx.
Qed.

(** Falsified and missing premises. *)
Definition named (e : option bool) (premises : list Premise) : list string :=
  pm_name <$> filter (fun p => pm_established p = e) premises.

Definition verdict_of (falsified missing : list string) : SafetyVerdict :=
  match falsified, missing with
  | [], [] => Safe
  | [], _ => Unknown (bset_of_list missing)
  | _, _ => Unsafe (bset_of_list falsified)
  end.

Lemma bset_of_list_idem l : bset_of_list (bset_of_list l) = bset_of_list (A:=string) l.
Proof. apply reason_set_ext. intros x. apply elem_of_bset_of_list. Qed.
Lemma bset_of_list_app_l l k : bset_of_list (bset_of_list l ++ k) = bset_of_list (A:=string) (l ++ k).
Proof. apply reason_set_ext. intros x. by rewrite !elem_of_app, elem_of_bset_of_list. Qed.
Lemma bset_of_list_app_r l k : bset_of_list (l ++ bset_of_list k) = bset_of_list (A:=string) (l ++ k).
Proof. apply reason_set_ext. intros x. by rewrite !elem_of_app, elem_of_bset_of_list. Qed.
Lemma bset_of_list_comm l k : bset_of_list (l ++ k) = bset_of_list (A:=string) (k ++ l).
Proof. apply reason_set_ext. intros x. rewrite !elem_of_app. tauto. Qed.
Lemma bset_of_list_dup l : bset_of_list (l ++ l) = bset_of_list (A:=string) l.
Proof. apply reason_set_ext. intros x. rewrite !elem_of_app. tauto. Qed.

(** The reasons of every verdict that [meet] returns are sorted and distinct. *)
Definition normal (v : SafetyVerdict) : SafetyVerdict :=
  match v with Safe => Safe | Unsafe r => Unsafe (bset_of_list r) | Unknown r => Unknown (bset_of_list r) end.

#[local] Hint Rewrite sort_dedup_bset bset_of_list_idem bset_of_list_app_l bset_of_list_app_r bset_of_list_dup : reasons.

Lemma meet_comm a b : meet a b = meet b a.
Proof. destruct a, b; cbn; try done; unfold merge_reasons; f_equal; apply bset_of_list_comm. Qed.

Lemma meet_assoc a b c : meet (meet a b) c = meet a (meet b c).
Proof.
  destruct a, b, c; cbn; unfold merge_reasons; autorewrite with reasons; try done; by rewrite app_assoc.
Qed.

Lemma meet_Safe a : meet Safe a = normal a.
Proof. destruct a; cbn; autorewrite with reasons; done. Qed.

Lemma meet_idem a : meet a a = normal a.
Proof. destruct a; cbn; unfold merge_reasons; autorewrite with reasons; done. Qed.

Lemma verdict_of_premise F M p :
  meet (verdict_of F M) (premise_verdict p) = verdict_of (F ++ named (Some false) [p]) (M ++ named None [p]).
Proof.
  destruct p as [n e]. destruct e as [[]|]; cbn [premise_verdict pm_established pm_name].
  - change (named _ _) with (@nil string) at 1. change (named None _) with (@nil string). rewrite !app_nil_r.
    destruct F as [|f F], M as [|k M]; cbn -[bset_of_list sort_dedup]; by autorewrite with reasons.
  - change (named (Some false) _) with [n]. change (named None _) with (@nil string). rewrite app_nil_r.
    destruct F as [|f F], M as [|k M]; cbn -[bset_of_list sort_dedup merge_reasons]; unfold merge_reasons; by autorewrite with reasons.
  - change (named (Some false) _) with (@nil string). change (named None _) with [n]. rewrite app_nil_r.
    destruct F as [|f F], M as [|k M]; cbn -[bset_of_list sort_dedup merge_reasons]; unfold merge_reasons; by autorewrite with reasons.
Qed.

Lemma named_app e p q : named e (p ++ q) = named e p ++ named e q.
Proof. unfold named. by rewrite filter_app, fmap_app. Qed.

Lemma meet_all_premises ps : forall F M,
  foldl meet (verdict_of F M) (premise_verdict <$> ps) = verdict_of (F ++ named (Some false) ps) (M ++ named None ps).
Proof.
  induction ps as [|p ps IH]; intros F M; [by rewrite !app_nil_r|].
  cbn [fmap list_fmap foldl]. rewrite verdict_of_premise, IH, <- !app_assoc, <- !named_app. done.
Qed.

Lemma from_premises_verdict p ps :
  from_premises (p :: ps) = verdict_of (named (Some false) (p :: ps)) (named None (p :: ps)).
Proof. apply (meet_all_premises (p :: ps) [] []). Qed.

Definition first_match (p : ContingentPolicy) (point : SemanticDecisionPoint) (v : string) (i : nat) (r : ContingentPolicyRule) : Prop :=
  rules p !! i = Some r /\ rule_matches point v r = true /\ forall r', r' ∈ take i (rules p) -> rule_matches point v r' = false.

Lemma resolve_loop_skip pre rest i point v : Forall (fun r => rule_matches point v r = false) pre ->
  resolve_loop (pre ++ rest) i point v = resolve_loop rest (i + length pre) point v.
Proof.
  intros Hf. revert i. induction Hf as [|r pre Hr Hf IH]; intros i; cbn; [by rewrite Nat.add_0_r|].
  rewrite Hr. cbn. rewrite IH. f_equal. lia.
Qed.

Lemma first_match_cases point v rs : Forall (fun r => rule_matches point v r = false) rs \/
  exists pre r post, rs = pre ++ r :: post /\ Forall (fun r => rule_matches point v r = false) pre /\ rule_matches point v r = true.
Proof.
  induction rs as [|r rs IH]; [by left|]. destruct (rule_matches point v r) eqn:Hr; [right; by exists [], r, rs|].
  destruct IH as [IH|(pre & r' & post & -> & Hf & Hm)]; [left; by constructor|right].
  exists (r :: pre), r', post. split; [done|]. split; [by constructor|done].
Qed.

Lemma named_nil e ps : named e ps = [] <-> Forall (fun p => pm_established p <> e) ps.
Proof.
  unfold named. induction ps as [|p ps IH]; [done|]. rewrite list.Forall_cons, filter_cons.
  case_decide as Hp; [cbn; split; [done|tauto]|]. rewrite IH. tauto.
Qed.

Lemma named_perm e ps qs : ps ≡ₚ qs -> named e ps ≡ₚ named e qs.
Proof. intros Hp. unfold named. by rewrite Hp. Qed.

Lemma verdict_of_perm F F' M M' : F ≡ₚ F' -> M ≡ₚ M' -> verdict_of F M = verdict_of F' M'.
Proof.
  intros HF HM. assert (Hb : forall l k : list string, l ≡ₚ k -> bset_of_list l = bset_of_list k)
    by (intros l k Hp; apply reason_set_ext; intros x; by rewrite Hp).
  destruct F as [|f F], F' as [|f' F'].
  - destruct M as [|m M], M' as [|m' M']; [done|by apply Permutation_nil_l in HM|by symmetry in HM; apply Permutation_nil_l in HM|].
    cbn [verdict_of]. f_equal. by apply Hb.
  - by apply Permutation_nil_l in HF.
  - symmetry in HF. by apply Permutation_nil_l in HF.
  - cbn [verdict_of]. f_equal. by apply Hb.
Qed.

Lemma verdict_of_Unsafe F M r : verdict_of F M = Unsafe r -> r = bset_of_list F /\ F <> [].
Proof. destruct F as [|f F], M; intros [= <-]; done. Qed.
Lemma verdict_of_Unknown F M r : verdict_of F M = Unknown r -> F = [] /\ r = bset_of_list M /\ M <> [].
Proof. destruct F as [|f F], M; intros [= <-]; done. Qed.
Lemma verdict_of_Safe F M : verdict_of F M = Safe <-> F = [] /\ M = [].
Proof. destruct F as [|f F], M; cbn; split; (done || by intros []). Qed.

Lemma reasons_exact e ps : named e ps <> [] ->
  StronglySorted below (bset_of_list (named e ps)) /\ bset_of_list (named e ps) <> [] /\
  forall n, n ∈ bset_of_list (named e ps) <-> exists p, p ∈ ps /\ pm_name p = n /\ pm_established p = e.
Proof.
  intros Hne. split_and!; [apply bset_of_list_spec| |].
  - destruct (named e ps) as [|n l] eqn:He; [done|]. intros Hb. apply (not_elem_of_nil n). rewrite <- Hb.
    apply elem_of_bset_of_list. by left.
  - intros n. rewrite elem_of_bset_of_list. unfold named. rewrite list_elem_of_fmap. setoid_rewrite list_elem_of_filter. naive_solver.
Qed.

Lemma grants_exact ps : grants_authority (from_premises ps) = true <-> ps <> [] /\ Forall (fun p => pm_established p = Some true) ps.
Proof.
  destruct ps as [|p ps]; [split; [done|by intros []]|]. rewrite from_premises_verdict.
  transitivity (verdict_of (named (Some false) (p :: ps)) (named None (p :: ps)) = Safe);
    [destruct (verdict_of _ _); cbn; split; done|].
  rewrite verdict_of_Safe, !named_nil, !list.Forall_forall. split.
  - intros [H1 H2]. split; [done|]. intros x Hx. specialize (H1 x Hx). specialize (H2 x Hx).
    destruct (pm_established x) as [[]|]; done.
  - intros [_ H1]. split; intros x Hx; by rewrite (H1 x Hx).
Qed.

(** A verdict over premises is fail-closed and independent of their order:
    it is safe exactly when there are premises and all are established, unsafe
    with exactly the falsified names, in order and once each, when one is
    falsified, and otherwise unknown with exactly the missing ones. *)
Theorem premise_verdict_exact (ps : list Premise) :
  (grants_authority (from_premises ps) = true <-> ps <> [] /\ Forall (fun p => pm_established p = Some true) ps) /\
  (forall r, from_premises ps = Unsafe r ->
     StronglySorted below r /\ r <> [] /\ forall n, n ∈ r <-> exists p, p ∈ ps /\ pm_name p = n /\ pm_established p = Some false) /\
  (forall r, from_premises ps = Unknown r -> ps <> [] -> Forall (fun p => pm_established p <> Some false) ps /\
     StronglySorted below r /\ r <> [] /\ forall n, n ∈ r <-> exists p, p ∈ ps /\ pm_name p = n /\ pm_established p = None) /\
  (forall qs, ps ≡ₚ qs -> from_premises ps = from_premises qs).
Proof.
  split_and!.
  - apply grants_exact.
  - intros r Hr. destruct ps as [|p ps]; [done|]. rewrite from_premises_verdict in Hr. apply verdict_of_Unsafe in Hr as [-> Hn].
    by apply reasons_exact.
  - intros r Hr Hne. destruct ps as [|p ps]; [done|]. rewrite from_premises_verdict in Hr.
    apply verdict_of_Unknown in Hr as (Hf & -> & Hn). split; [by apply named_nil|]. by apply reasons_exact.
  - intros qs Hp. destruct ps as [|p ps].
    { apply Permutation_nil_l in Hp. by subst. }
    destruct qs as [|q qs]; [symmetry in Hp; by apply Permutation_nil_l in Hp|].
    rewrite !from_premises_verdict. apply verdict_of_perm; by apply named_perm.
Qed.

(** A policy selects by its first rule that matches the observation, when
    that rule's alternative is offered; it reports that rule otherwise, and
    asks for a decision exactly when no rule matches. *)
Theorem policy_first_match (p : ContingentPolicy) (point : SemanticDecisionPoint) (v : string) :
  match resolve p point v with
  | Selected a i => exists r, first_match p point v i r /\ a = pr_select_alternative r /\ a ∈ dp_alternatives point
  | PolicyError e => exists i r, first_match p point v i r /\ ~ (pr_select_alternative r ∈ dp_alternatives point) /\
      e = AlternativeNotOffered (dp_decision_id point) (pr_select_alternative r) i
  | Uncovered d => Forall (fun r => rule_matches point v r = false) (rules p) /\
      dr_choices d = dp_alternatives point /\ dr_observed_value d = v /\ dr_decision_id d = dp_decision_id point
  end.
Proof.
  unfold resolve. destruct (first_match_cases point v (rules p)) as [Hno|(pre & r & post & Hrs & Hpre & Hm)].
  - rewrite <- (app_nil_r (rules p)), resolve_loop_skip by done. cbn. by rewrite app_nil_r.
  - assert (Hfm : first_match p point v (length pre) r).
    { split_and!; [by rewrite Hrs, list_lookup_middle|done|]. intros r' Hr'. rewrite Hrs, take_app_length in Hr'.
      rewrite list.Forall_forall in Hpre. by apply Hpre. }
    rewrite Hrs, resolve_loop_skip by done. cbn [resolve_loop Nat.add]. rewrite Hm. cbn [negb].
    assert (Hex : existsb (fun a => String.eqb a (pr_select_alternative r)) (dp_alternatives point) = true <->
      pr_select_alternative r ∈ dp_alternatives point).
    { rewrite existsb_exists. split; [intros (a & Ha & <-%String.eqb_eq); by apply list_elem_of_In|].
      intros Ha. exists (pr_select_alternative r). rewrite String.eqb_refl. split; [by apply list_elem_of_In|done]. }
    destruct (existsb _ _); cbn [negb].
    + exists r. split_and!; [done..|by apply Hex].
    + exists (length pre), r. split_and!; [done| |done]. intros Hin%Hex. done.
Qed.
