(* ===== verification/ExecDag.v ===== *)
(** The dependency graph of a plan's operations ([zero-abi/src/exec_dag.rs]):
    validation, the deterministic topological order, batchable layers, the
    critical path, the crossing rule of decision boundaries and the plan
    digest.

    A [HashMap] is a [gmap] and a [BTreeSet] its ascending list.  Indexing a
    map at an absent key, an underflowing decrement and an overflowing sum of
    weights are [Panicked]; so is a loop that outlives its fuel, one round per
    node, which the theorems exclude. *)

From S2P Require Import Prelude Ordering Identity Decision.
From S2P Require Import Canonical.
From S2P Require Import DurableStore.

#[local] Open Scope nat_scope.

Definition MAX_EXEC_DAG_NODES : nat := Eval vm_compute in 4096.
Definition MAX_EXEC_DAG_DEPENDENCIES_PER_NODE : nat := Eval vm_compute in 256.

Inductive ExecNodeKind := Op | DecisionBoundary.
#[global] Instance ExecNodeKind_eq_dec : EqDecision ExecNodeKind.
Proof. solve_decision. Defined.

Record ExecNode := mkNode { en_id : string; en_kind : ExecNodeKind; en_weight : N; en_deps : list string }.

Inductive ExecDagError :=
| EmptyNodeId
| DuplicateNodeId (id : string)
| MissingDependency (node dep : string)
| SelfDependency (node : string)
| CycleDetected (remaining : list string)
| TooManyNodes (count : nat)
| TooManyDependencies (node : string)
| DecisionBoundaryUncovered (node_id : string)
| InvalidPolicy (error : DecisionError)
| EmptyDependency (node : string).

Inductive Stop := Failed (e : ExecDagError) | Panicked.
Notation dag_result := (result Stop).

(** [id.trim().is_empty()]. *)
Definition blank (s : string) : bool := all_whitespace (string_bytes s).

Definition check_new_dep (id dep : string) : result ExecDagError () :=
  reject? blank dep with EmptyDependency id in
  reject? String.eqb dep id with SelfDependency id in
  Ok ().

Definition ExecNode_new (id : string) (kind : ExecNodeKind) (weight : N) (deps : list string) : result ExecDagError ExecNode :=
  reject? blank id with EmptyNodeId in
  let? _ := for_each (check_new_dep id) deps in
  Ok (mkNode id kind weight deps).

Record ExecDag := mkDag { nodes : list ExecNode }.

(** * Topological order *)

(** [children.entry(dep).or_default().push(id)]. *)
Definition add_child (id : string) (children : gmap string (list string)) (dep : string) : gmap string (list string) :=
  <[dep := default [] (children !! dep) ++ [id]]> children.

Definition add_node (maps : gmap string nat * gmap string (list string)) (n : ExecNode)
  : gmap string nat * gmap string (list string) :=
  let '(remaining, children) := maps in
  (<[en_id n := length (en_deps n)]> remaining,
   foldl (add_child (en_id n)) (<[en_id n := default [] (children !! en_id n)]> children) (en_deps n)).

Definition adjacency (ns : list ExecNode) : gmap string nat * gmap string (list string) := foldl add_node (∅, ∅) ns.

(** The ids counted zero; every id is a key of the map. *)
Definition initially_ready (ns : list ExecNode) (remaining : gmap string nat) : list string :=
  bset_of_list (filter (fun id => remaining !! id = Some 0) (en_id <$> ns)).

(** [for child in &children[next]]. *)
Fixpoint release (cs : list string) (remaining : gmap string nat) (ready : list string)
  : dag_result (gmap string nat * list string) :=
  match cs with
  | [] => Ok (remaining, ready)
  | c :: rest =>
      match remaining !! c with
      | Some (S count) =>
          release rest (<[c := count]> remaining) (if count =? 0 then snd (bset_insert c ready) else ready)
      | _ => Err Panicked
      end
  end.

Fixpoint topo_loop (fuel : nat) (children : gmap string (list string)) (remaining : gmap string nat)
  (ready order : list string) : dag_result (list string) :=
  match ready, fuel with
  | [], _ => Ok order
  | _ :: _, O => Err Panicked
  | next :: ready', S fuel' =>
      let? cs := ok_or (children !! next) Panicked in
      let? (remaining', ready'') := release cs remaining ready' in
      topo_loop fuel' children remaining' ready'' (order ++ [next])
  end.

Definition topo_order (d : ExecDag) : dag_result (list string) :=
  let '(remaining, children) := adjacency (nodes d) in
  let? order := topo_loop (length (nodes d)) children remaining (initially_ready (nodes d) remaining) [] in
  if length order =? length (nodes d) then Ok order
  else Err (Failed (CycleDetected (filter (fun id => id ∉ order) (en_id <$> nodes d)))).

(** * Validation *)

Definition check_dep (all : list ExecNode) (seen : gset string) (node dep : string) : result ExecDagError () :=
  reject? negb (bool_decide (dep ∈ seen)) && negb (existsb (fun n => String.eqb (en_id n) dep) all)
    with MissingDependency node dep in
  reject? String.eqb dep node with SelfDependency node in
  Ok ().

Fixpoint check_nodes (all ns : list ExecNode) (seen : gset string) : result ExecDagError () :=
  match ns with
  | [] => Ok ()
  | n :: rest =>
      reject? blank (en_id n) with EmptyNodeId in
      reject? bool_decide (en_id n ∈ seen) with DuplicateNodeId (en_id n) in
      let seen := {[en_id n]} ∪ seen in
      reject? MAX_EXEC_DAG_DEPENDENCIES_PER_NODE <? length (en_deps n) with TooManyDependencies (en_id n) in
      let? _ := for_each (check_dep all seen (en_id n)) (en_deps n) in
      check_nodes all rest seen
  end.

Definition failing {A} (r : result ExecDagError A) : dag_result A :=
  match r with Ok a => Ok a | Err e => Err (Failed e) end.

Definition validate (d : ExecDag) : dag_result () :=
  reject? MAX_EXEC_DAG_NODES <? length (nodes d) with Failed (TooManyNodes (length (nodes d))) in
  let? _ := failing (check_nodes (nodes d) (nodes d) ∅) in
  let? _ := topo_order d in
  Ok ().

(** * Layers *)

Fixpoint release_layer (layer : list string) (children : gmap string (list string)) (remaining : gmap string nat)
  (next : list string) : dag_result (gmap string nat * list string) :=
  match layer with
  | [] => Ok (remaining, next)
  | id :: rest =>
      let? cs := ok_or (children !! id) Panicked in
      let? (remaining', next') := release cs remaining next in
      release_layer rest children remaining' next'
  end.

Fixpoint layers_loop (fuel : nat) (children : gmap string (list string)) (remaining : gmap string nat)
  (frontier : list string) (done : list (list string)) : dag_result (list (list string)) :=
  match frontier, fuel with
  | [], _ => Ok done
  | _ :: _, O => Err Panicked
  | _ :: _, S fuel' =>
      let? (remaining', next) := release_layer frontier children remaining [] in
      layers_loop fuel' children remaining' next (done ++ [frontier])
  end.

Definition layers (d : ExecDag) : dag_result (list (list string)) :=
  let? _ := validate d in
  let '(remaining, children) := adjacency (nodes d) in
  layers_loop (length (nodes d)) children remaining (initially_ready (nodes d) remaining) [].

(** * Critical path *)

(** [self.nodes[index[id]]]: the map keeps the last node of an id. *)
Definition node_of (ns : list ExecNode) (id : string) : dag_result ExecNode :=
  ok_or (find (fun n => String.eqb (en_id n) id) (reverse ns)) Panicked.

Definition better (dep_dist : N) (dep : string) (best : N) (best_dep : option string) : bool :=
  (best <? dep_dist)%N ||
  ((dep_dist =? best)%N && match best_dep with None => true | Some bd => ltb dep bd end).

Fixpoint best_dep_loop (deps : list string) (dist : gmap string N) (best : N) (best_dep : option string)
  : dag_result (N * option string) :=
  match deps with
  | [] => Ok (best, best_dep)
  | dep :: rest =>
      let? dep_dist := ok_or (dist !! dep) Panicked in
      if better dep_dist dep best best_dep then best_dep_loop rest dist dep_dist (Some dep)
      else best_dep_loop rest dist best best_dep
  end.

(** The weights are added with overflow checks, as in a debug build. *)
Fixpoint dist_loop (ns : list ExecNode) (topo : list string) (dist : gmap string N) (prev : gmap string string)
  : dag_result (gmap string N * gmap string string) :=
  match topo with
  | [] => Ok (dist, prev)
  | id :: rest =>
      let? n := node_of ns id in
      let? (best, best_dep) := best_dep_loop (en_deps n) dist 0%N None in
      reject? (U64_MAX <? best + en_weight n)%N with Panicked in
      dist_loop ns rest (<[id := (best + en_weight n)%N]> dist)
        (match best_dep with Some dep => <[id := dep]> prev | None => prev end)
  end.

Fixpoint end_loop (topo : list string) (dist : gmap string N) (last : string) : dag_result string :=
  match topo with
  | [] => Ok last
  | id :: rest =>
      let? dist_id := ok_or (dist !! id) Panicked in
      let? dist_last := ok_or (dist !! last) Panicked in
      end_loop rest dist (if (dist_last <? dist_id)%N || ((dist_id =? dist_last)%N && ltb id last) then id else last)
  end.

(** The path from its end, prepended to as the source pushes before it
    reverses. *)
Fixpoint path_loop (fuel : nat) (prev : gmap string string) (path : list string) : dag_result (list string) :=
  match path with
  | [] => Err Panicked
  | last :: _ =>
      match prev !! last, fuel with
      | None, _ => Ok path
      | Some _, O => Err Panicked
      | Some p, S fuel' => path_loop fuel' prev (p :: path)
      end
  end.

Definition critical_path (d : ExecDag) : dag_result (list string) :=
  let? topo := topo_order d in
  match topo with
  | [] => Ok []
  | first :: _ =>
      let? (dist, prev) := dist_loop (nodes d) topo ∅ ∅ in
      let? last := end_loop topo dist first in
      path_loop (length topo) prev [last]
  end.

(** * Decision boundaries *)

Definition is_boundary (n : ExecNode) : bool := bool_decide (en_kind n = DecisionBoundary).
Definition requires_policy (d : ExecDag) : bool := existsb is_boundary (nodes d).

(** [order.iter().position(..)], where [None] is the least key. *)
Fixpoint position (order : list string) (id : string) : option nat :=
  match order with
  | [] => None
  | o :: rest => if String.eqb o id then Some 0 else S <$> position rest id
  end.
Definition position_lt (a b : option nat) : bool :=
  match a, b with None, Some _ => true | Some i, Some j => i <? j | _, None => false end.

(** [min_by_key]: of equal keys the first. *)
Definition min_by_position (order : list string) (ids : list string) : option string :=
  match ids with
  | [] => None
  | id :: rest => Some (foldl (fun m x => if position_lt (position order x) (position order m) then x else m) id rest)
  end.

Definition crossing_rule (d : ExecDag) (policy : option ContingentPolicy) : dag_result () :=
  if negb (requires_policy d) then Ok ()
  else
    match policy with
    | None =>
        let? order := topo_order d in
        let? first := ok_or (min_by_position order (en_id <$> List.filter is_boundary (nodes d))) Panicked in
        Err (Failed (DecisionBoundaryUncovered first))
    | Some p => match ContingentPolicy_validate p with Ok _ => Ok () | Err e => Err (Failed (InvalidPolicy e)) end
    end.

(** * Plan digest *)

Section Digest.
Context `{Platform}.

Definition jkind (k : ExecNodeKind) : Value :=
  VString (match k with Op => "Op" | DecisionBoundary => "DecisionBoundary" end).
Definition jnode (n : ExecNode) : Value :=
  Object [("id", VString (en_id n)); ("kind", jkind (en_kind n)); ("weight", jnum (en_weight n)); ("deps", jstrs (en_deps n))].

Definition plan_digest (d : ExecDag) : dag_result string :=
  let? _ := validate d in
  let sorted := sort_by_key en_id (nodes d) in
  Ok (Sha256Digest_to_hex (sha256 (canonical_bytes_of (Array (jnode <$> sorted))))).
End Digest.

(** * Theorems

    Plan graphs: the topological order is the one that always takes the least
    ready node, so it does not depend on the order of the nodes, and it exists
    exactly for acyclic plans; layers collect what is ready together; the
    critical path is a heaviest chain of dependencies. *)

(** * Occurrences *)

Definition occ (x : string) (l : list string) : nat := length (filter (fun y => y = x) l).
Definition missing (done deps : list string) : nat := length (filter (fun d => d ∉ done) deps).

Lemma occ_cons x y l : occ x (y :: l) = (if decide (y = x) then 1 else 0) + occ x l.
Proof. unfold occ. rewrite filter_cons. by case_decide. Qed.
Lemma occ_app x l k : occ x (l ++ k) = occ x l + occ x k.
Proof. unfold occ. by rewrite filter_app, length_app. Qed.
Lemma occ_pos x l : x ∈ l <-> 0 < occ x l.
Proof.
  induction l as [|y l IH]; [cbn; rewrite elem_of_nil; lia|]. rewrite occ_cons, elem_of_cons, IH.
  case_decide as Hd; subst; [split; [lia|by left]|]. cbn. split; [intros [->|]; done|by right].
Qed.
Lemma occ_0 x l : x ∉ l -> occ x l = 0.
Proof. rewrite occ_pos. lia. Qed.
Lemma occ_replicate x y n : occ x (replicate n y) = if decide (y = x) then n else 0.
Proof. induction n as [|n IH]; cbn [replicate]; [by case_decide|]. rewrite occ_cons, IH. case_decide; lia. Qed.

Lemma missing_cons done d deps : missing done (d :: deps) = (if decide (d ∈ done) then 0 else 1) + missing done deps.
Proof. unfold missing. rewrite filter_cons. repeat case_decide; cbn; tauto || lia. Qed.
Lemma missing_0 done deps : missing done deps = 0 <-> forall d, d ∈ deps -> d ∈ done.
Proof.
  induction deps as [|d deps IH]; [split; [set_solver|done]|]. rewrite missing_cons. case_decide as Hd.
  - cbn. rewrite IH. set_solver.
  - split; [lia|intros Ha]. exfalso. apply Hd, Ha. by left.
Qed.
Lemma missing_step done x deps : x ∉ done -> missing (done ++ [x]) deps + occ x deps = missing done deps.
Proof.
  intros Hx. induction deps as [|d deps IH]; [done|]. rewrite !missing_cons, occ_cons, <- IH.
  case_decide as Hd; case_decide as Hd'; case_decide as He; subst; try lia; set_solver.
Qed.
Lemma missing_nil deps : missing [] deps = length deps.
Proof. induction deps as [|d deps IH]; [done|]. rewrite missing_cons, IH. case_decide; [set_solver|done]. Qed.

(** * Adjacency *)

(** The dependents of [x], once per listed dependency. *)
Definition kids (ns : list ExecNode) (x : string) : list string :=
  concat ((fun n => replicate (occ x (en_deps n)) (en_id n)) <$> ns).

Lemma kids_app ns ms x : kids (ns ++ ms) x = kids ns x ++ kids ms x.
Proof. unfold kids. by rewrite fmap_app, concat_app. Qed.

Lemma add_child_fold node deps : forall ch x,
  default [] (foldl (add_child node) ch deps !! x) = default [] (ch !! x) ++ replicate (occ x deps) node /\
  (is_Some (ch !! x) -> is_Some (foldl (add_child node) ch deps !! x)).
Proof.
  induction deps as [|d deps IH]; intros ch x; [by rewrite app_nil_r|]. cbn [foldl].
  destruct (IH (add_child node ch d) x) as [-> Hs]. rewrite occ_cons. unfold add_child in *. case_decide as Hd; subst.
  - rewrite !lookup_insert_eq in *. split; [|intros _; apply Hs; by eexists].
    cbn [from_option]. unfold id. by rewrite <- app_assoc.
  - rewrite !lookup_insert_ne in * by done. split; [done|]. done.
Qed.

Lemma adjacency_snoc ns n : adjacency (ns ++ [n]) = add_node (adjacency ns) n.
Proof. unfold adjacency. by rewrite foldl_app. Qed.

Lemma adjacency_children ns x :
  default [] (snd (adjacency ns) !! x) = kids ns x /\ (x ∈ en_id <$> ns -> is_Some (snd (adjacency ns) !! x)).
Proof.
  induction ns as [|n ns [IH1 IH2]] using rev_ind; [split; [done|set_solver]|].
  rewrite adjacency_snoc, kids_app. destruct (adjacency ns) as [rem ch]. cbn [add_node snd] in *.
  destruct (add_child_fold (en_id n) (en_deps n) (<[en_id n := default [] (ch !! en_id n)]> ch) x) as [-> Hs].
  assert (Hd : default [] (<[en_id n := default [] (ch !! en_id n)]> ch !! x) = default [] (ch !! x)).
  { destruct (decide (x = en_id n)) as [->|]; [by rewrite lookup_insert_eq|by rewrite lookup_insert_ne]. }
  rewrite Hd, IH1. split; [unfold kids at 3; cbn; by rewrite app_nil_r|].
  rewrite fmap_app, elem_of_app. intros Hx. apply Hs. destruct (decide (x = en_id n)) as [->|Hne]; [rewrite lookup_insert_eq; by eexists|].
  rewrite lookup_insert_ne by done. apply IH2. destruct Hx as [|Hx]; [done|]. set_solver.
Qed.

Lemma adjacency_remaining ns : NoDup (en_id <$> ns) -> forall n, n ∈ ns ->
  fst (adjacency ns) !! en_id n = Some (length (en_deps n)).
Proof.
  induction ns as [|m ns IH] using rev_ind; intros Hnd n Hn; [set_solver|].
  rewrite adjacency_snoc. destruct (adjacency ns) as [rem ch] eqn:Ha. cbn [add_node fst] in *.
  rewrite fmap_app in Hnd. apply NoDup_app in Hnd as (Hnd & Hdis & _).
  apply elem_of_app in Hn as [Hn|Hn%list_elem_of_singleton]; [|subst; by rewrite lookup_insert_eq].
  rewrite lookup_insert_ne; [by apply IH|]. intros He. apply (Hdis (en_id n)); [by apply list_elem_of_fmap_2|].
  rewrite <- He. cbn. by left.
Qed.

Lemma occ_kids ns x n : NoDup (en_id <$> ns) -> n ∈ ns -> occ (en_id n) (kids ns x) = occ x (en_deps n).
Proof.
  induction ns as [|m ns IH]; intros Hnd Hn; [set_solver|]. change (m :: ns) with ([m] ++ ns). rewrite kids_app, occ_app.
  unfold kids at 1. cbn [fmap list_fmap concat]. rewrite app_nil_r, occ_replicate.
  cbn in Hnd. apply NoDup_cons in Hnd as [Hm Hnd]. apply elem_of_cons in Hn as [->|Hn].
  - rewrite decide_True by done. rewrite (occ_0 (en_id m) (kids ns x)); [lia|].
    unfold kids. intros Hk. apply list_elem_of_In, in_concat in Hk as (l & Hl & Hk).
    apply list_elem_of_In, list_elem_of_fmap in Hl as (n & -> & Hn). apply list_elem_of_In, elem_of_replicate in Hk as [Hk _].
    apply Hm. rewrite Hk. by apply list_elem_of_fmap_2.
  - rewrite decide_False; [by apply IH|]. intros He. apply Hm. rewrite He. by apply list_elem_of_fmap_2.
Qed.

Lemma elem_of_kids ns x c : c ∈ kids ns x <-> exists n, n ∈ ns /\ en_id n = c /\ x ∈ en_deps n.
Proof.
  unfold kids. rewrite list_elem_of_In, in_concat. split.
  - intros (l & Hl & Hc). apply list_elem_of_In, list_elem_of_fmap in Hl as (n & -> & Hn).
    apply list_elem_of_In, elem_of_replicate in Hc as [-> Ho]. exists n. split_and!; [done..|]. apply occ_pos. lia.
  - intros (n & Hn & <- & Hx). exists (replicate (occ x (en_deps n)) (en_id n)). split.
    + apply list_elem_of_In, list_elem_of_fmap. by exists n.
    + apply list_elem_of_In, elem_of_replicate. apply occ_pos in Hx. split; [done|lia].
Qed.

(** * Releasing the dependents of a node *)

Lemma release_spec cs : forall rem nxt,
  (forall c, c ∈ cs -> exists k, rem !! c = Some k /\ occ c cs <= k) -> StronglySorted below nxt ->
  exists rem' nxt', release cs rem nxt = Ok (rem', nxt') /\ (forall c, rem' !! c = (fun k => k - occ c cs) <$> rem !! c) /\
    StronglySorted below nxt' /\ forall c, c ∈ nxt' <-> c ∈ nxt \/ (c ∈ cs /\ rem !! c = Some (occ c cs)).
Proof.
  induction cs as [|c cs IH]; intros rem nxt Hc Hs.
  { exists rem, nxt. split_and!; [done| |done|set_solver]. intros c. destruct (rem !! c); cbn; [f_equal; lia|done]. }
  destruct (Hc c) as (k & Hk & Hle); [by left|]. rewrite occ_cons, decide_True in Hle by done.
  destruct k as [|k]; [lia|]. cbn [release]. rewrite Hk.
  set (nxt1 := if k =? 0 then snd (bset_insert c nxt) else nxt).
  assert (Hn1 : StronglySorted below nxt1 /\ forall y, y ∈ nxt1 <-> y ∈ nxt \/ (y = c /\ k = 0)).
  { unfold nxt1. destruct (bset_insert_spec c nxt Hs) as (Hs' & Hm & _). destruct (Nat.eqb_spec k 0) as [->|]; split; [done| |done|].
    - intros y. rewrite Hm. tauto.
    - intros y. tauto. }
  destruct Hn1 as [Hs1 Hm1]. destruct (IH (<[c := k]> rem) nxt1) as (rem' & nxt' & -> & Hr & Hs' & Hm); [|done|].
  { intros y Hy. destruct (decide (y = c)) as [->|Hyc]; [rewrite lookup_insert_eq; exists k; split; [done|lia]|].
    rewrite lookup_insert_ne by done. destruct (Hc y) as (ky & Hky & Hle'); [by right|]. rewrite occ_cons, decide_False in Hle' by done. eauto. }
  exists rem', nxt'. split_and!; [done| |done|].
  - intros y. rewrite Hr, occ_cons. destruct (decide (c = y)) as [->|Hyc].
    + rewrite lookup_insert_eq, Hk. cbn. done.
    + by rewrite lookup_insert_ne.
  - intros y. rewrite Hm, Hm1, elem_of_cons, occ_cons. destruct (decide (c = y)) as [->|Hyc].
    + rewrite lookup_insert_eq, Hk, !(inj_iff Some). destruct (decide (y ∈ cs)) as [Hy|Hy].
      * apply occ_pos in Hy as Ho. intuition lia.
      * rewrite (occ_0 y cs Hy). intuition lia.
    + rewrite lookup_insert_ne by done. split; [intros [[?|[? _]]|[? ?]]|intros [?|[[->|?] ?]]]; try tauto; subst; done.
Qed.

Section Graph.
Context (ns : list ExecNode).
Notation ids := (en_id <$> ns).

Record well_formed : Prop := {
  wf_ids : NoDup ids;
  wf_deps : forall n d, n ∈ ns -> d ∈ en_deps n -> d ∈ ids }.

(** Not done, with every dependency done. *)
Definition ready_at (done : list string) (id : string) : Prop :=
  (id ∉ done) /\ exists n, n ∈ ns /\ en_id n = id /\ forall d, d ∈ en_deps n -> d ∈ done.

Definition closed (done : list string) : Prop := forall n, n ∈ ns -> en_id n ∈ done -> forall d, d ∈ en_deps n -> d ∈ done.
Definition counts (rem : gmap string nat) (done : list string) : Prop :=
  forall n, n ∈ ns -> rem !! en_id n = Some (missing done (en_deps n)).

Hypothesis (Hwf : well_formed).

Lemma node_unique n m : n ∈ ns -> m ∈ ns -> en_id n = en_id m -> n = m.
Proof.
  intros Hn Hm He. apply list_elem_of_lookup in Hn as (i & Hi), Hm as (j & Hj).
  assert (i = j) as ->; [|congruence]. apply (NoDup_lookup ids i j (en_id n)); [apply Hwf|by rewrite list_lookup_fmap, Hi|].
  by rewrite list_lookup_fmap, Hj, He.
Qed.

Lemma ready_id done id : ready_at done id -> id ∈ ids.
Proof. intros (_ & n & Hn & <- & _). by apply list_elem_of_fmap_2. Qed.

Lemma closed_step done x : closed done -> ready_at done x -> closed (done ++ [x]).
Proof.
  intros Hc (Hx & n & Hn & <- & Hd) m Hm Hin d Hdm. apply elem_of_app.
  apply elem_of_app in Hin as [Hin|Hin%list_elem_of_singleton]; left; [by apply (Hc m)|].
  apply Hd. by rewrite <- (node_unique m n).
Qed.

(** Became ready by [x]. *)
Definition freed (done : list string) (x c : string) : Prop :=
  ready_at (done ++ [x]) c /\ exists n, n ∈ ns /\ en_id n = c /\ x ∈ en_deps n.

Lemma ready_step done x c : ready_at done x ->
  ready_at (done ++ [x]) c <-> (ready_at done c /\ c <> x) \/ freed done x c.
Proof.
  intros Hx. split.
  - intros Hc. pose proof Hc as (Hnin & n & Hn & <- & Hd). apply not_elem_of_app in Hnin as [Hnin Hne].
    destruct (decide (x ∈ en_deps n)) as [Hxd|Hxd]; [right; split; [done|by exists n]|left].
    split; [|intros He; apply Hne; rewrite He; by left]. split; [done|]. exists n. split_and!; [done..|].
    intros d Hdn. specialize (Hd d Hdn). apply elem_of_app in Hd as [|Hd%list_elem_of_singleton]; [done|by subst].
  - intros [[(Hnin & n & Hn & <- & Hd) Hne]|[Hc _]]; [|done]. split.
    + apply not_elem_of_app. split; [done|]. by apply not_elem_of_cons; split; [|apply not_elem_of_nil].
    + exists n. split_and!; [done..|]. intros d Hdn. apply elem_of_app. left. by apply Hd.
Qed.

Lemma freed_not_ready done x c : ready_at done x -> freed done x c -> ~ ready_at done c.
Proof.
  intros [Hx _] [_ (n & Hn & Hc & Hd)] (_ & m & Hm & Hmc & Hdm). apply Hx, Hdm.
  by rewrite (node_unique m n) by congruence.
Qed.

Lemma release_step done x rem nxt : closed done -> counts rem done -> ready_at done x -> StronglySorted below nxt ->
  exists cs rem' nxt', snd (adjacency ns) !! x = Some cs /\ release cs rem nxt = Ok (rem', nxt') /\ counts rem' (done ++ [x]) /\
    StronglySorted below nxt' /\ forall c, c ∈ nxt' <-> c ∈ nxt \/ freed done x c.
Proof.
  intros Hcl Hc Hx Hs. destruct (adjacency_children ns x) as [Hk [cs Hcs]]; [by eapply ready_id|].
  rewrite Hcs in Hk. cbn in Hk. subst cs. destruct (release_spec (kids ns x) rem nxt) as (rem' & nxt' & Hr & Hrem & Hs' & Hm); [|done|].
  { intros c (n & Hn & <- & Hd)%elem_of_kids. rewrite (Hc n Hn). eexists; split; [done|].
    rewrite occ_kids by (done || apply Hwf). rewrite <- (missing_step done x) by apply Hx. lia. }
  exists (kids ns x), rem', nxt'. split_and!; [done|done| |done|].
  - intros n Hn. rewrite Hrem, (Hc n Hn). cbn. rewrite occ_kids by (done || apply Hwf).
    f_equal. rewrite <- (missing_step done x) by apply Hx. lia.
  - intros c. rewrite Hm. apply or_iff_compat_l. rewrite elem_of_kids. split.
    + intros [(n & Hn & <- & Hd) Hz]. rewrite (Hc n Hn), occ_kids in Hz by (done || apply Hwf). injection Hz as Hz.
      rewrite <- (missing_step done x) in Hz by apply Hx. assert (Hm0 : missing (done ++ [x]) (en_deps n) = 0) by lia.
      split; [|by exists n]. split; [|exists n; split_and!; [done..|by apply missing_0]].
      destruct Hx as (Hx & nx & Hnx & Hxe & Hdx). rewrite elem_of_app, list_elem_of_singleton. intros [Hin|Hin].
      * by apply Hx, (Hcl n).
      * apply Hx, Hdx. by rewrite (node_unique nx n) by congruence.
    + intros [(_ & m & Hm' & Hme & Hall) (n & Hn & <- & Hd)]. split; [by exists n|].
      rewrite (Hc n Hn), occ_kids by (done || apply Hwf). f_equal. rewrite <- (missing_step done x) by apply Hx.
      rewrite (node_unique m n) in Hall by congruence. apply missing_0 in Hall. lia.
Qed.

(** * Kahn's loop *)

(** Every entry is the least node that is ready once the earlier ones are
    done. *)
Definition greedy (order : list string) : Prop :=
  forall i id, order !! i = Some id ->
    ready_at (take i order) id /\ forall id', ready_at (take i order) id' -> id' = id \/ below id id'.

Record kahn_inv (rem : gmap string nat) (ready done : list string) : Prop := {
  ki_counts : counts rem done;
  ki_closed : closed done;
  ki_nodup : NoDup done;
  ki_ids : forall id, id ∈ done -> id ∈ ids;
  ki_sorted : StronglySorted below ready;
  ki_ready : forall id, id ∈ ready <-> ready_at done id;
  ki_greedy : greedy done }.

Lemma greedy_snoc done x : greedy done -> ready_at done x -> (forall y, ready_at done y -> y = x \/ below x y) -> greedy (done ++ [x]).
Proof.
  intros Hg Hx Hl i id Hi. destruct (decide (i < length done)) as [Hlt|Hge].
  - rewrite lookup_app_l in Hi by done. rewrite take_app_le by lia. by apply Hg.
  - rewrite lookup_app_r in Hi by lia. destruct (i - length done) as [|k] eqn:Hk; [|done]. injection Hi as <-.
    replace i with (length done) by lia. rewrite take_app_length. done.
Qed.

Lemma sorted_head_least x (l : list string) y : StronglySorted below (x :: l) -> y ∈ x :: l -> y = x \/ below x y.
Proof.
  intros Hs Hy. apply StronglySorted_inv in Hs as [_ Hx]. apply elem_of_cons in Hy as [->|Hy]; [by left|right].
  rewrite list.Forall_forall in Hx. by apply Hx.
Qed.

Lemma kahn_init : kahn_inv (fst (adjacency ns)) (initially_ready ns (fst (adjacency ns))) [].
Proof.
  split.
  - intros n Hn. rewrite adjacency_remaining, missing_nil by (done || apply Hwf). done.
  - intros n _ Hn. set_solver.
  - constructor.
  - set_solver.
  - apply bset_of_list_spec.
  - intros id. unfold initially_ready. rewrite elem_of_bset_of_list, list_elem_of_filter, list_elem_of_fmap. split.
    + intros [Hz (n & -> & Hn)]. rewrite adjacency_remaining in Hz by (done || apply Hwf). injection Hz as Hz.
      split; [set_solver|]. exists n. split_and!; [done..|]. apply nil_length_inv in Hz. rewrite Hz. set_solver.
    + intros (_ & n & Hn & <- & Hd). split; [|by exists n]. rewrite adjacency_remaining by (done || apply Hwf).
      destruct (en_deps n) as [|d l]; [done|]. exfalso. apply (not_elem_of_nil d), Hd. by left.
  - intros i id. by rewrite lookup_nil.
Qed.

Lemma done_bound rem x ready done : kahn_inv rem (x :: ready) done -> length done < length ns.
Proof.
  intros Hk. assert (Hx : ready_at done x) by (apply (ki_ready _ _ _ Hk); by left).
  assert (Hnd : NoDup (x :: done)) by (constructor; [apply Hx|apply Hk]).
  assert (Hsub : x :: done ⊆+ ids).
  { apply NoDup_submseteq; [done|]. intros y Hy. apply elem_of_cons in Hy as [->|Hy]; [by eapply ready_id|by eapply ki_ids]. }
  apply submseteq_length in Hsub. rewrite length_fmap in Hsub. cbn in Hsub. lia.
Qed.

Lemma ready_kahn_step rem x ready done : kahn_inv rem (x :: ready) done ->
  exists cs rem' ready', snd (adjacency ns) !! x = Some cs /\ release cs rem ready = Ok (rem', ready') /\ kahn_inv rem' ready' (done ++ [x]).
Proof.
  intros Hk. assert (Hx : ready_at done x) by (apply (ki_ready _ _ _ Hk); by left).
  pose proof (ki_sorted _ _ _ Hk) as Hsx. apply StronglySorted_inv in Hsx as [Hs Hall].
  destruct (release_step done x rem ready) as (cs & rem' & ready' & Hcs & Hr & Hc & Hs' & Hm); [apply Hk|apply Hk|done|done|].
  exists cs, rem', ready'. split_and!; [done..|]. split.
  - done.
  - apply closed_step; [apply Hk|done].
  - apply NoDup_app. split_and!; [apply Hk| |apply NoDup_singleton]. intros y Hy Hyx%list_elem_of_singleton. subst y. by apply Hx.
  - intros y Hy. apply elem_of_app in Hy as [Hy|Hy%list_elem_of_singleton]; [by eapply ki_ids|subst y; by eapply ready_id].
  - done.
  - intros c. rewrite Hm, ready_step, <- (ki_ready _ _ _ Hk), elem_of_cons by done. split; [|naive_solver].
    intros [Hc'|]; [|by right]. left. split; [by right|]. intros ->. rewrite list.Forall_forall in Hall. by apply (cmp_lt_irrefl x), Hall.
  - apply greedy_snoc; [apply Hk|done|]. intros y Hy. apply (ki_ready _ _ _ Hk) in Hy.
    eapply sorted_head_least; [apply Hk|done].
Qed.

Lemma topo_loop_spec fuel : forall rem ready done, kahn_inv rem ready done -> length ns <= fuel + length done ->
  exists rem' order, topo_loop fuel (snd (adjacency ns)) rem ready done = Ok order /\ kahn_inv rem' [] order.
Proof.
  induction fuel as [|fuel IH]; intros rem ready done Hk Hf; destruct ready as [|x ready]; [by exists rem, done| |by exists rem, done|].
  - apply done_bound in Hk. cbn in Hf. lia.
  - destruct (ready_kahn_step _ _ _ _ Hk) as (cs & rem' & ready' & Hcs & Hr & Hk'). cbn [topo_loop]. rewrite Hcs. cbn [ok_or mbind result_bind].
    rewrite Hr. cbn [mbind result_bind]. apply IH; [done|]. rewrite length_app. cbn. lia.
Qed.

(** Nothing is ready any more. *)
Definition exhausted (order : list string) : Prop := forall id, ~ ready_at order id.

Lemma topo_order_run : exists order, NoDup order /\ (forall id, id ∈ order -> id ∈ ids) /\ greedy order /\ exhausted order /\ closed order /\
  topo_order (mkDag ns) = if length order =? length ns then Ok order
    else Err (Failed (CycleDetected (filter (fun id => id ∉ order) ids))).
Proof.
  destruct (topo_loop_spec (length ns) _ _ [] kahn_init) as (rem & order & Hr & Hk); [lia|].
  exists order. split_and!; [apply Hk|apply Hk|apply Hk| |apply Hk|].
  - intros id Hid. apply (ki_ready _ _ _ Hk) in Hid. set_solver.
  - unfold topo_order. cbn [nodes]. destruct (adjacency ns) as [r c]. cbn [fst snd] in Hr. rewrite Hr. done.
Qed.

Lemma greedy_unique o o' : greedy o -> exhausted o -> greedy o' -> exhausted o' -> o = o'.
Proof.
  intros Hg He Hg' He'. assert (Hp : forall i, take i o = take i o').
  { induction i as [|i IH]; [done|].
    destruct (o !! i) as [a|] eqn:Ha, (o' !! i) as [b|] eqn:Hb.
    - rewrite (take_S_r o i a), (take_S_r o' i b), IH by done. f_equal.
      destruct (Hg _ _ Ha) as [Hra Hla], (Hg' _ _ Hb) as [Hrb Hlb]. rewrite <- IH in Hrb, Hlb.
      destruct (Hla _ Hrb) as [->|H1]; [done|]. destruct (Hlb _ Hra) as [->|H2]; [done|].
      exfalso. apply (cmp_lt_irrefl a). by eapply cmp_trans.
    - destruct (Hg _ _ Ha) as [Hra _]. exfalso. apply (He' a). rewrite IH, take_ge in Hra; [done|by apply lookup_ge_None].
    - destruct (Hg' _ _ Hb) as [Hrb _]. exfalso. apply (He b). rewrite <- IH, take_ge in Hrb; [done|by apply lookup_ge_None].
    - apply lookup_ge_None in Ha, Hb. by rewrite !take_ge in IH |- * by lia. }
  specialize (Hp (length o + length o')). by rewrite !take_ge in Hp by lia.
Qed.

(** * Orders of a plan *)

Definition respects (l : list string) : Prop :=
  forall i n, n ∈ ns -> l !! i = Some (en_id n) -> forall d, d ∈ en_deps n -> d ∈ take i l.
Definition plan_order (l : list string) : Prop := l ≡ₚ ids /\ respects l.

Lemma greedy_respects order : greedy order -> respects order.
Proof.
  intros Hg i n Hn Hi d Hd. destruct (Hg _ _ Hi) as [(_ & m & Hm & He & Hall) _].
  apply Hall. by rewrite (node_unique m n).
Qed.

Lemma stuck_dep order id : exhausted order -> id ∈ ids -> id ∉ order ->
  exists n d, n ∈ ns /\ en_id n = id /\ d ∈ en_deps n /\ d ∉ order.
Proof.
  intros He (n & -> & Hn)%list_elem_of_fmap Hno. exists n.
  destruct (decide (Forall (fun d => d ∈ order) (en_deps n))) as [Hall|Hex].
  - exfalso. apply (He (en_id n)). split; [done|]. exists n. split_and!; [done..|]. by apply list.Forall_forall.
  - apply not_Forall_Exists in Hex; [|apply _]. apply list.Exists_exists in Hex as (d & Hd & Hno'). by exists d.
Qed.

Lemma complete_order order : NoDup order -> (forall id, id ∈ order -> id ∈ ids) ->
  length order = length ns <-> forall id, id ∈ ids -> id ∈ order.
Proof.
  intros Hnd Hin. assert (Hsub : order ⊆+ ids) by (by apply NoDup_submseteq). split.
  - intros Hl id Hid. rewrite (submseteq_length_Permutation order ids Hsub); [done|]. rewrite length_fmap. lia.
  - intros Hall. apply Nat.le_antisymm; apply submseteq_length in Hsub; [by rewrite length_fmap in Hsub|].
    assert (Hsub' : ids ⊆+ order) by (apply NoDup_submseteq; [apply Hwf|done]). apply submseteq_length in Hsub'. by rewrite length_fmap in Hsub'.
Qed.

Lemma full_order order : NoDup order -> (forall id, id ∈ order -> id ∈ ids) -> length order = length ns -> order ≡ₚ ids.
Proof. intros Hnd Hin Hl. apply submseteq_length_Permutation; [by apply NoDup_submseteq|]. rewrite length_fmap. lia. Qed.

Lemma acyclic_complete l order : plan_order l -> exhausted order -> forall id, id ∈ ids -> id ∈ order.
Proof.
  intros [Hp Hr] He id Hid. rewrite <- Hp in Hid. apply list_elem_of_lookup in Hid as (i & Hi).
  revert id Hi. induction i as [i IH] using lt_wf_ind. intros id Hi.
  destruct (decide (id ∈ order)) as [|Hno]; [done|]. destruct (stuck_dep order id) as (n & d & Hn & <- & Hd & Hdno); [done| |done|].
  { rewrite <- Hp. by eapply list_elem_of_lookup_2. }
  exfalso. apply Hdno. pose proof (Hr i n Hn Hi d Hd) as Hdi. apply list_elem_of_lookup in Hdi as (j & Hj).
  apply lookup_take_Some in Hj as [Hj Hlt]. by apply (IH j).
Qed.

Lemma topo_order_Ok order : topo_order (mkDag ns) = Ok order -> plan_order order /\ greedy order /\ exhausted order /\ NoDup order.
Proof.
  destruct topo_order_run as (o & Hnd & Hin & Hg & He & _ & ->). destruct (Nat.eqb_spec (length o) (length ns)) as [Hl|]; [|done].
  intros [= <-]. split_and!; [|done..]. split; [by apply full_order|by apply greedy_respects].
Qed.

Lemma topo_order_exists l : plan_order l -> exists order, topo_order (mkDag ns) = Ok order.
Proof.
  intros Hl. destruct topo_order_run as (o & Hnd & Hin & Hg & He & _ & ->). exists o.
  rewrite (proj2 (Nat.eqb_eq _ _)); [done|]. apply complete_order; [done..|]. by apply (acyclic_complete l).
Qed.

Lemma topo_order_Err e : topo_order (mkDag ns) = Err e -> exists stuck, e = Failed (CycleDetected stuck) /\ stuck <> [] /\
  (forall id, id ∈ stuck -> exists n d, n ∈ ns /\ en_id n = id /\ d ∈ en_deps n /\ d ∈ stuck) /\ forall l, ~ plan_order l.
Proof.
  intros Ht. pose proof Ht as Hrun. destruct topo_order_run as (o & Hnd & Hin & Hg & He & _ & Hrun'). rewrite Hrun' in Hrun.
  destruct (Nat.eqb_spec (length o) (length ns)) as [|Hl]; [done|]. injection Hrun as <-. eexists. split; [done|]. split_and!.
  - intros Hf. apply Hl, complete_order; [done..|]. intros id Hid. destruct (decide (id ∈ o)) as [|Hno]; [done|].
    exfalso. apply (not_elem_of_nil id). rewrite <- Hf. by apply list_elem_of_filter.
  - intros id [Hno Hid]%list_elem_of_filter. destruct (stuck_dep o id) as (n & d & Hn & Hni & Hd & Hdo); [done..|].
    exists n, d. split_and!; [done..|]. apply list_elem_of_filter. split; [done|]. by eapply wf_deps.
  - intros l Hlo. destruct (topo_order_exists l Hlo) as (o' & Ho'). congruence.
Qed.
End Graph.

Lemma ready_at_ext ns ns' done id : ns ≡ₚ ns' -> ready_at ns done id <-> ready_at ns' done id.
Proof. intros Hp. unfold ready_at. by setoid_rewrite Hp. Qed.

Lemma greedy_ext ns ns' order : ns ≡ₚ ns' -> greedy ns order -> greedy ns' order.
Proof.
  intros Hp Hg i id Hi. destruct (Hg i id Hi) as [Hr Hl]. split; [by apply (ready_at_ext ns ns')|].
  intros id' Hr'. apply Hl. by apply (ready_at_ext ns ns').
Qed.

Lemma well_formed_ext ns ns' : ns ≡ₚ ns' -> well_formed ns -> well_formed ns'.
Proof. intros Hp [H1 H2]. split; [by rewrite <- Hp|]. intros n d. rewrite <- !Hp. apply H2. Qed.

Lemma plan_order_ext ns ns' l : ns ≡ₚ ns' -> plan_order ns l -> plan_order ns' l.
Proof. intros Hp [H1 H2]. split; [by rewrite <- Hp|]. intros i n. rewrite <- Hp. apply H2. Qed.

Lemma topo_order_perm ns ns' order : well_formed ns -> ns ≡ₚ ns' ->
  topo_order (mkDag ns) = Ok order -> topo_order (mkDag ns') = Ok order.
Proof.
  intros Hwf Hp Ho. pose proof (well_formed_ext _ _ Hp Hwf) as Hwf'. apply topo_order_Ok in Ho as (Hpo & Hg & He & _); [|done].
  destruct (topo_order_exists ns' Hwf' order) as (o' & Ho'); [by apply (plan_order_ext ns)|].
  rewrite Ho'. f_equal. apply topo_order_Ok in Ho' as (_ & Hg' & He' & _); [|done].
  symmetry. apply (greedy_unique ns'); [by apply (greedy_ext ns)| |done|done]. intros id Hr. apply (He id). by apply (ready_at_ext ns ns').
Qed.

(** C25: An order exists exactly when the dependencies can be ordered at all;
    it lists every node once, behind its dependencies, and always takes the
    least ready node, so it does not depend on how the nodes are listed;
    otherwise the error lists nodes each of which waits for another of them,
    and nothing panics. *)
Theorem topo_order_exact (d : ExecDag) : well_formed (nodes d) ->
  match topo_order d with
  | Ok order => plan_order (nodes d) order /\ greedy (nodes d) order /\
      forall d', nodes d ≡ₚ nodes d' -> topo_order d' = Ok order
  | Err e => exists stuck, e = Failed (CycleDetected stuck) /\ stuck <> [] /\
      (forall id, id ∈ stuck -> exists n dep, n ∈ nodes d /\ en_id n = id /\ dep ∈ en_deps n /\ dep ∈ stuck) /\
      forall l, ~ plan_order (nodes d) l
  end.
Proof.
  destruct d as [ns]. cbn [nodes]. intros Hwf. destruct (topo_order (mkDag ns)) as [order|e] eqn:Ho.
  - pose proof Ho as (Hp & Hg & _)%topo_order_Ok; [|done]. split_and!; [done..|]. intros [ns'] Hp'. by apply (topo_order_perm ns).
  - by apply topo_order_Err.
Qed.

(** * Validation *)

(** What a plan must satisfy beyond being orderable. *)
Record structured (ns : list ExecNode) : Prop := {
  st_count : length ns <= MAX_EXEC_DAG_NODES;
  st_wf : well_formed ns;
  st_node : forall n, n ∈ ns -> blank (en_id n) = false /\ length (en_deps n) <= MAX_EXEC_DAG_DEPENDENCIES_PER_NODE /\ en_id n ∉ en_deps n }.

Lemma check_dep_Ok all seen node dep : (forall id, id ∈ seen -> id ∈ en_id <$> all) ->
  check_dep all seen node dep = Ok () <-> dep ∈ en_id <$> all /\ dep <> node.
Proof.
  intros Hs. unfold check_dep.
  assert (Hex : existsb (fun n => String.eqb (en_id n) dep) all = true <-> dep ∈ en_id <$> all).
  { rewrite existsb_exists, list_elem_of_fmap. setoid_rewrite String.eqb_eq. setoid_rewrite <- list_elem_of_In. naive_solver. }
  destruct (existsb _ all) eqn:He.
  - rewrite andb_false_r. destruct (String.eqb_spec dep node) as [->|Hne]; split; try done.
    + intros [_ ?]. done.
    + intros _. split; [by apply Hex|done].
  - case_bool_decide as Hb; cbn; [exfalso; apply Hs, Hex in Hb; done|]. split; [done|]. intros [Hin%Hex _]. done.
Qed.

Lemma check_nodes_Ok all ns : forall seen, (forall id, id ∈ seen -> id ∈ en_id <$> all) -> (forall n, n ∈ ns -> n ∈ all) ->
  check_nodes all ns seen = Ok () <->
  NoDup (en_id <$> ns) /\ (forall n, n ∈ ns -> blank (en_id n) = false /\ (en_id n ∉ seen) /\
    length (en_deps n) <= MAX_EXEC_DAG_DEPENDENCIES_PER_NODE /\ forall d, d ∈ en_deps n -> d ∈ en_id <$> all /\ d <> en_id n).
Proof.
  induction ns as [|n ns IH]; intros seen Hs Hall; [split; [split; [constructor|set_solver]|done]|].
  cbn [check_nodes fmap list_fmap]. rewrite NoDup_cons.
  assert (Hs' : forall id, id ∈ ({[en_id n]} ∪ seen : gset string) -> id ∈ en_id <$> all).
  { intros id [->%elem_of_singleton|]%elem_of_union; [apply list_elem_of_fmap_2, Hall; by left|by apply Hs]. }
  destruct (blank (en_id n)) eqn:Hb. { split; [done|]. intros [_ Hn]. destruct (Hn n) as [? _]; [by left|congruence]. }
  case_bool_decide as Hin. { split; [done|]. intros [_ Hn]. destruct (Hn n) as (_ & ? & _); [by left|done]. }
  destruct (Nat.ltb_spec MAX_EXEC_DAG_DEPENDENCIES_PER_NODE (length (en_deps n))) as [Hlt|Hle].
  { split; [done|]. intros [_ Hn]. destruct (Hn n) as (_ & _ & ? & _); [by left|]. exfalso. by apply (Nat.lt_irrefl MAX_EXEC_DAG_DEPENDENCIES_PER_NODE), (Nat.lt_le_trans _ _ _ Hlt). }
  specialize (IH _ Hs' ltac:(set_solver)).
  assert (Hd : for_each (check_dep all ({[en_id n]} ∪ seen) (en_id n)) (en_deps n) = Ok () <->
    forall d, d ∈ en_deps n -> d ∈ en_id <$> all /\ d <> en_id n).
  { rewrite for_each_Ok. split; intros Hx d Hd; [by apply (check_dep_Ok all _ _ _ Hs'), Hx|by apply (check_dep_Ok all _ _ _ Hs'), Hx]. }
  split.
  - intros Hr. apply bind_Ok_inv in Hr as ([] & Hr1 & Hr2). apply IH in Hr2 as [Hnd Hns]. split; [split; [|done]|].
    + intros Hx. apply list_elem_of_fmap in Hx as (m & He & Hm). destruct (Hns m Hm) as (_ & Hno & _). apply Hno. rewrite <- He. set_solver.
    + intros m [->|Hm]%elem_of_cons; [split_and!; [done..|by apply Hd]|]. destruct (Hns m Hm) as (? & Hno & ? & ?). split_and!; [done| |done..]. set_solver.
  - intros [[Hno Hnd] Hns]. rewrite (proj2 Hd) by (destruct (Hns n) as (_ & _ & _ & ?); [by left|done]). cbn [mbind result_bind].
    apply IH. split; [done|]. intros m Hm. destruct (Hns m) as (? & ? & ? & ?); [by right|]. split_and!; [done| |done..].
    intros [He%elem_of_singleton|]%elem_of_union; [|done]. apply Hno. rewrite <- He. by apply list_elem_of_fmap_2.
Qed.

Lemma structured_check ns : length ns <= MAX_EXEC_DAG_NODES -> check_nodes ns ns ∅ = Ok () <-> structured ns.
Proof.
  intros Hl. rewrite check_nodes_Ok by set_solver. split.
  - intros [Hnd Hn]. split; [done| |].
    + split; [done|]. intros n d Hin Hd. by apply (Hn n Hin).
    + intros n Hin. destruct (Hn n Hin) as (? & _ & ? & Hd). split_and!; [done..|]. intros Hs. by destruct (Hd _ Hs).
  - intros [_ [Hnd Hdeps] Hn]. split; [done|]. intros n Hin. destruct (Hn n Hin) as (? & ? & Hs). split_and!; [done|set_solver|done|].
    intros d Hd. split; [by eapply Hdeps|]. by intros ->.
Qed.

Lemma validate_Ok ns : validate (mkDag ns) = Ok () <-> structured ns /\ exists l, plan_order ns l.
Proof.
  unfold validate. cbn [nodes]. destruct (Nat.ltb_spec MAX_EXEC_DAG_NODES (length ns)) as [Hlt|Hle].
  { split; [done|]. intros [[Hc _ _] _]. exfalso. by apply (Nat.lt_irrefl MAX_EXEC_DAG_NODES), (Nat.lt_le_trans _ _ _ Hlt). }
  split.
  - intros Hv. apply bind_Ok_inv in Hv as ([] & Hc & Hv). apply bind_Ok_inv in Hv as (order & Ho & _).
    assert (Hst : structured ns) by (apply structured_check; [done|]; destruct (check_nodes ns ns ∅) as [[]|]; [done..]).
    split; [done|]. exists order. by apply (topo_order_Ok ns (st_wf _ Hst)).
  - intros [Hst [l Hl]]. rewrite (proj2 (structured_check ns Hle)) by done. cbn [failing mbind result_bind].
    destruct (topo_order_exists ns (st_wf _ Hst) l Hl) as (o & ->). done.
Qed.

(** * Layers *)

Section Layers.
Context (ns : list ExecNode) (Hwf : well_formed ns).

(** Between two nodes of a layer: [pending] of it is still to be released into
    [next]. *)
Record layer_inv (rem : gmap string nat) (pending next done : list string) : Prop := {
  li_counts : counts ns rem done;
  li_closed : closed ns done;
  li_nodup : NoDup (done ++ pending);
  li_ids : forall id, id ∈ done -> id ∈ en_id <$> ns;
  li_sorted : StronglySorted below next;
  li_fresh : forall id, id ∈ next -> id ∉ pending;
  li_ready : forall id, ready_at ns done id <-> id ∈ pending \/ id ∈ next }.

Lemma layer_step rem x pending next done : layer_inv rem (x :: pending) next done ->
  exists cs rem' next', snd (adjacency ns) !! x = Some cs /\ release cs rem next = Ok (rem', next') /\
    layer_inv rem' pending next' (done ++ [x]).
Proof.
  intros Hk. assert (Hx : ready_at ns done x) by (apply (li_ready _ _ _ _ Hk); left; by left).
  destruct (release_step ns Hwf done x rem next) as (cs & rem' & next' & Hcs & Hr & Hc & Hs & Hm); [apply Hk|apply Hk|done|apply Hk|].
  exists cs, rem', next'. split_and!; [done..|]. pose proof (li_nodup _ _ _ _ Hk) as Hnd. split.
  - done.
  - apply closed_step; [done|apply Hk|done].
  - by rewrite <- app_assoc.
  - intros y [Hy|Hy%list_elem_of_singleton]%elem_of_app; [by eapply li_ids|subst y; by eapply ready_id].
  - done.
  - intros y [Hy|Hy]%Hm Hin; [apply (li_fresh _ _ _ _ Hk y Hy); by right|].
    apply (freed_not_ready ns Hwf done x y Hx Hy). apply (li_ready _ _ _ _ Hk). left. by right.
  - intros y. rewrite ready_step, Hm, (li_ready _ _ _ _ Hk), elem_of_cons by done. split; [naive_solver|].
    apply NoDup_app in Hnd as (_ & _ & [Hxp _]%NoDup_cons).
    intros [Hy|[Hy|Hy]]; [left; split; [by left; right|by intros ->]| |by right].
    left. split; [by right|]. intros ->. apply (li_fresh _ _ _ _ Hk x Hy). by left.
Qed.

Lemma release_layer_spec pending : forall rem next done, layer_inv rem pending next done ->
  exists rem' next', release_layer pending (snd (adjacency ns)) rem next = Ok (rem', next') /\ layer_inv rem' [] next' (done ++ pending).
Proof.
  induction pending as [|x pending IH]; intros rem next done Hk; [exists rem, next; by rewrite app_nil_r|].
  destruct (layer_step _ _ _ _ _ Hk) as (cs & rem' & next' & Hcs & Hr & Hk'). cbn [release_layer].
  rewrite Hcs. cbn [ok_or mbind result_bind]. rewrite Hr. cbn [mbind result_bind].
  destruct (IH _ _ _ Hk') as (rem'' & next'' & -> & Hk''). exists rem'', next''. split; [done|]. by rewrite <- app_assoc in Hk''.
Qed.

(** Layer [k] is what is ready once the earlier layers are done. *)
Definition layered (ls : list (list string)) : Prop :=
  forall k layer, ls !! k = Some layer -> layer <> [] /\ StronglySorted below layer /\
    forall id, id ∈ layer <-> ready_at ns (concat (take k ls)) id.

Lemma layered_snoc ls layer : layered ls -> layer <> [] -> StronglySorted below layer ->
  (forall id, id ∈ layer <-> ready_at ns (concat ls) id) -> layered (ls ++ [layer]).
Proof.
  intros Hl Hne Hs Hm k y Hk. destruct (decide (k < length ls)) as [Hlt|Hge].
  - rewrite lookup_app_l in Hk by done. rewrite take_app_le by lia. by apply Hl.
  - rewrite lookup_app_r in Hk by lia. destruct (k - length ls) as [|j] eqn:Hj; [|done]. injection Hk as <-.
    replace k with (length ls) by lia. rewrite take_app_length. done.
Qed.

Lemma layer_swap rem next done : layer_inv rem [] next done -> layer_inv rem next [] done.
Proof.
  intros [Hc Hcl Hnd Hi Hs _ Hr]. split; [done|done| |done|constructor|set_solver|].
  - rewrite app_nil_r in Hnd. apply NoDup_app. split_and!; [done| |by apply sorted_NoDup].
    intros y Hy Hn. assert (Hry : ready_at ns done y) by (apply Hr; by right). by apply Hry.
  - intros y. rewrite Hr. set_solver.
Qed.

Lemma layers_loop_spec fuel : forall rem frontier ls, layer_inv rem [] frontier (concat ls) -> layered ls ->
  length ns <= fuel + length (concat ls) ->
  exists rem' all, layers_loop fuel (snd (adjacency ns)) rem frontier ls = Ok all /\ layered all /\ layer_inv rem' [] [] (concat all).
Proof.
  induction fuel as [|fuel IH]; intros rem frontier ls Hk Hl Hf.
  - destruct frontier as [|x frontier]; [by exists rem, ls|]. exfalso.
    pose proof (layer_swap _ _ _ Hk) as Hk'. pose proof (li_nodup _ _ _ _ Hk') as Hnd.
    assert (Hsub : concat ls ++ x :: frontier ⊆+ en_id <$> ns).
    { apply NoDup_submseteq; [done|]. intros y [Hy|Hy]%elem_of_app; [by eapply li_ids|].
      eapply (ready_id ns (concat ls)), (li_ready _ _ _ _ Hk'). by left. }
    apply submseteq_length in Hsub. rewrite length_app, length_fmap in Hsub. cbn in Hsub, Hf. lia.
  - destruct frontier as [|x frontier]; [by exists rem, ls|]. cbn [layers_loop].
    pose proof (layer_swap _ _ _ Hk) as Hk'. destruct (release_layer_spec _ _ _ _ Hk') as (rem' & next & -> & Hk''). cbn [mbind result_bind].
    assert (Hcat : concat (ls ++ [x :: frontier]) = concat ls ++ x :: frontier) by (rewrite concat_app; cbn; by rewrite app_nil_r).
    apply IH; rewrite ?Hcat; [done| |rewrite length_app; cbn; lia].
    apply layered_snoc; [done|done|apply Hk|]. intros id. rewrite (li_ready _ _ _ _ Hk). set_solver.
Qed.

Lemma layer_init : layer_inv (fst (adjacency ns)) [] (initially_ready ns (fst (adjacency ns))) [].
Proof.
  destruct (kahn_init ns Hwf) as [Hc Hcl Hnd Hi Hs Hr _]. split; try done; [set_solver|]. intros id. rewrite Hr. set_solver.
Qed.

Lemma layers_exhausted rem done : layer_inv rem [] [] done -> exhausted ns done.
Proof. intros Hk id Hr. apply (li_ready _ _ _ _ Hk) in Hr. set_solver. Qed.
End Layers.

(** On a valid plan layering never panics: the layers list every node
    once, and each layer is, in ascending order, exactly the nodes outside the
    earlier layers all of whose dependencies are in them, so that no two nodes
    of a layer depend on each other. *)
Theorem layers_exact (d : ExecDag) : validate d = Ok () ->
  exists ls, layers d = Ok ls /\ concat ls ≡ₚ en_id <$> nodes d /\ layered (nodes d) ls /\
    forall layer n m, layer ∈ ls -> n ∈ nodes d -> m ∈ nodes d -> en_id n ∈ layer -> en_id m ∈ layer -> en_id n ∉ en_deps m.
Proof.
  destruct d as [ns]. intros Hv. pose proof Hv as [Hst [l Hl]]%validate_Ok. pose proof (st_wf _ Hst) as Hwf.
  destruct (layers_loop_spec ns Hwf (length ns) _ _ [] (layer_init ns Hwf)) as (rem & ls & Hr & Hla & Hk); [by intros k y; rewrite lookup_nil|lia|].
  exists ls. cbn [nodes]. split_and!.
  - unfold layers. rewrite Hv. cbn [mbind result_bind nodes]. destruct (adjacency ns) as [r c]. done.
  - pose proof (li_nodup _ _ _ _ _ Hk) as Hnd. rewrite app_nil_r in Hnd.
    apply full_order; [done|apply Hk|]. apply complete_order; [done|done|apply Hk|].
    intros id Hid. apply (acyclic_complete ns l); [done|by eapply layers_exhausted|done].
  - done.
  - intros layer n m Hin Hn Hm Hnl Hml Hd. apply list_elem_of_lookup in Hin as (k & Hk'). destruct (Hla k layer Hk') as (_ & _ & Hmem).
    apply Hmem in Hnl as [Hno _]. apply Hmem in Hml as (_ & m' & Hm' & He & Hall). apply Hno, Hall. by rewrite (node_unique ns Hwf m' m).
Qed.

(** * Critical path *)

Lemma end_loop_spec dist topo : (forall id, id ∈ topo -> is_Some (dist !! id)) -> forall last w, dist !! last = Some w ->
  exists e we, end_loop topo dist last = Ok e /\ dist !! e = Some we /\ (e = last \/ e ∈ topo) /\ (w <= we)%N /\
    forall id wid, id ∈ topo -> dist !! id = Some wid -> (wid <= we)%N.
Proof.
  induction topo as [|x topo IH]; intros Hd last w Hw; [exists last, w; split_and!; [done|done|by left|done|set_solver]|].
  destruct (Hd x) as [wx Hx]; [by left|]. cbn [end_loop]. rewrite Hx, Hw. cbn [ok_or mbind result_bind].
  set (cond := (w <? wx)%N || ((wx =? w)%N && ltb x last)).
  assert (Hc : exists y wy, (if cond then x else last) = y /\ dist !! y = Some wy /\ (y = last \/ y = x) /\ (w <= wy)%N /\ (wx <= wy)%N).
  { unfold cond. destruct (N.ltb_spec w wx); cbn [orb]; [exists x, wx; split_and!; [done|done|by right|lia|lia]|].
    destruct (N.eqb_spec wx w) as [->|]; cbn [andb]; [|exists last, w; split_and!; [done|done|by left|lia|lia]].
    destruct (ltb x last); [exists x, w|exists last, w]; split_and!; (done || tauto || lia). }
  destruct Hc as (y & wy & -> & Hy & Hor & Hwy & Hxy).
  destruct (IH ltac:(intros id Hid; apply Hd; by right) y wy Hy) as (e & we & -> & Hwe & He & Hle & Hall).
  exists e, we. split_and!; [done|done| |lia|].
  - destruct He as [->|He]; [destruct Hor as [->| ->]; [by left|right; by left]|right; by right].
  - intros id wid [->|Hid]%elem_of_cons Hwid; [replace wid with wx by congruence; lia|by eapply Hall].
Qed.

Section Critical.
Context (ns : list ExecNode) (Hwf : well_formed ns).

Definition weight_of (id : string) : N := default 0%N (en_weight <$> find (fun n => String.eqb (en_id n) id) ns).
Definition depends (id d : string) : Prop := exists n, n ∈ ns /\ en_id n = id /\ d ∈ en_deps n.

(** A chain lists nodes from the first dependency on; each is a dependency of
    the next. *)
Inductive chain : list string -> Prop :=
| chain_one id : id ∈ en_id <$> ns -> chain [id]
| chain_cons d id l : depends id d -> chain (id :: l) -> chain (d :: id :: l).

Definition weight (l : list string) : N := foldr (fun id w => (weight_of id + w)%N) 0%N l.

Lemma weight_cons x l : weight (x :: l) = (weight_of x + weight l)%N.
Proof. done. Qed.

Lemma weight_app l k : weight (l ++ k) = (weight l + weight k)%N.
Proof. induction l as [|x l IH]; [done|]. rewrite <- app_comm_cons, !weight_cons, IH. lia. Qed.

Lemma find_node n l : NoDup (en_id <$> l) -> n ∈ l -> find (fun m => String.eqb (en_id m) (en_id n)) l = Some n.
Proof.
  intros Hnd Hn. induction l as [|m l IH]; [set_solver|]. cbn in *. apply NoDup_cons in Hnd as [Hm Hnd].
  destruct (String.eqb_spec (en_id m) (en_id n)) as [He|Hne].
  - apply elem_of_cons in Hn as [->|Hn]; [done|]. exfalso. apply Hm. rewrite He. by apply list_elem_of_fmap_2.
  - apply elem_of_cons in Hn as [->|Hn]; [done|by apply IH].
Qed.

Lemma weight_of_node n : n ∈ ns -> weight_of (en_id n) = en_weight n.
Proof. intros Hn. unfold weight_of. rewrite find_node by (done || apply Hwf). done. Qed.

Lemma node_of_node n : n ∈ ns -> node_of ns (en_id n) = Ok n.
Proof.
  intros Hn. unfold node_of. rewrite find_node; [done| |by rewrite elem_of_reverse].
  rewrite fmap_reverse, reverse_Permutation. apply Hwf.
Qed.

Lemma chain_snoc l d id : chain (l ++ [d]) -> depends id d -> id ∈ en_id <$> ns -> chain (l ++ [d; id]).
Proof.
  intros Hc Hd Hid. induction l as [|x l IH]; cbn in *; [by repeat constructor|].
  inversion Hc as [|y z k Hyz Hk]; subst; [destruct l; done|].
  destruct l as [|y l]; cbn in *; simplify_eq; (constructor; [done|by apply IH]).
Qed.

Lemma chain_split l id : chain (l ++ [id]) -> l = [] \/ exists k d, l = k ++ [d] /\ chain (k ++ [d]) /\ depends id d.
Proof.
  induction l as [|x l IH]; intros Hc; [by left|right]. destruct l as [|y l].
  - exists [], x. inversion Hc as [|y z k Hyz Hk]; subst. split_and!; [done| |done]. constructor.
    destruct Hyz as (n & Hn & _ & Hd). by eapply wf_deps.
  - inversion Hc as [|d z k Hyz Hk]; subst. destruct (IH Hk) as [|(k & d & Hk1 & Hck & Hd)]; [done|].
    destruct k as [|w k]; cbn in *; simplify_eq.
    + exists [x], d. split_and!; [done| |done]. by constructor.
    + exists (x :: w :: k), d. split_and!; [done| |done]. cbn. by constructor.
Qed.

Lemma chain_ids l : chain l -> forall id, id ∈ l -> id ∈ en_id <$> ns.
Proof.
  induction 1 as [id Hid|d id l (n & Hn & He & Hd) Hc IH]; intros x Hx; [apply list_elem_of_singleton in Hx; by subst|].
  apply elem_of_cons in Hx as [->|Hx]; [by eapply wf_deps|by apply IH].
Qed.

(** The distances of a set of processed nodes. *)
Record dist_ok (dist : gmap string N) (prev : gmap string string) (n : ExecNode) (w : N) : Prop := {
  do_deps : forall d wd, d ∈ en_deps n -> dist !! d = Some wd -> (wd + en_weight n <= w)%N;
  do_prev : match prev !! en_id n with
            | None => en_deps n = [] /\ w = en_weight n
            | Some p => p ∈ en_deps n /\ exists wp, dist !! p = Some wp /\ w = (wp + en_weight n)%N
            end }.

Lemma best_dep_spec dist deps : (forall d, d ∈ deps -> is_Some (dist !! d)) -> forall best bd,
  exists best' bd', best_dep_loop deps dist best bd = Ok (best', bd') /\ (best <= best')%N /\
    (forall d w, d ∈ deps -> dist !! d = Some w -> (w <= best')%N) /\
    ((bd' = bd /\ best' = best) \/ exists d, d ∈ deps /\ bd' = Some d /\ dist !! d = Some best') /\
    (bd = None -> best = 0%N -> deps <> [] -> is_Some bd').
Proof.
  intros Hdist. induction deps as [|d deps IH]; intros best bd.
  { exists best, bd. split_and!; [done|done|set_solver|by left|done]. }
  destruct (Hdist d) as [w Hw]; [by left|]. cbn [best_dep_loop]. rewrite Hw. cbn [ok_or mbind result_bind].
  assert (IH' := fun b x => IH ltac:(intros y Hy; apply Hdist; by right) b x). clear IH.
  destruct (better w d best bd) eqn:Hb.
  - assert (best <= w)%N by (unfold better in Hb; destruct (N.ltb_spec best w); [lia|]; destruct (N.eqb_spec w best); [lia|done]).
    destruct (IH' w (Some d)) as (b & x & -> & Hle & Hall & Hor & _). exists b, x. split_and!; [done|lia| | |].
    + intros y wy [->|Hy]%elem_of_cons Hwy; [replace wy with w by congruence; done|by eapply Hall].
    + right. destruct Hor as [[-> ->]|(y & Hy & -> & Hyw)]; [exists d; split_and!; [by left|done..]|exists y; split_and!; [by right|done..]].
    + intros _ _ _. destruct Hor as [[-> _]|(y & _ & -> & _)]; by eexists.
  - destruct (IH' best bd) as (b & x & -> & Hle & Hall & Hor & Hsome). exists b, x. split_and!; [done|done| | |].
    + intros y wy [->|Hy]%elem_of_cons Hwy; [|by eapply Hall]. replace wy with w by congruence.
      unfold better in Hb. destruct (N.ltb_spec best w); [done|lia].
    + destruct Hor as [?|(y & Hy & -> & Hyw)]; [by left|right; exists y; split_and!; [by right|done..]].
    + intros -> -> _. unfold better in Hb. destruct (N.ltb_spec 0 w); [done|]. destruct (N.eqb_spec w 0); [done|lia].
Qed.

Record path_inv (P : list string) (dist : gmap string N) (prev : gmap string string) : Prop := {
  pi_dom : forall id, id ∈ P <-> is_Some (dist !! id);
  pi_prev : forall id, id ∉ P -> prev !! id = None;
  pi_closed : forall n d, n ∈ ns -> en_id n ∈ P -> d ∈ en_deps n -> d ∈ P;
  pi_node : forall n, n ∈ ns -> en_id n ∈ P -> exists w, dist !! en_id n = Some w /\ (w <= U64_MAX)%N /\ dist_ok dist prev n w /\
    exists l, chain (l ++ [en_id n]) /\ weight (l ++ [en_id n]) = w }.

(** A node's own best chain, from those of its dependencies. *)
Lemma best_chain P dist prev n best bd : path_inv P dist prev -> n ∈ ns -> (forall d, d ∈ en_deps n -> d ∈ P) ->
  best_dep_loop (en_deps n) dist 0%N None = Ok (best, bd) ->
  (forall d w, d ∈ en_deps n -> dist !! d = Some w -> (w <= best)%N) /\
  match bd with None => en_deps n = [] /\ best = 0%N | Some p => p ∈ en_deps n /\ dist !! p = Some best end /\
  exists l, chain (l ++ [en_id n]) /\ weight (l ++ [en_id n]) = (best + en_weight n)%N.
Proof.
  intros Hi Hn Hd Hb. assert (Hin : en_id n ∈ en_id <$> ns) by (by apply list_elem_of_fmap_2).
  destruct (best_dep_spec dist (en_deps n) ltac:(intros d Hdn; by apply (pi_dom _ _ _ Hi), Hd) 0%N None) as (b & x & Hb' & _ & Hall & Hor & Hsome).
  rewrite Hb in Hb'. injection Hb' as <- <-. split; [done|]. destruct Hor as [[-> ->]|(p & Hp & -> & Hpw)].
  - assert (en_deps n = []) as -> by (destruct (en_deps n); [done|]; by destruct Hsome). split; [done|].
    exists []. split; [by constructor|]. cbn [app]. rewrite weight_cons, weight_of_node by done. cbn. lia.
  - split; [done|]. assert (Hpid : p ∈ en_id <$> ns) by (by eapply wf_deps). apply list_elem_of_fmap in Hpid as (m & -> & Hm).
    destruct (pi_node _ _ _ Hi m Hm (Hd _ Hp)) as (w & Hw & _ & _ & l & Hl & Hlw).
    exists (l ++ [en_id m]). rewrite <- app_assoc. cbn [app]. split; [apply chain_snoc; [done|by exists n|done]|].
    change (l ++ [en_id m; en_id n]) with (l ++ [en_id m] ++ [en_id n]). rewrite app_assoc, weight_app, Hlw.
    rewrite weight_cons, weight_of_node by done. replace w with best by congruence. cbn. lia.
Qed.

Lemma dist_ok_insert P dist prev n w id v bd : path_inv P dist prev -> n ∈ ns -> en_id n ∈ P -> id ∉ P ->
  dist_ok dist prev n w -> dist_ok (<[id := v]> dist) (match bd with Some p => <[id := p]> prev | None => prev end) n w.
Proof.
  intros Hi Hn Hin Hid [Hd Hp]. assert (Hlk : forall d, d ∈ en_deps n -> <[id := v]> dist !! d = dist !! d).
  { intros d Hdn. apply lookup_insert_ne. intros ->. by apply Hid, (pi_closed _ _ _ Hi n). }
  split; [intros d wd Hdn; rewrite Hlk by done; by apply Hd|].
  assert (match bd with Some p => <[id := p]> prev | None => prev end !! en_id n = prev !! en_id n) as ->.
  { destruct bd; [|done]. apply lookup_insert_ne. by intros ->. }
  destruct (prev !! en_id n) as [p|]; [|done]. destruct Hp as [Hpn Hpw]. by rewrite Hlk.
Qed.

Lemma path_inv_insert P dist prev n best bd : path_inv P dist prev -> n ∈ ns -> en_id n ∉ P -> (forall d, d ∈ en_deps n -> d ∈ P) ->
  best_dep_loop (en_deps n) dist 0%N None = Ok (best, bd) -> (best + en_weight n <= U64_MAX)%N ->
  path_inv (P ++ [en_id n]) (<[en_id n := (best + en_weight n)%N]> dist) (match bd with Some p => <[en_id n := p]> prev | None => prev end).
Proof.
  intros Hi Hn Hno Hd Hb Hmax. destruct (best_chain P dist prev n best bd Hi Hn Hd Hb) as (Hall & Hbd & Hch).
  assert (Hlk : forall d v, d ∈ en_deps n -> <[en_id n := v]> dist !! d = dist !! d).
  { intros d v Hdn. apply lookup_insert_ne. intros He. apply Hno. rewrite He. by apply Hd. }
  split.
  - intros id. rewrite elem_of_app, list_elem_of_singleton. destruct (decide (id = en_id n)) as [->|Hne].
    + rewrite lookup_insert_eq. split; [by eexists|by right].
    + rewrite lookup_insert_ne by done. rewrite (pi_dom _ _ _ Hi). split; [by intros [|]|by left].
  - intros id [H1 H2]%not_elem_of_app. assert (Hne : id <> en_id n) by (intros ->; apply H2; by left).
    destruct bd; rewrite ?lookup_insert_ne by done; by apply (pi_prev _ _ _ Hi).
  - intros m d Hm [Hin|Hin%list_elem_of_singleton]%elem_of_app Hdm; apply elem_of_app; left; [by apply (pi_closed _ _ _ Hi m)|].
    apply Hd. by rewrite <- (node_unique ns Hwf m n).
  - intros m Hm [Hin|Hin%list_elem_of_singleton]%elem_of_app.
    + assert (Hne : en_id m <> en_id n) by (by intros He; rewrite He in Hin). rewrite lookup_insert_ne by done.
      destruct (pi_node _ _ _ Hi m Hm Hin) as (w & Hw & Hwm & Hok & Hl). exists w. split_and!; [done|done| |done]. by apply (dist_ok_insert P).
    + assert (m = n) as -> by (by apply (node_unique ns Hwf)). rewrite lookup_insert_eq. eexists. split_and!; [done|done| |done]. split.
      * intros d wd Hdn. rewrite Hlk by done. intros Hwd. specialize (Hall _ _ Hdn Hwd). lia.
      * destruct bd as [p|].
        -- rewrite lookup_insert_eq. destruct Hbd as [Hp Hpw]. split; [done|]. exists best. by rewrite Hlk.
        -- rewrite (pi_prev _ _ _ Hi) by done. destruct Hbd as [-> ->]. split; [done|lia].
Qed.

Lemma dist_loop_spec order rest : forall P dist prev, order = P ++ rest -> plan_order ns order -> NoDup order -> path_inv P dist prev ->
  (exists dist' prev', dist_loop ns rest dist prev = Ok (dist', prev') /\ path_inv order dist' prev') \/
  (dist_loop ns rest dist prev = Err Panicked /\ exists l, chain l /\ (U64_MAX < weight l)%N).
Proof.
  induction rest as [|id rest IH]; intros P dist prev Ho Hpo Hnd Hi.
  { rewrite app_nil_r in Ho. subst P. left. by exists dist, prev. }
  assert (Hid : id ∈ en_id <$> ns) by (rewrite <- (proj1 Hpo), Ho; apply elem_of_app; right; by left).
  apply list_elem_of_fmap in Hid as (n & -> & Hn). cbn [dist_loop]. rewrite node_of_node by done. cbn [mbind result_bind].
  assert (Hd : forall d, d ∈ en_deps n -> d ∈ P).
  { intros d Hdn. pose proof (proj2 Hpo (length P) n Hn) as Hr. rewrite Ho, take_app_length in Hr. apply Hr; [|done]. by rewrite list_lookup_middle. }
  assert (Hno : en_id n ∉ P). { rewrite Ho in Hnd. apply NoDup_app in Hnd as (_ & Hdis & _). intros Hin. apply (Hdis _ Hin). by left. }
  destruct (best_dep_spec dist (en_deps n) ltac:(intros d Hdn; by apply (pi_dom _ _ _ Hi), Hd) 0%N None) as (best & bd & Hb & _).
  rewrite Hb. cbn [mbind result_bind]. destruct (N.ltb_spec U64_MAX (best + en_weight n)) as [Hlt|Hle].
  - right. split; [done|]. destruct (best_chain P dist prev n best bd Hi Hn Hd Hb) as (_ & _ & l & Hl & Hlw). exists (l ++ [en_id n]). split; [done|lia].
  - apply (IH (P ++ [en_id n])); [by rewrite <- app_assoc|done|done|]. by apply path_inv_insert.
Qed.

Lemma dist_bounds order dist prev : path_inv order dist prev -> order ≡ₚ en_id <$> ns ->
  forall l id w, chain (l ++ [id]) -> dist !! id = Some w -> (weight (l ++ [id]) <= w)%N.
Proof.
  intros Hi Hp l. induction l as [l IH] using (induction_ltof1 _ length). intros id w Hc Hw.
  assert (Hid : id ∈ en_id <$> ns) by (apply (chain_ids _ Hc), elem_of_app; right; by left).
  apply list_elem_of_fmap in Hid as (n & -> & Hn).
  destruct (pi_node _ _ _ Hi n Hn) as (w' & Hw' & _ & [Hdeps Hprev] & _); [rewrite Hp; by apply list_elem_of_fmap_2|].
  assert (w' = w) as -> by congruence. rewrite weight_app, weight_cons, weight_of_node by done. cbn [weight foldr].
  destruct (chain_split l _ Hc) as [->|(k & d & -> & Hck & (m & Hm & Hme & Hdm))].
  - cbn. destruct (prev !! en_id n) as [p|]; [destruct Hprev as (_ & wp & _ & ->)|destruct Hprev as [_ ->]]; lia.
  - assert (m = n) as -> by (by apply (node_unique ns Hwf)). clear Hm Hme.
    assert (Hd : is_Some (dist !! d)) by (apply (pi_dom _ _ _ Hi); rewrite Hp; by apply (wf_deps ns Hwf n)). destruct Hd as [wd Hwd].
    specialize (Hdeps d wd Hdm Hwd). assert (weight (k ++ [d]) <= wd)%N; [|lia].
    apply IH; [|done|done]. unfold ltof. rewrite length_app. cbn. lia.
Qed.

Lemma path_loop_spec order dist prev fuel : path_inv order dist prev -> plan_order ns order -> forall i h tl w,
  chain (h :: tl) -> order !! i = Some h -> i <= fuel -> dist !! h = Some w ->
  exists path, path_loop fuel prev (h :: tl) = Ok path /\ chain path /\ weight path = (w + weight tl)%N.
Proof.
  intros Hi Hpo. induction fuel as [|fuel IH]; intros i h tl w Hc Ho Hf Hw.
  all: assert (Hh : h ∈ en_id <$> ns) by (apply (chain_ids _ Hc); by left).
  all: apply list_elem_of_fmap in Hh as (n & -> & Hn).
  all: destruct (pi_node _ _ _ Hi n Hn) as (w' & Hw' & _ & [Hdeps Hprev] & _); [by eapply list_elem_of_lookup_2|].
  all: assert (w' = w) as -> by congruence; cbn [path_loop]; destruct (prev !! en_id n) as [p|].
  2,4: destruct Hprev as [_ ->]; eexists; split_and!; [done|done|by rewrite weight_cons, weight_of_node].
  all: destruct Hprev as (Hp & wp & Hwp & ->); pose proof (proj2 Hpo i n Hn Ho p Hp) as Hpi;
       apply list_elem_of_lookup in Hpi as (j & [Hj Hlt]%lookup_take_Some).
  1: lia.
  destruct (IH j p (en_id n :: tl) wp) as (path & -> & Hpc & Hpw); [constructor; [by exists n|done]|done|lia|done|].
  exists path. split_and!; [done|done|]. rewrite Hpw, weight_cons, weight_of_node by done. lia.
Qed.

Lemma chain_last l : chain l -> exists k id, l = k ++ [id].
Proof. intros Hc. destruct l as [|id k _] using rev_ind; [inversion Hc|by exists k, id]. Qed.
End Critical.

(** C26: With checked arithmetic, the critical path of a plan that can be
    ordered is a chain of dependencies of the greatest total weight, empty only
    for the empty plan; the sums panic exactly when some chain outweighs 64
    bits (a build without overflow checks would wrap there instead), and the
    only other failure is the one of the order. *)
Theorem critical_path_heaviest (d : ExecDag) : well_formed (nodes d) ->
  match critical_path d with
  | Ok path => (nodes d = [] /\ path = []) \/
      (chain (nodes d) path /\ (weight (nodes d) path <= U64_MAX)%N /\
       forall l, chain (nodes d) l -> (weight (nodes d) l <= weight (nodes d) path)%N)
  | Err Panicked => exists l, chain (nodes d) l /\ (U64_MAX < weight (nodes d) l)%N
  | Err (Failed e) => topo_order d = Err (Failed e)
  end.
Proof.
  destruct d as [ns]. cbn [nodes]. intros Hwf. unfold critical_path. destruct (topo_order (mkDag ns)) as [order|e] eqn:Ho; cbn [mbind result_bind].
  2:{ destruct (topo_order_Err ns Hwf _ Ho) as (stuck & -> & _). done. }
  apply topo_order_Ok in Ho as (Hpo & _ & _ & Hnd); [|done]. destruct order as [|first rest] eqn:Horder.
  { left. split; [|done]. destruct Hpo as [Hp _]. apply Permutation_nil_l in Hp. by destruct ns. }
  rewrite <- Horder in *. cbn [nodes]. assert (Hinit : path_inv ns [] ∅ ∅).
  { split; [|done|set_solver|set_solver]. intros id. rewrite lookup_empty. split; [set_solver|by intros []]. }
  destruct (dist_loop_spec ns Hwf order order [] ∅ ∅) as [(dist & prev & -> & Hi)|[-> Hbig]]; [done|done|done|done| |done]. cbn [mbind result_bind].
  assert (Hdom : forall id, id ∈ order -> is_Some (dist !! id)) by (intros id; apply (pi_dom _ _ _ _ Hi)).
  assert (Hfirst : first ∈ order) by (rewrite Horder; by left). destruct (Hdom first Hfirst) as [w Hw].
  destruct (end_loop_spec dist order Hdom first w Hw) as (e & we & -> & Hwe & Hor & _ & Hmax). cbn [mbind result_bind].
  assert (He : e ∈ order) by (destruct Hor as [->|]; done). pose proof He as (i & Hi')%list_elem_of_lookup.
  assert (Heid : e ∈ en_id <$> ns) by (by rewrite <- (proj1 Hpo)).
  destruct (path_loop_spec ns Hwf order dist prev (length order) Hi Hpo i e [] we) as (path & Hpath & Hc & Hpw); [by constructor|done| |done|].
  { apply lookup_lt_Some in Hi'. lia. }
  rewrite Hpath. right. rewrite Hpw, N.add_0_r. split_and!; [done| |].
  - apply list_elem_of_fmap in Heid as (n & -> & Hn). destruct (pi_node _ _ _ _ Hi n Hn He) as (w' & Hw' & Hle & _). by replace we with w' by congruence.
  - intros l Hl. destruct (chain_last ns l Hl) as (k & id & ->).
    assert (Hid : id ∈ order) by (rewrite (proj1 Hpo); apply (chain_ids ns Hwf _ Hl), elem_of_app; right; by left).
    destruct (Hdom id Hid) as [wid Hwid]. transitivity wid; [|by eapply Hmax].
    by apply (dist_bounds ns Hwf order dist prev Hi (proj1 Hpo)).
Qed.

(** * Decision boundaries *)

Lemma position_spec order id : NoDup order -> forall i, order !! i = Some id -> position order id = Some i.
Proof.
  induction order as [|o order IH]; intros Hnd i Hi; [done|]. apply NoDup_cons in Hnd as [Ho Hnd]. cbn [position].
  destruct i as [|i]; [injection Hi as ->; by rewrite String.eqb_refl|]. cbn in Hi.
  destruct (String.eqb_spec o id) as [->|_]; [exfalso; apply Ho; by eapply list_elem_of_lookup_2|]. by rewrite (IH Hnd i).
Qed.

Lemma position_lt_trans a b c : position_lt b a = false -> position_lt c b = false -> position_lt c a = false.
Proof. destruct a as [a|], b as [b|], c as [c|]; cbn [position_lt]; try done. rewrite !Nat.ltb_ge. lia. Qed.
Lemma position_lt_irrefl a : position_lt a a = false.
Proof. destruct a as [a|]; cbn [position_lt]; [apply Nat.ltb_irrefl|done]. Qed.
Lemma position_lt_asym a b : position_lt a b = true -> position_lt b a = false.
Proof. destruct a as [a|], b as [b|]; cbn [position_lt]; try done. rewrite Nat.ltb_lt, Nat.ltb_ge. lia. Qed.

Lemma min_by_position_spec order ids : ids <> [] ->
  exists m, min_by_position order ids = Some m /\ m ∈ ids /\ forall x, x ∈ ids -> position_lt (position order x) (position order m) = false.
Proof.
  destruct ids as [|id ids]; [done|]. intros _. cbn [min_by_position].
  set (f := fun m x => if position_lt (position order x) (position order m) then x else m).
  assert (Hgen : forall l m, (foldl f m l = m \/ foldl f m l ∈ l) /\ forall x, x ∈ m :: l -> position_lt (position order x) (position order (foldl f m l)) = false).
  { induction l as [|y l IH]; intros m; cbn [foldl].
    - split; [by left|]. intros x Hx%list_elem_of_singleton. subst. apply position_lt_irrefl.
    - destruct (IH (f m y)) as [Hor Hall]. assert (Hf : f m y = m \/ f m y = y) by (unfold f; destruct (position_lt _ _); tauto).
      split; [destruct Hor as [Hor|Hor]; [rewrite Hor; destruct Hf as [->| ->]; [by left|right; by left]|right; by right]|]. assert (Hm : position_lt (position order m) (position order (f m y)) = false /\ position_lt (position order y) (position order (f m y)) = false).
      { unfold f. destruct (position_lt (position order y) (position order m)) eqn:Hlt; [split; [by apply position_lt_asym|apply position_lt_irrefl]|split; [apply position_lt_irrefl|done]]. }
      intros x [->|[->|Hx]%elem_of_cons]%elem_of_cons; [| |apply Hall; by right].
      all: eapply position_lt_trans; [apply Hall; by left|apply Hm]. }
  destruct (Hgen ids id) as [Hor Hall]. eexists. split; [done|]. split; [destruct Hor as [->|]; [by left|by right]|done].
Qed.

Definition boundary_at (d : ExecDag) (id : string) : Prop := exists n, n ∈ nodes d /\ en_id n = id /\ en_kind n = DecisionBoundary.

Lemma boundary_ids d id : id ∈ en_id <$> List.filter is_boundary (nodes d) <-> boundary_at d id.
Proof.
  rewrite list_elem_of_fmap. unfold boundary_at. setoid_rewrite list_elem_of_In. setoid_rewrite List.filter_In. unfold is_boundary.
  setoid_rewrite bool_decide_eq_true. naive_solver.
Qed.

Lemma requires_policy_spec d : requires_policy d = true <-> exists id, boundary_at d id.
Proof.
  unfold requires_policy. rewrite existsb_exists. setoid_rewrite <- list_elem_of_In. unfold is_boundary.
  setoid_rewrite bool_decide_eq_true. unfold boundary_at. naive_solver.
Qed.

(** Crossing is fail-closed: a plan with a decision boundary passes only
    with a policy all of whose rules are valid, and without one the refusal
    names the boundary that comes first in the order. *)
Theorem crossing_fail_closed (d : ExecDag) : well_formed (nodes d) ->
  (forall policy, crossing_rule d policy = Ok () <->
     (forall id, ~ boundary_at d id) \/ exists p, policy = Some p /\ ContingentPolicy_validate p = Ok ()) /\
  (forall order id, topo_order d = Ok order -> boundary_at d id ->
     exists first i, crossing_rule d None = Err (Failed (DecisionBoundaryUncovered first)) /\ boundary_at d first /\
       order !! i = Some first /\ forall j b, order !! j = Some b -> boundary_at d b -> i <= j).
Proof.
  intros Hwf. unfold crossing_rule. pose proof (requires_policy_spec d) as Hreq. destruct (requires_policy d); cbn [negb].
  2:{ split; [|intros order id _ Hb; by discriminate (proj2 Hreq (ex_intro _ id Hb))]. intros policy. split; [intros _|done]. left.
      intros id Hb. by discriminate (proj2 Hreq (ex_intro _ id Hb)). }
  destruct (proj1 Hreq eq_refl) as [id0 Hid0]. split.
  - intros policy. transitivity (exists p, policy = Some p /\ ContingentPolicy_validate p = Ok ()).
    + destruct policy as [p|].
      * destruct (ContingentPolicy_validate p) as [[]|] eqn:Hp; split; try done; [by exists p|]. intros (q & [= <-] & Hq). congruence.
      * split; [|by intros (p & ? & _)]. intros Hr. apply bind_Ok_inv in Hr as (o & _ & Hr). by apply bind_Ok_inv in Hr as (f & _ & Hr).
    + split; [by right|]. intros [Hno|]; [|done]. by destruct (Hno id0).
  - intros order id Ho _. rewrite Ho. cbn [mbind result_bind].
    destruct (min_by_position_spec order (en_id <$> List.filter is_boundary (nodes d))) as (m & -> & Hm & Hmin).
    { intros He. apply boundary_ids in Hid0. rewrite He in Hid0. set_solver. }
    apply boundary_ids in Hm. destruct d as [ns]. apply topo_order_Ok in Ho as ([Hp _] & _ & _ & Hnd); [|done].
    assert (Hin : m ∈ order) by (destruct Hm as (n & Hn & <- & _); rewrite Hp; by apply list_elem_of_fmap_2).
    apply list_elem_of_lookup in Hin as (i & Hi). exists m, i. split_and!; [done..|]. intros j b Hj Hb.
    apply boundary_ids in Hb. specialize (Hmin b Hb). rewrite (position_spec order b Hnd j Hj), (position_spec order m Hnd i Hi) in Hmin.
    by apply Nat.ltb_ge.
Qed.

(** * Plan digest *)

Lemma validate_perm ns ns' : ns ≡ₚ ns' -> validate (mkDag ns) = Ok () -> validate (mkDag ns') = Ok ().
Proof.
  intros Hp. rewrite !validate_Ok. intros [[Hc Hw Hn] [l Hl]]. split; [|exists l; by apply (plan_order_ext ns)].
  split; [by rewrite <- Hp|by apply (well_formed_ext ns)|]. intros n. rewrite <- Hp. apply Hn.
Qed.

(** A plan that has a digest has the same one however its nodes are
    listed. *)
Theorem plan_digest_order_free `{Platform} (d d' : ExecDag) (h : string) :
  nodes d ≡ₚ nodes d' -> plan_digest d = Ok h -> plan_digest d' = Ok h.
Proof.
  destruct d as [ns], d' as [ns']. cbn [nodes]. intros Hp Hd. unfold plan_digest in *. apply bind_Ok_inv in Hd as ([] & Hv & [= <-]).
  rewrite (validate_perm ns ns' Hp Hv). cbn [mbind result_bind nodes]. apply validate_Ok in Hv as [Hst _].
  by rewrite (sort_by_key_unique en_id ns ns' (wf_ids _ (st_wf _ Hst)) Hp).
Qed.

(** * A diamond of operations *)

Definition diamond : ExecDag :=
  mkDag [mkNode "op:join" Op 1 ["op:b"; "op:a"; "op:b"]; mkNode "op:b" DecisionBoundary 5 ["op:root"];
         mkNode "op:a" Op 2 ["op:root"]; mkNode "op:root" Op 1 []].

Lemma diamond_valid : validate diamond = Ok ().
Proof. by vm_compute. Qed.
Lemma diamond_wf : well_formed (nodes diamond).
Proof. pose proof diamond_valid as Hv. destruct diamond. apply validate_Ok in Hv as [Hst _]. apply Hst. Qed.

Lemma topo_order_exact_witness : well_formed (nodes diamond) /\
  topo_order diamond = Ok ["op:root"; "op:a"; "op:b"; "op:join"] /\ greedy (nodes diamond) ["op:root"; "op:a"; "op:b"; "op:join"].
Proof.
  assert (Ho : topo_order diamond = Ok ["op:root"; "op:a"; "op:b"; "op:join"]) by (by vm_compute).
  split; [exact diamond_wf|]. split; [done|]. pose proof (topo_order_exact diamond diamond_wf) as H. rewrite Ho in H. apply H.
Defined.

Lemma layers_exact_witness : layers diamond = Ok [["op:root"]; ["op:a"; "op:b"]; ["op:join"]] /\
  layered (nodes diamond) [["op:root"]; ["op:a"; "op:b"]; ["op:join"]].
Proof.
  assert (Hl : layers diamond = Ok [["op:root"]; ["op:a"; "op:b"]; ["op:join"]]) by (by vm_compute). split; [done|].
  destruct (layers_exact diamond diamond_valid) as (ls & H1 & _ & H2 & _). rewrite Hl in H1. injection H1 as <-. exact H2.
Defined.

Lemma critical_path_heaviest_witness : critical_path diamond = Ok ["op:root"; "op:b"; "op:join"] /\
  forall l, chain (nodes diamond) l -> (weight (nodes diamond) l <= 7)%N.
Proof.
  assert (Hp : critical_path diamond = Ok ["op:root"; "op:b"; "op:join"]) by (by vm_compute). split; [done|].
  pose proof (critical_path_heaviest diamond diamond_wf) as H. rewrite Hp in H. destruct H as [[H _]|(_ & _ & H)]; [done|]. exact H.
Defined.

Lemma crossing_fail_closed_witness : crossing_rule diamond (Some (mkPolicy [])) = Ok () /\
  exists first i, crossing_rule diamond None = Err (Failed (DecisionBoundaryUncovered first)) /\ boundary_at diamond first /\
    ["op:root"; "op:a"; "op:b"; "op:join"] !! i = Some first.
Proof.
  split; [by vm_compute|]. assert (Ho : topo_order diamond = Ok ["op:root"; "op:a"; "op:b"; "op:join"]) by (by vm_compute).
  assert (Hb : boundary_at diamond "op:b").
  { exists (mkNode "op:b" DecisionBoundary 5 ["op:root"]). split_and!; [right; by left|done..]. }
  destruct (proj2 (crossing_fail_closed diamond diamond_wf) _ _ Ho Hb) as (first & i & H1 & H2 & H3 & _). by exists first, i.
Defined.

(** An unvalidated plan with a repeated id underflows the count of its open
    dependencies. *)
Example duplicate_ids_panic :
  critical_path (mkDag [mkNode "a" Op 1 []; mkNode "b" Op 1 ["a"]; mkNode "b" Op 1 []]) = Err Panicked.
Proof. by vm_compute. Qed.
