(* ===== verification/Representation.v ===== *)
(** Representation economics of tokenzero-core
    ([tokenzero-core/src/representation_economics.rs]): resource vectors and
    their Pareto frontier, least-cost segmentation by dynamic programming for
    one or several tokenizers, overfetch accounting and the value of a cached
    asset.  Rendering semantic interrupts is not modelled. *)

From S2P Require Import Prelude Ordering Sums BMap.

#[local] Open Scope N_scope.

(** * Resources *)

Record RepresentationResources := mkResources {
  stored_bytes : N; wire_bytes : N; source_tokens : N; visible_tokens : N;
  expansion_work : N; verification_work : N; latency_micros : N; metadata_bytes : N }.
#[global] Instance RepresentationResources_eq_dec : EqDecision RepresentationResources.
Proof. solve_decision. Defined.

Definition dominates_or_equal (a b : RepresentationResources) : bool :=
  (stored_bytes a <=? stored_bytes b) && (wire_bytes a <=? wire_bytes b) && (source_tokens a <=? source_tokens b) &&
  (visible_tokens a <=? visible_tokens b) && (expansion_work a <=? expansion_work b) &&
  (verification_work a <=? verification_work b) && (latency_micros a <=? latency_micros b) &&
  (metadata_bytes a <=? metadata_bytes b).

Definition strictly_better_than (a b : RepresentationResources) : bool :=
  dominates_or_equal a b && negb (bool_decide (a = b)).

Inductive RepresentationKind :=
| RawBytes | ChunkManifest | CompressedBytes | SyntaxTree | SemanticIr | ClaimBundle | ProofBundle | Delta | ModelRendering.
#[global] Instance RepresentationKind_eq_dec : EqDecision RepresentationKind.
Proof. solve_decision. Defined.

Record RepresentationRecord := mkRecord {
  representation_root : string; rr_semantic_root : string; rr_adapter_root : string;
  rr_kind : RepresentationKind; rr_exact : bool; rr_resources : RepresentationResources }.
#[global] Instance RepresentationRecord_eq_dec : EqDecision RepresentationRecord.
Proof. solve_decision. Defined.

(** Whether [other] removes [candidate] from the frontier. *)
Definition prunes (other candidate : RepresentationRecord) : bool :=
  negb (String.eqb (representation_root other) (representation_root candidate)) &&
  String.eqb (rr_semantic_root other) (rr_semantic_root candidate) &&
  String.eqb (rr_adapter_root other) (rr_adapter_root candidate) &&
  (negb (rr_exact candidate) || rr_exact other) &&
  strictly_better_than (rr_resources other) (rr_resources candidate).

Definition pareto_frontier (records : list RepresentationRecord) : list RepresentationRecord :=
  sort_by_key representation_root
    (List.filter (fun candidate => negb (existsb (fun other => prunes other candidate) records)) records).

(** * Segmentation *)

Record SegmentCandidate := mkSegment { sg_start : N; sg_end : N; additive_cost : N; boundary_kind : string }.

Inductive SegmentationError :=
| LengthZero
| CostOverflow
| NotCovered
| PredecessorMissing
| CandidateMissing
| NoTokenizer
| InvalidWeights
| TokenizerCosts
| WeightedOverflow
| WeightedTooWide
| OutOfBounds.  (** an index panic *)

(** [Option<(u64, Option<usize>, Option<usize>)>]: cost, predecessor, candidate. *)
Notation Best := (option (N * option nat * option nat)).

Section Programming.
Context {C : Type} (segment : C -> SegmentCandidate).

(** The candidates of one position, with the cost of each. *)
Fixpoint relax_candidates (length : N) (position : nat) (cost : N) (index : nat) (cs : list (C * N)) (best : list Best)
  : result SegmentationError (list Best) :=
  match cs with
  | [] => Ok best
  | (c, w) :: rest =>
      let s := segment c in
      if negb (N.to_nat (sg_start s) =? position)%nat || (sg_end s <=? sg_start s) || (length <? sg_end s)
      then relax_candidates length position cost (S index) rest best
      else
        let next := N.to_nat (sg_end s) in
        let? total := ok_or (checked_add_u64 cost w) CostOverflow in
        let? current := ok_or (best !! next) OutOfBounds in
        let best' :=
          if match current with None => true | Some (cur, _, _) => total <? cur end
          then <[next := Some (total, Some position, Some index)]> best else best in
        relax_candidates length position cost (S index) rest best'
  end.

(** [for position in 0..n]. *)
Fixpoint relax_positions (length : N) (positions : list nat) (cs : list (C * N)) (best : list Best)
  : result SegmentationError (list Best) :=
  match positions with
  | [] => Ok best
  | position :: rest =>
      let? entry := ok_or (best !! position) OutOfBounds in
      match entry with
      | None => relax_positions length rest cs best
      | Some (cost, _, _) =>
          let? best' := relax_candidates length position cost 0 cs best in
          relax_positions length rest cs best'
      end
  end.

(** [while position > 0]: each round moves to an earlier position, so the
    position itself bounds the rounds. *)
Fixpoint backtrack (fuel : nat) (candidates : list C) (best : list Best) (position : nat) (segments : list C)
  : result SegmentationError (list C) :=
  match position, fuel with
  | O, _ => Ok segments
  | S _, O => Err OutOfBounds
  | S _, S fuel' =>
      let? entry := ok_or (best !! position) OutOfBounds in
      let? (_, previous, candidate) := ok_or entry PredecessorMissing in
      let? previous := ok_or previous PredecessorMissing in
      let? candidate := ok_or candidate CandidateMissing in
      let? c := ok_or (candidates !! candidate) OutOfBounds in
      backtrack fuel' candidates best previous (c :: segments)
  end.

Definition solve (length : N) (candidates : list C) (costs : list N) : result SegmentationError (N * list C) :=
  reject? length =? 0 with LengthZero in
  let n := N.to_nat length in
  let? best := relax_positions length (seq 0 n) (zip candidates costs) (Some (0, None, None) :: replicate n None) in
  let? last := ok_or (best !! n) OutOfBounds in
  match last with
  | None => Err NotCovered
  | Some (total_cost, _, _) =>
      let? segments := backtrack n candidates best n [] in
      Ok (total_cost, segments)
  end.
End Programming.

Record SegmentationPlan := mkPlan { sp_total_cost : N; sp_segments : list SegmentCandidate }.

Definition optimal_segmentation (length : N) (candidates : list SegmentCandidate) : result SegmentationError SegmentationPlan :=
  let? (total, segments) := solve (fun c => c) length candidates (additive_cost <$> candidates) in
  Ok (mkPlan total segments).

(** * Several tokenizers *)

Record TokenizerCost := mkCost { tc_root : string; tokens : N }.
Record TokenizerWeight := mkWeight { tw_root : string; weight_ppm : N }.
Record MultiTokenizerSegmentCandidate := mkMulti { mt_segment : SegmentCandidate; mt_costs : list TokenizerCost }.
Record MultiTokenizerSegmentationPlan := mkMultiPlan {
  mp_total_cost : N; mp_segments : list MultiTokenizerSegmentCandidate }.

Fixpoint weight_map (weights : list TokenizerWeight) (m : list (string * N)) : result SegmentationError (list (string * N)) :=
  match weights with
  | [] => Ok m
  | w :: rest =>
      reject? String.eqb (tw_root w) "" || (weight_ppm w =? 0) with InvalidWeights in
      let '(old, m') := bmap_insert (tw_root w) (weight_ppm w) m in
      reject? match old with Some _ => true | None => false end with InvalidWeights in
      weight_map rest m'
  end.

Definition cost_map (costs : list TokenizerCost) : list (string * N) :=
  foldl (fun m c => snd (bmap_insert (tc_root c) (tokens c) m)) [] costs.

(** [a.div_ceil(b)]. *)
Definition ceil_div (a b : N) : N := (a + b - 1) / b.

(** [try_fold] over the weights; the product of two [u64] never saturates. *)
Fixpoint weighted_cost (weights costs : list (string * N)) (total : N) : result SegmentationError N :=
  match weights with
  | [] => Ok total
  | (root, weight) :: rest =>
      let? count := ok_or (bmap_lookup root costs) TokenizerCosts in
      let sum := total + ceil_div (N.min (count * weight) (2 ^ 128 - 1)) 1000000 in
      reject? 2 ^ 128 <=? sum with WeightedOverflow in
      weighted_cost rest costs sum
  end.

Definition effective_cost (weights : list (string * N)) (c : MultiTokenizerSegmentCandidate) : result SegmentationError N :=
  let costs := cost_map (mt_costs c) in
  reject? negb (length costs =? length (mt_costs c))%nat || negb (bool_decide (bmap_keys costs = bmap_keys weights))
    with TokenizerCosts in
  let? weighted := weighted_cost weights costs 0 in
  reject? U64_MAX <? weighted with WeightedTooWide in
  ok_or (checked_add_u64 (additive_cost (mt_segment c)) weighted) WeightedOverflow.

Fixpoint effective_costs (weights : list (string * N)) (cs : list MultiTokenizerSegmentCandidate) : result SegmentationError (list N) :=
  match cs with
  | [] => Ok []
  | c :: rest =>
      let? w := effective_cost weights c in
      let? ws := effective_costs weights rest in
      Ok (w :: ws)
  end.

Definition optimal_multi_tokenizer_segmentation (length : N) (candidates : list MultiTokenizerSegmentCandidate)
  (weights : list TokenizerWeight) : result SegmentationError MultiTokenizerSegmentationPlan :=
  reject? bool_decide (weights = []) with NoTokenizer in
  let? by_root := weight_map weights [] in
  let? costs := effective_costs by_root candidates in
  let? (total, segments) := solve mt_segment length candidates costs in
  Ok (mkMultiPlan total segments).

(** * Accounting *)

Record OverfetchAccounting := mkOverfetch { evidence_bytes : N; returned_bytes : N; sufficient_bytes : option N }.

Definition overfetch_bytes (o : OverfetchAccounting) : option N :=
  match sufficient_bytes o with Some s => Some (returned_bytes o - s) | None => None end.

Inductive OverfetchError := ReturnedTooMuch | SufficientTooMuch.
Definition OverfetchAccounting_validate (o : OverfetchAccounting) : result OverfetchError () :=
  reject? evidence_bytes o <? returned_bytes o with ReturnedTooMuch in
  reject? match sufficient_bytes o with Some s => returned_bytes o <? s | None => false end with SufficientTooMuch in
  Ok ().

Definition cache_asset_has_positive_value (demand_rate saved_work storage_cost_rate invalidation_hazard maintenance_cost : N) : bool :=
  storage_cost_rate + invalidation_hazard * maintenance_cost <? demand_rate * saved_work.

(** * Theorems

    The segmentation is a least-cost cover of the source by candidates, and the
    Pareto frontier keeps exactly the records that none dominates. *)

(** * Covers *)

Section Covers.
Context {C : Type} (segment : C -> SegmentCandidate) (len : N) (ps : list (C * N)).

Definition fits (c : C) : Prop := sg_start (segment c) < sg_end (segment c) <= len.

(** [path q l]: the segments of [l] are candidates that cover the source from
    its start to [q] without gap or overlap. *)
Inductive path : N -> list (C * N) -> Prop :=
| path_nil : path 0 []
| path_snoc c w l : path (sg_start (segment c)) l -> (c, w) ∈ ps -> fits c -> path (sg_end (segment c)) (l ++ [(c, w)]).

Definition total (l : list (C * N)) : N := sum_of snd l.

Notation n := (N.to_nat len).
Notation at_ best q c pr ix := (best !! N.to_nat q = Some (Some (c, pr, ix))).

(** Where an entry comes from. *)
Definition derived (best : list Best) (limit : N) (q c : N) (pr ix : option nat) : Prop :=
  (q = 0 /\ c = 0) \/
  exists i a w cp pr' ix', ps !! i = Some (a, w) /\ fits a /\ sg_end (segment a) = q /\ sg_start (segment a) <= limit /\
    pr = Some (N.to_nat (sg_start (segment a))) /\ ix = Some i /\ at_ best (sg_start (segment a)) cp pr' ix' /\ c = cp + w.

(** No candidate before [p], nor one of the first [k] at [p], improves an
    entry. *)
Definition settled (best : list Best) (p : N) (k : nat) : Prop :=
  forall i a w cp pr ix, ps !! i = Some (a, w) -> fits a ->
    (sg_start (segment a) < p \/ (sg_start (segment a) = p /\ (i < k)%nat)) -> at_ best (sg_start (segment a)) cp pr ix ->
    exists c pr' ix', at_ best (sg_end (segment a)) c pr' ix' /\ c <= cp + w.

Record dp_inv (best : list Best) (p : N) (k : nat) : Prop := {
  dp_length : length best = S n;
  dp_zero : best !! 0%nat = Some (Some (0, None, None));
  dp_derived : forall q c pr ix, q <= len -> at_ best q c pr ix -> derived best p q c pr ix;
  dp_settled : settled best p k }.

Lemma entry_path best p q c pr ix : (forall q c pr ix, q <= len -> at_ best q c pr ix -> derived best p q c pr ix) ->
  q <= len -> at_ best q c pr ix -> exists l, path q l /\ total l = c.
Proof.
  intros Hd. revert c pr ix. induction q as [q IH] using (well_founded_induction N.lt_wf_0). intros c pr ix Hq Ha.
  destruct (Hd q c pr ix Hq Ha) as [[-> ->]|(i & a & w & cp & pr' & ix' & Hi & Hf & <- & _ & _ & _ & Hp & ->)].
  - exists []. split; [constructor|done].
  - destruct (IH (sg_start (segment a)) ltac:(unfold fits in Hf; lia) cp pr' ix' ltac:(unfold fits in Hf; lia) Hp) as (l & Hl & <-).
    exists (l ++ [(a, w)]). split; [constructor; [done|by eapply list_elem_of_lookup_2|done]|].
    unfold total. by rewrite sum_of_snoc.
Qed.

(** Replacing an entry behind [p] keeps what is known of the others. *)
Lemma insert_other (best : list Best) q v r : q <> r -> <[N.to_nat q := v]> best !! N.to_nat r = best !! N.to_nat r.
Proof. intros Hne. apply list_lookup_insert_ne. lia. Qed.

(** One candidate [a] of cost [w] relaxed at its start [p]. *)
Definition improve (best : list Best) (q : N) (k : nat) (p t : N) (cur : Best) : list Best :=
  if match cur with None => true | Some (c, _, _) => t <? c end
  then <[N.to_nat q := Some (t, Some (N.to_nat p), Some k)]> best else best.

Lemma improve_other best q k p t cur r : q <> r -> improve best q k p t cur !! N.to_nat r = best !! N.to_nat r.
Proof. intros Hne. unfold improve. destruct (match cur with None => true | Some _ => _ end); [by apply insert_other|done]. Qed.

Lemma improve_at best q k p t cur : best !! N.to_nat q = Some cur ->
  exists c pr ix, at_ (improve best q k p t cur) q c pr ix /\ c <= t /\ (forall c' pr' ix', cur = Some (c', pr', ix') -> c <= c') /\
    ((c = t /\ pr = Some (N.to_nat p) /\ ix = Some k) \/ cur = Some (c, pr, ix)).
Proof.
  intros Hq. unfold improve. pose proof (lookup_lt_Some _ _ _ Hq). destruct cur as [[[c pr] ix]|].
  - destruct (N.ltb_spec t c) as [Hlt|Hge].
    + exists t, (Some (N.to_nat p)), (Some k). split_and!; [by apply list_lookup_insert_eq|done| |by left].
      intros c' pr' ix' [= <- <- <-]. lia.
    + exists c, pr, ix. split_and!; [done|done| |by right]. by intros c' pr' ix' [= <- <- <-].
  - exists t, (Some (N.to_nat p)), (Some k). split_and!; [by apply list_lookup_insert_eq|done|done|by left].
Qed.

Lemma relax_one best k a w cp pr ix cur : dp_inv best (sg_start (segment a)) k -> ps !! k = Some (a, w) -> fits a ->
  at_ best (sg_start (segment a)) cp pr ix -> best !! N.to_nat (sg_end (segment a)) = Some cur ->
  dp_inv (improve best (sg_end (segment a)) k (sg_start (segment a)) (cp + w) cur) (sg_start (segment a)) (S k).
Proof.
  intros [Hlen H0 Hd Hs] Hk Hf Ha Hcur. pose proof Hf as Hf'. unfold fits in Hf'. set (p := sg_start (segment a)) in *. set (q := sg_end (segment a)) in *.
  destruct (improve_at best q k p (cp + w) cur Hcur) as (cq & prq & ixq & Hq & Hle & Hmono & Hor).
  set (best' := improve best q k p (cp + w) cur) in *.
  assert (Hother : forall r, q <> r -> best' !! N.to_nat r = best !! N.to_nat r) by (intros r; apply improve_other).
  assert (Hder : forall r c pr1 ix1, derived best p r c pr1 ix1 -> derived best' p r c pr1 ix1).
  { intros r c pr1 ix1 [H|(i & b & wb & cpb & prb & ixb & Hi & Hfb & He & Hsb & H1 & H2 & Hp & Hc)]; [by left|right].
    exists i, b, wb, cpb, prb, ixb. rewrite Hother by lia. split_and!; done. }
  split.
  - unfold best', improve. destruct (match cur with None => true | Some _ => _ end); [by rewrite length_insert|done].
  - rewrite <- H0. apply (Hother 0). lia.
  - intros r c pr1 ix1 Hr Hat. destruct (decide (q = r)) as [<-|Hne]; [|rewrite Hother in Hat by done; by apply Hder, Hd].
    rewrite Hq in Hat. injection Hat as <- <- <-. destruct Hor as [(-> & -> & ->)|Hold].
    + right. exists k, a, w, cp, pr, ix. fold p q. rewrite Hother by lia. split_and!; (done || lia).
    + apply Hder, Hd; [done|]. by rewrite Hcur, Hold.
  - intros i b wb cpb prb ixb Hi Hfb Hlt Hb. assert (Hbp : sg_start (segment b) <= p) by lia.
    rewrite Hother in Hb by lia. destruct (decide (i = k /\ sg_start (segment b) = p)) as [[-> Hsp]|Hne].
    + rewrite Hk in Hi. injection Hi as <- <-. fold q. exists cq, prq, ixq. split; [done|]. fold p in Hb. by replace cpb with cp by congruence.
    + destruct (Hs i b wb cpb prb ixb Hi Hfb) as (c & pr1 & ix1 & Hc & Hcle); [|done|].
      { destruct Hlt as [|[? ?]]; [by left|right; split; [done|]]. assert (i <> k) by naive_solver. lia. }
      destruct (decide (q = sg_end (segment b))) as [He|Hnq]; [|exists c, pr1, ix1; by rewrite Hother].
      rewrite <- He in *. rewrite Hcur in Hc. injection Hc as Hc. exists cq, prq, ixq. split; [done|]. specialize (Hmono _ _ _ Hc). lia.
Qed.

Lemma settled_weaken best p k : dp_inv best p k -> forall k', (length ps <= k)%nat -> dp_inv best p k'.
Proof.
  intros [H1 H2 H3 H4] k' Hk. split; [done..|]. intros i a w cp pr ix Hi Hf Hor. apply (H4 i a w cp pr ix Hi Hf).
  destruct Hor as [|[? _]]; [by left|right]. split; [done|]. apply lookup_lt_Some in Hi. lia.
Qed.

Lemma relax_candidates_spec cs : forall pre best p cp pr ix, ps = pre ++ cs -> dp_inv best p (length pre) -> at_ best p cp pr ix -> p <= len ->
  (exists best', relax_candidates segment len (N.to_nat p) cp (length pre) cs best = Ok best' /\ dp_inv best' p (length ps)) \/
  (relax_candidates segment len (N.to_nat p) cp (length pre) cs best = Err CostOverflow /\ exists q l, path q l /\ U64_MAX < total l).
Proof.
  induction cs as [|[a w] cs IH]; intros pre best p cp pr ix Hps Hi Ha Hp.
  { left. exists best. split; [done|]. rewrite Hps, app_nil_r. done. }
  assert (Hk : ps !! length pre = Some (a, w)) by (by rewrite Hps, list_lookup_middle).
  assert (Hps' : ps = (pre ++ [(a, w)]) ++ cs) by (by rewrite <- app_assoc).
  assert (Hlen : length (pre ++ [(a, w)]) = S (length pre)) by (rewrite length_app; cbn; lia).
  cbn [relax_candidates]. destruct (_ || _ || _) eqn:Hcond.
  - rewrite <- Hlen. apply (IH _ _ _ _ pr ix Hps'); [|done|done]. rewrite Hlen. destruct Hi as [H1 H2 H3 H4]. split; [done..|].
    intros i b wb cpb prb ixb Hib Hfb Hor. apply (H4 i b wb cpb prb ixb Hib Hfb). destruct Hor as [|[Hs Hlt]]; [by left|right].
    split; [done|]. assert (i <> length pre); [|lia]. intros ->. rewrite Hk in Hib. injection Hib as <- <-. unfold fits in Hfb.
    apply orb_true_iff in Hcond as [[Hc|Hc]%orb_true_iff|Hc].
    + rewrite Hs, Nat.eqb_refl in Hc. done.
    + apply N.leb_le in Hc. lia.
    + apply N.ltb_lt in Hc. lia.
  - apply orb_false_iff in Hcond as [[Hc1 Hc2]%orb_false_iff Hc3]. apply negb_false_iff, Nat.eqb_eq, N2Nat.inj in Hc1.
    apply N.leb_gt in Hc2. apply N.ltb_ge in Hc3. subst p. assert (Hf : fits a) by (unfold fits; lia).
    unfold checked_add_u64. destruct (N.leb_spec (cp + w) U64_MAX) as [Hle|Hgt]; cbn [ok_or mbind result_bind].
    + destruct (lookup_lt_is_Some_2 best (N.to_nat (sg_end (segment a)))) as [cur Hcur]; [rewrite (dp_length _ _ _ Hi); lia|].
      rewrite Hcur. cbn [ok_or mbind result_bind]. fold (improve best (sg_end (segment a)) (length pre) (sg_start (segment a)) (cp + w) cur).
      rewrite <- Hlen. apply (IH _ _ _ _ pr ix Hps'); [rewrite Hlen; by eapply relax_one| |done]. by rewrite improve_other by lia.
    + right. split; [done|]. destruct (entry_path best (sg_start (segment a)) (sg_start (segment a)) cp pr ix) as (l & Hl & Hlc); [apply Hi|done|done|].
      exists (sg_end (segment a)), (l ++ [(a, w)]). split; [constructor; [done|by eapply list_elem_of_lookup_2|done]|].
      unfold total. rewrite sum_of_snoc. unfold total in Hlc. cbn. lia.
Qed.

Lemma next_position best p : dp_inv best p (length ps) -> dp_inv best (p + 1) 0.
Proof.
  intros [H1 H2 H3 H4]. split; [done..| |].
  - intros q c pr ix Hq Ha. destruct (H3 q c pr ix Hq Ha) as [H|(i & a & w & cp & pr' & ix' & Hi & Hf & He & Hs & Hr)]; [by left|right].
    exists i, a, w, cp, pr', ix'. split_and!; [done|done|done|lia|apply Hr..].
  - intros i a w cp pr ix Hi Hf Hor. apply (H4 i a w cp pr ix Hi Hf). destruct Hor as [Hlt|[_ Hlt]]; [|lia].
    destruct (decide (sg_start (segment a) = p)) as [He|]; [right; split; [done|by eapply lookup_lt_Some]|left; lia].
Qed.

Lemma skip_position best p : dp_inv best p 0 -> best !! N.to_nat p = Some None -> dp_inv best p (length ps).
Proof.
  intros [H1 H2 H3 H4] Hn. split; [done..|]. intros i a w cp pr ix Hi Hf Hor Ha. destruct Hor as [Hlt|[He _]].
  - eapply H4; [done|done|by left|done].
  - rewrite He, Hn in Ha. done.
Qed.

Lemma relax_positions_spec m : forall p best, dp_inv best p 0 -> p + N.of_nat m <= len ->
  (exists best', relax_positions segment len (seq (N.to_nat p) m) ps best = Ok best' /\ dp_inv best' (p + N.of_nat m) 0) \/
  (relax_positions segment len (seq (N.to_nat p) m) ps best = Err CostOverflow /\ exists q l, path q l /\ U64_MAX < total l).
Proof.
  induction m as [|m IH]; intros p best Hi Hm; [left; exists best; split; [done|]; by rewrite N.add_0_r|].
  cbn [seq relax_positions]. destruct (lookup_lt_is_Some_2 best (N.to_nat p)) as [e He]; [rewrite (dp_length _ _ _ Hi); lia|].
  rewrite He. cbn [ok_or mbind result_bind]. replace (p + N.of_nat (S m)) with (p + 1 + N.of_nat m) by lia.
  replace (S (N.to_nat p)) with (N.to_nat (p + 1)) by lia.
  destruct e as [[[cost pr] ix]|].
  - destruct (relax_candidates_spec ps [] best p cost pr ix eq_refl Hi He) as [(best' & Hr & Hi')|[Hr Hbig]]; [lia| |].
    + cbn [length] in Hr. rewrite Hr. cbn [mbind result_bind]. apply IH; [by apply next_position|lia].
    + cbn [length] in Hr. rewrite Hr. cbn [mbind result_bind]. by right.
  - apply IH; [by apply next_position, skip_position|lia].
Qed.

(** Every cover costs at least the entry of its end. *)
Lemma path_bound best q l : dp_inv best len 0 -> path q l -> exists c pr ix, at_ best q c pr ix /\ c <= total l.
Proof.
  intros Hi. induction 1 as [|a w l Hp (c & pr & ix & Hc & Hle) Hin Hf].
  - exists 0, None, None. split; [apply Hi|done].
  - apply list_elem_of_lookup in Hin as (i & Hia). destruct (dp_settled _ _ _ Hi i a w c pr ix Hia Hf) as (c' & pr' & ix' & Hc' & Hle').
    + left. unfold fits in Hf. lia.
    + done.
    + exists c', pr', ix'. split; [done|]. unfold total in *. rewrite sum_of_snoc. cbn. lia.
Qed.

Lemma backtrack_spec best fuel : dp_inv best len 0 -> forall q c pr ix acc, (N.to_nat q <= fuel)%nat -> q <= len -> at_ best q c pr ix ->
  exists l, path q l /\ total l = c /\ backtrack fuel (fst <$> ps) best (N.to_nat q) acc = Ok ((fst <$> l) ++ acc).
Proof.
  intros Hi. induction fuel as [|fuel IH]; intros q c pr ix acc Hf Hq Ha.
  all: destruct (dp_derived _ _ _ Hi q c pr ix Hq Ha) as [[-> ->]|(i & a & w & cp & pr' & ix' & Hia & Hfa & He & _ & -> & -> & Hp & ->)].
  1,3: exists []; split_and!; [constructor|done|done].
  - unfold fits in Hfa. lia.
  - destruct (N.to_nat q) as [|k] eqn:Hk; [unfold fits in Hfa; lia|]. cbn [backtrack]. rewrite Ha. cbn [ok_or mbind result_bind].
    rewrite list_lookup_fmap, Hia. cbn [fmap option_fmap option_map fst ok_or mbind result_bind].
    destruct (IH (sg_start (segment a)) cp pr' ix' (a :: acc)) as (l & Hl & Ht & Hb); [unfold fits in Hfa; lia|unfold fits in Hfa; lia|done|].
    exists (l ++ [(a, w)]). rewrite Hb. subst q. split_and!.
    + constructor; [done|by eapply list_elem_of_lookup_2|done].
    + unfold total in *. rewrite sum_of_snoc, Ht. done.
    + by rewrite fmap_app, <- app_assoc.
Qed.

Lemma dp_init : dp_inv (Some (0, None, None) :: replicate n None) 0 0.
Proof.
  split.
  - cbn. by rewrite length_replicate.
  - done.
  - intros q c pr ix Hq Ha. left. destruct (N.to_nat q) as [|k] eqn:Hk; [cbn in Ha; injection Ha as <- <- <-; split; lia|].
    cbn in Ha. apply lookup_replicate in Ha as [? _]. done.
  - intros i a w cp pr ix _ _ [Hlt|[_ Hlt]]; lia.
Qed.
End Covers.

(** What a solution of the dynamic program means. *)
Definition solution {C} (segment : C -> SegmentCandidate) (len : N) (ps : list (C * N)) (res : result SegmentationError (N * list C)) : Prop :=
  match res with
  | Ok (t, segments) => exists l, segments = fst <$> l /\ path segment len ps len l /\ total l = t /\
      forall l', path segment len ps len l' -> t <= total l'
  | Err LengthZero => len = 0
  | Err NotCovered => forall l, ~ path segment len ps len l
  | Err CostOverflow => exists q l, path segment len ps q l /\ U64_MAX < total l
  | Err _ => False
  end.

Lemma solve_exact {C} (segment : C -> SegmentCandidate) len candidates costs : length candidates = length costs ->
  solution segment len (zip candidates costs) (solve segment len candidates costs).
Proof.
  intros Hlen. unfold solve. destruct (N.eqb_spec len 0) as [->|Hne]; [done|]. set (ps := zip candidates costs).
  pose proof (relax_positions_spec segment len ps (N.to_nat len) 0 _ (dp_init segment len ps) ltac:(lia)) as Hrun.
  change (N.to_nat 0) with 0%nat in Hrun. destruct Hrun as [(best & -> & Hi)|[-> Hbig]]; [|done].
  rewrite N2Nat.id, N.add_0_l in Hi. cbn [mbind result_bind].
  destruct (lookup_lt_is_Some_2 best (N.to_nat len)) as [e He]; [rewrite (dp_length _ _ _ _ _ _ Hi); lia|]. rewrite He. cbn [ok_or mbind result_bind].
  destruct e as [[[t pr] ix]|].
  - destruct (backtrack_spec segment len ps best (N.to_nat len) Hi len t pr ix []) as (l & Hl & Ht & Hb); [lia|lia|done|].
    replace candidates with (fst <$> ps) by (unfold ps; apply fst_zip; lia). rewrite Hb. cbn [mbind result_bind solution].
    exists l. split_and!; [by rewrite app_nil_r|done|done|]. intros l' Hl'.
    destruct (path_bound segment len ps best len l' Hi Hl') as (c & pr' & ix' & Hc & Hle). rewrite He in Hc. by injection Hc as <- _ _.
  - cbn. intros l Hl. destruct (path_bound segment len ps best len l Hi Hl) as (c & pr' & ix' & Hc & _). rewrite He in Hc. done.
Qed.

(** * Tilings *)

(** Segments of [cs] that cover the source up to [q] in order. *)
Inductive tiles {C} (segment : C -> SegmentCandidate) (len : N) (cs : list C) : N -> list C -> Prop :=
| tiles_nil : tiles segment len cs 0 []
| tiles_snoc c l : tiles segment len cs (sg_start (segment c)) l -> c ∈ cs ->
    sg_start (segment c) < sg_end (segment c) <= len -> tiles segment len cs (sg_end (segment c)) (l ++ [c]).

Section Priced.
Context {C : Type} (segment : C -> SegmentCandidate) (len : N) (cs : list C) (price : C -> N).
Notation ps := (zip cs (price <$> cs)).

Lemma elem_of_priced c w : (c, w) ∈ ps <-> c ∈ cs /\ w = price c.
Proof.
  induction cs as [|x l IH]; cbn; [set_solver|]. rewrite !elem_of_cons, IH. split.
  - intros [[= -> ->]|[? ?]]; tauto.
  - intros [[->|?] ->]; tauto.
Qed.

Lemma path_tiles q l : path segment len ps q l -> tiles segment len cs q (fst <$> l) /\ total l = sum_of price (fst <$> l).
Proof.
  induction 1 as [|c w l Hp [Ht Hs] Hin Hf]; [split; [constructor|done]|]. apply elem_of_priced in Hin as [Hc ->].
  rewrite fmap_app. split; [by constructor|]. unfold total in *. rewrite sum_of_snoc, Hs. cbn [fmap list_fmap fst snd]. by rewrite sum_of_snoc.
Qed.

Lemma tiles_path q l : tiles segment len cs q l -> path segment len ps q ((fun c => (c, price c)) <$> l).
Proof.
  induction 1 as [|c l Hp IH Hin Hf]; [constructor|]. rewrite fmap_app. constructor; [done|by apply elem_of_priced|done].
Qed.

Lemma priced_total l : total ((fun c => (c, price c)) <$> l) = sum_of price l.
Proof. unfold total. by rewrite sum_of_fmap. Qed.

(** What a solution means for tilings. *)
Definition optimal (res : result SegmentationError (N * list C)) : Prop :=
  match res with
  | Ok (t, segments) => tiles segment len cs len segments /\ t = sum_of price segments /\
      forall l, tiles segment len cs len l -> t <= sum_of price l
  | Err LengthZero => len = 0
  | Err NotCovered => forall l, ~ tiles segment len cs len l
  | Err CostOverflow => exists q l, tiles segment len cs q l /\ U64_MAX < sum_of price l
  | Err _ => False
  end.

Lemma solve_optimal : optimal (solve segment len cs (price <$> cs)).
Proof.
  pose proof (solve_exact segment len cs (price <$> cs) ltac:(by rewrite length_fmap)) as Hs.
  destruct (solve segment len cs (price <$> cs)) as [[t segs]|[]]; cbn [solution optimal] in *; try done.
  - destruct Hs as (l & -> & Hp & <- & Hmin). apply path_tiles in Hp as [Ht Hsum]. split_and!; [done|done|].
    intros l' Hl'. rewrite <- priced_total. by apply Hmin, tiles_path.
  - destruct Hs as (q & l & Hp & Hbig). apply path_tiles in Hp as [Ht Hsum]. exists q, (fst <$> l). split; [done|]. by rewrite <- Hsum.
  - intros l Hl. by eapply Hs, tiles_path.
Qed.
End Priced.

(** C28: The segmentation is a tiling of the source by candidates whose total
    cost no other tiling undercuts; it fails only for an empty source, when no
    tiling exists, or when the cost of some run of segments from the start
    exceeds 64 bits. *)
Theorem segmentation_optimal (len : N) (cs : list SegmentCandidate) :
  match optimal_segmentation len cs with
  | Ok plan => tiles id len cs len (sp_segments plan) /\ sp_total_cost plan = sum_of additive_cost (sp_segments plan) /\
      forall l, tiles id len cs len l -> sp_total_cost plan <= sum_of additive_cost l
  | Err LengthZero => len = 0
  | Err NotCovered => forall l, ~ tiles id len cs len l
  | Err CostOverflow => exists q l, tiles id len cs q l /\ U64_MAX < sum_of additive_cost l
  | Err _ => False
  end.
Proof.
  unfold optimal_segmentation. pose proof (solve_optimal id len cs additive_cost) as Hs. unfold id in *.
  by destruct (solve _ len cs _) as [[t segs]|[]].
Qed.

(** * Tokenizer costs *)

Lemma string_map_fresh {V} k (v : V) (m : list (string * V)) : fst (bmap_insert k v m) = None -> snd (bmap_insert k v m) ≡ₚ (k, v) :: m.
Proof.
  induction m as [|[k' v'] m IH]; [done|]. cbn. destruct (cmp k k'); cbn; [done|done|].
  destruct (bmap_insert k v m) as [old m']; cbn in *. intros ->. rewrite IH by done. apply Permutation_swap.
Qed.

Lemma bmap_insert_length {V} k (v : V) (m : list (string * V)) :
  length (snd (bmap_insert k v m)) = (length m + match fst (bmap_insert k v m) with None => 1 | Some _ => 0 end)%nat.
Proof.
  induction m as [|[k' v'] m IH]; [done|]. cbn. destruct (cmp k k'); cbn; [lia|lia|].
  destruct (bmap_insert k v m) as [old m']; cbn in *. lia.
Qed.

(** Weights and costs that are accepted. *)
Definition good_weights (ws : list TokenizerWeight) : Prop :=
  NoDup (tw_root <$> ws) /\ forall w, w ∈ ws -> tw_root w <> "" /\ 0 < weight_ppm w.
Definition good_costs (ws : list TokenizerWeight) (c : MultiTokenizerSegmentCandidate) : Prop :=
  NoDup (tc_root <$> mt_costs c) /\ forall r, r ∈ tc_root <$> mt_costs c <-> r ∈ tw_root <$> ws.

Notation as_entry := (fun w => (tw_root w, weight_ppm w)).

Lemma weight_map_spec ws : forall m, bmap_wf m ->
  match weight_map ws m with
  | Ok m' => bmap_wf m' /\ m' ≡ₚ (as_entry <$> ws) ++ m
  | Err e => e = InvalidWeights /\ ~ (good_weights ws /\ forall w, w ∈ ws -> tw_root w ∉ bmap_keys m)
  end.
Proof.
  induction ws as [|w ws IH]; intros m Hm; [done|]. cbn [weight_map].
  destruct (String.eqb_spec (tw_root w) "") as [He|Hne]; cbn [orb].
  { split; [done|]. intros [[_ Hg] _]. destruct (Hg w) as [? _]; [by left|done]. }
  destruct (N.eqb_spec (weight_ppm w) 0) as [Hz|Hnz].
  { split; [done|]. intros [[_ Hg] _]. destruct (Hg w) as [_ ?]; [by left|lia]. }
  pose proof (string_map_fresh (tw_root w) (weight_ppm w) m) as Hf. pose proof (bmap_insert_wf (tw_root w) (weight_ppm w) m Hm) as Hwf.
  pose proof (bmap_insert_old (tw_root w) (weight_ppm w) m Hm) as Hold. pose proof (elem_of_insert_keys (tw_root w) (weight_ppm w) m) as Hk.
  destruct (bmap_insert _ _ m) as [[old|] m1]; cbn [fst snd] in *.
  { split; [done|]. intros [_ Hfr]. apply (Hfr w); [by left|]. apply bmap_lookup_keys. rewrite <- Hold. by eexists. }
  specialize (IH m1 Hwf). destruct (weight_map ws m1) as [m'|e].
  - destruct IH as [Hwf' Hp]. split; [done|]. rewrite Hp, (Hf eq_refl). cbn. by rewrite Permutation_middle.
  - destruct IH as [-> Hno]. split; [done|]. intros [[Hnd Hg] Hfr]. cbn in Hnd. apply NoDup_cons in Hnd as [Hw Hnd]. apply Hno. split.
    + split; [done|]. intros x Hx. apply Hg. by right.
    + intros x Hx [Hxw|Hxk]%Hk; [|eapply Hfr; [by right|done]]. apply Hw. rewrite <- Hxw. by apply list_elem_of_fmap_2.
Qed.

Lemma cost_map_spec l : (length (cost_map l) <= length l)%nat /\ bmap_wf (cost_map l) /\
  (forall k, k ∈ bmap_keys (cost_map l) <-> k ∈ tc_root <$> l) /\ (length (cost_map l) = length l <-> NoDup (tc_root <$> l)) /\
  (NoDup (tc_root <$> l) -> forall c, c ∈ l -> bmap_lookup (tc_root c) (cost_map l) = Some (tokens c)).
Proof.
  induction l as [|c l (IH1 & IHw & IHk & IHn & IHl)] using rev_ind.
  { split_and!; [done|constructor|done|split; [constructor|done]|set_solver]. }
  unfold cost_map. rewrite foldl_app. cbn [foldl]. fold (cost_map l). rewrite length_app, fmap_app, NoDup_app. cbn [length fmap list_fmap].
  pose proof (bmap_insert_length (tc_root c) (tokens c) (cost_map l)) as Hl. pose proof (bmap_insert_old (tc_root c) (tokens c) (cost_map l) IHw) as Hold.
  assert (Hfresh : bmap_lookup (tc_root c) (cost_map l) = None <-> tc_root c ∉ tc_root <$> l).
  { rewrite <- IHk, <- bmap_lookup_keys, eq_None_not_Some. done. }
  rewrite Hl, Hold. split_and!.
  - destruct (bmap_lookup _ _); lia.
  - by apply bmap_insert_wf.
  - intros k. rewrite elem_of_insert_keys, elem_of_app, list_elem_of_singleton, IHk. tauto.
  - destruct (bmap_lookup (tc_root c) (cost_map l)) as [v|] eqn:Hv.
    + split; [lia|]. intros (_ & Hd & _). assert (Hin : tc_root c ∈ tc_root <$> l) by (apply IHk, bmap_lookup_keys; by eexists).
      exfalso. apply (Hd _ Hin). by left.
    + split.
      * intros He. split_and!; [apply IHn; lia| |apply NoDup_singleton]. intros x Hx Hx'%list_elem_of_singleton. subst x. by apply Hfresh in Hx.
      * intros (Hnd & _ & _). apply IHn in Hnd. lia.
  - intros (Hnd & Hd & _) c' [Hc'|Hc'%list_elem_of_singleton]%elem_of_app; [|subst c'; apply bmap_lookup_insert].
    rewrite bmap_lookup_insert_ne; [by apply IHl|]. intros Hx. apply (Hd (tc_root c')); [by apply list_elem_of_fmap_2|]. rewrite <- Hx. by left.
Qed.

(** The weighted tokens of a segment, rounded up for each tokenizer. *)
Definition token_count (c : MultiTokenizerSegmentCandidate) (root : string) : N :=
  default 0 (tokens <$> find (fun t => String.eqb (tc_root t) root) (mt_costs c)).
Definition weighted_of (ws : list TokenizerWeight) (c : MultiTokenizerSegmentCandidate) : N :=
  additive_cost (mt_segment c) + sum_of (fun w => ceil_div (token_count c (tw_root w) * weight_ppm w) 1000000) ws.

Lemma find_cost l t : NoDup (tc_root <$> l) -> t ∈ l -> find (fun x => String.eqb (tc_root x) (tc_root t)) l = Some t.
Proof.
  intros Hnd Ht. induction l as [|x l IH]; [set_solver|]. cbn in *. apply NoDup_cons in Hnd as [Hx Hnd].
  destruct (String.eqb_spec (tc_root x) (tc_root t)) as [He|Hne]; apply elem_of_cons in Ht as [->|Ht]; try done; [|by apply IH].
  exfalso. apply Hx. rewrite He. by apply list_elem_of_fmap_2.
Qed.

(** Values as their types bound them. *)
Definition costs_in_width (ws : list TokenizerWeight) (c : MultiTokenizerSegmentCandidate) : Prop :=
  (forall w, w ∈ ws -> weight_ppm w <= U64_MAX) /\ (forall t, t ∈ mt_costs c -> tokens t <= U64_MAX).

Lemma weighted_cost_spec weights costs price : (forall rw, rw ∈ weights -> exists v, bmap_lookup (fst rw) costs = Some v /\
    price rw = ceil_div (N.min (v * snd rw) (2 ^ 128 - 1)) 1000000) -> forall start, start < 2 ^ 128 ->
  weighted_cost weights costs start = if 2 ^ 128 <=? start + sum_of price weights then Err WeightedOverflow else Ok (start + sum_of price weights).
Proof.
  induction weights as [|[root w] weights IH]; intros Hp start Hs; cbn [weighted_cost sum_of].
  { rewrite N.add_0_r. by rewrite (proj2 (N.leb_gt _ _)). }
  destruct (Hp (root, w)) as (v & Hv & Hpr); [by left|]. cbn [fst snd] in *. rewrite Hv. cbn [ok_or mbind result_bind]. rewrite <- Hpr.
  destruct (N.leb_spec (2 ^ 128) (start + price (root, w))) as [Hle|Hlt].
  - rewrite (proj2 (N.leb_le _ _)); [done|]. lia.
  - rewrite IH by (done || (intros rw Hrw; apply Hp; by right)). by rewrite N.add_assoc.
Qed.

Lemma same_keys ws m c : bmap_wf m -> m ≡ₚ as_entry <$> ws -> bmap_keys (cost_map (mt_costs c)) = bmap_keys m <->
  forall r, r ∈ tc_root <$> mt_costs c <-> r ∈ tw_root <$> ws.
Proof.
  intros Hm Hp. destruct (cost_map_spec (mt_costs c)) as (_ & Hwf & Hk & _).
  assert (Hmk : forall r, r ∈ bmap_keys m <-> r ∈ tw_root <$> ws) by (intros r; unfold bmap_keys; by rewrite Hp, <- list_fmap_compose).
  split.
  - intros He r. by rewrite <- Hk, He.
  - intros Hr. apply sorted_ext; [done|done|]. intros r. by rewrite Hk, Hmk.
Qed.

Lemma effective_cost_spec ws m c : costs_in_width ws c -> bmap_wf m -> m ≡ₚ as_entry <$> ws ->
  match effective_cost m c with
  | Ok e => good_costs ws c /\ e = weighted_of ws c
  | Err TokenizerCosts => ~ good_costs ws c
  | Err e => (e = WeightedOverflow \/ e = WeightedTooWide) /\ U64_MAX < weighted_of ws c
  end.
Proof.
  intros [Hww Hwt] Hm Hp. unfold effective_cost. destruct (cost_map_spec (mt_costs c)) as (_ & Hwf & Hkeys & Hnd & Hlk).
  pose proof (same_keys ws m c Hm Hp) as Hsame. unfold good_costs. destruct (Nat.eqb_spec (length (cost_map (mt_costs c))) (length (mt_costs c))) as [Hl|Hl]; cbn [negb orb].
  2:{ intros [Hn _]. by apply Hl, Hnd. }
  apply Hnd in Hl. case_bool_decide as Hk; cbn [negb]; [|intros [_ Hx]; exact (Hk (proj2 Hsame Hx))]. pose proof (proj1 Hsame Hk) as Hr.
  set (price := fun rw : string * N => ceil_div (token_count c (fst rw) * snd rw) 1000000).
  rewrite (weighted_cost_spec m _ price); [|intros [r v] Hrw|done].
  - assert (He : weighted_of ws c = additive_cost (mt_segment c) + sum_of price m) by (unfold weighted_of; by rewrite Hp, sum_of_fmap).
    rewrite N.add_0_l. destruct (N.leb_spec (2 ^ 128) (sum_of price m)); cbn [mbind result_bind]; [split; [by left|unfold U64_MAX; lia]|].
    destruct (N.ltb_spec U64_MAX (sum_of price m)); [split; [by right|lia]|]. unfold checked_add_u64.
    destruct (N.leb_spec (additive_cost (mt_segment c) + sum_of price m) U64_MAX); cbn [ok_or]; [done|]. split; [by left|lia].
  - rewrite Hp in Hrw. apply list_elem_of_fmap in Hrw as (w & [= -> ->] & Hw). cbn [fst snd].
    assert (Hin : tw_root w ∈ tc_root <$> mt_costs c) by (by apply Hr, list_elem_of_fmap_2).
    apply list_elem_of_fmap in Hin as (t & Htr & Ht). rewrite Htr. exists (tokens t). split; [by apply Hlk|]. unfold price, token_count. cbn [fst snd].
    rewrite find_cost by done. cbn [fmap option_fmap option_map]. f_equal. symmetry. apply N.min_l. specialize (Hww w Hw). specialize (Hwt t Ht). unfold U64_MAX in *.
    transitivity ((2 ^ 64 - 1) * (2 ^ 64 - 1)); [by apply N.mul_le_mono|done].
Qed.

Lemma effective_costs_spec ws m cs : (forall c, c ∈ cs -> costs_in_width ws c) -> bmap_wf m -> m ≡ₚ as_entry <$> ws ->
  match effective_costs m cs with
  | Ok es => es = weighted_of ws <$> cs /\ forall c, c ∈ cs -> good_costs ws c
  | Err TokenizerCosts => exists c, c ∈ cs /\ ~ good_costs ws c
  | Err e => (e = WeightedOverflow \/ e = WeightedTooWide) /\ exists c, c ∈ cs /\ U64_MAX < weighted_of ws c
  end.
Proof.
  intros Hw Hm Hp. induction cs as [|c cs IH]; [split; [done|set_solver]|]. cbn [effective_costs].
  pose proof (effective_cost_spec ws m c (Hw c ltac:(by left)) Hm Hp) as Hc. destruct (effective_cost m c) as [e|e]; cbn [mbind result_bind].
  - destruct Hc as [Hg ->]. specialize (IH ltac:(intros x Hx; apply Hw; by right)). destruct (effective_costs m cs) as [es|e]; cbn [mbind result_bind].
    + destruct IH as [-> Hall]. split; [done|]. intros x [->|Hx]%elem_of_cons; [done|by apply Hall].
    + destruct e; try (destruct IH as [? (x & Hx & Hb)]; split; [done|]; exists x; split; [by right|done]).
      destruct IH as (x & Hx & Hb). exists x. split; [by right|done].
  - destruct e; try (destruct Hc as [? Hb]; split; [done|]; exists c; split; [by left|done]). exists c. split; [by left|done].
Qed.

(** With several tokenizers the segmentation is a tiling of least total
    cost, each segment charged its own cost and, for every tokenizer, its
    weighted tokens rounded up; every refusal names what is wrong with the
    weights, the costs or the candidates. *)
Theorem multi_segmentation_optimal (len : N) (cs : list MultiTokenizerSegmentCandidate) (ws : list TokenizerWeight) :
  (forall c, c ∈ cs -> costs_in_width ws c) ->
  match optimal_multi_tokenizer_segmentation len cs ws with
  | Ok plan => tiles mt_segment len cs len (mp_segments plan) /\ mp_total_cost plan = sum_of (weighted_of ws) (mp_segments plan) /\
      (forall l, tiles mt_segment len cs len l -> mp_total_cost plan <= sum_of (weighted_of ws) l) /\ forall c, c ∈ cs -> good_costs ws c
  | Err NoTokenizer => ws = []
  | Err InvalidWeights => ~ good_weights ws
  | Err TokenizerCosts => exists c, c ∈ cs /\ ~ good_costs ws c
  | Err WeightedOverflow | Err WeightedTooWide => exists c, c ∈ cs /\ U64_MAX < weighted_of ws c
  | Err LengthZero => len = 0
  | Err NotCovered => forall l, ~ tiles mt_segment len cs len l
  | Err CostOverflow => exists q l, tiles mt_segment len cs q l /\ U64_MAX < sum_of (weighted_of ws) l
  | Err _ => False
  end.
Proof.
  intros Hw. unfold optimal_multi_tokenizer_segmentation. case_bool_decide; [done|].
  pose proof (weight_map_spec ws [] ltac:(constructor)) as Hm. destruct (weight_map ws []) as [m|e]; cbn [mbind result_bind].
  2:{ destruct Hm as [-> Hno]. intros Hg. apply Hno. split; [done|]. set_solver. }
  destruct Hm as [Hwf Hp]. rewrite app_nil_r in Hp. pose proof (effective_costs_spec ws m cs Hw Hwf Hp) as He.
  destruct (effective_costs m cs) as [es|e]; cbn [mbind result_bind].
  2:{ destruct e; try (destruct He as [[?|?] ?]; done). done. }
  destruct He as [-> Hg]. pose proof (solve_optimal mt_segment len cs (weighted_of ws)) as Hs.
  destruct (solve mt_segment len cs _) as [[t segs]|[]]; cbn [mbind result_bind mp_segments mp_total_cost]; try done.
  destruct Hs as (H1 & H2 & H3). split_and!; done.
Qed.

(** * Pareto frontier *)

Lemma dominates_spec a b : dominates_or_equal a b = true <->
  stored_bytes a <= stored_bytes b /\ wire_bytes a <= wire_bytes b /\ source_tokens a <= source_tokens b /\
  visible_tokens a <= visible_tokens b /\ expansion_work a <= expansion_work b /\ verification_work a <= verification_work b /\
  latency_micros a <= latency_micros b /\ metadata_bytes a <= metadata_bytes b.
Proof. unfold dominates_or_equal. rewrite !andb_true_iff, !N.leb_le. tauto. Qed.

Definition resource_sum (r : RepresentationResources) : N :=
  stored_bytes r + wire_bytes r + source_tokens r + visible_tokens r + expansion_work r + verification_work r + latency_micros r + metadata_bytes r.

Lemma strictly_better_spec a b : strictly_better_than a b = true <-> dominates_or_equal a b = true /\ a <> b.
Proof. unfold strictly_better_than. rewrite andb_true_iff, negb_true_iff, bool_decide_eq_false. done. Qed.

Lemma dominates_trans a b c : dominates_or_equal a b = true -> dominates_or_equal b c = true -> dominates_or_equal a c = true.
Proof. rewrite !dominates_spec. lia. Qed.

Lemma strictly_better_sum a b : strictly_better_than a b = true -> resource_sum a < resource_sum b.
Proof.
  rewrite strictly_better_spec, dominates_spec. intros [H Hne]. unfold resource_sum.
  destruct (decide (resource_sum a = resource_sum b)) as [He|]; unfold resource_sum in *; [|lia].
  exfalso. apply Hne. destruct a, b; cbn in *. f_equal; lia.
Qed.

Lemma strictly_better_trans a b c : strictly_better_than a b = true -> strictly_better_than b c = true -> strictly_better_than a c = true.
Proof.
  intros H1 H2. pose proof (strictly_better_sum _ _ H1). pose proof (strictly_better_sum _ _ H2).
  apply strictly_better_spec in H1 as [H1 _], H2 as [H2 _]. apply strictly_better_spec. split; [by eapply dominates_trans|].
  intros ->. lia.
Qed.

(** The same content through the same adapter, at least as exact, and strictly
    cheaper. *)
Definition outdoes (a b : RepresentationRecord) : Prop :=
  rr_semantic_root a = rr_semantic_root b /\ rr_adapter_root a = rr_adapter_root b /\
  (rr_exact b = true -> rr_exact a = true) /\ strictly_better_than (rr_resources a) (rr_resources b) = true.

Lemma prunes_spec a b : prunes a b = true <-> representation_root a <> representation_root b /\ outdoes a b.
Proof.
  unfold prunes, outdoes. rewrite !andb_true_iff, orb_true_iff, !negb_true_iff, !String.eqb_eq, String.eqb_neq.
  split; [|intros (? & ? & ? & He & ?)]; [intros ((((? & ?) & ?) & He) & ?)|]; split_and!; try done.
  - intros Hb. destruct He as [He|He]; congruence.
  - destruct (rr_exact b); [right; by apply He|by left].
Qed.

Lemma outdoes_trans a b c : outdoes a b -> outdoes b c -> outdoes a c.
Proof.
  intros (H1 & H2 & H3 & H4) (G1 & G2 & G3 & G4). split_and!; [congruence|congruence|by intros Hc; apply H3, G3|by eapply strictly_better_trans].
Qed.

Lemma elem_of_frontier records r : r ∈ pareto_frontier records <-> r ∈ records /\ forall o, o ∈ records -> prunes o r = false.
Proof.
  unfold pareto_frontier. rewrite sort_by_key_perm, list_elem_of_In, List.filter_In, <- list_elem_of_In, negb_true_iff.
  apply and_iff_compat_l. rewrite <- not_true_iff_false, existsb_exists. setoid_rewrite <- list_elem_of_In. split.
  - intros Hn o Ho. apply not_true_is_false. intros Hp. apply Hn. by exists o.
  - intros Hall (o & Ho & Hp). by rewrite (Hall o Ho) in Hp.
Qed.

Lemma frontier_dominates records : forall r, r ∈ records -> r ∉ pareto_frontier records -> exists f, f ∈ pareto_frontier records /\ outdoes f r.
Proof.
  intros r. remember (resource_sum (rr_resources r)) as k eqn:Hk. revert r Hk. induction k as [k IH] using (well_founded_induction N.lt_wf_0).
  intros r Hk Hr Hno. destruct (decide (Exists (fun o => prunes o r = true) records)) as [Hex|Hnex].
  - apply list.Exists_exists in Hex as (o & Ho & [_ Hp]%prunes_spec). destruct (decide (o ∈ pareto_frontier records)) as [Hof|Hof]; [by exists o|].
    destruct (IH (resource_sum (rr_resources o))) with (r := o) as (f & Hf & Hfo); [|done|done|done|by exists f; split; [|by eapply outdoes_trans]].
    subst k. by apply strictly_better_sum, Hp.
  - exfalso. apply Hno, elem_of_frontier. split; [done|]. intros o Ho. apply not_true_is_false. intros Hp. apply Hnex, list.Exists_exists. by exists o.
Qed.

Lemma filter_perm {A} (f : A -> bool) (l l' : list A) : l ≡ₚ l' -> List.filter f l ≡ₚ List.filter f l'.
Proof. induction 1 as [|x l l' Hp IH|x y l|]; cbn; [done| |destruct (f x), (f y); (done || apply Permutation_swap)|by etrans]. destruct (f x); by rewrite IH. Qed.

Lemma filter_keys {A B} (key : A -> B) (f : A -> bool) (l : list A) : NoDup (key <$> l) -> NoDup (key <$> List.filter f l).
Proof.
  induction l as [|x l IH]; [done|]. cbn. intros [Hx Hnd]%NoDup_cons. destruct (f x); [|by apply IH]. cbn. constructor; [|by apply IH].
  intros Hin. apply Hx. apply list_elem_of_fmap in Hin as (y & -> & Hy). apply list_elem_of_In, List.filter_In in Hy as [Hy _].
  apply list_elem_of_fmap_2. by apply list_elem_of_In.
Qed.

(** The frontier keeps exactly the records that no other record undercuts;
    every record left out is outdone by one that is kept; and for distinct
    roots the frontier does not depend on the order of the records. *)
Theorem pareto_frontier_exact (records : list RepresentationRecord) :
  (forall r, r ∈ pareto_frontier records <-> r ∈ records /\
     forall o, o ∈ records -> representation_root o <> representation_root r -> ~ outdoes o r) /\
  (forall r, r ∈ records -> r ∉ pareto_frontier records -> exists f, f ∈ pareto_frontier records /\ outdoes f r) /\
  (forall records', records ≡ₚ records' -> NoDup (representation_root <$> records) -> pareto_frontier records = pareto_frontier records').
Proof.
  split_and!.
  - intros r. rewrite elem_of_frontier. apply and_iff_compat_l. split; intros Hall o Ho.
    + intros Hne Ho'. assert (Hp : prunes o r = true) by (by apply prunes_spec). by rewrite (Hall o Ho) in Hp.
    + apply not_true_is_false. intros [Hne Hp]%prunes_spec. by apply (Hall o Ho).
  - apply frontier_dominates.
  - intros records' Hp Hnd. unfold pareto_frontier. set (keep := fun rs c => negb (existsb (fun o => prunes o c) rs)).
    assert (Hk : forall c, keep records c = keep records' c).
    { intros c. unfold keep. f_equal. apply eq_true_iff_eq. rewrite !existsb_exists. setoid_rewrite <- list_elem_of_In. by setoid_rewrite Hp. }
    rewrite !(List.filter_ext _ _ Hk). apply sort_by_key_unique; [by apply filter_keys|by apply filter_perm].
Qed.
