(* ===== verification/LivePareto.v ===== *)
(** Live Pareto decisions of tokenzero-core
    ([tokenzero-core/src/live_pareto.rs]): candidates bound to protected
    outcomes, a verifier and the freshness of their evidence, their dominance,
    and the decision with its canonical body and self-check.

    Error texts are constructors; the JSON decoder of [from_canonical_bytes] is
    the parameter [BodyDecoder]. *)

From S2P Require Import Prelude Ordering Identity BMap Representation.
From S2P Require Import Canonical.
From S2P Require Import DurableStore.

#[local] Open Scope N_scope.

Definition LIVE_PARETO_CONTRACT_VERSION : N := 1.
Definition LIVE_PARETO_MAX_CANDIDATES : N := 1024.
Definition LIVE_PARETO_MAX_METRICS : N := 128.
Definition LIVE_PARETO_MAX_ID_BYTES : N := 128.
Definition LIVE_PARETO_MAX_CANONICAL_BYTES : N := 1048576.
Definition LIVE_DOMAIN : bytes := domain "tokenzero.live_pareto".

Inductive LiveError :=
| InvalidMetricId | MetricRegresses
| InvalidVerifierId | InvalidVerifierVersion
| InvalidCandidateId | ControlInCandidateId | EmptyRoot | TooManyMetrics | DuplicateMetric | UnsortedMetrics
| ContractVersion | BodyTooLarge | EntryCount | CanonicalMismatch | DigestMismatch | UnsortedFrontier | UnsortedEntries
| BindingMismatch | IneligibleInFrontier | FrontierMismatch
| BytesTooLarge | Undecodable | NotCanonical
| NoCandidates | TooManyCandidates | DuplicateCandidate.

(** [is_empty() || len() > MAX || any control]. *)
Definition bad_id (s : string) : bool :=
  String.eqb s "" || (LIVE_PARETO_MAX_ID_BYTES <? len (string_bytes s)) || has_control (string_bytes s).

(** * Protected outcomes *)

Inductive MetricOrder := AtLeast | AtMost | Exact.
#[global] Instance MetricOrder_eq_dec : EqDecision MetricOrder.
Proof. solve_decision. Defined.
Definition MetricOrder_as_str (o : MetricOrder) : string :=
  match o with AtLeast => "at_least" | AtMost => "at_most" | Exact => "exact" end.

Record ProtectedOutcome := mkOutcome { metric_id : string; order : MetricOrder; baseline_value : Z; candidate_value : Z }.
#[global] Instance ProtectedOutcome_eq_dec : EqDecision ProtectedOutcome.
Proof. solve_decision. Defined.

Definition candidate_no_worse_than_baseline (p : ProtectedOutcome) : bool :=
  match order p with
  | AtLeast => (baseline_value p <=? candidate_value p)%Z
  | AtMost => (candidate_value p <=? baseline_value p)%Z
  | Exact => (candidate_value p =? baseline_value p)%Z
  end.

Definition ProtectedOutcome_validate (p : ProtectedOutcome) : result LiveError () :=
  reject? bad_id (metric_id p) with InvalidMetricId in
  reject? negb (candidate_no_worse_than_baseline p) with MetricRegresses in
  Ok ().

Definition no_worse_than (a b : ProtectedOutcome) : bool :=
  if negb (String.eqb (metric_id a) (metric_id b)) || negb (bool_decide (order a = order b)) then false
  else
    match order a with
    | AtLeast => (candidate_value b <=? candidate_value a)%Z
    | AtMost => (candidate_value a <=? candidate_value b)%Z
    | Exact => (candidate_value a =? candidate_value b)%Z
    end.

Definition outcome_better_than (a b : ProtectedOutcome) : bool :=
  if negb (String.eqb (metric_id a) (metric_id b)) || negb (bool_decide (order a = order b)) then false
  else
    match order a with
    | AtLeast => (candidate_value b <? candidate_value a)%Z
    | AtMost => (candidate_value a <? candidate_value b)%Z
    | Exact => false
    end.

(** * Candidates *)

Record VerifierIdentity := mkVerifier { verifier_id : string; verifier_version : string }.
#[global] Instance VerifierIdentity_eq_dec : EqDecision VerifierIdentity.
Proof. solve_decision. Defined.

Definition VerifierIdentity_validate (v : VerifierIdentity) : result LiveError () :=
  reject? bad_id (verifier_id v) with InvalidVerifierId in
  reject? bad_id (verifier_version v) with InvalidVerifierVersion in
  Ok ().

Inductive EvidenceFreshness := Fresh | Stale | Unknown | Missing.
#[global] Instance EvidenceFreshness_eq_dec : EqDecision EvidenceFreshness.
Proof. solve_decision. Defined.
Definition is_fresh (f : EvidenceFreshness) : bool := match f with Fresh => true | _ => false end.
Definition EvidenceFreshness_as_str (f : EvidenceFreshness) : string :=
  match f with Fresh => "fresh" | Stale => "stale" | Unknown => "unknown" | Missing => "missing" end.

Record LiveCandidate := mkCandidate {
  candidate_id : string; semantic_root : string; adapter_root : string; verifier : VerifierIdentity;
  freshness : EvidenceFreshness; protected_vector : list ProtectedOutcome; resources : RepresentationResources; exact : bool }.
#[global] Instance LiveCandidate_eq_dec : EqDecision LiveCandidate.
Proof. solve_decision. Defined.

Fixpoint check_vector (v : list ProtectedOutcome) (seen : list string) (prev : option string) : result LiveError () :=
  match v with
  | [] => Ok ()
  | m :: rest =>
      let? _ := ProtectedOutcome_validate m in
      let '(fresh, seen) := bset_insert (metric_id m) seen in
      reject? negb fresh with DuplicateMetric in
      reject? match prev with Some p => geb p (metric_id m) | None => false end with UnsortedMetrics in
      check_vector rest seen (Some (metric_id m))
  end.

Definition LiveCandidate_validate (c : LiveCandidate) : result LiveError () :=
  reject? String.eqb (candidate_id c) "" || (LIVE_PARETO_MAX_ID_BYTES <? len (string_bytes (candidate_id c))) with InvalidCandidateId in
  reject? has_control (string_bytes (candidate_id c)) with ControlInCandidateId in
  reject? String.eqb (semantic_root c) "" || String.eqb (adapter_root c) "" with EmptyRoot in
  let? _ := VerifierIdentity_validate (verifier c) in
  reject? LIVE_PARETO_MAX_METRICS <? N.of_nat (length (protected_vector c)) with TooManyMetrics in
  check_vector (protected_vector c) [] None.

Definition comparable_outcomes (a b : ProtectedOutcome) : bool :=
  negb (negb (String.eqb (metric_id a) (metric_id b)) || negb (bool_decide (order a = order b)) ||
        negb (baseline_value a =? baseline_value b)%Z).
Definition protected_comparable (a b : LiveCandidate) : bool :=
  if negb (length (protected_vector a) =? length (protected_vector b))%nat then false
  else forallb (fun p => comparable_outcomes (fst p) (snd p)) (zip (protected_vector a) (protected_vector b)).

Definition live_dominates (a b : LiveCandidate) : bool :=
  if negb (is_fresh (freshness a)) || bool_decide (protected_vector a = []) then false
  else if String.eqb (candidate_id a) (candidate_id b) then false
  else if negb (String.eqb (semantic_root a) (semantic_root b)) || negb (String.eqb (adapter_root a) (adapter_root b)) then false
  else if negb (bool_decide (verifier a = verifier b)) then false
  else if negb (protected_comparable a b) then false
  else if exact b && negb (exact a) then false
  else if negb (forallb (fun p => no_worse_than (fst p) (snd p)) (zip (protected_vector a) (protected_vector b))) then false
  else if negb (dominates_or_equal (resources a) (resources b)) then false
  else (exact a && negb (exact b)) || strictly_better_than (resources a) (resources b) ||
       existsb (fun p => outcome_better_than (fst p) (snd p)) (zip (protected_vector a) (protected_vector b)).

(** * Bodies and digests *)

Record LiveEntry := mkEntry {
  en_candidate_id : string; en_binding_digest : string; en_freshness : EvidenceFreshness; en_verifier : VerifierIdentity;
  en_protected_vector : list ProtectedOutcome; en_resources : RepresentationResources; en_exact : bool;
  en_semantic_root : string; en_adapter_root : string; in_frontier : bool; en_reasons : list string }.

Record LiveParetoBody := mkBody { lb_contract_version : N; lb_frontier_ids : list string; lb_entries : list LiveEntry }.

Record LiveParetoDecision := mkDecision {
  ld_contract_version : N; decision_digest : string; frontier_ids : list string; entries : list LiveEntry; ld_canonical_json : string }.

Definition jresources (r : RepresentationResources) : Value :=
  Object [("storedBytes", jnum (stored_bytes r)); ("wireBytes", jnum (wire_bytes r)); ("sourceTokens", jnum (source_tokens r));
          ("visibleTokens", jnum (visible_tokens r)); ("expansionWork", jnum (expansion_work r));
          ("verificationWork", jnum (verification_work r)); ("latencyMicros", jnum (latency_micros r)); ("metadataBytes", jnum (metadata_bytes r))].
Definition joutcome (p : ProtectedOutcome) : Value :=
  Object [("metricId", VString (metric_id p)); ("order", VString (MetricOrder_as_str (order p)));
          ("baselineValue", jint (baseline_value p)); ("candidateValue", jint (candidate_value p))].
Definition jverifier (v : VerifierIdentity) : Value :=
  Object [("verifierId", VString (verifier_id v)); ("verifierVersion", VString (verifier_version v))].
Definition jentry (e : LiveEntry) : Value :=
  Object [("candidateId", VString (en_candidate_id e)); ("candidateBindingDigest", VString (en_binding_digest e));
          ("freshness", VString (EvidenceFreshness_as_str (en_freshness e))); ("verifier", jverifier (en_verifier e));
          ("protectedVector", Array (joutcome <$> en_protected_vector e)); ("resources", jresources (en_resources e));
          ("exact", Bool (en_exact e)); ("semanticRoot", VString (en_semantic_root e)); ("adapterRoot", VString (en_adapter_root e));
          ("inFrontier", Bool (in_frontier e)); ("reasons", jstrs (en_reasons e))].
Definition jbody (b : LiveParetoBody) : Value :=
  Object [("contract_version", jnum (lb_contract_version b)); ("frontier_ids", jstrs (lb_frontier_ids b)); ("entries", Array (jentry <$> lb_entries b))].

Section Decisions.
Context `{Platform}.

Definition VerifierIdentity_digest (v : VerifierIdentity) : Digest :=
  sha256 (canonical_bytes_of (Object [("verifier_id", VString (verifier_id v)); ("verifier_version", VString (verifier_version v))])).

Definition binding_digest (c : LiveCandidate) : Digest :=
  sha256 (canonical_bytes_of (Object
    [("candidate_id", VString (candidate_id c)); ("semantic_root", VString (semantic_root c)); ("adapter_root", VString (adapter_root c));
     ("verifier_id", VString (verifier_id (verifier c))); ("verifier_version", VString (verifier_version (verifier c)));
     ("freshness", VString (EvidenceFreshness_as_str (freshness c))); ("protected_vector", Array (joutcome <$> protected_vector c));
     ("resources", jresources (resources c)); ("exact", Bool (exact c))])).

Definition expected_digest (value : Value) : string := Sha256Digest_to_hex (sha256 (LIVE_DOMAIN ++ canonical_bytes_of value)).

Definition candidate_of (e : LiveEntry) : LiveCandidate :=
  mkCandidate (en_candidate_id e) (en_semantic_root e) (en_adapter_root e) (en_verifier e) (en_freshness e)
    (en_protected_vector e) (en_resources e) (en_exact e).

(** The loop over the entries: the ids flagged as frontier, in order. *)
Fixpoint check_entries (es : list LiveEntry) (previous : option string) (flagged : list string) : result LiveError (list string) :=
  match es with
  | [] => Ok flagged
  | e :: rest =>
      reject? match previous with Some p => geb p (en_candidate_id e) | None => false end with UnsortedEntries in
      let? _ := LiveCandidate_validate (candidate_of e) in
      reject? negb (String.eqb (Sha256Digest_to_hex (binding_digest (candidate_of e))) (en_binding_digest e)) with BindingMismatch in
      let? flagged' :=
        (if in_frontier e then
           reject? negb (is_fresh (en_freshness e)) || bool_decide (en_protected_vector e = []) with IneligibleInFrontier in
           Ok (flagged ++ [en_candidate_id e])
         else Ok flagged) in
      check_entries rest (Some (en_candidate_id e)) flagged'
  end.

Definition LiveParetoDecision_validate (d : LiveParetoDecision) : result LiveError () :=
  reject? negb (ld_contract_version d =? LIVE_PARETO_CONTRACT_VERSION) with ContractVersion in
  reject? LIVE_PARETO_MAX_CANONICAL_BYTES <? len (string_bytes (ld_canonical_json d)) with BodyTooLarge in
  reject? bool_decide (entries d = []) || (LIVE_PARETO_MAX_CANDIDATES <? N.of_nat (length (entries d))) with EntryCount in
  let value := jbody (mkBody (ld_contract_version d) (frontier_ids d) (entries d)) in
  let canonical := canonical_json json_string value in
  reject? negb (String.eqb canonical (ld_canonical_json d)) with CanonicalMismatch in
  reject? negb (String.eqb (expected_digest value) (decision_digest d)) with DigestMismatch in
  reject? negb (strictly_ascending (frontier_ids d)) with UnsortedFrontier in
  let? flagged := check_entries (entries d) None [] in
  reject? negb (bool_decide (flagged = frontier_ids d)) with FrontierMismatch in
  Ok ().

(** [serde_json::from_slice] to a value, and [from_value] to a body. *)
Class BodyDecoder := { value_of_slice : bytes -> option Value; body_of_value : Value -> option LiveParetoBody }.

Definition from_canonical_bytes `{BodyDecoder} (b : bytes) : result LiveError LiveParetoDecision :=
  reject? LIVE_PARETO_MAX_CANONICAL_BYTES <? len b with BytesTooLarge in
  let? value := ok_or (value_of_slice b) Undecodable in
  let canonical := canonical_json json_string value in
  reject? negb (bool_decide (string_bytes canonical = b)) with NotCanonical in
  let? body := ok_or (body_of_value value) Undecodable in
  let d := mkDecision (lb_contract_version body) (expected_digest value) (lb_frontier_ids body) (lb_entries body) canonical in
  let? _ := LiveParetoDecision_validate d in
  Ok d.

Definition is_deterministic (d : LiveParetoDecision) : bool := is_ok (LiveParetoDecision_validate d).

(** * The decision *)

Fixpoint check_candidates (cs : list LiveCandidate) (seen : list string) : result LiveError () :=
  match cs with
  | [] => Ok ()
  | c :: rest =>
      let? _ := LiveCandidate_validate c in
      let '(fresh, seen) := bset_insert (candidate_id c) seen in
      reject? negb fresh with DuplicateCandidate in
      check_candidates rest seen
  end.

(** The inner loop: the first other candidate that dominates. *)
Fixpoint first_dominator (i j : nat) (others : list LiveCandidate) (cand : LiveCandidate) : option string :=
  match others with
  | [] => None
  | other :: rest =>
      if (i =? j)%nat then first_dominator i (S j) rest cand
      else if live_dominates other cand then Some (candidate_id other)
      else first_dominator i (S j) rest cand
  end.

(** [entry(id).and_modify(keep the smaller).or_insert(dominator)]. *)
Definition note_dominator (id dominator : string) (m : list (string * string)) : list (string * string) :=
  match bmap_lookup id m with
  | Some cur => if ltb dominator cur then snd (bmap_insert id dominator m) else m
  | None => snd (bmap_insert id dominator m)
  end.

Fixpoint dominated_map (i : nat) (cands sorted : list LiveCandidate) (m : list (string * string)) : list (string * string) :=
  match cands with
  | [] => m
  | cand :: rest =>
      let m' :=
        if negb (is_fresh (freshness cand)) then m
        else match first_dominator i 0 sorted cand with Some d => note_dominator (candidate_id cand) d m | None => m end in
      dominated_map (S i) rest sorted m'
  end.

Definition freshness_reasons (f : EvidenceFreshness) : list string :=
  match f with Stale => ["stale_evidence"] | Unknown => ["unknown_evidence"] | Missing => ["missing_evidence"] | Fresh => [] end.

Definition entry_of (dominated_by : list (string * string)) (cand : LiveCandidate) : LiveEntry :=
  let reasons := freshness_reasons (freshness cand) in
  let reasons :=
    if bool_decide (protected_vector cand = []) && is_fresh (freshness cand) then
      if negb (bool_decide ("missing_evidence" ∈ reasons)) then reasons ++ ["missing_evidence"] else reasons
    else reasons in
  let dominated := bmap_lookup (candidate_id cand) dominated_by in
  let reasons := match dominated with Some d => reasons ++ [("dominated_by:" +:+ d)%string] | None => reasons end in
  let in_frontier :=
    is_fresh (freshness cand) && match dominated with None => true | Some _ => false end && negb (bool_decide (protected_vector cand = [])) in
  mkEntry (candidate_id cand) (Sha256Digest_to_hex (binding_digest cand)) (freshness cand) (verifier cand) (protected_vector cand)
    (resources cand) (exact cand) (semantic_root cand) (adapter_root cand) in_frontier reasons.

Definition live_entries (candidates : list LiveCandidate) : list LiveEntry :=
  let sorted := sort_by_key candidate_id candidates in
  let dominated_by := dominated_map 0 sorted sorted [] in
  entry_of dominated_by <$> sorted.

Definition live_frontier (es : list LiveEntry) : list string := sort (en_candidate_id <$> List.filter in_frontier es).

Definition decide_live_pareto (candidates : list LiveCandidate) : result LiveError LiveParetoDecision :=
  reject? bool_decide (candidates = []) with NoCandidates in
  reject? LIVE_PARETO_MAX_CANDIDATES <? N.of_nat (length candidates) with TooManyCandidates in
  let? _ := check_candidates candidates [] in
  let es := live_entries candidates in
  let frontier := live_frontier es in
  let canonical_body := canonical_json json_string (jbody (mkBody LIVE_PARETO_CONTRACT_VERSION frontier es)) in
  reject? LIVE_PARETO_MAX_CANONICAL_BYTES <? len (string_bytes canonical_body) with BodyTooLarge in
  let digest := Sha256Digest_to_hex (sha256 (LIVE_DOMAIN ++ string_bytes canonical_body)) in
  let d := mkDecision LIVE_PARETO_CONTRACT_VERSION digest frontier es canonical_body in
  let? _ := LiveParetoDecision_validate d in
  Ok d.
End Decisions.

(** * Theorems

    Live dominance is a strict partial order on candidates with distinct ids, a
    decision's frontier is exactly its undominated eligible candidates, and a
    decision passes its own check and survives its canonical bytes. *)

(** * Dominance *)

Lemma forallb_zip {A B} (f : A * B -> bool) (l : list A) (k : list B) :
  forallb f (zip l k) = true <-> forall i a b, l !! i = Some a -> k !! i = Some b -> f (a, b) = true.
Proof.
  rewrite forallb_forall. setoid_rewrite <- list_elem_of_In. split.
  - intros Hall i a b Ha Hb. apply Hall, list_elem_of_lookup. exists i. by rewrite lookup_zip_with, Ha, Hb.
  - intros Hall [a b] Hin. apply list_elem_of_lookup in Hin as (i & Hi). rewrite lookup_zip_with in Hi.
    destruct (l !! i) as [a'|] eqn:Ha; [|done]. destruct (k !! i) as [b'|] eqn:Hb; [|done]. cbn in Hi. injection Hi as -> ->. by apply (Hall i).
Qed.

Lemma existsb_zip {A B} (f : A * B -> bool) (l : list A) (k : list B) :
  existsb f (zip l k) = true <-> exists i a b, l !! i = Some a /\ k !! i = Some b /\ f (a, b) = true.
Proof.
  rewrite existsb_exists. setoid_rewrite <- list_elem_of_In. split.
  - intros ([a b] & Hin & Hf). apply list_elem_of_lookup in Hin as (i & Hi). rewrite lookup_zip_with in Hi.
    destruct (l !! i) as [a'|] eqn:Ha; [|done]. destruct (k !! i) as [b'|] eqn:Hb; [|done]. cbn in Hi. injection Hi as -> ->. by exists i, a, b.
  - intros (i & a & b & Ha & Hb & Hf). exists (a, b). split; [|done]. apply list_elem_of_lookup. exists i. by rewrite lookup_zip_with, Ha, Hb.
Qed.

Definition pairwise (f : ProtectedOutcome -> ProtectedOutcome -> bool) (a b : LiveCandidate) : Prop :=
  forall i pa pb, protected_vector a !! i = Some pa -> protected_vector b !! i = Some pb -> f pa pb = true.

(** Better somewhere. *)
Definition improves (a b : LiveCandidate) : Prop :=
  (exact a = true /\ exact b = false) \/ strictly_better_than (resources a) (resources b) = true \/
  exists i pa pb, protected_vector a !! i = Some pa /\ protected_vector b !! i = Some pb /\ outcome_better_than pa pb = true.

(** No worse anywhere, on comparable evidence. *)
Record no_worse (a b : LiveCandidate) : Prop := {
  nw_semantic : semantic_root a = semantic_root b;
  nw_adapter : adapter_root a = adapter_root b;
  nw_verifier : verifier a = verifier b;
  nw_length : length (protected_vector a) = length (protected_vector b);
  nw_comparable : pairwise comparable_outcomes a b;
  nw_exact : exact b = true -> exact a = true;
  nw_outcomes : pairwise no_worse_than a b;
  nw_resources : dominates_or_equal (resources a) (resources b) = true }.

Definition eligible (c : LiveCandidate) : Prop := freshness c = Fresh /\ protected_vector c <> [].

Lemma live_dominates_spec a b : live_dominates a b = true <->
  eligible a /\ candidate_id a <> candidate_id b /\ no_worse a b /\ improves a b.
Proof.
  unfold live_dominates, eligible, improves, protected_comparable.
  rewrite <- (existsb_zip (fun p => outcome_better_than (fst p) (snd p))).
  destruct (freshness a) eqn:Hf; cbn [is_fresh negb orb]; [|split; [done|by intros [[? _] _]]..].
  case_bool_decide as Hv; [split; [done|by intros [[_ ?] _]]|].
  destruct (String.eqb_spec (candidate_id a) (candidate_id b)) as [Hid|Hid]; [split; [done|by intros (_ & ? & _)]|].
  destruct (String.eqb_spec (semantic_root a) (semantic_root b)) as [Hs|Hs]; cbn [negb orb]; [|split; [done|by intros (_ & _ & [] & _)]].
  destruct (String.eqb_spec (adapter_root a) (adapter_root b)) as [Had|Had]; cbn [negb]; [|split; [done|by intros (_ & _ & [] & _)]].
  case_bool_decide as Hve; cbn [negb]; [|split; [done|by intros (_ & _ & [] & _)]].
  destruct (Nat.eqb_spec (length (protected_vector a)) (length (protected_vector b))) as [Hl|Hl]; cbn [negb]; [|split; [done|by intros (_ & _ & [] & _)]].
  pose proof (forallb_zip (fun p => comparable_outcomes (fst p) (snd p)) (protected_vector a) (protected_vector b)) as Hc.
  destruct (forallb _ _); cbn [negb]; [|split; [done|intros (_ & _ & Hn & _); by apply Hc, (nw_comparable _ _ Hn)]].
  destruct (exact b && negb (exact a)) eqn:He.
  { split; [done|]. intros (_ & _ & Hn & _). pose proof (nw_exact _ _ Hn). destruct (exact a), (exact b); naive_solver. }
  pose proof (forallb_zip (fun p => no_worse_than (fst p) (snd p)) (protected_vector a) (protected_vector b)) as Ho.
  destruct (forallb _ _); cbn [negb]; [|split; [done|intros (_ & _ & Hn & _); by apply Ho, (nw_outcomes _ _ Hn)]].
  destruct (dominates_or_equal (resources a) (resources b)) eqn:Hr; cbn [negb]; [|split; [done|by intros (_ & _ & [] & _); congruence]].
  rewrite !orb_true_iff, andb_true_iff, negb_true_iff. split; [|tauto]. intros Hi. split_and!; [done..| |tauto].
  split; [done|done|done|done|exact (proj1 Hc eq_refl)| |exact (proj1 Ho eq_refl)|done]. intros Hb. by destruct (exact a), (exact b).
Qed.

Lemma comparable_spec a b : comparable_outcomes a b = true <->
  metric_id a = metric_id b /\ order a = order b /\ baseline_value a = baseline_value b.
Proof.
  unfold comparable_outcomes. rewrite negb_true_iff, !orb_false_iff, !negb_false_iff, String.eqb_eq, bool_decide_eq_true, Z.eqb_eq. tauto.
Qed.

Lemma same_metric (x y : ProtectedOutcome) : metric_id x = metric_id y -> order x = order y ->
  negb (String.eqb (metric_id x) (metric_id y)) || negb (bool_decide (order x = order y)) = false.
Proof. intros -> ->. by rewrite String.eqb_refl, bool_decide_true. Qed.

Lemma no_worse_outcome_spec a b : no_worse_than a b = true <-> metric_id a = metric_id b /\ order a = order b /\
  match order a with AtLeast => (candidate_value b <= candidate_value a)%Z | AtMost => (candidate_value a <= candidate_value b)%Z
  | Exact => candidate_value a = candidate_value b end.
Proof.
  unfold no_worse_than. destruct (String.eqb_spec (metric_id a) (metric_id b)); cbn [negb orb]; [|split; [done|tauto]].
  case_bool_decide; cbn [negb]; [|split; [done|tauto]]. destruct (order a); rewrite ?Z.leb_le, ?Z.eqb_eq; tauto.
Qed.

Lemma better_outcome_spec a b : outcome_better_than a b = true <-> metric_id a = metric_id b /\ order a = order b /\
  match order a with AtLeast => (candidate_value b < candidate_value a)%Z | AtMost => (candidate_value a < candidate_value b)%Z
  | Exact => False end.
Proof.
  unfold outcome_better_than. destruct (String.eqb_spec (metric_id a) (metric_id b)); cbn [negb orb]; [|split; [done|tauto]].
  case_bool_decide; cbn [negb]; [|split; [done|tauto]]. destruct (order a); rewrite ?Z.ltb_lt; intuition done.
Qed.

Lemma middle_lookup a b c i pa pc : no_worse a b -> protected_vector a !! i = Some pa -> protected_vector c !! i = Some pc ->
  exists pb, protected_vector b !! i = Some pb.
Proof. intros Hn Ha _. apply lookup_lt_is_Some_2. rewrite <- (nw_length _ _ Hn). by eapply lookup_lt_Some. Qed.

Lemma no_worse_trans a b c : no_worse a b -> no_worse b c -> no_worse a c.
Proof.
  intros Hab Hbc. pose proof Hab as [? ? ? ? Hc1 He1 Ho1 Hr1]. pose proof Hbc as [? ? ? ? Hc2 He2 Ho2 Hr2]. split; try congruence.
  - intros i pa pc Ha Hc. destruct (middle_lookup a b c i pa pc Hab Ha Hc) as [pb Hb]. specialize (Hc1 i pa pb Ha Hb). specialize (Hc2 i pb pc Hb Hc).
    rewrite comparable_spec in *. intuition congruence.
  - tauto.
  - intros i pa pc Ha Hc. destruct (middle_lookup a b c i pa pc Hab Ha Hc) as [pb Hb]. specialize (Ho1 i pa pb Ha Hb). specialize (Ho2 i pb pc Hb Hc).
    rewrite no_worse_outcome_spec in *. destruct Ho1 as (? & Ho & Hv), Ho2 as (? & Ho' & Hv'). split_and!; [congruence|congruence|].
    rewrite <- Ho in Hv'. destruct (order pa); (lia || congruence).
  - by eapply dominates_trans.
Qed.

(** What no worse excludes is an improvement the other way. *)
Lemma no_worse_no_improvement a b : no_worse a b -> ~ improves b a.
Proof.
  intros [_ _ _ _ _ He Ho Hr] [[Hb Ha]|[Hs|(i & pb & pa & Hb & Ha & Hi)]].
  - rewrite (He Hb) in Ha. done.
  - pose proof (strictly_better_sum _ _ Hs). apply dominates_spec in Hr. unfold resource_sum in *. lia.
  - specialize (Ho i pa pb Ha Hb). rewrite no_worse_outcome_spec in Ho. rewrite better_outcome_spec in Hi.
    destruct Ho as (_ & Hoo & Hv), Hi as (_ & _ & Hv'). rewrite <- Hoo in Hv'. destruct (order pa); (lia || done).
Qed.

Lemma improves_l a b c : no_worse a b -> no_worse b c -> improves a b -> improves a c.
Proof.
  intros Hab Hbc [[Ha Hb]|[Hs|(i & pa & pb & Ha & Hb & Hi)]].
  - left. split; [done|]. destruct (exact c) eqn:Hc; [|done]. by rewrite (nw_exact _ _ Hbc Hc) in Hb.
  - right. left. pose proof (strictly_better_sum _ _ Hs). apply strictly_better_spec in Hs as [Hd _]. apply strictly_better_spec.
    split; [by eapply dominates_trans, nw_resources|]. intros He. pose proof (nw_resources _ _ Hbc) as Hr%dominates_spec.
    rewrite He in *. unfold resource_sum in *. lia.
  - right. right. assert (Hl : is_Some (protected_vector c !! i)) by (apply lookup_lt_is_Some_2; rewrite <- (nw_length _ _ Hbc); by eapply lookup_lt_Some).
    destruct Hl as [pc Hc]. exists i, pa, pc. split_and!; [done..|]. pose proof (nw_outcomes _ _ Hbc i pb pc Hb Hc) as Ho.
    rewrite no_worse_outcome_spec in Ho. rewrite better_outcome_spec in *. destruct Ho as (? & Ho & Hv), Hi as (? & Ho' & Hv').
    split_and!; [congruence|congruence|]. rewrite <- Ho' in Hv. destruct (order pa); (lia || done).
Qed.

Lemma live_dominates_irrefl a : live_dominates a a = false.
Proof. apply not_true_is_false. intros (_ & Hne & _)%live_dominates_spec. done. Qed.

Lemma live_dominates_asym a b : live_dominates a b = true -> live_dominates b a = false.
Proof.
  intros (_ & _ & Hn & _)%live_dominates_spec. apply not_true_is_false. intros (_ & _ & _ & Hi)%live_dominates_spec.
  by apply (no_worse_no_improvement a b).
Qed.

Lemma live_dominates_trans a b c : (candidate_id a = candidate_id c -> a = c) ->
  live_dominates a b = true -> live_dominates b c = true -> live_dominates a c = true.
Proof.
  intros Huniq Hab Hbc. pose proof (live_dominates_asym _ _ Hab) as Hba.
  pose proof Hab as (Ha & _ & Hn1 & Hi1)%live_dominates_spec. pose proof Hbc as (_ & _ & Hn2 & _)%live_dominates_spec.
  apply live_dominates_spec. split_and!; [done| |by eapply no_worse_trans|by eapply improves_l].
  intros He. rewrite (Huniq He) in Hba. by rewrite Hba in Hbc.
Qed.

(** * Undominated candidates *)

Definition undominated (cs : list LiveCandidate) (c : LiveCandidate) : Prop := forall o, o ∈ cs -> live_dominates o c = false.

Lemma filter_length_lt {A} (f g : A -> bool) (l : list A) x : (forall y, y ∈ l -> f y = true -> g y = true) ->
  x ∈ l -> f x = false -> g x = true -> (length (List.filter f l) < length (List.filter g l))%nat.
Proof.
  intros Himp Hx Hfx Hgx. induction l as [|y l IH]; [set_solver|]. cbn.
  assert (Hle : forall l', (forall y, y ∈ l' -> f y = true -> g y = true) -> (length (List.filter f l') <= length (List.filter g l'))%nat).
  { induction l' as [|z l' IH']; intros Hz; [done|]. cbn. specialize (IH' ltac:(intros w Hw; apply Hz; by right)).
    destruct (f z) eqn:Hf; [rewrite (Hz z ltac:(by left) Hf); cbn; lia|destruct (g z); cbn; lia]. }
  apply elem_of_cons in Hx as [<-|Hx].
  - rewrite Hfx, Hgx. cbn. specialize (Hle l ltac:(intros w Hw; apply Himp; by right)). lia.
  - specialize (IH ltac:(intros w Hw; apply Himp; by right) Hx). destruct (f y) eqn:Hf; [rewrite (Himp y ltac:(by left) Hf); cbn; lia|destruct (g y); cbn; lia].
Qed.

Definition distinct (cs : list LiveCandidate) : Prop := NoDup (candidate_id <$> cs).

Lemma distinct_id cs a b : distinct cs -> a ∈ cs -> b ∈ cs -> candidate_id a = candidate_id b -> a = b.
Proof.
  intros Hd Ha Hb He. apply list_elem_of_lookup in Ha as (i & Hi), Hb as (j & Hj). assert (i = j) as ->; [|congruence].
  apply (NoDup_lookup (candidate_id <$> cs) i j (candidate_id a)); [done|by rewrite list_lookup_fmap, Hi|by rewrite list_lookup_fmap, Hj, He].
Qed.

Lemma dominated_by_undominated cs : distinct cs -> forall c, c ∈ cs -> ~ undominated cs c ->
  exists f, f ∈ cs /\ undominated cs f /\ live_dominates f c = true.
Proof.
  intros Hd c. remember (length (List.filter (fun o => live_dominates o c) cs)) as k eqn:Hk. revert c Hk.
  induction k as [k IH] using lt_wf_ind. intros c Hk Hc Hno.
  destruct (decide (Exists (fun o => live_dominates o c = true) cs)) as [Hex|Hnex].
  - apply list.Exists_exists in Hex as (o & Ho & Hoc).
    destruct (decide (Forall (fun x => live_dominates x o = false) cs)) as [Hu|Hu]; [exists o; split_and!; [done| |done]; unfold undominated; by apply list.Forall_forall|].
    destruct (IH (length (List.filter (fun x => live_dominates x o) cs))) with (c := o) as (f & Hf & Hfu & Hfo); [|done|done| |].
    + subst k. apply (filter_length_lt _ _ cs o); [|done|apply live_dominates_irrefl|done].
      intros y Hy Hyo. eapply live_dominates_trans; [|done|done]. by apply (distinct_id cs).
    + intros Hx. apply Hu, list.Forall_forall. exact Hx.
    + exists f. split_and!; [done|done|]. eapply live_dominates_trans; [|done|done]. by apply (distinct_id cs).
  - exfalso. apply Hno. intros o Ho. apply not_true_is_false. intros Hp. apply Hnex, list.Exists_exists. by exists o.
Qed.

(** * The decision *)

Lemma check_candidates_spec cs : forall seen, StronglySorted below seen ->
  match check_candidates cs seen with
  | Ok _ => (forall c, c ∈ cs -> LiveCandidate_validate c = Ok () /\ (candidate_id c ∉ seen)) /\ distinct cs
  | Err e => (exists c, c ∈ cs /\ LiveCandidate_validate c = Err e) \/
      (e = DuplicateCandidate /\ ~ (distinct cs /\ forall c, c ∈ cs -> candidate_id c ∉ seen))
  end.
Proof.
  induction cs as [|c cs IH]; intros seen Hs; [split; [set_solver|constructor]|]. cbn [check_candidates].
  destruct (LiveCandidate_validate c) as [[]|e] eqn:Hv; cbn [mbind result_bind]; [|left; exists c; split; [by left|done]].
  pose proof (bset_insert_spec (candidate_id c) seen Hs) as (Hs' & Hm & Hf). destruct (bset_insert (candidate_id c) seen) as [fresh seen'].
  cbn [fst snd] in *. destruct fresh; cbn [negb].
  2:{ right. split; [done|]. intros [_ Hno]. assert (Hn : candidate_id c ∉ seen) by (apply Hno; by left). by apply Hf in Hn. }
  specialize (IH seen' Hs'). assert (Hn : candidate_id c ∉ seen) by (by apply Hf). unfold distinct in *. cbn [fmap list_fmap].
  destruct (check_candidates cs seen') as [[]|e].
  - destruct IH as [Hall Hd]. split.
    + intros x [->|Hx]%elem_of_cons; [done|]. destruct (Hall x Hx) as [? Hx']. split; [done|]. intros Hin. apply Hx', Hm. by right.
    + constructor; [|done]. intros Hin. apply list_elem_of_fmap in Hin as (x & He & Hx). destruct (Hall x Hx) as [_ Hx']. apply Hx', Hm. by left.
  - destruct IH as [(x & Hx & He)|[-> Hno]]; [left; exists x; split; [by right|done]|right]. split; [done|].
    intros [[Hnin Hnd]%NoDup_cons Hfr]. apply Hno. split; [done|]. intros x Hx [He|Hin]%Hm.
    + apply Hnin. rewrite <- He. by apply list_elem_of_fmap_2.
    + by apply (Hfr x); [right|].
Qed.

Lemma first_dominator_spec i sorted cand : sorted !! i = Some cand -> forall pre rest, sorted = pre ++ rest ->
  match first_dominator i (length pre) rest cand with
  | Some d => exists o, o ∈ rest /\ live_dominates o cand = true /\ d = candidate_id o
  | None => forall o, o ∈ rest -> live_dominates o cand = false
  end.
Proof.
  intros Hi pre rest. revert pre. induction rest as [|o rest IH]; intros pre Hs; [set_solver|]. cbn [first_dominator].
  specialize (IH (pre ++ [o]) ltac:(by rewrite <- app_assoc)). rewrite length_app in IH. cbn [length] in IH.
  replace (length pre + 1)%nat with (S (length pre)) in IH by lia.
  destruct (Nat.eqb_spec i (length pre)) as [->|Hne].
  - assert (o = cand) as -> by (rewrite Hs, list_lookup_middle in Hi; [by injection Hi|done]).
    destruct (first_dominator _ _ rest cand) as [d|].
    + destruct IH as (x & Hx & Hd & ->). exists x. split_and!; [by right|done..].
    + intros x [->|Hx]%elem_of_cons; [apply live_dominates_irrefl|by apply IH].
  - destruct (live_dominates o cand) eqn:Ho; [exists o; split_and!; [by left|done..]|].
    destruct (first_dominator _ _ rest cand) as [d|].
    + destruct IH as (x & Hx & Hd & ->). exists x. split_and!; [by right|done..].
    + intros x [->|Hx]%elem_of_cons; [done|by apply IH].
Qed.

Definition dominator_of (i : nat) (sorted : list LiveCandidate) (c : LiveCandidate) : option string :=
  if negb (is_fresh (freshness c)) then None else first_dominator i 0 sorted c.

Lemma dominated_map_spec sorted cands : distinct sorted -> forall pre m, sorted = pre ++ cands ->
  (forall c, c ∈ cands -> bmap_lookup (candidate_id c) m = None) ->
  (forall c k, cands !! k = Some c -> bmap_lookup (candidate_id c) (dominated_map (length pre) cands sorted m) = dominator_of (length pre + k) sorted c) /\
  (forall id, id ∉ candidate_id <$> cands -> bmap_lookup id (dominated_map (length pre) cands sorted m) = bmap_lookup id m).
Proof.
  intros Hd. induction cands as [|c cands IH]; intros pre m Hs Hm; [split; [intros c k; by rewrite lookup_nil|done]|]. cbn [dominated_map].
  assert (Hnin : candidate_id c ∉ candidate_id <$> cands).
  { unfold distinct in Hd. rewrite Hs, fmap_app in Hd. apply NoDup_app in Hd as (_ & _ & Hd). cbn in Hd. by apply NoDup_cons in Hd as [? _]. }
  set (m' := if negb (is_fresh (freshness c)) then m else _).
  assert (Hm' : bmap_lookup (candidate_id c) m' = dominator_of (length pre) sorted c /\ forall id, id <> candidate_id c -> bmap_lookup id m' = bmap_lookup id m).
  { unfold m', dominator_of, note_dominator. rewrite (Hm c) by (by left). destruct (negb (is_fresh (freshness c))); [split; [apply Hm; by left|done]|].
    destruct (first_dominator (length pre) 0 sorted c); [split; [apply bmap_lookup_insert|intros id Hne; apply bmap_lookup_insert_ne; congruence]|split; [apply Hm; by left|done]]. }
  destruct Hm' as [Hc Hoth]. destruct (IH (pre ++ [c]) m') as [H1 H2]; [by rewrite <- app_assoc| |].
  { intros x Hx. rewrite Hoth; [apply Hm; by right|]. intros He. apply Hnin. rewrite <- He. by apply list_elem_of_fmap_2. }
  rewrite length_app in H1, H2. cbn [length] in H1, H2. replace (length pre + 1)%nat with (S (length pre)) in H1, H2 by lia. split.
  - intros x [|k] Hk; cbn in Hk; [injection Hk as <-; rewrite H2, Nat.add_0_r by done; done|]. rewrite (H1 x k Hk). f_equal. lia.
  - intros id Hid. cbn in Hid. apply not_elem_of_cons in Hid as [? ?]. rewrite H2 by done. by apply Hoth.
Qed.

Section Decide.
Context `{Platform}.

Lemma entry_frontier sorted c i : distinct sorted -> sorted !! i = Some c ->
  in_frontier (entry_of (dominated_map 0 sorted sorted []) c) = true <-> eligible c /\ undominated sorted c.
Proof.
  intros Hd Hi. destruct (dominated_map_spec sorted sorted Hd [] [] eq_refl) as [Hlk _]; [done|]. specialize (Hlk c i Hi). cbn [length Nat.add] in Hlk.
  unfold entry_of, eligible. cbn [in_frontier]. rewrite Hlk. unfold dominator_of.
  pose proof (first_dominator_spec i sorted c Hi [] sorted eq_refl) as Hf. cbn [length] in Hf.
  destruct (freshness c); cbn [is_fresh negb andb]; [|split; [done|by intros [[? _] _]]..].
  destruct (first_dominator i 0 sorted c) as [d|].
  - cbn. split; [done|]. intros [_ Hu]. destruct Hf as (o & Ho & Hod & _). by rewrite (Hu o Ho) in Hod.
  - cbn [andb]. rewrite negb_true_iff, bool_decide_eq_false. unfold undominated. tauto.
Qed.

Lemma candidate_of_entry m c : candidate_of (entry_of m c) = c.
Proof. by destruct c. Qed.

Lemma check_entries_Ok m cands : (forall c, c ∈ cands -> LiveCandidate_validate c = Ok ()) -> forall prev flagged,
  StronglySorted below (candidate_id <$> cands) -> (forall p, prev = Some p -> forall c, c ∈ cands -> below p (candidate_id c)) ->
  check_entries (entry_of m <$> cands) prev flagged = Ok (flagged ++ (en_candidate_id <$> List.filter in_frontier (entry_of m <$> cands))).
Proof.
  induction cands as [|c cands IH]; intros Hv prev flagged Hs Hp; [by rewrite app_nil_r|]. cbn [fmap list_fmap check_entries List.filter].
  cbn [fmap list_fmap] in Hs. apply StronglySorted_inv in Hs as [Hs Hc].
  assert (Hprev : match prev with Some p => geb p (en_candidate_id (entry_of m c)) | None => false end = false).
  { destruct prev as [p|]; [|done]. specialize (Hp p eq_refl c ltac:(by left)). unfold geb, ltb. unfold below in Hp. cbn [entry_of en_candidate_id]. by rewrite Hp. }
  rewrite Hprev, candidate_of_entry, Hv by (by left). cbn [mbind result_bind].
  change (en_binding_digest (entry_of m c)) with (Sha256Digest_to_hex (binding_digest c)). rewrite String.eqb_refl. cbn [negb].
  assert (Hnext : forall fl, check_entries (entry_of m <$> cands) (Some (en_candidate_id (entry_of m c))) fl =
    Ok (fl ++ (en_candidate_id <$> List.filter in_frontier (entry_of m <$> cands)))).
  { intros fl. apply IH; [intros x Hx; apply Hv; by right|done|]. intros p [= <-] x Hx. rewrite list.Forall_forall in Hc. apply Hc. by apply list_elem_of_fmap_2. }
  destruct (in_frontier (entry_of m c)) eqn:Hf; cbn [mbind result_bind]; [|apply Hnext].
  assert (He : negb (is_fresh (en_freshness (entry_of m c))) || bool_decide (en_protected_vector (entry_of m c) = []) = false).
  { cbn [entry_of in_frontier en_freshness en_protected_vector] in *. apply andb_true_iff in Hf as [[Hf1 _]%andb_true_iff Hf2].
    rewrite Hf1. apply negb_true_iff in Hf2. by rewrite Hf2. }
  rewrite He. cbn [mbind result_bind]. rewrite Hnext, <- app_assoc. done.
Qed.

Lemma sorted_candidates cs : distinct cs -> StronglySorted below (candidate_id <$> sort_by_key candidate_id cs) /\ distinct (sort_by_key candidate_id cs).
Proof. intros Hd. split; [by apply sort_by_key_ascending|]. unfold distinct. by rewrite sort_by_key_perm. Qed.

Lemma sort_ascending_id (l : list string) : StronglySorted below l -> sort l = l.
Proof.
  intros Hs. apply sorted_ext; [apply sort_ascending; by apply sorted_NoDup|done|]. intros x. apply elem_of_sort.
Qed.

Lemma filtered_ids_sorted m cands : StronglySorted below (candidate_id <$> cands) ->
  StronglySorted below (en_candidate_id <$> List.filter in_frontier (entry_of m <$> cands)).
Proof.
  induction cands as [|c cands IH]; [constructor|]. cbn [fmap list_fmap List.filter]. intros [Hs Hc]%StronglySorted_inv.
  destruct (in_frontier (entry_of m c)); [|by apply IH]. cbn [fmap list_fmap]. constructor; [by apply IH|]. apply list.Forall_forall.
  intros x Hx. rewrite list.Forall_forall in Hc. apply Hc. apply list_elem_of_fmap in Hx as (e & -> & He). apply list_elem_of_In, List.filter_In in He as [He _].
  apply list_elem_of_In, list_elem_of_fmap in He as (y & -> & Hy). by apply (list_elem_of_fmap_2 candidate_id).
Qed.

Lemma frontier_sorted cs : distinct cs -> live_frontier (live_entries cs) = en_candidate_id <$> List.filter in_frontier (live_entries cs) /\
  StronglySorted below (live_frontier (live_entries cs)).
Proof.
  intros Hd. destruct (sorted_candidates cs Hd) as [Hs _]. pose proof (filtered_ids_sorted (dominated_map 0 (sort_by_key candidate_id cs) (sort_by_key candidate_id cs) []) _ Hs) as Hf.
  unfold live_frontier, live_entries. rewrite sort_ascending_id by done. done.
Qed.

Lemma undominated_perm cs cs' c : cs ≡ₚ cs' -> undominated cs c <-> undominated cs' c.
Proof. intros Hp. unfold undominated. by setoid_rewrite Hp. Qed.

Lemma frontier_members cs c : distinct cs -> c ∈ cs ->
  candidate_id c ∈ live_frontier (live_entries cs) <-> eligible c /\ undominated cs c.
Proof.
  intros Hd Hc. destruct (sorted_candidates cs Hd) as [_ Hds]. rewrite (proj1 (frontier_sorted cs Hd)).
  rewrite <- (undominated_perm (sort_by_key candidate_id cs)) by apply sort_by_key_perm.
  assert (Hcs : c ∈ sort_by_key candidate_id cs) by (by rewrite sort_by_key_perm). pose proof Hcs as (i & Hi)%list_elem_of_lookup.
  rewrite <- (entry_frontier _ c i Hds Hi). unfold live_entries. rewrite list_elem_of_fmap. split.
  - intros (e & He & Hin). apply list_elem_of_In, List.filter_In in Hin as [Hin Hf]. apply list_elem_of_In, list_elem_of_fmap in Hin as (x & -> & Hx).
    cbn in He. by rewrite (distinct_id _ c x Hds Hcs Hx He).
  - intros Hf. eexists. split; [|apply list_elem_of_In, List.filter_In; split; [|exact Hf]]; [done|]. apply list_elem_of_In. by apply list_elem_of_fmap_2.
Qed.

Lemma frontier_ids_exact cs : distinct cs -> forall id, id ∈ live_frontier (live_entries cs) <->
  exists c, c ∈ cs /\ candidate_id c = id /\ eligible c /\ undominated cs c.
Proof.
  intros Hd id. split.
  - intros Hin. pose proof Hin as Hin'. rewrite (proj1 (frontier_sorted cs Hd)) in Hin'. apply list_elem_of_fmap in Hin' as (e & -> & He).
    apply list_elem_of_In, List.filter_In in He as [He _]. apply list_elem_of_In, list_elem_of_fmap in He as (c & -> & Hc).
    rewrite sort_by_key_perm in Hc. exists c. split; [done|]. split; [done|]. by apply frontier_members.
  - intros (c & Hc & <- & Hel). by apply frontier_members.
Qed.

(** The decision that is checked and returned. *)
Definition decision_of (cs : list LiveCandidate) : LiveParetoDecision :=
  let es := live_entries cs in
  let body := canonical_json json_string (jbody (mkBody LIVE_PARETO_CONTRACT_VERSION (live_frontier es) es)) in
  mkDecision LIVE_PARETO_CONTRACT_VERSION (Sha256Digest_to_hex (sha256 (LIVE_DOMAIN ++ string_bytes body))) (live_frontier es) es body.

Lemma decision_validates cs : cs <> [] -> N.of_nat (length cs) <= LIVE_PARETO_MAX_CANDIDATES -> distinct cs ->
  (forall c, c ∈ cs -> LiveCandidate_validate c = Ok ()) ->
  len (string_bytes (ld_canonical_json (decision_of cs))) <= LIVE_PARETO_MAX_CANONICAL_BYTES ->
  LiveParetoDecision_validate (decision_of cs) = Ok ().
Proof.
  intros Hne Hlen Hd Hv Hsize. destruct (sorted_candidates cs Hd) as [Hs _]. unfold LiveParetoDecision_validate.
  change (ld_contract_version (decision_of cs)) with LIVE_PARETO_CONTRACT_VERSION. rewrite N.eqb_refl. cbn [negb].
  rewrite (proj2 (N.ltb_ge _ _) Hsize).
  assert (Hl : length (entries (decision_of cs)) = length cs) by (cbn [decision_of entries]; unfold live_entries; by rewrite length_fmap, sort_by_key_perm).
  rewrite bool_decide_false by (intros He; rewrite He in Hl; destruct cs; done). rewrite Hl, (proj2 (N.ltb_ge _ _) Hlen). cbn [orb].
  change (frontier_ids (decision_of cs)) with (live_frontier (live_entries cs)). change (entries (decision_of cs)) with (live_entries cs).
  change (ld_canonical_json (decision_of cs)) with (canonical_json json_string (jbody (mkBody LIVE_PARETO_CONTRACT_VERSION (live_frontier (live_entries cs)) (live_entries cs)))).
  rewrite String.eqb_refl. cbn [negb]. rewrite (proj2 (String.eqb_eq _ _)) by done. cbn [negb].
  destruct (frontier_sorted cs Hd) as [Hf Hfs]. rewrite (proj2 (strictly_ascending_spec _)) by done. cbn [negb].
  assert (Hce : check_entries (live_entries cs) None [] = Ok (en_candidate_id <$> List.filter in_frontier (live_entries cs))).
  { unfold live_entries. rewrite check_entries_Ok; [done|intros c Hc; apply Hv; by rewrite sort_by_key_perm in Hc|done|done]. }
  rewrite Hce, <- Hf. cbn [mbind result_bind]. by rewrite bool_decide_true.
Qed.

Lemma live_entries_perm cs cs' : distinct cs -> cs ≡ₚ cs' -> live_entries cs = live_entries cs'.
Proof. intros Hd Hp. unfold live_entries. by rewrite (sort_by_key_unique candidate_id cs cs' Hd Hp). Qed.
End Decide.

(** Accepted candidates. *)
Definition admissible (cs : list LiveCandidate) : Prop :=
  cs <> [] /\ N.of_nat (length cs) <= LIVE_PARETO_MAX_CANDIDATES /\ distinct cs /\ forall c, c ∈ cs -> LiveCandidate_validate c = Ok ().

Lemma decide_admissible `{Platform} cs : admissible cs -> decide_live_pareto cs =
  if LIVE_PARETO_MAX_CANONICAL_BYTES <? len (string_bytes (ld_canonical_json (decision_of cs))) then Err BodyTooLarge else Ok (decision_of cs).
Proof.
  intros (Hne & Hlen & Hd & Hv). unfold decide_live_pareto. rewrite bool_decide_false by done. rewrite (proj2 (N.ltb_ge _ _) Hlen).
  pose proof (check_candidates_spec cs [] ltac:(constructor)) as Hc. destruct (check_candidates cs []) as [[]|e].
  2:{ exfalso. destruct Hc as [(c & Hc & He)|[_ Hno]]; [rewrite (Hv c Hc) in He; done|]. apply Hno. split; [done|set_solver]. }
  cbn [mbind result_bind]. fold (decision_of cs). change (canonical_json json_string (jbody _)) with (ld_canonical_json (decision_of cs)).
  destruct (N.ltb_spec LIVE_PARETO_MAX_CANONICAL_BYTES (len (string_bytes (ld_canonical_json (decision_of cs))))) as [|Hsz]; [done|].
  change (mkDecision _ _ _ _ _) with (decision_of cs). rewrite decision_validates by done. done.
Qed.

Lemma decide_refused `{Platform} cs : ~ admissible cs -> exists e, decide_live_pareto cs = Err e /\
  ((e = NoCandidates /\ cs = []) \/ (e = TooManyCandidates /\ LIVE_PARETO_MAX_CANDIDATES < N.of_nat (length cs)) \/
   (e = DuplicateCandidate /\ ~ distinct cs) \/ exists c, c ∈ cs /\ LiveCandidate_validate c = Err e).
Proof.
  intros Hno. unfold decide_live_pareto. case_bool_decide as Hne; [exists NoCandidates; tauto|].
  destruct (N.ltb_spec LIVE_PARETO_MAX_CANDIDATES (N.of_nat (length cs))) as [|Hlen]; [exists TooManyCandidates; tauto|].
  pose proof (check_candidates_spec cs [] ltac:(constructor)) as Hc. destruct (check_candidates cs []) as [[]|e]; cbn [mbind result_bind].
  - exfalso. destruct Hc as [Hall Hd]. apply Hno. split_and!; [done..|]. intros c Hc. by apply Hall.
  - exists e. split; [done|]. destruct Hc as [|[-> Hn]]; [tauto|]. right. right. left. split; [done|]. intros Hd. apply Hn. split; [done|set_solver].
Qed.

Lemma admissible_dec cs : admissible cs \/ ~ admissible cs.
Proof.
  unfold admissible, distinct. destruct (decide (cs = [])); [right; tauto|]. destruct (decide (N.of_nat (length cs) <= LIVE_PARETO_MAX_CANDIDATES)); [|right; tauto].
  destruct (decide (NoDup (candidate_id <$> cs))); [|right; tauto].
  destruct (decide (Forall (fun c => is_ok (LiveCandidate_validate c) = true) cs)) as [Hf|Hf]; rewrite list.Forall_forall in Hf.
  - left. split_and!; [done..|]. intros c Hc. specialize (Hf c Hc). by destruct (LiveCandidate_validate c) as [[]|].
  - right. intros (_ & _ & _ & Hall). apply Hf. intros c Hc. by rewrite (Hall c Hc).
Qed.

(** C27: The decision over admissible candidates passes its own check, and its
    frontier is exactly the fresh candidates with protected outcomes that no
    candidate dominates, in order; each of the other such candidates is
    dominated by one of the frontier; the decision does not depend on the
    order of the candidates; and every refusal names a true reason. *)
Theorem live_pareto_exact `{Platform} (cs : list LiveCandidate) :
  match decide_live_pareto cs with
  | Ok d => admissible cs /\ LiveParetoDecision_validate d = Ok () /\ StronglySorted below (frontier_ids d) /\
      (forall id, id ∈ frontier_ids d <-> exists c, c ∈ cs /\ candidate_id c = id /\ eligible c /\ undominated cs c) /\
      (forall c, c ∈ cs -> eligible c -> candidate_id c ∉ frontier_ids d ->
         exists f, f ∈ cs /\ candidate_id f ∈ frontier_ids d /\ live_dominates f c = true) /\
      (forall cs', cs ≡ₚ cs' -> decide_live_pareto cs' = Ok d)
  | Err e => (e = NoCandidates /\ cs = []) \/ (e = TooManyCandidates /\ LIVE_PARETO_MAX_CANDIDATES < N.of_nat (length cs)) \/
      (e = DuplicateCandidate /\ ~ distinct cs) \/ (exists c, c ∈ cs /\ LiveCandidate_validate c = Err e) \/
      (e = BodyTooLarge /\ LIVE_PARETO_MAX_CANONICAL_BYTES < len (string_bytes (ld_canonical_json (decision_of cs))))
  end.
Proof.
  destruct (admissible_dec cs) as [Hadm|Hno]; [|destruct (decide_refused cs Hno) as (e & -> & He); tauto].
  rewrite (decide_admissible cs Hadm). destruct (N.ltb_spec LIVE_PARETO_MAX_CANONICAL_BYTES (len (string_bytes (ld_canonical_json (decision_of cs))))) as [|Hsz]; [tauto|].
  pose proof Hadm as (Hne & Hlen & Hd & Hv). change (frontier_ids (decision_of cs)) with (live_frontier (live_entries cs)). split_and!.
  - done.
  - by apply decision_validates.
  - by apply frontier_sorted.
  - apply frontier_ids_exact. done.
  - intros c Hc Hel Hnf. destruct (dominated_by_undominated cs Hd c Hc) as (f & Hf & Hu & Hdom).
    { intros Hu. apply Hnf. by apply frontier_members. }
    exists f. split_and!; [done| |done]. apply frontier_members; [done..|]. split; [|done]. by apply live_dominates_spec in Hdom as [? _].
  - intros cs' Hp. assert (Hadm' : admissible cs').
    { split_and!; [intros ->; by apply Hne, Permutation_nil_r|by rewrite <- Hp|unfold distinct; by rewrite <- Hp|intros c; rewrite <- Hp; apply Hv]. }
    rewrite (decide_admissible cs' Hadm'). unfold decision_of. rewrite <- (live_entries_perm cs cs' Hd Hp). fold (decision_of cs).
    by rewrite (proj2 (N.ltb_ge _ _) Hsz).
Qed.

(** A decision that was made is read back from its canonical body, whatever
    value the decoder gives for those bytes, when that value has the same
    canonical form and the same body. *)
Theorem decision_bytes_roundtrip `{Platform} `{BodyDecoder} (cs : list LiveCandidate) (d : LiveParetoDecision) (v : Value) :
  decide_live_pareto cs = Ok d -> value_of_slice (string_bytes (ld_canonical_json d)) = Some v ->
  canonical_json json_string v = ld_canonical_json d ->
  body_of_value v = Some (mkBody (ld_contract_version d) (frontier_ids d) (entries d)) ->
  from_canonical_bytes (string_bytes (ld_canonical_json d)) = Ok d.
Proof.
  intros Hd Hv Hc Hb. destruct (admissible_dec cs) as [Hadm|Hno]; [|destruct (decide_refused cs Hno) as (e & He & _); congruence].
  rewrite (decide_admissible cs Hadm) in Hd.
  destruct (N.ltb_spec LIVE_PARETO_MAX_CANONICAL_BYTES (len (string_bytes (ld_canonical_json (decision_of cs))))) as [|Hsz]; [done|]. injection Hd as <-.
  unfold from_canonical_bytes. rewrite (proj2 (N.ltb_ge _ _) Hsz), Hv. cbn [ok_or mbind result_bind]. rewrite Hc, bool_decide_true by done. cbn [negb].
  rewrite Hb. cbn [ok_or mbind result_bind lb_contract_version lb_frontier_ids lb_entries].
  assert (He : expected_digest v = decision_digest (decision_of cs)) by (unfold expected_digest, canonical_bytes_of; by rewrite Hc).
  rewrite He. change (mkDecision _ _ _ _ _) with (decision_of cs). destruct Hadm as (? & ? & ? & ?). rewrite decision_validates by done. done.
Qed.

(** * Three candidates *)

Module LiveToy.
#[local] Instance toy_platform : Platform := {| sha256 := fun _ => replicate 32 byte0; json_string := fun s => s |}.

Definition checker : VerifierIdentity := mkVerifier "checker" "1".
Definition quality (v : Z) : ProtectedOutcome := mkOutcome "quality" AtLeast 90 v.
Definition cost (n : N) : RepresentationResources := mkResources n n n n n n n n.
Definition cheap : LiveCandidate := mkCandidate "a" "sem" "ad" checker Fresh [quality 95] (cost 1) true.
Definition dear : LiveCandidate := mkCandidate "b" "sem" "ad" checker Fresh [quality 95] (cost 2) true.
Definition better : LiveCandidate := mkCandidate "c" "sem" "ad" checker Fresh [quality 99] (cost 3) true.
Definition stale : LiveCandidate := mkCandidate "d" "sem" "ad" checker Stale [quality 99] (cost 1) true.
Definition four : list LiveCandidate := [stale; better; dear; cheap].

Example four_frontier : frontier_ids <$> (match decide_live_pareto four with Ok d => Some d | Err _ => None end) = Some ["a"; "c"].
Proof. by vm_compute. Qed.

Definition the_value : Value :=
  jbody (mkBody (ld_contract_version (decision_of four)) (frontier_ids (decision_of four)) (entries (decision_of four))).
#[local] Instance toy_decoder : BodyDecoder :=
  {| value_of_slice := fun _ => Some the_value;
     body_of_value := fun _ => Some (mkBody (ld_contract_version (decision_of four)) (frontier_ids (decision_of four)) (entries (decision_of four))) |}.

Lemma decision_bytes_roundtrip_witness : from_canonical_bytes (string_bytes (ld_canonical_json (decision_of four))) = Ok (decision_of four).
Proof.
  assert (Hd : decide_live_pareto four = Ok (decision_of four)) by (by vm_compute).
  by apply (decision_bytes_roundtrip four (decision_of four) the_value Hd).
Defined.
End LiveToy.
