(* ===== verification/Residency.v ===== *)
(** The Q99 residency runtime of zero-gate ([zero-gate/src/residency.rs]):
    demand ledgers, sliding windows, residency plans and their authorization,
    the eviction guard and the layer-validity ledger.

    Reasons and error details are constructors with the numbers they carry; a
    64-bit float is the executable IEEE 754 number of the standard library,
    and its JSON text the parameter [float_text]. *)

From Stdlib Require Import Floats.SpecFloat.
From S2P Require Import Prelude Ordering Identity BMap.
From S2P Require Import Canonical.
From S2P Require Import DurableStore.
From S2P Require Import Sums.

#[local] Open Scope N_scope.

Definition RESIDENCY_CONTRACT_VERSION : N := 1.
Definition Q99_RECOMPUTE_FRACTION_PPM : N := 10000.
Definition SLACK_RESIDENT_FRACTION_PPM : N := 990000.
Definition Q99_CENTRAL_CHANGE_FRACTION_PPM : N := 10000.

Definition saturating_add (a b : N) : N := N.min (a + b) U64_MAX.
Definition saturating_mul (a b : N) : N := N.min (a * b) U64_MAX.

Inductive ResidencyError :=
| InvalidDemandLedger
| InvalidPlan
| PlanRejected
| SlackExceeded (resident_mass demanded_mass : N) (slack : Z)
| RestorationRequired (valid_mass threshold : N)
| Q99Unavailable
| InvalidLayerLedger
| L3LossUndiscovered.

Definition ppm_of (numerator denominator : N) : N :=
  if denominator =? 0 then U64_MAX else saturating_mul numerator 1000000 / denominator.

(** * Demand ledger *)

Inductive CacheLayerTier := L1 | L2 | L3.
#[global] Instance CacheLayerTier_eq_dec : EqDecision CacheLayerTier.
Proof. solve_decision. Defined.
Definition CacheLayerTier_as_str (t : CacheLayerTier) : string := match t with L1 => "l1" | L2 => "l2" | L3 => "l3" end.

Record DemandWeightedObject := mkObject { do_root : Digest; do_demand_weight : N; window_id : string; do_tier : CacheLayerTier }.

Definition DemandWeightedObject_validate (o : DemandWeightedObject) : result ResidencyError () :=
  reject? String.eqb (window_id o) "" with InvalidDemandLedger in
  reject? do_demand_weight o =? 0 with InvalidDemandLedger in
  Ok ().
Definition DemandWeightedObject_new (root : Digest) (weight : N) (window : string) (tier : CacheLayerTier) : result ResidencyError DemandWeightedObject :=
  let o := mkObject root weight window tier in
  let? _ := DemandWeightedObject_validate o in
  Ok o.

Record DemandWeightLedger := mkLedger { objects : list DemandWeightedObject }.

Fixpoint check_objects (os : list DemandWeightedObject) (seen : list (Digest * string)) : result ResidencyError () :=
  match os with
  | [] => Ok ()
  | o :: rest =>
      let? _ := DemandWeightedObject_validate o in
      let '(fresh, seen) := bset_insert (do_root o, window_id o) seen in
      reject? negb fresh with InvalidDemandLedger in
      check_objects rest seen
  end.
Definition DemandWeightLedger_validate (l : DemandWeightLedger) : result ResidencyError () := check_objects (objects l) [].
Definition DemandWeightLedger_new (os : list DemandWeightedObject) : result ResidencyError DemandWeightLedger :=
  let l := mkLedger os in
  let? _ := DemandWeightLedger_validate l in
  Ok l.

(** [iter().filter(..).fold(0, saturating_add)]. *)
Definition mass_of {A} (weight : A -> N) (keep : A -> bool) (l : list A) : N :=
  foldl (fun mass x => saturating_add mass (weight x)) 0 (List.filter keep l).

Definition window_mass (l : DemandWeightLedger) (window : string) : N :=
  mass_of do_demand_weight (fun o => String.eqb (window_id o) window) (objects l).
Definition tier_mass (l : DemandWeightLedger) (window : string) (tier : CacheLayerTier) : N :=
  mass_of do_demand_weight (fun o => String.eqb (window_id o) window && bool_decide (do_tier o = tier)) (objects l).
Definition windows (l : DemandWeightLedger) : list string := bset_of_list (window_id <$> objects l).

(** * Sliding windows *)

Record DemandObservation := mkObservation { demanded_mass : N; hit : bool }.
Definition DemandObservation_new (mass : N) (h : bool) : result ResidencyError DemandObservation :=
  reject? mass =? 0 with InvalidDemandLedger in Ok (mkObservation mass h).

(** The reasons of an unavailable window. *)
Inductive Reason :=
| NoDemandObservations
| CentralChange (recompute_ppm : N)
| RestorationBelow (valid_mass threshold : N).

Record Q99WindowReport := mkReport {
  qr_window_id : string; qr_demanded_mass : N; qr_hit_mass : N; qr_recompute_ppm : N; unavailable : bool; qr_reasons : list Reason }.

Record Q99Window := mkWindow { qw_window_id : string; observations : list DemandObservation; initial_valid_mass : N }.
Definition Q99Window_new (id : string) (initial : N) : Q99Window := mkWindow id [] initial.
Definition observe (w : Q99Window) (o : DemandObservation) : Q99Window :=
  mkWindow (qw_window_id w) (observations w ++ [o]) (initial_valid_mass w).

Definition window_demanded_mass (w : Q99Window) : N := mass_of demanded_mass (fun _ => true) (observations w).
Definition hit_mass (w : Q99Window) : N := mass_of demanded_mass hit (observations w).

Definition recompute_ppm (w : Q99Window) : N :=
  let demanded := window_demanded_mass w in
  if demanded =? 0 then U64_MAX
  else ppm_of (demanded - hit_mass w) demanded.

Definition restoration_threshold (w : Q99Window) : N := initial_valid_mass w - window_demanded_mass w / 100.

Definition q99_unavailable (w : Q99Window) (current_valid_mass : N) : option (list Reason) :=
  let r1 := if window_demanded_mass w =? 0 then [NoDemandObservations] else [] in
  let r2 := if Q99_CENTRAL_CHANGE_FRACTION_PPM <? recompute_ppm w then [CentralChange (recompute_ppm w)] else [] in
  let threshold := restoration_threshold w in
  let r3 := if current_valid_mass <? threshold then [RestorationBelow current_valid_mass threshold] else [] in
  match r1 ++ r2 ++ r3 with [] => None | reasons => Some reasons end.

Definition report (w : Q99Window) (current_valid_mass : N) : Q99WindowReport :=
  let u := q99_unavailable w current_valid_mass in
  mkReport (qw_window_id w) (window_demanded_mass w) (hit_mass w) (recompute_ppm w)
    (match u with Some _ => true | None => false end) (default [] u).

(** * Residency plans *)

Record ResidencyPlanObject := mkPlanObject { po_root : string; size_bytes : N; po_demand_weight : N; valid : bool; resident : bool }.
Definition ResidencyPlanObject_new (root : string) (size weight : N) (v r : bool) : result ResidencyError ResidencyPlanObject :=
  reject? String.eqb root "" with InvalidPlan in Ok (mkPlanObject root size weight v r).

Record ResidencyPlan := mkPlan {
  rp_tier : string; capacity_bytes : N; threshold : spec_float; demand_window_root : string;
  rp_objects : list ResidencyPlanObject; optimizer : option string; proposal_root : option string }.

Definition float_of (n : N) : spec_float := binary_normalize 53 1024 (Z.of_N n) 0 false.
(** [(0.0..=1.0).contains(&x)]. *)
Definition in_unit_range (x : spec_float) : bool := SFleb (S754_zero false) x && SFleb x (float_of 1).
(** [x as u64]: truncated and saturated, NaN gives zero. *)
Definition float_to_u64 (x : spec_float) : N :=
  match x with
  | S754_finite false m e =>
      N.min (match e with
             | Z0 => Npos m
             | Zpos k => Npos m * 2 ^ Npos k
             | Zneg k => Npos m / 2 ^ Npos k
             end) U64_MAX
  | S754_infinity false => U64_MAX
  | _ => 0
  end.

Fixpoint check_plan_objects (os : list ResidencyPlanObject) (seen : list string) : result ResidencyError () :=
  match os with
  | [] => Ok ()
  | o :: rest =>
      let '(fresh, seen) := bset_insert (po_root o) seen in
      reject? negb fresh with InvalidPlan in
      check_plan_objects rest seen
  end.

Definition ResidencyPlan_validate (p : ResidencyPlan) : result ResidencyError () :=
  reject? String.eqb (rp_tier p) "" with InvalidPlan in
  reject? String.eqb (demand_window_root p) "" with InvalidPlan in
  reject? negb (in_unit_range (threshold p)) with InvalidPlan in
  check_plan_objects (rp_objects p) [].

Definition resident_bytes (p : ResidencyPlan) : N := mass_of size_bytes resident (rp_objects p).
Definition resident_valid_weight (p : ResidencyPlan) : N := mass_of po_demand_weight (fun o => resident o && valid o) (rp_objects p).
Definition total_demand_weight (p : ResidencyPlan) : N := mass_of po_demand_weight (fun _ => true) (rp_objects p).

Section Authorization.
Context `{Platform} (float_text : spec_float -> string).

Definition jplan_object (o : ResidencyPlanObject) : Value :=
  Object [("object_root", VString (po_root o)); ("size_bytes", jnum (size_bytes o)); ("demand_weight", jnum (po_demand_weight o));
          ("valid", Bool (valid o)); ("resident", Bool (resident o))].
(** The plan without its [proposal_root]. *)
Definition jplan (p : ResidencyPlan) : Value :=
  Object ([("tier", VString (rp_tier p)); ("capacity_bytes", jnum (capacity_bytes p)); ("threshold", Number (float_text (threshold p)));
           ("demand_window_root", VString (demand_window_root p)); ("objects", Array (jplan_object <$> rp_objects p))] ++
          match optimizer p with Some o => [("optimizer", VString o)] | None => [] end).

Definition proposal_root_matches (p : ResidencyPlan) : result ResidencyError () :=
  match proposal_root p with
  | None => Ok ()
  | Some claimed =>
      reject? negb (String.eqb (Sha256Digest_to_hex (sha256 (canonical_bytes_of (jplan p)))) claimed) with InvalidPlan in
      Ok ()
  end.

Definition required_ppm (p : ResidencyPlan) : N := float_to_u64 (SFmul 53 1024 (threshold p) (float_of 1000000)).

Definition authorize (p : ResidencyPlan) : result ResidencyError () :=
  let? _ := ResidencyPlan_validate p in
  let? _ := proposal_root_matches p in
  reject? capacity_bytes p <? resident_bytes p with PlanRejected in
  let demanded := total_demand_weight p in
  reject? demanded =? 0 with PlanRejected in
  reject? ppm_of (resident_valid_weight p) demanded <? required_ppm p with PlanRejected in
  Ok ().
End Authorization.

(** * Eviction slack *)

Record EvictionSlack := mkSlack { es_resident_mass : N; es_demanded_mass : N }.
Definition EvictionSlack_new (res dem : N) : result ResidencyError EvictionSlack :=
  reject? dem =? 0 with InvalidDemandLedger in Ok (mkSlack res dem).

(** [demanded_mass * 99 / 100]; the product of two [u64] panics on overflow. *)
Inductive Overflow := Overflowed.
Definition slack_floor (s : EvictionSlack) : result Overflow N :=
  reject? U64_MAX <? es_demanded_mass s * 99 with Overflowed in
  Ok (es_demanded_mass s * 99 / 100).

(** [x as i64]. *)
Definition as_i64 (n : N) : Z := let z := Z.of_N n in if (z <? 2 ^ 63)%Z then z else (z - 2 ^ 64)%Z.

Definition slack_ppm (s : EvictionSlack) : result Overflow Z :=
  let? fl := slack_floor s in
  let floor := ppm_of fl (es_demanded_mass s) in
  let resident_ppm := ppm_of (es_resident_mass s) (es_demanded_mass s) in
  let d := (as_i64 resident_ppm - as_i64 floor)%Z in
  reject? negb ((- 2 ^ 63 <=? d) && (d <? 2 ^ 63))%Z with Overflowed in
  Ok d.

Definition guard_eviction (s : EvictionSlack) (evict_weight : N) : result Overflow (result ResidencyError ()) :=
  let? floor := slack_floor s in
  let after := es_resident_mass s - evict_weight in
  match after <? floor with
  | true =>
      let? slack := slack_ppm s in
      Ok (Err (SlackExceeded (es_resident_mass s) (es_demanded_mass s) slack))
  | false => Ok (Ok ())
  end.

(** * Layer validity *)

Record LayerValidityEntry := mkLayer { lv_root : Digest; l1_valid : bool; l2_valid : bool; l3_valid : bool; l2_needs_refetch : bool }.
Definition LayerValidityEntry_new (root : Digest) : LayerValidityEntry := mkLayer root false false false false.
Definition LayerValidityEntry_validate (e : LayerValidityEntry) : result ResidencyError () :=
  reject? l2_needs_refetch e && negb (l2_valid e) with InvalidLayerLedger in Ok ().

(** [BTreeMap<Sha256Digest, LayerValidityEntry>]; an operation returns the map
    it leaves behind and its result. *)
Definition LayerValidityLedger := list (Digest * LayerValidityEntry).
Definition LayerValidityLedger_new : LayerValidityLedger := [].
Definition entry (l : LayerValidityLedger) (root : Digest) : option LayerValidityEntry := bmap_lookup root l.
Definition put (l : LayerValidityLedger) (root : Digest) (e : LayerValidityEntry) : LayerValidityLedger := snd (bmap_insert root e l).

Definition publish_l2 (l : LayerValidityLedger) (root : Digest) : LayerValidityLedger * result ResidencyError () :=
  let e := default (LayerValidityEntry_new root) (entry l root) in
  let e' := mkLayer (lv_root e) (l1_valid e) true (l3_valid e) false in
  (put l root e', LayerValidityEntry_validate e').

Definition mark_l3_loss (l : LayerValidityLedger) (root : Digest) : LayerValidityLedger * result ResidencyError () :=
  match entry l root with
  | None => (l, Err L3LossUndiscovered)
  | Some e =>
      if negb (l2_valid e) then (l, Err L3LossUndiscovered)
      else
        let e' := mkLayer (lv_root e) (l1_valid e) (l2_valid e) false true in
        (put l root e', LayerValidityEntry_validate e')
  end.

Definition complete_refetch (l : LayerValidityLedger) (root : Digest) : LayerValidityLedger * result ResidencyError () :=
  match entry l root with
  | None => (l, Err InvalidLayerLedger)
  | Some e =>
      if negb (l2_needs_refetch e) then (l, Err InvalidLayerLedger)
      else
        let e' := mkLayer (lv_root e) (l1_valid e) (l2_valid e) true false in
        (put l root e', LayerValidityEntry_validate e')
  end.

Definition tombstone (l : LayerValidityLedger) (root : Digest) : LayerValidityLedger * result ResidencyError () :=
  match entry l root with
  | None => (l, Err InvalidLayerLedger)
  | Some e =>
      let e' := mkLayer (lv_root e) false false (l3_valid e) (l2_needs_refetch e) in
      (put l root e', LayerValidityEntry_validate e')
  end.

(** * Theorems

    What the residency runtime guarantees: availability of a window, plan
    authorization and the eviction guard are exact as long as the masses scaled
    to millionths fit 64 bits, and L2 validity is what was published since the
    last tombstone.  Beyond that width a window that missed everything is
    reported available. *)

(** * Masses *)

Lemma saturating_fold {A} (weight : A -> N) (l : list A) : forall start, start <= U64_MAX ->
  foldl (fun mass x => saturating_add mass (weight x)) start l = N.min (start + sum_of weight l) U64_MAX.
Proof.
  induction l as [|x l IH]; intros start Hs; cbn [foldl sum_of]; [lia|]. unfold saturating_add at 2. rewrite IH by lia. lia.
Qed.

Lemma mass_of_spec {A} (weight : A -> N) keep (l : list A) : mass_of weight keep l = N.min (sum_of weight (List.filter keep l)) U64_MAX.
Proof. unfold mass_of. rewrite saturating_fold by lia. by rewrite N.add_0_l. Qed.

Lemma filter_all {A} (l : list A) : List.filter (fun _ => true) l = l.
Proof. induction l as [|x l IH]; cbn; [done|by rewrite IH]. Qed.

Lemma sum_filter_split {A} (weight : A -> N) keep (l : list A) :
  sum_of weight (List.filter keep l) + sum_of weight (List.filter (fun x => negb (keep x)) l) = sum_of weight l.
Proof. induction l as [|x l IH]; cbn; [done|]. destruct (keep x); cbn; lia. Qed.

Lemma ppm_of_exact a b : b <> 0 -> a * 1000000 <= U64_MAX -> ppm_of a b = a * 1000000 / b.
Proof. intros Hb Ha. unfold ppm_of, saturating_mul. rewrite (proj2 (N.eqb_neq _ _) Hb). by rewrite N.min_l. Qed.

Lemma div_le_iff a b q : b <> 0 -> a / b <= q <-> a < (q + 1) * b.
Proof.
  intros Hb. pose proof (N.div_mod a b Hb). pose proof (N.mod_lt a b Hb). set (d := a / b) in *. set (m := a mod b) in *. clearbody d m. subst a.
  split; intros; nia.
Qed.

Lemma le_div_iff a b q : b <> 0 -> q <= a / b <-> q * b <= a.
Proof.
  intros Hb. pose proof (N.div_mod a b Hb). pose proof (N.mod_lt a b Hb). set (d := a / b) in *. set (m := a mod b) in *. clearbody d m. subst a.
  split; intros; nia.
Qed.

(** * Windows *)

Definition demanded_total (w : Q99Window) : N := sum_of demanded_mass (observations w).
Definition missed_total (w : Q99Window) : N := sum_of demanded_mass (List.filter (fun o => negb (hit o)) (observations w)).

Lemma window_masses w : demanded_total w <= U64_MAX ->
  window_demanded_mass w = demanded_total w /\ window_demanded_mass w - hit_mass w = missed_total w.
Proof.
  intros Hw. pose proof (sum_filter_split demanded_mass hit (observations w)) as Hs. unfold demanded_total, missed_total in *.
  unfold window_demanded_mass, hit_mass. rewrite !mass_of_spec, filter_all, !N.min_l by lia. split; [done|lia].
Qed.

(** As long as the demanded mass fits in millionths, a window is available
    exactly when something was demanded, at most one percent of it (rounded
    down to millionths) was missed, and the valid mass is not below the
    initial one minus a hundredth of the demand; the report says so. *)
Theorem q99_window_exact (w : Q99Window) (current_valid_mass : N) : demanded_total w * 1000000 <= U64_MAX ->
  (q99_unavailable w current_valid_mass = None <->
     0 < demanded_total w /\ missed_total w * 1000000 < 10001 * demanded_total w /\
     initial_valid_mass w <= current_valid_mass + demanded_total w / 100) /\
  unavailable (report w current_valid_mass) = negb (bool_decide (q99_unavailable w current_valid_mass = None)) /\
  qr_demanded_mass (report w current_valid_mass) = demanded_total w.
Proof.
  intros Hw. destruct (window_masses w ltac:(lia)) as [Hd Hm]. split_and!.
  - unfold q99_unavailable, recompute_ppm, restoration_threshold. rewrite Hm, Hd. destruct (N.eqb_spec (demanded_total w) 0) as [Hz|Hnz].
    { split; [done|]. intros [? _]. lia. }
    assert (Hmt : missed_total w <= demanded_total w) by lia.
    rewrite ppm_of_exact by lia. pose proof (div_le_iff (missed_total w * 1000000) (demanded_total w) Q99_CENTRAL_CHANGE_FRACTION_PPM Hnz) as Hq.
    change ((Q99_CENTRAL_CHANGE_FRACTION_PPM + 1) * demanded_total w) with (10001 * demanded_total w) in Hq.
    destruct (N.ltb_spec Q99_CENTRAL_CHANGE_FRACTION_PPM (missed_total w * 1000000 / demanded_total w)) as [Hlt|Hge]; cbn [app].
    { split; [done|]. intros (_ & Hx & _). apply Hq in Hx. lia. }
    apply Hq in Hge. destruct (N.ltb_spec current_valid_mass (initial_valid_mass w - demanded_total w / 100)) as [Hlt|Hge2].
    + split; [done|]. intros (_ & _ & Hx). lia.
    + split; [|done]. intros _. split_and!; [lia|done|lia].
  - cbn [report unavailable]. destruct (q99_unavailable w current_valid_mass); [by rewrite bool_decide_false|by rewrite bool_decide_true].
  - cbn [report qr_demanded_mass]. exact Hd.
Qed.

(** * Plans *)

Lemma check_plan_objects_spec os : forall seen, StronglySorted below seen ->
  check_plan_objects os seen = Ok () <-> NoDup (po_root <$> os) /\ forall o, o ∈ os -> po_root o ∉ seen.
Proof.
  induction os as [|o os IH]; intros seen Hs; [split; [split; [constructor|set_solver]|done]|]. cbn [check_plan_objects fmap list_fmap]. rewrite NoDup_cons.
  pose proof (bset_insert_spec (po_root o) seen Hs) as (Hs' & Hm & Hf). destruct (bset_insert (po_root o) seen) as [fresh seen']. cbn [fst snd] in *.
  destruct fresh; cbn [negb].
  - assert (Hno : po_root o ∉ seen) by (by apply Hf). rewrite (IH seen' Hs'). split.
    + intros [Hnd Hall]. split_and!; [|done|].
      * intros Hin. apply list_elem_of_fmap in Hin as (x & He & Hx). apply (Hall x Hx), Hm. by left.
      * intros x [->|Hx]%elem_of_cons; [done|]. intros Hin. apply (Hall x Hx), Hm. by right.
    + intros [[Hnin Hnd] Hall]. split; [done|]. intros x Hx [He|Hin]%Hm; [|by apply (Hall x); [right|]].
      apply Hnin. rewrite <- He. by apply list_elem_of_fmap_2.
  - split; [done|]. intros [_ Hall]. assert (Hno : po_root o ∉ seen) by (apply Hall; by left). by apply Hf in Hno.
Qed.

Definition plan_weight (p : ResidencyPlan) : N := sum_of po_demand_weight (rp_objects p).
Definition kept_weight (p : ResidencyPlan) : N := sum_of po_demand_weight (List.filter (fun o => resident o && valid o) (rp_objects p)).
Definition kept_bytes (p : ResidencyPlan) : N := sum_of size_bytes (List.filter resident (rp_objects p)).

Lemma plan_validate_spec p : ResidencyPlan_validate p = Ok () <->
  rp_tier p <> "" /\ demand_window_root p <> "" /\ in_unit_range (threshold p) = true /\ NoDup (po_root <$> rp_objects p).
Proof.
  unfold ResidencyPlan_validate. destruct (String.eqb_spec (rp_tier p) ""); [split; [done|tauto]|].
  destruct (String.eqb_spec (demand_window_root p) ""); [split; [done|tauto]|]. destruct (in_unit_range (threshold p)); cbn [negb]; [|split; [done|naive_solver]].
  rewrite check_plan_objects_spec by constructor. split; [tauto|]. intros (_ & _ & _ & ?). split; [done|set_solver].
Qed.

(** A plan is authorized exactly when it is well formed with distinct
    objects, its claimed root is that of its content, its resident bytes fit
    the capacity, and its resident valid weight reaches the required share of
    a positive demand. *)
Theorem authorize_exact `{Platform} (float_text : spec_float -> string) (p : ResidencyPlan) :
  plan_weight p * 1000000 <= U64_MAX -> kept_bytes p <= U64_MAX ->
  authorize float_text p = Ok () <->
    (rp_tier p <> "" /\ demand_window_root p <> "" /\ in_unit_range (threshold p) = true /\ NoDup (po_root <$> rp_objects p)) /\
    (forall claimed, proposal_root p = Some claimed -> claimed = Sha256Digest_to_hex (sha256 (canonical_bytes_of (jplan float_text p)))) /\
    kept_bytes p <= capacity_bytes p /\ 0 < plan_weight p /\ required_ppm p * plan_weight p <= kept_weight p * 1000000.
Proof.
  intros Hw Hb. assert (Hkw : kept_weight p <= plan_weight p) by (unfold kept_weight, plan_weight; rewrite <- (sum_filter_split po_demand_weight (fun o => resident o && valid o) (rp_objects p)); apply N.le_add_r).
  rewrite <- plan_validate_spec. unfold authorize. destruct (ResidencyPlan_validate p) as [[]|] eqn:Hv; cbn [mbind result_bind]; [|split; [done|by intros [? _]]].
  assert (Hroot : proposal_root_matches float_text p = Ok () <-> forall claimed, proposal_root p = Some claimed -> claimed = Sha256Digest_to_hex (sha256 (canonical_bytes_of (jplan float_text p)))).
  { unfold proposal_root_matches. destruct (proposal_root p) as [c|]; [|split; [done|done]].
    destruct (String.eqb_spec (Sha256Digest_to_hex (sha256 (canonical_bytes_of (jplan float_text p)))) c) as [->|Hne]; cbn [negb]; split; try done.
    - by intros _ x [= ->].
    - intros Hx. exfalso. by apply Hne; symmetry; apply Hx. }
  destruct (proposal_root_matches float_text p) as [[]|]; cbn [mbind result_bind]; [|split; [done|by intros (_ & ?%Hroot & _)]].
  unfold resident_bytes, total_demand_weight, resident_valid_weight. rewrite !mass_of_spec, filter_all.
  fold (kept_bytes p) (plan_weight p) (kept_weight p). rewrite !N.min_l by lia.
  destruct (N.ltb_spec (capacity_bytes p) (kept_bytes p)); [split; [done|intros (_ & _ & ? & _); lia]|].
  destruct (N.eqb_spec (plan_weight p) 0) as [Hz|Hnz]; [split; [done|intros (_ & _ & _ & ? & _); lia]|].
  rewrite ppm_of_exact by lia. pose proof (le_div_iff (kept_weight p * 1000000) (plan_weight p) (required_ppm p) Hnz) as Hq.
  destruct (N.ltb_spec (kept_weight p * 1000000 / plan_weight p) (required_ppm p)) as [Hlt|Hge].
  - split; [done|]. intros (_ & _ & _ & _ & Hx). apply Hq in Hx. lia.
  - split; [|done]. intros _. split_and!; [done|by apply Hroot|done|lia|by apply Hq].
Qed.

(** * Eviction *)

(** The guard decides without overflow up to the demand whose ninety-nine
    hundredths fit, and lets an eviction pass exactly when the resident mass
    that is left is at least that share, rounded down. *)
Theorem guard_eviction_exact (s : EvictionSlack) (evict_weight : N) :
  0 < es_demanded_mass s -> es_demanded_mass s * 1000000 <= U64_MAX -> es_resident_mass s * 1000000 < 2 ^ 63 ->
  exists res, guard_eviction s evict_weight = Ok res /\
    (res = Ok () <-> es_demanded_mass s * 99 / 100 <= es_resident_mass s - evict_weight).
Proof.
  intros Hd Hw Hr. unfold guard_eviction, slack_ppm, slack_floor. destruct (N.ltb_spec U64_MAX (es_demanded_mass s * 99)); [lia|]. cbn [mbind result_bind].
  set (fl := es_demanded_mass s * 99 / 100). assert (Hfl : fl <= es_demanded_mass s).
  { unfold fl. apply N.lt_succ_r. apply N.Div0.div_lt_upper_bound; lia. }
  destruct (N.ltb_spec (es_resident_mass s - evict_weight) fl) as [Hlt|Hge]; [|exists (Ok ()); split; [done|]; by split].
  rewrite !ppm_of_exact by (unfold U64_MAX in *; lia). set (a := es_resident_mass s * 1000000 / es_demanded_mass s). set (b := fl * 1000000 / es_demanded_mass s).
  assert (Ha : a < 2 ^ 63) by (eapply N.le_lt_trans; [apply N.Div0.div_le_upper_bound with (q := es_resident_mass s * 1000000); nia|done]).
  assert (Hb : b <= 1000000) by (apply N.Div0.div_le_upper_bound; nia).
  assert (Hi : forall x, x < 2 ^ 63 -> as_i64 x = Z.of_N x) by (intros x Hx; unfold as_i64; rewrite (proj2 (Z.ltb_lt _ _)); [done|lia]).
  rewrite !Hi by lia. rewrite (proj2 (andb_true_iff _ _)) by (rewrite Z.leb_le, Z.ltb_lt; lia). cbn [negb mbind result_bind].
  eexists. split; [done|]. split; [done|lia].
Qed.

(** * Layer validity *)

Inductive LayerOp := Publish (root : Digest) | Loss (root : Digest) | Refetch (root : Digest) | Tombstone (root : Digest).
Definition run_op (l : LayerValidityLedger) (op : LayerOp) : LayerValidityLedger :=
  fst (match op with
       | Publish r => publish_l2 l r
       | Loss r => mark_l3_loss l r
       | Refetch r => complete_refetch l r
       | Tombstone r => tombstone l r
       end).
Definition run (ops : list LayerOp) : LayerValidityLedger := foldl run_op LayerValidityLedger_new ops.
Definition target (op : LayerOp) : Digest := match op with Publish r | Loss r | Refetch r | Tombstone r => r end.

(** Published and not tombstoned since. *)
Definition published_since (ops : list LayerOp) (root : Digest) : Prop :=
  exists pre post, ops = pre ++ Publish root :: post /\ Tombstone root ∉ post.

Lemma entry_put_eq l root e : entry (put l root e) root = Some e.
Proof. apply bmap_lookup_insert. Qed.
Lemma entry_put_ne l root e other : other <> root -> entry (put l root e) other = entry l other.
Proof. intros Hne. apply bmap_lookup_insert_ne. congruence. Qed.

Lemma run_op_other l op root : root <> target op -> entry (run_op l op) root = entry l root.
Proof.
  intros Hne. destruct op as [r|r|r|r]; cbn [target] in *; unfold run_op, publish_l2, mark_l3_loss, complete_refetch, tombstone; cbn [fst].
  - by apply entry_put_ne.
  - destruct (entry l r) as [e|]; [|done]. destruct (negb (l2_valid e)); [done|]. by apply entry_put_ne.
  - destruct (entry l r) as [e|]; [|done]. destruct (negb (l2_needs_refetch e)); [done|]. by apply entry_put_ne.
  - destruct (entry l r) as [e|]; [|done]. by apply entry_put_ne.
Qed.

Lemma published_snoc ops op root : published_since (ops ++ [op]) root <->
  op = Publish root \/ (published_since ops root /\ op <> Tombstone root).
Proof.
  split.
  - intros (pre & post & He & Hno). destruct post as [|x post _] using rev_ind.
    + apply app_inj_tail in He as [_ ->]. by left.
    + rewrite app_comm_cons, app_assoc in He. apply app_inj_tail in He as [-> <-]. apply not_elem_of_app in Hno as [Hno Hx]. right. split.
      * by exists pre, post.
      * intros ->. apply Hx. by left.
  - intros [->|[(pre & post & -> & Hno) Hop]].
    + exists ops, []. split; [done|set_solver].
    + exists pre, (post ++ [op]). split; [by rewrite <- app_assoc|]. apply not_elem_of_app. split; [done|]. set_solver.
Qed.

(** Everything the ledger says of one object after a history. *)
Record layer_law (ops : list LayerOp) (root : Digest) (o : option LayerValidityEntry) : Prop := {
  ll_known : is_Some o <-> Publish root ∈ ops;
  ll_root : forall e, o = Some e -> lv_root e = root;
  ll_l2 : forall e, o = Some e -> l2_valid e = true <-> published_since ops root;
  ll_refetch : Tombstone root ∉ ops -> forall e, o = Some e -> l2_needs_refetch e = true -> l2_valid e = true }.

Lemma layer_law_nil root : layer_law [] root None.
Proof. split; [split; [by intros []|set_solver]|done|done|done]. Qed.

(** An operation on [root] turns its entry into that of the longer history. *)
Lemma layer_step_law ops op o : layer_law ops (target op) o -> forall l, entry l (target op) = o ->
  layer_law (ops ++ [op]) (target op) (entry (run_op l op) (target op)).
Proof.
  intros [Hk Hr Hl Hf] l Hl0. set (root := target op) in *.
  assert (Hkeep : op <> Publish root -> is_Some o <-> Publish root ∈ ops ++ [op]).
  { intros Hne. rewrite Hk, elem_of_app, list_elem_of_singleton. naive_solver. }
  assert (Htomb : Tombstone root ∉ ops ++ [op] -> Tombstone root ∉ ops) by (rewrite not_elem_of_app; tauto).
  assert (Hsame : op <> Publish root -> op <> Tombstone root -> layer_law (ops ++ [op]) root o).
  { intros H1 H2. split; [by apply Hkeep|done| |]; [intros e He; rewrite published_snoc; rewrite (Hl e He); naive_solver|].
    intros Hno. apply Hf. by apply Htomb. }
  destruct op as [r|r|r|r]; cbn [target] in root; subst root; unfold run_op, publish_l2, mark_l3_loss, complete_refetch, tombstone; cbn [fst] in *; rewrite ?Hl0.
  - rewrite entry_put_eq. split; [|intros e [= <-]|intros e [= <-]|intros _ e [= <-]; done].
    + split; [intros _; apply elem_of_app; right; by left|by eexists].
    + cbn. destruct o as [e|]; cbn; [by apply Hr|done].
    + cbn. rewrite published_snoc. split; [by left|done].
  - destruct o as [e|]; [|cbn [fst]; rewrite Hl0; by apply Hsame]. destruct (l2_valid e) eqn:Hv; cbn [negb fst]; [|rewrite Hl0; by apply Hsame].
    rewrite entry_put_eq. destruct (Hsame ltac:(done) ltac:(done)) as [Hk' Hr' Hl' Hf'].
    split; [rewrite <- Hk'; split; by eexists|intros x [= <-]; by apply (Hr' e)|intros x [= <-]; cbn; rewrite <- (Hl' e eq_refl), ?Hv; done|intros _ x [= <-]; done].
  - destruct o as [e|]; [|cbn [fst]; rewrite Hl0; by apply Hsame]. destruct (l2_needs_refetch e) eqn:Hv; cbn [negb fst]; [|rewrite Hl0; by apply Hsame].
    rewrite entry_put_eq. destruct (Hsame ltac:(done) ltac:(done)) as [Hk' Hr' Hl' Hf'].
    split; [rewrite <- Hk'; split; by eexists|intros x [= <-]; by apply (Hr' e)|intros x [= <-]; cbn; rewrite <- (Hl' e eq_refl), ?Hv; done|intros _ x [= <-]; done].
  - destruct o as [e|].
    + cbn [fst]. rewrite entry_put_eq. split.
      * rewrite <- Hkeep by done. split; by eexists.
      * intros x [= <-]. by apply (Hr e).
      * intros x [= <-]. cbn. rewrite published_snoc. split; [done|]. intros [?|[_ ?]]; done.
      * intros Hno. exfalso. apply Hno, elem_of_app. right. by left.
    + cbn [fst]. rewrite Hl0. split; [by apply Hkeep|done|done|done].
Qed.

Lemma layer_skip_law ops op root o : root <> target op -> layer_law ops root o -> layer_law (ops ++ [op]) root o.
Proof.
  intros Hne [Hk Hr Hl Hf]. assert (Hp : op <> Publish root) by (by intros ->). assert (Ht : op <> Tombstone root) by (by intros ->). split.
  - rewrite Hk, elem_of_app, list_elem_of_singleton. naive_solver.
  - done.
  - intros e He. rewrite (Hl e He), published_snoc. naive_solver.
  - intros Hno. apply Hf. rewrite not_elem_of_app in Hno. tauto.
Qed.

(** What the code records, where its own documentation has a tombstone keep
    the L2 record.  After any history of publications, losses, refetches and
    tombstones an object has an entry, under its own root, exactly when it was ever
    published; its L2 copy is valid exactly when it was published since its
    last tombstone, whatever losses came in between; and without a tombstone
    an entry to refetch is valid. *)
Theorem layer_ledger_law (ops : list LayerOp) (root : Digest) : layer_law ops root (entry (run ops) root).
Proof.
  induction ops as [|op ops IH] using rev_ind; [apply layer_law_nil|].
  unfold run in *. rewrite foldl_app. cbn [foldl]. destruct (decide (root = target op)) as [->|Hne].
  - by eapply layer_step_law.
  - rewrite run_op_other by done. by apply layer_skip_law.
Qed.

(** * Concrete windows and ledgers *)

Definition small_window : Q99Window := mkWindow "w" [mkObservation 990 true; mkObservation 10 false] 500.

Lemma q99_window_exact_witness : demanded_total small_window * 1000000 <= U64_MAX /\ q99_unavailable small_window 490 = None /\
  q99_unavailable small_window 489 <> None.
Proof.
  assert (Hw : demanded_total small_window * 1000000 <= U64_MAX) by (by vm_compute). split; [done|]. split.
  - apply (q99_window_exact small_window 490 Hw). by vm_compute.
  - intros H. apply (q99_window_exact small_window 489 Hw) in H as (_ & _ & H). by vm_compute in H.
Defined.

(** A window of one miss, the largest mass: the scaled miss saturates, one
    millionth is reported and the window is available. *)
Example saturated_miss_is_available :
  q99_unavailable (mkWindow "w" [mkObservation U64_MAX false] 0) 0 = None /\
  recompute_ppm (mkWindow "w" [mkObservation U64_MAX false] 0) = 1.
Proof. by vm_compute. Qed.

Lemma guard_eviction_exact_witness : guard_eviction (mkSlack 1000 1000) 10 = Ok (Ok ()) /\
  exists e, guard_eviction (mkSlack 1000 1000) 11 = Ok (Err e).
Proof.
  destruct (guard_eviction_exact (mkSlack 1000 1000) 10) as (r & Hr & Hi); [by vm_compute..|].
  destruct (guard_eviction_exact (mkSlack 1000 1000) 11) as (r' & Hr' & Hi'); [by vm_compute..|]. split.
  - rewrite Hr. f_equal. apply Hi. by vm_compute.
  - destruct r' as [[]|e]; [|by exists e]. exfalso. assert (Hx : es_demanded_mass (mkSlack 1000 1000) * 99 / 100 <= 1000 - 11) by (by apply Hi'). by vm_compute in Hx.
Defined.

(** The demand whose ninety-nine hundredths overflow. *)
Example slack_overflows : guard_eviction (mkSlack U64_MAX (2 ^ 63)) 0 = Err Overflowed.
Proof. by vm_compute. Qed.

Definition root0 : Digest := replicate 32 byte0.
Notation outcome r := (is_ok (snd r)).

(** A tombstone takes L2 validity away; on an entry to refetch it reports an
    error and leaves the entry changed and invalid. *)
Example tombstone_forgets :
  (l2_valid <$> entry (run [Publish root0; Tombstone root0]) root0 = Some false) /\
  outcome (tombstone (run [Publish root0; Loss root0]) root0) = false /\
  ((fun e => (l2_valid e, l2_needs_refetch e)) <$> entry (run [Publish root0; Loss root0; Tombstone root0]) root0 = Some (false, true)).
Proof. by vm_compute. Qed.
