(* ===== verification/Mmr.v ===== *)
(** The transparency log of a blob store
    ([graphzero-store/src/store/mmr.rs]): an append-only list of blob digests
    under a Merkle mountain range, its file format, inclusion proofs and their
    verification.  A [u32] is an [N]; [self.leaves.len() as u32] is
    [leaf_count32].  An [option] result is [None] where the source would panic
    on an index, which the theorems exclude.  [crc32] is the third-party
    checksum and stays a parameter; [sha256] is the one of [Platform]. *)

From S2P Require Import Prelude.
From S2P Require Import DurableStore.

#[local] Open Scope N_scope.

(** * Data *)

(** One node of an authentication path; [pn_left] when the proved node is the
    left child. *)
Record ProofNode := mkProofNode { pn_left : bool; pn_hash : Digest }.

Record InclusionProof := mkInclusionProof {
  leaf_index : N; leaf_hash : Digest; path : list ProofNode;
  peak_index : N; other_peaks : list Digest }.

Record TransparencyLog := mkLog { leaves : list Digest; store_root : string }.

Inductive LogError :=
| TooSmall | BadMagic | UnsupportedVersion (found : N) | Truncated (expected got : N)
| CrcMismatch | LeafOutOfRange (index n : N) | ReadFailed.

(** What [fs::read] of the log file gave. *)
Inductive ReadOutcome := Contents (data : bytes) | NotFound | ReadError.

Definition MMR_MAGIC : bytes := string_bytes "GZMM".
Definition MMR_VERSION : N := 1.

(** * Mountains *)

(** [31 - remaining.leading_zeros()] is the binary logarithm; 32 rounds clear
    every bit of a [u32]. *)
Fixpoint heights_loop (fuel : nat) (remaining : N) : list N :=
  match fuel with
  | O => []
  | S fuel' =>
      if remaining =? 0 then []
      else let h := N.log2 remaining in h :: heights_loop fuel' (remaining - 2 ^ h)
  end.

Definition mountain_heights (n : N) : list N := heights_loop 32 n.

Fixpoint ranges_loop (start : N) (heights : list N) : list (N * N) :=
  match heights with
  | [] => []
  | h :: hs => (start, h) :: ranges_loop (start + 2 ^ h) hs
  end.

Definition mountain_ranges (n : N) : list (N * N) := ranges_loop 0 (mountain_heights n).

(** The first mountain that ends after the leaf; the initial values of the
    three variables when there is none. *)
Fixpoint find_mountain (i : N) (ranges : list (N * N)) (index : N) : N * N * N :=
  match ranges with
  | [] => (0, 0, 0)
  | (start, h) :: rest =>
      if index <? start + 2 ^ h then (i, start, h) else find_mountain (i + 1) rest index
  end.

Section Log.
Context `{Platform} (crc32 : bytes -> N).

(** * Hashes *)

Definition hash_pair (l r : Digest) : Digest := sha256 (ascii_of_N 1 :: l ++ r).

(** Right to left: [hash(peak[0] || bag(peak[1..]))]. *)
Definition bag_peaks (peaks : list Digest) : Digest :=
  match reverse peaks with
  | [] => ZERO
  | last :: before => foldl (fun acc peak => hash_pair peak acc) last before
  end.

Fixpoint compute_range_hash (ls : list Digest) (h : nat) (start : N) : option Digest :=
  match h with
  | O => ls !! N.to_nat start
  | S h' =>
      l ← compute_range_hash ls h' start;
      r ← compute_range_hash ls h' (start + 2 ^ N.of_nat h');
      Some (hash_pair l r)
  end.

Definition leaf_count32 (log : TransparencyLog) : N := N.of_nat (length (leaves log)) mod 2 ^ 32.

Definition peaks (log : TransparencyLog) : option (list Digest) :=
  mapM (fun range : N * N => compute_range_hash (leaves log) (N.to_nat range.2) range.1)
    (mountain_ranges (leaf_count32 log)).

Definition root (log : TransparencyLog) : option Digest := bag_peaks <$> peaks log.

(** * Appending *)

Definition leaf_count (log : TransparencyLog) : nat := length (leaves log).

Definition contains (log : TransparencyLog) (h : Digest) : bool :=
  existsb (fun leaf => bool_decide (leaf = h)) (leaves log).

(** A digest already recorded keeps its index. *)
Definition append (log : TransparencyLog) (h : Digest) : nat * TransparencyLog :=
  match list_find (fun leaf => leaf = h) (leaves log) with
  | Some (idx, _) => (idx, log)
  | None => (length (leaves log), mkLog (leaves log ++ [h]) (store_root log))
  end.

(** * The file *)

Definition sub (data : bytes) (start size : N) : bytes :=
  take (N.to_nat size) (drop (N.to_nat start) data).

(** [leaves[i] = data[offset..offset + 32]] for each [offset]. *)
Fixpoint leaves_loop (data : bytes) (count : nat) (offset : N) : list Digest :=
  match count with
  | O => []
  | S count' => sub data offset 32 :: leaves_loop data count' (offset + 32)
  end.

Definition decode_leaves (data : bytes) : result LogError (list Digest) :=
  reject? len data <? 45 with TooSmall in
  guard? bool_decide (sub data 0 4 = MMR_MAGIC) else BadMagic in
  guard? of_le (sub data 4 1) =? MMR_VERSION else UnsupportedVersion (of_le (sub data 4 1)) in
  let count := of_le (sub data 5 4) in
  let body_end := 45 + count * 32 in
  reject? len data <? body_end with Truncated body_end (len data) in
  let stored_crc := of_le (sub data 41 4) in
  let crc_input := sub data 0 41 ++ sub data 45 (count * 32) in
  guard? crc32 crc_input =? stored_crc else CrcMismatch in
  Ok (leaves_loop data (N.to_nat count) 45).

(** The bytes before the checksum: magic, version, leaf count and root. *)
Definition log_header (log : TransparencyLog) (r : Digest) : bytes :=
  MMR_MAGIC ++ to_le 1 MMR_VERSION ++ to_le 4 (leaf_count32 log) ++ r.

(** The buffer that [flush] writes and renames into place. *)
Definition flush_bytes (log : TransparencyLog) : option bytes :=
  r ← root log;
  let crc := crc32 (log_header log r ++ concat (leaves log)) in
  Some (log_header log r ++ to_le 4 crc ++ concat (leaves log)).

Definition open (read : ReadOutcome) (dir : string) : result LogError TransparencyLog :=
  let? ls := match read with
             | Contents data => decode_leaves data
             | NotFound => Ok []
             | ReadError => Err ReadFailed
             end in
  Ok (mkLog ls dir).

(** * Inclusion proofs *)

(** The sibling at each level, bottom-up. *)
Fixpoint path_loop (ls : list Digest) (start : N) (levels : list nat) (pos : N) : option (list ProofNode) :=
  match levels with
  | [] => Some []
  | level :: rest =>
      let width := 2 ^ N.of_nat level in
      let node := start + pos * width in
      if pos mod 2 =? 0 then
        s ← compute_range_hash ls level (node + width);
        p ← path_loop ls start rest (pos / 2);
        Some (mkProofNode true s :: p)
      else
        s ← compute_range_hash ls level (node - width);
        p ← path_loop ls start rest (pos / 2);
        Some (mkProofNode false s :: p)
  end.

(** All peaks but the one at [skip]. *)
Definition peaks_without (skip : nat) (ps : list Digest) : list Digest :=
  snd <$> filter (fun ip : nat * Digest => ip.1 <> skip) (zip (seq 0 (length ps)) ps).

Definition inclusion_proof (log : TransparencyLog) (index : N) : option (result LogError InclusionProof) :=
  let n := leaf_count32 log in
  if n <=? index then Some (Err (LeafOutOfRange index n)) else
  leaf ← leaves log !! N.to_nat index;
  let '(mountain_idx, mountain_start, mountain_height) := find_mountain 0 (mountain_ranges n) index in
  p ← path_loop (leaves log) mountain_start (seq 0 (N.to_nat mountain_height)) (index - mountain_start);
  all_peaks ← peaks log;
  Some (Ok (mkInclusionProof index leaf p mountain_idx (peaks_without (N.to_nat mountain_idx) all_peaks))).

Definition climb (current : Digest) (node : ProofNode) : Digest :=
  if pn_left node then hash_pair current (pn_hash node) else hash_pair (pn_hash node) current.

Definition verify (h : Digest) (proof : InclusionProof) (expected_root : Digest) : bool :=
  if bool_decide (leaf_hash proof = h) then
    let current := foldl climb h (path proof) in
    let insert_pos := N.to_nat (N.min (peak_index proof) (N.of_nat (length (other_peaks proof)))) in
    let all_peaks := take insert_pos (other_peaks proof) ++ current :: drop insert_pos (other_peaks proof) in
    bool_decide (bag_peaks all_peaks = expected_root)
  else false.

End Log.

(** * Mountains cover the leaves *)

Lemma heights_below (fuel : nat) (n h : N) : h ∈ heights_loop fuel n -> 2 ^ h <= n.
Proof.
  revert n. induction fuel as [|fuel IH]; intros n; cbn; [by rewrite elem_of_nil|].
  destruct (n =? 0) eqn:E; [by rewrite elem_of_nil|]. breflect.
  pose proof (N.log2_spec n ltac:(lia)). rewrite elem_of_cons. intros [->|Hh]; [lia|].
  apply IH in Hh. lia.
Qed.

Lemma sub_log2_lt (n b : N) : 0 < n < 2 ^ N.succ b -> n - 2 ^ N.log2 n < 2 ^ b.
Proof.
  intros [Hn Hb]. pose proof (N.log2_spec n Hn) as [Hl Hu].
  assert (N.log2 n <= b) as Hle by (apply N.lt_succ_r, N.log2_lt_pow2; lia).
  pose proof (N.pow_le_mono_r 2 _ _ ltac:(lia) Hle). rewrite N.pow_succ_r' in Hu. lia.
Qed.

(** Consecutive ranges from [start], which end at [stop]. *)
Fixpoint tile (start : N) (ranges : list (N * N)) (stop : N) : Prop :=
  match ranges with
  | [] => start = stop
  | (s, h) :: rest => s = start /\ tile (start + 2 ^ h) rest stop
  end.

Lemma tile_heights (fuel : nat) (n start : N) :
  n < 2 ^ N.of_nat fuel -> tile start (ranges_loop start (heights_loop fuel n)) (start + n).
Proof.
  revert n start. induction fuel as [|fuel IH]; intros n start Hn; cbn.
  - change (2 ^ N.of_nat 0) with 1 in Hn. lia.
  - destruct (n =? 0) eqn:E; breflect; [cbn; lia|]. cbn. split; [done|].
    rewrite Nat2N.inj_succ in Hn. pose proof (sub_log2_lt n (N.of_nat fuel) ltac:(lia)) as Hlt.
    pose proof (N.log2_spec n ltac:(lia)).
    specialize (IH _ (start + 2 ^ N.log2 n) Hlt). by replace (start + n) with (start + 2 ^ N.log2 n + (n - 2 ^ N.log2 n)) by lia.
Qed.

Lemma tile_ranges (n : N) : n < 2 ^ 32 -> tile 0 (mountain_ranges n) n.
Proof. intros Hn. apply (tile_heights 32 n 0), Hn. Qed.

Lemma tile_le (start stop : N) rs : tile start rs stop -> start <= stop.
Proof.
  revert start. induction rs as [|[s h] rs IH]; intros start; cbn; [lia|]. intros [-> Ht].
  apply IH in Ht. lia.
Qed.

Lemma tile_within (start stop : N) rs (s h : N) :
  tile start rs stop -> (s, h) ∈ rs -> start <= s /\ s + 2 ^ h <= stop.
Proof.
  revert start. induction rs as [|[s' h'] rs IH]; intros start; cbn; [by rewrite elem_of_nil|].
  intros [-> Ht]. rewrite elem_of_cons. intros [[= -> ->]|Hin].
  - apply tile_le in Ht. lia.
  - destruct (IH _ Ht Hin). lia.
Qed.

(** The mountain found is the one that holds the leaf. *)
Lemma find_mountain_spec (i start stop index : N) rs :
  tile start rs stop -> start <= index < stop ->
  exists k s h, find_mountain i rs index = (i + N.of_nat k, s, h) /\ rs !! k = Some (s, h) /\
    s <= index < s + 2 ^ h.
Proof.
  revert i start. induction rs as [|[s h] rs IH]; intros i start; cbn; [lia|].
  intros [-> Ht] Hi. destruct (index <? start + 2 ^ h) eqn:E; breflect.
  - exists 0%nat, start, h. rewrite N.add_0_r. split_and!; [done|done|lia|lia].
  - destruct (IH (i + 1) _ Ht ltac:(lia)) as (k & s' & h' & Hf & Hk & Hin).
    exists (S k), s', h'. rewrite Hf. split_and!; [f_equal; f_equal; lia|done|lia|lia].
Qed.

Lemma leaf_count32_small (log : TransparencyLog) :
  N.of_nat (length (leaves log)) < 2 ^ 32 -> leaf_count32 log = N.of_nat (length (leaves log)).
Proof. intros Hn. unfold leaf_count32. by apply N.mod_small. Qed.

#[local] Opaque mountain_ranges leaf_count32.

(** * The tree behind a root *)

Inductive tree := Tip (d : Digest) | Fork (l r : tree).

Fixpoint tips (t : tree) : list Digest :=
  match t with Tip d => [d] | Fork l r => tips l ++ tips r end.

(** The tree over [2^h] leaves from [start], and the trees of the mountains
    bagged from left to right. *)
Fixpoint subtree (ls : list Digest) (h : nat) (start : N) : option tree :=
  match h with
  | O => Tip <$> ls !! N.to_nat start
  | S h' =>
      l ← subtree ls h' start;
      r ← subtree ls h' (start + 2 ^ N.of_nat h');
      Some (Fork l r)
  end.

Fixpoint bag_tree (t : tree) (ts : list tree) : tree :=
  match ts with [] => t | u :: ts' => Fork t (bag_tree u ts') end.

Definition log_tree (log : TransparencyLog) : option tree :=
  ts ← mapM (fun range : N * N => subtree (leaves log) (N.to_nat range.2) range.1) (mountain_ranges (leaf_count32 log));
  match ts with [] => None | t :: ts' => Some (bag_tree t ts') end.

Section Trees.
Context `{Platform}.

Fixpoint thash (t : tree) : Digest :=
  match t with Tip d => d | Fork l r => hash_pair (thash l) (thash r) end.

(** The hash of [2^h] leaves from [start] is that of a tree over them. *)
Lemma range_tree (ls : list Digest) (h : nat) (start : N) :
  start + 2 ^ N.of_nat h <= N.of_nat (length ls) ->
  exists t, subtree ls h start = Some t /\ compute_range_hash ls h start = Some (thash t) /\
            tips t = take (2 ^ h) (drop (N.to_nat start) ls).
Proof.
  revert start. induction h as [|h IH]; intros start Hs; cbn.
  - change (2 ^ N.of_nat 0) with 1 in Hs.
    destruct (lookup_lt_is_Some_2 ls (N.to_nat start) ltac:(lia)) as [d Hd].
    exists (Tip d). rewrite Hd. split_and!; [done|done|]. by rewrite (drop_S _ _ _ Hd).
  - rewrite Nat2N.inj_succ, N.pow_succ_r' in Hs.
    destruct (IH start ltac:(lia)) as (l & Hsl & Hl & Htl).
    destruct (IH (start + 2 ^ N.of_nat h) ltac:(lia)) as (r & Hsr & Hr & Htr).
    exists (Fork l r). rewrite Hl, Hr, Hsl, Hsr. split_and!; [done|done|]. cbn [tips]. rewrite Htl, Htr.
    rewrite N2Nat.inj_add, N2Nat.inj_pow, Nat2N.id, <- drop_drop.
    change (N.to_nat 2) with 2%nat. by rewrite take_take_drop, Nat.add_0_r.
Qed.

Lemma range_hash_Some (ls : list Digest) (h : nat) (start : N) :
  start + 2 ^ N.of_nat h <= N.of_nat (length ls) -> exists d, compute_range_hash ls h start = Some d.
Proof. intros Hs. destruct (range_tree ls h start Hs) as (t & _ & -> & _). eauto. Qed.

Lemma range_hash_wf (ls : list Digest) (h : nat) (start : N) d `{!PlatformOk} :
  Forall digest_wf ls -> compute_range_hash ls h start = Some d -> digest_wf d.
Proof.
  destruct h as [|h]; cbn.
  - intros Hw Hd. by eapply Forall_lookup_1.
  - destruct (compute_range_hash _ h start); [|done]. destruct (compute_range_hash _ h _); [|done].
    intros _ [= <-]. apply sha256_length.
Qed.

(** Peaks from left to right. *)
Fixpoint bag (p : Digest) (ps : list Digest) : Digest :=
  match ps with [] => p | q :: ps' => hash_pair p (bag q ps') end.


Lemma bag_peaks_cons (p : Digest) (ps : list Digest) : bag_peaks (p :: ps) = bag p ps.
Proof.
  unfold bag_peaks. revert p. induction ps as [|q ps IH]; intros p; [done|].
  rewrite reverse_cons. specialize (IH q). cbn [bag].
  destruct (reverse (q :: ps)) as [|x xs] eqn:E; [by apply (f_equal length) in E; rewrite length_reverse in E|].
  cbn [app]. rewrite <- IH. by rewrite foldl_app.
Qed.

(** The trees of the mountains hold the leaves in order. *)
Lemma peaks_trees (ls : list Digest) (start : N) rs :
  tile start rs (N.of_nat (length ls)) ->
  exists ts, mapM (fun range : N * N => subtree ls (N.to_nat range.2) range.1) rs = Some ts /\
             mapM (fun range : N * N => compute_range_hash ls (N.to_nat range.2) range.1) rs = Some (thash <$> ts) /\
             concat (tips <$> ts) = drop (N.to_nat start) ls.
Proof.
  revert start. induction rs as [|[s h] rs IH]; intros start; cbn.
  - intros ->. exists []. split_and!; [done|done|]. by rewrite Nat2N.id, drop_all.
  - intros [-> Ht]. pose proof (tile_le _ _ _ Ht) as Hle.
    destruct (IH _ Ht) as (ts & Hst & Hts & Htip).
    destruct (range_tree ls (N.to_nat h) start) as (t & Hs & Hr & Htt); [rewrite N2Nat.id; lia|].
    exists (t :: ts). rewrite Hr, Hts, Hs, Hst. split_and!; [done|done|]. cbn. rewrite Htip, Htt.
    rewrite N2Nat.inj_add, N2Nat.inj_pow, <- drop_drop. change (N.to_nat 2) with 2%nat. by rewrite take_drop.
Qed.

Lemma thash_bag_tree t ts : thash (bag_tree t ts) = bag (thash t) (thash <$> ts).
Proof. revert t. induction ts as [|u ts IH]; intros t; cbn; [done|]. by rewrite IH. Qed.

Lemma tips_bag_tree t ts : tips (bag_tree t ts) = tips t ++ concat (tips <$> ts).
Proof. revert t. induction ts as [|u ts IH]; intros t; cbn; [by rewrite app_nil_r|]. by rewrite IH. Qed.

(** A log of fewer than [2^32] leaves has peaks, and the root of one that is
    not empty hashes a tree whose tips are the leaves in order. *)
Lemma peaks_Some (log : TransparencyLog) :
  N.of_nat (length (leaves log)) < 2 ^ 32 ->
  exists ts, mapM (fun range : N * N => subtree (leaves log) (N.to_nat range.2) range.1) (mountain_ranges (leaf_count32 log)) = Some ts /\
    peaks log = Some (thash <$> ts) /\ concat (tips <$> ts) = leaves log.
Proof.
  intros Hn. unfold peaks. rewrite (leaf_count32_small _ Hn). apply (peaks_trees _ 0), tile_ranges, Hn.
Qed.

Lemma root_tree (log : TransparencyLog) :
  N.of_nat (length (leaves log)) < 2 ^ 32 -> leaves log <> [] ->
  exists t, log_tree log = Some t /\ root log = Some (thash t) /\ tips t = leaves log.
Proof.
  intros Hn Hne. destruct (peaks_Some log Hn) as ([|t ts] & Ht & Hp & Hl); [by rewrite <- Hl in Hne|].
  exists (bag_tree t ts). unfold root, log_tree. rewrite Ht, Hp. split; [done|]. cbn. rewrite bag_peaks_cons, thash_bag_tree, tips_bag_tree.
  by rewrite <- Hl.
Qed.

(** * Completeness of inclusion proofs *)

(** From a node of level [lo] at position [pos], the path climbs to the peak. *)
Lemma path_loop_climbs (ls : list Digest) (start : N) (k lo : nat) (pos : N) (d : Digest) :
  start + 2 ^ N.of_nat (lo + k) <= N.of_nat (length ls) -> pos < 2 ^ N.of_nat k ->
  compute_range_hash ls lo (start + pos * 2 ^ N.of_nat lo) = Some d ->
  exists p, path_loop ls start (seq lo k) pos = Some p /\
            compute_range_hash ls (lo + k) start = Some (foldl climb d p).
Proof.
  revert lo pos d. induction k as [|k IH]; intros lo pos d Hb Hpos Hd.
  - change (2 ^ N.of_nat 0) with 1 in Hpos. replace pos with 0 in Hd by lia.
    exists []. rewrite N.mul_0_l, N.add_0_r in Hd. by rewrite Nat.add_0_r.
  - rewrite Nat2N.inj_succ, N.pow_succ_r' in Hpos.
    assert (Hlo : 2 ^ N.of_nat lo <> 0) by (apply N.pow_nonzero; lia).
    assert (Hw : 2 ^ N.of_nat (lo + S k) = 2 * 2 ^ N.of_nat k * 2 ^ N.of_nat lo).
    { rewrite Nat2N.inj_add, N.pow_add_r, Nat2N.inj_succ, N.pow_succ_r'. lia. }
    pose proof (N.div_mod pos 2 ltac:(lia)) as Hdm. pose proof (N.mod_lt pos 2 ltac:(lia)) as Hm.
    assert (Hhalf : pos / 2 < 2 ^ N.of_nat k) by (apply N.Div0.div_lt_upper_bound; lia).
    assert (HS : forall x, x * 2 ^ N.of_nat (S lo) = 2 * x * 2 ^ N.of_nat lo)
      by (intros x; rewrite Nat2N.inj_succ, N.pow_succ_r'; lia).
    replace (lo + S k)%nat with (S lo + k)%nat in * by lia.
    cbn [seq path_loop]. remember (pos / 2) as q eqn:Hq. clear Hq. remember (pos mod 2) as m eqn:Hm'. clear Hm'.
    set (w := 2 ^ N.of_nat lo) in *.
    assert (Hroom : 2 * q * w + 2 * w <= 2 * 2 ^ N.of_nat k * w) by nia.
    assert (Hw' : pos * w = 2 * q * w + m * w) by (rewrite Hdm; lia).
    destruct (m =? 0) eqn:E; breflect.
    + rewrite E, N.mul_0_l, N.add_0_r in Hw'. rewrite Hw' in Hd |- *.
      destruct (range_hash_Some ls lo (start + 2 * q * w + w)) as [s Hs]; [lia|].
      destruct (IH (S lo) q (hash_pair d s)) as (p & Hp & Hr); [done|done| |].
      { cbn [compute_range_hash]. fold w. by rewrite HS, Hd, Hs. }
      exists (mkProofNode true s :: p). by rewrite Hs, Hp.
    + assert (m = 1) as -> by lia. rewrite N.mul_1_l in Hw'. rewrite Hw' in Hd |- *.
      replace (start + (2 * q * w + w) - w) with (start + 2 * q * w) by lia.
      destruct (range_hash_Some ls lo (start + 2 * q * w)) as [s Hs]; [lia|].
      destruct (IH (S lo) q (hash_pair s d)) as (p & Hp & Hr); [done|done| |].
      { cbn [compute_range_hash]. fold w. rewrite HS, Hs. rewrite N.add_assoc in Hd. by rewrite Hd. }
      exists (mkProofNode false s :: p). by rewrite Hs, Hp.
Qed.

Lemma filter_keeps {A} (P : A -> Prop) `{!forall x, Decision (P x)} (l : list A) :
  (forall x, x ∈ l -> P x) -> filter P l = l.
Proof.
  induction l as [|x l IH]; intros Hall; [done|]. rewrite filter_cons_True by (apply Hall; left).
  f_equal. apply IH. intros y Hy. apply Hall. by right.
Qed.

Lemma peaks_without_seq (base k : nat) (ps : list Digest) :
  snd <$> filter (fun ip : nat * Digest => ip.1 <> (base + k)%nat) (zip (seq base (length ps)) ps) =
  take k ps ++ drop (S k) ps.
Proof.
  revert base k. induction ps as [|p ps IH]; intros base k; [by rewrite take_nil|].
  change (zip (seq base (length (p :: ps))) (p :: ps)) with ((base, p) :: zip (seq (S base) (length ps)) ps).
  destruct k as [|k].
  - rewrite filter_cons_False by (cbn; lia). rewrite filter_keeps.
    + cbn. rewrite drop_0. apply snd_zip. by rewrite length_seq.
    + intros [i q] Hi. cbn. apply elem_of_zip_l, elem_of_seq in Hi. lia.
  - rewrite filter_cons_True by (cbn; lia). rewrite fmap_cons. cbn [take drop app]. f_equal.
    rewrite <- (IH (S base) k). do 2 f_equal. by replace (base + S k)%nat with (S base + k)%nat by lia.
Qed.

(** Putting the skipped peak back where it was restores the list. *)
Lemma insert_skipped (k : nat) (p : Digest) (ps : list Digest) :
  ps !! k = Some p ->
  let others := peaks_without k ps in
  let pos := N.to_nat (N.min (N.of_nat k) (N.of_nat (length others))) in
  take pos others ++ p :: drop pos others = ps.
Proof.
  intros Hk others pos. pose proof (lookup_lt_Some _ _ _ Hk) as Hlt.
  assert (Ho : others = take k ps ++ drop (S k) ps) by apply (peaks_without_seq 0).
  assert (pos = k) as ->.
  { unfold pos. rewrite Ho, length_app, length_take, length_drop. lia. }
  rewrite Ho, take_app_le, drop_app_ge by (rewrite length_take; lia).
  rewrite take_take, length_take, Nat.min_id, !Nat.min_l, Nat.sub_diag by lia.
  by apply take_drop_middle.
Qed.

Lemma peaks_lookup (log : TransparencyLog) ps (k : nat) (s h : N) :
  peaks log = Some ps -> mountain_ranges (leaf_count32 log) !! k = Some (s, h) ->
  exists d, ps !! k = Some d /\ compute_range_hash (leaves log) (N.to_nat h) s = Some d.
Proof.
  unfold peaks. intros Hp Hk. apply mapM_Some_1 in Hp. destruct (Forall2_lookup_l _ _ _ _ _ Hp Hk) as (d & Hd & Hc). eauto.
Qed.

(** A proof names its leaf, and climbs to the root of the log. *)
Definition proves (log : TransparencyLog) (index : N) (d : Digest) : Prop :=
  exists p r, inclusion_proof log index = Some (Ok p) /\ root log = Some r /\
    leaf_index p = index /\ leaf_hash p = d /\ verify d p r = true.

Lemma Some_bind {A B} (x : A) (f : A -> option B) : (Some x ≫= f) = f x.
Proof. done. Qed.

Lemma inclusion_proof_found (log : TransparencyLog) (index : N) d k s h p ps :
  index < leaf_count32 log -> leaves log !! N.to_nat index = Some d ->
  find_mountain 0 (mountain_ranges (leaf_count32 log)) index = (N.of_nat k, s, h) ->
  path_loop (leaves log) s (seq 0 (N.to_nat h)) (index - s) = Some p -> peaks log = Some ps ->
  inclusion_proof log index = Some (Ok (mkInclusionProof index d p (N.of_nat k) (peaks_without k ps))).
Proof.
  intros Hi Hd Hf Hp Hps. unfold inclusion_proof. rewrite (proj2 (N.leb_gt _ _) Hi), Hd, Some_bind, Hf, Hp, Some_bind, Hps, Some_bind.
  by rewrite Nat2N.id.
Qed.

Lemma verify_peak (index : N) d p (k : nat) (ps : list Digest) :
  ps !! k = Some (foldl climb d p) ->
  verify d (mkInclusionProof index d p (N.of_nat k) (peaks_without k ps)) (bag_peaks ps) = true.
Proof.
  intros Hk. unfold verify. cbn [leaf_hash path peak_index other_peaks]. rewrite bool_decide_true by done.
  apply bool_decide_eq_true_2. f_equal. exact (insert_skipped k _ _ Hk).
Qed.

Lemma inclusion_proof_complete (log : TransparencyLog) (index : N) (d : Digest) :
  N.of_nat (length (leaves log)) < 2 ^ 32 -> leaves log !! N.to_nat index = Some d ->
  proves log index d.
Proof.
  intros Hn Hd. pose proof (lookup_lt_Some _ _ _ Hd) as Hlt.
  pose proof (leaf_count32_small log Hn) as Hc. pose proof (tile_ranges _ Hn) as Ht. rewrite <- Hc in Ht.
  destruct (find_mountain_spec 0 0 _ index _ Ht) as (k & s & h & Hf & Hk & Hin); [lia|].
  rewrite N.add_0_l in Hf. destruct (tile_within _ _ _ s h Ht ltac:(by eapply list_elem_of_lookup_2)) as [_ Hs].
  destruct (path_loop_climbs (leaves log) s (N.to_nat h) 0 (index - s) d) as (p & Hp & Hclimb).
  { by rewrite Nat.add_0_l, N2Nat.id, <- Hc. } { rewrite N2Nat.id. lia. }
  { cbn [compute_range_hash]. change (2 ^ N.of_nat 0) with 1. by replace (s + (index - s) * 1) with index by lia. }
  destruct (peaks_Some log Hn) as (ts & _ & Hps & _). destruct (peaks_lookup log _ k s h Hps Hk) as (peak & Hpk & Hc').
  rewrite Nat.add_0_l, Hc' in Hclimb. injection Hclimb as ->.
  eexists _, _. split; [eapply inclusion_proof_found; try done; lia|]. split; [unfold root; by rewrite Hps|].
  split_and!; [done|done|]. by apply verify_peak.
Qed.

(** * Soundness of verification *)

(** [h] is hashed into [r] through pairs of [ps]. *)
Inductive below (ps : list (Digest * Digest)) (h : Digest) : Digest -> Prop :=
| below_refl : below ps h h
| below_left x s : below ps h x -> digest_wf x -> digest_wf s -> (x, s) ∈ ps -> below ps h (hash_pair x s)
| below_right x s : below ps h x -> digest_wf x -> digest_wf s -> (s, x) ∈ ps -> below ps h (hash_pair s x).

(** The pairs hashed at the inner nodes of a tree. *)
Fixpoint inner (t : tree) : list (Digest * Digest) :=
  match t with Tip _ => [] | Fork l r => (thash l, thash r) :: inner l ++ inner r end.

(** The pairs that a verification hashes: up the path, then the peaks. *)
Fixpoint climb_pairs (current : Digest) (p : list ProofNode) : list (Digest * Digest) :=
  match p with
  | [] => []
  | n :: p' => (if pn_left n then (current, pn_hash n) else (pn_hash n, current)) :: climb_pairs (climb current n) p'
  end.

Fixpoint bag_pairs (p : Digest) (ps : list Digest) : list (Digest * Digest) :=
  match ps with [] => [] | q :: ps' => (p, bag q ps') :: bag_pairs q ps' end.

Definition peaks_pairs (ps : list Digest) : list (Digest * Digest) :=
  match ps with [] => [] | p :: ps' => bag_pairs p ps' end.

Definition verify_pairs (h : Digest) (proof : InclusionProof) : list (Digest * Digest) :=
  let current := foldl climb h (path proof) in
  let insert_pos := N.to_nat (N.min (peak_index proof) (N.of_nat (length (other_peaks proof)))) in
  climb_pairs h (path proof) ++
  peaks_pairs (take insert_pos (other_peaks proof) ++ current :: drop insert_pos (other_peaks proof)).

(** Two different SHA-256 inputs with one digest, the first hashed for one of
    the pairs of [ps] and the second for one of [qs]. *)
Definition collision (ps qs : list (Digest * Digest)) : Prop :=
  exists l r l' r', (l, r) ∈ ps /\ (l', r') ∈ qs /\ l ++ r <> l' ++ r' /\ hash_pair l r = hash_pair l' r'.

Lemma hash_pair_eq ps qs (l r l' r' : Digest) : digest_wf l -> digest_wf l' -> (l, r) ∈ ps -> (l', r') ∈ qs ->
  hash_pair l r = hash_pair l' r' -> (l = l' /\ r = r') \/ collision ps qs.
Proof.
  intros Hl Hl' Hp Hq Heq. destruct (decide (l ++ r = l' ++ r')) as [E|E].
  - left. apply app_inj_1 in E; [done|by rewrite Hl, Hl'].
  - right. by exists l, r, l', r'.
Qed.

Lemma collision_mono ps qs qs' : qs ⊆ qs' -> collision ps qs -> collision ps qs'.
Proof. intros Hq (l & r & l' & r' & ? & ? & ?). exists l, r, l', r'. auto. Qed.

Context `{!PlatformOk}.

Lemma hash_pair_wf l r : digest_wf (hash_pair l r).
Proof. apply sha256_length. Qed.

Lemma thash_wf t : Forall digest_wf (tips t) -> digest_wf (thash t).
Proof. destruct t; cbn; [by rewrite Forall_singleton|intros _; apply hash_pair_wf]. Qed.

(** A digest hashed into the root of [t] through the pairs of [ps]: a tip, an
    inner node, or the hashing meets a tip that is itself the hash of one of
    the pairs, or a collision with an inner node. *)
Definition accounted (ps : list (Digest * Digest)) (t : tree) (h : Digest) : Prop :=
  h ∈ tips t \/
  (exists l r, (l, r) ∈ inner t /\ h = hash_pair l r) \/
  (exists l r, (l, r) ∈ ps /\ hash_pair l r ∈ tips t) \/
  collision ps (inner t).

Lemma accounted_fork ps l r h : accounted ps l h \/ accounted ps r h -> accounted ps (Fork l r) h.
Proof.
  unfold accounted. cbn [tips inner]. intros [Ha|Ha]; destruct Ha as [?|[(x & y & ? & ?)|[(x & y & ? & ?)|Hc]]].
  - left. set_solver.
  - right; left. exists x, y. set_solver.
  - right; right; left. exists x, y. set_solver.
  - right; right; right. eapply collision_mono; [|exact Hc]. set_solver.
  - left. set_solver.
  - right; left. exists x, y. set_solver.
  - right; right; left. exists x, y. set_solver.
  - right; right; right. eapply collision_mono; [|exact Hc]. set_solver.
Qed.

Lemma below_tree ps (h r : Digest) (t : tree) :
  below ps h r -> r = thash t -> Forall digest_wf (tips t) -> accounted ps t h.
Proof.
  intros Hb. revert t. induction Hb as [|x s Hb IH Hx Hs Hin|x s Hb IH Hx Hs Hin]; intros t Ht Hw.
  - subst. destruct t as [d|l r]; [left; by left|]. right; left. exists (thash l), (thash r). split; [by left|done].
  - destruct t as [d|l r]; cbn in Ht, Hw; [right; right; left; exists x, s; split; [done|rewrite Ht; by left]|].
    apply Forall_app in Hw as [Hwl Hwr].
    destruct (hash_pair_eq ps (inner (Fork l r)) x s _ _ Hx (thash_wf l Hwl) Hin ltac:(by left) Ht) as [[-> _]|];
      [apply accounted_fork; left; by apply IH|by right; right; right].
  - destruct t as [d|l r]; cbn in Ht, Hw; [right; right; left; exists s, x; split; [done|rewrite Ht; by left]|].
    apply Forall_app in Hw as [Hwl Hwr].
    destruct (hash_pair_eq ps (inner (Fork l r)) s x _ _ Hs (thash_wf l Hwl) Hin ltac:(by left) Ht) as [[_ ->]|];
      [apply accounted_fork; right; by apply IH|by right; right; right].
Qed.

Lemma below_climb ps (h current : Digest) (p : list ProofNode) :
  climb_pairs current p ⊆ ps ->
  below ps h current -> digest_wf current -> Forall (fun n => digest_wf (pn_hash n)) p ->
  below ps h (foldl climb current p) /\ digest_wf (foldl climb current p).
Proof.
  revert current. induction p as [|n p IH]; intros current Hsub Hb Hw Hp; [done|].
  apply Forall_cons_1 in Hp as [Hn Hp]. cbn [climb_pairs] in Hsub. cbn [foldl].
  assert (Hhd := Hsub _ ltac:(by left)). apply IH; [set_solver| |unfold climb; case_match; apply hash_pair_wf|done].
  unfold climb. destruct (pn_left n); [by apply below_left|by apply below_right].
Qed.

Lemma bag_wf p ps : digest_wf p -> Forall digest_wf ps -> digest_wf (bag p ps).
Proof. destruct ps; cbn; [done|]. intros _ _. apply hash_pair_wf. Qed.

Lemma below_bag ps (h current : Digest) (before after : list Digest) :
  peaks_pairs (before ++ current :: after) ⊆ ps ->
  below ps h current -> digest_wf current -> Forall digest_wf before -> Forall digest_wf after ->
  below ps h (bag_peaks (before ++ current :: after)).
Proof.
  intros Hsub Hb Hw Hbefore Hafter.
  enough (below ps h (bag_peaks (before ++ current :: after)) /\ digest_wf (bag_peaks (before ++ current :: after))) by tauto.
  induction Hbefore as [|b before Hbw Hbefore IH].
  - cbn [app peaks_pairs] in *. rewrite bag_peaks_cons. destruct after as [|a after]; cbn [bag bag_pairs] in *; [done|].
    apply Forall_cons_1 in Hafter as [Ha Hafter].
    split; [|apply hash_pair_wf]. apply below_left; [done|done|by apply bag_wf|apply Hsub; by left].
  - rewrite <- app_comm_cons in Hsub |- *. rewrite bag_peaks_cons. cbn [peaks_pairs] in Hsub.
    destruct (before ++ current :: after) as [|a rest] eqn:E; [by destruct before|].
    rewrite bag_peaks_cons in IH. cbn [bag bag_pairs peaks_pairs] in *. split; [|apply hash_pair_wf].
    assert (Hhd := Hsub _ ltac:(by left)). destruct IH as [IH IHw]; [set_solver|]. by apply below_right.
Qed.

(** Digests of the source's type [[u8; 32]]. *)
Definition proof_wf (p : InclusionProof) : Prop :=
  Forall (fun n => digest_wf (pn_hash n)) (path p) /\ Forall digest_wf (other_peaks p).

Lemma verify_below (h : Digest) (p : InclusionProof) (r : Digest) :
  proof_wf p -> digest_wf h -> verify h p r = true -> below (verify_pairs h p) h r.
Proof.
  intros [Hp Ho] Hw. unfold verify. case_bool_decide; [|done]. intros Hb. apply bool_decide_eq_true_1 in Hb as <-.
  unfold verify_pairs. destruct (below_climb (verify_pairs h p) h h (path p) ltac:(unfold verify_pairs; set_solver)
    (below_refl _ h) Hw Hp) as [Hb Hcw].
  apply below_bag; [set_solver|exact Hb|done|by apply Forall_take|by apply Forall_drop].
Qed.

Definition log_wf (log : TransparencyLog) : Prop :=
  Forall digest_wf (leaves log) /\ NoDup (leaves log) /\ N.of_nat (length (leaves log)) < 2 ^ 32.

(** C29: Inclusion proofs are exact.  Every leaf of a log of fewer than [2^32]
    leaves has a proof that names it and verifies against the root, and an
    index past the end is refused.  The root of a log that is not empty hashes
    the tree of its mountains, whose tips are the leaves; and whenever a proof
    of some digest verifies against it, the digest is a leaf or the hash of an
    inner node of that tree, or one of the pairs this verification hashed is a
    leaf's digest, or collides with a different pair hashed at an inner node of
    the tree. *)
Theorem inclusion_proofs_exact (log : TransparencyLog) : log_wf log ->
  (forall index d, leaves log !! N.to_nat index = Some d -> proves log index d) /\
  (forall index, N.of_nat (length (leaves log)) <= index ->
     inclusion_proof log index = Some (Err (LeafOutOfRange index (N.of_nat (length (leaves log)))))) /\
  (leaves log <> [] -> exists t, log_tree log = Some t /\ tips t = leaves log /\ root log = Some (thash t) /\
     forall h p, proof_wf p -> digest_wf h -> verify h p (thash t) = true -> accounted (verify_pairs h p) t h).
Proof.
  intros (Hw & _ & Hn). split_and!.
  - intros index d Hd. by apply inclusion_proof_complete.
  - intros index Hi. unfold inclusion_proof. rewrite (leaf_count32_small log Hn).
    by rewrite (proj2 (N.leb_le _ _) Hi).
  - intros Hne. destruct (root_tree log Hn Hne) as (t & Ht & Hr & Htips). exists t. split_and!; [done..|].
    intros h p Hp Hh Hv. rewrite <- Htips in Hw. by apply (below_tree _ h (thash t)); [eapply verify_below|..].
Qed.

(** * Appending *)

(** Appending keeps the log well-formed while it has room, leaves every
    recorded index as it is, and gives the index of the digest. *)
Lemma append_spec (log : TransparencyLog) (h : Digest) : log_wf log -> digest_wf h ->
  N.of_nat (length (leaves log)) + 1 < 2 ^ 32 ->
  let '(idx, log') := append log h in
  log_wf log' /\ leaves log' !! idx = Some h /\ leaves log `prefix_of` leaves log' /\
  (h ∈ leaves log -> log' = log) /\ append log' h = (idx, log').
Proof.
  intros (Hw & Hnd & Hn) Hh Hroom. unfold append. destruct (list_find _ (leaves log)) as [[idx x]|] eqn:E.
  - pose proof E as E'. apply list_find_Some in E' as (Hx & -> & _). rewrite E. split_and!; [done..|by exists []; rewrite app_nil_r|done|done].
  - apply list_find_None in E. assert (h ∉ leaves log) as Hnew.
    { intros [i Hi]%list_elem_of_lookup. by apply (Forall_lookup_1 _ _ _ _ E Hi). }
    cbn [leaves store_root]. assert (list_find (fun leaf => leaf = h) (leaves log ++ [h]) = Some (length (leaves log), h)) as ->.
    { rewrite list_find_app_r by by apply list_find_None. cbn. rewrite decide_True by done. cbn. done. }
    split_and!; [|by rewrite list_lookup_middle|by exists [h]|done|done].
    split_and!; cbn.
    + apply Forall_app. by rewrite Forall_singleton.
    + apply list.NoDup_app. split_and!; [done| |by apply NoDup_singleton]. intros y Hy ->%list_elem_of_singleton. done.
    + rewrite length_app. cbn. lia.
Qed.

(** * Weaknesses of verification *)

(** A node above two leaves verifies as if it were a leaf, whatever its index,
    and the digest of zeros verifies against the root of an empty log. *)
Theorem verify_accepts_nodes (a b : Digest) (dir : string) (index : N) :
  root (mkLog [a; b] dir) = Some (hash_pair a b) /\
  verify (hash_pair a b) (mkInclusionProof index (hash_pair a b) [] 0 []) (hash_pair a b) = true /\
  root (mkLog [] dir) = Some ZERO /\
  verify ZERO (mkInclusionProof index ZERO [] 0 []) ZERO = true.
Proof.
  split_and!; [done| |done|]; unfold verify; cbn [leaf_hash path peak_index other_peaks foldl];
    rewrite bool_decide_true by done; by apply bool_decide_eq_true_2.
Qed.

End Trees.

(** * The file format *)

Lemma sub_skip (a d : bytes) (start size : N) :
  len a <= start -> sub (a ++ d) start size = sub d (start - len a) size.
Proof.
  unfold sub, len. intros Hs. rewrite drop_app_ge by lia. by rewrite N2Nat.inj_sub, Nat2N.id.
Qed.

Lemma sub_here (b c : bytes) (size : N) : size = len b -> sub (b ++ c) 0 size = b.
Proof. intros ->. unfold sub, len. by rewrite Nat2N.id, drop_0, take_app_length. Qed.

Lemma sub_length (b : bytes) (start size : N) : start + size <= len b -> len (sub b start size) = size.
Proof. unfold sub, len. intros Hs. rewrite length_take, length_drop. lia. Qed.

Lemma sub_split (b : bytes) (start m n : N) : sub b start (m + n) = sub b start m ++ sub b (start + m) n.
Proof. unfold sub. rewrite !N2Nat.inj_add, <- drop_drop. by rewrite take_take_drop. Qed.

Lemma len_app (a b : bytes) : len (a ++ b) = len a + len b.
Proof. unfold len. rewrite length_app. lia. Qed.

Lemma leaves_loop_concat (pre tail : bytes) (ls : list Digest) : Forall digest_wf ls ->
  leaves_loop (pre ++ concat ls ++ tail) (length ls) (len pre) = ls.
Proof.
  intros Hw. revert pre. induction Hw as [|d ls Hd Hw IH]; intros pre; [done|]. cbn. unfold digest_wf in Hd.
  assert (len d = 32) as Hlen by (unfold len; lia). f_equal.
  - rewrite <- app_assoc, sub_skip, N.sub_diag by lia. by apply sub_here.
  - rewrite <- Hlen, <- len_app. rewrite <- app_assoc, (app_assoc pre). apply IH.
Qed.

Lemma leaves_loop_wf (data : bytes) (count : nat) (offset : N) :
  offset + N.of_nat count * 32 <= len data ->
  let ls := leaves_loop data count offset in
  length ls = count /\ Forall digest_wf ls /\ concat ls = sub data offset (N.of_nat count * 32).
Proof.
  revert offset. induction count as [|count IH]; intros offset Hb; cbn; [done|].
  destruct (IH (offset + 32) ltac:(lia)) as (Hl & Hw & Hc).
  assert (len (sub data offset 32) = 32) as Hlen by (apply sub_length; lia).
  split_and!; [lia|constructor; [unfold digest_wf; unfold len in Hlen; lia|done]|].
  replace (N.of_nat (S count) * 32) with (32 + N.of_nat count * 32) by lia. by rewrite sub_split, Hc.
Qed.

(** Magic, version, count and root: 41 bytes. *)
Definition header_bytes (count : N) (r : Digest) : bytes :=
  MMR_MAGIC ++ to_le 1 MMR_VERSION ++ to_le 4 count ++ r.

Lemma len_to_le (w : nat) (n : N) : len (to_le w n) = N.of_nat w.
Proof. unfold len. by rewrite length_to_le. Qed.

Lemma len_header (count : N) (r : Digest) : digest_wf r -> len (header_bytes count r) = 41.
Proof.
  intros Hr. unfold header_bytes. rewrite !len_app, !len_to_le. unfold len at 2. rewrite Hr. done.
Qed.

Section File.
Context (crc32 : bytes -> N) (Hcrc : forall b, crc32 b < 2 ^ 32).

Lemma len_concat (ls : list Digest) : Forall digest_wf ls -> len (concat ls) = N.of_nat (length ls) * 32.
Proof.
  induction 1 as [|d ls Hd Hw IH]; [done|]. cbn [concat length]. rewrite len_app, IH.
  unfold len. rewrite Hd. lia.
Qed.

(** The fields of a log file. *)
Definition file_of (r : Digest) (ls : list Digest) (tail : bytes) : bytes :=
  let h := header_bytes (N.of_nat (length ls)) r in
  h ++ to_le 4 (crc32 (h ++ concat ls)) ++ concat ls ++ tail.

Lemma file_fields (r : Digest) (ls : list Digest) (tail : bytes) :
  digest_wf r -> Forall digest_wf ls ->
  let n := N.of_nat (length ls) in
  let data := file_of r ls tail in
  len data = 45 + n * 32 + len tail /\ sub data 0 4 = MMR_MAGIC /\ sub data 4 1 = to_le 1 MMR_VERSION /\
  sub data 5 4 = to_le 4 n /\ sub data 0 41 = header_bytes n r /\
  sub data 41 4 = to_le 4 (crc32 (header_bytes n r ++ concat ls)) /\
  sub data 45 (n * 32) = concat ls /\ leaves_loop data (length ls) 45 = ls.
Proof.
  intros Hr Hw n data. pose proof (len_header n r Hr) as Hh. pose proof (len_concat ls Hw) as Hl.
  pose proof (leaves_loop_concat (header_bytes n r ++ to_le 4 (crc32 (header_bytes n r ++ concat ls))) tail ls Hw) as Hloop.
  rewrite len_app, Hh, len_to_le, <- app_assoc in Hloop. change (41 + N.of_nat 4) with 45 in Hloop.
  unfold data, file_of. fold n. split_and!; [| | | | | | |exact Hloop].
  - rewrite !len_app, Hh, Hl, len_to_le. fold n. lia.
  - unfold header_bytes. rewrite <- !app_assoc. by apply sub_here.
  - unfold header_bytes. rewrite <- !app_assoc. rewrite sub_skip by done. by apply sub_here.
  - unfold header_bytes. rewrite <- !app_assoc. rewrite sub_skip, sub_skip by done. apply sub_here. by rewrite len_to_le.
  - by apply sub_here.
  - rewrite sub_skip by lia. rewrite Hh. apply sub_here. by rewrite len_to_le.
  - rewrite sub_skip, sub_skip by (rewrite ?len_to_le, ?Hh; done). rewrite Hh, len_to_le. by apply sub_here.
Qed.

Lemma sub_all (data : bytes) (size : N) : sub data 0 size ++ drop (N.to_nat size) data = data.
Proof. unfold sub. by rewrite drop_0, take_drop. Qed.

Lemma to_le_sub (data : bytes) (start : N) (w : nat) : start + N.of_nat w <= len data ->
  to_le w (of_le (sub data start (N.of_nat w))) = sub data start (N.of_nat w).
Proof.
  intros Hb. pose proof (sub_length data start (N.of_nat w) Hb) as Hl. unfold len in Hl.
  assert (length (sub data start (N.of_nat w)) = w) as Hw by lia.
  pose proof (to_le_of_le (sub data start (N.of_nat w))) as Ht. by rewrite Hw in Ht.
Qed.

Lemma of_le_sub_lt (data : bytes) (start : N) (w : nat) : start + N.of_nat w <= len data ->
  of_le (sub data start (N.of_nat w)) < 256 ^ N.of_nat w.
Proof.
  intros Hb. pose proof (sub_length data start (N.of_nat w) Hb) as Hl. unfold len in Hl.
  pose proof (of_le_lt (sub data start (N.of_nat w))) as Ht. by replace (length _) with w in Ht by lia.
Qed.

Lemma file_split (data : bytes) (count : N) : 45 + count * 32 <= len data ->
  data = ((sub data 0 4 ++ sub data 4 1 ++ sub data 5 4 ++ sub data 9 32) ++ sub data 41 4 ++
          sub data 45 (count * 32)) ++ drop (N.to_nat (45 + count * 32)) data /\
  sub data 0 41 = sub data 0 4 ++ sub data 4 1 ++ sub data 5 4 ++ sub data 9 32.
Proof.
  intros Hb.
  assert (sub data 0 41 = sub data 0 4 ++ sub data 4 1 ++ sub data 5 4 ++ sub data 9 32) as Hh.
  { change 41 with (4 + (1 + (4 + 32))). by rewrite !sub_split. }
  split; [|done]. rewrite <- Hh. rewrite <- (sub_all data (45 + count * 32)) at 1. f_equal.
  change 45 with (41 + 4) at 1. by rewrite !sub_split, <- app_assoc.
Qed.

(** A byte string decodes to [ls] exactly when it has the fields of [ls], its
    checksum, some root, and any bytes after. *)
Lemma decode_leaves_Ok (data : bytes) (ls : list Digest) :
  decode_leaves crc32 data = Ok ls <->
  exists r tail, digest_wf r /\ Forall digest_wf ls /\ N.of_nat (length ls) < 2 ^ 32 /\ data = file_of r ls tail.
Proof.
  unfold decode_leaves. rewrite reject_Ok, !guard_Ok, reject_Ok, guard_Ok. split.
  - intros (H45 & Hm & Hv & Hbody & Hc & [= <-]). breflect.
    pose proof (of_le_sub_lt data 5 4 ltac:(lia)) as Hlt. set (count := of_le (sub data 5 4)) in *.
    destruct (leaves_loop_wf data (N.to_nat count) 45 ltac:(lia)) as (Hl & Hw & Hcat). rewrite N2Nat.id in Hcat.
    destruct (file_split data count Hbody) as [Hdata Hhead].
    exists (sub data 9 32), (drop (N.to_nat (45 + count * 32)) data). split_and!.
    + pose proof (sub_length data 9 32 ltac:(lia)) as H9. unfold digest_wf. unfold len in H9. lia.
    + done.
    + rewrite Hl, N2Nat.id. exact Hlt.
    + unfold file_of, header_bytes. rewrite Hl, N2Nat.id, Hcat.
      assert (to_le 4 count = sub data 5 4) as -> by (apply (to_le_sub data 5 4); lia).
      assert (to_le 1 MMR_VERSION = sub data 4 1) as -> by (rewrite <- Hv; apply (to_le_sub data 4 1); lia).
      rewrite <- Hm, <- Hhead, Hc. assert (to_le 4 (of_le (sub data 41 4)) = sub data 41 4) as -> by (apply (to_le_sub data 41 4); lia).
      rewrite Hdata at 1. rewrite <- Hhead, <- !app_assoc. done.
  - intros (r & tail & Hr & Hw & Hn & ->).
    destruct (file_fields r ls tail Hr Hw) as (Hlen & -> & -> & Hcount & Hhead & Hcrc4 & Hbody & Hloop).
    rewrite Hcount, Hhead, Hcrc4, Hlen, !of_le_to_le, Nat2N.id, Hbody, Hloop; [|apply Hcrc|exact Hn|done].
    rewrite !N.ltb_ge, !N.eqb_eq, bool_decide_true by done. split_and!; lia || done.
Qed.
End File.

Lemma root_wf `{Platform, !PlatformOk} (log : TransparencyLog) : log_wf log ->
  exists r, root log = Some r /\ digest_wf r.
Proof.
  intros (Hw & _ & Hn). destruct (decide (leaves log = [])) as [E|Hne].
  - destruct log as [ls dir]. cbn in E. subst. by exists ZERO.
  - destruct (root_tree log Hn Hne) as (t & _ & Ht & Htips). exists (thash t). split; [done|].
    apply thash_wf. by rewrite Htips.
Qed.

(** The log file is a faithful, checked copy.  A log written by [flush]
    reads back as itself; and whatever [open] accepts is, byte for byte, magic,
    version, leaf count, a root, the checksum of these and of the leaves, the
    leaves, and bytes that are not looked at. *)
Theorem log_file_roundtrip `{Platform, !PlatformOk} (crc32 : bytes -> N) (log : TransparencyLog) :
  (forall b, crc32 b < 2 ^ 32) -> log_wf log ->
  (exists b, flush_bytes crc32 log = Some b /\ open crc32 (Contents b) (store_root log) = Ok log) /\
  (forall data dir log', open crc32 (Contents data) dir = Ok log' ->
     exists r tail, digest_wf r /\ data = file_of crc32 r (leaves log') tail).
Proof.
  intros Hcrc Hlog. destruct (root_wf log Hlog) as (r & Hr & Hrw). destruct Hlog as (Hw & _ & Hn). split.
  - exists (file_of crc32 r (leaves log) []). split.
    + unfold flush_bytes. rewrite Hr, Some_bind. unfold file_of, log_header, header_bytes.
      by rewrite (leaf_count32_small log Hn), app_nil_r.
    + unfold open. rewrite (proj2 (decode_leaves_Ok crc32 Hcrc _ (leaves log))); [by destruct log|]. by exists r, [].
  - intros data dir log' Ho. unfold open in Ho. apply bind_Ok_inv in Ho as (ls & Hd & [= <-]).
    apply (decode_leaves_Ok crc32 Hcrc) in Hd as (r' & tail & Hr' & _ & _ & Hdata). by exists r', tail.
Qed.

(** * Concrete runs *)

(** A stand-in for SHA-256: the first 32 bytes, padded with zeros. *)
#[local] Instance toy_platform : Platform := {|
  sha256 := fun m => take 32 (m ++ replicate 32 byte0); json_string := fun s => s |}.

#[local] Instance toy_platform_ok : PlatformOk.
Proof.
  intros m. unfold digest_wf. cbn [sha256 toy_platform]. rewrite length_take, length_app, length_replicate. lia.
Qed.

Definition leaf (n : N) : Digest := replicate 32 (ascii_of_N n).
Definition log5 : TransparencyLog := mkLog [leaf 10; leaf 11; leaf 12; leaf 13; leaf 14] "store".

Lemma log5_wf : log_wf log5.
Proof. split_and!; [by repeat constructor|by apply (bool_decide_unpack _); vm_compute|done]. Qed.

Lemma inclusion_proofs_exact_witness :
  log_wf log5 /\ proves log5 3 (leaf 13) /\ peaks log5 = Some [hash_pair (hash_pair (leaf 10) (leaf 11)) (hash_pair (leaf 12) (leaf 13)); leaf 14].
Proof.
  split; [exact log5_wf|]. split; [|by vm_compute]. destruct (inclusion_proofs_exact log5 log5_wf) as [Hp _].
  by apply Hp.
Defined.

Lemma log_file_roundtrip_witness :
  exists b, flush_bytes (fun _ => 7) log5 = Some b /\ len b = 45 + 5 * 32 /\ open (fun _ => 7) (Contents b) "store" = Ok log5.
Proof.
  destruct (log_file_roundtrip (fun _ => 7) log5 (fun _ => eq_refl) log5_wf) as [(b & Hb & Ho) _].
  exists b. split_and!; [done| |done]. vm_compute in Hb. injection Hb as <-. by vm_compute.
Defined.
