(* ===== verification/Csr.v ===== *)
(** Adjacency of the symbol graph ([graphzero-store/src/store/csr.rs], with
    [SpanEntry] of [format.rs] and the edge view of [hot_path.rs]): edges sorted
    by source into compressed sparse rows, each with its evidence span, and the
    reverse index by target, placed by counting.  [u32] additions wrap.  An
    [option] result is [None] where the source would panic on an index. *)

From S2P Require Import Prelude.
From S2P Require Import Ordering.

#[local] Open Scope N_scope.

(** * Data *)

Record SpanEntry := mkSpan {
  blob_idx : N; sp_start : N; sp_end : N; sp_symbol_id : N; block_start : N; block_end : N }.

Definition SpanEntry_default : SpanEntry := mkSpan 0 0 0 0 0 0.

Definition outline_byte_range (s : SpanEntry) : N * N :=
  if block_start s <? block_end s then (block_start s, block_end s) else (sp_start s, sp_end s).

Definition name_byte_range (s : SpanEntry) : N * N := (sp_start s, sp_end s).

Definition CALLS : N := 0.
Definition IMPORTS : N := 1.
Definition REFS : N := 2.

Definition is_blast_kind (kind : N) : bool := (kind =? CALLS) || (kind =? REFS) || (kind =? IMPORTS).

Record Edge := mkEdge { target : N; kind : N; confidence : N }.

(** One tuple of the builder. *)
Record RawEdge := mkRaw { src : N; dst : N; raw_kind : N; raw_confidence : N; raw_evidence : SpanEntry }.

Definition CsrBuilder : Type := list RawEdge.

Record BuiltCsr := mkCsr {
  offsets : list N; targets : list N; kinds : list N; confidences : list N; evidence : list SpanEntry }.

Definition BuiltCsr_empty (num_symbols : nat) : BuiltCsr := mkCsr (replicate (num_symbols + 1) 0) [] [] [] [].

Definition add_edge_with_evidence (b : CsrBuilder) (s d k c : N) (e : SpanEntry) : CsrBuilder := b ++ [mkRaw s d k c e].
Definition add_edge (b : CsrBuilder) (s d k c : N) : CsrBuilder := add_edge_with_evidence b s d k c SpanEntry_default.

(** * Building *)

Definition wrap32 (n : N) : N := n mod 2 ^ 32.

(** [v[i] += by]. *)
Definition bump (v : list N) (i : nat) (by_ : N) : option (list N) :=
  x ← v !! i; Some (<[i := wrap32 (x + by_)]> v).

Fixpoint count_sources (es : list RawEdge) (os : list N) : option (list N) :=
  match es with
  | [] => Some os
  | e :: es' => os' ← bump os (N.to_nat (src e) + 1) 1; count_sources es' os'
  end.

(** [offsets[i] += offsets[i - 1]] for each [i]. *)
Fixpoint prefix_loop (indices : list nat) (os : list N) : option (list N) :=
  match indices with
  | [] => Some os
  | i :: rest => x ← os !! (i - 1)%nat; os' ← bump os i x; prefix_loop rest os'
  end.

Definition build (b : CsrBuilder) (num_symbols : nat) : option BuiltCsr :=
  let es := sort_by_key src b in
  counted ← count_sources es (replicate (num_symbols + 1) 0);
  os ← prefix_loop (seq 1 (length counted - 1)) counted;
  Some (mkCsr os (dst <$> es) (raw_kind <$> es) (raw_confidence <$> es) (raw_evidence <$> es)).

(** * Reading *)

Record EdgesView := mkEdgesView {
  ev_offsets : list N; ev_targets : list N; ev_kinds : list N; ev_confidences : list N }.

Definition num_symbols (v : EdgesView) : nat := length (ev_offsets v) - 1.
Definition num_edges (v : EdgesView) : nat := length (ev_targets v).

Definition range (v : EdgesView) (s : N) : nat * nat :=
  let i := N.to_nat s in
  match ev_offsets v !! i, ev_offsets v !! (i + 1)%nat with
  | Some lo, Some hi =>
      if (hi <? lo) || (N.of_nat (length (ev_targets v)) <? hi) then (0, 0)%nat
      else (N.to_nat lo, N.to_nat hi)
  | _, _ => (0, 0)%nat
  end.

Definition edge_at (v : EdgesView) (i : nat) : option Edge :=
  t ← ev_targets v !! i; k ← ev_kinds v !! i; c ← ev_confidences v !! i; Some (mkEdge t k c).

Definition edges (v : EdgesView) (s : N) : option (list Edge) :=
  let '(lo, hi) := range v s in mapM (edge_at v) (seq lo (hi - lo)).

Definition edge_base (v : EdgesView) (s : N) : nat := fst (range v s).

(** * The reverse index *)

Record ReverseIndex := mkReverse { r_offsets : list N; r_entries : list (N * N) }.

Definition Pair : Type := N * (N * N).

Fixpoint count_targets (n : nat) (ps : list Pair) (os : list N) : option (list N) :=
  match ps with
  | [] => Some os
  | (t, _) :: ps' =>
      let slot := (N.to_nat t + 1)%nat in
      if (slot <=? n)%nat then os' ← bump os slot 1; count_targets n ps' os' else count_targets n ps' os
  end.

Fixpoint place_loop (ps : list Pair) (cursor : list N) (entries : list (N * N)) : option (list (N * N)) :=
  match ps with
  | [] => Some entries
  | (t, e) :: ps' =>
      slot ← cursor !! N.to_nat t;
      cursor' ← bump cursor (N.to_nat t) 1;
      place_loop ps' cursor' (if slot <? N.of_nat (length entries) then <[N.to_nat slot := e]> entries else entries)
  end.

Definition from_pairs (n : nat) (ps : list Pair) : option ReverseIndex :=
  counted ← count_targets n ps (replicate (n + 1) 0);
  os ← prefix_loop (seq 1 n) counted;
  entries ← place_loop ps (take n os) (replicate (length ps) (0, 0));
  Some (mkReverse os entries).

Definition slice_for (r : ReverseIndex) (t : N) : list (N * N) :=
  let i := N.to_nat t in
  match r_offsets r !! i, r_offsets r !! (i + 1)%nat with
  | Some lo, Some hi =>
      if (lo <=? hi) && (hi <=? N.of_nat (length (r_entries r)))
      then take (N.to_nat hi - N.to_nat lo) (drop (N.to_nat lo) (r_entries r)) else []
  | _, _ => []
  end.

Definition callers (r : ReverseIndex) (t : N) : list (N * N) := slice_for r t.

(** The edges of one source with their global indices, those kept and in
    range. *)
Definition pairs_of_source (v : EdgesView) (keep : N -> bool) (s : N) : option (list Pair) :=
  es ← edges v s;
  Some (omap (fun ie : nat * Edge =>
    if keep (kind ie.2) && (target ie.2 <? N.of_nat (num_symbols v))
    then Some (target ie.2, (s, wrap32 (N.of_nat (edge_base v s + ie.1)))) else None)
    (zip (seq 0 (length es)) es)).

(** [0..n as u32]: the bound is truncated to 32 bits. *)
Definition sources (v : EdgesView) : list nat := seq 0 (N.to_nat (wrap32 (N.of_nat (num_symbols v)))).

Definition pairs_of (v : EdgesView) (keep : N -> bool) : option (list Pair) :=
  pss ← mapM (fun s => pairs_of_source v keep (N.of_nat s)) (sources v); Some (concat pss).

Definition build_filtered (v : EdgesView) (keep : N -> bool) : option ReverseIndex :=
  ps ← pairs_of v keep; from_pairs (num_symbols v) ps.

Definition reverse_build (v : EdgesView) (filter_kind : option N) : option ReverseIndex :=
  match filter_kind with
  | Some k => build_filtered v (fun x => x =? k)
  | None => build_filtered v (fun _ => true)
  end.

(** * Three views in one pass *)

Record ReverseIndexBundle := mkBundle { rb_all : ReverseIndex; rb_blast : ReverseIndex; rb_calls : ReverseIndex }.

Definition bundle_edge (v : EdgesView) (s : N) (acc : list Pair * list Pair * list Pair) (ie : nat * Edge)
  : list Pair * list Pair * list Pair :=
  let '(all_pairs, blast_pairs, calls_pairs) := acc in
  if N.of_nat (num_symbols v) <=? target ie.2 then acc else
  let entry := (target ie.2, (s, wrap32 (N.of_nat (edge_base v s + ie.1)))) in
  (all_pairs ++ [entry],
   (if is_blast_kind (kind ie.2) then blast_pairs ++ [entry] else blast_pairs),
   (if kind ie.2 =? CALLS then calls_pairs ++ [entry] else calls_pairs)).

Fixpoint bundle_loop (v : EdgesView) (sources : list nat) (acc : list Pair * list Pair * list Pair)
  : option (list Pair * list Pair * list Pair) :=
  match sources with
  | [] => Some acc
  | s :: rest =>
      es ← edges v (N.of_nat s);
      bundle_loop v rest (foldl (bundle_edge v (N.of_nat s)) acc (zip (seq 0 (length es)) es))
  end.

Definition bundle_build (v : EdgesView) : option ReverseIndexBundle :=
  let n := num_symbols v in
  '(a, b, c) ← bundle_loop v (sources v) ([], [], []);
  ra ← from_pairs n a; rb ← from_pairs n b; rc ← from_pairs n c;
  Some (mkBundle ra rb rc).

(** * Counting *)

Definition cnt (ks : list nat) (s : nat) : N := N.of_nat (length (filter (fun k => k = s) ks)).
Definition cum (ks : list nat) (s : nat) : N := N.of_nat (length (filter (fun k => (k < s)%nat) ks)).

Lemma cnt_cons k ks s : cnt (k :: ks) s = (if decide (k = s) then 1 else 0) + cnt ks s.
Proof. unfold cnt. rewrite filter_cons. case_decide; cbn [length]; lia. Qed.

Lemma cum_cons k ks s : cum (k :: ks) s = (if decide (k < s)%nat then 1 else 0) + cum ks s.
Proof. unfold cum. rewrite filter_cons. case_decide; cbn [length]; lia. Qed.

Lemma cum_0 ks : cum ks 0 = 0.
Proof. induction ks as [|k ks IH]; [done|]. rewrite cum_cons, decide_False, IH by lia. done. Qed.

Lemma cum_S ks s : cum ks (S s) = cum ks s + cnt ks s.
Proof.
  induction ks as [|k ks IH]; [done|]. rewrite !cum_cons, cnt_cons, IH. repeat case_decide; lia.
Qed.

Lemma cum_le ks s : cum ks s <= N.of_nat (length ks).
Proof. induction ks as [|k ks IH]; [done|]. rewrite cum_cons. cbn [length]. case_decide; lia. Qed.

Lemma cum_mono ks s s' : (s <= s')%nat -> cum ks s <= cum ks s'.
Proof. induction 1 as [|s' _ IH]; [done|]. rewrite cum_S. lia. Qed.

Lemma cum_all ks n : Forall (fun k => (k < n)%nat) ks -> cum ks n = N.of_nat (length ks).
Proof. induction 1 as [|k ks Hk _ IH]; [done|]. rewrite cum_cons, decide_True, IH by done. cbn [length]. lia. Qed.

(** Both counting passes add one to the slot after each key. *)
Fixpoint count_keys (ks : list nat) (os : list N) : option (list N) :=
  match ks with [] => Some os | k :: ks' => os' ← bump os (k + 1) 1; count_keys ks' os' end.

Lemma count_sources_keys es os : count_sources es os = count_keys ((fun e => N.to_nat (src e)) <$> es) os.
Proof. revert os. induction es as [|e es IH]; intros os; cbn; [done|]. by destruct (bump _ _ _); cbn. Qed.

Lemma count_targets_keys n (ps : list Pair) os : Forall (fun p => (N.to_nat p.1 < n)%nat) ps ->
  count_targets n ps os = count_keys ((fun p => N.to_nat p.1) <$> ps) os.
Proof.
  intros Hps. revert os. induction Hps as [|[t e] ps Hp Hps IH]; intros os; cbn; [done|]. cbn in Hp.
  rewrite (proj2 (Nat.leb_le _ _)) by lia. by destruct (bump _ _ _); cbn.
Qed.

Lemma bump_Some v i by_ x : v !! i = Some x -> x + by_ < 2 ^ 32 -> bump v i by_ = Some (<[i := x + by_]> v).
Proof. intros Hx Hlt. unfold bump. rewrite Hx. cbn. unfold wrap32. by rewrite N.mod_small. Qed.

Lemma count_keys_spec (ks : list nat) (os : list N) :
  Forall (fun k => (k + 1 < length os)%nat) ks ->
  (forall i x, os !! i = Some x -> x + N.of_nat (length ks) < 2 ^ 32) ->
  exists os', count_keys ks os = Some os' /\ length os' = length os /\ os' !! 0%nat = os !! 0%nat /\
    forall s x, os !! S s = Some x -> os' !! S s = Some (x + cnt ks s).
Proof.
  intros Hks. revert os Hks. induction ks as [|k ks IH]; intros os Hks Hroom.
  - exists os. split_and!; [done..|]. intros s x Hx. by rewrite Hx, N.add_0_r.
  - apply Forall_cons_1 in Hks as [Hk Hks]. cbn [length] in Hroom.
    destruct (lookup_lt_is_Some_2 os (k + 1)) as [x Hx]; [done|].
    cbn [count_keys]. rewrite (bump_Some os _ 1 x Hx); [|specialize (Hroom _ _ Hx); lia]. cbn [mbind option_bind].
    destruct (IH (<[(k + 1)%nat := x + 1]> os)) as (os' & Hc & Hl & H0 & Hs).
    { by rewrite length_insert. }
    { intros i y Hy. apply list_lookup_insert_Some in Hy as [(<- & <- & _)|[_ Hy]]; [specialize (Hroom _ _ Hx)|specialize (Hroom _ _ Hy)]; lia. }
    exists os'. rewrite length_insert in Hl. split_and!; [done|done| |].
    + rewrite H0. by rewrite list_lookup_insert_ne by lia.
    + intros s y Hy. rewrite cnt_cons. destruct (decide (k = s)) as [->|Hne].
      * rewrite Nat.add_1_r in Hx, Hs. rewrite Hx in Hy. injection Hy as <-.
        rewrite (Hs s (x + 1)); [f_equal; lia|]. apply list_lookup_insert_eq. by eapply lookup_lt_Some.
      * rewrite (Hs s y); [f_equal; lia|]. by rewrite list_lookup_insert_ne by lia.
Qed.

(** Prefix sums turn counts into the numbers of smaller keys. *)
Lemma prefix_loop_spec (ks : list nat) (m i : nat) (os : list N) :
  N.of_nat (length ks) < 2 ^ 32 -> length os = (i + m + 1)%nat ->
  (forall s, (s <= i)%nat -> os !! s = Some (cum ks s)) ->
  (forall s, (i <= s < i + m)%nat -> os !! S s = Some (cnt ks s)) ->
  exists os', prefix_loop (seq (S i) m) os = Some os' /\ length os' = length os /\
    forall s, (s <= i + m)%nat -> os' !! s = Some (cum ks s).
Proof.
  intros Hn. revert i os. induction m as [|m IH]; intros i os Hl Hdone Htodo.
  - exists os. rewrite Nat.add_0_r. done.
  - cbn [seq prefix_loop]. rewrite Nat.sub_succ, Nat.sub_0_r, (Hdone i (Nat.le_refl i)). cbn [mbind option_bind].
    pose proof (cum_S ks i) as HS. pose proof (cum_le ks (S i)) as Hle.
    rewrite (bump_Some os _ _ (cnt ks i)); [|apply Htodo; lia|lia]. cbn [mbind option_bind].
    destruct (IH (S i) (<[S i := cnt ks i + cum ks i]> os)) as (os' & Hp & Hl' & Hs).
    + rewrite length_insert. lia.
    + intros s Hsi. destruct (decide (s = S i)) as [->|Hne].
      * rewrite list_lookup_insert_eq by lia. f_equal. lia.
      * rewrite list_lookup_insert_ne by lia. apply Hdone. lia.
    + intros s Hsi. rewrite list_lookup_insert_ne by lia. apply Htodo. lia.
    + exists os'. rewrite length_insert in Hl'. split_and!; [done|done|]. intros s Hsi. apply Hs. lia.
Qed.

(** Counting and prefix sums from zeros. *)
Lemma offsets_spec (ks : list nat) (n : nat) :
  Forall (fun k => (k < n)%nat) ks -> N.of_nat (length ks) < 2 ^ 32 ->
  exists counted os, count_keys ks (replicate (n + 1) 0) = Some counted /\ length counted = (n + 1)%nat /\
    prefix_loop (seq 1 n) counted = Some os /\ length os = (n + 1)%nat /\
    forall s, (s <= n)%nat -> os !! s = Some (cum ks s).
Proof.
  intros Hks Hn. destruct (count_keys_spec ks (replicate (n + 1) 0)) as (counted & Hc & Hl & H0 & Hs).
  { rewrite length_replicate. eapply Forall_impl; [exact Hks|]. cbn. lia. }
  { intros i x [-> _]%lookup_replicate_1. lia. }
  rewrite length_replicate in Hl.
  destruct (prefix_loop_spec ks n 0 counted Hn) as (os & Hp & Hlo & Hos).
  - lia.
  - intros s Hs0. assert (s = 0)%nat as -> by lia. rewrite H0, cum_0. apply lookup_replicate_2. lia.
  - intros s Hs0. rewrite (Hs s 0); [by rewrite N.add_0_l|]. apply lookup_replicate_2. lia.
  - exists counted, os. rewrite Hlo. done.
Qed.

(** * Rows *)

Definition source_of (e : RawEdge) : nat := N.to_nat (src e).

Lemma cum_none ks s : Forall (fun k => (s <= k)%nat) ks -> cum ks s = 0.
Proof. induction 1 as [|k ks Hk _ IH]; [done|]. rewrite cum_cons, decide_False, IH by lia. done. Qed.

Lemma cnt_none ks s : Forall (fun k => (s < k)%nat) ks -> cnt ks s = 0.
Proof. induction 1 as [|k ks Hk _ IH]; [done|]. rewrite cnt_cons, decide_False, IH by lia. done. Qed.

(** The row of [s] in a vector sorted by source. *)
Lemma sorted_row (es : list RawEdge) (s : nat) :
  StronglySorted (fun a b => (source_of a <= source_of b)%nat) es ->
  take (N.to_nat (cnt (source_of <$> es) s)) (drop (N.to_nat (cum (source_of <$> es) s)) es) =
  filter (fun e => source_of e = s) es.
Proof.
  induction 1 as [|e es Hs IH He]; [done|]. rewrite fmap_cons, cnt_cons, cum_cons, filter_cons.
  destruct (Nat.lt_trichotomy (source_of e) s) as [Hlt|[<-|Hgt]].
  - rewrite !(decide_False (P := source_of e = s)), (decide_True (P := (source_of e < s)%nat)) by lia.
    rewrite !N2Nat.inj_add. change (N.to_nat 0) with 0%nat. change (N.to_nat 1) with 1%nat. cbn [plus drop]. exact IH.
  - rewrite (decide_False (P := (source_of e < source_of e)%nat)), !(decide_True (P := source_of e = source_of e)) by lia.
    rewrite cum_none in IH |- *.
    2, 3: by rewrite Forall_fmap; eapply Forall_impl; [exact He|].
    rewrite N2Nat.inj_add. change (N.to_nat (0 + 0)) with 0%nat. change (N.to_nat 1) with 1%nat.
    change (N.to_nat 0) with 0%nat in IH. rewrite drop_0 in IH |- *. cbn [plus take]. by rewrite IH.
  - rewrite !decide_False by lia. rewrite cum_none, cnt_none.
    2, 3: rewrite Forall_fmap; eapply Forall_impl; [exact He|cbn; lia].
    symmetry. apply filter_none. intros x Hx. rewrite Stdlib.Lists.List.Forall_forall in He.
    apply list_elem_of_In in Hx. specialize (He x Hx). lia.
Qed.

Lemma sorted_sources (b : list RawEdge) :
  StronglySorted (fun x y => (source_of x <= source_of y)%nat) (sort_by_key src b).
Proof.
  apply Sorted_StronglySorted; [intros x y z; lia|].
  pose proof (sort_by_key_sorted src b) as Hs. induction Hs as [|x s Hs IH Hx]; constructor; [done|].
  destruct Hx as [|y s Hxy]; constructor. unfold geb, ltb, cmp, N_ord in Hxy. unfold source_of.
  destruct (N.compare_spec (src y) (src x)); [lia|by cbn in Hxy|lia].
Qed.

(** Rows keep the order of insertion. *)
Lemma sorted_filter_source (b : list RawEdge) (s : nat) :
  filter (fun e => source_of e = s) (sort_by_key src b) = filter (fun e => source_of e = s) b.
Proof.
  assert (Hf : forall l, filter (fun e => source_of e = s) l = List.filter (fun e => (source_of e =? s)%nat) l).
  { induction l as [|e l IH]; [done|]. rewrite filter_cons. cbn [List.filter]. rewrite IH.
    case_decide as E; [by rewrite (proj2 (Nat.eqb_eq _ _) E)|by rewrite (proj2 (Nat.eqb_neq _ _) E)]. }
  rewrite !Hf. apply sort_by_key_stable. unfold source_of. intros x y. rewrite !Nat.eqb_eq. lia.
Qed.

Definition view_of (c : BuiltCsr) : EdgesView := mkEdgesView (offsets c) (targets c) (kinds c) (confidences c).
Definition edge_of (e : RawEdge) : Edge := mkEdge (dst e) (raw_kind e) (raw_confidence e).

(** What [build] computes. *)
Definition built (b : CsrBuilder) (n : nat) (c : BuiltCsr) : Prop :=
  let es := sort_by_key src b in
  length (offsets c) = (n + 1)%nat /\
  (forall s, (s <= n)%nat -> offsets c !! s = Some (cum (source_of <$> es) s)) /\
  c = mkCsr (offsets c) (dst <$> es) (raw_kind <$> es) (raw_confidence <$> es) (raw_evidence <$> es).

Lemma build_Some (b : CsrBuilder) (n : nat) :
  Forall (fun e => (source_of e < n)%nat) b -> N.of_nat (length b) < 2 ^ 32 ->
  exists c, build b n = Some c /\ built b n c.
Proof.
  intros Hb Hn. set (es := sort_by_key src b). pose proof (sort_by_key_perm src b) as Hp. fold es in Hp.
  destruct (offsets_spec (source_of <$> es) n) as (counted & os & Hc & Hl & Hpre & Hlo & Hos).
  { rewrite Forall_fmap. by rewrite Hp. } { by rewrite length_fmap, Hp. }
  unfold build. fold es. rewrite count_sources_keys. fold source_of. setoid_rewrite Hc. cbn [mbind option_bind].
  rewrite Hl, Nat.add_sub, Hpre. cbn [mbind option_bind]. eexists. split; [done|]. by split_and!.
Qed.

(** A source out of range makes [build] panic. *)
Lemma count_keys_None (ks : list nat) (os : list N) (k : nat) :
  k ∈ ks -> (length os <= k + 1)%nat -> count_keys ks os = None.
Proof.
  revert os. induction ks as [|k' ks IH]; intros os Hk Hl; [by apply elem_of_nil in Hk|]. cbn.
  destruct (bump os (k' + 1) 1) as [os'|] eqn:E; cbn; [|done]. unfold bump in E.
  destruct (os !! (k' + 1)%nat) eqn:Ho; cbn in E; [|done]. injection E as <-. apply lookup_lt_Some in Ho.
  apply elem_of_cons in Hk as [->|Hk]; [lia|]. apply IH; [done|]. by rewrite length_insert.
Qed.

Lemma build_None (b : CsrBuilder) (n : nat) e : e ∈ b -> (n <= source_of e)%nat -> build b n = None.
Proof.
  intros He Hn. unfold build. rewrite count_sources_keys.
  rewrite (count_keys_None _ _ (source_of e)); [done| |rewrite length_replicate; lia].
  apply list_elem_of_fmap. exists e. split; [done|]. by rewrite sort_by_key_perm.
Qed.

Section Built.
Context (b : CsrBuilder) (n : nat) (c : BuiltCsr) (Hc : built b n c) (Hn : N.of_nat (length b) < 2 ^ 32).
Context (Hin : Forall (fun e => (source_of e < n)%nat) b).
Let es := sort_by_key src b.
Let ks := source_of <$> es.

Lemma length_es : length es = length b.
Proof. unfold es. by rewrite sort_by_key_perm. Qed.

Lemma num_symbols_built : num_symbols (view_of c) = n.
Proof. destruct Hc as (Hl & _). unfold num_symbols. cbn. lia. Qed.

Lemma edge_at_built i : edge_at (view_of c) i = edge_of <$> es !! i.
Proof.
  destruct Hc as (_ & _ & ->). unfold edge_at. cbn. fold es. rewrite !list_lookup_fmap. by destruct (es !! i).
Qed.

Lemma range_built (s : N) : range (view_of c) s =
  if decide (N.to_nat s < n)%nat then (N.to_nat (cum ks (N.to_nat s)), N.to_nat (cum ks (S (N.to_nat s)))) else (0, 0)%nat.
Proof.
  destruct Hc as (Hl & Hos & Heq). unfold range. cbn [view_of ev_offsets ev_targets]. rewrite Nat.add_1_r.
  case_decide as Hs.
  - rewrite !Hos by lia. fold es. fold ks. rewrite Heq. cbn [targets]. rewrite length_fmap. fold es.
    pose proof (cum_S ks (N.to_nat s)). pose proof (cum_le ks (S (N.to_nat s))) as Hle.
    unfold ks in Hle at 2. rewrite length_fmap in Hle.
    by rewrite (proj2 (N.ltb_ge _ _)), (proj2 (N.ltb_ge _ _)) by lia.
  - rewrite (lookup_ge_None_2 (offsets c) (S (N.to_nat s))) by lia. by destruct (offsets c !! N.to_nat s).
Qed.

Lemma edges_slice (lo k : nat) : (lo + k <= length es)%nat ->
  mapM (edge_at (view_of c)) (seq lo k) = Some (edge_of <$> take k (drop lo es)).
Proof.
  revert lo. induction k as [|k IH]; intros lo Hl; [done|].
  destruct (lookup_lt_is_Some_2 es lo) as [e He]; [lia|]. cbn [seq mapM]. rewrite edge_at_built, He. cbn [fmap option_fmap option_map mbind option_bind].
  rewrite (IH (S lo)) by lia. rewrite (drop_S es e lo He). done.
Qed.

Lemma row_at (s : nat) : take (N.to_nat (cum ks (S s)) - N.to_nat (cum ks s)) (drop (N.to_nat (cum ks s)) es) =
  filter (fun e => source_of e = s) b.
Proof.
  rewrite <- sorted_filter_source. fold es. rewrite <- (sorted_row es s (sorted_sources b)). fold ks.
  rewrite cum_S. do 2 f_equal. lia.
Qed.

Lemma cum_within (s : nat) : (N.to_nat (cum ks s) <= length es)%nat.
Proof. pose proof (cum_le ks s) as Hle. unfold ks in Hle at 2. rewrite length_fmap in Hle. lia. Qed.

(** The edges of a source are the inserted ones, in order. *)
Lemma edges_built (s : N) : edges (view_of c) s = Some (edge_of <$> filter (fun e => src e = s) b).
Proof.
  assert (Hsrc : filter (fun e => src e = s) b = filter (fun e => source_of e = N.to_nat s) b).
  { apply list_filter_iff. unfold source_of. lia. }
  unfold edges. rewrite range_built, Hsrc. case_decide as Hs.
  - pose proof (cum_mono ks (N.to_nat s) (S (N.to_nat s)) ltac:(lia)). pose proof (cum_within (S (N.to_nat s))).
    rewrite edges_slice by lia. by rewrite row_at.
  - rewrite <- Hsrc. enough (filter (fun e => src e = s) b = []) as -> by done. apply filter_none.
    intros e He <-. apply Hs. apply list_elem_of_lookup in He as [i Hi]. by apply (Forall_lookup_1 _ _ _ _ Hin Hi).
Qed.

Lemma evidence_built (s : N) (k : nat) e : filter (fun e => src e = s) b !! k = Some e ->
  evidence c !! (edge_base (view_of c) s + k)%nat = Some (raw_evidence e).
Proof.
  assert (Hsrc : filter (fun e => src e = s) b = filter (fun e => source_of e = N.to_nat s) b).
  { apply list_filter_iff. unfold source_of. lia. }
  rewrite Hsrc. intros He. assert (Hs : (N.to_nat s < n)%nat).
  { pose proof (list_elem_of_lookup_2 _ _ _ He) as [<- Hb]%list_elem_of_filter.
    apply list_elem_of_lookup in Hb as [i Hi]. by apply (Forall_lookup_1 _ _ _ _ Hin Hi). }
  unfold edge_base. rewrite range_built, decide_True by done. cbn [fst].
  destruct Hc as (_ & _ & ->). cbn [evidence]. fold es. rewrite list_lookup_fmap.
  rewrite <- row_at in He. apply lookup_take_Some in He as [He _]. rewrite lookup_drop in He. by rewrite He.
Qed.
End Built.

(** Compressed rows lose nothing.  With every source in range and fewer
    than [2^32] edges, building succeeds; reading the edges of any source gives
    exactly those inserted for it, in the order of insertion, and the evidence
    at the global index of an edge is the one inserted with it.  A source out
    of range panics. *)
Theorem csr_build_exact (b : CsrBuilder) (n : nat) : N.of_nat (length b) < 2 ^ 32 ->
  (Forall (fun e => src e < N.of_nat n) b ->
   exists c, build b n = Some c /\ num_symbols (view_of c) = n /\ num_edges (view_of c) = length b /\
     (forall s, edges (view_of c) s = Some (edge_of <$> filter (fun e => src e = s) b)) /\
     (forall s k e, filter (fun e => src e = s) b !! k = Some e ->
        evidence c !! (edge_base (view_of c) s + k)%nat = Some (raw_evidence e))) /\
  (forall e, e ∈ b -> N.of_nat n <= src e -> build b n = None).
Proof.
  intros Hn. split.
  - intros Hb. assert (Hin : Forall (fun e => (source_of e < n)%nat) b)
      by (eapply Forall_impl; [exact Hb|unfold source_of; cbn; lia]).
    destruct (build_Some b n Hin Hn) as (c & Hc & Hbuilt). exists c. split_and!; [done|by eapply num_symbols_built| | |].
    + destruct Hbuilt as (_ & _ & ->). unfold num_edges. cbn. by rewrite length_fmap, sort_by_key_perm.
    + by eapply edges_built.
    + by eapply evidence_built.
  - intros e He Hs. eapply build_None; [exact He|]. unfold source_of. lia.
Qed.

(** * Placement by counting *)

Definition key_of (p : Pair) : nat := N.to_nat p.1.
Definition row (t : nat) (ps : list Pair) : list (N * N) := snd <$> filter (fun p => key_of p = t) ps.

Lemma cnt_app ks ks' s : cnt (ks ++ ks') s = cnt ks s + cnt ks' s.
Proof. unfold cnt. rewrite filter_app, length_app. lia. Qed.

Lemma length_row t ps : N.of_nat (length (row t ps)) = cnt (key_of <$> ps) t.
Proof.
  unfold row. rewrite length_fmap. induction ps as [|p ps IH]; [done|]. rewrite filter_cons, fmap_cons, cnt_cons, <- IH.
  case_decide; cbn [length]; lia.
Qed.

Lemma row_app t ps ps' : row t (ps ++ ps') = row t ps ++ row t ps'.
Proof. unfold row. by rewrite filter_app, fmap_app. Qed.

Lemma row_cons t p ps : row t (p :: ps) = row t [p] ++ row t ps.
Proof. apply (row_app t [p]). Qed.

Lemma row_one t u e : row t [(u, e)] = if decide (N.to_nat u = t) then [e] else [].
Proof. unfold row, key_of. rewrite filter_cons. cbn [fst]. by case_decide. Qed.

Section Placement.
Context (n : nat) (ps : list Pair).
Hypothesis Hps : Forall (fun p => (key_of p < n)%nat) ps.
Hypothesis Hlen : N.of_nat (length ps) < 2 ^ 32.
Let ks := key_of <$> ps.

(** What is in place once the pairs of [past] are. *)
Definition placed (past : list Pair) (cursor : list N) (entries : list (N * N)) : Prop :=
  length cursor = n /\ length entries = length ps /\
  (forall t, (t < n)%nat -> cursor !! t = Some (cum ks t + cnt (key_of <$> past) t)) /\
  (forall t j e, (t < n)%nat -> row t past !! j = Some e -> entries !! (N.to_nat (cum ks t) + j)%nat = Some e).

Lemma cum_length t : cum ks t <= N.of_nat (length ps).
Proof. pose proof (cum_le ks t) as H. unfold ks in H at 2. by rewrite length_fmap in H. Qed.

Lemma cnt_before (past todo : list Pair) (t : N) e : ps = past ++ (t, e) :: todo ->
  cum ks (N.to_nat t) + cnt (key_of <$> past) (N.to_nat t) < cum ks (S (N.to_nat t)).
Proof.
  intros Heq. rewrite cum_S. unfold ks at 3. rewrite Heq, fmap_app, cnt_app, fmap_cons, cnt_cons.
  change (key_of (t, e)) with (N.to_nat t). rewrite decide_True by done. lia.
Qed.

Lemma row_bound (past todo : list Pair) (t j : nat) e : ps = past ++ todo -> row t past !! j = Some e ->
  N.of_nat (N.to_nat (cum ks t) + j) < cum ks (S t).
Proof.
  intros Heq Hj. apply lookup_lt_Some in Hj. pose proof (length_row t past) as Hr.
  rewrite cum_S. unfold ks at 3. rewrite Heq, fmap_app, cnt_app. lia.
Qed.

Lemma slots_apart (t u : nat) (i j : N) :
  cum ks t <= i < cum ks (S t) -> cum ks u <= j < cum ks (S u) -> t <> u -> i <> j.
Proof.
  intros Hi Hj Hne. destruct (Nat.lt_total t u) as [Hlt|[Heq|Hlt]]; [|done|];
    [pose proof (cum_mono ks (S t) u Hlt)|pose proof (cum_mono ks (S u) t Hlt)]; lia.
Qed.

Lemma place_step (past todo : list Pair) (t : N) e cursor entries : ps = past ++ (t, e) :: todo ->
  placed past cursor entries ->
  exists slot, cursor !! N.to_nat t = Some slot /\ slot < N.of_nat (length entries) /\
    bump cursor (N.to_nat t) 1 = Some (<[N.to_nat t := slot + 1]> cursor) /\
    placed (past ++ [(t, e)]) (<[N.to_nat t := slot + 1]> cursor) (<[N.to_nat slot := e]> entries).
Proof.
  intros Heq (Hlc & Hle & Hcur & Hent).
  assert (Ht : (N.to_nat t < n)%nat).
  { assert (ps !! length past = Some (t, e)) as Hl by (rewrite Heq; by apply list_lookup_middle).
    apply (Forall_lookup_1 _ _ _ _ Hps Hl). }
  pose proof (cnt_before past todo t e Heq) as Hslot. pose proof (cum_length (S (N.to_nat t))) as Hcl.
  set (slot := cum ks (N.to_nat t) + cnt (key_of <$> past) (N.to_nat t)) in *.
  exists slot. rewrite Hle. split_and!; [by apply Hcur|lia|apply bump_Some; [by apply Hcur|lia]|].
  split_and!; [by rewrite length_insert..| |].
  - intros u Hu. rewrite fmap_app, cnt_app. cbn [fmap list_fmap]. rewrite cnt_cons. change (key_of (t, e)) with (N.to_nat t).
    case_decide as E; [subst u; rewrite list_lookup_insert_eq by lia|rewrite list_lookup_insert_ne, (Hcur u Hu) by done];
      f_equal; unfold slot, cnt; cbn [filter list_filter length]; lia.
  - intros u j x Hu. rewrite row_app, row_one, lookup_app_Some. intros [Hj|[Hj Hx]].
    + rewrite list_lookup_insert_ne; [by apply Hent|]. intros Hsame.
      pose proof (row_bound past ((t, e) :: todo) u j x Heq Hj) as Hb. pose proof (lookup_lt_Some _ _ _ Hj) as Hlt.
      destruct (decide (N.to_nat t = u)) as [<-|Hne].
      * pose proof (length_row (N.to_nat t) past). unfold slot in Hsame. lia.
      * apply (slots_apart (N.to_nat t) u slot (N.of_nat (N.to_nat (cum ks u) + j)) ltac:(lia) ltac:(lia) Hne). lia.
    + case_decide as E; [|by rewrite lookup_nil in Hx]. subst u. apply list_lookup_singleton_Some in Hx as [Hj0 <-].
      pose proof (length_row (N.to_nat t) past). replace (N.to_nat (cum ks (N.to_nat t)) + j)%nat with (N.to_nat slot) by (unfold slot; lia).
      apply list_lookup_insert_eq. lia.
Qed.

Lemma place_loop_spec (past todo : list Pair) cursor entries : ps = past ++ todo -> placed past cursor entries ->
  exists cursor' entries', place_loop todo cursor entries = Some entries' /\ placed ps cursor' entries'.
Proof.
  revert past cursor entries. induction todo as [|[t e] todo IH]; intros past cursor entries Heq Hpl.
  - rewrite app_nil_r in Heq. subst past. by exists cursor, entries.
  - destruct (place_step past todo t e cursor entries Heq Hpl) as (slot & Hs & Hlt & Hb & Hpl').
    cbn [place_loop]. rewrite Hs. cbn [mbind option_bind]. rewrite Hb. cbn [mbind option_bind].
    rewrite (proj2 (N.ltb_lt _ _) Hlt). eapply IH; [|exact Hpl']. by rewrite <- app_assoc.
Qed.

(** Each target's slice holds its pairs in the order they were emitted. *)
Lemma from_pairs_exact : exists r, from_pairs n ps = Some r /\ forall t, callers r t = row (N.to_nat t) ps.
Proof.
  destruct (offsets_spec ks n) as (counted & os & Hc & Hl & Hpre & Hlo & Hos).
  { unfold ks. by rewrite Forall_fmap. } { unfold ks. by rewrite length_fmap. }
  destruct (place_loop_spec [] ps (take n os) (replicate (length ps) (0, 0)) eq_refl) as (cursor' & entries & Hpl & _ & Hle & _ & Hent).
  { split_and!; [rewrite length_take; lia|by rewrite length_replicate| |done].
    intros t Ht. rewrite lookup_take_lt, Hos by lia. by rewrite N.add_0_r. }
  unfold from_pairs. rewrite (count_targets_keys n ps _ Hps). change (count_keys _ _) with (count_keys ks (replicate (n + 1) 0)).
  rewrite Hc. cbn [mbind option_bind]. rewrite Hpre. cbn [mbind option_bind]. rewrite Hpl. cbn [mbind option_bind]. eexists. split; [done|].
  intros t. unfold callers, slice_for. cbn [r_offsets r_entries]. rewrite Nat.add_1_r.
  destruct (decide (N.to_nat t < n)%nat) as [Ht|Ht].
  - rewrite !Hos by lia. pose proof (cum_S ks (N.to_nat t)) as HS. pose proof (cum_length (S (N.to_nat t))).
    rewrite Hle, (proj2 (N.leb_le _ _)), (proj2 (N.leb_le _ _)) by lia. cbn [andb].
    pose proof (length_row (N.to_nat t) ps) as Hr. fold ks in Hr.
    apply list_eq_same_length with (n := length (row (N.to_nat t) ps)); [done|rewrite length_take, length_drop; lia|].
    intros j x y Hj Hx Hy. apply lookup_take_Some in Hx as [Hx _]. rewrite lookup_drop in Hx.
    rewrite (Hent _ j y Ht Hy) in Hx. congruence.
  - rewrite (lookup_ge_None_2 os (S (N.to_nat t))) by lia.
    replace (row (N.to_nat t) ps) with (@nil (N * N)); [by destruct (os !! N.to_nat t)|].
    unfold row. rewrite filter_none; [done|]. intros p [i Hi]%list_elem_of_lookup Hk.
    pose proof (Forall_lookup_1 _ _ _ _ Hps Hi). cbn in *. lia.
Qed.
End Placement.

(** * The reverse index of a built graph *)

(** The edges in row order with their global indices. *)
Definition indexed (b : CsrBuilder) : list (nat * RawEdge) :=
  zip (seq 0 (length b)) (sort_by_key src b).

Definition entry_pair (keep : N -> bool) (n : nat) (ie : nat * RawEdge) : option Pair :=
  if keep (raw_kind ie.2) && (dst ie.2 <? N.of_nat n) then Some (dst ie.2, (src ie.2, N.of_nat ie.1)) else None.

(** The pairs that one source emits for its [edges]. *)
Definition emit (v : EdgesView) (keep : N -> bool) (s : N) (ie : nat * Edge) : option Pair :=
  if keep (kind ie.2) && (target ie.2 <? N.of_nat (num_symbols v))
  then Some (target ie.2, (s, wrap32 (N.of_nat (edge_base v s + ie.1)))) else None.

Lemma emit_row (v : EdgesView) keep (s : N) (base k : nat) (l : list RawEdge) :
  edge_base v s = base -> Forall (fun e => src e = s) l -> N.of_nat (base + k + length l) < 2 ^ 32 ->
  omap (emit v keep s) (zip (seq k (length l)) (edge_of <$> l)) =
  omap (entry_pair keep (num_symbols v)) (zip (seq (base + k) (length l)) l).
Proof.
  intros Hb Hl. revert k. induction Hl as [|e l He Hl IH]; intros k Hlt; [done|]. cbn [length] in Hlt.
  change (omap (emit v keep s) ((k, edge_of e) :: zip (seq (S k) (length l)) (edge_of <$> l)) =
          omap (entry_pair keep (num_symbols v)) (((base + k)%nat, e) :: zip (seq (S (base + k)) (length l)) l)).
  assert (Hh : emit v keep s (k, edge_of e) = entry_pair keep (num_symbols v) ((base + k)%nat, e)).
  { unfold emit, entry_pair. cbn [fst snd edge_of kind target]. unfold wrap32. rewrite Hb, N.mod_small by lia. by rewrite He. }
  cbn [omap list_omap]. specialize (IH (S k) ltac:(lia)). rewrite Nat.add_succ_r in IH. by rewrite IH, Hh.
Qed.

Lemma zip_seq_app {A} (k : nat) (l l' : list A) :
  zip (seq k (length (l ++ l'))) (l ++ l') = zip (seq k (length l)) l ++ zip (seq (k + length l) (length l')) l'.
Proof.
  revert k. induction l as [|x l IH]; intros k; cbn [app length seq zip_with]; [by rewrite Nat.add_0_r|].
  rewrite IH. cbn [app]. by rewrite Nat.add_succ_r.
Qed.

Section Reverse.
Context (b : CsrBuilder) (n : nat) (c : BuiltCsr) (Hc : built b n c) (Hn : N.of_nat (length b) < 2 ^ 32).
Context (Hin : Forall (fun e => (source_of e < n)%nat) b) (keep : N -> bool).
Let es := sort_by_key src b.
Let ks := source_of <$> es.

Lemma pairs_of_source_built (s : nat) : (s < n)%nat ->
  pairs_of_source (view_of c) keep (N.of_nat s) =
  Some (omap (entry_pair keep n) (zip (seq (N.to_nat (cum ks s)) (length (filter (fun e => source_of e = s) b)))
                                      (filter (fun e => source_of e = s) b))).
Proof.
  intros Hs. unfold pairs_of_source. rewrite (edges_built b n c Hc Hn Hin (N.of_nat s)). cbn [mbind option_bind]. f_equal.
  assert (Hsrc : filter (fun e => src e = N.of_nat s) b = filter (fun e => source_of e = s) b).
  { apply list_filter_iff. unfold source_of. lia. }
  rewrite Hsrc, length_fmap. pose proof (range_built b n c Hc Hn (N.of_nat s)) as Hr.
  rewrite Nat2N.id, decide_True in Hr by done.
  assert (Hb : edge_base (view_of c) (N.of_nat s) = N.to_nat (cum ks s)) by (unfold edge_base; by rewrite Hr).
  pose proof (emit_row (view_of c) keep (N.of_nat s) _ 0 (filter (fun e => source_of e = s) b) Hb) as He.
  rewrite Nat.add_0_r, (num_symbols_built b n c Hc Hn) in He. rewrite <- He.
  - unfold emit. by rewrite (num_symbols_built b n c Hc Hn).
  - rewrite <- Hsrc. apply Forall_forall. intros e He'. apply list_elem_of_filter in He'. by destruct He'.
  - rewrite <- (row_at b Hn s). fold es ks. rewrite length_take, length_drop.
    pose proof (cum_within b Hn s) as Hw. pose proof (length_es b) as Hl. fold es ks in Hw, Hl. lia.
Qed.

Lemma pairs_prefix (m : nat) : (m <= n)%nat ->
  exists pss, mapM (fun s => pairs_of_source (view_of c) keep (N.of_nat s)) (seq 0 m) = Some pss /\
    concat pss = omap (entry_pair keep n) (zip (seq 0 (N.to_nat (cum ks m))) (take (N.to_nat (cum ks m)) es)).
Proof.
  induction m as [|m IH]; intros Hm; [by exists []; rewrite cum_0|].
  destruct IH as (pss & Hpss & Hcat); [lia|]. rewrite seq_S, Nat.add_0_l.
  pose proof (row_at b Hn m) as Hrow. fold es ks in Hrow. pose proof (cum_mono ks m (S m) ltac:(lia)) as Hmono.
  pose proof (cum_within b Hn m) as Hw. pose proof (cum_within b Hn (S m)) as Hw'. fold es ks in Hw, Hw'.
  assert (Ht : take (N.to_nat (cum ks (S m))) es = take (N.to_nat (cum ks m)) es ++ filter (fun e => source_of e = m) b).
  { rewrite <- Hrow, take_take_drop. f_equal. lia. }
  exists (pss ++ [omap (entry_pair keep n) (zip (seq (N.to_nat (cum ks m)) (length (filter (fun e => source_of e = m) b))) (filter (fun e => source_of e = m) b))]).
  split.
  - apply mapM_Some_2, Forall2_app; [by apply mapM_Some_1|]. constructor; [by apply pairs_of_source_built|done].
  - rewrite concat_app. cbn [concat]. rewrite app_nil_r, Hcat, Ht.
    assert (Hk : length (take (N.to_nat (cum ks m)) es) = N.to_nat (cum ks m)) by (rewrite length_take; lia).
    assert (HkS : N.to_nat (cum ks (S m)) = length (take (N.to_nat (cum ks m)) es ++ filter (fun e => source_of e = m) b))
      by (rewrite <- Ht, length_take; lia).
    rewrite HkS, zip_seq_app, Hk, omap_app. done.
Qed.

Lemma pairs_of_built : N.of_nat n < 2 ^ 32 -> pairs_of (view_of c) keep = Some (omap (entry_pair keep n) (indexed b)).
Proof.
  intros Hsym. unfold pairs_of, sources, wrap32. rewrite (num_symbols_built b n c Hc Hn), N.mod_small, Nat2N.id by done. destruct (pairs_prefix n (Nat.le_refl n)) as (pss & Hp & Hcat).
  rewrite Hp. cbn [mbind option_bind]. f_equal. rewrite Hcat. unfold indexed. fold es.
  assert (Hall : N.to_nat (cum ks n) = length es).
  { unfold ks. rewrite cum_all, length_fmap; [lia|]. rewrite Forall_fmap. unfold es. by rewrite sort_by_key_perm. }
  rewrite Hall, firstn_all. pose proof (length_es b) as Hl. fold es in Hl. by rewrite Hl.
Qed.
End Reverse.

Lemma length_omap {A B} (f : A -> option B) (l : list A) : (length (omap f l) <= length l)%nat.
Proof. induction l as [|x l IH]; cbn; [lia|]. destruct (f x); cbn; lia. Qed.

Lemma row_entries keep (n t : nat) (l : list (nat * RawEdge)) : (t < n)%nat ->
  row t (omap (entry_pair keep n) l) =
  (fun ie => (src ie.2, N.of_nat ie.1)) <$> filter (fun ie => dst ie.2 = N.of_nat t /\ keep (raw_kind ie.2) = true) l.
Proof.
  intros Ht. induction l as [|[i e] l IH]; [done|]. cbn [omap list_omap]. rewrite filter_cons. cbn [fst snd].
  unfold entry_pair at 1. cbn [fst snd]. destruct (keep (raw_kind e)) eqn:Hk; cbn [andb].
  - destruct (dst e <? N.of_nat n) eqn:Hd; breflect.
    + rewrite row_cons, row_one, IH. destruct (decide (N.to_nat (dst e) = t)) as [E|E].
      * rewrite decide_True by (split; [lia|done]). done.
      * rewrite decide_False by (intros [? _]; lia). done.
    + rewrite decide_False by (intros [? _]; lia). exact IH.
  - rewrite decide_False by (by intros [_ ?]). exact IH.
Qed.

(** C30: The reverse index inverts the graph.  For a graph built from edges
    whose sources are in range, with fewer than [2^32] symbols and fewer than
    [2^32] edges, placing the kept edges by counting succeeds, and the callers
    of a target are exactly the sources of the kept edges into it with their
    global indices, in row order. *)
Theorem reverse_index_exact (b : CsrBuilder) (n : nat) (keep : N -> bool) :
  N.of_nat (length b) < 2 ^ 32 -> N.of_nat n < 2 ^ 32 -> Forall (fun e => src e < N.of_nat n) b ->
  exists c r, build b n = Some c /\ build_filtered (view_of c) keep = Some r /\
    forall t, t < N.of_nat n -> callers r t =
      (fun ie => (src ie.2, N.of_nat ie.1)) <$>
      filter (fun ie => dst ie.2 = t /\ keep (raw_kind ie.2) = true) (indexed b).
Proof.
  intros Hn Hsym Hb. assert (Hin : Forall (fun e => (source_of e < n)%nat) b)
    by (eapply Forall_impl; [exact Hb|unfold source_of; cbn; lia]).
  destruct (build_Some b n Hin Hn) as (c & Hc & Hbuilt). exists c.
  destruct (from_pairs_exact n (omap (entry_pair keep n) (indexed b))) as (r & Hr & Hcallers).
  - apply Forall_forall. intros p Hp. apply list_elem_of_omap in Hp as ([i e] & _ & He).
    unfold entry_pair in He. cbn in He. destruct (_ && _) eqn:E; [|done]. injection He as <-. breflect.
    unfold key_of. cbn. lia.
  - pose proof (length_omap (entry_pair keep n) (indexed b)) as Hl. unfold indexed in Hl at 2.
    rewrite length_zip_with, length_seq in Hl. lia.
  - exists r. split_and!; [done| |].
    + unfold build_filtered. rewrite (pairs_of_built b n c Hbuilt Hn Hin keep Hsym). cbn [mbind option_bind].
      by rewrite (num_symbols_built b n c Hbuilt Hn).
    + intros t Ht. rewrite Hcallers, row_entries by lia. by rewrite N2Nat.id.
Qed.

(** At exactly [2^32] symbols the truncated bound is zero and every view is
    empty. *)
Lemma sources_wrap (v : EdgesView) : N.of_nat (num_symbols v) = 2 ^ 32 -> pairs_of v (fun _ => true) = Some [].
Proof. intros Hn. unfold pairs_of, sources. rewrite Hn. done. Qed.

(** * Three views in one pass *)

Lemma bundle_edges (v : EdgesView) (s : N) (l : list (nat * Edge)) (a b c : list Pair) :
  foldl (bundle_edge v s) (a, b, c) l =
  (a ++ omap (emit v (fun _ => true) s) l, b ++ omap (emit v is_blast_kind s) l, c ++ omap (emit v (fun k => k =? CALLS) s) l).
Proof.
  revert a b c. induction l as [|ie l IH]; intros a b c; [by rewrite !app_nil_r|].
  assert (He : forall keep, emit v keep s ie = if keep (kind ie.2) && negb (N.of_nat (num_symbols v) <=? target ie.2)
    then Some (target ie.2, (s, wrap32 (N.of_nat (edge_base v s + ie.1)))) else None)
    by (intros keep; unfold emit; by rewrite N.ltb_antisym).
  cbn [foldl omap list_omap]. rewrite !He. unfold bundle_edge at 2.
  destruct (N.of_nat (num_symbols v) <=? target ie.2); cbn [negb andb]; rewrite ?andb_false_r, ?andb_true_r.
  - apply IH.
  - rewrite IH. by destruct (is_blast_kind (kind ie.2)), (kind ie.2 =? CALLS); rewrite <- ?app_assoc.
Qed.

Lemma bundle_loop_pairs (v : EdgesView) (ss : list nat) (a b c : list Pair) :
  let one keep := mapM (fun s => pairs_of_source v keep (N.of_nat s)) ss in
  bundle_loop v ss (a, b, c) =
  (pa ← one (fun _ => true); pb ← one is_blast_kind; pc ← one (fun k => k =? CALLS);
   Some (a ++ concat pa, b ++ concat pb, c ++ concat pc)).
Proof.
  cbv zeta. revert a b c. induction ss as [|s ss IH]; intros a b c; [cbn; by rewrite !app_nil_r|].
  assert (Hs : forall keep, pairs_of_source v keep (N.of_nat s) =
    (es ← edges v (N.of_nat s); Some (omap (emit v keep (N.of_nat s)) (zip (seq 0 (length es)) es)))) by done.
  cbn [bundle_loop mapM]. rewrite !Hs. destruct (edges v (N.of_nat s)) as [es|]; cbn [mbind option_bind]; [|done].
  rewrite bundle_edges, IH. clear IH.
  destruct (mapM (fun s => pairs_of_source v (fun _ => true) (N.of_nat s)) ss); cbn [mbind option_bind]; [|done].
  destruct (mapM (fun s => pairs_of_source v is_blast_kind (N.of_nat s)) ss); cbn [mbind option_bind]; [|done].
  destruct (mapM (fun s => pairs_of_source v (fun k => k =? CALLS) (N.of_nat s)) ss); cbn [mbind option_bind]; [|done].
  cbn [mret option_ret mbind option_bind concat]. by rewrite !app_assoc.
Qed.

(** The bundle holds what the three separate builds give. *)
Lemma bundle_build_views (v : EdgesView) ra rb rc :
  reverse_build v None = Some ra -> build_filtered v is_blast_kind = Some rb -> reverse_build v (Some CALLS) = Some rc ->
  bundle_build v = Some (mkBundle ra rb rc).
Proof.
  unfold reverse_build, build_filtered, pairs_of, bundle_build. rewrite bundle_loop_pairs.
  destruct (mapM (fun s => pairs_of_source v (fun _ => true) (N.of_nat s)) _); cbn [mbind option_bind]; [|done].
  destruct (mapM (fun s => pairs_of_source v is_blast_kind (N.of_nat s)) _); cbn [mbind option_bind]; [|done].
  destruct (mapM (fun s => pairs_of_source v (fun x => x =? CALLS) (N.of_nat s)) _); cbn [mbind option_bind]; [|done].
  cbn [app]. intros -> -> ->. done.
Qed.

(** * Concrete runs *)

Definition span (n : N) : SpanEntry := mkSpan n 0 1 n 0 0.
Definition graph : CsrBuilder :=
  [mkRaw 2 0 CALLS 9 (span 1); mkRaw 0 1 REFS 8 (span 2); mkRaw 2 1 CALLS 7 (span 3); mkRaw 0 2 5 6 (span 4)].

Lemma csr_build_exact_witness :
  exists c, build graph 3 = Some c /\ offsets c = [0; 2; 2; 4] /\
    edges (view_of c) 2 = Some [mkEdge 0 CALLS 9; mkEdge 1 CALLS 7] /\ evidence c !! 3%nat = Some (span 3).
Proof.
  destruct (csr_build_exact graph 3 eq_refl) as [Hb _].
  destruct Hb as (c & Hc & _ & _ & Hed & _); [by repeat constructor|].
  exists c. split; [done|]. rewrite (Hed 2). vm_compute in Hc. injection Hc as <-. by split_and!.
Defined.

Lemma reverse_index_exact_witness :
  exists c r, build graph 3 = Some c /\ build_filtered (view_of c) (fun k => k =? CALLS) = Some r /\
    callers r 1 = [(2, 3)] /\ callers r 0 = [(2, 2)] /\ callers r 2 = [].
Proof.
  destruct (reverse_index_exact graph 3 (fun k => k =? CALLS) eq_refl eq_refl) as (c & r & Hc & Hr & Hcall); [by repeat constructor|].
  exists c, r. split; [done|]. split; [done|]. rewrite !Hcall by done. by vm_compute.
Defined.
